(* ===== verification/_CoqProject ===== *)
-Q . S2P
Prelude.v
ScriptNum.v
Script.v
Interpreter.v
InterpreterSafety.v
InterpreterProps.v
SigEncoding.v
Serialize.v
Compressor.v
Standard.v
Coins.v
CoinsView.v
CoinsViewProps.v
Amount.v
ArithUint256.v
ArithUint256Props.v
Chain.v
Pow.v
Upgrades.v
IncrementalMerkle.v
Merkle.v
Transaction.v
Undo.v
ChainState.v
CacheSteps.v
ChainStateProps.v
TxInputs.v
SigHash.v
SigHashProps.v
Block.v
TxChecks.v
BlockChecks.v
HashSpec.v
Hasher.v
Sha256.v
Sha512.v
Sha1.v
Ripemd160.v
Hash.v
Bloom.v
Mempool.v
MempoolProps.v
MempoolAccept.v
MempoolChain.v
ChainTip.v
ChainTipProps.v
BestChain.v
BestChainProps.v
Activation.v
IndexOps.v
Invalidation.v
NewHeaders.v
BestChainNode.v
Equihash.v
EquihashBits.v
EquihashRows.v
EquihashProps.v
EquihashBlock.v
EquihashSolve.v
EquihashTable.v
EquihashSolveProps.v
Base58.v
Bech32.v
ConvertBits.v
KeyIO.v
KeyIOProps.v
SaplingStrings.v
