(* ===== verification/Prelude.v ===== *)
(** * Pastel core: a verification library

    Pastel is a full node: it validates scripts, transactions and blocks, keeps a tree of block
    headers, selects the branch with the most work, keeps the set of unspent outputs of that
    branch and a pool of transactions that wait for a block.  This library models the consensus
    core of the node, function by function, and proves what the rest of the node relies on.
    Source names are relative to [src/src/].

    ** Parts of the program and the files that model them

    Conventions (this file): a C++ function that can fail is a function into [res E A]; a w-bit
    integer is a [Z] and every conversion or wrap-around is written out ([u32], [s64], ...);
    [size()] is [zlen].  Failed assertions, exceptions, bad pointers and exhausted fuel are
    error values, which the theorems exclude.

    Scripts and encodings:
    - [ScriptNum], [Script]: [CScriptNum] and [CScript] of [script/script.h]: numbers, opcodes,
      pushes, the instruction reader [GetOp2], signature-operation counts.
    - [Interpreter]: [script/interpreter.cpp]: encoding rules of signatures and keys, one
      definition per group of opcodes of [EvalScript], [VerifyScript], [CheckLockTime].  Its
      theorems are in [InterpreterSafety], [InterpreterProps] and [SigEncoding].
    - [Serialize]: the integer encodings of [utils/serialize.h].  [Compressor]:
      [compressor.cpp].  [Standard]: [script/standard.cpp].  [Amount]: [amount.cpp],
      [utilmoneystr.cpp].  [Upgrades]: [consensus/upgrades.cpp].
    - [ArithUint256], [ArithUint256Props]: [base_uint<256>] limb by limb, compact targets.

    Hash functions:
    - [HashSpec]: SHA-1, SHA-256, SHA-512 and RIPEMD-160 as their standards define them.
    - [Hasher]: the buffering that the classes of [crypto/] share; [Sha1], [Sha256], [Sha512],
      [Ripemd160]: the unrolled compression functions; [Hash]: the classes, HMAC, the double
      hashes of [utils/hash.h] and MurmurHash3.  [Bloom]: [netmsg/bloom.cpp].

    Data of the chain:
    - [Transaction]: [primitives/transaction.cpp]; [Block]: [primitives/block.cpp]; [Merkle]:
      Merkle trees of blocks and [merkleblock.cpp]; [IncrementalMerkle]: note commitment trees
      and witnesses of [zcash/IncrementalMerkleTree.cpp].
    - [SigHash], [SigHashProps]: [SignatureHash], the transaction signature checker and
      [script/sigcache.cpp].

    Unspent outputs:
    - [Coins]: [CCoins]; [CoinsView], [CoinsViewProps]: the views of [coins.cpp] and
      [txdb/txdb.cpp], the cache over any base view; [CacheSteps]: the cache as its clients
      compose it.
    - [Undo]: [undo.h] and the undo files.  [ChainState], [ChainStateProps]: [ConnectBlock] and
      [DisconnectBlock] of [main.cpp] with all they call on the coins.  [TxInputs]:
      [CheckTxInputs] and the subsidy.

    Checks:
    - [TxChecks]: [CheckTransaction], [ContextualCheckTransaction], finality, expiry and policy
      of [accept_to_mempool.cpp].  [BlockChecks]: [CheckBlock], [CheckBlockHeader] and their
      contextual counterparts.  [Pow]: [mining/pow.cpp].

    Equihash ([crypto/equihash.cpp]):
    - [Equihash]: packing of bits and indices, the rows of the table, [IsValidSolution],
      [CheckEquihashSolution]; [EquihashSolve]: [BasicSolve].  [EquihashBits] and [EquihashRows]
      say what arrays and rows hold, [EquihashProps] what the verifier accepts,
      [EquihashTable] and [EquihashSolveProps] what the solver finds, [EquihashBlock] what
      follows for an accepted block.

    Memory pool:
    - [Mempool], [MempoolProps]: [CTxMemPool] of [txmempool.cpp]; [MempoolAccept]:
      [AcceptToMemoryPool]; [MempoolChain]: the pool against the coin set.

    The active chain:
    - [Chain]: [CBlockIndex] and [CChain] of [chain.cpp].  Block index entries live in a heap
      (a map from addresses to records), so that [pprev] and [pskip] are shared pointers as in
      the program; a dangling dereference is an error value.
    - [ChainTip], [ChainTipProps]: [ConnectTip] and [DisconnectTip]: coins and pool together.
    - [BestChain]: the index of blocks of [main.cpp]: candidates, blocks without their parents,
      new headers, failed blocks, [FindMostWorkChain], [ActivateBestChain], [InvalidateBlock],
      [ReconsiderBlock].  [BestChainProps] and [Activation] hold its theorems, [IndexOps] and
      [NewHeaders] what keeps its invariant, [Invalidation] the decisions of the user.
    - [BestChainNode]: the operations of [ChainTip] behind the interface of [BestChain].

    Addresses and keys as strings:
    - [Base58]: [utils/base58.cpp]; [Bech32]: [utils/bech32.cpp] and the regrouping of bits of
      [utils/utilstrencodings.h], whose theorems are in [ConvertBits]; [KeyIO]: [key_io.cpp] with
      the constants of the four networks, [CKey] and the extended keys as data, and the Sapling
      addresses and keys.  [KeyIOProps] and [SaplingStrings] hold its theorems.

    How they interact: the interpreter calls script numbers, the instruction reader and a
    signature checker, which [SigHash] provides; [ConnectBlock] runs the interpreter over a
    coin cache and writes undo data; the pool accepts transactions against a cache over the
    coins of the tip and of the pool itself; moving the tip applies a block to the coins and
    takes the pool along; the activation of the best chain moves the tip from branch to branch.

    ** Interfaces between components

    - [CoinsView.CCoinsView] with the contract [CCoinsViewLaws] on an abstract state [view]:
      the database, the pool and the cache over any lawful base satisfy it, and clients
      ([ConnectBlock], the pool, the tip) are proved against it; [CCoinsViewWrites] is the part
      about writing.
    - [BestChain.TipOps] with [Activation.TipLaws]: what connecting and disconnecting a block
      promise to the activation; [BestChainNode.node_laws] discharges it.
    - [Hash.StandardHash]: a class of [crypto/] computes a function of a standard.
    - [SaplingStrings.FixedSize]: a serialized form of a fixed size, with which the strings of
      Sapling objects are proved exact for any object.

    ** What the theorems show

    - Best chain: [ActivateBestChain] terminates without failing an assertion, whatever blocks
      turn out to be invalid, and leaves the tip with the most work among the branches that
      can be connected; blocks may arrive in any order; a rejected block stays out; new headers
      have exact chain work.  [ConnectTip] and [DisconnectTip] make coins and pool follow a move
      of the tip, and discharge the interface by which the activation uses them.
    - Coins: connecting a block is the intended change of the abstract coin set, disconnecting
      it is the inverse, also through the undo file and across caches; flushing moves exactly
      what a cache showed to its base.
    - Pool: indexes and totals are consistent, no two transactions conflict, every input is
      available; acceptance, all removals, and moving the tip in both directions keep it so;
      removals take exactly the descendants.
    - Scripts: for every script, stack and set of flags within the limits, [EvalScript]
      terminates, fails no assertion and keeps its resource limits; pay-to-public-key-hash,
      pay-to-script-hash and CHECKMULTISIG mean what they promise; [Solver] recognises exactly
      the standard forms; signature hashes commit to
      the data their hash type covers; the signature cache is transparent.
    - Checks: [CheckTransaction], [CheckTxInputs] and [CheckBlock] accept what their rules say;
      heights in coinbases differ; the supply is bounded.
    - Equihash: the verifier never fails and accepts exactly the solutions of Equihash; the
      solver offers exactly what the verifier accepts, although it collides its table in
      place; an accepted block carries a solution for its own header.
    - Encodings: transactions, blocks, undo data, compressed outputs and integers read back as
      written; block hashes and Merkle roots fix the transactions; commitment trees and
      witnesses equal their definition on all leaves.
    - Strings: transparent addresses, private keys and the Sapling strings are read back as
      written on every network, and an accepted string is the encoding of the result up to
      spaces or case; one or two wrong characters of a Bech32 string are detected; the first
      characters of an address tell its network.
    - Hashes: the classes compute the standard functions however the message is split.
    - Block tree and work: ancestor search over the skip list equals walking [pprev];
      retargeting neither overflows nor leaves its bounds; [CheckProofOfWork] accepts exactly
      the hashes up to a valid target; limb operations are arithmetic modulo 2^256.

    ** Fuel and termination

    Loops that are not structural take fuel that their caller computes from the input, and
    running out is a distinguished error which the theorems exclude: the interpreter loop
    takes the length of the script (every instruction consumes a byte); ancestor and fork walks
    the height of the block plus one (every step lowers the height); long division the shift
    distance plus one; the mask loops of [CCoins] the length of the vector or of the input;
    decimal printing twenty digits; removal from the pool the length of the queue plus the
    number of outputs of the pool (every round removes an entry or a member of the queue); the
    generation of hashes for the solver the size of its list, its loops the length of the
    table, the verifier one more than the rounds; the
    search for the best candidate and the pruning of candidates their number; [UpdateChainTx]
    one plus the number of waiting blocks; the activation (size + 1)^2 for an index of that
    size: every round marks a new block as failed, or raises the work of the tip.

    ** Parameters and hypotheses

    - [Interpreter.Crypto]: the hash functions and the low-S test ([Hash.node_crypto] is the
      instance of the node); [CryptoLaws] states digest lengths.  The signature checker (a
      virtual class in the source) is a record of functions.
    - [SigHash.SigCrypto]: BLAKE2b and ECDSA verification; [Compressor.Secp256k1]: curve points
      of libsecp256k1, with the laws of its documentation; [TxChecks.SaplingVerifier]: the
      proof library; [IncrementalMerkle.MerkleHash]: the hash of a tree.
    - [CoinsView.CacheParams]: commitment trees with their roots, and memory accounting;
      [CacheParamsLaws] states that roots are collision-free and not null.
    - [ChainState.ConnectEnv] and [BlockChecks.BlockEnv]: verdicts of parts outside the model
      (payments to masternodes, tickets, Pastel ID signatures, mining eligibility; the verdict on
      the Equihash solution is that of [Equihash] in [EquihashBlock]),
      chain parameters, and the allocation in undo files.  [MempoolAccept.accept_env]: verdicts
      that depend on floating-point priorities, on the rate limiter and on tickets.
    - In [Equihash], BLAKE2b, the bytes of uninitialised rows, [std::sort] and the callbacks of
      the solver.
    - In [KeyIO], the test of libsecp256k1 that 32 bytes are a private key.
    - [BestChainNode.surroundings]: the disk and the clock during a run.
    Each class has a concrete instance, used by the examples at the end of the files.

    ** Observations

    - A flush copies a null best block into a parent cache, which then asks its own base
      again; the theorem on [Flush] therefore assumes that the best block is known.
    - [ParseMoney] refuses amounts of 10^10 coins and more that [FormatMoney] prints
      ([Amount.money_guard_rejects]); two upgrades share a branch id
      ([Upgrades.branch_ids_distinct]); two rows of the table in the comment on variable-length
      integers differ from the code ([Serialize.varint_table]).
    - Moving a transaction loses its binding signature ([Transaction]); the subsidies add up to
      more than [MAX_MONEY] ([TxInputs]); [CTxMemPool::clear] keeps pointers into the entries
      it destroys ([Mempool]); [DisconnectTip] returns after the coins are flushed when a ticket
      cannot be erased ([ChainTip]).
    - Addresses of the development network start with 44 and not with the letters of the
      comments; [DecodeSecret] assigns no message when the number is no key ([KeyIOProps]).
    - In the index of blocks: a stored block that fails as possibly corrupt is tried again and
      again; [UpdateChainTx] stops at the first entry it cannot count and changes sequence
      numbers, which are keys of an ordered set; [ReconsiderBlock] does not make the ancestors
      it clears candidates; a block that arrives while its parent is marked as failed is not
      remembered.  The invariants of [IndexOps] and [TipLaws] say what excludes these.

    ** Not modelled

    Block files, pruning and loading of the index, network messages and peers, wallet, RPC,
    start-up and tools: storage, network and user interface around the modelled core.
    Masternodes, payments, tickets and mining eligibility, whose verdicts are parameters.  The
    optimised Equihash solver.  Key generation, derivation and signing, note encryption and
    proofs, which rest on external libraries.  The fee
    estimator and other floating-point code ([getdouble], [GetPriority]), the address and spent
    indexes, notifications, and printing for humans. *)

From Stdlib Require Export ZArith Lia.
From stdpp Require Export base numbers option list.

#[global] Open Scope Z_scope.

(** ** Results: C++ error paths as values *)

Inductive res (E A : Type) : Type :=
| Ok (a : A)
| Err (e : E).
Arguments Ok {E A} a.
Arguments Err {E A} e.

Definition res_bind {E A B : Type} (m : res E A) (k : A -> res E B) : res E B :=
  match m with
  | Ok a => k a
  | Err e => Err e
  end.

(** [guard_err c e]: "if (!c) return error e". *)
Definition guard_err {E : Type} (c : bool) (e : E) : res E unit :=
  if c then Ok tt else Err e.

Declare Scope res_scope.
Delimit Scope res_scope with res.
Notation "'let?' x ':=' m 'in' k" := (res_bind m (fun x => k))
  (at level 10, x pattern, m at level 100, k at level 200) : res_scope.
Notation "'check' c 'else' e ';;' k" := (res_bind (guard_err c e) (fun _ => k))
  (at level 10, c at level 99, e at level 99, k at level 200) : res_scope.
#[global] Open Scope res_scope.

Definition is_ok {E A : Type} (r : res E A) : bool :=
  match r with Ok _ => true | Err _ => false end.

(** ** Machine integers: a w-bit value is a [Z], the wrap-around is explicit *)

Definition u8 (x : Z) : Z := x mod 2 ^ 8.
Definition u16 (x : Z) : Z := x mod 2 ^ 16.
Definition u32 (x : Z) : Z := x mod 2 ^ 32.
Definition u64 (x : Z) : Z := x mod 2 ^ 64.
Definition s32 (x : Z) : Z := (x + 2 ^ 31) mod 2 ^ 32 - 2 ^ 31.
Definition s64 (x : Z) : Z := (x + 2 ^ 63) mod 2 ^ 64 - 2 ^ 63.

Definition INT32_MAX : Z := 2 ^ 31 - 1.
Definition INT32_MIN : Z := - 2 ^ 31.
Definition INT64_MAX : Z := 2 ^ 63 - 1.
Definition INT64_MIN : Z := - 2 ^ 63.
Definition UINT32_MAX : Z := 2 ^ 32 - 1.
Definition UINT64_MAX : Z := 2 ^ 64 - 1.

(** A byte ([unsigned char]) and a byte vector ([v_uint8]). *)
Definition is_byte (b : Z) : Prop := 0 <= b < 256.
Abbreviation bytes := (list Z) (only parsing).
Abbreviation bytes_ok l := (Forall is_byte l).

(** Length of a vector as a [Z] ([size()]). *)
Definition zlen {A : Type} (l : list A) : Z := Z.of_nat (length l).

(** [v[i]] for an index computed in the program; [None] is an access out of range. *)
Definition znth {A : Type} (l : list A) (i : Z) : option A :=
  if (i <? 0) then None else l !! Z.to_nat i.

Definition bytes_eqb (a b : bytes) : bool := bool_decide (a = b).

(** ** Little-endian encoding of fixed-width integers *)

Fixpoint le_bytes (n : nat) (x : Z) : bytes :=
  match n with
  | O => []
  | S n => x mod 256 :: le_bytes n (x / 256)
  end.

Fixpoint le_val (l : bytes) : Z :=
  match l with
  | [] => 0
  | b :: l => b + 256 * le_val l
  end.

(** ** Tactics *)

Ltac case_if :=
  match goal with
  | |- context [if ?c then _ else _] => destruct c eqn:?
  end.

Ltac case_if_in H :=
  match type of H with
  | context [if ?c then _ else _] => destruct c eqn:?
  end.

(** Boolean comparisons of [Z] and their negations to propositions. *)
Ltac zbool :=
  repeat match goal with
  | H : (_ && _) = true |- _ => apply andb_prop in H; destruct H
  | H : (_ || _) = false |- _ => apply orb_false_elim in H; destruct H
  | H : (_ || _) = true |- _ => apply orb_prop in H
  | H : (_ && _) = false |- _ => apply andb_false_iff in H
  | H : negb _ = true |- _ => apply negb_true_iff in H
  | H : negb _ = false |- _ => apply negb_false_iff in H
  | H : (_ =? _) = true |- _ => apply Z.eqb_eq in H
  | H : (_ =? _) = false |- _ => apply Z.eqb_neq in H
  | H : (_ <? _) = true |- _ => apply Z.ltb_lt in H
  | H : (_ <? _) = false |- _ => apply Z.ltb_ge in H
  | H : (_ <=? _) = true |- _ => apply Z.leb_le in H
  | H : (_ <=? _) = false |- _ => apply Z.leb_gt in H
  | H : (_ >? _) = true |- _ => rewrite Z.gtb_ltb in H
  | H : (_ >? _) = false |- _ => rewrite Z.gtb_ltb in H
  | H : (_ >=? _) = true |- _ => rewrite Z.geb_leb in H
  | H : (_ >=? _) = false |- _ => rewrite Z.geb_leb in H
  end.

(** Inversion of a successful chain of [let?] and [check]. *)
Ltac res_inv H :=
  repeat (first
    [ discriminate H
    | progress (cbn [res_bind guard_err] in H)
    | match type of H with
      | res_bind ?m _ = Ok _ => destruct m eqn:?; cbn [res_bind] in H; [|discriminate H]
      | res_bind (guard_err ?c _) _ = Ok _ => destruct c eqn:?
      | (if ?c then _ else _) = Ok _ => destruct c eqn:?
      | (match ?o with _ => _ end) = Ok _ => destruct o eqn:?
      end ]).

Lemma res_bind_Ok {E A B} (m : res E A) (k : A -> res E B) b :
  res_bind m k = Ok b <-> exists a, m = Ok a /\ k a = Ok b.
Proof.
  destruct m; cbn; (split; [|by intros (? & [= <-] & ?)]); [by eexists|done].
Qed.

Lemma guard_err_Ok {E} c (e : E) u : guard_err c e = Ok u -> c = true.
Proof. by destruct c. Qed.

(** Passed guards among the hypotheses as propositions. *)
Ltac guards := repeat match goal with H : guard_err _ _ = Ok _ |- _ => apply guard_err_Ok in H end; zbool.

Create HintDb pastel.
Create Rewrite HintDb pastel.

(** ** Generic lemmas *)

Lemma u64_range x : 0 <= u64 x < 2 ^ 64.
Proof. apply Z.mod_pos_bound; lia. Qed.

Lemma u32_range x : 0 <= u32 x < 2 ^ 32.
Proof. apply Z.mod_pos_bound; lia. Qed.

Lemma u64_id x : 0 <= x < 2 ^ 64 -> u64 x = x.
Proof. apply Z.mod_small. Qed.

Lemma u32_id x : 0 <= x < 2 ^ 32 -> u32 x = x.
Proof. apply Z.mod_small. Qed.

Lemma u8_id x : 0 <= x < 2 ^ 8 -> u8 x = x.
Proof. apply Z.mod_small. Qed.

Lemma u16_id x : 0 <= x < 2 ^ 16 -> u16 x = x.
Proof. apply Z.mod_small. Qed.

Lemma s64_id x : INT64_MIN <= x <= INT64_MAX -> s64 x = x.
Proof. unfold s64, INT64_MIN, INT64_MAX. intros. rewrite Z.mod_small; lia. Qed.

Lemma s32_id x : INT32_MIN <= x <= INT32_MAX -> s32 x = x.
Proof. unfold s32, INT32_MIN, INT32_MAX. intros. rewrite Z.mod_small; lia. Qed.

Lemma s64_range x : INT64_MIN <= s64 x <= INT64_MAX.
Proof.
  unfold s64, INT64_MIN, INT64_MAX.
  pose proof (Z.mod_pos_bound (x + 2 ^ 63) (2 ^ 64)). lia.
Qed.

Lemma zlen_nonneg {A} (l : list A) : 0 <= zlen l.
Proof. unfold zlen; lia. Qed.

Lemma zlen_nil {A} : zlen (@nil A) = 0.
Proof. reflexivity. Qed.

Lemma zlen_cons {A} (x : A) l : zlen (x :: l) = 1 + zlen l.
Proof. unfold zlen; cbn [length]; lia. Qed.

Lemma zlen_sing {A} (x : A) : zlen [x] = 1.
Proof. reflexivity. Qed.

Lemma zlen_app {A} (l k : list A) : zlen (l ++ k) = zlen l + zlen k.
Proof. unfold zlen; rewrite length_app; lia. Qed.

Lemma znth_lookup {A} (l : list A) (n : nat) : znth l (Z.of_nat n) = l !! n.
Proof. unfold znth. destruct (Z.ltb_spec (Z.of_nat n) 0); [lia|]. by rewrite Nat2Z.id. Qed.

Lemma znth_is_Some {A} (l : list A) i : 0 <= i < zlen l -> is_Some (znth l i).
Proof.
  unfold znth, zlen. intros H. destruct (Z.ltb_spec i 0); [lia|].
  apply lookup_lt_is_Some. lia.
Qed.

Lemma bytes_eqb_spec a b : bytes_eqb a b = true <-> a = b.
Proof. unfold bytes_eqb. apply bool_decide_eq_true. Qed.

Lemma length_le_bytes n x : length (le_bytes n x) = n.
Proof. revert x. induction n; intros; simpl; [done|]. by rewrite IHn. Qed.

Lemma le_bytes_app n k x : le_bytes (n + k) x = le_bytes n x ++ le_bytes k (x / 256 ^ Z.of_nat n).
Proof.
  revert x. induction n as [|n IH]; intros x; [cbn; by rewrite Z.div_1_r|].
  cbn [Nat.add le_bytes app]. rewrite IH, Z.div_div by lia. do 4 f_equal. rewrite Nat2Z.inj_succ, Z.pow_succ_r by lia. done.
Qed.

Lemma le_bytes_ok n x : bytes_ok (le_bytes n x).
Proof.
  revert x. induction n; intros; simpl; constructor; [|apply IHn].
  apply Z.mod_pos_bound; lia.
Qed.

Lemma le_val_le_bytes n x : 0 <= x < 256 ^ Z.of_nat n -> le_val (le_bytes n x) = x.
Proof.
  revert x. induction n as [|n IH]; intros x H.
  - change (256 ^ Z.of_nat 0) with 1 in H. simpl. lia.
  - cbn [le_bytes le_val].
    rewrite Nat2Z.inj_succ, Z.pow_succ_r in H by lia.
    rewrite IH.
    + pose proof (Z.div_mod x 256). lia.
    + split; [apply Z.div_pos; lia|]. apply Z.div_lt_upper_bound; lia.
Qed.

Lemma le_val_range l : bytes_ok l -> 0 <= le_val l < 256 ^ zlen l.
Proof.
  unfold zlen. induction 1 as [|b l Hb Hl IH]; [simpl; lia|].
  cbn [le_val length]. rewrite Nat2Z.inj_succ, Z.pow_succ_r by lia.
  unfold is_byte in Hb. lia.
Qed.

Lemma le_bytes_le_val l : bytes_ok l -> le_bytes (length l) (le_val l) = l.
Proof.
  induction 1 as [|b l Hb Hl IH]; [done|].
  unfold is_byte in Hb. cbn [le_val length le_bytes]. f_equal.
  - rewrite Z.mul_comm, Z.mod_add by lia. apply Z.mod_small; lia.
  - rewrite Z.mul_comm, Z.div_add by lia.
    rewrite Z.div_small by lia. exact IH.
Qed.

Lemma le_val_app l k : le_val (l ++ k) = le_val l + 256 ^ zlen l * le_val k.
Proof.
  unfold zlen. induction l as [|b l IH].
  - cbn [le_val app length]. change (256 ^ Z.of_nat 0) with 1. lia.
  - cbn [le_val app length]. rewrite Nat2Z.inj_succ, Z.pow_succ_r, IH by lia. lia.
Qed.

(** Finite reasoning on bytes: a boolean fact on all 256 values by computation. *)
Lemma byte_forall (P : Z -> bool) :
  forallb P (seqZ 0 256) = true -> forall b, is_byte b -> P b = true.
Proof.
  intros H b Hb. rewrite forallb_forall in H. apply H.
  apply list_elem_of_In, elem_of_seqZ. unfold is_byte in Hb. lia.
Qed.

Lemma byte_land80 b : is_byte b -> (Z.land b 0x80 =? 0) = (b <? 128).
Proof.
  intros H. apply eqb_true_iff.
  apply (byte_forall (fun b => eqb (Z.land b 0x80 =? 0) (b <? 128))); [done|exact H].
Qed.

(** [|] of two values with disjoint bits is addition. *)
Lemma lor_shiftl_add a b n :
  0 <= n -> 0 <= a < 2 ^ n -> Z.lor a (Z.shiftl b n) = a + b * 2 ^ n.
Proof.
  intros Hn Ha. rewrite <- Z.shiftl_mul_pow2 by lia.
  rewrite Z.add_nocarry_lxor, Z.lxor_lor; try done; apply Z.bits_inj'; intros i Hi;
    rewrite Z.land_spec, Z.bits_0;
    (destruct (Z.ltb_spec i n);
     [ rewrite (Z.shiftl_spec_low b n i) by lia; by rewrite andb_false_r
     | rewrite <- (Z.mod_small a (2 ^ n)) by lia;
       rewrite Z.mod_pow2_bits_high by lia; done ]).
Qed.

(** [x & ~(1 << n)] on a 64-bit value whose highest bit is [n]. *)
Lemma land_clear_bit lo n :
  0 <= n < 64 -> 0 <= lo < 2 ^ n ->
  Z.land (lo + 2 ^ n) (u64 (Z.lnot (Z.shiftl 1 n))) = lo.
Proof.
  intros Hn Hlo. rewrite <- (Z.mul_1_l (2 ^ n)), <- lor_shiftl_add by lia.
  unfold u64. apply Z.bits_inj'. intros i Hi. rewrite Z.land_spec, Z.lor_spec.
  assert (Z.testbit lo i = true -> i < n) as Hlow.
  { intros Ht. destruct (Z.ltb_spec i n); [done|].
    rewrite <- (Z.mod_small lo (2 ^ n)), Z.mod_pow2_bits_high in Ht by lia. done. }
  destruct (Z.ltb_spec i 64).
  - rewrite Z.mod_pow2_bits_low, Z.lnot_spec by lia.
    rewrite Z.shiftl_1_l, Z.pow2_bits_eqb by lia.
    destruct (Z.testbit lo i) eqn:Et; destruct (Z.eqb_spec n i); cbn; try done.
    specialize (Hlow eq_refl). lia.
  - rewrite Z.mod_pow2_bits_high, andb_false_r by lia.
    destruct (Z.testbit lo i) eqn:Et; [|done]. specialize (Hlow eq_refl). lia.
Qed.

Lemma u64_s64 x : u64 (s64 x) = u64 x.
Proof.
  unfold u64, s64. rewrite Zminus_mod, Z.mod_mod, <- Zminus_mod by lia. f_equal. lia.
Qed.

Lemma list_snoc_cases {A} (l : list A) : l = [] \/ exists k x, l = k ++ [x].
Proof. destruct l as [|x k _] using rev_ind; eauto. Qed.

Lemma last_app_Some {A} (l : list A) x : last l = Some x -> exists init, l = init ++ [x].
Proof.
  intros H. destruct l as [|y l _] using rev_ind; [done|].
  rewrite last_snoc in H. injection H as ->. eauto.
Qed.

#[export] Hint Resolve le_bytes_ok u64_range u32_range zlen_nonneg : pastel.
#[export] Hint Rewrite @zlen_app @zlen_sing @zlen_cons length_le_bytes : pastel.

(** ** Concrete digests

    A polynomial hash and a check for collisions, with which the parameters that stand for
    hash functions are instantiated in examples. *)

Definition poly_hash (x : bytes) : Z := foldr (fun b acc => Z.land (b + 263 * acc) 0x1fffffffffffffff) 1 x.

(** Boolean equality of byte strings that computes fast. *)
Fixpoint same_bytes (a b : bytes) : bool :=
  match a, b with
  | [], [] => true
  | x :: a, y :: b => (x =? y) && same_bytes a b
  | _, _ => false
  end.
Lemma same_bytes_spec a b : same_bytes a b = true <-> a = b.
Proof.
  revert b. induction a as [|x a IH]; intros [|y b]; cbn; [done|done|done|].
  rewrite andb_true_iff, IH, Z.eqb_eq. split; [by intros [-> ->]|by intros [= -> ->]].
Qed.

(** Pairwise: equal values of [h] come from equal values of [d]. *)
Definition injective_on {A : Type} (h d : A -> bytes) (l : list A) : bool :=
  forallb (fun a => forallb (fun b => if same_bytes (h a) (h b) then same_bytes (d a) (d b) else true) l) l.
Lemma injective_on_spec {A} (h d : A -> bytes) l : injective_on h d l = true ->
  forall a b, a ∈ l -> b ∈ l -> h a = h b -> d a = d b.
Proof.
  unfold injective_on. intros Hf a b Ha Hb E. rewrite forallb_forall in Hf. specialize (Hf a ltac:(by apply list_elem_of_In)).
  rewrite forallb_forall in Hf. specialize (Hf b ltac:(by apply list_elem_of_In)).
  rewrite (proj2 (same_bytes_spec _ _) E) in Hf. by apply same_bytes_spec.
Qed.
