(* ===== verification/ScriptNum.v ===== *)
(** * Script numbers

    [CScriptNum] of [script/script.h]: the signed little-endian encoding that script
    arithmetic uses, its range checks and the minimal-encoding rule (BIP62 rule 4). *)

From S2P Require Import Prelude.

(** ** Definitions *)

(** [scriptnum_error], by the two messages the constructor throws. *)
Inductive scriptnum_error : Set :=
| ScriptNumOverflow
| ScriptNumNonMinimal.

Definition nDefaultMaxNumSize : Z := 4.

(** The loop [while(absvalue)] of [serialize]; a [uint64_t] has at most 8 bytes. *)
Fixpoint serialize_abs (fuel : nat) (absvalue : Z) : bytes :=
  match fuel with
  | O => []
  | S fuel =>
      if absvalue =? 0 then []
      else Z.land absvalue 0xff :: serialize_abs fuel (Z.shiftr absvalue 8)
  end.

(** [CScriptNum::serialize] *)
Definition serialize (value : Z) : bytes :=
  if value =? 0 then []
  else
    let neg := value <? 0 in
    let absvalue := u64 (if neg then - value else value) in
    let result := serialize_abs 8 absvalue in
    match last result with
    | None => result
    | Some back =>
        if negb (Z.land back 0x80 =? 0) then result ++ [if neg then 0x80 else 0]
        else if neg then removelast result ++ [Z.lor back 0x80]
        else result
    end.

(** The accumulation loop of [set_vch]: [result |= int64_t(vch[i]) << 8*i]. *)
Fixpoint set_vch_loop (i : Z) (result : Z) (vch : bytes) : Z :=
  match vch with
  | [] => result
  | b :: vch => set_vch_loop (i + 1) (s64 (Z.lor result (Z.shiftl b (8 * i)))) vch
  end.

(** [CScriptNum::set_vch] *)
Definition set_vch (vch : bytes) : Z :=
  match last vch with
  | None => 0
  | Some back =>
      let result := set_vch_loop 0 0 vch in
      if negb (Z.land back 0x80 =? 0) then
        - s64 (Z.land (u64 result) (u64 (Z.lnot (Z.shiftl 0x80 (8 * (zlen vch - 1))))))
      else result
  end.

(** The minimality test of the constructor: [true] when it throws. *)
Definition non_minimal (vch : bytes) : bool :=
  match last vch with
  | None => false
  | Some back =>
      (Z.land back 0x7f =? 0) &&
      ((zlen vch <=? 1) ||
       match znth vch (zlen vch - 2) with
       | Some b => Z.land b 0x80 =? 0
       | None => true
       end)
  end.

(** [CScriptNum(vch, fRequireMinimal, nMaxNumSize)] *)
Definition CScriptNum (vch : bytes) (fRequireMinimal : bool) (nMaxNumSize : Z)
  : res scriptnum_error Z :=
  if zlen vch >? nMaxNumSize then Err ScriptNumOverflow
  else if fRequireMinimal && non_minimal vch then Err ScriptNumNonMinimal
  else Ok (set_vch vch).

(** [CScriptNum::getint] *)
Definition getint (m_value : Z) : Z :=
  if m_value >? INT32_MAX then INT32_MAX
  else if m_value <? INT32_MIN then INT32_MIN
  else m_value.

(** [operator-()]; [None] is a failed [assert]. *)
Definition num_neg (m_value : Z) : option Z :=
  if m_value =? INT64_MIN then None else Some (- m_value).

(** [operator+=(int64_t)] *)
Definition num_add_assign (m_value rhs : Z) : option Z :=
  if (rhs =? 0) || ((rhs >? 0) && (m_value <=? INT64_MAX - rhs))
     || ((rhs <? 0) && (m_value >=? INT64_MIN - rhs))
  then Some (m_value + rhs) else None.

(** [operator-=(int64_t)] *)
Definition num_sub_assign (m_value rhs : Z) : option Z :=
  if (rhs =? 0) || ((rhs >? 0) && (m_value >=? INT64_MIN + rhs))
     || ((rhs <? 0) && (m_value <=? INT64_MAX + rhs))
  then Some (m_value - rhs) else None.

(** [operator+] and [operator-] on two numbers: plain [int64_t] arithmetic. *)
Definition num_add (a b : Z) : Z := s64 (a + b).
Definition num_sub (a b : Z) : Z := s64 (a - b).

(** ** Bytes and their bits *)

Lemma byte_land7f b : is_byte b -> Z.land b 0x7f = b mod 128.
Proof. intros _. change 0x7f with (Z.ones 7). by rewrite Z.land_ones. Qed.

Lemma byte_lor80 b : is_byte b -> b < 128 -> Z.lor b 0x80 = b + 128.
Proof.
  intros H Hb. unfold is_byte in H. pose proof (lor_shiftl_add b 1 7) as E.
  change (Z.shiftl 1 7) with 128 in E. lia.
Qed.

(** ** The magnitude loop *)

Lemma serialize_abs_cons fuel a :
  a <> 0 -> serialize_abs (S fuel) a = a mod 256 :: serialize_abs fuel (a / 256).
Proof.
  intros Ha. cbn [serialize_abs]. apply Z.eqb_neq in Ha. rewrite Ha.
  change 0xff with (Z.ones 8). rewrite Z.land_ones, Z.shiftr_div_pow2 by lia. done.
Qed.

Lemma serialize_abs_0 fuel : serialize_abs fuel 0 = [].
Proof. by destruct fuel. Qed.

Lemma serialize_abs_spec fuel a :
  0 <= a < 256 ^ Z.of_nat fuel ->
  bytes_ok (serialize_abs fuel a) /\ le_val (serialize_abs fuel a) = a /\
  (length (serialize_abs fuel a) <= fuel)%nat.
Proof.
  revert a. induction fuel as [|fuel IH]; intros a Ha.
  - change (256 ^ Z.of_nat 0) with 1 in Ha. cbn. split_and!; [constructor|lia..].
  - destruct (Z.eq_dec a 0) as [->|Hn].
    { rewrite serialize_abs_0. cbn. split_and!; [constructor|lia..]. }
    rewrite serialize_abs_cons by done.
    rewrite Nat2Z.inj_succ, Z.pow_succ_r in Ha by lia.
    destruct (IH (a / 256)) as (H1 & H2 & H3).
    { split; [apply Z.div_pos; lia|apply Z.div_lt_upper_bound; lia]. }
    cbn [le_val length]. split_and!.
    + constructor; [apply Z.mod_pos_bound; lia|done].
    + rewrite H2. pose proof (Z.div_mod a 256). lia.
    + lia.
Qed.

(** The most significant byte the loop emits is not zero. *)
Lemma serialize_abs_last fuel a d :
  0 <= a < 256 ^ Z.of_nat fuel -> last (serialize_abs fuel a) = Some d -> d <> 0.
Proof.
  revert a. induction fuel as [|fuel IH]; intros a Ha; [done|].
  destruct (Z.eq_dec a 0) as [->|Hn]; [by rewrite serialize_abs_0|].
  rewrite serialize_abs_cons by done.
  rewrite Nat2Z.inj_succ, Z.pow_succ_r in Ha by lia.
  assert (0 <= a / 256 < 256 ^ Z.of_nat fuel) as Hd.
  { split; [apply Z.div_pos; lia|apply Z.div_lt_upper_bound; lia]. }
  destruct (serialize_abs fuel (a / 256)) as [|x l] eqn:E.
  - cbn [last]. intros [= <-]. destruct (serialize_abs_spec fuel (a / 256) Hd) as (_ & Hv & _).
    rewrite E in Hv. cbn [le_val] in Hv. pose proof (Z.div_mod a 256). lia.
  - rewrite last_cons_cons. rewrite <- E. by apply IH.
Qed.

(** The loop inverts the little-endian value of a list without leading zero byte. *)
Lemma serialize_abs_le_val fuel l d :
  bytes_ok (l ++ [d]) -> d <> 0 -> (length l < fuel)%nat ->
  serialize_abs fuel (le_val (l ++ [d])) = l ++ [d].
Proof.
  revert fuel. induction l as [|b l IH]; intros fuel Hok Hd Hf;
    (destruct fuel as [|fuel]; [cbn in Hf; lia|]).
  - apply Forall_cons in Hok as [Hb _]. unfold is_byte in Hb. cbn [app le_val].
    rewrite serialize_abs_cons by lia.
    rewrite Z.mul_0_r, Z.add_0_r, Z.mod_small, Z.div_small, serialize_abs_0 by lia. done.
  - cbn [app] in *. apply Forall_cons in Hok as [Hb Hok]. unfold is_byte in Hb.
    pose proof (le_val_range _ Hok) as Hr.
    assert (le_val (l ++ [d]) <> 0) as Hnz.
    { intros H0. specialize (IH (S (length l)) Hok Hd ltac:(lia)).
      rewrite H0, serialize_abs_0 in IH. by destruct l. }
    cbn [le_val length] in *. rewrite serialize_abs_cons by lia.
    rewrite (Z.mul_comm 256), Z.mod_add, Z.div_add by lia.
    rewrite Z.mod_small, Z.div_small, Z.add_0_l by lia. f_equal. apply IH; [done..|lia].
Qed.

(** ** Shape of [serialize] *)

(** The digits of a non-zero magnitude below 2^63, with their most significant byte. *)
Lemma serialize_abs_decompose a :
  0 < a < 2 ^ 63 ->
  exists l d, serialize_abs 8 a = l ++ [d] /\ bytes_ok (l ++ [d]) /\ d <> 0 /\
    le_val (l ++ [d]) = a /\ zlen l <= 7 /\ (128 <= d -> zlen l <= 6).
Proof.
  intros Ha.
  assert (0 <= a < 256 ^ Z.of_nat 8) as Hr by (change (256 ^ Z.of_nat 8) with (2 ^ 64); lia).
  destruct (serialize_abs_spec 8 a Hr) as (Hok & Hv & Hl).
  destruct (last (serialize_abs 8 a)) as [d|] eqn:E.
  2:{ apply last_None in E. rewrite E in Hv. cbn in Hv. lia. }
  pose proof (serialize_abs_last _ _ _ Hr E) as Hd.
  destruct (last_app_Some _ _ E) as [l Hl']. exists l, d. rewrite Hl' in *.
  rewrite length_app in Hl. cbn [length] in Hl.
  split_and!; [done..|unfold zlen; lia|]. intros H128.
  destruct (decide (length l = 7%nat)) as [H7|]; [|unfold zlen; lia].
  rewrite le_val_app in Hv. unfold zlen in Hv. rewrite H7 in Hv. cbn [le_val] in Hv.
  change (256 ^ Z.of_nat 7) with (2 ^ 56) in Hv.
  apply Forall_app in Hok as [Hok _]. pose proof (le_val_range _ Hok). lia.
Qed.

(** Sign and magnitude form of the encoding. *)
Definition sign_byte (neg : bool) (d : Z) : Z := if neg then d + 128 else d.

Lemma byte_sign_cases b :
  is_byte b -> exists neg d, b = sign_byte neg d /\ 0 <= d < 128.
Proof.
  unfold is_byte, sign_byte. intros H.
  destruct (Z.ltb_spec b 128); [exists false, b|exists true, (b - 128)]; lia.
Qed.

Lemma serialize_shape v :
  v <> 0 -> - 2 ^ 63 < v < 2 ^ 63 ->
  exists l d, bytes_ok (l ++ [d]) /\ d < 128 /\ zlen l <= 7 /\
    serialize v = l ++ [sign_byte (v <? 0) d] /\ le_val (l ++ [d]) = Z.abs v /\
    (d = 0 -> exists k c, l = k ++ [c] /\ 128 <= c).
Proof.
  intros Hv Hr. unfold serialize.
  destruct (Z.eqb_spec v 0) as [|_]; [done|].
  replace (u64 (if v <? 0 then - v else v)) with (Z.abs v)
    by (rewrite u64_id; destruct (Z.ltb_spec v 0); lia).
  destruct (serialize_abs_decompose (Z.abs v)) as (l & d & -> & Hok & Hd & Hval & Hl & Hl');
    [lia|]. rewrite last_snoc.
  pose proof Hok as Hok2. apply Forall_app in Hok2 as [Hok1 Hb].
  apply Forall_cons in Hb as [Hb _].
  rewrite byte_land80 by done. destruct (Z.ltb_spec d 128) as [H|H]; cbn [negb].
  - exists l, d. split_and!; [done..| |done|done].
    destruct (v <? 0); [|done]. unfold sign_byte. by rewrite removelast_last, byte_lor80.
  - exists (l ++ [d]), 0. split_and!.
    + apply Forall_app. split; [done|]. repeat constructor; lia.
    + lia.
    + specialize (Hl' H). rewrite zlen_app, zlen_sing. lia.
    + by destruct (v <? 0).
    + rewrite le_val_app. cbn [le_val]. rewrite Hval. lia.
    + intros _. eauto.
Qed.

(** ** Shape of [set_vch] *)

Lemma set_vch_loop_spec vch i acc :
  bytes_ok vch -> 0 <= i -> i + zlen vch <= 8 -> 0 <= acc < 256 ^ i ->
  (vch = [] -> i <= 7) ->
  set_vch_loop i acc vch = s64 (acc + 256 ^ i * le_val vch).
Proof.
  revert i acc. induction vch as [|b vch IH]; intros i acc Hok Hi Hlen Hacc Hnil.
  - cbn. rewrite Z.mul_0_r, Z.add_0_r, s64_id; [done|].
    specialize (Hnil eq_refl).
    assert (256 ^ i <= 256 ^ 7) by (apply Z.pow_le_mono_r; lia).
    unfold INT64_MIN, INT64_MAX. lia.
  - apply Forall_cons in Hok as [Hb Hok]. unfold is_byte in Hb.
    rewrite zlen_cons in Hlen. cbn [set_vch_loop le_val].
    assert (256 ^ i = 2 ^ (8 * i)) as E by (rewrite Z.pow_mul_r by lia; done).
    rewrite lor_shiftl_add by lia. rewrite <- E.
    destruct vch as [|c vch].
    + cbn. f_equal. lia.
    + rewrite zlen_cons in Hlen. pose proof (zlen_nonneg vch).
      assert (256 ^ (i + 1) <= 256 ^ 7) by (apply Z.pow_le_mono_r; lia).
      rewrite Z.pow_add_r in * by lia. change (256 ^ 1) with 256 in *.
      rewrite s64_id by (unfold INT64_MIN, INT64_MAX; nia).
      rewrite IH; [|done|lia|rewrite zlen_cons; lia| |done].
      * f_equal. rewrite Z.pow_add_r by lia. cbn [le_val]. lia.
      * rewrite Z.pow_add_r by lia. nia.
Qed.

Lemma set_vch_spec l d neg :
  bytes_ok (l ++ [d]) -> d < 128 -> zlen l <= 7 ->
  set_vch (l ++ [sign_byte neg d]) =
    if neg then - le_val (l ++ [d]) else le_val (l ++ [d]).
Proof.
  intros Hok Hd Hl. apply Forall_app in Hok as [Hok Hb]. apply Forall_cons in Hb as [Hb _].
  unfold is_byte in Hb. unfold set_vch. rewrite last_snoc.
  assert (is_byte (sign_byte neg d)) as Hs by (unfold is_byte, sign_byte; destruct neg; lia).
  pose proof (le_val_range _ Hok) as Hr. pose proof (zlen_nonneg l).
  assert (256 ^ zlen l <= 256 ^ 7) as Hp by (apply Z.pow_le_mono_r; lia).
  assert (256 ^ zlen l = 2 ^ (8 * zlen l)) as E by (rewrite Z.pow_mul_r by lia; done).
  rewrite byte_land80 by done. rewrite set_vch_loop_spec; cycle 1.
  { apply Forall_app; split; [done|by apply Forall_singleton]. }
  { lia. } { rewrite zlen_app, zlen_sing; lia. } { lia. } { by destruct l. }
  rewrite Z.pow_0_r, Z.mul_1_l, Z.add_0_l, !le_val_app, zlen_app, zlen_sing.
  cbn [le_val]. rewrite Z.mul_0_r, !Z.add_0_r.
  replace (zlen l + 1 - 1) with (zlen l) by lia.
  destruct neg; cbn [sign_byte].
  - destruct (Z.ltb_spec (d + 128) 128); [lia|]. cbn [negb]. f_equal.
    rewrite u64_s64, u64_id by nia.
    replace (Z.shiftl 128 (8 * zlen l)) with (Z.shiftl 1 (8 * zlen l + 7))
      by (rewrite !Z.shiftl_mul_pow2, Z.pow_add_r by lia; lia).
    replace (le_val l + 256 ^ zlen l * (d + 128))
      with (le_val l + 256 ^ zlen l * d + 2 ^ (8 * zlen l + 7))
      by (rewrite Z.pow_add_r, <- E by lia; lia).
    rewrite land_clear_bit; [| lia |rewrite Z.pow_add_r, <- E by lia; nia].
    apply s64_id. unfold INT64_MIN, INT64_MAX. nia.
  - destruct (Z.ltb_spec d 128); [|lia]. cbn [negb].
    apply s64_id. unfold INT64_MIN, INT64_MAX. nia.
Qed.

(** ** Range of decoded numbers *)

Lemma set_vch_range vch :
  bytes_ok vch -> 0 < zlen vch <= 8 -> Z.abs (set_vch vch) < 128 * 256 ^ (zlen vch - 1).
Proof.
  intros Hok Hl. destruct (list_snoc_cases vch) as [->|(l & d & ->)]; [unfold zlen in Hl; cbn in Hl; lia|].
  rewrite zlen_app, zlen_sing in *.
  pose proof Hok as Hok2. apply Forall_app in Hok2 as [Hl1 Hb]. rewrite Forall_singleton in Hb.
  unfold is_byte in Hb. pose proof (le_val_range _ Hl1).
  replace (zlen l + 1 - 1) with (zlen l) by lia.
  destruct (byte_sign_cases d Hb) as (neg & d' & -> & Hd').
  rewrite set_vch_spec; [|apply Forall_app; split; [done|apply Forall_singleton; unfold is_byte; lia]|lia|lia].
  rewrite le_val_app. cbn [le_val]. destruct neg; nia.
Qed.

(** A number the constructor accepts with limit [n] has magnitude below [128 * 256^(n-1)]. *)
Lemma CScriptNum_range vch fmin n v :
  bytes_ok vch -> 0 < n <= 8 -> CScriptNum vch fmin n = Ok v ->
  Z.abs v < 128 * 256 ^ (n - 1).
Proof.
  intros Hok Hn H. unfold CScriptNum in H. res_inv H. injection H as <-. zbool.
  destruct vch as [|b vch].
  { cbn. assert (0 < 256 ^ (n - 1)) by (apply Z.pow_pos_nonneg; lia). lia. }
  rewrite zlen_cons in *. pose proof (zlen_nonneg vch).
  pose proof (set_vch_range (b :: vch) Hok ltac:(rewrite zlen_cons; lia)) as Hr.
  rewrite zlen_cons in Hr.
  assert (256 ^ (1 + zlen vch - 1) <= 256 ^ (n - 1)) by (apply Z.pow_le_mono_r; lia). lia.
Qed.

(** The operands of the numeric opcodes lie in [-2^31+1, 2^31-1]. *)
Lemma CScriptNum4_range vch fmin v :
  bytes_ok vch -> CScriptNum vch fmin nDefaultMaxNumSize = Ok v -> - 2 ^ 31 < v < 2 ^ 31.
Proof.
  intros Hok H. apply CScriptNum_range in H; [|done|unfold nDefaultMaxNumSize; lia].
  change (128 * 256 ^ (nDefaultMaxNumSize - 1)) with (2 ^ 31) in H. lia.
Qed.

Lemma getint_id v : INT32_MIN <= v <= INT32_MAX -> getint v = v.
Proof. unfold getint. intros. repeat case_if; zbool; lia. Qed.

(** ** Round trips *)

Lemma set_vch_serialize v : - 2 ^ 63 < v < 2 ^ 63 -> set_vch (serialize v) = v.
Proof.
  intros Hv. destruct (Z.eq_dec v 0) as [->|Hn]; [done|].
  destruct (serialize_shape v Hn Hv) as (l & d & Hok & Hd & Hl & -> & Hval & _).
  rewrite set_vch_spec by done. rewrite Hval. destruct (Z.ltb_spec v 0); lia.
Qed.

Lemma serialize_bytes_ok v : - 2 ^ 63 < v < 2 ^ 63 -> bytes_ok (serialize v).
Proof.
  intros Hv. destruct (Z.eq_dec v 0) as [->|Hn]; [constructor|].
  destruct (serialize_shape v Hn Hv) as (l & d & Hok & Hd & Hl & -> & Hval & _).
  apply Forall_app in Hok as [Hok Hb]. apply Forall_app. split; [done|].
  rewrite Forall_singleton in Hb. apply Forall_singleton.
  unfold is_byte, sign_byte in *. destruct (v <? 0); lia.
Qed.

Lemma serialize_length v : - 2 ^ 63 < v < 2 ^ 63 -> zlen (serialize v) <= 8.
Proof.
  intros Hv. destruct (Z.eq_dec v 0) as [->|Hn]; [done|].
  destruct (serialize_shape v Hn Hv) as (l & d & Hok & Hd & Hl & -> & Hval & _).
  rewrite zlen_app, zlen_sing. lia.
Qed.

Lemma znth_snoc2 {A} (l : list A) (c b : A) : znth (l ++ [c; b]) (zlen (l ++ [c; b]) - 2) = Some c.
Proof.
  rewrite zlen_app. change (zlen [c; b]) with 2.
  replace (zlen l + 2 - 2) with (Z.of_nat (length l)) by (unfold zlen; lia).
  rewrite znth_lookup, lookup_app_r by lia. by rewrite Nat.sub_diag.
Qed.

(** The two ways an encoding is minimal: the top byte carries magnitude bits, or the byte
    below it needs the sign bit's place. *)
Lemma non_minimal_snoc l d neg :
  is_byte d -> d < 128 ->
  non_minimal (l ++ [sign_byte neg d]) = false <->
  (d <> 0 \/ exists k c, l = k ++ [c] /\ Z.land c 0x80 <> 0).
Proof.
  intros Hb Hd. unfold non_minimal. rewrite last_snoc.
  assert (is_byte (sign_byte neg d)) as Hs by (unfold is_byte, sign_byte in *; destruct neg; lia).
  rewrite byte_land7f by done.
  replace (sign_byte neg d mod 128) with d; cycle 1.
  { unfold sign_byte, is_byte in *. destruct neg.
    - replace (d + 128) with (d + 1 * 128) by lia. rewrite Z.mod_add, Z.mod_small by lia. done.
    - rewrite Z.mod_small by lia. done. }
  destruct (Z.eqb_spec d 0) as [->|Hn]; cbn [andb].
  2:{ split; [tauto|done]. }
  destruct (list_snoc_cases l) as [->|(k & c & ->)].
  - cbn. split; [done|]. intros [?|(k & c & H & _)]; [done|]. by destruct k.
  - rewrite <- app_assoc. cbn [app]. rewrite znth_snoc2, zlen_app.
    change (zlen [c; sign_byte neg 0]) with 2. pose proof (zlen_nonneg k).
    destruct (Z.leb_spec (zlen k + 2) 1); [lia|]. cbn [orb].
    rewrite Z.eqb_neq. split.
    + intros H2. right. eauto.
    + intros [?|(k' & c' & H2 & H3)]; [done|]. apply app_inj_tail in H2 as [_ ->]. done.
Qed.

Lemma serialize_minimal v : - 2 ^ 63 < v < 2 ^ 63 -> non_minimal (serialize v) = false.
Proof.
  intros Hv. destruct (Z.eq_dec v 0) as [->|Hn]; [done|].
  destruct (serialize_shape v Hn Hv) as (l & d & Hok & Hd & Hl & -> & Hval & Hz).
  apply Forall_app in Hok as [Hok Hb]. rewrite Forall_singleton in Hb.
  apply non_minimal_snoc; [done..|].
  destruct (Z.eq_dec d 0) as [H0|]; [right|by left].
  destruct (Hz H0) as (k & c & -> & Hc). exists k, c. split; [done|].
  apply Forall_app in Hok as [_ Hc']. rewrite Forall_singleton in Hc'.
  intros E. pose proof (byte_land80 c Hc') as H2. rewrite E in H2. zbool.
  destruct (Z.ltb_spec c 128); [lia|done].
Qed.

Lemma le_val_snoc_pos l d : bytes_ok (l ++ [d]) -> d <> 0 -> 0 < le_val (l ++ [d]).
Proof.
  intros Hok Hd. apply Forall_app in Hok as [Hl Hb]. rewrite Forall_singleton in Hb.
  unfold is_byte in Hb. pose proof (le_val_range _ Hl).
  rewrite le_val_app. cbn [le_val].
  assert (0 < 256 ^ zlen l) by (apply Z.pow_pos_nonneg; [lia|apply zlen_nonneg]). nia.
Qed.

Lemma le_val_snoc_lt l d :
  bytes_ok (l ++ [d]) -> d < 128 -> zlen l <= 7 -> le_val (l ++ [d]) < 2 ^ 63.
Proof.
  intros Hok Hd Hl. apply Forall_app in Hok as [Hok Hb]. rewrite Forall_singleton in Hb.
  unfold is_byte in Hb. pose proof (le_val_range _ Hok).
  assert (256 ^ zlen l <= 256 ^ 7) by (apply Z.pow_le_mono_r; lia).
  rewrite le_val_app. cbn [le_val]. nia.
Qed.

(** [serialize] on a magnitude given by its digits. *)
Lemma serialize_digits neg l d :
  bytes_ok (l ++ [d]) -> d <> 0 -> zlen l <= 7 -> le_val (l ++ [d]) < 2 ^ 63 ->
  serialize (if neg : bool then - le_val (l ++ [d]) else le_val (l ++ [d])) =
    if d <? 128 then l ++ [sign_byte neg d] else (l ++ [d]) ++ [sign_byte neg 0].
Proof.
  intros Hok Hd Hl Hlt. pose proof (le_val_snoc_pos l d Hok Hd) as Hpos.
  pose proof (serialize_abs_le_val 8 l d Hok Hd ltac:(unfold zlen in Hl; lia)) as E.
  apply Forall_app in Hok as [_ Hb]. rewrite Forall_singleton in Hb.
  generalize dependent (le_val (l ++ [d])). intros V Hlt Hpos E.
  unfold serialize.
  destruct (Z.eqb_spec (if neg then - V else V) 0) as [H0|_]; [destruct neg; lia|].
  replace ((if neg then - V else V) <? 0) with neg by (destruct neg; lia).
  replace (if neg then - (if neg then - V else V) else if neg then - V else V) with V
    by (destruct neg; lia).
  rewrite u64_id, E, last_snoc, byte_land80 by (done || lia).
  destruct (Z.ltb_spec d 128); cbn [negb]; [|by destruct neg].
  destruct neg; [|done]. by rewrite removelast_last, byte_lor80.
Qed.

(** The encoder and the strict decoder are inverse: every [int64_t] above INT64_MIN
    encodes to at most 8 bytes that the constructor accepts, with minimality enforced,
    and decodes back to the same number. *)
Theorem scriptnum_roundtrip v :
  - 2 ^ 63 < v < 2 ^ 63 -> CScriptNum (serialize v) true 8 = Ok v.
Proof.
  intros Hv. unfold CScriptNum. rewrite serialize_minimal, set_vch_serialize by done.
  pose proof (serialize_length v Hv). rewrite Z.gtb_ltb.
  destruct (Z.ltb_spec 8 (zlen (serialize v))); [lia|done].
Qed.

Lemma scriptnum_roundtrip_witness :
  (- 2 ^ 63 < -255 < 2 ^ 63) /\ CScriptNum (serialize (-255)) true 8 = Ok (-255) /\
  serialize (-255) = [255; 128].
Proof. split; [lia|]. split; [apply scriptnum_roundtrip; lia|reflexivity]. Defined.

(** Minimal encodings are unique: whatever the strict decoder accepts (up to 8 bytes)
    is exactly the encoding of the number it returns, so no number has two accepted
    encodings (no malleability by padding or negative zero). *)
Theorem scriptnum_canonical vch n v :
  bytes_ok vch -> n <= 8 -> CScriptNum vch true n = Ok v -> serialize v = vch.
Proof.
  intros Hok Hn H. unfold CScriptNum in H. res_inv H. injection H as <-. cbn [andb] in *. zbool.
  destruct (list_snoc_cases vch) as [->|(l & b & ->)]; [done|].
  apply Forall_app in Hok as [Hok Hb]. rewrite Forall_singleton in Hb.
  rewrite zlen_app, zlen_sing in *.
  destruct (byte_sign_cases b) as (neg & d & -> & Hd); [done|].
  assert (is_byte d) as Hbd by (unfold is_byte; lia).
  assert (bytes_ok (l ++ [d])) as Hok' by (apply Forall_app; split; [done|by apply Forall_singleton]).
  rewrite set_vch_spec by (done || lia).
  match goal with H : non_minimal _ = false |- _ => rename H into Hmin end.
  apply non_minimal_snoc in Hmin; [|done|lia].
  destruct (Z.eq_dec d 0) as [->|Hd0].
  2:{ rewrite serialize_digits; [|done|done|lia|apply le_val_snoc_lt; [done|lia|lia]].
      destruct (Z.ltb_spec d 128); [done|lia]. }
  destruct Hmin as [?|(k & c & -> & Hc)]; [done|].
  pose proof Hok as Hok2. apply Forall_app in Hok2 as [_ Hcb]. rewrite Forall_singleton in Hcb.
  replace (le_val ((k ++ [c]) ++ [0])) with (le_val (k ++ [c])) by (rewrite (le_val_app (k ++ [c])); cbn [le_val]; lia).
  pose proof (byte_land80 c Hcb) as Hc80. apply Z.eqb_neq in Hc. rewrite Hc in Hc80.
  symmetry in Hc80. zbool. rewrite zlen_app, zlen_sing in *.
  rewrite serialize_digits; [|done|lia|lia|].
  - destruct (Z.ltb_spec c 128); [lia|done].
  - pose proof (le_val_range _ Hok) as Hr. rewrite zlen_app, zlen_sing in Hr.
    assert (256 ^ (zlen k + 1) <= 256 ^ 7) by (apply Z.pow_le_mono_r; lia). lia.
Qed.

Lemma scriptnum_canonical_witness :
  CScriptNum [255; 128] true 4 = Ok (-255) /\ serialize (-255) = [255; 128].
Proof.
  assert (CScriptNum [255; 128] true 4 = Ok (-255)) as H by reflexivity.
  split; [exact H|].
  apply (scriptnum_canonical [255; 128] 4); [|lia|exact H].
  repeat constructor; unfold is_byte; lia.
Defined.
