(* ===== verification/Script.v ===== *)
(** * Serialized scripts

    [CScript] of [script/script.h] and [script/script.cpp]: the opcode table, the push
    operators that build a script, the instruction reader [GetOp2] and the syntactic
    predicates consensus code asks of a script (push-only, P2PKH, P2SH, unspendable,
    signature-operation count).  A script is its byte vector; a [const_iterator] into it is
    the suffix that remains to be read. *)

From S2P Require Import Prelude ScriptNum.

Definition MAX_SCRIPT_ELEMENT_SIZE : Z := 520.
Definition MAX_SCRIPT_SIZE : Z := 10000.
Definition LOCKTIME_THRESHOLD : Z := 500000000.

(** ** [enum opcodetype] *)

(** push value *)
Definition OP_0 : Z := 0x00.
Definition OP_FALSE : Z := OP_0.
Definition OP_PUSHDATA1 : Z := 0x4c.
Definition OP_PUSHDATA2 : Z := 0x4d.
Definition OP_PUSHDATA4 : Z := 0x4e.
Definition OP_1NEGATE : Z := 0x4f.
Definition OP_RESERVED : Z := 0x50.
Definition OP_1 : Z := 0x51.
Definition OP_TRUE : Z := OP_1.
Definition OP_2 : Z := 0x52.
Definition OP_3 : Z := 0x53.
Definition OP_4 : Z := 0x54.
Definition OP_5 : Z := 0x55.
Definition OP_6 : Z := 0x56.
Definition OP_7 : Z := 0x57.
Definition OP_8 : Z := 0x58.
Definition OP_9 : Z := 0x59.
Definition OP_10 : Z := 0x5a.
Definition OP_11 : Z := 0x5b.
Definition OP_12 : Z := 0x5c.
Definition OP_13 : Z := 0x5d.
Definition OP_14 : Z := 0x5e.
Definition OP_15 : Z := 0x5f.
Definition OP_16 : Z := 0x60.
(** control *)
Definition OP_NOP : Z := 0x61.
Definition OP_VER : Z := 0x62.
Definition OP_IF : Z := 0x63.
Definition OP_NOTIF : Z := 0x64.
Definition OP_VERIF : Z := 0x65.
Definition OP_VERNOTIF : Z := 0x66.
Definition OP_ELSE : Z := 0x67.
Definition OP_ENDIF : Z := 0x68.
Definition OP_VERIFY : Z := 0x69.
Definition OP_RETURN : Z := 0x6a.
(** stack ops *)
Definition OP_TOALTSTACK : Z := 0x6b.
Definition OP_FROMALTSTACK : Z := 0x6c.
Definition OP_2DROP : Z := 0x6d.
Definition OP_2DUP : Z := 0x6e.
Definition OP_3DUP : Z := 0x6f.
Definition OP_2OVER : Z := 0x70.
Definition OP_2ROT : Z := 0x71.
Definition OP_2SWAP : Z := 0x72.
Definition OP_IFDUP : Z := 0x73.
Definition OP_DEPTH : Z := 0x74.
Definition OP_DROP : Z := 0x75.
Definition OP_DUP : Z := 0x76.
Definition OP_NIP : Z := 0x77.
Definition OP_OVER : Z := 0x78.
Definition OP_PICK : Z := 0x79.
Definition OP_ROLL : Z := 0x7a.
Definition OP_ROT : Z := 0x7b.
Definition OP_SWAP : Z := 0x7c.
Definition OP_TUCK : Z := 0x7d.
(** splice ops *)
Definition OP_CAT : Z := 0x7e.
Definition OP_SUBSTR : Z := 0x7f.
Definition OP_LEFT : Z := 0x80.
Definition OP_RIGHT : Z := 0x81.
Definition OP_SIZE : Z := 0x82.
(** bit logic *)
Definition OP_INVERT : Z := 0x83.
Definition OP_AND : Z := 0x84.
Definition OP_OR : Z := 0x85.
Definition OP_XOR : Z := 0x86.
Definition OP_EQUAL : Z := 0x87.
Definition OP_EQUALVERIFY : Z := 0x88.
Definition OP_RESERVED1 : Z := 0x89.
Definition OP_RESERVED2 : Z := 0x8a.
(** numeric *)
Definition OP_1ADD : Z := 0x8b.
Definition OP_1SUB : Z := 0x8c.
Definition OP_2MUL : Z := 0x8d.
Definition OP_2DIV : Z := 0x8e.
Definition OP_NEGATE : Z := 0x8f.
Definition OP_ABS : Z := 0x90.
Definition OP_NOT : Z := 0x91.
Definition OP_0NOTEQUAL : Z := 0x92.
Definition OP_ADD : Z := 0x93.
Definition OP_SUB : Z := 0x94.
Definition OP_MUL : Z := 0x95.
Definition OP_DIV : Z := 0x96.
Definition OP_MOD : Z := 0x97.
Definition OP_LSHIFT : Z := 0x98.
Definition OP_RSHIFT : Z := 0x99.
Definition OP_BOOLAND : Z := 0x9a.
Definition OP_BOOLOR : Z := 0x9b.
Definition OP_NUMEQUAL : Z := 0x9c.
Definition OP_NUMEQUALVERIFY : Z := 0x9d.
Definition OP_NUMNOTEQUAL : Z := 0x9e.
Definition OP_LESSTHAN : Z := 0x9f.
Definition OP_GREATERTHAN : Z := 0xa0.
Definition OP_LESSTHANOREQUAL : Z := 0xa1.
Definition OP_GREATERTHANOREQUAL : Z := 0xa2.
Definition OP_MIN : Z := 0xa3.
Definition OP_MAX : Z := 0xa4.
Definition OP_WITHIN : Z := 0xa5.
(** crypto *)
Definition OP_RIPEMD160 : Z := 0xa6.
Definition OP_SHA1 : Z := 0xa7.
Definition OP_SHA256 : Z := 0xa8.
Definition OP_HASH160 : Z := 0xa9.
Definition OP_HASH256 : Z := 0xaa.
Definition OP_CODESEPARATOR : Z := 0xab.
Definition OP_CHECKSIG : Z := 0xac.
Definition OP_CHECKSIGVERIFY : Z := 0xad.
Definition OP_CHECKMULTISIG : Z := 0xae.
Definition OP_CHECKMULTISIGVERIFY : Z := 0xaf.
(** expansion *)
Definition OP_NOP1 : Z := 0xb0.
Definition OP_NOP2 : Z := 0xb1.
Definition OP_CHECKLOCKTIMEVERIFY : Z := OP_NOP2.
Definition OP_NOP3 : Z := 0xb2.
Definition OP_NOP4 : Z := 0xb3.
Definition OP_NOP5 : Z := 0xb4.
Definition OP_NOP6 : Z := 0xb5.
Definition OP_NOP7 : Z := 0xb6.
Definition OP_NOP8 : Z := 0xb7.
Definition OP_NOP9 : Z := 0xb8.
Definition OP_NOP10 : Z := 0xb9.
(** template matching params *)
Definition OP_SMALLDATA : Z := 0xf9.
Definition OP_SMALLINTEGER : Z := 0xfa.
Definition OP_PUBKEYS : Z := 0xfb.
Definition OP_PUBKEYHASH : Z := 0xfd.
Definition OP_PUBKEY : Z := 0xfe.
Definition OP_INVALIDOPCODE : Z := 0xff.
(** ** Building scripts *)

(** [operator<<(opcodetype)]: [None] is the thrown [runtime_error]. *)
Definition push_opcode (script : bytes) (opcode : Z) : option bytes :=
  if (opcode <? 0) || (opcode >? 0xff) then None else Some (script ++ [opcode]).

(** [operator<<(const v_uint8&)] *)
Definition push_data (script b : bytes) : bytes :=
  if zlen b <? OP_PUSHDATA1 then script ++ [u8 (zlen b)] ++ b
  else if zlen b <=? 0xff then script ++ [OP_PUSHDATA1; u8 (zlen b)] ++ b
  else if zlen b <=? 0xffff then script ++ [OP_PUSHDATA2] ++ le_bytes 2 (u16 (zlen b)) ++ b
  else script ++ [OP_PUSHDATA4] ++ le_bytes 4 (u32 (zlen b)) ++ b.

(** [operator<<(const CScriptNum&)] *)
Definition push_num (script : bytes) (n : Z) : bytes := push_data script (serialize n).

(** [CScript::push_int64] *)
Definition push_int64 (script : bytes) (n : Z) : bytes :=
  if (n =? -1) || ((n >=? 1) && (n <=? 16)) then script ++ [u8 (n + (OP_1 - 1))]
  else if n =? 0 then script ++ [OP_0]
  else push_data script (serialize n).

(** ** Reading scripts *)

(** The length of the immediate operand: [(nSize, rest)] after the opcode byte. *)
Definition read_push_size (opcode : Z) (pc : bytes) : option (Z * bytes) :=
  if opcode <? OP_PUSHDATA1 then Some (opcode, pc)
  else if opcode =? OP_PUSHDATA1 then
    match pc with
    | b0 :: pc => Some (b0, pc)
    | _ => None
    end
  else if opcode =? OP_PUSHDATA2 then
    match pc with
    | b0 :: b1 :: pc => Some (le_val [b0; b1], pc)
    | _ => None
    end
  else
    match pc with
    | b0 :: b1 :: b2 :: b3 :: pc => Some (le_val [b0; b1; b2; b3], pc)
    | _ => None
    end.

(** [CScript::GetOp2]: the opcode, its immediate data and the remaining script; [None] is
    the [false] return.  The cast [(unsigned int)(end() - pc)] keeps 32 bits. *)
Definition GetOp2 (pc : bytes) : option (Z * bytes * bytes) :=
  match pc with
  | [] => None
  | opcode :: pc =>
      if opcode <=? OP_PUSHDATA4 then
        match read_push_size opcode pc with
        | None => None
        | Some (nSize, pc) =>
            if u32 (zlen pc) <? nSize then None
            else Some (opcode, take (Z.to_nat nSize) pc, drop (Z.to_nat nSize) pc)
        end
      else Some (opcode, [], pc)
  end.

(** [DecodeOP_N] and [EncodeOP_N]; [None] is a failed [assert]. *)
Definition DecodeOP_N (opcode : Z) : option Z :=
  if opcode =? OP_0 then Some 0
  else if (opcode >=? OP_1) && (opcode <=? OP_16) then Some (opcode - (OP_1 - 1))
  else None.

Definition EncodeOP_N (n : Z) : option Z :=
  if (n >=? 0) && (n <=? 16) then
    if n =? 0 then Some OP_0 else Some (OP_1 + n - 1)
  else None.

(** [GetSigOpCount(bool fAccurate)]: the loop, with the number of bytes as fuel. *)
Fixpoint sigop_loop (fuel : nat) (fAccurate : bool) (n lastOpcode : Z) (pc : bytes) : Z :=
  match fuel with
  | O => n
  | S fuel =>
      match GetOp2 pc with
      | None => n
      | Some (opcode, _, pc) =>
          let n :=
            if (opcode =? OP_CHECKSIG) || (opcode =? OP_CHECKSIGVERIFY) then u32 (n + 1)
            else if (opcode =? OP_CHECKMULTISIG) || (opcode =? OP_CHECKMULTISIGVERIFY) then
              if fAccurate && (lastOpcode >=? OP_1) && (lastOpcode <=? OP_16)
              then u32 (n + default 0 (DecodeOP_N lastOpcode))
              else u32 (n + 20)
            else n in
          sigop_loop fuel fAccurate n opcode pc
      end
  end.

Definition GetSigOpCount (script : bytes) (fAccurate : bool) : Z :=
  sigop_loop (length script) fAccurate 0 OP_INVALIDOPCODE script.

(** [v[i] == c] on a script known to be long enough. *)
Definition byte_is (script : bytes) (i : nat) (c : Z) : bool :=
  match script !! i with
  | Some b => b =? c
  | None => false
  end.

Definition IsPayToPublicKeyHash (script : bytes) : bool :=
  if negb (zlen script =? 25) then false
  else (zlen script =? 25) && byte_is script 0 OP_DUP && byte_is script 1 OP_HASH160
       && byte_is script 2 0x14 && byte_is script 23 OP_EQUALVERIFY
       && byte_is script 24 OP_CHECKSIG.

Definition IsPayToScriptHash (script : bytes) : bool :=
  if negb (zlen script =? 23) then false
  else (zlen script =? 23) && byte_is script 0 OP_HASH160 && byte_is script 1 0x14
       && byte_is script 22 OP_EQUAL.

(** The reading loop of [GetSigOpCount(const CScript& scriptSig)]: the last data pushed,
    or [None] when the function returns 0. *)
Fixpoint last_push_loop (fuel : nat) (data pc : bytes) : option bytes :=
  match fuel with
  | O => Some data
  | S fuel =>
      match pc with
      | [] => Some data
      | _ =>
          match GetOp2 pc with
          | None => None
          | Some (opcode, data, pc) =>
              if opcode >? OP_16 then None else last_push_loop fuel data pc
          end
      end
  end.

Definition GetSigOpCountP2SH (script scriptSig : bytes) : Z :=
  if negb (IsPayToScriptHash script) then GetSigOpCount script true
  else
    match last_push_loop (length scriptSig) [] scriptSig with
    | None => 0
    | Some data => GetSigOpCount data true
    end.

Fixpoint push_only_loop (fuel : nat) (pc : bytes) : bool :=
  match fuel with
  | O => true
  | S fuel =>
      match pc with
      | [] => true
      | _ =>
          match GetOp2 pc with
          | None => false
          | Some (opcode, _, pc) =>
              if opcode >? OP_16 then false else push_only_loop fuel pc
          end
      end
  end.

Definition IsPushOnly (script : bytes) : bool := push_only_loop (length script) script.

Definition IsUnspendable (script : bytes) : bool :=
  ((zlen script >? 0) && byte_is script 0 OP_RETURN) || (zlen script >? MAX_SCRIPT_SIZE).

(** [enum class ScriptType : uint8_t] *)
Inductive ScriptType : Set := UNKNOWN | P2PKH | P2SH.

Definition GetType (script : bytes) : ScriptType :=
  if IsPayToPublicKeyHash script then P2PKH
  else if IsPayToScriptHash script then P2SH
  else UNKNOWN.

Definition uint160_SIZE : Z := 20.
Definition uint160_zero : bytes := replicate 20 0.

Definition AddressHash (script : bytes) : bytes :=
  if negb (IsPayToPublicKeyHash script || IsPayToScriptHash script) then uint160_zero
  else
    let start := if IsPayToPublicKeyHash script then 3 else 2 in
    if zlen script <? uint160_SIZE + start then uint160_zero
    else take (Z.to_nat uint160_SIZE) (drop (Z.to_nat start) script).

Definition toScriptType (type : Z) : option ScriptType :=
  if type =? 0 then Some UNKNOWN
  else if type =? 1 then Some P2PKH
  else if type =? 2 then Some P2SH
  else None.

(** ** The instruction list of a script *)

(** All instructions [GetOp2] reads in turn; [None] when one of them is truncated.  This is
    the reference against which the loops above and [EvalScript] are specified. *)
Fixpoint instrs_loop (fuel : nat) (pc : bytes) : option (list (Z * bytes)) :=
  match fuel with
  | O => Some []
  | S fuel =>
      match pc with
      | [] => Some []
      | _ =>
          match GetOp2 pc with
          | None => None
          | Some (opcode, data, pc) => cons (opcode, data) <$> instrs_loop fuel pc
          end
      end
  end.

Definition instrs (script : bytes) : option (list (Z * bytes)) :=
  instrs_loop (length script) script.

(** The opcode [push_data] chooses. *)
Definition push_opcode_of (b : bytes) : Z :=
  if zlen b <? OP_PUSHDATA1 then zlen b
  else if zlen b <=? 0xff then OP_PUSHDATA1
  else if zlen b <=? 0xffff then OP_PUSHDATA2
  else OP_PUSHDATA4.

(** ** The reader makes progress *)

Lemma read_push_size_suffix op pc n rest :
  read_push_size op pc = Some (n, rest) -> rest `suffix_of` pc.
Proof.
  unfold read_push_size. intros H. repeat case_if_in H; simplify_eq; [done|..];
    repeat (destruct pc as [|? pc]; simplify_eq); by repeat apply suffix_cons_r.
Qed.

Lemma GetOp2_progress pc op data rest :
  GetOp2 pc = Some (op, data, rest) -> (length rest < length pc)%nat /\ rest `suffix_of` pc.
Proof.
  destruct pc as [|b pc]; [done|]. cbn [GetOp2]. intros H.
  destruct (b <=? OP_PUSHDATA4).
  - destruct (read_push_size b pc) as [[n pc']|] eqn:E; [|done].
    case_if_in H; [done|]. simplify_eq.
    apply read_push_size_suffix in E.
    assert (drop (Z.to_nat n) pc' `suffix_of` pc) as Hs
      by (etrans; [exists (take (Z.to_nat n) pc'); by rewrite take_drop|done]).
    split; [|by apply suffix_cons_r]. apply suffix_length in Hs. cbn. lia.
  - simplify_eq. split; [cbn; lia|]. by apply suffix_cons_r.
Qed.

(** More fuel than bytes does not change the list of instructions. *)
Lemma instrs_loop_fuel n pc : (length pc <= n)%nat -> instrs_loop n pc = instrs pc.
Proof.
  unfold instrs. revert pc. induction n as [n IH] using lt_wf_ind. intros pc Hn.
  destruct pc as [|b pc]; [by destruct n|].
  destruct n as [|n]; [cbn in Hn; lia|].
  change (length (b :: pc)) with (S (length pc)) in *. cbn [instrs_loop].
  destruct (GetOp2 (b :: pc)) as [[[op d] rest]|] eqn:E; [|done].
  apply GetOp2_progress in E as [E _]. cbn in E.
  rewrite (IH n) by lia. destruct (decide (length pc = n)) as [<-|].
  - by rewrite (IH (length pc)) by lia.
  - by rewrite (IH (length pc)) by lia.
Qed.

Lemma instrs_nil : instrs [] = Some [].
Proof. done. Qed.

Lemma instrs_unfold pc :
  pc <> [] ->
  instrs pc =
    match GetOp2 pc with
    | None => None
    | Some (op, data, rest) => cons (op, data) <$> instrs rest
    end.
Proof.
  intros Hne. unfold instrs at 1. destruct pc as [|b pc]; [done|].
  change (length (b :: pc)) with (S (length pc)). cbn [instrs_loop].
  destruct (GetOp2 (b :: pc)) as [[[op d] rest]|] eqn:E; [|done].
  apply GetOp2_progress in E as [E _]. cbn in E. by rewrite instrs_loop_fuel by lia.
Qed.

(** ** Push and read *)

Lemma push_data_app script b : push_data script b = script ++ push_data [] b.
Proof. unfold push_data. by repeat case_if. Qed.

Lemma take_drop_app {A} (b rest : list A) :
  take (Z.to_nat (zlen b)) (b ++ rest) = b /\ drop (Z.to_nat (zlen b)) (b ++ rest) = rest.
Proof.
  unfold zlen. rewrite Nat2Z.id. split; [by apply take_app_length|by apply drop_app_length].
Qed.

Lemma GetOp2_cons_push op pc b rest :
  op <= OP_PUSHDATA4 -> zlen b + zlen rest < 2 ^ 32 ->
  read_push_size op pc = Some (zlen b, b ++ rest) ->
  GetOp2 (op :: pc) = Some (op, b, rest).
Proof.
  intros Hop Hlt E. cbn [GetOp2]. apply Z.leb_le in Hop. rewrite Hop, E.
  pose proof (zlen_nonneg b). pose proof (zlen_nonneg rest).
  rewrite zlen_app, u32_id by lia.
  destruct (Z.ltb_spec (zlen b + zlen rest) (zlen b)); [lia|].
  destruct (take_drop_app b rest) as [-> ->]. done.
Qed.

Lemma GetOp2_push_data b rest :
  zlen b + zlen rest < 2 ^ 32 ->
  GetOp2 (push_data [] b ++ rest) = Some (push_opcode_of b, b, rest).
Proof.
  intros Hlt. pose proof (zlen_nonneg b). pose proof (zlen_nonneg rest).
  unfold push_data, push_opcode_of. repeat case_if; zbool; cbn [app];
    unfold OP_PUSHDATA1, OP_PUSHDATA2, OP_PUSHDATA4 in *;
    rewrite ?u8_id, ?u16_id, ?u32_id, <- ?app_assoc by lia;
    apply GetOp2_cons_push; try done; unfold OP_PUSHDATA4; try lia.
  - unfold read_push_size, OP_PUSHDATA1. by destruct (Z.ltb_spec (zlen b) 76); [|lia].
  - pose proof (le_val_le_bytes 2 (zlen b) ltac:(change (256 ^ Z.of_nat 2) with 65536; lia)) as E.
    apply (f_equal (fun n => Some (n, b ++ rest))) in E. exact E.
  - pose proof (le_val_le_bytes 4 (zlen b) ltac:(change (256 ^ Z.of_nat 4) with (2 ^ 32); lia)) as E.
    apply (f_equal (fun n => Some (n, b ++ rest))) in E. exact E.
Qed.

(** The script that pushes the given data items in order. *)
Definition push_script (items : list bytes) : bytes := foldl push_data [] items.

Lemma push_script_cons b items : push_script (b :: items) = push_data [] b ++ push_script items.
Proof.
  unfold push_script. cbn [foldl]. generalize (push_data [] b) as acc. revert b.
  induction items as [|c items IH]; intros b acc; cbn [foldl]; [by rewrite app_nil_r|].
  rewrite (push_data_app acc c), (IH c), (IH c (push_data [] c)). by rewrite app_assoc.
Qed.

Lemma push_data_length b : zlen b < zlen (push_data [] b).
Proof.
  pose proof (zlen_nonneg b).
  unfold push_data. repeat case_if; cbn [app];
    unfold zlen in *; cbn [length]; rewrite ?length_app, ?length_le_bytes; lia.
Qed.

Lemma push_opcode_of_range b : 0 <= push_opcode_of b <= OP_PUSHDATA4.
Proof.
  pose proof (zlen_nonneg b). unfold push_opcode_of. unfold OP_PUSHDATA1, OP_PUSHDATA2, OP_PUSHDATA4.
  repeat case_if; zbool; lia.
Qed.

(** ** Specifications of the reading loops *)

Lemma push_only_loop_spec n pc :
  (length pc <= n)%nat ->
  push_only_loop n pc =
    match instrs pc with
    | Some ops => forallb (fun i => negb (i.1 >? OP_16)) ops
    | None => false
    end.
Proof.
  revert pc. induction n as [|n IH]; intros pc Hn.
  { destruct pc; [done|cbn in Hn; lia]. }
  destruct pc as [|b pc]; [done|]. cbn [push_only_loop].
  rewrite instrs_unfold by done.
  destruct (GetOp2 (b :: pc)) as [[[op d] rest]|] eqn:E; [|done].
  apply GetOp2_progress in E as [E _]. cbn in E, Hn.
  rewrite IH by lia. destruct (instrs rest) as [ops|]; cbn; by destruct (op >? OP_16).
Qed.

Lemma IsPushOnly_spec script :
  IsPushOnly script = true <->
  exists ops, instrs script = Some ops /\ Forall (fun i => i.1 <= OP_16) ops.
Proof.
  unfold IsPushOnly. rewrite push_only_loop_spec by done.
  destruct (instrs script) as [ops|]; [|split; [done|by intros (? & ? & _)]].
  rewrite forallb_forall. split.
  - intros H. exists ops. split; [done|]. apply Forall_forall. intros i Hi.
    apply list_elem_of_In in Hi. specialize (H i Hi). zbool. lia.
  - intros (? & [= <-] & H) i Hi. apply list_elem_of_In in Hi.
    rewrite Forall_forall in H. specialize (H i Hi). rewrite Z.gtb_ltb. apply negb_true_iff, Z.ltb_ge, H.
Qed.

Lemma DecodeOP_N_range op :
  OP_1 <= op <= OP_16 -> exists n, DecodeOP_N op = Some n /\ 1 <= n <= 16.
Proof.
  unfold DecodeOP_N, OP_0, OP_1, OP_16. intros H. exists (op - 80).
  repeat case_if; zbool; try lia. split; [f_equal; lia|lia].
Qed.

Lemma sigop_loop_mono n acc1 acc2 last pc :
  0 <= acc1 <= acc2 -> acc2 + 20 * Z.of_nat n < 2 ^ 32 ->
  sigop_loop n true acc1 last pc <= sigop_loop n false acc2 last pc.
Proof.
  revert acc1 acc2 last pc. induction n as [|n IH]; intros acc1 acc2 last pc Hacc Hb; [cbn; lia|].
  cbn [sigop_loop]. destruct (GetOp2 pc) as [[[op d] rest]|]; [|lia].
  apply IH; repeat case_if; cbn [andb] in *; zbool; rewrite ?u32_id by lia; try lia; try done;
    destruct (DecodeOP_N_range last) as (k & -> & Hk); try lia; cbn; rewrite ?u32_id by lia; lia.
Qed.

Lemma sigop_loop_bound n facc acc last pc :
  0 <= acc -> acc + 20 * Z.of_nat n < 2 ^ 32 ->
  acc <= sigop_loop n facc acc last pc <= acc + 20 * Z.of_nat n.
Proof.
  revert acc last pc. induction n as [|n IH]; intros acc last pc H0 Hb; [cbn; lia|].
  cbn [sigop_loop]. destruct (GetOp2 pc) as [[[op d] rest]|]; [|lia].
  match goal with |- context [sigop_loop n facc ?a op rest] =>
    specialize (IH a op rest); assert (acc <= a <= acc + 20) end; [|lia].
  repeat case_if; cbn [andb] in *; zbool; rewrite ?u32_id by lia; try lia;
    destruct (DecodeOP_N_range last) as (k & -> & Hk); try lia; cbn; rewrite ?u32_id by lia; lia.
Qed.

(** A script assembled with the push operator reads back as exactly those pushes, each
    with the shortest push opcode for its length, and is push-only. *)
Theorem push_script_roundtrip items :
  zlen (push_script items) < 2 ^ 32 ->
  instrs (push_script items) = Some ((fun b => (push_opcode_of b, b)) <$> items) /\
  IsPushOnly (push_script items) = true.
Proof.
  intros Hlt.
  assert (instrs (push_script items) = Some ((fun b => (push_opcode_of b, b)) <$> items)) as E.
  { induction items as [|b items IH]; [done|]. rewrite push_script_cons in *.
    rewrite zlen_app in Hlt. pose proof (push_data_length b). pose proof (zlen_nonneg b).
    pose proof (zlen_nonneg (push_script items)).
    rewrite instrs_unfold, GetOp2_push_data; [|lia|].
    - rewrite IH by lia. done.
    - intros E. apply app_eq_nil in E as [E _]. rewrite E in H. unfold zlen at 2 in H. cbn in H. lia. }
  split; [exact E|]. apply IsPushOnly_spec. eexists. split; [exact E|].
  apply Forall_fmap, Forall_forall. intros b _. cbn.
  pose proof (push_opcode_of_range b). unfold OP_PUSHDATA4, OP_16 in *. lia.
Qed.

Lemma push_script_roundtrip_witness :
  zlen (push_script [[1; 2]; []; replicate 80 7]) < 2 ^ 32 /\
  IsPushOnly (push_script [[1; 2]; []; replicate 80 7]) = true.
Proof.
  assert (zlen (push_script [[1; 2]; []; replicate 80 7]) < 2 ^ 32) as H by (vm_compute; reflexivity).
  split; [exact H|]. exact (proj2 (push_script_roundtrip _ H)).
Defined.

(** The [unsigned int] counters of signature operations do not wrap for any script of up
    to 214,748,364 bytes: the accurate count never exceeds the legacy one, and the legacy
    count is at most 20 per script byte. *)
Theorem sigop_count_bounds script :
  20 * zlen script < 2 ^ 32 ->
  0 <= GetSigOpCount script true <= GetSigOpCount script false /\
  GetSigOpCount script false <= 20 * zlen script.
Proof.
  unfold GetSigOpCount, zlen. intros Hl.
  pose proof (sigop_loop_bound (length script) true 0 OP_INVALIDOPCODE script ltac:(lia) ltac:(lia)).
  pose proof (sigop_loop_bound (length script) false 0 OP_INVALIDOPCODE script ltac:(lia) ltac:(lia)).
  pose proof (sigop_loop_mono (length script) 0 0 OP_INVALIDOPCODE script ltac:(lia) ltac:(lia)). lia.
Qed.

Lemma sigop_count_bounds_witness :
  GetSigOpCount [OP_1; OP_CHECKMULTISIG; OP_CHECKSIG] true <=
  GetSigOpCount [OP_1; OP_CHECKMULTISIG; OP_CHECKSIG] false.
Proof.
  apply (sigop_count_bounds [OP_1; OP_CHECKMULTISIG; OP_CHECKSIG]). vm_compute. reflexivity.
Defined.
