(* ===== verification/Interpreter.v ===== *)
(** * The script interpreter: definitions

    [script/interpreter.cpp] and [script/interpreter.h]: signature and public-key encoding
    rules, the opcode semantics of [EvalScript], [VerifyScript] and the lock-time check.

    Conventions.  A [vector<v_uint8>] used as a stack is a list whose head is [back()], so
    [stacktop(-i)] is element [i-1].  A run ends in [Ok], in [ScriptFail e] (the function
    returns false with [*serror = e]; a C++ exception is caught by [EvalScript] and gives
    SCRIPT_ERR_UNKNOWN_ERROR), or in [AssertFail] (a failed [assert]).  [OutOfFuel] never
    occurs ([InterpreterSafety] shows it).  Hash functions and the ECDSA low-S test are the
    parameters of class [Crypto]. *)

From S2P Require Import Prelude ScriptNum Script.

(** [ScriptError_t] of [script/script_error.h] *)
Inductive ScriptError : Set :=
| SCRIPT_ERR_OK
| SCRIPT_ERR_UNKNOWN_ERROR
| SCRIPT_ERR_EVAL_FALSE
| SCRIPT_ERR_OP_RETURN
| SCRIPT_ERR_SCRIPT_SIZE
| SCRIPT_ERR_PUSH_SIZE
| SCRIPT_ERR_OP_COUNT
| SCRIPT_ERR_STACK_SIZE
| SCRIPT_ERR_SIG_COUNT
| SCRIPT_ERR_PUBKEY_COUNT
| SCRIPT_ERR_VERIFY
| SCRIPT_ERR_EQUALVERIFY
| SCRIPT_ERR_CHECKMULTISIGVERIFY
| SCRIPT_ERR_CHECKSIGVERIFY
| SCRIPT_ERR_NUMEQUALVERIFY
| SCRIPT_ERR_BAD_OPCODE
| SCRIPT_ERR_DISABLED_OPCODE
| SCRIPT_ERR_INVALID_STACK_OPERATION
| SCRIPT_ERR_INVALID_ALTSTACK_OPERATION
| SCRIPT_ERR_UNBALANCED_CONDITIONAL
| SCRIPT_ERR_NEGATIVE_LOCKTIME
| SCRIPT_ERR_UNSATISFIED_LOCKTIME
| SCRIPT_ERR_SIG_HASHTYPE
| SCRIPT_ERR_SIG_DER
| SCRIPT_ERR_MINIMALDATA
| SCRIPT_ERR_SIG_PUSHONLY
| SCRIPT_ERR_SIG_HIGH_S
| SCRIPT_ERR_SIG_NULLDUMMY
| SCRIPT_ERR_PUBKEYTYPE
| SCRIPT_ERR_CLEANSTACK
| SCRIPT_ERR_DISCOURAGE_UPGRADABLE_NOPS.

#[export] Instance ScriptError_eq_dec : EqDecision ScriptError.
Proof. solve_decision. Defined.

Inductive eval_fail : Set :=
| ScriptFail (e : ScriptError)
| AssertFail
| OutOfFuel.

(** ** Verification flags *)

Definition SCRIPT_VERIFY_NONE : Z := 0.
Definition SCRIPT_VERIFY_P2SH : Z := Z.shiftl 1 0.
Definition SCRIPT_VERIFY_STRICTENC : Z := Z.shiftl 1 1.
Definition SCRIPT_VERIFY_LOW_S : Z := Z.shiftl 1 3.
Definition SCRIPT_VERIFY_NULLDUMMY : Z := Z.shiftl 1 4.
Definition SCRIPT_VERIFY_SIGPUSHONLY : Z := Z.shiftl 1 5.
Definition SCRIPT_VERIFY_MINIMALDATA : Z := Z.shiftl 1 6.
Definition SCRIPT_VERIFY_DISCOURAGE_UPGRADABLE_NOPS : Z := Z.shiftl 1 7.
Definition SCRIPT_VERIFY_CLEANSTACK : Z := Z.shiftl 1 8.
Definition SCRIPT_VERIFY_CHECKLOCKTIMEVERIFY : Z := Z.shiftl 1 9.

(** [(flags & f) != 0] *)
Definition flag_set (flags f : Z) : bool := negb (Z.land flags f =? 0).

(** [SIGHASH] *)
Definition SIGHASH_ALL : Z := 1.
Definition SIGHASH_NONE : Z := 2.
Definition SIGHASH_SINGLE : Z := 3.
Definition SIGHASH_ANYONECANPAY : Z := 0x80.

(** ** Cryptographic primitives *)

Class Crypto := {
  ripemd160 : bytes -> bytes;
  sha1 : bytes -> bytes;
  sha256 : bytes -> bytes;
  CheckLowS : bytes -> bool
}.

(** Digest sizes: [Finalize] writes OUTPUT_SIZE bytes. *)
Class CryptoLaws (C : Crypto) := {
  ripemd160_len : forall x, zlen (ripemd160 x) = 20;
  sha1_len : forall x, zlen (sha1 x) = 20;
  sha256_len : forall x, zlen (sha256 x) = 32;
  ripemd160_bytes : forall x, bytes_ok (ripemd160 x);
  sha1_bytes : forall x, bytes_ok (sha1 x);
  sha256_bytes : forall x, bytes_ok (sha256 x)
}.

(** [CHash160] and [CHash256] of [utils/hash.h] *)
Definition hash160 `{Crypto} (x : bytes) : bytes := ripemd160 (sha256 x).
Definition hash256 `{Crypto} (x : bytes) : bytes := sha256 (sha256 x).

(** [BaseSignatureChecker]: the two virtual functions the interpreter calls. *)
Record BaseSignatureChecker := {
  CheckSig : bytes -> bytes -> bytes -> Z -> bool; (* sig, pubkey, scriptCode, branch id *)
  CheckLockTime : Z -> bool
}.

(** The base class: both functions return false. *)
Definition base_checker : BaseSignatureChecker :=
  {| CheckSig := fun _ _ _ _ => false; CheckLockTime := fun _ => false |}.

(** [TransactionSignatureChecker::CheckLockTime]: [txLockTime] is [txTo->nLockTime] and
    [nSequence] that of [txTo->vin[nIn]] ([IsFinal] is equality with the maximum). *)
Definition tx_CheckLockTime (txLockTime nSequence nLockTime : Z) : bool :=
  if negb (((txLockTime <? LOCKTIME_THRESHOLD) && (nLockTime <? LOCKTIME_THRESHOLD))
           || ((txLockTime >=? LOCKTIME_THRESHOLD) && (nLockTime >=? LOCKTIME_THRESHOLD)))
  then false
  else if nLockTime >? txLockTime then false
  else if nSequence =? UINT32_MAX then false
  else true.

(** ** Truth values *)

(** [CastToBool]: false for every zero, negative zero included. *)
Fixpoint CastToBool (vch : bytes) : bool :=
  match vch with
  | [] => false
  | b :: rest =>
      if negb (b =? 0) then
        if (zlen rest =? 0) && (b =? 0x80) then false else true
      else CastToBool rest
  end.

(** ** Signature and public key encodings *)

Definition IsCompressedOrUncompressedPubKey (vchPubKey : bytes) : bool :=
  if zlen vchPubKey <? 33 then false
  else if byte_is vchPubKey 0 0x04 then
    if negb (zlen vchPubKey =? 65) then false else true
  else if byte_is vchPubKey 0 0x02 || byte_is vchPubKey 0 0x03 then
    if negb (zlen vchPubKey =? 33) then false else true
  else false.

(** [IsValidSignatureEncoding], with [None] for an access outside the vector. *)
Definition sig_encoding (sig : bytes) : option bool :=
  if zlen sig <? 9 then Some false
  else if zlen sig >? 73 then Some false
  else
    b0 ← znth sig 0;
    if negb (b0 =? 0x30) then Some false else
    b1 ← znth sig 1;
    if negb (b1 =? zlen sig - 3) then Some false else
    lenR ← znth sig 3;
    if 5 + lenR >=? zlen sig then Some false else
    lenS ← znth sig (5 + lenR);
    if negb (lenR + lenS + 7 =? zlen sig) then Some false else
    b2 ← znth sig 2;
    if negb (b2 =? 0x02) then Some false else
    if lenR =? 0 then Some false else
    b4 ← znth sig 4;
    if negb (Z.land b4 0x80 =? 0) then Some false else
    padR ← (if (lenR >? 1) && (b4 =? 0x00)
            then b5 ← znth sig 5; Some (Z.land b5 0x80 =? 0) else Some false);
    if (padR : bool) then Some false else
    bS ← znth sig (lenR + 4);
    if negb (bS =? 0x02) then Some false else
    if lenS =? 0 then Some false else
    s0 ← znth sig (lenR + 6);
    if negb (Z.land s0 0x80 =? 0) then Some false else
    padS ← (if (lenS >? 1) && (s0 =? 0x00)
            then s1 ← znth sig (lenR + 7); Some (Z.land s1 0x80 =? 0) else Some false);
    if (padS : bool) then Some false else Some true.

Definition IsValidSignatureEncoding (sig : bytes) : bool := default false (sig_encoding sig).

(** [IsDefinedHashtypeSignature] *)
Definition IsDefinedHashtypeSignature (vchSig : bytes) : bool :=
  match last vchSig with
  | None => false
  | Some b =>
      let nHashType := Z.land b (u8 (Z.lnot SIGHASH_ANYONECANPAY)) in
      (SIGHASH_ALL <=? nHashType) && (nHashType <=? SIGHASH_SINGLE)
  end.

Section Encoding.
Context `{Crypto}.

(** [IsLowDERSignature].  [Err (Some e)]: false with [*serror = e]; [Err None]: false with
    [*serror] left as it was. *)
Definition IsLowDERSignature (vchSig : bytes) : res (option ScriptError) unit :=
  if negb (IsValidSignatureEncoding vchSig) then Err (Some SCRIPT_ERR_SIG_DER)
  else if CheckLowS (removelast vchSig) then Ok tt
  else Err None.

Definition CheckSignatureEncoding (vchSig : bytes) (flags : Z) : res (option ScriptError) unit :=
  if zlen vchSig =? 0 then Ok tt
  else if negb (IsValidSignatureEncoding vchSig) then Err (Some SCRIPT_ERR_SIG_DER)
  else
    let? _ := (if flag_set flags SCRIPT_VERIFY_LOW_S then IsLowDERSignature vchSig else Ok tt) in
    if flag_set flags SCRIPT_VERIFY_STRICTENC && negb (IsDefinedHashtypeSignature vchSig)
    then Err (Some SCRIPT_ERR_SIG_HASHTYPE)
    else Ok tt.

Definition CheckPubKeyEncoding (vchSig : bytes) (flags : Z) : res (option ScriptError) unit :=
  if flag_set flags SCRIPT_VERIFY_STRICTENC && negb (IsCompressedOrUncompressedPubKey vchSig)
  then Err (Some SCRIPT_ERR_PUBKEYTYPE)
  else Ok tt.

End Encoding.

(** [data[0]]-style access where the length is known. *)
Definition byte0 (data : bytes) : Z := default 0 (data !! 0%nat).

Definition CheckMinimalPush (data : bytes) (opcode : Z) : bool :=
  if zlen data =? 0 then opcode =? OP_0
  else if (zlen data =? 1) && (byte0 data >=? 1) && (byte0 data <=? 16) then
    opcode =? OP_1 + (byte0 data - 1)
  else if (zlen data =? 1) && (byte0 data =? 0x81) then opcode =? OP_1NEGATE
  else if zlen data <=? 75 then opcode =? zlen data
  else if zlen data <=? 255 then opcode =? OP_PUSHDATA1
  else if zlen data <=? 65535 then opcode =? OP_PUSHDATA2
  else true.

(** ** The machine *)

(** The local variables of [EvalScript] that change between instructions. *)
Record frame := mk_frame {
  stack : list bytes;
  altstack : list bytes;
  vfExec : list bool;
  nOpCount : Z
}.

(** Its arguments. *)
Record eval_env := mk_env {
  e_script : bytes;
  e_flags : Z;
  e_checker : BaseSignatureChecker;
  e_branch : Z
}.

Definition fRequireMinimal (env : eval_env) : bool :=
  flag_set (e_flags env) SCRIPT_VERIFY_MINIMALDATA.

Definition with_stack (fr : frame) (s : list bytes) : frame :=
  mk_frame s (altstack fr) (vfExec fr) (nOpCount fr).

Definition with_vfExec (fr : frame) (v : list bool) : frame :=
  mk_frame (stack fr) (altstack fr) v (nOpCount fr).

Definition vchFalse : bytes := [].
Definition vchTrue : bytes := [1].
Definition bool_vch (b : bool) : bytes := if b then vchTrue else vchFalse.

Definition set_error {A : Type} (e : ScriptError) : res eval_fail A := Err (ScriptFail e).

(** Thrown exceptions ([scriptnum_error], [out_of_range]) end in [catch (...)]. *)
Definition caught {A : Type} : res eval_fail A := set_error SCRIPT_ERR_UNKNOWN_ERROR.

Definition script_num (env : eval_env) (vch : bytes) (nMaxNumSize : Z) : res eval_fail Z :=
  match CScriptNum vch (fRequireMinimal env) nMaxNumSize with
  | Ok n => Ok n
  | Err _ => caught
  end.

Definition assert_some {A : Type} (o : option A) : res eval_fail A :=
  match o with Some a => Ok a | None => Err AssertFail end.

(** [stacktop(-i)] *)
Definition stacktop (s : list bytes) (i : Z) : res eval_fail bytes :=
  match znth s (i - 1) with Some v => Ok v | None => caught end.

Definition ISO {A : Type} : res eval_fail A := set_error SCRIPT_ERR_INVALID_STACK_OPERATION.

(** [bn.getvch()] of a boolean result *)
Definition num_of_bool (b : bool) : Z := if b then 1 else 0.

(** *** Push value and control *)

Definition op_push_value (opcode : Z) (fr : frame) : res eval_fail frame :=
  Ok (with_stack fr (serialize (opcode - (OP_1 - 1)) :: stack fr)).

Definition op_checklocktimeverify (env : eval_env) (fr : frame) : res eval_fail frame :=
  if negb (flag_set (e_flags env) SCRIPT_VERIFY_CHECKLOCKTIMEVERIFY) then
    if flag_set (e_flags env) SCRIPT_VERIFY_DISCOURAGE_UPGRADABLE_NOPS
    then set_error SCRIPT_ERR_DISCOURAGE_UPGRADABLE_NOPS
    else Ok fr
  else
    match stack fr with
    | [] => ISO
    | top :: _ =>
        let? nLockTime := script_num env top 5 in
        if nLockTime <? 0 then set_error SCRIPT_ERR_NEGATIVE_LOCKTIME
        else if negb (CheckLockTime (e_checker env) nLockTime)
        then set_error SCRIPT_ERR_UNSATISFIED_LOCKTIME
        else Ok fr
    end.

Definition op_nop_upgradable (env : eval_env) (fr : frame) : res eval_fail frame :=
  if flag_set (e_flags env) SCRIPT_VERIFY_DISCOURAGE_UPGRADABLE_NOPS
  then set_error SCRIPT_ERR_DISCOURAGE_UPGRADABLE_NOPS
  else Ok fr.

Definition op_if (opcode : Z) (fExec : bool) (fr : frame) : res eval_fail frame :=
  if fExec then
    match stack fr with
    | [] => set_error SCRIPT_ERR_UNBALANCED_CONDITIONAL
    | vch :: s =>
        let fValue := CastToBool vch in
        let fValue := if opcode =? OP_NOTIF then negb fValue else fValue in
        Ok (with_vfExec (with_stack fr s) (fValue :: vfExec fr))
    end
  else Ok (with_vfExec fr (false :: vfExec fr)).

Definition op_else (fr : frame) : res eval_fail frame :=
  match vfExec fr with
  | [] => set_error SCRIPT_ERR_UNBALANCED_CONDITIONAL
  | b :: v => Ok (with_vfExec fr (negb b :: v))
  end.

Definition op_endif (fr : frame) : res eval_fail frame :=
  match vfExec fr with
  | [] => set_error SCRIPT_ERR_UNBALANCED_CONDITIONAL
  | _ :: v => Ok (with_vfExec fr v)
  end.

Definition op_verify (fr : frame) : res eval_fail frame :=
  match stack fr with
  | [] => ISO
  | vch :: s => if CastToBool vch then Ok (with_stack fr s) else set_error SCRIPT_ERR_VERIFY
  end.

Definition op_return (fr : frame) : res eval_fail frame := set_error SCRIPT_ERR_OP_RETURN.

(** *** Stack operations *)

Definition op_toaltstack (fr : frame) : res eval_fail frame :=
  match stack fr with
  | [] => ISO
  | x :: s => Ok (mk_frame s (x :: altstack fr) (vfExec fr) (nOpCount fr))
  end.

Definition op_fromaltstack (fr : frame) : res eval_fail frame :=
  match altstack fr with
  | [] => set_error SCRIPT_ERR_INVALID_ALTSTACK_OPERATION
  | x :: a => Ok (mk_frame (x :: stack fr) a (vfExec fr) (nOpCount fr))
  end.

Definition op_2drop (fr : frame) : res eval_fail frame :=
  match stack fr with
  | _ :: _ :: s => Ok (with_stack fr s)
  | _ => ISO
  end.

Definition op_2dup (fr : frame) : res eval_fail frame :=
  match stack fr with
  | x2 :: x1 :: s => Ok (with_stack fr (x2 :: x1 :: x2 :: x1 :: s))
  | _ => ISO
  end.

Definition op_3dup (fr : frame) : res eval_fail frame :=
  match stack fr with
  | x3 :: x2 :: x1 :: s => Ok (with_stack fr (x3 :: x2 :: x1 :: x3 :: x2 :: x1 :: s))
  | _ => ISO
  end.

Definition op_2over (fr : frame) : res eval_fail frame :=
  match stack fr with
  | x4 :: x3 :: x2 :: x1 :: s => Ok (with_stack fr (x2 :: x1 :: x4 :: x3 :: x2 :: x1 :: s))
  | _ => ISO
  end.

Definition op_2rot (fr : frame) : res eval_fail frame :=
  match stack fr with
  | x6 :: x5 :: x4 :: x3 :: x2 :: x1 :: s =>
      Ok (with_stack fr (x2 :: x1 :: x6 :: x5 :: x4 :: x3 :: s))
  | _ => ISO
  end.

Definition op_2swap (fr : frame) : res eval_fail frame :=
  match stack fr with
  | x4 :: x3 :: x2 :: x1 :: s => Ok (with_stack fr (x2 :: x1 :: x4 :: x3 :: s))
  | _ => ISO
  end.

Definition op_ifdup (fr : frame) : res eval_fail frame :=
  match stack fr with
  | [] => ISO
  | vch :: s => if CastToBool vch then Ok (with_stack fr (vch :: vch :: s)) else Ok fr
  end.

Definition op_depth (fr : frame) : res eval_fail frame :=
  Ok (with_stack fr (serialize (zlen (stack fr)) :: stack fr)).

Definition op_drop (fr : frame) : res eval_fail frame :=
  match stack fr with
  | [] => ISO
  | _ :: s => Ok (with_stack fr s)
  end.

Definition op_dup (fr : frame) : res eval_fail frame :=
  match stack fr with
  | [] => ISO
  | x :: s => Ok (with_stack fr (x :: x :: s))
  end.

Definition op_nip (fr : frame) : res eval_fail frame :=
  match stack fr with
  | x2 :: _ :: s => Ok (with_stack fr (x2 :: s))
  | _ => ISO
  end.

Definition op_over (fr : frame) : res eval_fail frame :=
  match stack fr with
  | x2 :: x1 :: s => Ok (with_stack fr (x1 :: x2 :: x1 :: s))
  | _ => ISO
  end.

Definition op_pick_roll (env : eval_env) (opcode : Z) (fr : frame) : res eval_fail frame :=
  match stack fr with
  | top :: ((_ :: _) as s) =>
      let? num := script_num env top nDefaultMaxNumSize in
      let n := getint num in
      if (n <? 0) || (n >=? zlen s) then ISO
      else
        let? vch := stacktop s (n + 1) in
        let s := if opcode =? OP_ROLL
                 then take (Z.to_nat n) s ++ drop (S (Z.to_nat n)) s else s in
        Ok (with_stack fr (vch :: s))
  | _ => ISO
  end.

Definition op_rot (fr : frame) : res eval_fail frame :=
  match stack fr with
  | x3 :: x2 :: x1 :: s => Ok (with_stack fr (x1 :: x3 :: x2 :: s))
  | _ => ISO
  end.

Definition op_swap (fr : frame) : res eval_fail frame :=
  match stack fr with
  | x2 :: x1 :: s => Ok (with_stack fr (x1 :: x2 :: s))
  | _ => ISO
  end.

Definition op_tuck (fr : frame) : res eval_fail frame :=
  match stack fr with
  | x2 :: x1 :: s => Ok (with_stack fr (x2 :: x1 :: x2 :: s))
  | _ => ISO
  end.

Definition op_size (fr : frame) : res eval_fail frame :=
  match stack fr with
  | [] => ISO
  | x :: s => Ok (with_stack fr (serialize (zlen x) :: x :: s))
  end.

(** *** Comparison and arithmetic *)

Definition op_equal (opcode : Z) (fr : frame) : res eval_fail frame :=
  match stack fr with
  | vch2 :: vch1 :: s =>
      let fEqual := bytes_eqb vch1 vch2 in
      if opcode =? OP_EQUALVERIFY then
        if fEqual then Ok (with_stack fr s) else set_error SCRIPT_ERR_EQUALVERIFY
      else Ok (with_stack fr (bool_vch fEqual :: s))
  | _ => ISO
  end.

Definition unary_num (opcode bn : Z) : option Z :=
  if opcode =? OP_1ADD then num_add_assign bn 1
  else if opcode =? OP_1SUB then num_sub_assign bn 1
  else if opcode =? OP_NEGATE then num_neg bn
  else if opcode =? OP_ABS then if bn <? 0 then num_neg bn else Some bn
  else if opcode =? OP_NOT then Some (num_of_bool (bn =? 0))
  else if opcode =? OP_0NOTEQUAL then Some (num_of_bool (negb (bn =? 0)))
  else None.

Definition op_unary (env : eval_env) (opcode : Z) (fr : frame) : res eval_fail frame :=
  match stack fr with
  | [] => ISO
  | x :: s =>
      let? bn := script_num env x nDefaultMaxNumSize in
      let? bn := assert_some (unary_num opcode bn) in
      Ok (with_stack fr (serialize bn :: s))
  end.

Definition binary_num (opcode bn1 bn2 : Z) : option Z :=
  if opcode =? OP_ADD then Some (num_add bn1 bn2)
  else if opcode =? OP_SUB then Some (num_sub bn1 bn2)
  else if opcode =? OP_BOOLAND then Some (num_of_bool (negb (bn1 =? 0) && negb (bn2 =? 0)))
  else if opcode =? OP_BOOLOR then Some (num_of_bool (negb (bn1 =? 0) || negb (bn2 =? 0)))
  else if opcode =? OP_NUMEQUAL then Some (num_of_bool (bn1 =? bn2))
  else if opcode =? OP_NUMEQUALVERIFY then Some (num_of_bool (bn1 =? bn2))
  else if opcode =? OP_NUMNOTEQUAL then Some (num_of_bool (negb (bn1 =? bn2)))
  else if opcode =? OP_LESSTHAN then Some (num_of_bool (bn1 <? bn2))
  else if opcode =? OP_GREATERTHAN then Some (num_of_bool (bn1 >? bn2))
  else if opcode =? OP_LESSTHANOREQUAL then Some (num_of_bool (bn1 <=? bn2))
  else if opcode =? OP_GREATERTHANOREQUAL then Some (num_of_bool (bn1 >=? bn2))
  else if opcode =? OP_MIN then Some (if bn1 <? bn2 then bn1 else bn2)
  else if opcode =? OP_MAX then Some (if bn1 >? bn2 then bn1 else bn2)
  else None.

Definition op_binary (env : eval_env) (opcode : Z) (fr : frame) : res eval_fail frame :=
  match stack fr with
  | x2 :: x1 :: s =>
      let? bn1 := script_num env x1 nDefaultMaxNumSize in
      let? bn2 := script_num env x2 nDefaultMaxNumSize in
      let? bn := assert_some (binary_num opcode bn1 bn2) in
      if opcode =? OP_NUMEQUALVERIFY then
        if CastToBool (serialize bn) then Ok (with_stack fr s)
        else set_error SCRIPT_ERR_NUMEQUALVERIFY
      else Ok (with_stack fr (serialize bn :: s))
  | _ => ISO
  end.

Definition op_within (env : eval_env) (fr : frame) : res eval_fail frame :=
  match stack fr with
  | x3 :: x2 :: x1 :: s =>
      let? bn1 := script_num env x1 nDefaultMaxNumSize in
      let? bn2 := script_num env x2 nDefaultMaxNumSize in
      let? bn3 := script_num env x3 nDefaultMaxNumSize in
      Ok (with_stack fr (bool_vch ((bn2 <=? bn1) && (bn1 <? bn3)) :: s))
  | _ => ISO
  end.

(** *** Cryptographic operations *)

Section Eval.
Context `{Crypto}.

Definition hash_of (opcode : Z) (vch : bytes) : bytes :=
  if opcode =? OP_RIPEMD160 then ripemd160 vch
  else if opcode =? OP_SHA1 then sha1 vch
  else if opcode =? OP_SHA256 then sha256 vch
  else if opcode =? OP_HASH160 then hash160 vch
  else hash256 vch.

Definition op_hash (opcode : Z) (fr : frame) : res eval_fail frame :=
  match stack fr with
  | [] => ISO
  | vch :: s => Ok (with_stack fr (hash_of opcode vch :: s))
  end.

(** The guard [!CheckSignatureEncoding(..) || !CheckPubKeyEncoding(..)]: when the callee left
    [*serror] alone it still holds the SCRIPT_ERR_UNKNOWN_ERROR of the entry. *)
Definition check_encodings (env : eval_env) (vchSig vchPubKey : bytes) : res eval_fail unit :=
  match CheckSignatureEncoding vchSig (e_flags env) with
  | Err e => set_error (default SCRIPT_ERR_UNKNOWN_ERROR e)
  | Ok _ =>
      match CheckPubKeyEncoding vchPubKey (e_flags env) with
      | Err e => set_error (default SCRIPT_ERR_UNKNOWN_ERROR e)
      | Ok _ => Ok tt
      end
  end.

Definition check_sig (env : eval_env) (vchSig vchPubKey : bytes) : bool :=
  CheckSig (e_checker env) vchSig vchPubKey (e_script env) (e_branch env).

Definition op_checksig (env : eval_env) (opcode : Z) (fr : frame) : res eval_fail frame :=
  match stack fr with
  | vchPubKey :: vchSig :: s =>
      let? _ := check_encodings env vchSig vchPubKey in
      let fSuccess := check_sig env vchSig vchPubKey in
      if opcode =? OP_CHECKSIGVERIFY then
        if fSuccess then Ok (with_stack fr s) else set_error SCRIPT_ERR_CHECKSIGVERIFY
      else Ok (with_stack fr (bool_vch fSuccess :: s))
  | _ => ISO
  end.

(** The loop [while (fSuccess && nSigsCount > 0)]; every iteration uses up one key. *)
Fixpoint multisig_loop (fuel : nat) (env : eval_env) (s : list bytes)
    (fSuccess : bool) (isig ikey nSigsCount nKeysCount : Z) : res eval_fail bool :=
  if negb (fSuccess && (nSigsCount >? 0)) then Ok fSuccess
  else
    match fuel with
    | O => Err OutOfFuel
    | S fuel =>
        let? vchSig := stacktop s isig in
        let? vchPubKey := stacktop s ikey in
        let? _ := check_encodings env vchSig vchPubKey in
        let fOk := check_sig env vchSig vchPubKey in
        let isig := if fOk then isig + 1 else isig in
        let nSigsCount := if fOk then nSigsCount - 1 else nSigsCount in
        let ikey := ikey + 1 in
        let nKeysCount := nKeysCount - 1 in
        let fSuccess := if nSigsCount >? nKeysCount then false else fSuccess in
        multisig_loop fuel env s fSuccess isig ikey nSigsCount nKeysCount
    end.

Definition op_checkmultisig (env : eval_env) (opcode : Z) (fr : frame) : res eval_fail frame :=
  let s := stack fr in
  if zlen s <? 1 then ISO
  else
    let? top := stacktop s 1 in
    let? num := script_num env top nDefaultMaxNumSize in
    let nKeysCount := getint num in
    if (nKeysCount <? 0) || (nKeysCount >? 20) then set_error SCRIPT_ERR_PUBKEY_COUNT
    else
      let nOpCount' := nOpCount fr + nKeysCount in
      if nOpCount' >? 201 then set_error SCRIPT_ERR_OP_COUNT
      else
        let ikey := 2 in
        let i := 2 + nKeysCount in
        if zlen s <? i then ISO
        else
          let? sigtop := stacktop s i in
          let? num := script_num env sigtop nDefaultMaxNumSize in
          let nSigsCount := getint num in
          if (nSigsCount <? 0) || (nSigsCount >? nKeysCount) then set_error SCRIPT_ERR_SIG_COUNT
          else
            let isig := i + 1 in
            let i := i + 1 + nSigsCount in
            if zlen s <? i then ISO
            else
              let? fSuccess :=
                multisig_loop (Z.to_nat nKeysCount) env s true isig ikey nSigsCount nKeysCount in
              match drop (Z.to_nat (i - 1)) s with
              | [] => ISO
              | dummy :: s =>
                  if flag_set (e_flags env) SCRIPT_VERIFY_NULLDUMMY && negb (zlen dummy =? 0)
                  then set_error SCRIPT_ERR_SIG_NULLDUMMY
                  else
                    let fr s := mk_frame s (altstack fr) (vfExec fr) nOpCount' in
                    if opcode =? OP_CHECKMULTISIGVERIFY then
                      if fSuccess then Ok (fr s) else set_error SCRIPT_ERR_CHECKMULTISIGVERIFY
                    else Ok (fr (bool_vch fSuccess :: s))
              end.

(** *** Dispatch: the [switch (opcode)] *)

Definition is_op (opcode : Z) (ops : list Z) : bool := existsb (Z.eqb opcode) ops.

Definition exec_op (env : eval_env) (opcode : Z) (fExec : bool) (fr : frame)
  : res eval_fail frame :=
  if (opcode =? OP_1NEGATE) || ((OP_1 <=? opcode) && (opcode <=? OP_16))
  then op_push_value opcode fr
  else if opcode =? OP_NOP then Ok fr
  else if opcode =? OP_CHECKLOCKTIMEVERIFY then op_checklocktimeverify env fr
  else if is_op opcode [OP_NOP1; OP_NOP3; OP_NOP4; OP_NOP5; OP_NOP6; OP_NOP7; OP_NOP8;
                        OP_NOP9; OP_NOP10] then op_nop_upgradable env fr
  else if is_op opcode [OP_IF; OP_NOTIF] then op_if opcode fExec fr
  else if opcode =? OP_ELSE then op_else fr
  else if opcode =? OP_ENDIF then op_endif fr
  else if opcode =? OP_VERIFY then op_verify fr
  else if opcode =? OP_RETURN then op_return fr
  else if opcode =? OP_TOALTSTACK then op_toaltstack fr
  else if opcode =? OP_FROMALTSTACK then op_fromaltstack fr
  else if opcode =? OP_2DROP then op_2drop fr
  else if opcode =? OP_2DUP then op_2dup fr
  else if opcode =? OP_3DUP then op_3dup fr
  else if opcode =? OP_2OVER then op_2over fr
  else if opcode =? OP_2ROT then op_2rot fr
  else if opcode =? OP_2SWAP then op_2swap fr
  else if opcode =? OP_IFDUP then op_ifdup fr
  else if opcode =? OP_DEPTH then op_depth fr
  else if opcode =? OP_DROP then op_drop fr
  else if opcode =? OP_DUP then op_dup fr
  else if opcode =? OP_NIP then op_nip fr
  else if opcode =? OP_OVER then op_over fr
  else if is_op opcode [OP_PICK; OP_ROLL] then op_pick_roll env opcode fr
  else if opcode =? OP_ROT then op_rot fr
  else if opcode =? OP_SWAP then op_swap fr
  else if opcode =? OP_TUCK then op_tuck fr
  else if opcode =? OP_SIZE then op_size fr
  else if is_op opcode [OP_EQUAL; OP_EQUALVERIFY] then op_equal opcode fr
  else if is_op opcode [OP_1ADD; OP_1SUB; OP_NEGATE; OP_ABS; OP_NOT; OP_0NOTEQUAL]
  then op_unary env opcode fr
  else if is_op opcode [OP_ADD; OP_SUB; OP_BOOLAND; OP_BOOLOR; OP_NUMEQUAL; OP_NUMEQUALVERIFY;
                        OP_NUMNOTEQUAL; OP_LESSTHAN; OP_GREATERTHAN; OP_LESSTHANOREQUAL;
                        OP_GREATERTHANOREQUAL; OP_MIN; OP_MAX]
  then op_binary env opcode fr
  else if opcode =? OP_WITHIN then op_within env fr
  else if is_op opcode [OP_RIPEMD160; OP_SHA1; OP_SHA256; OP_HASH160; OP_HASH256]
  then op_hash opcode fr
  else if is_op opcode [OP_CHECKSIG; OP_CHECKSIGVERIFY] then op_checksig env opcode fr
  else if is_op opcode [OP_CHECKMULTISIG; OP_CHECKMULTISIGVERIFY]
  then op_checkmultisig env opcode fr
  else set_error SCRIPT_ERR_BAD_OPCODE.

Definition disabled_opcode (opcode : Z) : bool :=
  is_op opcode [OP_CAT; OP_SUBSTR; OP_LEFT; OP_RIGHT; OP_INVERT; OP_AND; OP_OR; OP_XOR;
                OP_2MUL; OP_2DIV; OP_MUL; OP_DIV; OP_MOD; OP_LSHIFT; OP_RSHIFT;
                OP_CODESEPARATOR].

(** *** The loop body and the loop *)

Definition eval_step (env : eval_env) (fr : frame) (pc : bytes)
  : res eval_fail (frame * bytes) :=
  let fExec := forallb id (vfExec fr) in
  match GetOp2 pc with
  | None => set_error SCRIPT_ERR_BAD_OPCODE
  | Some (opcode, vchPushValue, pc) =>
      if zlen vchPushValue >? MAX_SCRIPT_ELEMENT_SIZE then set_error SCRIPT_ERR_PUSH_SIZE
      else
        let fr := if opcode >? OP_16
                  then mk_frame (stack fr) (altstack fr) (vfExec fr) (nOpCount fr + 1)
                  else fr in
        if (opcode >? OP_16) && (nOpCount fr >? 201) then set_error SCRIPT_ERR_OP_COUNT
        else if disabled_opcode opcode then set_error SCRIPT_ERR_DISABLED_OPCODE
        else
          let? fr :=
            (if fExec && (0 <=? opcode) && (opcode <=? OP_PUSHDATA4) then
               if fRequireMinimal env && negb (CheckMinimalPush vchPushValue opcode)
               then set_error SCRIPT_ERR_MINIMALDATA
               else Ok (with_stack fr (vchPushValue :: stack fr))
             else if fExec || ((OP_IF <=? opcode) && (opcode <=? OP_ENDIF))
             then exec_op env opcode fExec fr
             else Ok fr) in
          if zlen (stack fr) + zlen (altstack fr) >? 1000 then set_error SCRIPT_ERR_STACK_SIZE
          else Ok (fr, pc)
  end.

Fixpoint eval_loop (fuel : nat) (env : eval_env) (fr : frame) (pc : bytes)
  : res eval_fail frame :=
  match pc with
  | [] => Ok fr
  | _ =>
      match fuel with
      | O => Err OutOfFuel
      | S fuel =>
          let? r := eval_step env fr pc in
          eval_loop fuel env r.1 r.2
      end
  end.

(** [EvalScript]: the stack after a successful run. *)
Definition EvalScript (st : list bytes) (script : bytes) (flags : Z)
    (checker : BaseSignatureChecker) (consensusBranchId : Z) : res eval_fail (list bytes) :=
  if zlen script >? MAX_SCRIPT_SIZE then set_error SCRIPT_ERR_SCRIPT_SIZE
  else
    let env := mk_env script flags checker consensusBranchId in
    let? fr := eval_loop (length script) env (mk_frame st [] [] 0) script in
    match vfExec fr with
    | [] => Ok (stack fr)
    | _ => set_error SCRIPT_ERR_UNBALANCED_CONDITIONAL
    end.

(** [stack.empty()] or a false top element: SCRIPT_ERR_EVAL_FALSE *)
Definition require_true (st : list bytes) : res eval_fail unit :=
  match st with
  | [] => set_error SCRIPT_ERR_EVAL_FALSE
  | top :: _ => if CastToBool top then Ok tt else set_error SCRIPT_ERR_EVAL_FALSE
  end.

Definition VerifyScript (scriptSig scriptPubKey : bytes) (flags : Z)
    (checker : BaseSignatureChecker) (consensusBranchId : Z) : res eval_fail unit :=
  if flag_set flags SCRIPT_VERIFY_SIGPUSHONLY && negb (IsPushOnly scriptSig)
  then set_error SCRIPT_ERR_SIG_PUSHONLY
  else
    let? stackCopy := EvalScript [] scriptSig flags checker consensusBranchId in
    let? st := EvalScript stackCopy scriptPubKey flags checker consensusBranchId in
    let? _ := require_true st in
    let? st :=
      (if flag_set flags SCRIPT_VERIFY_P2SH && IsPayToScriptHash scriptPubKey then
         if negb (IsPushOnly scriptSig) then set_error SCRIPT_ERR_SIG_PUSHONLY
         else
           match stackCopy with
           | [] => Err AssertFail
           | pubKeySerialized :: st =>
               let? st := EvalScript st pubKeySerialized flags checker consensusBranchId in
               let? _ := require_true st in
               Ok st
           end
       else Ok st) in
    if flag_set flags SCRIPT_VERIFY_CLEANSTACK then
      if negb (flag_set flags SCRIPT_VERIFY_P2SH) then Err AssertFail
      else if negb (zlen st =? 1) then set_error SCRIPT_ERR_CLEANSTACK
      else Ok tt
    else Ok tt.

End Eval.
