(* ===== verification/InterpreterSafety.v ===== *)
(** * The script interpreter: resource limits and absence of aborts

    Every run of [EvalScript] keeps the interpreter's limits (element size, stack depth,
    operation count), never fails one of the C++ assertions and always terminates; the
    assertions of [VerifyScript] hold as well.  The proofs go through a weakest
    precondition [wp] of the result type. *)

From S2P Require Import Prelude ScriptNum Script Interpreter.

(** ** Weakest preconditions: [Q] on success, failure only by a script error *)

Definition wp {A : Type} (Q : A -> Prop) (r : res eval_fail A) : Prop :=
  match r with
  | Ok a => Q a
  | Err (ScriptFail _) => True
  | Err AssertFail => False
  | Err OutOfFuel => False
  end.

Lemma wp_bind {A B} (Q : B -> Prop) (m : res eval_fail A) (k : A -> res eval_fail B) :
  wp (fun a => wp Q (k a)) m -> wp Q (res_bind m k).
Proof. destruct m as [a|[]]; done. Qed.

Lemma wp_mono {A} (P Q : A -> Prop) (r : res eval_fail A) :
  (forall a, P a -> Q a) -> wp P r -> wp Q r.
Proof. destruct r as [a|[]]; cbn; auto. Qed.

Lemma wp_set_error {A} (Q : A -> Prop) e : wp Q (set_error e).
Proof. done. Qed.

Lemma wp_caught {A} (Q : A -> Prop) : wp Q caught.
Proof. done. Qed.

#[export] Hint Resolve wp_set_error wp_caught : pastel.

(** ** Invariants *)

(** An element of a stack: bytes, at most MAX_SCRIPT_ELEMENT_SIZE of them. *)
Definition elem_ok (v : bytes) : Prop := bytes_ok v /\ zlen v <= MAX_SCRIPT_ELEMENT_SIZE.
Definition stack_ok (s : list bytes) : Prop := Forall elem_ok s.

(** The part of the invariant the opcode handlers preserve. *)
Definition frame_elems (fr : frame) : Prop := stack_ok (stack fr) /\ stack_ok (altstack fr).

(** The loop invariant. *)
Definition frame_inv (fr : frame) : Prop :=
  frame_elems fr /\ zlen (stack fr) + zlen (altstack fr) <= 1000 /\ 0 <= nOpCount fr <= 201.

(** What a handler does to the counter: only CHECKMULTISIG adds to it, up to the limit. *)
Definition count_ok (fr fr' : frame) : Prop :=
  nOpCount fr <= nOpCount fr' /\ (nOpCount fr <= 201 -> nOpCount fr' <= 201).

Definition handler_ok (fr : frame) (r : res eval_fail frame) : Prop :=
  wp (fun fr' => frame_elems fr' /\ count_ok fr fr') r.

Lemma count_ok_same fr fr' : nOpCount fr' = nOpCount fr -> count_ok fr fr'.
Proof. unfold count_ok. lia. Qed.

Lemma elem_ok_nil : elem_ok [].
Proof. split; [constructor|]. unfold zlen, MAX_SCRIPT_ELEMENT_SIZE. cbn. lia. Qed.

Lemma elem_ok_bool b : elem_ok (bool_vch b).
Proof.
  destruct b; [|apply elem_ok_nil]. split; [repeat constructor; lia|].
  unfold zlen, MAX_SCRIPT_ELEMENT_SIZE. cbn. lia.
Qed.

Lemma elem_ok_serialize v : - 2 ^ 63 < v < 2 ^ 63 -> elem_ok (serialize v).
Proof.
  intros Hv. split; [by apply serialize_bytes_ok|].
  pose proof (serialize_length v Hv). unfold MAX_SCRIPT_ELEMENT_SIZE. lia.
Qed.

Lemma wp_script_num env v : elem_ok v ->
  wp (fun n => - 2 ^ 31 < n < 2 ^ 31) (script_num env v nDefaultMaxNumSize).
Proof.
  intros [Hv _]. unfold script_num.
  destruct (CScriptNum v (fRequireMinimal env) nDefaultMaxNumSize) as [n|] eqn:E; [|done].
  by apply CScriptNum4_range in E.
Qed.

Lemma wp_script_num_any env v n : wp (fun _ => True) (script_num env v n).
Proof. unfold script_num. by destruct (CScriptNum _ _ _). Qed.

Lemma wp_stacktop s i : stack_ok s -> wp elem_ok (stacktop s i).
Proof.
  intros Hs. unfold stacktop, znth. destruct (i - 1 <? 0); [done|].
  destruct (s !! Z.to_nat (i - 1)) as [v|] eqn:E; [|done]. cbn.
  by eapply Forall_lookup_1 in E.
Qed.

Lemma wp_stacktop_any s i : wp (fun _ => True) (stacktop s i).
Proof. unfold stacktop. by destruct (znth s (i - 1)). Qed.

Lemma unary_num_range op bn :
  is_op op [OP_1ADD; OP_1SUB; OP_NEGATE; OP_ABS; OP_NOT; OP_0NOTEQUAL] = true ->
  - 2 ^ 31 < bn < 2 ^ 31 -> exists v, unary_num op bn = Some v /\ - 2 ^ 63 < v < 2 ^ 63.
Proof.
  intros Hop Hbn. unfold unary_num, num_add_assign, num_sub_assign, num_neg, num_of_bool,
    INT64_MAX, INT64_MIN in *. cbn [is_op existsb] in Hop.
  repeat case_if; zbool; try (eexists; split; [reflexivity|lia]); lia.
Qed.

Lemma binary_num_range op a b :
  is_op op [OP_ADD; OP_SUB; OP_BOOLAND; OP_BOOLOR; OP_NUMEQUAL; OP_NUMEQUALVERIFY;
            OP_NUMNOTEQUAL; OP_LESSTHAN; OP_GREATERTHAN; OP_LESSTHANOREQUAL;
            OP_GREATERTHANOREQUAL; OP_MIN; OP_MAX] = true ->
  - 2 ^ 31 < a < 2 ^ 31 -> - 2 ^ 31 < b < 2 ^ 31 ->
  exists v, binary_num op a b = Some v /\ - 2 ^ 63 < v < 2 ^ 63.
Proof.
  intros Hop Ha Hb. unfold binary_num, num_add, num_sub, num_of_bool. cbn [is_op existsb] in Hop.
  rewrite !s64_id by (unfold INT64_MIN, INT64_MAX; lia).
  repeat case_if; zbool; try (eexists; split; [reflexivity|lia]); lia.
Qed.

(** ** Handlers *)

Ltac stack_split :=
  unfold stack_ok in *;
  repeat match goal with
  | H : Forall _ (_ :: _) |- _ => apply Forall_cons in H as [? ?]
  end.

(** A handler that rearranges the stack: case on its shape, then rebuild [Forall]. *)
Ltac shuffle_solve fr :=
  let Hs := fresh "Hs" in let Ha := fresh "Ha" in
  intros [Hs Ha]; unfold handler_ok, frame_elems in *;
  destruct fr as [st al vf cnt]; cbn [stack altstack vfExec nOpCount] in *;
  repeat (case_match; try done; subst; try case_if; try done);
  stack_split; cbn;
  first [ exact I
        | split; [split; cbn; repeat (apply Forall_cons; split); eauto using elem_ok_bool
                 | apply count_ok_same; done] ].

Section Handlers.
Context `{CryptoLaws}.

Lemma shuffle_ok fr f :
  f ∈ [op_verify; op_return; op_toaltstack; op_fromaltstack; op_2drop; op_2dup; op_3dup;
       op_2over; op_2rot; op_2swap; op_ifdup; op_drop; op_dup; op_nip; op_over; op_rot;
       op_swap; op_tuck; op_else; op_endif] ->
  frame_elems fr -> handler_ok fr (f fr).
Proof.
  intros Hf. repeat (apply elem_of_cons in Hf as [->|Hf]);
    [unfold op_verify|unfold op_return|unfold op_toaltstack|unfold op_fromaltstack|unfold op_2drop
    |unfold op_2dup|unfold op_3dup|unfold op_2over|unfold op_2rot|unfold op_2swap|unfold op_ifdup
    |unfold op_drop|unfold op_dup|unfold op_nip|unfold op_over|unfold op_rot|unfold op_swap
    |unfold op_tuck|unfold op_else|unfold op_endif|by apply not_elem_of_nil in Hf];
    shuffle_solve fr.
Qed.

Lemma op_push_value_ok op fr :
  0 <= op <= 255 -> frame_elems fr -> handler_ok fr (op_push_value op fr).
Proof.
  intros Hop [Hs Ha]. split; [|by apply count_ok_same]. split; [|done].
  apply Forall_cons. split; [|done]. apply elem_ok_serialize. unfold OP_1. lia.
Qed.

Lemma op_cltv_ok env fr : frame_elems fr -> handler_ok fr (op_checklocktimeverify env fr).
Proof.
  intros Hf. unfold op_checklocktimeverify, handler_ok.
  assert (frame_elems fr /\ count_ok fr fr) by (split; [done|by apply count_ok_same]).
  repeat case_if; try done. destruct (stack fr) as [|x s]; [done|]. apply wp_bind.
  eapply wp_mono; [|apply wp_script_num_any]. intros n _. by repeat case_if.
Qed.

Lemma op_nop_ok env fr : frame_elems fr -> handler_ok fr (op_nop_upgradable env fr).
Proof.
  intros Hf. unfold op_nop_upgradable, handler_ok. case_if; [done|].
  split; [done|by apply count_ok_same].
Qed.

Lemma op_if_ok op fExec fr : frame_elems fr -> handler_ok fr (op_if op fExec fr).
Proof. unfold op_if. destruct fExec; shuffle_solve fr. Qed.

Lemma op_depth_ok fr :
  frame_elems fr -> zlen (stack fr) <= 1000 -> handler_ok fr (op_depth fr).
Proof.
  intros [Hs Ha] Hl. split; [|by apply count_ok_same]. split; [|done].
  apply Forall_cons. split; [|done]. apply elem_ok_serialize.
  pose proof (zlen_nonneg (stack fr)). lia.
Qed.

Lemma op_size_ok fr : frame_elems fr -> handler_ok fr (op_size fr).
Proof.
  intros [Hs Ha]. unfold op_size, handler_ok. destruct (stack fr) as [|x s] eqn:E; [done|].
  apply Forall_cons in Hs as [Hx Hs]. split; [|by apply count_ok_same]. split; [|done].
  cbn. apply Forall_cons; split; [|by apply Forall_cons]. apply elem_ok_serialize.
  destruct Hx as [_ Hx]. unfold MAX_SCRIPT_ELEMENT_SIZE in Hx. pose proof (zlen_nonneg x). lia.
Qed.

Lemma op_pick_roll_ok env op fr : frame_elems fr -> handler_ok fr (op_pick_roll env op fr).
Proof.
  intros [Hs Ha]. unfold op_pick_roll, handler_ok.
  destruct (stack fr) as [|x [|y s]] eqn:E; [done..|].
  apply Forall_cons in Hs as [Hx Hs]. apply wp_bind.
  eapply wp_mono; [|by apply wp_script_num]. intros n _. case_if; [done|].
  apply wp_bind. eapply wp_mono; [|by apply wp_stacktop]. intros v Hv.
  split; [|by apply count_ok_same]. split; [|done]. cbn [stack with_stack].
  apply Forall_cons; split; [done|]. case_if; [|done].
  apply Forall_app; split; [by apply Forall_take|by apply Forall_drop].
Qed.

Lemma op_equal_ok op fr : frame_elems fr -> handler_ok fr (op_equal op fr).
Proof. unfold op_equal. shuffle_solve fr. Qed.

Lemma op_unary_ok env op fr :
  is_op op [OP_1ADD; OP_1SUB; OP_NEGATE; OP_ABS; OP_NOT; OP_0NOTEQUAL] = true ->
  frame_elems fr -> handler_ok fr (op_unary env op fr).
Proof.
  intros Hop [Hs Ha]. unfold op_unary, handler_ok. destruct (stack fr) as [|x s] eqn:E; [done|].
  apply Forall_cons in Hs as [Hx Hs]. apply wp_bind.
  eapply wp_mono; [|by apply wp_script_num]. intros n Hn.
  destruct (unary_num_range op n Hop Hn) as (v & -> & Hv). cbn.
  split; [|by apply count_ok_same]. split; [|done]. apply Forall_cons; split; [|done].
  by apply elem_ok_serialize.
Qed.

Lemma op_binary_ok env op fr :
  is_op op [OP_ADD; OP_SUB; OP_BOOLAND; OP_BOOLOR; OP_NUMEQUAL; OP_NUMEQUALVERIFY;
            OP_NUMNOTEQUAL; OP_LESSTHAN; OP_GREATERTHAN; OP_LESSTHANOREQUAL;
            OP_GREATERTHANOREQUAL; OP_MIN; OP_MAX] = true ->
  frame_elems fr -> handler_ok fr (op_binary env op fr).
Proof.
  intros Hop [Hs Ha]. unfold op_binary, handler_ok.
  destruct (stack fr) as [|x [|y s]] eqn:E; [done..|].
  apply Forall_cons in Hs as [Hx Hs]. apply Forall_cons in Hs as [Hy Hs]. apply wp_bind.
  eapply wp_mono; [|by apply wp_script_num]. intros n Hn. apply wp_bind.
  eapply wp_mono; [|by apply wp_script_num]. intros k Hk.
  destruct (binary_num_range op n k Hop Hn Hk) as (v & -> & Hv). cbn [assert_some res_bind].
  repeat case_if; try done; (split; [|by apply count_ok_same]); (split; [|done]); cbn; try done.
  apply Forall_cons; split; [|done]. by apply elem_ok_serialize.
Qed.

Lemma op_within_ok env fr : frame_elems fr -> handler_ok fr (op_within env fr).
Proof.
  intros [Hs Ha]. unfold op_within, handler_ok.
  destruct (stack fr) as [|x [|y [|z s]]] eqn:E; [done..|]. stack_split.
  do 3 (apply wp_bind; eapply wp_mono; [|by apply wp_script_num_any]; intros ? _).
  split; [|by apply count_ok_same]. split; [|done]. apply Forall_cons; split; [|done].
  apply elem_ok_bool.
Qed.

Lemma hash_of_ok op v : elem_ok (hash_of op v).
Proof.
  unfold hash_of, hash160, hash256, elem_ok, MAX_SCRIPT_ELEMENT_SIZE.
  repeat case_if; rewrite ?ripemd160_len, ?sha1_len, ?sha256_len;
    (split; [|lia]); auto using ripemd160_bytes, sha1_bytes, sha256_bytes.
Qed.

Lemma op_hash_ok op fr : frame_elems fr -> handler_ok fr (op_hash op fr).
Proof.
  intros [Hs Ha]. unfold op_hash, handler_ok. destruct (stack fr) as [|x s] eqn:E; [done|].
  stack_split. split; [|by apply count_ok_same]. split; [|done].
  apply Forall_cons; split; [apply hash_of_ok|done].
Qed.

Lemma wp_check_encodings env s k : wp (fun _ => True) (check_encodings env s k).
Proof. unfold check_encodings. by repeat case_match. Qed.

Lemma op_checksig_ok env op fr : frame_elems fr -> handler_ok fr (op_checksig env op fr).
Proof.
  intros [Hs Ha]. unfold op_checksig, handler_ok.
  destruct (stack fr) as [|x [|y s]] eqn:E; [done..|]. stack_split.
  apply wp_bind. eapply wp_mono; [|apply wp_check_encodings]. intros _ _.
  repeat case_if; try done; (split; [|by apply count_ok_same]); (split; [|done]); cbn; try done;
    (apply Forall_cons; split; [apply elem_ok_bool|done]).
Qed.

(** The multisig loop stops: it uses one key per iteration and never has more signatures
    than keys left while [fSuccess] holds. *)
Lemma multisig_loop_safe fuel env s b isig ikey nS nK :
  (b = true -> nS <= nK) -> nK <= Z.of_nat fuel ->
  wp (fun _ => True) (multisig_loop fuel env s b isig ikey nS nK).
Proof.
  revert b isig ikey nS nK. induction fuel as [|fuel IH]; intros b isig ikey nS nK Hle Hf;
    cbn [multisig_loop]; case_if; try done; zbool.
  - specialize (Hle H0). lia.
  - do 2 (apply wp_bind; eapply wp_mono; [|apply wp_stacktop_any]; intros ? _).
    apply wp_bind. eapply wp_mono; [|apply wp_check_encodings]. intros _ _.
    apply IH; [|lia]. repeat case_if; zbool; intros; try done; lia.
Qed.

Lemma op_checkmultisig_ok env op fr :
  frame_elems fr -> 0 <= nOpCount fr -> handler_ok fr (op_checkmultisig env op fr).
Proof.
  intros [Hs Ha] Hc. unfold op_checkmultisig, handler_ok. case_if; [done|].
  apply wp_bind. eapply wp_mono; [|by apply wp_stacktop]. intros top Htop.
  apply wp_bind. eapply wp_mono; [|by apply wp_script_num]. cbn beta. intros nk Hnk.
  rewrite getint_id by (unfold INT32_MIN, INT32_MAX; lia).
  repeat (case_if; [done|]). zbool.
  apply wp_bind. eapply wp_mono; [|by apply wp_stacktop]. intros stop Hstop.
  apply wp_bind. eapply wp_mono; [|by apply wp_script_num]. cbn beta. intros ns Hns.
  rewrite getint_id by (unfold INT32_MIN, INT32_MAX; lia).
  repeat (case_if; [done|]). zbool. apply wp_bind.
  eapply wp_mono; [|apply multisig_loop_safe; [intros _; lia|lia]]. intros fS _.
  destruct (drop (Z.to_nat (2 + nk + 1 + ns - 1)) (stack fr)) as [|d s] eqn:E; [done|].
  assert (stack_ok s) as Hs'.
  { eapply (Forall_drop _ (Z.to_nat (2 + nk + 1 + ns - 1))) in Hs. rewrite E in Hs. by stack_split. }
  repeat case_if; try done; (split; [|unfold count_ok; cbn; lia]); (split; [|done]); cbn; try done;
    (apply Forall_cons; split; [apply elem_ok_bool|done]).
Qed.


Lemma exec_op_ok env op fExec fr :
  0 <= op <= 255 -> frame_elems fr -> zlen (stack fr) <= 1000 -> 0 <= nOpCount fr ->
  handler_ok fr (exec_op env op fExec fr).
Proof.
  intros Hop Hf Hl Hc. unfold exec_op.
  repeat match goal with
  | |- handler_ok _ (if ?c then _ else _) => destruct c eqn:?
  end;
  first
    [ apply op_push_value_ok; done | apply op_cltv_ok; done | apply op_nop_ok; done
    | apply op_if_ok; done | apply op_depth_ok; done | apply op_size_ok; done
    | apply op_pick_roll_ok; done | apply op_equal_ok; done | apply op_unary_ok; done
    | apply op_binary_ok; done | apply op_within_ok; done | apply op_hash_ok; done
    | apply op_checksig_ok; done | apply op_checkmultisig_ok; done
    | apply shuffle_ok; [rewrite !elem_of_cons; tauto|done]
    | done
    | split; [done|by apply count_ok_same] ].
Qed.

End Handlers.

(** ** The loop *)

Lemma read_push_size_bytes op pc n rest :
  bytes_ok pc -> read_push_size op pc = Some (n, rest) -> bytes_ok rest.
Proof.
  intros Hb H. apply read_push_size_suffix in H as [k ->]. by apply Forall_app in Hb as [_ ?].
Qed.

Lemma GetOp2_bytes pc op data rest :
  bytes_ok pc -> GetOp2 pc = Some (op, data, rest) ->
  0 <= op <= 255 /\ bytes_ok data /\ bytes_ok rest.
Proof.
  destruct pc as [|b pc]; [done|]. intros Hb H. apply Forall_cons in Hb as [Hb Hpc].
  unfold is_byte in Hb. cbn [GetOp2] in H. case_if_in H.
  - destruct (read_push_size b pc) as [[n pc']|] eqn:E; [|done].
    apply read_push_size_bytes in E; [|done]. case_if_in H; [done|]. simplify_eq.
    split; [lia|]. split; [by apply Forall_take|by apply Forall_drop].
  - simplify_eq. split; [lia|]. by split; [constructor|].
Qed.

Section Loop.
Context `{CryptoLaws}.

Lemma eval_step_ok env fr pc :
  bytes_ok pc -> frame_inv fr ->
  wp (fun r => frame_inv r.1 /\ bytes_ok r.2 /\ (length r.2 < length pc)%nat) (eval_step env fr pc).
Proof.
  intros Hpc (Hf & Hl & Hc). unfold eval_step.
  destruct (GetOp2 pc) as [[[op data] rest]|] eqn:E; [|done].
  destruct (GetOp2_bytes _ _ _ _ Hpc E) as (Hop & Hd & Hr).
  apply GetOp2_progress in E as [E _]. case_if; [done|].
  set (fr1 := if op >? OP_16 then _ else fr).
  destruct ((op >? OP_16) && (nOpCount fr1 >? 201)) eqn:Hcnt; [done|].
  assert (frame_elems fr1 /\ zlen (stack fr1) + zlen (altstack fr1) <= 1000 /\
          0 <= nOpCount fr1 <= 201) as (Hf1 & Hl1 & Hc1).
  { subst fr1. destruct (op >? OP_16); cbn [andb stack altstack nOpCount] in *; zbool;
      split; [done|lia|done|lia]. }
  case_if; [done|]. apply wp_bind.
  assert (handler_ok fr1 (Ok fr1)) as Hsame by (split; [done|by apply count_ok_same]).
  apply wp_mono with (P := fun fr' => frame_elems fr' /\ count_ok fr1 fr').
  - intros fr' [Hf' Hc']. case_if; [done|]. zbool. cbn. unfold count_ok in Hc'.
    split; [|done]. split; [done|]. lia.
  - repeat case_if; try done.
    + split; [|by apply count_ok_same]. split; [|apply Hf1]. cbn. zbool.
      apply Forall_cons; split; [by split|apply Hf1].
    + apply exec_op_ok; try done; pose proof (zlen_nonneg (altstack fr1)); lia.
Qed.

Lemma eval_loop_ok fuel env fr pc :
  (length pc <= fuel)%nat -> bytes_ok pc -> frame_inv fr ->
  wp frame_inv (eval_loop fuel env fr pc).
Proof.
  revert fr pc. induction fuel as [|fuel IH]; intros fr pc Hlen Hpc Hinv.
  { destruct pc; [done|cbn in Hlen; lia]. }
  destruct pc as [|b pc]; [done|]. cbn [eval_loop]. apply wp_bind.
  eapply wp_mono; [|by apply eval_step_ok]. intros [fr' pc'] (Hi & Hb & Hlt).
  cbn [fst snd] in *. apply IH; [lia|done|done].
Qed.

Lemma EvalScript_ok st script flags checker branch :
  bytes_ok script -> stack_ok st -> zlen st <= 1000 ->
  wp (fun st' => stack_ok st' /\ zlen st' <= 1000) (EvalScript st script flags checker branch).
Proof.
  intros Hs Hst Hl. unfold EvalScript. case_if; [done|]. apply wp_bind.
  eapply wp_mono; [|apply eval_loop_ok; try done].
  - intros fr ((Hf & _) & Hlen & _). destruct (vfExec fr); [|done]. split; [done|].
    pose proof (zlen_nonneg (altstack fr)). lia.
  - split; [split; [done|constructor]|]. cbn. rewrite zlen_nil. lia.
Qed.

(** A pay-to-script-hash output fails on the empty stack, at OP_HASH160. *)
Lemma p2sh_shape script :
  IsPayToScriptHash script = true ->
  exists h, script = [OP_HASH160; 0x14] ++ h ++ [OP_EQUAL] /\ length h = 20%nat.
Proof.
  unfold IsPayToScriptHash. intros Hp. repeat case_if_in Hp; [done|]. apply andb_true_iff in Hp as [Hp H22].
  apply andb_true_iff in Hp as [Hp H1]. apply andb_true_iff in Hp as [Hl H0]. apply Z.eqb_eq in Hl.
  exists (take 20 (drop 2 script)).
  do 23 (destruct script as [|? script]; [done|]). destruct script; [|unfold zlen in Hl; cbn in Hl; lia].
  unfold byte_is in *. cbn in H22, H1, H0. apply Z.eqb_eq in H22, H1, H0. subst.
  done.
Qed.

Lemma EvalScript_p2sh_nonempty script flags checker branch st' :
  IsPayToScriptHash script = true -> EvalScript [] script flags checker branch <> Ok st'.
Proof.
  intros Hp. destruct (p2sh_shape _ Hp) as (h & -> & Hh). unfold EvalScript.
  case_if; [done|]. cbn [app length eval_loop]. unfold eval_step. cbn. done.
Qed.

Lemma require_true_ok st : wp (fun _ => st <> []) (require_true st).
Proof. unfold require_true. by repeat case_match. Qed.

End Loop.

(** ** A concrete instance, for closed examples *)

(** Digests that copy the low bytes of their input: enough to satisfy the laws. *)
#[export] Instance demo_crypto : Crypto := {|
  ripemd160 x := le_bytes 20 (le_val x);
  sha1 x := le_bytes 20 (le_val x);
  sha256 x := le_bytes 32 (le_val x);
  CheckLowS _ := true
|}.

#[export] Instance demo_crypto_laws : CryptoLaws demo_crypto.
Proof.
  split; intros x; cbn [ripemd160 sha1 sha256 demo_crypto]; try apply le_bytes_ok;
    unfold zlen; by rewrite length_le_bytes.
Qed.

(** A checker that accepts a signature with the same last byte as the key. *)
Definition demo_checker : BaseSignatureChecker := {|
  CheckSig sig key _ _ := bool_decide (last sig = last key);
  CheckLockTime _ := true
|}.

(** ** Properties *)

Section Safety.
Context `{CryptoLaws}.

(** C12. For every script, stack within the limits, set of flags and signature checker, the
    interpreter terminates without a failed assertion and without running out of fuel, and
    on success leaves at most 1000 elements of at most 520 bytes on the stack. *)
Theorem EvalScript_safe st script flags checker branch :
  bytes_ok script -> stack_ok st -> zlen st <= 1000 ->
  (exists e, EvalScript st script flags checker branch = Err (ScriptFail e)) \/
  (exists st', EvalScript st script flags checker branch = Ok st' /\
     stack_ok st' /\ zlen st' <= 1000).
Proof.
  intros Hs Hst Hl. pose proof (EvalScript_ok st script flags checker branch Hs Hst Hl) as Hw.
  destruct (EvalScript st script flags checker branch) as [st'|[e| |]]; [right|left|done|done];
    eauto.
Qed.

(** [VerifyScript] never fails an assertion as long as CLEANSTACK is only used together
    with P2SH: the stack copy is never empty when a pay-to-script-hash output is evaluated. *)
Theorem VerifyScript_no_abort scriptSig scriptPubKey flags checker branch :
  bytes_ok scriptSig -> bytes_ok scriptPubKey ->
  (flag_set flags SCRIPT_VERIFY_CLEANSTACK = true -> flag_set flags SCRIPT_VERIFY_P2SH = true) ->
  VerifyScript scriptSig scriptPubKey flags checker branch = Ok tt \/
  exists e, VerifyScript scriptSig scriptPubKey flags checker branch = Err (ScriptFail e).
Proof.
  intros Hsig Hpk Hcs.
  assert (wp (fun _ => True) (VerifyScript scriptSig scriptPubKey flags checker branch)) as Hw.
  2:{ destruct (VerifyScript _ _ _ _ _) as [[]|[e| |]]; [left|right|done|done]; eauto. }
  unfold VerifyScript. case_if; [done|]. apply wp_bind.
  eapply wp_mono; [|apply EvalScript_ok; [done|constructor|rewrite zlen_nil; lia]].
  intros st1 [Hst1 Hl1]. destruct (EvalScript st1 scriptPubKey flags checker branch)
    as [st2|f] eqn:E2; [|pose proof (EvalScript_ok st1 scriptPubKey flags checker branch Hpk Hst1 Hl1)
      as Hw; rewrite E2 in Hw; by destruct f].
  cbn [res_bind]. apply wp_bind. eapply wp_mono; [|apply require_true_ok]. intros _ _.
  apply wp_bind. apply wp_mono with (P := fun _ => True).
  { intros st' _. repeat case_if; try done. by rewrite Hcs in *. }
  destruct (flag_set flags SCRIPT_VERIFY_P2SH && IsPayToScriptHash scriptPubKey) eqn:Hp; [|done].
  apply andb_true_iff in Hp as [_ Hp]. case_if; [done|].
  destruct st1 as [|redeem st1]; [by apply EvalScript_p2sh_nonempty in E2|].
  apply Forall_cons in Hst1 as [[Hr _] Hst1]. rewrite zlen_cons in Hl1. apply wp_bind.
  eapply wp_mono; [|apply EvalScript_ok; [done|done|lia]]. intros st3 _.
  apply wp_bind. eapply wp_mono; [|apply require_true_ok]. done.
Qed.

End Safety.

Lemma EvalScript_safe_witness :
  EvalScript [[3]; [3]] [OP_EQUALVERIFY; OP_1] 0 demo_checker 0 = Ok [[1]] /\
  ((exists e, EvalScript [[3]; [3]] [OP_EQUALVERIFY; OP_1] 0 demo_checker 0 = Err (ScriptFail e)) \/
   (exists st', EvalScript [[3]; [3]] [OP_EQUALVERIFY; OP_1] 0 demo_checker 0 = Ok st' /\
     stack_ok st' /\ zlen st' <= 1000)).
Proof.
  split; [vm_compute; reflexivity|].
  apply (EvalScript_safe [[3]; [3]] [OP_EQUALVERIFY; OP_1] 0 demo_checker 0).
  - repeat constructor; vm_compute; done.
  - repeat constructor; vm_compute; done.
  - vm_compute. done.
Defined.

Lemma VerifyScript_no_abort_witness :
  VerifyScript [1; OP_1] ([OP_HASH160; 20] ++ le_bytes 20 OP_1 ++ [OP_EQUAL])
    SCRIPT_VERIFY_P2SH demo_checker 0 = Ok tt \/
  exists e, VerifyScript [1; OP_1] ([OP_HASH160; 20] ++ le_bytes 20 OP_1 ++ [OP_EQUAL])
    SCRIPT_VERIFY_P2SH demo_checker 0 = Err (ScriptFail e).
Proof.
  apply (VerifyScript_no_abort [1; OP_1] ([OP_HASH160; 20] ++ le_bytes 20 OP_1 ++ [OP_EQUAL])).
  - repeat constructor; vm_compute; done.
  - repeat constructor; vm_compute; done.
  - vm_compute. done.
Defined.
