(* ===== verification/InterpreterProps.v ===== *)
(** * The script interpreter: functional behaviour

    What a successful run implies for the script, the behaviour of the standard output
    scripts, and CHECKMULTISIG as an order-preserving matching of signatures to keys. *)

From S2P Require Import Prelude ScriptNum Script Interpreter InterpreterSafety.

(** ** What a successful run implies *)

(** Instructions counted against the limit of 201. *)
Definition counted (i : Z * bytes) : bool := i.1 >? OP_16.
Definition count_ops (ops : list (Z * bytes)) : Z := zlen (filter (fun i => counted i = true) ops).

(** An instruction the interpreter accepts, executed or not. *)
Definition instr_ok (i : Z * bytes) : Prop :=
  disabled_opcode i.1 = false /\ zlen i.2 <= MAX_SCRIPT_ELEMENT_SIZE.

Section Success.
Context `{CryptoLaws}.

Lemma eval_step_success env fr pc fr' rest :
  bytes_ok pc -> frame_inv fr -> eval_step env fr pc = Ok (fr', rest) ->
  exists op data, GetOp2 pc = Some (op, data, rest) /\ instr_ok (op, data) /\
    nOpCount fr + (if counted (op, data) then 1 else 0) <= nOpCount fr'.
Proof.
  intros Hpc (Hf & Hl & Hc). unfold eval_step, counted.
  destruct (GetOp2 pc) as [[[op data] pc']|] eqn:E; [|done].
  destruct (GetOp2_bytes _ _ _ _ Hpc E) as (Hop & _).
  case_if; [done|]. cbn [fst snd].
  set (fr1 := if op >? OP_16 then _ else fr).
  assert (frame_elems fr1 /\ zlen (stack fr1) <= 1000 /\ 0 <= nOpCount fr1 /\
    nOpCount fr1 = nOpCount fr + (if op >? OP_16 then 1 else 0)) as (Hf1 & Hl1 & Hc1 & Heq).
  { subst fr1. pose proof (zlen_nonneg (altstack fr)). destruct (op >? OP_16); cbn; (split; [done|]); lia. }
  case_if; [done|]. destruct (disabled_opcode op) eqn:Hd; [done|]. intros Hr.
  apply res_bind_Ok in Hr as (fr2 & Hr & Hk). case_if_in Hk; [done|]. injection Hk as <- <-.
  exists op, data. split; [done|]. split; [split; cbn; [done|zbool; lia]|]. rewrite <- Heq.
  repeat case_if_in Hr; try done; try (injection Hr as <-; cbn; lia).
  pose proof (exec_op_ok env op (forallb id (vfExec fr)) fr1 Hop Hf1 Hl1 Hc1) as Hw.
  unfold handler_ok in Hw. rewrite Hr in Hw. apply Hw.
Qed.

Lemma eval_loop_success fuel env fr pc fr' :
  (length pc <= fuel)%nat -> bytes_ok pc -> frame_inv fr -> eval_loop fuel env fr pc = Ok fr' ->
  frame_inv fr' /\
  exists ops, instrs pc = Some ops /\ Forall instr_ok ops /\
    nOpCount fr + count_ops ops <= nOpCount fr'.
Proof.
  revert fr pc. induction fuel as [|fuel IH]; intros fr pc Hlen Hpc Hinv Hr.
  { destruct pc; [|cbn in Hlen; lia]. injection Hr as <-. split; [done|].
    exists []. split; [done|]. split; [constructor|]. unfold count_ops, zlen. cbn. lia. }
  destruct pc as [|b pc].
  { injection Hr as <-. split; [done|].
    exists []. split; [done|]. split; [constructor|]. unfold count_ops, zlen. cbn. lia. }
  cbn [eval_loop] in Hr. apply res_bind_Ok in Hr as ([fr1 rest] & Hstep & Hr).
  pose proof (eval_step_ok env fr (b :: pc) Hpc Hinv) as Hw. rewrite Hstep in Hw.
  destruct Hw as (Hinv1 & Hrest & Hlt). cbn [fst snd] in *.
  apply eval_step_success in Hstep as (op & data & E & Hok & Hcnt); [|done|done].
  apply IH in Hr as (Hi & ops & Hops & Hall & Hsum); [|lia|done|done].
  split; [done|]. exists ((op, data) :: ops). rewrite instrs_unfold, E, Hops by done.
  split; [done|]. split; [by constructor|]. unfold count_ops in *.
  rewrite filter_cons. destruct (counted (op, data)); case_decide; try done; rewrite ?zlen_cons; lia.
Qed.

(** A script that evaluates successfully, whatever branches it takes, is at most 10,000
    bytes long, parses to its last byte, contains no disabled opcode and no push of more
    than 520 bytes even in branches that are not executed, and at most 201 instructions
    above OP_16. *)
Theorem EvalScript_success_wf st script flags checker branch st' :
  bytes_ok script -> stack_ok st -> zlen st <= 1000 ->
  EvalScript st script flags checker branch = Ok st' ->
  zlen script <= MAX_SCRIPT_SIZE /\
  exists ops, instrs script = Some ops /\ Forall instr_ok ops /\ count_ops ops <= 201.
Proof.
  intros Hs Hst Hl. unfold EvalScript. case_if; [done|]. intros Hr.
  apply res_bind_Ok in Hr as (fr & Hr & _).
  apply eval_loop_success in Hr as ((_ & _ & Hc) & ops & Hops & Hall & Hsum); try done.
  - split; [zbool; lia|]. exists ops. split; [done|]. split; [done|]. cbn in Hsum. lia.
  - split; [split; [done|constructor]|]. cbn. rewrite zlen_nil. lia.
Qed.

(** An output script that [IsUnspendable] reports can be pruned: no stack and no flags
    make it evaluate. *)
Theorem unspendable_fails st script flags checker branch st' :
  IsUnspendable script = true -> EvalScript st script flags checker branch <> Ok st'.
Proof.
  unfold IsUnspendable, EvalScript. intros Hu. case_if; [done|].
  rewrite orb_false_r in Hu. apply andb_true_iff in Hu as [_ Hu].
  destruct script as [|b script]; [done|]. unfold byte_is in Hu. cbn in Hu.
  apply Z.eqb_eq in Hu as ->. cbn [length eval_loop]. unfold eval_step. cbn. done.
Qed.

End Success.

Lemma EvalScript_success_wf_witness :
  exists ops, instrs [OP_1; OP_DUP; OP_EQUAL] = Some ops /\ Forall instr_ok ops /\
    count_ops ops <= 201.
Proof.
  apply (EvalScript_success_wf [] [OP_1; OP_DUP; OP_EQUAL] 0 demo_checker 0 [[1]]).
  - repeat constructor; vm_compute; done.
  - constructor.
  - vm_compute. done.
  - vm_compute. reflexivity.
Defined.

Lemma unspendable_fails_witness :
  EvalScript [[1]] [OP_RETURN; 1; 7] 0 demo_checker 0 <> Ok [[1]].
Proof. apply (unspendable_fails [[1]] [OP_RETURN; 1; 7]). vm_compute. reflexivity. Defined.

(** ** Stepping lemmas *)

Definition executing (fr : frame) : Prop := forallb id (vfExec fr) = true.

(** The frame after [++nOpCount]. *)
Definition tick (fr : frame) : frame :=
  mk_frame (stack fr) (altstack fr) (vfExec fr) (nOpCount fr + 1).

Section Steps.
Context `{Crypto}.

Lemma eval_loop_step fuel env fr pc fr' rest :
  pc <> [] -> eval_step env fr pc = Ok (fr', rest) ->
  eval_loop (S fuel) env fr pc = eval_loop fuel env fr' rest.
Proof. destruct pc; [done|]. intros _ E. cbn [eval_loop]. by rewrite E. Qed.

Lemma eval_loop_step_err fuel env fr pc f :
  pc <> [] -> eval_step env fr pc = Err f -> eval_loop (S fuel) env fr pc = Err f.
Proof. destruct pc; [done|]. intros _ E. cbn [eval_loop]. by rewrite E. Qed.

Lemma eval_step_op env fr op rest :
  OP_16 < op -> executing fr -> disabled_opcode op = false -> nOpCount fr < 201 ->
  eval_step env fr (op :: rest) =
    let? fr' := exec_op env op true (tick fr) in
    if zlen (stack fr') + zlen (altstack fr') >? 1000 then set_error SCRIPT_ERR_STACK_SIZE
    else Ok (fr', rest).
Proof.
  intros Hop He Hd Hc. unfold eval_step, executing, OP_16, OP_PUSHDATA4 in *. cbn [GetOp2].
  unfold OP_PUSHDATA4. destruct (Z.leb_spec op 78); [lia|].
  rewrite He, Hd, zlen_nil, (Z.gtb_ltb op 96). destruct (Z.ltb_spec 96 op); [|lia].
  cbn [nOpCount andb orb]. rewrite !Z.gtb_ltb. destruct (Z.ltb_spec 201 (nOpCount fr + 1)); [lia|].
  destruct (Z.leb_spec op 78); [lia|]. rewrite ?andb_false_r. done.
Qed.

Lemma eval_step_push env fr op pc data rest :
  GetOp2 pc = Some (op, data, rest) -> 0 <= op <= OP_PUSHDATA4 -> executing fr ->
  zlen data <= MAX_SCRIPT_ELEMENT_SIZE -> CheckMinimalPush data op = true ->
  zlen (stack fr) + zlen (altstack fr) < 1000 ->
  eval_step env fr pc = Ok (with_stack fr (data :: stack fr), rest).
Proof.
  intros E Hop He Hd Hm Hl. unfold eval_step, executing, OP_PUSHDATA4 in *. rewrite E, He, Hm.
  unfold OP_16, OP_PUSHDATA4. rewrite !Z.gtb_ltb.
  destruct (Z.ltb_spec MAX_SCRIPT_ELEMENT_SIZE (zlen data)); [lia|].
  destruct (Z.ltb_spec 96 op); [lia|]. cbn [andb].
  assert (disabled_opcode op = false) as ->.
  { unfold disabled_opcode, is_op. cbn [existsb]. repeat (apply orb_false_iff; split);
      try done; apply Z.eqb_neq; intros ->; destruct Hop as [_ Hop]; by apply Hop. }
  destruct (Z.leb_spec 0 op); [|lia]. destruct (Z.leb_spec op 78); [|lia].
  rewrite andb_false_r. cbn [andb negb res_bind with_stack stack altstack]. rewrite zlen_cons, Z.gtb_ltb.
  destruct (Z.ltb_spec 1000 (1 + zlen (stack fr) + zlen (altstack fr))); [lia|done].
Qed.

Lemma CheckMinimalPush_20 h : length h = 20%nat -> CheckMinimalPush h 20 = true.
Proof. intros Hh. unfold CheckMinimalPush, zlen. by rewrite Hh. Qed.

Lemma GetOp2_push20 h rest :
  length h = 20%nat -> zlen rest < 2 ^ 31 -> GetOp2 (20 :: h ++ rest) = Some (20, h, rest).
Proof.
  intros Hh Hr. apply GetOp2_cons_push; [vm_compute; done|unfold zlen at 1; lia|].
  unfold read_push_size, zlen. by rewrite Hh.
Qed.

End Steps.

(** ** Pay to public key hash *)

Definition p2pkh_script (h : bytes) : bytes :=
  [OP_DUP; OP_HASH160; 0x14] ++ h ++ [OP_EQUALVERIFY; OP_CHECKSIG].

Definition p2sh_script (h : bytes) : bytes := [OP_HASH160; 0x14] ++ h ++ [OP_EQUAL].

Ltac step_op :=
  rewrite eval_step_op; [|vm_compute; done|done|reflexivity|cbn; lia].

(** Close the depth check of a step. *)
Ltac depth_ok :=
  cbn [stack altstack with_stack tick res_bind];
  rewrite ?zlen_cons, ?zlen_nil, Z.gtb_ltb;
  match goal with |- context [?a <? ?b] => destruct (Z.ltb_spec a b); [lia|] end.

Section StandardScripts.
Context `{CryptoLaws}.

(** The result of the final OP_CHECKSIG. *)
Definition checksig_result (env : eval_env) (sig key : bytes) (st : list bytes)
  : res eval_fail (list bytes) :=
  let? _ := check_encodings env sig key in Ok (bool_vch (check_sig env sig key) :: st).

(** A pay-to-public-key-hash output run on a stack that ends in a signature and a public
    key: the run fails with SCRIPT_ERR_EQUALVERIFY unless the key hashes to the address, and
    otherwise leaves exactly the verdict of the signature check over that very script. *)
Theorem p2pkh_spec h key sig st flags checker branch :
  length h = 20%nat -> zlen st <= 996 ->
  EvalScript (key :: sig :: st) (p2pkh_script h) flags checker branch =
    if bytes_eqb (hash160 key) h
    then checksig_result (mk_env (p2pkh_script h) flags checker branch) sig key st
    else Err (ScriptFail SCRIPT_ERR_EQUALVERIFY).
Proof.
  intros Hh Hst. pose proof (zlen_nonneg st). unfold EvalScript.
  assert (zlen (p2pkh_script h) = 25) as Hlen
    by (unfold zlen, p2pkh_script; rewrite !length_app, Hh; done).
  rewrite Hlen. cbn [Z.gtb Z.compare MAX_SCRIPT_SIZE]. unfold zlen in Hlen.
  assert (length (p2pkh_script h) = 25%nat) as -> by lia.
  set (env := mk_env _ _ _ _). unfold p2pkh_script at 1. cbn [app].
  erewrite eval_loop_step; [|done|step_op; cbn [exec_op]; cbn; depth_ok; reflexivity].
  erewrite eval_loop_step; [|done|step_op; cbn; depth_ok; reflexivity].
  erewrite eval_loop_step; [|done|apply eval_step_push with (op := 20);
    [by apply GetOp2_push20|vm_compute; done|done|unfold zlen, MAX_SCRIPT_ELEMENT_SIZE; lia
    |by apply CheckMinimalPush_20|cbn; rewrite !zlen_cons, zlen_nil; lia]].
  cbn [with_stack stack tick altstack vfExec nOpCount].
  destruct (bytes_eqb (hash160 key) h) eqn:E.
  2:{ erewrite eval_loop_step_err; [done|done|]. step_op. cbn. by rewrite E. }
  erewrite eval_loop_step; [|done|step_op; cbn; rewrite E; cbn; depth_ok; reflexivity].
  unfold checksig_result. destruct (check_encodings env sig key) as [[]|f] eqn:Ec.
  - erewrite eval_loop_step; [|done|step_op; cbn; rewrite Ec; cbn; depth_ok; reflexivity]. done.
  - erewrite eval_loop_step_err; [done|done|]. step_op. cbn. by rewrite Ec.
Qed.


Lemma eval_p2sh h redeem st flags checker branch :
  length h = 20%nat -> zlen st <= 998 ->
  EvalScript (redeem :: st) (p2sh_script h) flags checker branch =
    Ok (bool_vch (bytes_eqb (hash160 redeem) h) :: st).
Proof.
  intros Hh Hst. pose proof (zlen_nonneg st). unfold EvalScript.
  assert (zlen (p2sh_script h) = 23) as Hlen
    by (unfold zlen, p2sh_script; rewrite !length_app, Hh; done).
  rewrite Hlen. cbn [Z.gtb Z.compare MAX_SCRIPT_SIZE]. unfold zlen in Hlen.
  assert (length (p2sh_script h) = 23%nat) as -> by lia.
  set (env := mk_env _ _ _ _). unfold p2sh_script. cbn [app].
  erewrite eval_loop_step; [|done|step_op; cbn; depth_ok; reflexivity].
  erewrite eval_loop_step; [|done|apply eval_step_push with (op := 20);
    [by apply GetOp2_push20|vm_compute; done|done|unfold zlen, MAX_SCRIPT_ELEMENT_SIZE; lia
    |by apply CheckMinimalPush_20|cbn; rewrite !zlen_cons, zlen_nil; lia]].
  cbn [with_stack stack tick altstack vfExec nOpCount].
  erewrite eval_loop_step; [|done|step_op; cbn; depth_ok; reflexivity]. done.
Qed.

(** C33. Spending a pay-to-script-hash output with a push-only [scriptSig]: the last item
    pushed must hash to the address; then it is evaluated as a script on the rest of the
    stack, and its result decides (with the clean-stack rule when that flag is set). *)
Theorem p2sh_verify_spec h sig redeem st flags checker branch :
  length h = 20%nat -> zlen st <= 998 ->
  flag_set flags SCRIPT_VERIFY_P2SH = true -> IsPushOnly sig = true ->
  EvalScript [] sig flags checker branch = Ok (redeem :: st) ->
  VerifyScript sig (p2sh_script h) flags checker branch =
    if bytes_eqb (hash160 redeem) h then
      let? st' := EvalScript st redeem flags checker branch in
      let? _ := require_true st' in
      if flag_set flags SCRIPT_VERIFY_CLEANSTACK && negb (zlen st' =? 1)
      then Err (ScriptFail SCRIPT_ERR_CLEANSTACK) else Ok tt
    else Err (ScriptFail SCRIPT_ERR_EVAL_FALSE).
Proof.
  intros Hh Hst Hf Hpush E. unfold VerifyScript. rewrite Hpush, E, Hf, andb_false_r.
  cbn [res_bind negb]. rewrite eval_p2sh by done. cbn [res_bind].
  assert (IsPayToScriptHash (p2sh_script h) = true) as ->.
  { do 20 (destruct h as [|? h]; [done|]). by destruct h. }
  destruct (bytes_eqb (hash160 redeem) h); [|done]. cbn [bool_vch require_true res_bind andb].
  change (CastToBool vchTrue) with true. cbn [res_bind].
  destruct (EvalScript st redeem flags checker branch) as [st'|f]; [|done]. cbn [res_bind].
  destruct (require_true st') as [[]|f]; [|done]. cbn [res_bind].
  destruct (flag_set flags SCRIPT_VERIFY_CLEANSTACK); [|done]. by destruct (zlen st' =? 1).
Qed.

End StandardScripts.

Lemma p2pkh_spec_witness :
  EvalScript [[7]; [9; 7]] (p2pkh_script (le_bytes 20 7)) 0 demo_checker 0 =
  Err (ScriptFail SCRIPT_ERR_SIG_DER).
Proof.
  rewrite (p2pkh_spec (le_bytes 20 7) [7] [9; 7] [] 0 demo_checker 0);
    [vm_compute; reflexivity|reflexivity|vm_compute; done].
Defined.

Lemma p2sh_verify_spec_witness :
  VerifyScript [1; OP_1] (p2sh_script (le_bytes 20 OP_1)) SCRIPT_VERIFY_P2SH demo_checker 0 = Ok tt.
Proof.
  rewrite (p2sh_verify_spec (le_bytes 20 OP_1) [1; OP_1] [OP_1] [] SCRIPT_VERIFY_P2SH demo_checker 0);
    [vm_compute; reflexivity|reflexivity|vm_compute; done|reflexivity|reflexivity
    |vm_compute; reflexivity].
Defined.

(** ** CHECKMULTISIG *)

(** [sigs] can be matched, in order, with a subsequence of [keys]. *)
Inductive matching (ok : bytes -> bytes -> bool) : list bytes -> list bytes -> Prop :=
| match_nil keys : matching ok [] keys
| match_take s k sigs keys :
    ok s k = true -> matching ok sigs keys -> matching ok (s :: sigs) (k :: keys)
| match_skip k sigs keys : matching ok sigs keys -> matching ok sigs (k :: keys).

Section Multisig.
Context `{Crypto}.

Lemma matching_tail ok s sigs keys : matching ok (s :: sigs) keys -> matching ok sigs keys.
Proof.
  remember (s :: sigs) as l eqn:E. intros Hm. revert s sigs E.
  induction Hm; intros; simplify_eq; [by apply match_skip|]. apply match_skip. eauto.
Qed.

Lemma matching_length ok sigs keys : matching ok sigs keys -> (length sigs <= length keys)%nat.
Proof. induction 1; cbn; lia. Qed.

(** Taking the first key that fits is never worse. *)
Lemma matching_greedy ok s k sigs keys :
  matching ok (s :: sigs) (k :: keys) <->
  if ok s k then matching ok sigs keys else matching ok (s :: sigs) keys.
Proof.
  split.
  - inversion 1; subst.
    + by replace (ok s k) with true.
    + destruct (ok s k); [by eapply matching_tail|done].
  - destruct (ok s k) eqn:E; intros Hm; [by apply match_take|by apply match_skip].
Qed.

Lemma stacktop_drop l i x rest :
  0 <= i -> drop (Z.to_nat i) l = x :: rest -> stacktop l (i + 1) = Ok x /\
  drop (Z.to_nat (i + 1)) l = rest.
Proof.
  intros Hi E. unfold stacktop, znth. replace (i + 1 - 1) with i by lia.
  destruct (Z.ltb_spec i 0); [lia|].
  rewrite <- (Nat.add_0_r (Z.to_nat i)), <- lookup_drop, E. split; [done|].
  replace (Z.to_nat (i + 1)) with (Z.to_nat i + 1)%nat by lia. by rewrite <- drop_drop, E.
Qed.

(** The loop decides [matching] on the signatures and keys it has left. *)
Lemma multisig_loop_spec env s keys sigs fuel isig ikey rk rs :
  drop (Z.to_nat (ikey - 1)) s = keys ++ rk -> drop (Z.to_nat (isig - 1)) s = sigs ++ rs ->
  1 <= ikey -> 1 <= isig -> (length keys <= fuel)%nat -> (length sigs <= length keys)%nat ->
  (forall sg k, sg ∈ sigs -> k ∈ keys -> check_encodings env sg k = Ok tt) ->
  exists b, multisig_loop fuel env s true isig ikey (zlen sigs) (zlen keys) = Ok b /\
    (b = true <-> matching (check_sig env) sigs keys).
Proof.
  revert sigs fuel isig ikey. induction keys as [|k keys IH]; intros sigs fuel isig ikey Hk Hs Hik His Hfu Hle Henc.
  { destruct sigs; [|cbn in Hle; lia]. exists true. split; [by destruct fuel|].
    split; [intros _; constructor|done]. }
  destruct sigs as [|sg sigs].
  { exists true. split; [by destruct fuel|]. split; [intros _; constructor|done]. }
  destruct fuel as [|fuel]; [cbn in Hfu; lia|]. cbn [multisig_loop].
  rewrite !zlen_cons. pose proof (zlen_nonneg sigs). pose proof (zlen_nonneg keys).
  rewrite Z.gtb_ltb. destruct (Z.ltb_spec 0 (1 + zlen sigs)); [|lia]. cbn [andb negb].
  destruct (stacktop_drop s (ikey - 1) k (keys ++ rk)) as [Ek Ek']; [lia|done|].
  destruct (stacktop_drop s (isig - 1) sg (sigs ++ rs)) as [Es Es']; [lia|done|].
  rewrite !Z.sub_add in *. rewrite Ek, Es. cbn [res_bind]. rewrite Henc by (rewrite elem_of_cons; auto). cbn [res_bind].
  replace (1 + zlen keys - 1) with (zlen keys) by lia.
  replace (1 + zlen sigs - 1) with (zlen sigs) by lia.
  assert (forall b : bool, (b = true <-> matching (check_sig env) (sg :: sigs) (k :: keys)) <->
    (b = true <-> if check_sig env sg k then matching (check_sig env) sigs keys
                  else matching (check_sig env) (sg :: sigs) keys)) as Hg
    by (intros b; by rewrite matching_greedy).
  setoid_rewrite Hg. cbn in Hle, Hfu. destruct (check_sig env sg k).
  - rewrite Z.gtb_ltb. destruct (Z.ltb_spec (zlen keys) (zlen sigs)); [unfold zlen in *; lia|].
    apply IH; try lia; try (by rewrite Z.add_simpl_r). intros; apply Henc; rewrite elem_of_cons; auto.
  - rewrite Z.gtb_ltb. destruct (Z.ltb_spec (zlen keys) (1 + zlen sigs)).
    + exists false. split; [by destruct fuel|]. split; [done|].
      intros Hm. apply matching_length in Hm. unfold zlen in *. cbn in Hm. lia.
    + rewrite <- (zlen_cons sg). apply IH; try lia; try done; try (by rewrite Z.add_simpl_r);
        [unfold zlen in *; cbn; lia|]. intros ? ? Hsg ?; apply Henc; [exact Hsg|rewrite elem_of_cons; auto].
Qed.


Lemma script_num_small env n :
  0 <= n <= 20 -> script_num env (serialize n) nDefaultMaxNumSize = Ok n.
Proof.
  intros Hn. assert (zlen (serialize n) <= 4) as Hl.
  { assert (forallb (fun k => zlen (serialize (Z.of_nat k)) <=? 4) (seq 0 21) = true) as Hall
      by (vm_compute; done).
    rewrite forallb_forall in Hall. specialize (Hall (Z.to_nat n)).
    rewrite Z2Nat.id in Hall by lia. apply Z.leb_le, Hall, in_seq. lia. }
  unfold script_num, CScriptNum, nDefaultMaxNumSize.
  rewrite serialize_minimal, set_vch_serialize by lia. rewrite andb_false_r, Z.gtb_ltb.
  destruct (Z.ltb_spec 4 (zlen (serialize n))); [lia|done].
Qed.

(** C34. CHECKMULTISIG on a stack [dummy sig_1 .. sig_m m key_1 .. key_n n] whose signatures and
    keys are well encoded pops all of it and the dummy and pushes true exactly when the
    signatures match, in order, a subsequence of the keys; the keys count as operations. *)
Theorem checkmultisig_spec env keys sigs dummy rest alt vf cnt :
  zlen keys <= 20 -> zlen sigs <= zlen keys -> 0 <= cnt -> cnt + zlen keys <= 201 ->
  (flag_set (e_flags env) SCRIPT_VERIFY_NULLDUMMY = true -> dummy = []) ->
  (forall sg k, sg ∈ sigs -> k ∈ keys -> check_encodings env sg k = Ok tt) ->
  exists b,
    op_checkmultisig env OP_CHECKMULTISIG
      (mk_frame (serialize (zlen keys) :: keys ++ serialize (zlen sigs) :: sigs ++ dummy :: rest)
        alt vf cnt)
    = Ok (mk_frame (bool_vch b :: rest) alt vf (cnt + zlen keys)) /\
    (b = true <-> matching (check_sig env) sigs keys).
Proof.
  intros Hk20 Hsk Hc0 Hc Hdummy Henc. unfold op_checkmultisig. cbn [stack nOpCount altstack vfExec].
  set (s := _ :: _). pose proof (zlen_nonneg keys). pose proof (zlen_nonneg sigs).
  assert (zlen s = 3 + zlen keys + zlen sigs + zlen rest) as Hls
    by (unfold s; rewrite zlen_cons, zlen_app, zlen_cons, zlen_app, zlen_cons; lia).
  pose proof (zlen_nonneg rest).
  destruct (Z.ltb_spec (zlen s) 1); [lia|].
  change (stacktop s 1) with (Ok (E := eval_fail) (serialize (zlen keys))). cbn [res_bind].
  rewrite script_num_small by lia. cbn [res_bind].
  rewrite getint_id by (unfold INT32_MIN, INT32_MAX; lia).
  rewrite !Z.gtb_ltb. destruct (Z.ltb_spec (zlen keys) 0); [lia|].
  destruct (Z.ltb_spec 20 (zlen keys)); [lia|]. cbn [orb].
  destruct (Z.ltb_spec 201 (cnt + zlen keys)); [lia|].
  destruct (Z.ltb_spec (zlen s) (2 + zlen keys)); [lia|].
  assert (drop (Z.to_nat (2 - 1)) s = keys ++ serialize (zlen sigs) :: sigs ++ dummy :: rest) as Dk by done.
  assert (drop (Z.to_nat (1 + zlen keys)) s = serialize (zlen sigs) :: sigs ++ dummy :: rest) as Dn.
  { unfold zlen. replace (Z.to_nat (1 + Z.of_nat (length keys))) with (S (length keys)) by lia.
    cbn. by rewrite drop_app_length. }
  apply stacktop_drop in Dn as [En Ds]; [|lia].
  replace (1 + zlen keys + 1) with (2 + zlen keys) in * by lia. rewrite En. cbn [res_bind].
  rewrite script_num_small by lia. cbn [res_bind].
  rewrite getint_id by (unfold INT32_MIN, INT32_MAX; lia). rewrite Z.gtb_ltb.
  destruct (Z.ltb_spec (zlen sigs) 0); [lia|]. destruct (Z.ltb_spec (zlen keys) (zlen sigs)); [lia|].
  cbn [orb]. destruct (Z.ltb_spec (zlen s) (2 + zlen keys + 1 + zlen sigs)); [lia|].
  destruct (multisig_loop_spec env s keys sigs (Z.to_nat (zlen keys)) (2 + zlen keys + 1) 2
    _ (dummy :: rest) Dk) as (b & Hb & Hspec); try lia; try done;
    [by rewrite Z.add_simpl_r|unfold zlen; lia|unfold zlen in *; lia|].
  rewrite Hb. cbn [res_bind].
  replace (Z.to_nat (2 + zlen keys + 1 + zlen sigs - 1))
    with (Z.to_nat (2 + zlen keys) + length sigs)%nat by (unfold zlen; lia).
  rewrite <- drop_drop, Ds, drop_app_length.
  assert (flag_set (e_flags env) SCRIPT_VERIFY_NULLDUMMY && negb (zlen dummy =? 0) = false) as ->.
  { destruct (flag_set _ _); [|done]. by rewrite Hdummy. }
  exists b. done.
Qed.

End Multisig.

Lemma checkmultisig_spec_witness :
  exists b,
    op_checkmultisig (mk_env [] 0 demo_checker 0) OP_CHECKMULTISIG
      (mk_frame (serialize 2 :: [[5]; []] ++ serialize 1 :: [[]] ++ [] :: [[8]]) [] [] 1)
    = Ok (mk_frame [bool_vch b; [8]] [] [] 3) /\
    (b = true <-> matching (check_sig (mk_env [] 0 demo_checker 0)) [[]] [[5]; []]).
Proof.
  apply (checkmultisig_spec (mk_env [] 0 demo_checker 0) [[5]; []] [[]] [] [[8]] [] [] 1);
    try (vm_compute; done).
  intros sg k Hsg _. apply elem_of_cons in Hsg as [->|Hsg]; [reflexivity|].
  by apply not_elem_of_nil in Hsg.
Defined.
