(* ===== verification/SigEncoding.v ===== *)
(** * Signature encodings

    [IsValidSignatureEncoding] of [script/interpreter.cpp] reads a signature by computed
    offsets.  Here it is shown to stay inside the vector and to accept exactly the strict DER
    layout: a sequence of two minimal positive integers followed by the hash type. *)

From S2P Require Import Prelude Script Interpreter.

(** ** The layout *)

(** A DER integer: not empty, not negative, no excess leading zero byte. *)
Definition der_int (r : bytes) : bool :=
  match r with
  | [] => false
  | [a] => Z.land a 0x80 =? 0
  | a :: b :: _ => (Z.land a 0x80 =? 0) && negb ((a =? 0) && (Z.land b 0x80 =? 0))
  end.

(** [0x30 len 0x02 lenR R 0x02 lenS S hashtype] *)
Definition der_sig (r s : bytes) (hashtype : Z) : bytes :=
  [0x30; 4 + zlen r + zlen s; 0x02; zlen r] ++ r ++ [0x02; zlen s] ++ s ++ [hashtype].

(** ** Lookups by computed offset *)

Lemma znth_cons {A} (x : A) l i : 0 < i -> znth (x :: l) i = znth l (i - 1).
Proof.
  intros Hi. unfold znth. destruct (Z.ltb_spec i 0), (Z.ltb_spec (i - 1) 0); try lia.
  by replace (Z.to_nat i) with (S (Z.to_nat (i - 1))) by lia.
Qed.

Lemma znth_app_r {A} (l k : list A) i : 0 <= i -> znth (l ++ k) (zlen l + i) = znth k i.
Proof.
  intros Hi. unfold znth, zlen. destruct (Z.ltb_spec (Z.of_nat (length l) + i) 0), (Z.ltb_spec i 0); try lia.
  rewrite lookup_app_r by lia. f_equal. lia.
Qed.

(** The tail from offset [4 + lenR + k] of a list whose first four elements are given. *)
Lemma znth_after (a b c d : Z) r k i :
  0 <= i -> znth (a :: b :: c :: d :: r ++ k) (4 + zlen r + i) = znth k i.
Proof.
  intros Hi. pose proof (zlen_nonneg r). rewrite !znth_cons by lia.
  replace (4 + zlen r + i - 1 - 1 - 1 - 1) with (zlen r + i) by lia. by apply znth_app_r.
Qed.

(** ** The checks on one integer *)

Definition int_checks (len : Z) (o0 o1 : option Z) : option bool :=
  if len =? 0 then Some false else
  a ← o0;
  if negb (Z.land a 0x80 =? 0) then Some false else
  pad ← (if (len >? 1) && (a =? 0x00) then b ← o1; Some (Z.land b 0x80 =? 0) else Some false);
  if (pad : bool) then Some false else Some true.

Lemma int_checks_der r rest :
  int_checks (zlen r) (znth (r ++ rest) 0) (znth (r ++ rest) 1) = Some (der_int r).
Proof.
  unfold int_checks, der_int. destruct r as [|a [|b r]]; [done|..].
  - change (znth ([a] ++ rest) 0) with (Some a). rewrite zlen_sing. cbn. by destruct (Z.land a 128 =? 0).
  - change (znth ((a :: b :: r) ++ rest) 0) with (Some a).
    change (znth ((a :: b :: r) ++ rest) 1) with (Some b).
    rewrite !zlen_cons. pose proof (zlen_nonneg r). rewrite Z.gtb_ltb.
    destruct (Z.eqb_spec (1 + (1 + zlen r)) 0); [lia|].
    destruct (Z.ltb_spec 1 (1 + (1 + zlen r))); [|lia]. cbn.
    destruct (Z.land a 128 =? 0); [|done]. cbn. destruct (a =? 0); [|done].
    cbn. by destruct (Z.land b 128 =? 0).
Qed.

(** ** The function on a signature of the right proportions *)

Lemma sig_encoding_layout b0 b1 b2 c r s rest :
  9 <= zlen (b0 :: b1 :: b2 :: zlen r :: r ++ c :: zlen s :: s ++ rest) <= 73 ->
  zlen rest = 1 ->
  sig_encoding (b0 :: b1 :: b2 :: zlen r :: r ++ c :: zlen s :: s ++ rest) =
    Some ((b0 =? 0x30) && (b1 =? 4 + zlen r + zlen s) && (b2 =? 0x02) && der_int r
          && (c =? 0x02) && der_int s).
Proof.
  intros Hl Hrest. pose proof (zlen_nonneg r). pose proof (zlen_nonneg s).
  assert (zlen (b0 :: b1 :: b2 :: zlen r :: r ++ c :: zlen s :: s ++ rest) = 7 + zlen r + zlen s) as HL
    by (rewrite !zlen_cons, zlen_app, !zlen_cons, zlen_app; lia).
  unfold sig_encoding. rewrite HL in *. rewrite !Z.gtb_ltb.
  destruct (Z.ltb_spec (7 + zlen r + zlen s) 9); [lia|].
  destruct (Z.ltb_spec 73 (7 + zlen r + zlen s)); [lia|].
  pose proof (int_checks_der r (c :: zlen s :: s ++ rest)) as Ir.
  pose proof (int_checks_der s rest) as Is.
  pose proof (znth_after b0 b1 b2 (zlen r) r (c :: zlen s :: s ++ rest)) as Hz.
  replace (znth (_ :: _) 0) with (Some b0) by done.
  replace (znth (_ :: _) 1) with (Some b1) by done.
  replace (znth (_ :: _) 2) with (Some b2) by done.
  replace (znth (_ :: _) 3) with (Some (zlen r)) by done. cbn [mbind option_bind].
  replace (7 + zlen r + zlen s - 3) with (4 + zlen r + zlen s) by lia.
  destruct (b0 =? 48); [|done]. cbn [negb andb].
  destruct (b1 =? 4 + zlen r + zlen s); [|done]. cbn [negb andb].
  rewrite Z.geb_leb. destruct (Z.leb_spec (7 + zlen r + zlen s) (5 + zlen r)); [lia|].
  replace (5 + zlen r) with (4 + zlen r + 1) by lia. rewrite (Hz 1) by lia.
  replace (znth (c :: _) 1) with (Some (zlen s)) by done. cbn [mbind option_bind].
  destruct (Z.eqb_spec (zlen r + zlen s + 7) (7 + zlen r + zlen s)); [|lia]. cbn [negb].
  destruct (b2 =? 2); [|done]. cbn [negb andb].
  replace (znth (b0 :: _) 4) with (znth (r ++ c :: zlen s :: s ++ rest) 0) by by rewrite (znth_cons b0), (znth_cons b1), (znth_cons b2), (znth_cons (zlen r)).
  replace (znth (b0 :: _) 5) with (znth (r ++ c :: zlen s :: s ++ rest) 1) by by rewrite (znth_cons b0), (znth_cons b1), (znth_cons b2), (znth_cons (zlen r)).
  replace (zlen r + 4) with (4 + zlen r + 0) by lia.
  replace (zlen r + 6) with (4 + zlen r + 2) by lia.
  replace (zlen r + 7) with (4 + zlen r + 3) by lia. rewrite !Hz by lia.
  replace (znth (c :: _) 0) with (Some c) by done.
  replace (znth (c :: _) 2) with (znth (s ++ rest) 0) by by rewrite !znth_cons.
  replace (znth (c :: _) 3) with (znth (s ++ rest) 1) by by rewrite !znth_cons.
  unfold int_checks in Ir, Is.
  destruct (zlen r =? 0); [by injection Ir as <-|].
  destruct (znth (r ++ _) 0) as [a|]; [|done]. cbn [mbind option_bind] in *.
  destruct (negb (Z.land a 128 =? 0)); [by injection Ir as <-|].
  destruct (if (zlen r >? 1) && (a =? 0) then _ else _) as [[]|]; cbn [mbind option_bind] in *;
    [by injection Ir as <-| |done]. injection Ir as <-.
  destruct (c =? 2); [|done]. cbn [negb andb].
  destruct (zlen s =? 0); [by injection Is as <-|].
  destruct (znth (s ++ _) 0) as [a'|]; [|done]. cbn [mbind option_bind] in *.
  destruct (negb (Z.land a' 128 =? 0)); [by injection Is as <-|].
  destruct (if (zlen s >? 1) && (a' =? 0) then _ else _) as [[]|]; cbn [mbind option_bind] in *;
    [by injection Is as <-|by injection Is as <-|done].
Qed.

Lemma split_at {A} (l : list A) n :
  0 <= n <= zlen l -> exists a b, l = a ++ b /\ zlen a = n /\ zlen b = zlen l - n.
Proof.
  intros Hn. exists (take (Z.to_nat n) l), (drop (Z.to_nat n) l). unfold zlen in *.
  rewrite take_drop, length_take, length_drop. split; [done|]. lia.
Qed.

(** Every other signature is rejected before a read could leave the vector. *)
Lemma sig_encoding_cases sig :
  bytes_ok sig ->
  sig_encoding sig = Some false \/
  (9 <= zlen sig <= 73 /\ exists b0 b1 b2 c r s ht,
     sig = b0 :: b1 :: b2 :: zlen r :: r ++ c :: zlen s :: s ++ [ht]).
Proof.
  intros Hok. unfold sig_encoding.
  destruct (zlen sig <? 9) eqn:H9; [by left|]. destruct (zlen sig >? 73) eqn:H73; [by left|]. zbool.
  destruct sig as [|b0 [|b1 [|b2 [|lenR tl]]]]; try (unfold zlen in H9; cbn in H9; lia).
  replace (znth (b0 :: _) 0) with (Some b0) by done.
  replace (znth (b0 :: _) 1) with (Some b1) by done.
  replace (znth (b0 :: _) 3) with (Some lenR) by done. cbn [mbind option_bind].
  destruct (negb (b0 =? 48)); [by left|]. destruct (negb (b1 =? _)); [by left|].
  destruct (5 + lenR >=? _) eqn:H5; [by left|]. zbool. rewrite !zlen_cons in *.
  apply Forall_cons in Hok as [_ Hok]. apply Forall_cons in Hok as [_ Hok].
  apply Forall_cons in Hok as [_ Hok]. apply Forall_cons in Hok as [HR Hok]. unfold is_byte in HR.
  destruct (split_at tl lenR) as (r & t2 & -> & <- & Ht2); [lia|].
  apply Forall_app in Hok as [_ Hok]. rewrite zlen_app in *.
  destruct t2 as [|c [|lenS t3]]; try (rewrite ?zlen_cons, ?zlen_nil in *; lia).
  replace (5 + zlen r) with (4 + zlen r + 1) by lia. rewrite znth_after by lia.
  replace (znth (c :: _) 1) with (Some lenS) by done. cbn [mbind option_bind].
  rewrite !zlen_cons in *.
  destruct (negb (zlen r + lenS + 7 =? _)) eqn:HS; [by left|]. zbool. right. split; [lia|].
  apply Forall_cons in Hok as [_ Hok]. apply Forall_cons in Hok as [HSb _]. unfold is_byte in HSb.
  destruct (split_at t3 lenS) as (s & t4 & -> & <- & Ht4); [lia|]. rewrite zlen_app in *.
  destruct t4 as [|ht [|? ?]]; try (rewrite ?zlen_cons, ?zlen_nil in *; pose proof (zlen_nonneg t4); lia).
  - rewrite zlen_nil in *. lia.
  - by exists b0, b1, b2, c, r, s, ht.
  - rewrite !zlen_cons in *. pose proof (zlen_nonneg l). lia.
Qed.

(** The signature syntax check reads only inside its argument and accepts exactly the
    strict DER signatures: two minimal non-negative integers in a sequence whose length
    byte is right, plus the hash type, 9 to 73 bytes in all. *)
Theorem sig_encoding_der sig :
  bytes_ok sig ->
  is_Some (sig_encoding sig) /\
  (IsValidSignatureEncoding sig = true <->
   zlen sig <= 73 /\ exists r s ht,
     sig = der_sig r s ht /\ der_int r = true /\ der_int s = true).
Proof.
  intros Hok. unfold IsValidSignatureEncoding.
  assert (forall r s ht, der_int r = true -> der_int s = true -> 9 <= zlen (der_sig r s ht)) as H9.
  { intros r s ht Hr Hs. unfold der_sig. rewrite zlen_app, zlen_app, zlen_app, zlen_app.
    destruct r as [|? r]; [done|]. destruct s as [|? s]; [done|].
    rewrite !zlen_cons. pose proof (zlen_nonneg r). pose proof (zlen_nonneg s).
    rewrite !zlen_nil. lia. }
  destruct (sig_encoding_cases sig Hok) as [E|(Hl & b0 & b1 & b2 & c & r & s & ht & ->)].
  - rewrite E. split; [done|]. cbn. split; [done|].
    intros (H73 & r & s & ht & -> & Hr & Hs). specialize (H9 r s ht Hr Hs).
    unfold der_sig in *. cbn [app] in *. rewrite sig_encoding_layout in E by (done || lia).
    rewrite Hr, Hs, !Z.eqb_refl in E. done.
  - rewrite sig_encoding_layout by (done || lia). split; [done|]. cbn [default from_option id]. split.
    + intros Hb. zbool. subst. split; [lia|]. exists r, s, ht. split; [reflexivity|]. split; assumption.
    + intros (_ & r' & s' & ht' & E & Hr & Hs). unfold der_sig in E. cbn [app] in E.
      injection E as -> -> -> Elen E. apply app_inj_1 in E as [-> E]; [|unfold zlen in Elen; lia].
      injection E as -> Elen' E. apply app_inj_1 in E as [-> _]; [|unfold zlen in Elen'; lia].
      by rewrite Hr, Hs, !Z.eqb_refl.
Qed.

Lemma sig_encoding_der_witness :
  IsValidSignatureEncoding (der_sig [5] [0; 200] 1) = true /\
  is_Some (sig_encoding (der_sig [5] [0; 200] 1)).
Proof.
  assert (bytes_ok (der_sig [5] [0; 200] 1)) as H by (repeat constructor; vm_compute; done).
  split; [|exact (proj1 (sig_encoding_der _ H))].
  apply (sig_encoding_der _ H). split; [vm_compute; done|]. by exists [5], [0; 200], 1.
Defined.
