(* ===== verification/Serialize.v ===== *)
(** * Wire encodings of integers

    [utils/serialize.h]: fixed-width little-endian integers, compact sizes and the
    variable-length integers of the databases.  A stream being written is the bytes appended
    to it; a stream being read is the bytes left, and a read past the end or a rejected
    encoding is the exception [std::ios_base::failure]. *)

From S2P Require Import Prelude.

Inductive ios_failure : Set :=
| end_of_data
| non_canonical_compact_size
| size_too_large
| unknown_transaction_format
| checked_size_exceeded.

(** ** Fixed width *)

Definition ser_writedata8 (s : bytes) (obj : Z) : bytes := s ++ le_bytes 1 (u8 obj).
Definition ser_writedata16 (s : bytes) (obj : Z) : bytes := s ++ le_bytes 2 (u16 obj).
Definition ser_writedata32 (s : bytes) (obj : Z) : bytes := s ++ le_bytes 4 (u32 obj).
Definition ser_writedata64 (s : bytes) (obj : Z) : bytes := s ++ le_bytes 8 (u64 obj).

(** [CBaseDataStream::read] of [n] bytes *)
Definition stream_read (n : nat) (s : bytes) : res ios_failure (bytes * bytes) :=
  if zlen s <? Z.of_nat n then Err end_of_data else Ok (take n s, drop n s).

Definition ser_readdata (n : nat) (s : bytes) : res ios_failure (Z * bytes) :=
  let? r := stream_read n s in Ok (le_val r.1, r.2).

Definition ser_readdata8 := ser_readdata 1.
Definition ser_readdata16 := ser_readdata 2.
Definition ser_readdata32 := ser_readdata 4.
Definition ser_readdata64 := ser_readdata 8.

(** ** Compact sizes *)

Definition GetSizeOfCompactSize (nSize : Z) : Z :=
  if nSize <? 253 then 1 else if nSize <=? 0xFFFF then 3 else if nSize <=? 0xFFFFFFFF then 5 else 9.

Definition WriteCompactSize (os : bytes) (nSize : Z) : bytes :=
  if nSize <? 253 then ser_writedata8 os nSize
  else if nSize <=? 0xFFFF then ser_writedata16 (ser_writedata8 os 253) nSize
  else if nSize <=? 0xFFFFFFFF then ser_writedata32 (ser_writedata8 os 254) nSize
  else ser_writedata64 (ser_writedata8 os 255) nSize.

Definition ReadCompactSize (inp : bytes) (max_size : Z) : res ios_failure (Z * bytes) :=
  let? h := ser_readdata8 inp in
  let chSize := h.1 in
  let? r :=
    (if chSize <? 253 then Ok h
     else if chSize =? 253 then
       let? r := ser_readdata16 h.2 in
       if r.1 <? 253 then Err non_canonical_compact_size else Ok r
     else if chSize =? 254 then
       let? r := ser_readdata32 h.2 in
       if r.1 <? 0x10000 then Err non_canonical_compact_size else Ok r
     else
       let? r := ser_readdata64 h.2 in
       if r.1 <? 0x100000000 then Err non_canonical_compact_size else Ok r) in
  if (max_size <? UINT64_MAX) && (r.1 >? max_size) then Err size_too_large else Ok r.

(** ** Variable-length integers *)

(** The unsigned type [I] of the template has [w] bits. *)
Definition wrap (w x : Z) : Z := x mod 2 ^ w.

(** The buffer [tmp], least significant digit first; [first] is [len == 0]. *)
Fixpoint varint_tmp (fuel : nat) (first : bool) (n : Z) : bytes :=
  match fuel with
  | O => []
  | S fuel =>
      let d := Z.lor (Z.land n 0x7F) (if first then 0x00 else 0x80) in
      if n <=? 0x7F then [d] else d :: varint_tmp fuel false (Z.shiftr n 7 - 1)
  end.

(** [sizeof(n)*8+6)/7], the size of the buffer *)
Definition varint_buffer (w : Z) : Z := (w + 6) / 7.

Definition WriteVarInt (w : Z) (os : bytes) (n : Z) : bytes :=
  os ++ rev (varint_tmp (Z.to_nat (varint_buffer w)) true n).

Fixpoint size_varint_loop (fuel : nat) (nRet n : Z) : Z :=
  match fuel with
  | O => nRet
  | S fuel =>
      if n <=? 0x7F then nRet + 1 else size_varint_loop fuel (nRet + 1) (Z.shiftr n 7 - 1)
  end.

Definition GetSizeOfVarInt (w n : Z) : Z :=
  size_varint_loop (Z.to_nat (varint_buffer w)) 0 n.

Fixpoint read_varint_loop (w n : Z) (inp : bytes) : res ios_failure (Z * bytes) :=
  match inp with
  | [] => Err end_of_data
  | chData :: inp =>
      let n := Z.lor (wrap w (Z.shiftl n 7)) (Z.land chData 0x7F) in
      if negb (Z.land chData 0x80 =? 0) then read_varint_loop w (wrap w (n + 1)) inp
      else Ok (n, inp)
  end.

Definition ReadVarInt (w : Z) (inp : bytes) : res ios_failure (Z * bytes) :=
  read_varint_loop w 0 inp.

(** ** Lemmas: fixed width *)

Lemma ser_readdata_app n l s :
  length l = n -> ser_readdata n (l ++ s) = Ok (le_val l, s).
Proof.
  intros <-. unfold ser_readdata, stream_read. rewrite zlen_app. pose proof (zlen_nonneg s).
  fold (zlen l). destruct (Z.ltb_spec (zlen l + zlen s) (zlen l)); [lia|]. cbn.
  by rewrite take_app_length, drop_app_length.
Qed.

Lemma ser_readdata_inv n s v rest :
  ser_readdata n s = Ok (v, rest) -> exists l, s = l ++ rest /\ length l = n /\ v = le_val l.
Proof.
  unfold ser_readdata, stream_read. destruct (Z.ltb_spec (zlen s) (Z.of_nat n)); [done|].
  intros [= <- <-]. exists (take n s). rewrite take_drop, length_take.
  unfold zlen in *. split; [done|]. split; [lia|done].
Qed.

Lemma ser_roundtrip n x s :
  0 <= x < 256 ^ Z.of_nat n -> ser_readdata n (le_bytes n x ++ s) = Ok (x, s).
Proof.
  intros Hx. rewrite ser_readdata_app by apply length_le_bytes. by rewrite le_val_le_bytes.
Qed.

Lemma ser_readdata_canonical n s v rest :
  bytes_ok s -> ser_readdata n s = Ok (v, rest) ->
  s = le_bytes n v ++ rest /\ 0 <= v < 256 ^ Z.of_nat n /\ bytes_ok rest.
Proof.
  intros Hok Hr. apply ser_readdata_inv in Hr as (l & -> & <- & ->).
  apply Forall_app in Hok as [Hl Hrest]. rewrite le_bytes_le_val by done.
  split; [done|]. split; [by apply le_val_range|done].
Qed.

(** ** Lemmas: compact sizes *)

Lemma GetSizeOfCompactSize_spec n : zlen (WriteCompactSize [] n) = GetSizeOfCompactSize n.
Proof.
  unfold WriteCompactSize, GetSizeOfCompactSize, ser_writedata8, ser_writedata16,
    ser_writedata32, ser_writedata64, zlen.
  repeat case_if; rewrite !length_app, ?length_le_bytes; done.
Qed.

Lemma WriteCompactSize_app os n : WriteCompactSize os n = os ++ WriteCompactSize [] n.
Proof.
  unfold WriteCompactSize, ser_writedata8, ser_writedata16, ser_writedata32, ser_writedata64.
  repeat case_if; by rewrite <- ?app_assoc.
Qed.

Lemma ReadCompactSize_Write n s :
  0 <= n < 2 ^ 64 -> ReadCompactSize (WriteCompactSize [] n ++ s) UINT64_MAX = Ok (n, s).
Proof.
  intros Hn.
  unfold WriteCompactSize, ser_writedata8, ser_writedata16, ser_writedata32, ser_writedata64.
  unfold ReadCompactSize, ser_readdata8, ser_readdata16, ser_readdata32, ser_readdata64.
  rewrite !app_nil_l. repeat (case_if; zbool);
    rewrite <- ?app_assoc, ?u8_id, ?u16_id, ?u32_id, ?u64_id by lia;
    rewrite ser_roundtrip by (change (256 ^ Z.of_nat 1) with 256; lia);
    cbn [res_bind fst snd].
  - destruct (Z.ltb_spec n 253); [done|lia].
  - change (253 <? 253) with false. change (253 =? 253) with true. cbn match.
    rewrite ser_roundtrip by (change (256 ^ Z.of_nat 2) with 65536; lia). cbn [res_bind fst].
    destruct (Z.ltb_spec n 253); [lia|done].
  - change (254 <? 253) with false. change (254 =? 253) with false. change (254 =? 254) with true.
    cbn match. rewrite ser_roundtrip by (change (256 ^ Z.of_nat 4) with (2 ^ 32); lia). cbn [res_bind fst].
    destruct (Z.ltb_spec n 0x10000); [lia|done].
  - change (255 <? 253) with false. change (255 =? 253) with false. change (255 =? 254) with false.
    cbn match. rewrite ser_roundtrip by (change (256 ^ Z.of_nat 8) with (2 ^ 64); lia). cbn [res_bind fst].
    destruct (Z.ltb_spec n 0x100000000); [lia|done].
Qed.

Lemma ReadCompactSize_canonical inp max n s :
  bytes_ok inp -> ReadCompactSize inp max = Ok (n, s) ->
  inp = WriteCompactSize [] n ++ s /\ 0 <= n < 2 ^ 64 /\ bytes_ok s.
Proof.
  intros Hok Hr. unfold ReadCompactSize, ser_readdata8 in Hr.
  apply res_bind_Ok in Hr as ([ch rest] & Hh & Hr).
  apply ser_readdata_canonical in Hh as (-> & Hch & Hrest); [|done].
  change (256 ^ Z.of_nat 1) with 256 in Hch. apply res_bind_Ok in Hr as (r & Hr & Hk).
  case_if_in Hk; [done|]. injection Hk as ->. cbn [fst snd] in Hr.
  unfold WriteCompactSize, ser_writedata8, ser_writedata16, ser_writedata32, ser_writedata64.
  repeat case_if_in Hr; zbool;
    try (apply res_bind_Ok in Hr as ([v s'] & Hv & Hr);
         apply ser_readdata_canonical in Hv as (-> & Hv & Hs'); [|done];
         cbn [fst] in Hr; case_if_in Hr; [done|]; zbool).
  - injection Hr as -> ->. destruct (Z.ltb_spec n 253); [|lia]. rewrite u8_id by lia.
    split; [done|]. split; [lia|done].
  - injection Hr as -> ->. change (256 ^ Z.of_nat 2) with 65536 in Hv. subst ch.
    destruct (Z.ltb_spec n 253); [lia|]. destruct (Z.leb_spec n 0xFFFF); [|lia].
    rewrite u16_id by lia. split; [done|]. split; [lia|done].
  - injection Hr as -> ->. change (256 ^ Z.of_nat 4) with (2 ^ 32) in Hv. subst ch.
    destruct (Z.ltb_spec n 253); [lia|]. destruct (Z.leb_spec n 0xFFFF); [lia|].
    destruct (Z.leb_spec n 0xFFFFFFFF); [|lia].
    rewrite u32_id by lia. split; [done|]. split; [lia|done].
  - injection Hr as -> ->. change (256 ^ Z.of_nat 8) with (2 ^ 64) in Hv.
    assert (ch = 255) as -> by lia.
    destruct (Z.ltb_spec n 253); [lia|]. destruct (Z.leb_spec n 0xFFFF); [lia|].
    destruct (Z.leb_spec n 0xFFFFFFFF); [lia|].
    rewrite u64_id by lia. split; [done|]. split; [lia|done].
Qed.

(** Compact sizes: every 64-bit size reads back from what was written, whatever follows
    it, takes [GetSizeOfCompactSize] bytes, and the reader accepts nothing else: each size
    has exactly one accepted encoding. *)
Theorem compact_size_roundtrip n s :
  0 <= n < 2 ^ 64 ->
  ReadCompactSize (WriteCompactSize [] n ++ s) UINT64_MAX = Ok (n, s) /\
  zlen (WriteCompactSize [] n) = GetSizeOfCompactSize n /\
  (forall inp, bytes_ok inp -> ReadCompactSize inp UINT64_MAX = Ok (n, s) ->
     inp = WriteCompactSize [] n ++ s).
Proof.
  intros Hn. split; [by apply ReadCompactSize_Write|]. split; [apply GetSizeOfCompactSize_spec|].
  intros inp Hok Hr. by apply ReadCompactSize_canonical in Hr as [-> _].
Qed.

Lemma compact_size_roundtrip_witness :
  0 <= 70000 < 2 ^ 64 /\ zlen (WriteCompactSize [] 70000) = 5 /\
  ReadCompactSize (WriteCompactSize [] 70000 ++ [7]) UINT64_MAX = Ok (70000, [7]).
Proof.
  split; [lia|]. split; [exact (proj1 (proj2 (compact_size_roundtrip 70000 [7] ltac:(lia))))|].
  apply (compact_size_roundtrip 70000 [7]). lia.
Defined.

(** ** Lemmas: variable-length integers *)

Lemma low7 n : Z.land n 0x7F = n mod 128.
Proof. change 0x7F with (Z.ones 7). by rewrite Z.land_ones. Qed.

Lemma lor_low7 n d : 0 <= d < 128 -> Z.lor (Z.shiftl n 7) d = 128 * n + d.
Proof. intros Hd. rewrite Z.lor_comm, lor_shiftl_add by (cbn; lia). change (2 ^ 7) with 128. lia. Qed.

Lemma digit_cont d : 0 <= d < 128 ->
  Z.land (Z.lor d 0x80) 0x7F = d /\ (Z.land (Z.lor d 0x80) 0x80 =? 0) = false.
Proof.
  intros Hd. pose proof (byte_forall (fun d => if d <? 128 then
    (Z.land (Z.lor d 0x80) 0x7F =? d) && negb (Z.land (Z.lor d 0x80) 0x80 =? 0) else true)) as H.
  specialize (H ltac:(vm_compute; reflexivity) d). cbv beta in H.
  destruct (Z.ltb_spec d 128); [|lia]. specialize (H ltac:(unfold is_byte; lia)). apply andb_prop in H as [H1 H2].
  split; [by apply Z.eqb_eq|by apply negb_true_iff].
Qed.

Lemma digit_last d : 0 <= d < 128 -> Z.land d 0x7F = d /\ Z.land d 0x80 = 0.
Proof.
  intros Hd. rewrite low7, Z.mod_small by lia. split; [done|].
  pose proof (byte_forall (fun d => if d <? 128 then Z.land d 0x80 =? 0 else true)) as H.
  specialize (H ltac:(vm_compute; reflexivity) d). cbv beta in H.
  destruct (Z.ltb_spec d 128); [|lia]. specialize (H ltac:(unfold is_byte; lia)). zbool. done.
Qed.

(** One step of the reader. *)
Lemma read_varint_cont w acc d s :
  0 <= d < 128 -> 0 <= acc -> 128 * acc + d + 1 < 2 ^ w ->
  read_varint_loop w acc (Z.lor d 0x80 :: s) = read_varint_loop w (128 * acc + d + 1) s.
Proof.
  intros Hd Ha Hw. cbn [read_varint_loop]. destruct (digit_cont d Hd) as [-> ->]. cbn [negb].
  unfold wrap. rewrite (Z.mod_small (Z.shiftl acc 7)) by (rewrite Z.shiftl_mul_pow2 by lia; lia).
  rewrite lor_low7 by done. by rewrite Z.mod_small by lia.
Qed.

Lemma read_varint_last w acc d s :
  0 <= d < 128 -> 0 <= acc -> 128 * acc + d < 2 ^ w ->
  read_varint_loop w acc (d :: s) = Ok (128 * acc + d, s).
Proof.
  intros Hd Ha Hw. cbn [read_varint_loop]. destruct (digit_last d Hd) as [-> ->]. cbn [negb Z.eqb].
  unfold wrap. rewrite (Z.mod_small (Z.shiftl acc 7)) by (rewrite Z.shiftl_mul_pow2 by lia; lia).
  by rewrite lor_low7.
Qed.

Lemma shiftr7 m : Z.shiftr m 7 = m / 128.
Proof. by rewrite Z.shiftr_div_pow2. Qed.

Lemma varint_tmp_S f b n :
  varint_tmp (S f) b n =
    if n <=? 127 then [Z.lor (n mod 128) (if b then 0 else 0x80)]
    else Z.lor (n mod 128) (if b then 0 else 0x80) :: varint_tmp f false (n / 128 - 1).
Proof. cbn [varint_tmp]. by rewrite low7, shiftr7. Qed.

(** The continuation digits of [m] take the reader from 0 to [m + 1]. *)
Lemma read_varint_digits w f m s :
  0 <= m < 128 ^ Z.of_nat (S f) -> m + 1 < 2 ^ w ->
  read_varint_loop w 0 (rev (varint_tmp (S f) false m) ++ s) = read_varint_loop w (m + 1) s.
Proof.
  revert m s. induction f as [|f IH]; intros m s Hm Hw;
    rewrite varint_tmp_S;
    pose proof (Z.mod_pos_bound m 128 ltac:(lia)); pose proof (Z.div_mod m 128 ltac:(lia));
    destruct (Z.leb_spec m 127).
  - cbn [rev app]. rewrite Z.mod_small, read_varint_cont by lia. f_equal; lia.
  - change (128 ^ Z.of_nat 1) with 128 in Hm. lia.
  - cbn [rev app]. rewrite Z.mod_small, read_varint_cont by lia. f_equal; lia.
  - change (rev (?a :: ?l)) with (rev l ++ [a]). rewrite <- app_assoc. cbn [app].
    assert (128 ^ Z.of_nat (S (S f)) = 128 * 128 ^ Z.of_nat (S f)) as E
      by (rewrite <- Z.pow_succ_r by lia; f_equal; lia).
    rewrite IH by lia. rewrite Z.sub_add, read_varint_cont by lia. f_equal; lia.
Qed.

Lemma varint_fuel w n : 0 <= w -> n < 2 ^ w -> n < 128 ^ Z.of_nat (Z.to_nat (varint_buffer w)).
Proof.
  intros Hw Hn. unfold varint_buffer. pose proof (Z.div_pos (w + 6) 7 ltac:(lia) ltac:(lia)).
  rewrite Z2Nat.id by done. change 128 with (2 ^ 7). rewrite <- Z.pow_mul_r by lia.
  eapply Z.lt_le_trans; [done|]. apply Z.pow_le_mono_r; [lia|].
  pose proof (Z.div_mod (w + 6) 7 ltac:(lia)). pose proof (Z.mod_pos_bound (w + 6) 7 ltac:(lia)). lia.
Qed.

Lemma ReadVarInt_Write w n s :
  7 < w -> 0 <= n < 2 ^ w -> ReadVarInt w (WriteVarInt w [] n ++ s) = Ok (n, s).
Proof.
  intros Hw Hn. unfold ReadVarInt, WriteVarInt. rewrite app_nil_l.
  pose proof (varint_fuel w n ltac:(lia) ltac:(lia)) as Hf.
  assert (1 <= varint_buffer w) as Hb by (apply Z.div_le_lower_bound; lia).
  destruct (Z.to_nat (varint_buffer w)) as [|f] eqn:Ef; [lia|].
  rewrite varint_tmp_S, Z.lor_0_r.
  pose proof (Z.mod_pos_bound n 128 ltac:(lia)). pose proof (Z.div_mod n 128 ltac:(lia)).
  destruct (Z.leb_spec n 127).
  { cbn [rev app]. rewrite Z.mod_small, read_varint_last by lia. repeat f_equal. }
  destruct f as [|f]; [change (128 ^ Z.of_nat 1) with 128 in Hf; lia|].
  change (rev (?a :: ?l)) with (rev l ++ [a]). rewrite <- app_assoc. cbn [app].
  assert (128 ^ Z.of_nat (S (S f)) = 128 * 128 ^ Z.of_nat (S f)) as E
    by (rewrite <- Z.pow_succ_r by lia; f_equal; lia).
  rewrite read_varint_digits by lia. rewrite Z.sub_add, read_varint_last by lia. repeat f_equal. lia.
Qed.

(** What the reader consumes: continuation bytes and a last byte. *)
Lemma read_varint_shape w acc s n rest :
  bytes_ok s -> read_varint_loop w acc s = Ok (n, rest) ->
  exists c d, s = c ++ d :: rest /\ Forall (fun b => 128 <= b < 256) c /\ 0 <= d < 128.
Proof.
  revert acc. induction s as [|b s IH]; intros acc Hok Hr; [done|].
  apply Forall_cons in Hok as [Hb Hok]. unfold is_byte in Hb. cbn [read_varint_loop] in Hr.
  rewrite byte_land80 in Hr by done. destruct (Z.ltb_spec b 128); cbn [negb] in Hr.
  - injection Hr as _ <-. exists [], b. split; [done|]. split; [constructor|lia].
  - apply IH in Hr as (c & d & -> & Hc & Hd); [|done]. exists (b :: c), d.
    split; [done|]. split; [constructor; [lia|done]|done].
Qed.

Lemma cont_digit b : 128 <= b < 256 -> exists d, b = Z.lor d 0x80 /\ 0 <= d < 128.
Proof.
  intros Hb. exists (b - 128). split; [|lia].
  pose proof (byte_forall (fun b => if b <? 128 then true else Z.lor (b - 128) 0x80 =? b)) as H.
  specialize (H ltac:(vm_compute; reflexivity) b ltac:(unfold is_byte; lia)). cbv beta in H.
  destruct (Z.ltb_spec b 128); [lia|]. by apply Z.eqb_eq in H.
Qed.

(** The continuation bytes determine the accumulator, and are its encoding. *)
Lemma read_varint_conts w c :
  Forall (fun b => 128 <= b < 256) c -> 2 * 128 ^ zlen c <= 2 ^ w ->
  exists acc, 0 <= acc /\ 127 * (acc + 1) < 128 * 128 ^ zlen c /\
    (forall s, read_varint_loop w 0 (c ++ s) = read_varint_loop w acc s) /\
    ((c = [] /\ acc = 0) \/
     (1 <= acc /\ forall f, (length c <= f)%nat -> c = rev (varint_tmp f false (acc - 1)))).
Proof.
  induction c as [|b c IH] using rev_ind; intros Hc Hw.
  { exists 0. split; [lia|]. split; [change (zlen (@nil Z)) with 0; rewrite Z.pow_0_r; lia|]. split; [done|]. by left. }
  apply Forall_app in Hc as [Hc Hb]. rewrite Forall_singleton in Hb.
  rewrite zlen_app, zlen_sing in Hw |- *. pose proof (zlen_nonneg c).
  rewrite Z.pow_add_r in Hw |- * by lia. change (128 ^ 1) with 128 in *.
  destruct (cont_digit b Hb) as (d & -> & Hd).
  destruct (IH Hc ltac:(lia)) as (acc & Ha & Hbd & Hread & Henc).
  exists (128 * acc + d + 1). split; [lia|]. split; [lia|]. split.
  { intros s. rewrite <- app_assoc, Hread. cbn [app]. apply read_varint_cont; lia. }
  right. split; [lia|]. intros [|f] Hf; rewrite length_app in Hf; cbn in Hf; [lia|].
  rewrite varint_tmp_S. replace (128 * acc + d + 1 - 1) with (d + acc * 128) by lia.
  rewrite Z.mod_add, Z.div_add, Z.mod_small, Z.div_small by lia.
  destruct Henc as [[-> ->]|[Ha1 Henc]].
  - destruct (Z.leb_spec (d + 0 * 128) 127); [done|lia].
  - destruct (Z.leb_spec (d + acc * 128) 127); [lia|].
    change (rev (?a :: ?l)) with (rev l ++ [a]). by rewrite <- Henc by lia.
Qed.

Lemma ReadVarInt_canonical w s n rest :
  bytes_ok s -> ReadVarInt w s = Ok (n, rest) ->
  exists pre, s = pre ++ rest /\ (7 * zlen pre < w -> pre = WriteVarInt w [] n).
Proof.
  intros Hok Hr. unfold ReadVarInt in Hr.
  destruct (read_varint_shape _ _ _ _ _ Hok Hr) as (c & d & -> & Hc & Hd).
  exists (c ++ [d]). split; [by rewrite <- app_assoc|]. rewrite zlen_app, zlen_sing. intros Hlen.
  pose proof (zlen_nonneg c).
  assert (256 * 128 ^ zlen c <= 2 ^ w) as Hw.
  { change 256 with (2 ^ 8). change 128 with (2 ^ 7). rewrite <- Z.pow_mul_r by lia.
    rewrite <- Z.pow_add_r by lia. apply Z.pow_le_mono_r; lia. }
  destruct (read_varint_conts w c Hc ltac:(lia)) as (acc & Ha & Hbd & Hread & Henc).
  rewrite Hread, read_varint_last in Hr by lia. injection Hr as <-.
  unfold WriteVarInt. rewrite app_nil_l.
  assert (zlen c + 1 <= varint_buffer w) as Hb by (apply Z.div_le_lower_bound; lia).
  destruct (Z.to_nat (varint_buffer w)) as [|f] eqn:Ef; [lia|].
  rewrite varint_tmp_S, Z.lor_0_r. rewrite (Z.add_comm (128 * acc)), (Z.mul_comm 128).
  rewrite Z.mod_add, Z.div_add, Z.mod_small, Z.div_small by lia.
  destruct Henc as [[-> ->]|[Ha1 Henc]].
  - destruct (Z.leb_spec (d + 0 * 128) 127); [done|lia].
  - destruct (Z.leb_spec (d + acc * 128) 127); [lia|].
    change (rev (?a :: ?l)) with (rev l ++ [a]). rewrite Z.add_0_l.
    by rewrite <- Henc by (unfold zlen in *; lia).
Qed.

Lemma size_varint_loop_spec f r n b :
  size_varint_loop f r n = r + zlen (varint_tmp f b n).
Proof.
  revert r n b. induction f as [|f IH]; intros r n b; [cbn; rewrite zlen_nil; lia|].
  cbn [size_varint_loop varint_tmp]. case_if; [by rewrite zlen_sing|].
  rewrite (IH _ _ false), zlen_cons. lia.
Qed.

(** Variable-length integers of a [w]-bit type: what is written reads back to the same
    number whatever follows, its length is [GetSizeOfVarInt] and fits the writer's stack
    buffer, and conversely any byte string read without overflowing is the one encoding of
    the number read. *)
Theorem varint_roundtrip w n s :
  7 < w -> 0 <= n < 2 ^ w ->
  ReadVarInt w (WriteVarInt w [] n ++ s) = Ok (n, s) /\
  GetSizeOfVarInt w n = zlen (WriteVarInt w [] n) /\
  (forall inp rest, bytes_ok inp -> ReadVarInt w inp = Ok (n, rest) ->
     7 * (zlen inp - zlen rest) < w -> inp = WriteVarInt w [] n ++ rest).
Proof.
  intros Hw Hn. split; [by apply ReadVarInt_Write|]. split.
  - unfold GetSizeOfVarInt, WriteVarInt. rewrite (size_varint_loop_spec _ _ _ true), app_nil_l.
    unfold zlen. by rewrite length_rev.
  - intros inp rest Hok Hr Hlen. destruct (ReadVarInt_canonical _ _ _ _ Hok Hr) as (pre & -> & Hp).
    rewrite zlen_app in Hlen. by rewrite <- Hp by lia.
Qed.

Lemma varint_roundtrip_witness :
  ReadVarInt 32 (WriteVarInt 32 [] 65535 ++ [9]) = Ok (65535, [9]) /\
  GetSizeOfVarInt 32 65535 = 3.
Proof.
  split; [apply (varint_roundtrip 32 65535 [9]); lia|].
  rewrite (proj1 (proj2 (varint_roundtrip 32 65535 [9] ltac:(lia) ltac:(lia)))). reflexivity.
Defined.

(** Two of the encodings in the table of the header comment are not the ones written. *)
Lemma varint_table :
  WriteVarInt 64 [] 65535 = [0x82; 0xFE; 0x7F] /\ WriteVarInt 64 [] 16511 = [0xFF; 0x7F] /\
  WriteVarInt 64 [] (2 ^ 32) = [0x8E; 0xFE; 0xFE; 0xFF; 0x00].
Proof. vm_compute. done. Qed.
