(* ===== verification/Compressor.v ===== *)
(** * Compressed outputs

    [compressor.cpp] and [compressor.h]: the compact encodings of scripts and amounts used in
    the coin database, with the part of [pubkey.h] they use.  Parsing and printing of curve
    points (libsecp256k1) is the parameter class [Secp256k1]. *)

From S2P Require Import Prelude Script Serialize.

(** ** Public keys *)

(** [secp256k1_ec_pubkey_parse], and [secp256k1_ec_pubkey_serialize] with
    SECP256K1_EC_UNCOMPRESSED. *)
Class Secp256k1 := {
  point : Type;
  ec_pubkey_parse : bytes -> option point;
  ec_pubkey_serialize : point -> bytes
}.

(** What the documentation of the library promises: the uncompressed form is the byte 4 and
    two 32-byte coordinates, it is the only form of its length with that header that parses
    to the point, and the compressed form (2 or 3 by the parity of y, then x) parses to the
    same point. *)
Class Secp256k1Laws (S : Secp256k1) := {
  parse_uncompressed : forall x y q,
    zlen x = 32 -> zlen y = 32 -> ec_pubkey_parse (4 :: x ++ y) = Some q ->
    ec_pubkey_serialize q = 4 :: x ++ y;
  parse_compressed : forall x y q,
    zlen x = 32 -> zlen y = 32 -> ec_pubkey_parse (4 :: x ++ y) = Some q ->
    ec_pubkey_parse ((2 + Z.land (default 0 (last y)) 1) :: x) = Some q
}.

Definition PUBLIC_KEY_SIZE : Z := 65.
Definition COMPRESSED_PUBLIC_KEY_SIZE : Z := 33.

Definition GetLen (chHeader : Z) : Z :=
  if (chHeader =? 2) || (chHeader =? 3) then COMPRESSED_PUBLIC_KEY_SIZE
  else if (chHeader =? 4) || (chHeader =? 6) || (chHeader =? 7) then PUBLIC_KEY_SIZE
  else 0.

(** [CPubKey::Set]; [None] is the key made invalid. *)
Definition pubkey_set (b : bytes) : option bytes :=
  let len := match b with [] => 0 | h :: _ => GetLen h end in
  if negb (len =? 0) && (len =? zlen b) then Some b else None.

Section Compressor.
Context `{Secp256k1}.

Definition IsFullyValid (pubkey : option bytes) : bool :=
  match pubkey with
  | None => false
  | Some vch => bool_decide (is_Some (ec_pubkey_parse vch))
  end.

(** [CPubKey::Decompress] *)
Definition pubkey_Decompress (pubkey : option bytes) : option (option bytes) :=
  match pubkey with
  | None => None
  | Some vch =>
      match ec_pubkey_parse vch with
      | None => None
      | Some q => Some (pubkey_set (ec_pubkey_serialize q))
      end
  end.

(** ** Script compression *)

(** [&script[i]] for [n] bytes *)
Definition subseq (i n : nat) (l : bytes) : bytes := take n (drop i l).

Definition IsToKeyID (script : bytes) : option bytes :=
  if (zlen script =? 25) && byte_is script 0 OP_DUP && byte_is script 1 OP_HASH160
     && byte_is script 2 20 && byte_is script 23 OP_EQUALVERIFY && byte_is script 24 OP_CHECKSIG
  then Some (subseq 3 20 script) else None.

Definition IsToScriptID (script : bytes) : option bytes :=
  if (zlen script =? 23) && byte_is script 0 OP_HASH160 && byte_is script 1 20
     && byte_is script 22 OP_EQUAL
  then Some (subseq 2 20 script) else None.

Definition IsToPubKey (script : bytes) : option (option bytes) :=
  if (zlen script =? 35) && byte_is script 0 33 && byte_is script 34 OP_CHECKSIG
     && (byte_is script 1 0x02 || byte_is script 1 0x03)
  then Some (pubkey_set (subseq 1 33 script))
  else if (zlen script =? 67) && byte_is script 0 65 && byte_is script 66 OP_CHECKSIG
          && byte_is script 1 0x04
  then
    let pubkey := pubkey_set (subseq 1 65 script) in
    if IsFullyValid pubkey then Some pubkey else None
  else None.

(** [pubkey[i]]; an invalid key has the byte 0xFF first. *)
Definition key_byte (pubkey : option bytes) (i : nat) : Z :=
  match pubkey with
  | Some vch => default 0 (vch !! i)
  | None => 0xFF
  end.

Definition Compress (script : bytes) : option bytes :=
  match IsToKeyID script with
  | Some keyID => Some (0x00 :: keyID)
  | None =>
      match IsToScriptID script with
      | Some scriptID => Some (0x01 :: scriptID)
      | None =>
          match IsToPubKey script with
          | Some pubkey =>
              let x := subseq 1 32 (default [] pubkey) in
              if (key_byte pubkey 0 =? 0x02) || (key_byte pubkey 0 =? 0x03)
              then Some (key_byte pubkey 0 :: x)
              else if key_byte pubkey 0 =? 0x04
              then Some (Z.lor 0x04 (Z.land (key_byte pubkey 64) 0x01) :: x)
              else None
          | None => None
          end
      end
  end.

Definition GetSpecialSize (nSize : Z) : Z :=
  if (nSize =? 0) || (nSize =? 1) then 20
  else if (nSize >=? 2) && (nSize <=? 5) then 32
  else 0.

(** [Decompress(nSize, in)] on the current script: [Some] of the return value and the new
    script, [None] for the failed assertion on the size of the key. *)
Definition Decompress (script : bytes) (nSize : Z) (inp : bytes) : option (bool * bytes) :=
  if nSize =? 0x00 then
    Some (true, [OP_DUP; OP_HASH160; 20] ++ take 20 inp ++ [OP_EQUALVERIFY; OP_CHECKSIG])
  else if nSize =? 0x01 then
    Some (true, [OP_HASH160; 20] ++ take 20 inp ++ [OP_EQUAL])
  else if (nSize =? 0x02) || (nSize =? 0x03) then
    Some (true, [33; nSize] ++ take 32 inp ++ [OP_CHECKSIG])
  else if (nSize =? 0x04) || (nSize =? 0x05) then
    match pubkey_Decompress (pubkey_set ((nSize - 2) :: take 32 inp)) with
    | None => Some (false, script)
    | Some (Some pub) =>
        if zlen pub =? 65 then Some (true, [65] ++ pub ++ [OP_CHECKSIG]) else None
    | Some None => None
    end
  else Some (false, script).

Definition nSpecialScripts : Z := 6.

(** [CScriptCompressor::Serialize] *)
Definition script_Serialize (os script : bytes) : bytes :=
  match Compress script with
  | Some compr => os ++ compr
  | None => WriteVarInt 32 os (u32 (zlen script + nSpecialScripts)) ++ script
  end.

Inductive unser_fail : Set :=
| stream_failure (e : ios_failure)
| assert_failure.

Definition lift_io {A : Type} (r : res ios_failure A) : res unser_fail A :=
  match r with Ok a => Ok a | Err e => Err (stream_failure e) end.

(** [CScriptCompressor::Unserialize]; the return value of [Decompress] is ignored. *)
Definition script_Unserialize (script inp : bytes) : res unser_fail (bytes * bytes) :=
  let? r := lift_io (ReadVarInt 32 inp) in
  let nSize := r.1 in
  if nSize <? nSpecialScripts then
    let? v := lift_io (stream_read (Z.to_nat (GetSpecialSize nSize)) r.2) in
    match Decompress script nSize v.1 with
    | Some (_, script) => Ok (script, v.2)
    | None => Err assert_failure
    end
  else
    let nSize := nSize - nSpecialScripts in
    let? v := lift_io (stream_read (Z.to_nat nSize) r.2) in
    if nSize >? MAX_SCRIPT_SIZE then Ok (script ++ [OP_RETURN], v.2) else Ok (v.1, v.2).

End Compressor.

(** ** Amount compression *)

(** [while (((n % 10) == 0) && e < 9)] *)
Fixpoint compress_loop (fuel : nat) (n e : Z) : Z * Z :=
  match fuel with
  | O => (n, e)
  | S fuel =>
      if (n mod 10 =? 0) && (e <? 9) then compress_loop fuel (n / 10) (e + 1) else (n, e)
  end.

(** [None]: a failed assertion. *)
Definition CompressAmount (n : Z) : option Z :=
  if n =? 0 then Some 0
  else
    let '(n, e) := compress_loop 9 n 0 in
    if e <? 9 then
      let d := n mod 10 in
      if (d >=? 1) && (d <=? 9) then
        let n := n / 10 in Some (u64 (1 + (n * 9 + d - 1) * 10 + e))
      else None
    else Some (u64 (1 + (n - 1) * 10 + 9)).

(** [while (e) { n *= 10; e--; }] *)
Fixpoint decompress_loop (e : nat) (n : Z) : Z :=
  match e with
  | O => n
  | S e => decompress_loop e (u64 (n * 10))
  end.

Definition DecompressAmount (x : Z) : Z :=
  if x =? 0 then 0
  else
    let x := x - 1 in
    let e := x mod 10 in
    let x := x / 10 in
    let n :=
      if e <? 9 then
        let d := x mod 9 + 1 in
        let x := x / 9 in u64 (x * 10 + d)
      else u64 (x + 1) in
    decompress_loop (Z.to_nat e) n.

(** ** Whole outputs *)

Record CTxOut := { nValue : Z; scriptPubKey : bytes }.

(** [CTxOutCompressor::SerializationOp] *)
Definition txout_Serialize `{Secp256k1} (os : bytes) (txout : CTxOut) : option bytes :=
  nVal ← CompressAmount (u64 (nValue txout));
  Some (script_Serialize (WriteVarInt 64 os nVal) (scriptPubKey txout)).

Definition txout_Unserialize `{Secp256k1} (inp : bytes) : res unser_fail (CTxOut * bytes) :=
  let? r := lift_io (ReadVarInt 64 inp) in
  let? s := script_Unserialize [] r.2 in
  Ok ({| nValue := s64 (DecompressAmount r.1); scriptPubKey := s.1 |}, s.2).

(** ** Amounts *)

Lemma compress_loop_spec fuel n e n' e' :
  0 < n -> 0 <= e -> e + Z.of_nat fuel = 9 -> compress_loop fuel n e = (n', e') ->
  0 < n' /\ e <= e' <= 9 /\ n = n' * 10 ^ (e' - e) /\ (e' < 9 -> n' mod 10 <> 0).
Proof.
  revert n e. induction fuel as [|fuel IH]; intros n e Hn He Hf Hr; cbn [compress_loop] in Hr.
  - injection Hr as <- <-. rewrite Z.sub_diag. lia.
  - case_if_in Hr; zbool.
    + pose proof (Z.div_mod n 10 ltac:(lia)).
      apply IH in Hr as (Hp & Hle & Heq & Hmod); [|lia|lia|lia].
      split; [done|]. split; [lia|]. split; [|done].
      replace (e' - e) with (Z.succ (e' - (e + 1))) by lia. rewrite Z.pow_succ_r by lia. lia.
    + injection Hr as <- <-. rewrite Z.sub_diag. lia.
Qed.

Lemma decompress_loop_spec e n :
  0 <= n -> n * 10 ^ Z.of_nat e < 2 ^ 64 -> decompress_loop e n = n * 10 ^ Z.of_nat e.
Proof.
  revert n. induction e as [|e IH]; intros n Hn Hlt; cbn [decompress_loop].
  - change (10 ^ Z.of_nat 0) with 1. lia.
  - rewrite Nat2Z.inj_succ, Z.pow_succ_r in * by lia.
    pose proof (Z.pow_pos_nonneg 10 (Z.of_nat e) ltac:(lia) ltac:(lia)).
    rewrite u64_id by nia. rewrite IH by lia. lia.
Qed.

(** A normalised amount [n * 10 ^ e]. *)
Lemma DecompressAmount_code9 n :
  1 <= n -> n * 10 ^ 9 < 2 ^ 64 -> DecompressAmount (1 + (n - 1) * 10 + 9) = n * 10 ^ 9.
Proof.
  intros Hn Hb. unfold DecompressAmount. destruct (Z.eqb_spec (1 + (n - 1) * 10 + 9) 0); [lia|].
  replace (1 + (n - 1) * 10 + 9 - 1) with (9 + (n - 1) * 10) by lia.
  rewrite Z.mod_add, Z.div_add by lia. change (9 mod 10) with 9. change (9 / 10) with 0.
  cbn [Z.ltb Z.compare Pos.compare Pos.compare_cont]. rewrite u64_id by lia.
  change (Z.to_nat 9) with 9%nat. rewrite decompress_loop_spec by lia. change (Z.of_nat 9) with 9. lia.
Qed.

Lemma DecompressAmount_code n d e :
  0 <= n -> 1 <= d <= 9 -> 0 <= e < 9 -> (n * 10 + d) * 10 ^ e < 2 ^ 64 ->
  DecompressAmount (1 + (n * 9 + d - 1) * 10 + e) = (n * 10 + d) * 10 ^ e.
Proof.
  intros Hn Hd He Hb. unfold DecompressAmount.
  destruct (Z.eqb_spec (1 + (n * 9 + d - 1) * 10 + e) 0); [lia|].
  replace (1 + (n * 9 + d - 1) * 10 + e - 1) with (e + (n * 9 + d - 1) * 10) by lia.
  rewrite Z.mod_add, Z.div_add, (Z.mod_small e), (Z.div_small e) by lia. rewrite Z.add_0_l.
  destruct (Z.ltb_spec e 9); [|lia].
  replace (n * 9 + d - 1) with (d - 1 + n * 9) by lia.
  rewrite Z.mod_add, Z.div_add, (Z.mod_small (d - 1)), (Z.div_small (d - 1)) by lia.
  rewrite Z.sub_add, Z.add_0_l. pose proof (Z.pow_pos_nonneg 10 e ltac:(lia) ltac:(lia)).
  rewrite u64_id by nia. rewrite decompress_loop_spec; rewrite ?Z2Nat.id by lia; lia.
Qed.

Lemma CompressAmount_spec n :
  0 <= n < 2 ^ 60 ->
  exists x, CompressAmount n = Some x /\ 0 <= x < 2 ^ 64 /\ DecompressAmount x = n.
Proof.
  intros Hn. unfold CompressAmount. destruct (Z.eqb_spec n 0) as [->|Hn0].
  { exists 0. done. }
  destruct (compress_loop 9 n 0) as [n' e] eqn:E.
  apply compress_loop_spec in E as (Hp & He & Heq & Hmod); [|lia|lia|done].
  rewrite Z.sub_0_r in Heq.
  assert (n' <= n) by (pose proof (Z.pow_pos_nonneg 10 e ltac:(lia) ltac:(lia)); nia).
  pose proof (Z.mod_pos_bound n' 10 ltac:(lia)). pose proof (Z.div_mod n' 10 ltac:(lia)).
  destruct (Z.ltb_spec e 9).
  - rewrite Z.geb_leb. specialize (Hmod ltac:(lia)).
    destruct (Z.leb_spec 1 (n' mod 10)); [|lia]. destruct (Z.leb_spec (n' mod 10) 9); [|lia].
    cbn [andb]. eexists. split; [reflexivity|]. rewrite u64_id by lia. split; [lia|].
    rewrite DecompressAmount_code; try lia;
      replace (n' / 10 * 10 + n' mod 10) with n' by lia; lia.
  - assert (e = 9) as -> by lia. eexists. split; [reflexivity|]. rewrite u64_id by lia.
    split; [lia|]. rewrite DecompressAmount_code9; lia.
Qed.

(** Amount compression is lossless: every amount up to 2^60 (over 500 times MAX_MONEY)
    compresses without a failed assertion or overflow, and decompresses to itself. *)
Theorem amount_roundtrip n :
  0 <= n < 2 ^ 60 ->
  exists x, CompressAmount n = Some x /\ 0 <= x < 2 ^ 64 /\ DecompressAmount x = n.
Proof. apply CompressAmount_spec. Qed.

Lemma amount_roundtrip_witness :
  exists x, CompressAmount 625000000 = Some x /\ 0 <= x < 2 ^ 64 /\ DecompressAmount x = 625000000.
Proof. apply (amount_roundtrip 625000000). lia. Defined.

(** ** Scripts *)

Lemma byte_is_drop l i c : byte_is l i c = true -> drop i l = c :: drop (S i) l.
Proof.
  unfold byte_is. destruct (l !! i) as [b|] eqn:E; [|done]. intros ->%Z.eqb_eq. by apply drop_S.
Qed.

Lemma drop_subseq i n l : drop i l = subseq i n l ++ drop (i + n) l.
Proof. unfold subseq. by rewrite <- drop_drop, take_drop. Qed.

Lemma subseq_length i n l : (i + n <= length l)%nat -> length (subseq i n l) = n.
Proof. intros Hl. unfold subseq. rewrite length_take, length_drop. lia. Qed.

Section Roundtrip.
Context `{Secp256k1Laws}.

Lemma IsToKeyID_shape script h :
  IsToKeyID script = Some h ->
  script = [OP_DUP; OP_HASH160; 20] ++ h ++ [OP_EQUALVERIFY; OP_CHECKSIG] /\ length h = 20%nat.
Proof.
  unfold IsToKeyID. case_if; [|done]. intros [= <-]. zbool. unfold zlen in *.
  split; [|apply subseq_length; lia]. rewrite <- (drop_0 script) at 1.
  rewrite (byte_is_drop _ 0 OP_DUP), (byte_is_drop _ 1 OP_HASH160), (byte_is_drop _ 2 20) by done.
  rewrite (drop_subseq 3 20), (byte_is_drop _ (3 + 20) OP_EQUALVERIFY),
    (byte_is_drop _ 24 OP_CHECKSIG) by done.
  by rewrite (drop_ge script 25) by lia.
Qed.

Lemma IsToScriptID_shape script h :
  IsToScriptID script = Some h ->
  script = [OP_HASH160; 20] ++ h ++ [OP_EQUAL] /\ length h = 20%nat.
Proof.
  unfold IsToScriptID. case_if; [|done]. intros [= <-]. zbool. unfold zlen in *.
  split; [|apply subseq_length; lia]. rewrite <- (drop_0 script) at 1.
  rewrite (byte_is_drop _ 0 OP_HASH160), (byte_is_drop _ 1 20) by done.
  rewrite (drop_subseq 2 20), (byte_is_drop _ (2 + 20) OP_EQUAL) by done.
  by rewrite (drop_ge script (S (2 + 20))) by (cbn; lia).
Qed.

(** The two kinds of pay-to-public-key scripts that compress. *)
Lemma IsToPubKey_shape script pk :
  IsToPubKey script = Some pk ->
  (exists b x, (b = 2 \/ b = 3) /\ length x = 32%nat /\
     script = [33; b] ++ x ++ [OP_CHECKSIG] /\ pk = Some (b :: x)) \/
  (exists x y q, length x = 32%nat /\ length y = 32%nat /\
     script = [65; 4] ++ x ++ y ++ [OP_CHECKSIG] /\ pk = Some (4 :: x ++ y) /\
     ec_pubkey_parse (4 :: x ++ y) = Some q).
Proof.
  unfold IsToPubKey. case_if.
  - intros [= <-]. left. zbool. unfold zlen in *.
    match goal with H : _ \/ _ |- _ => rename H into Hb end.
    assert (exists b, (b = 2 \/ b = 3) /\ byte_is script 1 b = true) as (b & Hb2 & Hb1)
      by (destruct Hb; eauto).
    exists b, (subseq 2 32 script). split; [done|]. split; [apply subseq_length; lia|].
    assert (subseq 1 33 script = b :: subseq 2 32 script) as ->
      by (unfold subseq; rewrite (byte_is_drop _ 1 b) by done; done).
    split; [|unfold pubkey_set; rewrite zlen_cons; unfold zlen; rewrite subseq_length by lia;
             by destruct Hb2 as [-> | ->]].
    rewrite <- (drop_0 script) at 1.
    rewrite (byte_is_drop _ 0 33), (byte_is_drop _ 1 b) by done.
    rewrite (drop_subseq 2 32), (byte_is_drop _ (2 + 32) OP_CHECKSIG) by done.
    by rewrite (drop_ge script (S (2 + 32))) by (cbn; lia).
  - case_if; [|done]. case_if; [|done]. intros [= <-]. right. zbool. unfold zlen in *.
    match goal with H : IsFullyValid _ = true |- _ => rename H into Hv end.
    assert (subseq 1 65 script = 4 :: subseq 2 32 script ++ subseq 34 32 script) as E.
    { unfold subseq at 1. rewrite (byte_is_drop _ 1 4) by done.
      rewrite (drop_subseq 2 32), (drop_subseq 34 32). change (take 65 (4 :: ?l)) with (4 :: take 64 l).
      rewrite app_assoc, take_app_length'; [done|]. rewrite length_app, !subseq_length by lia. done. }
    rewrite E in *.
    assert (pubkey_set (4 :: subseq 2 32 script ++ subseq 34 32 script) =
            Some (4 :: subseq 2 32 script ++ subseq 34 32 script)) as Hset.
    { unfold pubkey_set. rewrite zlen_cons. unfold zlen. by rewrite length_app, !subseq_length by lia. }
    rewrite Hset in *. cbn in Hv. apply bool_decide_eq_true in Hv as [q Hq].
    exists (subseq 2 32 script), (subseq 34 32 script), q.
    split; [apply subseq_length; lia|]. split; [apply subseq_length; lia|].
    split; [|done]. rewrite <- (drop_0 script) at 1.
    rewrite (byte_is_drop _ 0 65), (byte_is_drop _ 1 4) by done.
    rewrite (drop_subseq 2 32), (drop_subseq 34 32), (byte_is_drop _ (34 + 32) OP_CHECKSIG) by done.
    by rewrite (drop_ge script (S (34 + 32))) by (cbn; lia).
Qed.

(** The reader on a one-byte code and the data that follows it. *)
Lemma script_Unserialize_special script b data s :
  0 <= b < 6 -> zlen data = GetSpecialSize b ->
  script_Unserialize script (b :: data ++ s) =
    match Decompress script b data with
    | Some (_, script) => Ok (script, s)
    | None => Err assert_failure
    end.
Proof.
  intros Hb Hl. unfold script_Unserialize, ReadVarInt.
  rewrite read_varint_last by lia. cbn [lift_io res_bind fst snd].
  replace (128 * 0 + b) with b by lia. unfold nSpecialScripts.
  destruct (Z.ltb_spec b 6); [|lia]. unfold stream_read. rewrite zlen_app, <- Hl.
  pose proof (zlen_nonneg data). pose proof (zlen_nonneg s). rewrite Z2Nat.id by done.
  destruct (Z.ltb_spec (zlen data + zlen s) (zlen data)); [lia|]. cbn [lift_io res_bind fst snd].
  destruct (take_drop_app data s) as [-> ->]. done.
Qed.

Lemma lor4_parity b : Z.lor 4 (Z.land b 1) = 4 + Z.land b 1 /\ 0 <= Z.land b 1 <= 1.
Proof.
  change 1 with (Z.ones 1) at 1 2 3 4. rewrite Z.land_ones by lia.
  pose proof (Z.mod_pos_bound b (2 ^ 1) ltac:(lia)) as Hb. change (2 ^ 1) with 2 in *.
  assert (b mod 2 = 0 \/ b mod 2 = 1) as [-> | ->] by lia; done.
Qed.

(** An uncompressed key is rebuilt from its x coordinate and the parity of y. *)
Lemma Decompress_uncompressed script x y q bit :
  length x = 32%nat -> length y = 32%nat -> ec_pubkey_parse (4 :: x ++ y) = Some q ->
  bit = Z.land (default 0 (last y)) 1 ->
  Decompress script (4 + bit) x = Some (true, [65; 4] ++ x ++ y ++ [OP_CHECKSIG]).
Proof.
  intros Hx Hy Hq Hbit. unfold Decompress. rewrite (take_ge x 32) by lia.
  assert (zlen x = 32 /\ zlen y = 32) as [Hzx Hzy] by (unfold zlen; lia).
  assert (ec_pubkey_parse ((2 + bit) :: x) = Some q) as Hpc
    by (rewrite Hbit; by eapply parse_compressed).
  pose proof (parse_uncompressed x y q Hzx Hzy Hq) as Hser.
  assert (bit = 0 \/ bit = 1) as Hcase by (destruct (lor4_parity (default 0 (last y))); lia).
  replace (4 + bit - 2) with (2 + bit) by lia.
  assert (pubkey_set ((2 + bit) :: x) = Some ((2 + bit) :: x)) as ->.
  { unfold pubkey_set. rewrite zlen_cons, Hzx. clear Hbit. by destruct Hcase as [-> | ->]. }
  unfold pubkey_Decompress. rewrite Hpc, Hser.
  assert (zlen (4 :: x ++ y) = 65) as Hl by (rewrite zlen_cons, zlen_app; lia).
  assert (pubkey_set (4 :: x ++ y) = Some (4 :: x ++ y)) as -> by (unfold pubkey_set; by rewrite Hl).
  rewrite Hl. clear Hbit. destruct Hcase as [-> | ->]; cbn; by rewrite <- app_assoc.
Qed.

(** Compressed scripts read back. *)
Lemma Compress_roundtrip script compr script0 s :
  Compress script = Some compr -> script_Unserialize script0 (compr ++ s) = Ok (script, s).
Proof.
  unfold Compress. destruct (IsToKeyID script) as [h|] eqn:E1.
  { intros [= <-]. apply IsToKeyID_shape in E1 as [-> Hh].
    cbn [app]. rewrite script_Unserialize_special by (done || (unfold zlen; rewrite Hh; done)).
    cbn. by rewrite take_ge by lia. }
  destruct (IsToScriptID script) as [h|] eqn:E2.
  { intros [= <-]. apply IsToScriptID_shape in E2 as [-> Hh].
    cbn [app]. rewrite script_Unserialize_special by (done || (unfold zlen; rewrite Hh; done)).
    cbn. by rewrite take_ge by lia. }
  destruct (IsToPubKey script) as [pk|] eqn:E3; [|done].
  apply IsToPubKey_shape in E3 as [(b & x & Hb & Hx & -> & ->)|(x & y & q & Hx & Hy & -> & -> & Hq)].
  - cbn [key_byte default from_option id lookup list_lookup].
    assert (subseq 1 32 (b :: x) = x) as -> by (unfold subseq; cbn; by rewrite drop_0, take_ge by lia).
    destruct Hb as [-> | ->]; cbn; intros [= <-]; cbn [app];
      (rewrite script_Unserialize_special by (done || (unfold zlen; rewrite Hx; done)));
      cbn; by rewrite take_ge by lia.
  - assert (subseq 1 32 (4 :: x ++ y) = x) as Hsub
      by (unfold subseq; cbn; by rewrite drop_0, take_app_length').
    unfold key_byte. change (default [] (Some (4 :: x ++ y))) with (4 :: x ++ y). rewrite Hsub.
    assert ((4 :: x ++ y) !! 64%nat = last y) as Hl.
    { change ((4 :: x ++ y) !! 64%nat) with ((x ++ y) !! 63%nat). rewrite lookup_app_r by lia.
      rewrite Hx, last_lookup, Hy. done. }
    rewrite Hl. change (default 0 ((4 :: x ++ y) !! 0%nat)) with 4. cbn [Z.eqb Pos.eqb orb].
    intros [= <-]. destruct (lor4_parity (default 0 (last y))) as [-> Hbit]. cbn [app].
    rewrite script_Unserialize_special; [by erewrite Decompress_uncompressed|lia|].
    unfold zlen, GetSpecialSize. rewrite Hx. generalize dependent (Z.land (default 0 (last y)) 1).
    intros bit Hbit. assert (bit = 0 \/ bit = 1) as [-> | ->] by lia; done.
Qed.

(** Scripts that do not compress: their length and their bytes. *)
Lemma script_Unserialize_plain script s :
  zlen script + 6 < 2 ^ 32 ->
  script_Unserialize [] ((WriteVarInt 32 [] (u32 (zlen script + nSpecialScripts)) ++ script) ++ s) =
    Ok (if zlen script >? MAX_SCRIPT_SIZE then [OP_RETURN] else script, s).
Proof.
  intros Hl. pose proof (zlen_nonneg script). unfold script_Unserialize, nSpecialScripts.
  rewrite u32_id, <- app_assoc, ReadVarInt_Write by lia. cbn [lift_io res_bind fst snd].
  destruct (Z.ltb_spec (zlen script + 6) 6); [lia|]. rewrite Z.add_simpl_r.
  unfold stream_read. rewrite zlen_app, Z2Nat.id by lia. pose proof (zlen_nonneg s).
  destruct (Z.ltb_spec (zlen script + zlen s) (zlen script)); [lia|].
  cbn [lift_io res_bind fst snd]. destruct (take_drop_app script s) as [-> ->]. by case_if.
Qed.

Lemma script_Serialize_roundtrip script s :
  zlen script <= MAX_SCRIPT_SIZE ->
  script_Unserialize [] (script_Serialize [] script ++ s) = Ok (script, s).
Proof.
  intros Hl. unfold script_Serialize, MAX_SCRIPT_SIZE in *.
  destruct (Compress script) as [compr|] eqn:E; [by apply Compress_roundtrip|].
  rewrite script_Unserialize_plain by lia. unfold MAX_SCRIPT_SIZE. rewrite Z.gtb_ltb.
  destruct (Z.ltb_spec 10000 (zlen script)); [lia|done].
Qed.

Lemma txout_Serialize_roundtrip txout s :
  0 <= nValue txout < 2 ^ 60 -> zlen (scriptPubKey txout) <= MAX_SCRIPT_SIZE ->
  exists b, txout_Serialize [] txout = Some b /\ txout_Unserialize (b ++ s) = Ok (txout, s).
Proof.
  intros Hv Hl. destruct txout as [v spk]. cbn [nValue scriptPubKey] in *.
  destruct (CompressAmount_spec v Hv) as (x & Hx & Hx64 & Hd).
  unfold txout_Serialize, txout_Unserialize. cbn [nValue scriptPubKey].
  rewrite u64_id, Hx by lia. eexists. split; [reflexivity|].
  assert (forall os, script_Serialize os spk = os ++ script_Serialize [] spk) as Happ.
  { intros os. unfold script_Serialize, WriteVarInt. destruct (Compress spk); by rewrite <- ?app_assoc. }
  rewrite Happ, <- app_assoc, ReadVarInt_Write by lia. cbn [lift_io res_bind fst snd].
  rewrite script_Serialize_roundtrip by done. cbn [res_bind fst snd].
  rewrite Hd, s64_id by (unfold INT64_MIN, INT64_MAX; lia). done.
Qed.

(** An output with a valid amount and a script of at most 10,000 bytes is stored in the
    coin database without loss: whatever compressed form is chosen (key hash, script hash,
    public key or plain), reading it back gives the same output and leaves the rest of the
    stream. *)
Theorem txout_roundtrip txout s :
  0 <= nValue txout < 2 ^ 60 -> zlen (scriptPubKey txout) <= MAX_SCRIPT_SIZE ->
  exists b, txout_Serialize [] txout = Some b /\ txout_Unserialize (b ++ s) = Ok (txout, s).
Proof. apply txout_Serialize_roundtrip. Qed.

End Roundtrip.

(** ** A concrete curve for the witness: y is 31 zero bytes and a bit *)

Definition demo_y (bit : Z) : bytes := replicate 31 0 ++ [bit].

#[export] Instance demo_secp : Secp256k1 := {|
  point := (bytes * Z)%type;
  ec_pubkey_parse b :=
    match b with
    | h :: r =>
        if (h =? 4) && (zlen r =? 64) then
          if bytes_eqb (drop 32 r) (demo_y 0) then Some (take 32 r, 0)
          else if bytes_eqb (drop 32 r) (demo_y 1) then Some (take 32 r, 1) else None
        else if ((h =? 2) || (h =? 3)) && (zlen r =? 32) then Some (r, h - 2) else None
    | [] => None
    end;
  ec_pubkey_serialize q := 4 :: q.1 ++ demo_y q.2
|}.

Lemma demo_parse x y q :
  zlen x = 32 -> zlen y = 32 -> ec_pubkey_parse (4 :: x ++ y) = Some q ->
  exists bit, (bit = 0 \/ bit = 1) /\ y = demo_y bit /\ q = (x, bit).
Proof.
  intros Hx Hy. cbn. rewrite zlen_app, Hx, Hy. cbn.
  assert (take 32 (x ++ y) = x /\ drop 32 (x ++ y) = y) as [-> ->]
    by (split; [apply take_app_length'|apply drop_app_length']; unfold zlen in Hx; lia).
  change (32 + 32 =? 64) with true. cbn match.
  case_if; [|case_if; [|done]]; rewrite bytes_eqb_spec in *; intros [= <-]; eauto.
Qed.

#[export] Instance demo_secp_laws : Secp256k1Laws demo_secp.
Proof.
  split; intros x y q Hx Hy Hq; destruct (demo_parse x y q Hx Hy Hq) as (bit & Hb & -> & ->).
  - done.
  - unfold demo_y. rewrite last_snoc. cbn [default from_option id].
    destruct Hb as [-> | ->]; cbn; by rewrite Hx.
Qed.

Lemma txout_roundtrip_witness :
  exists b,
    txout_Serialize [] {| nValue := 500; scriptPubKey := [65; 4] ++ replicate 32 9 ++ demo_y 1 ++ [OP_CHECKSIG] |} = Some b /\
    txout_Unserialize (b ++ [1]) =
      Ok ({| nValue := 500; scriptPubKey := [65; 4] ++ replicate 32 9 ++ demo_y 1 ++ [OP_CHECKSIG] |}, [1]).
Proof.
  apply (txout_roundtrip {| nValue := 500; scriptPubKey := [65; 4] ++ replicate 32 9 ++ demo_y 1 ++ [OP_CHECKSIG] |} [1]);
    [cbn; lia|vm_compute; done].
Defined.
