(* ===== verification/Standard.v ===== *)
(** * Standard outputs and destinations

    [script/standard.cpp]: recognising output scripts by template, extracting the addresses
    they pay to and building the script of an address.  The SHA-256 and RIPEMD-160 functions
    are the parameter class [Crypto] of the interpreter. *)

From S2P Require Import Prelude Script Interpreter Compressor.

(** ** Data *)

Inductive txnouttype : Set :=
  TX_NONSTANDARD | TX_PUBKEY | TX_PUBKEYHASH | TX_SCRIPTHASH | TX_MULTISIG | TX_NULL_DATA.

#[export] Instance txnouttype_eq_dec : EqDecision txnouttype.
Proof. solve_decision. Defined.

(** [std::variant<CNoDestination, CKeyID, CScriptID>]; the hashes are 20 bytes. *)
Inductive CTxDestination : Set :=
  | CNoDestination
  | CKeyID (hash : bytes)
  | CScriptID (hash : bytes).

#[export] Instance CTxDestination_eq_dec : EqDecision CTxDestination.
Proof. solve_decision. Defined.

(** The two settings [Solver] reads: the argument -datacarrier and [nMaxDatacarrierBytes]. *)
Record policy := { datacarrier : bool; nMaxDatacarrierBytes : Z }.

Definition MAX_OP_RETURN_RELAY : Z := 80.

(** ** Template matching *)

(** [mTemplates], in the order of the multimap: by type, equal types in insertion order. *)
Definition mTemplates (pol : policy) : list (txnouttype * bytes) :=
  [ (TX_PUBKEY, [OP_PUBKEY; OP_CHECKSIG]);
    (TX_PUBKEYHASH, [OP_DUP; OP_HASH160; OP_PUBKEYHASH; OP_EQUALVERIFY; OP_CHECKSIG]);
    (TX_MULTISIG, [OP_SMALLINTEGER; OP_PUBKEYS; OP_SMALLINTEGER; OP_CHECKMULTISIG]) ] ++
  (if datacarrier pol then [(TX_NULL_DATA, [OP_RETURN; OP_SMALLDATA])] else []) ++
  [ (TX_NULL_DATA, [OP_RETURN]) ].

(** [GetOp] with its reference arguments: success, opcode, data and the new position, which
    after a failure is behind what had been read. *)
Definition GetOp (pc : bytes) : bool * Z * bytes * bytes :=
  match GetOp2 pc with
  | Some (opcode, vch, pc) => (true, opcode, vch, pc)
  | None =>
      (false, OP_INVALIDOPCODE, [],
       match pc with
       | [] => []
       | opcode :: pc => match read_push_size opcode pc with Some (_, pc) => pc | None => pc end
       end)
  end.

(** [vch.size() >= 33 && vch.size() <= 65] *)
Definition key_size (vch : bytes) : bool := (zlen vch >=? 33) && (zlen vch <=? 65).

(** The inner loop for OP_PUBKEYS, with the length of the script as fuel. *)
Fixpoint pubkeys_loop (fuel : nat) (opcode1 : Z) (vch1 pc1 : bytes) (sols : list bytes)
  : Z * bytes * bytes * list bytes :=
  match fuel with
  | O => (opcode1, vch1, pc1, sols)
  | S fuel =>
      if key_size vch1 then
        let sols := sols ++ [vch1] in
        let '(ok, opcode1, vch1, pc1) := GetOp pc1 in
        if ok : bool then pubkeys_loop fuel opcode1 vch1 pc1 sols else (opcode1, vch1, pc1, sols)
      else (opcode1, vch1, pc1, sols)
  end.

(** One comparison; [None] is [break].  [DecodeOP_N] is only called on small integers. *)
Definition match_op (pol : policy) (opcode1 : Z) (vch1 : bytes) (opcode2 : Z) (vch2 : bytes)
    (sols : list bytes) : option (list bytes) :=
  if opcode2 =? OP_PUBKEY then
    if (zlen vch1 <? 33) || (zlen vch1 >? 65) then None else Some (sols ++ [vch1])
  else if opcode2 =? OP_PUBKEYHASH then
    if negb (zlen vch1 =? uint160_SIZE) then None else Some (sols ++ [vch1])
  else if opcode2 =? OP_SMALLINTEGER then
    if (opcode1 =? OP_0) || ((opcode1 >=? OP_1) && (opcode1 <=? OP_16)) then
      n ← DecodeOP_N opcode1; Some (sols ++ [[n]])
    else None
  else if opcode2 =? OP_SMALLDATA then
    if zlen vch1 >? nMaxDatacarrierBytes pol then None else Some sols
  else if negb (opcode1 =? opcode2) || negb (bytes_eqb vch1 vch2) then None
  else Some sols.

(** The [while (true)] loop over one template: [None] when it is left by [break]; every round
    reads the template, whose length is the fuel. *)
Fixpoint match_loop (fuel : nat) (pol : policy) (script1 pc1 pc2 : bytes) (sols : list bytes)
  : option (list bytes) :=
  match pc1, pc2, fuel with
  | [], [], _ => Some sols
  | _, _, O => None
  | _, _, S fuel =>
      let '(ok1, opcode1, vch1, pc1) := GetOp pc1 in
      if negb ok1 then None
      else
        let '(ok2, opcode2, vch2, pc2) := GetOp pc2 in
        if negb ok2 then None
        else if opcode2 =? OP_PUBKEYS then
          let '(opcode1, vch1, pc1, sols) := pubkeys_loop (length script1) opcode1 vch1 pc1 sols in
          let '(ok2, opcode2, vch2, pc2) := GetOp pc2 in
          if negb ok2 then None
          else
            sols ← match_op pol opcode1 vch1 opcode2 vch2 sols;
            match_loop fuel pol script1 pc1 pc2 sols
        else
          sols ← match_op pol opcode1 vch1 opcode2 vch2 sols;
          match_loop fuel pol script1 pc1 pc2 sols
  end.

(** The scan of the templates.  The outer [None] is an access outside [vSolutionsRet]. *)
Fixpoint scan_templates (pol : policy) (script1 : bytes) (templates : list (txnouttype * bytes))
  : option (bool * txnouttype * list bytes) :=
  match templates with
  | [] => Some (false, TX_NONSTANDARD, [])
  | (txOut, script2) :: templates =>
      match match_loop (length script2) pol script1 script1 script2 [] with
      | None => scan_templates pol script1 templates
      | Some sols =>
          if decide (txOut = TX_MULTISIG) then
            match head sols, last sols with
            | Some (m :: _), Some (n :: _) =>
                if (m <? 1) || (n <? 1) || (m >? n) || negb (u64 (zlen sols - 2) =? n)
                then Some (false, txOut, sols) else Some (true, txOut, sols)
            | _, _ => None
            end
          else Some (true, txOut, sols)
      end
  end.

(** [Solver]: the result, [typeRet] and [vSolutionsRet], whose value at the call is the last
    argument. *)
Definition Solver (pol : policy) (scriptPubKey : bytes) (vSolutionsRet : list bytes)
  : option (bool * txnouttype * list bytes) :=
  if IsPayToScriptHash scriptPubKey then
    Some (true, TX_SCRIPTHASH, vSolutionsRet ++ [take 20 (drop 2 scriptPubKey)])
  else scan_templates pol scriptPubKey (mTemplates pol).

Definition ScriptSigArgsExpected (t : txnouttype) (vSolutions : list bytes) : Z :=
  match t with
  | TX_NONSTANDARD | TX_NULL_DATA => -1
  | TX_PUBKEY => 1
  | TX_PUBKEYHASH => 2
  | TX_MULTISIG => match vSolutions with (m :: _) :: _ => m + 1 | _ => -1 end
  | TX_SCRIPTHASH => 1
  end.

(** [IsStandard]: the result and [whichType]. *)
Definition IsStandard (pol : policy) (scriptPubKey : bytes) : option (bool * txnouttype) :=
  '(ok, whichType, vSolutions) ← Solver pol scriptPubKey [];
  if negb ok then Some (false, whichType)
  else if decide (whichType = TX_MULTISIG) then
    match head vSolutions, last vSolutions with
    | Some (m :: _), Some (n :: _) =>
        if (n <? 1) || (n >? 3) then Some (false, whichType)
        else if (m <? 1) || (m >? n) then Some (false, whichType)
        else Some (bool_decide (whichType <> TX_NONSTANDARD), whichType)
    | _, _ => None
    end
  else Some (bool_decide (whichType <> TX_NONSTANDARD), whichType).

(** ** Destinations *)

(** [uint160(const v_uint8&)]: the assertion on the size. *)
Definition uint160_of (vch : bytes) : option bytes :=
  if zlen vch =? uint160_SIZE then Some vch else None.

Section Destinations.
Context `{Crypto}.

(** [CPubKey::GetID] of a valid key *)
Definition GetID (pubkey : bytes) : CTxDestination := CKeyID (hash160 pubkey).

(** [ExtractDestination]: the address if the result is true ([addressRet] is untouched
    otherwise), and the type stored through [pScriptType]. *)
Definition ExtractDestination (pol : policy) (scriptPubKey : bytes)
  : option (option CTxDestination * txnouttype) :=
  '(ok, whichType, vSolutions) ← Solver pol scriptPubKey [];
  if negb ok then Some (None, whichType)
  else
    match whichType with
    | TX_PUBKEY =>
        sol ← head vSolutions;
        match pubkey_set sol with
        | Some pubKey => Some (Some (GetID pubKey), whichType)
        | None => Some (None, whichType)
        end
    | TX_PUBKEYHASH =>
        sol ← head vSolutions; h ← uint160_of sol; Some (Some (CKeyID h), whichType)
    | TX_SCRIPTHASH =>
        sol ← head vSolutions; h ← uint160_of sol; Some (Some (CScriptID h), whichType)
    | _ => Some (None, whichType)
    end.

(** The loop of [ExtractDestinations] over the keys of a multisig output. *)
Definition key_destinations (keys : list bytes) : list CTxDestination :=
  omap (fun k => GetID <$> pubkey_set k) keys.

(** [ExtractDestinations]: result, [typeRet], [addressRet] and [nRequiredRet] if assigned. *)
Definition ExtractDestinations (pol : policy) (scriptPubKey : bytes)
  : option (bool * txnouttype * list CTxDestination * option Z) :=
  '(ok, typeRet, vSolutions) ← Solver pol scriptPubKey [];
  if negb ok then Some (false, typeRet, [], None)
  else if decide (typeRet = TX_NULL_DATA) then Some (false, typeRet, [], None)
  else if decide (typeRet = TX_MULTISIG) then
    match vSolutions with
    | (m :: _) :: rest =>
        let addressRet := key_destinations (take (length vSolutions - 2) rest) in
        Some (negb (bool_decide (addressRet = [])), typeRet, addressRet, Some m)
    | _ => None
    end
  else
    '(address, _) ← ExtractDestination pol scriptPubKey;
    match address with
    | None => Some (false, typeRet, [], Some 1)
    | Some a => Some (true, typeRet, [a], Some 1)
    end.

End Destinations.

(** [operator<<] with opcodes of the enumeration, which are bytes. *)
Definition push_op (script : bytes) (opcode : Z) : bytes := default script (push_opcode script opcode).

(** [CScriptVisitor] and [GetScriptForDestination] *)
Definition GetScriptForDestination (dest : CTxDestination) : bytes :=
  match dest with
  | CNoDestination => []
  | CKeyID keyID =>
      push_op (push_op (push_data (push_op (push_op [] OP_DUP) OP_HASH160) keyID) OP_EQUALVERIFY) OP_CHECKSIG
  | CScriptID scriptID => push_op (push_data (push_op [] OP_HASH160) scriptID) OP_EQUAL
  end.

(** [GetScriptForMultisig]; [None] is a failed assertion of [EncodeOP_N]. *)
Definition GetScriptForMultisig (nRequired : Z) (keys : list bytes) : option bytes :=
  opm ← EncodeOP_N nRequired;
  let script := foldl push_data (push_op [] opm) keys in
  opn ← EncodeOP_N (s32 (zlen keys));
  Some (push_op (push_op script opn) OP_CHECKMULTISIG).

Definition IsValidDestination (dest : CTxDestination) : bool :=
  negb (match dest with CNoDestination => true | _ => false end).
Definition IsKeyDestination (dest : CTxDestination) : bool :=
  match dest with CKeyID _ => true | _ => false end.
Definition IsScriptDestination (dest : CTxDestination) : bool :=
  match dest with CScriptID _ => true | _ => false end.

(** [GetTxDestinationHash]: the hash if the result is true, and the type. *)
Definition GetTxDestinationHash (dest : CTxDestination) : option bytes * ScriptType :=
  match dest with
  | CNoDestination => (None, UNKNOWN)
  | CKeyID h => (Some h, P2PKH)
  | CScriptID h => (Some h, P2SH)
  end.

Definition DestFromAddressHash (scriptType : ScriptType) (addressHash : bytes) : CTxDestination :=
  match scriptType with
  | P2PKH => CKeyID addressHash
  | P2SH => CScriptID addressHash
  | UNKNOWN => CNoDestination
  end.

(** ** Templates on instruction lists *)

Definition is_key (i : Z * bytes) : bool := key_size i.2.

(** The keys at the front of an instruction list and what follows. *)
Fixpoint span_keys (ins : list (Z * bytes)) : list bytes * list (Z * bytes) :=
  match ins with
  | i :: ins' => if is_key i then let '(keys, rest) := span_keys ins' in (i.2 :: keys, rest) else ([], ins)
  | [] => ([], [])
  end.

(** Matching a template without OP_PUBKEYS against instructions. *)
Fixpoint match_instrs (pol : policy) (ins : list (Z * bytes)) (t : bytes) (sols : list bytes)
  : option (list bytes) :=
  match ins, t with
  | [], [] => Some sols
  | (op, vch) :: ins, o2 :: t => sols ← match_op pol op vch o2 [] sols; match_instrs pol ins t sols
  | _, _ => None
  end.

Ltac bind_simpl := cbn [mbind option_bind fmap option_fmap option_map].

(** Template opcodes are read as opcodes without data. *)
Definition template_op (o2 : Z) : Prop := OP_PUSHDATA4 < o2 /\ o2 <> OP_PUBKEYS.

Lemma GetOp_template o2 t : OP_PUSHDATA4 < o2 -> GetOp (o2 :: t) = (true, o2, [], t).
Proof. intros Ho. unfold GetOp. cbn [GetOp2]. by destruct (Z.leb_spec o2 OP_PUSHDATA4); [lia|]. Qed.

(** One round of the loop at a template opcode. *)
Lemma match_loop_S fuel pol script b pc o2 t sols :
  OP_PUSHDATA4 < o2 ->
  match_loop (S fuel) pol script (b :: pc) (o2 :: t) sols =
    '(op, vch, rest) ← GetOp2 (b :: pc);
    if o2 =? OP_PUBKEYS then
      let '(op, vch, rest, sols) := pubkeys_loop (length script) op vch rest sols in
      let '(ok2, o2, v2, t) := GetOp t in
      if negb ok2 then None
      else sols ← match_op pol op vch o2 v2 sols; match_loop fuel pol script rest t sols
    else sols ← match_op pol op vch o2 [] sols; match_loop fuel pol script rest t sols.
Proof.
  intros Ho. cbn [match_loop]. unfold GetOp at 1.
  destruct (GetOp2 (b :: pc)) as [[[op vch] rest]|]; [|done]. cbn [negb].
  by rewrite GetOp_template by done.
Qed.

Lemma match_loop_instrs fuel pol script pc t sols :
  Forall template_op t -> (length t <= fuel)%nat ->
  match_loop fuel pol script pc t sols = (ins ← instrs pc; match_instrs pol ins t sols).
Proof.
  intros Ht. revert fuel pc sols. induction Ht as [|o2 t [Ho Hk] Ht IH]; intros fuel pc sols Hf.
  - destruct pc as [|b pc]; [by destruct fuel|]. rewrite instrs_unfold by done.
    transitivity (@None (list bytes)).
    + destruct fuel; [done|]. cbn [match_loop]. unfold GetOp at 1.
      by destruct (GetOp2 (b :: pc)) as [[[op vch] rest]|].
    + destruct (GetOp2 (b :: pc)) as [[[op vch] rest]|]; [|done]. by destruct (instrs rest).
  - destruct fuel as [|fuel]; [cbn in Hf; lia|]. cbn in Hf.
    destruct pc as [|b pc]; [done|]. rewrite instrs_unfold, match_loop_S by done.
    destruct (GetOp2 (b :: pc)) as [[[op vch] rest]|]; [|done]. bind_simpl.
    destruct (Z.eqb_spec o2 OP_PUBKEYS); [done|].
    destruct (match_op pol op vch o2 [] sols) as [sols'|] eqn:E; bind_simpl.
    + rewrite IH by lia. destruct (instrs rest); bind_simpl; [|done]. cbn [match_instrs]. by rewrite E.
    + destruct (instrs rest); bind_simpl; [|done]. cbn [match_instrs]. by rewrite E.
Qed.

Definition T_MULTISIG_END : bytes := [OP_SMALLINTEGER; OP_CHECKMULTISIG].

(** Matching from OP_PUBKEYS on. *)
Definition match_keys (pol : policy) (ins : list (Z * bytes)) (sols : list bytes) : option (list bytes) :=
  let '(keys, rest) := span_keys ins in match_instrs pol rest T_MULTISIG_END (sols ++ keys).

Lemma pubkeys_loop_instrs fuel pol script op vch pc sols :
  (length pc < fuel)%nat ->
  (let '(opcode1, vch1, pc1, sols) := pubkeys_loop fuel op vch pc sols in
   sols ← match_op pol opcode1 vch1 OP_SMALLINTEGER [] sols;
   match_loop 2 pol script pc1 [OP_CHECKMULTISIG] sols) =
  (ins ← instrs pc; match_keys pol ((op, vch) :: ins) sols).
Proof.
  revert op vch pc sols. induction fuel as [|fuel IH]; intros op vch pc sols Hf; [lia|].
  cbn [pubkeys_loop]. unfold match_keys. cbn [span_keys]. unfold is_key. cbn [snd].
  destruct (key_size vch) eqn:Ek.
  - unfold GetOp. destruct pc as [|b pc]; [done|]. rewrite instrs_unfold by done.
    destruct (GetOp2 (b :: pc)) as [[[op' vch'] rest]|] eqn:E; [|done].
    apply GetOp2_progress in E as [E _]. rewrite IH by lia.
    destruct (instrs rest) as [ins|]; [|done]. cbn [mbind option_bind fmap option_fmap option_map].
    unfold match_keys. destruct (span_keys ((op', vch') :: ins)) as [keys rest'].
    by rewrite <- app_assoc.
  - rewrite app_nil_r.
    destruct (match_op pol op vch OP_SMALLINTEGER [] sols) as [sols'|] eqn:E; cbn [mbind option_bind].
    + rewrite match_loop_instrs by (done || (repeat constructor; done) || (cbn; lia)).
      destruct (instrs pc) as [ins|]; [|done]. cbn [mbind option_bind match_instrs T_MULTISIG_END]. by rewrite E.
    + destruct (instrs pc) as [ins|]; [|done]. cbn [mbind option_bind match_instrs T_MULTISIG_END]. by rewrite E.
Qed.

Lemma match_loop_multisig pol script :
  match_loop 4 pol script script [OP_SMALLINTEGER; OP_PUBKEYS; OP_SMALLINTEGER; OP_CHECKMULTISIG] [] =
  (ins ← instrs script;
   match ins with
   | (op, vch) :: ins =>
       sols ← match_op pol op vch OP_SMALLINTEGER [] [];
       match ins with [] => None | _ => match_keys pol ins sols end
   | [] => None
   end).
Proof.
  destruct script as [|b pc]; [done|]. rewrite instrs_unfold, match_loop_S by done.
  destruct (GetOp2 (b :: pc)) as [[[op vch] pc1]|] eqn:E1; [|done].
  apply GetOp2_progress in E1 as [E1 _]. bind_simpl. change (OP_SMALLINTEGER =? OP_PUBKEYS) with false.
  destruct (match_op pol op vch OP_SMALLINTEGER [] []) as [sols|] eqn:E;
    [|destruct (instrs pc1); bind_simpl; [by rewrite E|done]].
  bind_simpl. destruct pc1 as [|b1 pc1]; [by rewrite instrs_nil; bind_simpl; rewrite E|].
  rewrite (instrs_unfold (b1 :: pc1)), match_loop_S by done.
  destruct (GetOp2 (b1 :: pc1)) as [[[op1 vch1] pc2]|] eqn:E2; [|done].
  apply GetOp2_progress in E2 as [E2 _]. bind_simpl. change (OP_PUBKEYS =? OP_PUBKEYS) with true.
  rewrite !GetOp_template by done. cbn [negb].
  etrans; [apply (pubkeys_loop_instrs (length (b :: pc)) pol (b :: pc)); lia|].
  destruct (instrs pc2) as [ins|]; [|done]. bind_simpl. by rewrite E.
Qed.

(** ** The standard forms *)

(** The scripts [Solver] is meant to recognise, with the type and the solutions it reports,
    on the instructions the scripts consist of. *)
Inductive standard_form (pol : policy) (script : bytes) : txnouttype -> list bytes -> Prop :=
  | form_pubkey op key :
      instrs script = Some [(op, key); (OP_CHECKSIG, [])] -> 33 <= zlen key <= 65 ->
      standard_form pol script TX_PUBKEY [key]
  | form_pubkeyhash op h :
      instrs script = Some [(OP_DUP, []); (OP_HASH160, []); (op, h); (OP_EQUALVERIFY, []); (OP_CHECKSIG, [])] ->
      zlen h = 20 -> standard_form pol script TX_PUBKEYHASH [h]
  | form_scripthash h :
      script = [OP_HASH160; 20] ++ h ++ [OP_EQUAL] -> zlen h = 20 ->
      standard_form pol script TX_SCRIPTHASH [h]
  | form_multisig opm opn m n pushes :
      instrs script = Some ((opm, []) :: pushes ++ [(opn, []); (OP_CHECKMULTISIG, [])]) ->
      DecodeOP_N opm = Some m -> DecodeOP_N opn = Some n ->
      1 <= m <= n -> zlen pushes = n -> Forall (fun i => 33 <= zlen i.2 <= 65) pushes ->
      standard_form pol script TX_MULTISIG ([m] :: pushes.*2 ++ [[n]])
  | form_null_data :
      instrs script = Some [(OP_RETURN, [])] -> standard_form pol script TX_NULL_DATA []
  | form_null_data_carrier op data :
      datacarrier pol = true -> instrs script = Some [(OP_RETURN, []); (op, data)] ->
      zlen data <= nMaxDatacarrierBytes pol -> standard_form pol script TX_NULL_DATA [].

(** *** What each comparison accepts *)

Lemma key_size_spec v : key_size v = true <-> 33 <= zlen v <= 65.
Proof. unfold key_size. rewrite Z.geb_leb, andb_true_iff, !Z.leb_le. lia. Qed.

Lemma match_pubkey pol op v sols r :
  match_op pol op v OP_PUBKEY [] sols = Some r <-> 33 <= zlen v <= 65 /\ r = sols ++ [v].
Proof.
  unfold match_op. change (OP_PUBKEY =? OP_PUBKEY) with true. cbn [negb]. rewrite Z.gtb_ltb.
  destruct (Z.ltb_spec (zlen v) 33), (Z.ltb_spec 65 (zlen v)); cbn;
    (split; [intros [= <-]; split; [lia|done]|intros [? ->]; lia || done]) || (split; [done|lia]).
Qed.

Lemma match_pubkeyhash pol op v sols r :
  match_op pol op v OP_PUBKEYHASH [] sols = Some r <-> zlen v = 20 /\ r = sols ++ [v].
Proof.
  unfold match_op. change (OP_PUBKEYHASH =? OP_PUBKEY) with false. cbn [negb].
  change (OP_PUBKEYHASH =? OP_PUBKEYHASH) with true. cbn [negb].
  unfold uint160_SIZE. destruct (Z.eqb_spec (zlen v) 20); cbn [negb]; split;
    solve [done | by intros [= <-] | by intros [? ->]].
Qed.

Lemma match_smallint pol op v sols r :
  match_op pol op v OP_SMALLINTEGER [] sols = Some r <-> exists n, DecodeOP_N op = Some n /\ r = sols ++ [[n]].
Proof.
  unfold match_op. change (OP_SMALLINTEGER =? OP_PUBKEY) with false.
  change (OP_SMALLINTEGER =? OP_PUBKEYHASH) with false.
  change (OP_SMALLINTEGER =? OP_SMALLINTEGER) with true. cbn [negb].
  unfold DecodeOP_N. destruct (op =? OP_0); cbn [orb]; [|destruct ((op >=? OP_1) && (op <=? OP_16))];
    bind_simpl; split; solve [intros [= <-]; by eexists | intros (n & Hn & ->); by simplify_eq | done].
Qed.

Lemma match_smalldata pol op v sols r :
  match_op pol op v OP_SMALLDATA [] sols = Some r <-> zlen v <= nMaxDatacarrierBytes pol /\ r = sols.
Proof.
  unfold match_op. change (OP_SMALLDATA =? OP_PUBKEY) with false.
  change (OP_SMALLDATA =? OP_PUBKEYHASH) with false. change (OP_SMALLDATA =? OP_SMALLINTEGER) with false.
  change (OP_SMALLDATA =? OP_SMALLDATA) with true. cbn [negb]. rewrite Z.gtb_ltb.
  destruct (Z.ltb_spec (nMaxDatacarrierBytes pol) (zlen v)); split;
    solve [done | intros [? ?]; lia | by intros [= <-] | by intros [_ ->]].
Qed.

(** Ordinary opcodes must be equal. *)
Lemma match_exact pol op v o2 sols r :
  o2 < OP_SMALLDATA -> match_op pol op v o2 [] sols = Some r <-> op = o2 /\ v = [] /\ r = sols.
Proof.
  intros Ho. unfold match_op, OP_PUBKEY, OP_PUBKEYHASH, OP_SMALLINTEGER, OP_SMALLDATA in *.
  repeat (case_if; [zbool; lia|]).
  destruct (Z.eqb_spec op o2); cbn [negb orb]; [|split; [done|by intros [? _]]].
  destruct (bytes_eqb v []) eqn:E; cbn [negb].
  - apply bytes_eqb_spec in E. split; [by intros [= <-]|by intros (_ & _ & ->)].
  - split; [done|]. intros (_ & -> & _). by vm_compute in E.
Qed.

(** Small integers carry no data. *)
Lemma instrs_smallint script ins :
  instrs script = Some ins -> Forall (fun i => is_Some (DecodeOP_N i.1) -> i.2 = []) ins.
Proof.
  revert script. induction ins as [|[op d] ins IH]; intros script E; [done|].
  destruct script as [|b pc]; [done|]. rewrite instrs_unfold in E by done.
  destruct (GetOp2 (b :: pc)) as [[[op' d'] rest]|] eqn:Eg; [|done].
  destruct (instrs rest) as [ins'|] eqn:Er; [|done]. bind_simpl; cbn in E. simplify_eq.
  constructor; [|by eapply IH]. cbn. intros [n Hn]. cbn [GetOp2] in Eg.
  destruct (b <=? OP_PUSHDATA4) eqn:Eb; [|by simplify_eq].
  destruct (read_push_size b pc) as [[k pc']|] eqn:Ep; [|done]. case_if_in Eg; [done|]. simplify_eq.
  unfold DecodeOP_N, OP_0, OP_1, OP_PUSHDATA4 in *. destruct (Z.eqb_spec op 0) as [->|];
    [|case_if_in Hn; [zbool; lia|done]].
  cbn in Ep. by simplify_eq.
Qed.

(** [match_instrs] on the template of a form, step by step. *)
Ltac match_inv H :=
  repeat match type of H with
  | match_instrs _ ?ins _ _ = Some _ =>
      is_var ins; let i := fresh "op" in let v := fresh "v" in destruct ins as [|[i v] ins]; [discriminate H|]
  | match_instrs _ (_ :: _) _ _ = Some _ => cbn [match_instrs] in H
  | (match_op ?p ?o ?v ?o2 [] ?s ≫= _) = Some _ =>
      let r := fresh "r" in let E := fresh "E" in
      destruct (match_op p o v o2 [] s) as [r|] eqn:E; [cbn [mbind option_bind] in H|discriminate H];
      first [apply match_pubkey in E | apply match_pubkeyhash in E | apply match_smallint in E
            | apply match_smalldata in E | apply match_exact in E; [|done]]
  end.

Lemma exact_ok pol o sols : o < OP_SMALLDATA -> match_op pol o [] o [] sols = Some sols.
Proof. intros Ho. by apply match_exact. Qed.

(** *** Soundness and completeness of each template *)

Lemma pubkey_template pol ins r :
  match_instrs pol ins [OP_PUBKEY; OP_CHECKSIG] [] = Some r <->
  exists op key, ins = [(op, key); (OP_CHECKSIG, [])] /\ 33 <= zlen key <= 65 /\ r = [key].
Proof.
  split.
  - intros E. match_inv E. destruct ins as [|[]]; [|done]. cbn in E. destruct_and!. simplify_eq.
    by eexists _, _.
  - intros (op & key & -> & Hk & ->). cbn [match_instrs].
    rewrite (proj2 (match_pubkey pol op key [] [key])) by done. bind_simpl. by rewrite exact_ok.
Qed.

Lemma pubkeyhash_template pol ins r :
  match_instrs pol ins [OP_DUP; OP_HASH160; OP_PUBKEYHASH; OP_EQUALVERIFY; OP_CHECKSIG] [] = Some r <->
  exists op h, ins = [(OP_DUP, []); (OP_HASH160, []); (op, h); (OP_EQUALVERIFY, []); (OP_CHECKSIG, [])] /\
    zlen h = 20 /\ r = [h].
Proof.
  split.
  - intros E. match_inv E. destruct ins as [|[]]; [|done]. cbn in E. destruct_and!. simplify_eq.
    by eexists _, _.
  - intros (op & h & -> & Hk & ->). cbn [match_instrs]. do 2 (rewrite exact_ok by done; bind_simpl).
    rewrite (proj2 (match_pubkeyhash pol op h [] [h])) by done. bind_simpl.
    do 2 (rewrite exact_ok by done; bind_simpl). done.
Qed.

Lemma null_template pol ins r :
  match_instrs pol ins [OP_RETURN] [] = Some r <-> ins = [(OP_RETURN, [])] /\ r = [].
Proof.
  split.
  - intros E. match_inv E. destruct ins as [|[]]; [|done]. cbn in E. destruct_and!. by simplify_eq.
  - intros [-> ->]. cbn [match_instrs]. by rewrite exact_ok.
Qed.

Lemma carrier_template pol ins r :
  match_instrs pol ins [OP_RETURN; OP_SMALLDATA] [] = Some r <->
  exists op data, ins = [(OP_RETURN, []); (op, data)] /\ zlen data <= nMaxDatacarrierBytes pol /\ r = [].
Proof.
  split.
  - intros E. match_inv E. destruct ins as [|[]]; [|done]. cbn in E. destruct_and!. simplify_eq.
    by eexists _, _.
  - intros (op & d & -> & Hk & ->). cbn [match_instrs]. rewrite exact_ok by done. bind_simpl.
    by rewrite (proj2 (match_smalldata pol op d [] [])).
Qed.

Lemma span_keys_spec ins keys rest :
  span_keys ins = (keys, rest) ->
  exists pushes, ins = pushes ++ rest /\ keys = pushes.*2 /\ Forall (fun i => 33 <= zlen i.2 <= 65) pushes.
Proof.
  revert keys. induction ins as [|i ins IH]; cbn; intros keys E; [simplify_eq; by exists []|].
  destruct (is_key i) eqn:Ek; [|simplify_eq; by exists []].
  destruct (span_keys ins) as [keys' rest'] eqn:Es. simplify_eq.
  destruct (IH _ eq_refl) as (pushes & -> & -> & Hp). exists (i :: pushes). split; [done|]. split; [done|].
  constructor; [|done]. by apply key_size_spec.
Qed.

Lemma span_keys_app pushes i rest :
  Forall (fun i => 33 <= zlen i.2 <= 65) pushes -> i.2 = [] ->
  span_keys (pushes ++ i :: rest) = (pushes.*2, i :: rest).
Proof.
  intros Hp Hi. induction Hp as [|j pushes Hj Hp IH]; cbn.
  - unfold is_key. by rewrite Hi.
  - unfold is_key at 1. rewrite (proj2 (key_size_spec j.2) Hj). by rewrite IH.
Qed.

Definition multisig_instrs (ins : list (Z * bytes)) (m n : Z) (keys : list bytes) : Prop :=
  exists opm opn dm dn pushes, ins = (opm, dm) :: pushes ++ [(opn, dn); (OP_CHECKMULTISIG, [])] /\
    DecodeOP_N opm = Some m /\ DecodeOP_N opn = Some n /\ keys = pushes.*2 /\
    Forall (fun i => 33 <= zlen i.2 <= 65) pushes.

Lemma multisig_template pol script ins r :
  instrs script = Some ins ->
  match_loop 4 pol script script [OP_SMALLINTEGER; OP_PUBKEYS; OP_SMALLINTEGER; OP_CHECKMULTISIG] [] = Some r <->
  exists m n keys, multisig_instrs ins m n keys /\ r = [m] :: keys ++ [[n]].
Proof.
  intros Hi. pose proof (instrs_smallint _ _ Hi) as Hsmall. rewrite match_loop_multisig, Hi. bind_simpl. split.
  - intros E. destruct ins as [|[opm dm] ins]; [done|].
    destruct (match_op pol opm dm OP_SMALLINTEGER [] []) as [s|] eqn:Em; [|done].
    apply match_smallint in Em as (m & Hm & ->). cbn [mbind option_bind] in E.
    destruct ins as [|i ins]; [done|]. unfold match_keys in E.
    destruct (span_keys (i :: ins)) as [keys rest] eqn:Es. apply span_keys_spec in Es as (pushes & -> & -> & Hp).
    unfold T_MULTISIG_END in E. match_inv E. destruct rest as [|[]]; [|done]. cbn in E.
    destruct E0 as (n & Hn & ->). destruct_and!. simplify_eq.
    exists m, n, pushes.*2. split; [by exists opm, op, dm, v, pushes|]. done.
  - intros (m & n & keys & (opm & opn & dm & dn & pushes & -> & Hm & Hn & -> & Hp) & ->).
    rewrite (proj2 (match_smallint pol opm dm [] [[m]])) by (by exists m). bind_simpl.
    destruct (pushes ++ [(opn, dn); (OP_CHECKMULTISIG, [])]) eqn:Ea; [by destruct pushes|]. rewrite <- Ea.
    apply Forall_cons in Hsmall as [_ Hsmall]. rewrite <- Ea in Hsmall.
    apply Forall_app in Hsmall as [_ [Hdn _]%Forall_cons]. cbn in Hdn.
    unfold match_keys. rewrite span_keys_app by (done || (apply Hdn; by eexists)).
    unfold T_MULTISIG_END. cbn [match_instrs].
    rewrite (proj2 (match_smallint pol opn dn _ _) (ex_intro _ n (conj Hn eq_refl))). bind_simpl.
    by rewrite exact_ok.
Qed.

(** *** The scan as a whole *)

Lemma IsPayToScriptHash_form script :
  IsPayToScriptHash script = true <-> exists h, script = [OP_HASH160; 20] ++ h ++ [OP_EQUAL] /\ zlen h = 20.
Proof.
  split.
  - intros Hp. destruct (IsToScriptID_shape script (subseq 2 20 script)) as [E Hl].
    + unfold IsPayToScriptHash in Hp. case_if_in Hp; [done|]. unfold IsToScriptID. by rewrite Hp.
    + eexists. split; [exact E|]. unfold zlen. by rewrite Hl.
  - intros (h & -> & Hh). unfold IsPayToScriptHash.
    replace (zlen ([OP_HASH160; 20] ++ h ++ [OP_EQUAL])) with 23
      by (rewrite !zlen_app, !zlen_cons, zlen_nil; lia).
    unfold byte_is, zlen in *.
    change (([OP_HASH160; 20] ++ h ++ [OP_EQUAL]) !! 22%nat) with ((h ++ [OP_EQUAL]) !! 20%nat).
    rewrite (lookup_app_r h) by lia. by replace (20 - length h)%nat with 0%nat by lia.
Qed.

Lemma p2sh_instrs h :
  zlen h = 20 ->
  instrs ([OP_HASH160; 20] ++ h ++ [OP_EQUAL]) = Some [(OP_HASH160, []); (20, h); (OP_EQUAL, [])].
Proof.
  intros Hh. rewrite instrs_unfold by done. cbn [app GetOp2].
  change (OP_HASH160 <=? OP_PUSHDATA4) with false. cbn iota.
  rewrite instrs_unfold by done.
  rewrite (GetOp2_cons_push 20 _ h [OP_EQUAL]) by (done || (rewrite Hh; done)). done.
Qed.

(** A truncated script matches nothing. *)
Lemma scan_truncated pol script : instrs script = None -> Solver pol script [] = Some (false, TX_NONSTANDARD, []).
Proof.
  intros E. unfold Solver. destruct (IsPayToScriptHash script) eqn:Ep.
  { apply IsPayToScriptHash_form in Ep as (h & -> & Hh). by rewrite p2sh_instrs in E. }
  unfold mTemplates. destruct (datacarrier pol); cbn [app scan_templates length];
    rewrite match_loop_multisig, !match_loop_instrs by (done || (repeat constructor; done) || (cbn; lia));
    by rewrite E.
Qed.

(** The scan of a complete script: the first template that matches its instructions. *)
Lemma scan_templates_spec pol script ins :
  instrs script = Some ins ->
  scan_templates pol script (mTemplates pol) =
    match match_instrs pol ins [OP_PUBKEY; OP_CHECKSIG] [],
          match_instrs pol ins [OP_DUP; OP_HASH160; OP_PUBKEYHASH; OP_EQUALVERIFY; OP_CHECKSIG] [],
          match_loop 4 pol script script [OP_SMALLINTEGER; OP_PUBKEYS; OP_SMALLINTEGER; OP_CHECKMULTISIG] [] with
    | Some r, _, _ => Some (true, TX_PUBKEY, r)
    | None, Some r, _ => Some (true, TX_PUBKEYHASH, r)
    | None, None, Some r =>
        match head r, last r with
        | Some (m :: _), Some (n :: _) =>
            Some (negb ((m <? 1) || (n <? 1) || (m >? n) || negb (u64 (zlen r - 2) =? n)), TX_MULTISIG, r)
        | _, _ => None
        end
    | None, None, None =>
        match (if datacarrier pol then match_instrs pol ins [OP_RETURN; OP_SMALLDATA] [] else None),
              match_instrs pol ins [OP_RETURN] [] with
        | Some r, _ | None, Some r => Some (true, TX_NULL_DATA, r)
        | None, None => Some (false, TX_NONSTANDARD, [])
        end
    end.
Proof.
  intros Hi. unfold mTemplates.
  set (ms := match_loop 4 pol script script [OP_SMALLINTEGER; OP_PUBKEYS; OP_SMALLINTEGER; OP_CHECKMULTISIG] []).
  destruct (datacarrier pol); cbn [app scan_templates length]; fold ms;
    rewrite !match_loop_instrs by (done || (repeat constructor; done) || (cbn; lia)); rewrite Hi; bind_simpl;
    repeat (case_match; simplify_eq; try done).
Qed.

Lemma p2sh_hash h : zlen h = 20 -> take 20 (drop 2 ([OP_HASH160; 20] ++ h ++ [OP_EQUAL])) = h.
Proof.
  intros Hh. change (drop 2 ([OP_HASH160; 20] ++ h ++ [OP_EQUAL])) with (h ++ [OP_EQUAL]).
  apply take_app_length'. unfold zlen in Hh. lia.
Qed.

Lemma DecodeOP_N_bounds op n : DecodeOP_N op = Some n -> 0 <= n <= 16.
Proof.
  unfold DecodeOP_N, OP_0, OP_1, OP_16. intros E. repeat case_if_in E; simplify_eq; zbool; lia.
Qed.

(** The additional checks for multisig outputs on what the template stores. *)
Lemma multisig_checks m n (keys : list bytes) :
  0 <= m <= 16 -> 0 <= n <= 16 -> zlen keys < 2 ^ 63 ->
  negb ((m <? 1) || (n <? 1) || (m >? n) || negb (u64 (zlen ([m] :: keys ++ [[n]]) - 2) =? n)) = true <->
  1 <= m <= n /\ zlen keys = n.
Proof.
  intros Hm Hn Hk. pose proof (zlen_nonneg keys).
  rewrite zlen_cons, zlen_app, zlen_cons, zlen_nil, u64_id by lia. rewrite Z.gtb_ltb.
  replace (1 + (zlen keys + (1 + 0)) - 2) with (zlen keys) by lia.
  destruct (Z.ltb_spec m 1), (Z.ltb_spec n 1), (Z.ltb_spec n m), (Z.eqb_spec (zlen keys) n); cbn; split; done || lia.
Qed.

Lemma instrs_loop_length fuel script ins : instrs_loop fuel script = Some ins -> (length ins <= fuel)%nat.
Proof.
  revert script ins. induction fuel as [|fuel IH]; intros script ins E; cbn [instrs_loop] in E; [by simplify_eq|].
  destruct script as [|b pc]; [simplify_eq; cbn; lia|].
  destruct (GetOp2 (b :: pc)) as [[[op d] rest]|]; [|done].
  destruct (instrs_loop fuel rest) eqn:Er; [|done]. cbn in E. simplify_eq. cbn. apply IH in Er. lia.
Qed.

Lemma multisig_keys_short script ins m n keys :
  zlen script < 2 ^ 32 -> instrs script = Some ins -> multisig_instrs ins m n keys -> zlen keys < 2 ^ 63.
Proof.
  intros Hs Hi (opm & opn & dm & dn & pushes & -> & _ & _ & -> & _).
  apply instrs_loop_length in Hi. unfold zlen in *. rewrite length_fmap. cbn in Hi. rewrite length_app in Hi. lia.
Qed.

Lemma multisig_form pol script ins m n keys :
  instrs script = Some ins -> multisig_instrs ins m n keys -> 1 <= m <= n -> zlen keys = n ->
  standard_form pol script TX_MULTISIG ([m] :: keys ++ [[n]]).
Proof.
  intros Hi (opm & opn & dm & dn & pushes & -> & Hm & Hn & -> & Hp) Hmn Hk.
  pose proof (instrs_smallint _ _ Hi) as Hs. apply Forall_cons in Hs as [Hdm Hs].
  apply Forall_app in Hs as [_ [Hdn _]%Forall_cons]. cbn in Hdm, Hdn.
  rewrite Hdm in Hi by (by eexists). rewrite Hdn in Hi by (by eexists).
  eapply form_multisig; try done. unfold zlen in *. by rewrite length_fmap in Hk.
Qed.

Lemma Solver_sound pol script t sols :
  zlen script < 2 ^ 32 -> Solver pol script [] = Some (true, t, sols) -> standard_form pol script t sols.
Proof.
  intros Hs. destruct (instrs script) as [ins|] eqn:Hi; [|by rewrite scan_truncated].
  unfold Solver. destruct (IsPayToScriptHash script) eqn:Ep.
  { apply IsPayToScriptHash_form in Ep as (h & -> & Hh). rewrite p2sh_hash by done.
    intros [= <- <-]. by apply form_scripthash. }
  rewrite (scan_templates_spec _ _ _ Hi).
  destruct (match_instrs _ _ [OP_PUBKEY; _] _) as [r|] eqn:E1.
  { apply pubkey_template in E1 as (op & key & -> & Hk & ->). intros [= <- <-]. by eapply form_pubkey. }
  destruct (match_instrs _ _ [OP_DUP; _; _; _; _] _) as [r|] eqn:E2.
  { apply pubkeyhash_template in E2 as (op & h & -> & Hk & ->). intros [= <- <-]. by eapply form_pubkeyhash. }
  destruct (match_loop 4 _ _ _ _ _) as [r|] eqn:E3.
  { apply (multisig_template _ _ _ _ Hi) in E3 as (m & n & keys & Hms & ->).
    cbn [head]. rewrite app_comm_cons, last_snoc. rewrite <- app_comm_cons.
    pose proof (multisig_keys_short _ _ _ _ _ Hs Hi Hms).
    assert (0 <= m <= 16 /\ 0 <= n <= 16) as [Hm Hn]
      by (destruct Hms as (?&?&?&?&?&_&Hm&Hn&_); by split; eapply DecodeOP_N_bounds).
    intros [= Hc <- <-]. apply multisig_checks in Hc as [Hmn Hk]; [|done..]. by eapply multisig_form. }
  destruct (datacarrier pol) eqn:Ed.
  - destruct (match_instrs _ _ [OP_RETURN; _] _) as [r|] eqn:E4.
    + apply carrier_template in E4 as (op & d & -> & Hk & ->). intros [= <- <-]. by eapply form_null_data_carrier.
    + destruct (match_instrs _ _ [OP_RETURN] _) as [r|] eqn:E5; [|done].
      apply null_template in E5 as [-> ->]. intros [= <- <-]. by apply form_null_data.
  - destruct (match_instrs _ _ [OP_RETURN] _) as [r|] eqn:E5; [|done].
    apply null_template in E5 as [-> ->]. intros [= <- <-]. by apply form_null_data.
Qed.

(** Which templates cannot match the instructions of another form. *)
Lemma multisig_not_short pol script ins r :
  instrs script = Some ins -> (length ins < 3)%nat ->
  match_loop 4 pol script script [OP_SMALLINTEGER; OP_PUBKEYS; OP_SMALLINTEGER; OP_CHECKMULTISIG] [] <> Some r.
Proof.
  intros Hi Hl E. apply (multisig_template _ _ _ _ Hi) in E as (?&?&?&(?&?&?&?&?&->&_)&_).
  cbn in Hl. rewrite length_app in Hl. cbn in Hl. lia.
Qed.

Lemma pubkey_only pol op key ins r :
  match_instrs pol ((op, key) :: ins) [OP_PUBKEY; OP_CHECKSIG] [] = Some r -> ins = [(OP_CHECKSIG, [])].
Proof. intros (?&?&E&_)%pubkey_template. by simplify_eq. Qed.

Lemma pubkeyhash_only pol op d ins r :
  match_instrs pol ((op, d) :: ins) [OP_DUP; OP_HASH160; OP_PUBKEYHASH; OP_EQUALVERIFY; OP_CHECKSIG] [] = Some r ->
  op = OP_DUP.
Proof. intros (?&?&E&_)%pubkeyhash_template. by simplify_eq. Qed.

Lemma Solver_complete_p2sh pol script t sols :
  IsPayToScriptHash script = true -> standard_form pol script t sols -> Solver pol script [] = Some (true, t, sols).
Proof.
  intros Ep Hf. unfold Solver. rewrite Ep. apply IsPayToScriptHash_form in Ep as (h & -> & Hh).
  rewrite p2sh_hash by done. pose proof (p2sh_instrs h Hh) as Hi.
  destruct Hf as [op key E|op k E|h' E Hh'|opm opn m n pushes E|E|op d _ E]; try (rewrite Hi in E; simplify_eq).
  apply (app_inv_head [OP_HASH160; 20]), app_inj_tail in E as [-> _]. done.
Qed.

Lemma Solver_complete pol script t sols :
  zlen script < 2 ^ 32 -> standard_form pol script t sols -> Solver pol script [] = Some (true, t, sols).
Proof.
  intros Hs Hf. destruct (IsPayToScriptHash script) eqn:Ep; [by apply Solver_complete_p2sh|].
  unfold Solver. rewrite Ep.
  destruct Hf as [op key E Hk|op h E Hh|h E Hh|opm opn m n pushes E Hm Hn Hmn Hp Hk|E|op d Hd E Hl].
  - rewrite (scan_templates_spec _ _ _ E).
    by rewrite (proj2 (pubkey_template pol _ [key])) by (by eexists _, _).
  - rewrite (scan_templates_spec _ _ _ E).
    destruct (match_instrs _ _ [OP_PUBKEY; _] _) eqn:E1; [by apply pubkey_only in E1|].
    by rewrite (proj2 (pubkeyhash_template pol _ [h])) by (by eexists _, _).
  - assert (IsPayToScriptHash script = true); [|congruence]. apply IsPayToScriptHash_form. by exists h.
  - assert (multisig_instrs ((opm, []) :: pushes ++ [(opn, []); (OP_CHECKMULTISIG, [])]) m n pushes.*2) as Hms
      by (by exists opm, opn, [], [], pushes).
    rewrite (scan_templates_spec _ _ _ E).
    destruct (match_instrs _ _ [OP_PUBKEY; _] _) eqn:E1.
    { apply pubkey_only in E1. by destruct pushes as [|? [|? ?]]. }
    destruct (match_instrs _ _ [OP_DUP; _; _; _; _] _) eqn:E2.
    { apply pubkeyhash_only in E2. by rewrite E2 in Hm. }
    rewrite (proj2 (multisig_template pol _ _ ([m] :: pushes.*2 ++ [[n]]) E)) by (by exists m, n, pushes.*2).
    cbn [head]. rewrite app_comm_cons, last_snoc, <- app_comm_cons.
    rewrite (proj2 (multisig_checks m n pushes.*2 ltac:(by eapply DecodeOP_N_bounds) ltac:(by eapply DecodeOP_N_bounds)
      ltac:(by eapply multisig_keys_short))); [done|].
    split; [done|]. unfold zlen in *. by rewrite length_fmap.
  - rewrite (scan_templates_spec _ _ _ E).
    destruct (match_instrs _ _ [OP_PUBKEY; _] _) eqn:E1; [by apply pubkey_only in E1|].
    destruct (match_instrs _ _ [OP_DUP; _; _; _; _] _) eqn:E2; [by apply pubkeyhash_only in E2|].
    destruct (match_loop 4 _ _ _ _ _) eqn:E3; [by apply (multisig_not_short _ _ _ _ E) in E3; [|cbn; lia]|].
    rewrite (proj2 (null_template pol _ [])) by done.
    destruct (datacarrier pol); [|done].
    destruct (match_instrs _ _ [OP_RETURN; _] _) as [r|] eqn:E4; [|done].
    by apply carrier_template in E4 as (?&?&?&_&->).
  - rewrite (scan_templates_spec _ _ _ E).
    destruct (match_instrs _ _ [OP_PUBKEY; _] _) eqn:E1.
    { apply pubkey_template in E1 as (?&k&?&Hz&_). simplify_eq. rewrite zlen_nil in Hz. lia. }
    destruct (match_instrs _ _ [OP_DUP; _; _; _; _] _) eqn:E2; [by apply pubkeyhash_only in E2|].
    destruct (match_loop 4 _ _ _ _ _) eqn:E3; [by apply (multisig_not_short _ _ _ _ E) in E3; [|cbn; lia]|].
    rewrite Hd. by rewrite (proj2 (carrier_template pol _ [])) by (by eexists _, _).
Qed.

Lemma Solver_total pol script : is_Some (Solver pol script []).
Proof.
  unfold Solver. destruct (IsPayToScriptHash script); [by eexists|].
  destruct (instrs script) as [ins|] eqn:Hi.
  - rewrite (scan_templates_spec _ _ _ Hi).
    destruct (match_loop 4 _ _ _ _ _) as [r|] eqn:E3; [|repeat case_match; by eexists].
    apply (multisig_template _ _ _ _ Hi) in E3 as (m & n & keys & Hms & ->).
    cbn [head]. rewrite app_comm_cons, last_snoc. repeat case_match; by eexists.
  - pose proof (scan_truncated pol script Hi) as E. unfold Solver in E. case_match; [done|]. rewrite E. by eexists.
Qed.

(** C3. [Solver] never reads outside its solutions, and recognises exactly the standard
    forms: it succeeds with a type and solutions if and only if the script has that form (in
    particular, at most one form applies), whatever opcodes the pushes were written with. *)
Theorem Solver_correct pol script :
  zlen script < 2 ^ 32 ->
  is_Some (Solver pol script []) /\
  forall t sols, Solver pol script [] = Some (true, t, sols) <-> standard_form pol script t sols.
Proof.
  intros Hs. split; [apply Solver_total|]. intros t sols.
  split; [by apply Solver_sound|by apply Solver_complete].
Qed.

(** ** Scripts built for destinations *)

Ltac zlen_lia := unfold zlen in *; cbn [length app] in *; rewrite ?length_app in *; cbn [length] in *; lia.

Lemma instrs_op o rest : OP_PUSHDATA4 < o -> instrs (o :: rest) = cons (o, []) <$> instrs rest.
Proof.
  intros Ho. rewrite instrs_unfold by done. cbn [GetOp2].
  by destruct (Z.leb_spec o OP_PUSHDATA4); [lia|].
Qed.

Lemma instrs_push b rest :
  zlen b + zlen rest < 2 ^ 32 -> instrs (push_data [] b ++ rest) = cons (push_opcode_of b, b) <$> instrs rest.
Proof.
  intros Hl. rewrite instrs_unfold.
  - by rewrite GetOp2_push_data.
  - unfold push_data. by repeat case_if.
Qed.

Lemma push_op_byte script o : 0 <= o <= 255 -> push_op script o = script ++ [o].
Proof.
  intros Ho. unfold push_op, push_opcode. rewrite Z.gtb_ltb.
  by destruct (Z.ltb_spec o 0), (Z.ltb_spec 255 o); try lia.
Qed.

Lemma script_for_key h :
  GetScriptForDestination (CKeyID h) =
    OP_DUP :: OP_HASH160 :: push_data [] h ++ [OP_EQUALVERIFY; OP_CHECKSIG].
Proof.
  cbn [GetScriptForDestination]. rewrite !push_op_byte by (vm_compute; split; discriminate).
  rewrite push_data_app, <- !app_assoc. done.
Qed.

Lemma script_for_script h :
  GetScriptForDestination (CScriptID h) = OP_HASH160 :: push_data [] h ++ [OP_EQUAL].
Proof.
  cbn [GetScriptForDestination]. rewrite !push_op_byte by (vm_compute; split; discriminate).
  rewrite push_data_app, <- !app_assoc. done.
Qed.

Lemma push_20 h : zlen h = 20 -> push_data [] h = 20 :: h.
Proof. intros Hh. unfold push_data. by rewrite Hh. Qed.

(** A destination that carries an address. *)
Definition dest_ok (d : CTxDestination) : Prop :=
  match d with CNoDestination => False | CKeyID h | CScriptID h => zlen h = 20 end.

Definition dest_type (d : CTxDestination) : txnouttype :=
  match d with CNoDestination => TX_NONSTANDARD | CKeyID _ => TX_PUBKEYHASH | CScriptID _ => TX_SCRIPTHASH end.

Definition dest_hash (d : CTxDestination) : bytes :=
  match d with CNoDestination => [] | CKeyID h | CScriptID h => h end.

Lemma dest_form pol d :
  dest_ok d -> standard_form pol (GetScriptForDestination d) (dest_type d) [dest_hash d] /\
    zlen (GetScriptForDestination d) < 2 ^ 32.
Proof.
  destruct d as [|h|h]; [done|..]; cbn [dest_ok dest_type dest_hash]; intros Hh.
  - rewrite script_for_key. split.
    + eapply form_pubkeyhash; [|done]. rewrite !instrs_op by done. rewrite instrs_push by (rewrite Hh; done). done.
    + rewrite push_20 by done. zlen_lia.
  - rewrite script_for_script, push_20 by done. split; [by apply form_scripthash|].
    zlen_lia.
Qed.

Lemma key_address h :
  zlen h = 20 -> GetType (GetScriptForDestination (CKeyID h)) = P2PKH /\
    AddressHash (GetScriptForDestination (CKeyID h)) = h.
Proof.
  intros Hh. rewrite script_for_key, push_20 by done. cbn [app].
  assert (IsPayToPublicKeyHash (OP_DUP :: OP_HASH160 :: 20 :: h ++ [OP_EQUALVERIFY; OP_CHECKSIG]) = true) as E.
  { unfold IsPayToPublicKeyHash.
    replace (zlen (OP_DUP :: OP_HASH160 :: 20 :: h ++ [OP_EQUALVERIFY; OP_CHECKSIG])) with 25
      by zlen_lia.
    unfold byte_is, zlen in *. set (l := h ++ [OP_EQUALVERIFY; OP_CHECKSIG]).
    change ((OP_DUP :: OP_HASH160 :: 20 :: l) !! 23%nat) with (l !! 20%nat).
    change ((OP_DUP :: OP_HASH160 :: 20 :: l) !! 24%nat) with (l !! 21%nat). unfold l.
    rewrite !(lookup_app_r h) by lia. replace (20 - length h)%nat with 0%nat by lia.
    by replace (21 - length h)%nat with 1%nat by lia. }
  unfold GetType, AddressHash. rewrite E. cbn [orb negb]. split; [done|].
  unfold uint160_SIZE. destruct (Z.ltb_spec (zlen (OP_DUP :: OP_HASH160 :: 20 :: h ++ [OP_EQUALVERIFY; OP_CHECKSIG])) (20 + 3));
    [zlen_lia|]. change (Z.to_nat 3) with 3%nat. cbn [drop].
  apply take_app_length'. unfold zlen in Hh. lia.
Qed.

Lemma script_address h :
  zlen h = 20 -> GetType (GetScriptForDestination (CScriptID h)) = P2SH /\
    AddressHash (GetScriptForDestination (CScriptID h)) = h.
Proof.
  intros Hh. rewrite script_for_script, push_20 by done. cbn [app].
  assert (IsPayToScriptHash (OP_HASH160 :: 20 :: h ++ [OP_EQUAL]) = true) as E
    by (apply IsPayToScriptHash_form; by exists h).
  assert (IsPayToPublicKeyHash (OP_HASH160 :: 20 :: h ++ [OP_EQUAL]) = false) as E'.
  { unfold IsPayToPublicKeyHash. destruct (Z.eqb_spec (zlen (OP_HASH160 :: 20 :: h ++ [OP_EQUAL])) 25); [zlen_lia|done]. }
  unfold GetType, AddressHash. rewrite E, E'. cbn [orb negb]. split; [done|].
  unfold uint160_SIZE. destruct (Z.ltb_spec (zlen (OP_HASH160 :: 20 :: h ++ [OP_EQUAL])) (20 + 2));
    [zlen_lia|]. change (Z.to_nat 2) with 2%nat. cbn [drop].
  apply take_app_length'. unfold zlen in Hh. lia.
Qed.

(** Addresses survive the way through scripts: the script built for a destination is
    standard, extracting its destination gives the destination back, and so does the address
    index, which stores the type and the hash it reads from the script. *)
Theorem destination_roundtrip `{Crypto} pol d :
  dest_ok d ->
  let script := GetScriptForDestination d in
  ExtractDestination pol script = Some (Some d, dest_type d) /\
  ExtractDestinations pol script = Some (true, dest_type d, [d], Some 1) /\
  IsStandard pol script = Some (true, dest_type d) /\
  DestFromAddressHash (GetType script) (AddressHash script) = d /\
  GetTxDestinationHash d = (Some (AddressHash script), GetType script).
Proof.
  intros Hd script. destruct (dest_form pol d Hd) as [Hf Hl].
  pose proof (Solver_complete _ _ _ _ Hl Hf) as E. fold script in E.
  assert (ExtractDestination pol script = Some (Some d, dest_type d)) as Ex.
  { unfold ExtractDestination. rewrite E. destruct d as [|h|h]; [done|..]; cbn in Hd |- *; unfold uint160_of;
      by rewrite Hd. }
  split; [done|]. split.
  { unfold ExtractDestinations. rewrite E. bind_simpl. rewrite Ex. by destruct d. }
  split; [unfold IsStandard; rewrite E; by destruct d|].
  destruct d as [|h|h]; [done|..]; subst script; cbn [dest_ok] in Hd.
  - destruct (key_address h Hd) as [-> ->]. done.
  - destruct (script_address h Hd) as [-> ->]. done.
Qed.

(** *** Multisig scripts *)

Lemma foldl_push_data script keys : foldl push_data script keys = script ++ push_script keys.
Proof.
  unfold push_script. revert script. induction keys as [|k keys IH]; intros script; cbn [foldl]; [by rewrite app_nil_r|].
  rewrite IH, (IH (push_data [] k)), (push_data_app script k), <- app_assoc. done.
Qed.

Lemma instrs_push_script keys rest :
  zlen (push_script keys) + zlen rest < 2 ^ 32 ->
  instrs (push_script keys ++ rest) = app ((fun k => (push_opcode_of k, k)) <$> keys) <$> instrs rest.
Proof.
  induction keys as [|k keys IH]; intros Hl; cbn [fmap list_fmap].
  - change (push_script [] ++ rest) with rest. by destruct (instrs rest).
  - rewrite push_script_cons in Hl |- *. rewrite zlen_app in Hl. pose proof (push_data_length k).
    pose proof (zlen_nonneg (push_script keys)). pose proof (zlen_nonneg k).
    rewrite <- app_assoc, instrs_push by (rewrite zlen_app; lia). rewrite IH by lia. by destruct (instrs rest).
Qed.

Lemma Encode_Decode n :
  1 <= n <= 16 -> exists op, EncodeOP_N n = Some op /\ OP_PUSHDATA4 < op <= 255 /\ DecodeOP_N op = Some n.
Proof.
  intros Hn. unfold EncodeOP_N, DecodeOP_N, OP_0, OP_1, OP_16, OP_PUSHDATA4.
  exists (0x51 + n - 1). repeat case_if; zbool; try lia. split; [done|]. split; [lia|]. f_equal. lia.
Qed.

Lemma pubkey_set_length k k' : pubkey_set k = Some k' -> k' = k /\ (zlen k = 33 \/ zlen k = 65).
Proof.
  unfold pubkey_set. intros E. case_if_in E; [|done]. simplify_eq. zbool. split; [done|].
  destruct k' as [|b k']; [lia|]. unfold GetLen, COMPRESSED_PUBLIC_KEY_SIZE, PUBLIC_KEY_SIZE in *.
  repeat match goal with E : context [if ?c then _ else _] |- _ => destruct c end; lia.
Qed.

Lemma push_script_length keys :
  Forall (fun k => zlen k <= 65) keys -> zlen (push_script keys) <= 66 * zlen keys.
Proof.
  induction 1 as [|k keys Hk Hf IH]; [by vm_compute|]. rewrite push_script_cons, zlen_app, zlen_cons.
  assert (zlen (push_data [] k) = 1 + zlen k); [|lia].
  unfold push_data. unfold OP_PUSHDATA1. destruct (Z.ltb_spec (zlen k) 0x4c); [|lia].
  by cbn [app]; rewrite zlen_cons.
Qed.

Lemma multisig_script_form pol m keys :
  1 <= m <= zlen keys -> zlen keys <= 16 -> Forall (fun k => pubkey_set k = Some k) keys ->
  exists script, GetScriptForMultisig m keys = Some script /\ zlen script < 2 ^ 32 /\
    standard_form pol script TX_MULTISIG ([m] :: keys ++ [[zlen keys]]).
Proof.
  intros Hm Hn Hk.
  assert (Forall (fun k => 33 <= zlen k <= 65) keys) as Hk'.
  { eapply Forall_impl; [exact Hk|]. intros k [_ Hl]%pubkey_set_length. lia. }
  assert (zlen (push_script keys) <= 66 * zlen keys) as Hl.
  { apply push_script_length. eapply Forall_impl; [exact Hk'|]. cbn. intros; lia. }
  destruct (Encode_Decode m) as (opm & Em & Hom & Dm); [lia|].
  destruct (Encode_Decode (zlen keys)) as (opn & En & Hon & Dn); [lia|].
  unfold GetScriptForMultisig. rewrite Em. bind_simpl. rewrite s32_id, En by (unfold INT32_MIN, INT32_MAX; lia).
  bind_simpl. rewrite !push_op_byte by (unfold OP_PUSHDATA4 in *; lia || done).
  rewrite foldl_push_data, <- !app_assoc. cbn [app].
  eexists. split; [done|]. split; [rewrite zlen_cons, zlen_app, zlen_cons, zlen_sing; lia|].
  replace keys with (((fun k => (push_opcode_of k, k)) <$> keys).*2) at 2
    by (rewrite <- list_fmap_compose; apply list_fmap_id).
  eapply form_multisig; try done.
  - rewrite instrs_op, instrs_push_script by (done || lia || (rewrite zlen_cons, zlen_sing; lia)).
    rewrite !instrs_op by (done || lia). done.
  - unfold zlen. by rewrite length_fmap.
  - rewrite Forall_fmap. exact Hk'.
Qed.

(** A script built for m-of-n keys pays to exactly these keys: extraction returns the
    addresses of the keys in order and the number of signatures, the script needs m + 1
    inputs, and it is relayed as standard exactly up to three keys. *)
Theorem multisig_roundtrip `{Crypto} pol m keys :
  1 <= m <= zlen keys -> zlen keys <= 16 -> Forall (fun k => pubkey_set k = Some k) keys ->
  exists script, GetScriptForMultisig m keys = Some script /\
    ExtractDestinations pol script = Some (true, TX_MULTISIG, GetID <$> keys, Some m) /\
    IsStandard pol script = Some (zlen keys <=? 3, TX_MULTISIG) /\
    exists sols, Solver pol script [] = Some (true, TX_MULTISIG, sols) /\
      ScriptSigArgsExpected TX_MULTISIG sols = m + 1.
Proof.
  intros Hm Hn Hk. destruct (multisig_script_form pol m keys Hm Hn Hk) as (script & Es & Hl & Hf).
  exists script. split; [done|]. pose proof (Solver_complete _ _ _ _ Hl Hf) as E.
  split; [|split; [|by eexists]].
  - unfold ExtractDestinations. rewrite E. bind_simpl. cbn [negb].
    rewrite decide_False, decide_True by done.
    replace (length ([m] :: keys ++ [[zlen keys]]) - 2)%nat with (length keys)
      by (cbn; rewrite length_app; cbn; lia).
    rewrite take_app_length.
    assert (key_destinations keys = GetID <$> keys) as ->.
    { clear -Hk. induction Hk as [|k keys Ek Hk IH]; [done|].
      unfold key_destinations in *. cbn. by rewrite Ek, IH. }
    rewrite bool_decide_false; [done|]. destruct keys; [rewrite zlen_nil in Hm; lia|done].
  - unfold IsStandard. rewrite E. bind_simpl. cbn [negb]. rewrite decide_True by done.
    cbn [head]. rewrite app_comm_cons, last_snoc. rewrite !Z.gtb_ltb.
    destruct (Z.ltb_spec (zlen keys) 1), (Z.ltb_spec 3 (zlen keys)), (Z.ltb_spec m 1),
      (Z.ltb_spec (zlen keys) m), (Z.leb_spec (zlen keys) 3); try lia; done.
Qed.

(** ** Concrete scripts *)

From S2P Require Import InterpreterSafety.

Definition demo_policy : policy := {| datacarrier := true; nMaxDatacarrierBytes := MAX_OP_RETURN_RELAY |}.
Definition demo_key (b : Z) : bytes := 2 :: replicate 32 b.

(** A one-of-one script with the key pushed by OP_PUSHDATA1 instead of the short form. *)
Lemma Solver_correct_witness :
  Solver demo_policy ([OP_1; OP_PUSHDATA1; 33] ++ demo_key 7 ++ [OP_1; OP_CHECKMULTISIG]) [] =
    Some (true, TX_MULTISIG, [[1]; demo_key 7; [1]]) /\
  standard_form demo_policy ([OP_1; OP_PUSHDATA1; 33] ++ demo_key 7 ++ [OP_1; OP_CHECKMULTISIG])
    TX_MULTISIG [[1]; demo_key 7; [1]].
Proof.
  split; [vm_compute; reflexivity|].
  apply (Solver_correct demo_policy ([OP_1; OP_PUSHDATA1; 33] ++ demo_key 7 ++ [OP_1; OP_CHECKMULTISIG]));
    vm_compute; reflexivity.
Defined.

Lemma destination_roundtrip_witness :
  ExtractDestination demo_policy (GetScriptForDestination (CScriptID (replicate 20 9))) =
    Some (Some (CScriptID (replicate 20 9)), TX_SCRIPTHASH).
Proof.
  exact (proj1 (destination_roundtrip demo_policy (CScriptID (replicate 20 9)) eq_refl)).
Defined.

Lemma multisig_roundtrip_witness :
  exists script, GetScriptForMultisig 2 [demo_key 7; demo_key 8; demo_key 9] = Some script /\
    ExtractDestinations demo_policy script =
      Some (true, TX_MULTISIG, GetID <$> [demo_key 7; demo_key 8; demo_key 9], Some 2) /\
    IsStandard demo_policy script = Some (true, TX_MULTISIG).
Proof.
  destruct (multisig_roundtrip demo_policy 2 [demo_key 7; demo_key 8; demo_key 9]) as (script & E1 & E2 & E3 & _).
  - split; discriminate.
  - discriminate.
  - repeat constructor.
  - exists script. split; [exact E1|]. split; [exact E2|exact E3].
Defined.
