(* ===== verification/Coins.v ===== *)
(** * Unspent outputs of a transaction

    [CCoins] of [coins.h] and [coins.cpp]: the outputs of a transaction with the spent ones
    cleared, the operations on them and their serialization in the coin database. *)

From S2P Require Import Prelude Script Serialize Compressor.

(** ** Outputs *)

#[export] Instance CTxOut_eq_dec : EqDecision CTxOut.
Proof. solve_decision. Defined.

(** [CTxOut::Clear], also the default constructor, and [CTxOut::IsNull] *)
Definition null_txout : CTxOut := {| nValue := -1; scriptPubKey := [] |}.
Definition IsNull (o : CTxOut) : bool := nValue o =? -1.

(** ** The operations of [CCoins] *)

Record CCoins := {
  fCoinBase : bool;
  vout : list CTxOut;
  nHeight : Z;
  nVersion : Z
}.

#[export] Instance CCoins_eq_dec : EqDecision CCoins.
Proof. solve_decision. Defined.

Definition with_vout (c : CCoins) (v : list CTxOut) : CCoins :=
  {| fCoinBase := fCoinBase c; vout := v; nHeight := nHeight c; nVersion := nVersion c |}.

(** The empty constructor and [Clear] *)
Definition coins_Clear : CCoins := {| fCoinBase := false; vout := []; nHeight := 0; nVersion := 0 |}.

(** [while (vout.size() > 0 && vout.back().IsNull()) vout.pop_back();] on the reversed vector *)
Fixpoint pop_nulls (r : list CTxOut) : list CTxOut :=
  match r with
  | [] => []
  | o :: r' => if IsNull o then pop_nulls r' else r
  end.

Definition Cleanup (c : CCoins) : CCoins := with_vout c (reverse (pop_nulls (reverse (vout c)))).

Definition ClearUnspendable (c : CCoins) : CCoins :=
  Cleanup (with_vout c
    ((fun txOut => if IsUnspendable (scriptPubKey txOut) then null_txout else txOut) <$> vout c)).

(** [FromTx], with what it takes from the transaction as arguments. *)
Definition FromTx (tx_IsCoinBase : bool) (tx_vout : list CTxOut) (tx_nVersion nHeightIn : Z) : CCoins :=
  ClearUnspendable
    {| fCoinBase := tx_IsCoinBase; vout := tx_vout; nHeight := nHeightIn; nVersion := tx_nVersion |}.

Definition Spend (c : CCoins) (nPos : Z) : bool * CCoins :=
  match znth (vout c) nPos with
  | None => (false, c)
  | Some o =>
      if IsNull o then (false, c)
      else (true, Cleanup (with_vout c (<[Z.to_nat nPos := null_txout]> (vout c))))
  end.

Definition IsAvailable (c : CCoins) (nPos : Z) : bool :=
  match znth (vout c) nPos with
  | None => false
  | Some o => negb (IsNull o)
  end.

Definition IsPruned (c : CCoins) : bool := forallb IsNull (vout c).

(** [operator==] *)
Definition coins_eqb (a b : CCoins) : bool :=
  if IsPruned a && IsPruned b then true
  else Bool.eqb (fCoinBase a) (fCoinBase b) && (nHeight a =? nHeight b)
       && (nVersion a =? nVersion b) && bool_decide (vout a = vout b).

(** ** Serialization *)

(** The loop of [CalcMaskSize] at byte [b], on the outputs from [2+b*8] on: the last used
    byte and the number of non-zero bytes. *)
Fixpoint mask_loop (fuel : nat) (v : list CTxOut) (b nLastUsedByte nNonzeroBytes : Z) : Z * Z :=
  match fuel, v with
  | S fuel, _ :: _ =>
      if forallb IsNull (take 8 v) then mask_loop fuel (drop 8 v) (u32 (b + 1)) nLastUsedByte nNonzeroBytes
      else mask_loop fuel (drop 8 v) (u32 (b + 1)) (u32 (b + 1)) (u32 (nNonzeroBytes + 1))
  | _, _ => (nLastUsedByte, nNonzeroBytes)
  end.

Definition CalcMaskSize (c : CCoins) : Z * Z := mask_loop (length (vout c)) (drop 2 (vout c)) 0 0 0.

(** The availability bits of up to eight outputs. *)
Fixpoint avail_loop (i : Z) (v : list CTxOut) (chAvail : Z) : Z :=
  match v with
  | [] => chAvail
  | o :: v => avail_loop (i + 1) v (if IsNull o then chAvail else Z.lor chAvail (Z.shiftl 1 i))
  end.

Definition avail_byte (c : CCoins) (b : nat) : Z := avail_loop 0 (take 8 (drop (2 + 8 * b) (vout c))) 0.

Section Serialization.
Context `{Secp256k1}.

Definition serialize_outs (s : bytes) (v : list CTxOut) : option bytes :=
  foldl (fun s o => s ← s; if IsNull o then Some s else txout_Serialize s o) (Some s) v.

(** [CCoins::Serialize]; [None] is a failed assertion. *)
Definition coins_Serialize (s : bytes) (c : CCoins) : option bytes :=
  let '(nMaskSize, nMaskCode) := CalcMaskSize c in
  let fFirst := IsAvailable c 0 in
  let fSecond := IsAvailable c 1 in
  if fFirst || fSecond || negb (nMaskCode =? 0) then
    let nCode := u32 (8 * (nMaskCode - (if fFirst || fSecond then 0 else 1))
                      + (if fCoinBase c then 1 else 0) + (if fFirst then 2 else 0) + (if fSecond then 4 else 0)) in
    let s := WriteVarInt 32 s (nVersion c) in
    let s := WriteVarInt 32 s nCode in
    let s := foldl (fun s b => ser_writedata8 s (avail_byte c b)) s (seq 0 (Z.to_nat nMaskSize)) in
    s ← serialize_outs s (vout c);
    Some (WriteVarInt 32 s (nHeight c))
  else None.

(** The loop [while (nMaskCode > 0)] reads a byte in every round. *)
Fixpoint avail_read (fuel : nat) (nMaskCode : Z) (vAvail : list bool) (inp : bytes)
  : res unser_fail (list bool * bytes) :=
  if nMaskCode >? 0 then
    match fuel with
    | O => Err (stream_failure end_of_data)
    | S fuel =>
        let? r := lift_io (ser_readdata8 inp) in
        let chAvail := r.1 in
        let vAvail := vAvail ++ ((fun p => negb (Z.land chAvail (Z.shiftl 1 p) =? 0)) <$> [0; 1; 2; 3; 4; 5; 6; 7]) in
        avail_read fuel (if negb (chAvail =? 0) then nMaskCode - 1 else nMaskCode) vAvail r.2
    end
  else Ok (vAvail, inp).

Fixpoint unserialize_outs (vAvail : list bool) (inp : bytes) : res unser_fail (list CTxOut * bytes) :=
  match vAvail with
  | [] => Ok ([], inp)
  | true :: vAvail =>
      let? r := txout_Unserialize inp in
      let? rest := unserialize_outs vAvail r.2 in
      Ok (r.1 :: rest.1, rest.2)
  | false :: vAvail =>
      let? rest := unserialize_outs vAvail inp in
      Ok (null_txout :: rest.1, rest.2)
  end.

(** [CCoins::Unserialize] *)
Definition coins_Unserialize (inp : bytes) : res unser_fail (CCoins * bytes) :=
  let? v := lift_io (ReadVarInt 32 inp) in
  let? c := lift_io (ReadVarInt 32 v.2) in
  let nCode := c.1 in
  let nMaskCode := u32 (nCode / 8 + (if negb (Z.land nCode 6 =? 0) then 0 else 1)) in
  let? a := avail_read (length c.2) nMaskCode
              [negb (Z.land nCode 2 =? 0); negb (Z.land nCode 4 =? 0)] c.2 in
  let? o := unserialize_outs a.1 a.2 in
  let? h := lift_io (ReadVarInt 32 o.2) in
  Ok (Cleanup {| fCoinBase := negb (Z.land nCode 1 =? 0); vout := o.1;
                 nHeight := s32 h.1; nVersion := s32 v.1 |}, h.2).

End Serialization.

(** ** Cleaned vectors *)

(** The vector is empty or ends in an output that is not null. *)
Definition clean (v : list CTxOut) : Prop := forall o, last v = Some o -> IsNull o = false.

Lemma pop_nulls_app r :
  exists nulls, r = nulls ++ pop_nulls r /\ forallb IsNull nulls = true /\
    forall o, head (pop_nulls r) = Some o -> IsNull o = false.
Proof.
  induction r as [|o r (nulls & E & Hn & Hh)]; [by exists []|]. cbn.
  destruct (IsNull o) eqn:Eo.
  - exists (o :: nulls). cbn. rewrite Eo. split; [by f_equal|]. by split.
  - exists []. split; [done|]. split; [done|]. cbn. by intros ? [= <-].
Qed.

(** [Cleanup] removes a tail of null outputs and nothing else. *)
Lemma Cleanup_split c :
  exists nulls, vout c = vout (Cleanup c) ++ nulls /\ forallb IsNull nulls = true /\ clean (vout (Cleanup c)).
Proof.
  destruct (pop_nulls_app (reverse (vout c))) as (nulls & E & Hn & Hh).
  exists (reverse nulls). cbn [vout Cleanup with_vout]. split; [|split].
  - by rewrite <- reverse_app, <- E, reverse_involutive.
  - apply forallb_forall. intros o Ho. rewrite forallb_forall in Hn. apply Hn.
    by rewrite <- list_elem_of_In, elem_of_reverse, list_elem_of_In in Ho.
  - intros o Ho. rewrite last_reverse in Ho. by apply Hh.
Qed.

Lemma pop_nulls_clean r : (forall o, head r = Some o -> IsNull o = false) -> pop_nulls r = r.
Proof. destruct r as [|o r]; [done|]. intros Hh. cbn. by rewrite (Hh o). Qed.

Lemma pop_nulls_nulls nulls r : forallb IsNull nulls = true -> pop_nulls (nulls ++ r) = pop_nulls r.
Proof. induction nulls as [|o nulls IH]; [done|]. cbn. intros [Ho Hn]%andb_prop. rewrite Ho. by apply IH. Qed.

(** Cleaning a clean vector followed by null outputs. *)
Lemma Cleanup_nulls c v nulls :
  vout c = v ++ nulls -> forallb IsNull nulls = true -> clean v -> Cleanup c = with_vout c v.
Proof.
  intros E Hn Hc. unfold Cleanup. f_equal. rewrite E, reverse_app, pop_nulls_nulls.
  - rewrite pop_nulls_clean; [by rewrite reverse_involutive|]. intros o. rewrite head_reverse. apply Hc.
  - apply forallb_forall. intros o Ho. rewrite forallb_forall in Hn. apply Hn.
    by rewrite <- list_elem_of_In, elem_of_reverse, list_elem_of_In in Ho.
Qed.

(** What a position of the vector holds: the output, if it is there and unspent. *)
Definition unspent (c : CCoins) (i : nat) : option CTxOut :=
  o ← vout c !! i; if IsNull o then None else Some o.

Lemma unspent_Cleanup c i : unspent (Cleanup c) i = unspent c i.
Proof.
  destruct (Cleanup_split c) as (nulls & E & Hn & _). unfold unspent. rewrite E.
  destruct (decide (i < length (vout (Cleanup c)))%nat) as [Hi|Hi]; [by rewrite lookup_app_l|].
  rewrite (lookup_ge_None_2 (vout (Cleanup c))), lookup_app_r by lia. cbn.
  destruct (nulls !! _) as [o|] eqn:Eo; [|done]. cbn.
  rewrite forallb_forall in Hn. rewrite Hn; [done|]. apply list_elem_of_In. by eapply list_elem_of_lookup_2.
Qed.

Lemma IsAvailable_unspent c (i : nat) : IsAvailable c (Z.of_nat i) = bool_decide (is_Some (unspent c i)).
Proof.
  unfold IsAvailable, unspent. rewrite znth_lookup. destruct (vout c !! i) as [o|]; cbn; [|done].
  by destruct (IsNull o).
Qed.

Lemma unspent_with_vout c v i : unspent (with_vout c v) i = (o ← v !! i; if IsNull o then None else Some o).
Proof. done. Qed.

Lemma IsPruned_unspent c : IsPruned c = true <-> forall i, unspent c i = None.
Proof.
  unfold IsPruned, unspent. rewrite forallb_forall. split.
  - intros Hn i. destruct (vout c !! i) as [o|] eqn:E; [|done]. cbn.
    rewrite Hn; [done|]. apply list_elem_of_In. by eapply list_elem_of_lookup_2.
  - intros Hn o Ho. apply list_elem_of_In, list_elem_of_lookup in Ho as [i Hi].
    specialize (Hn i). rewrite Hi in Hn. cbn in Hn. by destruct (IsNull o).
Qed.

Lemma clean_pruned c : clean (vout c) -> IsPruned c = true -> vout c = [].
Proof.
  intros Hc Hp. destruct (last (vout c)) as [o|] eqn:E; [|by apply last_None in E].
  unfold IsPruned in Hp. rewrite forallb_forall in Hp.
  pose proof (Hc o E) as Ho. rewrite Hp in Ho; [done|].
  apply last_Some in E as [l' ->]. apply in_or_app. right. by left.
Qed.

(** A new entry holds exactly the spendable outputs of the transaction, and is clean. *)
Lemma FromTx_unspent cb v ver h i :
  Forall (fun o => IsNull o = false) v ->
  unspent (FromTx cb v ver h) i = (o ← v !! i; if IsUnspendable (scriptPubKey o) then None else Some o) /\
  clean (vout (FromTx cb v ver h)).
Proof.
  intros Hv. split.
  - unfold FromTx, ClearUnspendable. rewrite unspent_Cleanup, unspent_with_vout. cbn [vout]. rewrite list_lookup_fmap.
    destruct (v !! i) as [o|] eqn:E; [|done]. cbn. pose proof (Forall_lookup_1 _ _ _ _ Hv E) as Ho. cbn in Ho.
    destruct (IsUnspendable (scriptPubKey o)); [done|]. by rewrite Ho.
  - unfold FromTx, ClearUnspendable.
    edestruct Cleanup_split as (nulls & _ & _ & Hc); exact Hc.
Qed.

(** The life of an entry: creation keeps exactly the spendable outputs; spending an
    available output succeeds and removes that output and no other, spending anything else
    fails and changes nothing; the vector never ends in a spent output, so that the entry is
    fully spent exactly when the vector is empty. *)
Theorem coins_lifecycle cb v ver h c n :
  Forall (fun o => IsNull o = false) v -> clean (vout c) ->
  (forall i, unspent (FromTx cb v ver h) i =
     (o ← v !! i; if IsUnspendable (scriptPubKey o) then None else Some o)) /\
  clean (vout (FromTx cb v ver h)) /\
  (Spend c (Z.of_nat n)).1 = IsAvailable c (Z.of_nat n) /\
  (IsAvailable c (Z.of_nat n) = false -> (Spend c (Z.of_nat n)).2 = c) /\
  (forall i, unspent (Spend c (Z.of_nat n)).2 i = if decide (i = n) then None else unspent c i) /\
  clean (vout (Spend c (Z.of_nat n)).2) /\
  (IsPruned c = true <-> vout c = []).
Proof.
  intros Hv Hc. split; [intros i; by apply FromTx_unspent|]. split; [by apply (FromTx_unspent cb v ver h 0)|].
  unfold Spend, IsAvailable. rewrite znth_lookup.
  assert (IsPruned c = true <-> vout c = []) as Hp.
  { split; [by apply clean_pruned|]. unfold IsPruned. by intros ->. }
  destruct (vout c !! n) as [o|] eqn:E; [destruct (IsNull o) eqn:Eo|]; cbn [fst snd negb].
  - split; [done|]. split; [done|]. split; [|done]. intros i.
    case_decide as Hi; [|done]. subst. unfold unspent. rewrite E. cbn. by rewrite Eo.
  - split; [done|]. split; [done|]. split; [|split; [|done]].
    + intros i. rewrite unspent_Cleanup, unspent_with_vout, Nat2Z.id. case_decide as Hi.
      * subst. rewrite list_lookup_insert_eq by (by eapply lookup_lt_Some). done.
      * by rewrite list_lookup_insert_ne.
    + edestruct Cleanup_split as (nulls & _ & _ & Hc'); exact Hc'.
  - split; [done|]. split; [done|]. split; [|done]. intros i.
    case_decide as Hi; [|done]. subst. unfold unspent. by rewrite E.
Qed.

(** ** The availability mask *)

(** Groups of eight outputs. *)
Fixpoint chunks8 (fuel : nat) (v : list CTxOut) : list (list CTxOut) :=
  match fuel, v with
  | S fuel, _ :: _ => take 8 v :: chunks8 fuel (drop 8 v)
  | _, _ => []
  end.

Definition has_unspent (ch : list CTxOut) : bool := negb (forallb IsNull ch).
Definition count_unspent (chs : list (list CTxOut)) : Z := zlen (List.filter has_unspent chs).
Definition chunk_byte (ch : list CTxOut) : Z := avail_loop 0 ch 0.
Definition avail (v : list CTxOut) : list bool := (fun o => negb (IsNull o)) <$> v.

(** Every group list here ends in a group with an unspent output. *)
Definition chunks_ok (chs : list (list CTxOut)) : Prop :=
  Forall (fun ch => (length ch <= 8)%nat) chs /\ forall ch, last chs = Some ch -> has_unspent ch = true.

Lemma clean_drop v n : clean v -> clean (drop n v).
Proof. intros Hc o Ho. apply Hc. by rewrite <- (take_drop n v), last_app, Ho. Qed.

Lemma clean_has_unspent v : clean v -> v <> [] -> has_unspent v = true.
Proof.
  intros Hc Hv. unfold has_unspent. destruct (forallb IsNull v) eqn:E; [|done].
  by apply (clean_pruned {| fCoinBase := false; vout := v; nHeight := 0; nVersion := 0 |}) in E.
Qed.

Lemma chunks8_ok fuel v : (length v <= fuel)%nat -> clean v -> chunks_ok (chunks8 fuel v).
Proof.
  revert v. induction fuel as [|fuel IH]; intros v Hf Hc; [by split|].
  destruct v as [|o v]; [by split|]. cbn [chunks8].
  destruct (IH (drop 8 (o :: v))) as [Hl Hu]; [rewrite length_drop; cbn in *; lia|by apply clean_drop|].
  split; [constructor; [rewrite length_take; lia|done]|]. intros ch.
  destruct (chunks8 fuel (drop 8 (o :: v))) as [|ch' chs] eqn:E; [|exact (Hu ch)].
  cbn. intros [= <-]. assert (drop 8 (o :: v) = []) as Ed.
  { destruct fuel; [cbn in Hf; destruct v; [done|cbn in Hf; lia]|]. by destruct (drop 8 (o :: v)). }
  change (o :: take 7 v) with (take 8 (o :: v)). rewrite <- (app_nil_r (take 8 _)), <- Ed, take_drop.
  by apply clean_has_unspent.
Qed.

Lemma mask_loop_spec fuel v b lastb nz :
  (length v <= fuel)%nat -> chunks_ok (chunks8 fuel v) ->
  0 <= b -> 0 <= nz -> b + zlen (chunks8 fuel v) < 2 ^ 32 -> nz + zlen (chunks8 fuel v) < 2 ^ 32 ->
  mask_loop fuel v b lastb nz =
    (match v with [] => lastb | _ => b + zlen (chunks8 fuel v) end, nz + count_unspent (chunks8 fuel v)).
Proof.
  revert v b lastb nz. induction fuel as [|fuel IH]; intros v b lastb nz Hf Hok Hb Hn Hlb Hln.
  { destruct v; [|cbn in Hf; lia]. cbn. f_equal. unfold count_unspent, zlen. cbn. lia. }
  destruct v as [|o v]; [cbn; f_equal; unfold count_unspent, zlen; cbn; lia|].
  cbn [mask_loop chunks8] in *. rewrite zlen_cons in *. pose proof (zlen_nonneg (chunks8 fuel (drop 8 (o :: v)))).
  assert (length (drop 8 (o :: v)) <= fuel)%nat as Hf' by (rewrite length_drop; cbn in *; lia).
  destruct Hok as [Hl Hu]. apply Forall_cons in Hl as [_ Hl].
  assert (chunks_ok (chunks8 fuel (drop 8 (o :: v)))) as Hok'.
  { split; [done|]. intros ch Hch. apply Hu. by destruct (chunks8 fuel (drop 8 (o :: v))). }
  rewrite !u32_id by lia. unfold count_unspent. cbn [List.filter]. unfold has_unspent at 1.
  destruct (forallb IsNull (take 8 (o :: v))) eqn:E; cbn [negb].
  - rewrite IH by (done || lia). unfold count_unspent.
    destruct (drop 8 (o :: v)) as [|o' v'] eqn:Ed; [|f_equal; lia].
    assert (has_unspent (take 8 (o :: v)) = true) as Hh by (apply Hu; by destruct fuel).
    unfold has_unspent in Hh. by rewrite E in Hh.
  - rewrite IH by (done || lia). unfold count_unspent. rewrite zlen_cons.
    destruct (drop 8 (o :: v)) as [|o' v'] eqn:Ed; [destruct fuel|]; cbn [chunks8] in *; f_equal; rewrite ?zlen_nil; lia.
Qed.

Lemma avail_loop_testbit i v acc p :
  0 <= i -> 0 <= p ->
  Z.testbit (avail_loop i v acc) p =
    Z.testbit acc p || ((i <=? p) && default false (avail v !! Z.to_nat (p - i))).
Proof.
  revert i acc. induction v as [|o v IH]; intros i acc Hi Hp.
  { cbn. by rewrite andb_false_r, orb_false_r. }
  cbn [avail_loop]. rewrite IH by lia. unfold avail. cbn [fmap list_fmap].
  assert (Z.testbit (if IsNull o then acc else Z.lor acc (Z.shiftl 1 i)) p =
    Z.testbit acc p || ((i =? p) && negb (IsNull o))) as ->.
  { destruct (IsNull o); cbn [negb]; [by rewrite andb_false_r, orb_false_r|].
    by rewrite Z.lor_spec, andb_true_r, Z.shiftl_1_l, Z.pow2_bits_eqb. }
  rewrite <- orb_assoc. f_equal. destruct (Z.eqb_spec i p) as [->|Hne].
  - rewrite Z.sub_diag. cbn. destruct (Z.leb_spec (p + 1) p), (Z.leb_spec p p); try lia.
    by rewrite orb_false_r.
  - destruct (Z.leb_spec i p), (Z.leb_spec (i + 1) p); try lia; try done. cbn [andb orb].
    replace (Z.to_nat (p - i)) with (S (Z.to_nat (p - (i + 1)))) by lia. done.
Qed.

(** The bits the reader extracts from a byte. *)
Definition byte_bits (chAvail : Z) : list bool :=
  (fun p => negb (Z.land chAvail (Z.shiftl 1 p) =? 0)) <$> [0; 1; 2; 3; 4; 5; 6; 7].

Lemma bit_test x p : 0 <= p -> negb (Z.land x (Z.shiftl 1 p) =? 0) = Z.testbit x p.
Proof.
  intros Hp. rewrite Z.shiftl_1_l. destruct (Z.eqb_spec (Z.land x (2 ^ p)) 0) as [E|E]; cbn [negb].
  - apply (f_equal (fun y => Z.testbit y p)) in E. rewrite Z.land_spec, Z.pow2_bits_true, Z.bits_0 in E by done.
    by rewrite andb_true_r in E.
  - destruct (Z.testbit x p) eqn:Ex; [done|]. exfalso. apply E. apply Z.bits_inj'. intros q Hq.
    rewrite Z.land_spec, Z.bits_0, Z.pow2_bits_eqb by done.
    destruct (Z.eqb_spec p q) as [->|]; [by rewrite Ex|by rewrite andb_false_r].
Qed.

Lemma byte_bits_chunk ch :
  (length ch <= 8)%nat -> byte_bits (chunk_byte ch) = avail ch ++ replicate (8 - length ch) false.
Proof.
  intros Hl. unfold byte_bits. apply list_eq_same_length with (n := 8%nat); [|done|].
  { rewrite length_app, length_replicate. unfold avail. rewrite length_fmap. lia. }
  intros i x y Hi Hx Hy. rewrite list_lookup_fmap in Hx.
  assert ([0; 1; 2; 3; 4; 5; 6; 7] !! i = Some (Z.of_nat i)) as Ei
    by (do 8 (destruct i as [|i]; [done|]); lia).
  rewrite Ei in Hx. cbn in Hx. injection Hx as <-. rewrite bit_test by lia.
  unfold chunk_byte. rewrite avail_loop_testbit by lia. rewrite Z.bits_0, Z.sub_0_r, Nat2Z.id.
  destruct (Z.leb_spec 0 (Z.of_nat i)); [|lia]. cbn [orb andb].
  destruct (decide (i < length ch)%nat) as [Hlt|Hge].
  - rewrite lookup_app_l in Hy by (unfold avail; by rewrite length_fmap). by rewrite Hy.
  - rewrite lookup_app_r in Hy by (unfold avail; rewrite length_fmap; lia).
    apply lookup_replicate in Hy as [-> _]. rewrite lookup_ge_None_2 by (unfold avail; rewrite length_fmap; lia). done.
Qed.

Lemma chunk_byte_range ch : (length ch <= 8)%nat -> 0 <= chunk_byte ch < 256.
Proof.
  intros Hl. assert (forall p, 8 <= p -> Z.testbit (chunk_byte ch) p = false) as Hb.
  { intros p Hp. unfold chunk_byte. rewrite avail_loop_testbit, Z.bits_0 by lia.
    rewrite (lookup_ge_None_2 (avail ch)) by (unfold avail; rewrite length_fmap; lia). by rewrite andb_false_r. }
  assert (forall i v acc, 0 <= i -> 0 <= acc -> 0 <= avail_loop i v acc) as Hnn.
  { intros i v. revert i. induction v as [|o v IH]; intros i acc Hi Ha; [done|]. cbn. apply IH; [lia|].
    destruct (IsNull o); [done|]. apply Z.lor_nonneg. split; [done|]. by apply Z.shiftl_nonneg. }
  pose proof (Hnn 0 ch 0 ltac:(lia) ltac:(lia)) as H0. fold (chunk_byte ch) in H0. split; [done|].
  destruct (decide (chunk_byte ch = 0)) as [->|Hne]; [lia|].
  change 256 with (2 ^ 8). apply Z.log2_lt_pow2; [lia|].
  destruct (Z.lt_ge_cases (Z.log2 (chunk_byte ch)) 8) as [|Hge]; [done|].
  pose proof (Z.bit_log2 (chunk_byte ch) ltac:(lia)) as Hbit. by rewrite Hb in Hbit.
Qed.

Lemma chunk_byte_zero ch : (length ch <= 8)%nat -> (chunk_byte ch =? 0) = negb (has_unspent ch).
Proof.
  intros Hl. unfold has_unspent. rewrite negb_involutive. apply eq_true_iff_eq. rewrite Z.eqb_eq. split.
  - intros E. apply forallb_forall. intros o Ho. apply list_elem_of_In, list_elem_of_lookup in Ho as [i Hi].
    pose proof (avail_loop_testbit 0 ch 0 (Z.of_nat i) ltac:(lia) ltac:(lia)) as Hb.
    fold (chunk_byte ch) in Hb. rewrite E, Z.bits_0, Z.sub_0_r, Nat2Z.id in Hb.
    unfold avail in Hb. rewrite list_lookup_fmap, Hi in Hb. cbn in Hb.
    destruct (Z.leb_spec 0 (Z.of_nat i)); [|lia]. by destruct (IsNull o).
  - intros Hn. apply Z.bits_inj'. intros p Hp. unfold chunk_byte. rewrite avail_loop_testbit, Z.bits_0 by lia.
    rewrite Z.sub_0_r. unfold avail. rewrite list_lookup_fmap.
    destruct (ch !! Z.to_nat p) as [o|] eqn:Eo; cbn; [|by rewrite andb_false_r].
    rewrite forallb_forall in Hn. rewrite Hn; [by rewrite andb_false_r|].
    apply list_elem_of_In. by eapply list_elem_of_lookup_2.
Qed.

Lemma avail_read_chunks fuel chs vA rest :
  chunks_ok chs -> (length chs <= fuel)%nat ->
  avail_read fuel (count_unspent chs) vA ((chunk_byte <$> chs) ++ rest) =
    Ok (vA ++ concat ((fun ch => byte_bits (chunk_byte ch)) <$> chs), rest).
Proof.
  revert fuel vA. induction chs as [|ch chs IH]; intros fuel vA [Hl Hu] Hf.
  { destruct fuel; cbn; by rewrite app_nil_r. }
  apply Forall_cons in Hl as [Hch Hl]. destruct fuel as [|fuel]; [cbn in Hf; lia|].
  assert (chunks_ok chs) as Hok'.
  { split; [done|]. intros ch' Hch'. apply Hu. by destruct chs. }
  assert (0 < count_unspent (ch :: chs)) as Hpos.
  { unfold count_unspent. destruct chs as [|ch' chs].
    - cbn. rewrite (Hu ch) by done. done.
    - destruct (last (ch' :: chs)) as [lc|] eqn:El; [|by apply last_None in El].
      pose proof (Hu lc El) as Hlc. apply last_Some in El as [l' El].
      rewrite El. unfold zlen. rewrite app_comm_cons, List.filter_app, length_app. cbn. rewrite Hlc. cbn. lia. }
  cbn [avail_read]. rewrite Z.gtb_ltb. destruct (Z.ltb_spec 0 (count_unspent (ch :: chs))); [|lia].
  cbn [fmap list_fmap app]. change (chunk_byte ch :: (chunk_byte <$> chs) ++ rest)
    with ([chunk_byte ch] ++ (chunk_byte <$> chs) ++ rest).
  unfold ser_readdata8. rewrite ser_readdata_app by done. cbn [lift_io res_bind fst snd].
  assert (le_val [chunk_byte ch] = chunk_byte ch) as -> by (cbn; lia).
  rewrite chunk_byte_zero, negb_involutive by done.
  assert ((if has_unspent ch then count_unspent (ch :: chs) - 1 else count_unspent (ch :: chs)) = count_unspent chs) as ->.
  { unfold count_unspent. cbn. destruct (has_unspent ch); rewrite ?zlen_cons; lia. }
  etrans; [apply IH; [done|cbn in Hf; lia]|]. cbn [concat]. unfold byte_bits at 2. by rewrite <- app_assoc.
Qed.

(** The groups of bits, concatenated, are the availability of the outputs with padding. *)
Lemma chunks_bits fuel v :
  (length v <= fuel)%nat ->
  exists k, concat ((fun ch => byte_bits (chunk_byte ch)) <$> chunks8 fuel v) = avail v ++ replicate k false.
Proof.
  revert v. induction fuel as [|fuel IH]; intros v Hf; [exists 0%nat; by destruct v; [|cbn in Hf; lia]|].
  destruct v as [|o v]; [by exists 0%nat|]. cbn [chunks8 fmap list_fmap concat].
  rewrite byte_bits_chunk by (rewrite length_take; lia).
  destruct (IH (drop 8 (o :: v))) as [k ->]; [rewrite length_drop; cbn in *; lia|].
  destruct (decide (length (o :: v) <= 8)%nat) as [Hs|Hs].
  - rewrite (drop_ge (o :: v)), take_ge by lia. cbn [avail fmap list_fmap app].
    exists (8 - length (o :: v) + k)%nat. by rewrite replicate_add, <- app_assoc.
  - rewrite length_take, Nat.min_l by lia. exists k. cbn [Nat.sub replicate]. rewrite app_nil_r.
    unfold avail. rewrite app_assoc, <- fmap_app. by rewrite take_drop.
Qed.

(** ** The round trip *)

Section CoinsRoundtrip.
Context `{Secp256k1Laws}.

(** Outputs the database can hold: cleared ones, and ones with a valid amount and size. *)
Definition out_ok (o : CTxOut) : Prop :=
  o = null_txout \/ (0 <= nValue o < 2 ^ 60 /\ zlen (scriptPubKey o) <= MAX_SCRIPT_SIZE).

Lemma txout_Serialize_app s o : txout_Serialize s o = app s <$> txout_Serialize [] o.
Proof.
  unfold txout_Serialize. destruct (CompressAmount (u64 (nValue o))); [|done]. cbn. f_equal.
  unfold script_Serialize, WriteVarInt. destruct (Compress (scriptPubKey o)); by rewrite <- ?app_assoc.
Qed.

Lemma outs_roundtrip v :
  Forall out_ok v ->
  exists ob, (forall s, serialize_outs s v = Some (s ++ ob)) /\
    forall k rest, unserialize_outs (avail v ++ replicate k false) (ob ++ rest) =
      Ok (v ++ replicate k null_txout, rest).
Proof.
  induction 1 as [|o v Ho Hv (ob & Hs & Hu)].
  - exists []. split; [intros s; cbn; by rewrite app_nil_r|]. intros k rest. cbn.
    induction k as [|k IHk]; [done|]. cbn. by rewrite IHk.
  - unfold serialize_outs in *. cbn [foldl mbind option_bind]. unfold avail in *. cbn [fmap list_fmap app].
    destruct (IsNull o) eqn:En; cbn [negb].
    + exists ob. split; [done|]. intros k rest. cbn [unserialize_outs].
      destruct Ho as [->|[Hr _]]; [|unfold IsNull in En; zbool; lia]. by rewrite Hu.
    + destruct Ho as [->|[Hr Hl]]; [done|]. destruct (txout_Serialize_roundtrip o [] Hr Hl) as (b & Eb & _).
      exists (b ++ ob). split.
      * intros s. rewrite txout_Serialize_app, Eb. cbn. rewrite Hs. by rewrite <- app_assoc.
      * intros k rest. cbn [unserialize_outs]. rewrite <- app_assoc.
        destruct (txout_Serialize_roundtrip o (ob ++ rest) Hr Hl) as (b' & Eb' & Ur).
        assert (b' = b) as -> by congruence. rewrite Ur. cbn. by rewrite Hu.
Qed.

(** The header code and its fields. *)
Lemma code_fields q (cb f1 f2 : bool) :
  let nCode := 8 * q + (if cb then 1 else 0) + (if f1 then 2 else 0) + (if f2 then 4 else 0) in
  0 <= q ->
  negb (Z.land nCode 1 =? 0) = cb /\ negb (Z.land nCode 2 =? 0) = f1 /\ negb (Z.land nCode 4 =? 0) = f2 /\
  negb (Z.land nCode 6 =? 0) = f1 || f2 /\ nCode / 8 = q.
Proof.
  intros nCode Hq. subst nCode.
  set (r := (if cb then 1 else 0) + (if f1 then 2 else 0) + (if f2 then 4 else 0)).
  assert (0 <= r < 8) as Hr by (subst r; by destruct cb, f1, f2).
  replace (8 * q + _ + _ + _) with (r + q * 8) by (subst r; lia).
  assert (forall m, Z.land 7 m = m -> Z.land (r + q * 8) m = Z.land r m) as Hl.
  { intros m Em. rewrite <- Em, !Z.land_assoc. f_equal. change 7 with (Z.ones 3). rewrite !Z.land_ones by lia.
    change (2 ^ 3) with 8. by rewrite Z.mod_add by lia. }
  rewrite !Hl by done. rewrite Z.div_add, Z.div_small by lia.
  subst r. by destruct cb, f1, f2.
Qed.

(** What may be stored: an unspent entry, cleaned, with outputs the database can hold. *)
Record coins_ok (c : CCoins) : Prop := {
  coins_clean : clean (vout c);
  coins_unpruned : vout c <> [];
  coins_outs : Forall out_ok (vout c);
  coins_size : zlen (vout c) < 2 ^ 31;
  coins_height : 0 <= nHeight c <= INT32_MAX;
  coins_version : 0 <= nVersion c <= INT32_MAX
}.

Lemma chunks8_length fuel v : (length v <= fuel)%nat -> (length (chunks8 fuel v) <= length v)%nat /\
  forall b, chunks8 fuel v !! b = if decide (8 * b < length v)%nat then Some (take 8 (drop (8 * b) v)) else None.
Proof.
  revert v. induction fuel as [|fuel IH]; intros v Hf.
  { destruct v; [|cbn in Hf; lia]. split; [cbn; lia|]. intros b. by case_decide; [cbn in *; lia|]. }
  destruct v as [|o v]; [split; [cbn; lia|]; intros b; by case_decide; [cbn in *; lia|]|].
  destruct (IH (drop 8 (o :: v))) as [IHl IHb]; [rewrite length_drop; cbn in *; lia|].
  cbn [chunks8]. split; [rewrite length_drop in IHl; cbn [length] in *; lia|].
  intros [|b]; [by case_decide; [|cbn in *; lia]|].
  change ((take 8 (o :: v) :: chunks8 fuel (drop 8 (o :: v))) !! S b) with (chunks8 fuel (drop 8 (o :: v)) !! b).
  rewrite IHb, drop_drop, length_drop. replace (8 + 8 * b)%nat with (8 * S b)%nat by lia.
  repeat case_decide; done || lia.
Qed.

(** The mask bytes that are written. *)
Lemma mask_bytes c :
  clean (vout c) -> zlen (vout c) < 2 ^ 31 ->
  let chs := chunks8 (length (vout c)) (drop 2 (vout c)) in
  CalcMaskSize c = (zlen chs, count_unspent chs) /\ chunks_ok chs /\
  forall s, foldl (fun s b => ser_writedata8 s (avail_byte c b)) s (seq 0 (length chs)) = s ++ (chunk_byte <$> chs).
Proof.
  intros Hc Hz chs. assert (length (drop 2 (vout c)) <= length (vout c))%nat as Hf by (rewrite length_drop; lia).
  destruct (chunks8_length _ _ Hf) as [Hl Hb]. fold chs in Hl, Hb.
  pose proof (chunks8_ok _ _ Hf (clean_drop _ 2 Hc)) as Hok. fold chs in Hok.
  split; [|split; [done|]].
  - unfold CalcMaskSize. rewrite mask_loop_spec by (done || (fold chs; unfold zlen in *; lia)). fold chs. f_equal.
    destruct (drop 2 (vout c)) eqn:Ed; [|lia]. subst chs. by destruct (length (vout c)).
  - assert (avail_byte c <$> seq 0 (length chs) = chunk_byte <$> chs) as Ebytes.
    { apply list_eq. intros i. rewrite !list_lookup_fmap, Hb. case_decide as Hi.
      - rewrite lookup_seq_lt; [|apply lookup_lt_is_Some; rewrite Hb; case_decide; [by eexists|lia]].
        cbn [fmap option_fmap option_map]. unfold avail_byte, chunk_byte. by rewrite drop_drop.
      - rewrite lookup_seq_ge; [done|]. apply lookup_ge_None. rewrite Hb. by case_decide. }
    rewrite <- Ebytes. assert (Forall (fun b => 0 <= avail_byte c b < 256) (seq 0 (length chs))) as Hr.
    { apply Forall_forall. intros b _. apply chunk_byte_range. rewrite length_take. lia. }
    clear -Hr. induction Hr as [|b bs Hb Hr IH]; intros s; cbn [foldl fmap list_fmap]; [by rewrite app_nil_r|].
    rewrite IH. unfold ser_writedata8. rewrite <- app_assoc. f_equal. rewrite u8_id by lia. cbn [le_bytes app].
    f_equal. by apply Z.mod_small.
Qed.

Lemma first_two v :
  v <> [] -> exists j, forall k,
    [default false (avail v !! 0%nat); default false (avail v !! 1%nat)] ++ avail (drop 2 v) ++ replicate k false =
      avail v ++ replicate (j + k) false.
Proof.
  intros Hv. destruct v as [|a [|b v]]; [done|by exists 1%nat|exists 0%nat]. done.
Qed.

Lemma IsAvailable_avail c (i : nat) : IsAvailable c (Z.of_nat i) = default false (avail (vout c) !! i).
Proof. unfold IsAvailable, avail. rewrite znth_lookup, list_lookup_fmap. by destruct (vout c !! i). Qed.

Lemma count_pos chs : chunks_ok chs -> chs <> [] -> 0 < count_unspent chs.
Proof.
  intros [_ Hu] Hne. destruct (last chs) as [lc|] eqn:El; [|by apply last_None in El].
  pose proof (Hu lc eq_refl) as Hlc. apply last_Some in El as [l' ->].
  unfold count_unspent, zlen. rewrite List.filter_app, length_app. cbn. rewrite Hlc. cbn. lia.
Qed.

(** An unspent entry passes the assertion of [Serialize]. *)
Lemma some_available c :
  clean (vout c) -> vout c <> [] -> zlen (vout c) < 2 ^ 31 ->
  IsAvailable c 0 || IsAvailable c 1 || negb (count_unspent (chunks8 (length (vout c)) (drop 2 (vout c))) =? 0) = true.
Proof.
  intros Hc Hne Hz. destruct (vout c) as [|a [|b [|d v]]] eqn:Ev; [done|..].
  - unfold IsAvailable. rewrite Ev. change (znth [a] 0) with (Some a). cbv iota beta. by rewrite (Hc a).
  - unfold IsAvailable. rewrite Ev. change (znth [a; b] 1) with (Some b). cbv iota beta. rewrite (Hc b) by done.
    cbn [negb]. by rewrite orb_true_r.
  - rewrite <- Ev in *. destruct (mask_bytes c Hc Hz) as (_ & Hok & _). cbn zeta in Hok.
    apply count_pos in Hok as Hp; [|by rewrite Ev].
    destruct (Z.eqb_spec (count_unspent (chunks8 (length (vout c)) (drop 2 (vout c)))) 0); [lia|]. by rewrite orb_true_r.
Qed.

Lemma count_bound c :
  zlen (vout c) < 2 ^ 31 ->
  let chs := chunks8 (length (vout c)) (drop 2 (vout c)) in 0 <= count_unspent chs /\ 8 * count_unspent chs < 2 ^ 31 + 8.
Proof.
  intros Hz chs. assert (length (drop 2 (vout c)) <= length (vout c))%nat as Hf by (rewrite length_drop; lia).
  destruct (chunks8_length _ _ Hf) as [_ Hb]. fold chs in Hb.
  assert (count_unspent chs <= zlen chs) as Hle.
  { unfold count_unspent, zlen. pose proof (List.filter_length_le has_unspent chs). lia. }
  split; [apply zlen_nonneg|]. destruct (decide (chs = [])) as [E|Hne]; [rewrite E; by vm_compute|].
  assert (is_Some (chs !! (length chs - 1)%nat)) as [ch Hch] by (apply lookup_lt_is_Some; destruct chs; [done|cbn; lia]).
  rewrite Hb in Hch. case_decide as Hd; [|done]. rewrite length_drop in Hd. unfold zlen in *. lia.
Qed.

Lemma coins_Serialize_roundtrip c s :
  coins_ok c -> exists b, coins_Serialize [] c = Some b /\ coins_Unserialize (b ++ s) = Ok (c, s).
Proof.
  intros [Hc Hne Ho Hz Hh Hv]. unfold INT32_MAX in *.
  destruct (mask_bytes c Hc Hz) as (Em & Hok & Hbytes). cbn zeta in Em, Hok, Hbytes.
  pose proof (some_available c Hc Hne Hz) as Hav. destruct (count_bound c Hz) as [Hc0 Hcb]. cbn zeta in Hc0, Hcb.
  set (chs := chunks8 (length (vout c)) (drop 2 (vout c))) in *.
  destruct (outs_roundtrip _ Ho) as (ob & Hso & Huo).
  set (f1 := IsAvailable c 0) in *. set (f2 := IsAvailable c 1) in *.
  set (q := count_unspent chs - (if f1 || f2 then 0 else 1)).
  assert (0 <= q) as Hq.
  { subst q. destruct (f1 || f2); [lia|]. cbn in Hav. zbool. lia. }
  destruct (code_fields q (fCoinBase c) f1 f2 Hq) as (C1 & C2 & C4 & C6 & C8).
  set (nCode := 8 * q + _ + _ + _) in *.
  assert (0 <= nCode < 2 ^ 32) as Hcode.
  { subst nCode q. by destruct (fCoinBase c), f1, f2; cbn [orb]; lia. }
  unfold coins_Serialize. rewrite Em. fold f1 f2. rewrite Hav. fold q nCode. rewrite (u32_id nCode) by done.
  unfold zlen at 1. rewrite Nat2Z.id, Hbytes, Hso. cbn [mbind option_bind]. eexists. split; [done|].
  unfold coins_Unserialize, WriteVarInt. rewrite <- !app_assoc. cbn [app].
  pose proof (fun n r => ReadVarInt_Write 32 n r) as Hrw. unfold WriteVarInt in Hrw. cbn [app] in Hrw.
  rewrite Hrw by lia. cbn [lift_io res_bind fst snd]. rewrite Hrw by lia. cbn [lift_io res_bind fst snd].
  rewrite C1, C2, C4, C6, C8.
  replace (u32 (q + (if f1 || f2 then 0 else 1))) with (count_unspent chs) by (rewrite u32_id; subst q; destruct (f1 || f2); lia).
  rewrite avail_read_chunks; [|done|rewrite length_app, length_fmap; lia]. cbn [res_bind fst snd].
  destruct (chunks_bits (length (vout c)) (drop 2 (vout c))) as [k Ek]; [rewrite length_drop; lia|].
  fold chs in Ek. rewrite Ek. destruct (first_two (vout c) Hne) as [j Ej].
  rewrite <- (IsAvailable_avail c 0), <- (IsAvailable_avail c 1) in Ej. cbn [Z.of_nat] in Ej. fold f1 in Ej.
  change (IsAvailable c (Z.pos (Pos.of_succ_nat 0))) with f2 in Ej. rewrite Ej, Huo. cbn [res_bind fst snd].
  rewrite Hrw by lia. cbn [lift_io res_bind fst snd]. rewrite !s32_id by (unfold INT32_MIN, INT32_MAX; lia).
  erewrite Cleanup_nulls; [|done| |done].
  - by destruct c.
  - apply forallb_forall. intros o Hin. apply list_elem_of_In, elem_of_replicate in Hin as [-> _]. done.
Qed.

(** Storing an entry in the coin database loses nothing: every cleaned entry with an
    unspent output passes the assertion, and reading its serialization, whatever follows,
    gives exactly the same entry (all outputs at their positions, spent ones included) and
    leaves the rest.  A fully spent entry fails the assertion. *)
Theorem coins_roundtrip c s :
  (coins_ok c -> exists b, coins_Serialize [] c = Some b /\ coins_Unserialize (b ++ s) = Ok (c, s)) /\
  (vout c = [] -> coins_Serialize [] c = None).
Proof.
  split; [apply coins_Serialize_roundtrip|]. intros E.
  unfold coins_Serialize, CalcMaskSize, IsAvailable. by rewrite E.
Qed.

End CoinsRoundtrip.

(** ** The examples of the header comment of [coins.h] *)

Definition p2pkh_of (h : bytes) : bytes := [OP_DUP; OP_HASH160; 20] ++ h ++ [OP_EQUALVERIFY; OP_CHECKSIG].

Definition doc_hash_1 : bytes :=
  [0x81; 0x61; 0x15; 0x94; 0x4e; 0x07; 0x7f; 0xe7; 0xc8; 0x03; 0xcf; 0xa5; 0x7f; 0x29; 0xb3; 0x6b; 0xf8; 0x7c; 0x1d; 0x35].
Definition doc_hash_2 : bytes :=
  [0x61; 0xb0; 0x1c; 0xaa; 0xb5; 0x0f; 0x1b; 0x8e; 0x9c; 0x50; 0xa5; 0x05; 0x7e; 0xb4; 0x3c; 0x2d; 0x95; 0x63; 0xa4; 0xee].
Definition doc_hash_3 : bytes :=
  [0x8c; 0x98; 0x8f; 0x1a; 0x4a; 0x4d; 0xe2; 0x16; 0x1e; 0x0f; 0x50; 0xaa; 0xc7; 0xf1; 0x7e; 0x7f; 0x95; 0x55; 0xca; 0xa4].

Definition doc_coins_1 : CCoins := {|
  fCoinBase := false;
  vout := [null_txout; {| nValue := 60000000000; scriptPubKey := p2pkh_of doc_hash_1 |}];
  nHeight := 203998; nVersion := 1 |}.

Definition doc_coins_2 : CCoins := {|
  fCoinBase := true;
  vout := replicate 4 null_txout ++ [{| nValue := 234925952; scriptPubKey := p2pkh_of doc_hash_2 |}] ++
          replicate 11 null_txout ++ [{| nValue := 110397; scriptPubKey := p2pkh_of doc_hash_3 |}];
  nHeight := 120891; nVersion := 1 |}.

Lemma doc_example_1 :
  coins_Serialize [] doc_coins_1 = Some ([0x01; 0x04; 0x83; 0x58; 0x00] ++ doc_hash_1 ++ [0x8b; 0xb8; 0x5e]).
Proof. vm_compute. reflexivity. Qed.

Lemma doc_example_2 :
  coins_Serialize [] doc_coins_2 =
    Some ([0x01; 0x09; 0x04; 0x40; 0x86; 0xef; 0x97; 0xd5; 0x79; 0x00] ++ doc_hash_2 ++
          [0xbb; 0xd1; 0x23; 0x00] ++ doc_hash_3 ++ [0x86; 0xaf; 0x3b]).
Proof. vm_compute. reflexivity. Qed.

Lemma doc_coins_2_ok : coins_ok doc_coins_2.
Proof.
  split; [|discriminate| |reflexivity|split; discriminate|split; discriminate].
  - intros o [= <-]. reflexivity.
  - cbn [vout doc_coins_2 replicate app].
    repeat (apply Forall_cons; split); [by left|by left|by left|by left| |by left|by left|by left|by left|by left
      |by left|by left|by left|by left|by left|by left| |apply Forall_nil_2]; by right.
Qed.

Lemma coins_roundtrip_witness :
  exists b, coins_Serialize [] doc_coins_2 = Some b /\ coins_Unserialize (b ++ [7; 7]) = Ok (doc_coins_2, [7; 7]).
Proof. exact (proj1 (coins_roundtrip doc_coins_2 [7; 7]) doc_coins_2_ok). Defined.

Lemma coins_lifecycle_witness :
  (Spend doc_coins_1 1).1 = true /\ vout (Spend doc_coins_1 1).2 = [].
Proof.
  assert (clean (vout doc_coins_1)) as Hc by (intros o [= <-]; reflexivity).
  destruct (coins_lifecycle false [] 1 0 doc_coins_1 1 (Forall_nil_2 _) Hc) as (_ & _ & E1 & _).
  split; [exact E1|reflexivity].
Defined.
