(* ===== verification/CoinsView.v ===== *)
(** * Views of the unspent output set

    [coins.h], [coins.cpp] and the coin part of [txdb/txdb.cpp]: the abstract view
    [CCoinsView] as a type class of operations with its laws, the memory cache
    [CCoinsViewCache] over any other view, and the database view [CCoinsViewDB].

    The commitment trees, their roots and the memory accounting functions are parameters
    ([CacheParams]).  The two instances of every anchor template (Sprout and Sapling) are one
    definition indexed by [ShieldedType]; the flags of a cache entry are booleans.  Values in
    the database are kept decoded: [Coins.coins_roundtrip] shows that nothing is lost. *)

From stdpp Require Import gmap.
From S2P Require Import Prelude Compressor Coins.

(** ** Data *)

Abbreviation uint256 := (list Z) (only parsing).

Definition uint256_null : uint256 := replicate 32 0.
Definition hash_IsNull (h : uint256) : bool := forallb (fun b => b =? 0) h.

Inductive ShieldedType : Set := SPROUT | SAPLING.

#[export] Instance ShieldedType_eq_dec : EqDecision ShieldedType.
Proof. solve_decision. Defined.

Class CacheParams := {
  Tree : Type;
  new_tree : Tree;                       (* the default constructor *)
  tree_root : ShieldedType -> Tree -> uint256;  (* depth and hash differ *)
  tree_usage : Tree -> Z;                (* DynamicMemoryUsage *)
  coins_usage : CCoins -> Z
}.

(** Roots are collision-free and never null. *)
Class CacheParamsLaws (P : CacheParams) := {
  root_inj : forall ty t1 t2, tree_root ty t1 = tree_root ty t2 -> t1 = t2;
  root_not_null : forall ty t, hash_IsNull (tree_root ty t) = false
}.

Inductive cache_fail : Set := assertion.

Section Data.
Context `{CacheParams}.

Record CCoinsCacheEntry := { coins : CCoins; DIRTY : bool; FRESH : bool }.
Record CAnchorsCacheEntry := { entered : bool; tree : Tree; anchor_DIRTY : bool }.
Record CNullifiersCacheEntry := { spent : bool; nullifier_DIRTY : bool }.

Definition empty_root (ty : ShieldedType) : uint256 := tree_root ty new_tree.

(** The arguments of [BatchWrite]. *)
Record batch := {
  b_coins : gmap uint256 CCoinsCacheEntry;
  b_hashBlock : uint256;
  b_hashAnchor : ShieldedType -> uint256;
  b_anchors : ShieldedType -> gmap uint256 CAnchorsCacheEntry;
  b_nullifiers : ShieldedType -> gmap uint256 CNullifiersCacheEntry
}.

(** [CCoinsView].  Reading may fill caches, so every operation returns the view after it. *)
Class CCoinsView (V : Type) := {
  GetCoins : V -> uint256 -> option CCoins * V;
  GetNullifier : V -> ShieldedType -> uint256 -> bool * V;
  GetAnchorAt : V -> ShieldedType -> uint256 -> option Tree * V;
  GetBestBlock : V -> uint256 * V;
  GetBestAnchor : V -> ShieldedType -> uint256 * V;
  BatchWrite : V -> batch -> res cache_fail V
}.

(** The members of [CCoinsViewCache] other than the base view. *)
Record cache_data := {
  hasModifier : bool;
  hashBlock : uint256;
  cacheCoins : gmap uint256 CCoinsCacheEntry;
  hashAnchor : ShieldedType -> uint256;
  cacheAnchors : ShieldedType -> gmap uint256 CAnchorsCacheEntry;
  cacheNullifiers : ShieldedType -> gmap uint256 CNullifiersCacheEntry;
  cachedCoinsUsage : Z
}.

Record CCoinsViewCache (V : Type) := mk_cache { data : cache_data; base : V }.

(** A member indexed by the shielded type, changed at one type. *)
Definition upd {A : Type} (f : ShieldedType -> A) (ty : ShieldedType) (a : A) : ShieldedType -> A :=
  fun ty' => if decide (ty' = ty) then a else f ty'.

Definition set_coins (d : cache_data) (m : gmap uint256 CCoinsCacheEntry) (usage : Z) : cache_data :=
  {| hasModifier := hasModifier d; hashBlock := hashBlock d; cacheCoins := m; hashAnchor := hashAnchor d;
     cacheAnchors := cacheAnchors d; cacheNullifiers := cacheNullifiers d; cachedCoinsUsage := usage |}.
Definition set_anchors (d : cache_data) (ty : ShieldedType) (m : gmap uint256 CAnchorsCacheEntry) (usage : Z)
  : cache_data :=
  {| hasModifier := hasModifier d; hashBlock := hashBlock d; cacheCoins := cacheCoins d; hashAnchor := hashAnchor d;
     cacheAnchors := upd (cacheAnchors d) ty m; cacheNullifiers := cacheNullifiers d; cachedCoinsUsage := usage |}.
Definition set_nullifiers (d : cache_data) (ty : ShieldedType) (m : gmap uint256 CNullifiersCacheEntry) : cache_data :=
  {| hasModifier := hasModifier d; hashBlock := hashBlock d; cacheCoins := cacheCoins d; hashAnchor := hashAnchor d;
     cacheAnchors := cacheAnchors d; cacheNullifiers := upd (cacheNullifiers d) ty m;
     cachedCoinsUsage := cachedCoinsUsage d |}.
Definition set_hashAnchor (d : cache_data) (ty : ShieldedType) (h : uint256) : cache_data :=
  {| hasModifier := hasModifier d; hashBlock := hashBlock d; cacheCoins := cacheCoins d;
     hashAnchor := upd (hashAnchor d) ty h; cacheAnchors := cacheAnchors d;
     cacheNullifiers := cacheNullifiers d; cachedCoinsUsage := cachedCoinsUsage d |}.
Definition set_hashBlock (d : cache_data) (h : uint256) : cache_data :=
  {| hasModifier := hasModifier d; hashBlock := h; cacheCoins := cacheCoins d; hashAnchor := hashAnchor d;
     cacheAnchors := cacheAnchors d; cacheNullifiers := cacheNullifiers d; cachedCoinsUsage := cachedCoinsUsage d |}.
Definition set_modifier (d : cache_data) (b : bool) : cache_data :=
  {| hasModifier := b; hashBlock := hashBlock d; cacheCoins := cacheCoins d; hashAnchor := hashAnchor d;
     cacheAnchors := cacheAnchors d; cacheNullifiers := cacheNullifiers d; cachedCoinsUsage := cachedCoinsUsage d |}.

(** A new cache. *)
Definition empty_cache : cache_data :=
  {| hasModifier := false; hashBlock := uint256_null; cacheCoins := ∅; hashAnchor := fun _ => uint256_null;
     cacheAnchors := fun _ => ∅; cacheNullifiers := fun _ => ∅; cachedCoinsUsage := 0 |}.

(** *** Receiving a batch: one entry at a time *)

(** The body of the loop over [mapCoins]; the state is [cacheCoins] and the usage. *)
Definition batch_coin (st : gmap uint256 CCoinsCacheEntry * Z) (it : uint256 * CCoinsCacheEntry)
  : res cache_fail (gmap uint256 CCoinsCacheEntry * Z) :=
  let '(m, usage) := st in
  let '(txid, child) := it in
  if DIRTY child then
    match m !! txid with
    | None =>
        if IsPruned (coins child) then Ok (m, usage)
        else if FRESH child then
          Ok (<[txid := {| coins := coins child; DIRTY := true; FRESH := true |}]> m,
              u64 (usage + coins_usage (coins child)))
        else Err assertion
    | Some us =>
        if FRESH us && IsPruned (coins child) then
          Ok (delete txid m, u64 (usage - coins_usage (coins us)))
        else
          Ok (<[txid := {| coins := coins child; DIRTY := true; FRESH := FRESH us |}]> m,
              u64 (u64 (usage - coins_usage (coins us)) + coins_usage (coins child)))
    end
  else Ok (m, usage).

(** The body of [BatchWriteAnchors]. *)
Definition batch_anchor (st : gmap uint256 CAnchorsCacheEntry * Z) (it : uint256 * CAnchorsCacheEntry)
  : gmap uint256 CAnchorsCacheEntry * Z :=
  let '(m, usage) := st in
  let '(rt, child) := it in
  if anchor_DIRTY child then
    match m !! rt with
    | None =>
        (<[rt := {| entered := entered child; tree := tree child; anchor_DIRTY := true |}]> m,
         u64 (usage + tree_usage (tree child)))
    | Some parent =>
        if negb (Bool.eqb (entered parent) (entered child)) then
          (<[rt := {| entered := entered child; tree := tree parent; anchor_DIRTY := true |}]> m, usage)
        else (m, usage)
    end
  else (m, usage).

(** The body of [BatchWriteNullifiers]. *)
Definition batch_nullifier (m : gmap uint256 CNullifiersCacheEntry) (it : uint256 * CNullifiersCacheEntry)
  : gmap uint256 CNullifiersCacheEntry :=
  let '(nf, child) := it in
  if nullifier_DIRTY child then
    match m !! nf with
    | None => <[nf := {| spent := spent child; nullifier_DIRTY := true |}]> m
    | Some parent =>
        if negb (Bool.eqb (spent parent) (spent child)) then
          <[nf := {| spent := spent child; nullifier_DIRTY := true |}]> m
        else m
    end
  else m.

Fixpoint batch_coins (st : gmap uint256 CCoinsCacheEntry * Z) (l : list (uint256 * CCoinsCacheEntry))
  : res cache_fail (gmap uint256 CCoinsCacheEntry * Z) :=
  match l with
  | [] => Ok st
  | it :: l => let? st := batch_coin st it in batch_coins st l
  end.

Definition batch_anchors := foldl batch_anchor.
Definition batch_nullifiers := foldl batch_nullifier.

End Data.

Arguments mk_cache {_ _} _ _.
Arguments data {_ _} _.
Arguments base {_ _} _.

(** ** [CCoinsViewCache] *)

Section Cache.
Context `{CacheParams} {V : Type} `{!CCoinsView V}.
Implicit Types c : CCoinsViewCache V.

Definition FetchCoins (c : CCoinsViewCache V) (txid : uint256) : option CCoinsCacheEntry * CCoinsViewCache V :=
  match cacheCoins (data c) !! txid with
  | Some e => (Some e, c)
  | None =>
      let '(r, b) := GetCoins (base c) txid in
      match r with
      | None => (None, mk_cache (data c) b)
      | Some tmp =>
          let e := {| coins := tmp; DIRTY := false; FRESH := IsPruned tmp |} in
          (Some e, mk_cache (set_coins (data c) (<[txid := e]> (cacheCoins (data c)))
                               (u64 (cachedCoinsUsage (data c) + coins_usage tmp))) b)
      end
  end.

Definition cache_GetCoins (c : CCoinsViewCache V) (txid : uint256) : option CCoins * CCoinsViewCache V :=
  let '(it, c) := FetchCoins c txid in (coins <$> it, c).

(** [AccessCoins]: the entry behind the pointer, or [None] for a null pointer. *)
Definition AccessCoins := cache_GetCoins.

Definition HaveCoins (c : CCoinsViewCache V) (txid : uint256) : bool * CCoinsViewCache V :=
  let '(it, c) := FetchCoins c txid in
  (match it with Some e => negb (bool_decide (vout (coins e) = [])) | None => false end, c).

Definition cache_GetNullifier (c : CCoinsViewCache V) (ty : ShieldedType) (nf : uint256) : bool * CCoinsViewCache V :=
  match cacheNullifiers (data c) ty !! nf with
  | Some e => (spent e, c)
  | None =>
      let '(tmp, b) := GetNullifier (base c) ty nf in
      (tmp, mk_cache (set_nullifiers (data c) ty
                        (<[nf := {| spent := tmp; nullifier_DIRTY := false |}]> (cacheNullifiers (data c) ty))) b)
  end.

Definition cache_GetAnchorAt (c : CCoinsViewCache V) (ty : ShieldedType) (rt : uint256)
  : option Tree * CCoinsViewCache V :=
  match cacheAnchors (data c) ty !! rt with
  | Some e => (if entered e then Some (tree e) else None, c)
  | None =>
      let '(r, b) := GetAnchorAt (base c) ty rt in
      match r with
      | None => (None, mk_cache (data c) b)
      | Some t =>
          (Some t, mk_cache (set_anchors (data c) ty
                     (<[rt := {| entered := true; tree := t; anchor_DIRTY := false |}]> (cacheAnchors (data c) ty))
                     (u64 (cachedCoinsUsage (data c) + tree_usage t))) b)
      end
  end.

Definition cache_GetBestBlock (c : CCoinsViewCache V) : uint256 * CCoinsViewCache V :=
  if hash_IsNull (hashBlock (data c)) then
    let '(h, b) := GetBestBlock (base c) in (h, mk_cache (set_hashBlock (data c) h) b)
  else (hashBlock (data c), c).

Definition cache_GetBestAnchor (c : CCoinsViewCache V) (ty : ShieldedType) : uint256 * CCoinsViewCache V :=
  if hash_IsNull (hashAnchor (data c) ty) then
    let '(h, b) := GetBestAnchor (base c) ty in (h, mk_cache (set_hashAnchor (data c) ty h) b)
  else (hashAnchor (data c) ty, c).

Definition SetBestBlock (c : CCoinsViewCache V) (hashBlockIn : uint256) : CCoinsViewCache V :=
  mk_cache (set_hashBlock (data c) hashBlockIn) (base c).

(** [AbstractPushAnchor] *)
Definition PushAnchor (c : CCoinsViewCache V) (ty : ShieldedType) (t : Tree) : CCoinsViewCache V :=
  let newrt := tree_root ty t in
  let '(currentRoot, c) := cache_GetBestAnchor c ty in
  if bool_decide (currentRoot = newrt) then c
  else
    let m := cacheAnchors (data c) ty in
    let usage := match m !! newrt with
                 | Some _ => cachedCoinsUsage (data c)
                 | None => u64 (cachedCoinsUsage (data c) + tree_usage t)
                 end in
    let d := set_anchors (data c) ty (<[newrt := {| entered := true; tree := t; anchor_DIRTY := true |}]> m) usage in
    mk_cache (set_hashAnchor d ty newrt) (base c).

(** [AbstractPopAnchor], with the assertion of [BringBestAnchorIntoCache]; [operator[]] makes a
    default entry for a missing key. *)
Definition PopAnchor (c : CCoinsViewCache V) (ty : ShieldedType) (newrt : uint256)
  : res cache_fail (CCoinsViewCache V) :=
  let '(currentRoot, c) := cache_GetBestAnchor c ty in
  if bool_decide (currentRoot = newrt) then Ok c
  else
    let '(r, c) := cache_GetAnchorAt c ty currentRoot in
    match r with
    | None => Err assertion
    | Some _ =>
        let m := cacheAnchors (data c) ty in
        let t := match m !! currentRoot with Some e => tree e | None => new_tree end in
        let d := set_anchors (data c) ty
                   (<[currentRoot := {| entered := false; tree := t; anchor_DIRTY := true |}]> m)
                   (cachedCoinsUsage (data c)) in
        Ok (mk_cache (set_hashAnchor d ty newrt) (base c))
    end.

(** [SetNullifiers], with the nullifiers of [tx.vShieldedSpend]. *)
Definition SetNullifiers (c : CCoinsViewCache V) (nullifiers : list uint256) (b : bool) : CCoinsViewCache V :=
  mk_cache (set_nullifiers (data c) SAPLING
    (foldl (fun m nf => <[nf := {| spent := b; nullifier_DIRTY := true |}]> m)
       (cacheNullifiers (data c) SAPLING) nullifiers)) (base c).

(** *** Modifiers *)

(** [CCoinsModifier]: the key of the entry and the usage before the modification. *)
Record CCoinsModifier := { it : uint256; cachedCoinUsage : Z }.

(** The constructor. *)
Definition new_modifier (c : CCoinsViewCache V) (txid : uint256) (usage : Z)
  : res cache_fail (CCoinsModifier * CCoinsViewCache V) :=
  if hasModifier (data c) then Err assertion
  else Ok ({| it := txid; cachedCoinUsage := usage |}, mk_cache (set_modifier (data c) true) (base c)).

Definition ModifyCoins (c : CCoinsViewCache V) (txid : uint256)
  : res cache_fail (CCoinsModifier * CCoinsViewCache V) :=
  if hasModifier (data c) then Err assertion
  else
    let m := cacheCoins (data c) in
    match m !! txid with
    | None =>
        let '(r, b) := GetCoins (base c) txid in
        let e := match r with
                 | None => {| coins := coins_Clear; DIRTY := true; FRESH := true |}
                 | Some x => {| coins := x; DIRTY := true; FRESH := IsPruned x |}
                 end in
        new_modifier (mk_cache (set_coins (data c) (<[txid := e]> m) (cachedCoinsUsage (data c))) b) txid 0
    | Some e =>
        let e' := {| coins := coins e; DIRTY := true; FRESH := FRESH e |} in
        new_modifier (mk_cache (set_coins (data c) (<[txid := e']> m) (cachedCoinsUsage (data c))) (base c)) txid
          (coins_usage (coins e))
    end.

Definition ModifyNewCoins (c : CCoinsViewCache V) (txid : uint256)
  : res cache_fail (CCoinsModifier * CCoinsViewCache V) :=
  if hasModifier (data c) then Err assertion
  else
    let e := {| coins := coins_Clear; DIRTY := true; FRESH := true |} in
    new_modifier (mk_cache (set_coins (data c) (<[txid := e]> (cacheCoins (data c))) (cachedCoinsUsage (data c)))
                    (base c)) txid 0.

(** An assignment through [operator->] or [operator*]. *)
Definition modifier_apply (md : CCoinsModifier) (f : CCoins -> CCoins) (c : CCoinsViewCache V) : CCoinsViewCache V :=
  mk_cache (set_coins (data c)
    (alter (fun e => {| coins := f (coins e); DIRTY := DIRTY e; FRESH := FRESH e |}) (it md) (cacheCoins (data c)))
    (cachedCoinsUsage (data c))) (base c).

(** The destructor; the iterator of a live modifier is valid. *)
Definition modifier_destroy (md : CCoinsModifier) (c : CCoinsViewCache V) : res cache_fail (CCoinsViewCache V) :=
  if negb (hasModifier (data c)) then Err assertion
  else
    let d := set_modifier (data c) false in
    match cacheCoins d !! it md with
    | None => Err assertion
    | Some e =>
        let x := Cleanup (coins e) in
        let usage := u64 (cachedCoinsUsage d - cachedCoinUsage md) in
        if FRESH e && IsPruned x then Ok (mk_cache (set_coins d (delete (it md) (cacheCoins d)) usage) (base c))
        else Ok (mk_cache (set_coins d
                   (<[it md := {| coins := x; DIRTY := DIRTY e; FRESH := FRESH e |}]> (cacheCoins d))
                   (u64 (usage + coins_usage x))) (base c))
    end.

(** The life of a modifier as client code writes it: a scope around one modification. *)
Definition with_modifier (begin : res cache_fail (CCoinsModifier * CCoinsViewCache V)) (f : CCoins -> CCoins)
  : res cache_fail (CCoinsViewCache V) :=
  let? r := begin in modifier_destroy r.1 (modifier_apply r.1 f r.2).

(** *** Writing *)

Definition cache_BatchWrite (c : CCoinsViewCache V) (b : batch) : res cache_fail (CCoinsViewCache V) :=
  if hasModifier (data c) then Err assertion
  else
    let d := data c in
    let? st := batch_coins (cacheCoins d, cachedCoinsUsage d) (map_to_list (b_coins b)) in
    let sprout := batch_anchors (cacheAnchors d SPROUT, st.2) (map_to_list (b_anchors b SPROUT)) in
    let sapling := batch_anchors (cacheAnchors d SAPLING, sprout.2) (map_to_list (b_anchors b SAPLING)) in
    Ok (mk_cache {|
      hasModifier := hasModifier d;
      hashBlock := b_hashBlock b;
      cacheCoins := st.1;
      hashAnchor := b_hashAnchor b;
      cacheAnchors := fun ty => match ty with SPROUT => sprout.1 | SAPLING => sapling.1 end;
      cacheNullifiers := fun ty => batch_nullifiers (cacheNullifiers d ty) (map_to_list (b_nullifiers b ty));
      cachedCoinsUsage := sapling.2 |} (base c)).

Definition cache_batch (d : cache_data) : batch :=
  {| b_coins := cacheCoins d; b_hashBlock := hashBlock d; b_hashAnchor := hashAnchor d;
     b_anchors := cacheAnchors d; b_nullifiers := cacheNullifiers d |}.

Definition Flush (c : CCoinsViewCache V) : res cache_fail (CCoinsViewCache V) :=
  let? b := BatchWrite (base c) (cache_batch (data c)) in
  Ok (mk_cache {|
    hasModifier := hasModifier (data c); hashBlock := hashBlock (data c); cacheCoins := ∅;
    hashAnchor := hashAnchor (data c); cacheAnchors := fun _ => ∅; cacheNullifiers := fun _ => ∅;
    cachedCoinsUsage := 0 |} b).

(** *** Queries about transactions *)

(** [HaveInputs]: [prevouts] are the hash and index of every input. *)
Fixpoint have_inputs_loop (c : CCoinsViewCache V) (prevouts : list (uint256 * Z)) : bool * CCoinsViewCache V :=
  match prevouts with
  | [] => (true, c)
  | (hash, n) :: prevouts =>
      let '(r, c) := AccessCoins c hash in
      match r with
      | None => (false, c)
      | Some x => if negb (IsAvailable x n) then (false, c) else have_inputs_loop c prevouts
      end
  end.

Definition HaveInputs (c : CCoinsViewCache V) (IsCoinBase : bool) (prevouts : list (uint256 * Z))
  : bool * CCoinsViewCache V :=
  if IsCoinBase then (true, c) else have_inputs_loop c prevouts.

(** [HaveShieldedRequirements]: nullifier and anchor of every spend. *)
Fixpoint HaveShieldedRequirements (c : CCoinsViewCache V) (spends : list (uint256 * uint256)) : bool * CCoinsViewCache V :=
  match spends with
  | [] => (true, c)
  | (nf, anchor) :: spends =>
      let '(double, c) := cache_GetNullifier c SAPLING nf in
      if double : bool then (false, c)
      else
        let '(r, c) := cache_GetAnchorAt c SAPLING anchor in
        match r with
        | None => (false, c)
        | Some _ => HaveShieldedRequirements c spends
        end
  end.

Definition GetOutputFor (c : CCoinsViewCache V) (hash : uint256) (n : Z)
  : res cache_fail (CTxOut * CCoinsViewCache V) :=
  let '(r, c) := AccessCoins c hash in
  match r with
  | None => Err assertion
  | Some x =>
      if IsAvailable x n then
        match znth (vout x) n with Some o => Ok (o, c) | None => Err assertion end
      else Err assertion
  end.

Fixpoint value_in_loop (c : CCoinsViewCache V) (prevouts : list (uint256 * Z)) (nResult : Z)
  : res cache_fail (Z * CCoinsViewCache V) :=
  match prevouts with
  | [] => Ok (nResult, c)
  | (hash, n) :: prevouts =>
      let? r := GetOutputFor c hash n in
      value_in_loop r.2 prevouts (s64 (nResult + nValue r.1))
  end.

Definition GetValueIn (c : CCoinsViewCache V) (IsCoinBase : bool) (prevouts : list (uint256 * Z))
    (GetShieldedValueIn : Z) : res cache_fail (Z * CCoinsViewCache V) :=
  if IsCoinBase then Ok (0, c)
  else
    let? r := value_in_loop c prevouts 0 in
    Ok (s64 (r.1 + GetShieldedValueIn), r.2).

#[export] Instance cache_view : CCoinsView (CCoinsViewCache V) := {|
  GetCoins := cache_GetCoins; GetNullifier := cache_GetNullifier; GetAnchorAt := cache_GetAnchorAt;
  GetBestBlock := cache_GetBestBlock; GetBestAnchor := cache_GetBestAnchor; BatchWrite := cache_BatchWrite
|}.

End Cache.

(** ** [CCoinsViewDB] *)

Section Database.
Context `{CacheParams}.

(** The keys with the prefixes DB_COINS, DB_SPROUT_ANCHOR and so on, one map each. *)
Record CCoinsViewDB := {
  db_coins : gmap uint256 CCoins;
  db_anchors : ShieldedType -> gmap uint256 Tree;
  db_nullifiers : ShieldedType -> gmap uint256 bool;
  db_best_block : option uint256;
  db_best_anchor : ShieldedType -> option uint256
}.

Definition db_GetCoins (v : CCoinsViewDB) (txid : uint256) : option CCoins := db_coins v !! txid.

(** The value that is read (always [true]) does not matter, only that there is one. *)
Definition db_GetNullifier (v : CCoinsViewDB) (ty : ShieldedType) (nf : uint256) : bool :=
  bool_decide (is_Some (db_nullifiers v ty !! nf)).

Definition db_GetBestBlock (v : CCoinsViewDB) : uint256 := default uint256_null (db_best_block v).

Definition db_GetAnchorAt (v : CCoinsViewDB) (ty : ShieldedType) (rt : uint256) : option Tree :=
  if bool_decide (rt = empty_root ty) then Some new_tree else db_anchors v ty !! rt.

Definition db_GetBestAnchor (v : CCoinsViewDB) (ty : ShieldedType) : uint256 :=
  default (empty_root ty) (db_best_anchor v ty).

(** What one entry of a batch does to the database: [Erase] or [Write]. *)
Definition db_coin (m : gmap uint256 CCoins) (it : uint256 * CCoinsCacheEntry) : gmap uint256 CCoins :=
  if DIRTY it.2 then
    if IsPruned (coins it.2) then delete it.1 m else <[it.1 := coins it.2]> m
  else m.
Definition db_anchor (ty : ShieldedType) (m : gmap uint256 Tree) (it : uint256 * CAnchorsCacheEntry) : gmap uint256 Tree :=
  if anchor_DIRTY it.2 then
    if negb (entered it.2) then delete it.1 m
    else if negb (bool_decide (it.1 = empty_root ty)) then <[it.1 := tree it.2]> m else m
  else m.
Definition db_nullifier (m : gmap uint256 bool) (it : uint256 * CNullifiersCacheEntry) : gmap uint256 bool :=
  if nullifier_DIRTY it.2 then
    if negb (spent it.2) then delete it.1 m else <[it.1 := true]> m
  else m.

Definition db_BatchWrite (v : CCoinsViewDB) (b : batch) : CCoinsViewDB :=
  {| db_coins := foldl db_coin (db_coins v) (map_to_list (b_coins b));
     db_anchors := fun ty => foldl (db_anchor ty) (db_anchors v ty) (map_to_list (b_anchors b ty));
     db_nullifiers := fun ty => foldl db_nullifier (db_nullifiers v ty) (map_to_list (b_nullifiers b ty));
     db_best_block := if negb (hash_IsNull (b_hashBlock b)) then Some (b_hashBlock b) else db_best_block v;
     db_best_anchor := fun ty => if negb (hash_IsNull (b_hashAnchor b ty)) then Some (b_hashAnchor b ty)
                                 else db_best_anchor v ty |}.

#[export] Instance db_view : CCoinsView CCoinsViewDB := {|
  GetCoins v txid := (db_GetCoins v txid, v);
  GetNullifier v ty nf := (db_GetNullifier v ty nf, v);
  GetAnchorAt v ty rt := (db_GetAnchorAt v ty rt, v);
  GetBestBlock v := (db_GetBestBlock v, v);
  GetBestAnchor v ty := (db_GetBestAnchor v ty, v);
  BatchWrite v b := Ok (db_BatchWrite v b)
|}.

End Database.
