(* ===== verification/CoinsViewProps.v ===== *)
(** * The cache refines an abstract set of unspent outputs

    What a view promises to its clients ([CCoinsViewLaws]), stated on the abstract state
    [view]; the database and the cache over any lawful view keep the promise, and the
    operations of the cache are the corresponding changes of the abstract state. *)

From stdpp Require Import gmap.
From S2P Require Import Prelude Compressor Coins CoinsView.

(** ** The abstract state *)

(** Entries without unspent outputs count as absent. *)
Definition live (x : option CCoins) : option CCoins :=
  c ← x; if IsPruned c then None else Some c.

Section Views.
Context `{CacheParams}.

Record view := mk_view {
  utxo : uint256 -> option CCoins;
  nullifier_spent : ShieldedType -> uint256 -> bool;
  anchor_tree : ShieldedType -> uint256 -> option Tree;
  best_block : uint256;
  best_anchor : ShieldedType -> uint256
}.

(** Views are compared pointwise. *)
#[export] Instance view_equiv : Equiv view := fun a b =>
  (forall t, utxo a t = utxo b t) /\ (forall ty n, nullifier_spent a ty n = nullifier_spent b ty n) /\
  (forall ty r, anchor_tree a ty r = anchor_tree b ty r) /\ best_block a = best_block b /\
  (forall ty, best_anchor a ty = best_anchor b ty).

#[export] Instance view_equivalence : Equivalence (≡@{view}).
Proof.
  split.
  - intros a. by repeat split.
  - intros a b (H1 & H2 & H3 & H4 & H5). by repeat split.
  - intros a b d (H1 & H2 & H3 & H4 & H5) (K1 & K2 & K3 & K4 & K5).
    split; [|split; [|split; [|split]]]; intros; congruence || (etrans; eauto).
Qed.

#[export] Instance utxo_proper : Proper ((≡) ==> (=) ==> (=)) utxo.
Proof. intros a b (E & _) t ? <-. apply E. Qed.
#[export] Instance nullifier_spent_proper : Proper ((≡) ==> (=) ==> (=) ==> (=)) nullifier_spent.
Proof. intros a b (_ & E & _) ty ? <- n ? <-. apply E. Qed.
#[export] Instance anchor_tree_proper : Proper ((≡) ==> (=) ==> (=) ==> (=)) anchor_tree.
Proof. intros a b (_ & _ & E & _) ty ? <- r ? <-. apply E. Qed.
#[export] Instance best_block_proper : Proper ((≡) ==> (=)) best_block.
Proof. by intros a b (_ & _ & _ & E & _). Qed.
#[export] Instance best_anchor_proper : Proper ((≡) ==> (=) ==> (=)) best_anchor.
Proof. intros a b (_ & _ & _ & _ & E) ty ? <-. apply E. Qed.

(** What a batch means: its dirty entries replace what was there. *)
Definition apply_batch (b : batch) (w : view) : view := {|
  utxo t := match b_coins b !! t with
            | Some e => if DIRTY e then live (Some (coins e)) else utxo w t
            | None => utxo w t
            end;
  nullifier_spent ty n := match b_nullifiers b ty !! n with
            | Some e => if nullifier_DIRTY e then spent e else nullifier_spent w ty n
            | None => nullifier_spent w ty n
            end;
  anchor_tree ty r := match b_anchors b ty !! r with
            | Some e => if anchor_DIRTY e then (if entered e then Some (tree e) else None) else anchor_tree w ty r
            | None => anchor_tree w ty r
            end;
  best_block := b_hashBlock b;
  best_anchor := b_hashAnchor b
|}.

(** Anchors of a batch or a cache: stored under their root, and the empty tree is never
    removed. *)
Definition anchors_ok (ty : ShieldedType) (m : gmap uint256 CAnchorsCacheEntry) : Prop :=
  map_Forall (fun r e => tree_root ty (tree e) = r /\ (r = (empty_root ty) -> entered e = true)) m.

(** ** The contract of a view *)

(** [known v t]: the view has looked [t] up before, so that a batch may contain an entry for
    it that is not fresh. *)
Class CCoinsViewLaws (V : Type) `{!CCoinsView V} := {
  view_inv : V -> Prop;
  view_of : V -> view;
  known : V -> uint256 -> Prop;
  view_anchor_root : forall v ty r t, view_inv v -> anchor_tree (view_of v) ty r = Some t -> tree_root ty t = r;
  view_empty_root : forall v ty, view_inv v -> anchor_tree (view_of v) ty (empty_root ty) = Some new_tree;
  GetCoins_law : forall v t r v', view_inv v -> GetCoins v t = (r, v') ->
    view_inv v' /\ view_of v' ≡ view_of v /\ live r = utxo (view_of v) t /\
    (forall t', known v t' -> known v' t') /\ (is_Some r -> known v' t);
  GetNullifier_law : forall v ty n r v', view_inv v -> GetNullifier v ty n = (r, v') ->
    view_inv v' /\ view_of v' ≡ view_of v /\ r = nullifier_spent (view_of v) ty n /\
    (forall t', known v t' -> known v' t');
  GetAnchorAt_law : forall v ty rt r v', view_inv v -> GetAnchorAt v ty rt = (r, v') ->
    view_inv v' /\ view_of v' ≡ view_of v /\ r = anchor_tree (view_of v) ty rt /\
    (forall t', known v t' -> known v' t');
  GetBestBlock_law : forall v r v', view_inv v -> GetBestBlock v = (r, v') ->
    view_inv v' /\ view_of v' ≡ view_of v /\ r = best_block (view_of v) /\
    (forall t', known v t' -> known v' t');
  GetBestAnchor_law : forall v ty r v', view_inv v -> GetBestAnchor v ty = (r, v') ->
    view_inv v' /\ view_of v' ≡ view_of v /\ r = best_anchor (view_of v) ty /\
    (forall t', known v t' -> known v' t')
}.

(** Writing a batch; a view that is only read from does not promise it. *)
Class CCoinsViewWrites (V : Type) `{!CCoinsView V} `{!CCoinsViewLaws V} := {
  BatchWrite_law : forall v b, view_inv v ->
    map_Forall (fun t e => (FRESH e = true -> utxo (view_of v) t = None) /\
                           (FRESH e = false -> known v t)) (b_coins b) ->
    (forall ty, anchors_ok ty (b_anchors b ty)) ->
    hash_IsNull (b_hashBlock b) = false -> (forall ty, hash_IsNull (b_hashAnchor b ty) = false) ->
    exists v', BatchWrite v b = Ok v' /\ view_inv v' /\ view_of v' ≡ apply_batch b (view_of v)
}.
End Views.

(** ** Processing a batch entry by entry *)

(** A fold whose step only touches the key of the entry it processes. *)
Lemma foldl_by_key {S A B : Type} (proj : S -> gmap uint256 B) (f : S -> uint256 * A -> S)
    (g : uint256 -> A -> option B -> option B) :
  (forall s k a, proj (f s (k, a)) !! k = g k a (proj s !! k)) ->
  (forall s k a k', k' <> k -> proj (f s (k, a)) !! k' = proj s !! k') ->
  forall l s k, NoDup l.*1 ->
    proj (foldl f s l) !! k =
      match (list_to_map l : gmap uint256 A) !! k with Some a => g k a (proj s !! k) | None => proj s !! k end.
Proof.
  intros Hsame Hother l. induction l as [|[k0 a] l IH]; intros s k Hnd; [done|].
  cbn in Hnd. apply NoDup_cons in Hnd as [Hk0 Hnd]. cbn [foldl]. rewrite list_to_map_cons, IH by done. destruct (decide (k = k0)) as [->|Hne].
  - rewrite lookup_insert_eq. by rewrite (not_elem_of_list_to_map_1 l k0 Hk0), Hsame.
  - rewrite lookup_insert_ne by done. by rewrite !Hother.
Qed.

Lemma foldl_map_by_key {S A B : Type} (proj : S -> gmap uint256 B) (f : S -> uint256 * A -> S)
    (g : uint256 -> A -> option B -> option B) (m : gmap uint256 A) s k :
  (forall s k a, proj (f s (k, a)) !! k = g k a (proj s !! k)) ->
  (forall s k a k', k' <> k -> proj (f s (k, a)) !! k' = proj s !! k') ->
  proj (foldl f s (map_to_list m)) !! k =
    match m !! k with Some a => g k a (proj s !! k) | None => proj s !! k end.
Proof.
  intros Hs Ho. rewrite (foldl_by_key proj f g Hs Ho) by apply NoDup_fst_map_to_list.
  by rewrite list_to_map_to_list.
Qed.

Section Batches.
Context `{CacheParams}.

(** What the parent has for an entry afterwards. *)
Definition coin_result (child : CCoinsCacheEntry) (old : option CCoinsCacheEntry) : option CCoinsCacheEntry :=
  if DIRTY child then
    match old with
    | None => if IsPruned (coins child) then None
              else Some {| coins := coins child; DIRTY := true; FRESH := true |}
    | Some us => if FRESH us && IsPruned (coins child) then None
                 else Some {| coins := coins child; DIRTY := true; FRESH := FRESH us |}
    end
  else old.

Lemma batch_coins_spec l m usage :
  NoDup l.*1 ->
  Forall (fun it => DIRTY it.2 = true -> m !! it.1 = None -> FRESH it.2 = true \/ IsPruned (coins it.2) = true) l ->
  exists st, batch_coins (m, usage) l = Ok st /\
    forall t, st.1 !! t = match (list_to_map l : gmap uint256 CCoinsCacheEntry) !! t with
                          | Some e => coin_result e (m !! t)
                          | None => m !! t
                          end.
Proof.
  revert m usage. induction l as [|[k e] l IH]; intros m usage Hnd Hok.
  { exists (m, usage). by split. }
  cbn in Hnd. apply NoDup_cons in Hnd as [Hk Hnd]. apply Forall_cons in Hok as [He Hok]. cbn in He.
  assert (exists m' u', batch_coin (m, usage) (k, e) = Ok (m', u') /\ m' !! k = coin_result e (m !! k) /\
    forall t, t <> k -> m' !! t = m !! t) as (m' & u' & E & Ek & Eo).
  { unfold batch_coin, coin_result. destruct (DIRTY e) eqn:Ed; [|by exists m, usage].
    destruct (m !! k) as [us|] eqn:Em.
    - destruct (FRESH us && IsPruned (coins e)); eexists _, _; (split; [done|]);
        rewrite ?lookup_delete_eq, ?lookup_insert_eq; split; try done; intros t Ht;
        by rewrite ?lookup_delete_ne, ?lookup_insert_ne.
    - destruct (IsPruned (coins e)) eqn:Ep; [exists m, usage; by rewrite Em|].
      destruct (FRESH e) eqn:Ef; [|by destruct He]. eexists _, _. split; [done|].
      rewrite lookup_insert_eq. split; [done|]. intros t Ht. by rewrite lookup_insert_ne. }
  cbn [batch_coins]. rewrite E. cbn [res_bind].
  destruct (IH m' u' Hnd) as (st & Est & Hst).
  { rewrite Forall_forall in Hok |- *. intros [k' e'] Hin Hd Hn. apply (Hok _ Hin); [done|]. cbn in *.
    rewrite <- Hn. symmetry. apply Eo. intros ->. apply Hk, list_elem_of_fmap. by exists (k, e'). }
  exists st. split; [done|]. intros t. rewrite Hst, list_to_map_cons.
  destruct (decide (t = k)) as [->|Hne].
  - rewrite lookup_insert_eq. by rewrite (not_elem_of_list_to_map_1 l k Hk), Ek.
  - rewrite lookup_insert_ne by done. by rewrite Eo.
Qed.

Definition anchor_result (child : CAnchorsCacheEntry) (old : option CAnchorsCacheEntry) : option CAnchorsCacheEntry :=
  if anchor_DIRTY child then
    match old with
    | None => Some {| entered := entered child; tree := tree child; anchor_DIRTY := true |}
    | Some parent =>
        if negb (Bool.eqb (entered parent) (entered child))
        then Some {| entered := entered child; tree := tree parent; anchor_DIRTY := true |} else Some parent
    end
  else old.

Lemma batch_anchors_spec st m k :
  (batch_anchors st (map_to_list m)).1 !! k =
    match m !! k with Some e => anchor_result e (st.1 !! k) | None => st.1 !! k end.
Proof.
  unfold batch_anchors. apply (foldl_map_by_key fst batch_anchor (fun _ => anchor_result) m st k).
  - intros [m' u] k' e. unfold batch_anchor, anchor_result. cbn [fst].
    destruct (anchor_DIRTY e); [|done]. destruct (m' !! k') as [p|] eqn:E.
    + destruct (negb _); cbn [fst]; [by rewrite lookup_insert_eq|done].
    + cbn [fst]. by rewrite lookup_insert_eq.
  - intros [m' u] k' e k'' Hne. unfold batch_anchor. destruct (anchor_DIRTY e); [|done].
    destruct (m' !! k') as [p|]; [destruct (negb _)|]; cbn [fst]; by rewrite ?lookup_insert_ne.
Qed.

Definition nullifier_result (child : CNullifiersCacheEntry) (old : option CNullifiersCacheEntry)
  : option CNullifiersCacheEntry :=
  if nullifier_DIRTY child then
    match old with
    | None => Some {| spent := spent child; nullifier_DIRTY := true |}
    | Some parent =>
        if negb (Bool.eqb (spent parent) (spent child))
        then Some {| spent := spent child; nullifier_DIRTY := true |} else Some parent
    end
  else old.

Lemma batch_nullifiers_spec (m0 m : gmap uint256 CNullifiersCacheEntry) k :
  batch_nullifiers m0 (map_to_list m) !! k =
    match m !! k with Some e => nullifier_result e (m0 !! k) | None => m0 !! k end.
Proof.
  unfold batch_nullifiers. apply (foldl_map_by_key id batch_nullifier (fun _ => nullifier_result) m m0 k).
  - intros m' k' e. unfold batch_nullifier, nullifier_result, id.
    destruct (nullifier_DIRTY e); [|done]. destruct (m' !! k') as [p|] eqn:E.
    + destruct (negb _); [by rewrite lookup_insert_eq|done].
    + by rewrite lookup_insert_eq.
  - intros m' k' e k'' Hne. unfold batch_nullifier, id. destruct (nullifier_DIRTY e); [|done].
    destruct (m' !! k') as [p|]; [destruct (negb _)|]; by rewrite ?lookup_insert_ne.
Qed.
End Batches.

(** ** The database keeps the contract *)

Section DatabaseLaws.
Context `{CacheParamsLaws}.

Definition db_inv (v : CCoinsViewDB) : Prop := forall ty, map_Forall (fun r t => tree_root ty t = r) (db_anchors v ty).

Definition db_view_of (v : CCoinsViewDB) : view := {|
  utxo t := live (db_coins v !! t);
  nullifier_spent ty n := bool_decide (is_Some (db_nullifiers v ty !! n));
  anchor_tree := db_GetAnchorAt v;
  best_block := default uint256_null (db_best_block v);
  best_anchor := db_GetBestAnchor v
|}.

Lemma db_coins_spec (m0 : gmap uint256 CCoins) (m : gmap uint256 CCoinsCacheEntry) (k : uint256) :
  foldl db_coin m0 (map_to_list m) !! k =
    match m !! k with
    | Some e => if DIRTY e then live (Some (coins e)) else m0 !! k
    | None => m0 !! k
    end.
Proof.
  apply (foldl_map_by_key id db_coin (fun _ e old => if DIRTY e then live (Some (coins e)) else old) m m0 k);
    unfold db_coin, id; intros m' k' e; cbn [fst snd live mbind option_bind]; destruct (DIRTY e); try done;
    destruct (IsPruned (coins e)).
  all: first [intros k'' Hne; by rewrite ?lookup_delete_ne, ?lookup_insert_ne
             | by rewrite ?lookup_delete_eq, ?lookup_insert_eq].
Qed.

Lemma db_nullifiers_spec (m0 : gmap uint256 bool) (m : gmap uint256 CNullifiersCacheEntry) (k : uint256) :
  foldl db_nullifier m0 (map_to_list m) !! k =
    match m !! k with
    | Some e => if nullifier_DIRTY e then if spent e then Some true else None else m0 !! k
    | None => m0 !! k
    end.
Proof.
  apply (foldl_map_by_key id db_nullifier
    (fun _ e old => if nullifier_DIRTY e then if spent e then Some true else None else old) m m0 k);
    unfold db_nullifier, id; intros m' k' e; cbn [fst snd]; destruct (nullifier_DIRTY e); try done;
    destruct (spent e); cbn [negb].
  all: first [intros k'' Hne; by rewrite ?lookup_delete_ne, ?lookup_insert_ne
             | by rewrite ?lookup_delete_eq, ?lookup_insert_eq].
Qed.

Definition db_anchor_result (ty : ShieldedType) (k : uint256) (e : CAnchorsCacheEntry) (old : option Tree) : option Tree :=
  if anchor_DIRTY e then
    if entered e then if bool_decide (k = (empty_root ty)) then old else Some (tree e) else None
  else old.

Lemma db_anchors_spec (ty : ShieldedType) (m0 : gmap uint256 Tree) (m : gmap uint256 CAnchorsCacheEntry) (k : uint256) :
  foldl (db_anchor ty) m0 (map_to_list m) !! k =
    match m !! k with Some e => db_anchor_result ty k e (m0 !! k) | None => m0 !! k end.
Proof.
  apply (foldl_map_by_key id (db_anchor ty) (db_anchor_result ty) m m0 k);
    unfold db_anchor, db_anchor_result, id; intros m' k' e; cbn [fst snd]; destruct (anchor_DIRTY e); try done;
    destruct (entered e); cbn [negb]; try destruct (bool_decide (k' = (empty_root ty))); cbn [negb]; try done.
  all: first [intros k'' Hne; by rewrite ?lookup_delete_ne, ?lookup_insert_ne
             | by rewrite ?lookup_delete_eq, ?lookup_insert_eq].
Qed.

Lemma db_BatchWrite_inv v b :
  db_inv v -> (forall ty, anchors_ok ty (b_anchors b ty)) -> db_inv (db_BatchWrite v b).
Proof.
  intros Hv Ha ty r t. cbn [db_anchors db_BatchWrite]. rewrite db_anchors_spec.
  destruct (b_anchors b ty !! r) as [e|] eqn:E; [|by apply Hv]. unfold db_anchor_result.
  destruct (anchor_DIRTY e), (entered e), (bool_decide (r = (empty_root ty))); intros Et;
    try exact (Hv ty r t Et); try done.
  injection Et as <-. exact (proj1 (Ha ty _ _ E)).
Qed.

Lemma db_BatchWrite_view v b :
  (forall ty, anchors_ok ty (b_anchors b ty)) ->
  hash_IsNull (b_hashBlock b) = false -> (forall ty, hash_IsNull (b_hashAnchor b ty) = false) ->
  db_view_of (db_BatchWrite v b) ≡ apply_batch b (db_view_of v).
Proof.
  intros Ha Hb Hh. split; [|split; [|split; [|split]]]; cbn.
  - intros t. rewrite db_coins_spec. destruct (b_coins b !! t) as [e|]; [|done]. destruct (DIRTY e); [|done].
    cbn. by destruct (IsPruned (coins e)) eqn:Ep; cbn; rewrite ?Ep.
  - intros ty n. rewrite db_nullifiers_spec. destruct (b_nullifiers b ty !! n) as [e|]; [|done].
    destruct (nullifier_DIRTY e); [|done]. by destruct (spent e).
  - intros ty r. unfold db_GetAnchorAt. cbn [db_anchors db_BatchWrite].
    destruct (b_anchors b ty !! r) as [e|] eqn:E; rewrite db_anchors_spec, E; [|done].
    unfold db_anchor_result. destruct (anchor_DIRTY e); [|done]. destruct (Ha ty _ _ E) as [Hroot Hent].
    destruct (decide (r = (empty_root ty))) as [->|Hr].
    + rewrite !bool_decide_true, Hent by done. f_equal. by apply (root_inj ty).
    + rewrite !bool_decide_false by done. done.
  - by rewrite Hb.
  - intros ty. unfold db_GetBestAnchor. cbn. by rewrite Hh.
Qed.

#[export] Instance db_laws : CCoinsViewLaws CCoinsViewDB.
Proof.
  refine {| view_inv := db_inv; view_of := db_view_of; known := fun _ _ => True |}.
  - intros v ty r t Hv. cbn. unfold db_GetAnchorAt. case_bool_decide as Hr; [by intros [= <-]|]. apply Hv.
  - intros v ty Hv. cbn. unfold db_GetAnchorAt. by rewrite bool_decide_true.
  - by intros v t r v' Hv [= <- <-].
  - by intros v ty n r v' Hv [= <- <-].
  - by intros v ty rt r v' Hv [= <- <-].
  - by intros v r v' Hv [= <- <-].
  - by intros v ty r v' Hv [= <- <-].
Defined.

#[export] Instance db_writes : CCoinsViewWrites CCoinsViewDB.
Proof.
  split. intros v b Hv _ Ha Hb Hh. eexists. split; [done|]. split; [by apply db_BatchWrite_inv|by apply db_BatchWrite_view].
Qed.
End DatabaseLaws.

(** ** The cache keeps the contract *)

Section CacheLaws.
Context `{CacheParamsLaws} {V : Type} `{!CCoinsView V} `{!CCoinsViewLaws V}.

(** Fresh entries are absent from the base, other entries have been looked up there, and
    entries that are not dirty agree with the base. *)
Definition coin_entry_ok (b : V) (t : uint256) (e : CCoinsCacheEntry) : Prop :=
  (FRESH e = true -> utxo (view_of b) t = None) /\ (FRESH e = false -> known b t) /\
  (DIRTY e = false -> live (Some (coins e)) = utxo (view_of b) t).
Definition anchor_entry_ok (b : V) (ty : ShieldedType) (r : uint256) (e : CAnchorsCacheEntry) : Prop :=
  anchor_DIRTY e = false -> entered e = true /\ anchor_tree (view_of b) ty r = Some (tree e).
Definition nullifier_entry_ok (b : V) (ty : ShieldedType) (n : uint256) (e : CNullifiersCacheEntry) : Prop :=
  nullifier_DIRTY e = false -> spent e = nullifier_spent (view_of b) ty n.

Record cache_inv (c : CCoinsViewCache V) : Prop := {
  ci_base : view_inv (base c);
  ci_modifier : hasModifier (data c) = false;
  ci_coins : map_Forall (coin_entry_ok (base c)) (cacheCoins (data c));
  ci_anchors : forall ty, anchors_ok ty (cacheAnchors (data c) ty);
  ci_clean_anchors : forall ty, map_Forall (anchor_entry_ok (base c) ty) (cacheAnchors (data c) ty);
  ci_nullifiers : forall ty, map_Forall (nullifier_entry_ok (base c) ty) (cacheNullifiers (data c) ty)
}.

Definition cache_view_of (c : CCoinsViewCache V) : view := {|
  utxo t := match cacheCoins (data c) !! t with
            | Some e => live (Some (coins e))
            | None => utxo (view_of (base c)) t
            end;
  nullifier_spent ty n := match cacheNullifiers (data c) ty !! n with
            | Some e => spent e
            | None => nullifier_spent (view_of (base c)) ty n
            end;
  anchor_tree ty r := match cacheAnchors (data c) ty !! r with
            | Some e => if entered e then Some (tree e) else None
            | None => anchor_tree (view_of (base c)) ty r
            end;
  best_block := if hash_IsNull (hashBlock (data c)) then best_block (view_of (base c)) else hashBlock (data c);
  best_anchor ty := if hash_IsNull (hashAnchor (data c) ty) then best_anchor (view_of (base c)) ty
                    else hashAnchor (data c) ty
|}.

(** Reading from the base does not disturb the cache. *)
Lemma cache_base_change d b b' :
  cache_inv (mk_cache d b) -> view_inv b' -> view_of b' ≡ view_of b -> (forall t, known b t -> known b' t) ->
  cache_inv (mk_cache d b') /\ cache_view_of (mk_cache d b') ≡ cache_view_of (mk_cache d b).
Proof.
  intros [Hb Hm Hc Ha Hac Hn] Hb' (E1 & E2 & E3 & E4 & E5) Hk. cbn [data base] in *. split.
  - split; cbn [data base]; try done.
    + intros t e He. destruct (Hc t e He) as (H1 & H2 & H3). split; [|split]; intros; rewrite ?E1; auto.
    + intros ty r e He Hd. rewrite E3. by apply (Hac ty r e He).
    + intros ty n e He Hd. rewrite E2. by apply (Hn ty n e He).
  - split; [|split; [|split; [|split]]]; cbn [utxo nullifier_spent anchor_tree best_block best_anchor cache_view_of data base].
    + intros t. by destruct (cacheCoins d !! t).
    + intros ty n. by destruct (cacheNullifiers d ty !! n).
    + intros ty r. by destruct (cacheAnchors d ty !! r).
    + by rewrite E4.
    + intros ty. by rewrite E5.
Qed.

(** A new entry that says what the base says. *)
Lemma cache_insert_coin d b t e u :
  cache_inv (mk_cache d b) -> coin_entry_ok b t e -> cacheCoins d !! t = None ->
  live (Some (coins e)) = utxo (view_of b) t ->
  cache_inv (mk_cache (set_coins d (<[t := e]> (cacheCoins d)) u) b) /\
  cache_view_of (mk_cache (set_coins d (<[t := e]> (cacheCoins d)) u) b) ≡ cache_view_of (mk_cache d b).
Proof.
  intros [Hb Hm Hc Ha Hac Hn] He Ht Hl. cbn [data base] in *. split.
  - split; cbn [data base set_coins cacheCoins]; try done. by apply map_Forall_insert_2.
  - split; [|done]. intros t'. cbn. destruct (decide (t' = t)) as [->|Hne].
    + by rewrite lookup_insert_eq, Ht.
    + by rewrite lookup_insert_ne.
Qed.

Definition cache_known (c : CCoinsViewCache V) (t : uint256) : Prop := is_Some (cacheCoins (data c) !! t).

Lemma FetchCoins_spec c t r c' :
  cache_inv c -> FetchCoins c t = (r, c') ->
  cache_inv c' /\ cache_view_of c' ≡ cache_view_of c /\ live (coins <$> r) = utxo (cache_view_of c) t /\
  (forall t', cache_known c t' -> cache_known c' t') /\ r = cacheCoins (data c') !! t.
Proof.
  intros Hi. unfold FetchCoins. destruct (cacheCoins (data c) !! t) as [e|] eqn:Et.
  { intros [= <- <-]. split; [done|]. split; [done|]. split; [cbn; by rewrite Et|]. by rewrite Et. }
  destruct c as [d b]. cbn [data base] in *. destruct (GetCoins b t) as [x b'] eqn:Eg.
  destruct (GetCoins_law b t x b' (ci_base _ Hi) Eg) as (Hb' & Ev & Hl & Hk & Hkn).
  destruct (cache_base_change d b b' Hi Hb' Ev Hk) as [Hi' Ev'].
  assert (utxo (cache_view_of (mk_cache d b)) t = live x) as Eu by (cbn; by rewrite Et, Hl).
  destruct x as [x|]; intros [= <- <-].
  - set (e := {| coins := x; DIRTY := false; FRESH := IsPruned x |}).
    assert (live (Some x) = utxo (view_of b') t) as Hl' by (by rewrite Ev, Hl).
    destruct (cache_insert_coin d b' t e (u64 (cachedCoinsUsage d + coins_usage x)) Hi') as [Hi'' Ev'']; try done.
    { split; [|split]; cbn; try done.
      - intros Hp. rewrite <- Hl'. cbn. by rewrite Hp.
      - intros _. apply Hkn. by eexists. }
    split; [done|]. split; [by rewrite Ev''|]. split; [by rewrite Eu|].
    split; [|cbn; by rewrite lookup_insert_eq].
    intros t' [e' He']. unfold cache_known. cbn in *. destruct (decide (t' = t)) as [->|Hne].
    + rewrite lookup_insert_eq. by eexists.
    + rewrite lookup_insert_ne by done. by eexists.
  - split; [done|]. split; [done|]. split; [by rewrite Eu|]. by cbn; rewrite Et.
Qed.

Lemma cache_GetCoins_law c t r c' :
  cache_inv c -> cache_GetCoins c t = (r, c') ->
  cache_inv c' /\ cache_view_of c' ≡ cache_view_of c /\ live r = utxo (cache_view_of c) t /\
  (forall t', cache_known c t' -> cache_known c' t') /\ (is_Some r -> cache_known c' t).
Proof.
  intros Hi. unfold cache_GetCoins. destruct (FetchCoins c t) as [x c1] eqn:E. intros [= <- <-].
  destruct (FetchCoins_spec c t x c1 Hi E) as (H1 & H2 & H3 & H4 & ->). repeat (split; [done|]).
  unfold cache_known. by rewrite fmap_is_Some.
Qed.

Lemma upd_same {A} (f : ShieldedType -> A) ty a : upd f ty a ty = a.
Proof. unfold upd. by rewrite decide_True. Qed.
Lemma upd_other {A} (f : ShieldedType -> A) ty a ty' : ty' <> ty -> upd f ty a ty' = f ty'.
Proof. intros Hne. unfold upd. by rewrite decide_False. Qed.

(** Replacing the nullifiers of one type: what has to be shown of the new map. *)
Lemma cache_set_nullifiers d b ty m :
  cache_inv (mk_cache d b) -> map_Forall (nullifier_entry_ok b ty) m ->
  cache_inv (mk_cache (set_nullifiers d ty m) b).
Proof.
  intros [Hb Hm Hc Ha Hac Hn] Hok. cbn [data base] in *.
  split; cbn [data base set_nullifiers hasModifier cacheCoins cacheAnchors cacheNullifiers]; try done.
  intros ty'. destruct (decide (ty' = ty)) as [->|Hne]; [by rewrite upd_same|]. rewrite upd_other by done. apply Hn.
Qed.

Lemma cache_set_anchors d b ty m u :
  cache_inv (mk_cache d b) -> anchors_ok ty m -> map_Forall (anchor_entry_ok b ty) m ->
  cache_inv (mk_cache (set_anchors d ty m u) b).
Proof.
  intros [Hb Hm Hc Ha Hac Hn] Hok Hok'. cbn [data base] in *.
  split; cbn [data base set_anchors hasModifier cacheCoins cacheAnchors cacheNullifiers]; try done;
    intros ty'; (destruct (decide (ty' = ty)) as [->|Hne]; [by rewrite upd_same|]); rewrite upd_other by done; auto.
Qed.

Lemma cache_set_hashAnchor d b ty h :
  cache_inv (mk_cache d b) -> cache_inv (mk_cache (set_hashAnchor d ty h) b).
Proof. intros [Hb Hm Hc Ha Hac Hn]. by split. Qed.

Lemma cache_GetNullifier_law c ty n r c' :
  cache_inv c -> cache_GetNullifier c ty n = (r, c') ->
  cache_inv c' /\ cache_view_of c' ≡ cache_view_of c /\ r = nullifier_spent (cache_view_of c) ty n /\
  (forall t', cache_known c t' -> cache_known c' t').
Proof.
  intros Hi. unfold cache_GetNullifier. destruct (cacheNullifiers (data c) ty !! n) as [e|] eqn:Et.
  { intros [= <- <-]. cbn. by rewrite Et. }
  destruct c as [d b]. cbn [data base] in *. destruct (GetNullifier b ty n) as [x b'] eqn:Eg.
  destruct (GetNullifier_law b ty n x b' (ci_base _ Hi) Eg) as (Hb' & Ev & Hl & Hk).
  destruct (cache_base_change d b b' Hi Hb' Ev Hk) as [Hi' Ev']. intros [= <- <-].
  split; [|split; [|split; [cbn; by rewrite Et|done]]].
  - apply cache_set_nullifiers; [done|]. apply map_Forall_insert_2; [|apply (ci_nullifiers _ Hi')].
    intros _. cbn. by rewrite Ev.
  - etrans; [|exact Ev']. split; [done|]. split; [|done]. intros ty' n'. cbn.
    destruct (decide (ty' = ty)) as [->|Hne]; [|by rewrite upd_other]. rewrite upd_same.
    destruct (decide (n' = n)) as [->|Hne]; [|by rewrite lookup_insert_ne].
    rewrite lookup_insert_eq, Et. cbn. by rewrite Ev.
Qed.

Lemma cache_GetAnchorAt_law c ty rt r c' :
  cache_inv c -> cache_GetAnchorAt c ty rt = (r, c') ->
  cache_inv c' /\ cache_view_of c' ≡ cache_view_of c /\ r = anchor_tree (cache_view_of c) ty rt /\
  (forall t', cache_known c t' -> cache_known c' t').
Proof.
  intros Hi. unfold cache_GetAnchorAt. destruct (cacheAnchors (data c) ty !! rt) as [e|] eqn:Et.
  { intros [= <- <-]. cbn. by rewrite Et. }
  destruct c as [d b]. cbn [data base] in *. destruct (GetAnchorAt b ty rt) as [x b'] eqn:Eg.
  destruct (GetAnchorAt_law b ty rt x b' (ci_base _ Hi) Eg) as (Hb' & Ev & Hl & Hk).
  destruct (cache_base_change d b b' Hi Hb' Ev Hk) as [Hi' Ev'].
  destruct x as [x|]; intros [= <- <-]; [|by cbn; rewrite Et].
  assert (anchor_tree (view_of b') ty rt = Some x) as Hx by (by rewrite Ev).
  split; [|split; [|split; [cbn; by rewrite Et|done]]].
  - apply cache_set_anchors; [done|apply map_Forall_insert_2; [|apply (ci_anchors _ Hi')]
      |apply map_Forall_insert_2; [by intros _|apply (ci_clean_anchors _ Hi')]].
    split; [|done]. by eapply (view_anchor_root b').
  - etrans; [|exact Ev']. split; [done|]. split; [done|]. split; [|done]. intros ty' n'. cbn.
    destruct (decide (ty' = ty)) as [->|Hne]; [|by rewrite upd_other]. rewrite upd_same.
    destruct (decide (n' = rt)) as [->|Hne]; [|by rewrite lookup_insert_ne].
    rewrite lookup_insert_eq, Et. by cbn.
Qed.

Lemma cache_GetBestBlock_law c r c' :
  cache_inv c -> cache_GetBestBlock c = (r, c') ->
  cache_inv c' /\ cache_view_of c' ≡ cache_view_of c /\ r = best_block (cache_view_of c) /\
  (forall t', cache_known c t' -> cache_known c' t').
Proof.
  intros Hi. unfold cache_GetBestBlock. destruct (hash_IsNull (hashBlock (data c))) eqn:Et.
  2:{ intros [= <- <-]. cbn. by rewrite Et. }
  destruct c as [d b]. cbn [data base] in *. destruct (GetBestBlock b) as [x b'] eqn:Eg.
  destruct (GetBestBlock_law b x b' (ci_base _ Hi) Eg) as (Hb' & Ev & Hl & Hk).
  destruct (cache_base_change d b b' Hi Hb' Ev Hk) as [[] Ev']. intros [= <- <-].
  split; [by split|]. split; [|split; [cbn; by rewrite Et|done]]. etrans; [|exact Ev'].
  repeat (split; [done|]). split; [|done]. cbn -[hash_IsNull]. rewrite Et. destruct (hash_IsNull x) eqn:Ex; [done|]. by rewrite Ev.
Qed.

Lemma cache_GetBestAnchor_law c ty r c' :
  cache_inv c -> cache_GetBestAnchor c ty = (r, c') ->
  cache_inv c' /\ cache_view_of c' ≡ cache_view_of c /\ r = best_anchor (cache_view_of c) ty /\
  (forall t', cache_known c t' -> cache_known c' t').
Proof.
  intros Hi. unfold cache_GetBestAnchor. destruct (hash_IsNull (hashAnchor (data c) ty)) eqn:Et.
  2:{ intros [= <- <-]. cbn. by rewrite Et. }
  destruct c as [d b]. cbn [data base] in *. destruct (GetBestAnchor b ty) as [x b'] eqn:Eg.
  destruct (GetBestAnchor_law b ty x b' (ci_base _ Hi) Eg) as (Hb' & Ev & Hl & Hk).
  destruct (cache_base_change d b b' Hi Hb' Ev Hk) as [Hi' Ev']. intros [= <- <-].
  split; [by apply cache_set_hashAnchor|]. split; [|split; [cbn; by rewrite Et|done]]. etrans; [|exact Ev'].
  repeat (split; [done|]). cbn -[hash_IsNull]. intros ty'.
  destruct (decide (ty' = ty)) as [->|Hne]; [|by rewrite upd_other]. rewrite upd_same, Et. destruct (hash_IsNull x) eqn:Ex; [done|]. by rewrite Ev.
Qed.

(** *** Receiving a batch *)

(** The result for one coin entry, given that the batch respects the contract. *)
Lemma coin_result_ok c t e :
  cache_inv c -> (FRESH e = true -> utxo (cache_view_of c) t = None) -> (FRESH e = false -> cache_known c t) ->
  (forall e', coin_result e (cacheCoins (data c) !! t) = Some e' -> coin_entry_ok (base c) t e') /\
  match coin_result e (cacheCoins (data c) !! t) with
  | Some e' => live (Some (coins e'))
  | None => utxo (view_of (base c)) t
  end = if DIRTY e then live (Some (coins e)) else utxo (cache_view_of c) t.
Proof.
  intros Hi Hf Hk. pose proof (ci_coins _ Hi t) as Hc. unfold cache_known in Hk.
  cbn [utxo cache_view_of] in *. unfold coin_result.
  destruct (cacheCoins (data c) !! t) as [us|] eqn:Eu; destruct (DIRTY e) eqn:Ed.
  - destruct (Hc us eq_refl) as (Hus1 & Hus2 & Hus3).
    destruct (FRESH us && IsPruned (coins e)) eqn:Efp.
    + apply andb_prop in Efp as [Efr Ep]. split; [done|]. rewrite Hus1 by done. cbn. by rewrite Ep.
    + split; [|done]. intros e' [= <-]. split; [|split]; cbn; done.
  - split; [|done]. intros e' [= <-]. by apply Hc.
  - assert (FRESH e = true) as Hfe.
    { destruct (FRESH e); [done|]. by destruct (Hk eq_refl). }
    destruct (IsPruned (coins e)) eqn:Ep.
    + split; [done|]. rewrite Hf by done. cbn. by rewrite Ep.
    + split; [|done]. intros e' [= <-]. split; [|split]; cbn; try done. by intros _; apply Hf.
  - by split.
Qed.

Lemma anchor_result_ok c ty r e :
  cache_inv c -> tree_root ty (tree e) = r -> (r = (empty_root ty) -> entered e = true) ->
  (forall e', anchor_result e (cacheAnchors (data c) ty !! r) = Some e' ->
     (tree_root ty (tree e') = r /\ (r = (empty_root ty) -> entered e' = true)) /\ anchor_entry_ok (base c) ty r e') /\
  match anchor_result e (cacheAnchors (data c) ty !! r) with
  | Some e' => if entered e' then Some (tree e') else None
  | None => anchor_tree (view_of (base c)) ty r
  end = if anchor_DIRTY e then (if entered e then Some (tree e) else None) else anchor_tree (cache_view_of c) ty r.
Proof.
  intros Hi Hr He. pose proof (ci_anchors _ Hi ty r) as Ha. pose proof (ci_clean_anchors _ Hi ty r) as Hac.
  cbn [anchor_tree cache_view_of] in *. unfold anchor_result.
  destruct (cacheAnchors (data c) ty !! r) as [p|] eqn:Ep; destruct (anchor_DIRTY e) eqn:Ed.
  - destruct (Ha p eq_refl) as [Hpr Hpe]. specialize (Hac p eq_refl).
    assert (tree p = tree e) as Ht by (apply (root_inj ty); congruence).
    destruct (entered p) eqn:Een, (entered e) eqn:Eee; cbn [Bool.eqb negb];
      (split; [intros e' [= <-]; cbn [tree entered]; rewrite ?Een; by split|]); rewrite ?Een; cbn; congruence.
  - split; [|done]. intros e' [= <-]. split; [by apply Ha|by apply Hac].
  - split; [|done]. intros e' [= <-]. by split.
  - by split.
Qed.

Lemma nullifier_result_ok c ty n e :
  cache_inv c ->
  (forall e', nullifier_result e (cacheNullifiers (data c) ty !! n) = Some e' -> nullifier_entry_ok (base c) ty n e') /\
  match nullifier_result e (cacheNullifiers (data c) ty !! n) with
  | Some e' => spent e'
  | None => nullifier_spent (view_of (base c)) ty n
  end = if nullifier_DIRTY e then spent e else nullifier_spent (cache_view_of c) ty n.
Proof.
  intros Hi. pose proof (ci_nullifiers _ Hi ty n) as Hn. cbn [nullifier_spent cache_view_of].
  unfold nullifier_result. destruct (cacheNullifiers (data c) ty !! n) as [p|] eqn:Ep; destruct (nullifier_DIRTY e) eqn:Ed.
  - specialize (Hn p eq_refl). destruct (spent p) eqn:Esp, (spent e) eqn:Ese; cbn [Bool.eqb negb];
      (split; [by intros e' [= <-]|]); rewrite ?Esp; done.
  - split; [|done]. intros e' [= <-]. by apply Hn.
  - split; [|done]. by intros e' [= <-].
  - by split.
Qed.

Lemma cache_BatchWrite_law c b :
  cache_inv c ->
  map_Forall (fun t e => (FRESH e = true -> utxo (cache_view_of c) t = None) /\
                         (FRESH e = false -> cache_known c t)) (b_coins b) ->
  (forall ty, anchors_ok ty (b_anchors b ty)) ->
  hash_IsNull (b_hashBlock b) = false -> (forall ty, hash_IsNull (b_hashAnchor b ty) = false) ->
  exists c', cache_BatchWrite c b = Ok c' /\ cache_inv c' /\ cache_view_of c' ≡ apply_batch b (cache_view_of c).
Proof.
  intros Hi Hbc Hba Hhb Hha. unfold cache_BatchWrite. rewrite (ci_modifier _ Hi).
  destruct (batch_coins_spec (map_to_list (b_coins b)) (cacheCoins (data c)) (cachedCoinsUsage (data c)))
    as (st & Est & Hst); [apply NoDup_fst_map_to_list| |].
  { apply Forall_forall. intros [t e] Hin%elem_of_map_to_list Hd Hn. cbn in *. left.
    destruct (Hbc t e Hin) as [_ Hk]. destruct (FRESH e); [done|]. destruct (Hk eq_refl) as [e' He']. congruence. }
  rewrite Est. cbn [res_bind]. eexists. split; [reflexivity|].
  rewrite list_to_map_to_list in Hst.
  set (anc := fun ty : ShieldedType => match ty with SPROUT => _ | SAPLING => _ end).
  assert (forall ty r, anc ty !! r = match b_anchors b ty !! r with
            | Some e => anchor_result e (cacheAnchors (data c) ty !! r)
            | None => cacheAnchors (data c) ty !! r end) as Hanc.
  { intros [|] r; subst anc; cbn beta iota; by rewrite batch_anchors_spec. }
  split.
  - split; cbn [data base hasModifier cacheCoins cacheAnchors cacheNullifiers];
      [apply (ci_base _ Hi)|done|..].
    + intros t e. rewrite Hst. destruct (b_coins b !! t) as [x|] eqn:Ex; [|apply (ci_coins _ Hi)].
      destruct (Hbc t x Ex) as [Hf Hk]. by apply coin_result_ok.
    + intros ty r e. rewrite Hanc. destruct (b_anchors b ty !! r) as [x|] eqn:Ex; [|apply (ci_anchors _ Hi)].
      destruct (Hba ty r x Ex) as [Hr He]. by apply anchor_result_ok.
    + intros ty r e. rewrite Hanc. destruct (b_anchors b ty !! r) as [x|] eqn:Ex; [|apply (ci_clean_anchors _ Hi)].
      destruct (Hba ty r x Ex) as [Hr He]. by apply anchor_result_ok.
    + intros ty n e. rewrite batch_nullifiers_spec.
      destruct (b_nullifiers b ty !! n) as [x|] eqn:Ex; [|apply (ci_nullifiers _ Hi)]. by apply nullifier_result_ok.
  - split; [|split; [|split; [|split]]].
    + intros t. cbn [utxo cache_view_of apply_batch data base cacheCoins]. rewrite Hst.
      destruct (b_coins b !! t) as [x|] eqn:Ex; [|done]. destruct (Hbc t x Ex) as [Hf Hk]. by apply coin_result_ok.
    + intros ty n. cbn [nullifier_spent cache_view_of apply_batch data base cacheNullifiers].
      rewrite batch_nullifiers_spec. destruct (b_nullifiers b ty !! n) as [x|] eqn:Ex; [|done]. by apply nullifier_result_ok.
    + intros ty r. cbn [anchor_tree cache_view_of apply_batch data base cacheAnchors]. rewrite Hanc.
      destruct (b_anchors b ty !! r) as [x|] eqn:Ex; [|done]. destruct (Hba ty r x Ex) as [Hr He]. by apply anchor_result_ok.
    + cbn -[hash_IsNull]. by rewrite Hhb.
    + intros ty. cbn -[hash_IsNull]. by rewrite Hha.
Qed.

Lemma cache_anchor_root c ty r t :
  cache_inv c -> anchor_tree (cache_view_of c) ty r = Some t -> tree_root ty t = r.
Proof.
  intros Hi. cbn. destruct (cacheAnchors (data c) ty !! r) as [e|] eqn:E.
  - destruct (ci_anchors _ Hi ty r e E) as [Hr _]. destruct (entered e); [|done]. by intros [= <-].
  - by apply view_anchor_root, (ci_base _ Hi).
Qed.

Lemma cache_empty_root c ty : cache_inv c -> anchor_tree (cache_view_of c) ty (empty_root ty) = Some new_tree.
Proof.
  intros Hi. cbn. destruct (cacheAnchors (data c) ty !! (empty_root ty)) as [e|] eqn:E.
  - destruct (ci_anchors _ Hi ty _ e E) as [Hr He]. rewrite He by done. f_equal. by apply (root_inj ty).
  - by apply view_empty_root, (ci_base _ Hi).
Qed.

#[export] Instance cache_laws : CCoinsViewLaws (CCoinsViewCache V) := {|
  view_inv := cache_inv; view_of := cache_view_of; known := cache_known;
  view_anchor_root := cache_anchor_root; view_empty_root := cache_empty_root;
  GetCoins_law := cache_GetCoins_law; GetNullifier_law := cache_GetNullifier_law;
  GetAnchorAt_law := cache_GetAnchorAt_law; GetBestBlock_law := cache_GetBestBlock_law;
  GetBestAnchor_law := cache_GetBestAnchor_law
|}.
#[export] Instance cache_writes : CCoinsViewWrites (CCoinsViewCache V).
Proof. split. exact cache_BatchWrite_law. Qed.

(** *** Flushing *)

(** The batch of a cache, applied to its base, is the view of the cache. *)
Lemma cache_batch_view c :
  cache_inv c -> hash_IsNull (hashBlock (data c)) = false ->
  (forall ty, hash_IsNull (hashAnchor (data c) ty) = false) ->
  apply_batch (cache_batch (data c)) (view_of (base c)) ≡ cache_view_of c.
Proof.
  intros Hi Hb Hh. split; [|split; [|split; [|split]]].
  - intros t. cbn [utxo apply_batch cache_batch b_coins cache_view_of].
    destruct (cacheCoins (data c) !! t) as [e|] eqn:E; [|done]. destruct (ci_coins _ Hi t e E) as (_ & _ & Hd).
    destruct (DIRTY e); [done|]. by rewrite Hd.
  - intros ty n. cbn [nullifier_spent apply_batch cache_batch b_nullifiers cache_view_of].
    destruct (cacheNullifiers (data c) ty !! n) as [e|] eqn:E; [|done]. pose proof (ci_nullifiers _ Hi ty n e E) as Hd.
    unfold nullifier_entry_ok in Hd. destruct (nullifier_DIRTY e); [done|]. by rewrite Hd.
  - intros ty r. cbn [anchor_tree apply_batch cache_batch b_anchors cache_view_of].
    destruct (cacheAnchors (data c) ty !! r) as [e|] eqn:E; [|done]. pose proof (ci_clean_anchors _ Hi ty r e E) as Hd.
    unfold anchor_entry_ok in Hd. destruct (anchor_DIRTY e); [done|]. by destruct Hd as [-> ->].
  - cbn -[hash_IsNull]. by rewrite Hb.
  - intros ty. cbn -[hash_IsNull]. by rewrite Hh.
Qed.

Lemma Flush_spec `{!CCoinsViewWrites V} c :
  cache_inv c -> hash_IsNull (hashBlock (data c)) = false ->
  (forall ty, hash_IsNull (hashAnchor (data c) ty) = false) ->
  exists c', Flush c = Ok c' /\ cache_inv c' /\
    view_of (base c') ≡ cache_view_of c /\ cache_view_of c' ≡ cache_view_of c /\
    hashBlock (data c') = hashBlock (data c) /\ hashAnchor (data c') = hashAnchor (data c) /\
    cacheCoins (data c') = ∅ /\ (forall ty, cacheAnchors (data c') ty = ∅ /\ cacheNullifiers (data c') ty = ∅) /\ cachedCoinsUsage (data c') = 0.
Proof.
  intros Hi Hb Hh. unfold Flush.
  destruct (BatchWrite_law (base c) (cache_batch (data c)) (ci_base _ Hi)) as (b' & Eb & Hb' & Ev); try done.
  { intros t e He. destruct (ci_coins _ Hi t e He) as (H1 & H2 & _). by split. }
  { apply (ci_anchors _ Hi). }
  assert (view_of b' ≡ cache_view_of c) as Ev' by (rewrite Ev; by apply cache_batch_view).
  rewrite Eb. cbn [res_bind]. eexists. split; [reflexivity|]. split; [|split; [done|split; [|done]]].
  - split; cbn [data base hasModifier cacheCoins cacheAnchors cacheNullifiers]; try done.
    by apply (ci_modifier _ Hi).
  - destruct Ev' as (E1 & E2 & E3 & E4 & E5).
    split; [|split; [|split; [|split]]]; cbn -[hash_IsNull]; try done.
    + by rewrite Hb.
    + intros ty. by rewrite Hh.
Qed.

(** C24. Flushing a cache moves its whole state into the base view and loses nothing: for a
    cache that knows its best block and anchors, over any lawful base (the database or
    another cache), no assertion fails, the base afterwards shows exactly what the cache
    showed, and the cache itself still shows the same, with its best block and anchors, while its
    maps of coins, anchors and nullifiers of both kinds are empty and account for no memory. *)
Theorem Flush_refines `{!CCoinsViewWrites V} c :
  cache_inv c -> hash_IsNull (hashBlock (data c)) = false ->
  (forall ty, hash_IsNull (hashAnchor (data c) ty) = false) ->
  exists c', Flush c = Ok c' /\ cache_inv c' /\
    view_of (base c') ≡ cache_view_of c /\ cache_view_of c' ≡ cache_view_of c /\
    hashBlock (data c') = hashBlock (data c) /\ hashAnchor (data c') = hashAnchor (data c) /\
    cacheCoins (data c') = ∅ /\ (forall ty, cacheAnchors (data c') ty = ∅ /\ cacheNullifiers (data c') ty = ∅) /\ cachedCoinsUsage (data c') = 0.
Proof. apply Flush_spec. Qed.

(** *** Modifications *)

Definition set_utxo (w : view) (t : uint256) (x : option CCoins) : view := {|
  utxo t' := if decide (t' = t) then x else utxo w t';
  nullifier_spent := nullifier_spent w; anchor_tree := anchor_tree w;
  best_block := best_block w; best_anchor := best_anchor w
|}.

#[export] Instance set_utxo_proper : Proper ((≡) ==> (=) ==> (=) ==> (≡)) set_utxo.
Proof.
  intros a b (E1 & E2 & E3 & E4 & E5) t ? <- x ? <-. split; [|done]. intros t'. cbn. by case_decide.
Qed.

(** The end of a modifier's life. *)
Lemma modifier_scope d b t e u usage f :
  cache_inv (mk_cache d b) ->
  (FRESH e = true -> utxo (view_of b) t = None) -> (FRESH e = false -> known b t) -> DIRTY e = true ->
  exists c', with_modifier (new_modifier (mk_cache (set_coins d (<[t := e]> (cacheCoins d)) u) b) t usage) f = Ok c' /\
    cache_inv c' /\
    cache_view_of c' ≡ set_utxo (cache_view_of (mk_cache d b)) t (live (Some (Cleanup (f (coins e))))).
Proof.
  intros [Hb Hm Hc Ha Hac Hn] Hf Hk Hd. cbn [data base] in *. unfold with_modifier, new_modifier. cbn [data hasModifier set_coins].
  rewrite Hm. cbn [res_bind fst snd]. unfold modifier_destroy. cbn [modifier_apply data hasModifier set_modifier set_coins negb
    cacheCoins it base cachedCoinsUsage cachedCoinUsage].
  rewrite lookup_alter_eq, lookup_insert_eq. cbn [fmap option_fmap option_map FRESH coins DIRTY].
  set (x := Cleanup (f (coins e))).
  assert (forall t', t' <> t -> forall g, alter g t (<[t := e]> (cacheCoins d)) !! t' = cacheCoins d !! t') as Hother.
  { intros t' Hne g. by rewrite lookup_alter_ne, lookup_insert_ne. }
  destruct (FRESH e && IsPruned x) eqn:Efp; (eexists; split; [reflexivity|]); split.
  - split; cbn [data base set_coins set_modifier hasModifier cacheCoins cacheAnchors cacheNullifiers]; try done.
    intros t' e' Ht'. destruct (decide (t' = t)) as [->|Hne]; [by rewrite lookup_delete_eq in Ht'|].
    rewrite lookup_delete_ne, Hother in Ht' by done. by apply Hc.
  - apply andb_prop in Efp as [Hfe Hp]. split; [|done]. intros t'. cbn -[live]. case_decide as Et; [subst t'|].
    + rewrite lookup_delete_eq, Hf by done. unfold live. cbn [mbind option_bind]. by rewrite Hp.
    + by rewrite lookup_delete_ne, Hother.
  - split; cbn [data base set_coins set_modifier hasModifier cacheCoins cacheAnchors cacheNullifiers]; try done.
    intros t' e' Ht'. destruct (decide (t' = t)) as [->|Hne].
    + rewrite lookup_insert_eq in Ht'. injection Ht' as <-. split; [done|]. split; [done|]. cbn. by rewrite Hd.
    + rewrite lookup_insert_ne, Hother in Ht' by done. by apply Hc.
  - split; [|done]. intros t'. cbn. case_decide as Et; [subst t'|].
    + by rewrite lookup_insert_eq.
    + by rewrite lookup_insert_ne, Hother.
Qed.

(** A scope of [ModifyCoins] around an arbitrary change [f] reads the current unspent
    outputs of the transaction and replaces them by the cleaned result, no more and no less;
    [ModifyNewCoins] does so starting from an empty entry when the base has no unspent output
    of that transaction.  No assertion fails and the cache stays consistent with its base,
    whether the entry was cached, fetched, or erased at the end because it is fresh and spent. *)
Theorem modify_refines c t f :
  cache_inv c ->
  (exists x c', with_modifier (ModifyCoins c t) f = Ok c' /\ live (Some x) = utxo (cache_view_of c) t /\
     cache_inv c' /\ cache_view_of c' ≡ set_utxo (cache_view_of c) t (live (Some (Cleanup (f x))))) /\
  (utxo (view_of (base c)) t = None ->
   exists c', with_modifier (ModifyNewCoins c t) f = Ok c' /\
     cache_inv c' /\ cache_view_of c' ≡ set_utxo (cache_view_of c) t (live (Some (Cleanup (f coins_Clear))))).
Proof.
  intros Hi. destruct c as [d b]. split.
  - unfold ModifyCoins. rewrite (ci_modifier _ Hi). cbn [data base].
    destruct (cacheCoins d !! t) as [e|] eqn:Et.
    + destruct (ci_coins _ Hi t e Et) as (H1 & H2 & _).
      destruct (modifier_scope d b t {| coins := coins e; DIRTY := true; FRESH := FRESH e |}
        (cachedCoinsUsage d) (coins_usage (coins e)) f Hi) as (c' & E & Hi' & Ev); try done.
      exists (coins e), c'. split; [exact E|]. split; [cbn; by rewrite Et|done].
    + destruct (GetCoins b t) as [x b'] eqn:Eg.
      destruct (GetCoins_law b t x b' (ci_base _ Hi) Eg) as (Hb' & Evb & Hl & Hk & Hkn).
      destruct (cache_base_change d b b' Hi Hb' Evb Hk) as [Hi' Ev'].
      set (e := match x with None => {| coins := coins_Clear; DIRTY := true; FRESH := true |}
                | Some x => {| coins := x; DIRTY := true; FRESH := IsPruned x |} end).
      assert (live (Some (coins e)) = utxo (view_of b) t) as Hle by (rewrite <- Hl; by destruct x).
      destruct (modifier_scope d b' t e (cachedCoinsUsage d) 0 f Hi') as (c' & E & Hi'' & Ev).
      * intros Hfe. rewrite Evb, <- Hl. destruct x as [x|]; [|done]. cbn in *. by rewrite Hfe.
      * intros Hfe. apply Hkn. destruct x; [by eexists|done].
      * by destruct x.
      * exists (coins e), c'. split; [exact E|]. split; [cbn; by rewrite Et|]. split; [done|].
        by rewrite Ev, Ev'.
  - intros Hn. unfold ModifyNewCoins. rewrite (ci_modifier _ Hi). cbn [data base] in *.
    by apply (modifier_scope d b t {| coins := coins_Clear; DIRTY := true; FRESH := true |}).
Qed.

(** *** Anchors and nullifiers *)

Definition set_anchor (w : view) (ty : ShieldedType) (r : uint256) (x : option Tree) : view := {|
  utxo := utxo w; nullifier_spent := nullifier_spent w;
  anchor_tree ty' r' := if decide (ty' = ty /\ r' = r) then x else anchor_tree w ty' r';
  best_block := best_block w; best_anchor := best_anchor w
|}.
Definition set_best_anchor (w : view) (ty : ShieldedType) (h : uint256) : view := {|
  utxo := utxo w; nullifier_spent := nullifier_spent w; anchor_tree := anchor_tree w;
  best_block := best_block w; best_anchor := upd (best_anchor w) ty h
|}.
Definition set_spent (w : view) (nfs : list uint256) (b : bool) : view := {|
  utxo := utxo w;
  nullifier_spent ty n := if decide (ty = SAPLING /\ n ∈ nfs) then b else nullifier_spent w ty n;
  anchor_tree := anchor_tree w; best_block := best_block w; best_anchor := best_anchor w
|}.

#[export] Instance set_anchor_proper : Proper ((≡) ==> (=) ==> (=) ==> (=) ==> (≡)) set_anchor.
Proof.
  intros a b (E1 & E2 & E3 & E4 & E5) ty ? <- r ? <- x ? <-. split; [done|]. split; [done|]. split; [|done].
  intros ty' r'. cbn. by case_decide.
Qed.
#[export] Instance set_best_anchor_proper : Proper ((≡) ==> (=) ==> (=) ==> (≡)) set_best_anchor.
Proof.
  intros a b (E1 & E2 & E3 & E4 & E5) ty ? <- h ? <-. repeat (split; [done|]). intros ty'. cbn. unfold upd.
  by case_decide.
Qed.

(** Writing a dirty anchor and moving the best anchor. *)
Lemma cache_put_anchor d b ty r e u h :
  cache_inv (mk_cache d b) -> tree_root ty (tree e) = r -> (r = (empty_root ty) -> entered e = true) ->
  anchor_DIRTY e = true -> hash_IsNull h = false ->
  let d' := set_hashAnchor (set_anchors d ty (<[r := e]> (cacheAnchors d ty)) u) ty h in
  cache_inv (mk_cache d' b) /\
  cache_view_of (mk_cache d' b) ≡
    set_best_anchor (set_anchor (cache_view_of (mk_cache d b)) ty r (if entered e then Some (tree e) else None)) ty h.
Proof.
  intros Hi Hr He Hd Hh d'. split.
  - apply cache_set_hashAnchor, cache_set_anchors; [done|apply map_Forall_insert_2; [by split|apply (ci_anchors _ Hi)]|].
    apply map_Forall_insert_2; [|apply (ci_clean_anchors _ Hi)]. unfold anchor_entry_ok. by rewrite Hd.
  - split; [done|]. split; [done|]. split; [|split; [done|]].
    + intros ty' r'. cbn. case_decide as Hc.
      * destruct Hc as [-> ->]. by rewrite upd_same, lookup_insert_eq.
      * destruct (decide (ty' = ty)) as [->|Hty]; [|by rewrite upd_other].
        rewrite upd_same, lookup_insert_ne by (intros <-; by apply Hc). done.
    + intros ty'. cbn -[hash_IsNull]. destruct (decide (ty' = ty)) as [->|Hty]; [by rewrite !upd_same, Hh|].
      by rewrite !upd_other.
Qed.

Lemma PushAnchor_view c ty t :
  cache_inv c -> let w := cache_view_of c in
  cache_inv (PushAnchor c ty t) /\
  cache_view_of (PushAnchor c ty t) ≡
    (if decide (best_anchor w ty = tree_root ty t) then w
     else set_best_anchor (set_anchor w ty (tree_root ty t) (Some t)) ty (tree_root ty t)).
Proof.
  intros Hi w. unfold PushAnchor. destruct (cache_GetBestAnchor c ty) as [h c1] eqn:Eb.
  destruct (cache_GetBestAnchor_law c ty h c1 Hi Eb) as (Hi1 & Ev1 & -> & _). fold w in Ev1 |- *.
  case_bool_decide as Hbest; [by rewrite decide_True|rewrite decide_False by done]. destruct c1 as [d b].
  destruct (cache_put_anchor d b ty (tree_root ty t) {| entered := true; tree := t; anchor_DIRTY := true |}
    (match cacheAnchors d ty !! tree_root ty t with Some _ => cachedCoinsUsage d | None => u64 (cachedCoinsUsage d + tree_usage t) end)
    (tree_root ty t) Hi1) as [Hi2 Ev2]; try done.
  { apply root_not_null. }
  split; [exact Hi2|]. etrans; [exact Ev2|]. cbn [entered tree]. by rewrite Ev1.
Qed.

Lemma PopAnchor_view c ty newrt :
  cache_inv c -> let w := cache_view_of c in let best := best_anchor w ty in
  hash_IsNull newrt = false -> best <> empty_root ty ->
  match PopAnchor c ty newrt with
  | Ok c' => cache_inv c' /\
      (if decide (best = newrt) then cache_view_of c' ≡ w
       else is_Some (anchor_tree w ty best) /\ cache_view_of c' ≡ set_best_anchor (set_anchor w ty best None) ty newrt)
  | Err _ => best <> newrt /\ anchor_tree w ty best = None
  end.
Proof.
  intros Hi w best Hn He. unfold PopAnchor. destruct (cache_GetBestAnchor c ty) as [h c1] eqn:Eb.
  destruct (cache_GetBestAnchor_law c ty h c1 Hi Eb) as (Hi1 & Ev1 & -> & _). fold w in Ev1 |- *. fold best.
  case_bool_decide as Hbest; [by rewrite decide_True|].
  destruct (cache_GetAnchorAt c1 ty best) as [r c2] eqn:Ea.
  destruct (cache_GetAnchorAt_law c1 ty best r c2 Hi1 Ea) as (Hi2 & Ev2 & Er & _). rewrite Ev1 in Er.
  destruct r as [tr|]; [|by rewrite <- Er]. rewrite decide_False, <- Er by done.
  assert (cache_view_of c2 ≡ w) as Ev by (by rewrite Ev2, Ev1).
  destruct (cacheAnchors (data c2) ty !! best) as [e|] eqn:E.
  - destruct (ci_anchors _ Hi2 ty best e E) as [Hroot _]. destruct c2 as [d b].
    destruct (cache_put_anchor d b ty best {| entered := false; tree := tree e; anchor_DIRTY := true |}
      (cachedCoinsUsage d) newrt) as [Hi3 Ev3]; try done.
    split; [exact Hi3|]. split; [by eexists|]. etrans; [exact Ev3|]. cbn [entered]. by rewrite Ev.
  - exfalso. revert Ea E. unfold cache_GetAnchorAt.
    destruct (cacheAnchors (data c1) ty !! best) as [e|] eqn:E1; [intros [= _ <-]; congruence|].
    destruct (GetAnchorAt (base c1) ty best) as [[tr'|] b']; intros [= ? <-]; cbn.
    by rewrite upd_same, lookup_insert_eq.
Qed.

(** The commitment tree state: connecting a block whose tree differs from the best one
    makes its root the best anchor and its tree available; disconnecting removes the best
    anchor and restores an earlier one, and its assertion fails exactly when the tree of the
    best anchor is missing; pushing or popping the root that is already best changes nothing.
    The anchor of the empty tree is never removed. *)
Theorem anchors_refine c ty t newrt :
  cache_inv c -> let w := cache_view_of c in
  let best := best_anchor w ty in
  cache_inv (PushAnchor c ty t) /\
  cache_view_of (PushAnchor c ty t) ≡
    (if decide (best = tree_root ty t) then w
     else set_best_anchor (set_anchor w ty (tree_root ty t) (Some t)) ty (tree_root ty t)) /\
  (hash_IsNull newrt = false -> best <> empty_root ty ->
   match PopAnchor c ty newrt with
   | Ok c' => cache_inv c' /\
       (if decide (best = newrt) then cache_view_of c' ≡ w
        else is_Some (anchor_tree w ty best) /\ cache_view_of c' ≡ set_best_anchor (set_anchor w ty best None) ty newrt)
   | Err _ => best <> newrt /\ anchor_tree w ty best = None
   end).
Proof.
  intros Hi w best. destruct (PushAnchor_view c ty t Hi) as [Hp Ep]. split; [done|]. split; [exact Ep|].
  by apply PopAnchor_view.
Qed.

(** *** Queries about transactions *)

(** The output an input refers to, if it is unspent. *)
Definition prevout (w : view) (p : uint256 * Z) : option CTxOut :=
  x ← utxo w p.1; if IsAvailable x p.2 then znth (vout x) p.2 else None.

#[export] Instance prevout_proper : Proper ((≡) ==> (=) ==> (=)) prevout.
Proof. intros a b (E & _) p ? <-. unfold prevout. by rewrite E. Qed.

(** A pruned entry has nothing available. *)
Lemma IsPruned_available x n : IsPruned x = true -> IsAvailable x n = false.
Proof.
  unfold IsPruned, IsAvailable. intros Hp. destruct (znth (vout x) n) as [o|] eqn:E; [|done].
  rewrite forallb_forall in Hp. rewrite Hp; [done|]. unfold znth in E.
  destruct (n <? 0); [done|]. apply list_elem_of_In. by eapply list_elem_of_lookup_2.
Qed.

Lemma AccessCoins_prevout c hash n r c' :
  cache_inv c -> AccessCoins c hash = (r, c') ->
  cache_inv c' /\ cache_view_of c' ≡ cache_view_of c /\
  prevout (cache_view_of c) (hash, n) =
    (x ← r; if IsAvailable x n then znth (vout x) n else None).
Proof.
  intros Hi E. destruct (cache_GetCoins_law c hash r c' Hi E) as (Hi' & Ev & Hl & _).
  split; [done|]. split; [done|]. unfold prevout. cbn [fst snd]. rewrite <- Hl.
  destruct r as [x|]; [|done]. cbn. destruct (IsPruned x) eqn:Ep; [|done]. cbn.
  by rewrite IsPruned_available.
Qed.

Lemma IsAvailable_some x n : IsAvailable x n = true <-> is_Some (if IsAvailable x n then znth (vout x) n else None).
Proof.
  unfold IsAvailable. destruct (znth (vout x) n) as [o|]; [|by split; [|intros []]].
  destruct (negb (IsNull o)); split; [by eexists|done|done|by intros []].
Qed.

Lemma have_inputs_loop_spec c prevouts r c' :
  cache_inv c -> have_inputs_loop c prevouts = (r, c') ->
  cache_inv c' /\ cache_view_of c' ≡ cache_view_of c /\
  (r = true <-> Forall (fun p => is_Some (prevout (cache_view_of c) p)) prevouts).
Proof.
  revert c. induction prevouts as [|[hash n] prevouts IH]; intros c Hi; cbn [have_inputs_loop].
  { intros [= <- <-]. by split. }
  destruct (AccessCoins c hash) as [x c1] eqn:E.
  destruct (AccessCoins_prevout c hash n x c1 Hi E) as (Hi1 & Ev1 & Hp).
  destruct x as [x|]; [destruct (IsAvailable x n) eqn:Ea; cbn [negb]|].
  - intros El. destruct (IH c1 Hi1 El) as (Hi' & Ev' & Hr). split; [done|]. split; [by rewrite Ev', Ev1|].
    rewrite Forall_cons, Hp, Hr. cbn [mbind option_bind]. rewrite Ea.
    assert (is_Some (znth (vout x) n)) as Hz by (apply IsAvailable_some in Ea as Hs; by rewrite Ea in Hs).
    split; [intros Hf|intros [_ Hf]]; [split; [done|]|]; (eapply Forall_impl; [exact Hf|]); intros p; cbv beta; by rewrite Ev1.
  - intros [= <- <-]. split; [done|]. split; [done|]. rewrite Forall_cons, Hp. cbn. rewrite Ea.
    split; [done|]. by intros [[] _].
  - intros [= <- <-]. split; [done|]. split; [done|]. rewrite Forall_cons, Hp. split; [done|]. by intros [[] _].
Qed.

(** The sum of the values of the outputs referred to. *)
Definition input_value (w : view) (prevouts : list (uint256 * Z)) : Z :=
  foldr (fun p acc => default 0 (nValue <$> prevout w p) + acc) 0 prevouts.

Lemma s64_add_l x y : s64 (s64 x + y) = s64 (x + y).
Proof.
  unfold s64. f_equal.
  replace ((x + 2 ^ 63) mod 2 ^ 64 - 2 ^ 63 + y + 2 ^ 63) with ((x + 2 ^ 63) mod 2 ^ 64 + y) by lia.
  rewrite Zplus_mod_idemp_l. f_equal. lia.
Qed.

Lemma input_value_proper w w' prevouts : w ≡ w' -> input_value w prevouts = input_value w' prevouts.
Proof.
  intros E. unfold input_value. induction prevouts as [|p prevouts IH]; [done|]. cbn [foldr]. by rewrite IH, E.
Qed.

Lemma value_in_loop_spec c prevouts n :
  cache_inv c -> Forall (fun p => is_Some (prevout (cache_view_of c) p)) prevouts -> s64 n = n ->
  exists c', value_in_loop c prevouts n = Ok (s64 (n + input_value (cache_view_of c) prevouts), c') /\
    cache_inv c' /\ cache_view_of c' ≡ cache_view_of c.
Proof.
  revert c n. induction prevouts as [|[hash k] prevouts IH]; intros c n Hi Hf Hn; cbn [value_in_loop input_value foldr].
  { exists c. by rewrite Z.add_0_r, Hn. }
  apply Forall_cons in Hf as [[o Ho] Hf]. unfold GetOutputFor. destruct (AccessCoins c hash) as [x c1] eqn:E.
  destruct (AccessCoins_prevout c hash k x c1 Hi E) as (Hi1 & Ev1 & Hp). rewrite Ho in Hp.
  destruct x as [x|]; [|done]. cbn in Hp. destruct (IsAvailable x k); [|done]. rewrite <- Hp. cbn [res_bind fst snd].
  destruct (IH c1 (s64 (n + nValue o)) Hi1) as (c' & Ec & Hi' & Ev').
  { eapply Forall_impl; [exact Hf|]. intros p. cbv beta. by rewrite Ev1. }
  { by rewrite (s64_id (s64 _)) by apply s64_range. }
  exists c'. rewrite Ec, s64_add_l, (input_value_proper _ _ _ Ev1), Ho.
  split; [|split; [done|by rewrite Ev', Ev1]]. unfold input_value.
  change (default 0 (nValue <$> Some o)) with (nValue o). by rewrite Z.add_assoc.
Qed.

(** [HaveInputs] is true exactly when every input of the transaction refers to an output
    that is unspent in the view, and then [GetValueIn] fails no assertion and returns the sum
    of these outputs and the shielded value; both leave the view as it is. *)
Theorem inputs_refine c prevouts shielded :
  cache_inv c ->
  let w := cache_view_of c in
  let r := HaveInputs c false prevouts in
  cache_inv r.2 /\ cache_view_of r.2 ≡ w /\
  (r.1 = true <-> Forall (fun p => is_Some (prevout w p)) prevouts) /\
  (r.1 = true -> INT64_MIN <= input_value w prevouts + shielded <= INT64_MAX ->
   exists c', GetValueIn c false prevouts shielded = Ok (input_value w prevouts + shielded, c') /\
     cache_inv c' /\ cache_view_of c' ≡ w).
Proof.
  intros Hi w r. destruct (HaveInputs c false prevouts) as [b c'] eqn:E. subst r. cbn [fst snd].
  destruct (have_inputs_loop_spec c prevouts b c' Hi E) as (Hi' & Ev & Hr).
  split; [done|]. split; [done|]. split; [done|]. intros Hb Hs. unfold GetValueIn.
  destruct (value_in_loop_spec c prevouts 0 Hi) as (c2 & Ec & Hi2 & Ev2); [by apply Hr|done|].
  rewrite Ec. cbn [res_bind fst snd]. exists c2. rewrite s64_add_l, Z.add_0_l, s64_id by done. done.
Qed.

(** *** Double spends of notes *)

Lemma SetNullifiers_view c nfs b :
  cache_inv c -> cache_inv (SetNullifiers c nfs b) /\
  cache_view_of (SetNullifiers c nfs b) ≡ set_spent (cache_view_of c) nfs b.
Proof.
  intros Hi. destruct c as [d ba]. unfold SetNullifiers. cbn [data base].
  set (upd_nf := fun (m : gmap uint256 CNullifiersCacheEntry) nf => <[nf := {| spent := b; nullifier_DIRTY := true |}]> m).
  assert (forall l m n, foldl upd_nf m l !! n =
    if decide (n ∈ l) then Some {| spent := b; nullifier_DIRTY := true |} else m !! n) as Hl.
  { induction l as [|k l IH]; intros m n; cbn; [by rewrite decide_False by apply not_elem_of_nil|].
    rewrite IH. unfold upd_nf. destruct (decide (n ∈ l)) as [Hin|Hnin].
    - by rewrite decide_True by (by right).
    - destruct (decide (n = k)) as [->|Hne].
      + rewrite lookup_insert_eq, decide_True by (by left). done.
      + rewrite lookup_insert_ne, decide_False by (done || (by intros [?|?]%elem_of_cons)). done. }
  split.
  - apply cache_set_nullifiers; [done|]. intros n e. rewrite Hl. case_decide as Hin; [by intros [= <-]|].
    by apply (ci_nullifiers _ Hi).
  - split; [done|]. split; [|done]. intros ty n. cbn. destruct (decide (ty = SAPLING)) as [->|Hty].
    + rewrite upd_same, Hl. by repeat case_decide; try tauto.
    + rewrite upd_other by done. by rewrite decide_False by tauto.
Qed.

Lemma shielded_requirements_spec c spends r c' :
  cache_inv c -> HaveShieldedRequirements c spends = (r, c') ->
  cache_inv c' /\ cache_view_of c' ≡ cache_view_of c /\
  (r = true <-> Forall (fun s => nullifier_spent (cache_view_of c) SAPLING s.1 = false /\
                                 is_Some (anchor_tree (cache_view_of c) SAPLING s.2)) spends).
Proof.
  revert c. induction spends as [|[nf an] spends IH]; intros c Hi; cbn [HaveShieldedRequirements].
  { intros [= <- <-]. by split. }
  destruct (cache_GetNullifier c SAPLING nf) as [x c1] eqn:E1.
  destruct (cache_GetNullifier_law c SAPLING nf x c1 Hi E1) as (Hi1 & Ev1 & -> & _).
  destruct (nullifier_spent (cache_view_of c) SAPLING nf) eqn:En.
  { intros [= <- <-]. split; [done|]. split; [done|]. rewrite Forall_cons. cbn [fst snd]. rewrite En. by split; [|intros [[? _] _]]. }
  destruct (cache_GetAnchorAt c1 SAPLING an) as [y c2] eqn:E2.
  destruct (cache_GetAnchorAt_law c1 SAPLING an y c2 Hi1 E2) as (Hi2 & Ev2 & -> & _).
  assert (cache_view_of c2 ≡ cache_view_of c) as Ev by (by rewrite Ev2, Ev1).
  rewrite Ev1. destruct (anchor_tree (cache_view_of c) SAPLING an) as [t|] eqn:Et.
  - intros El. destruct (IH c2 Hi2 El) as (Hi' & Ev' & Hr). split; [done|]. split; [by rewrite Ev', Ev|].
    rewrite Forall_cons, Hr. cbn [fst snd]. rewrite En, Et.
    split; [intros Hf|intros [_ Hf]]; [split; [by split|]|]; (eapply Forall_impl; [exact Hf|]); intros p; cbv beta; by rewrite Ev.
  - intros [= <- <-]. split; [done|]. split; [done|]. rewrite Forall_cons. cbn [fst snd]. rewrite Et.
    split; [done|]. by intros [[_ []] _].
Qed.

(** No note is spent twice: the requirements of a transaction's shielded spends hold
    exactly when no nullifier is spent and every anchor is known in the view; recording the
    nullifiers of a transaction marks these and no others, so that afterwards any transaction
    with one of them is refused, until they are unmarked when the block is disconnected. *)
Theorem nullifiers_refine c nfs b spends :
  cache_inv c ->
  let w := cache_view_of c in
  let c1 := SetNullifiers c nfs b in
  let r := HaveShieldedRequirements c1 spends in
  cache_inv c1 /\ cache_view_of c1 ≡ set_spent w nfs b /\
  cache_inv r.2 /\ cache_view_of r.2 ≡ set_spent w nfs b /\
  (r.1 = true <-> Forall (fun s => nullifier_spent (set_spent w nfs b) SAPLING s.1 = false /\
                                   is_Some (anchor_tree w SAPLING s.2)) spends) /\
  (b = true -> Exists (fun s => s.1 ∈ nfs) spends -> r.1 = false).
Proof.
  intros Hi w c1 r. destruct (SetNullifiers_view c nfs b Hi) as [Hi1 Ev1]. fold c1 w in Hi1, Ev1.
  destruct (HaveShieldedRequirements c1 spends) as [x c2] eqn:E. subst r. cbn [fst snd].
  destruct (shielded_requirements_spec c1 spends x c2 Hi1 E) as (Hi2 & Ev2 & Hr).
  assert (x = true <-> Forall (fun s => nullifier_spent (set_spent w nfs b) SAPLING s.1 = false /\
                                   is_Some (anchor_tree w SAPLING s.2)) spends) as Hr'.
  { rewrite Hr. split; intros Hf; (eapply Forall_impl; [exact Hf|]); intros s; cbv beta; by rewrite Ev1. }
  split; [done|]. split; [done|]. split; [done|]. split; [by rewrite Ev2|]. split; [done|].
  intros -> Hex. destruct x; [|done]. exfalso. destruct Hr' as [Hr' _]. specialize (Hr' eq_refl).
  apply Exists_exists in Hex as (s & Hin & Hs). rewrite Forall_forall in Hr'. destruct (Hr' s Hin) as [Hn _].
  cbn in Hn. by rewrite decide_True in Hn.
Qed.

End CacheLaws.

(** ** A concrete stack of views *)

(** Trees are lists of leaves, and a root is the list itself behind a marker for the kind. *)
#[export] Instance demo_params : CacheParams := {|
  Tree := list Z; new_tree := []; tree_usage t := zlen t; coins_usage _ := 1;
  tree_root ty t := match ty with SPROUT => 1 | SAPLING => 2 end :: t
|}.

#[export] Instance demo_params_laws : CacheParamsLaws demo_params.
Proof. split; [by intros ty t1 t2 [= ->]|by intros []]. Qed.

Definition demo_db : CCoinsViewDB := {|
  db_coins := {[ [2] := doc_coins_2 ]}; db_anchors := fun _ => ∅; db_nullifiers := fun _ => ∅;
  db_best_block := Some [7]; db_best_anchor := fun _ => None
|}.

(** A cache over a cache over the database, with a new entry and a known best block. *)
Definition demo_parent : CCoinsViewCache CCoinsViewDB := mk_cache empty_cache demo_db.

Definition demo_data : cache_data := {|
  hasModifier := false; hashBlock := [8];
  cacheCoins := {[ [1] := {| coins := doc_coins_1; DIRTY := true; FRESH := true |} ]};
  hashAnchor := fun ty => tree_root ty [5];
  cacheAnchors := fun ty => {[ tree_root ty [5] := {| entered := true; tree := [5]; anchor_DIRTY := true |} ]};
  cacheNullifiers := fun _ => ∅; cachedCoinsUsage := 1
|}.

Definition demo_cache : CCoinsViewCache (CCoinsViewCache CCoinsViewDB) := mk_cache demo_data demo_parent.

Lemma demo_parent_inv : view_inv demo_parent.
Proof. split; try done. Qed.

Lemma demo_cache_inv : cache_inv demo_cache.
Proof.
  split; [exact demo_parent_inv|done|..].
  - apply map_Forall_singleton. split; [|split]; done.
  - intros ty. apply map_Forall_singleton. by split.
  - intros ty. apply map_Forall_singleton. done.
  - intros ty. apply map_Forall_empty.
Qed.

Lemma Flush_refines_witness :
  exists c', Flush demo_cache = Ok c' /\ utxo (view_of (base c')) [1] = Some doc_coins_1 /\
    best_block (view_of (base c')) = [8].
Proof.
  destruct (Flush_refines demo_cache demo_cache_inv eq_refl ltac:(by intros [])) as (c' & E & _ & Ev & _).
  exists c'. split; [exact E|]. destruct Ev as (E1 & _ & _ & E4 & _). split; [by rewrite E1|by rewrite E4].
Defined.

(** Spending the output of the new entry erases it. *)
Lemma modify_refines_witness :
  exists c', with_modifier (ModifyCoins demo_cache [1]) (fun x => (Spend x 1).2) = Ok c' /\
    utxo (cache_view_of c') [1] = None.
Proof.
  destruct (modify_refines demo_cache [1] (fun x => (Spend x 1).2) demo_cache_inv) as [(x & c' & E & Hx & _ & Ev) _].
  exists c'. split; [exact E|]. destruct Ev as (E1 & _). rewrite E1. cbn [utxo set_utxo].
  rewrite decide_True by done. assert (x = doc_coins_1) as ->; [|by vm_compute].
  assert (utxo (cache_view_of demo_cache) [1] = Some doc_coins_1) as E2 by reflexivity.
  rewrite E2 in Hx. unfold live in Hx. cbn [mbind option_bind] in Hx. destruct (IsPruned x); congruence.
Defined.

Lemma anchors_refine_witness :
  cache_view_of (PushAnchor demo_cache SAPLING [6]) ≡
    set_best_anchor (set_anchor (cache_view_of demo_cache) SAPLING [2; 6] (Some [6])) SAPLING [2; 6] /\
  exists c', PopAnchor demo_cache SAPLING [2; 4] = Ok c' /\ anchor_tree (cache_view_of c') SAPLING [2; 5] = None.
Proof.
  destruct (anchors_refine demo_cache SAPLING [6] [2; 4] demo_cache_inv) as (_ & Epush & Hpop).
  split; [exact Epush|]. specialize (Hpop eq_refl ltac:(by vm_compute)).
  destruct (PopAnchor demo_cache SAPLING [2; 4]) as [c'|e]; [|by destruct Hpop].
  exists c'. split; [done|]. by destruct Hpop as (_ & _ & _ & _ & Ev & _).
Defined.

Lemma inputs_refine_witness :
  (HaveInputs demo_cache false [([1], 1); ([2], 16)]).1 = true /\
  exists c', GetValueIn demo_cache false [([1], 1); ([2], 16)] 5 = Ok (60000000000 + 110397 + 5, c').
Proof.
  destruct (inputs_refine demo_cache [([1], 1); ([2], 16)] 5 demo_cache_inv) as (_ & _ & _ & Hv).
  split; [by vm_compute|]. destruct Hv as (c' & E & _); [by vm_compute|by vm_compute|].
  exists c'. rewrite E. by vm_compute.
Defined.

Lemma nullifiers_refine_witness :
  (HaveShieldedRequirements (SetNullifiers demo_cache [[3]; [4]] true) [([9], [2; 5]); ([4], [2])]).1 = false.
Proof.
  apply (nullifiers_refine demo_cache [[3]; [4]] true [([9], [2; 5]); ([4], [2])] demo_cache_inv); [done|].
  right. left. right. left.
Defined.
