(* ===== verification/Amount.v ===== *)
(** * Amounts and fee rates

    [amount.h], [amount.cpp] and [utilmoneystr.cpp]: the money range, fee rates, and the
    printing and parsing of amounts.  Strings are lists of character codes. *)

From S2P Require Import Prelude.

Definition COIN : Z := 100000.
Definition CENT : Z := 1000.
Definition MAX_MONEY : Z := 21000000000 * COIN.

(** The block reward, and the rewards of the first blocks. *)
Definition REWARD : Z := 6250.
Definition INGEST_MINING_BLOCK : Z := 1.
Definition TOP_INGEST_BLOCK : Z := INGEST_MINING_BLOCK + 1000.
Definition INGEST_WAITING_AMOUNT : Z := 1 * COIN.
Definition INGEST_MULTIPLIER : Z := 95.
Definition INGEST_MINING_AMOUNT : Z :=
  (9888920 * INGEST_MULTIPLIER + 103271000 * INGEST_MULTIPLIER + 5000 + 12000000) * COIN.

Definition MAX_BLOCK_SIZE : Z := 2000000.

Definition MoneyRange (nValue : Z) : bool := (nValue >=? 0) && (nValue <=? MAX_MONEY).

(** ** Fee rates *)

(** [CFeeRate::CFeeRate(nFeePaidPerK, nSize)]: the product is an [int64_t], the division by
    the [size_t] is unsigned, and the result is stored in an [int64_t]. *)
Definition CFeeRate (nFeePaidPerK nSize : Z) : Z :=
  if nSize >? 0
  then s64 (Z.min (u64 (s64 (nFeePaidPerK * 1000)) / nSize) (UINT64_MAX / MAX_BLOCK_SIZE))
  else 0.

Definition GetFee (m_nPatoshisPerK nSize : Z) : Z :=
  let nFeeInPat := s64 (u64 (u64 m_nPatoshisPerK * nSize) / 1000) in
  if (nFeeInPat =? 0) && (m_nPatoshisPerK >? 0) then m_nPatoshisPerK else nFeeInPat.

Definition GetFeePerK (m_nPatoshisPerK : Z) : Z := GetFee m_nPatoshisPerK 1000.

(** ** Characters *)

Definition ch_0 : Z := 48.
Definition ch_dot : Z := 46.
Definition ch_minus : Z := 45.

Definition isdigit (c : Z) : bool := (48 <=? c) && (c <=? 57).
Definition isspace (c : Z) : bool := (c =? 32) || ((9 <=? c) && (c <=? 13)).

(** [%d] of a non-negative number; 20 digits are enough for 64 bits. *)
Fixpoint dec_loop (fuel : nat) (n : Z) (acc : bytes) : bytes :=
  match fuel with
  | O => acc
  | S fuel =>
      let acc := (ch_0 + n mod 10) :: acc in
      if n / 10 =? 0 then acc else dec_loop fuel (n / 10) acc
  end.

Definition dec (n : Z) : bytes := dec_loop 20 n [].

(** [%05d] *)
Definition dec5 (n : Z) : bytes := replicate (5 - length (dec n)) ch_0 ++ dec n.

(** ** Printing *)

(** The trimming loop, on the reversed string: drop the last character while it is a zero
    and the character two before it is a digit. *)
Fixpoint trim_loop (r : bytes) : bytes :=
  match r with
  | c :: r' =>
      match r' with
      | _ :: b :: _ => if (c =? ch_0) && isdigit b then trim_loop r' else r
      | _ => r
      end
  | [] => r
  end.

Definition FormatMoney (n : Z) : bytes :=
  let n_abs := if n >? 0 then n else s64 (- n) in
  let quotient := Z.quot n_abs COIN in
  let remainder := Z.rem n_abs COIN in
  let str := dec quotient ++ [ch_dot] ++ dec5 remainder in
  let str := rev (trim_loop (rev str)) in
  if n <? 0 then ch_minus :: str else str.

(** ** Parsing *)

Fixpoint skip_spaces (p : bytes) : bytes :=
  match p with
  | c :: p' => if isspace c then skip_spaces p' else p
  | [] => p
  end.

(** The loop over the decimals, while the multiplier is positive *)
Fixpoint parse_units (p : bytes) (nMult nUnits : Z) : Z * bytes :=
  match p with
  | c :: p' =>
      if isdigit c && (nMult >? 0)
      then parse_units p' (Z.quot nMult 10) (s64 (nUnits + nMult * (c - ch_0)))
      else (nUnits, p)
  | [] => (nUnits, p)
  end.

(** [for (; *p; p++)]: the whole part, the units and the rest; [None] is [return false]. *)
Fixpoint parse_whole (p strWhole : bytes) : option (bytes * Z * bytes) :=
  match p with
  | [] => Some (strWhole, 0, [])
  | c :: p' =>
      if c =? ch_dot then
        let '(nUnits, rest) := parse_units p' (CENT * 10) 0 in Some (strWhole, nUnits, rest)
      else if isspace c then Some (strWhole, 0, p)
      else if negb (isdigit c) then None
      else parse_whole p' (strWhole ++ [c])
  end.

(** [strtoll] on a string of digits *)
Definition atoi64 (str : bytes) : Z :=
  Z.min INT64_MAX (foldl (fun v c => v * 10 + (c - ch_0)) 0 str).

(** [ParseMoney] on a C string without its terminating zero *)
Definition ParseMoney (pszIn : bytes) : option Z :=
  match parse_whole (skip_spaces pszIn) [] with
  | None => None
  | Some (strWhole, nUnits, p) =>
      if negb (forallb isspace p) then None
      else if zlen strWhole >? 10 then None
      else if (nUnits <? 0) || (nUnits >? COIN) then None
      else
        let nWhole := atoi64 strWhole in
        Some (s64 (nWhole * COIN + nUnits))
  end.

(** The overload on [std::string] passes [c_str()]: the part before the first zero byte. *)
Fixpoint c_str (s : bytes) : bytes :=
  match s with
  | c :: s' => if c =? 0 then [] else c :: c_str s'
  | [] => []
  end.

Definition ParseMoney_string (str : bytes) : option Z := ParseMoney (c_str str).

(** ** Fee rates do not overflow *)

(** Fee arithmetic does not overflow: for a fee within the money range the rate is the
    exact quotient capped at the largest rate whose product with the maximal block size fits
    64 bits, and the fee of anything up to a block in size is the exact rounded-down product
    (or the rate itself where that would round a positive rate to zero). *)
Theorem fee_no_overflow nFeePaid nTxSize nSize :
  MoneyRange nFeePaid = true -> 0 < nTxSize -> 0 <= nSize <= MAX_BLOCK_SIZE ->
  let rate := CFeeRate nFeePaid nTxSize in
  rate = Z.min (nFeePaid * 1000 / nTxSize) (UINT64_MAX / MAX_BLOCK_SIZE) /\
  0 <= GetFee rate nSize /\
  GetFee rate nSize =
    if (rate * nSize / 1000 =? 0) && (rate >? 0) then rate else rate * nSize / 1000.
Proof.
  intros Hm Ht Hs rate. unfold MoneyRange, MAX_MONEY, COIN, MAX_BLOCK_SIZE in *. zbool.
  assert (0 <= nFeePaid * 1000 / nTxSize) by (apply Z.div_pos; lia).
  assert (rate = Z.min (nFeePaid * 1000 / nTxSize) (UINT64_MAX / 2000000)) as Hr.
  { unfold rate, CFeeRate, MAX_BLOCK_SIZE. rewrite Z.gtb_ltb.
    destruct (Z.ltb_spec 0 nTxSize); [|lia].
    rewrite (s64_id (nFeePaid * 1000)), u64_id by (unfold INT64_MIN, INT64_MAX; lia).
    apply s64_id. change (UINT64_MAX / 2000000) with 9223372036854. unfold INT64_MIN, INT64_MAX. lia. }
  change (UINT64_MAX / 2000000) with 9223372036854 in *.
  assert (0 <= rate * nSize / 1000 <= 9223372036854 * 2000000 / 1000) as Hq
    by (split; [apply Z.div_pos; nia|apply Z.div_le_mono; nia]).
  change (9223372036854 * 2000000 / 1000) with 18446744073708000 in Hq.
  assert (GetFee rate nSize =
    if (rate * nSize / 1000 =? 0) && (rate >? 0) then rate else rate * nSize / 1000) as Hf.
  { unfold GetFee. rewrite (u64_id rate), (u64_id (rate * nSize)), s64_id
      by (unfold INT64_MIN, INT64_MAX; nia). done. }
  split; [done|]. split; [|done]. rewrite Hf. case_if; lia.
Qed.

Lemma fee_no_overflow_witness :
  0 <= GetFee (CFeeRate 5000 250) 1000 /\ GetFee (CFeeRate 5000 250) 1000 = 20000.
Proof.
  split; [|reflexivity]. apply (fee_no_overflow 5000 250 1000); [reflexivity|lia|vm_compute; done].
Defined.

(** ** Decimal digits *)

Definition digits (l : bytes) : Prop := Forall (fun c => 48 <= c <= 57) l.

Definition dec_val (v : Z) (l : bytes) : Z := foldl (fun v c => v * 10 + (c - ch_0)) v l.

Lemma dec_val_app v l k : dec_val v (l ++ k) = dec_val (dec_val v l) k.
Proof. apply foldl_app. Qed.

Lemma dec_val_zeros n v : v = 0 -> dec_val v (replicate n ch_0) = 0.
Proof. intros ->. induction n as [|n IH]; [done|]. exact IH. Qed.

Lemma dec_val_bound l v : digits l -> 0 <= v -> dec_val v l < (v + 1) * 10 ^ Z.of_nat (length l).
Proof.
  revert v. induction l as [|c l IH]; intros v Hl Hv; [cbn; lia|].
  apply Forall_cons in Hl as [Hc Hl]. cbn [dec_val foldl length]. fold (dec_val (v * 10 + (c - ch_0)) l).
  unfold ch_0. rewrite Nat2Z.inj_succ, Z.pow_succ_r by lia.
  pose proof (Z.pow_pos_nonneg 10 (Z.of_nat (length l)) ltac:(lia) ltac:(lia)).
  eapply Z.lt_le_trans; [apply IH; [done|lia]|]. nia.
Qed.

Lemma isdigit_true c : 48 <= c <= 57 -> isdigit c = true.
Proof. intros. unfold isdigit. destruct (Z.leb_spec 48 c), (Z.leb_spec c 57); done || lia. Qed.

(** The digits printed: their value, and at most [k] of them below [10 ^ k]. *)
Lemma dec_loop_spec f n acc :
  0 <= n < 10 ^ Z.of_nat (S f) ->
  exists ds, dec_loop (S f) n acc = ds ++ acc /\ digits ds /\ ds <> [] /\
    dec_val 0 ds = n /\ (forall k, (1 <= k)%nat -> n < 10 ^ Z.of_nat k -> (length ds <= k)%nat).
Proof.
  revert n acc. induction f as [|f IH]; intros n acc Hn;
    pose proof (Z.mod_pos_bound n 10 ltac:(lia)); pose proof (Z.div_mod n 10 ltac:(lia)).
  - change (10 ^ Z.of_nat 1) with 10 in Hn. cbn [dec_loop].
    exists [ch_0 + n mod 10]. rewrite Z.mod_small by lia. unfold ch_0.
    split; [by case_if|]. split; [repeat constructor; lia|]. split; [done|].
    split; [cbn; unfold ch_0; lia|]. cbn. lia.
  - change (dec_loop (S (S f)) n acc) with
      (if n / 10 =? 0 then (ch_0 + n mod 10) :: acc
       else dec_loop (S f) (n / 10) ((ch_0 + n mod 10) :: acc)).
    rewrite (Nat2Z.inj_succ (S f)), Z.pow_succ_r in Hn by lia.
    destruct (Z.eqb_spec (n / 10) 0) as [E|E].
    + exists [ch_0 + n mod 10]. unfold ch_0. split; [done|].
      split; [repeat constructor; lia|]. split; [done|]. split; [cbn; unfold ch_0; lia|]. cbn. lia.
    + destruct (IH (n / 10) ((ch_0 + n mod 10) :: acc)) as (ds & -> & Hd & Hne & Hv & Hk); [lia|].
      exists (ds ++ [ch_0 + n mod 10]). rewrite <- app_assoc. split; [done|].
      split; [apply Forall_app; split; [done|repeat constructor; unfold ch_0; lia]|].
      split; [by destruct ds|]. rewrite dec_val_app, Hv. split; [cbn; unfold ch_0; lia|].
      intros [|[|k]] Hk1 Hlt; [lia|change (10 ^ Z.of_nat 1) with 10 in Hlt; lia|].
      rewrite length_app. cbn. rewrite (Nat2Z.inj_succ (S k)), Z.pow_succ_r in Hlt by lia.
      specialize (Hk (S k) ltac:(lia) ltac:(lia)). lia.
Qed.

Lemma dec_spec n :
  0 <= n < 2 ^ 63 ->
  digits (dec n) /\ dec n <> [] /\ dec_val 0 (dec n) = n /\
  (forall k, (1 <= k)%nat -> n < 10 ^ Z.of_nat k -> (length (dec n) <= k)%nat).
Proof.
  intros Hn. unfold dec. destruct (dec_loop_spec 19 n []) as (ds & -> & H); [cbn; lia|].
  by rewrite app_nil_r.
Qed.

Lemma dec5_spec r :
  0 <= r < COIN -> exists d1 d2 d3 d4 d5,
    dec5 r = [d1; d2; d3; d4; d5] /\ digits [d1; d2; d3; d4; d5] /\ dec_val 0 [d1; d2; d3; d4; d5] = r.
Proof.
  unfold COIN. intros Hr. destruct (dec_spec r ltac:(lia)) as (Hd & _ & Hv & Hk).
  specialize (Hk 5%nat ltac:(lia) ltac:(cbn; lia)).
  assert (length (dec5 r) = 5%nat) as Hl by (unfold dec5; rewrite length_app, length_replicate; lia).
  assert (digits (dec5 r)) as Hd5.
  { unfold dec5. apply Forall_app. split; [|done]. apply Forall_replicate. unfold ch_0. lia. }
  assert (dec_val 0 (dec5 r) = r) as Hv5.
  { unfold dec5. rewrite dec_val_app, dec_val_zeros by done. done. }
  destruct (dec5 r) as [|d1 [|d2 [|d3 [|d4 [|d5 [|? ?]]]]]]; try done.
  by exists d1, d2, d3, d4, d5.
Qed.

(** ** Printing, then parsing *)

(** What is left of the decimals after trimming. *)
Definition trimmed (d1 d2 d3 d4 d5 : Z) : bytes :=
  if d5 =? ch_0 then
    if d4 =? ch_0 then if d3 =? ch_0 then [d1; d2] else [d1; d2; d3] else [d1; d2; d3; d4]
  else [d1; d2; d3; d4; d5].

Lemma trim_money w d1 d2 d3 d4 d5 :
  digits [d1; d2; d3; d4; d5] ->
  rev (trim_loop (rev (w ++ [ch_dot] ++ [d1; d2; d3; d4; d5]))) =
  w ++ ch_dot :: trimmed d1 d2 d3 d4 d5.
Proof.
  intros Hd. unfold digits in Hd. rewrite !Forall_cons in Hd. destruct Hd as (H1 & H2 & H3 & H4 & H5 & _).
  rewrite !rev_app_distr. cbn [rev app]. unfold trimmed. cbn [trim_loop].
  rewrite (isdigit_true d3), (isdigit_true d2), (isdigit_true d1) by done.
  change (isdigit ch_dot) with false. rewrite andb_false_r, !andb_true_r.
  repeat case_if; cbn [rev]; rewrite rev_involutive, <- ?app_assoc; done.
Qed.

Lemma parse_units_step c p m u :
  48 <= c <= 57 -> 0 < m <= 10000 -> 0 <= u < 1000000 ->
  parse_units (c :: p) m u = parse_units p (m / 10) (u + m * (c - 48)).
Proof.
  intros Hc Hm Hu. cbn [parse_units]. rewrite isdigit_true, Z.gtb_ltb by done.
  destruct (Z.ltb_spec 0 m); [|lia]. cbn [andb]. rewrite Z.quot_div_nonneg by lia.
  unfold ch_0. rewrite s64_id by (unfold INT64_MIN, INT64_MAX; nia). done.
Qed.

Lemma parse_units_trimmed d1 d2 d3 d4 d5 :
  digits [d1; d2; d3; d4; d5] ->
  parse_units (trimmed d1 d2 d3 d4 d5) (CENT * 10) 0 = (dec_val 0 [d1; d2; d3; d4; d5], []).
Proof.
  intros Hd. unfold digits in Hd. rewrite !Forall_cons in Hd. destruct Hd as (H1 & H2 & H3 & H4 & H5 & _).
  change (CENT * 10) with 10000. unfold trimmed, ch_0.
  repeat case_if; zbool; subst;
    repeat (rewrite parse_units_step by lia;
            match goal with |- context [?a / 10] =>
              let v := eval vm_compute in (a / 10) in change (a / 10) with v end);
    cbn [parse_units dec_val foldl]; unfold ch_0; f_equal; lia.
Qed.

Lemma skip_spaces_digits w p : digits w -> w <> [] -> skip_spaces (w ++ p) = w ++ p.
Proof.
  intros Hw Hne. destruct w as [|c w]; [done|]. apply Forall_cons in Hw as [Hc _]. cbn.
  unfold isspace. destruct (Z.eqb_spec c 32), (Z.leb_spec 9 c), (Z.leb_spec c 13); done || lia.
Qed.

Lemma parse_whole_digits w p acc :
  digits w ->
  parse_whole (w ++ ch_dot :: p) acc =
    let '(nUnits, rest) := parse_units p (CENT * 10) 0 in Some (acc ++ w, nUnits, rest).
Proof.
  revert acc. induction w as [|c w IH]; intros acc Hw; [by rewrite app_nil_r|].
  apply Forall_cons in Hw as [Hc Hw]. cbn [app parse_whole]. unfold ch_dot at 1.
  destruct (Z.eqb_spec c 46); [lia|]. rewrite isdigit_true by done.
  assert (isspace c = false) as ->
    by (unfold isspace; destruct (Z.eqb_spec c 32), (Z.leb_spec 9 c), (Z.leb_spec c 13); done || lia).
  cbn [negb]. rewrite IH by done. by rewrite <- app_assoc.
Qed.

(** Printed amounts parse back: for every amount below 10^10 coins the text has at least
    two and at most five decimals and reads as the same number of base units. *)
Theorem money_roundtrip n :
  0 <= n < 10 ^ 10 * COIN -> ParseMoney (FormatMoney n) = Some n.
Proof.
  intros Hn. unfold FormatMoney, COIN in *.
  assert ((if n >? 0 then n else s64 (- n)) = n) as ->.
  { destruct (Z.gtb_spec n 0); [done|]. replace n with 0 by lia. done. }
  rewrite Z.quot_div_nonneg, Z.rem_mod_nonneg by lia.
  pose proof (Z.mod_pos_bound n 100000 ltac:(lia)). pose proof (Z.div_mod n 100000 ltac:(lia)) as Hdm.
  destruct (dec_spec (n / 100000) ltac:(lia)) as (Hd & Hne & Hv & Hk).
  specialize (Hk 10%nat ltac:(lia) ltac:(change (10 ^ Z.of_nat 10) with (10 ^ 10); lia)).
  destruct (dec5_spec (n mod 100000) ltac:(unfold COIN; lia)) as (d1 & d2 & d3 & d4 & d5 & -> & Hd5 & Hv5).
  destruct (Z.ltb_spec n 0); [lia|]. rewrite trim_money by done.
  unfold ParseMoney. rewrite skip_spaces_digits, parse_whole_digits, parse_units_trimmed by done.
  rewrite Hv5, app_nil_l. cbn [forallb negb]. rewrite Z.gtb_ltb.
  destruct (Z.ltb_spec 10 (zlen (dec (n / 100000)))); [unfold zlen in *; lia|]. unfold COIN.
  destruct (Z.ltb_spec (n mod 100000) 0); [lia|]. rewrite Z.gtb_ltb.
  destruct (Z.ltb_spec 100000 (n mod 100000)); [lia|]. cbn [orb]. unfold atoi64.
  fold (dec_val 0 (dec (n / 100000))). rewrite Hv, Z.min_r by (unfold INT64_MAX; lia).
  rewrite s64_id by (unfold INT64_MIN, INT64_MAX; lia). f_equal. lia.
Qed.

Lemma money_roundtrip_witness : ParseMoney (FormatMoney 123450) = Some 123450.
Proof. apply (money_roundtrip 123450). vm_compute. done. Defined.

(** The bound of the previous property is sharp: the ten-digit guard of the parser was
    not raised with the supply, so from 10^10 coins on, up to MAX_MONEY and beyond, printed
    amounts are within the money range but rejected. *)
Theorem money_guard_rejects n :
  10 ^ 10 * COIN <= n <= MAX_MONEY ->
  MoneyRange n = true /\ ParseMoney (FormatMoney n) = None.
Proof.
  intros Hn. unfold MAX_MONEY, COIN in *. split.
  { unfold MoneyRange, MAX_MONEY, COIN. rewrite Z.geb_leb.
    destruct (Z.leb_spec 0 n), (Z.leb_spec n (21000000000 * 100000)); done || lia. }
  unfold FormatMoney, COIN.
  destruct (Z.gtb_spec n 0); [|lia]. rewrite Z.quot_div_nonneg, Z.rem_mod_nonneg by lia.
  pose proof (Z.mod_pos_bound n 100000 ltac:(lia)). pose proof (Z.div_mod n 100000 ltac:(lia)) as Hdm.
  destruct (dec_spec (n / 100000) ltac:(lia)) as (Hd & Hne & Hv & _).
  destruct (dec5_spec (n mod 100000) ltac:(unfold COIN; lia)) as (d1 & d2 & d3 & d4 & d5 & -> & Hd5 & Hv5).
  destruct (Z.ltb_spec n 0); [lia|]. rewrite trim_money by done.
  unfold ParseMoney. rewrite skip_spaces_digits, parse_whole_digits, parse_units_trimmed by done.
  cbn [forallb negb]. rewrite app_nil_l, Z.gtb_ltb.
  destruct (Z.ltb_spec 10 (zlen (dec (n / 100000)))) as [|Hl]; [done|]. exfalso.
  assert (dec_val 0 (dec (n / 100000)) < 10 ^ 10); [|lia].
  eapply Z.lt_le_trans; [apply dec_val_bound; [done|lia]|].
  rewrite Z.mul_1_l. apply Z.pow_le_mono_r; unfold zlen in *; lia.
Qed.

Lemma money_guard_rejects_witness :
  MoneyRange MAX_MONEY = true /\ ParseMoney (FormatMoney MAX_MONEY) = None.
Proof. apply (money_guard_rejects MAX_MONEY). vm_compute. done. Defined.
