(* ===== verification/ArithUint256.v ===== *)
(** * 256-bit integers

    [utils/arith_uint256.h] and [utils/arith_uint256.cpp]: [base_uint<256>], an array [pn] of
    eight 32-bit limbs, least significant first, and the compact format of targets.  The
    operations are translated limb by limb; [lval] is the number an array stands for. *)

From S2P Require Import Prelude.

Definition WIDTH : nat := 8.

Abbreviation limbs := (list Z) (only parsing).

(** ** Construction and bitwise operations *)

Definition uint_zero : limbs := replicate WIDTH 0.

(** [base_uint(uint64_t b)] *)
Definition uint_of_u64 (b : Z) : limbs := u32 b :: u32 (Z.shiftr b 32) :: replicate (WIDTH - 2) 0.

(** [operator!] *)
Definition uint_is_zero (pn : limbs) : bool := forallb (fun x => x =? 0) pn.

(** [operator~] *)
Definition uint_not (pn : limbs) : limbs := (fun x => u32 (Z.lnot x)) <$> pn.

Definition uint_xor (a b : limbs) : limbs := zip_with Z.lxor a b.
Definition uint_and (a b : limbs) : limbs := zip_with Z.land a b.
Definition uint_or (a b : limbs) : limbs := zip_with Z.lor a b.

(** ** Increment, decrement, addition, subtraction *)

(** [while (++pn[i] == 0 && i < WIDTH-1) i++] *)
Fixpoint uint_inc (pn : limbs) : limbs :=
  match pn with
  | [] => []
  | x :: pn => let x := u32 (x + 1) in if x =? 0 then x :: uint_inc pn else x :: pn
  end.

Fixpoint uint_dec (pn : limbs) : limbs :=
  match pn with
  | [] => []
  | x :: pn => let x := u32 (x - 1) in if x =? UINT32_MAX then x :: uint_dec pn else x :: pn
  end.

(** [operator-()] *)
Definition uint_neg (pn : limbs) : limbs := uint_inc (uint_not pn).

Fixpoint add_loop (carry : Z) (a b : limbs) : limbs :=
  match a, b with
  | x :: a, y :: b =>
      let n := u64 (carry + x + y) in
      Z.land n 0xffffffff :: add_loop (Z.shiftr n 32) a b
  | _, _ => []
  end.

Definition uint_add (a b : limbs) : limbs := add_loop 0 a b.
Definition uint_sub (a b : limbs) : limbs := uint_add a (uint_neg b).

(** ** Multiplication *)

Fixpoint mul32_loop (carry b32 : Z) (pn : limbs) : limbs :=
  match pn with
  | [] => []
  | x :: pn =>
      let n := u64 (carry + b32 * x) in
      Z.land n 0xffffffff :: mul32_loop (Z.shiftr n 32) b32 pn
  end.

(** [operator*=(uint32_t)] *)
Definition uint_mul32 (pn : limbs) (b32 : Z) : limbs := mul32_loop 0 b32 pn.

(** The inner loop of [operator*=]: [pn] from index [j] on. *)
Fixpoint mac_loop (carry aj : Z) (pn b : limbs) : limbs :=
  match pn, b with
  | x :: pn, y :: b =>
      let n := u64 (carry + x + aj * y) in
      Z.land n 0xffffffff :: mac_loop (Z.shiftr n 32) aj pn b
  | _, _ => pn
  end.

Definition mul_step (a b pn : limbs) (j : nat) : limbs :=
  take j pn ++ mac_loop 0 (default 0 (a !! j)) (drop j pn) b.

Definition uint_mul (a b : limbs) : limbs := foldl (mul_step a b) uint_zero (seq 0 WIDTH).

(** ** Shifts *)

(** [pn[i] |= v], inside the array *)
Definition or_at (pn : limbs) (i : nat) (v : Z) : limbs :=
  match pn !! i with
  | Some x => <[i := Z.lor x v]> pn
  | None => pn
  end.

Definition limb (a : limbs) (i : nat) : Z := default 0 (a !! i).

Definition shl_step (a : limbs) (k : nat) (shift : Z) (pn : limbs) (i : nat) : limbs :=
  let pn := if (i + k + 1 <? WIDTH)%nat && negb (shift =? 0)
            then or_at pn (i + k + 1) (Z.shiftr (limb a i) (32 - shift)) else pn in
  if (i + k <? WIDTH)%nat then or_at pn (i + k) (u32 (Z.shiftl (limb a i) shift)) else pn.

(** [operator<<=] *)
Definition uint_shl (a : limbs) (shift : Z) : limbs :=
  foldl (shl_step a (Z.to_nat (shift / 32)) (shift mod 32)) uint_zero (seq 0 WIDTH).

Definition shr_step (a : limbs) (k : nat) (shift : Z) (pn : limbs) (i : nat) : limbs :=
  let pn := if (k + 1 <=? i)%nat && negb (shift =? 0)
            then or_at pn (i - k - 1) (u32 (Z.shiftl (limb a i) (32 - shift))) else pn in
  if (k <=? i)%nat then or_at pn (i - k) (Z.shiftr (limb a i) shift) else pn.

(** [operator>>=] *)
Definition uint_shr (a : limbs) (shift : Z) : limbs :=
  foldl (shr_step a (Z.to_nat (shift / 32)) (shift mod 32)) uint_zero (seq 0 WIDTH).

(** ** Comparison and size *)

(** The loop of [CompareTo] from the most significant limb: both arguments reversed. *)
Fixpoint compare_loop (a b : limbs) : Z :=
  match a, b with
  | x :: a, y :: b => if x <? y then -1 else if x >? y then 1 else compare_loop a b
  | _, _ => 0
  end.

Definition CompareTo (a b : limbs) : Z := compare_loop (rev a) (rev b).

Definition EqualTo (a : limbs) (b : Z) : bool :=
  if negb (forallb (fun x => x =? 0) (drop 2 a)) then false
  else if negb (limb a 1 =? Z.shiftr b 32) then false
  else if negb (limb a 0 =? Z.land b 0xffffffff) then false
  else true.

(** [for (int bits = 31; bits > 0; bits--)] *)
Fixpoint limb_bits_loop (x : Z) (bits : nat) : Z :=
  match bits with
  | O => 1
  | S bits' => if negb (Z.land x (Z.shiftl 1 (Z.of_nat bits)) =? 0) then Z.of_nat bits + 1
               else limb_bits_loop x bits'
  end.

(** [for (int pos = WIDTH - 1; pos >= 0; pos--)] over the reversed array *)
Fixpoint bits_loop (r : limbs) : Z :=
  match r with
  | [] => 0
  | x :: r => if negb (x =? 0) then 32 * zlen r + limb_bits_loop x 31 else bits_loop r
  end.

Definition bits (a : limbs) : Z := bits_loop (rev a).

Definition GetLow64 (a : limbs) : Z := Z.lor (limb a 0) (Z.shiftl (limb a 1) 32).

(** ** Division *)

Inductive uint_error : Set := division_by_zero.

(** [while (shift >= 0)], counting [shift + 1] down. *)
Fixpoint div_loop (fuel : nat) (num div q : limbs) : limbs :=
  match fuel with
  | O => q
  | S shift =>
      let ge := CompareTo num div >=? 0 in
      let num := if ge then uint_sub num div else num in
      let q := if ge then or_at q (shift / 32) (Z.shiftl 1 (Z.land (Z.of_nat shift) 31)) else q in
      div_loop shift num (uint_shr div 1) q
  end.

(** [operator/=] *)
Definition uint_div (a b : limbs) : res uint_error limbs :=
  let num_bits := bits a in
  let div_bits := bits b in
  if div_bits =? 0 then Err division_by_zero
  else if div_bits >? num_bits then Ok uint_zero
  else
    let shift := num_bits - div_bits in
    Ok (div_loop (Z.to_nat (shift + 1)) a (uint_shl b shift) uint_zero).

(** ** Conversion to and from [uint256] *)

Definition ArithToUint256 (a : limbs) : bytes := concat (le_bytes 4 <$> a).

Fixpoint limbs_of_bytes (n : nat) (b : bytes) : limbs :=
  match n with
  | O => []
  | S n => le_val (take 4 b) :: limbs_of_bytes n (drop 4 b)
  end.

Definition UintToArith256 (b : bytes) : limbs := limbs_of_bytes WIDTH b.

(** ** The compact format *)

(** [SetCompact]: the number, [*pfNegative] and [*pfOverflow]. *)
Definition SetCompact (nCompact : Z) : limbs * bool * bool :=
  let nSize := Z.shiftr nCompact 24 in
  let nWord := Z.land nCompact 0x007fffff in
  let nWord' := if nSize <=? 3 then Z.shiftr nWord (8 * (3 - nSize)) else nWord in
  let r := if nSize <=? 3 then uint_of_u64 nWord'
           else uint_shl (uint_of_u64 nWord') (8 * (nSize - 3)) in
  (r,
   negb (nWord' =? 0) && negb (Z.land nCompact 0x00800000 =? 0),
   negb (nWord' =? 0) && ((nSize >? 34) || ((nWord' >? 0xff) && (nSize >? 33))
                          || ((nWord' >? 0xffff) && (nSize >? 32)))).

(** [GetCompact]; [None] is a failed assertion. *)
Definition GetCompact (a : limbs) (fNegative : bool) : option Z :=
  let nSize := (bits a + 7) / 8 in
  let nCompact :=
    if nSize <=? 3 then u32 (u64 (Z.shiftl (GetLow64 a) (8 * (3 - nSize))))
    else u32 (GetLow64 (uint_shr a (8 * (nSize - 3)))) in
  let big := negb (Z.land nCompact 0x00800000 =? 0) in
  let nCompact := if big then Z.shiftr nCompact 8 else nCompact in
  let nSize := if big then nSize + 1 else nSize in
  if negb (Z.land nCompact (u32 (Z.lnot 0x007fffff)) =? 0) then None
  else if negb (nSize <? 256) then None
  else
    let nCompact := Z.lor nCompact (u32 (Z.shiftl nSize 24)) in
    Some (Z.lor nCompact
            (if fNegative && negb (Z.land nCompact 0x007fffff =? 0) then 0x00800000 else 0)).

(** ** Values *)

Fixpoint lval (l : limbs) : Z :=
  match l with
  | [] => 0
  | x :: l => x + 2 ^ 32 * lval l
  end.

Definition limb_ok (x : Z) : Prop := 0 <= x < 2 ^ 32.
Definition limbs_ok (l : limbs) : Prop := Forall limb_ok l.

(** A well-formed [base_uint<256>]. *)
Definition uint_ok (a : limbs) : Prop := limbs_ok a /\ length a = WIDTH.

Example test_div : uint_div (uint_of_u64 1000000007) (uint_of_u64 1009) = Ok (uint_of_u64 991080).
Proof. vm_compute. reflexivity. Qed.

Example test_shl : lval (uint_shl (uint_of_u64 0xDEADBEEFCAFE) 77) = 0xDEADBEEFCAFE * 2 ^ 77.
Proof. vm_compute. reflexivity. Qed.

Example test_mul :
  lval (uint_mul (uint_shl (uint_of_u64 0xDEADBEEFCAFE) 77) (uint_of_u64 0xABCDEF0123456789))
  = 0xDEADBEEFCAFE * 2 ^ 77 * 0xABCDEF0123456789.
Proof. vm_compute. reflexivity. Qed.

Example test_compact : GetCompact (SetCompact 0x1b04864c).1.1 false = Some 0x1b04864c.
Proof. vm_compute. reflexivity. Qed.

(** ** Limb arithmetic *)

Lemma low32 n : Z.land n 0xffffffff = n mod 2 ^ 32.
Proof. change 0xffffffff with (Z.ones 32). by rewrite Z.land_ones. Qed.

Lemma high32 n : Z.shiftr n 32 = n / 2 ^ 32.
Proof. by rewrite Z.shiftr_div_pow2. Qed.

(** One limb of a carry chain. *)
Lemma carry_step n r m :
  0 < m -> n mod 2 ^ 32 + 2 ^ 32 * ((n / 2 ^ 32 + r) mod m) = (n + 2 ^ 32 * r) mod (2 ^ 32 * m).
Proof.
  intros Hm. rewrite Z.rem_mul_r by lia. rewrite (Z.mul_comm (2 ^ 32) r), Z.mod_add, Z.div_add by lia.
  done.
Qed.

Lemma width_pos (l : limbs) : 0 < 2 ^ (32 * zlen l).
Proof. apply Z.pow_pos_nonneg; [lia|]. pose proof (zlen_nonneg l). lia. Qed.

Lemma width_nil : 2 ^ (32 * zlen (@nil Z)) = 1.
Proof. done. Qed.

Lemma width_cons (x : Z) l : 2 ^ (32 * zlen (x :: l)) = 2 ^ 32 * 2 ^ (32 * zlen l).
Proof. rewrite zlen_cons, <- Z.pow_add_r; [f_equal; lia|lia|]. pose proof (zlen_nonneg l). lia. Qed.

Lemma lval_range l : limbs_ok l -> 0 <= lval l < 2 ^ (32 * zlen l).
Proof.
  induction l as [|x l IH]; intros Hl; [rewrite width_nil; cbn; lia|].
  apply Forall_cons in Hl as [Hx Hl]. unfold limb_ok in Hx. rewrite width_cons. specialize (IH Hl). cbn [lval]. nia.
Qed.

Lemma lval_app l k : lval (l ++ k) = lval l + 2 ^ (32 * zlen l) * lval k.
Proof.
  induction l as [|x l IH]; [cbn [app lval]; rewrite width_nil; lia|].
  cbn [app lval]. rewrite IH, width_cons. lia.
Qed.

Lemma limb_ok_mod n : limb_ok (n mod 2 ^ 32).
Proof. apply Z.mod_pos_bound. lia. Qed.

Lemma add_loop_spec a b carry :
  limbs_ok a -> limbs_ok b -> length a = length b -> 0 <= carry <= 1 ->
  limbs_ok (add_loop carry a b) /\ length (add_loop carry a b) = length a /\
  lval (add_loop carry a b) = (carry + lval a + lval b) mod 2 ^ (32 * zlen a).
Proof.
  revert b carry. induction a as [|x a IH]; intros [|y b] carry Ha Hb Hl Hc; try done.
  { split; [done|]. split; [done|]. rewrite width_nil. by rewrite Z.mod_1_r. }
  apply Forall_cons in Ha as [Hx Ha]. apply Forall_cons in Hb as [Hy Hb]. unfold limb_ok in Hx, Hy.
  cbn [add_loop]. rewrite low32, high32, u64_id by lia.
  destruct (IH b ((carry + x + y) / 2 ^ 32)) as (Ho & Hlen & Hv); [done|done|by injection Hl| |].
  { split; [apply Z.div_pos; lia|apply Z.lt_succ_r, Z.div_lt_upper_bound; lia]. }
  split; [constructor; [apply limb_ok_mod|done]|]. split; [cbn; by rewrite Hlen|].
  cbn [lval]. rewrite Hv, width_cons.
  replace ((carry + x + y) / 2 ^ 32 + lval a + lval b)
    with ((carry + x + y) / 2 ^ 32 + (lval a + lval b)) by lia.
  rewrite carry_step by apply width_pos. f_equal. lia.
Qed.

Lemma mul32_loop_spec b a carry :
  limb_ok b -> limbs_ok a -> 0 <= carry < 2 ^ 32 ->
  limbs_ok (mul32_loop carry b a) /\ length (mul32_loop carry b a) = length a /\
  lval (mul32_loop carry b a) = (carry + b * lval a) mod 2 ^ (32 * zlen a).
Proof.
  intros Hb. unfold limb_ok in Hb. revert carry. induction a as [|x a IH]; intros carry Ha Hc.
  { split; [done|]. split; [done|]. rewrite width_nil. by rewrite Z.mod_1_r. }
  apply Forall_cons in Ha as [Hx Ha]. unfold limb_ok in Hx.
  cbn [mul32_loop]. assert (0 <= carry + b * x < 2 ^ 64) by nia. rewrite low32, high32, u64_id by done.
  destruct (IH ((carry + b * x) / 2 ^ 32)) as (Ho & Hlen & Hv); [done| |].
  { split; [apply Z.div_pos; lia|apply Z.div_lt_upper_bound; lia]. }
  split; [constructor; [apply limb_ok_mod|done]|]. split; [cbn; by rewrite Hlen|].
  cbn [lval]. rewrite Hv, width_cons, carry_step by apply width_pos. f_equal. lia.
Qed.

Lemma mac_loop_spec aj p b carry :
  limb_ok aj -> limbs_ok p -> limbs_ok b -> (length p <= length b)%nat -> 0 <= carry < 2 ^ 32 ->
  limbs_ok (mac_loop carry aj p b) /\ length (mac_loop carry aj p b) = length p /\
  lval (mac_loop carry aj p b) = (carry + lval p + aj * lval b) mod 2 ^ (32 * zlen p).
Proof.
  intros Haj. unfold limb_ok in Haj. revert b carry.
  induction p as [|x p IH]; intros [|y b] carry Hp Hb Hl Hc; try (cbn in Hl; lia).
  { split; [done|]. split; [done|]. rewrite width_nil. by rewrite Z.mod_1_r. }
  { split; [done|]. split; [done|]. rewrite width_nil. by rewrite Z.mod_1_r. }
  apply Forall_cons in Hp as [Hx Hp]. apply Forall_cons in Hb as [Hy Hb]. unfold limb_ok in Hx, Hy.
  cbn [mac_loop]. assert (0 <= carry + x + aj * y < 2 ^ 64) by nia.
  rewrite low32, high32, u64_id by done.
  destruct (IH b ((carry + x + aj * y) / 2 ^ 32)) as (Ho & Hlen & Hv);
    [done|done|cbn in Hl; lia| |].
  { split; [apply Z.div_pos; lia|apply Z.div_lt_upper_bound; lia]. }
  split; [constructor; [apply limb_ok_mod|done]|]. split; [cbn; by rewrite Hlen|].
  cbn [lval]. rewrite Hv, width_cons.
  replace ((carry + x + aj * y) / 2 ^ 32 + lval p + aj * lval b)
    with ((carry + x + aj * y) / 2 ^ 32 + (lval p + aj * lval b)) by lia.
  rewrite carry_step by apply width_pos. f_equal. lia.
Qed.

(** ** Complement and negation *)

Lemma not32 x : limb_ok x -> u32 (Z.lnot x) = 2 ^ 32 - 1 - x.
Proof.
  unfold limb_ok, u32, Z.lnot. intros Hx. rewrite <- (Z.mod_add _ 1) by lia.
  rewrite Z.mod_small; lia.
Qed.

Lemma uint_not_spec a :
  limbs_ok a -> limbs_ok (uint_not a) /\ length (uint_not a) = length a /\
  lval (uint_not a) = 2 ^ (32 * zlen a) - 1 - lval a.
Proof.
  induction a as [|x a IH]; intros Ha; [done|]. apply Forall_cons in Ha as [Hx Ha].
  destruct (IH Ha) as (Ho & Hl & Hv). change (uint_not (x :: a)) with (u32 (Z.lnot x) :: uint_not a).
  rewrite not32 by done. unfold limb_ok in Hx. split; [constructor; [unfold limb_ok; lia|done]|].
  split; [cbn; by rewrite Hl|]. cbn [lval]. rewrite Hv, width_cons. lia.
Qed.

Lemma uint_inc_spec a :
  limbs_ok a -> limbs_ok (uint_inc a) /\ length (uint_inc a) = length a /\
  lval (uint_inc a) = (lval a + 1) mod 2 ^ (32 * zlen a).
Proof.
  induction a as [|x a IH]; intros Ha; [split; [done|]; split; [done|]; rewrite width_nil; by rewrite Z.mod_1_r|].
  pose proof (lval_range _ Ha) as Hr. apply Forall_cons in Ha as [Hx Ha].
  destruct (IH Ha) as (Ho & Hl & Hv). cbn [uint_inc]. unfold limb_ok in Hx.
  pose proof (lval_range _ Ha) as Hra. rewrite width_cons in Hr |- *. cbn [lval] in Hr.
  destruct (Z.eqb_spec (u32 (x + 1)) 0) as [E|E].
  - assert (x = 2 ^ 32 - 1) as -> by (unfold u32 in E; destruct (Z.eq_dec x (2 ^ 32 - 1)); [done|];
      rewrite Z.mod_small in E; lia).
    rewrite E. split; [constructor; [unfold limb_ok; lia|done]|]. split; [cbn; by rewrite Hl|].
    cbn [lval]. rewrite Hv, Z.add_0_l, <- Z.mul_mod_distr_l by (pose proof (width_pos a); lia).
    f_equal. lia.
  - assert (x + 1 < 2 ^ 32) by (unfold u32 in E; destruct (Z.eq_dec x (2 ^ 32 - 1)) as [->|]; [done|lia]).
    rewrite u32_id by lia. split; [constructor; [unfold limb_ok; lia|done]|]. split; [done|].
    cbn [lval]. rewrite Z.mod_small; lia.
Qed.

Lemma uint_neg_spec a :
  limbs_ok a -> limbs_ok (uint_neg a) /\ length (uint_neg a) = length a /\
  lval (uint_neg a) = (- lval a) mod 2 ^ (32 * zlen a).
Proof.
  intros Ha. destruct (uint_not_spec a Ha) as (Ho & Hl & Hv).
  destruct (uint_inc_spec _ Ho) as (Ho' & Hl' & Hv'). unfold uint_neg.
  split; [done|]. split; [congruence|]. rewrite Hv', Hv. unfold zlen. rewrite Hl. fold (zlen a).
  replace (2 ^ (32 * zlen a) - 1 - lval a + 1) with (- lval a + 1 * 2 ^ (32 * zlen a)) by lia.
  apply Z.mod_add. pose proof (width_pos a). lia.
Qed.

(** ** The 256-bit type *)

Definition M256 : Z := 2 ^ 256.

Lemma uint_ok_zlen a : uint_ok a -> zlen a = 8.
Proof. intros [_ H]. unfold zlen. by rewrite H. Qed.

Lemma uint_ok_range a : uint_ok a -> 0 <= lval a < M256.
Proof.
  intros Ha. pose proof (lval_range a (proj1 Ha)) as H. by rewrite (uint_ok_zlen a Ha) in H.
Qed.

Lemma uint_zero_ok : uint_ok uint_zero /\ lval uint_zero = 0.
Proof. split; [|done]. split; [|done]. repeat constructor; vm_compute; done. Qed.

Lemma uint_add_spec a b :
  uint_ok a -> uint_ok b -> uint_ok (uint_add a b) /\ lval (uint_add a b) = (lval a + lval b) mod M256.
Proof.
  intros [Ha Hla] [Hb Hlb]. destruct (add_loop_spec a b 0 Ha Hb ltac:(congruence) ltac:(lia)) as (Ho & Hl & Hv).
  split; [split; [done|unfold uint_add; congruence]|]. unfold uint_add. rewrite Hv.
  by rewrite (uint_ok_zlen a).
Qed.

Lemma uint_sub_spec a b :
  uint_ok a -> uint_ok b -> uint_ok (uint_sub a b) /\ lval (uint_sub a b) = (lval a - lval b) mod M256.
Proof.
  intros Ha Hb. destruct (uint_neg_spec b (proj1 Hb)) as (Ho & Hl & Hv).
  destruct (uint_add_spec a (uint_neg b) Ha) as [Hok Hval]; [split; [done|]; rewrite Hl; apply Hb|].
  split; [done|]. unfold uint_sub. rewrite Hval, Hv, (uint_ok_zlen b Hb).
  change (2 ^ (32 * 8)) with M256. by rewrite Z.add_mod_idemp_r, Z.add_opp_r.
Qed.

Lemma uint_mul32_spec a b :
  uint_ok a -> limb_ok b -> uint_ok (uint_mul32 a b) /\ lval (uint_mul32 a b) = (lval a * b) mod M256.
Proof.
  intros [Ha Hla] Hb. destruct (mul32_loop_spec b a 0 Hb Ha ltac:(lia)) as (Ho & Hl & Hv).
  split; [split; [done|unfold uint_mul32; congruence]|]. unfold uint_mul32. rewrite Hv, (uint_ok_zlen a) by done.
  change (2 ^ (32 * 8)) with M256. f_equal. lia.
Qed.
