(* ===== verification/ArithUint256Props.v ===== *)
(** * 256-bit integers: the operations compute modulo 2^256

    Multiplication, shifts, comparison, bit length and the long division of
    [utils/arith_uint256.cpp] against integer arithmetic, then the compact format. *)

From S2P Require Import Prelude ArithUint256.

(** ** Multiplication *)

(** Adding at limb [j]: the low part stays, the high part wraps. *)
Lemma high_part_mod l p t q :
  0 <= l < p -> 0 < q -> l + p * (t mod q) = (l + p * t) mod (p * q).
Proof.
  intros Hl Hq. rewrite Z.rem_mul_r by lia.
  rewrite (Z.mul_comm p t), Z.mod_add, Z.div_add, (Z.mod_small l), (Z.div_small l) by lia.
  by rewrite Z.add_0_l.
Qed.

Lemma lookup_limb_ok a j : limbs_ok a -> limb_ok (default 0 (a !! j)).
Proof.
  intros Ha. destruct (a !! j) as [x|] eqn:E; [|unfold limb_ok; cbn; lia].
  by eapply Forall_lookup_1 in E.
Qed.

Lemma mul_step_spec a b pn j :
  uint_ok a -> uint_ok b -> uint_ok pn -> (j < 8)%nat ->
  uint_ok (mul_step a b pn j) /\
  lval (mul_step a b pn j) =
    (lval pn + 2 ^ (32 * Z.of_nat j) * (default 0 (a !! j) * lval b)) mod M256.
Proof.
  intros [Ha Hla] [Hb Hlb] [Hp Hlp] Hj. unfold mul_step, WIDTH in *.
  destruct (mac_loop_spec (default 0 (a !! j)) (drop j pn) b 0) as (Ho & Hl & Hv);
    [by apply lookup_limb_ok|by apply Forall_drop|done|rewrite length_drop; lia|lia|].
  split; [split|].
  - apply Forall_app. split; [by apply Forall_take|done].
  - unfold WIDTH. rewrite length_app, Hl, length_take, length_drop. lia.
  - rewrite lval_app, Hv. unfold zlen. rewrite length_take, length_drop, Hlp.
    rewrite Nat.min_l, Z.add_0_l by lia.
    assert (0 <= lval (take j pn) < 2 ^ (32 * Z.of_nat j)) as Hr.
    { pose proof (lval_range (take j pn) ltac:(by apply Forall_take)) as Hr.
      unfold zlen in Hr. rewrite length_take, Hlp, Nat.min_l in Hr by lia. done. }
    rewrite high_part_mod by (done || (apply Z.pow_pos_nonneg; lia)). unfold M256.
    rewrite <- Z.pow_add_r by lia. replace (32 * Z.of_nat j + 32 * Z.of_nat (8 - j)) with 256 by lia.
    f_equal. rewrite <- (take_drop j pn) at 3. rewrite lval_app. unfold zlen.
    rewrite length_take, Hlp, Nat.min_l by lia. lia.
Qed.

Lemma lval_take_S a j :
  length a = 8%nat -> (j < 8)%nat ->
  lval (take (S j) a) = lval (take j a) + 2 ^ (32 * Z.of_nat j) * default 0 (a !! j).
Proof.
  intros Hl Hj. destruct (lookup_lt_is_Some_2 a j ltac:(lia)) as [x Hx].
  rewrite (take_S_r _ _ _ Hx), lval_app, Hx. unfold zlen. rewrite length_take, Hl, Nat.min_l by lia.
  cbn [lval default from_option id]. lia.
Qed.

Lemma uint_mul_spec a b :
  uint_ok a -> uint_ok b -> uint_ok (uint_mul a b) /\ lval (uint_mul a b) = (lval a * lval b) mod M256.
Proof.
  intros Ha Hb. unfold uint_mul.
  assert (forall j, (j <= 8)%nat -> uint_ok (foldl (mul_step a b) uint_zero (seq 0 j)) /\
    lval (foldl (mul_step a b) uint_zero (seq 0 j)) = (lval (take j a) * lval b) mod M256) as H.
  { induction j as [|j IH]; intros Hj; [split; [apply uint_zero_ok|done]|].
    rewrite seq_S, foldl_app, Nat.add_0_l. cbn [foldl]. destruct (IH ltac:(lia)) as [Hok Hv].
    destruct (mul_step_spec a b _ j Ha Hb Hok ltac:(lia)) as [Hok' Hv']. split; [done|].
    rewrite Hv', Hv, lval_take_S by (apply Ha || lia). rewrite Z.add_mod_idemp_l by done.
    f_equal. lia. }
  destruct (H WIDTH ltac:(unfold WIDTH; lia)) as [Hok Hv]. split; [done|].
  rewrite Hv, take_ge; [done|]. destruct Ha as [_ ->]. done.
Qed.

(** ** Shifts *)

(** A left shift by less than a limb, [prev] being the limb below. *)
Fixpoint shl_small (s prev : Z) (a : limbs) : limbs :=
  match a with
  | [] => []
  | x :: a =>
      (if s =? 0 then u32 (Z.shiftl x s)
       else Z.lor (Z.shiftr prev (32 - s)) (u32 (Z.shiftl x s))) :: shl_small s x a
  end.

(** A right shift by less than a limb. *)
Fixpoint shr_small (s : Z) (a : limbs) : limbs :=
  match a with
  | [] => []
  | x :: a =>
      (if s =? 0 then Z.shiftr x s
       else match a with
            | [] => Z.shiftr x s
            | y :: _ => Z.lor (Z.shiftr x s) (u32 (Z.shiftl y (32 - s)))
            end) :: shr_small s a
  end.

Lemma uint_shl_limbs a0 a1 a2 a3 a4 a5 a6 a7 k s :
  foldl (shl_step [a0; a1; a2; a3; a4; a5; a6; a7] k s) uint_zero (seq 0 WIDTH) =
  take 8 (replicate k 0 ++ shl_small s 0 [a0; a1; a2; a3; a4; a5; a6; a7]).
Proof.
  destruct (decide (8 <= k)%nat) as [Hk|Hk].
  - rewrite take_app_le by (rewrite length_replicate; lia). rewrite take_replicate, Nat.min_l by lia.
    assert (forall pn i, (i <= 7)%nat -> shl_step [a0; a1; a2; a3; a4; a5; a6; a7] k s pn i = pn) as E.
    { intros pn i Hi. unfold shl_step, WIDTH. destruct (Nat.ltb_spec (i + k + 1) 8); [lia|].
      destruct (Nat.ltb_spec (i + k) 8); [lia|done]. }
    cbn [seq foldl WIDTH]. by rewrite !E by lia.
  - destruct (Z.eqb_spec s 0) as [->|Hs].
    + do 8 (destruct k as [|k]; [reflexivity|]). lia.
    + assert ((s =? 0) = false) as E by by apply Z.eqb_neq.
      do 8 (destruct k as [|k]; [cbn; unfold shl_step; rewrite E, Z.shiftr_0_l; reflexivity|]). lia.
Qed.

Lemma uint_shr_limbs a0 a1 a2 a3 a4 a5 a6 a7 k s :
  foldl (shr_step [a0; a1; a2; a3; a4; a5; a6; a7] k s) uint_zero (seq 0 WIDTH) =
  take 8 (drop k (shr_small s [a0; a1; a2; a3; a4; a5; a6; a7]) ++ uint_zero).
Proof.
  destruct (decide (8 <= k)%nat) as [Hk|Hk].
  - assert (length (shr_small s [a0; a1; a2; a3; a4; a5; a6; a7]) = 8%nat) as Hl by done.
    rewrite drop_ge by lia.
    assert (forall pn i, (i <= 7)%nat -> shr_step [a0; a1; a2; a3; a4; a5; a6; a7] k s pn i = pn) as E.
    { intros pn i Hi. unfold shr_step. destruct (Nat.leb_spec (k + 1) i); [lia|].
      destruct (Nat.leb_spec k i); [lia|done]. }
    cbn [seq foldl WIDTH]. by rewrite !E by lia.
  - destruct (Z.eqb_spec s 0) as [->|Hs].
    + do 8 (destruct k as [|k]; [reflexivity|]). lia.
    + assert ((s =? 0) = false) as E by by apply Z.eqb_neq.
      do 8 (destruct k as [|k]; [cbn; unfold shr_step; rewrite E; reflexivity|]). lia.
Qed.

(** Splitting a limb at bit [s]. *)
Lemma shl_limb s prev x :
  0 < s < 32 -> limb_ok prev -> limb_ok x ->
  Z.lor (Z.shiftr prev (32 - s)) (u32 (Z.shiftl x s)) = (prev / 2 ^ (32 - s) + x * 2 ^ s) mod 2 ^ 32 /\
  (prev / 2 ^ (32 - s) + x * 2 ^ s) / 2 ^ 32 = x / 2 ^ (32 - s).
Proof.
  intros Hs Hp Hx. unfold limb_ok, u32 in *. rewrite Z.shiftr_div_pow2, Z.shiftl_mul_pow2 by lia.
  assert (2 ^ 32 = 2 ^ (32 - s) * 2 ^ s) as E by (rewrite <- Z.pow_add_r by lia; f_equal; lia).
  assert (0 < 2 ^ s) by (apply Z.pow_pos_nonneg; lia).
  assert (0 < 2 ^ (32 - s)) by (apply Z.pow_pos_nonneg; lia).
  assert (0 <= prev / 2 ^ (32 - s) < 2 ^ s) as Hc
    by (split; [apply Z.div_pos; lia|apply Z.div_lt_upper_bound; lia]).
  pose proof (Z.div_mod x (2 ^ (32 - s)) ltac:(lia)) as Hdm.
  pose proof (Z.mod_pos_bound x (2 ^ (32 - s)) ltac:(lia)) as Hb.
  assert (prev / 2 ^ (32 - s) + x * 2 ^ s =
          (prev / 2 ^ (32 - s) + x mod 2 ^ (32 - s) * 2 ^ s) + x / 2 ^ (32 - s) * 2 ^ 32) as Ed
    by (rewrite E; nia).
  assert (0 <= prev / 2 ^ (32 - s) + x mod 2 ^ (32 - s) * 2 ^ s < 2 ^ 32) as Hlow by (rewrite E; nia).
  rewrite Ed. rewrite Z.mod_add, Z.div_add by lia.
  rewrite (Z.mod_small (_ + _)), (Z.div_small (_ + _)) by done. split; [|lia].
  rewrite E at 1. rewrite Z.mul_mod_distr_r by lia.
  rewrite <- (Z.shiftl_mul_pow2 (x mod _)) by lia. rewrite lor_shiftl_add by lia.
  by rewrite Z.shiftl_mul_pow2 by lia.
Qed.

Lemma shl_small_spec s a prev :
  0 <= s < 32 -> limb_ok prev -> limbs_ok a ->
  limbs_ok (shl_small s prev a) /\ length (shl_small s prev a) = length a /\
  lval (shl_small s prev a) = (prev / 2 ^ (32 - s) + 2 ^ s * lval a) mod 2 ^ (32 * zlen a).
Proof.
  intros Hs. revert prev. induction a as [|x a IH]; intros prev Hp Ha.
  { split; [done|]. split; [done|]. rewrite width_nil. by rewrite Z.mod_1_r. }
  apply Forall_cons in Ha as [Hx Ha]. destruct (IH x Hx Ha) as (Ho & Hl & Hv).
  cbn [shl_small]. destruct (Z.eqb_spec s 0) as [->|Hs0].
  - rewrite Z.shiftl_0_r, u32_id by done. split; [by constructor|]. split; [cbn; by rewrite Hl|].
    unfold limb_ok in *. rewrite width_cons. cbn [lval].
    rewrite Hv, (Z.div_small prev), (Z.div_small x), Z.add_0_l by lia.
    rewrite high_part_mod by (done || apply width_pos). f_equal. lia.
  - destruct (shl_limb s prev x ltac:(lia) Hp Hx) as [-> Hc].
    split; [constructor; [apply limb_ok_mod|done]|]. split; [cbn; by rewrite Hl|].
    cbn [lval]. rewrite Hv, width_cons, <- Hc, carry_step by apply width_pos. f_equal. lia.
Qed.

Lemma shr_limb s x y t :
  0 < s < 32 -> limb_ok x -> limb_ok y ->
  Z.lor (Z.shiftr x s) (u32 (Z.shiftl y (32 - s))) + 2 ^ 32 * ((y + 2 ^ 32 * t) / 2 ^ s) =
  (x + 2 ^ 32 * (y + 2 ^ 32 * t)) / 2 ^ s /\
  limb_ok (Z.lor (Z.shiftr x s) (u32 (Z.shiftl y (32 - s)))).
Proof.
  intros Hs Hx Hy. unfold limb_ok, u32 in *. rewrite Z.shiftr_div_pow2, Z.shiftl_mul_pow2 by lia.
  assert (2 ^ 32 = 2 ^ s * 2 ^ (32 - s)) as E by (rewrite <- Z.pow_add_r by lia; f_equal; lia).
  assert (0 < 2 ^ s) as HP by (apply Z.pow_pos_nonneg; lia).
  assert (0 < 2 ^ (32 - s)) as HQ by (apply Z.pow_pos_nonneg; lia).
  assert (0 <= x / 2 ^ s < 2 ^ (32 - s)) as Hc
    by (split; [apply Z.div_pos; lia|apply Z.div_lt_upper_bound; lia]).
  assert (Z.lor (x / 2 ^ s) (y mod 2 ^ s * 2 ^ (32 - s)) = x / 2 ^ s + y mod 2 ^ s * 2 ^ (32 - s)) as Hlor.
  { rewrite <- (Z.shiftl_mul_pow2 (y mod _)) by lia. rewrite lor_shiftl_add by lia.
    by rewrite Z.shiftl_mul_pow2 by lia. }
  pose proof (Z.div_mod y (2 ^ s) ltac:(lia)) as Hdm. pose proof (Z.mod_pos_bound y (2 ^ s) ltac:(lia)) as Hb.
  revert E Hlor Hdm Hb Hc. revert HP HQ. generalize (2 ^ s) (2 ^ (32 - s)) (2 ^ 32). clear.
  intros P Q B HP HQ -> Hlor Hdm Hb Hc.
  rewrite Z.mul_mod_distr_r, Hlor by lia. split; [|nia].
  replace (y + P * Q * t) with (y + (Q * t) * P) by lia.
  replace (x + P * Q * (y + Q * t * P)) with (x + (Q * (y + Q * t * P)) * P) by lia.
  rewrite !Z.div_add by lia. rewrite Hdm at 3. ring.
Qed.

Lemma shr_small_spec s a :
  0 <= s < 32 -> limbs_ok a ->
  limbs_ok (shr_small s a) /\ length (shr_small s a) = length a /\ lval (shr_small s a) = lval a / 2 ^ s.
Proof.
  intros Hs. induction a as [|x a IH]; intros Ha; [done|].
  apply Forall_cons in Ha as [Hx Ha]. destruct (IH Ha) as (Ho & Hl & Hv). cbn [shr_small].
  destruct (Z.eqb_spec s 0) as [->|Hs0].
  { rewrite Z.shiftr_0_r. split; [by constructor|]. split; [cbn; by rewrite Hl|].
    cbn [lval]. rewrite Hv. change (2 ^ 0) with 1. by rewrite !Z.div_1_r. }
  destruct a as [|y a].
  - split; [|split; [done|]].
    + constructor; [|done]. unfold limb_ok in *. rewrite Z.shiftr_div_pow2 by lia.
      split; [apply Z.div_pos; [lia|apply Z.pow_pos_nonneg; lia]|].
      eapply Z.le_lt_trans; [apply Z.div_le_upper_bound with (q := x); [apply Z.pow_pos_nonneg; lia|]|lia].
      assert (0 < 2 ^ s) by (apply Z.pow_pos_nonneg; lia). nia.
    + cbn [lval shr_small]. by rewrite Z.shiftr_div_pow2, Z.mul_0_r, !Z.add_0_r by lia.
  - pose proof Ha as Ha'. apply Forall_cons in Ha' as [Hy _].
    destruct (shr_limb s x y (lval a) ltac:(lia) Hx Hy) as [E Hok].
    split; [by constructor|]. split; [cbn; f_equal; cbn in Hl; lia|].
    cbn [lval]. cbn [lval] in Hv. by rewrite <- E, <- Hv.
Qed.

Ltac destruct_limbs a Hl :=
  destruct a as [|? [|? [|? [|? [|? [|? [|? [|? [|? ?]]]]]]]]]; try discriminate Hl.

Lemma lval_zeros m : lval (replicate m 0) = 0.
Proof. induction m as [|m IH]; [done|]. cbn [replicate lval]. lia. Qed.

Lemma uint_shl_spec a n :
  uint_ok a -> 0 <= n -> uint_ok (uint_shl a n) /\ lval (uint_shl a n) = (lval a * 2 ^ n) mod M256.
Proof.
  intros [Ha Hl] Hn. unfold uint_shl. set (k := Z.to_nat (n / 32)). set (s := n mod 32).
  assert (0 <= s < 32) as Hs by (apply Z.mod_pos_bound; lia).
  assert (n = 32 * Z.of_nat k + s) as En.
  { pose proof (Z.div_mod n 32 ltac:(lia)). pose proof (Z.div_pos n 32 ltac:(lia) ltac:(lia)). lia. }
  destruct (shl_small_spec s a 0 Hs ltac:(unfold limb_ok; lia) Ha) as (Ho & Hlen & Hv).
  assert (foldl (shl_step a k s) uint_zero (seq 0 WIDTH) = take 8 (replicate k 0 ++ shl_small s 0 a)) as ->
    by (clear -Hl; destruct_limbs a Hl; apply uint_shl_limbs).
  assert (limbs_ok (replicate k 0 ++ shl_small s 0 a)) as Hok.
  { apply Forall_app. split; [|done]. apply Forall_replicate. unfold limb_ok. lia. }
  unfold WIDTH in *. split; [split; [by apply Forall_take|]|].
  { unfold WIDTH. rewrite length_take, length_app, length_replicate, Hlen, Hl. lia. }
  assert (lval (take 8 (replicate k 0 ++ shl_small s 0 a)) =
          lval (replicate k 0 ++ shl_small s 0 a) mod M256) as ->.
  { set (l := replicate k 0 ++ shl_small s 0 a) in *. rewrite <- (take_drop 8 l) at 2.
    rewrite lval_app. assert (length l = (k + 8)%nat) as Hll
      by (unfold l; rewrite length_app, length_replicate, Hlen, Hl; lia).
    unfold zlen. rewrite length_take, Hll, Nat.min_l by lia. change (2 ^ (32 * Z.of_nat 8)) with M256.
    rewrite Z.mul_comm, Z.mod_add by done. rewrite Z.mod_small; [done|].
    pose proof (lval_range (take 8 l) ltac:(by apply Forall_take)) as Hr.
    unfold zlen in Hr. by rewrite length_take, Hll, Nat.min_l in Hr by lia. }
  rewrite lval_app. rewrite lval_zeros.
  unfold zlen at 1. rewrite length_replicate, Hv, Z.add_0_l, Z.div_0_l, Z.add_0_l
    by (apply Z.pow_nonzero; lia).
  unfold zlen. rewrite Hl. change (2 ^ (32 * Z.of_nat 8)) with M256.
  rewrite Z.mul_mod_idemp_r by done. f_equal. rewrite En, Z.pow_add_r by lia. lia.
Qed.

(** Dropping [k] limbs divides by [2 ^ (32 * k)]. *)
Lemma lval_drop l k : limbs_ok l -> lval (drop k l) = lval l / 2 ^ (32 * Z.of_nat k).
Proof.
  intros Hok. assert (0 < 2 ^ (32 * Z.of_nat k)) by (apply Z.pow_pos_nonneg; lia).
  destruct (decide (k <= length l)%nat).
  - pose proof (lval_range (take k l) ltac:(by apply Forall_take)) as Hr.
    unfold zlen in Hr. rewrite length_take, Nat.min_l in Hr by lia.
    rewrite <- (take_drop k l) at 2. rewrite lval_app. unfold zlen. rewrite length_take, Nat.min_l by lia.
    rewrite Z.mul_comm, Z.div_add, Z.div_small by lia. done.
  - rewrite drop_ge by lia. pose proof (lval_range l Hok) as Hr. rewrite Z.div_small; [done|].
    split; [lia|]. eapply Z.lt_le_trans; [apply Hr|]. apply Z.pow_le_mono_r; unfold zlen; lia.
Qed.

Lemma uint_shr_spec a n :
  uint_ok a -> 0 <= n -> uint_ok (uint_shr a n) /\ lval (uint_shr a n) = lval a / 2 ^ n.
Proof.
  intros [Ha Hl] Hn. unfold uint_shr. set (k := Z.to_nat (n / 32)). set (s := n mod 32).
  assert (0 <= s < 32) as Hs by (apply Z.mod_pos_bound; lia).
  assert (n = 32 * Z.of_nat k + s) as En.
  { pose proof (Z.div_mod n 32 ltac:(lia)). pose proof (Z.div_pos n 32 ltac:(lia) ltac:(lia)). lia. }
  destruct (shr_small_spec s a Hs Ha) as (Ho & Hlen & Hv).
  assert (foldl (shr_step a k s) uint_zero (seq 0 WIDTH) = take 8 (drop k (shr_small s a) ++ uint_zero)) as ->
    by (clear -Hl; destruct_limbs a Hl; apply uint_shr_limbs).
  unfold WIDTH in *. set (l := shr_small s a) in *.
  assert (uint_ok (take 8 (drop k l ++ uint_zero))) as Hok.
  { split; [apply Forall_take, Forall_app; split; [by apply Forall_drop|apply uint_zero_ok]|].
    unfold WIDTH. rewrite length_take, length_app, length_drop, Hlen, Hl. change (length uint_zero) with 8%nat. lia. }
  split; [done|].
  assert (lval (take 8 (drop k l ++ uint_zero)) = lval (drop k l)) as ->.
  { assert (take 8 (drop k l ++ uint_zero) = drop k l ++ replicate (Nat.min 8 k) 0) as ->.
    { rewrite take_app, take_ge by (rewrite length_drop; lia). f_equal. unfold uint_zero.
      rewrite take_replicate, length_drop. f_equal. unfold WIDTH. lia. }
    rewrite lval_app, lval_zeros. lia. }
  rewrite En, Z.pow_add_r by lia.
  assert (0 < 2 ^ (32 * Z.of_nat k)) by (apply Z.pow_pos_nonneg; lia).
  assert (0 < 2 ^ s) by (apply Z.pow_pos_nonneg; lia).
  rewrite (Z.mul_comm (2 ^ _)), <- Z.div_div, <- Hv by lia. by apply lval_drop.
Qed.

(** ** Comparison and bit length *)

Lemma CompareTo_spec a b :
  limbs_ok a -> limbs_ok b -> length a = length b ->
  CompareTo a b = match lval a ?= lval b with Lt => -1 | Eq => 0 | Gt => 1 end.
Proof.
  unfold CompareTo. revert b. induction a as [|x a IH] using rev_ind; intros b Ha Hb Hl.
  { by destruct b. }
  destruct (list_snoc_cases b) as [->|(b' & y & ->)]; [rewrite length_app in Hl; cbn in Hl; lia|].
  rewrite !length_app in Hl. cbn in Hl. assert (length a = length b') as Hl' by lia.
  apply Forall_app in Ha as [Ha Hx]. apply Forall_app in Hb as [Hb Hy].
  rewrite Forall_singleton in Hx, Hy. unfold limb_ok in Hx, Hy.
  rewrite !rev_app_distr. cbn [rev app compare_loop]. rewrite Z.gtb_ltb.
  rewrite !lval_app. cbn [lval]. rewrite !Z.mul_0_r, !Z.add_0_r. unfold zlen. rewrite <- Hl'.
  pose proof (lval_range a Ha) as Hra. pose proof (lval_range b' Hb) as Hrb. unfold zlen in Hra, Hrb.
  rewrite <- Hl' in Hrb. set (w := 2 ^ (32 * Z.of_nat (length a))) in *.
  destruct (Z.ltb_spec x y); [|destruct (Z.ltb_spec y x)].
  - assert (lval a + w * x < lval b' + w * y) as Hlt by nia. by rewrite (proj2 (Z.compare_lt_iff _ _) Hlt).
  - assert (lval b' + w * y < lval a + w * x) as Hlt by nia. by rewrite (proj2 (Z.compare_gt_iff _ _) Hlt).
  - assert (x = y) as -> by lia. rewrite IH by done.
    destruct (Z.compare_spec (lval a) (lval b')), (Z.compare_spec (lval a + w * y) (lval b' + w * y));
      done || lia.
Qed.

Lemma land_bit x n : 0 <= n -> (Z.land x (Z.shiftl 1 n) =? 0) = negb (Z.testbit x n).
Proof.
  intros Hn. rewrite Z.shiftl_1_l. destruct (Z.testbit x n) eqn:E; cbn.
  - apply Z.eqb_neq. intros H. apply (f_equal (fun z => Z.testbit z n)) in H.
    rewrite Z.land_spec, E, Z.pow2_bits_true, Z.bits_0 in H by lia. done.
  - apply Z.eqb_eq, Z.bits_inj'. intros m Hm. rewrite Z.land_spec, Z.bits_0.
    destruct (Z.eq_dec m n) as [->|]; [by rewrite E|].
    rewrite Z.pow2_bits_false by lia. apply andb_false_r.
Qed.

Lemma limb_bits_spec x n :
  0 < x < 2 ^ (Z.of_nat n + 1) -> limb_bits_loop x n = Z.log2 x + 1.
Proof.
  induction n as [|n IH]; intros Hx; cbn [limb_bits_loop].
  { change (2 ^ (Z.of_nat 0 + 1)) with 2 in Hx. by replace x with 1 by lia. }
  rewrite land_bit, negb_involutive by lia. destruct (Z.testbit x (Z.of_nat (S n))) eqn:E.
  - f_equal. symmetry. apply Z.log2_unique; [lia|]. split; [|rewrite <- Z.add_1_r; lia].
    destruct (Z.le_gt_cases (2 ^ Z.of_nat (S n)) x); [done|].
    rewrite (Z.bits_above_log2) in E; [done|lia|]. apply Z.log2_lt_pow2; lia.
  - apply IH. split; [lia|]. destruct (Z.lt_ge_cases x (2 ^ (Z.of_nat n + 1))) as [|Hge]; [done|].
    exfalso. replace (Z.of_nat (S n)) with (Z.of_nat n + 1) in * by lia.
    assert (Z.log2 x = Z.of_nat n + 1) as Hlog by (apply Z.log2_unique; [lia|split; [done|rewrite <- Z.add_1_r; lia]]).
    rewrite <- Hlog, Z.bit_log2 in E by lia. done.
Qed.

Lemma bits_spec a :
  limbs_ok a -> bits a = if lval a =? 0 then 0 else Z.log2 (lval a) + 1.
Proof.
  unfold bits. induction a as [|x a IH] using rev_ind; intros Ha; [done|].
  apply Forall_app in Ha as [Ha Hx]. rewrite Forall_singleton in Hx. unfold limb_ok in Hx.
  rewrite rev_app_distr, lval_app. cbn [rev app bits_loop lval]. rewrite Z.mul_0_r, Z.add_0_r.
  pose proof (lval_range a Ha) as Hr. pose proof (zlen_nonneg a).
  destruct (Z.eqb_spec x 0) as [->|Hx0]; cbn [negb]; [by rewrite Z.mul_0_r, Z.add_0_r, IH|].
  assert (2 ^ (32 * zlen a) <= lval a + 2 ^ (32 * zlen a) * x) by nia.
  destruct (Z.eqb_spec (lval a + 2 ^ (32 * zlen a) * x) 0); [lia|].
  rewrite limb_bits_spec by (change (Z.of_nat 31 + 1) with 32; lia).
  assert (zlen (rev a) = zlen a) as -> by (unfold zlen; by rewrite length_rev).
  rewrite Z.add_assoc. f_equal. symmetry. apply Z.log2_unique; [pose proof (Z.log2_nonneg x); lia|].
  destruct (Z.log2_spec x ltac:(lia)) as [H1 H2]. pose proof (Z.log2_nonneg x).
  rewrite Z.pow_succ_r in * by lia. rewrite Z.pow_add_r by lia. nia.
Qed.

Lemma bits_zero a : limbs_ok a -> (bits a =? 0) = (lval a =? 0).
Proof.
  intros Ha. rewrite bits_spec by done. destruct (Z.eqb_spec (lval a) 0); [done|].
  pose proof (Z.log2_nonneg (lval a)). apply Z.eqb_neq. lia.
Qed.

(** ** Small numbers *)

Lemma uint_of_u64_spec b : 0 <= b < 2 ^ 64 -> uint_ok (uint_of_u64 b) /\ lval (uint_of_u64 b) = b.
Proof.
  intros Hb. unfold uint_of_u64. rewrite high32.
  assert (0 <= b / 2 ^ 32 < 2 ^ 32) by (split; [apply Z.div_pos; lia|apply Z.div_lt_upper_bound; lia]).
  rewrite (u32_id (b / 2 ^ 32)) by done. unfold u32. pose proof (limb_ok_mod b). split.
  - split; [|done]. constructor; [done|]. constructor; [done|]. repeat constructor; vm_compute; done.
  - cbn [lval replicate WIDTH Nat.sub]. rewrite !Z.mul_0_r, !Z.add_0_r.
    pose proof (Z.div_mod b (2 ^ 32) ltac:(lia)). lia.
Qed.

Lemma GetLow64_spec a : uint_ok a -> GetLow64 a = lval a mod 2 ^ 64.
Proof.
  intros [Ha Hl]. destruct_limbs a Hl. unfold limbs_ok in Ha. rewrite !Forall_cons in Ha.
  destruct Ha as (H0 & H1 & _). unfold limb_ok in *. unfold GetLow64, limb. cbn [lookup list_lookup default from_option id].
  rewrite lor_shiftl_add by lia. cbn [lval]. 
  match goal with |- _ = (?x + 2 ^ 32 * (?y + 2 ^ 32 * ?t)) mod _ =>
    replace (x + 2 ^ 32 * (y + 2 ^ 32 * t)) with (x + y * 2 ^ 32 + t * 2 ^ 64) by lia end.
  rewrite Z.mod_add by lia. symmetry. apply Z.mod_small. lia.
Qed.

Lemma EqualTo_spec a b : uint_ok a -> 0 <= b < 2 ^ 64 -> EqualTo a b = (lval a =? b).
Proof.
  intros [Ha Hl] Hb. destruct_limbs a Hl. unfold limbs_ok in Ha. rewrite !Forall_cons in Ha.
  destruct Ha as (H0 & H1 & H2 & H3 & H4 & H5 & H6 & H7 & _). unfold limb_ok in *.
  unfold EqualTo, limb. rewrite low32, high32. cbn [drop forallb lookup list_lookup default from_option id].
  pose proof (Z.div_mod b (2 ^ 32) ltac:(lia)). pose proof (Z.mod_pos_bound b (2 ^ 32) ltac:(lia)).
  cbn [lval]. rewrite Z.mul_0_r, Z.add_0_r.
  match goal with |- context [?x + 2 ^ 32 * (?y + 2 ^ 32 * (?a2 + 2 ^ 32 * (?a3 + 2 ^ 32 * (?a4 + 2 ^ 32 * (?a5 + 2 ^ 32 * (?a6 + 2 ^ 32 * ?a7))))))] =>
    destruct (Z.eqb_spec a2 0), (Z.eqb_spec a3 0), (Z.eqb_spec a4 0), (Z.eqb_spec a5 0), (Z.eqb_spec a6 0),
      (Z.eqb_spec a7 0), (Z.eqb_spec y (b / 2 ^ 32)), (Z.eqb_spec x (b mod 2 ^ 32)); cbn [andb negb];
    match goal with |- _ = (?u =? ?v) => destruct (Z.eqb_spec u v) end; done || nia || lia
  end.
Qed.

(** ** Division *)

(** Setting a bit below which (and including which) the number is zero. *)
Lemma or_bit_aligned x b :
  0 <= b -> x mod 2 ^ (b + 1) = 0 -> Z.lor x (Z.shiftl 1 b) = x + 2 ^ b.
Proof.
  intros Hb Hx. assert (0 < 2 ^ b) by (apply Z.pow_pos_nonneg; lia).
  assert (2 ^ (b + 1) = 2 * 2 ^ b) as E by (rewrite Z.pow_add_r by lia; lia).
  apply Z.div_exact in Hx; [|lia]. rewrite Hx, Z.shiftl_1_l, Z.lor_comm, Z.mul_comm.
  rewrite <- (Z.shiftl_mul_pow2 _ (b + 1)) by lia. rewrite lor_shiftl_add by lia.
  rewrite Z.shiftl_mul_pow2 by lia. lia.
Qed.

Lemma or_at_spec q n :
  uint_ok q -> (n < 256)%nat -> lval q mod 2 ^ (Z.of_nat n + 1) = 0 ->
  uint_ok (or_at q (n / 32) (Z.shiftl 1 (Z.land (Z.of_nat n) 31))) /\
  lval (or_at q (n / 32) (Z.shiftl 1 (Z.land (Z.of_nat n) 31))) = lval q + 2 ^ Z.of_nat n.
Proof.
  intros [Hq Hl] Hn Hm. unfold WIDTH in Hl. change 31 with (Z.ones 5). rewrite Z.land_ones by lia.
  change (2 ^ 5) with 32. pose proof (Nat.div_mod_eq n 32) as Ed. pose proof (Nat.mod_upper_bound n 32 ltac:(lia)) as Hb.
  replace (Z.of_nat n mod 32) with (Z.of_nat (n mod 32)) by (rewrite Nat2Z.inj_mod; done).
  set (i := (n / 32)%nat) in *. set (b := (n mod 32)%nat) in *.
  destruct (lookup_lt_is_Some_2 q i ltac:(lia)) as [x Hx]. unfold or_at. rewrite Hx.
  pose proof (take_drop_middle q i x Hx) as Eq.
  assert (limb_ok x) as Hxo by (by eapply Forall_lookup_1 in Hx).
  assert (length (take i q) = i) as Hti by (rewrite length_take; lia).
  assert (lval q = lval (take i q) + 2 ^ (32 * Z.of_nat i) * (x + 2 ^ 32 * lval (drop (S i) q))) as Ev.
  { rewrite <- Eq at 1. rewrite lval_app. unfold zlen. by rewrite Hti. }
  pose proof (lval_range (take i q) ltac:(by apply Forall_take)) as Hr. unfold zlen in Hr. rewrite Hti in Hr.
  set (P := 2 ^ (32 * Z.of_nat i)) in *. set (R := lval (drop (S i) q)) in *.
  assert (2 ^ (Z.of_nat n + 1) = P * 2 ^ (Z.of_nat b + 1)) as Epow
    by (unfold P; rewrite <- Z.pow_add_r by lia; f_equal; lia).
  assert (2 ^ 32 = 2 ^ (Z.of_nat b + 1) * 2 ^ (31 - Z.of_nat b)) as E32
    by (rewrite <- Z.pow_add_r by lia; f_equal; lia).
  assert (0 < P /\ 0 < 2 ^ (Z.of_nat b + 1)) as [HP HB] by (split; apply Z.pow_pos_nonneg; lia).
  rewrite Ev, Epow in Hm. rewrite <- high_part_mod in Hm by lia.
  assert (x mod 2 ^ (Z.of_nat b + 1) = 0) as Hxm.
  { rewrite E32 in Hm. rewrite <- Z.mul_assoc, (Z.mul_comm _ (2 ^ (31 - _) * R)), Z.mod_add in Hm by lia.
    pose proof (Z.mod_pos_bound x (2 ^ (Z.of_nat b + 1)) HB). nia. }
  rewrite or_bit_aligned by (done || lia).
  assert (limb_ok (x + 2 ^ Z.of_nat b)) as Hok'.
  { unfold limb_ok in *. assert (0 < 2 ^ Z.of_nat b) by (apply Z.pow_pos_nonneg; lia). split; [lia|].
    apply Z.div_exact in Hxm; [|lia].
    assert (x / 2 ^ (Z.of_nat b + 1) < 2 ^ (31 - Z.of_nat b)) by (apply Z.div_lt_upper_bound; lia).
    assert (2 ^ (Z.of_nat b + 1) = 2 * 2 ^ Z.of_nat b) by (rewrite Z.pow_add_r by lia; lia). nia. }
  rewrite insert_take_drop by lia. split; [split|].
  - apply Forall_app. split; [by apply Forall_take|]. constructor; [done|by apply Forall_drop].
  - unfold WIDTH. rewrite length_app, Hti. cbn [length]. rewrite length_drop. lia.
  - rewrite lval_app, Ev. unfold zlen. rewrite Hti. fold P. cbn [lval]. fold R.
    replace (2 ^ Z.of_nat n) with (P * 2 ^ Z.of_nat b); [lia|].
    unfold P. rewrite <- Z.pow_add_r by lia. f_equal. lia.
Qed.

(** What the loop is proved to do, for [f] iterations and divisor [D]. *)
Definition div_loop_correct (D : Z) (f : nat) : Prop := forall num div q,
  uint_ok num -> uint_ok div -> uint_ok q -> 0 < D -> (f <= 256)%nat ->
  ((1 <= f)%nat -> lval div = D * 2 ^ (Z.of_nat f - 1)) ->
  lval num < D * 2 ^ Z.of_nat f -> lval q mod 2 ^ Z.of_nat f = 0 ->
  uint_ok (div_loop f num div q) /\ lval (div_loop f num div q) = lval q + lval num / D.

(** The iteration that subtracts. *)
Lemma div_loop_ge D sh num div q :
  div_loop_correct D sh ->
  uint_ok num -> uint_ok div -> uint_ok q -> 0 < D -> (sh < 256)%nat ->
  lval div = D * 2 ^ Z.of_nat sh -> lval div <= lval num -> lval num < 2 * (D * 2 ^ Z.of_nat sh) ->
  lval q mod 2 ^ (Z.of_nat sh + 1) = 0 -> uint_ok (uint_shr div 1) ->
  ((1 <= sh)%nat -> lval (uint_shr div 1) = D * 2 ^ (Z.of_nat sh - 1)) ->
  lval q mod 2 ^ Z.of_nat sh = 0 ->
  uint_ok (div_loop sh (uint_sub num div) (uint_shr div 1)
             (or_at q (sh / 32) (Z.shiftl 1 (Z.land (Z.of_nat sh) 31)))) /\
  lval (div_loop sh (uint_sub num div) (uint_shr div 1)
          (or_at q (sh / 32) (Z.shiftl 1 (Z.land (Z.of_nat sh) 31)))) = lval q + lval num / D.
Proof.
  intros IH Hnum Hdiv Hq HD Hf Hdv Hle Hlt Hqm Hok1 Hnext Hqm'.
  assert (0 < 2 ^ Z.of_nat sh) by (apply Z.pow_pos_nonneg; lia).
  pose proof (uint_ok_range num Hnum) as Hnr. pose proof (uint_ok_range div Hdiv) as Hdr.
  destruct (uint_sub_spec num div Hnum Hdiv) as [Hsok Hsv]. rewrite Z.mod_small in Hsv by lia.
  destruct (or_at_spec q sh Hq Hf Hqm) as [Hoq Hov].
  destruct (IH (uint_sub num div) (uint_shr div 1)
    (or_at q (sh / 32) (Z.shiftl 1 (Z.land (Z.of_nat sh) 31)))) as [Hr1 Hr2];
    [exact Hsok|exact Hok1|exact Hoq|exact HD|lia|exact Hnext|lia| |].
  - rewrite Hov, <- (Z.mul_1_l (2 ^ Z.of_nat sh)) at 1. rewrite Z.mod_add by lia. exact Hqm'.
  - split; [exact Hr1|]. rewrite Hr2, Hov, Hsv, Hdv.
    replace (lval num - D * 2 ^ Z.of_nat sh) with (lval num + (- 2 ^ Z.of_nat sh) * D) by lia.
    rewrite Z.div_add by lia. lia.
Qed.

Lemma div_loop_spec f D : div_loop_correct D f.
Proof.
  unfold div_loop_correct. induction f as [|sh IH]; intros num div q Hnum Hdiv Hq HD Hf Hdv Hlt Hqm.
  { change (2 ^ Z.of_nat 0) with 1 in Hlt. cbn [div_loop]. split; [done|].
    pose proof (uint_ok_range num Hnum). rewrite Z.div_small; lia. }
  specialize (Hdv ltac:(lia)). replace (Z.of_nat (S sh) - 1) with (Z.of_nat sh) in Hdv by lia.
  replace (Z.of_nat (S sh)) with (Z.of_nat sh + 1) in * by lia.
  assert (0 < 2 ^ Z.of_nat sh) by (apply Z.pow_pos_nonneg; lia).
  assert (2 ^ (Z.of_nat sh + 1) = 2 * 2 ^ Z.of_nat sh) as E by (rewrite Z.pow_add_r by lia; lia).
  pose proof (uint_ok_range num Hnum) as Hnr. pose proof (uint_ok_range div Hdiv) as Hdr.
  cbn [div_loop]. rewrite CompareTo_spec by (try apply Hnum; try apply Hdiv; destruct Hnum, Hdiv; congruence).
  destruct (uint_shr_spec div 1 Hdiv ltac:(lia)) as [Hok1 Hv1].
  assert ((1 <= sh)%nat -> lval (uint_shr div 1) = D * 2 ^ (Z.of_nat sh - 1)) as Hnext.
  { intros Hsh. rewrite Hv1, Hdv. change (2 ^ 1) with 2.
    replace (Z.of_nat sh) with (Z.of_nat sh - 1 + 1) at 1 by lia.
    rewrite Z.pow_add_r by lia. change (2 ^ 1) with 2. rewrite Z.mul_assoc. by apply Z.div_mul. }
  assert (lval q mod 2 ^ Z.of_nat sh = 0) as Hqm'.
  { rewrite E in Hqm. apply Z.div_exact in Hqm; [|lia]. rewrite Hqm.
    replace (2 * 2 ^ Z.of_nat sh * (lval q / (2 * 2 ^ Z.of_nat sh)))
      with (2 * (lval q / (2 * 2 ^ Z.of_nat sh)) * 2 ^ Z.of_nat sh) by lia. by apply Z.mod_mul; lia. }
  destruct (Z.compare_spec (lval num) (lval div)) as [Ec|Ec|Ec]; cbn [Z.geb Z.compare].
  2:{ apply IH; [exact Hnum|exact Hok1|exact Hq|exact HD|lia|exact Hnext|lia|exact Hqm']. }
  all: apply div_loop_ge; [exact IH|exact Hnum|exact Hdiv|exact Hq|exact HD|lia|exact Hdv|lia|lia|exact Hqm|exact Hok1|exact Hnext|exact Hqm'].
Qed.

Lemma uint_div_spec a b :
  uint_ok a -> uint_ok b ->
  if lval b =? 0 then uint_div a b = Err division_by_zero
  else exists q, uint_div a b = Ok q /\ uint_ok q /\ lval q = lval a / lval b.
Proof.
  intros Ha Hb. unfold uint_div. rewrite bits_zero by apply Hb.
  destruct (Z.eqb_spec (lval b) 0) as [|Hb0]; [done|].
  pose proof (uint_ok_range a Ha) as Har. pose proof (uint_ok_range b Hb) as Hbr.
  rewrite !bits_spec by (apply Ha || apply Hb). destruct (Z.eqb_spec (lval b) 0); [done|].
  pose proof (Z.log2_nonneg (lval b)). rewrite Z.gtb_ltb.
  destruct (Z.log2_spec (lval b) ltac:(lia)) as [Hb1 Hb2]. rewrite Z.pow_succ_r in Hb2 by lia.
  destruct (Z.eqb_spec (lval a) 0) as [Ea|Ea].
  { destruct (Z.ltb_spec 0 (Z.log2 (lval b) + 1)); [|lia]. exists uint_zero.
    destruct uint_zero_ok as [Hz Hz0]. rewrite Hz0, Ea. by rewrite Z.div_0_l. }
  destruct (Z.log2_spec (lval a) ltac:(lia)) as [Ha1 Ha2]. pose proof (Z.log2_nonneg (lval a)).
  destruct (Z.ltb_spec (Z.log2 (lval a) + 1) (Z.log2 (lval b) + 1)) as [Hlt|Hge].
  { exists uint_zero. destruct uint_zero_ok as [Hz Hz0]. rewrite Hz0. split; [done|]. split; [done|].
    symmetry. apply Z.div_small. split; [lia|]. eapply Z.lt_le_trans; [exact Ha2|].
    etrans; [|exact Hb1]. apply Z.pow_le_mono_r; lia. }
  set (sh := Z.log2 (lval a) + 1 - (Z.log2 (lval b) + 1)).
  assert (Z.log2 (lval a) < 256) by (apply Z.log2_lt_pow2; [lia|apply Har]).
  assert (0 < 2 ^ sh) by (apply Z.pow_pos_nonneg; lia).
  assert (2 ^ Z.succ (Z.log2 (lval a)) = 2 * 2 ^ Z.log2 (lval b) * 2 ^ sh) as Ep.
  { rewrite <- (Z.pow_succ_r 2 (Z.log2 (lval b))), <- Z.pow_add_r by lia. f_equal. lia. }
  assert (lval b * 2 ^ sh < M256) as Hfit.
  { unfold M256. apply Z.lt_le_trans with (2 ^ Z.succ (Z.log2 (lval a))); [rewrite Ep; nia|].
    apply Z.pow_le_mono_r; lia. }
  destruct (uint_shl_spec b sh Hb ltac:(lia)) as [Hsok Hsv]. rewrite Z.mod_small in Hsv by nia.
  destruct uint_zero_ok as [Hz Hz0].
  destruct (div_loop_spec (Z.to_nat (sh + 1)) (lval b) a (uint_shl b sh) uint_zero) as [Hok Hv];
    try done; try lia; rewrite ?Z2Nat.id by lia.
  - intros _. rewrite Hsv. do 2 f_equal. lia.
  - rewrite Z.pow_add_r by lia. change (2 ^ 1) with 2. nia.
  - exists (div_loop (Z.to_nat (sh + 1)) a (uint_shl b sh) uint_zero). rewrite Hv, Hz0. done.
Qed.

(** ** The compact format *)

(** The byte length computed from [bits]. *)
Lemma byte_length_spec a :
  uint_ok a -> lval a <> 0 ->
  let n := (bits a + 7) / 8 in 1 <= n <= 32 /\ 2 ^ (8 * (n - 1)) <= lval a < 2 ^ (8 * n).
Proof.
  intros Ha H0 n. pose proof (uint_ok_range a Ha) as Hr. unfold M256 in Hr.
  assert (bits a = Z.log2 (lval a) + 1) as Hb.
  { rewrite bits_spec by apply Ha. by destruct (Z.eqb_spec (lval a) 0). }
  assert (Z.log2 (lval a) < 256) by (apply Z.log2_lt_pow2; lia).
  pose proof (Z.log2_nonneg (lval a)). destruct (Z.log2_spec (lval a) ltac:(lia)) as [Hlo Hhi].
  pose proof (Z.div_mod (bits a + 7) 8 ltac:(lia)) as Hdm. fold n in Hdm.
  pose proof (Z.mod_pos_bound (bits a + 7) 8 ltac:(lia)). split; [lia|]. split.
  - etrans; [|exact Hlo]. apply Z.pow_le_mono_r; lia.
  - eapply Z.lt_le_trans; [exact Hhi|]. apply Z.pow_le_mono_r; lia.
Qed.

(** The number a compact value stands for. *)
Definition compact_val (nSize nWord : Z) : Z :=
  if nSize <=? 3 then nWord / 2 ^ (8 * (3 - nSize)) else nWord * 2 ^ (8 * (nSize - 3)).

Definition compact_overflow (nSize nWord : Z) : bool :=
  negb (nWord =? 0) && ((nSize >? 34) || ((nWord >? 0xff) && (nSize >? 33))
                        || ((nWord >? 0xffff) && (nSize >? 32))).

Lemma low23 n : Z.land n 0x007fffff = n mod 2 ^ 23.
Proof. change 0x007fffff with (Z.ones 23). by rewrite Z.land_ones. Qed.

Lemma bit23 n : (Z.land n 0x00800000 =? 0) = negb (Z.testbit n 23).
Proof. exact (land_bit n 23 ltac:(lia)). Qed.

Lemma SetCompact_spec n :
  0 <= n < 2 ^ 32 ->
  let nSize := n / 2 ^ 24 in let nWord := n mod 2 ^ 23 in
  let nWord' := if nSize <=? 3 then nWord / 2 ^ (8 * (3 - nSize)) else nWord in
  exists r, SetCompact n =
    (r, negb (nWord' =? 0) && Z.testbit n 23, compact_overflow nSize nWord') /\
    uint_ok r /\ lval r = compact_val nSize nWord mod M256.
Proof.
  intros Hn nSize nWord nWord'. unfold SetCompact. rewrite low23, bit23, negb_involutive.
  rewrite Z.shiftr_div_pow2 by lia. fold nSize nWord.
  assert (0 <= nSize < 256) by (split; [apply Z.div_pos; lia|apply Z.div_lt_upper_bound; lia]).
  assert (0 <= nWord < 2 ^ 23) as Hw by (apply Z.mod_pos_bound; lia).
  unfold compact_val. subst nWord'. destruct (Z.leb_spec nSize 3) as [H3|H3].
  - rewrite Z.shiftr_div_pow2 by lia. eexists. split; [reflexivity|].
    assert (0 < 2 ^ (8 * (3 - nSize))) by (apply Z.pow_pos_nonneg; lia).
    assert (0 <= nWord / 2 ^ (8 * (3 - nSize)) <= nWord).
    { split; [apply Z.div_pos; lia|]. apply Z.div_le_upper_bound; nia. }
    destruct (uint_of_u64_spec (nWord / 2 ^ (8 * (3 - nSize))) ltac:(lia)) as [Hok Hv].
    split; [done|]. rewrite Hv, Z.mod_small; [done|unfold M256; lia].
  - eexists. split; [reflexivity|]. destruct (uint_of_u64_spec nWord ltac:(lia)) as [Hok Hv].
    destruct (uint_shl_spec (uint_of_u64 nWord) (8 * (nSize - 3)) Hok ltac:(lia)) as [Hok' Hv'].
    split; [done|]. by rewrite Hv', Hv.
Qed.

(** Without the overflow flag nothing is lost. *)
Lemma compact_no_overflow nSize nWord :
  0 <= nSize < 256 -> 0 <= nWord < 2 ^ 23 ->
  compact_overflow nSize (if nSize <=? 3 then nWord / 2 ^ (8 * (3 - nSize)) else nWord) = false ->
  0 <= compact_val nSize nWord < M256.
Proof.
  intros Hs Hw Ho. unfold compact_val, compact_overflow, M256 in *.
  destruct (Z.leb_spec nSize 3).
  - assert (0 < 2 ^ (8 * (3 - nSize))) by (apply Z.pow_pos_nonneg; lia).
    split; [apply Z.div_pos; lia|]. eapply Z.le_lt_trans with nWord; [apply Z.div_le_upper_bound; nia|lia].
  - assert (0 < 2 ^ (8 * (nSize - 3))) by (apply Z.pow_pos_nonneg; lia). split; [nia|].
    assert (forall k, nWord < 2 ^ k -> 0 <= k -> k + 8 * (nSize - 3) <= 256 ->
      nWord * 2 ^ (8 * (nSize - 3)) < 2 ^ 256) as Hfit.
    { intros k Hk Hk0 Hsum. apply Z.lt_le_trans with (2 ^ k * 2 ^ (8 * (nSize - 3))); [nia|].
      rewrite <- Z.pow_add_r by lia. apply Z.pow_le_mono_r; lia. }
    destruct (Z.eqb_spec nWord 0) as [->|Hw0]; [rewrite Z.mul_0_l; lia|]. cbn [negb andb] in Ho.
    rewrite !Z.gtb_ltb in Ho.
    destruct (Z.ltb_spec 34 nSize); [done|]. cbn [orb] in Ho.
    destruct (Z.ltb_spec 33 nSize).
    { destruct (Z.ltb_spec 0xff nWord); [done|]. apply (Hfit 8); lia. }
    destruct (Z.ltb_spec 32 nSize).
    { destruct (Z.ltb_spec 0xffff nWord); [by rewrite andb_false_r in Ho|]. apply (Hfit 16); lia. }
    apply (Hfit 23); lia.
Qed.

(** The three most significant bytes, left aligned. *)
Definition mantissa (v n : Z) : Z :=
  if n <=? 3 then v * 2 ^ (8 * (3 - n)) else v / 2 ^ (8 * (n - 3)).

Lemma mantissa_range v n :
  1 <= n -> 2 ^ (8 * (n - 1)) <= v < 2 ^ (8 * n) -> 2 ^ 16 <= mantissa v n < 2 ^ 24.
Proof.
  intros Hn Hv. unfold mantissa. destruct (Z.leb_spec n 3).
  - assert (0 < 2 ^ (8 * (3 - n))) by (apply Z.pow_pos_nonneg; lia).
    replace (2 ^ 16) with (2 ^ (8 * (n - 1)) * 2 ^ (8 * (3 - n))) by (rewrite <- Z.pow_add_r by lia; f_equal; lia).
    replace (2 ^ 24) with (2 ^ (8 * n) * 2 ^ (8 * (3 - n))) by (rewrite <- Z.pow_add_r by lia; f_equal; lia).
    nia.
  - assert (0 < 2 ^ (8 * (n - 3))) by (apply Z.pow_pos_nonneg; lia). split.
    + apply Z.div_le_lower_bound; [lia|]. rewrite <- Z.pow_add_r by lia.
      etrans; [|apply Hv]. apply Z.pow_le_mono_r; lia.
    + apply Z.div_lt_upper_bound; [lia|]. rewrite <- Z.pow_add_r by lia.
      eapply Z.lt_le_trans; [apply Hv|]. apply Z.pow_le_mono_r; lia.
Qed.

(** What [GetCompact] computes before assembling its result. *)
Lemma GetCompact_mantissa a :
  uint_ok a -> lval a <> 0 ->
  let n := (bits a + 7) / 8 in
  (if n <=? 3 then u32 (u64 (Z.shiftl (GetLow64 a) (8 * (3 - n))))
   else u32 (GetLow64 (uint_shr a (8 * (n - 3))))) = mantissa (lval a) n.
Proof.
  intros Ha H0 n. destruct (byte_length_spec a Ha H0) as [Hn Hv]. fold n in Hn, Hv.
  pose proof (mantissa_range (lval a) n ltac:(lia) Hv) as Hm. unfold mantissa in *.
  destruct (Z.leb_spec n 3).
  - rewrite GetLow64_spec by done. rewrite (Z.mod_small (lval a)).
    + rewrite Z.shiftl_mul_pow2 by lia. by rewrite u64_id, u32_id by lia.
    + split; [lia|]. eapply Z.lt_le_trans; [apply Hv|]. apply Z.pow_le_mono_r; lia.
  - destruct (uint_shr_spec a (8 * (n - 3)) Ha ltac:(lia)) as [Hok Hs].
    rewrite GetLow64_spec, Hs, Z.mod_small, u32_id by (done || lia). done.
Qed.

Lemma bit23_small m : 0 <= m < 2 ^ 24 -> Z.testbit m 23 = (2 ^ 23 <=? m).
Proof.
  intros Hm. destruct (Z.leb_spec (2 ^ 23) m) as [Hle|Hlt].
  - apply Z.testbit_true; [lia|].
    assert (m / 2 ^ 23 = 1) as ->; [|done]. symmetry. apply Z.div_unique with (m - 2 ^ 23); lia.
  - apply Z.testbit_false; [lia|]. by rewrite Z.div_small by lia.
Qed.

Lemma mask_high m : 0 <= m < 2 ^ 23 -> Z.land m (u32 (Z.lnot 0x007fffff)) = 0.
Proof.
  intros Hm. change (u32 (Z.lnot 0x007fffff)) with (Z.shiftl 0x1ff 23).
  apply Z.bits_inj'. intros i Hi. rewrite Z.land_spec, Z.bits_0.
  destruct (Z.lt_ge_cases i 23).
  - rewrite Z.shiftl_spec_low by lia. apply andb_false_r.
  - destruct (Z.eq_dec m 0) as [->|]; [by rewrite Z.bits_0|].
    rewrite (Z.bits_above_log2 m); [done|lia|]. apply Z.log2_lt_pow2; [lia|].
    eapply Z.lt_le_trans; [apply Hm|]. apply Z.pow_le_mono_r; lia.
Qed.

(** Assembling size and mantissa. *)
Lemma compact_assemble m n :
  0 <= m < 2 ^ 23 -> 0 <= n < 256 ->
  let c := Z.lor m (u32 (Z.shiftl n 24)) in
  0 <= c < 2 ^ 32 /\ c / 2 ^ 24 = n /\ c mod 2 ^ 23 = m /\ Z.testbit c 23 = false.
Proof.
  intros Hm Hn c. assert (c = m + n * 2 ^ 24) as ->.
  { unfold c. rewrite u32_id by (rewrite Z.shiftl_mul_pow2 by lia; lia). apply lor_shiftl_add; lia. }
  split; [lia|]. split; [rewrite Z.div_add, Z.div_small by lia; lia|]. split.
  - replace (m + n * 2 ^ 24) with (m + (2 * n) * 2 ^ 23) by lia. rewrite Z.mod_add by lia. apply Z.mod_small. lia.
  - apply Z.testbit_false; [lia|].
    replace (m + n * 2 ^ 24) with (m + (2 * n) * 2 ^ 23) by lia. rewrite Z.div_add, Z.div_small by lia.
    rewrite Z.add_0_l, Z.mul_comm. by apply Z.mod_mul.
Qed.

(** The decoded value keeps all but [k] low bytes, and at least 15 significant bits. *)
Lemma mantissa_val v n :
  1 <= n -> 2 ^ (8 * (n - 1)) <= v < 2 ^ (8 * n) ->
  let big := 2 ^ 23 <=? mantissa v n in
  let m := if big then mantissa v n / 2 ^ 8 else mantissa v n in
  exists k, 0 <= k /\ compact_val (if big then n + 1 else n) m = v - v mod 2 ^ (8 * k) /\
    (k = 0 \/ 2 ^ (8 * k + 15) <= v).
Proof.
  intros Hn Hv big m. pose proof (mantissa_range v n Hn Hv) as Hm.
  assert (forall k, 0 <= k -> v / 2 ^ (8 * k) * 2 ^ (8 * k) = v - v mod 2 ^ (8 * k)) as Htr.
  { intros k Hk. pose proof (Z.div_mod v (2 ^ (8 * k)) ltac:(apply Z.pow_nonzero; lia)). lia. }
  subst big m. unfold compact_val.
  destruct (Z.leb_spec (2 ^ 23) (mantissa v n)) as [Hbig|Hbig]; unfold mantissa in *.
  - destruct (Z.leb_spec n 3).
    + assert (0 < 2 ^ (8 * (3 - n))) by (apply Z.pow_pos_nonneg; lia).
      destruct (Z.leb_spec (n + 1) 3).
      * exists 0. split; [lia|]. split; [|by left]. rewrite Z.div_div by lia.
        rewrite <- Z.pow_add_r by lia. replace (8 + 8 * (3 - (n + 1))) with (8 * (3 - n)) by lia.
        rewrite Z.div_mul by lia. change (2 ^ (8 * 0)) with 1. rewrite Z.mod_1_r. lia.
      * assert (n = 3) as -> by lia. change (2 ^ (8 * (3 - 3))) with 1 in *. rewrite Z.mul_1_r in *.
        exists 1. split; [lia|]. split; [exact (Htr 1 ltac:(lia))|]. right. change (8 * 1 + 15) with 23. lia.
    + destruct (Z.leb_spec (n + 1) 3); [lia|]. exists (n - 2). split; [lia|].
      assert (0 < 2 ^ (8 * (n - 3))) by (apply Z.pow_pos_nonneg; lia).
      rewrite Z.div_div, <- Z.pow_add_r by lia.
      replace (8 * (n - 3) + 8) with (8 * (n - 2)) by lia. replace (8 * (n + 1 - 3)) with (8 * (n - 2)) by lia.
      split; [apply Htr; lia|]. right.
      replace (8 * (n - 2) + 15) with (23 + 8 * (n - 3)) by lia. rewrite Z.pow_add_r by lia.
      pose proof (Z.mul_div_le v (2 ^ (8 * (n - 3))) ltac:(lia)). nia.
  - destruct (Z.leb_spec n 3).
    + exists 0. split; [lia|]. split; [|by left].
      rewrite Z.div_mul by (apply Z.pow_nonzero; lia). change (2 ^ (8 * 0)) with 1. rewrite Z.mod_1_r. lia.
    + exists (n - 3). split; [lia|]. split; [apply Htr; lia|]. right. etrans; [|apply Hv].
      apply Z.pow_le_mono_r; lia.
Qed.

(** [r] approximates [v] from below, dropping whole low bytes but never more than the bits
    below the 15 most significant. *)
Definition compact_approx (v r : Z) : Prop :=
  exists k, 0 <= k /\ r = v - v mod 2 ^ (8 * k) /\ (k = 0 \/ 2 ^ (8 * k + 15) <= v).

Lemma compact_approx_bound v r : 0 <= v -> compact_approx v r -> 0 <= r <= v /\ (v - r) * 2 ^ 15 <= v.
Proof.
  intros Hv (k & Hk & -> & Hor). assert (0 < 2 ^ (8 * k)) by (apply Z.pow_pos_nonneg; lia).
  pose proof (Z.mod_pos_bound v (2 ^ (8 * k)) ltac:(lia)). pose proof (Z.mod_le v (2 ^ (8 * k)) ltac:(lia) ltac:(lia)).
  split; [lia|]. destruct Hor as [->|Hge]; [change (2 ^ (8 * 0)) with 1 in *; lia|].
  rewrite Z.pow_add_r in Hge by lia. nia.
Qed.

Lemma GetCompact_spec a :
  uint_ok a ->
  exists c r, GetCompact a false = Some c /\ 0 <= c < 2 ^ 32 /\
    SetCompact c = (r, false, false) /\ uint_ok r /\ compact_approx (lval a) (lval r).
Proof.
  intros Ha. unfold GetCompact. destruct (Z.eq_dec (lval a) 0) as [E0|E0].
  { assert (bits a = 0) as Hb by (rewrite bits_spec, E0 by apply Ha; done).
    rewrite GetLow64_spec, Hb, E0 by done. exists 0, uint_zero. split; [reflexivity|].
    split; [lia|]. split; [reflexivity|]. split; [apply uint_zero_ok|].
    exists 0. split; [lia|]. split; [reflexivity|by left]. }
  destruct (byte_length_spec a Ha E0) as [Hn Hv]. pose proof (GetCompact_mantissa a Ha E0) as Em.
  cbv zeta in Em. set (n := (bits a + 7) / 8) in *. cbv zeta. rewrite Em.
  pose proof (mantissa_range (lval a) n ltac:(lia) Hv) as Hm.
  rewrite bit23, negb_involutive, bit23_small by lia.
  pose proof (mantissa_val (lval a) n ltac:(lia) Hv) as Hval. cbv zeta in Hval.
  set (big := 2 ^ 23 <=? mantissa (lval a) n) in *. rewrite Z.shiftr_div_pow2 by lia.
  set (m := if big then mantissa (lval a) n / 2 ^ 8 else mantissa (lval a) n) in *.
  set (n1 := if big then n + 1 else n) in *.
  assert (0 <= m < 2 ^ 23 /\ (n1 = 33 -> m < 2 ^ 16) /\ 1 <= n1 <= 33) as (Hm1 & Hm33 & Hn1).
  { subst m n1 big. destruct (Z.leb_spec (2 ^ 23) (mantissa (lval a) n)); [|lia].
    assert (mantissa (lval a) n / 2 ^ 8 < 2 ^ 16) by (apply Z.div_lt_upper_bound; lia).
    pose proof (Z.div_pos (mantissa (lval a) n) (2 ^ 8) ltac:(lia) ltac:(lia)). lia. }
  rewrite mask_high by done. cbn [Z.eqb negb]. destruct (Z.ltb_spec n1 256); [|lia].
  cbn [negb andb]. rewrite Z.lor_0_r.
  destruct (compact_assemble m n1 Hm1 ltac:(lia)) as (Hc & Hd & Hmod & Hbit).
  destruct (SetCompact_spec _ Hc) as (r & Hset & Hr & Hrv). cbv zeta in Hset, Hrv.
  rewrite Hd, Hmod, Hbit, andb_false_r in *.
  assert (compact_overflow n1 (if n1 <=? 3 then m / 2 ^ (8 * (3 - n1)) else m) = false) as Hno.
  { unfold compact_overflow. rewrite !Z.gtb_ltb.
    destruct (Z.ltb_spec 34 n1); [lia|]. destruct (Z.ltb_spec 33 n1); [lia|].
    rewrite andb_false_r. cbn [orb]. destruct (Z.ltb_spec 32 n1); [|by rewrite !andb_false_r].
    destruct (Z.leb_spec n1 3); [lia|]. destruct (Z.ltb_spec 0xffff m); [lia|]. by rewrite andb_false_r. }
  rewrite Hno in Hset. exists (Z.lor m (u32 (Z.shiftl n1 24))), r.
  split; [done|]. split; [done|]. split; [done|]. split; [done|].
  rewrite Hrv, Z.mod_small; [done|]. apply compact_no_overflow; [lia|done|done].
Qed.

(** ** Byte conversions *)

Lemma limbs_of_bytes_spec n b :
  bytes_ok b -> length b = (4 * n)%nat ->
  limbs_ok (limbs_of_bytes n b) /\ length (limbs_of_bytes n b) = n /\ lval (limbs_of_bytes n b) = le_val b.
Proof.
  revert b. induction n as [|n IH]; intros b Hb Hl.
  { destruct b; [|done]. split; [constructor|done]. }
  cbn [limbs_of_bytes].
  destruct (IH (drop 4 b) ltac:(by apply Forall_drop) ltac:(rewrite length_drop; lia)) as (Ho & Hlen & Hv).
  assert (length (take 4 b) = 4%nat) as Ht by (rewrite length_take; lia).
  pose proof (le_val_range (take 4 b) ltac:(by apply Forall_take)) as Hr. unfold zlen in Hr. rewrite Ht in Hr.
  change (256 ^ Z.of_nat 4) with (2 ^ 32) in Hr. split; [constructor; done|]. split; [cbn; by rewrite Hlen|].
  cbn [lval]. rewrite Hv. rewrite <- (take_drop 4 b) at 3. rewrite le_val_app. unfold zlen. rewrite Ht. done.
Qed.

(** A [uint256]: 32 bytes. *)
Definition uint256_ok (b : bytes) : Prop := bytes_ok b /\ length b = 32%nat.

Lemma UintToArith256_spec b :
  uint256_ok b -> uint_ok (UintToArith256 b) /\ lval (UintToArith256 b) = le_val b.
Proof.
  intros [Hb Hl]. destruct (limbs_of_bytes_spec WIDTH b Hb Hl) as (H1 & H2 & H3). done.
Qed.

Lemma ArithToUint256_spec a : limbs_ok a ->
  bytes_ok (ArithToUint256 a) /\ length (ArithToUint256 a) = (4 * length a)%nat /\ limbs_of_bytes (length a) (ArithToUint256 a) = a.
Proof.
  induction 1 as [|x a Hx Ha (Hb & Hl & Hr)]; [split; [constructor|done]|]. change (ArithToUint256 (x :: a)) with (le_bytes 4 x ++ ArithToUint256 a).
  split; [apply Forall_app; split; [apply le_bytes_ok|done]|]. split; [rewrite length_app, length_le_bytes, Hl; cbn [length]; lia|].
  cbn [length limbs_of_bytes]. rewrite take_app_length', drop_app_length', Hr by done. f_equal. by apply le_val_le_bytes.
Qed.

(** ** Decrement, zero test and bitwise operations *)

Lemma uint_dec_spec a :
  limbs_ok a -> limbs_ok (uint_dec a) /\ length (uint_dec a) = length a /\ lval (uint_dec a) = (lval a - 1) mod 2 ^ (32 * zlen a).
Proof.
  induction a as [|x a IH]; intros Ha; [split; [done|]; split; [done|]; rewrite width_nil; by rewrite Z.mod_1_r|].
  pose proof (lval_range _ Ha) as Hr. apply Forall_cons in Ha as [Hx Ha]. destruct (IH Ha) as (Ho & Hl & Hv). cbn [uint_dec]. unfold limb_ok in Hx.
  pose proof (lval_range _ Ha) as Hra. rewrite width_cons in Hr |- *. cbn [lval] in Hr. change UINT32_MAX with 4294967295. destruct (Z.eq_dec x 0) as [->|Hne].
  - change (u32 (0 - 1)) with 4294967295. rewrite Z.eqb_refl. split; [constructor; [unfold limb_ok; lia|done]|]. split; [cbn; by rewrite Hl|].
    cbn [lval]. rewrite Hv. pose proof (width_pos a). replace (0 + 2 ^ 32 * lval a - 1) with (4294967295 + 2 ^ 32 * (lval a - 1)) by lia.
    apply high_part_mod; lia.
  - rewrite u32_id by lia. destruct (Z.eqb_spec (x - 1) 4294967295); [lia|]. split; [constructor; [unfold limb_ok; lia|done]|]. split; [done|].
    cbn [lval]. rewrite Z.mod_small; lia.
Qed.

Lemma uint_is_zero_spec a : limbs_ok a -> uint_is_zero a = (lval a =? 0).
Proof.
  unfold uint_is_zero. induction 1 as [|x a Hx Ha IH]; [done|]. cbn [forallb lval]. rewrite IH. unfold limb_ok in Hx. pose proof (lval_range a Ha).
  destruct (Z.eqb_spec x 0), (Z.eqb_spec (lval a) 0), (Z.eqb_spec (x + 2 ^ 32 * lval a) 0); done || lia.
Qed.

Lemma limb_testbit x v i : limb_ok x -> 0 <= i -> Z.testbit (x + 2 ^ 32 * v) i = if i <? 32 then Z.testbit x i else Z.testbit v (i - 32).
Proof.
  intros Hx Hi. unfold limb_ok in Hx. destruct (Z.ltb_spec i 32).
  - rewrite <- (Z.mod_pow2_bits_low _ 32) by lia. rewrite (Z.mul_comm (2 ^ 32)), Z.mod_add, Z.mod_small by lia. done.
  - rewrite <- (Z.sub_add 32 i) at 1. rewrite <- Z.div_pow2_bits by lia. rewrite (Z.mul_comm (2 ^ 32)), Z.div_add, Z.div_small by lia. done.
Qed.

(** An operation on bits, limb by limb. *)
Lemma zip_bitwise (f : Z -> Z -> Z) (g : bool -> bool -> bool) a b :
  (forall x y i, Z.testbit (f x y) i = g (Z.testbit x i) (Z.testbit y i)) -> g false false = false ->
  limbs_ok a -> limbs_ok b -> length a = length b ->
  limbs_ok (zip_with f a b) /\ length (zip_with f a b) = length a /\ lval (zip_with f a b) = f (lval a) (lval b).
Proof.
  intros Hf Hg Ha. revert b. induction Ha as [|x a Hx Ha IH]; intros [|y b] Hb El; try done.
  { split; [constructor|]. split; [done|]. cbn. symmetry. apply Z.bits_inj'. intros i Hi. by rewrite Hf, !Z.bits_0. }
  apply Forall_cons in Hb as [Hy Hb]. injection El as El. destruct (IH b Hb El) as (Ho & Hl & Hv). cbn [zip_with lval].
  assert (f x y mod 2 ^ 32 = f x y) as Em.
  { apply Z.bits_inj'. intros i Hi. destruct (Z.lt_ge_cases i 32); [by rewrite Z.mod_pow2_bits_low by lia|]. rewrite Z.mod_pow2_bits_high by lia. unfold limb_ok in *.
    rewrite Hf, <- (Z.mod_small x (2 ^ 32)), <- (Z.mod_small y (2 ^ 32)), !Z.mod_pow2_bits_high by lia. done. }
  assert (limb_ok (f x y)) as Hxy by (rewrite <- Em; apply limb_ok_mod). split; [by constructor|]. split; [cbn; by rewrite Hl|]. rewrite Hv.
  apply Z.bits_inj'. intros i Hi. rewrite Hf, !limb_testbit by done. by destruct (i <? 32); rewrite Hf.
Qed.

(** A well-formed number with the value [v]. *)
Definition denotes (r : limbs) (v : Z) : Prop := uint_ok r /\ lval r = v.

Lemma bitwise_denotes f g a b : (forall x y i, Z.testbit (f x y) i = g (Z.testbit x i) (Z.testbit y i)) -> g false false = false ->
  uint_ok a -> uint_ok b -> denotes (zip_with f a b) (f (lval a) (lval b)).
Proof.
  intros Hf Hg [Ha La] [Hb Lb]. destruct (zip_bitwise f g a b Hf Hg Ha Hb ltac:(congruence)) as (H1 & H2 & H3). split; [split; [done|congruence]|done].
Qed.

(** C37. The limb operations of [base_uint<256>] implement arithmetic modulo 2^256 on
    well-formed arrays.  Every operation returns a well-formed array, whose value is that of the
    operation on integers: construction from 64 bits, complement, negation, increment,
    decrement, addition, subtraction, multiplication by 32-bit and 256-bit factors, division,
    both shifts and the bitwise operations; comparisons, the zero test, the number of bits and
    the low 64 bits agree with the integers, and the conversions to and from 32 bytes are
    inverse and keep the value. *)
Theorem uint256_refines a b n w k :
  uint_ok a -> uint_ok b -> 0 <= n -> limb_ok w -> 0 <= k < 2 ^ 64 ->
  (denotes (uint_of_u64 k) k /\ denotes (uint_not a) (M256 - 1 - lval a) /\ denotes (uint_neg a) ((- lval a) mod M256) /\
   denotes (uint_inc a) ((lval a + 1) mod M256) /\ denotes (uint_dec a) ((lval a - 1) mod M256)) /\
  (denotes (uint_add a b) ((lval a + lval b) mod M256) /\ denotes (uint_sub a b) ((lval a - lval b) mod M256) /\
   denotes (uint_mul a b) ((lval a * lval b) mod M256) /\ denotes (uint_mul32 a w) ((lval a * w) mod M256) /\
   (if lval b =? 0 then uint_div a b = Err division_by_zero else exists q, uint_div a b = Ok q /\ denotes q (lval a / lval b))) /\
  (denotes (uint_shl a n) ((lval a * 2 ^ n) mod M256) /\ denotes (uint_shr a n) (lval a / 2 ^ n) /\
   denotes (uint_xor a b) (Z.lxor (lval a) (lval b)) /\ denotes (uint_and a b) (Z.land (lval a) (lval b)) /\ denotes (uint_or a b) (Z.lor (lval a) (lval b))) /\
  (CompareTo a b = (match lval a ?= lval b with Lt => -1 | Eq => 0 | Gt => 1 end) /\ EqualTo a k = (lval a =? k) /\ uint_is_zero a = (lval a =? 0) /\
   bits a = (if lval a =? 0 then 0 else Z.log2 (lval a) + 1) /\ GetLow64 a = lval a mod 2 ^ 64) /\
  (uint256_ok (ArithToUint256 a) /\ le_val (ArithToUint256 a) = lval a /\ UintToArith256 (ArithToUint256 a) = a /\
   forall x, uint256_ok x -> denotes (UintToArith256 x) (le_val x)).
Proof.
  intros Ha Hb Hn Hw Hk. assert (forall r v, limbs_ok r /\ length r = length a /\ lval r = v mod 2 ^ (32 * zlen a) -> denotes r (v mod M256)) as Hd.
  { intros r v (H1 & H2 & H3). rewrite (uint_ok_zlen a Ha) in H3. split; [split; [done|rewrite H2; apply Ha]|done]. }
  split_and!.
  - by apply uint_of_u64_spec.
  - destruct (uint_not_spec a (proj1 Ha)) as (H1 & H2 & H3). rewrite (uint_ok_zlen a Ha) in H3. split; [split; [done|rewrite H2; apply Ha]|done].
  - apply Hd, uint_neg_spec, Ha.
  - apply Hd, uint_inc_spec, Ha.
  - apply Hd, uint_dec_spec, Ha.
  - by apply uint_add_spec.
  - by apply uint_sub_spec.
  - by apply uint_mul_spec.
  - by apply uint_mul32_spec.
  - by apply uint_div_spec.
  - by apply uint_shl_spec.
  - by apply uint_shr_spec.
  - by apply (bitwise_denotes Z.lxor xorb); [apply Z.lxor_spec|..].
  - by apply (bitwise_denotes Z.land andb); [apply Z.land_spec|..].
  - by apply (bitwise_denotes Z.lor orb); [apply Z.lor_spec|..].
  - apply CompareTo_spec; [apply Ha|apply Hb|]. destruct Ha, Hb. congruence.
  - by apply EqualTo_spec.
  - apply uint_is_zero_spec, Ha.
  - apply bits_spec, Ha.
  - by apply GetLow64_spec.
  - destruct (ArithToUint256_spec a (proj1 Ha)) as (H1 & H2 & _). split; [done|]. by rewrite H2, (proj2 Ha).
  - destruct (ArithToUint256_spec a (proj1 Ha)) as (H1 & H2 & H3). rewrite (proj2 Ha) in H2, H3.
    destruct (limbs_of_bytes_spec WIDTH _ H1 H2) as (_ & _ & H4). by rewrite <- H4, H3.
  - destruct (ArithToUint256_spec a (proj1 Ha)) as (_ & _ & H3). by rewrite (proj2 Ha) in H3.
  - intros x Hx. by apply UintToArith256_spec.
Qed.

Lemma uint256_refines_witness :
  denotes (uint_mul (uint_of_u64 12345678901234567) (uint_of_u64 98765432109876543)) (12345678901234567 * 98765432109876543).
Proof.
  destruct (uint_of_u64_spec 12345678901234567 ltac:(lia)) as [Ha Ea].
  destruct (uint_of_u64_spec 98765432109876543 ltac:(lia)) as [Hb Eb].
  pose proof (uint256_refines _ _ 5 7 9 Ha Hb ltac:(lia) ltac:(unfold limb_ok; lia) ltac:(lia)) as (_ & (_ & _ & E & _) & _).
  rewrite Ea, Eb in E. exact E.
Defined.

(** Long division terminates with the exact quotient for every dividend and every
    non-zero divisor, and reports division by zero otherwise. *)
Theorem uint256_div a b :
  uint_ok a -> uint_ok b ->
  if lval b =? 0 then uint_div a b = Err division_by_zero
  else exists q, uint_div a b = Ok q /\ uint_ok q /\ lval q = lval a / lval b.
Proof. intros Ha Hb. by apply uint_div_spec. Qed.

Lemma uint256_div_witness :
  exists q, uint_div (uint_shl (uint_of_u64 1) 200) (uint_of_u64 1000003) = Ok q /\ uint_ok q /\
    lval q = 2 ^ 200 / 1000003.
Proof.
  destruct (uint_of_u64_spec 1 ltac:(lia)) as [H1 _].
  destruct (uint_shl_spec _ 200 H1 ltac:(lia)) as [Ha _].
  destruct (uint_of_u64_spec 1000003 ltac:(lia)) as [Hb _].
  exact (uint256_div _ _ Ha Hb).
Defined.

(** The compact encoding of any 256-bit number passes its assertions, decodes as
    non-negative and without overflow, never above the original, and within a relative error
    of 2^-15. *)
Theorem compact_roundtrip a :
  uint_ok a ->
  exists c r, GetCompact a false = Some c /\ 0 <= c < 2 ^ 32 /\ SetCompact c = (r, false, false) /\
    0 <= lval r <= lval a /\ (lval a - lval r) * 2 ^ 15 <= lval a.
Proof.
  intros Ha. destruct (GetCompact_spec a Ha) as (c & r & Hg & Hc & Hs & Hr & Happ). exists c, r.
  destruct (compact_approx_bound (lval a) (lval r) ltac:(pose proof (uint_ok_range a Ha); lia) Happ) as [H1 H2].
  done.
Qed.

Lemma compact_roundtrip_witness :
  exists c r, GetCompact (uint_of_u64 0x12345678) false = Some c /\ 0 <= c < 2 ^ 32 /\
    SetCompact c = (r, false, false) /\
    0 <= lval r <= lval (uint_of_u64 0x12345678) /\
    (lval (uint_of_u64 0x12345678) - lval r) * 2 ^ 15 <= lval (uint_of_u64 0x12345678).
Proof.
  destruct (uint_of_u64_spec 0x12345678 ltac:(lia)) as [Ha _]. exact (compact_roundtrip _ Ha).
Defined.
