(* ===== verification/Chain.v ===== *)
(** * The block tree and the active chain

    [chain.h] and [chain.cpp]: block index entries linked by [pprev] and the skip list
    [pskip], the search for ancestors and forks, validity flags, and the vector [CChain] of
    the active branch.  The entries live in a heap (a map from addresses), so that pointers
    are shared the way they are in the program. *)

From stdpp Require Import gmap sorting.
From S2P Require Import Prelude ArithUint256.

(** ** The data *)

Abbreviation ptr := positive (only parsing).

(** The fields that the modelled code uses; [phashBlock] is what the pointer leads to. *)
Record CBlockIndex := {
  phashBlock : bytes;
  pprev : option ptr;
  pskip : option ptr;
  nHeight : Z;
  nTime : Z;
  nBits : Z;
  nChainWork : limbs;
  nTx : Z;
  nChainTx : Z;
  nStatus : Z;
  nSequenceId : Z;
  nSproutValue : option Z;
  nChainSproutValue : option Z;
  nSaplingValue : Z;
  nChainSaplingValue : option Z
}.

Abbreviation heap := (gmap positive CBlockIndex) (only parsing).

(** ** Validity flags *)

Definition BLOCK_VALID_UNKNOWN : Z := 0.
Definition BLOCK_VALID_HEADER : Z := 1.
Definition BLOCK_VALID_TREE : Z := 2.
Definition BLOCK_VALID_TRANSACTIONS : Z := 3.
Definition BLOCK_VALID_CHAIN : Z := 4.
Definition BLOCK_VALID_SCRIPTS : Z := 5.
Definition BLOCK_VALID_MASK : Z :=
  Z.lor (Z.lor (Z.lor (Z.lor BLOCK_VALID_HEADER BLOCK_VALID_TREE) BLOCK_VALID_TRANSACTIONS)
           BLOCK_VALID_CHAIN) BLOCK_VALID_SCRIPTS.
Definition BLOCK_HAVE_DATA : Z := 8.
Definition BLOCK_HAVE_UNDO : Z := 16.
Definition BLOCK_FAILED_VALID : Z := 32.
Definition BLOCK_FAILED_CHILD : Z := 64.
Definition BLOCK_FAILED_MASK : Z := Z.lor BLOCK_FAILED_VALID BLOCK_FAILED_CHILD.
Definition BLOCK_ACTIVATES_UPGRADE : Z := 128.

(** [RaiseValidity] on the status word: [None] is the failed assertion, otherwise the return
    value and the new status. *)
Definition RaiseValidity (nStatus nUpTo : Z) : option (bool * Z) :=
  if negb (Z.land nUpTo (u32 (Z.lnot BLOCK_VALID_MASK)) =? 0) then None
  else if negb (Z.land nStatus BLOCK_FAILED_MASK =? 0) then Some (false, nStatus)
  else if Z.land nStatus BLOCK_VALID_MASK <? nUpTo
  then Some (true, Z.lor (Z.land nStatus (u32 (Z.lnot BLOCK_VALID_MASK))) nUpTo)
  else Some (false, nStatus).

Definition IsValid (nStatus nUpTo : Z) : option bool :=
  if negb (Z.land nUpTo (u32 (Z.lnot BLOCK_VALID_MASK)) =? 0) then None
  else if negb (Z.land nStatus BLOCK_FAILED_MASK =? 0) then Some false
  else Some (Z.land nStatus BLOCK_VALID_MASK >=? nUpTo).

Definition SetStatusFlag (nStatus statusFlag : Z) : Z := Z.lor nStatus statusFlag.
Definition ClearStatusFlag (nStatus statusFlag : Z) : Z :=
  Z.land nStatus (u32 (Z.lnot statusFlag)).

(** ** Ancestors *)

(** A run that cannot happen in the program: a failed [assert], a null or dangling pointer
    that is dereferenced, a loop that outlasts its fuel, or an element of an ordered set whose
    key changes while it is in the set. *)
Inductive chain_fail : Set := assert_failed | bad_pointer | loop_bound | order_changed.

Definition deref (h : heap) (p : ptr) : res chain_fail CBlockIndex :=
  match h !! p with Some b => Ok b | None => Err bad_pointer end.

Definition InvertLowestOne (n : Z) : Z := Z.land n (n - 1).

Definition GetSkipHeight (height : Z) : Z :=
  if height <? 2 then 0
  else if negb (Z.land height 1 =? 0)
  then InvertLowestOne (InvertLowestOne (height - 1)) + 1
  else InvertLowestOne height.

(** [while (heightWalk > height)] *)
Fixpoint ancestor_loop (fuel : nat) (h : heap) (pindexWalk : ptr) (heightWalk height : Z)
  : res chain_fail ptr :=
  if negb (heightWalk >? height) then Ok pindexWalk
  else
    match fuel with
    | O => Err loop_bound
    | S fuel =>
        let? b := deref h pindexWalk in
        let heightSkip := GetSkipHeight heightWalk in
        let heightSkipPrev := GetSkipHeight (heightWalk - 1) in
        match pskip b with
        | Some s =>
            if (heightSkip =? height) ||
               ((heightSkip >? height) &&
                negb ((heightSkipPrev <? heightSkip - 2) && (heightSkipPrev >=? height)))
            then ancestor_loop fuel h s heightSkip height
            else
              match pprev b with
              | Some q => ancestor_loop fuel h q (heightWalk - 1) height
              | None => Err assert_failed
              end
        | None =>
            match pprev b with
            | Some q => ancestor_loop fuel h q (heightWalk - 1) height
            | None => Err assert_failed
            end
        end
    end.

Definition GetAncestor (h : heap) (p : ptr) (height : Z) : res chain_fail (option ptr) :=
  let? b := deref h p in
  if (height >? nHeight b) || (height <? 0) then Ok None
  else
    let? r := ancestor_loop (Z.to_nat (nHeight b - height)) h p (nHeight b) height in
    Ok (Some r).

Definition with_pskip (b : CBlockIndex) (s : option ptr) : CBlockIndex :=
  {| phashBlock := phashBlock b; pprev := pprev b; pskip := s; nHeight := nHeight b; nTime := nTime b; nBits := nBits b;
     nChainWork := nChainWork b; nTx := nTx b; nChainTx := nChainTx b; nStatus := nStatus b;
     nSequenceId := nSequenceId b; nSproutValue := nSproutValue b;
     nChainSproutValue := nChainSproutValue b; nSaplingValue := nSaplingValue b;
     nChainSaplingValue := nChainSaplingValue b |}.

Definition BuildSkip (h : heap) (p : ptr) : res chain_fail heap :=
  let? b := deref h p in
  match pprev b with
  | None => Ok h
  | Some q =>
      let? s := GetAncestor h q (GetSkipHeight (nHeight b)) in
      Ok (<[p := with_pskip b s]> h)
  end.

(** ** Median time *)

Definition nMedianTimeSpan : nat := 11.

(** The times of the last [n] blocks, newest first. *)
Fixpoint last_times (n : nat) (h : heap) (p : option ptr) : res chain_fail (list Z) :=
  match n, p with
  | S n, Some p =>
      let? b := deref h p in
      let? l := last_times n h (pprev b) in Ok (nTime b :: l)
  | _, _ => Ok []
  end.

Definition GetMedianTimePast (h : heap) (p : ptr) : res chain_fail Z :=
  let? l := last_times nMedianTimeSpan h (Some p) in
  let sorted := merge_sort Z.le l in
  match sorted !! (length sorted / 2)%nat with
  | Some m => Ok m
  | None => Err bad_pointer
  end.

(** ** Chain values *)

(** [UpdateChainValues]: the return value and the updated entry (the caller of the model adds
    a block for which it is false to the unlinked blocks). *)
Definition UpdateChainValues (h : heap) (b : CBlockIndex) : res chain_fail (bool * CBlockIndex) :=
  let set tx sprout sapling :=
    {| phashBlock := phashBlock b; pprev := pprev b; pskip := pskip b; nHeight := nHeight b; nTime := nTime b;
       nBits := nBits b; nChainWork := nChainWork b; nTx := nTx b; nChainTx := tx; nStatus := nStatus b;
       nSequenceId := nSequenceId b; nSproutValue := nSproutValue b; nChainSproutValue := sprout;
       nSaplingValue := nSaplingValue b; nChainSaplingValue := sapling |} in
  match pprev b with
  | Some q =>
      let? pb := deref h q in
      if negb (nChainTx pb =? 0) && negb (nTx b =? 0) then
        let sprout :=
          match nChainSproutValue pb, nSproutValue b with
          | Some x, Some y => Some (s64 (x + y))
          | _, _ => None
          end in
        let sapling :=
          match nChainSaplingValue pb with
          | Some x => Some (s64 (x + nSaplingValue b))
          | None => None
          end in
        Ok (true, set (u32 (nChainTx pb + nTx b)) sprout sapling)
      else Ok (false, set 0 None None)
  | None => Ok (true, set (nTx b) (nSproutValue b) (Some (nSaplingValue b)))
  end.

(** ** The active chain *)

(** [vChain], with [None] for a null pointer *)
Abbreviation CChain := (list (option positive)) (only parsing).

Definition chain_at (c : CChain) (nHeight : Z) : option ptr :=
  if (nHeight <? 0) || (nHeight >=? zlen c) then None else default None (c !! Z.to_nat nHeight).

Definition Genesis (c : CChain) : option ptr := if zlen c >? 0 then default None (c !! 0%nat) else None.
Definition Tip (c : CChain) : option ptr :=
  if zlen c >? 0 then default None (c !! (length c - 1)%nat) else None.
Definition Height (c : CChain) : Z := zlen c - 1.

Definition Contains (h : heap) (c : CChain) (p : ptr) : res chain_fail bool :=
  let? b := deref h p in Ok (bool_decide (chain_at c (nHeight b) = Some p)).

Definition Next (h : heap) (c : CChain) (p : ptr) : res chain_fail (option ptr) :=
  let? b := deref h p in
  let? in_chain := Contains h c p in
  if in_chain : bool then Ok (chain_at c (nHeight b + 1)) else Ok None.

(** [while (pindex && vChain[pindex->nHeight] != pindex)] *)
Fixpoint settip_loop (fuel : nat) (h : heap) (c : CChain) (p : option ptr) : res chain_fail CChain :=
  match p with
  | None => Ok c
  | Some p =>
      let? b := deref h p in
      match c !! Z.to_nat (nHeight b) with
      | None => Err bad_pointer
      | Some x =>
          if bool_decide (x = Some p) then Ok c
          else
            match fuel with
            | O => Err loop_bound
            | S fuel => settip_loop fuel h (<[Z.to_nat (nHeight b) := Some p]> c) (pprev b)
            end
      end
  end.

(** [CChain::SetTip]: the new vector and the new value of the global [gl_nChainHeight]. *)
Definition SetTip (h : heap) (c : CChain) (p : option ptr) : res chain_fail (CChain * Z) :=
  match p with
  | None => Ok ([], 0)
  | Some p =>
      let? b := deref h p in
      let c := resize (Z.to_nat (nHeight b + 1)) None c in
      let? c := settip_loop (Z.to_nat (nHeight b + 1)) h c (Some p) in
      Ok (c, u32 (u32 (zlen c) - 1))
  end.

(** [while (pindex && !Contains(pindex))] *)
Fixpoint fork_loop (fuel : nat) (h : heap) (c : CChain) (p : option ptr)
  : res chain_fail (option ptr) :=
  match p with
  | None => Ok None
  | Some p =>
      let? in_chain := Contains h c p in
      if in_chain : bool then Ok (Some p)
      else
        match fuel with
        | O => Err loop_bound
        | S fuel => let? b := deref h p in fork_loop fuel h c (pprev b)
        end
  end.

Definition FindFork (h : heap) (c : CChain) (p : ptr) : res chain_fail (option ptr) :=
  let? b := deref h p in
  let? q := (if nHeight b >? Height c then GetAncestor h p (Height c) else Ok (Some p)) in
  fork_loop (Z.to_nat (nHeight b + 1)) h c q.

(** [GetLocator]: the entries whose hashes are collected.  [nStep] doubles from the eleventh
    entry on. *)
Fixpoint locator_loop (fuel : nat) (h : heap) (c : CChain) (p : option ptr) (nStep nHave : Z)
  : res chain_fail (list ptr) :=
  match p with
  | None => Ok []
  | Some p =>
      let? b := deref h p in
      if nHeight b =? 0 then Ok [p]
      else
        match fuel with
        | O => Err loop_bound
        | S fuel =>
            let nHeight := Z.max (nHeight b - nStep) 0 in
            let? in_chain := Contains h c p in
            let? q := (if in_chain : bool then Ok (chain_at c nHeight) else GetAncestor h p nHeight) in
            let nStep := if nHave + 1 >? 10 then nStep * 2 else nStep in
            let? l := locator_loop fuel h c q nStep (nHave + 1) in
            Ok (p :: l)
        end
  end.

Definition GetLocator (h : heap) (c : CChain) (pindex : option ptr) : res chain_fail (list ptr) :=
  let pindex := match pindex with None => Tip c | Some p => Some p end in
  match pindex with
  | None => Ok []
  | Some p =>
      let? b := deref h p in locator_loop (Z.to_nat (nHeight b)) h c (Some p) 1 0
  end.

(** The loop of [FindLastCommonAncestorBlockIndex] *)
Fixpoint lca_loop (fuel : nat) (h : heap) (pa pb : option ptr) : res chain_fail (option ptr * option ptr) :=
  if bool_decide (pa = pb) then Ok (pa, pb)
  else
    match pa, pb with
    | Some a, Some b =>
        match fuel with
        | O => Err loop_bound
        | S fuel =>
            let? ba := deref h a in
            let? bb := deref h b in lca_loop fuel h (pprev ba) (pprev bb)
        end
    | _, _ => Ok (pa, pb)
    end.

Definition FindLastCommonAncestorBlockIndex (h : heap) (pa pb : ptr) : res chain_fail (option ptr) :=
  let? ba := deref h pa in
  let? bb := deref h pb in
  let? qa := (if nHeight ba >? nHeight bb then GetAncestor h pa (nHeight bb) else Ok (Some pa)) in
  let? qb := (if nHeight ba >? nHeight bb then Ok (Some pb)
              else if nHeight bb >? nHeight ba then GetAncestor h pb (nHeight ba) else Ok (Some pb)) in
  let? r := lca_loop (Z.to_nat (nHeight ba + 1)) h qa qb in
  if bool_decide (r.1 = r.2) then Ok r.1 else Err assert_failed.

(** ** Well-formed trees *)

(** [n] steps along [pprev]. *)
Fixpoint prev_n (h : heap) (n : nat) (p : ptr) : option ptr :=
  match n with
  | O => Some p
  | S n => b ← h !! p; q ← pprev b; prev_n h n q
  end.

(** Heights count the distance to a root of height 0. *)
Definition links_ok (h : heap) : Prop :=
  map_Forall (fun _ b => 0 <= nHeight b /\
    match pprev b with
    | None => nHeight b = 0
    | Some q => exists bq, h !! q = Some bq /\ nHeight b = nHeight bq + 1
    end) h.

(** A skip pointer leads to the ancestor at the skip height. *)
Definition skips_ok (h : heap) : Prop :=
  map_Forall (fun p b => forall s, pskip b = Some s -> 0 < nHeight b /\
    prev_n h (Z.to_nat (nHeight b - GetSkipHeight (nHeight b))) p = Some s) h.

Lemma land_le x y : 0 <= x -> Z.land x y <= x.
Proof.
  intros Hx. assert (Z.land (Z.ldiff x y) (Z.land x y) = 0) as E0.
  { apply Z.bits_inj'. intros i Hi. rewrite !Z.land_spec, Z.ldiff_spec, Z.bits_0.
    by destruct (Z.testbit x i), (Z.testbit y i). }
  pose proof (Z.lor_ldiff_and x y) as E. rewrite <- Z.lxor_lor, <- Z.add_nocarry_lxor in E by done.
  assert (0 <= Z.ldiff x y) by (apply Z.ldiff_nonneg; by left). lia.
Qed.

Lemma GetSkipHeight_range height : 0 < height -> 0 <= GetSkipHeight height < height.
Proof.
  intros Hh. unfold GetSkipHeight, InvertLowestOne. destruct (Z.ltb_spec height 2); [lia|].
  assert (forall n, 0 < n -> 0 <= Z.land n (n - 1) <= n - 1) as Hinv.
  { intros n Hn. split; [apply Z.land_nonneg; lia|]. rewrite Z.land_comm. apply land_le. lia. }
  case_if; [|pose proof (Hinv height ltac:(lia)); lia].
  pose proof (Hinv (height - 1) ltac:(lia)) as H1. set (m := Z.land (height - 1) (height - 1 - 1)) in *.
  pose proof (land_le m (m - 1) ltac:(lia)).
  assert (0 <= Z.land m (m - 1)) by (apply Z.land_nonneg; lia). lia.
Qed.

Lemma prev_n_add h n m p q : prev_n h n p = Some q -> prev_n h (n + m) p = prev_n h m q.
Proof.
  revert p. induction n as [|n IH]; intros p Hp; [by injection Hp as ->|].
  cbn [prev_n Nat.add] in *. destruct (h !! p) as [b|]; [|done]. cbn in *.
  destruct (pprev b) as [r|]; [|done]. cbn in *. by apply IH.
Qed.

Lemma prev_n_total h n p b :
  links_ok h -> h !! p = Some b -> Z.of_nat n <= nHeight b ->
  exists q bq, prev_n h n p = Some q /\ h !! q = Some bq /\ nHeight bq = nHeight b - Z.of_nat n.
Proof.
  intros Hl. revert p b. induction n as [|n IH]; intros p b Hp Hn; [exists p, b; split; [done|]; split; [done|lia]|].
  cbn [prev_n]. rewrite Hp. cbn. pose proof (Hl p b Hp) as [_ Hb]. cbn in Hb.
  destruct (pprev b) as [q|]; [|lia]. destruct Hb as (bq & Hq & Hhq). cbn.
  destruct (IH q bq Hq ltac:(lia)) as (r & br & Hr & Hbr & Hhr). exists r, br.
  split; [done|]. split; [done|lia].
Qed.

Lemma deref_Ok h p b : h !! p = Some b -> deref h p = Ok b.
Proof. intros E. unfold deref. by rewrite E. Qed.

(** ** Ancestors *)

Lemma ancestor_loop_spec h fuel p b height :
  links_ok h -> skips_ok h -> h !! p = Some b -> 0 <= height <= nHeight b ->
  nHeight b - height <= Z.of_nat fuel ->
  exists q, ancestor_loop fuel h p (nHeight b) height = Ok q /\
    prev_n h (Z.to_nat (nHeight b - height)) p = Some q.
Proof.
  intros Hl Hs. revert p b. induction fuel as [|fuel IH]; intros p b Hp Hh Hf; cbn [ancestor_loop];
    rewrite Z.gtb_ltb; destruct (Z.ltb_spec height (nHeight b)) as [Hlt|Hge]; cbn [negb];
    try (exists p; replace (nHeight b - height) with 0 by lia; done); [lia|].
  rewrite (deref_Ok _ _ _ Hp). cbn [res_bind].
  pose proof (GetSkipHeight_range (nHeight b) ltac:(lia)) as Hsk.
  assert (exists q, match pprev b with
      | Some q => ancestor_loop fuel h q (nHeight b - 1) height
      | None => Err assert_failed end = Ok q /\ prev_n h (Z.to_nat (nHeight b - height)) p = Some q) as Hprev.
  { pose proof (Hl p b Hp) as [_ Hb]. cbn in Hb. destruct (pprev b) as [r|] eqn:Er; [|lia].
    destruct Hb as (br & Hr & Hhr). destruct (IH r br Hr ltac:(lia) ltac:(lia)) as (q & Hq & Hpq).
    exists q. replace (nHeight b - 1) with (nHeight br) by lia. split; [done|].
    replace (Z.to_nat (nHeight b - height)) with (S (Z.to_nat (nHeight br - height))) by lia.
    cbn [prev_n]. rewrite Hp. cbn. by rewrite Er. }
  destruct (pskip b) as [s|] eqn:Es; [|done]. case_if; [|done].
  destruct (Hs p b Hp s Es) as [_ Hps].
  destruct (prev_n_total h (Z.to_nat (nHeight b - GetSkipHeight (nHeight b))) p b Hl Hp ltac:(lia))
    as (s' & bs & Hs' & Hbs & Hhs).
  rewrite Hps in Hs'. injection Hs' as <-. rewrite Z2Nat.id in Hhs by lia.
  assert (height <= GetSkipHeight (nHeight b)) by (rewrite Z.gtb_ltb in *; zbool; destruct Heqb0; zbool; lia).
  destruct (IH s bs Hbs ltac:(lia) ltac:(lia)) as (q & Hq & Hpq).
  exists q. replace (GetSkipHeight (nHeight b)) with (nHeight bs) by lia. split; [done|].
  replace (Z.to_nat (nHeight b - height))
    with (Z.to_nat (nHeight b - GetSkipHeight (nHeight b)) + Z.to_nat (nHeight bs - height))%nat by lia.
  by rewrite (prev_n_add _ _ _ _ _ Hps).
Qed.

Lemma GetAncestor_spec h p b height :
  links_ok h -> skips_ok h -> h !! p = Some b ->
  GetAncestor h p height =
    Ok (if (0 <=? height) && (height <=? nHeight b)
        then prev_n h (Z.to_nat (nHeight b - height)) p else None).
Proof.
  intros Hl Hs Hp. unfold GetAncestor. rewrite (deref_Ok _ _ _ Hp). cbn [res_bind]. rewrite Z.gtb_ltb.
  destruct (Z.ltb_spec (nHeight b) height), (Z.ltb_spec height 0), (Z.leb_spec 0 height),
    (Z.leb_spec height (nHeight b)); try lia; try done. cbn [orb andb].
  destruct (ancestor_loop_spec h (Z.to_nat (nHeight b - height)) p b height Hl Hs Hp ltac:(lia) ltac:(lia))
    as (q & Hq & Hpq). by rewrite Hq, Hpq.
Qed.

(** ** Building the skip list *)

Lemma prev_n_with_pskip h p b s n x :
  h !! p = Some b -> prev_n (<[p := with_pskip b s]> h) n x = prev_n h n x.
Proof.
  intros Hp. revert x. induction n as [|n IH]; intros x; [done|]. cbn [prev_n].
  destruct (decide (x = p)) as [->|Hne].
  - rewrite lookup_insert_eq, Hp. cbn. destruct (pprev b); [|done]. apply IH.
  - rewrite lookup_insert_ne by done. destruct (h !! x) as [bx|]; [|done]. cbn.
    destruct (pprev bx); [|done]. apply IH.
Qed.

Lemma links_ok_with_pskip h p b s :
  h !! p = Some b -> links_ok h -> links_ok (<[p := with_pskip b s]> h).
Proof.
  intros Hp Hl x bx Hx.
  assert (exists b', h !! x = Some b' /\ nHeight bx = nHeight b' /\ pprev bx = pprev b') as (b' & Hb' & -> & ->).
  { destruct (decide (x = p)) as [->|Hne].
    - rewrite lookup_insert_eq in Hx. injection Hx as <-. by exists b.
    - rewrite lookup_insert_ne in Hx by done. by exists bx. }
  destruct (Hl x b' Hb') as [H0 H1]. split; [done|]. destruct (pprev b') as [q|]; [|done].
  destruct H1 as (bq & Hq & Hhq). destruct (decide (q = p)) as [->|Hne].
  - exists (with_pskip b s). rewrite lookup_insert_eq. rewrite Hp in Hq. injection Hq as <-. done.
  - exists bq. by rewrite lookup_insert_ne by done.
Qed.

(** Building the skip pointer of an entry never fails and keeps the tree and the skip
    list well formed. *)
Theorem BuildSkip_ok h p b :
  links_ok h -> skips_ok h -> h !! p = Some b ->
  exists h', BuildSkip h p = Ok h' /\ links_ok h' /\ skips_ok h'.
Proof.
  intros Hl Hs Hp. unfold BuildSkip. rewrite (deref_Ok _ _ _ Hp). cbn [res_bind].
  destruct (pprev b) as [q|] eqn:Eq; [|by exists h].
  pose proof (Hl p b Hp) as [_ Hb]. cbn in Hb. rewrite Eq in Hb. destruct Hb as (bq & Hq & Hhq).
  pose proof (Hl q bq Hq) as [Hq0 _]. cbn in Hq0.
  rewrite (GetAncestor_spec h q bq _ Hl Hs Hq). cbn [res_bind]. eexists. split; [reflexivity|].
  split; [by apply links_ok_with_pskip|]. intros x bx Hx t Ht.
  rewrite prev_n_with_pskip by done. destruct (decide (x = p)) as [->|Hne].
  2:{ rewrite lookup_insert_ne in Hx by done. by apply (Hs x bx). }
  rewrite lookup_insert_eq in Hx. injection Hx as <-. cbn [pskip with_pskip nHeight] in *.
  split; [lia|]. pose proof (GetSkipHeight_range (nHeight b) ltac:(lia)).
  destruct (Z.leb_spec 0 (GetSkipHeight (nHeight b))); [|lia].
  destruct (Z.leb_spec (GetSkipHeight (nHeight b)) (nHeight bq)); [|lia]. cbn [andb] in Ht.
  replace (Z.to_nat (nHeight b - GetSkipHeight (nHeight b)))
    with (S (Z.to_nat (nHeight bq - GetSkipHeight (nHeight b)))) by lia.
  cbn [prev_n]. rewrite Hp. cbn. by rewrite Eq.
Qed.

(** The skip-list search agrees with walking the parent links: for every height it
    returns the ancestor at that height, and null outside the branch, without ever following
    a null pointer. *)
Theorem GetAncestor_correct h p b height :
  links_ok h -> skips_ok h -> h !! p = Some b ->
  GetAncestor h p height =
    Ok (if (0 <=? height) && (height <=? nHeight b)
        then prev_n h (Z.to_nat (nHeight b - height)) p else None).
Proof. apply GetAncestor_spec. Qed.

(** ** The active chain *)

(** The branch of entry [p] of height [n], from height 0 up. *)
Definition branch (h : heap) (p : ptr) (n : nat) : CChain :=
  (fun i => prev_n h (n - i) p) <$> seq 0 (S n).

(** [vChain] holds exactly a branch of the tree. *)
Definition chain_ok (h : heap) (c : CChain) : Prop :=
  c = [] \/ exists t bt, h !! t = Some bt /\ c = branch h t (Z.to_nat (nHeight bt)).

Lemma branch_lookup h p n i : (i <= n)%nat -> branch h p n !! i = Some (prev_n h (n - i) p).
Proof.
  intros Hi. unfold branch. rewrite list_lookup_fmap, lookup_seq_lt by lia. done.
Qed.

Lemma branch_length h p n : length (branch h p n) = S n.
Proof. unfold branch. by rewrite length_fmap, length_seq. Qed.

(** Below an entry that is in its place, a vector holds the ancestors of that entry. *)
Definition low_ok (h : heap) (c : CChain) : Prop :=
  forall m x i, c !! m = Some (Some x) -> (i <= m)%nat -> c !! i = Some (prev_n h (m - i) x).

Lemma branch_low_ok h p n : low_ok h (branch h p n).
Proof.
  intros m x i Hm Hi. destruct (decide (m <= n)%nat) as [Hmn|Hmn].
  - rewrite branch_lookup in Hm by lia. injection Hm as Hm. rewrite branch_lookup by lia. f_equal.
    replace (n - i)%nat with ((n - m) + (m - i))%nat by lia. by apply prev_n_add.
  - rewrite lookup_ge_None_2 in Hm by (rewrite branch_length; lia). done.
Qed.

Lemma resize_low_ok h c k : low_ok h c -> low_ok h (resize k None c).
Proof.
  intros Hc m x i Hm Hi. destruct (decide (k <= m)%nat).
  { rewrite lookup_resize_old in Hm by lia. done. }
  destruct (decide (m < length c)%nat).
  - rewrite lookup_resize in * by lia. by apply (Hc m x).
  - rewrite lookup_resize_new in Hm by lia. done.
Qed.

Lemma chain_ok_low h c : chain_ok h c -> low_ok h c.
Proof.
  intros [->|(t & bt & _ & ->)]; [intros m x i Hm; by rewrite lookup_nil in Hm|apply branch_low_ok].
Qed.

(** The loop has filled the entries above [n - k] and is at the ancestor [k] below [p]. *)
Lemma settip_loop_spec h p b c fuel k cur :
  links_ok h -> h !! p = Some b ->
  let n := Z.to_nat (nHeight b) in
  (k <= n)%nat -> (n + 1 - k <= fuel)%nat -> prev_n h k p = Some cur -> length c = S n ->
  (forall i, (n - k < i <= n)%nat -> c !! i = Some (prev_n h (n - i) p)) ->
  (forall m x i, (m <= n - k)%nat -> c !! m = Some (Some x) -> (i <= m)%nat ->
     c !! i = Some (prev_n h (m - i) x)) ->
  settip_loop fuel h c (Some cur) = Ok (branch h p n).
Proof.
  intros Hl Hp n. pose proof (Hl p b Hp) as [H0 _]. cbn in H0.
  assert (Z.of_nat n = nHeight b) as En by lia.
  revert c k cur. induction fuel as [|fuel IH]; intros c k cur Hk Hf Hcur Hlen Hhi Hlo; [lia|].
  destruct (prev_n_total h k p b Hl Hp ltac:(lia)) as (cur' & bc & Hc' & Hbc & Hhc).
  rewrite Hcur in Hc'. injection Hc' as <-. assert (Z.to_nat (nHeight bc) = (n - k)%nat) as Ehc by lia.
  cbn [settip_loop]. rewrite (deref_Ok _ _ _ Hbc). cbn [res_bind]. rewrite Ehc.
  destruct (lookup_lt_is_Some_2 c (n - k) ltac:(lia)) as [x Hx]. rewrite Hx.
  case_bool_decide as Hd.
  - subst x. f_equal. apply list_eq_same_length with (n := S n); [apply branch_length|done|].
    intros i y z Hi Hy Hz. rewrite branch_lookup in Hz by lia.
    destruct (decide (n - k < i)%nat); [rewrite Hhi in Hy by lia; congruence|].
    rewrite (Hlo (n - k)%nat cur i) in Hy by (done || lia).
    replace (n - i)%nat with (k + (n - k - i))%nat in Hz by lia.
    rewrite (prev_n_add _ _ _ _ _ Hcur) in Hz. congruence.
  - assert (forall i, (n - k <= i <= n)%nat ->
      <[(n - k)%nat := Some cur]> c !! i = Some (prev_n h (n - i) p)) as Hhi'.
    { intros i Hi. destruct (decide (i = n - k)%nat) as [->|].
      - rewrite list_lookup_insert_eq by lia. by replace (n - (n - k))%nat with k by lia; rewrite Hcur.
      - rewrite list_lookup_insert_ne by lia. apply Hhi. lia. }
    pose proof (Hl cur bc Hbc) as [_ Hpp]. cbn in Hpp. destruct (pprev bc) as [q|] eqn:Eq.
    + destruct Hpp as (bq & Hq & Hhq). pose proof (Hl q bq Hq) as [Hq0 _]. cbn in Hq0.
      apply (IH _ (S k)); try lia.
      * replace (S k) with (k + 1)%nat by lia. rewrite (prev_n_add _ _ _ _ _ Hcur). cbn. by rewrite Hbc; cbn; rewrite Eq.
      * by rewrite length_insert.
      * intros i Hi. apply Hhi'. lia.
      * intros m y i Hm Hy Hi. rewrite list_lookup_insert_ne in Hy by lia.
        rewrite list_lookup_insert_ne by lia. apply (Hlo m y i); (done || lia).
    + assert (k = n) as -> by lia. destruct fuel; cbn [settip_loop]; f_equal;
        (apply list_eq_same_length with (n := S n); [apply branch_length|by rewrite length_insert|];
         intros i y z Hi Hy Hz; rewrite branch_lookup in Hz by lia; rewrite Hhi' in Hy by lia; congruence).
Qed.

Lemma SetTip_spec h c p b :
  links_ok h -> chain_ok h c -> h !! p = Some b ->
  SetTip h c (Some p) = Ok (branch h p (Z.to_nat (nHeight b)), u32 (u32 (nHeight b + 1) - 1)).
Proof.
  intros Hl Hc Hp. pose proof (Hl p b Hp) as [H0 _]. cbn in H0. unfold SetTip.
  rewrite (deref_Ok _ _ _ Hp). cbn [res_bind].
  rewrite (settip_loop_spec h p b _ _ 0 p Hl Hp); try lia; try done.
  - cbn [res_bind]. unfold zlen. rewrite branch_length. do 5 f_equal. lia.
  - rewrite length_resize. lia.
  - intros m x i _. apply resize_low_ok, chain_ok_low, Hc.
Qed.

(** Moving the tip rewrites only what differs: from any vector that holds a branch, the
    result is exactly the branch of the new tip (empty for a null tip), for reorganisations,
    extensions and truncations alike, and the published chain height is the height of the tip
    (0 for a null tip). *)
Theorem SetTip_correct h c p :
  links_ok h -> chain_ok h c ->
  match p with
  | None => SetTip h c p = Ok ([], 0)
  | Some q => forall b, h !! q = Some b -> nHeight b < INT32_MAX ->
      exists c', SetTip h c p = Ok (c', nHeight b) /\ Height c' = nHeight b /\
        c' = branch h q (Z.to_nat (nHeight b)) /\ chain_ok h c'
  end.
Proof.
  intros Hl Hc. destruct p as [q|]; [|done]. intros b Hq Hmax. eexists.
  pose proof (Hl q b Hq) as [H0 _]. cbn in H0. unfold INT32_MAX in Hmax.
  split; [rewrite (SetTip_spec _ _ _ _ Hl Hc Hq), (u32_id (nHeight b + 1)), u32_id by lia; do 2 f_equal; lia|].
  split; [unfold Height, zlen; rewrite branch_length; lia|]. split; [done|]. right. by exists q, b.
Qed.

(** ** Membership and forks *)

Lemma chain_at_lookup (c : CChain) n : 0 <= n < zlen c -> chain_at c n = default None (c !! Z.to_nat n).
Proof.
  intros Hn. unfold chain_at. rewrite Z.geb_leb.
  destruct (Z.ltb_spec n 0), (Z.leb_spec (zlen c) n); done || lia.
Qed.

Lemma Contains_branch h t bt p b :
  links_ok h -> h !! t = Some bt -> h !! p = Some b ->
  Contains h (branch h t (Z.to_nat (nHeight bt))) p =
    Ok (bool_decide (nHeight b <= nHeight bt /\ prev_n h (Z.to_nat (nHeight bt - nHeight b)) t = Some p)).
Proof.
  intros Hl Ht Hp. unfold Contains. rewrite (deref_Ok _ _ _ Hp). cbn [res_bind]. f_equal.
  pose proof (Hl p b Hp) as [Hp0 _]. pose proof (Hl t bt Ht) as [Ht0 _]. cbn in Hp0, Ht0.
  apply bool_decide_ext. destruct (decide (nHeight b <= nHeight bt)) as [Hle|Hgt].
  - rewrite chain_at_lookup by (unfold zlen; rewrite branch_length; lia).
    rewrite branch_lookup by lia. cbn.
    replace (Z.to_nat (nHeight bt) - Z.to_nat (nHeight b))%nat
      with (Z.to_nat (nHeight bt - nHeight b)) by lia. tauto.
  - unfold chain_at. rewrite Z.geb_leb. unfold zlen. rewrite branch_length.
    destruct (Z.leb_spec (Z.of_nat (S (Z.to_nat (nHeight bt)))) (nHeight b)); [|lia].
    rewrite orb_true_r. split; [done|lia].
Qed.

(** [q] is an ancestor of [p], or [p] itself. *)
Definition ancestor_of (h : heap) (p q : ptr) : Prop := exists n, prev_n h n p = Some q.

(** The last common entry of the branches of [p] and [t]. *)
Definition last_common (h : heap) (p t r : ptr) : Prop :=
  ancestor_of h p r /\ ancestor_of h t r /\
  forall x, ancestor_of h p x -> ancestor_of h t x -> ancestor_of h r x.

Lemma ancestor_height h p b q bq :
  links_ok h -> h !! p = Some b -> h !! q = Some bq -> ancestor_of h p q ->
  nHeight bq <= nHeight b /\ prev_n h (Z.to_nat (nHeight b - nHeight bq)) p = Some q.
Proof.
  intros Hl Hp Hq [n Hn]. assert (nHeight bq = nHeight b - Z.of_nat n) as E.
  { clear -Hl Hp Hq Hn. revert p b Hp Hn. induction n as [|n IH]; intros p b Hp Hn.
    - injection Hn as ->. rewrite Hp in Hq. injection Hq as ->. lia.
    - cbn [prev_n] in Hn. rewrite Hp in Hn. cbn in Hn. pose proof (Hl p b Hp) as [_ Hb]. cbn in Hb.
      destruct (pprev b) as [r|]; [|done]. destruct Hb as (br & Hr & Hhr). cbn in Hn.
      specialize (IH r br Hr Hn). lia. }
  split; [lia|]. by replace (Z.to_nat (nHeight b - nHeight bq)) with n by lia.
Qed.

Lemma ancestor_in_heap h p b q : links_ok h -> h !! p = Some b -> ancestor_of h p q -> is_Some (h !! q).
Proof.
  intros Hl Hp [n Hn]. revert p b Hp Hn. induction n as [|n IH]; intros p b Hp Hn.
  - injection Hn as <-. by rewrite Hp.
  - cbn [prev_n] in Hn. rewrite Hp in Hn. cbn in Hn. pose proof (Hl p b Hp) as [_ Hb]. cbn in Hb.
    destruct (pprev b) as [r|]; [|done]. destruct Hb as (br & Hr & _). by apply (IH r br).
Qed.

Lemma ancestor_trans h p q r : ancestor_of h p q -> ancestor_of h q r -> ancestor_of h p r.
Proof. intros [n Hn] [m Hm]. exists (n + m)%nat. by rewrite (prev_n_add _ _ _ _ _ Hn). Qed.

(** Two ancestors of one entry are ordered by their heights. *)
Lemma ancestor_linear h p b q bq r br :
  links_ok h -> h !! p = Some b -> h !! q = Some bq -> h !! r = Some br ->
  ancestor_of h p q -> ancestor_of h p r -> nHeight br <= nHeight bq -> ancestor_of h q r.
Proof.
  intros Hl Hp Hq Hr Hpq Hpr Hle.
  destruct (ancestor_height h p b q bq Hl Hp Hq Hpq) as [H1 E1].
  destruct (ancestor_height h p b r br Hl Hp Hr Hpr) as [H2 E2].
  exists (Z.to_nat (nHeight bq - nHeight br)). rewrite <- E2.
  replace (Z.to_nat (nHeight b - nHeight br))
    with (Z.to_nat (nHeight b - nHeight bq) + Z.to_nat (nHeight bq - nHeight br))%nat by lia.
  by rewrite (prev_n_add _ _ _ _ _ E1).
Qed.

(** The loop of [FindFork] finds the first ancestor on the branch of [t]. *)
Lemma fork_loop_spec h t bt p b fuel :
  links_ok h -> h !! t = Some bt -> h !! p = Some b -> nHeight b < Z.of_nat fuel ->
  match fork_loop fuel h (branch h t (Z.to_nat (nHeight bt))) (Some p) with
  | Ok (Some r) => last_common h p t r
  | Ok None => forall x, ancestor_of h p x -> ~ ancestor_of h t x
  | Err _ => False
  end.
Proof.
  intros Hl Ht. revert p b. induction fuel as [|fuel IH]; intros p b Hp Hf.
  { pose proof (Hl p b Hp) as [H0 _]. cbn in H0. lia. }
  cbn [fork_loop]. rewrite (Contains_branch h t bt p b Hl Ht Hp). cbn [res_bind].
  case_bool_decide as Hc.
  - split; [by exists 0%nat|]. split; [exists (Z.to_nat (nHeight bt - nHeight b)); apply Hc|]. by intros x Hx _.
  - assert (~ ancestor_of h t p) as Hnt.
    { intros Ha. apply Hc. by apply (ancestor_height h t bt p b). }
    rewrite (deref_Ok _ _ _ Hp). cbn [res_bind]. pose proof (Hl p b Hp) as [_ Hb]. cbn in Hb.
    assert (forall x, ancestor_of h p x -> x = p \/ exists q, pprev b = Some q /\ ancestor_of h q x) as Hstep.
    { intros x [[|n] Hn]; [injection Hn as <-; by left|]. right. cbn [prev_n] in Hn.
      rewrite Hp in Hn. cbn in Hn. destruct (pprev b) as [q|]; [|done]. exists q. split; [done|]. by exists n. }
    destruct (pprev b) as [q|] eqn:Eq.
    + destruct Hb as (bq & Hq & Hhq). specialize (IH q bq Hq ltac:(lia)).
      assert (ancestor_of h p q) as Hpq by (exists 1%nat; cbn; rewrite Hp; cbn; by rewrite Eq).
      destruct (fork_loop _ _ _ _) as [[r|]|]; [|  |done].
      * destruct IH as (Ha & Hb & Hc'). split; [by eapply ancestor_trans|]. split; [done|].
        intros x Hx Hxt. destruct (Hstep x Hx) as [->|(q' & [= <-] & Hq')]; [done|]. by apply Hc'.
      * intros x Hx Hxt. destruct (Hstep x Hx) as [->|(q' & [= <-] & Hq')]; [done|]. by apply (IH x).
    + assert (fork_loop fuel h (branch h t (Z.to_nat (nHeight bt))) None = Ok None) as -> by (by destruct fuel).
      intros x Hx Hxt. destruct (Hstep x Hx) as [->|(q' & [=] & _)]. done.
Qed.

(** Cutting a branch at a height keeps the ancestors up to that height. *)
Lemma cut_ancestors h p b q bq x bx :
  links_ok h -> h !! p = Some b -> h !! q = Some bq -> h !! x = Some bx ->
  ancestor_of h p q -> nHeight bx <= nHeight bq -> (ancestor_of h p x <-> ancestor_of h q x).
Proof.
  intros Hl Hp Hq Hx Hpq Hle. split; intros Ha; [|by eapply ancestor_trans].
  eapply (ancestor_linear h p b q bq x bx); done.
Qed.

(** [GetAncestor] used to bring an entry down to the height of another. *)
Lemma GetAncestor_cut h p b n :
  links_ok h -> skips_ok h -> h !! p = Some b -> 0 <= n <= nHeight b ->
  exists q bq, GetAncestor h p n = Ok (Some q) /\ h !! q = Some bq /\ nHeight bq = n /\ ancestor_of h p q.
Proof.
  intros Hl Hs Hp Hn. rewrite (GetAncestor_spec h p b n Hl Hs Hp).
  destruct (Z.leb_spec 0 n), (Z.leb_spec n (nHeight b)); try lia. cbn [andb].
  destruct (prev_n_total h (Z.to_nat (nHeight b - n)) p b Hl Hp ltac:(lia)) as (q & bq & Hq & Hbq & Hhq).
  exists q, bq. rewrite Hq. split; [done|]. split; [done|]. split; [lia|]. by eexists.
Qed.

(** The fork point of an entry with the active chain is their last common ancestor: it is
    on both branches, and every common ancestor is below it; null means there is none. *)
Theorem FindFork_correct h t bt p b :
  links_ok h -> skips_ok h -> h !! t = Some bt -> h !! p = Some b ->
  match FindFork h (branch h t (Z.to_nat (nHeight bt))) p with
  | Ok (Some r) => last_common h p t r
  | Ok None => forall x, ancestor_of h p x -> ~ ancestor_of h t x
  | Err _ => False
  end.
Proof.
  intros Hl Hs Ht Hp. pose proof (Hl t bt Ht) as [Ht0 _]. pose proof (Hl p b Hp) as [Hp0 _]. cbn in Ht0, Hp0.
  unfold FindFork. rewrite (deref_Ok _ _ _ Hp). cbn [res_bind].
  assert (Height (branch h t (Z.to_nat (nHeight bt))) = nHeight bt) as ->
    by (unfold Height, zlen; rewrite branch_length; lia).
  rewrite Z.gtb_ltb. destruct (Z.ltb_spec (nHeight bt) (nHeight b)); cbn [res_bind].
  2:{ apply (fork_loop_spec h t bt p b); [done|done|done|lia]. }
  destruct (GetAncestor_cut h p b (nHeight bt) Hl Hs Hp ltac:(lia)) as (q & bq & -> & Hq & Hhq & Hpq).
  cbn [res_bind].
  pose proof (fork_loop_spec h t bt q bq (Z.to_nat (nHeight b + 1)) Hl Ht Hq ltac:(lia)) as Hf.
  assert (forall x, ancestor_of h t x -> (ancestor_of h p x <-> ancestor_of h q x)) as Hcut.
  { intros x Hx. destruct (ancestor_in_heap h t bt x Hl Ht Hx) as [bx Hbx].
    destruct (ancestor_height h t bt x bx Hl Ht Hbx Hx) as [Hle _].
    apply (cut_ancestors h p b q bq x bx); try done. lia. }
  destruct (fork_loop _ _ _ _) as [[r|]|]; [| |done].
  - destruct Hf as (H1 & H2 & H3). split; [by apply Hcut|]. split; [done|].
    intros x Hx Hxt. apply H3; [by apply Hcut|done].
  - intros x Hx Hxt. apply (Hf x); [by apply Hcut|done].
Qed.

(** A child and its parent's ancestors. *)
Lemma ancestor_step h p b q x :
  h !! p = Some b -> pprev b = Some q -> x <> p -> (ancestor_of h p x <-> ancestor_of h q x).
Proof.
  intros Hp Eq Hne. split.
  - intros [[|n] Hn]; [by injection Hn as ->|]. exists n. cbn [prev_n] in Hn. rewrite Hp in Hn. cbn in Hn.
    by rewrite Eq in Hn.
  - intros [n Hn]. exists (S n). cbn [prev_n]. rewrite Hp. cbn. by rewrite Eq.
Qed.

Lemma lca_loop_spec h a ba b bb fuel x :
  links_ok h -> h !! a = Some ba -> h !! b = Some bb -> nHeight ba = nHeight bb ->
  nHeight ba < Z.of_nat fuel -> ancestor_of h a x -> ancestor_of h b x ->
  exists r, lca_loop fuel h (Some a) (Some b) = Ok (Some r, Some r) /\ last_common h a b r.
Proof.
  intros Hl. revert a ba b bb. induction fuel as [|fuel IH]; intros a ba b bb Ha Hb Hh Hf Hxa Hxb.
  { pose proof (Hl a ba Ha) as [H0 _]. cbn in H0. lia. }
  cbn [lca_loop]. case_bool_decide as Hd.
  { injection Hd as <-. exists a. split; [done|]. split; [by exists 0%nat|]. split; [by exists 0%nat|].
    by intros y Hy _. }
  assert (a <> b) as Hab by congruence. rewrite (deref_Ok _ _ _ Ha), (deref_Ok _ _ _ Hb). cbn [res_bind].
  assert (forall y, ancestor_of h a y -> ancestor_of h b y -> y <> a /\ y <> b) as Hyne.
  { intros y Hya Hyb. destruct (ancestor_in_heap h a ba y Hl Ha Hya) as [by_ Hby].
    destruct (ancestor_height h a ba y by_ Hl Ha Hby Hya) as [H1 E1].
    destruct (ancestor_height h b bb y by_ Hl Hb Hby Hyb) as [H2 E2].
    assert (nHeight by_ = nHeight ba -> a = b) as Hsame.
    { intros E. rewrite E, Z.sub_diag in E1. rewrite E, <- Hh, Z.sub_diag in E2.
      change (Some a = Some y) in E1. change (Some b = Some y) in E2. congruence. }
    split; intros ->; [rewrite Ha in Hby|rewrite Hb in Hby]; injection Hby as <-; apply Hab, Hsame; lia. }
  destruct (Hyne x Hxa Hxb) as [Hxna Hxnb].
  pose proof (Hl a ba Ha) as [_ Hpa]. pose proof (Hl b bb Hb) as [_ Hpb]. cbn in Hpa, Hpb.
  destruct (pprev ba) as [qa|] eqn:Ea; cycle 1.
  { exfalso. destruct Hxa as [[|n] Hn]; [by injection Hn as <-|]. cbn [prev_n] in Hn. rewrite Ha in Hn.
    cbn in Hn. by rewrite Ea in Hn. }
  destruct (pprev bb) as [qb|] eqn:Eb; cycle 1.
  { exfalso. destruct Hxb as [[|n] Hn]; [by injection Hn as <-|]. cbn [prev_n] in Hn. rewrite Hb in Hn.
    cbn in Hn. by rewrite Eb in Hn. }
  destruct Hpa as (bqa & Hqa & Hhqa). destruct Hpb as (bqb & Hqb & Hhqb).
  destruct (IH qa bqa qb bqb Hqa Hqb ltac:(lia) ltac:(lia)) as (r & Hr & H1 & H2 & H3).
  { by apply (ancestor_step h a ba qa). }
  { by apply (ancestor_step h b bb qb). }
  exists r. split; [done|].
  split; [apply (ancestor_trans h a qa r); [exists 1%nat; cbn; rewrite Ha; cbn; by rewrite Ea|done]|].
  split; [apply (ancestor_trans h b qb r); [exists 1%nat; cbn; rewrite Hb; cbn; by rewrite Eb|done]|].
  intros y Hya Hyb. destruct (Hyne y Hya Hyb).
  apply H3; [by apply (ancestor_step h a ba qa)|by apply (ancestor_step h b bb qb)].
Qed.

(** The last common ancestor of two entries of one tree: the search meets at it, so the
    final assertion holds. *)
Theorem last_common_ancestor h pa ba pb bb x :
  links_ok h -> skips_ok h -> h !! pa = Some ba -> h !! pb = Some bb ->
  ancestor_of h pa x -> ancestor_of h pb x ->
  exists r, FindLastCommonAncestorBlockIndex h pa pb = Ok (Some r) /\ last_common h pa pb r.
Proof.
  intros Hl Hs Ha Hb Hxa Hxb. unfold FindLastCommonAncestorBlockIndex.
  pose proof (Hl pa ba Ha) as [Ha0 _]. pose proof (Hl pb bb Hb) as [Hb0 _]. cbn in Ha0, Hb0.
  rewrite (deref_Ok _ _ _ Ha), (deref_Ok _ _ _ Hb). cbn [res_bind]. rewrite !Z.gtb_ltb.
  assert (forall p b q bq t bt, h !! p = Some b -> h !! q = Some bq -> h !! t = Some bt ->
    ancestor_of h p q -> nHeight bt <= nHeight bq ->
    forall y, ancestor_of h t y -> (ancestor_of h p y <-> ancestor_of h q y)) as Hcut.
  { intros p b q bq t bt Hp Hq Ht Hpq Hle y Hy. destruct (ancestor_in_heap h t bt y Hl Ht Hy) as [by_ Hby].
    destruct (ancestor_height h t bt y by_ Hl Ht Hby Hy) as [Hle' _].
    apply (cut_ancestors h p b q bq y by_); try done. lia. }
  destruct (Z.ltb_spec (nHeight bb) (nHeight ba)).
  - destruct (GetAncestor_cut h pa ba (nHeight bb) Hl Hs Ha ltac:(lia)) as (q & bq & -> & Hq & Hhq & Hpq).
    cbn [res_bind]. pose proof (Hcut pa ba q bq pb bb Ha Hq Hb Hpq ltac:(lia)) as Hc.
    destruct (lca_loop_spec h q bq pb bb (Z.to_nat (nHeight ba + 1)) x Hl Hq Hb ltac:(lia) ltac:(lia))
      as (r & -> & H1 & H2 & H3); [by apply Hc|done|]. cbn [res_bind fst snd]. rewrite bool_decide_true by done.
    exists r. split; [done|]. split; [by eapply ancestor_trans|]. split; [done|].
    intros y Hya Hyb. apply H3; [by apply Hc|done].
  - destruct (Z.ltb_spec (nHeight ba) (nHeight bb)).
    + destruct (GetAncestor_cut h pb bb (nHeight ba) Hl Hs Hb ltac:(lia)) as (q & bq & -> & Hq & Hhq & Hpq).
      cbn [res_bind]. pose proof (Hcut pb bb q bq pa ba Hb Hq Ha Hpq ltac:(lia)) as Hc.
      destruct (lca_loop_spec h pa ba q bq (Z.to_nat (nHeight ba + 1)) x Hl Ha Hq ltac:(lia) ltac:(lia))
        as (r & -> & H1 & H2 & H3); [done|by apply Hc|]. cbn [res_bind fst snd]. rewrite bool_decide_true by done.
      exists r. split; [done|]. split; [done|]. split; [by eapply ancestor_trans|].
      intros y Hya Hyb. apply H3; [done|by apply Hc].
    + cbn [res_bind].
      destruct (lca_loop_spec h pa ba pb bb (Z.to_nat (nHeight ba + 1)) x Hl Ha Hb ltac:(lia) ltac:(lia) Hxa Hxb)
        as (r & -> & H1). cbn [res_bind fst snd]. rewrite bool_decide_true by done. by exists r.
Qed.

(** ** Validity flags *)

Lemma land_shiftl_mask a b n :
  0 <= n -> Z.land a (Z.shiftl b n) = Z.shiftl (Z.land (Z.shiftr a n) b) n.
Proof.
  intros Hn. apply Z.bits_inj'. intros i Hi. rewrite Z.land_spec.
  destruct (Z.lt_ge_cases i n).
  - rewrite !Z.shiftl_spec_low by lia. apply andb_false_r.
  - rewrite !Z.shiftl_spec_high, Z.land_spec, Z.shiftr_spec by lia. by rewrite Z.sub_add.
Qed.

(** The status word is [8 * (s / 8) + validity]. *)
Lemma land_valid s : Z.land s BLOCK_VALID_MASK = s mod 8.
Proof. change BLOCK_VALID_MASK with (Z.ones 3). by rewrite Z.land_ones. Qed.

Lemma land_not_valid s : 0 <= s < 2 ^ 32 -> Z.land s (u32 (Z.lnot BLOCK_VALID_MASK)) = 8 * (s / 8).
Proof.
  intros Hs. change (u32 (Z.lnot BLOCK_VALID_MASK)) with (Z.shiftl (Z.ones 29) 3).
  rewrite land_shiftl_mask, Z.land_ones, Z.shiftl_mul_pow2, Z.shiftr_div_pow2 by lia.
  change (2 ^ 3) with 8. rewrite Z.mod_small; [lia|].
  split; [apply Z.div_pos; lia|apply Z.div_lt_upper_bound; lia].
Qed.

Lemma land_failed s : Z.land s BLOCK_FAILED_MASK = 32 * ((s / 32) mod 4).
Proof.
  change BLOCK_FAILED_MASK with (Z.shiftl (Z.ones 2) 5).
  rewrite land_shiftl_mask, Z.land_ones, Z.shiftl_mul_pow2, Z.shiftr_div_pow2 by lia.
  change (2 ^ 5) with 32. change (2 ^ 2) with 4. lia.
Qed.

(** Raising the validity of a block: nothing changes when the block has failed or already
    has the level; otherwise the block becomes valid up to exactly that level and every other
    status flag is kept. *)
Theorem RaiseValidity_correct s nUpTo :
  0 <= s < 2 ^ 32 -> BLOCK_VALID_UNKNOWN <= nUpTo <= BLOCK_VALID_SCRIPTS ->
  exists changed s', RaiseValidity s nUpTo = Some (changed, s') /\
    s' / 8 = s / 8 /\
    (if changed then IsValid s' nUpTo = Some true /\ s' mod 8 = nUpTo /\ s mod 8 < nUpTo
     else s' = s /\ (Z.land s BLOCK_FAILED_MASK <> 0 \/ IsValid s nUpTo = Some true)).
Proof.
  unfold BLOCK_VALID_UNKNOWN, BLOCK_VALID_SCRIPTS. intros Hs Hu. unfold RaiseValidity, IsValid.
  rewrite (land_not_valid nUpTo), (land_not_valid s), !land_valid by lia.
  rewrite (Z.div_small nUpTo), Z.mul_0_r by lia. cbn [Z.eqb negb].
  destruct (Z.eqb_spec (Z.land s BLOCK_FAILED_MASK) 0) as [Ef|Ef]; cbn [negb].
  2:{ exists false, s. split; [done|]. split; [done|]. split; [done|]. by left. }
  rewrite Z.geb_leb. destruct (Z.ltb_spec (s mod 8) nUpTo) as [Hlt|Hge].
  - assert (Z.lor (8 * (s / 8)) nUpTo = nUpTo + s / 8 * 8) as ->.
    { rewrite Z.lor_comm, (Z.mul_comm 8). 
      replace (Z.lor nUpTo (s / 8 * 8)) with (Z.lor nUpTo (Z.shiftl (s / 8) 3))
        by (rewrite Z.shiftl_mul_pow2 by lia; done).
      by rewrite lor_shiftl_add by lia. }
    eexists true, _. split; [reflexivity|].
    assert ((nUpTo + s / 8 * 8) / 8 = s / 8) as Ed by (rewrite Z.div_add, Z.div_small by lia; lia).
    assert ((nUpTo + s / 8 * 8) mod 8 = nUpTo) as Em by (rewrite Z.mod_add, Z.mod_small by lia; lia).
    split; [done|]. split; [|done].
    assert (Z.land (nUpTo + s / 8 * 8) BLOCK_FAILED_MASK = 0) as ->.
    { rewrite land_failed in Ef |- *. change 32 with (8 * 4) in *. rewrite <- !Z.div_div in * by lia.
      by rewrite Ed. }
    cbn [Z.eqb negb]. rewrite land_valid, Em, ?Z.geb_leb. by rewrite Z.leb_refl.
  - exists false, s. split; [done|]. split; [done|]. split; [done|]. right.
    destruct (Z.leb_spec nUpTo (s mod 8)); [done|lia].
Qed.

Lemma RaiseValidity_correct_witness :
  exists changed s', RaiseValidity 27 BLOCK_VALID_SCRIPTS = Some (changed, s') /\ s' / 8 = 27 / 8 /\
    (if changed then IsValid s' BLOCK_VALID_SCRIPTS = Some true /\ s' mod 8 = BLOCK_VALID_SCRIPTS /\
                     27 mod 8 < BLOCK_VALID_SCRIPTS
     else s' = 27 /\ (Z.land 27 BLOCK_FAILED_MASK <> 0 \/ IsValid 27 BLOCK_VALID_SCRIPTS = Some true)).
Proof. apply (RaiseValidity_correct 27 BLOCK_VALID_SCRIPTS); [lia|vm_compute; done]. Defined.

(** ** Median time *)

Lemma last_times_total n h p b :
  links_ok h -> h !! p = Some b ->
  exists l, last_times n h (Some p) = Ok l /\ Z.of_nat (length l) = Z.min (Z.of_nat n) (nHeight b + 1).
Proof.
  intros Hl. revert p b. induction n as [|n IH]; intros p b Hp; pose proof (Hl p b Hp) as [H0 Hb]; cbn in H0, Hb.
  { exists []. split; [done|]. cbn. lia. }
  cbn [last_times]. rewrite (deref_Ok _ _ _ Hp). cbn [res_bind]. destruct (pprev b) as [q|].
  - destruct Hb as (bq & Hq & Hhq). destruct (IH q bq Hq) as (l & -> & Hlen). cbn [res_bind].
    exists (nTime b :: l). split; [done|]. cbn [length]. lia.
  - exists [nTime b]. split; [by destruct n|]. cbn [length]. lia.
Qed.

(** How many times satisfy a predicate. *)
Definition count_times (P : Z -> Prop) `{forall x, Decision (P x)} (l : list Z) : nat := length (filter P l).

Lemma sorted_counts (l : list Z) k m :
  StronglySorted Z.le l -> l !! k = Some m ->
  (k < count_times (fun x => (x <= m)%Z) l)%nat /\ (length l - k <= count_times (fun x => (m <= x)%Z) l)%nat.
Proof.
  unfold count_times. revert k. induction l as [|x l IH]; intros k Hs Hk; [done|].
  apply StronglySorted_inv in Hs as [Hs Hx]. rewrite !filter_cons.
  destruct k as [|k]; cbn in Hk.
  - injection Hk as ->. rewrite !decide_True by lia. cbn. split; [lia|].
    assert (filter (fun y => m <= y) l = l) as ->; [|lia].
    clear -Hx. induction Hx as [|y l Hy Hl IH]; [done|]. by rewrite filter_cons_True, IH.
  - destruct (IH k Hs Hk) as [H1 H2].
    assert (x <= m) by (rewrite Forall_forall in Hx; apply Hx; by eapply list_elem_of_lookup_2).
    rewrite decide_True by done. cbn [length]. case_decide; cbn [length]; lia.
Qed.

(** The median time past of a block is the time of one of its last (up to) eleven blocks
    and splits them: more than half rounded down are not later, and at least half are not
    earlier. *)
Theorem median_time_correct h p b :
  links_ok h -> h !! p = Some b ->
  exists m l, GetMedianTimePast h p = Ok m /\ last_times nMedianTimeSpan h (Some p) = Ok l /\
    Z.of_nat (length l) = Z.min 11 (nHeight b + 1) /\ m ∈ l /\
    (length l / 2 < count_times (fun t => (t <= m)%Z) l)%nat /\
    (length l - length l / 2 <= count_times (fun t => (m <= t)%Z) l)%nat.
Proof.
  intros Hl Hp. destruct (last_times_total nMedianTimeSpan h p b Hl Hp) as (l & El & Hlen).
  pose proof (Hl p b Hp) as [H0 _]. cbn in H0.
  pose proof (merge_sort_Permutation Z.le l) as Hperm. pose proof (Permutation_length Hperm) as Hpl.
  assert (length l / 2 < length l)%nat by (apply Nat.div_lt; unfold nMedianTimeSpan in *; lia).
  destruct (lookup_lt_is_Some_2 (merge_sort Z.le l) (length l / 2) ltac:(lia)) as [m Hm].
  exists m, l. unfold GetMedianTimePast. rewrite El. cbn [res_bind]. rewrite Hpl, Hm.
  split; [done|]. split; [done|]. split; [unfold nMedianTimeSpan in Hlen; lia|].
  split; [rewrite <- Hperm; by eapply list_elem_of_lookup_2|].
  assert (StronglySorted Z.le (merge_sort Z.le l)) as Hss by (apply (StronglySorted_merge_sort Z.le)).
  destruct (sorted_counts _ _ _ Hss Hm) as [H1 H2]. rewrite Hpl in H2. unfold count_times in *.
  split; [by rewrite <- Hperm at 2|by rewrite <- Hperm at 3].
Qed.

(** ** Locators *)

(** Stepping back to height [n], through the vector or through the skip list. *)
Lemma step_back h t bt p b n (in_chain : bool) :
  links_ok h -> skips_ok h -> h !! t = Some bt -> h !! p = Some b -> 0 <= n <= nHeight b ->
  Contains h (branch h t (Z.to_nat (nHeight bt))) p = Ok in_chain ->
  exists q bq,
    (if in_chain then Ok (chain_at (branch h t (Z.to_nat (nHeight bt))) n) else GetAncestor h p n)
      = Ok (Some q) /\ h !! q = Some bq /\ nHeight bq = n /\ ancestor_of h p q.
Proof.
  intros Hl Hs Ht Hp Hn Hc. destruct in_chain; [|by apply (GetAncestor_cut h p b)].
  rewrite (Contains_branch h t bt p b Hl Ht Hp) in Hc. injection Hc as Hc.
  apply bool_decide_eq_true in Hc as [Hle Hc].
  destruct (prev_n_total h (Z.to_nat (nHeight b - n)) p b Hl Hp ltac:(lia)) as (q & bq & Hq & Hbq & Hhq).
  exists q, bq. rewrite chain_at_lookup by (unfold zlen; rewrite branch_length; lia).
  rewrite branch_lookup by lia. cbn [default from_option id].
  replace (Z.to_nat (nHeight bt) - Z.to_nat n)%nat
    with (Z.to_nat (nHeight bt - nHeight b) + Z.to_nat (nHeight b - n))%nat by lia.
  rewrite (prev_n_add _ _ _ _ _ Hc), Hq. split; [done|]. split; [done|]. split; [lia|]. by eexists.
Qed.

Lemma locator_loop_spec h t bt p b fuel nStep nHave :
  links_ok h -> skips_ok h -> h !! t = Some bt -> h !! p = Some b ->
  nHeight b <= Z.of_nat fuel -> 1 <= nStep ->
  exists l g bg,
    locator_loop fuel h (branch h t (Z.to_nat (nHeight bt))) (Some p) nStep nHave = Ok (p :: l) /\
    Forall (ancestor_of h p) l /\ last (p :: l) = Some g /\ h !! g = Some bg /\ nHeight bg = 0.
Proof.
  intros Hl Hs Ht. revert p b nStep nHave. induction fuel as [|fuel IH]; intros p b nStep nHave Hp Hf Hst;
    pose proof (Hl p b Hp) as [H0 _]; cbn in H0; cbn [locator_loop]; rewrite (deref_Ok _ _ _ Hp); cbn [res_bind];
    destruct (Z.eqb_spec (nHeight b) 0) as [E|E]; try (by exists [], p, b); [lia|].
  rewrite (Contains_branch h t bt p b Hl Ht Hp). cbn [res_bind].
  destruct (step_back h t bt p b (Z.max (nHeight b - nStep) 0) _ Hl Hs Ht Hp ltac:(lia)
    (Contains_branch h t bt p b Hl Ht Hp)) as (q & bq & -> & Hq & Hhq & Hpq). cbn [res_bind].
  destruct (IH q bq (if nHave + 1 >? 10 then nStep * 2 else nStep) (nHave + 1) Hq ltac:(lia) ltac:(case_if; lia))
    as (l & g & bg & -> & Hall & Hlast & Hg & Hg0). cbn [res_bind].
  exists (q :: l), g, bg. split; [done|]. split; [|done].
  constructor; [done|]. eapply Forall_impl; [exact Hall|]. intros x Hx. by eapply ancestor_trans.
Qed.

(** A block locator is a non-empty list of entries of one branch: it starts with the
    requested entry, continues with ancestors of it, and ends with the genesis block. *)
Theorem GetLocator_correct h t bt p b :
  links_ok h -> skips_ok h -> h !! t = Some bt -> h !! p = Some b ->
  exists l g bg,
    GetLocator h (branch h t (Z.to_nat (nHeight bt))) (Some p) = Ok (p :: l) /\
    Forall (ancestor_of h p) l /\ last (p :: l) = Some g /\ h !! g = Some bg /\ nHeight bg = 0.
Proof.
  intros Hl Hs Ht Hp. pose proof (Hl p b Hp) as [H0 _]. cbn in H0. unfold GetLocator.
  rewrite (deref_Ok _ _ _ Hp). cbn [res_bind]. apply (locator_loop_spec h t bt p b); (done || lia).
Qed.

(** ** A concrete tree *)

Definition demo_block (prev skip : option ptr) (height time : Z) : CBlockIndex :=
  {| phashBlock := []; pprev := prev; pskip := skip; nHeight := height; nTime := time; nBits := 0;
     nChainWork := uint_of_u64 (height + 1); nTx := 1; nChainTx := height + 1; nStatus := 0;
     nSequenceId := 0; nSproutValue := None; nChainSproutValue := None;
     nSaplingValue := 0; nChainSaplingValue := None |}.

(** Genesis 1, a branch 2-3 and a branch 4-5-6. *)
Definition demo_tree : heap :=
  <[1%positive := demo_block None None 0 10]>
  (<[2%positive := demo_block (Some 1%positive) (Some 1%positive) 1 20]>
  (<[3%positive := demo_block (Some 2%positive) (Some 1%positive) 2 30]>
  (<[4%positive := demo_block (Some 1%positive) (Some 1%positive) 1 25]>
  (<[5%positive := demo_block (Some 4%positive) (Some 1%positive) 2 35]>
  (<[6%positive := demo_block (Some 5%positive) None 3 15]> ∅))))).

Ltac demo_cases Hp :=
  unfold demo_tree in Hp;
  repeat (apply lookup_insert_Some in Hp as [[<- <-]|[_ Hp]]); [..|by rewrite lookup_empty in Hp].

Lemma demo_links : links_ok demo_tree.
Proof.
  intros p b Hp. demo_cases Hp; cbn; (split; [lia|]); try done; eexists; (split; [reflexivity|done]).
Qed.

Lemma demo_skips : skips_ok demo_tree.
Proof.
  intros p b Hp. demo_cases Hp; intros s Hs; cbn in Hs; try done; injection Hs as <-; vm_compute; done.
Qed.

Lemma GetAncestor_correct_witness : GetAncestor demo_tree 6 1 = Ok (Some 4%positive).
Proof.
  rewrite (GetAncestor_correct demo_tree 6 _ 1 demo_links demo_skips eq_refl). reflexivity.
Defined.

Lemma BuildSkip_ok_witness :
  exists h', BuildSkip demo_tree 6 = Ok h' /\ links_ok h' /\ skips_ok h'.
Proof. exact (BuildSkip_ok demo_tree 6 _ demo_links demo_skips eq_refl). Defined.

Lemma SetTip_correct_witness :
  exists c', SetTip demo_tree (branch demo_tree 3 2) (Some 6%positive) = Ok (c', 3) /\ Height c' = 3 /\
    c' = [Some 1%positive; Some 4%positive; Some 5%positive; Some 6%positive] /\ chain_ok demo_tree c'.
Proof.
  assert (chain_ok demo_tree (branch demo_tree 3 2)) as Hc.
  { right. exists 3%positive. eexists. split; reflexivity. }
  exact (SetTip_correct demo_tree _ (Some 6%positive) demo_links Hc _ eq_refl eq_refl).
Defined.

Lemma FindFork_correct_witness :
  FindFork demo_tree (branch demo_tree 3 2) 6 = Ok (Some 1%positive) /\
  last_common demo_tree 6 3 1.
Proof.
  split; [vm_compute; reflexivity|].
  exact (FindFork_correct demo_tree 3 _ 6 _ demo_links demo_skips eq_refl eq_refl).
Defined.

Lemma last_common_ancestor_witness :
  exists r, FindLastCommonAncestorBlockIndex demo_tree 6 3 = Ok (Some r) /\ last_common demo_tree 6 3 r.
Proof.
  apply (last_common_ancestor demo_tree 6 (demo_block (Some 5%positive) None 3 15) 3
    (demo_block (Some 2%positive) (Some 1%positive) 2 30) 1 demo_links demo_skips);
    [reflexivity|reflexivity|by exists 3%nat|by exists 2%nat].
Defined.

Lemma median_time_correct_witness :
  exists m l, GetMedianTimePast demo_tree 6 = Ok m /\ last_times nMedianTimeSpan demo_tree (Some 6%positive) = Ok l /\
    Z.of_nat (length l) = Z.min 11 (3 + 1) /\ m ∈ l /\
    (length l / 2 < count_times (fun t => (t <= m)%Z) l)%nat /\
    (length l - length l / 2 <= count_times (fun t => (m <= t)%Z) l)%nat.
Proof. exact (median_time_correct demo_tree 6 _ demo_links eq_refl). Defined.

Lemma GetLocator_correct_witness :
  exists l g bg,
    GetLocator demo_tree (branch demo_tree 3 2) (Some 6%positive) = Ok (6%positive :: l) /\
    Forall (ancestor_of demo_tree 6) l /\ last (6%positive :: l) = Some g /\
    demo_tree !! g = Some bg /\ nHeight bg = 0.
Proof. exact (GetLocator_correct demo_tree 3 _ 6 _ demo_links demo_skips eq_refl eq_refl). Defined.
