(* ===== verification/Pow.v ===== *)
(** * Proof of work

    [mining/pow.cpp]: the difficulty adjustment, the check of a block hash against its target
    and the work of a block, on the limb arithmetic of [ArithUint256] and the block tree of
    [Chain].  The Equihash solution check is not modelled. *)

From stdpp Require Import gmap.
From S2P Require Import Prelude Amount ArithUint256 ArithUint256Props Chain.

(** The proof-of-work part of [Consensus::Params]; [isRegTest] is [Params().IsRegTest()]. *)
Record PowParams := {
  powLimit : bytes;
  nPowAllowMinDifficultyBlocksAfterHeight : option Z;
  nPowSetMinDifficultyAfterHeight : option Z;
  nPowAveragingWindow : Z;
  nPowMaxAdjustDown : Z;
  nPowMaxAdjustUp : Z;
  nPowTargetSpacing : Z;
  isRegTest : bool
}.

Definition AveragingWindowTimespan (params : PowParams) : Z :=
  s64 (nPowAveragingWindow params * nPowTargetSpacing params).
Definition MinActualTimespan (params : PowParams) : Z :=
  Z.quot (s64 (AveragingWindowTimespan params * (100 - nPowMaxAdjustUp params))) 100.
Definition MaxActualTimespan (params : PowParams) : Z :=
  Z.quot (s64 (AveragingWindowTimespan params * (100 + nPowMaxAdjustDown params))) 100.

(** An exception of the 256-bit arithmetic, a failed assertion of [GetCompact], or a failure
    in the block tree. *)
Inductive pow_fail : Set :=
| pow_uint (e : uint_error)
| pow_assert
| pow_chain (e : chain_fail).

Definition lift_uint {A : Type} (r : res uint_error A) : res pow_fail A :=
  match r with Ok a => Ok a | Err e => Err (pow_uint e) end.
Definition lift_chain {A : Type} (r : res chain_fail A) : res pow_fail A :=
  match r with Ok a => Ok a | Err e => Err (pow_chain e) end.
Definition compact_of (a : limbs) : res pow_fail Z :=
  match GetCompact a false with Some c => Ok c | None => Err pow_assert end.

(** The time span after dampening and clamping. *)
Definition actual_timespan (params : PowParams) (nLastBlockTime nFirstBlockTime : Z) : Z :=
  let nActualTimespan := s64 (nLastBlockTime - nFirstBlockTime) in
  let nActualTimespan :=
    s64 (AveragingWindowTimespan params
         + Z.quot (s64 (nActualTimespan - AveragingWindowTimespan params)) 4) in
  let nActualTimespan :=
    if nActualTimespan <? MinActualTimespan params then MinActualTimespan params else nActualTimespan in
  if nActualTimespan >? MaxActualTimespan params then MaxActualTimespan params else nActualTimespan.

Definition CalculateNextWorkRequired (bnAvg : limbs) (nLastBlockTime nFirstBlockTime : Z)
    (params : PowParams) : res pow_fail Z :=
  let nActualTimespan := actual_timespan params nLastBlockTime nFirstBlockTime in
  let bnPowLimit := UintToArith256 (powLimit params) in
  let? bnNew := lift_uint (uint_div bnAvg (uint_of_u64 (u64 (AveragingWindowTimespan params)))) in
  let bnNew := uint_mul32 bnNew (u32 nActualTimespan) in
  let bnNew := if CompareTo bnNew bnPowLimit >? 0 then bnPowLimit else bnNew in
  compact_of bnNew.

(** [uint256S("0f0f..")] and [uint256S("07ff..")]: the bytes in little-endian order. *)
Definition ingest_target_1 : bytes := replicate 32 0x0f.
Definition ingest_target_2 : bytes := replicate 31 0xff ++ [0x07].

(** The averaging loop: the sum of the targets and the entry before the interval. *)
Fixpoint sum_targets (n : nat) (h : heap) (pindexFirst : option positive) (bnTot : limbs)
  : res pow_fail (limbs * option positive) :=
  match n, pindexFirst with
  | S n, Some p =>
      let? b := lift_chain (deref h p) in
      let bnTmp := (SetCompact (nBits b)).1.1 in
      sum_targets n h (pprev b) (uint_add bnTot bnTmp)
  | _, _ => Ok (bnTot, pindexFirst)
  end.

(** [GetNextWorkRequired(pindexLast, pblock, params)]; [pblock] is the time of the block. *)
Definition GetNextWorkRequired (h : heap) (pindexLast : option positive) (pblock : option Z)
    (params : PowParams) : res pow_fail Z :=
  let? nProofOfWorkLimit := compact_of (UintToArith256 (powLimit params)) in
  match pindexLast with
  | None => Ok nProofOfWorkLimit
  | Some pl =>
      let? last := lift_chain (deref h pl) in
      let nCurrentHeight := u32 (nHeight last) in
      if negb (isRegTest params) && (nCurrentHeight <? TOP_INGEST_BLOCK - 99)
      then compact_of (UintToArith256 ingest_target_1)
      else if negb (isRegTest params) && (nCurrentHeight <? TOP_INGEST_BLOCK)
      then compact_of (UintToArith256 ingest_target_2)
      else if
        match nPowAllowMinDifficultyBlocksAfterHeight params, pblock with
        | Some hh, Some time =>
            (nCurrentHeight >=? hh)
            && (time >? nTime last + nPowTargetSpacing params * 6)
        | _, _ => false
        end
      then Ok nProofOfWorkLimit
      else if
        match nPowSetMinDifficultyAfterHeight params with
        | Some hh => (nCurrentHeight >=? hh) && (nCurrentHeight <=? hh + nPowAveragingWindow params)
        | None => false
        end
      then Ok nProofOfWorkLimit
      else
        let? r := sum_targets (Z.to_nat (nPowAveragingWindow params)) h (Some pl) uint_zero in
        match r.2 with
        | None => Ok nProofOfWorkLimit
        | Some first =>
            let? bnAvg := lift_uint (uint_div r.1 (uint_of_u64 (u64 (nPowAveragingWindow params)))) in
            let? lastTime := lift_chain (GetMedianTimePast h pl) in
            let? firstTime := lift_chain (GetMedianTimePast h first) in
            CalculateNextWorkRequired bnAvg lastTime firstTime params
        end
  end.

Definition CheckProofOfWork (hashBlock : bytes) (nBits : Z) (params : PowParams) : bool :=
  let '(bnTarget, fNegative, fOverflow) := SetCompact nBits in
  if fNegative || EqualTo bnTarget 0 || fOverflow
     || (CompareTo bnTarget (UintToArith256 (powLimit params)) >? 0)
  then false
  else if CompareTo (UintToArith256 hashBlock) bnTarget >? 0 then false
  else true.

Definition GetBlockProof (nBits : Z) : res uint_error limbs :=
  let '(bnTarget, fNegative, fOverflow) := SetCompact nBits in
  if fNegative || fOverflow || EqualTo bnTarget 0 then Ok uint_zero
  else
    let? q := uint_div (uint_not bnTarget) (uint_add bnTarget (uint_of_u64 1)) in
    Ok (uint_add q (uint_of_u64 1)).

(** [GetBlockProofEquivalentTime] on the chain work of [to] and [from] and the target bits of
    the tip. *)
Definition GetBlockProofEquivalentTime (to_work from_work : limbs) (tip_nBits : Z)
    (params : PowParams) : res uint_error Z :=
  let gt := CompareTo to_work from_work >? 0 in
  let r := if gt then uint_sub to_work from_work else uint_sub from_work to_work in
  let sign := if gt then 1 else -1 in
  let? proof := GetBlockProof tip_nBits in
  let? r := uint_div (uint_mul r (uint_of_u64 (u64 (nPowTargetSpacing params)))) proof in
  if bits r >? 63 then Ok (sign * INT64_MAX) else Ok (s64 (u64 (sign * GetLow64 r))).

(** ** Targets *)

(** The target of valid compact bits. *)
Lemma SetCompact_valid n r :
  0 <= n < 2 ^ 32 -> SetCompact n = (r, false, false) ->
  uint_ok r /\ lval r = compact_val (n / 2 ^ 24) (n mod 2 ^ 23) /\ lval r + 1 < M256.
Proof.
  intros Hn Hs. destruct (SetCompact_spec n Hn) as (r' & Hs' & Hr & Hv). cbv zeta in Hs', Hv.
  rewrite Hs in Hs'. injection Hs' as <- _ Ho.
  assert (0 <= n / 2 ^ 24 < 256) as Hsz by (split; [apply Z.div_pos; lia|apply Z.div_lt_upper_bound; lia]).
  assert (0 <= n mod 2 ^ 23 < 2 ^ 23) as Hw by (apply Z.mod_pos_bound; lia).
  pose proof (compact_no_overflow _ _ Hsz Hw (eq_sym Ho)) as Hr0. rewrite Z.mod_small in Hv by done.
  split; [done|]. split; [done|]. rewrite Hv. unfold compact_val, M256 in *.
  destruct (Z.leb_spec (n / 2 ^ 24) 3).
  - assert (0 < 2 ^ (8 * (3 - n / 2 ^ 24))) by (apply Z.pow_pos_nonneg; lia).
    assert (n mod 2 ^ 23 / 2 ^ (8 * (3 - n / 2 ^ 24)) <= n mod 2 ^ 23) by (apply Z.div_le_upper_bound; nia). lia.
  - set (k := 8 * (n / 2 ^ 24 - 3)) in *.
    replace (2 ^ k) with (2 ^ (k - 8) * 2 ^ 8) in * by (rewrite <- Z.pow_add_r by lia; f_equal; lia). lia.
Qed.

Lemma SetCompact_ok n : 0 <= n < 2 ^ 32 -> uint_ok (SetCompact n).1.1.
Proof. intros Hn. destruct (SetCompact_spec n Hn) as (r & -> & Hr & _). done. Qed.

Lemma CompareTo_gt a b : uint_ok a -> uint_ok b -> (CompareTo a b >? 0) = (lval b <? lval a).
Proof.
  intros Ha Hb. rewrite CompareTo_spec by (apply Ha || apply Hb || (destruct Ha, Hb; congruence)).
  destruct (Z.compare_spec (lval a) (lval b)), (Z.ltb_spec (lval b) (lval a)); done || lia.
Qed.

(** C39. The proof-of-work check accepts a hash exactly when the target decodes as a positive
    number without sign or overflow, is not easier than the limit, and is at least the hash. *)
Theorem CheckProofOfWork_correct hash n params :
  uint256_ok hash -> uint256_ok (powLimit params) -> 0 <= n < 2 ^ 32 ->
  CheckProofOfWork hash n params = true <->
  exists t, SetCompact n = (t, false, false) /\
    0 < lval t /\ lval t <= le_val (powLimit params) /\ le_val hash <= lval t.
Proof.
  intros Hh Hp Hn. unfold CheckProofOfWork.
  destruct (UintToArith256_spec _ Hh) as [Hho Hhv]. destruct (UintToArith256_spec _ Hp) as [Hpo Hpv].
  destruct (SetCompact n) as [[t neg] ovf] eqn:Es.
  assert (uint_ok t) as Ht by (pose proof (SetCompact_ok n Hn) as H; by rewrite Es in H).
  pose proof (uint_ok_range t Ht). rewrite EqualTo_spec by (done || lia).
  rewrite !CompareTo_gt, Hhv, Hpv by done. destruct neg; [split; [done|by intros (? & [=] & _)]|].
  destruct (Z.eqb_spec (lval t) 0) as [E|E]; cbn [orb].
  { split; [done|]. intros (? & [= <-] & Hpos & _). lia. }
  destruct ovf; cbn [orb]; [split; [done|by intros (? & [=] & _)]|].
  destruct (Z.ltb_spec (le_val (powLimit params)) (lval t)).
  { split; [done|]. intros (? & [= <-] & _ & Hle & _). lia. }
  destruct (Z.ltb_spec (lval t) (le_val hash)).
  { split; [done|]. intros (? & [= <-] & _ & _ & Hle). lia. }
  split; [|done]. intros _. exists t. split; [done|]. lia.
Qed.

(** The work credited for a block with valid bits is exactly the expected number of
    hashes 2^256 / (target + 1), computed without overflow or division by zero; invalid bits
    count for nothing. *)
Theorem GetBlockProof_correct n :
  0 <= n < 2 ^ 32 ->
  exists w, GetBlockProof n = Ok w /\ uint_ok w /\
    lval w = match SetCompact n with
             | (t, false, false) => if lval t =? 0 then 0 else M256 / (lval t + 1)
             | _ => 0
             end.
Proof.
  intros Hn. unfold GetBlockProof. destruct (SetCompact n) as [[t neg] ovf] eqn:Es.
  assert (uint_ok t) as Ht by (pose proof (SetCompact_ok n Hn) as H; by rewrite Es in H).
  rewrite EqualTo_spec by (done || lia). destruct uint_zero_ok as [Hz Hz0].
  destruct neg; [by exists uint_zero|]. destruct ovf; [by exists uint_zero|]. cbn [orb].
  destruct (Z.eqb_spec (lval t) 0); [by exists uint_zero|].
  destruct (SetCompact_valid n t Hn Es) as (_ & _ & Hlt). pose proof (uint_ok_range t Ht) as Hr.
  destruct (uint_of_u64_spec 1 ltac:(lia)) as [H1 E1].
  destruct (uint_add_spec t (uint_of_u64 1) Ht H1) as [Hs Es1]. rewrite E1, Z.mod_small in Es1 by lia.
  destruct (uint_not_spec t (proj1 Ht)) as (Hn1 & Hn2 & Hn3). rewrite (uint_ok_zlen t Ht) in Hn3.
  change (2 ^ (32 * 8)) with M256 in Hn3.
  assert (uint_ok (uint_not t)) as Hnot by (split; [done|rewrite Hn2; apply Ht]).
  pose proof (uint_div_spec (uint_not t) (uint_add t (uint_of_u64 1)) Hnot Hs) as Hd. rewrite Es1 in Hd.
  destruct (Z.eqb_spec (lval t + 1) 0); [lia|]. destruct Hd as (q & -> & Hq & Hqv). cbn [res_bind].
  destruct (uint_add_spec q (uint_of_u64 1) Hq H1) as [Hw Ew]. eexists. split; [done|]. split; [done|].
  assert (M256 / (lval t + 1) = lval q + 1) as Em.
  { rewrite Hqv, Hn3. replace M256 with (M256 - 1 - lval t + 1 * (lval t + 1)) at 1 by lia.
    apply Z.div_add. lia. }
  rewrite Ew, E1, Em. apply Z.mod_small. pose proof (uint_ok_range q Hq). split; [lia|].
  rewrite <- Em. apply Z.div_lt; lia.
Qed.

(** ** Difficulty adjustment *)

(** The conditions the chain parameters satisfy (chainparams.cpp asserts the second). *)
Record pow_params_ok (params : PowParams) : Prop := {
  ok_limit : uint256_ok (powLimit params);
  ok_limit_window : le_val (powLimit params) * nPowAveragingWindow params < M256;
  ok_limit_double : le_val (powLimit params) * 2 < M256;
  ok_window : 0 < nPowAveragingWindow params;
  ok_spacing : 0 < nPowTargetSpacing params;
  ok_timespan : nPowAveragingWindow params * nPowTargetSpacing params < 2 ^ 30;
  ok_up : 0 <= nPowMaxAdjustUp params <= 100;
  ok_down : 0 <= nPowMaxAdjustDown params <= 100
}.

Lemma timespan_bounds params :
  pow_params_ok params ->
  let w := nPowAveragingWindow params * nPowTargetSpacing params in
  AveragingWindowTimespan params = w /\ 0 < w < 2 ^ 30 /\
  0 <= MinActualTimespan params <= w /\ w <= MaxActualTimespan params <= 2 * w.
Proof.
  intros Hp w. destruct Hp as [_ _ _ Hw Hs Ht Hu Hd].
  assert (0 < w < 2 ^ 30) as Hw' by (unfold w; nia).
  assert (AveragingWindowTimespan params = w) as E
    by (unfold AveragingWindowTimespan; apply s64_id; unfold INT64_MIN, INT64_MAX; unfold w in *; lia).
  split; [done|]. split; [done|]. unfold MinActualTimespan, MaxActualTimespan. rewrite E.
  rewrite !s64_id by (unfold INT64_MIN, INT64_MAX; nia). rewrite !Z.quot_div_nonneg by nia.
  split; split.
  - apply Z.div_pos; nia.
  - apply Z.div_le_upper_bound; nia.
  - apply Z.div_le_lower_bound; nia.
  - apply Z.div_le_upper_bound; nia.
Qed.

Lemma actual_timespan_bounds params t1 t2 :
  pow_params_ok params ->
  MinActualTimespan params <= actual_timespan params t1 t2 <= MaxActualTimespan params.
Proof.
  intros Hp. destruct (timespan_bounds params Hp) as (_ & _ & Hmin & Hmax). cbv zeta in *.
  unfold actual_timespan. rewrite Z.gtb_ltb. repeat case_if; zbool; lia.
Qed.

(** The rule of the adjustment on integers: a quarter of the deviation of the elapsed time
    from the window counts, up to [nPowMaxAdjustUp] per cent less or [nPowMaxAdjustDown] per
    cent more than the window. *)
Definition window (params : PowParams) : Z := nPowAveragingWindow params * nPowTargetSpacing params.
Definition damped_timespan (params : PowParams) (elapsed : Z) : Z :=
  Z.max (window params * (100 - nPowMaxAdjustUp params) / 100)
    (Z.min (window params * (100 + nPowMaxAdjustDown params) / 100) (window params + Z.quot (elapsed - window params) 4)).

(** The target for a time span, and the target after [elapsed] seconds. *)
Definition scaled_target (params : PowParams) (avg span : Z) : Z := Z.min (le_val (powLimit params)) (avg / window params * span).
Definition next_target (params : PowParams) (avg elapsed : Z) : Z := scaled_target params avg (damped_timespan params elapsed).

Lemma actual_timespan_damped params t1 t2 : pow_params_ok params -> 0 <= t1 < 2 ^ 32 -> 0 <= t2 < 2 ^ 32 ->
  actual_timespan params t1 t2 = damped_timespan params (t1 - t2).
Proof.
  intros Hp H1 H2. destruct (timespan_bounds params Hp) as (Ew & Hw & Hmin & Hmax). cbv zeta in *. fold (window params) in *. destruct Hp as [_ _ _ _ _ _ Hu Hd].
  assert (MinActualTimespan params = window params * (100 - nPowMaxAdjustUp params) / 100 /\ MaxActualTimespan params = window params * (100 + nPowMaxAdjustDown params) / 100) as [E1 E2].
  { unfold MinActualTimespan, MaxActualTimespan. rewrite Ew, !s64_id by (unfold INT64_MIN, INT64_MAX; nia). rewrite !Z.quot_div_nonneg by nia. done. }
  assert (Z.abs (Z.quot (t1 - t2 - window params) 4) <= 2 ^ 33) as Hq by (pose proof (Z.quot_rem' (t1 - t2 - window params) 4); pose proof (Z.rem_bound_abs (t1 - t2 - window params) 4 ltac:(lia)); lia).
  unfold actual_timespan, damped_timespan. rewrite Ew, <- E1, <- E2. rewrite (s64_id (t1 - t2)), (s64_id (t1 - t2 - window params)), s64_id by (unfold INT64_MIN, INT64_MAX; lia). rewrite Z.gtb_ltb.
  set (q := Z.quot _ 4) in *. clearbody q. clear E1 E2. destruct (Z.ltb_spec (window params + q) (MinActualTimespan params)), (Z.ltb_spec (MaxActualTimespan params) (MinActualTimespan params)), (Z.ltb_spec (MaxActualTimespan params) (window params + q)); lia.
Qed.

Lemma compact_of_spec a :
  uint_ok a -> exists c r, compact_of a = Ok c /\ 0 <= c < 2 ^ 32 /\ SetCompact c = (r, false, false) /\
    uint_ok r /\ compact_approx (lval a) (lval r).
Proof.
  intros Ha. destruct (GetCompact_spec a Ha) as (c & r & Hg & H). exists c, r. unfold compact_of. by rewrite Hg.
Qed.

Lemma CalculateNextWorkRequired_spec params avg t1 t2 :
  pow_params_ok params -> uint_ok avg -> lval avg <= le_val (powLimit params) ->
  exists c r, CalculateNextWorkRequired avg t1 t2 params = Ok c /\ 0 <= c < 2 ^ 32 /\
    SetCompact c = (r, false, false) /\ uint_ok r /\
    compact_approx (scaled_target params (lval avg) (actual_timespan params t1 t2)) (lval r).
Proof.
  intros Hp Ha Hle. destruct (timespan_bounds params Hp) as (Ew & Hw & Hmin & Hmax). cbv zeta in *.
  pose proof (actual_timespan_bounds params t1 t2 Hp) as Ht.
  destruct (UintToArith256_spec _ (ok_limit _ Hp)) as [Hlo Hlv]. pose proof (ok_limit_double _ Hp) as Hdbl.
  unfold CalculateNextWorkRequired, scaled_target, window. rewrite Ew.
  set (w := nPowAveragingWindow params * nPowTargetSpacing params) in *.
  set (t := actual_timespan params t1 t2) in *.
  rewrite u64_id by lia. destruct (uint_of_u64_spec w ltac:(lia)) as [Hwo Hwv].
  pose proof (uint_div_spec avg (uint_of_u64 w) Ha Hwo) as Hd. rewrite Hwv in Hd.
  destruct (Z.eqb_spec w 0); [lia|]. destruct Hd as (q & -> & Hq & Hqv). cbn [lift_uint res_bind].
  rewrite u32_id by lia.
  destruct (uint_mul32_spec q t Hq ltac:(unfold limb_ok; lia)) as [Hmo Hmv].
  pose proof (uint_ok_range avg Ha). pose proof (Z.mul_div_le (lval avg) w ltac:(lia)).
  pose proof (Z.div_pos (lval avg) w ltac:(lia) ltac:(lia)).
  rewrite Hqv, Z.mod_small in Hmv by nia. rewrite CompareTo_gt, Hlv, Hmv by done.
  destruct (Z.ltb_spec (le_val (powLimit params)) (lval avg / w * t)).
  - destruct (compact_of_spec _ Hlo) as (c & r & Hc). exists c, r. rewrite Hlv in Hc.
    by rewrite Z.min_l by lia.
  - destruct (compact_of_spec _ Hmo) as (c & r & Hc). exists c, r. rewrite Hmv in Hc.
    by rewrite Z.min_r by lia.
Qed.

Lemma compact_approx_le v r b : 0 <= v <= b -> compact_approx v r -> 0 <= r <= b.
Proof. intros Hv Ha. pose proof (compact_approx_bound v r ltac:(lia) Ha). lia. Qed.

(** C38. Difficulty adjustment: from an average target not easier than the limit and two block
    times, the computation raises no exception and no assertion, does not overflow, and the new
    bits decode to [next_target], rounded down by at most one part in 2^15: the average scaled
    by the time span over the window and capped at the limit, where the time span is the window
    plus a quarter of the deviation of the elapsed time from it, at least [nPowMaxAdjustUp] per
    cent below and at most [nPowMaxAdjustDown] per cent above the window. *)
Theorem difficulty_adjustment params avg t1 t2 :
  pow_params_ok params -> uint_ok avg -> lval avg <= le_val (powLimit params) -> 0 <= t1 < 2 ^ 32 -> 0 <= t2 < 2 ^ 32 ->
  exists c r, CalculateNextWorkRequired avg t1 t2 params = Ok c /\ 0 <= c < 2 ^ 32 /\
    SetCompact c = (r, false, false) /\
    0 <= lval r <= next_target params (lval avg) (t1 - t2) /\
    (next_target params (lval avg) (t1 - t2) - lval r) * 2 ^ 15 <= next_target params (lval avg) (t1 - t2).
Proof.
  intros Hp Ha Hle H1 H2. pose proof (actual_timespan_bounds params t1 t2 Hp) as Ht.
  destruct (CalculateNextWorkRequired_spec params avg t1 t2 Hp Ha Hle) as (c & r & Hc & Hcr & Hs & _ & Happ).
  exists c, r. split; [done|]. split; [done|]. split; [done|]. unfold next_target. rewrite <- actual_timespan_damped by done.
  apply compact_approx_bound; [|done]. destruct (timespan_bounds params Hp) as (_ & Hw & Hmin & _). cbv zeta in *.
  pose proof (uint_ok_range avg Ha). unfold scaled_target, window.
  pose proof (Z.div_pos (lval avg) (nPowAveragingWindow params * nPowTargetSpacing params) ltac:(lia) ltac:(lia)).
  pose proof (uint_ok_range _ (proj1 (UintToArith256_spec _ (ok_limit _ Hp)))) as Hlr.
  rewrite (proj2 (UintToArith256_spec _ (ok_limit _ Hp))) in Hlr. apply Z.min_glb; [lia|nia].
Qed.

(** ** The required work of the next block *)

(** Every entry of the tree carries bits that decode to a target not easier than [limit]. *)
Definition bits_ok (limit : Z) (h : heap) : Prop :=
  map_Forall (fun _ b => 0 <= nBits b < 2 ^ 32 /\ lval (SetCompact (nBits b)).1.1 <= limit) h.

Lemma sum_targets_spec limit n h p b tot :
  links_ok h -> bits_ok limit h -> h !! p = Some b -> uint_ok tot ->
  lval tot + Z.of_nat n * limit < M256 ->
  exists tot' first, sum_targets n h (Some p) tot = Ok (tot', first) /\ uint_ok tot' /\
    lval tot' <= lval tot + Z.of_nat n * limit /\
    (forall q, first = Some q -> is_Some (h !! q)).
Proof.
  intros Hl Hb. revert p b tot. induction n as [|n IH]; intros p b tot Hp Ht Hlt.
  { exists tot, (Some p). split; [done|]. split; [done|]. split; [lia|]. intros q [= <-]. by rewrite Hp. }
  destruct (Hb p b Hp) as [Hbr Hble]. pose proof (SetCompact_ok _ Hbr) as Hok.
  pose proof (uint_ok_range _ Hok) as Hr. pose proof (uint_ok_range _ Ht).
  cbn [sum_targets]. unfold lift_chain. rewrite (deref_Ok _ _ _ Hp). cbn [res_bind].
  destruct (uint_add_spec tot _ Ht Hok) as [Hao Hav]. rewrite Z.mod_small in Hav by nia.
  pose proof (Hl p b Hp) as [_ Hpp]. cbn in Hpp. destruct (pprev b) as [q|].
  - destruct Hpp as (bq & Hq & _). destruct (IH q bq (uint_add tot (SetCompact (nBits b)).1.1) Hq Hao ltac:(nia))
      as (tot' & first & Hs & Ho & Hv & Hf). exists tot', first. split; [done|]. split; [done|]. split; [nia|done].
  - eexists _, None. split; [by destruct n|]. split; [done|]. split; [nia|done].
Qed.

Lemma median_past h p b : links_ok h -> h !! p = Some b -> exists m, GetMedianTimePast h p = Ok m.
Proof.
  intros Hl Hp. destruct (last_times_total nMedianTimeSpan h p b Hl Hp) as (l & El & Hlen).
  pose proof (Hl p b Hp) as [H0 _]. cbn in H0. unfold GetMedianTimePast. rewrite El. cbn [res_bind].
  pose proof (Permutation_length (sorting.merge_sort_Permutation Z.le l)) as Hpl.
  assert (length l / 2 < length l)%nat by (apply Nat.div_lt; unfold nMedianTimeSpan in *; lia).
  destruct (lookup_lt_is_Some_2 (sorting.merge_sort Z.le l) (length l / 2) ltac:(lia)) as [m Hm].
  exists m. by rewrite Hpl, Hm.
Qed.

(** On a well-formed tree whose blocks respect the limit, the required work of the next
    block is always computed (no failed assertion, division by zero or bad pointer), decodes
    without sign or overflow, and after the ingest period asks for a target not easier than
    the limit. *)
Theorem next_work_correct h pl b pblock params :
  pow_params_ok params -> links_ok h -> bits_ok (le_val (powLimit params)) h -> h !! pl = Some b ->
  exists c r, GetNextWorkRequired h (Some pl) pblock params = Ok c /\ 0 <= c < 2 ^ 32 /\
    SetCompact c = (r, false, false) /\
    (isRegTest params = true \/ TOP_INGEST_BLOCK <= u32 (nHeight b) ->
     lval r <= le_val (powLimit params)).
Proof.
  intros Hp Hl Hb Hpl. destruct (UintToArith256_spec _ (ok_limit _ Hp)) as [Hlo Hlv].
  pose proof (uint_ok_range _ Hlo) as Hlr. rewrite Hlv in Hlr.
  unfold GetNextWorkRequired. destruct (compact_of_spec _ Hlo) as (cl & rl & -> & Hcl & Hsl & Hrl & Hal).
  rewrite Hlv in Hal. pose proof (compact_approx_le (le_val (powLimit params)) _ (le_val (powLimit params)) ltac:(lia) Hal) as Hle.
  assert (exists c r, Ok (E := pow_fail) cl = Ok c /\ 0 <= c < 2 ^ 32 /\ SetCompact c = (r, false, false) /\
    (isRegTest params = true \/ TOP_INGEST_BLOCK <= u32 (nHeight b) -> lval r <= le_val (powLimit params))) as Hlimit.
  { exists cl, rl. split; [done|]. split; [done|]. split; [done|]. intros _. lia. }
  cbn [res_bind]. unfold lift_chain at 1. rewrite (deref_Ok _ _ _ Hpl). cbn [res_bind].
  assert (uint256_ok ingest_target_1 /\ uint256_ok ingest_target_2) as [Hi1 Hi2]
    by (split; (split; [repeat constructor; vm_compute; done|done])).
  destruct (negb (isRegTest params) && (u32 (nHeight b) <? TOP_INGEST_BLOCK - 99)) eqn:E1.
  { destruct (compact_of_spec _ (proj1 (UintToArith256_spec _ Hi1))) as (c & r & -> & Hc & Hs & _).
    exists c, r. split; [done|]. split; [done|]. split; [done|]. zbool. intros [?|?]; [congruence|lia]. }
  destruct (negb (isRegTest params) && (u32 (nHeight b) <? TOP_INGEST_BLOCK)) eqn:E2.
  { destruct (compact_of_spec _ (proj1 (UintToArith256_spec _ Hi2))) as (c & r & -> & Hc & Hs & _).
    exists c, r. split; [done|]. split; [done|]. split; [done|]. zbool. intros [?|?]; [congruence|lia]. }
  match goal with |- context [if ?x then Ok cl else _] => destruct x; [exact Hlimit|] end.
  match goal with |- context [if ?x then Ok cl else _] => destruct x; [exact Hlimit|] end.
  pose proof (ok_window _ Hp) as Hw. pose proof (ok_timespan _ Hp) as Hts. pose proof (ok_spacing _ Hp) as Hsp.
  destruct uint_zero_ok as [Hz Hz0].
  destruct (sum_targets_spec (le_val (powLimit params)) (Z.to_nat (nPowAveragingWindow params)) h pl b uint_zero)
    as (tot & first & -> & Hto & Htv & Hf); try done.
  { rewrite Hz0, Z2Nat.id by lia. pose proof (ok_limit_window _ Hp). lia. }
  rewrite Hz0, Z2Nat.id in Htv by lia. cbn [res_bind fst snd]. destruct first as [q|]; [|exact Hlimit].
  destruct (Hf q eq_refl) as [bq Hq]. rewrite u64_id by nia.
  destruct (uint_of_u64_spec (nPowAveragingWindow params) ltac:(nia)) as [Hwo Hwv].
  pose proof (uint_div_spec tot _ Hto Hwo) as Hd. rewrite Hwv in Hd.
  destruct (Z.eqb_spec (nPowAveragingWindow params) 0); [lia|]. destruct Hd as (avg & -> & Hao & Hav).
  destruct (median_past h pl b Hl Hpl) as [m1 ->]. destruct (median_past h q bq Hl Hq) as [m2 ->].
  cbn [lift_uint lift_chain res_bind].
  destruct (CalculateNextWorkRequired_spec params avg m1 m2 Hp Hao) as (c & r & -> & Hc & Hs & _ & Happ).
  { rewrite Hav. apply Z.div_le_upper_bound; nia. }
  exists c, r. split; [done|]. split; [done|]. split; [done|]. intros _.
  eapply compact_approx_le; [|exact Happ]. unfold scaled_target, window. pose proof (actual_timespan_bounds params m1 m2 Hp).
  destruct (timespan_bounds params Hp) as (_ & ? & ? & _). cbv zeta in *. pose proof (uint_ok_range avg Hao).
  split; [|apply Z.le_min_l]. apply Z.min_glb; [lia|]. apply Z.mul_nonneg_nonneg; [apply Z.div_pos; lia|lia].
Qed.

(** ** Concrete parameters *)

(** The main network, with a window of two blocks and without the ingest period. *)
Definition demo_params : PowParams := {|
  powLimit := replicate 30 0xff ++ [0x07; 0x00];
  nPowAllowMinDifficultyBlocksAfterHeight := None;
  nPowSetMinDifficultyAfterHeight := None;
  nPowAveragingWindow := 2;
  nPowMaxAdjustDown := 32;
  nPowMaxAdjustUp := 16;
  nPowTargetSpacing := 150;
  isRegTest := true
|}.

Lemma demo_params_ok : pow_params_ok demo_params.
Proof.
  split; try (vm_compute; done). split; [|done]. repeat constructor; vm_compute; done.
Qed.

Lemma demo_bits_ok : bits_ok (le_val (powLimit demo_params)) demo_tree.
Proof. intros p b Hp. demo_cases Hp; vm_compute; done. Qed.

Lemma CheckProofOfWork_correct_witness :
  CheckProofOfWork (replicate 28 7 ++ replicate 4 0) 0x1d00ffff demo_params = true.
Proof.
  apply (CheckProofOfWork_correct (replicate 28 7 ++ replicate 4 0) 0x1d00ffff demo_params).
  - split; [repeat constructor; vm_compute; done|done].
  - exact (ok_limit _ demo_params_ok).
  - lia.
  - eexists. split; [vm_compute; reflexivity|]. vm_compute. done.
Defined.

Lemma GetBlockProof_correct_witness :
  exists w, GetBlockProof 0x1d00ffff = Ok w /\ uint_ok w /\ lval w = 0x100010001.
Proof.
  destruct (GetBlockProof_correct 0x1d00ffff ltac:(lia)) as (w & Hw & Hok & Hv). exists w.
  split; [exact Hw|]. split; [exact Hok|]. rewrite Hv. vm_compute. reflexivity.
Defined.

Lemma difficulty_adjustment_witness :
  exists c r, CalculateNextWorkRequired (uint_shl (uint_of_u64 1) 200) 1000 400 demo_params = Ok c /\
    SetCompact c = (r, false, false) /\ lval r <= 2 ^ 200 / 300 * 375.
Proof.
  assert (uint_ok (uint_shl (uint_of_u64 1) 200)) as Ha.
  { split; [|reflexivity]. repeat constructor; vm_compute; done. }
  destruct (difficulty_adjustment demo_params _ 1000 400 demo_params_ok Ha ltac:(vm_compute; done) ltac:(lia) ltac:(lia))
    as (c & r & Hc & _ & Hs & [_ Hr] & _). exists c, r. split; [exact Hc|]. split; [exact Hs|].
  replace (2 ^ 200 / 300 * 375) with (next_target demo_params (lval (uint_shl (uint_of_u64 1) 200)) (1000 - 400)) by (vm_compute; reflexivity). exact Hr.
Defined.

Lemma next_work_correct_witness :
  exists c r, GetNextWorkRequired demo_tree (Some 6%positive) None demo_params = Ok c /\ 0 <= c < 2 ^ 32 /\
    SetCompact c = (r, false, false) /\
    (isRegTest demo_params = true \/ TOP_INGEST_BLOCK <= u32 3 -> lval r <= le_val (powLimit demo_params)).
Proof.
  exact (next_work_correct demo_tree 6 _ None demo_params demo_params_ok demo_links demo_bits_ok eq_refl).
Defined.
