(* ===== verification/Upgrades.v ===== *)
(** * Network upgrades

    [consensus/upgrades.cpp] with the upgrade table of [consensus/params.h]: which consensus
    rules (epoch, branch id) apply at a height. *)

From S2P Require Import Prelude.

(** [Consensus::UpgradeIndex] *)
Inductive UpgradeIndex : Set :=
| BASE_SPROUT
| UPGRADE_TESTDUMMY
| UPGRADE_OVERWINTER
| UPGRADE_SAPLING
| UPGRADE_CEZANNE
| UPGRADE_MONET
| UPGRADE_VERMEER
| UPGRADE_MATISSE.

#[export] Instance UpgradeIndex_eq_dec : EqDecision UpgradeIndex.
Proof. solve_decision. Defined.

(** The underlying integers, in order. *)
Definition all_upgrades : list UpgradeIndex :=
  [BASE_SPROUT; UPGRADE_TESTDUMMY; UPGRADE_OVERWINTER; UPGRADE_SAPLING; UPGRADE_CEZANNE;
   UPGRADE_MONET; UPGRADE_VERMEER; UPGRADE_MATISSE].

Definition upgrade_num (idx : UpgradeIndex) : nat :=
  match idx with
  | BASE_SPROUT => 0 | UPGRADE_TESTDUMMY => 1 | UPGRADE_OVERWINTER => 2 | UPGRADE_SAPLING => 3
  | UPGRADE_CEZANNE => 4 | UPGRADE_MONET => 5 | UPGRADE_VERMEER => 6 | UPGRADE_MATISSE => 7
  end.

(** [NetworkUpgradeInfo[..].nBranchId] *)
Definition GetUpgradeBranchId (idx : UpgradeIndex) : Z :=
  match idx with
  | BASE_SPROUT => 0
  | UPGRADE_TESTDUMMY => 0x74736554
  | UPGRADE_OVERWINTER => 0x5ba81b19
  | UPGRADE_SAPLING => 0x76b809bb
  | UPGRADE_CEZANNE => 0x26ab2455
  | UPGRADE_MONET => 0x017014e2
  | UPGRADE_VERMEER => 0x5EFAAEEF
  | UPGRADE_MATISSE => 0x5EFAAEEF
  end.

Record NetworkUpgrade := { nProtocolVersion : Z; nActivationHeight : Z }.

Definition ALWAYS_ACTIVE : Z := 0.
Definition NO_ACTIVATION_HEIGHT : Z := UINT32_MAX.

(** [Params::vUpgrades] *)
Definition upgrade_table : Type := UpgradeIndex -> NetworkUpgrade.

Definition AddNetworkUpgrade (t : upgrade_table) (idx : UpgradeIndex) (nProtocolVersion nActivationHeight : Z)
  : upgrade_table :=
  fun i => if decide (i = idx)
           then {| nProtocolVersion := nProtocolVersion; nActivationHeight := nActivationHeight |} else t i.

Definition UpdateNetworkUpgradeParameters (t : upgrade_table) (idx : UpgradeIndex) (nActivationHeight : Z)
  : upgrade_table :=
  fun i => if decide (i = idx)
           then {| nProtocolVersion := nProtocolVersion (t i); nActivationHeight := nActivationHeight |} else t i.

Inductive UpgradeState : Set := UPGRADE_DISABLED | UPGRADE_PENDING | UPGRADE_ACTIVE.

#[export] Instance UpgradeState_eq_dec : EqDecision UpgradeState.
Proof. solve_decision. Defined.

Definition NetworkUpgradeState (nHeight : Z) (params : upgrade_table) (idx : UpgradeIndex) : UpgradeState :=
  if nActivationHeight (params idx) =? NO_ACTIVATION_HEIGHT then UPGRADE_DISABLED
  else if nHeight >=? nActivationHeight (params idx) then UPGRADE_ACTIVE
  else UPGRADE_PENDING.

Definition NetworkUpgradeActive (nHeight : Z) (params : upgrade_table) (idx : UpgradeIndex) : bool :=
  bool_decide (NetworkUpgradeState nHeight params idx = UPGRADE_ACTIVE).

(** The loop from the last upgrade down. *)
Definition CurrentEpoch (nHeight : Z) (params : upgrade_table) : UpgradeIndex :=
  default BASE_SPROUT (list_find (fun idx => NetworkUpgradeActive nHeight params idx = true)
                         (rev all_upgrades) ≫= fun r => Some r.2).

Definition CurrentEpochBranchId (nHeight : Z) (params : upgrade_table) : Z :=
  GetUpgradeBranchId (CurrentEpoch nHeight params).

Definition IsConsensusBranchId (branchId : Z) : bool :=
  existsb (fun idx => branchId =? GetUpgradeBranchId idx) all_upgrades.

Definition IsActivationHeight (nHeight : Z) (params : upgrade_table) (idx : UpgradeIndex) : bool :=
  if decide (idx = BASE_SPROUT) then false
  else negb (nHeight =? NO_ACTIVATION_HEIGHT) && (nHeight =? nActivationHeight (params idx)).

Definition IsActivationHeightForAnyUpgrade (nHeight : Z) (params : upgrade_table) : bool :=
  if nHeight =? NO_ACTIVATION_HEIGHT then false
  else existsb (fun idx => nHeight =? nActivationHeight (params idx)) (drop 1 all_upgrades).

Definition NextEpoch (nHeight : Z) (params : upgrade_table) : option UpgradeIndex :=
  if nHeight =? NO_ACTIVATION_HEIGHT then None
  else list_find (fun idx => NetworkUpgradeState nHeight params idx = UPGRADE_PENDING)
         (drop 1 all_upgrades) ≫= fun r => Some r.2.

Definition NextActivationHeight (nHeight : Z) (params : upgrade_table) : option Z :=
  idx ← NextEpoch nHeight params; Some (nActivationHeight (params idx)).

(** ** Well-formed tables *)

(** Activation heights are 32-bit, Sprout is active from the start, and the enabled upgrades
    activate in the order of the enumeration. *)
Record upgrades_ok (t : upgrade_table) : Prop := {
  heights_u32 : forall i, 0 <= nActivationHeight (t i) <= UINT32_MAX;
  sprout_active : nActivationHeight (t BASE_SPROUT) = ALWAYS_ACTIVE;
  heights_sorted : forall i j, (upgrade_num i <= upgrade_num j)%nat ->
    nActivationHeight (t j) <> NO_ACTIVATION_HEIGHT -> nActivationHeight (t i) <> NO_ACTIVATION_HEIGHT ->
    nActivationHeight (t i) <= nActivationHeight (t j)
}.

Lemma active_spec h t i :
  NetworkUpgradeActive h t i = true <->
  nActivationHeight (t i) <> NO_ACTIVATION_HEIGHT /\ nActivationHeight (t i) <= h.
Proof.
  unfold NetworkUpgradeActive, NetworkUpgradeState. rewrite bool_decide_eq_true, Z.geb_leb.
  destruct (Z.eqb_spec (nActivationHeight (t i)) NO_ACTIVATION_HEIGHT); [split; [done|lia]|].
  destruct (Z.leb_spec (nActivationHeight (t i)) h); split; done || lia.
Qed.

(** Positions in the enumeration. *)
Lemma upgrades_lookup n i : all_upgrades !! n = Some i <-> upgrade_num i = n.
Proof.
  split; [|intros <-; by destruct i].
  do 8 (destruct n as [|n]; [by intros [= <-]|]). done.
Qed.

Lemma rev_upgrades_lookup n i : rev all_upgrades !! n = Some i <-> (upgrade_num i + n = 7)%nat.
Proof.
  split; [|intros H; replace n with (7 - upgrade_num i)%nat by lia; by destruct i].
  do 8 (destruct n as [|n]; [by intros [= <-]|]). done.
Qed.

(** [CurrentEpoch] is the last upgrade that is active. *)
Lemma CurrentEpoch_spec h t :
  (forall j, NetworkUpgradeActive h t j = true -> (upgrade_num j <= upgrade_num (CurrentEpoch h t))%nat) /\
  (CurrentEpoch h t = BASE_SPROUT \/ NetworkUpgradeActive h t (CurrentEpoch h t) = true).
Proof.
  unfold CurrentEpoch. destruct (list_find _ _) as [[n i]|] eqn:E.
  - apply list_find_Some in E as (Hi & Ha & Hbefore). cbn [mbind option_bind snd default from_option id].
    split; [|by right]. intros j Hj. destruct (decide (upgrade_num j <= upgrade_num i)%nat); [done|exfalso].
    apply rev_upgrades_lookup in Hi.
    assert (upgrade_num j <= 7)%nat by (destruct j; cbn; lia).
    apply (Hbefore (7 - upgrade_num j)%nat j); [apply rev_upgrades_lookup; lia|lia|done].
  - apply list_find_None in E. cbn [mbind option_bind default from_option id]. split; [|by left].
    intros j Hj. exfalso. rewrite Forall_forall in E. apply (E j); [|done].
    apply list_elem_of_lookup. exists (7 - upgrade_num j)%nat. apply rev_upgrades_lookup. destruct j; cbn; lia.
Qed.

(** The epoch never goes back: heights only move forward through the upgrades, and where
    the epoch changes from one block to the next, the later block is at the activation height
    of the new epoch. *)
Theorem epoch_monotone t h1 h2 :
  upgrades_ok t -> 0 <= h1 <= h2 -> h2 < UINT32_MAX ->
  (upgrade_num (CurrentEpoch h1 t) <= upgrade_num (CurrentEpoch h2 t))%nat /\
  (h2 = h1 + 1 -> CurrentEpoch h1 t <> CurrentEpoch h2 t ->
   IsActivationHeight h2 t (CurrentEpoch h2 t) = true /\ IsActivationHeightForAnyUpgrade h2 t = true).
Proof.
  intros Ht Hh Hmax. destruct (CurrentEpoch_spec h1 t) as [Hmax1 Hact1]. destruct (CurrentEpoch_spec h2 t) as [Hmax2 Hact2].
  assert (forall j, NetworkUpgradeActive h1 t j = true -> NetworkUpgradeActive h2 t j = true) as Hmono.
  { intros j. rewrite !active_spec. lia. }
  assert (upgrade_num (CurrentEpoch h1 t) <= upgrade_num (CurrentEpoch h2 t))%nat as Hle.
  { destruct Hact1 as [->|Ha]; [cbn; lia|]. by apply Hmax2, Hmono. }
  split; [done|]. intros -> Hne.
  assert (forall i, upgrade_num i = 0%nat -> i = BASE_SPROUT) as H0 by (intros i; by destruct i).
  assert (forall i j, upgrade_num i = upgrade_num j -> i = j) as Hinj.
  { intros i j E. apply (f_equal (fun n => all_upgrades !! n)) in E.
    rewrite (proj2 (upgrades_lookup _ i) eq_refl), (proj2 (upgrades_lookup _ j) eq_refl) in E. by injection E. }
  assert (upgrade_num (CurrentEpoch h1 t) < upgrade_num (CurrentEpoch (h1 + 1) t))%nat as Hlt.
  { destruct (decide (upgrade_num (CurrentEpoch h1 t) = upgrade_num (CurrentEpoch (h1 + 1) t))) as [E|]; [|lia].
    by apply Hinj in E. }
  set (e := CurrentEpoch (h1 + 1) t) in *.
  assert (e <> BASE_SPROUT) as Hns by (intros E; rewrite E in Hlt; cbn in Hlt; lia).
  destruct Hact2 as [?|Ha2]; [done|]. apply active_spec in Ha2 as [Hn2 Hle2].
  assert (~ (nActivationHeight (t e) <= h1)) as Hnot.
  { intros Hx. assert (NetworkUpgradeActive h1 t e = true) as Hx1 by (apply active_spec; done).
    apply Hmax1 in Hx1. lia. }
  assert (nActivationHeight (t e) = h1 + 1) as Eh by lia.
  assert ((h1 + 1 =? NO_ACTIVATION_HEIGHT) = false) as En by (apply Z.eqb_neq; unfold NO_ACTIVATION_HEIGHT; lia).
  unfold IsActivationHeight, IsActivationHeightForAnyUpgrade. rewrite decide_False by done.
  rewrite En, Eh, Z.eqb_refl. split; [done|]. apply existsb_exists. exists e. split; [|by rewrite Eh, Z.eqb_refl].
  apply list_elem_of_In, list_elem_of_lookup. exists (upgrade_num e - 1)%nat. rewrite lookup_drop.
  apply upgrades_lookup. assert (upgrade_num e <> 0)%nat by (intros E; by apply H0 in E). lia.
Qed.

(** The next activation height is the first height after the given one at which an
    upgrade activates, and there is none exactly when no upgrade is pending. *)
Theorem next_activation_correct t h :
  upgrades_ok t -> 0 <= h < UINT32_MAX ->
  match NextActivationHeight h t with
  | Some a => h < a < UINT32_MAX /\ IsActivationHeightForAnyUpgrade a t = true /\
      forall k, h < k < a -> IsActivationHeightForAnyUpgrade k t = false
  | None => forall k, h < k <= UINT32_MAX -> IsActivationHeightForAnyUpgrade k t = false
  end.
Proof.
  intros Ht Hh. unfold NextActivationHeight, NextEpoch.
  destruct (Z.eqb_spec h NO_ACTIVATION_HEIGHT) as [Eh|Eh]; [unfold NO_ACTIVATION_HEIGHT in *; lia|].
  assert (forall i, NetworkUpgradeState h t i = UPGRADE_PENDING <->
    nActivationHeight (t i) <> NO_ACTIVATION_HEIGHT /\ h < nActivationHeight (t i)) as Hpend.
  { intros i. unfold NetworkUpgradeState. rewrite Z.geb_leb.
    destruct (Z.eqb_spec (nActivationHeight (t i)) NO_ACTIVATION_HEIGHT); [split; [done|lia]|].
    destruct (Z.leb_spec (nActivationHeight (t i)) h); split; done || lia. }
  assert (forall k, IsActivationHeightForAnyUpgrade k t = true ->
    k <> NO_ACTIVATION_HEIGHT /\ exists i n, drop 1 all_upgrades !! n = Some i /\ k = nActivationHeight (t i)) as Hany.
  { intros k. unfold IsActivationHeightForAnyUpgrade. destruct (Z.eqb_spec k NO_ACTIVATION_HEIGHT) as [Ek|Ek]; [done|].
    intros (i & Hi & Hk)%existsb_exists. apply Z.eqb_eq in Hk. apply list_elem_of_In, list_elem_of_lookup in Hi as [n Hn].
    split; [done|]. by exists i, n. }
  destruct (list_find _ _) as [[n i]|] eqn:E; cbn [mbind option_bind snd].
  - apply list_find_Some in E as (Hi & Hp & Hbefore). apply Hpend in Hp as [Hp1 Hp2].
    pose proof (heights_u32 t Ht i). unfold NO_ACTIVATION_HEIGHT in Hp1. split; [lia|]. split.
    + unfold IsActivationHeightForAnyUpgrade, NO_ACTIVATION_HEIGHT.
      destruct (Z.eqb_spec (nActivationHeight (t i)) UINT32_MAX); [done|]. apply existsb_exists.
      exists i. split; [|by rewrite Z.eqb_refl]. apply list_elem_of_In. by eapply list_elem_of_lookup_2.
    + intros k Hk. apply not_true_is_false. intros Hka. apply Hany in Hka as (Hkn & j & m & Hj & ->).
      rewrite lookup_drop in Hi, Hj. apply upgrades_lookup in Hi, Hj.
      destruct (decide (m < n)%nat) as [Hlt|Hge].
      * apply (Hbefore m j); [rewrite lookup_drop; by apply upgrades_lookup|done|]. apply Hpend. split; [done|lia].
      * pose proof (heights_sorted t Ht i j ltac:(lia) Hkn Hp1). lia.
  - apply list_find_None in E. intros k Hk. apply not_true_is_false. intros Hka.
    apply Hany in Hka as (Hkn & j & m & Hj & ->). rewrite Forall_forall in E.
    apply (E j); [by eapply list_elem_of_lookup_2|]. apply Hpend. split; [done|lia].
Qed.

(** The branch ids of distinct epochs are distinct, with one exception: Matisse was given the branch id of Vermeer, so the two epochs accept each
    other's transaction signatures. *)
Lemma branch_ids_distinct i j :
  GetUpgradeBranchId i = GetUpgradeBranchId j <->
  i = j \/ (i = UPGRADE_VERMEER /\ j = UPGRADE_MATISSE) \/ (i = UPGRADE_MATISSE /\ j = UPGRADE_VERMEER).
Proof.
  split; [|intros [->|[[-> ->]|[-> ->]]]; done].
  destruct i, j; cbn; intros E; try discriminate E; auto.
Qed.

(** ** A concrete table *)

Definition demo_upgrades : upgrade_table := fun i =>
  {| nProtocolVersion := 170002;
     nActivationHeight :=
       match i with
       | BASE_SPROUT => 0 | UPGRADE_TESTDUMMY => NO_ACTIVATION_HEIGHT
       | UPGRADE_OVERWINTER => 10 | UPGRADE_SAPLING => 20 | UPGRADE_CEZANNE => 30
       | UPGRADE_MONET => 40 | UPGRADE_VERMEER => 50 | UPGRADE_MATISSE => NO_ACTIVATION_HEIGHT
       end |}.

Lemma demo_upgrades_ok : upgrades_ok demo_upgrades.
Proof.
  split.
  - intros i. destruct i; vm_compute; done.
  - reflexivity.
  - intros i j Hij Hj Hi. destruct i, j; cbn in *; try lia; try done.
Qed.

Lemma epoch_monotone_witness :
  IsActivationHeight 40 demo_upgrades (CurrentEpoch 40 demo_upgrades) = true.
Proof.
  apply (epoch_monotone demo_upgrades 39 40 demo_upgrades_ok); [lia|vm_compute; done|lia|].
  vm_compute. done.
Defined.

Lemma next_activation_correct_witness :
  NextActivationHeight 25 demo_upgrades = Some 30 /\
  (25 < 30 < UINT32_MAX /\ IsActivationHeightForAnyUpgrade 30 demo_upgrades = true /\
   forall k, 25 < k < 30 -> IsActivationHeightForAnyUpgrade k demo_upgrades = false).
Proof.
  split; [vm_compute; reflexivity|].
  exact (next_activation_correct demo_upgrades 25 demo_upgrades_ok ltac:(vm_compute; done)).
Defined.
