(* ===== verification/IncrementalMerkle.v ===== *)
(** * Note commitment trees

    [zcash/IncrementalMerkleTree.hpp] and [zcash/IncrementalMerkleTree.cpp]: the append-only
    Merkle tree of note commitments that keeps one hash per level, and the witnesses that
    follow a leaf while the tree grows.  The template parameters are the section variable
    [Depth] and the class [MerkleHash]; a [size_t] that counts levels is a [nat].

    The reference is [complete_root]: the root of a complete binary tree over the leaves,
    padded with uncommitted ones. *)

From S2P Require Import Prelude.

Class MerkleHash := {
  combine : bytes -> bytes -> nat -> bytes;
  uncommitted : bytes
}.

(** The exceptions the functions throw. *)
Inductive tree_fail : Set :=
| tree_is_full
| tree_has_no_cursor
| no_authentication_path
| index_out_of_range
| too_many_parents
| non_canonical_parent
| non_canonical_right
| non_canonical_parents
| vector_too_long.

Definition INCREMENTAL_MERKLE_TREE_DEPTH : nat := 29.
Definition INCREMENTAL_MERKLE_TREE_DEPTH_TESTING : nat := 4.
Definition SAPLING_INCREMENTAL_MERKLE_TREE_DEPTH : nat := 32.

(** ** [zcash/util.cpp] *)

Definition convertBytesVectorToVector (v : bytes) : list bool :=
  flat_map (fun c => map (fun j => Z.testbit c (7 - Z.of_nat j)) (seq 0 8)) v.

(** The loop of [convertVectorToInt]; [n] is [v.size() - 1 - i]. *)
Fixpoint vector_to_int_loop (v : list bool) (result : Z) : Z :=
  match v with
  | [] => result
  | b :: v => vector_to_int_loop v (if b then Z.lor result (u64 (2 ^ zlen v)) else result)
  end.

Definition convertVectorToInt (v : list bool) : res tree_fail Z :=
  if zlen v >? 64 then Err vector_too_long else Ok (vector_to_int_loop v 0).

Record MerklePath := { authentication_path : list (list bool); index : list bool }.

Record IncrementalMerkleTree := {
  left : option bytes;
  right : option bytes;
  parents : list (option bytes)
}.

Record IncrementalWitness := {
  tree : IncrementalMerkleTree;
  filled : list bytes;
  cursor : option IncrementalMerkleTree;
  cursor_depth : nat
}.

Definition is_some {A : Type} (o : option A) : bool := match o with Some _ => true | None => false end.

Section Tree.
Context `{MerkleHash} (Depth : nat).

(** [EmptyMerkleRoots]: the entries of the array, and the bounds check of [at]. *)
Fixpoint empty_roots (d : nat) : bytes :=
  match d with
  | O => uncommitted
  | S d => combine (empty_roots d) (empty_roots d) d
  end.

Definition empty_root (depth : nat) : res tree_fail bytes :=
  if (depth <=? Depth)%nat then Ok (empty_roots depth) else Err index_out_of_range.

(** [PathFiller::next]: the queue is the state. *)
Definition next (queue : list bytes) (depth : nat) : res tree_fail (bytes * list bytes) :=
  match queue with
  | h :: queue => Ok (h, queue)
  | [] => let? h := empty_root depth in Ok (h, [])
  end.

Definition new_tree : IncrementalMerkleTree := {| left := None; right := None; parents := [] |}.

Definition wfcheck (t : IncrementalMerkleTree) : res tree_fail unit :=
  check negb (Depth <=? length (parents t))%nat else too_many_parents;;
  check negb (match last (parents t) with Some None => true | _ => false end) else non_canonical_parent;;
  check negb (negb (is_some (left t)) && is_some (right t)) else non_canonical_right;;
  guard_err (negb (negb (is_some (left t)) && (0 <? length (parents t))%nat)) non_canonical_parents.

Definition last_leaf (t : IncrementalMerkleTree) : res tree_fail bytes :=
  match right t, left t with
  | Some r, _ => Ok r
  | None, Some l => Ok l
  | None, None => Err tree_has_no_cursor
  end.

Definition DynamicMemoryUsage (t : IncrementalMerkleTree) : Z := 32 + 32 + zlen (parents t) * 32.

Fixpoint size_loop (i : Z) (ps : list (option bytes)) (ret : Z) : Z :=
  match ps with
  | [] => ret
  | p :: ps => size_loop (i + 1) ps (if is_some p then u64 (ret + u64 (2 ^ (i + 1))) else ret)
  end.

Definition size (t : IncrementalMerkleTree) : Z :=
  let ret := 0 in
  let ret := if is_some (left t) then ret + 1 else ret in
  let ret := if is_some (right t) then ret + 1 else ret in
  size_loop 0 (parents t) ret.

(** The test reads [parents.size() != depth - 1], which a depth of zero never satisfies. *)
Definition is_complete (t : IncrementalMerkleTree) (depth : nat) : bool :=
  is_some (left t) && is_some (right t) && (S (length (parents t)) =? depth)%nat && forallb is_some (parents t).

(** The loop of [append] from index [i]; [n] iterations are left. *)
Fixpoint append_loop (n i : nat) (ps : list (option bytes)) (combined : bytes) : list (option bytes) :=
  match n with
  | O => ps
  | S n =>
      match ps with
      | Some p :: ps => None :: append_loop n (S i) ps (combine p combined (i + 1))
      | None :: ps => Some combined :: ps
      | [] => [Some combined]
      end
  end.

Definition append (t : IncrementalMerkleTree) (obj : bytes) : res tree_fail IncrementalMerkleTree :=
  if is_complete t Depth then Err tree_is_full
  else
    match left t, right t with
    | None, _ => Ok {| left := Some obj; right := right t; parents := parents t |}
    | Some _, None => Ok {| left := left t; right := Some obj; parents := parents t |}
    | Some l, Some r =>
        Ok {| left := Some obj; right := None; parents := append_loop Depth 0 (parents t) (combine l r 0) |}
    end.

(** [next_depth]: one level, then the loop over the parents. *)
Fixpoint next_depth_loop (ps : list (option bytes)) (d skip : nat) : nat :=
  match ps with
  | [] => d + skip
  | Some _ :: ps => next_depth_loop ps (S d) skip
  | None :: ps =>
      match skip with
      | O => d
      | S skip => next_depth_loop ps (S d) skip
      end
  end.

Definition next_depth (t : IncrementalMerkleTree) (skip : nat) : nat :=
  match left t, skip with
  | None, O => 0
  | _, _ =>
      let skip := if is_some (left t) then skip else Nat.pred skip in
      match right t, skip with
      | None, O => 0
      | _, _ =>
          let skip := if is_some (right t) then skip else Nat.pred skip in
          next_depth_loop (parents t) 1 skip
      end
  end.

(** [root]: the loop over the parents, then the levels above them. *)
Fixpoint root_parents (ps : list (option bytes)) (d : nat) (root : bytes) (q : list bytes)
  : res tree_fail (bytes * nat * list bytes) :=
  match ps with
  | [] => Ok (root, d, q)
  | Some parent :: ps => root_parents ps (S d) (combine parent root d) q
  | None :: ps => let? r := next q d in root_parents ps (S d) (combine root r.1 d) r.2
  end.

Fixpoint root_above (n d : nat) (root : bytes) (q : list bytes) : res tree_fail bytes :=
  match n with
  | O => Ok root
  | S n => let? r := next q d in root_above n (S d) (combine root r.1 d) r.2
  end.

(** A leaf of the tree, or the next filler. *)
Definition or_next (o : option bytes) (q : list bytes) (d : nat) : res tree_fail (bytes * list bytes) :=
  match o with Some h => Ok (h, q) | None => next q d end.

Definition root (t : IncrementalMerkleTree) (depth : nat) (filler_hashes : list bytes) : res tree_fail bytes :=
  let? combine_left := or_next (left t) filler_hashes 0 in
  let? combine_right := or_next (right t) combine_left.2 0 in
  let root := combine combine_left.1 combine_right.1 0 in
  let? r := root_parents (parents t) 1 root combine_right.2 in
  let '(root, d, q) := r in
  root_above (depth - d) d root q.

(** [path]: the sibling and the direction at every level, leaf first. *)
Fixpoint path_parents (ps : list (option bytes)) (d : nat) (q : list bytes)
  : res tree_fail (list (bool * bytes) * nat * list bytes) :=
  match ps with
  | [] => Ok ([], d, q)
  | Some parent :: ps => let? r := path_parents ps (S d) q in Ok ((true, parent) :: r.1.1, r.1.2, r.2)
  | None :: ps =>
      let? f := next q d in
      let? r := path_parents ps (S d) f.2 in Ok ((false, f.1) :: r.1.1, r.1.2, r.2)
  end.

Fixpoint path_above (n d : nat) (q : list bytes) : res tree_fail (list (bool * bytes)) :=
  match n with
  | O => Ok []
  | S n => let? f := next q d in let? r := path_above n (S d) f.2 in Ok ((false, f.1) :: r)
  end.

Definition path_steps (t : IncrementalMerkleTree) (filler_hashes : list bytes) : res tree_fail (list (bool * bytes)) :=
  match left t with
  | None => Err no_authentication_path
  | Some l =>
      let? first := (match right t with
                     | Some _ => Ok ((true, l), filler_hashes)
                     | None => let? f := next filler_hashes 0 in Ok ((false, f.1), f.2)
                     end) in
      let? r := path_parents (parents t) 1 first.2 in
      let '(steps, d, q) := r in
      let? above := path_above (Depth - d) d q in
      Ok (first.1 :: steps ++ above)
  end.

Definition path (t : IncrementalMerkleTree) (filler_hashes : list bytes) : res tree_fail MerklePath :=
  let? steps := path_steps t filler_hashes in
  Ok {| authentication_path := rev (map (fun s => convertBytesVectorToVector s.2) steps);
        index := rev (map fst steps) |}.

(** ** [IncrementalWitness] *)

Definition witness (t : IncrementalMerkleTree) : IncrementalWitness :=
  {| tree := t; filled := []; cursor := None; cursor_depth := 0 |}.

Definition partial_path (w : IncrementalWitness) : res tree_fail (list bytes) :=
  match cursor w with
  | Some c => let? r := root c (cursor_depth w) [] in Ok (filled w ++ [r])
  | None => Ok (filled w)
  end.

Definition witness_path (w : IncrementalWitness) : res tree_fail MerklePath :=
  let? q := partial_path w in path (tree w) q.
Definition element (w : IncrementalWitness) : res tree_fail bytes := last_leaf (tree w).
Definition position (w : IncrementalWitness) : Z := u64 (size (tree w) - 1).
Definition witness_root (w : IncrementalWitness) : res tree_fail bytes :=
  let? q := partial_path w in root (tree w) Depth q.

Definition witness_append (w : IncrementalWitness) (obj : bytes) : res tree_fail IncrementalWitness :=
  match cursor w with
  | Some c =>
      let? c := append c obj in
      if is_complete c (cursor_depth w) then
        let? r := root c (cursor_depth w) [] in
        Ok {| tree := tree w; filled := filled w ++ [r]; cursor := None; cursor_depth := cursor_depth w |}
      else Ok {| tree := tree w; filled := filled w; cursor := Some c; cursor_depth := cursor_depth w |}
  | None =>
      let d := next_depth (tree w) (length (filled w)) in
      if (Depth <=? d)%nat then Err tree_is_full
      else if (d =? 0)%nat then
        Ok {| tree := tree w; filled := filled w ++ [obj]; cursor := None; cursor_depth := d |}
      else
        let? c := append new_tree obj in
        Ok {| tree := tree w; filled := filled w; cursor := Some c; cursor_depth := d |}
  end.

End Tree.

(** ** The reference: a complete tree over padded leaves *)

Section Reference.
Context `{MerkleHash}.
Local Open Scope nat_scope.

Fixpoint complete_root (d : nat) (l : list bytes) : bytes :=
  match d with
  | O => default uncommitted (head l)
  | S d => combine (complete_root d (take (2 ^ d) l)) (complete_root d (drop (2 ^ d) l)) d
  end.

Lemma complete_root_nil d : complete_root d [] = empty_roots d.
Proof. induction d as [|d IH]; [done|]. cbn. by rewrite take_nil, drop_nil, IH. Qed.

Lemma complete_root_take d l : complete_root d (take (2 ^ d) l) = complete_root d l.
Proof.
  revert l. induction d as [|d IH]; intros l; [by destruct l|]. cbn [complete_root].
  rewrite take_take, Nat.min_l by (apply Nat.pow_le_mono_r; lia). f_equal.
  rewrite <- IH, <- (IH (drop _ l)). f_equal.
  rewrite skipn_firstn_comm, take_take. f_equal. cbn [Nat.pow]. lia.
Qed.

Lemma complete_root_app d a b : length a = 2 ^ d ->
  complete_root (S d) (a ++ b) = combine (complete_root d a) (complete_root d b) d.
Proof. intros Ha. cbn [complete_root]. by rewrite <- Ha, take_app_length, drop_app_length. Qed.

(** A block that is completed from the right. *)
Lemma complete_root_fill d tl xs : length tl <= 2 ^ d ->
  complete_root (S d) (tl ++ take (2 ^ S d - length tl) xs) =
    combine (complete_root d (tl ++ take (2 ^ d - length tl) xs))
            (complete_root d (take (2 ^ d) (drop (2 ^ d - length tl) xs))) d.
Proof.
  intros Hl. cbn [complete_root]. f_equal; f_equal.
  - rewrite take_app_ge, take_take by done. do 2 f_equal. cbn [Nat.pow]. lia.
  - rewrite drop_app_ge by done. rewrite skipn_firstn_comm. f_equal. cbn [Nat.pow]. lia.
Qed.

(** What the parents stand for: a set entry at level [d] is the root of a complete block
    of [2 ^ d] leaves; blocks of higher levels come first. *)
Fixpoint parents_repr (d : nat) (ps : list (option bytes)) (pre : list bytes) : Prop :=
  match ps with
  | [] => pre = []
  | None :: ps => parents_repr (S d) ps pre
  | Some h :: ps =>
      exists pre' b, pre = pre' ++ b /\ length b = 2 ^ d /\ h = complete_root d b /\ parents_repr (S d) ps pre'
  end.

Definition canonical (ps : list (option bytes)) : Prop := last ps <> Some None.

(** The tree stands for the sequence [l] of appended leaves. *)
Record tree_repr (Depth : nat) (t : IncrementalMerkleTree) (l : list bytes) : Prop := {
  repr_leaves : match left t, right t with
    | None, None => parents t = [] /\ l = []
    | Some a, None => exists pre, l = pre ++ [a] /\ parents_repr 1 (parents t) pre
    | Some a, Some b => exists pre, l = pre ++ [a; b] /\ parents_repr 1 (parents t) pre
    | None, Some _ => False
    end;
  repr_canonical : canonical (parents t);
  repr_depth : length (parents t) < Depth
}.

Lemma canonical_cons p ps : ps <> [] -> canonical (p :: ps) <-> canonical ps.
Proof. unfold canonical. by destruct ps. Qed.

(** The number of leaves under the parents; the bound is met when all levels are set. *)
Lemma parents_repr_length d ps pre : parents_repr d ps pre ->
  length pre + 2 ^ d <= 2 ^ (d + length ps) /\
  (length pre + 2 ^ d = 2 ^ (d + length ps) <-> forallb is_some ps = true).
Proof.
  revert d pre. induction ps as [|[h|] ps IH]; intros d pre; cbn [parents_repr length forallb is_some andb].
  - intros ->. rewrite Nat.add_0_r. done.
  - intros (pre' & b & -> & Hb & _ & Hr). destruct (IH _ _ Hr) as [Hle Heq].
    rewrite length_app, Hb. cbn [Nat.pow Nat.add] in Hle, Heq. rewrite Nat.add_succ_r. cbn [Nat.pow].
    rewrite <- Heq. lia.
  - intros Hr. destruct (IH _ _ Hr) as [Hle _]. cbn [Nat.pow Nat.add] in Hle. rewrite Nat.add_succ_r. cbn [Nat.pow].
    pose proof (Nat.pow_nonzero 2 d). split; [lia|]. split; [lia|done].
Qed.

Lemma tree_repr_length Depth t l : tree_repr Depth t l -> length l <= 2 ^ Depth.
Proof.
  intros [Hl _ Hd]. assert (2 ^ S (length (parents t)) <= 2 ^ Depth) by (apply Nat.pow_le_mono_r; lia).
  destruct (left t), (right t); try done.
  1,2: destruct Hl as (pre & -> & Hp); destruct (parents_repr_length _ _ _ Hp) as [Hle _];
    rewrite length_app; cbn in *; lia.
  destruct Hl as [_ ->]. cbn. lia.
Qed.

(** The highest parent is set, so the leaves reach its level. *)
Lemma parents_repr_lower d ps pre : parents_repr d ps pre -> canonical ps ->
  ps = [] \/ 2 ^ (d + length ps) <= 2 * length pre.
Proof.
  revert d pre. induction ps as [|p ps IH]; intros d pre Hr Hc; [by left|right].
  assert (length ps = 0 -> p <> None) as Hp.
  { destruct ps; [|done]. intros _ ->. by apply Hc. }
  assert (ps <> [] -> canonical ps) as Hc' by (intros Hne; by apply (canonical_cons p ps Hne)).
  cbn [length]. rewrite Nat.add_succ_r. cbn [Nat.pow].
  destruct p as [h|]; cbn [parents_repr] in Hr.
  - destruct Hr as (pre' & b & -> & Hb & _ & Hr). rewrite length_app.
    destruct ps as [|q ps]; [cbn; rewrite Nat.add_0_r; lia|].
    destruct (IH _ _ Hr (Hc' ltac:(done))) as [?|Hle]; [done|]. cbn [Nat.pow Nat.add length] in *. lia.
  - destruct ps as [|q ps]; [by exfalso; apply Hp|].
    destruct (IH _ _ Hr (Hc' ltac:(done))) as [?|Hle]; [done|]. cbn [Nat.pow Nat.add length] in *. lia.
Qed.

(** Completeness at a level: all [2 ^ depth] leaves are there. *)
Lemma is_complete_spec Depth t l depth : tree_repr Depth t l -> length l <= 2 ^ depth ->
  is_complete t depth = true <-> 1 <= depth /\ length l = 2 ^ depth.
Proof.
  intros [Hl Hc Hd] Hle. unfold is_complete. rewrite !andb_true_iff, Nat.eqb_eq.
  assert (forall pre tl, 1 <= length tl <= 2 -> l = pre ++ tl -> parents_repr 1 (parents t) pre ->
    (length tl = 2 /\ S (length (parents t)) = depth /\ forallb is_some (parents t) = true) <->
    (1 <= depth /\ length l = 2 ^ depth)) as Hgen.
  { intros pre tl Htl -> Hp. rewrite length_app in *. destruct (parents_repr_length _ _ _ Hp) as [Hb He].
    cbn [Nat.pow Nat.add] in Hb, He. split.
    - intros (Et & <- & Ef). apply He in Ef. cbn [Nat.pow]. lia.
    - intros [Hd1 El]. destruct depth as [|k]; [lia|].
      assert (k <= length (parents t)) as Hk.
      { destruct (Nat.le_gt_cases k (length (parents t))) as [?|Hgt]; [done|].
        assert (2 ^ S (S (length (parents t))) <= 2 ^ S k) by (apply Nat.pow_le_mono_r; lia). cbn [Nat.pow] in *. lia. }
      assert (length (parents t) <= k) as Hk2.
      { destruct (parents_repr_lower _ _ _ Hp Hc) as [->|Hlow]; [cbn; lia|].
        destruct (Nat.le_gt_cases (length (parents t)) k) as [?|Hgt]; [done|].
        assert (2 ^ S k <= 2 ^ (length (parents t))) by (apply Nat.pow_le_mono_r; lia).
        cbn [Nat.pow Nat.add] in *. lia. }
      assert (k = length (parents t)) as -> by lia. cbn [Nat.pow] in *.
      assert (length tl = 2) as Ht by (destruct (decide (length tl = 2)); lia).
      split; [done|]. split; [done|]. apply He. lia. }
  destruct (left t) as [a|], (right t) as [b|]; cbn [is_some]; try done.
  - destruct Hl as (pre & El & Hp). rewrite <- (Hgen pre [a; b]) by (cbn; first [lia|done]). cbn. tauto.
  - destruct Hl as (pre & El & Hp). rewrite <- (Hgen pre [a]) by (cbn; first [lia|done]). cbn. split; [by intros [[[_ ?] _] _]|lia].
  - destruct Hl as [_ ->]. cbn. pose proof (Nat.pow_nonzero 2 depth). split; [by intros [[[? _] _] _]|lia].
Qed.

(** *** Appending *)

Lemma append_loop_spec n i ps pre b : parents_repr (S i) ps pre -> canonical ps -> length b = 2 ^ S i ->
  (length ps < n \/ length ps <= n /\ forallb is_some ps = false) ->
  let ps' := append_loop n i ps (complete_root (S i) b) in
  parents_repr (S i) ps' (pre ++ b) /\ canonical ps' /\
  (length ps' = length ps \/ length ps' = S (length ps) /\ forallb is_some ps = true).
Proof.
  revert i ps pre b. induction n as [|n IH]; intros i ps pre b Hr Hc Hb Hn.
  { destruct ps; [cbn in Hn; naive_solver lia|cbn in Hn; lia]. }
  destruct ps as [|[h|] ps]; cbn [append_loop parents_repr] in *.
  - subst pre. split; [|split; [done|by right]]. by exists [], b.
  - destruct Hr as (pre' & b' & -> & Hb' & -> & Hr).
    assert (canonical ps) as Hcp by (destruct ps as [|q ps]; [done|by apply (canonical_cons (Some (complete_root (S i) b')))]).
    specialize (IH (S i) ps pre' (b' ++ b)). rewrite Nat.add_1_r.
    rewrite <- (complete_root_app (S i) b' b) by done. cbn [forallb is_some andb length] in Hn.
    destruct IH as (Hr1 & Hc1 & Hl1); try done.
    { rewrite length_app. cbn [Nat.pow] in *. lia. }
    { naive_solver lia. }
    rewrite <- app_assoc. split; [done|]. split.
    + apply canonical_cons; [|done]. intros E. rewrite E in Hr1. cbn in Hr1. apply app_eq_nil in Hr1 as [_ E2].
      apply (f_equal length) in E2. rewrite length_app in E2. cbn in E2. pose proof (Nat.pow_nonzero 2 i).
      cbn [Nat.pow] in *. lia.
    + cbn [length forallb is_some andb]. naive_solver lia.
  - split; [by exists pre, b|]. split; [|by left]. destruct ps as [|q ps]; [done|].
    apply canonical_cons; [done|]. by apply (canonical_cons None).
Qed.

(** Appending adds the leaf at the end, and fails exactly on a full tree. *)
Lemma append_spec Depth t l obj : tree_repr Depth t l ->
  if decide (length l = 2 ^ Depth) then append Depth t obj = Err tree_is_full
  else exists t', append Depth t obj = Ok t' /\ tree_repr Depth t' (l ++ [obj]).
Proof.
  intros Ht. pose proof (tree_repr_length _ _ _ Ht) as Hle. pose proof (is_complete_spec _ _ _ _ Ht Hle) as Hcs.
  pose proof (repr_depth _ _ _ Ht) as Hd. unfold append. case_decide as Hfull.
  { by rewrite (proj2 Hcs) by (split; [lia|done]). }
  destruct (is_complete t Depth) eqn:Ec; [exfalso; apply Hfull; by apply Hcs|].
  destruct Ht as [Hl Hcan _]. destruct (left t) as [a|] eqn:El, (right t) as [b|] eqn:Er; try done.
  - destruct Hl as (pre & -> & Hp). eexists; split; [done|].
    destruct (append_loop_spec Depth 0 (parents t) pre [a; b]) as (H1 & H2 & H3); [done..|by left|].
    change (complete_root 1 [a; b]) with (combine a b 0) in *. split; cbn [left right parents]; [|done|].
    + exists (pre ++ [a; b]). by rewrite <- app_assoc.
    + destruct H3 as [H3|[H3 Hall]]; [lia|].
      assert (S (length (parents t)) <> Depth); [|lia].
      intros Hd2. unfold is_complete in Ec. rewrite El, Er, Hall, andb_true_r in Ec.
      cbn [is_some andb] in Ec. apply Nat.eqb_neq in Ec. lia.
  - destruct Hl as (pre & -> & Hp). eexists; split; [done|]. split; cbn [left right parents]; [|done..].
    exists pre. by rewrite <- app_assoc.
  - destruct Hl as [Hps ->]. eexists; split; [done|]. split; cbn [left right parents]; [|done..].
    exists []. by rewrite Hps.
Qed.

(** *** Roots and paths with fillers *)

(** The levels at which a tree takes a filler, in the order it takes them. *)
Fixpoint parent_holes (ps : list (option bytes)) (d : nat) : list nat :=
  match ps with
  | [] => []
  | Some _ :: ps => parent_holes ps (S d)
  | None :: ps => d :: parent_holes ps (S d)
  end.

Definition leaf_hole (o : option bytes) : list nat := if is_some o then [] else [0].

Definition holes (t : IncrementalMerkleTree) (depth : nat) : list nat :=
  leaf_hole (left t) ++ leaf_hole (right t) ++ parent_holes (parents t) 1 ++
  seq (S (length (parents t))) (depth - S (length (parents t))).

(** The queue provides the roots of the consecutive blocks of [xs] that belong there. *)
Fixpoint fill_ok (Depth : nat) (hs : list nat) (q xs : list bytes) : Prop :=
  match hs with
  | [] => True
  | d :: hs =>
      exists h q', next Depth q d = Ok (h, q') /\ h = complete_root d (take (2 ^ d) xs) /\
        fill_ok Depth hs q' (drop (2 ^ d) xs)
  end.

Lemma fill_ok_nil Depth hs : Forall (fun d => d <= Depth) hs -> fill_ok Depth hs [] [].
Proof.
  induction 1 as [|d hs Hd _ IH]; [done|]. cbn [fill_ok]. exists (empty_roots d), [].
  unfold next, empty_root. rewrite (proj2 (Nat.leb_le _ _) Hd). cbn. rewrite take_nil, drop_nil.
  by rewrite complete_root_nil.
Qed.

Lemma holes_lt t depth : length (parents t) < depth -> Forall (fun d => d < depth) (holes t depth).
Proof.
  intros Hd. unfold holes, leaf_hole. apply Forall_app; split; [destruct (left t); cbn [is_some]; [constructor|apply Forall_singleton; lia]|].
  apply Forall_app; split; [destruct (right t); cbn [is_some]; [constructor|apply Forall_singleton; lia]|].
  apply Forall_app; split.
  - assert (1 + length (parents t) <= depth) as Hb by lia. revert Hb. generalize 1. clear.
    induction (parents t) as [|[h|] ps IH]; intros d Hb; cbn in *; [done|apply IH; lia|].
    constructor; [lia|apply IH; lia].
  - apply Forall_forall. intros d Hin%elem_of_seq. lia.
Qed.

Lemma fill_ok_empty Depth t depth k : length (parents t) < depth <= Depth -> fill_ok Depth (drop k (holes t depth)) [] [].
Proof.
  intros Hd. apply fill_ok_nil, Forall_drop. eapply Forall_impl; [apply holes_lt; lia|]. cbn. lia.
Qed.

(** One pass over levels: [cur] is the root of the current block, [tl] of whose leaves come
    from the tree and the rest from [xs]. *)
Definition block_root (d : nat) (tl xs : list bytes) : bytes := complete_root d (tl ++ take (2 ^ d - length tl) xs).

(** The root that a path leads to from a leaf. *)
Fixpoint path_root (d : nat) (cur : bytes) (steps : list (bool * bytes)) : bytes :=
  match steps with
  | [] => cur
  | (b, h) :: steps => path_root (S d) (if b then combine h cur d else combine cur h d) steps
  end.

Lemma path_root_app d cur s1 s2 : path_root d cur (s1 ++ s2) = path_root (d + length s1) (path_root d cur s1) s2.
Proof.
  revert d cur. induction s1 as [|[b h] s1 IH]; intros d cur; cbn; [by rewrite Nat.add_0_r|].
  rewrite IH. f_equal. lia.
Qed.

(** The index bits of a path give the number of leaves before the block. *)
Fixpoint steps_num (d : nat) (steps : list (bool * bytes)) : nat :=
  match steps with
  | [] => 0
  | (b, _) :: steps => (if b then 2 ^ d else 0) + steps_num (S d) steps
  end.

Lemma steps_num_app d s1 s2 : steps_num d (s1 ++ s2) = steps_num d s1 + steps_num (d + length s1) s2.
Proof.
  revert d. induction s1 as [|[b h] s1 IH]; intros d; cbn; [by rewrite Nat.add_0_r|].
  rewrite IH. replace (d + S (length s1)) with (S d + length s1) by lia. lia.
Qed.

Lemma parents_levels Depth ps d pre tl xs q hs :
  parents_repr d ps pre -> length tl <= 2 ^ d ->
  fill_ok Depth (parent_holes ps d ++ hs) q (drop (2 ^ d - length tl) xs) ->
  exists steps q', let d' := d + length ps in
    root_parents Depth ps d (block_root d tl xs) q = Ok (block_root d' (pre ++ tl) xs, d', q') /\
    path_parents Depth ps d q = Ok (steps, d', q') /\ length steps = length ps /\
    path_root d (block_root d tl xs) steps = block_root d' (pre ++ tl) xs /\
    steps_num d steps = length pre /\
    length (pre ++ tl) <= 2 ^ d' /\ fill_ok Depth hs q' (drop (2 ^ d' - length (pre ++ tl)) xs).
Proof.
  revert d pre tl q. induction ps as [|[h|] ps IH]; intros d pre tl q; cbn [parents_repr parent_holes app].
  - intros -> Htl Hf. exists [], q. cbn. by rewrite Nat.add_0_r.
  - intros (pre' & b & -> & Hb & -> & Hr) Htl Hf.
    destruct (IH (S d) pre' (b ++ tl) q Hr) as (steps & q' & H1 & H2 & H3 & H4 & H5 & H6 & H7).
    { rewrite length_app. cbn [Nat.pow]. lia. }
    { rewrite length_app, Hb. cbn [Nat.pow]. by replace (2 * 2 ^ d - (2 ^ d + length tl)) with (2 ^ d - length tl) by lia. }
    assert (combine (complete_root d b) (block_root d tl xs) d = block_root (S d) (b ++ tl) xs) as Hc.
    { unfold block_root. rewrite <- app_assoc, complete_root_app by done. do 4 f_equal.
      rewrite length_app. cbn [Nat.pow]. lia. }
    exists ((true, complete_root d b) :: steps), q'. cbn [root_parents path_parents path_root steps_num length].
    rewrite Hc, H2, Nat.add_succ_r, <- app_assoc. cbn [res_bind fst snd]. cbn [Nat.add] in *.
    repeat split; try done; [by rewrite H3|rewrite H5, length_app; lia].
  - intros Hr Htl (h & q1 & Hn & -> & Hf).
    destruct (IH (S d) pre tl q1 Hr) as (steps & q' & H1 & H2 & H3 & H4 & H5 & H6 & H7).
    { cbn [Nat.pow]. lia. }
    { rewrite drop_drop in Hf. cbn [Nat.pow]. by replace (2 * 2 ^ d - length tl) with (2 ^ d - length tl + 2 ^ d) by lia. }
    set (f := complete_root d (take (2 ^ d) (drop (2 ^ d - length tl) xs))) in *.
    assert (combine (block_root d tl xs) f d = block_root (S d) tl xs) as Hc by (symmetry; by apply complete_root_fill).
    exists ((false, f) :: steps), q'. cbn [root_parents path_parents path_root steps_num length].
    rewrite Hn. cbn [res_bind fst snd]. rewrite Hc, H2, Nat.add_succ_r. cbn [res_bind fst snd Nat.add] in *.
    repeat split; try done; by rewrite H3.
Qed.

Lemma above_levels Depth n d tl xs q :
  length tl <= 2 ^ d -> fill_ok Depth (seq d n) q (drop (2 ^ d - length tl) xs) ->
  exists steps,
    root_above Depth n d (block_root d tl xs) q = Ok (block_root (d + n) tl xs) /\
    path_above Depth n d q = Ok steps /\ length steps = n /\
    path_root d (block_root d tl xs) steps = block_root (d + n) tl xs /\ steps_num d steps = 0.
Proof.
  revert d q. induction n as [|n IH]; intros d q Htl Hf.
  { exists []. cbn. by rewrite Nat.add_0_r. }
  cbn [seq fill_ok] in Hf. destruct Hf as (h & q1 & Hn & -> & Hf).
  set (f := complete_root d (take (2 ^ d) (drop (2 ^ d - length tl) xs))) in *.
  destruct (IH (S d) q1) as (steps & H1 & H2 & H3 & H4 & H5).
  { cbn [Nat.pow]. lia. }
  { rewrite drop_drop in Hf. cbn [Nat.pow]. by replace (2 * 2 ^ d - length tl) with (2 ^ d - length tl + 2 ^ d) by lia. }
  assert (combine (block_root d tl xs) f d = block_root (S d) tl xs) as Hc by (symmetry; by apply complete_root_fill).
  exists ((false, f) :: steps). cbn [root_above path_above path_root steps_num length]. rewrite Hn.
  cbn [res_bind fst snd]. rewrite Hc, H2, Nat.add_succ_r. cbn [res_bind Nat.add] in *.
  repeat split; try done; by rewrite H3.
Qed.

(** From the leaves up, all levels together. *)
Lemma levels_spec Depth depth t pre tl xs q :
  parents_repr 1 (parents t) pre -> length tl <= 2 -> length (parents t) < depth ->
  fill_ok Depth (parent_holes (parents t) 1 ++ seq (S (length (parents t))) (depth - S (length (parents t)))) q
    (drop (2 - length tl) xs) ->
  exists s1 s2 d q',
    root_parents Depth (parents t) 1 (block_root 1 tl xs) q = Ok (block_root d (pre ++ tl) xs, d, q') /\
    root_above Depth (depth - d) d (block_root d (pre ++ tl) xs) q' = Ok (complete_root depth (pre ++ tl ++ xs)) /\
    path_parents Depth (parents t) 1 q = Ok (s1, d, q') /\ path_above Depth (depth - d) d q' = Ok s2 /\
    length (s1 ++ s2) = depth - 1 /\ steps_num 1 (s1 ++ s2) = length pre /\
    path_root 1 (block_root 1 tl xs) (s1 ++ s2) = complete_root depth (pre ++ tl ++ xs).
Proof.
  intros Hr Htl Hd Hf.
  destruct (parents_levels Depth (parents t) 1 pre tl xs q _ Hr Htl Hf) as (s1 & q' & H1 & H2 & H3 & H4 & H5 & H6 & H7).
  set (d := 1 + length (parents t)) in *.
  destruct (above_levels Depth (depth - d) d (pre ++ tl) xs q' H6 H7) as (s2 & G1 & G2 & G3 & G4 & G5).
  assert (block_root (d + (depth - d)) (pre ++ tl) xs = complete_root depth (pre ++ tl ++ xs)) as Hroot.
  { replace (d + (depth - d)) with depth by lia. unfold block_root. rewrite <- complete_root_take, app_assoc.
    rewrite <- (complete_root_take depth (_ ++ xs)). f_equal. rewrite !firstn_app, take_take. do 2 f_equal. lia. }
  exists s1, s2, d, q'. rewrite <- Hroot.
  repeat split; try done.
  - rewrite length_app. lia.
  - rewrite steps_num_app, H5, H3. fold d. lia.
  - rewrite path_root_app, H4, H3. fold d. done.
Qed.

Lemma root_spec Depth depth t l xs q :
  tree_repr Depth t l -> length (parents t) < depth -> fill_ok Depth (holes t depth) q xs ->
  root Depth t depth q = Ok (complete_root depth (l ++ xs)).
Proof.
  intros [Hl _ _] Hd Hf. unfold root, holes, leaf_hole in *.
  destruct (left t) as [a|] eqn:El, (right t) as [b|] eqn:Er; cbn [is_some or_next res_bind fst snd app] in *; try done.
  - destruct Hl as (pre & -> & Hr).
    destruct (levels_spec Depth depth t pre [a; b] xs q) as (s1 & s2 & d & q' & H1 & H2 & _); [done..|].
    change (combine a b 0) with (block_root 1 [a; b] xs). rewrite H1. cbn [res_bind]. by rewrite H2, <- app_assoc.
  - destruct Hl as (pre & -> & Hr). destruct Hf as (h & q1 & -> & -> & Hf). cbn [res_bind fst snd].
    destruct (levels_spec Depth depth t pre [a] xs q1) as (s1 & s2 & d & q' & H1 & H2 & _); [done|cbn; lia|done..|].
    replace (combine a (complete_root 0 (take (2 ^ 0) xs)) 0) with (block_root 1 [a] xs) by (by destruct xs).
    rewrite H1. cbn [res_bind]. by rewrite H2, <- app_assoc.
  - destruct Hl as [Hps ->]. destruct Hf as (h & q1 & -> & -> & h' & q2 & E2 & -> & Hf).
    cbn [res_bind fst snd]. rewrite E2. cbn [res_bind fst snd].
    destruct (levels_spec Depth depth t [] [] xs q2) as (s1 & s2 & d & q' & H1 & H2 & _);
      [by rewrite Hps|cbn; lia|done|by rewrite drop_drop in Hf|].
    replace (combine _ _ 0) with (block_root 1 [] xs) by (by destruct xs as [|? [|??]]).
    rewrite H1. cbn [res_bind]. by rewrite H2.
Qed.

Lemma path_spec Depth t l xs q :
  tree_repr Depth t l -> l <> [] -> fill_ok Depth (holes t Depth) q xs ->
  exists steps x, path_steps Depth t q = Ok steps /\ last_leaf t = Ok x /\ last l = Some x /\
    length steps = Depth /\ S (steps_num 0 steps) = length l /\
    path_root 0 x steps = complete_root Depth (l ++ xs).
Proof.
  intros [Hl _ Hd] Hne Hf. unfold path_steps, last_leaf, holes, leaf_hole in *.
  destruct (left t) as [a|] eqn:El, (right t) as [b|] eqn:Er; cbn [is_some or_next res_bind fst snd app] in *; try done.
  - destruct Hl as (pre & -> & Hr).
    destruct (levels_spec Depth Depth t pre [a; b] xs q) as (s1 & s2 & d & q' & _ & _ & H3 & H4 & H5 & H6 & H7); [done..|].
    exists ((true, a) :: s1 ++ s2), b. rewrite H3. cbn [res_bind]. rewrite H4. cbn [res_bind length].
    split_and!; [done..| | | |].
    + change (pre ++ [a; b]) with (pre ++ [a] ++ [b]). by rewrite app_assoc, last_snoc.
    + lia.
    + cbn [steps_num]. rewrite H6, length_app. cbn. lia.
    + cbn [path_root]. rewrite <- app_assoc. exact H7.
  - destruct Hl as (pre & -> & Hr). destruct Hf as (h & q1 & -> & -> & Hf). cbn [res_bind fst snd].
    destruct (levels_spec Depth Depth t pre [a] xs q1) as (s1 & s2 & d & q' & _ & _ & H3 & H4 & H5 & H6 & H7);
      [done|cbn; lia|done..|].
    eexists (_ :: s1 ++ s2), a. rewrite H3. cbn [res_bind]. rewrite H4. cbn [res_bind length].
    split_and!; [done..| | | |].
    + by rewrite last_snoc.
    + lia.
    + cbn [steps_num]. rewrite H6, length_app. cbn. lia.
    + cbn [path_root]. replace (combine a (complete_root 0 (take (2 ^ 0) xs)) 0) with (block_root 1 [a] xs) by (by destruct xs).
      rewrite <- app_assoc. exact H7.
  - by destruct Hl as [_ ->].
Qed.

(** *** Sizes and capacities *)

Lemma size_loop_spec i ps pre ret : parents_repr (S i) ps pre -> (0 <= ret)%Z ->
  (ret + Z.of_nat (length pre) < 2 ^ 64)%Z -> size_loop (Z.of_nat i) ps ret = (ret + Z.of_nat (length pre))%Z.
Proof.
  revert i pre ret. induction ps as [|[h|] ps IH]; intros i pre ret; cbn [parents_repr size_loop is_some].
  - intros -> _ _. cbn. lia.
  - intros (pre' & b & -> & Hb & _ & Hr) H0 Hlt. rewrite length_app, Hb in *.
    assert (Z.of_nat (2 ^ S i) = 2 ^ (Z.of_nat i + 1))%Z as Hp.
    { rewrite Nat2Z.inj_pow. f_equal. lia. }
    rewrite (u64_id (2 ^ _)), u64_id by lia. replace (Z.of_nat i + 1)%Z with (Z.of_nat (S i)) by lia.
    rewrite IH with (pre := pre'); [|done|lia..]. rewrite Nat2Z.inj_add. lia.
  - intros Hr H0 Hlt. replace (Z.of_nat i + 1)%Z with (Z.of_nat (S i)) by lia. by apply IH.
Qed.

Lemma size_spec Depth t l : tree_repr Depth t l -> Depth < 64 -> size t = zlen l.
Proof.
  intros Ht HD. pose proof (tree_repr_length _ _ _ Ht) as Hle. destruct Ht as [Hl _ _].
  assert (Z.of_nat (length l) < 2 ^ 64)%Z as Hz.
  { apply Nat2Z.inj_le in Hle. rewrite Nat2Z.inj_pow in Hle. eapply Z.le_lt_trans; [exact Hle|].
    apply Z.pow_lt_mono_r; lia. }
  clear Hle. unfold size, zlen.
  destruct (left t), (right t); cbn [is_some]; try done.
  1,2: destruct Hl as (pre & -> & Hr); rewrite length_app in *; cbn [length] in *;
    rewrite (size_loop_spec 0 _ pre) by (first [done|lia]); lia.
  by destruct Hl as [-> ->].
Qed.

Definition capacity (hs : list nat) : nat := sum_list_with (fun d => 2 ^ d) hs.

Lemma capacity_app h1 h2 : capacity (h1 ++ h2) = capacity h1 + capacity h2.
Proof. induction h1; cbn; [done|]. unfold capacity in *. cbn. lia. Qed.

Lemma capacity_seq d n : capacity (seq d n) + 2 ^ d = 2 ^ (d + n).
Proof.
  revert d. induction n as [|n IH]; intros d; cbn; [by rewrite Nat.add_0_r|].
  specialize (IH (S d)). unfold capacity in *. replace (d + S n) with (S d + n) by lia. cbn [Nat.pow] in *. lia.
Qed.

Lemma capacity_parents d ps pre : parents_repr d ps pre ->
  length pre + capacity (parent_holes ps d) + 2 ^ d = 2 ^ (d + length ps).
Proof.
  revert d pre. induction ps as [|[h|] ps IH]; intros d pre; cbn [parents_repr parent_holes length].
  - intros ->. cbn. by rewrite Nat.add_0_r.
  - intros (pre' & b & -> & Hb & _ & Hr). specialize (IH _ _ Hr). rewrite length_app, Hb.
    replace (d + S (length ps)) with (S d + length ps) by lia. cbn [Nat.pow] in *. lia.
  - intros Hr. specialize (IH _ _ Hr). replace (d + S (length ps)) with (S d + length ps) by lia.
    unfold capacity in *. cbn [sum_list_with Nat.pow] in *. lia.
Qed.

Lemma capacity_holes Depth t l : tree_repr Depth t l -> length l + capacity (holes t Depth) = 2 ^ Depth.
Proof.
  intros [Hl _ Hd]. unfold holes. rewrite !capacity_app.
  pose proof (capacity_seq (S (length (parents t))) (Depth - S (length (parents t)))) as Hs.
  replace (S (length (parents t)) + (Depth - S (length (parents t)))) with Depth in Hs by lia.
  unfold leaf_hole. destruct (left t), (right t); cbn [is_some]; try done.
  all: change (capacity []) with 0; change (capacity [0]) with 1.
  1,2: destruct Hl as (pre & -> & Hr); pose proof (capacity_parents _ _ _ Hr) as Hp;
    rewrite length_app; cbn [length Nat.add Nat.pow] in *; lia.
  destruct Hl as [E ->]. rewrite E in *. change (capacity (parent_holes [] 1)) with 0.
  cbn [length Nat.pow] in *. lia.
Qed.

(** *** Witnesses *)

(** [fs] are the roots of the first complete blocks of [xs], in the order of the holes;
    [rest] are the leaves after them. *)
Fixpoint filled_ok (hs : list nat) (fs xs rest : list bytes) {struct fs} : Prop :=
  match fs, hs with
  | [], _ => rest = xs
  | f :: fs, d :: hs => f = complete_root d (take (2 ^ d) xs) /\ 2 ^ d <= length xs /\ filled_ok hs fs (drop (2 ^ d) xs) rest
  | _ :: _, [] => False
  end.

Lemma filled_ok_fill Depth hs fs q xs rest :
  filled_ok hs fs xs rest -> fill_ok Depth (drop (length fs) hs) q rest -> fill_ok Depth hs (fs ++ q) xs.
Proof.
  revert hs xs. induction fs as [|f fs IH]; intros hs xs; cbn [filled_ok length drop app]; [by intros ->|].
  destruct hs as [|d hs]; [done|]. intros (-> & _ & Hf) Hq. cbn [fill_ok next]. eexists _, _.
  split; [done|]. split; [done|]. by apply IH.
Qed.

Lemma filled_ok_snoc hs fs xs rest d hs' :
  filled_ok hs fs xs rest -> drop (length fs) hs = d :: hs' -> 2 ^ d <= length rest ->
  filled_ok hs (fs ++ [complete_root d (take (2 ^ d) rest)]) xs (drop (2 ^ d) rest).
Proof.
  revert hs xs. induction fs as [|f fs IH]; intros hs xs; cbn [filled_ok length drop app].
  - intros -> E Hle. rewrite drop_0 in E. by rewrite E.
  - destruct hs as [|d0 hs]; [done|]. intros (-> & Hle0 & Hf) Hd Hle. split; [done|]. split; [done|]. by apply IH.
Qed.

Lemma filled_ok_more hs fs xs rest x : filled_ok hs fs xs rest -> filled_ok hs fs (xs ++ [x]) (rest ++ [x]).
Proof.
  revert hs xs. induction fs as [|f fs IH]; intros hs xs; cbn [filled_ok]; [by intros ->|].
  destruct hs as [|d0 hs]; [done|]. intros (-> & Hle0 & Hf).
  rewrite take_app_le, length_app by done. split; [done|]. split; [lia|].
  rewrite drop_app_le by done. by apply IH.
Qed.

Lemma filled_ok_length hs fs xs rest : filled_ok hs fs xs rest ->
  length xs = capacity (take (length fs) hs) + length rest.
Proof.
  revert hs xs. induction fs as [|f fs IH]; intros hs xs; cbn [filled_ok]; [by intros ->|].
  destruct hs as [|d0 hs]; [done|]. intros (-> & Hle0 & Hf). apply IH in Hf.
  rewrite length_drop in Hf. cbn in *. unfold capacity in *. cbn. lia.
Qed.

(** [next_depth] is the level of the next hole. *)
Lemma next_depth_loop_spec ps d skip n :
  match drop skip (parent_holes ps d ++ seq (d + length ps) n) with
  | h :: _ => next_depth_loop ps d skip = h
  | [] => d + length ps + n <= next_depth_loop ps d skip
  end.
Proof.
  revert d skip. induction ps as [|[h|] ps IH]; intros d skip; cbn [parent_holes next_depth_loop length app].
  - rewrite Nat.add_0_r. destruct (drop skip (seq d n)) as [|h r] eqn:E.
    + apply (f_equal length) in E. rewrite length_drop, length_seq in E. cbn in E. lia.
    + apply (f_equal (.!! 0)) in E. rewrite lookup_drop, Nat.add_0_r in E. cbn in E.
      apply lookup_seq in E as [-> _]. done.
  - specialize (IH (S d) skip). rewrite Nat.add_succ_r. cbn [Nat.add] in IH. exact IH.
  - destruct skip as [|skip]; [done|]. cbn [drop]. specialize (IH (S d) skip). rewrite Nat.add_succ_r.
    cbn [Nat.add] in IH. exact IH.
Qed.

Lemma next_depth_spec Depth t l skip : tree_repr Depth t l -> l <> [] ->
  match drop skip (holes t Depth) with
  | h :: _ => next_depth t skip = h
  | [] => Depth <= next_depth t skip
  end.
Proof.
  intros [Hl _ Hd] Hne. unfold holes, next_depth, leaf_hole.
  destruct (left t), (right t); cbn [is_some app]; try done; [| |by destruct Hl].
  - pose proof (next_depth_loop_spec (parents t) 1 skip (Depth - S (length (parents t)))) as Hn.
    replace (1 + length (parents t) + (Depth - S (length (parents t)))) with Depth in Hn by lia. exact Hn.
  - destruct skip as [|skip]; [done|].
    pose proof (next_depth_loop_spec (parents t) 1 skip (Depth - S (length (parents t)))) as Hn.
    replace (1 + length (parents t) + (Depth - S (length (parents t)))) with Depth in Hn by lia. exact Hn.
Qed.

(** A witness made at the last leaf of [l] that has seen the leaves [xs] after it. *)
Record witness_repr (Depth : nat) (w : IncrementalWitness) (l xs : list bytes) : Prop := {
  wr_tree : tree_repr Depth (tree w) l;
  wr_leaf : l <> [];
  wr_filled : exists rest, filled_ok (holes (tree w) Depth) (filled w) xs rest /\
    match cursor w with
    | None => rest = []
    | Some c =>
        exists hs, drop (length (filled w)) (holes (tree w) Depth) = cursor_depth w :: hs /\
          1 <= cursor_depth w /\ tree_repr Depth c rest /\ rest <> [] /\ length rest < 2 ^ cursor_depth w
    end
}.

Lemma repr_short Depth t l d : tree_repr Depth t l -> 1 <= d -> length l <= 2 ^ d -> length (parents t) < d.
Proof.
  intros [Hl Hc Hd] H1 Hlt.
  destruct (decide (length (parents t) < d)) as [|Hge]; [done|exfalso].
  assert (forall pre tl, l = pre ++ tl -> 1 <= length tl -> parents_repr 1 (parents t) pre -> False) as Hgen.
  { intros pre tl -> Htl Hr. rewrite length_app in Hlt.
    destruct (parents_repr_lower _ _ _ Hr Hc) as [E|Hlow]; [rewrite E in Hge; cbn in Hge; lia|].
    assert (2 ^ S d <= 2 ^ (1 + length (parents t))) by (apply Nat.pow_le_mono_r; lia). cbn [Nat.pow] in *. lia. }
  destruct (left t), (right t); try done.
  1,2: destruct Hl as (pre & -> & Hr); apply (Hgen pre _ eq_refl); [cbn; lia|done].
  destruct Hl as [E _]. rewrite E in Hge. cbn in Hge. lia.
Qed.

Lemma partial_path_spec Depth w l xs : witness_repr Depth w l xs ->
  exists q, partial_path Depth w = Ok q /\ fill_ok Depth (holes (tree w) Depth) q xs.
Proof.
  intros [Ht _ (rest & Hf & Hc)]. pose proof (repr_depth _ _ _ Ht) as Hd. unfold partial_path.
  destruct (cursor w) as [c|].
  - destruct Hc as (hs & Ehs & H1 & Hcr & Hne & Hlt).
    assert (Forall (fun d => d < Depth) (cursor_depth w :: hs)) as Hall
      by (rewrite <- Ehs; apply Forall_drop; by apply holes_lt).
    pose proof (repr_short _ _ _ _ Hcr H1 ltac:(lia)) as Hs.
    assert (cursor_depth w < Depth) as Hlt' by (by apply Forall_cons in Hall as [? _]).
    rewrite (root_spec Depth (cursor_depth w) c rest [] []);
      [|done|done|rewrite <- (drop_0 (holes _ _)); apply fill_ok_empty; lia].
    eexists; split; [done|]. eapply filled_ok_fill; [exact Hf|]. rewrite Ehs. cbn [fill_ok next].
    eexists _, _. split; [done|]. rewrite app_nil_r. split; [by rewrite take_ge by lia|].
    rewrite drop_ge by lia. apply fill_ok_nil. apply Forall_cons in Hall as [_ Hall].
    eapply Forall_impl; [exact Hall|]. cbn. lia.
  - subst rest. eexists; split; [done|]. rewrite <- (app_nil_r (filled w)). eapply filled_ok_fill; [exact Hf|].
    apply fill_ok_empty. lia.
Qed.

Lemma witness_append_spec Depth w l xs x : witness_repr Depth w l xs ->
  if decide (length l + length xs = 2 ^ Depth) then witness_append Depth w x = Err tree_is_full
  else exists w', witness_append Depth w x = Ok w' /\ tree w' = tree w /\ witness_repr Depth w' l (xs ++ [x]).
Proof.
  intros [Ht Hne (rest & Hf & Hc)]. pose proof (repr_depth _ _ _ Ht) as Hd. unfold witness_append.
  pose proof (filled_ok_length _ _ _ _ Hf) as Hlen. pose proof (capacity_holes _ _ _ Ht) as Hcap.
  rewrite <- (take_drop (length (filled w)) (holes (tree w) Depth)), capacity_app in Hcap.
  pose proof (filled_ok_more _ _ _ _ x Hf) as Hf'.
  destruct (cursor w) as [c|].
  - destruct Hc as (hs & Ehs & H1 & Hcr & Hne' & Hlt).
    assert (cursor_depth w < Depth) as Hlt'.
    { assert (Forall (fun d => d < Depth) (cursor_depth w :: hs)) as Hall
        by (rewrite <- Ehs; apply Forall_drop; by apply holes_lt). by apply Forall_cons in Hall as [? _]. }
    rewrite Ehs in Hcap. change (capacity (cursor_depth w :: hs)) with (2 ^ cursor_depth w + capacity hs) in Hcap.
    rewrite decide_False by lia.
    assert (2 ^ cursor_depth w <= 2 ^ Depth) by (apply Nat.pow_le_mono_r; lia).
    pose proof (append_spec Depth c rest x Hcr) as Ha. rewrite decide_False in Ha by lia.
    destruct Ha as (c' & -> & Hcr'). cbn [res_bind].
    assert (length (rest ++ [x]) <= 2 ^ cursor_depth w) as Hle by (rewrite length_app; cbn; lia).
    pose proof (is_complete_spec _ _ _ _ Hcr' Hle) as Hcs.
    destruct (is_complete c' (cursor_depth w)).
    + destruct (proj1 Hcs eq_refl) as [_ Hfull].
      rewrite (root_spec Depth (cursor_depth w) c' (rest ++ [x]) [] []);
        [|done|by apply (repr_short _ _ _ _ Hcr')
         |rewrite <- (drop_0 (holes _ _)); apply fill_ok_empty; split; [by apply (repr_short _ _ _ _ Hcr')|lia]].
      eexists; split; [done|]. split; [done|]. split; [done|done|]. cbn [tree filled cursor cursor_depth]. exists [].
      split; [|done]. pose proof (filled_ok_snoc _ _ _ _ _ _ Hf' Ehs ltac:(lia)) as Hs.
      rewrite take_ge, drop_ge in Hs by lia. by rewrite app_nil_r.
    + eexists; split; [done|]. split; [done|]. split; [done|done|]. cbn [tree filled cursor cursor_depth].
      exists (rest ++ [x]). split; [done|]. exists hs. split_and!; [done|done|done| |].
      * by destruct rest.
      * destruct (decide (length (rest ++ [x]) = 2 ^ cursor_depth w)) as [E|E]; [|lia].
        discriminate (proj2 Hcs (conj H1 E)).
  - subst rest. cbn [length] in Hlen.
    pose proof (next_depth_spec Depth (tree w) l (length (filled w)) Ht Hne) as Hnd.
    destruct (drop (length (filled w)) (holes (tree w) Depth)) as [|d hs] eqn:Ehs.
    + change (capacity []) with 0 in Hcap. rewrite decide_True by lia. by rewrite (proj2 (Nat.leb_le _ _) Hnd).
    + change (capacity (d :: hs)) with (2 ^ d + capacity hs) in Hcap. pose proof (Nat.pow_nonzero 2 d).
      rewrite decide_False by lia. rewrite Hnd.
      assert (d < Depth) as Hlt.
      { assert (Forall (fun d => d < Depth) (d :: hs)) as Hall
          by (rewrite <- Ehs; apply Forall_drop; by apply holes_lt). by apply Forall_cons in Hall as [? _]. }
      rewrite (proj2 (Nat.leb_gt _ _) Hlt). cbn [app] in Hf'. destruct (Nat.eqb_spec d 0) as [->|Hd0].
      * eexists; split; [done|]. split; [done|]. split; [done|done|]. cbn [tree filled cursor]. exists [].
        split; [|done]. exact (filled_ok_snoc _ _ _ _ _ _ Hf' Ehs ltac:(cbn; lia)).
      * assert (tree_repr Depth new_tree []) as Hnew by (split; cbn; [done|done|lia]).
        pose proof (append_spec Depth new_tree [] x Hnew) as Ha. cbn [length] in Ha.
        rewrite decide_False in Ha by (pose proof (Nat.pow_nonzero 2 Depth); lia). destruct Ha as (c' & -> & Hcr').
        eexists; split; [done|]. split; [done|]. split; [done|done|]. cbn [tree filled cursor cursor_depth].
        exists [x]. split; [done|]. exists hs. split_and!; [done|lia|done|done|].
        cbn [length]. destruct d as [|d]; [done|]. pose proof (Nat.pow_nonzero 2 d). cbn [Nat.pow]. lia.
Qed.

(** Appending a sequence of leaves, to a tree and to a witness. *)
Fixpoint append_all (Depth : nat) (t : IncrementalMerkleTree) (l : list bytes) : res tree_fail IncrementalMerkleTree :=
  match l with
  | [] => Ok t
  | x :: l => let? t := append Depth t x in append_all Depth t l
  end.

Fixpoint witness_all (Depth : nat) (w : IncrementalWitness) (l : list bytes) : res tree_fail IncrementalWitness :=
  match l with
  | [] => Ok w
  | x :: l => let? w := witness_append Depth w x in witness_all Depth w l
  end.

Lemma append_all_spec Depth t l0 l : tree_repr Depth t l0 -> length l0 + length l <= 2 ^ Depth ->
  exists t', append_all Depth t l = Ok t' /\ tree_repr Depth t' (l0 ++ l).
Proof.
  revert t l0. induction l as [|x l IH]; intros t l0 Ht Hle; cbn [append_all length] in *.
  { exists t. by rewrite app_nil_r. }
  pose proof (append_spec Depth t l0 x Ht) as Ha. rewrite decide_False in Ha by lia. destruct Ha as (t1 & -> & Ht1).
  cbn [res_bind]. destruct (IH t1 (l0 ++ [x]) Ht1) as (t2 & -> & Ht2); [rewrite length_app; cbn; lia|].
  exists t2. by rewrite <- app_assoc in Ht2.
Qed.

Lemma witness_all_spec Depth w l xs0 xs : witness_repr Depth w l xs0 ->
  length l + length xs0 + length xs <= 2 ^ Depth ->
  exists w', witness_all Depth w xs = Ok w' /\ tree w' = tree w /\ witness_repr Depth w' l (xs0 ++ xs).
Proof.
  revert w xs0. induction xs as [|x xs IH]; intros w xs0 Hw Hle; cbn [witness_all length] in *.
  { exists w. by rewrite app_nil_r. }
  pose proof (witness_append_spec Depth w l xs0 x Hw) as Ha. rewrite decide_False in Ha by lia.
  destruct Ha as (w1 & -> & Et & Hw1). cbn [res_bind].
  destruct (IH w1 (xs0 ++ [x]) Hw1) as (w2 & -> & Et2 & Hw2); [rewrite length_app; cbn; lia|].
  exists w2. rewrite <- app_assoc in Hw2. split; [done|]. by rewrite Et2.
Qed.

Lemma new_tree_repr Depth : 1 <= Depth -> tree_repr Depth new_tree [].
Proof. intros. by split. Qed.

Lemma wfcheck_repr Depth t l : tree_repr Depth t l -> wfcheck Depth t = Ok tt.
Proof.
  intros [Hl Hc Hd]. unfold wfcheck. rewrite (proj2 (Nat.leb_gt _ _) Hd). cbn [negb guard_err res_bind].
  unfold canonical in Hc. destruct (last (parents t)) as [[p|]|]; [|done|]; cbn [negb guard_err res_bind].
  all: destruct (left t), (right t); cbn; try done; by destruct Hl as [-> _].
Qed.

(** *** Index bits *)

Lemma vector_to_int_spec v r : (0 <= r)%Z -> (r mod 2 ^ zlen v = 0)%Z -> length v <= 64 ->
  vector_to_int_loop v r = (r + Z.of_nat (steps_num 0 (map (fun b => (b, [])) (rev v))))%Z.
Proof.
  revert r. induction v as [|b v IH]; intros r Hr Hm Hlen; cbn [vector_to_int_loop]; [cbn; lia|].
  cbn [rev length] in *. rewrite map_app, steps_num_app, length_map, length_rev. cbn [map steps_num].
  rewrite zlen_cons, Z.pow_add_r, Z.mul_comm in Hm by (unfold zlen; lia).
  assert (0 < 2 ^ zlen v < 2 ^ 64)%Z as Hp.
  { split; [apply Z.pow_pos_nonneg; unfold zlen; lia|apply Z.pow_lt_mono_r; unfold zlen; lia]. }
  assert (exists k, r = k * 2 ^ (zlen v + 1) /\ 0 <= k)%Z as (k & -> & Hk).
  { exists (r / (2 ^ zlen v * 2 ^ 1))%Z. split; [|by apply Z.div_pos; lia].
    rewrite Z.pow_add_r by (unfold zlen; lia). apply Z.div_exact in Hm; [lia|lia]. }
  assert (Z.of_nat (2 ^ (0 + length v)) = 2 ^ zlen v)%Z as Hz by (by rewrite Nat2Z.inj_pow).
  destruct b.
  - rewrite u64_id, Z.lor_comm by lia. rewrite <- Z.shiftl_mul_pow2 by (unfold zlen; lia).
    rewrite lor_shiftl_add by (rewrite ?Z.pow_add_r; unfold zlen in *; lia).
    rewrite IH.
    + rewrite !Nat2Z.inj_add, Hz. rewrite Z.shiftl_mul_pow2 by (unfold zlen; lia). lia.
    + pose proof (Z.pow_nonneg 2 (zlen v + 1)). nia.
    + rewrite Z.pow_add_r by (unfold zlen; lia). replace (2 ^ zlen v + k * (2 ^ zlen v * 2 ^ 1))%Z
        with ((1 + k * 2) * 2 ^ zlen v)%Z by lia. by apply Z_mod_mult.
    + lia.
  - rewrite IH; [lia|pose proof (Z.pow_nonneg 2 (zlen v + 1)); nia| |lia].
    rewrite Z.pow_add_r by (unfold zlen; lia). replace (k * (2 ^ zlen v * 2 ^ 1))%Z
      with ((k * 2) * 2 ^ zlen v)%Z by lia. by apply Z_mod_mult.
Qed.

Lemma steps_num_map d (s : list (bool * bytes)) : steps_num d (map (fun b => (b, [])) (map fst s)) = steps_num d s.
Proof. revert d. induction s as [|[b h] s IH]; intros d; cbn; [done|]. by rewrite IH. Qed.

Lemma last_leaf_spec Depth t l : tree_repr Depth t l -> last_leaf t = match last l with Some x => Ok x | None => Err tree_has_no_cursor end.
Proof.
  intros [Hl _ _]. unfold last_leaf. destruct (left t) as [a|], (right t) as [b|]; [| |done|by destruct Hl as [_ ->]].
  - destruct Hl as (pre & -> & _). by rewrite (app_assoc pre [a] [b] : pre ++ [a; b] = (pre ++ [a]) ++ [b]), last_snoc.
  - destruct Hl as (pre & -> & _). by rewrite last_snoc.
Qed.

(** *** The theorems *)

(** C26. The commitment tree implements the complete Merkle tree: appending any sequence of
    leaves that fits succeeds, the root of the result is the root of the complete tree over
    the leaves padded with uncommitted ones, the size is their number, [last] is the last leaf
    and throws when there is none, the representation is canonical, the tree is complete exactly
    when all leaves are taken, and then one more leaf is refused. *)
Theorem commitment_tree_refines Depth l : 1 <= Depth < 64 -> length l <= 2 ^ Depth ->
  exists t, append_all Depth new_tree l = Ok t /\ root Depth t Depth [] = Ok (complete_root Depth l) /\
    size t = zlen l /\ wfcheck Depth t = Ok tt /\
    last_leaf t = (match last l with Some x => Ok x | None => Err tree_has_no_cursor end) /\
    is_complete t Depth = bool_decide (length l = 2 ^ Depth) /\
    (forall x, if decide (length l = 2 ^ Depth) then append Depth t x = Err tree_is_full
               else exists t', append Depth t x = Ok t' /\ root Depth t' Depth [] = Ok (complete_root Depth (l ++ [x]))).
Proof.
  intros HD Hle. destruct (append_all_spec Depth new_tree [] l (new_tree_repr Depth ltac:(lia)) Hle) as (t & Ea & Ht).
  cbn [app] in Ht.
  assert (forall t l, tree_repr Depth t l -> root Depth t Depth [] = Ok (complete_root Depth l)) as Hroot.
  { intros t' l' Ht'. pose proof (repr_depth _ _ _ Ht') as Hd. rewrite <- (app_nil_r l') at 1.
    apply root_spec; [done|done|]. rewrite <- (drop_0 (holes _ _)). apply fill_ok_empty. lia. }
  exists t. split_and!; [done|by apply Hroot|apply (size_spec Depth); [done|lia]|by apply (wfcheck_repr Depth t l)|by apply (last_leaf_spec Depth)| |].
  { apply eq_bool_prop_intro. rewrite bool_decide_spec, Is_true_true, (is_complete_spec Depth t l Depth Ht Hle). split; [by intros [_ ?]|]. split; [lia|done]. }
  intros x. pose proof (append_spec Depth t l x Ht) as Ha. case_decide; [done|].
  destruct Ha as (t' & E & Ht'). exists t'. split; [done|]. by apply Hroot.
Qed.

(** C35. A witness made for the last leaf follows the tree: after any further leaves its root
    is the root of the whole tree, its element and position are unchanged, and its
    authentication path leads from the element to that root, with index bits that spell the
    position; in a full tree appending to it fails. *)
Theorem witness_refines Depth l xs : 1 <= Depth < 64 -> l <> [] -> length l + length xs <= 2 ^ Depth ->
  exists t w x steps,
    append_all Depth new_tree l = Ok t /\ witness_all Depth (witness t) xs = Ok w /\
    witness_root Depth w = Ok (complete_root Depth (l ++ xs)) /\
    last l = Some x /\ element w = Ok x /\ position w = (zlen l - 1)%Z /\
    witness_path Depth w = Ok {| authentication_path := rev (map (fun s => convertBytesVectorToVector s.2) steps);
                                 index := rev (map fst steps) |} /\
    length steps = Depth /\ path_root 0 x steps = complete_root Depth (l ++ xs) /\
    convertVectorToInt (rev (map fst steps)) = Ok (position w) /\
    (length l + length xs = 2 ^ Depth -> forall y, witness_append Depth w y = Err tree_is_full).
Proof.
  intros HD Hne Hle.
  destruct (append_all_spec Depth new_tree [] l (new_tree_repr Depth ltac:(lia)) ltac:(cbn; lia)) as (t & Ea & Ht).
  cbn [app] in Ht.
  assert (witness_repr Depth (witness t) l []) as Hw0 by (split; [done|done|]; by exists []).
  destruct (witness_all_spec Depth (witness t) l [] xs Hw0 ltac:(cbn; lia)) as (w & Ew & Et & Hw).
  cbn [app tree witness] in *. destruct (partial_path_spec _ _ _ _ Hw) as (q & Eq & Hq).
  destruct (path_spec Depth (tree w) l xs q) as (steps & x & Es & Ex & Elast & Hlen & Hnum & Hroot);
    [by rewrite Et|done|done|].
  assert (position w = zlen l - 1)%Z as Hpos.
  { unfold position. rewrite Et, (size_spec Depth t l) by (done || lia). apply u64_id.
    destruct l as [|a l]; [done|]. rewrite zlen_cons. pose proof (zlen_nonneg l) as Hl0.
    apply Nat2Z.inj_le in Hle. rewrite Nat2Z.inj_pow in Hle.
    assert (Z.of_nat 2 ^ Z.of_nat Depth < 2 ^ 64)%Z by (apply Z.pow_lt_mono_r; lia).
    unfold zlen in *. cbn [length] in *. lia. }
  exists t, w, x, steps. unfold witness_root, witness_path, path, element. rewrite Et in Es, Ex, Hq. rewrite Eq, Et. cbn [res_bind]. rewrite Es. cbn [res_bind].
  split_and!; try done.
  - apply root_spec; [done|by apply (repr_depth _ _ _ Ht)|done].
  - unfold convertVectorToInt. assert (zlen (rev (map fst steps)) = Z.of_nat Depth) as Hz
      by (unfold zlen; by rewrite length_rev, length_map, Hlen).
    destruct (Z.gtb_spec (zlen (rev (map fst steps))) 64) as [?|_]; [lia|]. f_equal.
    rewrite vector_to_int_spec; [|done|by apply Z.mod_0_l, Z.pow_nonzero; lia|unfold zlen in Hz; lia].
    rewrite rev_involutive, steps_num_map, Hpos. unfold zlen. lia.
  - intros Hfull y. pose proof (witness_append_spec Depth w l xs y Hw) as Ha. by rewrite decide_True in Ha.
Qed.
End Reference.

(** A hash that keeps its arguments, and trees of depth 4. *)
#[export] Instance demo_hash : MerkleHash := {| combine a b d := Z.of_nat d :: a ++ b; uncommitted := [0] |}.

Lemma commitment_tree_refines_witness :
  exists t, append_all 4 new_tree [[1]; [2]; [3]; [4]; [5]] = Ok t /\ size t = 5 /\
    root 4 t 4 [] = Ok (complete_root 4 [[1]; [2]; [3]; [4]; [5]]).
Proof.
  destruct (commitment_tree_refines 4 [[1]; [2]; [3]; [4]; [5]]) as (t & E & Hr & Hs & _);
    [lia|apply Nat.leb_le; reflexivity|]. by exists t.
Defined.

Lemma witness_refines_witness :
  exists t w, append_all 4 new_tree [[1]; [2]; [3]] = Ok t /\ witness_all 4 (witness t) [[4]; [5]] = Ok w /\
    witness_root 4 w = Ok (complete_root 4 [[1]; [2]; [3]; [4]; [5]]) /\ position w = 2.
Proof.
  destruct (witness_refines 4 [[1]; [2]; [3]] [[4]; [5]]) as (t & w & x & s & E1 & E2 & E3 & _ & _ & E4 & _);
    [lia|done|apply Nat.leb_le; reflexivity|]. by exists t, w.
Defined.
