(* ===== verification/Merkle.v ===== *)
(** * Merkle trees of blocks

    [BuildMerkleTree], [GetMerkleBranch] and [CheckMerkleBranch] of [primitives/block.cpp] and
    the partial trees of [merkleblock.h] and [merkleblock.cpp].  The transactions of a block
    are represented by the list of their hashes; [vMerkleTree] is the flat vector of all
    levels, indexed as in the source, and an index outside a vector is an error value.

    The reference is the list of levels: [pair_up] hashes the nodes of a level pairwise, a
    last single node with itself. *)

From stdpp Require Import sets.
From S2P Require Import Prelude Interpreter Amount.

Inductive merkle_fail : Set := out_of_bounds | out_of_fuel.

Definition at_ {A : Type} (v : list A) (i : nat) : res merkle_fail A :=
  match v !! i with Some x => Ok x | None => Err out_of_bounds end.

Definition uint256_zero : bytes := replicate 32 0.

(** Lists of 32-byte hashes. *)
Abbreviation digests l := (Forall (fun h : bytes => length h = 32%nat) l).

Section Definitions.
Context `{Crypto}.

(** [Hash(BEGIN(a), END(a), BEGIN(b), END(b))] *)
Definition Hash (a b : bytes) : bytes := hash256 (a ++ b).

(** ** [primitives/block.cpp] *)

(** The loop over one level: [for (size_t i = 0; i < nSize; i += 2)]. *)
Fixpoint merkle_inner (fuel i j nSize : nat) (vMerkleTree : list bytes) (bMutated : bool)
  : res merkle_fail (list bytes * bool) :=
  if (i <? nSize)%nat then
    match fuel with
    | O => Err out_of_fuel
    | S fuel =>
        let i2 := Nat.min (i + 1) (nSize - 1) in
        let? x := at_ vMerkleTree (j + i) in
        let? y := at_ vMerkleTree (j + i2) in
        let bMutated := if (i2 =? i + 1)%nat && (i2 + 1 =? nSize)%nat && bytes_eqb x y then true else bMutated in
        merkle_inner fuel (i + 2) j nSize (vMerkleTree ++ [Hash x y]) bMutated
    end
  else Ok (vMerkleTree, bMutated).

(** The loop over the levels: [nSize = (nSize + 1) / 2]. *)
Fixpoint merkle_outer (fuel j nSize : nat) (vMerkleTree : list bytes) (bMutated : bool)
  : res merkle_fail (list bytes * bool) :=
  if (1 <? nSize)%nat then
    match fuel with
    | O => Err out_of_fuel
    | S fuel =>
        let? r := merkle_inner nSize 0 j nSize vMerkleTree bMutated in
        merkle_outer fuel (j + nSize) ((nSize + 1) / 2)%nat r.1 r.2
    end
  else Ok (vMerkleTree, bMutated).

(** The tree that is kept in the block, and the mutation flag. *)
Definition merkle_tree (vtx : list bytes) : res merkle_fail (list bytes * bool) :=
  merkle_outer (length vtx) 0 (length vtx) vtx false.

Definition BuildMerkleTree (vtx : list bytes) : res merkle_fail (bytes * bool) :=
  let? r := merkle_tree vtx in
  Ok (match last r.1 with None => uint256_zero | Some h => h end, r.2).

Fixpoint branch_loop (fuel j nSize nIdx : nat) (vMerkleTree : list bytes) : res merkle_fail (list bytes) :=
  if (1 <? nSize)%nat then
    match fuel with
    | O => Err out_of_fuel
    | S fuel =>
        let i := Nat.min (Nat.lxor nIdx 1) (nSize - 1) in
        let? x := at_ vMerkleTree (j + i) in
        let? r := branch_loop fuel (j + nSize) ((nSize + 1) / 2)%nat (Nat.div2 nIdx) vMerkleTree in
        Ok (x :: r)
    end
  else Ok [].

(** [GetMerkleBranch], the tree of the block being built first if it is not there. *)
Definition GetMerkleBranch (vtx : list bytes) (nIndex : nat) : res merkle_fail (list bytes) :=
  let? r := merkle_tree vtx in branch_loop (length vtx) 0 (length vtx) nIndex r.1.

Fixpoint check_branch_loop (hashMerkle : bytes) (vMerkleBranch : list bytes) (nIndex : Z) : bytes :=
  match vMerkleBranch with
  | [] => hashMerkle
  | h :: vMerkleBranch =>
      check_branch_loop (if negb (Z.land nIndex 1 =? 0) then Hash h hashMerkle else Hash hashMerkle h)
        vMerkleBranch (Z.shiftr nIndex 1)
  end.

Definition CheckMerkleBranch (hash : bytes) (vMerkleBranch : list bytes) (nIndex : Z) : bytes :=
  if nIndex =? -1 then uint256_zero else check_branch_loop hash vMerkleBranch nIndex.

(** ** [CPartialMerkleTree]

    Positions and counters stay below the sizes of vectors and are natural numbers; the
    width of a level is computed at 32 bits. *)

Record CPartialMerkleTree := {
  nTransactions : Z;
  vBits : list bool;
  vHash : list bytes;
  fBad : bool
}.

Definition CalcTreeWidth (nTransactions : Z) (height : nat) : Z :=
  Z.shiftr (u32 (u32 (nTransactions + Z.shiftl 1 (Z.of_nat height)) - 1)) (Z.of_nat height).

Fixpoint CalcHash (nTransactions : Z) (height pos : nat) (vTxid : list bytes) : res merkle_fail bytes :=
  match height with
  | O => at_ vTxid pos
  | S height =>
      let? hleft := CalcHash nTransactions height (pos * 2) vTxid in
      let? hright := (if Z.of_nat (pos * 2 + 1) <? CalcTreeWidth nTransactions height
                     then CalcHash nTransactions height (pos * 2 + 1) vTxid
                     else Ok hleft) in
      Ok (Hash hleft hright)
  end.

(** [for (p = pos << height; p < (pos+1) << height && p < nTransactions; p++)], with [n]
    positions left. *)
Fixpoint parent_loop (n p : nat) (nTransactions : Z) (vMatch : list bool) (acc : bool) : res merkle_fail bool :=
  match n with
  | O => Ok acc
  | S n =>
      if Z.of_nat p <? nTransactions then
        let? b := at_ vMatch p in parent_loop n (p + 1) nTransactions vMatch (acc || b)
      else Ok acc
  end.

(** The state is what has been appended to [vBits] and [vHash]. *)
Fixpoint TraverseAndBuild (nTransactions : Z) (height pos : nat) (vTxid : list bytes) (vMatch : list bool)
    (st : list bool * list bytes) : res merkle_fail (list bool * list bytes) :=
  let? fParentOfMatch := parent_loop (2 ^ height) (pos * 2 ^ height) nTransactions vMatch false in
  let bits := st.1 ++ [fParentOfMatch] in
  match height with
  | O => let? h := CalcHash nTransactions 0 pos vTxid in Ok (bits, st.2 ++ [h])
  | S height' =>
      if negb fParentOfMatch then
        let? h := CalcHash nTransactions height pos vTxid in Ok (bits, st.2 ++ [h])
      else
        let? st := TraverseAndBuild nTransactions height' (pos * 2) vTxid vMatch (bits, st.2) in
        if Z.of_nat (pos * 2 + 1) <? CalcTreeWidth nTransactions height'
        then TraverseAndBuild nTransactions height' (pos * 2 + 1) vTxid vMatch st
        else Ok st
  end.

(** The mutable state of the traversal. *)
Record extract_state := { nBitsUsed : nat; nHashUsed : nat; vMatch : list bytes; bad : bool }.

Definition set_bad (s : extract_state) : extract_state :=
  {| nBitsUsed := nBitsUsed s; nHashUsed := nHashUsed s; vMatch := vMatch s; bad := true |}.

Definition use_bit (s : extract_state) : extract_state :=
  {| nBitsUsed := S (nBitsUsed s); nHashUsed := nHashUsed s; vMatch := vMatch s; bad := bad s |}.

Definition use_hash (s : extract_state) (matched : list bytes) : extract_state :=
  {| nBitsUsed := nBitsUsed s; nHashUsed := S (nHashUsed s); vMatch := vMatch s ++ matched; bad := bad s |}.

(** Taking a stored hash instead of descending. *)
Definition stored_hash (t : CPartialMerkleTree) (is_match : bool) (s : extract_state) : bytes * extract_state :=
  match vHash t !! nHashUsed s with
  | None => (uint256_zero, set_bad s)
  | Some hash => (hash, use_hash s (if is_match then [hash] else []))
  end.

Fixpoint TraverseAndExtract (t : CPartialMerkleTree) (height pos : nat) (s : extract_state) : bytes * extract_state :=
  match vBits t !! nBitsUsed s with
  | None => (uint256_zero, set_bad s)
  | Some fParentOfMatch =>
      let s := use_bit s in
      match height with
      | O => stored_hash t fParentOfMatch s
      | S height' =>
          if negb fParentOfMatch then stored_hash t false s
          else
            let '(hleft, s) := TraverseAndExtract t height' (pos * 2) s in
            if Z.of_nat (pos * 2 + 1) <? CalcTreeWidth (nTransactions t) height' then
              let '(hright, s) := TraverseAndExtract t height' (pos * 2 + 1) s in
              (Hash hleft hright, if bytes_eqb hright hleft then set_bad s else s)
            else (Hash hleft hleft, s)
      end
  end.

(** [while (CalcTreeWidth(nHeight) > 1) nHeight++] *)
Fixpoint height_loop (fuel nHeight : nat) (nTransactions : Z) : res merkle_fail nat :=
  if CalcTreeWidth nTransactions nHeight >? 1 then
    match fuel with
    | O => Err out_of_fuel
    | S fuel => height_loop fuel (S nHeight) nTransactions
    end
  else Ok nHeight.

Definition new_CPartialMerkleTree (vTxid : list bytes) (vMatch : list bool) : res merkle_fail CPartialMerkleTree :=
  let n := u32 (zlen vTxid) in
  let? nHeight := height_loop 32 0 n in
  let? r := TraverseAndBuild n nHeight 0 vTxid vMatch ([], []) in
  Ok {| nTransactions := n; vBits := r.1; vHash := r.2; fBad := false |}.

(** The returned root and [vMatch]; the null hash is a failure. *)
Definition ExtractMatches (t : CPartialMerkleTree) : res merkle_fail (bytes * list bytes) :=
  if nTransactions t =? 0 then Ok (uint256_zero, [])
  else if nTransactions t >? MAX_BLOCK_SIZE / 60 then Ok (uint256_zero, [])
  else if zlen (vHash t) >? nTransactions t then Ok (uint256_zero, [])
  else if (length (vBits t) <? length (vHash t))%nat then Ok (uint256_zero, [])
  else
    let? nHeight := height_loop 32 0 (nTransactions t) in
    let '(hashMerkleRoot, s) := TraverseAndExtract t nHeight 0
      {| nBitsUsed := 0; nHashUsed := 0; vMatch := []; bad := fBad t |} in
    if bad s then Ok (uint256_zero, vMatch s)
    else if negb ((nBitsUsed s + 7) / 8 =? (length (vBits t) + 7) / 8)%nat then Ok (uint256_zero, vMatch s)
    else if negb (nHashUsed s =? length (vHash t))%nat then Ok (uint256_zero, vMatch s)
    else Ok (hashMerkleRoot, vMatch s).

(** *** The flag bits as bytes in the serialization *)

(** Writing: [vBytes[p / 8] |= vBits[p] << (p % 8)] on a vector of zeros. *)
Definition bits_to_bytes (bits : list bool) : bytes :=
  foldl (fun v (pb : nat * bool) => alter (fun x => Z.lor x (Z.shiftl (Z.b2z pb.2) (Z.of_nat (pb.1 mod 8)))) (pb.1 / 8)%nat v)
    (replicate ((length bits + 7) / 8) 0) (imap pair bits).

(** Reading: [vBits[p] = (vBytes[p / 8] & (1 << (p % 8))) != 0]. *)
Definition bytes_to_bits (v : bytes) : list bool :=
  map (fun p => negb (Z.land (default 0 (v !! (p / 8)%nat)) (Z.shiftl 1 (Z.of_nat (p mod 8)%nat)) =? 0))
    (seq 0 (length v * 8)).

End Definitions.

(** ** The reference: the levels of the tree *)

Section Levels.
Context `{Crypto}.
Local Open Scope nat_scope.

Fixpoint pair_up (l : list bytes) : list bytes :=
  match l with
  | a :: b :: l => Hash a b :: pair_up l
  | [a] => [Hash a a]
  | [] => []
  end.

Definition lvl (h : nat) (l : list bytes) : list bytes := Nat.iter h pair_up l.

(** The height of the tree over [n] leaves and its root. *)
Definition height (n : nat) : nat := Nat.log2_up n.
Definition merkle_root (l : list bytes) : bytes := default uint256_zero (head (lvl (height (length l)) l)).

(** Two equal nodes at the end of a level of even length. *)
Definition end_dup (l : list bytes) : Prop := exists pre a, l = pre ++ [a; a] /\ Nat.even (length pre) = true.

Lemma list_ind2 {A : Type} (P : list A -> Prop) :
  P [] -> (forall a, P [a]) -> (forall a b l, P l -> P (a :: b :: l)) -> forall l, P l.
Proof.
  intros H0 H1 H2. fix IH 1. intros [|a [|b l]]; [done|apply H1|apply H2, IH].
Qed.

Lemma pair_up_length l : length (pair_up l) = (length l + 1) / 2.
Proof.
  induction l as [|a|a b l IH] using list_ind2; [done|done|]. cbn [pair_up length]. rewrite IH.
  replace (S (S (length l)) + 1) with (1 * 2 + (length l + 1)) by lia. rewrite Nat.div_add_l by lia. lia.
Qed.

Lemma pair_up_app l1 l2 : Nat.even (length l1) = true -> pair_up (l1 ++ l2) = pair_up l1 ++ pair_up l2.
Proof.
  induction l1 as [|a|a b l1 IH] using list_ind2; [done|done|]. cbn [length Nat.even app pair_up]. intros He.
  by rewrite IH.
Qed.

(** A node of the next level hashes two neighbours, or the last node with itself. *)
Lemma pair_up_lookup l k x : pair_up l !! k = Some x ->
  exists a, l !! (2 * k) = Some a /\ x = Hash a (default a (l !! (2 * k + 1))).
Proof.
  revert k. induction l as [|a|a b l IH] using list_ind2; intros k; cbn [pair_up]; [done| |].
  - destruct k; [|done]. intros [= <-]. by exists a.
  - destruct k as [|k]; [intros [= <-]; by exists a|]. cbn [lookup list_lookup]. intros (c & E1 & E2)%IH.
    exists c. replace (2 * S k) with (S (S (2 * k))) by lia. by rewrite E2.
Qed.

Lemma lvl_S h l : lvl (S h) l = pair_up (lvl h l).
Proof. done. Qed.

Lemma lvl_S_in h l : lvl (S h) l = lvl h (pair_up l).
Proof. unfold lvl. by rewrite <- Nat.iter_succ_r. Qed.

Lemma lvl_length h l : length (lvl h l) = (length l + 2 ^ h - 1) / 2 ^ h.
Proof.
  induction h as [|h IH]; [change (2 ^ 0) with 1; rewrite Nat.div_1_r; cbn; lia|]. rewrite lvl_S, pair_up_length, IH.
  pose proof (Nat.pow_nonzero 2 h) as Hp. rewrite <- Nat.div_add by lia. rewrite Nat.Div0.div_div.
  cbn [Nat.pow]. f_equal; lia.
Qed.

Lemma height_spec n : 1 < n -> height n = S (height ((n + 1) / 2)).
Proof.
  intros Hn. unfold height. pose proof (Nat.div_mod_eq (n + 1) 2) as E.
  pose proof (Nat.mod_upper_bound (n + 1) 2 ltac:(lia)) as Hm. set (m := (n + 1) / 2) in *.
  destruct (decide (m = 1)) as [->|Hm1]; [by assert (n = 2) as -> by lia|].
  apply Nat.log2_up_unique; [lia|]. pose proof (Nat.log2_up_spec m ltac:(lia)) as [H1 H2].
  rewrite Nat.pred_succ. split.
  - destruct (Nat.log2_up m) as [|k] eqn:Ek; [cbn in *; lia|]. rewrite Nat.pred_succ in H1. cbn [Nat.pow] in *. lia.
  - cbn [Nat.pow] in *. lia.
Qed.

Lemma height_small n : n <= 1 -> height n = 0.
Proof. intros. destruct n as [|[|]]; [done|done|lia]. Qed.

Lemma lvl_height_length l : l <> [] -> length (lvl (height (length l)) l) = 1.
Proof.
  intros Hne. remember (length l) as n eqn:En. revert l Hne En. induction n as [n IH] using lt_wf_ind.
  intros l Hne En. destruct (decide (n <= 1)) as [Hle|Hgt].
  - rewrite height_small by done. cbn. destruct l as [|a [|b l]]; cbn in *; [done|done|lia].
  - rewrite height_spec, lvl_S_in by lia. apply IH.
    + pose proof (Nat.div_mod_eq (n + 1) 2). pose proof (Nat.mod_upper_bound (n + 1) 2 ltac:(lia)). lia.
    + destruct l as [|a [|b l]]; done.
    + by rewrite pair_up_length, En.
Qed.

Lemma merkle_root_step l : 1 < length l -> merkle_root l = merkle_root (pair_up l).
Proof. intros Hl. unfold merkle_root. by rewrite height_spec, lvl_S_in, pair_up_length by done. Qed.

(** *** [BuildMerkleTree] computes the levels *)

Lemma merkle_inner_spec fuel pre A B m : Nat.even (length A) = true -> length B <= fuel ->
  exists m', merkle_inner fuel (length A) (length pre) (length (A ++ B)) (pre ++ (A ++ B) ++ pair_up A) m =
      Ok (pre ++ (A ++ B) ++ pair_up (A ++ B), m') /\
    (m' = true <-> m = true \/ B <> [] /\ end_dup (A ++ B)).
Proof.
  revert A B m. induction fuel as [|fuel IH]; intros A B m HA HB.
  { destruct B; [|cbn in HB; lia]. exists m. rewrite app_nil_r. cbn [merkle_inner]. rewrite Nat.ltb_irrefl.
    split; [done|]. split; [by left|by intros [?|[? _]]]. }
  destruct B as [|a B]; cbn [merkle_inner].
  { exists m. rewrite app_nil_r, Nat.ltb_irrefl. split; [done|]. split; [by left|by intros [?|[? _]]]. }
  rewrite length_app. cbn [length]. destruct (Nat.ltb_spec (length A) (length A + S (length B))); [|lia].
  unfold at_. assert (forall k, k < length (A ++ a :: B) ->
    (pre ++ (A ++ a :: B) ++ pair_up A) !! (length pre + k) = (A ++ a :: B) !! k) as Hlook.
  { intros k Hk. rewrite lookup_app_r by lia. rewrite lookup_app_l by (rewrite length_app in *; lia). f_equal. lia. }
  rewrite Hlook, list_lookup_middle by (rewrite ?length_app; cbn; lia). cbn [res_bind].
  destruct B as [|b B]; cbn [length].
  - rewrite Nat.min_r by lia. replace (length A + 1 - 1) with (length A) by lia.
    rewrite Hlook, list_lookup_middle by (rewrite ?length_app; cbn; lia). cbn [res_bind].
    destruct (Nat.eqb_spec (length A) (length A + 1)); [lia|]. cbn [andb].
    exists m. destruct fuel; cbn [merkle_inner]; (destruct (Nat.ltb_spec (length A + 2) (length A + 1)); [lia|]).
    all: split; [by rewrite (pair_up_app A [a]), <- !app_assoc|].
    all: split; [by left|intros [?|[_ (p & x & E & Hp)]]; [done|]].
    all: apply (f_equal length) in E; rewrite !length_app in E; cbn in E.
    all: assert (length A = S (length p)) as El by lia; rewrite El, Nat.even_succ, <- Nat.negb_even, Hp in HA; done.
  - rewrite Nat.min_l by lia.
    assert ((A ++ a :: b :: B) !! (length A + 1) = Some b) as Eb by (rewrite lookup_app_r by lia; by replace (length A + 1 - length A) with 1 by lia).
    rewrite Hlook, Eb by (rewrite length_app; cbn; lia). cbn [res_bind]. rewrite Nat.eqb_refl. cbn [andb].
    assert (Nat.even (length (A ++ [a; b])) = true) as HA' by (rewrite length_app; cbn; by rewrite Nat.add_comm).
    specialize (IH (A ++ [a; b]) B). cbn [length] in HB.
    set (m1 := if (length A + 1 + 1 =? length A + S (S (length B))) && bytes_eqb a b then true else m).
    destruct (IH m1 HA' ltac:(lia)) as (m' & E & Hm'). exists m'.
    rewrite !length_app, pair_up_app, <- !app_assoc in E by done. cbn [app length pair_up] in E.
    rewrite <- !app_assoc. cbn [app]. replace (length A + S (S (length B))) with (length A + 2 + length B) by lia.
    split; [exact E|]. rewrite Hm', <- app_assoc. cbn [app]. unfold m1.
    destruct (Nat.eqb_spec (length A + 1 + 1) (length A + S (S (length B)))) as [El|El]; cbn [andb].
    + assert (B = []) as -> by (destruct B; [done|cbn in El; lia]). destruct (bytes_eqb a b) eqn:Eab.
      * apply bytes_eqb_spec in Eab as <-. split; [|by left]. intros _. right. split; [done|]. by exists A, a.
      * split; [intros [?|[? _]]; [by left|done]|intros [?|[_ (p & x & E2 & Hp)]]; [by left|exfalso]].
        apply app_inj_2 in E2 as [_ [= -> ->]]; [|done]. by rewrite (proj2 (bytes_eqb_spec x x)) in Eab.
    + split; [intros [?|[? ?]]; [by left|by right]|intros [?|[_ ?]]; [by left|right; split; [|done]]].
      intros ->. cbn in El. lia.
Qed.

(** All levels in one vector, and the flag. *)
Fixpoint flat (h : nat) (l : list bytes) : list bytes :=
  match h with O => l | S h => l ++ flat h (pair_up l) end.

Definition mutated (l : list bytes) : Prop := exists k, k < height (length l) /\ end_dup (lvl k l).

Lemma half_lt n : 1 < n -> 1 <= (n + 1) / 2 < n.
Proof.
  intros. pose proof (Nat.div_mod_eq (n + 1) 2). pose proof (Nat.mod_upper_bound (n + 1) 2 ltac:(lia)). lia.
Qed.

Lemma mutated_step l : 1 < length l -> mutated l <-> end_dup l \/ mutated (pair_up l).
Proof.
  intros Hl. unfold mutated. rewrite height_spec, pair_up_length by done. split.
  - intros ([|k] & Hk & Hd); [by left|right]. exists k. rewrite lvl_S_in in Hd. split; [lia|done].
  - intros [Hd|(k & Hk & Hd)]; [exists 0; split; [lia|done]|exists (S k); rewrite lvl_S_in; split; [lia|done]].
Qed.

Lemma merkle_outer_spec fuel pre l m : length l <= fuel ->
  exists m', merkle_outer fuel (length pre) (length l) (pre ++ l) m = Ok (pre ++ flat (height (length l)) l, m') /\
    (m' = true <-> m = true \/ mutated l).
Proof.
  revert pre l m. induction fuel as [|fuel IH]; intros pre l m Hf; cbn [merkle_outer].
  all: destruct (Nat.ltb_spec 1 (length l)) as [Hl|Hl]; [try lia|].
  2: destruct (merkle_inner_spec (length l) pre [] l m eq_refl ltac:(lia)) as (m1 & E & Hm1);
     cbn [length app pair_up] in E, Hm1; rewrite app_nil_r in E; rewrite E; cbn [res_bind fst snd];
     pose proof (half_lt _ Hl);
     destruct (IH (pre ++ l) (pair_up l) m1) as (m' & E2 & Hm'); [rewrite pair_up_length; lia|];
     rewrite pair_up_length, length_app, <- !app_assoc in E2; exists m'; rewrite height_spec by done;
     cbn [flat]; split; [exact E2|]; rewrite Hm', Hm1, (mutated_step l) by done.
  2: { split; [intros [[?|[_ ?]]|?]|intros [?|[?|?]]]; try by auto. left. right. split; [|done]. intros ->. cbn in Hl. lia. }
  all: exists m; rewrite height_small by done; split; [done|]; split; [by left|].
  all: intros [?|(k & Hk & _)]; [done|rewrite height_small in Hk by done; lia].
Qed.

Lemma last_flat h l x : lvl h l = [x] -> last (flat h l) = Some x.
Proof.
  revert l. induction h as [|h IH]; intros l; cbn [flat].
  { intros E. change (lvl 0 l) with l in E. by rewrite E. }
  rewrite lvl_S_in. intros E.
  by rewrite last_app, (IH _ E).
Qed.

Lemma merkle_tree_spec l : exists m, merkle_tree l = Ok (flat (height (length l)) l, m) /\ (m = true <-> mutated l).
Proof.
  destruct (merkle_outer_spec (length l) [] l false ltac:(lia)) as (m & E & Hm). exists m. split; [exact E|].
  rewrite Hm. split; [by intros [?|?]|by right].
Qed.

Lemma merkle_root_nonempty l : l <> [] -> lvl (height (length l)) l = [merkle_root l].
Proof.
  intros Hne. unfold merkle_root. pose proof (lvl_height_length l Hne) as Hlen.
  by destruct (lvl (height (length l)) l) as [|x [|??]].
Qed.

Lemma BuildMerkleTree_spec l : exists m, BuildMerkleTree l = Ok (merkle_root l, m) /\ (m = true <-> mutated l).
Proof.
  destruct (merkle_tree_spec l) as (m & E & Hm). exists m. unfold BuildMerkleTree. rewrite E. cbn [res_bind fst snd].
  split; [|done]. destruct (decide (l = [])) as [->|Hne]; [done|].
  by rewrite (last_flat _ _ _ (merkle_root_nonempty l Hne)).
Qed.

(** *** Branches *)

(** The parent of node [i] of a level, from the node and its sibling. *)
Lemma parent_step l i x : l !! i = Some x -> 1 < length l ->
  exists s, l !! (Nat.min (Nat.lxor i 1) (length l - 1)) = Some s /\
    pair_up l !! (Nat.div2 i) = Some (if Nat.odd i then Hash s x else Hash x s).
Proof.
  intros Hx Hl. pose proof (lookup_lt_Some _ _ _ Hx) as Hi.
  assert (exists k, i = 2 * k \/ i = 2 * k + 1) as (k & Hk).
  { exists (Nat.div2 i). pose proof (Nat.div2_odd i) as E. destruct (Nat.odd i); cbn [Nat.b2n] in E; [right|left]; lia. }
  assert (is_Some (pair_up l !! k)) as [y Hy].
  { apply lookup_lt_is_Some. rewrite pair_up_length. pose proof (Nat.div_mod_eq (length l + 1) 2).
    pose proof (Nat.mod_upper_bound (length l + 1) 2 ltac:(lia)). lia. }
  destruct (pair_up_lookup l k y Hy) as (a & Ea & ->).
  destruct Hk as [->| ->].
  - rewrite Nat.div2_double, Nat.odd_mul. cbn [Nat.odd Nat.even negb andb].
    assert (Nat.lxor (2 * k) 1 = 2 * k + 1) as ->.
    { apply Nat.bits_inj. intros [|n]; rewrite Nat.lxor_spec.
      - rewrite Nat.testbit_even_0, Nat.testbit_odd_0. done.
      - rewrite Nat.testbit_even_succ', Nat.testbit_odd_succ' by lia. cbn. by rewrite Nat.bits_0, xorb_false_r. }
    rewrite Hx in Ea. injection Ea as ->. destruct (decide (2 * k + 1 < length l)) as [Hlt|Hge].
    + destruct (lookup_lt_is_Some_2 l (2 * k + 1) Hlt) as [s Es]. exists s. rewrite Nat.min_l by lia.
      split; [done|]. by rewrite Hy, Es.
    + exists a. rewrite Nat.min_r by lia. replace (length l - 1) with (2 * k) by lia. split; [done|].
      by rewrite Hy, (lookup_ge_None_2 l (2 * k + 1)) by lia.
  - assert (Nat.div2 (2 * k + 1) = k) as -> by (rewrite Nat.add_1_r; apply Nat.div2_succ_double).
    assert (Nat.odd (2 * k + 1) = true) as -> by (rewrite Nat.add_1_r, Nat.odd_succ; apply Nat.even_even).
    assert (Nat.lxor (2 * k + 1) 1 = 2 * k) as ->.
    { apply Nat.bits_inj. intros [|n]; rewrite Nat.lxor_spec.
      - rewrite Nat.testbit_even_0, Nat.testbit_odd_0. done.
      - rewrite Nat.testbit_even_succ', Nat.testbit_odd_succ' by lia. cbn. by rewrite Nat.bits_0, xorb_false_r. }
    exists a. rewrite Nat.min_l by lia. split; [done|]. by rewrite Hy, Hx.
Qed.

Lemma index_bits i : (Z.land (Z.of_nat i) 1 =? 0)%Z = negb (Nat.odd i) /\ Z.shiftr (Z.of_nat i) 1 = Z.of_nat (Nat.div2 i).
Proof.
  split.
  - change 1%Z with (Z.ones 1). rewrite Z.land_ones by lia. change (2 ^ 1)%Z with 2%Z.
    pose proof (Nat.div2_odd i) as E. destruct (Nat.odd i); cbn [Nat.b2n negb] in *;
      [apply Z.eqb_neq|apply Z.eqb_eq]; rewrite E; Z.to_euclidean_division_equations; lia.
  - rewrite Z.shiftr_div_pow2 by lia. change (2 ^ 1)%Z with (Z.of_nat 2).
    by rewrite <- Nat2Z.inj_div, Nat.div2_div.
Qed.

Lemma branch_loop_spec fuel pre l i x : l !! i = Some x -> length l <= fuel ->
  exists br, branch_loop fuel (length pre) (length l) i (pre ++ flat (height (length l)) l) = Ok br /\
    length br = height (length l) /\ check_branch_loop x br (Z.of_nat i) = merkle_root l.
Proof.
  revert pre l i x. induction fuel as [|fuel IH]; intros pre l i x Hx Hf;
    pose proof (lookup_lt_Some _ _ _ Hx) as Hi; [lia|]. cbn [branch_loop].
  destruct (Nat.ltb_spec 1 (length l)) as [Hl|Hl].
  - destruct (parent_step l i x Hx Hl) as (sib & Es & Hp). rewrite height_spec by done. cbn [flat]. unfold at_.
    rewrite lookup_app_r by lia. replace (length pre + Nat.min (Nat.lxor i 1) (length l - 1) - length pre)
      with (Nat.min (Nat.lxor i 1) (length l - 1)) by lia.
    rewrite lookup_app_l, Es by lia. cbn [res_bind]. pose proof (half_lt _ Hl).
    destruct (IH (pre ++ l) (pair_up l) (Nat.div2 i) _ Hp) as (br & E & Hlen & Hc); [rewrite pair_up_length; lia|].
    rewrite length_app, pair_up_length, <- !app_assoc in *. rewrite E. cbn [res_bind]. eexists; split; [done|].
    split; [cbn [length]; by rewrite Hlen|]. cbn [check_branch_loop]. destruct (index_bits i) as [-> ->].
    rewrite negb_involutive, Hc. symmetry. by apply merkle_root_step.
  - exists []. rewrite height_small by done. split; [done|]. split; [done|]. cbn. unfold merkle_root.
    rewrite height_small by done. destruct l as [|a [|b l]]; [done| |cbn in *; lia].
    destruct i; [by injection Hx as ->|done].
Qed.

(** *** The root determines the leaves *)

(** The byte strings that are hashed while the first [h] levels are computed. *)
Fixpoint pairs (l : list bytes) : list bytes :=
  match l with
  | a :: b :: l => (a ++ b) :: pairs l
  | [a] => [a ++ a]
  | [] => []
  end.

Fixpoint hashed (h : nat) (l : list bytes) : list bytes :=
  match h with O => [] | S h => pairs l ++ hashed h (pair_up l) end.

Definition no_collision (ps : list bytes) : Prop := forall p q, p ∈ ps -> q ∈ ps -> hash256 p = hash256 q -> p = q.

Lemma no_collision_sub ps qs : qs ⊆ ps -> no_collision ps -> no_collision qs.
Proof. intros Hs Hn p q Hp Hq. apply Hn; by apply Hs. Qed.

Lemma end_dup_cons a b l : end_dup l -> end_dup (a :: b :: l).
Proof. intros (p & x & -> & Hp). by exists (a :: b :: p), x. Qed.

Lemma pair_up_inj l1 l2 : digests l1 -> digests l2 -> no_collision (pairs l1 ++ pairs l2) -> pair_up l1 = pair_up l2 ->
  l1 = l2 \/ end_dup l1 \/ end_dup l2.
Proof.
  revert l2. induction l1 as [|a|a b l1 IH] using list_ind2; intros l2 H1 H2 Hn E.
  - destruct l2 as [|c [|d l2]]; [by left|done|done].
  - destruct l2 as [|c [|d l2]]; cbn [pair_up pairs] in *; [done| |].
    + injection E as E. apply Hn in E; [|set_solver..]. rewrite Forall_singleton in H1, H2.
      apply app_inj_1 in E as [-> _]; [by left|cbn in *; congruence].
    + injection E as E E2. apply Hn in E; [|set_solver..]. rewrite Forall_singleton in H1. apply Forall_cons in H2 as [H2 _].
      apply app_inj_1 in E as [<- <-]; [|cbn in *; congruence]. right. right.
      assert (l2 = []) as -> by (by destruct l2 as [|? [|??]]). by exists [], a.
  - destruct l2 as [|c [|d l2]]; cbn [pair_up pairs] in *; [done| |].
    + injection E as E E2. apply Hn in E; [|set_solver..]. rewrite Forall_singleton in H2. apply Forall_cons in H1 as [H1 _].
      apply app_inj_1 in E as [-> ->]; [|cbn in *; congruence]. right. left.
      assert (l1 = []) as -> by (by destruct l1 as [|? [|??]]). by exists [], c.
    + injection E as E E2. apply Hn in E; [|set_solver..].
      apply Forall_cons in H1 as [Ha H1], H2 as [Hc H2]. apply Forall_cons in H1 as [_ H1], H2 as [_ H2].
      apply app_inj_1 in E as [-> ->]; [|cbn in *; congruence].
      destruct (IH l2 H1 H2) as [->|[Hd|Hd]]; [|done|by left|right; left|right; right]; [|by apply end_dup_cons..].
      eapply no_collision_sub; [|exact Hn]. set_solver.
Qed.

Context `{!CryptoLaws H}.

Lemma Hash_length a b : length (Hash a b) = 32.
Proof. pose proof (sha256_len (sha256 (a ++ b))) as E. unfold Hash, hash256. unfold zlen in E. lia. Qed.

Lemma digests_pair_up l : digests (pair_up l).
Proof.
  induction l as [|a|a b l IH] using list_ind2; cbn; [done|apply Forall_singleton, Hash_length|].
  apply Forall_cons. split; [apply Hash_length|done].
Qed.

Lemma lvl_inj h l1 l2 : digests l1 -> digests l2 -> no_collision (hashed h l1 ++ hashed h l2) -> lvl h l1 = lvl h l2 ->
  (forall k, k < h -> ~ end_dup (lvl k l1)) -> (forall k, k < h -> ~ end_dup (lvl k l2)) -> l1 = l2.
Proof.
  revert l1 l2. induction h as [|h IH]; intros l1 l2 H1 H2 Hn E Hd1 Hd2; [done|].
  rewrite !lvl_S_in in E. cbn [hashed] in Hn.
  assert (pair_up l1 = pair_up l2) as Ep.
  { apply IH; [apply digests_pair_up..| |done| |].
    - eapply no_collision_sub; [|exact Hn]. set_solver.
    - intros k Hk. rewrite <- lvl_S_in. apply Hd1. lia.
    - intros k Hk. rewrite <- lvl_S_in. apply Hd2. lia. }
  destruct (pair_up_inj l1 l2 H1 H2) as [?|[Hd|Hd]]; [|done|done| |].
  - eapply no_collision_sub; [|exact Hn]. set_solver.
  - by destruct (Hd1 0 ltac:(lia)).
  - by destruct (Hd2 0 ltac:(lia)).
Qed.

(** The branch that [GetMerkleBranch] extracts for a transaction leads
    [CheckMerkleBranch] from the hash of the transaction to the root that
    [BuildMerkleTree] computes; no access is out of bounds and the branch is as long as the
    tree is high. *)
Theorem merkle_branch_correct l i x : l !! i = Some x ->
  exists r m br, BuildMerkleTree l = Ok (r, m) /\ GetMerkleBranch l i = Ok br /\
    length br = Nat.log2_up (length l) /\ CheckMerkleBranch x br (Z.of_nat i) = r.
Proof.
  intros Hx. destruct (BuildMerkleTree_spec l) as (m & E & _). destruct (merkle_tree_spec l) as (m' & E' & _).
  destruct (branch_loop_spec (length l) [] l i x Hx ltac:(lia)) as (br & Eb & Hlen & Hc).
  exists (merkle_root l), m, br. split; [done|]. unfold GetMerkleBranch, CheckMerkleBranch. rewrite E'.
  split; [exact Eb|]. split; [done|]. by destruct (Z.eqb_spec (Z.of_nat i) (-1)); [lia|].
Qed.

Lemma merkle_root_inj l1 l2 r : digests l1 -> digests l2 ->
  Nat.log2_up (length l1) = Nat.log2_up (length l2) -> l1 <> [] -> l2 <> [] ->
  no_collision (hashed (height (length l1)) l1 ++ hashed (height (length l2)) l2) ->
  BuildMerkleTree l1 = Ok (r, false) -> BuildMerkleTree l2 = Ok (r, false) -> l1 = l2.
Proof.
  intros H1 H2 Eh Hn1 Hn2 Hn B1 B2.
  destruct (BuildMerkleTree_spec l1) as (m1 & E1 & Hm1), (BuildMerkleTree_spec l2) as (m2 & E2 & Hm2).
  rewrite B1 in E1. rewrite B2 in E2. injection E1 as -> <-. injection E2 as E2 <-.
  pose proof (merkle_root_nonempty l1 Hn1) as R1. pose proof (merkle_root_nonempty l2 Hn2) as R2.
  fold (height (length l1)) in Eh. fold (height (length l2)) in Eh. rewrite <- Eh in *.
  apply (lvl_inj (height (length l1))); [done|done|done| |intros k Hk Hd|intros k Hk Hd].
  - by rewrite R1, R2, E2.
  - discriminate (proj2 Hm1 (ex_intro _ k (conj Hk Hd))).
  - rewrite Eh in Hk. discriminate (proj2 Hm2 (ex_intro _ k (conj Hk Hd))).
Qed.

(** C25. The Merkle root determines the transactions: two lists of the same tree height for
    which [BuildMerkleTree] returns the same root and no mutation are equal, unless the
    hash collides on two byte strings hashed for these trees.  With the flag set, equal
    roots of different lists are possible: the flag is necessary. *)
Theorem merkle_root_unique l1 l2 r : digests l1 -> digests l2 ->
  Nat.log2_up (length l1) = Nat.log2_up (length l2) -> l1 <> [] -> l2 <> [] ->
  no_collision (hashed (height (length l1)) l1 ++ hashed (height (length l2)) l2) ->
  BuildMerkleTree l1 = Ok (r, false) -> BuildMerkleTree l2 = Ok (r, false) -> l1 = l2.
Proof. apply merkle_root_inj. Qed.
End Levels.

(** ** Partial trees *)

Section Partial.
Context `{Crypto} `{!CryptoLaws H}.
Local Open Scope nat_scope.

(** The leaves under a node, and the selected ones among them. *)
Definition slice {A : Type} (h pos : nat) (l : list A) : list A := take (2 ^ h) (drop (pos * 2 ^ h) l).

Fixpoint select (l : list bytes) (m : list bool) : list bytes :=
  match l, m with
  | x :: l, b :: m => if b then x :: select l m else select l m
  | _, _ => []
  end.

Lemma slice_split {A} h pos (l : list A) : slice (S h) pos l = slice h (pos * 2) l ++ slice h (pos * 2 + 1) l.
Proof.
  unfold slice. cbn [Nat.pow]. replace (2 * 2 ^ h) with (2 ^ h + 2 ^ h) by lia.
  rewrite <- take_take_drop, drop_drop. f_equal; f_equal; f_equal; nia.
Qed.

Lemma slice_length {A} h pos (l : list A) : length (slice h pos l) = Nat.min (2 ^ h) (length l - pos * 2 ^ h).
Proof. unfold slice. by rewrite length_take, length_drop. Qed.

Lemma select_app l1 l2 m1 m2 : length l1 = length m1 -> select (l1 ++ l2) (m1 ++ m2) = select l1 m1 ++ select l2 m2.
Proof.
  revert m1. induction l1 as [|x l1 IH]; intros [|b m1] E; try done. cbn. injection E as E.
  destruct b; by rewrite (IH m1 E).
Qed.

Lemma select_none l m : existsb id m = false -> select l m = [].
Proof.
  revert l. induction m as [|b m IH]; intros [|x l]; cbn; try done. destruct b; [done|]. apply IH.
Qed.

Lemma parent_loop_spec m p n v acc : length v = n ->
  parent_loop m p (Z.of_nat n) v acc = Ok (acc || existsb id (take m (drop p v))).
Proof.
  intros Hn. revert p acc. induction m as [|m IH]; intros p acc; cbn [parent_loop].
  { by rewrite orb_false_r. }
  destruct (Z.ltb_spec (Z.of_nat p) (Z.of_nat n)) as [Hlt|Hge].
  - destruct (lookup_lt_is_Some_2 v p ltac:(lia)) as [b Eb]. unfold at_. rewrite Eb. cbn [res_bind].
    rewrite IH, Nat.add_1_r, (drop_S v b p Eb). cbn. by rewrite orb_assoc.
  - rewrite drop_ge by lia. by rewrite orb_false_r.
Qed.

(** Nodes of a level and the width the code computes. *)
Lemma width_spec (l : list bytes) h : (zlen l + 2 ^ Z.of_nat h <= 2 ^ 32)%Z ->
  CalcTreeWidth (zlen l) h = Z.of_nat (length (lvl h l)).
Proof.
  intros Hb. unfold CalcTreeWidth. rewrite Z.shiftl_1_l, lvl_length. unfold zlen in *.
  pose proof (Nat.pow_nonzero 2 h). assert (Z.of_nat (2 ^ h) = 2 ^ Z.of_nat h)%Z as Ep by (by rewrite Nat2Z.inj_pow).
  rewrite Z.shiftr_div_pow2 by lia. rewrite Nat2Z.inj_div, <- Ep in *. f_equal. unfold u32.
  destruct (decide (Z.of_nat (length l) + Z.of_nat (2 ^ h) = 2 ^ 32)%Z) as [E|E].
  - rewrite E, Z_mod_same_full. rewrite Nat2Z.inj_sub, Nat2Z.inj_add by lia. rewrite E. done.
  - rewrite !Z.mod_small by (rewrite ?Z.mod_small; lia). lia.
Qed.

Lemma lvl_slice_None {l : list bytes} {h pos} : lvl h l !! pos = None -> slice h pos l = [].
Proof.
  intros Hn%lookup_ge_None. apply length_zero_iff_nil. rewrite slice_length, lvl_length in *.
  pose proof (Nat.pow_nonzero 2 h ltac:(done)) as Hp. pose proof (Nat.div_mod_eq (length l + 2 ^ h - 1) (2 ^ h)) as E.
  pose proof (Nat.mod_upper_bound (length l + 2 ^ h - 1) (2 ^ h) Hp).
  assert (2 ^ h * ((length l + 2 ^ h - 1) / 2 ^ h) <= 2 ^ h * pos) by (by apply Nat.mul_le_mono_l). lia.
Qed.

Lemma lvl_slice_Some {l : list bytes} {h pos x} : lvl h l !! pos = Some x -> 0 < length (slice h pos l).
Proof.
  intros Hn%lookup_lt_Some. rewrite slice_length, lvl_length in *.
  pose proof (Nat.pow_nonzero 2 h ltac:(done)) as Hp. pose proof (Nat.div_mod_eq (length l + 2 ^ h - 1) (2 ^ h)) as E.
  pose proof (Nat.mod_upper_bound (length l + 2 ^ h - 1) (2 ^ h) Hp).
  assert (2 ^ h * S pos <= 2 ^ h * ((length l + 2 ^ h - 1) / 2 ^ h)) by (by apply Nat.mul_le_mono_l). lia.
Qed.

(** A node above the leaves: its children, as the code finds them. *)
Lemma children (l : list bytes) h pos x : (zlen l + 2 ^ Z.of_nat h <= 2 ^ 32)%Z -> lvl (S h) l !! pos = Some x ->
  exists a, lvl h l !! (pos * 2) = Some a /\
    ((exists b, lvl h l !! (pos * 2 + 1) = Some b /\ x = Hash a b /\
        (Z.of_nat (pos * 2 + 1) <? CalcTreeWidth (zlen l) h)%Z = true) \/
     (lvl h l !! (pos * 2 + 1) = None /\ x = Hash a a /\
        (Z.of_nat (pos * 2 + 1) <? CalcTreeWidth (zlen l) h)%Z = false)).
Proof.
  intros Hb Hx. rewrite width_spec by done. rewrite lvl_S in Hx. apply pair_up_lookup in Hx as (a & Ea & ->).
  rewrite (Nat.mul_comm pos 2). exists a. split; [done|]. destruct (lvl h l !! (2 * pos + 1)) as [b|] eqn:Eb; cbn [default].
  - left. exists b. apply lookup_lt_Some in Eb. split_and!; [done|done|]. apply Z.ltb_lt. lia.
  - right. apply lookup_ge_None in Eb. split_and!; [done|done|]. apply Z.ltb_ge. lia.
Qed.

Lemma pow_bound_S (n : Z) h : (n + 2 ^ Z.of_nat (S h) <= 2 ^ 32 -> n + 2 ^ Z.of_nat h <= 2 ^ 32)%Z.
Proof. intros. rewrite Nat2Z.inj_succ, Z.pow_succ_r in * by lia. pose proof (Z.pow_nonneg 2 (Z.of_nat h)). lia. Qed.

Lemma CalcHash_spec (l : list bytes) h pos x : (zlen l + 2 ^ Z.of_nat h <= 2 ^ 32)%Z -> lvl h l !! pos = Some x ->
  CalcHash (zlen l) h pos l = Ok x.
Proof.
  revert pos x. induction h as [|h IH]; intros pos x Hb Hx.
  { change (lvl 0 l) with l in Hx. cbn [CalcHash]. unfold at_. by rewrite Hx. }
  apply pow_bound_S in Hb. cbn [CalcHash]. destruct (children l h pos x Hb Hx) as (a & Ea & [(b & Eb & -> & ->)|(Eb & -> & ->)]);
    rewrite (IH _ _ Hb Ea); cbn [res_bind]; [|done]. by rewrite (IH _ _ Hb Eb).
Qed.

(** *** Building and reading back *)

(** The state after a traversal has used the bits and hashes that building stored. *)
Definition reads_back (l : list bytes) (vm : list bool) (h pos : nat) (x : bytes) (bits : list bool) (hs : list bytes) : Prop :=
  forall t s pb qb ph qh, nTransactions t = zlen l -> vBits t = pb ++ bits ++ qb -> vHash t = ph ++ hs ++ qh ->
    nBitsUsed s = length pb -> nHashUsed s = length ph ->
    TraverseAndExtract t h pos s =
      (x, {| nBitsUsed := length pb + length bits; nHashUsed := length ph + length hs;
             vMatch := vMatch s ++ select (slice h pos l) (slice h pos vm); bad := bad s |}).

Definition built (l : list bytes) (vm : list bool) (h pos : nat) (bits : list bool) (hs : list bytes) : Prop :=
  forall st, TraverseAndBuild (zlen l) h pos l vm st = Ok (st.1 ++ bits, st.2 ++ hs).

Lemma stored_hash_read t ph x qh s is_match : vHash t = ph ++ [x] ++ qh -> nHashUsed s = length ph ->
  stored_hash t is_match s = (x, use_hash s (if is_match then [x] else [])).
Proof. intros Ev Eu. unfold stored_hash. rewrite Ev, Eu. cbn [app]. by rewrite list_lookup_middle. Qed.

Ltac app_norm := rewrite <- ?app_assoc; cbn [app]; rewrite <- ?app_assoc; reflexivity.

Lemma traverse_spec (l : list bytes) vm h pos x : length vm = length l -> (zlen l + 2 ^ Z.of_nat h <= 2 ^ 32)%Z ->
  (forall k, k < h -> NoDup (lvl k l)) -> lvl h l !! pos = Some x ->
  exists bits hs, built l vm h pos bits hs /\ reads_back l vm h pos x bits hs /\
    length hs <= length bits /\ length hs <= length (slice h pos l).
Proof.
  intros Hvm. revert pos x. induction h as [|h IH]; intros pos x Hb Hnd Hx; pose proof (lvl_slice_Some Hx) as Hsl.
  { change (lvl 0 l) with l in Hx. pose proof (lookup_lt_Some _ _ _ Hx) as Hlt.
    destruct (lookup_lt_is_Some_2 vm pos ltac:(lia)) as [b Eb].
    assert (slice 0 pos l = [x]) as El by (unfold slice; rewrite Nat.mul_1_r, (drop_S _ _ _ Hx); done).
    assert (slice 0 pos vm = [b]) as Em by (unfold slice; rewrite Nat.mul_1_r, (drop_S _ _ _ Eb); done).
    exists [b], [x]. split_and!; [| |done|by rewrite El].
    - intros st. cbn [TraverseAndBuild]. unfold zlen. rewrite (parent_loop_spec _ _ _ _ _ Hvm).
      fold (slice 0 pos vm). rewrite Em. cbn. rewrite orb_false_r. unfold at_. by rewrite Hx.
    - intros t s pb qb ph qh _ Ebits Ehash Eu1 Eu2. cbn [TraverseAndExtract].
      rewrite Ebits, Eu1. cbn [app]. rewrite list_lookup_middle by done.
      rewrite (stored_hash_read t ph x qh) by done. rewrite El, Em. unfold use_hash, use_bit. cbn.
      rewrite Eu1, Eu2, !Nat.add_1_r. by destruct b. }
  pose proof (pow_bound_S _ _ Hb) as Hb'.
  assert (forall st, parent_loop (2 ^ S h) (pos * 2 ^ S h) (zlen l) vm st = Ok (st || existsb id (slice (S h) pos vm))) as Hpl
    by (intros st; unfold zlen; by rewrite (parent_loop_spec _ _ _ _ _ Hvm)).
  destruct (existsb id (slice (S h) pos vm)) eqn:Em.
  2: { exists [false], [x]. split_and!; [| |done|exact Hsl].
    - intros st. cbn [TraverseAndBuild]. rewrite Hpl. cbn [orb res_bind negb]. by rewrite (CalcHash_spec l (S h) pos x Hb Hx).
    - intros t s pb qb ph qh _ Ebits Ehash Eu1 Eu2. cbn [TraverseAndExtract]. rewrite Ebits, Eu1. cbn [app].
      rewrite list_lookup_middle by done. cbn [negb]. rewrite (stored_hash_read t ph x qh) by done.
      rewrite (select_none _ _ Em). unfold use_hash, use_bit. cbn. by rewrite Eu1, Eu2, !Nat.add_1_r. }
  assert (forall k, k < h -> NoDup (lvl k l)) as Hnd' by (intros; apply Hnd; lia).
  destruct (children l h pos x Hb' Hx) as (a & Ea & Hc). destruct (IH _ _ Hb' Hnd' Ea) as (b1 & h1 & B1 & R1 & L1 & L1').
  assert (length (slice h (pos * 2) l) = length (slice h (pos * 2) vm)) as Esl by (rewrite !slice_length; lia).
  destruct Hc as [(b & Eb & -> & Hw)|(Eb & -> & Hw)].
  - destruct (IH _ _ Hb' Hnd' Eb) as (b2 & h2 & B2 & R2 & L2 & L2').
    exists (true :: b1 ++ b2), (h1 ++ h2). split_and!.
    + intros st. cbn [TraverseAndBuild]. rewrite Hpl. cbn [orb res_bind negb]. rewrite B1. cbn [res_bind]. rewrite Hw, B2.
      cbn [fst snd]. by rewrite <- !app_assoc.
    + intros t s pb qb ph qh En Ebits Ehash Eu1 Eu2. cbn [TraverseAndExtract]. rewrite Ebits, Eu1. cbn [app].
      rewrite list_lookup_middle by done. cbn [negb].
      rewrite (R1 t (use_bit s) (pb ++ [true]) (b2 ++ qb) ph (h2 ++ qh)); [|done| | | |].
      2: { rewrite Ebits. app_norm. } 2: { rewrite Ehash. app_norm. }
      2: { cbn. rewrite length_app. cbn. lia. } 2: { done. }
      rewrite En, Hw.
      erewrite (R2 t _ ((pb ++ [true]) ++ b1) qb (ph ++ h1) qh); [|done| | | |].
      2: { rewrite Ebits. app_norm. } 2: { rewrite Ehash. app_norm. }
      2: { cbn. by rewrite !length_app. } 2: { cbn. by rewrite !length_app. }
      assert (bytes_eqb b a = false) as ->.
      { apply not_true_iff_false. rewrite bytes_eqb_spec. intros ->.
        pose proof (NoDup_lookup _ _ _ _ (Hnd h ltac:(lia)) Ea Eb). lia. }
      f_equal. cbn [vMatch bad use_bit]. rewrite !slice_split, select_app by done. rewrite <- app_assoc.
      rewrite !length_app. cbn [length]. rewrite !length_app. f_equal; first [done|lia|app_norm].
    + cbn [length]. rewrite !length_app. lia.
    + rewrite slice_split, !length_app. lia.
  - exists (true :: b1), h1. split_and!.
    + intros st. cbn [TraverseAndBuild]. rewrite Hpl. cbn [orb res_bind negb]. rewrite B1. cbn [res_bind]. rewrite Hw.
      cbn [fst snd]. by rewrite <- !app_assoc.
    + intros t s pb qb ph qh En Ebits Ehash Eu1 Eu2. cbn [TraverseAndExtract]. rewrite Ebits, Eu1. cbn [app].
      rewrite list_lookup_middle by done. cbn [negb].
      rewrite (R1 t (use_bit s) (pb ++ [true]) qb ph qh); [|done| |done| |done].
      2: { rewrite Ebits. app_norm. } 2: { cbn. rewrite length_app. cbn. lia. }
      rewrite En, Hw. f_equal. cbn [vMatch bad use_bit]. rewrite !slice_split, select_app by done.
      rewrite (lvl_slice_None Eb). cbn [select]. rewrite app_nil_r, length_app. cbn [length]. f_equal; first [done|lia|app_norm].
    + cbn [length]. lia.
    + rewrite slice_split, length_app. lia.
Qed.

Lemma width_gt1 (l : list bytes) h : l <> [] -> 1 < length (lvl h l) <-> h < height (length l).
Proof.
  intros Hne. assert (0 < length l) as Hl by (destruct l; [done|cbn; lia]).
  pose proof (Nat.pow_nonzero 2 h ltac:(done)) as Hp. unfold height.
  rewrite lvl_length. pose proof (Nat.log2_up_le_pow2 (length l) h Hl) as Hlog.
  pose proof (Nat.div_mod_eq (length l + 2 ^ h - 1) (2 ^ h)) as E.
  pose proof (Nat.mod_upper_bound (length l + 2 ^ h - 1) (2 ^ h) Hp) as Hm.
  set (q := (length l + 2 ^ h - 1) / 2 ^ h) in *.
  destruct (decide (length l <= 2 ^ h)) as [Hle|Hgt].
  - split; [|intros; lia]. intros Hq. assert (2 ^ h * 2 <= 2 ^ h * q) by (by apply Nat.mul_le_mono_l). lia.
  - split; [intros; lia|]. intros _. destruct (decide (1 < q)) as [|Hq]; [done|].
    assert (2 ^ h * q <= 2 ^ h * 1) by (apply Nat.mul_le_mono_l; lia). lia.
Qed.

Lemma height_bound n : (1 <= n <= 2 ^ 30)%Z -> (n + 2 ^ Z.of_nat (height (Z.to_nat n)) <= 2 ^ 32)%Z /\ height (Z.to_nat n) <= 30.
Proof.
  intros Hn. assert (height (Z.to_nat n) <= 30) as Hh.
  { unfold height. apply Nat.log2_up_le_pow2; [lia|]. apply Nat2Z.inj_le. rewrite Nat2Z.inj_pow.
    change (Z.of_nat 2 ^ Z.of_nat 30)%Z with (2 ^ 30)%Z. lia. }
  split; [|done]. assert (2 ^ Z.of_nat (height (Z.to_nat n)) <= 2 ^ 30)%Z by (apply Z.pow_le_mono_r; lia). lia.
Qed.

Lemma height_loop_spec fuel h (l : list bytes) : l <> [] -> (zlen l <= 2 ^ 30)%Z ->
  h <= height (length l) -> height (length l) - h <= fuel -> height_loop fuel h (zlen l) = Ok (height (length l)).
Proof.
  intros Hne Hl. assert (1 <= zlen l)%Z as Hl1 by (unfold zlen; destruct l; [done|cbn [length]; lia]).
  destruct (height_bound (zlen l) ltac:(lia)) as [Hb Hh].
  assert (Z.to_nat (zlen l) = length l) as En by (unfold zlen; lia). rewrite En in Hb, Hh.
  revert h. induction fuel as [|fuel IH]; intros h H1 H2; cbn [height_loop].
  all: assert (zlen l + 2 ^ Z.of_nat h <= 2 ^ 32)%Z as Hbh
    by (assert (2 ^ Z.of_nat h <= 2 ^ Z.of_nat (height (length l)))%Z by (apply Z.pow_le_mono_r; lia); lia).
  all: rewrite (width_spec l h Hbh); pose proof (width_gt1 l h Hne) as Hw.
  all: destruct (Z.gtb_spec (Z.of_nat (length (lvl h l))) 1) as [Hgt|Hle].
  - lia.
  - f_equal. lia.
  - apply IH; lia.
  - f_equal. lia.
Qed.

(** *** Distinct nodes *)

Lemma pair_up_map l : pair_up l = map hash256 (pairs l).
Proof. induction l as [|a|a b l IH] using list_ind2; cbn; [done|done|]. by rewrite IH. Qed.

Lemma pairs_elem l p : p ∈ pairs l -> exists a b, p = a ++ b /\ a ∈ l.
Proof.
  induction l as [|a|a b l IH] using list_ind2; cbn [pairs].
  - by intros ?%elem_of_nil.
  - intros ->%list_elem_of_singleton. exists a, a. set_solver.
  - intros [->|Hin]%elem_of_cons; [exists a, b; set_solver|]. destruct (IH Hin) as (c & d & -> & Hc).
    exists c, d. set_solver.
Qed.

Lemma pairs_NoDup l : digests l -> NoDup l -> NoDup (pairs l).
Proof.
  induction l as [|a|a b l IH] using list_ind2; cbn [pairs]; intros Hd Hn; [done|apply NoDup_singleton|].
  apply Forall_cons in Hd as [Ha Hd]. apply Forall_cons in Hd as [Hb Hd].
  apply NoDup_cons in Hn as [Hna Hn]. apply NoDup_cons in Hn as [Hnb Hn]. apply NoDup_cons. split; [|by apply IH].
  intros (c & d & E & Hc)%pairs_elem. rewrite Forall_forall in Hd. specialize (Hd c Hc). cbn in Hd, Ha.
  apply app_inj_1 in E as [-> _]; [set_solver|congruence].
Qed.

Lemma lvl_NoDup h l k : digests l -> NoDup l -> no_collision (hashed h l) -> k <= h -> NoDup (lvl k l).
Proof.
  revert h l. induction k as [|k IH]; intros h l Hd Hn Hc Hk; [done|]. destruct h as [|h]; [lia|].
  rewrite lvl_S_in. cbn [hashed] in Hc. apply (IH h); [by apply digests_pair_up| | |lia].
  - rewrite pair_up_map. apply NoDup_fmap_2_strong; [|by apply pairs_NoDup]. intros p q Hp Hq. apply Hc; set_solver.
  - eapply no_collision_sub; [|exact Hc]. set_solver.
Qed.

Lemma slice_all {A} (v : list A) n : length v <= 2 ^ n -> slice n 0 v = v.
Proof. intros. unfold slice. cbn [Nat.mul]. by rewrite drop_0, take_ge. Qed.

(** *** Flag bits as bytes *)

Lemma bits_byte_bit bits k : k <= length bits -> forall i j, i < (length bits + 7) / 8 -> j < 8 ->
  exists x, foldl (fun v (pb : nat * bool) => alter (fun x => Z.lor x (Z.shiftl (Z.b2z pb.2) (Z.of_nat (pb.1 mod 8)))) (pb.1 / 8) v)
      (replicate ((length bits + 7) / 8) 0%Z) (take k (imap pair bits)) !! i = Some x /\
    Z.testbit x (Z.of_nat j) = (i * 8 + j <? k) && default false (bits !! (i * 8 + j)).
Proof.
  intros Hk i j Hi Hj. revert Hk. induction k as [|k IH]; intros Hk.
  { rewrite take_0. cbn [foldl]. exists 0%Z. rewrite lookup_replicate_2 by done. split; [done|]. by rewrite Z.bits_0. }
  destruct (IH ltac:(lia)) as (x & Ex & Hx). destruct (lookup_lt_is_Some_2 bits k ltac:(lia)) as [b Eb].
  assert (imap pair bits !! k = Some (k, b)) as Ei by (rewrite list_lookup_imap, Eb; done).
  rewrite (take_S_r _ _ _ Ei), foldl_snoc. cbn [fst snd].
  pose proof (Nat.div_mod_eq k 8) as Ed. pose proof (Nat.mod_upper_bound k 8 ltac:(lia)) as Em.
  destruct (decide (k / 8 = i)) as [<-|Hne].
  - rewrite list_lookup_alter_eq, Ex. eexists; split; [done|].
    rewrite Z.lor_spec, Z.shiftl_spec, Hx by lia.
    destruct (decide (j = k mod 8)) as [->|Hj'].
    + rewrite Z.sub_diag, Z.b2z_bit0. replace (k / 8 * 8 + k mod 8) with k by lia.
      rewrite Eb, Nat.ltb_irrefl. cbn [andb orb default]. by rewrite (proj2 (Nat.ltb_lt k (S k))) by lia.
    + assert (Z.testbit (Z.b2z b) (Z.of_nat j - Z.of_nat (k mod 8)) = false) as ->.
      { destruct (Z.ltb_spec (Z.of_nat j) (Z.of_nat (k mod 8))); [by rewrite Z.testbit_neg_r by lia|].
        destruct b; [|apply Z.bits_0]. change (Z.b2z true) with 1%Z. apply Z.bits_above_log2; [lia|]. change (Z.log2 1) with 0%Z. lia. }
      rewrite orb_false_r. f_equal. destruct (Nat.ltb_spec (k / 8 * 8 + j) k), (Nat.ltb_spec (k / 8 * 8 + j) (S k)); lia || done.
  - rewrite list_lookup_alter_ne by done. exists x. split; [done|]. rewrite Hx. f_equal.
    destruct (Nat.ltb_spec (i * 8 + j) k), (Nat.ltb_spec (i * 8 + j) (S k)); try done; [lia|].
    exfalso. apply Hne. assert (k = i * 8 + j) as -> by lia. rewrite Nat.div_add_l by lia. rewrite Nat.div_small by lia. lia.
Qed.

Lemma flag_bit x j : (0 <= j)%Z -> negb (Z.land x (Z.shiftl 1 j) =? 0)%Z = Z.testbit x j.
Proof.
  intros Hj. destruct (Z.testbit x j) eqn:E.
  - apply negb_true_iff, Z.eqb_neq. intros Hz. apply (f_equal (fun z => Z.testbit z j)) in Hz.
    rewrite Z.land_spec, Z.shiftl_spec, Z.sub_diag, E, Z.bits_0 in Hz by lia. done.
  - apply negb_false_iff, Z.eqb_eq. apply Z.bits_inj'. intros k Hk. rewrite Z.land_spec, Z.bits_0, Z.shiftl_1_l.
    destruct (decide (k = j)) as [->|Hne]; [by rewrite E|]. by rewrite Z.pow2_bits_false, andb_false_r by lia.
Qed.

(** Reading gives the bits back, padded to whole bytes. *)
Lemma bits_roundtrip bits :
  bytes_to_bits (bits_to_bytes bits) = bits ++ replicate ((length bits + 7) / 8 * 8 - length bits) false.
Proof.
  pose proof (Nat.div_mod_eq (length bits + 7) 8) as Ed. pose proof (Nat.mod_upper_bound (length bits + 7) 8 ltac:(lia)) as Em.
  assert (length (bits_to_bytes bits) = (length bits + 7) / 8) as Hlen.
  { unfold bits_to_bytes. generalize (imap pair bits) as ps. intros ps.
    induction ps as [|p ps IH] using rev_ind; [apply length_replicate|]. by rewrite foldl_snoc, length_alter. }
  apply list_eq. intros p. unfold bytes_to_bits. rewrite list_lookup_fmap, Hlen.
  destruct (decide (p < (length bits + 7) / 8 * 8)) as [Hp|Hp].
  - rewrite lookup_seq_lt by done. cbn [fmap option_fmap option_map Nat.add]. rewrite flag_bit by lia.
    pose proof (Nat.div_mod_eq p 8) as Edp. pose proof (Nat.mod_upper_bound p 8 ltac:(lia)) as Emp.
    destruct (bits_byte_bit bits (length bits) ltac:(lia) (p / 8) (p mod 8)) as (x & Ex & Hx); [|lia|].
    { apply Nat.Div0.div_lt_upper_bound; lia. }
    rewrite firstn_all2 in Ex by (by rewrite length_imap). unfold bits_to_bytes. rewrite Ex. change (default 0%Z (Some x)) with x. rewrite Hx.
    replace (p / 8 * 8 + p mod 8) with p by lia. destruct (Nat.ltb_spec p (length bits)) as [Hlt|Hge].
    + destruct (lookup_lt_is_Some_2 bits p Hlt) as [b Eb]. rewrite lookup_app_l, Eb by done. done.
    + rewrite lookup_app_r by done. by rewrite lookup_replicate_2 by lia.
  - rewrite (lookup_ge_None_2 (seq _ _)) by (rewrite length_seq; lia).
    symmetry. apply lookup_ge_None_2. rewrite length_app, length_replicate. lia.
Qed.

(** The tree as a peer receives it: the flag bits went through whole bytes. *)
Definition received (t : CPartialMerkleTree) : CPartialMerkleTree :=
  {| nTransactions := nTransactions t; vBits := bytes_to_bits (bits_to_bytes (vBits t)); vHash := vHash t; fBad := false |}.

Lemma extract_built (l : list bytes) vm t bits hs k : l <> [] -> (zlen l <= MAX_BLOCK_SIZE / 60)%Z -> length vm = length l ->
  reads_back l vm (height (length l)) 0 (merkle_root l) bits hs -> length hs <= length bits -> length hs <= length l ->
  nTransactions t = zlen l -> vHash t = hs -> fBad t = false -> vBits t = bits ++ replicate k false ->
  (length bits + 7) / 8 = (length bits + k + 7) / 8 ->
  ExtractMatches t = Ok (merkle_root l, select l vm).
Proof.
  intros Hne Hmax Hvm R L1 L2 En Eh Ef Eb Hk. unfold ExtractMatches. rewrite En, Eh, Ef.
  assert (1 <= zlen l)%Z as Hl1 by (unfold zlen; destruct l; [done|cbn [length]; lia]).
  change (MAX_BLOCK_SIZE / 60)%Z with 33333%Z in *. unfold zlen in *.
  destruct (Z.eqb_spec (Z.of_nat (length l)) 0), (Z.gtb_spec (Z.of_nat (length l)) 33333),
    (Z.gtb_spec (Z.of_nat (length hs)) (Z.of_nat (length l))); try lia.
  rewrite Eb, length_app, length_replicate. destruct (Nat.ltb_spec (length bits + k) (length hs)); [lia|].
  fold (zlen l) in *. destruct (height_bound (zlen l) ltac:(lia)) as [_ Hh].
  assert (Z.to_nat (zlen l) = length l) as Ez by (unfold zlen; lia). rewrite Ez in Hh.
  rewrite height_loop_spec; [|done|lia|lia|lia]. cbn [res_bind].
  rewrite (R t _ [] (replicate k false) [] []); [|done|done|by rewrite app_nil_r|done|done].
  cbn [bad nBitsUsed nHashUsed vMatch length app Nat.add]. rewrite Hk, !Nat.eqb_refl. cbn [negb].
  by rewrite !slice_all by (rewrite ?Hvm; apply Nat.log2_up_le_pow2; unfold zlen in *; unfold height; lia).
Qed.

(** A partial tree round trip: from the tree built for the transactions of a block and a
    selection of them, [ExtractMatches] recovers the Merkle root of the block and exactly
    the selected hashes in order, also after the flag bits were sent as bytes. *)
Theorem partial_tree_roundtrip (l : list bytes) vm : l <> [] -> (zlen l <= MAX_BLOCK_SIZE / 60)%Z -> length vm = length l ->
  digests l -> NoDup l -> no_collision (hashed (height (length l)) l) ->
  exists t r m, new_CPartialMerkleTree l vm = Ok t /\ BuildMerkleTree l = Ok (r, m) /\
    ExtractMatches t = Ok (r, select l vm) /\ ExtractMatches (received t) = Ok (r, select l vm).
Proof.
  intros Hne Hmax Hvm Hd Hn Hc. destruct (BuildMerkleTree_spec l) as (m & EB & _).
  assert (1 <= zlen l)%Z as Hl1 by (unfold zlen; destruct l; [done|cbn [length]; lia]).
  change (MAX_BLOCK_SIZE / 60)%Z with 33333%Z in *.
  destruct (height_bound (zlen l) ltac:(lia)) as [Hb Hh].
  assert (Z.to_nat (zlen l) = length l) as Ez by (unfold zlen; lia). rewrite Ez in Hb, Hh.
  destruct (traverse_spec l vm (height (length l)) 0 (merkle_root l) Hvm Hb) as (bits & hs & B & R & L1 & L2).
  { intros k Hk. apply (lvl_NoDup (height (length l))); [done..|lia]. }
  { by rewrite merkle_root_nonempty. }
  rewrite slice_all in L2 by (apply Nat.log2_up_le_pow2; [unfold zlen in *; lia|done]).
  eexists _, (merkle_root l), m. unfold new_CPartialMerkleTree. rewrite u32_id by lia.
  rewrite height_loop_spec by (done || lia). cbn [res_bind]. rewrite B. cbn [res_bind fst snd app].
  split; [done|]. split; [done|]. split.
  - eapply (extract_built l vm _ bits hs 0); try done; [by rewrite app_nil_r|by rewrite Nat.add_0_r].
  - eapply (extract_built l vm _ bits hs); try done; [apply bits_roundtrip|].
    pose proof (Nat.div_mod_eq (length bits + 7) 8) as Ed. pose proof (Nat.mod_upper_bound (length bits + 7) 8 ltac:(lia)) as Em.
    cbn [vBits]. replace (length bits + ((length bits + 7) / 8 * 8 - length bits) + 7) with ((length bits + 7) / 8 * 8 + 7) by lia.
    rewrite Nat.div_add_l by lia. change (7 / 8) with 0. lia.
Qed.

(** *** Soundness of extraction *)

(** The byte strings hashed by [TraverseAndExtract]. *)
Fixpoint extract_hashed (t : CPartialMerkleTree) (h pos : nat) (s : extract_state) : list bytes :=
  match vBits t !! nBitsUsed s, h with
  | Some true, S h =>
      let '(a, s1) := TraverseAndExtract t h (pos * 2) (use_bit s) in
      extract_hashed t h (pos * 2) (use_bit s) ++
      (if (Z.of_nat (pos * 2 + 1) <? CalcTreeWidth (nTransactions t) h)%Z then
         let '(b, s2) := TraverseAndExtract t h (pos * 2 + 1) s1 in
         (a ++ b) :: extract_hashed t h (pos * 2 + 1) s1
       else [a ++ a])
  | _, _ => []
  end.

Lemma stored_hash_inv t is_match s x s' : stored_hash t is_match s = (x, s') -> bad s' = false ->
  bad s = false /\ x ∈ vHash t /\ vMatch s' = vMatch s ++ (if is_match then [x] else []).
Proof.
  unfold stored_hash. destruct (vHash t !! nHashUsed s) as [h|] eqn:E; intros [= <- <-]; [|done]. cbn.
  intros Hbad. split; [done|]. split; [by eapply list_elem_of_lookup_2|done].
Qed.

(** Failure is remembered, and what is returned is a digest. *)
Lemma extract_digest t h pos s x s' : digests (vHash t) -> TraverseAndExtract t h pos s = (x, s') -> bad s' = false ->
  bad s = false /\ length x = 32.
Proof.
  intros Hd. rewrite Forall_forall in Hd. revert pos s x s'.
  assert (forall s is_match x s', stored_hash t is_match (use_bit s) = (x, s') -> bad s' = false -> bad s = false /\ length x = 32) as Hst.
  { intros s im x s' E Hbad. destruct (stored_hash_inv _ _ _ _ _ E Hbad) as (Hb & Hin & _). split; [done|]. by apply Hd. }
  induction h as [|h IH]; intros pos s x s'; cbn [TraverseAndExtract];
    (destruct (vBits t !! nBitsUsed s) as [b|]; [|by intros [= <- <-]]); [by apply Hst|].
  destruct b; cbn [negb]; [|by apply Hst]. destruct (TraverseAndExtract t h (pos * 2) (use_bit s)) as [a s1] eqn:E1.
  destruct (Z.ltb_spec (Z.of_nat (pos * 2 + 1)) (CalcTreeWidth (nTransactions t) h)).
  - destruct (TraverseAndExtract t h (pos * 2 + 1) s1) as [c s2] eqn:E2. intros [= <- <-] Hbad.
    destruct (bytes_eqb c a); [done|]. destruct (IH _ _ _ _ E2 Hbad) as [Hb1 _]. destruct (IH _ _ _ _ E1 Hb1) as [Hb _].
    split; [exact Hb|apply Hash_length].
  - intros [= <- <-] Hbad. destruct (IH _ _ _ _ E1 Hbad) as [Hb _]. split; [exact Hb|apply Hash_length].
Qed.

Lemma hashed_pairs k h l : k < h -> pairs (lvl k l) ⊆ hashed h l.
Proof.
  revert k l. induction h as [|h IH]; intros k l Hk; [lia|]. cbn [hashed]. destruct k as [|k].
  - intros p Hp. apply elem_of_app. by left.
  - rewrite lvl_S_in. intros p Hp. apply elem_of_app. right. apply (IH k); [lia|done].
Qed.

Lemma pairs_lookup l k a : l !! (2 * k) = Some a -> pairs l !! k = Some (a ++ default a (l !! (2 * k + 1))).
Proof.
  revert k. induction l as [|x|x y l IH] using list_ind2; intros k; [done| |].
  - destruct k as [|k]; [by intros [= ->]|]. replace (2 * S k) with (S (S (2 * k))) by lia. done.
  - destruct k as [|k]; [by intros [= ->]|]. replace (2 * S k) with (S (S (2 * k))) by lia.
    cbn [pairs lookup list_lookup]. apply IH.
Qed.

Lemma extract_sound (l : list bytes) t top h pos s x s' : digests l -> digests (vHash t) -> nTransactions t = zlen l ->
  (zlen l + 2 ^ Z.of_nat h <= 2 ^ 32)%Z -> h <= top -> no_collision (hashed top l ++ extract_hashed t h pos s) ->
  lvl h l !! pos = Some x -> TraverseAndExtract t h pos s = (x, s') -> bad s' = false ->
  exists ms, vMatch s' = vMatch s ++ ms /\ ms `sublist_of` slice h pos l.
Proof.
  intros Hdl Hdt En. revert pos s x s'. induction h as [|h IH]; intros pos s x s' Hb Htop Hc Hx.
  all: cbn [TraverseAndExtract extract_hashed] in *.
  all: destruct (vBits t !! nBitsUsed s) as [b|]; [|by intros [= _ <-]].
  { change (lvl 0 l) with l in Hx. intros E Hbad. destruct (stored_hash_inv _ _ _ _ _ E Hbad) as (_ & _ & ->).
    assert (slice 0 pos l = [x]) as -> by (unfold slice; rewrite Nat.mul_1_r, (drop_S _ _ _ Hx); done).
    eexists; split; [done|]. destruct b; [done|apply sublist_nil_l]. }
  pose proof (pow_bound_S _ _ Hb) as Hb'. destruct b; cbn [negb].
  2: { intros E Hbad. destruct (stored_hash_inv _ _ _ _ _ E Hbad) as (_ & _ & ->). exists []. split; [done|apply sublist_nil_l]. }
  destruct (TraverseAndExtract t h (pos * 2) (use_bit s)) as [a' s1] eqn:E1.
  destruct (children l h pos x Hb' Hx) as (a & Ea & Hch). rewrite En in *.
  assert (length a = 32) as Ha.
  { destruct h; [rewrite Forall_forall in Hdl; by eapply Hdl, list_elem_of_lookup_2|].
    rewrite lvl_S in Ea. pose proof (digests_pair_up (lvl h l)) as Hdp. rewrite Forall_forall in Hdp.
    by eapply Hdp, list_elem_of_lookup_2. }
  assert (a ++ default a (lvl h l !! (pos * 2 + 1)) ∈ hashed top l) as Hin.
  { apply (hashed_pairs h); [lia|]. eapply (list_elem_of_lookup_2 _ pos). rewrite (Nat.mul_comm pos 2) in *. by apply pairs_lookup. }
  destruct Hch as [(c & Ec & Exc & Hw)|(Ec & Exc & Hw)]; rewrite Hw, Ec in *; cbn [default] in Hin.
  - destruct (TraverseAndExtract t h (pos * 2 + 1) s1) as [c' s2] eqn:E2. intros [= Ex <-] Hbad.
    destruct (bytes_eqb c' a'); [done|].
    destruct (extract_digest _ _ _ _ _ _ Hdt E2 Hbad) as [Hb1 _]. destruct (extract_digest _ _ _ _ _ _ Hdt E1 Hb1) as [_ Ha'].
    rewrite Exc in Ex. apply Hc in Ex; [|set_solver..]. apply app_inj_1 in Ex as [-> ->]; [|congruence].
    destruct (IH (pos * 2) (use_bit s) a s1 Hb' ltac:(lia) ltac:(eapply no_collision_sub; [|exact Hc]; set_solver) Ea E1 Hb1) as (m1 & Em1 & S1).
    destruct (IH (pos * 2 + 1) s1 c s2 Hb' ltac:(lia) ltac:(eapply no_collision_sub; [|exact Hc]; set_solver) Ec E2 Hbad) as (m2 & Em2 & S2).
    exists (m1 ++ m2). rewrite Em2, Em1. cbn [use_bit vMatch]. split; [by rewrite <- app_assoc|].
    rewrite slice_split. by apply sublist_app.
  - intros [= Ex <-] Hbad. destruct (extract_digest _ _ _ _ _ _ Hdt E1 Hbad) as [_ Ha'].
    rewrite Exc in Ex. apply Hc in Ex; [|set_solver..]. apply app_inj_1 in Ex as [-> _]; [|congruence].
    destruct (IH (pos * 2) (use_bit s) a s1 Hb' ltac:(lia) ltac:(eapply no_collision_sub; [|exact Hc]; set_solver) Ea E1 Hbad) as (m1 & Em1 & S1).
    exists m1. split; [exact Em1|]. rewrite slice_split, (lvl_slice_None Ec), app_nil_r. exact S1.
Qed.

(** The initial state of the traversal. *)
Definition extract_start (t : CPartialMerkleTree) : extract_state :=
  {| nBitsUsed := 0; nHashUsed := 0; vMatch := []; bad := fBad t |}.

(** C36. Partial trees authenticate: whatever bits and hashes a peer sends, when the tree claims
    the number of transactions of a block ([nTransactions], which the caller has to know: a tree
    that claims one transaction can report the root itself) and [ExtractMatches] returns the
    non-zero Merkle root of that block, the matched hashes are transactions of the block, in
    order, unless the hash collides on two byte strings hashed by the two computations. *)
Theorem partial_tree_sound (l : list bytes) t r m ms : l <> [] -> digests l -> digests (vHash t) -> nTransactions t = zlen l ->
  no_collision (hashed (height (length l)) l ++ extract_hashed t (height (length l)) 0 (extract_start t)) ->
  BuildMerkleTree l = Ok (r, m) -> r <> uint256_zero -> ExtractMatches t = Ok (r, ms) -> ms `sublist_of` l.
Proof.
  intros Hne Hdl Hdt En Hc EB Hr. destruct (BuildMerkleTree_spec l) as (m' & EB' & _). rewrite EB in EB'.
  injection EB' as -> _. unfold ExtractMatches. rewrite En.
  assert (1 <= zlen l)%Z as Hl1 by (unfold zlen; destruct l; [done|cbn [length]; lia]).
  change (MAX_BLOCK_SIZE / 60)%Z with 33333%Z.
  destruct (Z.eqb_spec (zlen l) 0); [lia|]. destruct (Z.gtb_spec (zlen l) 33333); [congruence|].
  destruct (zlen (vHash t) >? zlen l)%Z; [congruence|]. destruct (length (vBits t) <? length (vHash t)); [congruence|].
  destruct (height_bound (zlen l) ltac:(lia)) as [Hb Hh].
  assert (Z.to_nat (zlen l) = length l) as Ez by (unfold zlen; lia). rewrite Ez in Hb, Hh.
  rewrite height_loop_spec by (done || lia). cbn [res_bind]. fold (extract_start t).
  destruct (TraverseAndExtract t (height (length l)) 0 (extract_start t)) as [x s'] eqn:E.
  destruct (bad s') eqn:Hbad; [congruence|]. destruct (negb _); [congruence|]. destruct (negb _); [congruence|].
  intros [= -> <-].
  destruct (extract_sound l t (height (length l)) (height (length l)) 0 (extract_start t) (merkle_root l) s')
    as (ms & -> & Hs); try done; [by rewrite merkle_root_nonempty|].
  rewrite slice_all in Hs; [exact Hs|]. apply Nat.log2_up_le_pow2; [unfold zlen in *; lia|done].
Qed.
End Partial.

(** ** Concrete trees *)

Lemma no_collision_Forall `{Crypto} ps :
  Forall (fun p => Forall (fun q => hash256 p = hash256 q -> p = q) ps) ps -> no_collision ps.
Proof.
  intros Hf p q Hp Hq. rewrite Forall_forall in Hf. specialize (Hf p Hp). rewrite Forall_forall in Hf. by apply Hf.
Qed.

(** Residues modulo a number just below 2^256, as 32 bytes. *)
#[local] Instance residue_crypto : Crypto := {|
  ripemd160 x := le_bytes 20 (le_val x);
  sha1 x := le_bytes 20 (le_val x);
  sha256 x := le_bytes 32 (le_val x mod (2 ^ 256 - 189));
  CheckLowS _ := true
|}.

#[local] Instance residue_crypto_laws : CryptoLaws residue_crypto.
Proof.
  split; intros x; cbn [ripemd160 sha1 sha256 residue_crypto]; try apply le_bytes_ok;
    unfold zlen; by rewrite length_le_bytes.
Qed.

Definition demo_leaves : list bytes := map (le_bytes 32) [11; 22; 33; 44; 55].
Definition demo_select : list bool := [false; true; false; false; true].

(** The attack described in the comment of [BuildMerkleTree]: same root, flag set. *)
Lemma merkle_mutation_example :
  exists r, BuildMerkleTree (map (le_bytes 32) [1; 2; 3; 4; 5; 6]) = Ok (r, false) /\
    BuildMerkleTree (map (le_bytes 32) [1; 2; 3; 4; 5; 6; 5; 6]) = Ok (r, true).
Proof. eexists. split; vm_compute; reflexivity. Qed.

Lemma merkle_branch_correct_witness :
  exists r m br, BuildMerkleTree demo_leaves = Ok (r, m) /\ GetMerkleBranch demo_leaves 3 = Ok br /\
    length br = 3%nat /\ CheckMerkleBranch (le_bytes 32 44) br 3 = r.
Proof. exact (merkle_branch_correct demo_leaves 3 (le_bytes 32 44) eq_refl). Defined.

Lemma merkle_root_unique_witness :
  exists r, BuildMerkleTree demo_leaves = Ok (r, false) /\ demo_leaves = map (le_bytes 32) [11; 22; 33; 44; 55].
Proof.
  eexists. split; [vm_compute; reflexivity|].
  eapply (merkle_root_unique demo_leaves (map (le_bytes 32) [11; 22; 33; 44; 55])); [by repeat constructor..|done|done|done| |vm_compute; reflexivity|vm_compute; reflexivity].
  apply no_collision_Forall, (bool_decide_unpack _). vm_compute. exact I.
Defined.

Lemma partial_tree_roundtrip_witness :
  exists t r m, new_CPartialMerkleTree demo_leaves demo_select = Ok t /\ BuildMerkleTree demo_leaves = Ok (r, m) /\
    ExtractMatches (received t) = Ok (r, map (le_bytes 32) [22; 55]).
Proof.
  destruct (partial_tree_roundtrip demo_leaves demo_select) as (t & r & m & E1 & E2 & _ & E3).
  - discriminate.
  - vm_compute. discriminate.
  - reflexivity.
  - apply (bool_decide_unpack _). vm_compute. exact I.
  - apply (bool_decide_unpack _). vm_compute. exact I.
  - apply no_collision_Forall, (bool_decide_unpack _). vm_compute. exact I.
  - exists t, r, m. split; [exact E1|]. split; [exact E2|]. exact E3.
Defined.

Definition demo_partial : CPartialMerkleTree :=
  match new_CPartialMerkleTree demo_leaves demo_select with
  | Ok t => t
  | Err _ => {| nTransactions := 0; vBits := []; vHash := []; fBad := true |}
  end.

Lemma partial_tree_sound_witness :
  map (le_bytes 32) [22; 55] `sublist_of` demo_leaves.
Proof.
  eapply (partial_tree_sound demo_leaves demo_partial).
  - discriminate.
  - apply (bool_decide_unpack _). vm_compute. exact I.
  - apply (bool_decide_unpack _). vm_compute. exact I.
  - vm_compute. reflexivity.
  - apply no_collision_Forall, (bool_decide_unpack _). vm_compute. exact I.
  - vm_compute. reflexivity.
  - vm_compute. discriminate.
  - vm_compute. reflexivity.
Defined.
