(* ===== verification/Transaction.v ===== *)
(** * Transactions

    [primitives/transaction.h] and [primitives/transaction.cpp]: the data of a transaction,
    its wire format in the three versions the node accepts, its hash, and the sums of its
    outputs.  The vector and array templates of [utils/serialize.h] that the format uses are
    [ser_vector], [ser_bytes] and fixed-size blobs. *)

From S2P Require Import Prelude Interpreter Serialize Compressor Amount.

(** ** Containers of [utils/serialize.h] *)

Definition MAX_DATA_SIZE : Z := 0x02000000.

Abbreviation reader A := (bytes -> res ios_failure (A * bytes)) (only parsing).

(** [Serialize_impl] of a vector: the size and the elements. *)
Definition ser_vector {A : Type} (ser : A -> bytes) (v : list A) : bytes :=
  WriteCompactSize [] (zlen v) ++ concat (map ser v).

(** [Unserialize_impl]: [n] elements one after the other. *)
Fixpoint read_n {E A : Type} (unser : bytes -> res E (A * bytes)) (n : nat) (inp : bytes) : res E (list A * bytes) :=
  match n with
  | O => Ok ([], inp)
  | S n =>
      let? x := unser inp in
      let? r := read_n unser n x.2 in
      Ok (x.1 :: r.1, r.2)
  end.

(** Elements are read until the data end, so a bogus size ends in an error after as many
    elements as there are bytes left; no element is empty. *)
Definition unser_vector {A : Type} (unser : reader A) (inp : bytes) : res ios_failure (list A * bytes) :=
  let? r := ReadCompactSize inp MAX_DATA_SIZE in
  read_n unser (Z.to_nat r.1) r.2.

(** Vectors of bytes (scripts) and arrays of [n] bytes. *)
Definition ser_bytes (v : bytes) : bytes := WriteCompactSize [] (zlen v) ++ v.
Definition unser_bytes (inp : bytes) : res ios_failure (bytes * bytes) :=
  let? r := ReadCompactSize inp MAX_DATA_SIZE in stream_read (Z.to_nat r.1) r.2.

Definition ser_u32 (x : Z) : bytes := ser_writedata32 [] x.
Definition ser_i64 (x : Z) : bytes := ser_writedata64 [] x.
Definition unser_i32 (inp : bytes) : res ios_failure (Z * bytes) := let? r := ser_readdata32 inp in Ok (s32 r.1, r.2).
Definition unser_i64 (inp : bytes) : res ios_failure (Z * bytes) := let? r := ser_readdata64 inp in Ok (s64 r.1, r.2).

(** ** Data *)

Record COutPoint := { op_hash : bytes; op_n : Z }.

Definition outpoint_IsNull (o : COutPoint) : bool := forallb (fun b => b =? 0) (op_hash o) && (op_n o =? UINT32_MAX).

Record CTxIn := { prevout : COutPoint; scriptSig : bytes; nSequence : Z }.

Definition IsFinal (i : CTxIn) : bool := nSequence i =? UINT32_MAX.

Record SpendDescription := {
  sd_cv : bytes; sd_anchor : bytes; sd_nullifier : bytes; sd_rk : bytes; sd_zkproof : bytes; sd_spendAuthSig : bytes
}.

Record OutputDescription := {
  od_cv : bytes; od_cm : bytes; od_ephemeralKey : bytes; od_encCiphertext : bytes; od_outCiphertext : bytes; od_zkproof : bytes
}.

Definition GROTH_PROOF_SIZE : nat := 48 + 96 + 48.
Definition ENC_SIZE : nat := 580.
Definition OUT_SIZE : nat := 80.

(** The fields of [CTransaction] and [CMutableTransaction]. *)
Record CTransaction := {
  tx_fOverwintered : bool;
  tx_nVersion : Z;
  tx_nVersionGroupId : Z;
  tx_vin : list CTxIn;
  tx_vout : list CTxOut;
  tx_nLockTime : Z;
  tx_nExpiryHeight : Z;
  tx_valueBalance : Z;
  tx_vShieldedSpend : list SpendDescription;
  tx_vShieldedOutput : list OutputDescription;
  tx_bindingSig : bytes
}.

Definition OVERWINTER_VERSION_GROUP_ID : Z := 0x03C48270.
Definition SAPLING_VERSION_GROUP_ID : Z := 0x892F2085.
Definition OVERWINTER_TX_VERSION : Z := 3.
Definition SAPLING_TX_VERSION : Z := 4.
Definition SPROUT_MIN_CURRENT_VERSION : Z := 1.

Definition no_bindingSig : bytes := replicate 64 0.

(** The constructor without arguments. *)
Definition default_tx : CTransaction := {|
  tx_fOverwintered := false; tx_nVersion := SPROUT_MIN_CURRENT_VERSION; tx_nVersionGroupId := 0; tx_vin := []; tx_vout := [];
  tx_nLockTime := 0; tx_nExpiryHeight := 0; tx_valueBalance := 0; tx_vShieldedSpend := []; tx_vShieldedOutput := [];
  tx_bindingSig := no_bindingSig
|}.

(** [CTransaction(const CMutableTransaction&)] copies every field;
    [CTransaction(CMutableTransaction&&)] leaves [bindingSig] at its default. *)
Definition tx_copy (tx : CTransaction) : CTransaction := {|
  tx_fOverwintered := tx_fOverwintered tx; tx_nVersion := tx_nVersion tx; tx_nVersionGroupId := tx_nVersionGroupId tx;
  tx_vin := tx_vin tx; tx_vout := tx_vout tx; tx_nLockTime := tx_nLockTime tx; tx_nExpiryHeight := tx_nExpiryHeight tx;
  tx_valueBalance := tx_valueBalance tx; tx_vShieldedSpend := tx_vShieldedSpend tx;
  tx_vShieldedOutput := tx_vShieldedOutput tx; tx_bindingSig := tx_bindingSig tx
|}.
Definition tx_move (tx : CTransaction) : CTransaction := {|
  tx_fOverwintered := tx_fOverwintered tx; tx_nVersion := tx_nVersion tx; tx_nVersionGroupId := tx_nVersionGroupId tx;
  tx_vin := tx_vin tx; tx_vout := tx_vout tx; tx_nLockTime := tx_nLockTime tx; tx_nExpiryHeight := tx_nExpiryHeight tx;
  tx_valueBalance := tx_valueBalance tx; tx_vShieldedSpend := tx_vShieldedSpend tx;
  tx_vShieldedOutput := tx_vShieldedOutput tx; tx_bindingSig := no_bindingSig
|}.

Definition IsCoinBase (tx : CTransaction) : bool :=
  match tx_vin tx with [i] => outpoint_IsNull (prevout i) | _ => false end.

(** ** Wire format *)

Definition ser_outpoint (o : COutPoint) : bytes := op_hash o ++ ser_u32 (op_n o).
Definition unser_outpoint (inp : bytes) : res ios_failure (COutPoint * bytes) :=
  let? h := stream_read 32 inp in
  let? n := ser_readdata32 h.2 in
  Ok ({| op_hash := h.1; op_n := n.1 |}, n.2).

Definition ser_txin (i : CTxIn) : bytes := ser_outpoint (prevout i) ++ ser_bytes (scriptSig i) ++ ser_u32 (nSequence i).
Definition unser_txin (inp : bytes) : res ios_failure (CTxIn * bytes) :=
  let? p := unser_outpoint inp in
  let? s := unser_bytes p.2 in
  let? q := ser_readdata32 s.2 in
  Ok ({| prevout := p.1; scriptSig := s.1; nSequence := q.1 |}, q.2).

Definition ser_txout (o : CTxOut) : bytes := ser_i64 (nValue o) ++ ser_bytes (scriptPubKey o).
Definition unser_txout (inp : bytes) : res ios_failure (CTxOut * bytes) :=
  let? v := unser_i64 inp in
  let? s := unser_bytes v.2 in
  Ok ({| nValue := v.1; scriptPubKey := s.1 |}, s.2).

Definition ser_spend (d : SpendDescription) : bytes :=
  sd_cv d ++ sd_anchor d ++ sd_nullifier d ++ sd_rk d ++ sd_zkproof d ++ sd_spendAuthSig d.
Definition unser_spend (inp : bytes) : res ios_failure (SpendDescription * bytes) :=
  let? cv := stream_read 32 inp in
  let? an := stream_read 32 cv.2 in
  let? nf := stream_read 32 an.2 in
  let? rk := stream_read 32 nf.2 in
  let? zk := stream_read GROTH_PROOF_SIZE rk.2 in
  let? sg := stream_read 64 zk.2 in
  Ok ({| sd_cv := cv.1; sd_anchor := an.1; sd_nullifier := nf.1; sd_rk := rk.1; sd_zkproof := zk.1;
         sd_spendAuthSig := sg.1 |}, sg.2).

Definition ser_output (d : OutputDescription) : bytes :=
  od_cv d ++ od_cm d ++ od_ephemeralKey d ++ od_encCiphertext d ++ od_outCiphertext d ++ od_zkproof d.
Definition unser_output (inp : bytes) : res ios_failure (OutputDescription * bytes) :=
  let? cv := stream_read 32 inp in
  let? cm := stream_read 32 cv.2 in
  let? ek := stream_read 32 cm.2 in
  let? en := stream_read ENC_SIZE ek.2 in
  let? ou := stream_read OUT_SIZE en.2 in
  let? zk := stream_read GROTH_PROOF_SIZE ou.2 in
  Ok ({| od_cv := cv.1; od_cm := cm.1; od_ephemeralKey := ek.1; od_encCiphertext := en.1; od_outCiphertext := ou.1;
         od_zkproof := zk.1 |}, zk.2).

Definition GetHeader (tx : CTransaction) : Z :=
  let header := u32 (tx_nVersion tx) in
  if tx_fOverwintered tx then Z.lor header (2 ^ 31) else header.

Definition isOverwinterV3 (fOverwintered : bool) (nVersionGroupId nVersion : Z) : bool :=
  fOverwintered && (nVersionGroupId =? OVERWINTER_VERSION_GROUP_ID) && (nVersion =? OVERWINTER_TX_VERSION).
Definition isSaplingV4 (fOverwintered : bool) (nVersionGroupId nVersion : Z) : bool :=
  fOverwintered && (nVersionGroupId =? SAPLING_VERSION_GROUP_ID) && (nVersion =? SAPLING_TX_VERSION).

Definition is_nil {A : Type} (l : list A) : bool := match l with [] => true | _ => false end.

(** [SerializationOp] with the action Write.  The vector of integers is a local variable of
    the function and empty. *)
Definition tx_Serialize (tx : CTransaction) : res ios_failure bytes :=
  let v3 := isOverwinterV3 (tx_fOverwintered tx) (tx_nVersionGroupId tx) (tx_nVersion tx) in
  let v4 := isSaplingV4 (tx_fOverwintered tx) (tx_nVersionGroupId tx) (tx_nVersion tx) in
  if tx_fOverwintered tx && negb (v3 || v4) then Err unknown_transaction_format
  else Ok (
    ser_u32 (GetHeader tx)
    ++ (if tx_fOverwintered tx then ser_u32 (tx_nVersionGroupId tx) else [])
    ++ ser_vector ser_txin (tx_vin tx)
    ++ ser_vector ser_txout (tx_vout tx)
    ++ ser_u32 (tx_nLockTime tx)
    ++ (if v3 || v4 then ser_u32 (tx_nExpiryHeight tx) else [])
    ++ (if v4 then ser_i64 (tx_valueBalance tx) ++ ser_vector ser_spend (tx_vShieldedSpend tx)
                   ++ ser_vector ser_output (tx_vShieldedOutput tx) else [])
    ++ (if tx_nVersion tx >=? 2 then ser_vector ser_u32 [] else [])
    ++ (if v4 && negb (is_nil (tx_vShieldedSpend tx) && is_nil (tx_vShieldedOutput tx)) then tx_bindingSig tx else [])).

(** [SerializationOp] with the action Read, into a transaction made by the default
    constructor; what is read into the vector of integers is dropped. *)
Definition tx_Unserialize (inp : bytes) : res ios_failure (CTransaction * bytes) :=
  let? h := ser_readdata32 inp in
  let fOverwintered := negb (Z.shiftr h.1 31 =? 0) in
  let nVersion := Z.land h.1 0x7FFFFFFF in
  let? g := (if fOverwintered then ser_readdata32 h.2 else Ok (tx_nVersionGroupId default_tx, h.2)) in
  let v3 := isOverwinterV3 fOverwintered g.1 nVersion in
  let v4 := isSaplingV4 fOverwintered g.1 nVersion in
  if fOverwintered && negb (v3 || v4) then Err unknown_transaction_format
  else
    let? vin := unser_vector unser_txin g.2 in
    let? vout := unser_vector unser_txout vin.2 in
    let? lt := ser_readdata32 vout.2 in
    let? ex := (if v3 || v4 then ser_readdata32 lt.2 else Ok (tx_nExpiryHeight default_tx, lt.2)) in
    let? vb := (if v4 then unser_i64 ex.2 else Ok (tx_valueBalance default_tx, ex.2)) in
    let? ss := (if v4 then unser_vector unser_spend vb.2 else Ok (tx_vShieldedSpend default_tx, vb.2)) in
    let? so := (if v4 then unser_vector unser_output ss.2 else Ok (tx_vShieldedOutput default_tx, ss.2)) in
    let? v := (if nVersion >=? 2 then unser_vector unser_i32 so.2 else Ok ([], so.2)) in
    let? bs := (if v4 && negb (is_nil ss.1 && is_nil so.1) then stream_read 64 v.2 else Ok (tx_bindingSig default_tx, v.2)) in
    Ok ({| tx_fOverwintered := fOverwintered; tx_nVersion := nVersion; tx_nVersionGroupId := g.1; tx_vin := vin.1;
           tx_vout := vout.1; tx_nLockTime := lt.1; tx_nExpiryHeight := ex.1; tx_valueBalance := vb.1;
           tx_vShieldedSpend := ss.1; tx_vShieldedOutput := so.1; tx_bindingSig := bs.1 |}, bs.2).

(** [SerializeHash]: the hash that [UpdateHash] stores. *)
Definition GetHash `{Crypto} (tx : CTransaction) : res ios_failure bytes :=
  let? s := tx_Serialize tx in Ok (hash256 s).

(** ** Values *)

Inductive value_fail : Set := value_out_of_range.

Fixpoint value_out_loop (outs : list CTxOut) (nValueOut : Z) : res value_fail Z :=
  match outs with
  | [] => Ok nValueOut
  | txOut :: outs =>
      let nValueOut := s64 (nValueOut + nValue txOut) in
      if negb (MoneyRange (nValue txOut)) || negb (MoneyRange nValueOut) then Err value_out_of_range
      else value_out_loop outs nValueOut
  end.

Definition GetValueOut (tx : CTransaction) : res value_fail Z :=
  let? nValueOut := value_out_loop (tx_vout tx) 0 in
  if tx_valueBalance tx <=? 0 then
    let neg := s64 (- tx_valueBalance tx) in
    let nValueOut := s64 (nValueOut + neg) in
    if negb (MoneyRange neg) || negb (MoneyRange nValueOut) then Err value_out_of_range else Ok nValueOut
  else Ok nValueOut.

Definition GetShieldedValueIn (tx : CTransaction) : res value_fail Z :=
  let nValue := 0 in
  if tx_valueBalance tx >=? 0 then
    let nValue := s64 (nValue + tx_valueBalance tx) in
    if negb (MoneyRange (tx_valueBalance tx)) || negb (MoneyRange nValue) then Err value_out_of_range else Ok nValue
  else Ok nValue.

(** [CalculateModifiedSize] for a known size. *)
Fixpoint modified_size_loop (vin : list CTxIn) (n : Z) : Z :=
  match vin with
  | [] => n
  | i :: vin =>
      let offset := 41 + Z.min 110 (zlen (scriptSig i)) in
      modified_size_loop vin (if n >? offset then n - offset else n)
  end.

Definition CalculateModifiedSize (tx : CTransaction) (nTxSize : Z) : res ios_failure Z :=
  let? n := (if nTxSize =? 0 then let? s := tx_Serialize tx in Ok (u32 (zlen s)) else Ok nTxSize) in
  Ok (modified_size_loop (tx_vin tx) n).

(** ** Reading back what was written *)

Definition reads {A : Type} (ser : A -> bytes) (unser : reader A) (x : A) : Prop :=
  forall s, unser (ser x ++ s) = Ok (x, s).

Lemma stream_read_app n l s : length l = n -> stream_read n (l ++ s) = Ok (l, s).
Proof.
  intros <-. unfold stream_read. rewrite zlen_app. pose proof (zlen_nonneg s). fold (zlen l).
  destruct (Z.ltb_spec (zlen l + zlen s) (zlen l)); [lia|]. by rewrite take_app_length, drop_app_length.
Qed.

Lemma ReadCompactSize_max n max s : 0 <= n <= max -> max < 2 ^ 64 -> ReadCompactSize (WriteCompactSize [] n ++ s) max = Ok (n, s).
Proof.
  intros Hn Hmax. pose proof (ReadCompactSize_Write n s ltac:(lia)) as Hr. unfold ReadCompactSize in *.
  apply res_bind_Ok in Hr as (h & Eh & Hr). rewrite Eh. cbn [res_bind].
  apply res_bind_Ok in Hr as (r & Er & Hr). rewrite Er. cbn [res_bind].
  rewrite Z.ltb_irrefl in Hr. cbn [andb] in Hr. injection Hr as ->. cbn [fst].
  destruct (Z.gtb_spec n max); [lia|]. by rewrite andb_false_r.
Qed.

Lemma reads_vector {A} (ser : A -> bytes) unser v : zlen v <= MAX_DATA_SIZE -> Forall (reads ser unser) v ->
  reads (ser_vector ser) (unser_vector unser) v.
Proof.
  intros Hlen Hv s. unfold ser_vector, unser_vector. rewrite <- app_assoc.
  rewrite ReadCompactSize_max by (pose proof (zlen_nonneg v); unfold MAX_DATA_SIZE in *; lia). cbn [res_bind fst snd].
  unfold zlen. rewrite Nat2Z.id. clear Hlen. induction Hv as [|x v Hx _ IH]; [done|].
  cbn [length read_n map concat]. rewrite <- app_assoc, Hx. cbn [res_bind fst snd]. by rewrite IH.
Qed.

Lemma reads_bytes v : zlen v <= MAX_DATA_SIZE -> reads ser_bytes unser_bytes v.
Proof.
  intros Hlen s. unfold ser_bytes, unser_bytes. rewrite <- app_assoc.
  rewrite ReadCompactSize_max by (pose proof (zlen_nonneg v); unfold MAX_DATA_SIZE in *; lia). cbn [res_bind fst snd].
  apply stream_read_app. unfold zlen. lia.
Qed.

Lemma reads_u32 x : 0 <= x < 2 ^ 32 -> reads ser_u32 ser_readdata32 x.
Proof. intros Hx s. unfold ser_u32, ser_writedata32, ser_readdata32. cbn [app]. rewrite u32_id by done. by apply ser_roundtrip. Qed.

Lemma reads_i64 x : INT64_MIN <= x <= INT64_MAX -> reads ser_i64 unser_i64 x.
Proof.
  intros Hx s. unfold ser_i64, ser_writedata64, unser_i64, ser_readdata64. cbn [app].
  rewrite ser_roundtrip by apply u64_range. cbn [res_bind fst snd]. do 2 f_equal. unfold s64, u64, INT64_MIN, INT64_MAX in *.
  rewrite Zplus_mod_idemp_l, Z.mod_small; lia.
Qed.

(** *** Well-formed transactions *)

Record outpoint_ok (o : COutPoint) : Prop := { oo_hash : length (op_hash o) = 32%nat; oo_n : 0 <= op_n o < 2 ^ 32 }.
Record txin_ok (i : CTxIn) : Prop := {
  ti_prevout : outpoint_ok (prevout i); ti_script : zlen (scriptSig i) <= MAX_DATA_SIZE; ti_seq : 0 <= nSequence i < 2 ^ 32
}.
Record txout_ok (o : CTxOut) : Prop := {
  to_value : INT64_MIN <= nValue o <= INT64_MAX; to_script : zlen (scriptPubKey o) <= MAX_DATA_SIZE
}.
Record spend_ok (d : SpendDescription) : Prop := {
  sp_cv : length (sd_cv d) = 32%nat; sp_anchor : length (sd_anchor d) = 32%nat; sp_nf : length (sd_nullifier d) = 32%nat;
  sp_rk : length (sd_rk d) = 32%nat; sp_zk : length (sd_zkproof d) = GROTH_PROOF_SIZE; sp_sig : length (sd_spendAuthSig d) = 64%nat
}.
Record output_ok (d : OutputDescription) : Prop := {
  ou_cv : length (od_cv d) = 32%nat; ou_cm : length (od_cm d) = 32%nat; ou_ek : length (od_ephemeralKey d) = 32%nat;
  ou_enc : length (od_encCiphertext d) = ENC_SIZE; ou_out : length (od_outCiphertext d) = OUT_SIZE;
  ou_zk : length (od_zkproof d) = GROTH_PROOF_SIZE
}.

Definition tx_v3 (tx : CTransaction) : bool := isOverwinterV3 (tx_fOverwintered tx) (tx_nVersionGroupId tx) (tx_nVersion tx).
Definition tx_v4 (tx : CTransaction) : bool := isSaplingV4 (tx_fOverwintered tx) (tx_nVersionGroupId tx) (tx_nVersion tx).
Definition shielded (tx : CTransaction) : bool := negb (is_nil (tx_vShieldedSpend tx) && is_nil (tx_vShieldedOutput tx)).

(** Fields in range, a known format, and the fields the format does not carry at their
    defaults. *)
Record tx_wf (tx : CTransaction) : Prop := {
  wf_version : 0 <= tx_nVersion tx < 2 ^ 31;
  wf_group : 0 <= tx_nVersionGroupId tx < 2 ^ 32;
  wf_format : tx_fOverwintered tx = true -> tx_v3 tx || tx_v4 tx = true;
  wf_old : tx_fOverwintered tx = false -> tx_nVersionGroupId tx = 0;
  wf_vin : zlen (tx_vin tx) <= MAX_DATA_SIZE /\ Forall txin_ok (tx_vin tx);
  wf_vout : zlen (tx_vout tx) <= MAX_DATA_SIZE /\ Forall txout_ok (tx_vout tx);
  wf_lock : 0 <= tx_nLockTime tx < 2 ^ 32;
  wf_expiry : if tx_v3 tx || tx_v4 tx then 0 <= tx_nExpiryHeight tx < 2 ^ 32 else tx_nExpiryHeight tx = 0;
  wf_balance : if tx_v4 tx then INT64_MIN <= tx_valueBalance tx <= INT64_MAX else tx_valueBalance tx = 0;
  wf_spends : zlen (tx_vShieldedSpend tx) <= MAX_DATA_SIZE /\ Forall spend_ok (tx_vShieldedSpend tx);
  wf_outputs : zlen (tx_vShieldedOutput tx) <= MAX_DATA_SIZE /\ Forall output_ok (tx_vShieldedOutput tx);
  wf_shielded : tx_v4 tx = false -> tx_vShieldedSpend tx = [] /\ tx_vShieldedOutput tx = [];
  wf_sig : if shielded tx then length (tx_bindingSig tx) = 64%nat else tx_bindingSig tx = no_bindingSig
}.

Lemma reads_outpoint o : outpoint_ok o -> reads ser_outpoint unser_outpoint o.
Proof.
  intros [Hh Hn] s. unfold ser_outpoint, unser_outpoint. rewrite <- app_assoc, stream_read_app by done.
  cbn [res_bind fst snd]. rewrite (reads_u32 _ Hn). cbn. by destruct o.
Qed.

Lemma reads_txin i : txin_ok i -> reads ser_txin unser_txin i.
Proof.
  intros [Hp Hs Hq] s. unfold ser_txin, unser_txin. rewrite <- !app_assoc, (reads_outpoint _ Hp). cbn [res_bind fst snd].
  rewrite (reads_bytes _ Hs). cbn [res_bind fst snd]. rewrite (reads_u32 _ Hq). cbn. by destruct i.
Qed.

Lemma reads_txout o : txout_ok o -> reads ser_txout unser_txout o.
Proof.
  intros [Hv Hs] s. unfold ser_txout, unser_txout. rewrite <- !app_assoc, (reads_i64 _ Hv). cbn [res_bind fst snd].
  rewrite (reads_bytes _ Hs). cbn. by destruct o.
Qed.

Ltac read_blobs := repeat (rewrite stream_read_app by assumption; cbn [res_bind fst snd]).

Lemma reads_spend d : spend_ok d -> reads ser_spend unser_spend d.
Proof. intros [] s. unfold ser_spend, unser_spend. rewrite <- !app_assoc. read_blobs. by destruct d. Qed.

Lemma reads_output d : output_ok d -> reads ser_output unser_output d.
Proof. intros [] s. unfold ser_output, unser_output. rewrite <- !app_assoc. read_blobs. by destruct d. Qed.

Lemma GetHeader_fields tx : 0 <= tx_nVersion tx < 2 ^ 31 ->
  0 <= GetHeader tx < 2 ^ 32 /\ negb (Z.shiftr (GetHeader tx) 31 =? 0) = tx_fOverwintered tx /\
  Z.land (GetHeader tx) 0x7FFFFFFF = tx_nVersion tx.
Proof.
  intros Hv. unfold GetHeader. rewrite u32_id by lia.
  assert (Z.lor (tx_nVersion tx) (2 ^ 31) = tx_nVersion tx + 2 ^ 31) as El.
  { change (2 ^ 31) with (Z.shiftl 1 31) at 1. rewrite lor_shiftl_add by lia. lia. }
  change 0x7FFFFFFF with (Z.ones 31). rewrite Z.land_ones, Z.shiftr_div_pow2 by lia.
  destruct (tx_fOverwintered tx); rewrite ?El.
  - replace (tx_nVersion tx + 2 ^ 31) with (1 * 2 ^ 31 + tx_nVersion tx) by lia.
    rewrite Z.div_add_l, Z.div_small by lia. rewrite Z.add_comm, Z_mod_plus_full, Z.mod_small by lia. split; [lia|done].
  - rewrite Z.div_small, Z.mod_small by lia. split; [lia|done].
Qed.

(** Formats: an overwintered transaction has exactly one of the two, others none. *)
Lemma wf_old_format tx : tx_fOverwintered tx = false -> tx_v3 tx = false /\ tx_v4 tx = false.
Proof. unfold tx_v3, tx_v4, isOverwinterV3, isSaplingV4. by intros ->. Qed.

(** A field that is present under a condition, with a default otherwise. *)
Lemma reads_opt {A} (b : bool) (ser : A -> bytes) unser x d s : (b = true -> reads ser unser x) -> (b = false -> x = d) ->
  (if b then unser ((if b then ser x else []) ++ s) else Ok (d, (if b then ser x else []) ++ s)) = Ok (x, s).
Proof. destruct b; intros H1 H2; [by apply H1|]. by rewrite H2. Qed.

Lemma tx_Serialize_reads tx : tx_wf tx -> exists s, tx_Serialize tx = Ok s /\ forall rest, tx_Unserialize (s ++ rest) = Ok (tx, rest).
Proof.
  intros [Hver Hgrp Hfmt Hold [Hin1 Hin2] [Hout1 Hout2] Hlock Hexp Hbal [Hsp1 Hsp2] [Hou1 Hou2] Hsh Hsig].
  unfold tx_Serialize. fold (tx_v3 tx) (tx_v4 tx). destruct (GetHeader_fields tx Hver) as (Hh & Ef & Ev).
  assert (tx_fOverwintered tx && negb (tx_v3 tx || tx_v4 tx) = false) as Hok.
  { destruct (tx_fOverwintered tx); [|done]. by rewrite Hfmt. }
  rewrite Hok. eexists; split; [done|]. intros rest. rewrite <- !app_assoc. unfold tx_Unserialize.
  rewrite (reads_u32 _ Hh). cbn [res_bind fst snd]. rewrite Ef, Ev.
  rewrite (reads_opt (tx_fOverwintered tx) ser_u32); [|by intros; apply reads_u32|exact Hold]. cbn [res_bind fst snd].
  fold (tx_v3 tx) (tx_v4 tx). rewrite Hok.
  rewrite (reads_vector ser_txin unser_txin); [|done|eapply Forall_impl; [exact Hin2|exact reads_txin]]. cbn [res_bind fst snd].
  rewrite (reads_vector ser_txout unser_txout); [|done|eapply Forall_impl; [exact Hout2|exact reads_txout]]. cbn [res_bind fst snd].
  rewrite (reads_u32 _ Hlock). cbn [res_bind fst snd].
  rewrite (reads_opt (tx_v3 tx || tx_v4 tx) ser_u32);
    [|intros E; rewrite E in Hexp; by apply reads_u32|intros E; by rewrite E in Hexp]. cbn [res_bind fst snd].
  assert (forall s, (if tx_nVersion tx >=? 2 then unser_vector unser_i32 ((if tx_nVersion tx >=? 2 then ser_vector ser_u32 [] else []) ++ s)
    else Ok ([], (if tx_nVersion tx >=? 2 then ser_vector ser_u32 [] else []) ++ s)) = Ok ([], s)) as Ej
    by (intros s; destruct (tx_nVersion tx >=? 2); [by apply (reads_vector ser_u32 unser_i32 [])|done]).
  fold (shielded tx). destruct (tx_v4 tx) eqn:E4; cbn [andb].
  - rewrite <- !app_assoc, (reads_i64 _ Hbal). cbn [res_bind fst snd].
    rewrite (reads_vector ser_spend unser_spend); [|done|eapply Forall_impl; [exact Hsp2|exact reads_spend]]. cbn [res_bind fst snd].
    rewrite (reads_vector ser_output unser_output); [|done|eapply Forall_impl; [exact Hou2|exact reads_output]]. cbn [res_bind fst snd].
    rewrite Ej. cbn [res_bind fst snd]. fold (shielded tx).
    rewrite (reads_opt (shielded tx) (fun b : bytes => b) (stream_read 64)); [by destruct tx|..].
    + intros E s. rewrite E in Hsig. by apply stream_read_app.
    + intros E. by rewrite E in Hsig.
  - destruct Hsh as [E1 E2]; [done|]. cbn [app res_bind fst snd]. rewrite Ej. cbn [res_bind fst snd].
    assert (tx_bindingSig tx = no_bindingSig) as Es by (unfold shielded in Hsig; by rewrite E1, E2 in Hsig).
    cbn [tx_valueBalance tx_vShieldedSpend tx_vShieldedOutput tx_bindingSig default_tx].
    destruct tx; cbn in *. by subst.
Qed.

(** C32. Transactions read back from the wire: a transaction whose fields are in range and
    that uses one of the known formats is written, and reading it followed by anything gives
    the same transaction and the rest; an overwintered transaction of an unknown format is
    refused by writing. *)
Theorem transaction_roundtrip tx :
  (tx_wf tx -> exists s, tx_Serialize tx = Ok s /\ forall rest, tx_Unserialize (s ++ rest) = Ok (tx, rest)) /\
  (tx_Serialize tx = Err unknown_transaction_format <-> tx_fOverwintered tx = true /\ tx_v3 tx = false /\ tx_v4 tx = false).
Proof.
  split; [apply tx_Serialize_reads|]. unfold tx_Serialize. fold (tx_v3 tx) (tx_v4 tx).
  destruct (tx_fOverwintered tx), (tx_v3 tx), (tx_v4 tx); cbn; split; try done; by intros (? & ? & ?).
Qed.

(** ** Values *)

Definition out_sum (outs : list CTxOut) : Z := foldr (fun o acc => nValue o + acc) 0 outs.

Lemma MoneyRange_spec x : MoneyRange x = true <-> 0 <= x <= MAX_MONEY.
Proof. unfold MoneyRange. lia. Qed.

Lemma out_sum_nonneg outs : Forall (fun o => MoneyRange (nValue o) = true) outs -> 0 <= out_sum outs.
Proof. induction 1 as [|o outs Ho _ IH]; [done|]. apply MoneyRange_spec in Ho. unfold out_sum in *. cbn [foldr]. lia. Qed.

Lemma money_s64 a b : 0 <= a <= MAX_MONEY -> 0 <= b <= MAX_MONEY -> s64 (a + b) = a + b.
Proof. intros. apply s64_id. unfold MAX_MONEY, COIN, INT64_MIN, INT64_MAX in *. lia. Qed.

Lemma value_out_loop_spec outs acc r : 0 <= acc <= MAX_MONEY -> Forall txout_ok outs ->
  value_out_loop outs acc = Ok r <->
    Forall (fun o => MoneyRange (nValue o) = true) outs /\ acc + out_sum outs <= MAX_MONEY /\ r = acc + out_sum outs.
Proof.
  revert acc. induction outs as [|o outs IH]; intros acc Ha Hok; cbn [value_out_loop out_sum foldr].
  { rewrite Z.add_0_r. split; [intros [= ->]; split; [done|lia]|by intros (_ & _ & ->)]. }
  apply Forall_cons in Hok as [[Hv _] Hok]. fold (out_sum outs). rewrite Forall_cons.
  destruct (MoneyRange (nValue o)) eqn:Eo; cbn [negb orb]; [|split; [done|by intros [[? _] _]]].
  apply MoneyRange_spec in Eo as Ho. rewrite money_s64 by done.
  destruct (MoneyRange (acc + nValue o)) eqn:Es; cbn [negb].
  - apply MoneyRange_spec in Es. rewrite (IH _ Es Hok), Z.add_assoc. tauto.
  - split; [done|]. intros ([_ Hf] & Hle & _). apply out_sum_nonneg in Hf.
    apply not_true_iff_false in Es. exfalso. apply Es, MoneyRange_spec. lia.
Qed.

(** What the shielded part takes from and gives to the transparent values. *)
Definition shielded_out (tx : CTransaction) : Z := Z.max 0 (- tx_valueBalance tx).
Definition shielded_in (tx : CTransaction) : Z := Z.max 0 (tx_valueBalance tx).

Lemma value_sums_spec tx v : Forall txout_ok (tx_vout tx) -> INT64_MIN <= tx_valueBalance tx <= INT64_MAX ->
  (GetValueOut tx = Ok v <->
    Forall (fun o => MoneyRange (nValue o) = true) (tx_vout tx) /\ v = out_sum (tx_vout tx) + shielded_out tx /\ v <= MAX_MONEY) /\
  (GetShieldedValueIn tx = Ok v <-> v = shielded_in tx /\ v <= MAX_MONEY).
Proof.
  intros Hok Hb. split.
  - unfold GetValueOut. rewrite res_bind_Ok.
    pose proof (fun r => value_out_loop_spec (tx_vout tx) 0 r ltac:(done) Hok) as Hloop. unfold shielded_out.
    destruct (Z.leb_spec (tx_valueBalance tx) 0) as [Hle|Hgt].
    + split.
      * intros (a & Ha & E). apply Hloop in Ha as (Hf & Hs & ->). rewrite Z.add_0_l in *.
        pose proof (out_sum_nonneg _ Hf) as Hnn. set (neg := s64 (- tx_valueBalance tx)) in *.
        destruct (MoneyRange neg) eqn:En; cbn [negb orb] in E; [|done]. apply MoneyRange_spec in En as Hn.
        destruct (MoneyRange (s64 (out_sum (tx_vout tx) + neg))) eqn:Em; cbn [negb] in E; [|done]. injection E as <-.
        apply MoneyRange_spec in Em. rewrite money_s64 in * by done.
        assert (neg = - tx_valueBalance tx) as En2.
        { unfold neg in *. destruct (decide (tx_valueBalance tx = INT64_MIN)) as [Emin|Emin]; [rewrite Emin in Hn; vm_compute in Hn; destruct Hn as [Hn _]; by destruct Hn|].
          apply s64_id. unfold INT64_MIN, INT64_MAX in *. lia. }
        split; [done|]. lia.
      * intros (Hf & -> & Hm). pose proof (out_sum_nonneg _ Hf) as Hnn. exists (out_sum (tx_vout tx)).
        split; [apply Hloop; split; [done|]; lia|].
        rewrite (s64_id (- _)) by (unfold MAX_MONEY, COIN, INT64_MIN, INT64_MAX in *; lia). rewrite money_s64 by lia.
        rewrite !(proj2 (MoneyRange_spec _)) by lia. cbn. f_equal. lia.
    + split.
      * intros (a & Ha & [= <-]). apply Hloop in Ha as (Hf & Hs & ->). split; [done|]. lia.
      * intros (Hf & -> & Hm). eexists; split; [apply Hloop; split; [done|]; split; [lia|done]|]. f_equal. lia.
  - unfold GetShieldedValueIn, shielded_in. destruct (Z.geb_spec (tx_valueBalance tx) 0) as [Hge|Hlt].
    + rewrite Z.add_0_l, s64_id by done. destruct (MoneyRange (tx_valueBalance tx)) eqn:Em; cbn.
      * apply MoneyRange_spec in Em. split; [intros [= <-]; lia|]. intros [-> _]. f_equal. lia.
      * split; [done|]. intros [-> Hm]. apply not_true_iff_false in Em. exfalso. apply Em, MoneyRange_spec. lia.
    + split; [intros [= <-]; unfold MAX_MONEY, COIN; lia|]. intros [-> _]. f_equal. lia.
Qed.

(** The value of the outputs never overflows: [GetValueOut] returns exactly the sum of
    the outputs and of a negative shielded balance when every term and the sum are in the
    money range, and throws otherwise; [GetShieldedValueIn] returns a positive balance in the
    money range and throws on a larger one. *)
Theorem value_out_exact tx v : Forall txout_ok (tx_vout tx) -> INT64_MIN <= tx_valueBalance tx <= INT64_MAX ->
  (GetValueOut tx = Ok v <->
    Forall (fun o => MoneyRange (nValue o) = true) (tx_vout tx) /\ v = out_sum (tx_vout tx) + shielded_out tx /\ v <= MAX_MONEY) /\
  (GetShieldedValueIn tx = Ok v <-> v = shielded_in tx /\ v <= MAX_MONEY).
Proof. apply value_sums_spec. Qed.

(** ** Concrete transactions *)

Definition blob (n : nat) (b : Z) : bytes := replicate n b.

Definition demo_spend : SpendDescription := {|
  sd_cv := blob 32 1; sd_anchor := blob 32 2; sd_nullifier := blob 32 3; sd_rk := blob 32 4; sd_zkproof := blob 192 5;
  sd_spendAuthSig := blob 64 6 |}.

Definition demo_tx : CTransaction := {|
  tx_fOverwintered := true; tx_nVersion := 4; tx_nVersionGroupId := SAPLING_VERSION_GROUP_ID;
  tx_vin := [{| prevout := {| op_hash := blob 32 7; op_n := 1 |}; scriptSig := [81]; nSequence := UINT32_MAX |}];
  tx_vout := [{| nValue := 5000; scriptPubKey := [81] |}; {| nValue := 70; scriptPubKey := [] |}];
  tx_nLockTime := 0; tx_nExpiryHeight := 100; tx_valueBalance := -30; tx_vShieldedSpend := [demo_spend];
  tx_vShieldedOutput := []; tx_bindingSig := blob 64 9 |}.

Lemma demo_tx_wf : tx_wf demo_tx.
Proof. split; try done; try (vm_compute; intuition congruence); (split; [done|]; repeat constructor; vm_compute; congruence). Qed.

Lemma transaction_roundtrip_witness :
  exists s, tx_Serialize demo_tx = Ok s /\ tx_Unserialize (s ++ [1; 2]) = Ok (demo_tx, [1; 2]).
Proof. destruct (proj1 (transaction_roundtrip demo_tx) demo_tx_wf) as (s & E & Hr). exists s. split; [exact E|apply Hr]. Defined.

Lemma value_out_exact_witness : GetValueOut demo_tx = Ok 5100 /\ GetShieldedValueIn demo_tx = Ok 0.
Proof.
  split.
  - apply (value_out_exact demo_tx 5100); [apply (wf_vout _ demo_tx_wf)|by vm_compute|].
    split; [by repeat constructor|]. by vm_compute.
  - apply (value_out_exact demo_tx 0); [apply (wf_vout _ demo_tx_wf)|by vm_compute|]. by vm_compute.
Defined.

(** The constructor that moves from a mutable transaction loses the binding signature: the
    transaction it makes from one read from the wire is written differently. *)
Lemma move_constructor_drops_bindingSig :
  exists s, tx_Serialize demo_tx = Ok s /\ tx_Unserialize s = Ok (demo_tx, []) /\
    tx_Serialize (tx_copy demo_tx) = Ok s /\ tx_Serialize (tx_move demo_tx) <> Ok s.
Proof. eexists. split; [vm_compute; reflexivity|]. split; [vm_compute; reflexivity|]. split; [vm_compute; reflexivity|]. vm_compute. discriminate. Qed.
