(* ===== verification/Undo.v ===== *)
(** * Undo data

    [undo.h] and the functions of [main.cpp] that store undo data: what connecting a block
    destroys, how it is written to the undo file with a checksum and read back. *)

From S2P Require Import Prelude Script Interpreter InterpreterSafety Serialize Compressor Coins Amount Transaction.

(** ** Data and serialization *)

(** The output an input spends; for the last unspent output of a transaction also the data
    of the entry, otherwise [u_nHeight] is 0. *)
Record CTxInUndo := { u_txout : CTxOut; u_fCoinBase : bool; u_nHeight : Z; u_nVersion : Z }.
Record CTxUndo := { vprevout : list CTxInUndo }.
Record CBlockUndo := { vtxundo : list CTxUndo; old_sprout_tree_root : bytes }.

(** Vectors of elements whose serialization may fail an assertion ([None]). *)
Definition write_vector {A : Type} (ser : A -> option bytes) (v : list A) : option bytes :=
  s ← mapM ser v; Some (WriteCompactSize [] (zlen v) ++ concat s).
Definition read_vector {A : Type} (unser : bytes -> res unser_fail (A * bytes)) (inp : bytes)
  : res unser_fail (list A * bytes) :=
  let? r := lift_io (ReadCompactSize inp MAX_DATA_SIZE) in
  read_n unser (Z.to_nat r.1) r.2.

Section Format.
Context `{Secp256k1}.

Definition in_undo_Serialize (u : CTxInUndo) : option bytes :=
  let s := WriteVarInt 32 [] (u32 (u_nHeight u * 2 + (if u_fCoinBase u then 1 else 0))) in
  let s := if u_nHeight u >? 0 then WriteVarInt 32 s (u_nVersion u) else s in
  txout_Serialize s (u_txout u).

Definition in_undo_Unserialize (inp : bytes) : res unser_fail (CTxInUndo * bytes) :=
  let? c := lift_io (ReadVarInt 32 inp) in
  let nHeight := c.1 / 2 in
  let fCoinBase := negb (Z.land c.1 1 =? 0) in
  let? v := (if nHeight >? 0 then let? v := lift_io (ReadVarInt 32 c.2) in Ok (s32 v.1, v.2) else Ok (0, c.2)) in
  let? o := txout_Unserialize v.2 in
  Ok ({| u_txout := o.1; u_fCoinBase := fCoinBase; u_nHeight := nHeight; u_nVersion := v.1 |}, o.2).

Definition tx_undo_Serialize (u : CTxUndo) : option bytes := write_vector in_undo_Serialize (vprevout u).
Definition tx_undo_Unserialize (inp : bytes) : res unser_fail (CTxUndo * bytes) :=
  let? r := read_vector in_undo_Unserialize inp in Ok ({| vprevout := r.1 |}, r.2).

Definition block_undo_Serialize (u : CBlockUndo) : option bytes :=
  s ← write_vector tx_undo_Serialize (vtxundo u); Some (s ++ old_sprout_tree_root u).
Definition block_undo_Unserialize (inp : bytes) : res unser_fail (CBlockUndo * bytes) :=
  let? v := read_vector tx_undo_Unserialize inp in
  let? h := lift_io (stream_read 32 v.2) in
  Ok ({| vtxundo := v.1; old_sprout_tree_root := h.1 |}, h.2).

(** ** The undo file *)

Inductive undo_fail : Set := open_failed | undo_unser (e : unser_fail) | checksum_mismatch.

(** Writing at an offset; a gap is filled with zeros. *)
Definition write_at (file : bytes) (pos : nat) (b : bytes) : bytes :=
  take pos (file ++ replicate (pos - length file) 0) ++ b ++ drop (pos + length b) file.

Context `{Crypto}.

(** [UndoWriteToDisk]: the new contents and the position of the undo data, [None] for a
    failed assertion; [Err] when the file cannot be opened. *)
Definition UndoWriteToDisk (file : option bytes) (pos : nat) (blockundo : CBlockUndo) (hashBlock messageStart : bytes)
  : res undo_fail (option (bytes * nat)) :=
  match file with
  | None => Err open_failed
  | Some file => Ok (
      s ← block_undo_Serialize blockundo;
      let head := messageStart ++ ser_u32 (zlen s) in
      Some (write_at file pos (head ++ s ++ hash256 (hashBlock ++ s)), (pos + length head)%nat))
  end.

(** [UndoReadFromDisk]; the checksum is computed from what was read, written again. *)
Definition UndoReadFromDisk (file : option bytes) (pos : nat) (hashBlock : bytes) : res undo_fail (option CBlockUndo) :=
  match file with
  | None => Err open_failed
  | Some file =>
      let lift {A} (r : res unser_fail A) : res undo_fail A := match r with Ok a => Ok a | Err e => Err (undo_unser e) end in
      let? u := lift (block_undo_Unserialize (drop pos file)) in
      let? h := lift (lift_io (stream_read 32 u.2)) in
      match block_undo_Serialize u.1 with
      | None => Ok None
      | Some s => if bytes_eqb h.1 (hash256 (hashBlock ++ s)) then Ok (Some u.1) else Err checksum_mismatch
      end
  end.

End Format.

(** ** Round trips *)

(** [x] is written without a failed assertion and read back from any stream. *)
Definition reads_back {A : Type} (ser : A -> option bytes) (unser : bytes -> res unser_fail (A * bytes)) (x : A) : Prop :=
  exists b, ser x = Some b /\ forall s, unser (b ++ s) = Ok (x, s).

Lemma reads_back_vector {A} (ser : A -> option bytes) unser v :
  zlen v <= MAX_DATA_SIZE -> Forall (reads_back ser unser) v -> reads_back (write_vector ser) (read_vector unser) v.
Proof.
  intros Hlen Hv.
  assert (exists bs, mapM ser v = Some bs /\ forall s, read_n unser (length v) (concat bs ++ s) = Ok (v, s)) as (bs & Eb & Hr).
  { clear Hlen. induction Hv as [|x v (b & Eb & Hb) _ (bs & Ebs & Hbs)]; [by exists []|].
    exists (b :: bs). cbn. rewrite Eb, Ebs. split; [done|]. intros s. rewrite <- app_assoc, Hb. cbn [res_bind fst snd].
    by rewrite Hbs. }
  exists (WriteCompactSize [] (zlen v) ++ concat bs). unfold write_vector, read_vector. rewrite Eb. split; [done|].
  intros s. rewrite <- app_assoc, ReadCompactSize_max by (pose proof (zlen_nonneg v); unfold MAX_DATA_SIZE in *; lia).
  cbn [lift_io res_bind fst snd]. unfold zlen. by rewrite Nat2Z.id.
Qed.

(** What connecting a block can put into the undo data. *)
Record in_undo_ok (u : CTxInUndo) : Prop := {
  iu_value : 0 <= nValue (u_txout u) < 2 ^ 60;
  iu_script : zlen (scriptPubKey (u_txout u)) <= MAX_SCRIPT_SIZE;
  iu_height : 0 <= u_nHeight u < 2 ^ 31;
  iu_version : 0 <= u_nVersion u <= INT32_MAX;
  iu_partial : u_nHeight u = 0 -> u_nVersion u = 0
}.
Definition tx_undo_ok (u : CTxUndo) : Prop := zlen (vprevout u) <= MAX_DATA_SIZE /\ Forall in_undo_ok (vprevout u).
Record block_undo_ok (u : CBlockUndo) : Prop := {
  bu_size : zlen (vtxundo u) <= MAX_DATA_SIZE;
  bu_txs : Forall tx_undo_ok (vtxundo u);
  bu_root : length (old_sprout_tree_root u) = 32%nat
}.

Section Roundtrip.
Context `{Secp256k1Laws}.

Lemma in_undo_roundtrip u : in_undo_ok u -> reads_back in_undo_Serialize in_undo_Unserialize u.
Proof.
  intros [Hv Hs Hh Hver Hp]. unfold reads_back, in_undo_Serialize.
  set (n := u_nHeight u * 2 + (if u_fCoinBase u then 1 else 0)).
  assert (0 <= n < 2 ^ 32 /\ n / 2 = u_nHeight u /\ negb (Z.land n 1 =? 0) = u_fCoinBase u) as (Hn & E1 & E2).
  { subst n. change (Z.land ?a 1) with (Z.land a (Z.ones 1)). rewrite Z.land_ones by lia. change (2 ^ 1) with 2.
    destruct (u_fCoinBase u).
    - split; [lia|]. rewrite Z.div_add_l by lia. rewrite (Z.add_comm _ 1), Z.mod_add by lia. split; [apply Z.add_0_r|done].
    - split; [lia|]. by rewrite Z.add_0_r, Z.div_mul, Z.mod_mul by lia. }
  rewrite u32_id by done. rewrite txout_Serialize_app.
  destruct (txout_Serialize_roundtrip (u_txout u) [] Hv Hs) as (b & Eb & _). rewrite Eb. eexists. split; [reflexivity|].
  intros s. destruct (txout_Serialize_roundtrip (u_txout u) s Hv Hs) as (b' & Eb' & Hr).
  assert (b' = b) as -> by congruence. unfold in_undo_Unserialize. unfold INT32_MAX in *.
  destruct (u_nHeight u >? 0) eqn:Eh; zbool.
  - unfold WriteVarInt at 1. rewrite <- !app_assoc.
    rewrite ReadVarInt_Write by lia. cbn [lift_io res_bind fst snd]. rewrite E1, E2.
    destruct (Z.gtb_spec (u_nHeight u) 0); [|lia].
    pose proof (ReadVarInt_Write 32 (u_nVersion u) (b ++ s) ltac:(lia) ltac:(lia)) as Hrv. unfold WriteVarInt in Hrv. cbn [app] in Hrv.
    rewrite Hrv. cbn [lift_io res_bind fst snd]. rewrite s32_id by (unfold INT32_MIN, INT32_MAX; lia).
    rewrite Hr. cbn [res_bind fst snd]. by destruct u.
  - rewrite <- app_assoc, ReadVarInt_Write by lia. cbn [lift_io res_bind fst snd]. rewrite E1, E2.
    destruct (Z.gtb_spec (u_nHeight u) 0); [lia|]. cbn [res_bind fst snd]. rewrite Hr. cbn [res_bind fst snd].
    rewrite <- Hp by lia. by destruct u.
Qed.

Lemma tx_undo_roundtrip u : tx_undo_ok u -> reads_back tx_undo_Serialize tx_undo_Unserialize u.
Proof.
  intros [Hl Hu]. destruct (reads_back_vector in_undo_Serialize in_undo_Unserialize (vprevout u) Hl) as (b & Eb & Hb).
  { eapply Forall_impl; [exact Hu|exact in_undo_roundtrip]. }
  exists b. split; [exact Eb|]. intros s. unfold tx_undo_Unserialize. rewrite Hb. by destruct u.
Qed.

Lemma block_undo_roundtrip u : block_undo_ok u -> reads_back block_undo_Serialize block_undo_Unserialize u.
Proof.
  intros [Hl Hu Hr]. destruct (reads_back_vector tx_undo_Serialize tx_undo_Unserialize (vtxundo u) Hl) as (b & Eb & Hb).
  { eapply Forall_impl; [exact Hu|exact tx_undo_roundtrip]. }
  exists (b ++ old_sprout_tree_root u). unfold block_undo_Serialize. rewrite Eb. split; [done|]. intros s.
  unfold block_undo_Unserialize. rewrite <- app_assoc, Hb. cbn [res_bind fst snd].
  rewrite stream_read_app by done. by destruct u.
Qed.

Lemma write_at_drop file pos a b : drop (pos + length a) (write_at file pos (a ++ b)) =
  b ++ drop (pos + length (a ++ b)) file.
Proof.
  unfold write_at. rewrite <- (app_assoc a b), app_assoc. apply drop_app_length'.
  rewrite length_app, length_take, length_app, length_replicate. lia.
Qed.
Context `{CryptoLaws}.

Lemma UndoWriteToDisk_spec u file pos hashBlock messageStart :
  block_undo_ok u ->
  exists file' pos', UndoWriteToDisk (Some file) pos u hashBlock messageStart = Ok (Some (file', pos')) /\
    pos' = (pos + length messageStart + 4)%nat /\
    take (pos `min` length file) file' = take (pos `min` length file) file /\
    UndoReadFromDisk (Some file') pos' hashBlock = Ok (Some u) /\
    forall other, UndoReadFromDisk (Some file') pos' other = Ok (Some u) \/
                  UndoReadFromDisk (Some file') pos' other = Err checksum_mismatch.
Proof.
  intros Hu. destruct (block_undo_roundtrip u Hu) as (b & Eb & Hb).
  unfold UndoWriteToDisk. rewrite Eb. cbn [mbind option_bind]. eexists _, _. split; [reflexivity|].
  set (head := messageStart ++ ser_u32 (zlen b)).
  assert (forall h, UndoReadFromDisk (Some (write_at file pos (head ++ b ++ hash256 (hashBlock ++ b)))) (pos + length head) h =
    if bytes_eqb (hash256 (hashBlock ++ b)) (hash256 (h ++ b)) then Ok (Some u) else Err checksum_mismatch) as Hread.
  { intros h. unfold UndoReadFromDisk. rewrite write_at_drop, <- app_assoc, Hb. cbn [res_bind fst snd].
    rewrite stream_read_app by (pose proof (sha256_len (sha256 (hashBlock ++ b))); unfold hash256, zlen in *; lia). cbn [lift_io res_bind fst snd]. by rewrite Eb. }
  split; [unfold head; rewrite length_app, Nat.add_assoc; f_equal; apply length_le_bytes|]. split; [|split].
  - unfold write_at. rewrite take_app_le by (rewrite length_take, length_app, length_replicate; lia).
    rewrite take_take, take_app_le by lia. f_equal. lia.
  - rewrite Hread. unfold bytes_eqb. by rewrite bool_decide_true.
  - intros other. rewrite Hread. destruct (bytes_eqb _ _); [by left|by right].
Qed.

(** What connecting a block puts into the undo data survives the undo file: it is written
    without a failed assertion, reading it back with the hash of the same block gives exactly
    the same data, and with another block's hash an error unless the two checksums collide.
    Nothing before the position is changed. *)
Theorem undo_file_roundtrip u file pos hashBlock messageStart :
  block_undo_ok u ->
  exists file' pos', UndoWriteToDisk (Some file) pos u hashBlock messageStart = Ok (Some (file', pos')) /\
    pos' = (pos + length messageStart + 4)%nat /\
    take (pos `min` length file) file' = take (pos `min` length file) file /\
    UndoReadFromDisk (Some file') pos' hashBlock = Ok (Some u) /\
    forall other, UndoReadFromDisk (Some file') pos' other = Ok (Some u) \/
                  UndoReadFromDisk (Some file') pos' other = Err checksum_mismatch.
Proof. apply UndoWriteToDisk_spec. Qed.
End Roundtrip.

(** ** A concrete undo file *)

Definition demo_block_undo : CBlockUndo := {|
  vtxundo := [ {| vprevout := [ {| u_txout := {| nValue := 77; scriptPubKey := [81; 82] |}; u_fCoinBase := true; u_nHeight := 100; u_nVersion := 4 |};
                                {| u_txout := {| nValue := 500; scriptPubKey := [] |}; u_fCoinBase := false; u_nHeight := 0; u_nVersion := 0 |} ] |};
               {| vprevout := [] |} ];
  old_sprout_tree_root := replicate 32 3
|}.

Lemma demo_block_undo_ok : block_undo_ok demo_block_undo.
Proof. split; [done| |done]. repeat (apply Forall_cons; split); try apply Forall_nil_2; (split; [done|]); repeat (apply Forall_cons; split); try apply Forall_nil_2; by split. Qed.

Lemma undo_file_roundtrip_witness :
  exists file' pos', UndoWriteToDisk (Some [1; 2; 3]) 5 demo_block_undo (replicate 32 8) [9; 9; 9; 9] = Ok (Some (file', pos')) /\
    UndoReadFromDisk (Some file') pos' (replicate 32 8) = Ok (Some demo_block_undo).
Proof.
  destruct (undo_file_roundtrip demo_block_undo [1; 2; 3] 5 (replicate 32 8) [9; 9; 9; 9] demo_block_undo_ok)
    as (file' & pos' & Ew & _ & _ & Er & _).
  exists file', pos'. split; [exact Ew|exact Er].
Defined.
