(* ===== verification/ChainState.v ===== *)
(** * Connecting and disconnecting blocks

    The part of [main.cpp] that changes the set of unspent outputs: [UpdateCoins],
    [Consensus::CheckTxInputs], [ContextualCheckInputs], [ConnectBlock], [ApplyTxInUndo] and
    [DisconnectBlock], over the coin cache, with the undo data of [undo.h].

    What these functions only consult is a parameter ([ConnectEnv]): the verdicts of
    [CheckBlock] and of the payment rules [IsBlockValid], the signature checker, the
    commitment tree, the allocation in the undo file and the table of block heights.  A
    function that returns false leaves a view that its caller throws away, so that outcome
    is an error value; the optional transaction and address indexes are left out. *)

From stdpp Require Import gmap.
From S2P Require Import Prelude Script Interpreter Serialize Compressor Coins CoinsView Amount Upgrades Transaction Undo.

(** ** Outcomes *)

(** The reject reasons. *)
Inductive reject_reason : Set :=
| no_reason
| inputs_unavailable
| shielded_requirements
| bad_txns_premature_spend_of_coinbase
| bad_txns_inputvalues_outofrange
| bad_txns_in_belowout
| bad_txns_fee_negative
| bad_txns_fee_outofrange
| non_mandatory_script_verify_flag
| mandatory_script_verify_flag_failed
| check_block_failed
| bad_txns_BIP30
| bad_blk_sigops
| bad_txns_inputs_missingorspent
| bad_txns_shielded_requirements_not_met
| bad_sapling_root_in_block
| bad_cb_amount.

(** [state.DoS] with its level, a failed assertion (or an access outside a vector), an
    exception, or an error of the undo file. *)
Inductive connect_fail : Set :=
| Rejected (nDoS : Z) (reason : reject_reason)
| Assertion
| Threw
| UndoError.

Definition lift_cache {A : Type} (r : res cache_fail A) : res connect_fail A :=
  match r with Ok a => Ok a | Err _ => Err Assertion end.
Definition lift_value {A : Type} (r : res value_fail A) : res connect_fail A :=
  match r with Ok a => Ok a | Err _ => Err Threw end.

(** ** Constants *)

Definition MAX_BLOCK_SIGOPS : Z := 20000.
Definition COINBASE_MATURITY : Z := 100.
Definition MANDATORY_SCRIPT_VERIFY_FLAGS : Z := SCRIPT_VERIFY_P2SH.
Definition STANDARD_SCRIPT_VERIFY_FLAGS : Z :=
  foldr Z.lor 0 [MANDATORY_SCRIPT_VERIFY_FLAGS; SCRIPT_VERIFY_STRICTENC; SCRIPT_VERIFY_MINIMALDATA; SCRIPT_VERIFY_NULLDUMMY;
    SCRIPT_VERIFY_DISCOURAGE_UPGRADABLE_NOPS; SCRIPT_VERIFY_CLEANSTACK; SCRIPT_VERIFY_CHECKLOCKTIMEVERIFY; SCRIPT_VERIFY_LOW_S].
Definition STANDARD_NOT_MANDATORY_VERIFY_FLAGS : Z := Z.ldiff STANDARD_SCRIPT_VERIFY_FLAGS MANDATORY_SCRIPT_VERIFY_FLAGS.

Definition GetBlockSubsidy (IsRegTest : bool) (nSubsidyHalvingInterval nHeight : Z) : Z :=
  if negb IsRegTest && (u32 nHeight =? INGEST_MINING_BLOCK) then INGEST_MINING_AMOUNT
  else if negb IsRegTest && (u32 nHeight <? TOP_INGEST_BLOCK) then INGEST_WAITING_AMOUNT
  else
    let halvings := Z.quot nHeight nSubsidyHalvingInterval in
    if halvings >=? 64 then 0 else Z.shiftr (REWARD * COIN) halvings.

(** ** Data *)

Record CBlock := { block_hash : bytes; vtx : list CTransaction; hashFinalSaplingRoot : bytes }.

(** What the functions use of [CBlockIndex] and of its parent. *)
Record prev_index := { p_hash : bytes; p_nHeight : Z; p_hashFinalSaplingRoot : bytes; p_nCachedBranchId : option Z }.
Record block_index := {
  bi_hash : bytes;
  bi_nHeight : Z;
  pprev : option prev_index;
  hashSproutAnchor : bytes;
  hashFinalSproutRoot : bytes;
  nUndoPos : option nat;           (* [None]: GetUndoPos().IsNull() *)
  valid_scripts : bool;            (* IsValid(BLOCK_VALID_SCRIPTS) *)
  activates_upgrade : bool;
  nCachedBranchId : option Z
}.

Definition set_sprout (idx : block_index) (anchor final : bytes) : block_index :=
  {| bi_hash := bi_hash idx; bi_nHeight := bi_nHeight idx; pprev := pprev idx; hashSproutAnchor := anchor;
     hashFinalSproutRoot := final; nUndoPos := nUndoPos idx; valid_scripts := valid_scripts idx;
     activates_upgrade := activates_upgrade idx; nCachedBranchId := nCachedBranchId idx |}.
Definition set_undo_pos (idx : block_index) (pos : nat) : block_index :=
  {| bi_hash := bi_hash idx; bi_nHeight := bi_nHeight idx; pprev := pprev idx; hashSproutAnchor := hashSproutAnchor idx;
     hashFinalSproutRoot := hashFinalSproutRoot idx; nUndoPos := Some pos; valid_scripts := valid_scripts idx;
     activates_upgrade := activates_upgrade idx; nCachedBranchId := nCachedBranchId idx |}.
Definition set_validated (idx : block_index) (activates : bool) (branch : option Z) : block_index :=
  {| bi_hash := bi_hash idx; bi_nHeight := bi_nHeight idx; pprev := pprev idx; hashSproutAnchor := hashSproutAnchor idx;
     hashFinalSproutRoot := hashFinalSproutRoot idx; nUndoPos := nUndoPos idx; valid_scripts := true;
     activates_upgrade := activates; nCachedBranchId := branch |}.

Class ConnectEnv `{CacheParams} := {
  CheckBlock : CBlock -> bool;
  IsBlockValid : CBlock -> Z -> Z -> bool;                     (* height, reward *)
  sig_checker : CTransaction -> nat -> Z -> BaseSignatureChecker;  (* input number, amount *)
  tree_append : Tree -> bytes -> option Tree;                  (* [None]: the tree is full *)
  FindUndoPos : Z -> option nat;                               (* size to add *)
  block_height : bytes -> option Z;                            (* mapBlockIndex *)
  is_regtest : bool;
  halving_interval : Z;
  genesis_hash : bytes;
  upgrades : upgrade_table;
  message_start : bytes;
  script_threads : bool                                        (* GetThreadCount() > 0 *)
}.

(** [GetHash]; a transaction that cannot be serialized cannot be constructed. *)
Definition txid `{Crypto} (tx : CTransaction) : bytes :=
  match GetHash tx with Ok h => h | Err _ => uint256_null end.

Definition prevouts (tx : CTransaction) : list (bytes * Z) := map (fun i => (op_hash (prevout i), op_n (prevout i))) (tx_vin tx).
Definition spends (tx : CTransaction) : list (bytes * bytes) := map (fun s => (sd_nullifier s, sd_anchor s)) (tx_vShieldedSpend tx).
Definition nullifiers (tx : CTransaction) : list bytes := map sd_nullifier (tx_vShieldedSpend tx).
Definition tx_coins (tx : CTransaction) (nHeight : Z) : CCoins := FromTx (IsCoinBase tx) (tx_vout tx) (tx_nVersion tx) nHeight.

(** ** What happens inside a modifier's scope *)

(** [UpdateCoins], one input: the undo record and the entry after spending. *)
Definition spend_body (nPos : Z) (coins : CCoins) : res cache_fail (CTxInUndo * CCoins) :=
  match znth (vout coins) nPos with
  | None => Err assertion
  | Some o =>
      if IsNull o then Err assertion
      else
        let coins := (Spend coins nPos).2 in
        Ok (if bool_decide (vout coins = [])
            then {| u_txout := o; u_fCoinBase := fCoinBase coins; u_nHeight := u32 (nHeight coins); u_nVersion := nVersion coins |}
            else {| u_txout := o; u_fCoinBase := false; u_nHeight := 0; u_nVersion := 0 |}, coins)
  end.

(** [ApplyTxInUndo]: whether it was clean, and the entry with the output put back. *)
Definition undo_body (undo : CTxInUndo) (n : Z) (coins : CCoins) : res cache_fail (bool * CCoins) :=
  let '(fClean, coins) :=
    (if negb (u_nHeight undo =? 0) then
       (IsPruned coins, {| fCoinBase := u_fCoinBase undo; vout := []; nHeight := s32 (u_nHeight undo); nVersion := u_nVersion undo |})
     else (negb (IsPruned coins), coins)) in
  let fClean := fClean && negb (IsAvailable coins n) in
  let size := u32 (n + 1) in
  let v := if zlen (vout coins) <? size then resize (Z.to_nat size) null_txout (vout coins) else vout coins in
  match znth v n with
  | None => Err assertion
  | Some _ => Ok (fClean, with_vout coins (<[Z.to_nat n := u_txout undo]> v))
  end.

(** [DisconnectBlock], the outputs of one transaction: whether they match the block, and the
    cleared entry. *)
Definition outs_body (outsBlock : CCoins) (outs : CCoins) : res cache_fail (bool * CCoins) :=
  let outs := ClearUnspendable outs in
  let outs := if nVersion outsBlock <? 0
              then {| fCoinBase := fCoinBase outs; vout := vout outs; nHeight := nHeight outs; nVersion := nVersion outsBlock |}
              else outs in
  Ok (coins_eqb outs outsBlock, coins_Clear).

Section Operations.
Context `{CacheParams} {V : Type} `{!CCoinsView V}.

(** A scope in which the entry is read and changed. *)
Definition in_modifier {A : Type} (begin : res cache_fail (CCoinsModifier * CCoinsViewCache V))
    (f : CCoins -> res cache_fail (A * CCoins)) : res cache_fail (A * CCoinsViewCache V) :=
  let? r := begin in
  match cacheCoins (data r.2) !! it r.1 with
  | None => Err assertion
  | Some e =>
      let? x := f (coins e) in
      let? c := modifier_destroy r.1 (modifier_apply r.1 (fun _ => x.2) r.2) in
      Ok (x.1, c)
  end.

(** ** [UpdateCoins] *)

Fixpoint spend_loop (c : CCoinsViewCache V) (vin : list CTxIn) : res cache_fail (list CTxInUndo * CCoinsViewCache V) :=
  match vin with
  | [] => Ok ([], c)
  | i :: vin =>
      let? r := in_modifier (ModifyCoins c (op_hash (prevout i))) (spend_body (op_n (prevout i))) in
      let? rest := spend_loop r.2 vin in
      Ok (r.1 :: rest.1, rest.2)
  end.

Definition UpdateCoins `{Crypto} (tx : CTransaction) (inputs : CCoinsViewCache V) (nHeight : Z)
  : res cache_fail (CTxUndo * CCoinsViewCache V) :=
  let? r := (if negb (IsCoinBase tx) then spend_loop inputs (tx_vin tx) else Ok ([], inputs)) in
  let c := SetNullifiers r.2 (nullifiers tx) true in
  let? c := with_modifier (ModifyNewCoins c (txid tx)) (fun _ => tx_coins tx nHeight) in
  Ok ({| vprevout := r.1 |}, c).

(** ** Checking the inputs of a transaction *)

Fixpoint input_values_loop (inputs : CCoinsViewCache V) (vin : list CTxIn) (nSpendHeight nValueIn : Z)
  : res connect_fail (Z * CCoinsViewCache V) :=
  match vin with
  | [] => Ok (nValueIn, inputs)
  | i :: vin =>
      let '(r, inputs) := AccessCoins inputs (op_hash (prevout i)) in
      match r with
      | None => Err Assertion
      | Some coins =>
          if fCoinBase coins && (s32 (nSpendHeight - nHeight coins) <? COINBASE_MATURITY)
          then Err (Rejected 0 bad_txns_premature_spend_of_coinbase)
          else
            match znth (vout coins) (op_n (prevout i)) with
            | None => Err Assertion
            | Some o =>
                let nValueIn := s64 (nValueIn + nValue o) in
                if negb (MoneyRange (nValue o)) || negb (MoneyRange nValueIn)
                then Err (Rejected 100 bad_txns_inputvalues_outofrange)
                else input_values_loop inputs vin nSpendHeight nValueIn
            end
      end
  end.

(** The rules about the sums, for inputs worth [nValueIn]. *)
Definition check_amounts (tx : CTransaction) (nValueIn : Z) : res connect_fail unit :=
  let? shieldedIn := lift_value (GetShieldedValueIn tx) in
  let nValueIn := s64 (nValueIn + shieldedIn) in
  if negb (MoneyRange nValueIn) then Err (Rejected 100 bad_txns_inputvalues_outofrange) else
  let? valueOut := lift_value (GetValueOut tx) in
  if nValueIn <? valueOut then Err (Rejected 100 bad_txns_in_belowout) else
  let nTxFee := s64 (nValueIn - valueOut) in
  if nTxFee <? 0 then Err (Rejected 100 bad_txns_fee_negative) else
  if negb (MoneyRange (s64 (0 + nTxFee))) then Err (Rejected 100 bad_txns_fee_outofrange) else
  Ok tt.

Definition CheckTxInputs (tx : CTransaction) (inputs : CCoinsViewCache V) (nSpendHeight : Z)
  : res connect_fail (CCoinsViewCache V) :=
  let '(have, inputs) := HaveInputs inputs (IsCoinBase tx) (prevouts tx) in
  if negb have then Err (Rejected 0 inputs_unavailable) else
  let '(shielded, inputs) := HaveShieldedRequirements inputs (spends tx) in
  if negb shielded then Err (Rejected 0 shielded_requirements) else
  let? r := input_values_loop inputs (tx_vin tx) nSpendHeight 0 in
  let? _ := check_amounts tx r.1 in
  Ok r.2.

Context `{Crypto} `{!ConnectEnv}.

(** [CScriptCheck::operator()] *)
Definition script_check (tx : CTransaction) (nIn : nat) (i : CTxIn) (o : CTxOut) (flags consensusBranchId : Z) : bool :=
  is_ok (VerifyScript (scriptSig i) (scriptPubKey o) flags (sig_checker tx nIn (nValue o)) consensusBranchId).

(** The script checks of [ContextualCheckInputs]: run at once, or collected ([pvChecks]); a
    check is a function of its arguments, so its result is collected. *)
Fixpoint script_checks_loop (tx : CTransaction) (inputs : CCoinsViewCache V) (nIn : nat) (vin : list CTxIn)
    (flags consensusBranchId : Z) (pvChecks : bool) : res connect_fail (list bool * CCoinsViewCache V) :=
  match vin with
  | [] => Ok ([], inputs)
  | i :: vin =>
      let '(r, inputs) := AccessCoins inputs (op_hash (prevout i)) in
      match r with
      | None => Err Assertion
      | Some coins =>
          match znth (vout coins) (op_n (prevout i)) with
          | None => Err Assertion
          | Some o =>
              let ok := script_check tx nIn i o flags consensusBranchId in
              if pvChecks then
                let? rest := script_checks_loop tx inputs (S nIn) vin flags consensusBranchId pvChecks in
                Ok (ok :: rest.1, rest.2)
              else if negb ok then
                if negb (Z.land flags STANDARD_NOT_MANDATORY_VERIFY_FLAGS =? 0) &&
                   script_check tx nIn i o (Z.ldiff flags STANDARD_NOT_MANDATORY_VERIFY_FLAGS) consensusBranchId
                then Err (Rejected 0 non_mandatory_script_verify_flag)
                else Err (Rejected 100 mandatory_script_verify_flag_failed)
              else script_checks_loop tx inputs (S nIn) vin flags consensusBranchId pvChecks
          end
      end
  end.

Definition GetSpendHeight (inputs : CCoinsViewCache V) : res connect_fail (Z * CCoinsViewCache V) :=
  let '(h, inputs) := cache_GetBestBlock inputs in
  match block_height h with None => Err Assertion | Some n => Ok (s32 (n + 1), inputs) end.

Definition ContextualCheckInputs (tx : CTransaction) (inputs : CCoinsViewCache V) (fScriptChecks : bool)
    (flags consensusBranchId : Z) (pvChecks : bool) : res connect_fail (list bool * CCoinsViewCache V) :=
  if IsCoinBase tx then Ok ([], inputs)
  else
    let? h := GetSpendHeight inputs in
    let? inputs := CheckTxInputs tx h.2 h.1 in
    if fScriptChecks then script_checks_loop tx inputs 0 (tx_vin tx) flags consensusBranchId pvChecks
    else Ok ([], inputs).

(** ** Signature operations *)

Definition GetLegacySigOpCount (tx : CTransaction) : Z :=
  let n := foldl (fun n i => u32 (n + GetSigOpCount (scriptSig i) false)) 0 (tx_vin tx) in
  foldl (fun n o => u32 (n + GetSigOpCount (scriptPubKey o) false)) n (tx_vout tx).

Fixpoint p2sh_sigops_loop (c : CCoinsViewCache V) (vin : list CTxIn) (nSigOps : Z) : res cache_fail (Z * CCoinsViewCache V) :=
  match vin with
  | [] => Ok (nSigOps, c)
  | i :: vin =>
      let? r := GetOutputFor c (op_hash (prevout i)) (op_n (prevout i)) in
      p2sh_sigops_loop r.2 vin
        (if IsPayToScriptHash (scriptPubKey r.1) then u32 (nSigOps + GetSigOpCountP2SH (scriptPubKey r.1) (scriptSig i)) else nSigOps)
  end.

Definition GetP2SHSigOpCount (tx : CTransaction) (c : CCoinsViewCache V) : res cache_fail (Z * CCoinsViewCache V) :=
  if IsCoinBase tx then Ok (0, c) else p2sh_sigops_loop c (tx_vin tx) 0.

(** ** [ConnectBlock] *)

(** The variables of the loop over the transactions. *)
Record connect_state := {
  cs_view : CCoinsViewCache V;
  cs_nFees : Z;
  cs_nSigOps : Z;
  cs_tree : Tree;
  cs_undo : list CTxUndo;
  cs_checks : list bool
}.

Fixpoint append_notes (t : Tree) (outs : list OutputDescription) : res connect_fail Tree :=
  match outs with
  | [] => Ok t
  | o :: outs => match tree_append t (od_cm o) with None => Err Threw | Some t => append_notes t outs end
  end.

(** The checks of a transaction that is not a coinbase, up to [vChecks]. *)
Definition check_spending_tx (st : connect_state) (tx : CTransaction) (fExpensiveChecks : bool) (nSigOps flags branchId : Z)
  : res connect_fail (CCoinsViewCache V * Z * Z * list bool) :=
  let '(have, c) := HaveInputs (cs_view st) (IsCoinBase tx) (prevouts tx) in
  if negb have then Err (Rejected 100 bad_txns_inputs_missingorspent) else
  let '(shielded, c) := HaveShieldedRequirements c (spends tx) in
  if negb shielded then Err (Rejected 100 bad_txns_shielded_requirements_not_met) else
  let? p := lift_cache (GetP2SHSigOpCount tx c) in
  let nSigOps := u32 (nSigOps + p.1) in
  if nSigOps >? MAX_BLOCK_SIGOPS then Err (Rejected 100 bad_blk_sigops) else
  let? shieldedIn := lift_value (GetShieldedValueIn tx) in
  let? vin := lift_cache (GetValueIn p.2 (IsCoinBase tx) (prevouts tx) shieldedIn) in
  let? vout := lift_value (GetValueOut tx) in
  let nFees := s64 (cs_nFees st + s64 (vin.1 - vout)) in
  let? r := ContextualCheckInputs tx vin.2 fExpensiveChecks flags branchId script_threads in
  Ok (r.2, nFees, nSigOps, r.1).

(** The body of the loop; [first] is [nTxOrderNo == 0]. *)
Definition connect_tx (st : connect_state) (first : bool) (tx : CTransaction) (fExpensiveChecks : bool) (nHeight flags branchId : Z)
  : res connect_fail connect_state :=
  let nSigOps := u32 (cs_nSigOps st + GetLegacySigOpCount tx) in
  if nSigOps >? MAX_BLOCK_SIGOPS then Err (Rejected 100 bad_blk_sigops) else
  let? r := (if negb (IsCoinBase tx) then check_spending_tx st tx fExpensiveChecks nSigOps flags branchId
             else Ok (cs_view st, cs_nFees st, nSigOps, [])) in
  let '(c, nFees, nSigOps, checks) := r in
  let? u := lift_cache (UpdateCoins tx c nHeight) in
  let? t := append_notes (cs_tree st) (tx_vShieldedOutput tx) in
  Ok {| cs_view := u.2; cs_nFees := nFees; cs_nSigOps := nSigOps; cs_tree := t;
        cs_undo := if first then cs_undo st else cs_undo st ++ [u.1]; cs_checks := cs_checks st ++ checks |}.

Fixpoint connect_loop (st : connect_state) (first : bool) (txs : list CTransaction) (fExpensiveChecks : bool)
    (nHeight flags branchId : Z) : res connect_fail connect_state :=
  match txs with
  | [] => Ok st
  | tx :: txs =>
      let? st := connect_tx st first tx fExpensiveChecks nHeight flags branchId in
      connect_loop st false txs fExpensiveChecks nHeight flags branchId
  end.

(** The rule against overwriting transactions with unspent outputs. *)
Fixpoint bip30_loop (c : CCoinsViewCache V) (txs : list CTransaction) : res connect_fail (CCoinsViewCache V) :=
  match txs with
  | [] => Ok c
  | tx :: txs =>
      let '(r, c) := AccessCoins c (txid tx) in
      match r with
      | Some coins => if negb (IsPruned coins) then Err (Rejected 100 bad_txns_BIP30) else bip30_loop c txs
      | None => bip30_loop c txs
      end
  end.

Context `{Secp256k1}.

(** Writing the undo data and recording the block as validated. *)
Definition write_undo (idx : block_index) (blockundo : CBlockUndo) (undo_file : option bytes)
  : res connect_fail (block_index * option bytes) :=
  if negb (match nUndoPos idx with None => true | Some _ => false end || negb (valid_scripts idx)) then Ok (idx, undo_file)
  else
    let? r :=
      (match nUndoPos idx with
       | Some _ => Ok (idx, undo_file)
       | None =>
           match block_undo_Serialize blockundo with
           | None => Err Assertion
           | Some s =>
               match FindUndoPos (zlen s + 40) with
               | None => Err UndoError
               | Some pos =>
                   match pprev idx with
                   | None => Ok (set_undo_pos idx pos, undo_file)
                   | Some prev =>
                       match UndoWriteToDisk undo_file pos blockundo (p_hash prev) message_start with
                       | Ok (Some (file, pos)) => Ok (set_undo_pos idx pos, Some file)
                       | Ok None => Err Assertion
                       | Err _ => Err UndoError
                       end
                   end
               end
           end
       end) in
    let idx := r.1 in
    Ok (if IsActivationHeightForAnyUpgrade (bi_nHeight idx) upgrades
        then set_validated idx true (Some (CurrentEpochBranchId (bi_nHeight idx) upgrades))
        else set_validated idx (activates_upgrade idx)
               (match pprev idx with Some prev => p_nCachedBranchId prev | None => nCachedBranchId idx end), r.2).

(** The view, the index entry and the undo file after connecting. *)
Definition ConnectBlock (block : CBlock) (idx : block_index) (view : CCoinsViewCache V) (undo_file : option bytes)
    (fExpensiveChecks fJustCheck : bool) : res connect_fail (CCoinsViewCache V * block_index * option bytes) :=
  if negb (CheckBlock block) then Err (Rejected 0 check_block_failed) else
  let hashPrevBlock := match pprev idx with Some prev => p_hash prev | None => uint256_null end in
  let '(best, view) := cache_GetBestBlock view in
  if negb (bytes_eqb hashPrevBlock best) then Err Assertion else
  if bytes_eqb (block_hash block) genesis_hash then
    Ok (if fJustCheck then (view, idx, undo_file)
        else (SetBestBlock view (bi_hash idx), set_sprout idx (empty_root SPROUT) (empty_root SPROUT), undo_file))
  else
  let? view := bip30_loop view (vtx block) in
  let flags := Z.lor SCRIPT_VERIFY_P2SH SCRIPT_VERIFY_CHECKLOCKTIMEVERIFY in
  let '(old_sprout_root, view) := cache_GetBestAnchor view SPROUT in
  let '(sprout, view) := cache_GetAnchorAt view SPROUT old_sprout_root in
  match sprout with
  | None => Err Assertion
  | Some sprout_tree =>
  if negb (bytes_eqb (tree_root SPROUT sprout_tree) old_sprout_root) then Err Assertion else
  let '(best_sapling, view) := cache_GetBestAnchor view SAPLING in
  let '(sapling, view) := cache_GetAnchorAt view SAPLING best_sapling in
  match sapling with
  | None => Err Assertion
  | Some sapling_tree =>
  let branchId := CurrentEpochBranchId (bi_nHeight idx) upgrades in
  let? st := connect_loop {| cs_view := view; cs_nFees := 0; cs_nSigOps := 0; cs_tree := sapling_tree; cs_undo := []; cs_checks := [] |}
               true (vtx block) fExpensiveChecks (bi_nHeight idx) flags branchId in
  let view := PushAnchor (PushAnchor (cs_view st) SPROUT sprout_tree) SAPLING (cs_tree st) in
  let idx := if fJustCheck then idx else set_sprout idx old_sprout_root (tree_root SPROUT sprout_tree) in
  let blockundo := {| vtxundo := cs_undo st; old_sprout_tree_root := old_sprout_root |} in
  if NetworkUpgradeActive (bi_nHeight idx) upgrades UPGRADE_SAPLING &&
     negb (bytes_eqb (hashFinalSaplingRoot block) (tree_root SAPLING (cs_tree st)))
  then Err (Rejected 100 bad_sapling_root_in_block) else
  let blockReward := s64 (cs_nFees st + GetBlockSubsidy is_regtest halving_interval (bi_nHeight idx)) in
  if negb (IsBlockValid block (bi_nHeight idx) blockReward) then Err (Rejected 0 bad_cb_amount) else
  if negb (forallb id (cs_checks st)) then Err (Rejected 100 no_reason) else
  if fJustCheck then Ok (view, idx, undo_file) else
  let? r := write_undo idx blockundo undo_file in
  Ok (SetBestBlock view (bi_hash idx), r.1, r.2)
  end
  end.

(** ** [DisconnectBlock] *)

Inductive BlockDisconnectResult : Set := DISCONNECT_OK | UNCLEAN | FAILED.

Definition ApplyTxInUndo (undo : CTxInUndo) (view : CCoinsViewCache V) (out : COutPoint) : res cache_fail (bool * CCoinsViewCache V) :=
  in_modifier (ModifyCoins view (op_hash out)) (undo_body undo (op_n out)).

(** The inputs from the last to the first: [l] is the reversed list of inputs and undo data. *)
Fixpoint undo_inputs_loop (view : CCoinsViewCache V) (l : list (CTxIn * CTxInUndo)) (fClean : bool)
  : res cache_fail (bool * CCoinsViewCache V) :=
  match l with
  | [] => Ok (fClean, view)
  | (i, undo) :: l =>
      let? r := ApplyTxInUndo undo view (prevout i) in
      undo_inputs_loop r.2 l (fClean && r.1)
  end.

(** One transaction; [undo] is [None] for the coinbase.  The result is [None] for [FAILED]. *)
Definition disconnect_tx (view : CCoinsViewCache V) (nHeight : Z) (tx : CTransaction) (undo : option CTxUndo) (fClean : bool)
  : res cache_fail (option (bool * CCoinsViewCache V)) :=
  let? r := in_modifier (ModifyCoins view (txid tx)) (outs_body (tx_coins tx nHeight)) in
  let fClean := fClean && r.1 in
  let view := SetNullifiers r.2 (nullifiers tx) false in
  match undo with
  | None => Ok (Some (fClean, view))
  | Some txundo =>
      if negb (length (vprevout txundo) =? length (tx_vin tx))%nat then Ok None
      else
        let? r := undo_inputs_loop view (rev (zip (tx_vin tx) (vprevout txundo))) fClean in
        Ok (Some r)
  end.

(** The transactions from the last to the first: [l] is the reversed list of transactions,
    each with its undo data. *)
Fixpoint disconnect_loop (view : CCoinsViewCache V) (nHeight : Z) (l : list (CTransaction * option CTxUndo)) (fClean : bool)
  : res cache_fail (option (bool * CCoinsViewCache V)) :=
  match l with
  | [] => Ok (Some (fClean, view))
  | (tx, undo) :: l =>
      let? r := disconnect_tx view nHeight tx undo fClean in
      match r with
      | None => Ok None
      | Some (fClean, view) => disconnect_loop view nHeight l fClean
      end
  end.

Definition DisconnectBlock (block : CBlock) (idx : block_index) (view : CCoinsViewCache V) (undo_file : option bytes)
  : res connect_fail (BlockDisconnectResult * CCoinsViewCache V) :=
  let '(best, view) := cache_GetBestBlock view in
  if negb (bytes_eqb (bi_hash idx) best) then Err Assertion else
  match nUndoPos idx, pprev idx with
  | None, _ => Ok (FAILED, view)
  | Some _, None => Err Assertion
  | Some pos, Some prev =>
      match UndoReadFromDisk undo_file pos (p_hash prev) with
      | Err _ => Ok (FAILED, view)
      | Ok None => Err Assertion
      | Ok (Some blockUndo) =>
          if negb (length (vtxundo blockUndo) + 1 =? length (vtx block))%nat then Ok (FAILED, view)
          else
            let? r := lift_cache (disconnect_loop view (bi_nHeight idx)
                        (rev (zip (vtx block) (None :: map Some (vtxundo blockUndo)))) true) in
            match r with
            | None => Ok (FAILED, view)
            | Some (fClean, view) =>
                let? view := lift_cache (PopAnchor view SPROUT (old_sprout_tree_root blockUndo)) in
                let? view := lift_cache (PopAnchor view SAPLING
                  (if NetworkUpgradeActive (p_nHeight prev) upgrades UPGRADE_SAPLING
                   then p_hashFinalSaplingRoot prev else empty_root SAPLING)) in
                Ok (if fClean : bool then DISCONNECT_OK else UNCLEAN, SetBestBlock view (p_hash prev))
            end
      end
  end.

End Operations.

Arguments connect_state {_} _.
