(* ===== verification/CacheSteps.v ===== *)
(** * Steps of the coin cache

    The operations of the cache as a client composes them: every operation keeps the cache
    consistent, changes its view in a known way and leaves what the base view shows alone
    ([cache_step]).  The lemmas cover reading, modifying, recording nullifiers and moving the
    anchors; they are what the proofs about [ConnectBlock] and [DisconnectBlock] use. *)

From stdpp Require Import gmap.
From S2P Require Import Prelude Compressor Coins CoinsView CoinsViewProps Amount Transaction Undo ChainState.

Section Steps.
Context `{CacheParamsLaws} {V : Type} `{!CCoinsView V} `{!CCoinsViewLaws V}.
Implicit Types c : CCoinsViewCache V.

(** From [c] to [c'] with the view [w]. *)
Record cache_step (c c' : CCoinsViewCache V) (w : view) : Prop := {
  step_inv : cache_inv c';
  step_view : cache_view_of c' ≡ w;
  step_base : view_of (base c') ≡ view_of (base c)
}.

Lemma cache_step_refl c : cache_inv c -> cache_step c c (cache_view_of c).
Proof. intros Hi. by split. Qed.

Lemma cache_step_trans c1 c2 c3 w : view_of (base c2) ≡ view_of (base c1) -> cache_step c2 c3 w -> cache_step c1 c3 w.
Proof. intros Hb [Hi Hv Hb']. split; [done|done|]. by rewrite Hb'. Qed.

#[export] Instance cache_step_proper c c' : Proper ((≡) ==> iff) (cache_step c c').
Proof. intros w w' E. split; intros [Hi Hv Hb]; split; try done; by rewrite Hv. Qed.

(** A step that only reads. *)
Abbreviation read_step c c' := (cache_step c c' (cache_view_of c)).

Lemma read_step_trans c1 c2 c3 : read_step c1 c2 -> read_step c2 c3 -> read_step c1 c3.
Proof. intros [Hi Hv Hb] [Hi' Hv' Hb']. split; [done|by rewrite Hv'|by rewrite Hb']. Qed.

(** ** Reading *)

Lemma FetchCoins_step c t r c' : cache_inv c -> FetchCoins c t = (r, c') ->
  read_step c c' /\ live (coins <$> r) = utxo (cache_view_of c) t.
Proof.
  intros Hi E. destruct (FetchCoins_spec c t r c' Hi E) as (Hi' & Hv & Hl & _). split; [|done]. split; [done|done|].
  revert E. unfold FetchCoins. destruct (cacheCoins (data c) !! t); [by intros [= <- <-]|].
  destruct (GetCoins (base c) t) as [x b] eqn:Eg. destruct (GetCoins_law _ _ _ _ (ci_base _ Hi) Eg) as (_ & Ev & _).
  destruct x; by intros [= <- <-].
Qed.

Lemma AccessCoins_step c t r c' : cache_inv c -> AccessCoins c t = (r, c') ->
  read_step c c' /\ live r = utxo (cache_view_of c) t.
Proof.
  intros Hi. unfold AccessCoins, cache_GetCoins. destruct (FetchCoins c t) as [x c1] eqn:E. intros [= <- <-].
  by apply FetchCoins_step.
Qed.

Lemma GetNullifier_step c ty n r c' : cache_inv c -> cache_GetNullifier c ty n = (r, c') ->
  read_step c c' /\ r = nullifier_spent (cache_view_of c) ty n.
Proof.
  intros Hi E. destruct (cache_GetNullifier_law c ty n r c' Hi E) as (Hi' & Hv & Hr & _). split; [|done]. split; [done|done|].
  revert E. unfold cache_GetNullifier. destruct (cacheNullifiers (data c) ty !! n); [by intros [= <- <-]|].
  destruct (GetNullifier (base c) ty n) as [x b] eqn:Eg. destruct (GetNullifier_law _ _ _ _ _ (ci_base _ Hi) Eg) as (_ & Ev & _).
  by intros [= <- <-].
Qed.

Lemma GetAnchorAt_step c ty rt r c' : cache_inv c -> cache_GetAnchorAt c ty rt = (r, c') ->
  read_step c c' /\ r = anchor_tree (cache_view_of c) ty rt.
Proof.
  intros Hi E. destruct (cache_GetAnchorAt_law c ty rt r c' Hi E) as (Hi' & Hv & Hr & _). split; [|done]. split; [done|done|].
  revert E. unfold cache_GetAnchorAt. destruct (cacheAnchors (data c) ty !! rt); [by intros [= <- <-]|].
  destruct (GetAnchorAt (base c) ty rt) as [x b] eqn:Eg. destruct (GetAnchorAt_law _ _ _ _ _ (ci_base _ Hi) Eg) as (_ & Ev & _).
  destruct x; by intros [= <- <-].
Qed.

Lemma GetBestBlock_step c r c' : cache_inv c -> cache_GetBestBlock c = (r, c') ->
  read_step c c' /\ r = best_block (cache_view_of c).
Proof.
  intros Hi E. destruct (cache_GetBestBlock_law c r c' Hi E) as (Hi' & Hv & Hr & _). split; [|done]. split; [done|done|].
  revert E. unfold cache_GetBestBlock. destruct (hash_IsNull _); [|by intros [= <- <-]].
  destruct (GetBestBlock (base c)) as [x b] eqn:Eg. destruct (GetBestBlock_law _ _ _ (ci_base _ Hi) Eg) as (_ & Ev & _).
  by intros [= <- <-].
Qed.

Lemma GetBestAnchor_step c ty r c' : cache_inv c -> cache_GetBestAnchor c ty = (r, c') ->
  read_step c c' /\ r = best_anchor (cache_view_of c) ty.
Proof.
  intros Hi E. destruct (cache_GetBestAnchor_law c ty r c' Hi E) as (Hi' & Hv & Hr & _). split; [|done]. split; [done|done|].
  revert E. unfold cache_GetBestAnchor. destruct (hash_IsNull _); [|by intros [= <- <-]].
  destruct (GetBestAnchor (base c) ty) as [x b] eqn:Eg. destruct (GetBestAnchor_law _ _ _ _ (ci_base _ Hi) Eg) as (_ & Ev & _).
  by intros [= <- <-].
Qed.

(** ** Modifying *)

(** The start of a scope around an entry [e]: what the body reads, and what the end of the
    scope makes of its result. *)
Lemma new_modifier_scope d b t e u usage :
  cache_inv (mk_cache d b) ->
  (FRESH e = true -> utxo (view_of b) t = None) -> (FRESH e = false -> known b t) -> DIRTY e = true ->
  exists md c1, new_modifier (mk_cache (set_coins d (<[t := e]> (cacheCoins d)) u) b) t usage = Ok (md, c1) /\
    cacheCoins (data c1) !! it md = Some e /\
    forall y, exists c', modifier_destroy md (modifier_apply md (fun _ => y) c1) = Ok c' /\
      cache_step (mk_cache d b) c' (set_utxo (cache_view_of (mk_cache d b)) t (live (Some (Cleanup y)))).
Proof.
  intros Hi Hf Hk Hd.
  assert (exists r, new_modifier (mk_cache (set_coins d (<[t := e]> (cacheCoins d)) u) b) t usage = Ok r /\
    cacheCoins (data r.2) !! it r.1 = Some e /\ base r.2 = b) as ([md c1] & Er & Ee & Eb).
  { unfold new_modifier. pose proof (ci_modifier _ Hi) as Hm. cbn [data] in Hm. cbn [data hasModifier set_coins]. rewrite Hm.
    eexists. split; [reflexivity|]. cbn. by rewrite lookup_insert_eq. }
  cbn [fst snd] in *. exists md, c1. split; [done|]. split; [done|]. intros y.
  destruct (modifier_scope d b t e u usage (fun _ => y) Hi Hf Hk Hd) as (c' & Ec & Hi' & Hv). unfold with_modifier in Ec.
  rewrite Er in Ec. cbn [res_bind fst snd] in Ec. exists c'. split; [done|]. split; [done|exact Hv|].
  assert (base c' = b) as ->; [|done]. revert Ec. unfold modifier_destroy. repeat case_match; intros [= <-]; exact Eb.
Qed.

Lemma ModifyCoins_scope c t : cache_inv c ->
  exists md c1 e, ModifyCoins c t = Ok (md, c1) /\ cacheCoins (data c1) !! it md = Some e /\
    live (Some (coins e)) = utxo (cache_view_of c) t /\
    forall y, exists c', modifier_destroy md (modifier_apply md (fun _ => y) c1) = Ok c' /\
      cache_step c c' (set_utxo (cache_view_of c) t (live (Some (Cleanup y)))).
Proof.
  intros Hi. destruct c as [d b]. unfold ModifyCoins. rewrite (ci_modifier _ Hi). cbn [data base].
  destruct (cacheCoins d !! t) as [e|] eqn:Et.
  - destruct (ci_coins _ Hi t e Et) as (H1 & H2 & _).
    destruct (new_modifier_scope d b t {| coins := coins e; DIRTY := true; FRESH := FRESH e |} (cachedCoinsUsage d)
      (coins_usage (coins e)) Hi) as (md & c1 & E & Ee & Hy); try done.
    exists md, c1, {| coins := coins e; DIRTY := true; FRESH := FRESH e |}. split; [done|]. split; [done|]. split; [|done].
    cbn. by rewrite Et.
  - destruct (GetCoins b t) as [x b'] eqn:Eg.
    destruct (GetCoins_law b t x b' (ci_base _ Hi) Eg) as (Hb' & Evb & Hl & Hk & Hkn).
    destruct (cache_base_change d b b' Hi Hb' Evb Hk) as [Hi' Ev'].
    set (e := match x with None => {| coins := coins_Clear; DIRTY := true; FRESH := true |}
              | Some x => {| coins := x; DIRTY := true; FRESH := IsPruned x |} end).
    assert (live (Some (coins e)) = utxo (view_of b) t) as Hle by (rewrite <- Hl; by destruct x).
    destruct (new_modifier_scope d b' t e (cachedCoinsUsage d) 0 Hi') as (md & c1 & E & Ee & Hy).
    + intros Hfe. rewrite Evb, <- Hl. destruct x as [x|]; [|done]. cbn in *. by rewrite Hfe.
    + intros Hfe. apply Hkn. destruct x; [by eexists|done].
    + by destruct x.
    + exists md, c1, e. split; [done|]. split; [done|]. split; [cbn; by rewrite Et|]. intros y.
      destruct (Hy y) as (c' & Ec & [Hs1 Hs2 Hs3]). exists c'. split; [done|].
      split; [done| |by rewrite Hs3]. rewrite Hs2. split; [|split; [|split; [|split]]]; intros; cbn.
      all: destruct Ev' as (E1 & E2 & E3 & E4 & E5); try (by apply E1 || by apply E2 || by apply E3 || by apply E4 || by apply E5).
      case_decide; [done|]. apply E1.
Qed.

(** A scope whose body succeeds on the entry it finds. *)
Lemma in_modifier_step {A : Type} c t (f : CCoins -> res cache_fail (A * CCoins)) (Q : A -> CCoins -> Prop) :
  cache_inv c ->
  (forall x, live (Some x) = utxo (cache_view_of c) t -> exists a y, f x = Ok (a, y) /\ Q a y) ->
  exists a y c', in_modifier (ModifyCoins c t) f = Ok (a, c') /\ Q a y /\
    cache_step c c' (set_utxo (cache_view_of c) t (live (Some (Cleanup y)))).
Proof.
  intros Hi Hf. destruct (ModifyCoins_scope c t Hi) as (md & c1 & e & E & Ee & Hl & Hy).
  destruct (Hf (coins e) Hl) as (a & y & Ef & HQ). destruct (Hy y) as (c' & Ec & Hs).
  exists a, y, c'. split; [|done]. unfold in_modifier. rewrite E. cbn [res_bind fst snd]. rewrite Ee, Ef. cbn [res_bind fst snd].
  by rewrite Ec.
Qed.

(** What a successful scope did. *)
Lemma in_modifier_inv {A : Type} c t (f : CCoins -> res cache_fail (A * CCoins)) a c' :
  cache_inv c -> in_modifier (ModifyCoins c t) f = Ok (a, c') ->
  exists x y, live (Some x) = utxo (cache_view_of c) t /\ f x = Ok (a, y) /\
    cache_step c c' (set_utxo (cache_view_of c) t (live (Some (Cleanup y)))).
Proof.
  intros Hi. destruct (ModifyCoins_scope c t Hi) as (md & c1 & e & E & Ee & Hl & Hy).
  unfold in_modifier. rewrite E. cbn [res_bind fst snd]. rewrite Ee. intros (r & Ef & Hr)%res_bind_Ok.
  apply res_bind_Ok in Hr as (c2 & Ec & [= <- <-]). destruct (Hy r.2) as (c3 & Ec' & Hs).
  assert (c3 = c2) as -> by congruence. exists (coins e), r.2. split; [done|]. split; [|done]. rewrite Ef. by destruct r.
Qed.

Lemma ModifyNewCoins_step c t y : cache_inv c -> utxo (view_of (base c)) t = None ->
  exists c', with_modifier (ModifyNewCoins c t) (fun _ => y) = Ok c' /\
    cache_step c c' (set_utxo (cache_view_of c) t (live (Some (Cleanup y)))).
Proof.
  intros Hi Hn. destruct c as [d b]. unfold ModifyNewCoins. rewrite (ci_modifier _ Hi). cbn [data base] in *.
  destruct (new_modifier_scope d b t {| coins := coins_Clear; DIRTY := true; FRESH := true |} (cachedCoinsUsage d) 0 Hi)
    as (md & c1 & E & Ee & Hy); try done.
  destruct (Hy y) as (c' & Ec & Hs). exists c'. split; [|done]. unfold with_modifier. rewrite E. by cbn [res_bind fst snd].
Qed.

Lemma SetNullifiers_step c nfs b : cache_inv c -> cache_step c (SetNullifiers c nfs b) (set_spent (cache_view_of c) nfs b).
Proof. intros Hi. destruct (SetNullifiers_view c nfs b Hi). by split. Qed.

Definition set_best_block (w : view) (h : uint256) : view := {|
  utxo := utxo w; nullifier_spent := nullifier_spent w; anchor_tree := anchor_tree w; best_block := h; best_anchor := best_anchor w
|}.

Lemma SetBestBlock_step c h : cache_inv c -> hash_IsNull h = false ->
  cache_step c (SetBestBlock c h) (set_best_block (cache_view_of c) h).
Proof.
  intros [Hb Hm Hc Ha Hac Hn] Hh. destruct c as [d b]. split; [by split| |done].
  split; [done|]. split; [done|]. split; [done|]. split; [|done]. cbn -[hash_IsNull]. by rewrite Hh.
Qed.
Lemma PushAnchor_step c ty t : cache_inv c ->
  cache_step c (PushAnchor c ty t)
    (if decide (best_anchor (cache_view_of c) ty = tree_root ty t) then cache_view_of c
     else set_best_anchor (set_anchor (cache_view_of c) ty (tree_root ty t) (Some t)) ty (tree_root ty t)).
Proof.
  intros Hi. destruct (PushAnchor_view c ty t Hi) as [Hi' Hv]. split; [done|done|]. unfold PushAnchor.
  destruct (cache_GetBestAnchor c ty) as [h c1] eqn:Eb. destruct (GetBestAnchor_step _ _ _ _ Hi Eb) as [Hs _].
  case_bool_decide; apply Hs.
Qed.

Lemma PopAnchor_step c ty newrt : cache_inv c -> hash_IsNull newrt = false ->
  let w := cache_view_of c in let best := best_anchor w ty in
  best = newrt \/ (best <> empty_root ty /\ is_Some (anchor_tree w ty best)) ->
  exists c', PopAnchor c ty newrt = Ok c' /\ cache_inv c' /\
    cache_view_of c' ≡ (if decide (best = newrt) then w else set_best_anchor (set_anchor w ty best None) ty newrt).
Proof.
  intros Hi Hn w best. destruct (decide (best = newrt)) as [Eb|Hne].
  - intros _. unfold PopAnchor. destruct (cache_GetBestAnchor c ty) as [h c1] eqn:E.
    destruct (GetBestAnchor_step _ _ _ _ Hi E) as [Hs ->]. rewrite bool_decide_true by done. exists c1.
    split; [done|]. split; apply Hs.
  - intros [?|[He Ha]]; [done|]. pose proof (PopAnchor_view c ty newrt Hi Hn He) as Hp. fold w best in Hp.
    destruct (PopAnchor c ty newrt) as [c'|]; [|destruct Hp as [_ E]; rewrite E in Ha; by destruct Ha].
    destruct Hp as [Hi' Hv]. rewrite decide_False in Hv by done. destruct Hv as [_ Hv]. by exists c'.
Qed.

(** ** The queries about transactions only read *)

Lemma have_inputs_loop_step c ps r c' : cache_inv c -> have_inputs_loop c ps = (r, c') -> read_step c c'.
Proof.
  revert c. induction ps as [|[h n] ps IH]; intros c Hi; cbn [have_inputs_loop]; [intros [= <- <-]; by apply cache_step_refl|].
  destruct (AccessCoins c h) as [x c1] eqn:E. destruct (AccessCoins_step c h x c1 Hi E) as [Hs _].
  destruct x as [x|]; [destruct (negb (IsAvailable x n))|]; try (by intros [= <- <-]).
  intros El. eapply read_step_trans; [exact Hs|]. apply (IH c1); [apply Hs|done].
Qed.

Lemma HaveInputs_step c cb ps r c' : cache_inv c -> HaveInputs c cb ps = (r, c') -> read_step c c'.
Proof.
  intros Hi. unfold HaveInputs. destruct cb; [intros [= <- <-]; by apply cache_step_refl|by apply have_inputs_loop_step].
Qed.

Lemma HaveShieldedRequirements_step c sp r c' : cache_inv c -> HaveShieldedRequirements c sp = (r, c') -> read_step c c'.
Proof.
  revert c. induction sp as [|[nf an] sp IH]; intros c Hi; cbn [HaveShieldedRequirements]; [intros [= <- <-]; by apply cache_step_refl|].
  destruct (cache_GetNullifier c SAPLING nf) as [x c1] eqn:E1. destruct (GetNullifier_step c SAPLING nf x c1 Hi E1) as [Hs1 _].
  destruct x; [by intros [= <- <-]|].
  destruct (cache_GetAnchorAt c1 SAPLING an) as [y c2] eqn:E2.
  destruct (GetAnchorAt_step c1 SAPLING an y c2 (step_inv _ _ _ Hs1) E2) as [Hs2 _].
  pose proof (read_step_trans _ _ _ Hs1 Hs2) as Hs. destruct y; [|by intros [= <- <-]].
  intros El. eapply read_step_trans; [exact Hs|]. apply (IH c2); [apply Hs|done].
Qed.

(** The nullifiers of a transaction whose requirements are met are unspent. *)
Lemma HaveShieldedRequirements_unspent c sp c' : cache_inv c -> HaveShieldedRequirements c sp = (true, c') ->
  Forall (fun s => nullifier_spent (cache_view_of c) SAPLING s.1 = false) sp.
Proof.
  intros Hi E. destruct (shielded_requirements_spec c sp true c' Hi E) as (_ & _ & Hr).
  eapply Forall_impl; [by apply Hr|]. by intros s [Hs _].
Qed.

Lemma GetOutputFor_step c h n o c' : cache_inv c -> GetOutputFor c h n = Ok (o, c') -> read_step c c'.
Proof.
  intros Hi. unfold GetOutputFor. destruct (AccessCoins c h) as [x c1] eqn:E. destruct (AccessCoins_step c h x c1 Hi E) as [Hs _].
  destruct x as [x|]; [|done]. destruct (IsAvailable x n); [|done]. destruct (znth (vout x) n); [|done]. by intros [= <- <-].
Qed.

Lemma value_in_loop_step c ps n r c' : cache_inv c -> value_in_loop c ps n = Ok (r, c') -> read_step c c'.
Proof.
  revert c n. induction ps as [|[h k] ps IH]; intros c n Hi; cbn [value_in_loop]; [intros [= <- <-]; by apply cache_step_refl|].
  intros ([o c1] & E & El)%res_bind_Ok. pose proof (GetOutputFor_step _ _ _ _ _ Hi E) as Hs.
  eapply read_step_trans; [exact Hs|]. eapply IH; [apply Hs|exact El].
Qed.

Lemma GetValueIn_step c cb ps sh r c' : cache_inv c -> GetValueIn c cb ps sh = Ok (r, c') -> read_step c c'.
Proof.
  intros Hi. unfold GetValueIn. destruct cb; [intros [= <- <-]; by apply cache_step_refl|].
  intros ([n c1] & E & [= <- <-])%res_bind_Ok. by eapply value_in_loop_step.
Qed.

Lemma p2sh_sigops_loop_step c vin n r c' : cache_inv c -> p2sh_sigops_loop c vin n = Ok (r, c') -> read_step c c'.
Proof.
  revert c n. induction vin as [|i vin IH]; intros c n Hi; cbn [p2sh_sigops_loop]; [intros [= <- <-]; by apply cache_step_refl|].
  intros ([o c1] & E & El)%res_bind_Ok. pose proof (GetOutputFor_step _ _ _ _ _ Hi E) as Hs.
  eapply read_step_trans; [exact Hs|]. eapply IH; [apply Hs|exact El].
Qed.

Lemma GetP2SHSigOpCount_step tx c r c' : cache_inv c -> GetP2SHSigOpCount tx c = Ok (r, c') -> read_step c c'.
Proof.
  intros Hi. unfold GetP2SHSigOpCount. destruct (IsCoinBase tx); [intros [= <- <-]; by apply cache_step_refl|].
  by apply p2sh_sigops_loop_step.
Qed.

Lemma input_values_loop_step c vin h n r c' : cache_inv c -> input_values_loop c vin h n = Ok (r, c') -> read_step c c'.
Proof.
  revert c n. induction vin as [|i vin IH]; intros c n Hi; cbn [input_values_loop]; [intros [= <- <-]; by apply cache_step_refl|].
  destruct (AccessCoins c (op_hash (Transaction.prevout i))) as [x c1] eqn:E. destruct (AccessCoins_step _ _ _ _ Hi E) as [Hs _].
  destruct x as [x|]; [|done]. destruct (fCoinBase x && _); [done|]. destruct (znth _ _) as [o|]; [|done].
  destruct (negb _ || negb _); [done|]. intros El.
  eapply read_step_trans; [exact Hs|]. eapply IH; [apply Hs|exact El].
Qed.

(** Resolving an [if] guard of a computation that succeeded. *)
Lemma guard_Ok {E A : Type} (b : bool) (e : E) (k : res E A) a : (if b then Err e else k) = Ok a -> b = false /\ k = Ok a.
Proof. by destruct b. Qed.

Lemma CheckTxInputs_step tx c h c' : cache_inv c -> CheckTxInputs tx c h = Ok c' -> read_step c c'.
Proof.
  intros Hi. unfold CheckTxInputs. destruct (HaveInputs c _ _) as [b1 c1] eqn:E1. pose proof (HaveInputs_step _ _ _ _ _ Hi E1) as Hs1.
  intros [_ Ek]%guard_Ok. destruct (HaveShieldedRequirements c1 _) as [b2 c2] eqn:E2.
  pose proof (HaveShieldedRequirements_step _ _ _ _ (step_inv _ _ _ Hs1) E2) as Hs2. apply guard_Ok in Ek as [_ Ek].
  apply res_bind_Ok in Ek as ([n c3] & E3 & Ek).
  pose proof (input_values_loop_step _ _ _ _ _ _ (step_inv _ _ _ Hs2) E3) as Hs3.
  apply res_bind_Ok in Ek as ([] & _ & [= <-]).
  eapply read_step_trans; [exact Hs1|]. by eapply read_step_trans.
Qed.

End Steps.
