(* ===== verification/ChainStateProps.v ===== *)
(** * Disconnecting a block undoes connecting it

    The effect of [ConnectBlock] and [DisconnectBlock] on the abstract view of the unspent
    outputs, and the round trip.  First the entries of a single transaction, then the inputs
    and outputs of a transaction on the view, then whole blocks. *)

From stdpp Require Import gmap.
From S2P Require Import Prelude Script Interpreter InterpreterSafety Serialize Compressor Coins CoinsView CoinsViewProps Amount Upgrades Transaction Undo ChainState CacheSteps.

(** ** Entries *)

(** What an entry of the view satisfies: it can be stored, and no unspent output is from the
    genesis block. *)
Record entry_ok (x : CCoins) : Prop := { entry_coins : coins_ok x; entry_height : 0 < nHeight x }.

Lemma nulls_replicate l : Forall out_ok l -> forallb IsNull l = true -> l = replicate (length l) null_txout.
Proof.
  induction 1 as [|o l Ho Hl IH]; [done|]. cbn. intros [En Hn]%andb_prop. f_equal; [|by apply IH].
  destruct Ho as [->|[Hr _]]; [done|]. unfold IsNull in En. lia.
Qed.

Lemma Forall_insert_null l i : Forall out_ok l -> Forall out_ok (<[i := null_txout]> l).
Proof. intros Hl. apply Forall_insert; [done|by left]. Qed.

(** Spending the output at [i] and cleaning up: filling up with null outputs again gives the
    vector with that one output cleared. *)
Lemma spend_shape x i o : coins_ok x -> vout x !! i = Some o -> IsNull o = false ->
  let y := Cleanup (with_vout x (<[i := null_txout]> (vout x))) in
  (if decide (length (vout y) <= i)%nat then resize (S i) null_txout (vout y) else vout y) = <[i := null_txout]> (vout x).
Proof.
  intros Hx Hi Ho y. destruct (Cleanup_split (with_vout x (<[i := null_txout]> (vout x)))) as (nulls & E & Hn & Hc).
  fold y in E, Hc. cbn [vout with_vout] in E.
  assert (Forall out_ok nulls) as Hok.
  { pose proof (Forall_insert_null _ i (coins_outs _ Hx)) as Hf. rewrite E in Hf. by apply Forall_app in Hf as [_ ?]. }
  pose proof (nulls_replicate _ Hok Hn) as En. pose proof (lookup_lt_Some _ _ _ Hi) as Hlt.
  assert (length (vout x) = length (vout y) + length nulls)%nat as Hlen by (by rewrite <- length_app, <- E, length_insert).
  destruct (decide (S i = length (vout x))) as [Hlast|Hlast].
  - rewrite decide_True.
    + rewrite E, resize_ge by lia. rewrite En. do 2 f_equal. lia.
    + destruct (decide (length (vout y) <= i)%nat) as [?|Hgt]; [done|]. exfalso.
      assert (last (vout y) = Some null_txout) as Hl.
      { assert (nulls = []) as -> by (apply length_zero_iff_nil; lia). rewrite app_nil_r in E. rewrite <- E.
        rewrite last_lookup, length_insert, <- Hlast. cbn. by apply list_lookup_insert_eq. }
      by apply Hc in Hl.
  - assert (nulls = []) as ->.
    { destruct (last (vout x)) as [l|] eqn:El; [|by apply last_None in El; rewrite El in Hi].
      pose proof (coins_clean _ Hx l El) as Hl. destruct nulls as [|a nulls] using rev_ind; [done|]. exfalso.
      assert (last (<[i := null_txout]> (vout x)) = Some l) as El'.
      { rewrite last_lookup, length_insert, list_lookup_insert_ne, <- last_lookup by lia. done. }
      rewrite E, app_assoc, last_snoc in El'. injection El' as ->.
      rewrite forallb_app in Hn. apply andb_prop in Hn as [_ Hn]. cbn in Hn. by rewrite Hl in Hn. }
    rewrite app_nil_r in E. rewrite decide_False; [by rewrite E|]. cbn [length] in Hlen. lia.
Qed.

(** Spending gives an undo record from which the entry is restored: from what remains of it,
    or, when nothing remains, from any spent entry. *)
Lemma spend_undo_body n x u y : entry_ok x -> 0 <= n -> spend_body n x = Ok (u, y) ->
  Cleanup y = y /\ in_undo_ok u /\ (IsPruned y = false -> entry_ok y) /\
  forall z, live (Some z) = live (Some y) -> undo_body u n z = Ok (true, x).
Proof.
  intros [Hx Hh0] Hn. unfold spend_body. unfold znth. destruct (Z.ltb_spec n 0) as [|_]; [lia|].
  destruct (vout x !! Z.to_nat n) as [o|] eqn:Eo; [|done]. destruct (IsNull o) eqn:En; [done|].
  unfold Spend, znth. destruct (Z.ltb_spec n 0) as [|_]; [lia|]. rewrite Eo, En. cbn [snd].
  set (i := Z.to_nat n) in *. set (y' := Cleanup (with_vout x (<[i := null_txout]> (vout x)))).
  pose proof (spend_shape x i o Hx Eo En) as Hshape. cbn zeta in Hshape. fold y' in Hshape.
  assert (clean (vout y')) as Hcl by (edestruct Cleanup_split as (? & _ & _ & Hc); exact Hc).
  assert (Forall out_ok (vout y')) as Hout.
  { edestruct (Cleanup_split (with_vout x (<[i := null_txout]> (vout x)))) as (nulls & E & _).
    pose proof (Forall_insert_null _ i (coins_outs _ Hx)) as Hf. cbn [vout with_vout] in E. rewrite E in Hf.
    by apply Forall_app in Hf as [? _]. }
  pose proof (lookup_lt_Some _ _ _ Eo) as Hlt. pose proof (coins_size _ Hx) as Hsz. unfold zlen in Hsz.
  assert (length (vout y') <= length (vout x))%nat as Hle.
  { edestruct (Cleanup_split (with_vout x (<[i := null_txout]> (vout x)))) as (nulls & E & _).
    apply (f_equal length) in E. cbn [vout with_vout] in E. rewrite length_insert, length_app in E. fold y' in E. lia. }
  assert (out_ok o) as Hoo by (by eapply Forall_lookup_1; [apply Hx|]).
  destruct Hoo as [->|[Hov Hos]]; [done|]. pose proof (coins_height _ Hx) as Hh. pose proof (coins_version _ Hx) as Hv.
  unfold INT32_MAX in *.
  (* putting the output back *)
  assert (forall w, w = (if decide (length (vout y') <= i)%nat then resize (S i) null_txout (vout y') else vout y') ->
    znth w n = Some null_txout /\ <[Z.to_nat n := o]> w = vout x) as Hback.
  { intros w ->. rewrite Hshape. fold i. unfold znth. destruct (Z.ltb_spec n 0) as [|_]; [lia|].
    rewrite list_lookup_insert_eq by done. split; [done|]. rewrite list_insert_insert_eq. by apply list_insert_id. }
  assert (u32 (n + 1) = Z.of_nat (S i)) as En1 by (rewrite u32_id; subst i; lia).
  assert (IsAvailable y' n = false) as Hna.
  { replace n with (Z.of_nat i) by (subst i; lia). rewrite IsAvailable_unspent. subst y'. apply bool_decide_false.
    rewrite unspent_Cleanup, unspent_with_vout, list_lookup_insert_eq by done. cbn. by intros []. }
  assert (forall (w : list CTxOut), (if zlen w <? Z.of_nat (S i) then resize (Z.to_nat (Z.of_nat (S i))) null_txout w else w) =
    (if decide (length w <= i)%nat then resize (S i) null_txout w else w)) as Hres.
  { intros w. rewrite Nat2Z.id. unfold zlen. destruct (Z.ltb_spec (Z.of_nat (length w)) (Z.of_nat (S i))); destruct (decide (length w <= i)%nat); first [done|lia]. }
  assert (nHeight y' = nHeight x /\ nVersion y' = nVersion x /\ fCoinBase y' = fCoinBase x) as (Ehh & Evv & Ecc) by done.
  clearbody y'. intros [= <- <-]. split; [|split; [|split]].
  - erewrite (Cleanup_nulls y' (vout y') []); [by destruct y'|by rewrite app_nil_r|done|done].
  - case_bool_decide; split; cbn; rewrite ?Ehh, ?Evv, ?u32_id by lia; unfold INT32_MAX; first [done|lia].
  - intros Hnp. split; [|by rewrite Ehh]. split; try done.
    + intros E. unfold IsPruned in Hnp. by rewrite E in Hnp.
    + unfold zlen. lia.
    + by rewrite Ehh.
    + by rewrite Evv.
  - intros z Hz. case_bool_decide as Hemp.
    + assert (IsPruned z = true) as Hzp.
      { assert (IsPruned y' = true) as Hyp by (unfold IsPruned; by rewrite Hemp).
        unfold live in Hz. cbn [mbind option_bind] in Hz. rewrite Hyp in Hz. by destruct (IsPruned z). }
      unfold undo_body. cbn [u_nHeight u_fCoinBase u_nVersion u_txout].
      rewrite Ehh, Evv, Ecc, (u32_id (nHeight x)) by lia. destruct (Z.eqb_spec (nHeight x) 0); [lia|]. cbn [negb vout]. rewrite Hzp.
      rewrite En1, Hres. change (IsAvailable _ n) with (IsAvailable coins_Clear n).
      replace (IsAvailable coins_Clear n) with false by (unfold IsAvailable, znth; by destruct (n <? 0)).
      destruct (Hback (if decide (length (@nil CTxOut) <= i)%nat then resize (S i) null_txout [] else [])) as [-> Eb].
      { by rewrite Hemp. }
      rewrite Eb, s32_id by (unfold INT32_MIN, INT32_MAX; lia). by destruct x.
    + assert (IsPruned y' = false) as Hnp.
      { destruct (IsPruned y') eqn:Ep; [|done]. by apply clean_pruned in Ep. }
      unfold live in Hz. cbn [mbind option_bind] in Hz. rewrite Hnp in Hz. destruct (IsPruned z); [done|]. injection Hz as ->.
      unfold undo_body. cbn [u_nHeight u_fCoinBase u_nVersion u_txout Z.eqb negb]. rewrite Hnp, Hna, En1, Hres.
      destruct (Hback _ eq_refl) as [-> Eb]. rewrite Eb. unfold with_vout. rewrite Ehh, Evv, Ecc. by destruct x.
Qed.

(** What the consensus checks of a transaction guarantee about its outputs. *)
Record tx_outs_ok (tx : CTransaction) : Prop := {
  outs_values : Forall (fun o => 0 <= nValue o < 2 ^ 60) (tx_vout tx);
  outs_count : zlen (tx_vout tx) < 2 ^ 31;
  outs_version : 0 <= tx_nVersion tx <= INT32_MAX
}.

Definition cleared (o : CTxOut) : CTxOut := if IsUnspendable (scriptPubKey o) then null_txout else o.

Lemma tx_coins_shape tx nHeight : tx_outs_ok tx ->
  exists nulls, map cleared (tx_vout tx) = vout (tx_coins tx nHeight) ++ nulls /\ clean (vout (tx_coins tx nHeight)) /\
    Forall out_ok (vout (tx_coins tx nHeight)) /\ Forall (fun o => IsUnspendable (scriptPubKey o) = false) (vout (tx_coins tx nHeight)).
Proof.
  intros [Hv _ _]. unfold tx_coins, FromTx, ClearUnspendable.
  edestruct (Cleanup_split (with_vout {| fCoinBase := IsCoinBase tx; vout := tx_vout tx; nHeight := nHeight; nVersion := tx_nVersion tx |}
    (map cleared (tx_vout tx)))) as (nulls & E & _ & Hc).
  cbn [vout with_vout] in E. exists nulls. split; [exact E|]. split; [exact Hc|].
  assert (Forall (fun o => out_ok o /\ IsUnspendable (scriptPubKey o) = false) (map cleared (tx_vout tx))) as Hf.
  { apply Forall_fmap. eapply Forall_impl; [exact Hv|]. intros o Ho. unfold compose, cleared.
    destruct (IsUnspendable (scriptPubKey o)) eqn:Eu; [by split; [left|]|]. split; [|done]. right. split; [done|].
    unfold IsUnspendable in Eu. apply orb_false_elim in Eu as [_ Eu]. rewrite Z.gtb_ltb in Eu. by apply Z.ltb_ge. }
  rewrite E in Hf. apply Forall_app in Hf as [Hf _]. split; (eapply Forall_impl; [exact Hf|]); by intros o [? ?].
Qed.

Lemma Cleanup_clean x : clean (vout x) -> Cleanup x = x.
Proof. intros Hc. erewrite (Cleanup_nulls x (vout x) []); [by destruct x|by rewrite app_nil_r|done|done]. Qed.

Lemma tx_coins_entry tx nHeight : tx_outs_ok tx -> 0 < nHeight <= INT32_MAX ->
  Cleanup (tx_coins tx nHeight) = tx_coins tx nHeight /\
  (IsPruned (tx_coins tx nHeight) = false -> entry_ok (tx_coins tx nHeight)).
Proof.
  intros Hok Hh. destruct (tx_coins_shape tx nHeight Hok) as (nulls & E & Hc & Ho & _).
  split; [by apply Cleanup_clean|]. intros Hp. destruct Hok as [_ Hn Hv]. split; [|cbn; lia]. split; try done; try (cbn; lia).
  - intros En. unfold IsPruned in Hp. by rewrite En in Hp.
  - apply (f_equal length) in E. rewrite length_map, length_app in E. unfold zlen in *. lia.
Qed.

Lemma IsPruned_ClearUnspendable x : IsPruned x = true -> IsPruned (ClearUnspendable x) = true.
Proof.
  rewrite !IsPruned_unspent. intros Hn i. unfold ClearUnspendable. rewrite unspent_Cleanup, unspent_with_vout, list_lookup_fmap.
  specialize (Hn i). unfold unspent in Hn. destruct (vout x !! i) as [o|]; [|done]. cbn in *.
  destruct (IsUnspendable (scriptPubKey o)); [done|]. by destruct (IsNull o).
Qed.

(** The outputs of a transaction as they were added pass the comparison with the block. *)
Lemma outs_body_spec tx nHeight z : tx_outs_ok tx -> live (Some z) = live (Some (tx_coins tx nHeight)) ->
  outs_body (tx_coins tx nHeight) z = Ok (true, coins_Clear).
Proof.
  intros Hok Hl. destruct (tx_coins_shape tx nHeight Hok) as (nulls & E & Hc & Ho & Hu). unfold outs_body.
  assert (nVersion (tx_coins tx nHeight) = tx_nVersion tx) as -> by done.
  pose proof (outs_version _ Hok). destruct (Z.ltb_spec (tx_nVersion tx) 0); [lia|].
  unfold live in Hl. cbn [mbind option_bind] in Hl. set (x := tx_coins tx nHeight) in *.
  destruct (IsPruned x) eqn:Ep.
  - destruct (IsPruned z) eqn:Ez; [|done]. unfold coins_eqb. by rewrite IsPruned_ClearUnspendable, Ep.
  - destruct (IsPruned z); [done|]. injection Hl as ->.
    assert (ClearUnspendable x = x) as ->.
    { unfold ClearUnspendable. assert (with_vout x ((fun o => if IsUnspendable (scriptPubKey o) then null_txout else o) <$> vout x) = x) as ->;
        [|by apply Cleanup_clean].
      transitivity (with_vout x (vout x)); [|by destruct x]. f_equal.
      rewrite <- (list_fmap_id (vout x)) at 2. apply list_fmap_ext. intros i o Hi. by rewrite (Forall_lookup_1 _ _ _ _ Hu Hi). }
    unfold coins_eqb. rewrite Ep, Bool.eqb_reflx, !Z.eqb_refl, bool_decide_true by done. done.
Qed.

(** ** Transactions on the view *)

Section Views.
Context `{CacheParamsLaws}.

Definition view_ok (w : view) : Prop := forall t x, utxo w t = Some x -> entry_ok x.

#[export] Instance view_ok_proper : Proper ((≡) ==> iff) view_ok.
Proof. intros a b E. split; intros Ha t x; [rewrite <- E|rewrite E]; apply Ha. Qed.

Lemma live_entry x : entry_ok x -> live (Some x) = Some x.
Proof.
  intros [Hx _]. unfold live. cbn. destruct (IsPruned x) eqn:Ep; [|done].
  apply clean_pruned in Ep; [|apply Hx]. by apply coins_unpruned in Hx.
Qed.

Lemma live_Some x y : live x = Some y -> x = Some y /\ IsPruned y = false.
Proof. destruct x as [x|]; [|done]. unfold live. cbn. destruct (IsPruned x) eqn:E; [done|]. by intros [= <-]. Qed.

(** Spending inputs one after the other, with the undo records. *)
Inductive spends_to : view -> list CTxIn -> list CTxInUndo -> view -> Prop :=
| spends_nil w w' : w ≡ w' -> spends_to w [] [] w'
| spends_cons w i vin x u y us w' :
    utxo w (op_hash (Transaction.prevout i)) = Some x -> spend_body (op_n (Transaction.prevout i)) x = Ok (u, y) ->
    spends_to (set_utxo w (op_hash (Transaction.prevout i)) (live (Some y))) vin us w' ->
    spends_to w (i :: vin) (u :: us) w'.

Lemma spends_to_start w1 w2 vin us w' : w1 ≡ w2 -> spends_to w1 vin us w' -> spends_to w2 vin us w'.
Proof.
  intros E Hs. revert w2 E. induction Hs as [w w' Ew|w i vin x u y us w' Ex Es Hs IH]; intros w2 E.
  - constructor. by rewrite <- E.
  - econstructor; [by rewrite <- E|exact Es|]. apply IH. by rewrite E.
Qed.

Definition ins_ok (vin : list CTxIn) : Prop := Forall (fun i => 0 <= op_n (Transaction.prevout i)) vin.

Lemma set_utxo_ok w t y : view_ok w -> (IsPruned y = false -> entry_ok y) -> view_ok (set_utxo w t (live (Some y))).
Proof.
  intros Hw Hy t' x. cbn -[live]. case_decide; [|apply Hw]. intros [[= ->] Hp]%live_Some. by apply Hy.
Qed.

(** Spending keeps the entries in order, produces storable undo records and creates nothing. *)
Lemma spends_to_ok w vin us w' : spends_to w vin us w' -> view_ok w -> ins_ok vin ->
  view_ok w' /\ Forall in_undo_ok us /\ length us = length vin /\ (forall t, utxo w t = None -> utxo w' t = None) /\
  (forall ty n, nullifier_spent w' ty n = nullifier_spent w ty n) /\
  (forall ty r, anchor_tree w' ty r = anchor_tree w ty r) /\ best_block w' = best_block w /\
  (forall ty, best_anchor w' ty = best_anchor w ty).
Proof.
  intros Hs. induction Hs as [w w' Ew|w i vin x u y us w' Ex Es Hs IH]; intros Hw Hi.
  { split; [by rewrite <- Ew|]. split; [done|]. split; [done|]. destruct Ew as (E1 & E2 & E3 & E4 & E5). split; [|done].
    intros t. by rewrite E1. }
  apply Forall_cons in Hi as [Hn Hi].
  destruct (spend_undo_body _ _ _ _ (Hw _ _ Ex) Hn Es) as (_ & Hu & Hy & _).
  destruct IH as (Hw' & Hus & Hl & Hnone & Hrest); [by apply set_utxo_ok|done|].
  split; [done|]. split; [by constructor|]. split; [cbn; by rewrite Hl|]. split; [|exact Hrest].
  intros t Ht. apply Hnone. cbn -[live]. case_decide; [congruence|done].
Qed.

Lemma set_spent_proper w w' nfs b : w ≡ w' -> set_spent w nfs b ≡ set_spent w' nfs b.
Proof.
  intros (E1 & E2 & E3 & E4 & E5). split; [done|]. split; [|done]. intros ty n. cbn. by case_decide.
Qed.

(** Adding a transaction at a height: inputs, nullifiers, outputs. *)
Context `{Crypto}.

Definition tx_added (w : view) (tx : CTransaction) (nHeight : Z) : view :=
  set_utxo (set_spent w (nullifiers tx) true) (txid tx) (live (Some (tx_coins tx nHeight))).

Record tx_connected (nHeight : Z) (w : view) (tx : CTransaction) (u : CTxUndo) (w' : view) : Prop := {
  tc_new : utxo w (txid tx) = None;
  tc_nullifiers : Forall (fun n => nullifier_spent w SAPLING n = false) (nullifiers tx);
  tc_change : exists w1, (if IsCoinBase tx then vprevout u = [] /\ w1 ≡ w else spends_to w (tx_vin tx) (vprevout u) w1) /\
              w' ≡ tx_added w1 tx nHeight
}.

(** What the consensus checks guarantee about a transaction. *)
Record tx_checked (tx : CTransaction) : Prop := {
  checked_outs : tx_outs_ok tx;
  checked_ins : ins_ok (tx_vin tx);
  checked_vin : zlen (tx_vin tx) <= MAX_DATA_SIZE;
  checked_coinbase : IsCoinBase tx = true -> tx_vShieldedSpend tx = []
}.

Lemma tx_connected_ok nHeight w tx u w' : tx_connected nHeight w tx u w' -> view_ok w -> tx_checked tx -> 0 < nHeight <= INT32_MAX ->
  view_ok w' /\ tx_undo_ok u /\ (forall t, utxo w t = None -> t <> txid tx -> utxo w' t = None) /\
  (forall ty r, anchor_tree w' ty r = anchor_tree w ty r) /\ best_block w' = best_block w /\
  (forall ty, best_anchor w' ty = best_anchor w ty) /\
  (IsCoinBase tx = false -> length (vprevout u) = length (tx_vin tx)).
Proof.
  intros [_ _ (w1 & Hs & E)] Hw Hc Hh.
  destruct (tx_coins_entry tx nHeight (checked_outs _ Hc) Hh) as [_ Hent].
  assert (view_ok w1 /\ Forall in_undo_ok (vprevout u) /\ zlen (vprevout u) <= MAX_DATA_SIZE /\
    (forall t, utxo w t = None -> utxo w1 t = None) /\
    (forall ty r, anchor_tree w1 ty r = anchor_tree w ty r) /\ best_block w1 = best_block w /\
    (forall ty, best_anchor w1 ty = best_anchor w ty) /\ (IsCoinBase tx = false -> length (vprevout u) = length (tx_vin tx)))
    as (Hw1 & Hu & Hl & Hn & Ha & Hb & Hba & Hlen).
  { destruct (IsCoinBase tx).
    - destruct Hs as [-> Ew]. split; [by rewrite Ew|]. split; [done|]. split; [done|]. destruct Ew as (E1 & E2 & E3 & E4 & E5).
      split; [|done]. intros t. by rewrite E1.
    - destruct (spends_to_ok _ _ _ _ Hs Hw (checked_ins _ Hc)) as (A & B & C & D & _ & F & G & I).
      split; [done|]. split; [done|]. split; [unfold zlen; rewrite C; apply Hc|]. done. }
  split; [rewrite E; apply set_utxo_ok; [exact Hw1|done]|]. split; [done|].
  destruct E as (E1 & E2 & E3 & E4 & E5). split; [|split; [|split; [|split]]]; [|..|done].
  - intros t Ht Hne. rewrite E1. cbn -[live]. rewrite decide_False by done. by apply Hn.
  - intros ty r. rewrite E3. apply Ha.
  - by rewrite E4.
  - intros ty. rewrite E5. apply Hba.
Qed.

End Views.

(** ** The operations refine the changes of the view *)

Section Refinement.
Context `{CacheParamsLaws} {V : Type} `{!CCoinsView V} `{!CCoinsViewLaws V} `{Crypto}.
Implicit Types c d : CCoinsViewCache V.

Lemma pruned_spend_body n x : IsPruned x = true -> exists e, spend_body n x = Err e.
Proof.
  intros Hp. unfold spend_body. destruct (znth (vout x) n) as [o|] eqn:E; [|by eexists].
  assert (IsNull o = true) as ->; [|by eexists]. unfold IsPruned in Hp. rewrite forallb_forall in Hp. apply Hp.
  unfold znth in E. destruct (n <? 0); [done|]. apply list_elem_of_In. by eapply list_elem_of_lookup_2.
Qed.

Lemma spend_loop_refines c vin us c' : cache_inv c -> view_ok (cache_view_of c) -> ins_ok vin ->
  spend_loop c vin = Ok (us, c') -> exists w', spends_to (cache_view_of c) vin us w' /\ cache_step c c' w'.
Proof.
  revert c us. induction vin as [|i vin IH]; intros c us Hi Hw Hn; cbn [spend_loop].
  { intros [= <- <-]. exists (cache_view_of c). split; [by constructor|by apply cache_step_refl]. }
  intros ([u c1] & E & Er)%res_bind_Ok. apply Forall_cons in Hn as [Hn0 Hn].
  destruct (in_modifier_inv _ _ _ _ _ Hi E) as (x & y & Hl & Es & Hstep). cbn [fst snd] in *.
  destruct (IsPruned x) eqn:Ep; [destruct (pruned_spend_body (op_n (Transaction.prevout i)) x Ep); congruence|].
  assert (utxo (cache_view_of c) (op_hash (Transaction.prevout i)) = Some x) as Ex by (rewrite <- Hl; cbn; by rewrite Ep).
  destruct (spend_undo_body _ _ _ _ (Hw _ _ Ex) Hn0 Es) as (Ecl & _ & Hy & _). rewrite Ecl in Hstep.
  apply res_bind_Ok in Er as ([us' c2] & El & [= <- <-]). cbn [fst snd] in *.
  destruct (IH c1 us') as (w' & Hs & Hstep'); [apply Hstep|rewrite (step_view _ _ _ Hstep); by apply set_utxo_ok|done|done|].
  exists w'. split; [|by eapply cache_step_trans; [apply Hstep|]].
  econstructor; [exact Ex|exact Es|]. eapply spends_to_start; [|exact Hs]. apply Hstep.
Qed.

(** Restoring the inputs in reverse order. *)
Lemma undo_inputs_loop_app d l1 l2 b :
  undo_inputs_loop d (l1 ++ l2) b = let? r := undo_inputs_loop d l1 b in undo_inputs_loop r.2 l2 r.1.
Proof.
  revert d b. induction l1 as [|[i u] l1 IH]; intros d b; [done|]. cbn [app undo_inputs_loop].
  destruct (ApplyTxInUndo u d (Transaction.prevout i)) as [r|]; cbn [res_bind]; [apply IH|done].
Qed.

Lemma undo_inputs w vin us w' : spends_to w vin us w' -> view_ok w -> ins_ok vin ->
  forall d b, cache_inv d -> cache_view_of d ≡ w' ->
  exists d', undo_inputs_loop d (rev (zip vin us)) b = Ok (b, d') /\ cache_step d d' w.
Proof.
  intros Hs. induction Hs as [w w' Ew|w i vin x u y us w' Ex Es Hs IH]; intros Hw Hn d b Hd Ed.
  { exists d. split; [done|]. split; [done|by rewrite Ed|done]. }
  apply Forall_cons in Hn as [Hn0 Hn]. pose proof (Hw _ _ Ex) as Hx.
  destruct (spend_undo_body _ _ _ _ Hx Hn0 Es) as (Ecl & _ & Hy & Hundo).
  destruct (IH (set_utxo_ok _ _ _ Hw Hy) Hn d b Hd Ed) as (d1 & E1 & Hs1).
  cbn [zip_with rev]. rewrite undo_inputs_loop_app, E1. cbn [res_bind fst snd undo_inputs_loop]. unfold ApplyTxInUndo.
  destruct (in_modifier_step d1 (op_hash (Transaction.prevout i)) (undo_body u (op_n (Transaction.prevout i))) (fun a y' => a = true /\ y' = x)
    (step_inv _ _ _ Hs1)) as (a & y' & d2 & E2 & [-> ->] & Hs2).
  { intros z Hz. exists true, x. split; [|done]. apply Hundo. rewrite Hz, (step_view _ _ _ Hs1). cbn -[live].
    by rewrite decide_True. }
  rewrite E2. cbn [res_bind fst snd]. exists d2. split; [by rewrite andb_true_r|].
  split; [apply Hs2| |by rewrite (step_base _ _ _ Hs2); apply Hs1].
  rewrite (step_view _ _ _ Hs2), (Cleanup_clean x), live_entry, (step_view _ _ _ Hs1) by (done || apply Hx).
  split; [|done]. intros t. cbn -[live]. case_decide as Et; [by subst t|done].
Qed.

(** [UpdateCoins] spends the inputs, records the nullifiers and adds the outputs. *)
Lemma UpdateCoins_connected tx c nHeight u c' :
  cache_inv c -> view_ok (cache_view_of c) -> tx_checked tx -> 0 < nHeight <= INT32_MAX ->
  utxo (view_of (base c)) (txid tx) = None -> utxo (cache_view_of c) (txid tx) = None ->
  Forall (fun n => nullifier_spent (cache_view_of c) SAPLING n = false) (nullifiers tx) ->
  UpdateCoins tx c nHeight = Ok (u, c') ->
  exists w', tx_connected nHeight (cache_view_of c) tx u w' /\ cache_step c c' w'.
Proof.
  intros Hi Hw Hc Hh Hb Hnew Hnf. unfold UpdateCoins. intros ([us c1] & E1 & Er)%res_bind_Ok. cbn [fst snd] in Er.
  assert (exists w1, (if IsCoinBase tx then us = [] /\ w1 ≡ cache_view_of c else spends_to (cache_view_of c) (tx_vin tx) us w1) /\
    cache_step c c1 w1) as (w1 & Hs & Hstep1).
  { destruct (IsCoinBase tx); cbn [negb] in E1.
    - injection E1 as <- <-. exists (cache_view_of c). split; [done|by apply cache_step_refl].
    - by apply spend_loop_refines; [| |apply Hc|]. }
  set (c2 := SetNullifiers c1 (nullifiers tx) true) in Er.
  pose proof (SetNullifiers_step c1 (nullifiers tx) true (step_inv _ _ _ Hstep1)) as Hstep2. fold c2 in Hstep2.
  assert (view_of (base c2) ≡ view_of (base c)) as Hb2 by (rewrite (step_base _ _ _ Hstep2); apply Hstep1).
  destruct (ModifyNewCoins_step c2 (txid tx) (tx_coins tx nHeight) (step_inv _ _ _ Hstep2)) as (c3 & E3 & Hstep3).
  { by rewrite Hb2. }
  rewrite E3 in Er. cbn [res_bind] in Er. injection Er as <- <-.
  rewrite (proj1 (tx_coins_entry tx nHeight (checked_outs _ Hc) Hh)) in Hstep3.
  exists (tx_added w1 tx nHeight). split.
  - split; [done|done|]. exists w1. split; [exact Hs|done].
  - split; [apply Hstep3| |by rewrite (step_base _ _ _ Hstep3)]. rewrite (step_view _ _ _ Hstep3). unfold tx_added.
    rewrite (step_view _ _ _ Hstep2). rewrite (set_spent_proper _ _ (nullifiers tx) true (step_view _ _ _ Hstep1)). done.
Qed.

(** Disconnecting the transaction restores the view. *)
Lemma disconnect_tx_restores nHeight w tx u w' (undo : option CTxUndo) :
  tx_connected nHeight w tx u w' -> view_ok w -> tx_checked tx -> 0 < nHeight <= INT32_MAX ->
  undo = (if IsCoinBase tx then None else Some u) ->
  forall d b, cache_inv d -> cache_view_of d ≡ w' ->
  exists d', disconnect_tx d nHeight tx undo b = Ok (Some (b, d')) /\ cache_step d d' w.
Proof.
  intros Htc Hw Hc Hh Hundo d b Hd Ed. pose proof (tx_connected_ok _ _ _ _ _ Htc Hw Hc Hh) as (_ & _ & _ & _ & _ & _ & Hlen).
  destruct Htc as [Hnew Hnf (w1 & Hs & Ew)]. unfold disconnect_tx.
  destruct (in_modifier_step d (txid tx) (outs_body (tx_coins tx nHeight)) (fun a y => a = true /\ y = coins_Clear) Hd)
    as (a & y & d1 & E1 & [-> ->] & Hs1).
  { intros z Hz. exists true, coins_Clear. split; [|done]. apply outs_body_spec; [apply Hc|]. rewrite Hz, Ed, Ew. cbn -[live].
    by rewrite decide_True. }
  rewrite E1. cbn [res_bind fst snd]. rewrite andb_true_r.
  set (d2 := SetNullifiers d1 (nullifiers tx) false).
  pose proof (SetNullifiers_step d1 (nullifiers tx) false (step_inv _ _ _ Hs1)) as Hs2. fold d2 in Hs2.
  assert (view_of (base d2) ≡ view_of (base d)) as Hb2 by (rewrite (step_base _ _ _ Hs2); apply Hs1).
  assert (utxo w1 (txid tx) = None /\ forall ty n, nullifier_spent w1 ty n = nullifier_spent w ty n) as [Hnew1 Hnf1].
  { destruct (IsCoinBase tx).
    - destruct Hs as [_ E]. split; [by rewrite E|]. intros ty n. by rewrite E.
    - destruct (spends_to_ok _ _ _ _ Hs Hw (checked_ins _ Hc)) as (_ & _ & _ & Hn & Hnf' & _). split; [by apply Hn|done]. }
  assert (cache_view_of d2 ≡ w1) as Ed2.
  { rewrite (step_view _ _ _ Hs2), (set_spent_proper _ _ _ _ (step_view _ _ _ Hs1)).
    rewrite (set_spent_proper _ _ _ _ (set_utxo_proper _ _ (transitivity Ed Ew) _ _ eq_refl _ _ eq_refl)).
    split; [|split; [|done]].
    - intros t. cbn -[live Cleanup]. case_decide as Et; [subst t; by rewrite Hnew1|]. done.
    - intros ty n. cbn -[live Cleanup]. case_decide as Hin; [|done]. destruct Hin as [-> Hin].
      rewrite Hnf1. rewrite Forall_forall in Hnf. by rewrite Hnf. }
  subst undo. destruct (IsCoinBase tx) eqn:Ecb.
  - exists d2. split; [done|]. destruct Hs as [_ E]. split; [apply Hs2|by rewrite Ed2|done].
  - rewrite Hlen, Nat.eqb_refl by done. cbn [negb].
    destruct (undo_inputs _ _ _ _ Hs Hw (checked_ins _ Hc) d2 b (step_inv _ _ _ Hs2) Ed2) as (d3 & E3 & Hs3).
    rewrite E3. exists d3. split; [done|]. split; [apply Hs3|apply Hs3|]. by rewrite (step_base _ _ _ Hs3).
Qed.

(** ** Blocks *)

Inductive txs_connected (nHeight : Z) : view -> list CTransaction -> list CTxUndo -> view -> Prop :=
| txs_nil w w' : w ≡ w' -> txs_connected nHeight w [] [] w'
| txs_cons w tx txs u us w1 w' : tx_connected nHeight w tx u w1 -> txs_connected nHeight w1 txs us w' ->
    txs_connected nHeight w (tx :: txs) (u :: us) w'.

Lemma tx_connected_proper nHeight w1 w2 tx u w' : w1 ≡ w2 -> tx_connected nHeight w1 tx u w' -> tx_connected nHeight w2 tx u w'.
Proof.
  intros E [Hn Hf (w & Hs & Ew)]. split.
  - by rewrite <- E.
  - eapply Forall_impl; [exact Hf|]. intros n. cbv beta. by rewrite E.
  - exists w. split; [|done]. destruct (IsCoinBase tx); [by rewrite <- E|by eapply spends_to_start].
Qed.

Lemma txs_connected_start nHeight w1 w2 txs us w' : w1 ≡ w2 -> txs_connected nHeight w1 txs us w' -> txs_connected nHeight w2 txs us w'.
Proof.
  intros E Hs. revert E. destruct Hs; intros E; [constructor; by rewrite <- E|].
  econstructor; [by eapply tx_connected_proper|done].
Qed.

(** The commitment trees and the best block do not matter for this. *)
Definition with_chain (w v : view) : view := {|
  utxo := utxo w; nullifier_spent := nullifier_spent w; anchor_tree := anchor_tree v; best_block := best_block v;
  best_anchor := best_anchor v
|}.

Lemma with_chain_proper w w' v : w ≡ w' -> with_chain w v ≡ with_chain w' v.
Proof. by intros (E1 & E2 & _). Qed.

Lemma spends_to_frame v w vin us w' : spends_to w vin us w' -> spends_to (with_chain w v) vin us (with_chain w' v).
Proof.
  intros Hs. induction Hs as [w w' Ew|w i vin x u y us w' Ex Es Hs IH]; [constructor; by apply with_chain_proper|].
  econstructor; [exact Ex|exact Es|]. exact IH.
Qed.

Lemma txs_connected_frame v nHeight w txs us w' :
  txs_connected nHeight w txs us w' -> txs_connected nHeight (with_chain w v) txs us (with_chain w' v).
Proof.
  intros Hs. induction Hs as [w w' Ew|w tx txs u us w1 w' [Hn Hf (w2 & Hs2 & Ew)] Hs IH];
    [constructor; by apply with_chain_proper|].
  econstructor; [|exact IH]. split; [exact Hn|exact Hf|]. exists (with_chain w2 v). split; [|by destruct Ew as (E1 & E2 & _)].
  destruct (IsCoinBase tx); [destruct Hs2; split; [done|by apply with_chain_proper]|by apply spends_to_frame].
Qed.

(** The undo data as [DisconnectBlock] pairs it with the transactions. *)
Definition undos_of (txs : list CTransaction) (us : list CTxUndo) : list (option CTxUndo) :=
  zip_with (fun tx u => if IsCoinBase tx then None else Some u) txs us.

Lemma disconnect_loop_app d nHeight l1 l2 b :
  disconnect_loop d nHeight (l1 ++ l2) b =
    let? r := disconnect_loop d nHeight l1 b in
    match r with None => Ok None | Some r => disconnect_loop r.2 nHeight l2 r.1 end.
Proof.
  revert d b. induction l1 as [|[tx u] l1 IH]; intros d b; [done|]. cbn [app disconnect_loop].
  destruct (disconnect_tx d nHeight tx u b) as [r|]; cbn [res_bind]; [|done]. by destruct r as [[b1 d1]|].
Qed.

Lemma disconnect_loop_restores nHeight w txs us w' :
  txs_connected nHeight w txs us w' -> view_ok w -> Forall tx_checked txs -> 0 < nHeight <= INT32_MAX ->
  forall d b, cache_inv d -> cache_view_of d ≡ w' ->
  exists d', disconnect_loop d nHeight (rev (zip txs (undos_of txs us))) b = Ok (Some (b, d')) /\ cache_step d d' w.
Proof.
  intros Hs Hw Hc Hh. revert Hw Hc. induction Hs as [w w' Ew|w tx txs u us w1 w' Htx Hs IH]; intros Hw Hc d b Hd Ed.
  { exists d. split; [done|]. split; [done|by rewrite Ed|done]. }
  apply Forall_cons in Hc as [Hc0 Hc]. destruct (tx_connected_ok _ _ _ _ _ Htx Hw Hc0 Hh) as (Hw1 & _).
  destruct (IH Hw1 Hc d b Hd Ed) as (d1 & E1 & Hs1). cbn [undos_of zip_with rev]. fold (undos_of txs us).
  rewrite disconnect_loop_app, E1. cbn [res_bind fst snd disconnect_loop].
  destruct (disconnect_tx_restores nHeight w tx u w1 _ Htx Hw Hc0 Hh eq_refl d1 b (step_inv _ _ _ Hs1) (step_view _ _ _ Hs1))
    as (d2 & E2 & Hs2).
  rewrite E2. cbn [res_bind]. exists d2. split; [done|]. eapply cache_step_trans; [apply Hs1|exact Hs2].
Qed.

(** The undo data of a block can be stored. *)
Lemma txs_connected_ok nHeight w txs us w' :
  txs_connected nHeight w txs us w' -> view_ok w -> Forall tx_checked txs -> 0 < nHeight <= INT32_MAX ->
  view_ok w' /\ Forall tx_undo_ok us /\ length us = length txs /\
  (forall ty r, anchor_tree w' ty r = anchor_tree w ty r) /\ best_block w' = best_block w /\
  (forall ty, best_anchor w' ty = best_anchor w ty).
Proof.
  intros Hs Hw Hc Hh. revert Hw Hc. induction Hs as [w w' Ew|w tx txs u us w1 w' Htx Hs IH]; intros Hw Hc.
  { split; [by rewrite <- Ew|]. split; [done|]. split; [done|]. by destruct Ew as (E1 & E2 & E3 & E4 & E5). }
  apply Forall_cons in Hc as [Hc0 Hc]. destruct (tx_connected_ok _ _ _ _ _ Htx Hw Hc0 Hh) as (Hw1 & Hu & _ & Ha & Hb & Hba & _).
  destruct (IH Hw1 Hc) as (A & B & C & D & F & G). split; [done|]. split; [by constructor|]. split; [cbn; by rewrite C|].
  split; [intros; by rewrite D|]. split; [by rewrite F|]. intros; by rewrite G.
Qed.

Context `{!ConnectEnv}.

Lemma script_checks_loop_step tx c n vin fl br pv r c' : cache_inv c ->
  script_checks_loop tx c n vin fl br pv = Ok (r, c') -> cache_step c c' (cache_view_of c).
Proof.
  revert c n r. induction vin as [|i vin IH]; intros c n r Hi; cbn [script_checks_loop]; [intros [= <- <-]; by apply cache_step_refl|].
  destruct (AccessCoins c (op_hash (Transaction.prevout i))) as [x c1] eqn:E. destruct (AccessCoins_step _ _ _ _ Hi E) as [Hs _].
  destruct x as [x|]; [|done]. destruct (znth _ _) as [o|]; [|done].
  assert (forall r', script_checks_loop tx c1 (S n) vin fl br pv = Ok (r', c') -> cache_step c c' (cache_view_of c)) as Hgo.
  { intros r' Er. eapply read_step_trans; [exact Hs|]. by eapply IH; [apply Hs|]. }
  destruct pv.
  - intros ([r' c2] & Er & [= <- <-])%res_bind_Ok. by eapply Hgo.
  - destruct (negb (script_check _ _ _ _ _ _)); [by destruct (negb _ && _)|]. apply Hgo.
Qed.

Lemma ContextualCheckInputs_step tx c fs fl br pv r c' : cache_inv c ->
  ContextualCheckInputs tx c fs fl br pv = Ok (r, c') -> cache_step c c' (cache_view_of c).
Proof.
  intros Hi. unfold ContextualCheckInputs, GetSpendHeight. destruct (IsCoinBase tx); [intros [= <- <-]; by apply cache_step_refl|].
  intros ([h c1] & E1 & Ek)%res_bind_Ok. destruct (cache_GetBestBlock c) as [b c0] eqn:Eb.
  destruct (GetBestBlock_step _ _ _ Hi Eb) as [Hs0 _]. destruct (block_height b) as [n|]; [|done]. injection E1 as <- <-.
  apply res_bind_Ok in Ek as (c2 & E2 & Ek). pose proof (CheckTxInputs_step _ _ _ _ (step_inv _ _ _ Hs0) E2) as Hs2.
  pose proof (read_step_trans _ _ _ Hs0 Hs2) as Hs. destruct fs; [|by injection Ek as <- <-].
  eapply read_step_trans; [exact Hs|]. by eapply script_checks_loop_step; [apply Hs|].
Qed.

Lemma lift_cache_Ok {A} (r : res cache_fail A) a : lift_cache r = Ok a -> r = Ok a.
Proof. destruct r; cbn; congruence. Qed.

Lemma check_spending_tx_step st tx fe ns fl br r : cache_inv (cs_view st) -> check_spending_tx st tx fe ns fl br = Ok r ->
  let c' := r.1.1.1 in cache_step (cs_view st) c' (cache_view_of (cs_view st)) /\
  Forall (fun n => nullifier_spent (cache_view_of (cs_view st)) SAPLING n = false) (nullifiers tx).
Proof.
  intros Hi. unfold check_spending_tx. destruct (HaveInputs _ _ _) as [b1 c1] eqn:E1.
  pose proof (HaveInputs_step _ _ _ _ _ Hi E1) as Hs1. intros [_ Ek]%guard_Ok.
  destruct (HaveShieldedRequirements c1 _) as [b2 c2] eqn:E2.
  pose proof (HaveShieldedRequirements_step _ _ _ _ (step_inv _ _ _ Hs1) E2) as Hs2. apply guard_Ok in Ek as [Hb2 Ek].
  destruct b2; [|done]. pose proof (HaveShieldedRequirements_unspent _ _ _ (step_inv _ _ _ Hs1) E2) as Hnf.
  apply res_bind_Ok in Ek as ([p c3] & E3%lift_cache_Ok & Ek). pose proof (GetP2SHSigOpCount_step _ _ _ _ (step_inv _ _ _ Hs2) E3) as Hs3.
  apply guard_Ok in Ek as [_ Ek]. apply res_bind_Ok in Ek as (si & _ & Ek).
  apply res_bind_Ok in Ek as ([v c4] & E4%lift_cache_Ok & Ek). pose proof (GetValueIn_step _ _ _ _ _ _ (step_inv _ _ _ Hs3) E4) as Hs4.
  apply res_bind_Ok in Ek as (vo & _ & Ek). apply res_bind_Ok in Ek as ([ch c5] & E5 & Ek). injection Ek as <-. cbn [fst snd].
  pose proof (ContextualCheckInputs_step _ _ _ _ _ _ _ _ (step_inv _ _ _ Hs4) E5) as Hs5. split.
  - eapply read_step_trans; [exact Hs1|]. eapply read_step_trans; [exact Hs2|]. eapply read_step_trans; [exact Hs3|].
    by eapply read_step_trans.
  - unfold nullifiers, spends in *. rewrite Forall_map in Hnf |- *. eapply Forall_impl; [exact Hnf|]. intros s Hs.
    unfold compose in *. rewrite <- (step_view _ _ _ Hs1). exact Hs.
Qed.

Lemma bip30_loop_step c txs c' : cache_inv c -> bip30_loop c txs = Ok c' ->
  cache_step c c' (cache_view_of c) /\ Forall (fun tx => utxo (cache_view_of c) (txid tx) = None) txs.
Proof.
  revert c. induction txs as [|tx txs IH]; intros c Hi; cbn [bip30_loop]; [intros [= <-]; split; [by apply cache_step_refl|done]|].
  destruct (AccessCoins c (txid tx)) as [r c1] eqn:E. destruct (AccessCoins_step _ _ _ _ Hi E) as [Hs Hl].
  intros Er. assert (live r = None /\ bip30_loop c1 txs = Ok c') as [Hr Er'].
  { destruct r as [x|]; [|done]. unfold live. cbn. by destruct (IsPruned x). }
  destruct (IH c1 (step_inv _ _ _ Hs) Er') as [Hs' Hf]. split; [by eapply read_step_trans|].
  constructor; [by rewrite <- Hl|]. eapply Forall_impl; [exact Hf|]. intros tx'. cbv beta. by rewrite (step_view _ _ _ Hs).
Qed.

(** One round of the loop over the transactions. *)
Lemma connect_tx_connected st first tx fe nHeight fl br st' :
  cache_inv (cs_view st) -> view_ok (cache_view_of (cs_view st)) -> tx_checked tx -> 0 < nHeight <= INT32_MAX ->
  utxo (view_of (base (cs_view st))) (txid tx) = None -> utxo (cache_view_of (cs_view st)) (txid tx) = None ->
  connect_tx st first tx fe nHeight fl br = Ok st' ->
  exists u w', tx_connected nHeight (cache_view_of (cs_view st)) tx u w' /\ cache_step (cs_view st) (cs_view st') w' /\
    cs_undo st' = (if first then cs_undo st else cs_undo st ++ [u]) /\
    append_notes (cs_tree st) (tx_vShieldedOutput tx) = Ok (cs_tree st').
Proof.
  intros Hi Hw Hc Hh Hb Hn. unfold connect_tx. intros [_ Ek]%guard_Ok.
  apply res_bind_Ok in Ek as ([[[c1 nf] ns] ch] & E1 & Ek).
  assert (cache_step (cs_view st) c1 (cache_view_of (cs_view st)) /\
    Forall (fun n => nullifier_spent (cache_view_of (cs_view st)) SAPLING n = false) (nullifiers tx)) as [Hs1 Hnf].
  { destruct (IsCoinBase tx) eqn:Ecb; cbn [negb] in E1.
    - injection E1 as <- _ _ _. split; [by apply cache_step_refl|]. unfold nullifiers. by rewrite (checked_coinbase _ Hc Ecb).
    - exact (check_spending_tx_step _ _ _ _ _ _ _ Hi E1). }
  apply res_bind_Ok in Ek as ([u c2] & E2%lift_cache_Ok & Ek). apply res_bind_Ok in Ek as (t & Et & Ek). injection Ek as <-. cbn.
  destruct (UpdateCoins_connected tx c1 nHeight u c2) as (w' & Htc & Hs2); try done.
  - apply Hs1.
  - by rewrite (step_view _ _ _ Hs1).
  - by rewrite (step_base _ _ _ Hs1).
  - by rewrite (step_view _ _ _ Hs1).
  - eapply Forall_impl; [exact Hnf|]. intros n. cbv beta. by rewrite (step_view _ _ _ Hs1).
  - exists u, w'. split; [by eapply tx_connected_proper; [apply Hs1|]|]. split; [|done].
    by eapply cache_step_trans; [apply Hs1|].
Qed.

(** The commitment tree after the notes of all transactions. *)
Fixpoint append_block (t : Tree) (txs : list CTransaction) : res connect_fail Tree :=
  match txs with
  | [] => Ok t
  | tx :: txs => let? t := append_notes t (tx_vShieldedOutput tx) in append_block t txs
  end.

Definition fresh_txs (w : view) (txs : list CTransaction) : Prop := Forall (fun tx => utxo w (txid tx) = None) txs.

Lemma connect_loop_connected st first txs fe nHeight fl br st' :
  cache_inv (cs_view st) -> view_ok (cache_view_of (cs_view st)) -> Forall tx_checked txs -> 0 < nHeight <= INT32_MAX ->
  fresh_txs (view_of (base (cs_view st))) txs -> fresh_txs (cache_view_of (cs_view st)) txs -> NoDup (map txid txs) ->
  connect_loop st first txs fe nHeight fl br = Ok st' ->
  exists us w', txs_connected nHeight (cache_view_of (cs_view st)) txs us w' /\ cache_step (cs_view st) (cs_view st') w' /\
    cs_undo st' = cs_undo st ++ (if first then tail us else us) /\ append_block (cs_tree st) txs = Ok (cs_tree st').
Proof.
  revert st first. induction txs as [|tx txs IH]; intros st first Hi Hw Hc Hh Hb Hn Hnd; cbn [connect_loop append_block].
  { intros [= <-]. exists [], (cache_view_of (cs_view st)). split; [by constructor|]. split; [by apply cache_step_refl|].
    split; [by destruct first; rewrite app_nil_r|done]. }
  apply Forall_cons in Hc as [Hc0 Hc]. apply Forall_cons in Hb as [Hb0 Hb]. apply Forall_cons in Hn as [Hn0 Hn].
  cbn [map] in Hnd. apply NoDup_cons in Hnd as [Hnin Hnd].
  intros (st1 & E1 & Er)%res_bind_Ok.
  destruct (connect_tx_connected _ _ _ _ _ _ _ _ Hi Hw Hc0 Hh Hb0 Hn0 E1) as (u & w1 & Htc & Hs1 & Hu & Ht).
  destruct (tx_connected_ok _ _ _ _ _ Htc Hw Hc0 Hh) as (Hw1 & _ & Hnone & _).
  destruct (IH st1 false) as (us & w' & Hts & Hs2 & Hus & Hts'); try done.
  - apply Hs1.
  - by rewrite (step_view _ _ _ Hs1).
  - eapply Forall_impl; [exact Hb|]. intros t. cbv beta. by rewrite (step_base _ _ _ Hs1).
  - apply Forall_forall. intros t Hin. rewrite (step_view _ _ _ Hs1). unfold fresh_txs in Hn. rewrite Forall_forall in Hn.
    apply Hnone; [by apply Hn|]. intros E. apply Hnin. rewrite <- E. by apply list_elem_of_fmap_2.
  - exists (u :: us), w'. split; [econstructor; [exact Htc|]; eapply txs_connected_start; [apply Hs1|exact Hts]|].
    split; [by eapply cache_step_trans; [apply Hs1|]|]. split.
    + rewrite Hus, Hu. destruct first; cbn [tail]; [done|by rewrite <- app_assoc].
    + rewrite Ht. done.
Qed.

(** What [CheckBlock] and the checks of the transactions guarantee about a block: exactly the
    first transaction is a coinbase, and no two transactions have the same hash. *)
Record block_checked (block : CBlock) : Prop := {
  bc_coinbase : exists cb txs, vtx block = cb :: txs /\ IsCoinBase cb = true /\ Forall (fun tx => IsCoinBase tx = false) txs;
  bc_txs : Forall tx_checked (vtx block);
  bc_nodup : NoDup (map txid (vtx block));
  bc_size : zlen (vtx block) <= MAX_DATA_SIZE
}.

(** The index entry of a block that is connected for the first time, on top of [prev]. *)
Record extends (idx : block_index) (prev : prev_index) : Prop := {
  ex_prev : pprev idx = Some prev;
  ex_undo : nUndoPos idx = None;
  ex_height : 0 < bi_nHeight idx <= INT32_MAX;
  ex_hash : hash_IsNull (bi_hash idx) = false;
  ex_prev_hash : hash_IsNull (p_hash prev) = false
}.

(** The view after pushing the Sapling tree. *)
Definition pushed (w : view) (t : Tree) : view :=
  if decide (best_anchor w SAPLING = tree_root SAPLING t) then w
  else set_best_anchor (set_anchor w SAPLING (tree_root SAPLING t) (Some t)) SAPLING (tree_root SAPLING t).

Lemma pushed_proper w w' t : w ≡ w' -> pushed w t ≡ pushed w' t.
Proof.
  intros E. pose proof E as (_ & _ & _ & _ & E5). unfold pushed. rewrite (E5 SAPLING). case_decide; [done|]. by rewrite E.
Qed.

Lemma set_best_block_proper w w' h : w ≡ w' -> set_best_block w h ≡ set_best_block w' h.
Proof. by intros (E1 & E2 & E3 & E4 & E5). Qed.

Context `{Secp256k1}.

(** What a successful [ConnectBlock] has read and checked before and after its loop. *)
Lemma ConnectBlock_inv block idx prev c file fe c' idx' file' :
  cache_inv c -> pprev idx = Some prev -> block_hash block <> genesis_hash ->
  ConnectBlock block idx c file fe false = Ok (c', idx', file') ->
  let w := cache_view_of c in
  exists c1 ts t st, cache_step c c1 w /\ p_hash prev = best_block w /\ fresh_txs w (vtx block) /\
    tree_root SPROUT ts = best_anchor w SPROUT /\ anchor_tree w SAPLING (best_anchor w SAPLING) = Some t /\
    connect_loop {| cs_view := c1; cs_nFees := 0; cs_nSigOps := 0; cs_tree := t; cs_undo := []; cs_checks := [] |} true (vtx block) fe
      (bi_nHeight idx) (Z.lor SCRIPT_VERIFY_P2SH SCRIPT_VERIFY_CHECKLOCKTIMEVERIFY) (CurrentEpochBranchId (bi_nHeight idx) upgrades) = Ok st /\
    (NetworkUpgradeActive (bi_nHeight idx) upgrades UPGRADE_SAPLING = true -> hashFinalSaplingRoot block = tree_root SAPLING (cs_tree st)) /\
    c' = SetBestBlock (PushAnchor (PushAnchor (cs_view st) SPROUT ts) SAPLING (cs_tree st)) (bi_hash idx) /\
    exists a f, write_undo (set_sprout idx a f) {| vtxundo := cs_undo st; old_sprout_tree_root := best_anchor w SPROUT |} file = Ok (idx', file').
Proof.
  intros Hi Hprev Hgen. unfold ConnectBlock. intros [_ Ek]%guard_Ok. rewrite Hprev in Ek.
  destruct (cache_GetBestBlock c) as [best c1] eqn:E1. destruct (GetBestBlock_step _ _ _ Hi E1) as [Hs1 Hbest].
  apply guard_Ok in Ek as [Hb%negb_false_iff%bytes_eqb_spec Ek].
  assert (bytes_eqb (block_hash block) genesis_hash = false) as Eg by (unfold bytes_eqb; by apply bool_decide_false).
  rewrite Eg in Ek. apply res_bind_Ok in Ek as (c2 & E2 & Ek).
  destruct (bip30_loop_step _ _ _ (step_inv _ _ _ Hs1) E2) as [Hs2' Hfresh]. pose proof (read_step_trans _ _ _ Hs1 Hs2') as Hs2.
  destruct (cache_GetBestAnchor c2 SPROUT) as [rs c3] eqn:E3. destruct (GetBestAnchor_step _ _ _ _ (step_inv _ _ _ Hs2) E3) as [Hs3' Hrs].
  pose proof (read_step_trans _ _ _ Hs2 Hs3') as Hs3.
  destruct (cache_GetAnchorAt c3 SPROUT rs) as [ts c4] eqn:E4. destruct (GetAnchorAt_step _ _ _ _ _ (step_inv _ _ _ Hs3) E4) as [Hs4' Hts].
  pose proof (read_step_trans _ _ _ Hs3 Hs4') as Hs4. destruct ts as [ts|]; [|done].
  apply guard_Ok in Ek as [Hroot%negb_false_iff%bytes_eqb_spec Ek].
  destruct (cache_GetBestAnchor c4 SAPLING) as [ra c5] eqn:E5. destruct (GetBestAnchor_step _ _ _ _ (step_inv _ _ _ Hs4) E5) as [Hs5' Hra].
  pose proof (read_step_trans _ _ _ Hs4 Hs5') as Hs5.
  destruct (cache_GetAnchorAt c5 SAPLING ra) as [ta c6] eqn:E6. destruct (GetAnchorAt_step _ _ _ _ _ (step_inv _ _ _ Hs5) E6) as [Hs6' Hta].
  pose proof (read_step_trans _ _ _ Hs5 Hs6') as Hs6. destruct ta as [t|]; [|done].
  rewrite (step_view _ _ _ Hs2) in Hrs. rewrite (step_view _ _ _ Hs4) in Hra. rewrite (step_view _ _ _ Hs5) in Hta. rewrite Hrs in *. rewrite Hra in *.
  apply res_bind_Ok in Ek as (st & E7 & Ek). apply guard_Ok in Ek as [Hsap Ek]. apply guard_Ok in Ek as [_ Ek].
  apply guard_Ok in Ek as [_ Ek]. apply res_bind_Ok in Ek as ([idx1 f1] & Ew & [= <- <- <-]).
  exists c6, ts, t, st. split; [exact Hs6|]. split; [by rewrite <- Hbest|]. split; [|do 3 (split; [done|])].
  { eapply Forall_impl; [exact Hfresh|]. intros tx. cbv beta. by rewrite (step_view _ _ _ Hs1). }
  split; [|split; [done|eexists _, _; exact Ew]].
  intros Hact. cbn [bi_nHeight set_sprout] in Hsap. rewrite Hact in Hsap. cbn [andb] in Hsap.
  by apply negb_false_iff, bytes_eqb_spec in Hsap.
Qed.

(** A block that connects: its transactions change the view one after the other, the tree
    with its notes becomes the best Sapling anchor, and the undo data is written. *)
Lemma ConnectBlock_connected block idx prev c file fe c' idx' file' :
  cache_inv c -> cacheCoins (data c) = ∅ -> view_ok (cache_view_of c) -> block_checked block -> extends idx prev ->
  block_hash block <> genesis_hash ->
  ConnectBlock block idx c file fe false = Ok (c', idx', file') ->
  let w := cache_view_of c in
  exists us w1 t t', txs_connected (bi_nHeight idx) w (vtx block) us w1 /\ p_hash prev = best_block w /\
    anchor_tree w SAPLING (best_anchor w SAPLING) = Some t /\ append_block t (vtx block) = Ok t' /\
    cache_step c c' (set_best_block (pushed w1 t') (bi_hash idx)) /\
    (NetworkUpgradeActive (bi_nHeight idx) upgrades UPGRADE_SAPLING = true -> hashFinalSaplingRoot block = tree_root SAPLING t') /\
    exists a f, write_undo (set_sprout idx a f) {| vtxundo := tail us; old_sprout_tree_root := best_anchor w SPROUT |} file = Ok (idx', file').
Proof.
  intros Hi Hempty Hw Hbc [Hprev Hundo Hh Hhash Hphash] Hgen Ec w.
  destruct (ConnectBlock_inv _ _ _ _ _ _ _ _ _ Hi Hprev Hgen Ec) as (c1 & ts & t & st & Hs1 & Hp & Hf & Hroot & Ht & El & Hsap & -> & Hwr).
  assert (exists us w1, txs_connected (bi_nHeight idx) (cache_view_of c1) (vtx block) us w1 /\ cache_step c1 (cs_view st) w1 /\
    cs_undo st = tail us /\ append_block t (vtx block) = Ok (cs_tree st)) as (us & w1 & Htxs & Hs2 & Hus & Happ).
  { eapply connect_loop_connected in El; cbn [cs_view] in *; [exact El|..]; try apply Hbc; try done.
    - apply Hs1.
    - by rewrite (step_view _ _ _ Hs1).
    - eapply Forall_impl; [exact Hf|]. intros tx. cbv beta. rewrite (step_base _ _ _ Hs1). cbn. by rewrite Hempty, lookup_empty.
    - eapply Forall_impl; [exact Hf|]. intros tx. cbv beta. by rewrite (step_view _ _ _ Hs1). }
  apply (txs_connected_start _ _ w) in Htxs; [|apply Hs1].
  destruct (txs_connected_ok _ _ _ _ _ Htxs Hw (bc_txs _ Hbc) Hh) as (_ & _ & _ & _ & _ & Hba).
  exists us, w1, t, (cs_tree st). split; [done|]. split; [done|]. split; [done|]. split; [done|]. split; [|by rewrite <- Hus].
  pose proof (PushAnchor_step (cs_view st) SPROUT ts (step_inv _ _ _ Hs2)) as Hs3.
  rewrite decide_True in Hs3 by (rewrite (step_view _ _ _ Hs2), Hba; by rewrite Hroot).
  pose proof (PushAnchor_step _ SAPLING (cs_tree st) (step_inv _ _ _ Hs3)) as Hs4.
  pose proof (SetBestBlock_step _ (bi_hash idx) (step_inv _ _ _ Hs4) Hhash) as Hs5.
  split; [apply Hs5| |].
  - rewrite (step_view _ _ _ Hs5). apply set_best_block_proper. rewrite (step_view _ _ _ Hs4).
    apply (pushed_proper _ _ (cs_tree st)). by rewrite (step_view _ _ _ Hs3), (step_view _ _ _ Hs2).
  - by rewrite (step_base _ _ _ Hs5), (step_base _ _ _ Hs4), (step_base _ _ _ Hs3), (step_base _ _ _ Hs2), (step_base _ _ _ Hs1).
Qed.

End Refinement.

Section RoundTrip.
Context `{CacheParamsLaws} `{CryptoLaws} `{Secp256k1Laws} `{!ConnectEnv}.

(** The undo data that was written is found through the index entry. *)
Lemma write_undo_spec idx prev u file idx' file' :
  pprev idx = Some prev -> nUndoPos idx = None -> block_undo_ok u -> write_undo idx u file = Ok (idx', file') ->
  bi_hash idx' = bi_hash idx /\ bi_nHeight idx' = bi_nHeight idx /\ pprev idx' = Some prev /\
  exists pos, nUndoPos idx' = Some pos /\ UndoReadFromDisk file' pos (p_hash prev) = Ok (Some u).
Proof.
  intros Hp Hu Hok. unfold write_undo. rewrite Hu, Hp. cbn [orb negb].
  intros ([idx1 f1] & E1 & E2)%res_bind_Ok. destruct (block_undo_Serialize u) as [s|]; [|done].
  destruct (FindUndoPos (zlen s + 40)) as [pos|]; [|done]. destruct file as [file|]; [|done].
  destruct (UndoWriteToDisk_spec u file pos (p_hash prev) message_start Hok) as (f' & pos' & Ew & _ & _ & Er & _).
  rewrite Ew in E1. injection E1 as <- <-. cbn [fst snd bi_nHeight set_undo_pos] in E2.
  destruct (IsActivationHeightForAnyUpgrade _ _); injection E2 as <- <-; cbn;
    (split; [done|]; split; [done|]; split; [done|]; by exists pos').
Qed.

Context {V : Type} `{!CCoinsView V} `{!CCoinsViewLaws V}.

(** The undo data of a block with one coinbase, as it is stored. *)
Lemma undos_of_block block us : block_checked block -> length us = length (vtx block) ->
  None :: map Some (tail us) = undos_of (vtx block) us.
Proof.
  intros Hbc Hlen. destruct (bc_coinbase _ Hbc) as (cb & txs & Evtx & Hcb & Htx). rewrite Evtx in *.
  destruct us as [|u us]; [done|]. cbn [tail undos_of zip_with]. rewrite Hcb. f_equal. cbn in Hlen.
  assert (length us = length txs) as Hl by lia. clear -Htx Hl. revert us Hl.
  induction Htx as [|tx txs Hc _ IH]; intros [|u us] Hl; try done. cbn. rewrite Hc. f_equal. apply IH. by injection Hl.
Qed.

(** Popping the Sapling anchor that was pushed. *)
Lemma pop_pushed w w1 t' h :
  (forall ty r, anchor_tree w1 ty r = anchor_tree w ty r) -> (forall ty, best_anchor w1 ty = best_anchor w ty) ->
  best_anchor w SAPLING = tree_root SAPLING t' \/ anchor_tree w SAPLING (tree_root SAPLING t') = None ->
  let v := with_chain w (set_best_block (pushed w1 t') h) in
  set_best_block (if decide (tree_root SAPLING t' = best_anchor w SAPLING) then v
                  else set_best_anchor (set_anchor v SAPLING (tree_root SAPLING t') None) SAPLING (best_anchor w SAPLING)) (best_block w) ≡ w.
Proof.
  intros Ha Hba Hnew v. unfold v, pushed.
  destruct (decide (tree_root SAPLING t' = best_anchor w SAPLING)) as [Esame|Hdiff].
  - rewrite decide_True by (by rewrite Hba). split; [done|]. split; [done|]. split; [exact Ha|]. split; [done|exact Hba].
  - destruct Hnew as [?|Hnone]; [congruence|]. rewrite decide_False by (rewrite Hba; congruence).
    split; [done|]. split; [done|]. split; [|split; [done|]]; cbn -[upd].
    + intros ty r. destruct (decide (ty = SAPLING /\ r = tree_root SAPLING t')) as [[-> ->]|Htr]; [by rewrite Hnone|apply Ha].
    + intros ty. destruct (decide (ty = SAPLING)) as [->|Hty]; [by rewrite upd_same|]. by rewrite !upd_other, Hba.
Qed.

(** A view after a block, disconnected: the transactions are undone, the anchors popped and
    the best block moved back. *)
Lemma DisconnectBlock_restores block idx prev pos file us w w1 t' (d : CCoinsViewCache V) :
  txs_connected (bi_nHeight idx) w (vtx block) us w1 -> view_ok w -> block_checked block ->
  0 < bi_nHeight idx <= INT32_MAX -> pprev idx = Some prev -> nUndoPos idx = Some pos ->
  UndoReadFromDisk file pos (p_hash prev) = Ok (Some {| vtxundo := tail us; old_sprout_tree_root := best_anchor w SPROUT |}) ->
  p_hash prev = best_block w -> hash_IsNull (p_hash prev) = false ->
  (forall ty, hash_IsNull (best_anchor w ty) = false) ->
  best_anchor w SAPLING = (if NetworkUpgradeActive (p_nHeight prev) upgrades UPGRADE_SAPLING
                           then p_hashFinalSaplingRoot prev else empty_root SAPLING) ->
  best_anchor w SAPLING = tree_root SAPLING t' \/ anchor_tree w SAPLING (tree_root SAPLING t') = None ->
  anchor_tree w SAPLING (empty_root SAPLING) = Some new_tree ->
  cache_inv d -> cache_view_of d ≡ set_best_block (pushed w1 t') (bi_hash idx) ->
  exists d', DisconnectBlock block idx d file = Ok (DISCONNECT_OK, d') /\ cache_inv d' /\ cache_view_of d' ≡ w.
Proof.
  intros Htxs Hw Hbc Hh Hp Hpos Hread Hbest Hnull Hanull Hsap Hnew Hempty Hd Ed.
  destruct (txs_connected_ok _ _ _ _ _ Htxs Hw (bc_txs _ Hbc) Hh) as (_ & _ & Hlen & Ha & Hb & Hba).
  set (v := set_best_block (pushed w1 t') (bi_hash idx)) in Ed.
  assert (v ≡ with_chain w1 v) as Ev by (unfold v, pushed; case_decide; done).
  unfold DisconnectBlock. destruct (cache_GetBestBlock d) as [bb d1] eqn:E1. destruct (GetBestBlock_step _ _ _ Hd E1) as [Hs1 ->].
  replace (best_block (cache_view_of d)) with (bi_hash idx) by (by rewrite Ed).
  unfold bytes_eqb at 1. rewrite bool_decide_true by done. cbn [negb].
  rewrite Hpos, Hp, Hread. cbn [vtxundo old_sprout_tree_root].
  destruct us as [|u0 us]; [by destruct (bc_coinbase _ Hbc) as (? & ? & E & _); rewrite E in Hlen|].
  replace (length (tail (u0 :: us)) + 1 =? length (vtx block))%nat with true by (symmetry; apply Nat.eqb_eq; rewrite <- Hlen; cbn; lia).
  cbn [negb]. rewrite (undos_of_block _ _ Hbc Hlen).
  destruct (disconnect_loop_restores _ _ _ _ _ (txs_connected_frame v _ _ _ _ _ Htxs) ltac:(exact Hw) (bc_txs _ Hbc) Hh d1 true)
    as (d2 & E2 & Hs2); [apply Hs1|by rewrite (step_view _ _ _ Hs1), Ed|].
  rewrite E2. cbn [lift_cache res_bind].
  assert (cache_view_of d2 ≡ with_chain w v) as Ed2 by apply Hs2. pose proof Ed2 as (_ & _ & Ed2a & Ed2b & Ed2c).
  assert (best_anchor (with_chain w v) SPROUT = best_anchor w SPROUT) as Hsprout.
  { cbn -[upd]. unfold pushed. case_decide; cbn -[upd]; rewrite ?upd_other by done; apply Hba. }
  assert (best_anchor (with_chain w v) SAPLING = tree_root SAPLING t') as Hsapling.
  { cbn -[upd]. unfold pushed. case_decide; cbn -[upd]; [done|by rewrite upd_same]. }
  destruct (PopAnchor_step d2 SPROUT (best_anchor w SPROUT) (step_inv _ _ _ Hs2) (Hanull SPROUT)) as (d3 & E3 & Hi3 & Ed3).
  { left. rewrite Ed2c. by apply Hsprout. }
  rewrite E3. cbn [lift_cache res_bind].
  assert (cache_view_of d3 ≡ with_chain w v) as Ed3'.
  { rewrite Ed3, decide_True; [done|]. rewrite Ed2c. by apply Hsprout. }
  clear Ed3. rewrite <- Hsap.
  assert (best_anchor (cache_view_of d3) SAPLING = tree_root SAPLING t') as Hb3.
  { by rewrite Ed3'. }
  destruct (PopAnchor_step d3 SAPLING (best_anchor w SAPLING) Hi3 (Hanull SAPLING)) as (d4 & E4 & Hi4 & Ed4).
  { rewrite Hb3. destruct (decide (best_anchor w SAPLING = tree_root SAPLING t')) as [Hsame|Hdiff]; [by left|right].
    destruct Hnew as [?|Hnone]; [done|]. split; [intros E; by rewrite E, Hempty in Hnone|].
    rewrite Ed3'. cbn -[upd]. unfold pushed. rewrite decide_False by (by rewrite Hba).
    cbn. rewrite decide_True by done. by eexists. }
  rewrite E4. cbn [lift_cache res_bind]. pose proof (SetBestBlock_step d4 (p_hash prev) Hi4 Hnull) as Hs5.
  eexists. split; [done|]. split; [apply Hs5|]. rewrite (step_view _ _ _ Hs5), Hbest.
  rewrite (set_best_block_proper _ _ (best_block w) Ed4), Hb3.
  etrans; [|exact (pop_pushed w w1 t' (bi_hash idx) Ha Hba Hnew)]. apply set_best_block_proper. fold v.
  destruct (decide (tree_root SAPLING t' = best_anchor w SAPLING)); [exact Ed3'|]. by rewrite Ed3'.
Qed.
End RoundTrip.

Section ConnectDisconnect.
Context `{CacheParamsLaws} `{CryptoLaws} `{Secp256k1Laws} `{!ConnectEnv} {V : Type} `{!CCoinsView V} `{!CCoinsViewLaws V}.

(** What the view shows about the chain below the block: its anchors are roots of known trees,
    the Sapling anchor is the one the previous block commits to, and the tree with the notes
    of the block is not an older anchor. *)
Record chain_ok (w : view) (block : CBlock) (prev : prev_index) : Prop := {
  co_sprout_size : length (best_anchor w SPROUT) = 32%nat;
  co_anchors : forall ty, hash_IsNull (best_anchor w ty) = false;
  co_sapling : best_anchor w SAPLING = (if NetworkUpgradeActive (p_nHeight prev) upgrades UPGRADE_SAPLING
                                        then p_hashFinalSaplingRoot prev else empty_root SAPLING);
  co_new_anchor : forall t t', anchor_tree w SAPLING (best_anchor w SAPLING) = Some t -> append_block t (vtx block) = Ok t' ->
    best_anchor w SAPLING = tree_root SAPLING t' \/ anchor_tree w SAPLING (tree_root SAPLING t') = None
}.

(** The undo data of a connected block is found through its index entry. *)
Lemma ConnectBlock_undo block idx prev (c : CCoinsViewCache V) file fe c' idx' file' :
  cache_inv c -> cacheCoins (data c) = ∅ -> view_ok (cache_view_of c) -> block_checked block -> extends idx prev ->
  block_hash block <> genesis_hash -> length (best_anchor (cache_view_of c) SPROUT) = 32%nat ->
  ConnectBlock block idx c file fe false = Ok (c', idx', file') ->
  let w := cache_view_of c in
  exists us w1 t t' pos, txs_connected (bi_nHeight idx) w (vtx block) us w1 /\ p_hash prev = best_block w /\
    anchor_tree w SAPLING (best_anchor w SAPLING) = Some t /\ append_block t (vtx block) = Ok t' /\
    cache_step c c' (set_best_block (pushed w1 t') (bi_hash idx)) /\
    bi_hash idx' = bi_hash idx /\ bi_nHeight idx' = bi_nHeight idx /\ pprev idx' = Some prev /\ nUndoPos idx' = Some pos /\
    UndoReadFromDisk file' pos (p_hash prev) = Ok (Some {| vtxundo := tail us; old_sprout_tree_root := best_anchor w SPROUT |}).
Proof.
  intros Hi Hempty Hw Hbc Hex Hgen Hsz Ec w.
  destruct (ConnectBlock_connected _ _ _ _ _ _ _ _ _ Hi Hempty Hw Hbc Hex Hgen Ec)
    as (us & w1 & t & t' & Htxs & Hbest & Ht & Happ & Hs & _ & a & f & Ewr).
  destruct Hex as [Hprev Hundo Hh Hhash Hphash].
  destruct (txs_connected_ok _ _ _ _ _ Htxs Hw (bc_txs _ Hbc) Hh) as (_ & Hus & Hlen & _).
  pose proof (bc_size _ Hbc) as Hbs.
  assert (block_undo_ok {| vtxundo := tail us; old_sprout_tree_root := best_anchor (cache_view_of c) SPROUT |}) as Hok.
  { split; cbn; [|by destruct us; [|apply Forall_cons in Hus as [_ ?]]|done].
    unfold zlen in *. destruct us; cbn in *; [unfold MAX_DATA_SIZE; lia|lia]. }
  destruct (write_undo_spec (set_sprout idx a f) prev _ _ _ _ Hprev Hundo Hok Ewr) as (E1 & E2 & E3 & pos & E4 & Eread).
  exists us, w1, t, t', pos. done.
Qed.

(** C1. Disconnecting a block undoes connecting it: when [ConnectBlock] succeeds on a new cache
    over the coin set, then [DisconnectBlock] with the index entry and the undo file it left,
    on any cache (over any lawful base) that shows the resulting state, reports a clean result
    and shows exactly the coin set, nullifiers, anchors and best block from before. *)
Theorem connect_disconnect {V2 : Type} `{!CCoinsView V2} `{!CCoinsViewLaws V2}
    block idx prev (c : CCoinsViewCache V) file fe c' idx' file' (d : CCoinsViewCache V2) :
  cache_inv c -> cacheCoins (data c) = ∅ -> view_ok (cache_view_of c) ->
  block_checked block -> extends idx prev -> block_hash block <> genesis_hash -> chain_ok (cache_view_of c) block prev ->
  ConnectBlock block idx c file fe false = Ok (c', idx', file') ->
  cache_inv d -> cache_view_of d ≡ cache_view_of c' ->
  exists d', DisconnectBlock block idx' d file' = Ok (DISCONNECT_OK, d') /\ cache_inv d' /\ cache_view_of d' ≡ cache_view_of c.
Proof.
  intros Hi Hempty Hw Hbc Hex Hgen Hco Ec Hd Ed. destruct Hco as [Hsz Hanull Hsap Hnew].
  destruct (ConnectBlock_undo _ _ _ _ _ _ _ _ _ Hi Hempty Hw Hbc Hex Hgen Hsz Ec)
    as (us & w1 & t & t' & pos & Htxs & Hbest & Ht & Happ & Hs & E1 & E2 & E3 & E4 & Eread).
  eapply (DisconnectBlock_restores _ _ prev pos _ us (cache_view_of c) w1 t'); rewrite ?E1, ?E2; try done.
  - apply Hex.
  - apply Hex.
  - by apply Hnew with t.
  - apply (cache_empty_root c SAPLING Hi).
  - by rewrite Ed, (step_view _ _ _ Hs).
Qed.
End ConnectDisconnect.

(** ** A concrete block

    Two transactions: a coinbase, and one that spends both unspent outputs of an older
    coinbase (so that the second undo record carries the whole entry) and adds a note. *)

#[local] Instance block_params : CacheParams := {|
  Tree := Z; new_tree := 0; tree_usage t := 1; coins_usage _ := 1;
  tree_root ty t := match ty with SPROUT => 1 | SAPLING => 2 end :: t :: replicate 30 0
|}.

#[local] Instance block_params_laws : CacheParamsLaws block_params.
Proof. split; [by intros ty t1 t2 [= ->]|by intros []]. Qed.

#[local] Instance demo_env : ConnectEnv := {|
  CheckBlock _ := true; IsBlockValid _ _ reward := reward <=? MAX_MONEY;
  sig_checker _ _ _ := base_checker; tree_append t cm := Some (t + 1);
  FindUndoPos _ := Some 8%nat; block_height h := if decide (h = [7]) then Some 200000 else None;
  is_regtest := false; halving_interval := 840000; genesis_hash := [0];
  upgrades := fun _ => {| nProtocolVersion := 0; nActivationHeight := 0 |};
  message_start := [1; 2; 3; 4]; script_threads := true
|}.

Definition old_txid : bytes := replicate 32 5.
Definition old_coins : CCoins := {|
  fCoinBase := true; nHeight := 100; nVersion := 1;
  vout := [null_txout; {| nValue := 500; scriptPubKey := [81] |}; null_txout; {| nValue := 700; scriptPubKey := [81] |}]
|}.

Definition block_db : CCoinsViewDB := {|
  db_coins := {[ old_txid := old_coins ]}; db_anchors := fun ty => match ty with SPROUT => ∅ | SAPLING => {[ tree_root SAPLING 3 := 3 ]} end; db_nullifiers := fun _ => ∅;
  db_best_block := Some [7]; db_best_anchor := fun ty => match ty with SPROUT => None | SAPLING => Some (tree_root SAPLING 3) end
|}.
Definition block_cache : CCoinsViewCache CCoinsViewDB := mk_cache empty_cache block_db.

Definition demo_coinbase : CTransaction := {|
  tx_fOverwintered := false; tx_nVersion := 1; tx_nVersionGroupId := 0;
  tx_vin := [{| prevout := {| op_hash := replicate 32 0; op_n := UINT32_MAX |}; scriptSig := [1; 1]; nSequence := UINT32_MAX |}];
  tx_vout := [{| nValue := 1000; scriptPubKey := [81] |}; {| nValue := 0; scriptPubKey := [OP_RETURN] |}];
  tx_nLockTime := 0; tx_nExpiryHeight := 0; tx_valueBalance := 0; tx_vShieldedSpend := []; tx_vShieldedOutput := [];
  tx_bindingSig := no_bindingSig |}.

Definition demo_spending : CTransaction := {|
  tx_fOverwintered := true; tx_nVersion := 4; tx_nVersionGroupId := SAPLING_VERSION_GROUP_ID;
  tx_vin := [{| prevout := {| op_hash := old_txid; op_n := 3 |}; scriptSig := []; nSequence := 0 |};
             {| prevout := {| op_hash := old_txid; op_n := 1 |}; scriptSig := []; nSequence := 0 |}];
  tx_vout := [{| nValue := 900; scriptPubKey := [81] |}];
  tx_nLockTime := 0; tx_nExpiryHeight := 0; tx_valueBalance := -100; tx_vShieldedSpend := [];
  tx_vShieldedOutput := [{| od_cv := blob 32 1; od_cm := blob 32 2; od_ephemeralKey := blob 32 3; od_encCiphertext := blob 580 4;
                            od_outCiphertext := blob 80 5; od_zkproof := blob 192 6 |}];
  tx_bindingSig := blob 64 9 |}.

Definition demo_block : CBlock := {| block_hash := [9]; vtx := [demo_coinbase; demo_spending]; hashFinalSaplingRoot := tree_root SAPLING 4 |}.
Definition demo_prev : prev_index := {|
  p_hash := [7]; p_nHeight := 200000; p_hashFinalSaplingRoot := tree_root SAPLING 3; p_nCachedBranchId := None |}.
Definition demo_index : block_index := {|
  bi_hash := [9]; bi_nHeight := 200001; pprev := Some demo_prev; hashSproutAnchor := []; hashFinalSproutRoot := [];
  nUndoPos := None; valid_scripts := false; activates_upgrade := false; nCachedBranchId := None |}.

Lemma demo_connects : is_ok (ConnectBlock demo_block demo_index block_cache (Some []) true false) = true.
Proof. vm_compute. reflexivity. Qed.

Lemma block_cache_inv : cache_inv block_cache.
Proof.
  split; try done. intros [] r t; [done|]. cbn [db_anchors block_db base block_cache]. by intros [<- <-]%lookup_singleton_Some.
Qed.

Lemma old_coins_ok : entry_ok old_coins.
Proof.
  split; [|done]. split; try done.
  - by intros o [= <-].
  - repeat (apply Forall_cons; split); try apply Forall_nil_2; first [by left|by right].
Qed.

Lemma block_view_ok : view_ok (cache_view_of block_cache).
Proof.
  intros t x Hx. assert (live (({[ old_txid := old_coins ]} : gmap uint256 CCoins) !! t) = Some x) as Hl by exact Hx.
  apply live_Some in Hl as [[_ <-]%lookup_singleton_Some _]. exact old_coins_ok.
Qed.

Lemma demo_block_checked : block_checked demo_block.
Proof.
  split; [exists demo_coinbase, [demo_spending]; split; [done|]; split; [done|by repeat constructor]| | |done].
  - repeat (apply Forall_cons; split); try apply Forall_nil_2; (split; [split| | |]); try done; by repeat (apply Forall_cons; split).
  - apply (bool_decide_eq_true_1 (NoDup (map txid (vtx demo_block)))). vm_compute. reflexivity.
Qed.

Lemma demo_chain_ok : chain_ok (cache_view_of block_cache) demo_block demo_prev.
Proof.
  split; [done|by intros []|done|]. intros t t' Ht Ha. vm_compute in Ht. injection Ht as <-. vm_compute in Ha. injection Ha as <-.
  right. vm_compute. reflexivity.
Qed.

Lemma demo_extends : extends demo_index demo_prev.
Proof. by split. Qed.

Lemma demo_not_genesis : block_hash demo_block <> genesis_hash.
Proof. discriminate. Qed.

Lemma connect_disconnect_witness :
  exists c' idx' file' d', ConnectBlock demo_block demo_index block_cache (Some []) true false = Ok (c', idx', file') /\
    DisconnectBlock demo_block idx' c' file' = Ok (DISCONNECT_OK, d') /\ cache_view_of d' ≡ cache_view_of block_cache.
Proof.
  destruct (ConnectBlock demo_block demo_index block_cache (Some []) true false) as [[[c' idx'] file']|] eqn:E; [|pose proof demo_connects as F; rewrite E in F; discriminate F].
  destruct (ConnectBlock_connected _ _ _ _ _ _ _ _ _ block_cache_inv eq_refl block_view_ok demo_block_checked demo_extends demo_not_genesis E)
    as (us & w1 & t & t' & _ & _ & _ & _ & Hs & _).
  destruct (connect_disconnect demo_block demo_index demo_prev block_cache (Some []) true c' idx' file' c'
    block_cache_inv eq_refl block_view_ok demo_block_checked demo_extends demo_not_genesis demo_chain_ok E (step_inv _ _ _ Hs) (reflexivity _))
    as (d' & Ed & _ & Ev).
  exists c', idx', file', d'. split; [reflexivity|]. split; [exact Ed|exact Ev].
Defined.
