(* ===== verification/TxInputs.v ===== *)
(** * The rules for the inputs of a transaction, and the subsidy

    [Consensus::CheckTxInputs] of [main.cpp] accepts exactly the transactions whose inputs
    are unspent, mature and worth enough, and [GetBlockSubsidy] bounds the supply. *)

From stdpp Require Import gmap.
From S2P Require Import Prelude Script Interpreter InterpreterSafety Serialize Compressor Coins CoinsView CoinsViewProps Amount Upgrades Transaction Undo ChainState CacheSteps ChainStateProps.

Section Inputs.
Context `{CacheParamsLaws} {V : Type} `{!CCoinsView V} `{!CCoinsViewLaws V}.
Implicit Types c : CCoinsViewCache V.

(** An output of a coinbase can be spent after COINBASE_MATURITY blocks. *)
Definition mature (w : view) (nSpendHeight : Z) (p : bytes * Z) : Prop :=
  forall x, utxo w p.1 = Some x -> fCoinBase x = true -> COINBASE_MATURITY <= nSpendHeight - nHeight x.

Definition value_ok (w : view) (p : bytes * Z) : Prop :=
  forall o, CoinsViewProps.prevout w p = Some o -> MoneyRange (nValue o) = true.

(** The rules about the values of the inputs, for inputs that are unspent. *)
Definition values_ok (w : view) (nSpendHeight acc : Z) (ps : list (bytes * Z)) : Prop :=
  Forall (mature w nSpendHeight) ps /\ Forall (value_ok w) ps /\ acc + input_value w ps <= MAX_MONEY.

Lemma mature_proper w w' h p : w ≡ w' -> mature w h p <-> mature w' h p.
Proof. intros E. unfold mature. split; intros Hm x; [rewrite <- E|rewrite E]; apply Hm. Qed.
Lemma value_ok_proper w w' p : w ≡ w' -> value_ok w p <-> value_ok w' p.
Proof. intros E. unfold value_ok. split; intros Hm o; [rewrite <- E|rewrite E]; apply Hm. Qed.
Lemma values_ok_proper w w' h acc ps : w ≡ w' -> values_ok w h acc ps <-> values_ok w' h acc ps.
Proof.
  intros E. unfold values_ok. rewrite (input_value_proper w w' ps E).
  assert (Forall (mature w h) ps <-> Forall (mature w' h) ps) as -> by (apply Forall_iff; intros p; by apply mature_proper).
  by assert (Forall (value_ok w) ps <-> Forall (value_ok w') ps) as -> by (apply Forall_iff; intros p; by apply value_ok_proper).
Qed.

Lemma input_value_cons w p ps : input_value w (p :: ps) = default 0 (nValue <$> CoinsViewProps.prevout w p) + input_value w ps.
Proof. done. Qed.

Lemma input_value_nonneg w ps : Forall (value_ok w) ps -> 0 <= input_value w ps.
Proof.
  induction 1 as [|p ps Hp _ IH]; [done|]. rewrite input_value_cons. unfold value_ok in Hp. destruct (CoinsViewProps.prevout w p) as [o|]; cbn in *; [|lia].
  specialize (Hp o eq_refl). apply MoneyRange_spec in Hp. lia.
Qed.

(** The first input of the loop. *)
Lemma values_ok_cons w h acc p ps x o : utxo w p.1 = Some x -> CoinsViewProps.prevout w p = Some o -> 0 <= acc ->
  values_ok w h acc (p :: ps) <->
    (fCoinBase x = true -> COINBASE_MATURITY <= h - nHeight x) /\ MoneyRange (nValue o) = true /\ acc + nValue o <= MAX_MONEY /\
    values_ok w h (acc + nValue o) ps.
Proof.
  intros Ex Eo Ha. unfold values_ok. rewrite !Forall_cons, input_value_cons, Eo. cbn [fmap option_fmap option_map default from_option id].
  assert (mature w h p <-> (fCoinBase x = true -> COINBASE_MATURITY <= h - nHeight x)) as ->.
  { unfold mature. rewrite Ex. split; [by intros Hm; apply Hm|]. by intros Hm ? [= <-]. }
  assert (value_ok w p <-> MoneyRange (nValue o) = true) as ->.
  { unfold value_ok. rewrite Eo. split; [by intros Hm; apply Hm|]. by intros Hm ? [= <-]. }
  rewrite Z.add_assoc. split.
  - intros ([Hm Hms] & [Hv Hvs] & Hle). pose proof (input_value_nonneg _ _ Hvs). split; [done|]. split; [done|]. split; [lia|done].
  - intros (Hm & Hv & Hle & Hms & Hvs & Hle'). done.
Qed.

(** The loop over the inputs returns the sum exactly when the rules hold, and otherwise
    rejects. *)
Lemma input_values_loop_spec c vin h acc :
  let w := cache_view_of c in let ps := map (fun i => (op_hash (Transaction.prevout i), op_n (Transaction.prevout i))) vin in
  cache_inv c -> view_ok w -> 0 <= h <= INT32_MAX -> 0 <= acc <= MAX_MONEY ->
  Forall (fun p => is_Some (CoinsViewProps.prevout w p)) ps ->
  match input_values_loop c vin h acc with
  | Ok (v, c') => values_ok w h acc ps /\ v = acc + input_value w ps /\ cache_step c c' w
  | Err e => ~ values_ok w h acc ps /\ exists n r, e = Rejected n r
  end.
Proof.
  revert c acc. induction vin as [|i vin IH]; intros c acc w ps Hi Hw Hh Ha Hf; cbn [input_values_loop].
  { split; [split; [done|]; split; [done|cbn; lia]|]. split; [cbn; lia|by apply cache_step_refl]. }
  subst ps. cbn [map] in *. apply Forall_cons in Hf as [[o Ho] Hf].
  set (p := (op_hash (Transaction.prevout i), op_n (Transaction.prevout i))) in *. set (ps := map _ vin) in *.
  destruct (AccessCoins c p.1) as [r c1] eqn:E. destruct (AccessCoins_step _ _ _ _ Hi E) as [Hs Hl]. cbn [fst p] in E. rewrite E.
  assert (exists x, r = Some x /\ utxo w p.1 = Some x /\ znth (vout x) p.2 = Some o) as (x & -> & Ex & Ez).
  { unfold CoinsViewProps.prevout in Ho. fold w in Hl. destruct (utxo w p.1) as [x|] eqn:Eu; [|done]. cbn [mbind option_bind] in Ho.
    apply live_Some in Hl as [-> _]. exists x. split; [done|]. split; [done|]. by destruct (IsAvailable x p.2). }
  change (znth (vout x) (op_n (Transaction.prevout i))) with (znth (vout x) p.2). rewrite Ez.
  pose proof (values_ok_cons w h acc p ps x o Ex Ho ltac:(lia)) as Hcons.
  destruct (Hw _ _ Ex) as [Hx Hx0]. pose proof (coins_height _ Hx) as Hxh.
  rewrite s32_id by (unfold INT32_MIN, INT32_MAX in *; lia).
  destruct (fCoinBase x && (h - nHeight x <? COINBASE_MATURITY)) eqn:Ecb.
  { apply andb_prop in Ecb as [E1 E2]. split; [|by eexists _, _]. intros [Hm _]%Hcons. specialize (Hm E1). zbool. lia. }
  assert (fCoinBase x = true -> COINBASE_MATURITY <= h - nHeight x) as Hm by (intros E1; rewrite E1 in Ecb; cbn in Ecb; zbool; lia).
  destruct (MoneyRange (nValue o)) eqn:Ev; cbn [negb orb]; [|split; [by intros (_ & ? & _)%Hcons|by eexists _, _]].
  apply MoneyRange_spec in Ev as Hv. rewrite money_s64 by done.
  destruct (MoneyRange (acc + nValue o)) eqn:Es; cbn [negb].
  - apply MoneyRange_spec in Es. specialize (IH c1 (acc + nValue o) (step_inv _ _ _ Hs)). cbn zeta in IH. fold ps in IH.
    assert (cache_view_of c1 ≡ w) as Ew by apply Hs.
    pose proof (values_ok_proper _ w h (acc + nValue o) ps Ew) as Hprop. rewrite (input_value_proper _ w ps Ew) in IH.
    destruct (input_values_loop c1 vin h (acc + nValue o)) as [[v c']|e].
    + destruct IH as (Hvs%Hprop & -> & Hs'); [by rewrite Ew|done|done| |].
      { eapply Forall_impl; [exact Hf|]. intros q. cbv beta. by rewrite Ew. }
      split; [apply Hcons; split; [done|]; split; [done|]; split; [lia|done]|]. split; [rewrite input_value_cons, Ho; cbn [fmap option_fmap option_map default from_option id]; lia|].
      eapply cache_step_trans; [apply Hs|]. by rewrite <- Ew.
    + destruct IH as (Hnv & He); [by rewrite Ew|done|done| |].
      { eapply Forall_impl; [exact Hf|]. intros q. cbv beta. by rewrite Ew. }
      split; [|done]. by intros (_ & _ & _ & ?%Hprop)%Hcons.
  - split; [|by eexists _, _]. intros (_ & _ & Hle & _)%Hcons. apply not_true_iff_false in Es. apply Es, MoneyRange_spec. lia.
Qed.

(** The consensus rules for the inputs of a transaction on a coin set. *)
Record inputs_valid (w : view) (tx : CTransaction) (nSpendHeight : Z) : Prop := {
  iv_unspent : Forall (fun p => is_Some (CoinsViewProps.prevout w p)) (prevouts tx);
  iv_shielded : Forall (fun s => nullifier_spent w SAPLING s.1 = false /\ is_Some (anchor_tree w SAPLING s.2)) (spends tx);
  iv_mature : Forall (mature w nSpendHeight) (prevouts tx);
  iv_values : Forall (value_ok w) (prevouts tx);
  iv_outs : Forall (fun o => MoneyRange (nValue o) = true) (tx_vout tx);
  iv_balance : out_sum (tx_vout tx) + shielded_out tx <= input_value w (prevouts tx) + shielded_in tx <= MAX_MONEY
}.

Lemma check_amounts_spec tx v :
  Forall txout_ok (tx_vout tx) -> INT64_MIN <= tx_valueBalance tx <= INT64_MAX -> 0 <= v <= MAX_MONEY ->
  let valid := Forall (fun o => MoneyRange (nValue o) = true) (tx_vout tx) /\
               out_sum (tx_vout tx) + shielded_out tx <= v + shielded_in tx <= MAX_MONEY in
  match check_amounts tx v with Ok _ => valid | Err e => ~ valid /\ e <> Assertion end.
Proof.
  intros Hok Hbal Hv valid. unfold check_amounts.
  destruct (GetShieldedValueIn tx) as [si|] eqn:Esi; cbn [lift_value res_bind].
  2: { split; [|done]. intros [_ Hb]. assert (GetShieldedValueIn tx = Ok (shielded_in tx)); [|congruence].
       apply (value_sums_spec tx _ Hok Hbal). lia. }
  apply (value_sums_spec tx si Hok Hbal) in Esi as [-> Hsile].
  assert (0 <= shielded_in tx) as Hsin by (unfold shielded_in; lia). rewrite money_s64 by lia.
  destruct (MoneyRange (v + shielded_in tx)) eqn:Em; cbn [negb].
  2: { split; [|done]. intros [_ Hb]. apply not_true_iff_false in Em. apply Em, MoneyRange_spec. lia. }
  apply MoneyRange_spec in Em. destruct (GetValueOut tx) as [vo|] eqn:Evo; cbn [lift_value res_bind].
  2: { split; [|done]. intros [Ho Hb]. assert (GetValueOut tx = Ok (out_sum (tx_vout tx) + shielded_out tx)); [|congruence].
       apply (value_sums_spec tx _ Hok Hbal). split; [done|]. lia. }
  apply (value_sums_spec tx vo Hok Hbal) in Evo as (Houts & -> & Hvole).
  assert (0 <= out_sum (tx_vout tx) + shielded_out tx) as Hvo by (pose proof (out_sum_nonneg _ Houts); unfold shielded_out; lia).
  destruct (Z.ltb_spec (v + shielded_in tx) (out_sum (tx_vout tx) + shielded_out tx)).
  { split; [|done]. intros [_ Hb]. lia. }
  unfold valid, MAX_MONEY, COIN in *. rewrite s64_id by (unfold INT64_MIN, INT64_MAX; lia).
  destruct (Z.ltb_spec (v + shielded_in tx - (out_sum (tx_vout tx) + shielded_out tx)) 0); [lia|].
  rewrite s64_id by (unfold INT64_MIN, INT64_MAX; lia).
  rewrite (proj2 (MoneyRange_spec _)) by (unfold MAX_MONEY, COIN; lia). cbn [negb]. split; [done|lia].
Qed.

(** C13. [CheckTxInputs] accepts a transaction exactly when its inputs are unspent in the view,
    its nullifiers are new and its anchors known, coinbase outputs are mature, all values are
    in the money range and the outputs are worth no more than the inputs; it leaves the coin
    set unchanged and never fails an assertion: what it refuses is rejected, or has outputs
    whose sum throws. *)
Theorem CheckTxInputs_correct tx c h :
  cache_inv c -> view_ok (cache_view_of c) -> 0 <= h <= INT32_MAX -> IsCoinBase tx = false ->
  Forall txout_ok (tx_vout tx) -> INT64_MIN <= tx_valueBalance tx <= INT64_MAX ->
  match CheckTxInputs tx c h with
  | Ok c' => inputs_valid (cache_view_of c) tx h /\ cache_inv c' /\ cache_view_of c' ≡ cache_view_of c
  | Err e => ~ inputs_valid (cache_view_of c) tx h /\ e <> Assertion
  end.
Proof.
  intros Hi Hw Hh Hcb Hok Hbal. set (w := cache_view_of c) in *. unfold CheckTxInputs. rewrite Hcb.
  destruct (HaveInputs c false (prevouts tx)) as [b1 c1] eqn:E1.
  destruct (have_inputs_loop_spec c (prevouts tx) b1 c1 Hi E1) as (Hi1 & Ev1 & Hb1). fold w in Ev1, Hb1.
  destruct b1; cbn [negb]; [|split; [intros Hv; by apply iv_unspent, Hb1 in Hv|done]].
  destruct (HaveShieldedRequirements c1 (spends tx)) as [b2 c2] eqn:E2.
  destruct (shielded_requirements_spec c1 (spends tx) b2 c2 Hi1 E2) as (Hi2 & Ev2 & Hb2).
  assert (b2 = true <-> Forall (fun s => nullifier_spent w SAPLING s.1 = false /\ is_Some (anchor_tree w SAPLING s.2)) (spends tx)) as Hb2'.
  { rewrite Hb2. apply Forall_iff. intros s. by rewrite Ev1. }
  destruct b2; cbn [negb]; [|split; [intros Hv; by apply iv_shielded, Hb2' in Hv|done]].
  assert (cache_view_of c2 ≡ w) as Ew by (by rewrite Ev2, Ev1).
  pose proof (proj1 Hb1 eq_refl) as Hunspent. pose proof (proj1 Hb2' eq_refl) as Hshielded.
  pose proof (input_values_loop_spec c2 (tx_vin tx) h 0 Hi2) as Hl. cbn zeta in Hl. fold (prevouts tx) in Hl.
  pose proof (values_ok_proper _ w h 0 (prevouts tx) Ew) as Hprop. rewrite (input_value_proper _ w _ Ew) in Hl.
  specialize (Hl ltac:(by rewrite Ew) Hh ltac:(done) ltac:(eapply Forall_impl; [exact Hunspent|]; intros p; cbv beta; by rewrite Ew)).
  destruct (input_values_loop c2 (tx_vin tx) h 0) as [[v c3]|e].
  2: { destruct Hl as (Hnv & n & r & ->). split; [|done]. intros [_ _ Hm Hv _ Hb]. apply Hnv, Hprop.
       split; [done|]. split; [done|]. unfold shielded_in in Hb. lia. }
  destruct Hl as ((Hmat & Hval & Hle)%Hprop & -> & Hs3). cbn [res_bind fst snd]. rewrite !Z.add_0_l in *.
  pose proof (input_value_nonneg _ _ Hval) as Hnn.
  pose proof (check_amounts_spec tx (input_value w (prevouts tx)) Hok Hbal ltac:(lia)) as Ham. cbn zeta in Ham.
  destruct (check_amounts tx (input_value w (prevouts tx))) as [[]|e]; cbn [res_bind].
  - destruct Ham as [Houts Hb]. split; [by split|]. split; [apply Hs3|]. by rewrite (step_view _ _ _ Hs3).
  - destruct Ham as [Hnv He]. split; [|done]. intros [_ _ _ _ Ho Hb]. by apply Hnv.
Qed.

End Inputs.

(** ** The subsidy *)

(** The main network. *)
Definition main_subsidy (nHeight : Z) : Z := GetBlockSubsidy false 840000 nHeight.

(** What the blocks at heights 1 to [n] create. *)
Fixpoint issued (n : nat) : Z :=
  match n with
  | O => 0
  | S n => issued n + main_subsidy (Z.of_nat (S n))
  end.

Definition halved (k : Z) : Z := Z.shiftr (REWARD * COIN) k.
Definition halved_sum (k : nat) : Z := foldr Z.add 0 (map (fun j => halved (Z.of_nat j)) (seq 0 k)).

(** The schedule without the ingest blocks, up to height [n]. *)
Definition schedule (n : Z) : Z := 840000 * halved_sum (Z.to_nat (n / 840000)) + n mod 840000 * halved (n / 840000).

Lemma halved_sum_S k : halved_sum (S k) = halved_sum k + halved (Z.of_nat k).
Proof.
  unfold halved_sum. rewrite seq_S, map_app, foldr_app. cbn [foldr map Nat.add].
  assert (forall l y, foldr Z.add y l = foldr Z.add 0 l + y) as E by (intros l y; induction l; cbn; lia). rewrite E. lia.
Qed.

Lemma schedule_S n : 0 <= n -> schedule (n + 1) = schedule n + halved (n / 840000).
Proof.
  intros Hn. unfold schedule. pose proof (Z.div_mod n 840000 ltac:(lia)). pose proof (Z.mod_pos_bound n 840000 ltac:(lia)).
  destruct (decide (n mod 840000 = 839999)) as [E|Hne].
  - assert ((n + 1) / 840000 = n / 840000 + 1) as -> by (symmetry; apply (Z.div_unique _ _ _ 0); lia).
    assert ((n + 1) mod 840000 = 0) as -> by (symmetry; apply (Z.mod_unique _ _ (n / 840000 + 1)); lia).
    rewrite Z2Nat.inj_add by (lia || apply Z.div_pos; lia). rewrite Nat.add_1_r, halved_sum_S, Z2Nat.id by (apply Z.div_pos; lia). lia.
  - assert ((n + 1) / 840000 = n / 840000) as -> by (symmetry; apply (Z.div_unique _ _ _ (n mod 840000 + 1)); lia).
    assert ((n + 1) mod 840000 = n mod 840000 + 1) as -> by (symmetry; apply (Z.mod_unique _ _ (n / 840000)); lia). lia.
Qed.

(** The total the subsidies converge to. *)
Definition TOTAL_SUPPLY : Z := 2125594205660000.

Lemma halved_zero k : 30 <= k -> halved k = 0.
Proof.
  intros Hk. unfold halved. rewrite Z.shiftr_div_pow2 by lia. apply Z.div_small. split; [vm_compute; discriminate|].
  eapply Z.lt_le_trans; [|apply (Z.pow_le_mono_r 2 30); lia]. by vm_compute.
Qed.

Lemma halved_nonneg k : 0 <= halved k.
Proof. unfold halved. apply Z.shiftr_nonneg. by vm_compute. Qed.

Lemma halved_sum_limit k : halved_sum (30 + k) = halved_sum 30.
Proof.
  induction k as [|k IH]; [done|]. rewrite Nat.add_succ_r, halved_sum_S, IH, halved_zero by lia. lia.
Qed.

(** Beyond the ingest blocks the subsidy is the halved reward. *)
Lemma main_subsidy_halved n : 1001 <= n < 2 ^ 31 -> main_subsidy n = halved (n / 840000).
Proof.
  intros Hn. unfold main_subsidy, GetBlockSubsidy. rewrite u32_id by lia. cbn [negb andb].
  unfold TOP_INGEST_BLOCK, INGEST_MINING_BLOCK.
  destruct (Z.eqb_spec n 1); [lia|]. destruct (Z.ltb_spec n (1 + 1000)); [lia|].
  rewrite Z.quot_div_nonneg by lia. destruct (Z.geb_spec (n / 840000) 64); [|done]. by rewrite halved_zero by lia.
Qed.

Lemma issued_ingest : issued 1000 = INGEST_MINING_AMOUNT + 999 * INGEST_WAITING_AMOUNT.
Proof. vm_compute. reflexivity. Qed.

Lemma issued_schedule (n : nat) : (1000 <= n)%nat -> Z.of_nat n < 2 ^ 31 - 1 ->
  issued n = INGEST_MINING_AMOUNT + 999 * INGEST_WAITING_AMOUNT + schedule (Z.of_nat n + 1) - schedule 1001.
Proof.
  intros Hn Hb. induction n as [|n IH]; [lia|]. destruct (decide (S n = 1000)%nat) as [E|Hne].
  { rewrite E, issued_ingest. change (Z.of_nat 1000 + 1) with 1001. lia. }
  cbn [issued]. rewrite IH, main_subsidy_halved by lia. rewrite (schedule_S (Z.of_nat (S n))) by lia.
  replace (Z.of_nat n + 1) with (Z.of_nat (S n)) by lia. lia.
Qed.

Lemma main_subsidy_nonneg n : 0 <= n < 2 ^ 31 -> 0 <= main_subsidy n.
Proof.
  intros Hn. destruct (decide (1001 <= n)); [rewrite main_subsidy_halved by lia; apply halved_nonneg|].
  unfold main_subsidy, GetBlockSubsidy. rewrite u32_id by lia. cbn [negb andb].
  destruct (n =? _); [by vm_compute|]. unfold TOP_INGEST_BLOCK, INGEST_MINING_BLOCK.
  destruct (Z.ltb_spec n (1 + 1000)); [by vm_compute|lia].
Qed.

Lemma issued_mono (n m : nat) : (n <= m)%nat -> Z.of_nat m < 2 ^ 31 -> issued n <= issued m.
Proof.
  induction 1 as [|m Hle IH]; intros Hm; [lia|]. cbn [issued]. pose proof (main_subsidy_nonneg (Z.of_nat (S m)) ltac:(lia)). lia.
Qed.

Lemma issued_end (n : nat) : 30 * 840000 <= Z.of_nat n < 2 ^ 31 - 1 -> issued n = TOTAL_SUPPLY.
Proof.
  intros Hn. rewrite issued_schedule by lia. unfold schedule at 1. set (q := (Z.of_nat n + 1) / 840000).
  assert (30 <= q) as Hq by (apply Z.div_le_lower_bound; lia). rewrite (halved_zero q) by done.
  replace (Z.to_nat q) with (30 + (Z.to_nat q - 30))%nat by lia. rewrite halved_sum_limit, Z.mul_0_r. by vm_compute.
Qed.

(** C40. The supply: the subsidies of the main network are never negative, add up to exactly
    [TOTAL_SUPPLY] patoshis once all halvings are through and never exceed it.  The ingest
    block makes this total larger than [MAX_MONEY], the largest amount the money range check
    accepts, but it still fits the amount type. *)
Theorem supply_limit (n : nat) : Z.of_nat n < 2 ^ 31 - 1 ->
  0 <= issued n <= TOTAL_SUPPLY /\ (30 * 840000 <= Z.of_nat n -> issued n = TOTAL_SUPPLY) /\
  MAX_MONEY < TOTAL_SUPPLY <= INT64_MAX.
Proof.
  intros Hn. split; [|split; [intros; by apply issued_end|by vm_compute]]. split.
  - apply (issued_mono 0 n); lia.
  - destruct (decide (30 * 840000 <= Z.of_nat n)); [by rewrite issued_end by lia|].
    rewrite <- (issued_end (Z.to_nat (30 * 840000))) by (rewrite Z2Nat.id; lia).
    apply issued_mono; rewrite ?Z2Nat.id; lia.
Qed.

Lemma supply_limit_witness : issued (Z.to_nat 30000000) = TOTAL_SUPPLY.
Proof.
  destruct (supply_limit (Z.to_nat 30000000)) as (_ & E & _); [rewrite Z2Nat.id; lia|].
  apply E. rewrite Z2Nat.id; lia.
Defined.

(** ** A concrete transaction *)

#[local] Existing Instance block_params.
#[local] Existing Instance block_params_laws.

Lemma CheckTxInputs_correct_witness :
  inputs_valid (cache_view_of block_cache) demo_spending 200001 /\ ~ inputs_valid (cache_view_of block_cache) demo_spending 150.
Proof.
  assert (Forall txout_ok (tx_vout demo_spending)) as Hok by (repeat constructor; vm_compute; congruence).
  split.
  - pose proof (CheckTxInputs_correct demo_spending block_cache 200001 block_cache_inv block_view_ok ltac:(by vm_compute) eq_refl Hok
      ltac:(by vm_compute)) as Hc.
    assert (is_ok (CheckTxInputs demo_spending block_cache 200001) = true) as E by (vm_compute; reflexivity).
    destruct (CheckTxInputs demo_spending block_cache 200001); [exact (proj1 Hc)|discriminate E].
  - pose proof (CheckTxInputs_correct demo_spending block_cache 150 block_cache_inv block_view_ok ltac:(by vm_compute) eq_refl Hok
      ltac:(by vm_compute)) as Hc.
    assert (is_ok (CheckTxInputs demo_spending block_cache 150) = false) as E by (vm_compute; reflexivity).
    destruct (CheckTxInputs demo_spending block_cache 150); [discriminate E|exact (proj1 Hc)].
Defined.
