(* ===== verification/SigHash.v ===== *)
(** * Signature hashes and signature checkers

    [SignatureHash] of [script/interpreter.cpp] with its three digest algorithms, the checker
    of transaction signatures that runs it, and the cache of valid signatures of
    [script/sigcache.cpp].

    BLAKE2b ([crypto_generichash_blake2b], with the personalization) and the ECDSA
    verification of libsecp256k1 are parameters. *)

From Stdlib Require Import String Ascii.
From stdpp Require Import gmap.
From S2P Require Import Prelude Script Interpreter Serialize Compressor Coins Amount Transaction.

Class SigCrypto := {
  blake2b : bytes -> bytes -> bytes;             (* personalization, data *)
  pubkey_Verify : bytes -> bytes -> bytes -> bool  (* key, hash, signature *)
}.
Class SigCryptoLaws (C : SigCrypto) := { blake2b_len : forall p x, length (blake2b p x) = 32%nat }.

(** Character constants as bytes. *)
Definition chars (s : string) : bytes := map (fun c => Z.of_N (N_of_ascii c)) (list_ascii_of_string s).

Definition NOT_AN_INPUT : Z := UINT32_MAX.
Definition zero_digest : bytes := replicate 32 0.

(** A [logic_error], or behaviour that is not defined: an access outside a vector. *)
Inductive sighash_fail : Set := logic_error | undefined.

Definition at_index {A : Type} (l : list A) (i : Z) : res sighash_fail A :=
  match znth l i with Some x => Ok x | None => Err undefined end.

(** ** The serializer of transactions before Overwinter *)

(** [CTransactionSignatureSerializer] *)
Record sig_serializer := {
  txTo : CTransaction;
  scriptCode : bytes;
  nIn : Z;
  fAnyoneCanPay : bool;
  fHashSingle : bool;
  fHashNone : bool
}.
Definition new_serializer (tx : CTransaction) (script : bytes) (n nHashType : Z) : sig_serializer := {|
  txTo := tx; scriptCode := script; nIn := n;
  fAnyoneCanPay := negb (Z.land nHashType SIGHASH_ANYONECANPAY =? 0);
  fHashSingle := Z.land nHashType 0x1f =? SIGHASH_SINGLE;
  fHashNone := Z.land nHashType 0x1f =? SIGHASH_NONE
|}.

Definition SerializeScriptCode (s : sig_serializer) : bytes := WriteCompactSize [] (zlen (scriptCode s)) ++ scriptCode s.

Definition SerializeInput (s : sig_serializer) (nInput : Z) : res sighash_fail bytes :=
  let nInput := if fAnyoneCanPay s then nIn s else nInput in
  let? i := at_index (tx_vin (txTo s)) nInput in
  check negb (nInput =? NOT_AN_INPUT) else undefined ;;
  Ok (ser_outpoint (prevout i)
      ++ (if negb (nInput =? nIn s) then ser_bytes [] else SerializeScriptCode s)
      ++ (if negb (nInput =? nIn s) && (fHashSingle s || fHashNone s) then ser_u32 0 else ser_u32 (nSequence i))).

Definition SerializeOutput (s : sig_serializer) (nOutput : Z) : res sighash_fail bytes :=
  if fHashSingle s && negb (nOutput =? nIn s) then Ok (ser_txout null_txout)
  else let? o := at_index (tx_vout (txTo s)) nOutput in Ok (ser_txout o).

(** The loops over inputs and outputs: indices from [i], [n] of them. *)
Fixpoint ser_loop (f : Z -> res sighash_fail bytes) (n : nat) (i : Z) : res sighash_fail bytes :=
  match n with
  | O => Ok []
  | S n =>
      let? b := f i in
      let? r := ser_loop f n (i + 1) in
      Ok (b ++ r)
  end.

Definition sig_Serialize (s : sig_serializer) : res sighash_fail bytes :=
  let nInputs := if fAnyoneCanPay s then 1 else zlen (tx_vin (txTo s)) in
  let nOutputs := if fHashNone s then 0 else if fHashSingle s then u32 (nIn s + 1) else zlen (tx_vout (txTo s)) in
  let? ins := ser_loop (SerializeInput s) (Z.to_nat nInputs) 0 in
  let? outs := ser_loop (SerializeOutput s) (Z.to_nat nOutputs) 0 in
  Ok (ser_u32 (tx_nVersion (txTo s))
      ++ WriteCompactSize [] nInputs ++ ins
      ++ WriteCompactSize [] nOutputs ++ outs
      ++ ser_u32 (tx_nLockTime (txTo s))
      ++ (if tx_nVersion (txTo s) >=? 2 then ser_vector ser_u32 [] else [])).

(** ** The digests of the later versions *)

Section SignatureHash.
Context `{Crypto} `{SigCrypto}.

Definition ZCASH_PREVOUTS_HASH_PERSONALIZATION : bytes := chars "ZcashPrevoutHash".
Definition ZCASH_SEQUENCE_HASH_PERSONALIZATION : bytes := chars "ZcashSequencHash".
Definition ZCASH_OUTPUTS_HASH_PERSONALIZATION : bytes := chars "ZcashOutputsHash".
Definition ZCASH_SHIELDED_SPENDS_HASH_PERSONALIZATION : bytes := chars "ZcashSSpendsHash".
Definition ZCASH_SHIELDED_OUTPUTS_HASH_PERSONALIZATION : bytes := chars "ZcashSOutputHash".

Definition GetPrevoutHash (tx : CTransaction) : bytes :=
  blake2b ZCASH_PREVOUTS_HASH_PERSONALIZATION (concat (map (fun i => ser_outpoint (prevout i)) (tx_vin tx))).
Definition GetSequenceHash (tx : CTransaction) : bytes :=
  blake2b ZCASH_SEQUENCE_HASH_PERSONALIZATION (concat (map (fun i => ser_u32 (nSequence i)) (tx_vin tx))).
Definition GetOutputsHash (tx : CTransaction) : bytes :=
  blake2b ZCASH_OUTPUTS_HASH_PERSONALIZATION (concat (map ser_txout (tx_vout tx))).
Definition GetShieldedSpendsHash (tx : CTransaction) : bytes :=
  blake2b ZCASH_SHIELDED_SPENDS_HASH_PERSONALIZATION
    (concat (map (fun d => sd_cv d ++ sd_anchor d ++ sd_nullifier d ++ sd_rk d ++ sd_zkproof d) (tx_vShieldedSpend tx))).
Definition GetShieldedOutputsHash (tx : CTransaction) : bytes :=
  blake2b ZCASH_SHIELDED_OUTPUTS_HASH_PERSONALIZATION (concat (map ser_output (tx_vShieldedOutput tx))).

Record PrecomputedTransactionData := {
  hashPrevouts : bytes; hashSequence : bytes; hashOutputs : bytes; hashShieldedSpends : bytes; hashShieldedOutputs : bytes
}.
Definition precompute (tx : CTransaction) : PrecomputedTransactionData := {|
  hashPrevouts := GetPrevoutHash tx; hashSequence := GetSequenceHash tx; hashOutputs := GetOutputsHash tx;
  hashShieldedSpends := GetShieldedSpendsHash tx; hashShieldedOutputs := GetShieldedOutputsHash tx
|}.

(** [cache ? cache->field : computed] *)
Definition cached (cache : option PrecomputedTransactionData) (field : PrecomputedTransactionData -> bytes) (computed : bytes) : bytes :=
  match cache with Some c => field c | None => computed end.

Inductive SigVersion : Set := SIGVERSION_SPROUT | SIGVERSION_OVERWINTER | SIGVERSION_SAPLING.
#[export] Instance SigVersion_eq_dec : EqDecision SigVersion.
Proof. solve_decision. Defined.

Definition SignatureHashVersion (tx : CTransaction) : SigVersion :=
  if tx_fOverwintered tx then
    if tx_nVersionGroupId tx =? SAPLING_VERSION_GROUP_ID then SIGVERSION_SAPLING else SIGVERSION_OVERWINTER
  else SIGVERSION_SPROUT.

Definition SignatureHash (scriptCode : bytes) (txTo : CTransaction) (nIn nHashType amount consensusBranchId : Z)
    (cache : option PrecomputedTransactionData) : res sighash_fail bytes :=
  if (nIn >=? zlen (tx_vin txTo)) && negb (nIn =? NOT_AN_INPUT) then Err logic_error
  else
    let sigversion := SignatureHashVersion txTo in
    let fHashAnyOneCanPay := negb (Z.land nHashType SIGHASH_ANYONECANPAY =? 0) in
    let fIsHashSingle := Z.land nHashType 0x1f =? SIGHASH_SINGLE in
    let fIsHashNone := Z.land nHashType 0x1f =? SIGHASH_NONE in
    if bool_decide (sigversion = SIGVERSION_OVERWINTER \/ sigversion = SIGVERSION_SAPLING) then
      let sapling := bool_decide (sigversion = SIGVERSION_SAPLING) in
      let prevouts := if negb fHashAnyOneCanPay then cached cache hashPrevouts (GetPrevoutHash txTo) else zero_digest in
      let sequence := if negb fHashAnyOneCanPay && negb fIsHashSingle && negb fIsHashNone
                      then cached cache hashSequence (GetSequenceHash txTo) else zero_digest in
      let? outputs := (if negb fIsHashSingle && negb fIsHashNone then Ok (cached cache hashOutputs (GetOutputsHash txTo))
                       else if fIsHashSingle && (nIn <? zlen (tx_vout txTo)) then
                         let? o := at_index (tx_vout txTo) nIn in
                         Ok (blake2b ZCASH_OUTPUTS_HASH_PERSONALIZATION (ser_txout o))
                       else Ok zero_digest) in
      let spends := if negb (is_nil (tx_vShieldedSpend txTo))
                    then cached cache hashShieldedSpends (GetShieldedSpendsHash txTo) else zero_digest in
      let shielded_outputs := if negb (is_nil (tx_vShieldedOutput txTo))
                              then cached cache hashShieldedOutputs (GetShieldedOutputsHash txTo) else zero_digest in
      let personalization := chars "ZcashSigHash" ++ ser_u32 consensusBranchId in
      let? input := (if negb (nIn =? NOT_AN_INPUT) then
                       let? i := at_index (tx_vin txTo) nIn in
                       Ok (ser_outpoint (prevout i) ++ ser_bytes scriptCode ++ ser_i64 amount ++ ser_u32 (nSequence i))
                     else Ok []) in
      Ok (blake2b personalization (
        ser_u32 (GetHeader txTo)
        ++ ser_u32 (tx_nVersionGroupId txTo)
        ++ prevouts ++ sequence ++ outputs ++ zero_digest
        ++ (if sapling then spends ++ shielded_outputs else [])
        ++ ser_u32 (tx_nLockTime txTo)
        ++ ser_u32 (tx_nExpiryHeight txTo)
        ++ (if sapling then ser_i64 (tx_valueBalance txTo) else [])
        ++ ser_u32 nHashType
        ++ input))
    else if fIsHashSingle && (nIn >=? zlen (tx_vout txTo)) then Err logic_error
    else
      let? s := sig_Serialize (new_serializer txTo scriptCode nIn nHashType) in
      Ok (hash256 (s ++ ser_u32 nHashType)).

(** ** The checker *)

(** [TransactionSignatureChecker::CheckSig], with the verification of a signature by a key for
    a hash as an argument: a subclass overrides it. *)
Definition tx_CheckSig (VerifySignature : bytes -> bytes -> bytes -> bool) (txTo : CTransaction) (nIn amount : Z)
    (txdata : option PrecomputedTransactionData) (vchSigIn vchPubKey scriptCode : bytes) (consensusBranchId : Z) : bool :=
  match pubkey_set vchPubKey with
  | None => false
  | Some pubkey =>
      match last vchSigIn with
      | None => false
      | Some nHashType =>
          let vchSig := removelast vchSigIn in
          match SignatureHash scriptCode txTo nIn nHashType amount consensusBranchId txdata with
          | Err _ => false
          | Ok sighash => VerifySignature vchSig pubkey sighash
          end
      end
  end.

(** [TransactionSignatureChecker]; the interpreter runs it for an existing input. *)
Definition TransactionSignatureChecker (txTo : CTransaction) (nIn amount : Z) (txdata : option PrecomputedTransactionData)
  : BaseSignatureChecker := {|
  CheckSig := tx_CheckSig (fun vchSig pubkey sighash => pubkey_Verify pubkey sighash vchSig) txTo nIn amount txdata;
  CheckLockTime := fun nLockTime =>
    match znth (tx_vin txTo) nIn with
    | None => false
    | Some i => tx_CheckLockTime (tx_nLockTime txTo) (nSequence i) nLockTime
    end
|}.
End SignatureHash.

(** ** The cache of valid signatures *)

(** [CSignatureCache] *)
Record CSignatureCache := { nonce : bytes; setValid : gset bytes }.

Section SigCache.
Context `{Crypto} `{SigCrypto}.

Definition ComputeEntry (c : CSignatureCache) (hash vchSig pubkey : bytes) : bytes := sha256 (nonce c ++ hash ++ pubkey ++ vchSig).
Definition cache_Get (c : CSignatureCache) (entry : bytes) : bool := bool_decide (entry ∈ setValid c).
Definition cache_Erase (c : CSignatureCache) (entry : bytes) : CSignatureCache :=
  {| nonce := nonce c; setValid := setValid c ∖ {[entry]} |}.

(** [Set]: [evicted] are the entries the loop removes, at random, until the set is small
    enough. *)
Definition cache_Set (c : CSignatureCache) (nMaxCacheSize : Z) (evicted : gset bytes) (entry : bytes) : CSignatureCache :=
  if nMaxCacheSize <=? 0 then c
  else {| nonce := nonce c; setValid := (setValid c ∖ evicted) ∪ {[entry]} |}.

(** A call of [CachingTransactionSignatureChecker::VerifySignature], with what happens to be
    evicted. *)
Record verify_call := {
  v_store : bool; v_max : Z; v_evicted : gset bytes; v_sig : bytes; v_key : bytes; v_hash : bytes
}.

Definition caching_VerifySignature (c : CSignatureCache) (q : verify_call) : bool * CSignatureCache :=
  let entry := ComputeEntry c (v_hash q) (v_sig q) (v_key q) in
  if cache_Get c entry then (true, if negb (v_store q) then cache_Erase c entry else c)
  else if negb (pubkey_Verify (v_key q) (v_hash q) (v_sig q)) then (false, c)
  else (true, if v_store q then cache_Set c (v_max q) (v_evicted q) entry else c).

Fixpoint verify_all (c : CSignatureCache) (qs : list verify_call) : list bool * CSignatureCache :=
  match qs with
  | [] => ([], c)
  | q :: qs =>
      let r := caching_VerifySignature c q in
      let rs := verify_all r.2 qs in
      (r.1 :: rs.1, rs.2)
  end.
End SigCache.
