(* ===== verification/SigHashProps.v ===== *)
(** * What signatures commit to

    The data a signature of each hash type covers ([signed_data]), the proof that
    [SignatureHash] computes a digest of exactly these data, and the transparency of the
    signature cache. *)

From Stdlib Require Import String.
From stdpp Require Import gmap.
From S2P Require Import Prelude Script Interpreter Serialize Compressor Coins Amount Transaction SigHash.

(** ** What a signature commits to *)

Inductive signed_outputs : Type :=
| NoOutputs
| OneOutput (o : CTxOut)
| AllOutputs (l : list CTxOut).

(** A spend without its own signature. *)
Definition spend_parts (d : SpendDescription) : bytes * bytes * bytes * bytes * bytes :=
  (sd_cv d, sd_anchor d, sd_nullifier d, sd_rk d, sd_zkproof d).

(** The data signed since Overwinter; the shielded fields are there for Sapling only. *)
Record signed_parts := {
  g_branch : Z;
  g_sapling : bool;
  g_header : Z;
  g_group : Z;
  g_prevouts : option (list COutPoint);
  g_sequences : option (list Z);
  g_outputs : signed_outputs;
  g_spends : list (bytes * bytes * bytes * bytes * bytes);
  g_shielded : list OutputDescription;
  g_lock : Z;
  g_expiry : Z;
  g_balance : Z;
  g_type : Z;
  g_input : option (COutPoint * bytes * Z * Z)   (* prevout, script code, amount, sequence number *)
}.

(** Before Overwinter: a transaction in which scripts, sequence numbers and outputs are
    blanked by the hash type. *)
Inductive signed : Type :=
| SignedTx (version : Z) (ins : list CTxIn) (outs : list CTxOut) (lock type : Z)
| SignedParts (p : signed_parts).

Record sig_request := { r_script : bytes; r_tx : CTransaction; r_in : Z; r_type : Z; r_amount : Z; r_branch : Z }.

Definition anyone_can_pay (ty : Z) : bool := negb (Z.land ty SIGHASH_ANYONECANPAY =? 0).
Definition is_single (ty : Z) : bool := Z.land ty 0x1f =? SIGHASH_SINGLE.
Definition is_none (ty : Z) : bool := Z.land ty 0x1f =? SIGHASH_NONE.

Definition blank_input (r : sig_request) (k : Z) (i : CTxIn) : CTxIn :=
  if k =? r_in r then {| prevout := prevout i; scriptSig := r_script r; nSequence := nSequence i |}
  else {| prevout := prevout i; scriptSig := [];
          nSequence := if is_single (r_type r) || is_none (r_type r) then 0 else nSequence i |}.

Definition blanked_ins (r : sig_request) : list CTxIn :=
  if anyone_can_pay (r_type r) then
    match znth (tx_vin (r_tx r)) (r_in r) with Some i => [blank_input r (r_in r) i] | None => [] end
  else imap (fun k i => blank_input r (Z.of_nat k) i) (tx_vin (r_tx r)).

Definition blanked_outs (r : sig_request) : list CTxOut :=
  if is_none (r_type r) then []
  else if is_single (r_type r) then
    match znth (tx_vout (r_tx r)) (r_in r) with Some o => replicate (Z.to_nat (r_in r)) null_txout ++ [o] | None => [] end
  else tx_vout (r_tx r).

Definition parts_of (r : sig_request) : signed_parts :=
  let tx := r_tx r in let ty := r_type r in
  let sapling := tx_nVersionGroupId tx =? SAPLING_VERSION_GROUP_ID in
  {| g_branch := r_branch r; g_sapling := sapling; g_header := GetHeader tx; g_group := tx_nVersionGroupId tx;
     g_prevouts := if anyone_can_pay ty then None else Some (map prevout (tx_vin tx));
     g_sequences := if anyone_can_pay ty || is_single ty || is_none ty then None else Some (map nSequence (tx_vin tx));
     g_outputs := if is_none ty then NoOutputs
                  else if is_single ty then match znth (tx_vout tx) (r_in r) with Some o => OneOutput o | None => NoOutputs end
                  else AllOutputs (tx_vout tx);
     g_spends := if sapling then map spend_parts (tx_vShieldedSpend tx) else [];
     g_shielded := if sapling then tx_vShieldedOutput tx else [];
     g_lock := tx_nLockTime tx; g_expiry := tx_nExpiryHeight tx;
     g_balance := if sapling then tx_valueBalance tx else 0;
     g_type := ty;
     g_input := match znth (tx_vin tx) (r_in r) with
                | Some i => if r_in r =? NOT_AN_INPUT then None else Some (prevout i, r_script r, r_amount r, nSequence i)
                | None => None
                end |}.

(** [None]: the code throws. *)
Definition signed_data (r : sig_request) : option signed :=
  let tx := r_tx r in
  if (zlen (tx_vin tx) <=? r_in r) && negb (r_in r =? NOT_AN_INPUT) then None
  else if tx_fOverwintered tx then Some (SignedParts (parts_of r))
  else if is_single (r_type r) && (zlen (tx_vout tx) <=? r_in r) then None
  else Some (SignedTx (tx_nVersion tx) (blanked_ins r) (blanked_outs r) (tx_nLockTime tx) (r_type r)).

(** *** Its digest *)

Inductive hash_call : Type := Blake (p d : bytes) | Sha (d : bytes).

Section Digest.
Context `{Crypto} `{SigCrypto}.

Definition digest (c : hash_call) : bytes :=
  match c with Blake p d => blake2b p d | Sha d => hash256 d end.
Definition digest_opt (c : option hash_call) : bytes :=
  match c with Some c => digest c | None => zero_digest end.

Definition prevouts_call (p : signed_parts) : option hash_call :=
  l ← g_prevouts p; Some (Blake ZCASH_PREVOUTS_HASH_PERSONALIZATION (concat (map ser_outpoint l))).
Definition sequences_call (p : signed_parts) : option hash_call :=
  l ← g_sequences p; Some (Blake ZCASH_SEQUENCE_HASH_PERSONALIZATION (concat (map ser_u32 l))).
Definition outputs_call (p : signed_parts) : option hash_call :=
  match g_outputs p with
  | NoOutputs => None
  | OneOutput o => Some (Blake ZCASH_OUTPUTS_HASH_PERSONALIZATION (ser_txout o))
  | AllOutputs l => Some (Blake ZCASH_OUTPUTS_HASH_PERSONALIZATION (concat (map ser_txout l)))
  end.
Definition ser_parts (d : bytes * bytes * bytes * bytes * bytes) : bytes :=
  let '(cv, anchor, nullifier, rk, zkproof) := d in cv ++ anchor ++ nullifier ++ rk ++ zkproof.
Definition spends_call (p : signed_parts) : option hash_call :=
  if is_nil (g_spends p) then None
  else Some (Blake ZCASH_SHIELDED_SPENDS_HASH_PERSONALIZATION (concat (map ser_parts (g_spends p)))).
Definition shielded_call (p : signed_parts) : option hash_call :=
  if is_nil (g_shielded p) then None
  else Some (Blake ZCASH_SHIELDED_OUTPUTS_HASH_PERSONALIZATION (concat (map ser_output (g_shielded p)))).

Definition ser_input (i : COutPoint * bytes * Z * Z) : bytes :=
  let '(o, script, amount, seq) := i in ser_outpoint o ++ ser_bytes script ++ ser_i64 amount ++ ser_u32 seq.

Definition parts_data (p : signed_parts) : bytes :=
  ser_u32 (g_header p) ++ ser_u32 (g_group p)
  ++ digest_opt (prevouts_call p) ++ digest_opt (sequences_call p) ++ digest_opt (outputs_call p) ++ zero_digest
  ++ (if g_sapling p then digest_opt (spends_call p) ++ digest_opt (shielded_call p) else [])
  ++ ser_u32 (g_lock p) ++ ser_u32 (g_expiry p)
  ++ (if g_sapling p then ser_i64 (g_balance p) else [])
  ++ ser_u32 (g_type p)
  ++ match g_input p with Some i => ser_input i | None => [] end.

Definition signed_call (s : signed) : hash_call :=
  match s with
  | SignedTx version ins outs lock type =>
      Sha (ser_u32 version ++ ser_vector ser_txin ins ++ ser_vector ser_txout outs ++ ser_u32 lock
           ++ (if version >=? 2 then ser_vector ser_u32 [] else []) ++ ser_u32 type)
  | SignedParts p => Blake (chars "ZcashSigHash" ++ ser_u32 (g_branch p)) (parts_data p)
  end.

(** Everything that is hashed for a signature. *)
Definition calls (s : signed) : list hash_call :=
  signed_call s ::
  match s with
  | SignedTx _ _ _ _ _ => []
  | SignedParts p => omap id [prevouts_call p; sequences_call p; outputs_call p; spends_call p; shielded_call p]
  end.

(** No two of the hashed strings have the same digest, and none has the digest zero. *)
Definition collision_free (cs : list hash_call) : Prop :=
  (forall a b, a ∈ cs -> b ∈ cs -> digest a = digest b -> a = b) /\ (forall a, a ∈ cs -> digest a <> zero_digest).

Record request_ok (r : sig_request) : Prop := {
  ro_tx : tx_wf (r_tx r);
  ro_script : zlen (r_script r) <= MAX_DATA_SIZE;
  ro_in : 0 <= r_in r < 2 ^ 32;
  ro_old : tx_fOverwintered (r_tx r) = false -> r_in r <> NOT_AN_INPUT;
  ro_type : 0 <= r_type r < 2 ^ 8;
  ro_amount : INT64_MIN <= r_amount r <= INT64_MAX;
  ro_branch : 0 <= r_branch r < 2 ^ 32
}.
End Digest.

(** ** The code computes the digest of the signed data *)

Section Refinement.
Context `{Crypto} `{SigCrypto}.

Lemma ser_loop_list {A} (f : Z -> res sighash_fail bytes) (g : A -> bytes) (l : list A) i :
  (forall k x, l !! k = Some x -> f (i + Z.of_nat k) = Ok (g x)) -> ser_loop f (length l) i = Ok (concat (map g l)).
Proof.
  revert i. induction l as [|x l IH]; intros i Hf; [done|]. cbn [length ser_loop map concat].
  pose proof (Hf 0%nat x eq_refl) as E0. rewrite Z.add_0_r in E0. rewrite E0. cbn [res_bind].
  rewrite IH; [done|]. intros k y Hk. rewrite <- (Hf (S k) y Hk). f_equal. lia.
Qed.

Lemma znth_lt {A} (l : list A) i : 0 <= i < zlen l -> exists x, znth l i = Some x /\ l !! Z.to_nat i = Some x.
Proof.
  intros Hi. unfold znth. destruct (Z.ltb_spec i 0); [lia|].
  destruct (lookup_lt_is_Some_2 l (Z.to_nat i)) as [x Hx]; [unfold zlen in *; lia|]. by exists x.
Qed.
Lemma znth_ge {A} (l : list A) i : zlen l <= i -> znth l i = None.
Proof. intros Hi. unfold znth. destruct (i <? 0); [done|]. apply lookup_ge_None_2. unfold zlen in *. lia. Qed.
Lemma znth_nat {A} (l : list A) (k : nat) : znth l (Z.of_nat k) = l !! k.
Proof. unfold znth. destruct (Z.ltb_spec (Z.of_nat k) 0); [lia|]. by rewrite Nat2Z.id. Qed.

Lemma SerializeInput_blank r k i : tx_vin (r_tx r) !! k = Some i -> anyone_can_pay (r_type r) = false ->
  Z.of_nat k <> NOT_AN_INPUT ->
  SerializeInput (new_serializer (r_tx r) (r_script r) (r_in r) (r_type r)) (Z.of_nat k) = Ok (ser_txin (blank_input r (Z.of_nat k) i)).
Proof.
  intros Hk Ha Hn. unfold SerializeInput, at_index. cbn [new_serializer fAnyoneCanPay txTo nIn].
  unfold anyone_can_pay in Ha. rewrite Ha, znth_nat, Hk. cbn [res_bind].
  rewrite (proj2 (Z.eqb_neq _ _) Hn). cbn [guard_err negb res_bind]. unfold ser_txin, blank_input, SerializeScriptCode.
  cbn [new_serializer fHashSingle fHashNone scriptCode]. fold (is_single (r_type r)) (is_none (r_type r)).
  destruct (Z.of_nat k =? r_in r); cbn [negb andb prevout scriptSig nSequence]; [done|]. by destruct (is_single _ || is_none _).
Qed.

Lemma SerializeInput_only r i : znth (tx_vin (r_tx r)) (r_in r) = Some i -> anyone_can_pay (r_type r) = true ->
  r_in r <> NOT_AN_INPUT ->
  SerializeInput (new_serializer (r_tx r) (r_script r) (r_in r) (r_type r)) 0 = Ok (ser_txin (blank_input r (r_in r) i)).
Proof.
  intros Hk Ha Hn. unfold SerializeInput, at_index. cbn [new_serializer fAnyoneCanPay txTo nIn].
  unfold anyone_can_pay in Ha. rewrite Ha, Hk. cbn [res_bind].
  rewrite (proj2 (Z.eqb_neq _ _) Hn). cbn [guard_err negb res_bind]. unfold ser_txin, blank_input, SerializeScriptCode.
  by rewrite Z.eqb_refl.
Qed.

(** The numbers of inputs and outputs the serializer writes. *)
Definition n_inputs (r : sig_request) : Z := if anyone_can_pay (r_type r) then 1 else zlen (tx_vin (r_tx r)).
Definition n_outputs (r : sig_request) : Z :=
  if is_none (r_type r) then 0 else if is_single (r_type r) then u32 (r_in r + 1) else zlen (tx_vout (r_tx r)).

Lemma ser_inputs r : request_ok r -> r_in r <> NOT_AN_INPUT -> r_in r < zlen (tx_vin (r_tx r)) ->
  ser_loop (SerializeInput (new_serializer (r_tx r) (r_script r) (r_in r) (r_type r))) (Z.to_nat (n_inputs r)) 0
    = Ok (concat (map ser_txin (blanked_ins r))) /\ n_inputs r = zlen (blanked_ins r).
Proof.
  intros Hr Hn Hin. destruct (ro_in _ Hr) as [Hlo Hhi]. unfold n_inputs, blanked_ins. destruct (anyone_can_pay (r_type r)) eqn:Ha.
  - destruct (znth_lt (tx_vin (r_tx r)) (r_in r) ltac:(lia)) as (i & Hi & _). rewrite Hi. split; [|done].
    change (Z.to_nat 1) with 1%nat. cbn [ser_loop map concat]. by rewrite (SerializeInput_only r i Hi Ha Hn).
  - split; [|unfold zlen; by rewrite length_imap].
    unfold zlen. rewrite Nat2Z.id, <- (length_imap (fun k i => blank_input r (Z.of_nat k) i) (tx_vin (r_tx r))).
    apply ser_loop_list. intros k x Hk. rewrite list_lookup_imap in Hk. apply fmap_Some in Hk as (i & Hi & ->).
    rewrite Z.add_0_l. apply SerializeInput_blank; [done..|]. apply lookup_lt_Some in Hi.
    pose proof (proj1 (wf_vin _ (ro_tx _ Hr))). unfold zlen, MAX_DATA_SIZE, NOT_AN_INPUT, UINT32_MAX in *. lia.
Qed.

Lemma SerializeOutput_single r o k x : is_single (r_type r) = true -> znth (tx_vout (r_tx r)) (r_in r) = Some o -> 0 <= r_in r ->
  (replicate (Z.to_nat (r_in r)) null_txout ++ [o]) !! k = Some x ->
  SerializeOutput (new_serializer (r_tx r) (r_script r) (r_in r) (r_type r)) (Z.of_nat k) = Ok (ser_txout x).
Proof.
  intros Hs Ho Hlo Hk. unfold SerializeOutput. cbn [new_serializer fHashSingle nIn txTo]. fold (is_single (r_type r)). rewrite Hs.
  cbn [andb]. destruct (Z.eqb_spec (Z.of_nat k) (r_in r)) as [Ek|Nk]; cbn [negb].
  - rewrite <- Ek, Nat2Z.id, lookup_app_r in Hk by (rewrite length_replicate; lia).
    rewrite length_replicate, Nat.sub_diag in Hk. injection Hk as <-. unfold at_index. by rewrite Ek, Ho.
  - destruct (decide (k < Z.to_nat (r_in r))%nat).
    + rewrite lookup_app_l in Hk by (rewrite length_replicate; lia). by apply lookup_replicate in Hk as [-> _].
    + apply lookup_lt_Some in Hk. rewrite length_app, length_replicate in Hk. cbn [length] in Hk. lia.
Qed.

Lemma ser_outputs r : request_ok r -> r_in r <> NOT_AN_INPUT -> (is_single (r_type r) = true -> r_in r < zlen (tx_vout (r_tx r))) ->
  ser_loop (SerializeOutput (new_serializer (r_tx r) (r_script r) (r_in r) (r_type r))) (Z.to_nat (n_outputs r)) 0
    = Ok (concat (map ser_txout (blanked_outs r))) /\ n_outputs r = zlen (blanked_outs r).
Proof.
  intros Hr Hn Hsingle. destruct (ro_in _ Hr) as [Hlo Hhi]. unfold n_outputs, blanked_outs.
  destruct (is_none (r_type r)); [done|]. destruct (is_single (r_type r)) eqn:Hs.
  - destruct (znth_lt (tx_vout (r_tx r)) (r_in r) ltac:(auto)) as (o & Ho & _). rewrite Ho.
    rewrite u32_id by (unfold NOT_AN_INPUT, UINT32_MAX in *; lia).
    assert (r_in r + 1 = zlen (replicate (Z.to_nat (r_in r)) null_txout ++ [o])) as El.
    { rewrite zlen_app. unfold zlen. rewrite length_replicate. cbn [length]. lia. }
    split; [|done]. rewrite El. unfold zlen at 1. rewrite Nat2Z.id. apply ser_loop_list. intros k x Hk.
    rewrite Z.add_0_l. by eapply SerializeOutput_single.
  - split; [|done]. unfold zlen. rewrite Nat2Z.id. apply ser_loop_list. intros k x Hk.
    unfold SerializeOutput. cbn [new_serializer fHashSingle nIn txTo]. fold (is_single (r_type r)). rewrite Hs. cbn [andb].
    unfold at_index. by rewrite Z.add_0_l, znth_nat, Hk.
Qed.

Lemma sig_Serialize_blanked r : request_ok r -> r_in r <> NOT_AN_INPUT -> r_in r < zlen (tx_vin (r_tx r)) ->
  (is_single (r_type r) = true -> r_in r < zlen (tx_vout (r_tx r))) ->
  sig_Serialize (new_serializer (r_tx r) (r_script r) (r_in r) (r_type r)) =
    Ok (ser_u32 (tx_nVersion (r_tx r)) ++ ser_vector ser_txin (blanked_ins r) ++ ser_vector ser_txout (blanked_outs r)
        ++ ser_u32 (tx_nLockTime (r_tx r)) ++ (if tx_nVersion (r_tx r) >=? 2 then ser_vector ser_u32 [] else [])).
Proof.
  intros Hr Hn Hin Hsingle. destruct (ser_inputs r Hr Hn Hin) as [E1 L1], (ser_outputs r Hr Hn Hsingle) as [E2 L2].
  unfold sig_Serialize. cbn [new_serializer fAnyoneCanPay fHashSingle fHashNone txTo nIn].
  fold (anyone_can_pay (r_type r)) (is_single (r_type r)) (is_none (r_type r)) (n_inputs r) (n_outputs r).
  rewrite E1, E2, L1, L2. cbn [res_bind]. unfold ser_vector. by rewrite <- !app_assoc.
Qed.

Lemma spends_concat l : concat (map (fun d => sd_cv d ++ sd_anchor d ++ sd_nullifier d ++ sd_rk d ++ sd_zkproof d) l)
  = concat (map ser_parts (map spend_parts l)).
Proof. by rewrite map_map. Qed.

(** The precomputed hashes are those of the transaction. *)
Definition cache_of (r : sig_request) (cache : option PrecomputedTransactionData) : Prop :=
  cache = None \/ cache = Some (precompute (r_tx r)).

Lemma signed_outputs_call r :
  (if negb (is_single (r_type r)) && negb (is_none (r_type r)) then Ok (GetOutputsHash (r_tx r))
   else if is_single (r_type r) && (r_in r <? zlen (tx_vout (r_tx r))) then
     let? o := at_index (tx_vout (r_tx r)) (r_in r) in Ok (blake2b ZCASH_OUTPUTS_HASH_PERSONALIZATION (ser_txout o))
   else Ok zero_digest) = Ok (digest_opt (outputs_call (parts_of r))) \/ r_in r < 0.
Proof.
  destruct (Z.ltb_spec (r_in r) 0); [by right|left]. unfold outputs_call. cbn [parts_of g_outputs].
  destruct (is_none (r_type r)) eqn:En.
  - assert (is_single (r_type r) = false) as ->; [|done]. unfold is_none, is_single in *. zbool. by rewrite En.
  - destruct (is_single (r_type r)); cbn [negb andb]; [|done]. unfold at_index.
    destruct (Z.ltb_spec (r_in r) (zlen (tx_vout (r_tx r)))) as [Hlt|Hge].
    + by destruct (znth_lt (tx_vout (r_tx r)) (r_in r) ltac:(lia)) as (o & -> & _).
    + by rewrite znth_ge.
Qed.

Lemma signed_input r : request_ok r -> (zlen (tx_vin (r_tx r)) <=? r_in r) && negb (r_in r =? NOT_AN_INPUT) = false ->
  (if negb (r_in r =? NOT_AN_INPUT) then
     let? i := at_index (tx_vin (r_tx r)) (r_in r) in
     Ok (ser_outpoint (prevout i) ++ ser_bytes (r_script r) ++ ser_i64 (r_amount r) ++ ser_u32 (nSequence i))
   else Ok []) = Ok (match g_input (parts_of r) with Some i => ser_input i | None => [] end).
Proof.
  intros Hr E. cbn [parts_of g_input]. destruct (r_in r =? NOT_AN_INPUT) eqn:En; cbn [negb]; [by destruct (znth _ _)|].
  rewrite andb_true_r in E. zbool. unfold at_index.
  by destruct (znth_lt (tx_vin (r_tx r)) (r_in r)) as (i & -> & _); [pose proof (ro_in _ Hr); lia|].
Qed.

(** [SignatureHash] throws exactly when there is nothing to sign, and otherwise returns the
    digest of the signed data, with or without the precomputed hashes. *)
Lemma SignatureHash_signed r cache : request_ok r -> cache_of r cache ->
  SignatureHash (r_script r) (r_tx r) (r_in r) (r_type r) (r_amount r) (r_branch r) cache =
    match signed_data r with Some s => Ok (digest (signed_call s)) | None => Err logic_error end.
Proof.
  intros Hr Hc. unfold SignatureHash, signed_data, SignatureHashVersion. rewrite Z.geb_leb.
  destruct (_ && negb (r_in r =? NOT_AN_INPUT)) eqn:Erange; [done|].
  fold (anyone_can_pay (r_type r)) (is_single (r_type r)) (is_none (r_type r)).
  destruct (tx_fOverwintered (r_tx r)) eqn:Eo.
  - rewrite (bool_decide_true (_ \/ _)) by (destruct (tx_nVersionGroupId _ =? _); auto).
    assert (forall f (computed : bytes), f (precompute (r_tx r)) = computed -> cached cache f computed = computed) as Ecache
      by (intros f y Hf; destruct Hc as [->| ->]; done).
    rewrite !Ecache by done. destruct (signed_outputs_call r) as [E|]; [|pose proof (ro_in _ Hr); lia].
    rewrite E, (signed_input r Hr Erange). cbn [res_bind digest signed_call parts_of g_branch]. do 2 f_equal.
    unfold parts_data, prevouts_call, sequences_call, spends_call, shielded_call.
    cbn [parts_of g_sapling g_header g_group g_prevouts g_sequences g_spends g_shielded g_lock g_expiry g_balance g_type].
    unfold GetPrevoutHash, GetSequenceHash, GetShieldedSpendsHash, GetShieldedOutputsHash.
    rewrite spends_concat. destruct (tx_nVersionGroupId (r_tx r) =? SAPLING_VERSION_GROUP_ID).
    + rewrite bool_decide_true by done. destruct (tx_vShieldedSpend (r_tx r)), (tx_vShieldedOutput (r_tx r)), (anyone_can_pay _), (is_single _), (is_none _);
        cbn [is_nil map negb andb orb mbind option_bind digest_opt digest]; by rewrite ?map_map.
    + rewrite bool_decide_false by done. destruct (anyone_can_pay _), (is_single _), (is_none _);
        cbn [negb andb orb mbind option_bind digest_opt digest]; by rewrite ?map_map.
  - rewrite (bool_decide_false (_ \/ _)) by (by intros [|]). rewrite Z.geb_leb.
    pose proof (ro_old _ Hr Eo) as Hn. rewrite (proj2 (Z.eqb_neq _ _) Hn) in Erange. cbn [negb] in Erange.
    rewrite andb_true_r in Erange. zbool. destruct (_ && _) eqn:Es; [done|].
    rewrite sig_Serialize_blanked; [|done..|intros Hs; rewrite Hs in Es; cbn [andb] in Es; zbool; lia].
    cbn [res_bind digest signed_call]. by rewrite <- !app_assoc.
Qed.
End Refinement.

(** ** The digest determines the signed data *)

(** An encoding whose end is recognised, so that it can be followed by anything. *)
Definition separates {A : Type} (P : A -> Prop) (ser : A -> bytes) : Prop :=
  forall x y s t, P x -> P y -> ser x ++ s = ser y ++ t -> x = y /\ s = t.

Lemma reads_separates {A} (P : A -> Prop) (ser : A -> bytes) unser : (forall x, P x -> reads ser unser x) -> separates P ser.
Proof. intros Hr x y s t Hx Hy E. pose proof (Hr x Hx s) as E1. rewrite E, (Hr y Hy t) in E1. by injection E1 as -> ->. Qed.

Lemma separates_inj {A} (P : A -> Prop) (ser : A -> bytes) x y : separates P ser -> P x -> P y -> ser x = ser y -> x = y.
Proof. intros Hs Hx Hy E. by destruct (Hs x y [] [] Hx Hy) as [-> _]; [rewrite !app_nil_r|]. Qed.

Lemma concat_separates {A} (P : A -> Prop) (ser : A -> bytes) l1 l2 : separates P ser -> (forall x, P x -> ser x <> []) ->
  Forall P l1 -> Forall P l2 -> concat (map ser l1) = concat (map ser l2) -> l1 = l2.
Proof.
  intros Hs Hne H1. revert l2. induction H1 as [|x l1 Hx H1 IH]; intros [|y l2] H2 E; [done|..].
  - inversion H2; subst. cbn in E. symmetry in E. apply app_nil in E as [E _]. by destruct (Hne y).
  - cbn in E. apply app_nil in E as [E _]. by destruct (Hne x).
  - inversion H2; subst. destruct (Hs x y _ _ Hx ltac:(done) E) as [-> E']. f_equal. by apply IH.
Qed.

Lemma blob_separates n : separates (fun b : bytes => length b = n) id.
Proof. intros x y s t Hx Hy E. apply app_inj_1 in E; [done|]. unfold id. lia. Qed.

Lemma u32_separates : separates (fun x => 0 <= x < 2 ^ 32) ser_u32.
Proof. eapply reads_separates. apply reads_u32. Qed.
Lemma i64_separates : separates (fun x => INT64_MIN <= x <= INT64_MAX) ser_i64.
Proof. eapply reads_separates. apply reads_i64. Qed.
Lemma bytes_separates : separates (fun b : bytes => zlen b <= MAX_DATA_SIZE) ser_bytes.
Proof. eapply reads_separates. apply reads_bytes. Qed.
Lemma outpoint_separates : separates outpoint_ok ser_outpoint.
Proof. eapply reads_separates. apply reads_outpoint. Qed.
Lemma txout_separates : separates txout_ok ser_txout.
Proof. eapply reads_separates. apply reads_txout. Qed.
Lemma output_separates : separates output_ok ser_output.
Proof. eapply reads_separates. apply reads_output. Qed.
Lemma vector_separates {A} (P : A -> Prop) (ser : A -> bytes) unser : (forall x, P x -> reads ser unser x) ->
  separates (fun v => zlen v <= MAX_DATA_SIZE /\ Forall P v) (ser_vector ser).
Proof.
  intros Hr. eapply reads_separates. intros v [Hl Hv]. apply reads_vector; [done|]. eapply Forall_impl; [exact Hv|apply Hr].
Qed.

Definition spend_parts_ok (d : bytes * bytes * bytes * bytes * bytes) : Prop :=
  let '(cv, anchor, nullifier, rk, zkproof) := d in
  length cv = 32%nat /\ length anchor = 32%nat /\ length nullifier = 32%nat /\ length rk = 32%nat /\ length zkproof = GROTH_PROOF_SIZE.

(** Peels the first field off an equation between two encodings. *)
Ltac peel E lem := rewrite <- ?app_assoc in E; apply lem in E; [destruct E as [? E]; subst|assumption..].

Lemma parts_separates : separates spend_parts_ok ser_parts.
Proof.
  intros [[[[a1 a2] a3] a4] a5] [[[[b1 b2] b3] b4] b5] s t (?&?&?&?&?) (?&?&?&?&?) E. unfold ser_parts in E.
  do 5 (rewrite <- ?app_assoc in E; apply app_inj_1 in E; [|congruence]; destruct E as [-> E]). done.
Qed.

Definition input_ok (i : COutPoint * bytes * Z * Z) : Prop :=
  let '(o, script, amount, seq) := i in
  outpoint_ok o /\ zlen script <= MAX_DATA_SIZE /\ INT64_MIN <= amount <= INT64_MAX /\ 0 <= seq < 2 ^ 32.

Lemma input_separates : separates input_ok ser_input.
Proof.
  intros [[[o1 s1] a1] q1] [[[o2 s2] a2] q2] s t (?&?&?&?) (?&?&?&?) E. unfold ser_input in E.
  peel E outpoint_separates. peel E bytes_separates. peel E i64_separates. peel E u32_separates. done.
Qed.

Lemma ser_u32_nonempty x s : ser_u32 x ++ s <> [].
Proof. unfold ser_u32, ser_writedata32. cbn. done. Qed.

Lemma nonempty_app_r {A} (l k : list A) : k <> [] -> l ++ k <> [].
Proof. destruct l; [done|done]. Qed.

Record parts_ok (p : signed_parts) : Prop := {
  po_branch : 0 <= g_branch p < 2 ^ 32;
  po_sapling : g_sapling p = (g_group p =? SAPLING_VERSION_GROUP_ID);
  po_header : 0 <= g_header p < 2 ^ 32;
  po_group : 0 <= g_group p < 2 ^ 32;
  po_prevouts : forall l, g_prevouts p = Some l -> Forall outpoint_ok l;
  po_sequences : forall l, g_sequences p = Some l -> Forall (fun x => 0 <= x < 2 ^ 32) l;
  po_outputs : match g_outputs p with
               | NoOutputs => True
               | OneOutput o => is_single (g_type p) = true /\ txout_ok o
               | AllOutputs l => is_single (g_type p) = false /\ Forall txout_ok l
               end;
  po_spends : Forall spend_parts_ok (g_spends p);
  po_shielded : Forall output_ok (g_shielded p);
  po_lock : 0 <= g_lock p < 2 ^ 32;
  po_expiry : 0 <= g_expiry p < 2 ^ 32;
  po_balance : INT64_MIN <= g_balance p <= INT64_MAX;
  po_old : g_sapling p = false -> g_spends p = [] /\ g_shielded p = [] /\ g_balance p = 0;
  po_type : 0 <= g_type p < 2 ^ 32;
  po_input : forall i, g_input p = Some i -> input_ok i
}.

Definition signed_ok (s : signed) : Prop :=
  match s with
  | SignedTx version ins outs lock type =>
      0 <= version < 2 ^ 32 /\ (zlen ins <= MAX_DATA_SIZE /\ Forall txin_ok ins) /\ (zlen outs <= MAX_DATA_SIZE /\ Forall txout_ok outs) /\
      0 <= lock < 2 ^ 32 /\ 0 <= type < 2 ^ 32
  | SignedParts p => parts_ok p
  end.

Lemma znth_Forall {A} (P : A -> Prop) l i x : Forall P l -> znth l i = Some x -> P x.
Proof. unfold znth. destruct (i <? 0); [done|]. intros Hf Hx. by eapply Forall_lookup_1. Qed.

Lemma GetHeader_range tx : 0 <= tx_nVersion tx < 2 ^ 31 -> 0 <= GetHeader tx < 2 ^ 32.
Proof. intros Hv. by destruct (GetHeader_fields tx Hv) as [? _]. Qed.

Lemma blank_input_ok r k i : zlen (r_script r) <= MAX_DATA_SIZE -> txin_ok i -> txin_ok (blank_input r k i).
Proof.
  intros Hs [Hp Hi Hq]. unfold blank_input. destruct (k =? r_in r); split; cbn [prevout scriptSig nSequence]; try done.
  destruct (_ || _); [lia|done].
Qed.

Lemma blanked_ins_ok r : request_ok r -> zlen (blanked_ins r) <= MAX_DATA_SIZE /\ Forall txin_ok (blanked_ins r).
Proof.
  intros Hr. destruct (wf_vin _ (ro_tx _ Hr)) as [Hl Hf]. pose proof (ro_script _ Hr). unfold blanked_ins.
  destruct (anyone_can_pay _).
  - destruct (znth _ _) eqn:E; [|by split; [unfold zlen, MAX_DATA_SIZE; cbn; lia|]].
    split; [unfold zlen, MAX_DATA_SIZE; cbn; lia|]. constructor; [|done]. apply blank_input_ok; [done|]. by eapply znth_Forall.
  - split; [unfold zlen in *; by rewrite length_imap|]. apply Forall_lookup. intros k x Hk.
    rewrite list_lookup_imap in Hk. apply fmap_Some in Hk as (i & Hi & ->). apply blank_input_ok; [done|]. by eapply Forall_lookup_1.
Qed.

Lemma blanked_outs_ok r : request_ok r -> zlen (blanked_outs r) <= MAX_DATA_SIZE /\ Forall txout_ok (blanked_outs r).
Proof.
  intros Hr. destruct (wf_vout _ (ro_tx _ Hr)) as [Hl Hf]. unfold blanked_outs.
  destruct (is_none _); [by split; [unfold zlen, MAX_DATA_SIZE; cbn; lia|]|]. destruct (is_single _); [|done].
  destruct (znth _ _) as [o|] eqn:E; [|by split; [unfold zlen, MAX_DATA_SIZE; cbn; lia|]]. split.
  - unfold znth in E. destruct (r_in r <? 0) eqn:E0; [done|]. apply lookup_lt_Some in E. zbool.
    unfold zlen in *. rewrite length_app, length_replicate. cbn [length]. lia.
  - apply Forall_app. split; [|constructor; [by eapply znth_Forall|done]].
    apply Forall_replicate. split; cbn; unfold INT64_MIN, INT64_MAX, MAX_DATA_SIZE, zlen; cbn; lia.
Qed.

Lemma parts_of_ok r : request_ok r -> parts_ok (parts_of r).
Proof.
  intros Hr. destruct Hr as [Hw Hs Hi Ho Ht Ha Hb]. destruct Hw as [Wv Wg Wf Wo Wi Wt Wl We Wb Wsp Wsh Wns _].
  assert (0 <= tx_nExpiryHeight (r_tx r) < 2 ^ 32) as Hex by (destruct (_ || _); [done|rewrite We; lia]).
  split; cbn [parts_of g_branch g_sapling g_header g_group g_prevouts g_sequences g_outputs g_spends g_shielded g_lock g_expiry g_balance g_type g_input];
    try done; try lia.
  - by apply GetHeader_range.
  - intros l. destruct (anyone_can_pay _); [done|]. intros [= <-]. apply Forall_map. eapply Forall_impl; [apply Wi|]. by intros ? [].
  - intros l. destruct (anyone_can_pay _ || is_single _ || is_none _); [done|]. intros [= <-]. apply Forall_map. eapply Forall_impl; [apply Wi|]. by intros ? [].
  - destruct (is_none _); [done|]. destruct (is_single _) eqn:E; [|by split; [|apply Wt]]. destruct (znth _ _) eqn:Ez; [|done].
    split; [done|]. eapply znth_Forall; [apply Wt|done].
  - destruct (_ =? _); [|done]. apply Forall_map. eapply Forall_impl; [apply Wsp|]. by intros ? [].
  - destruct (_ =? _); [|done]. apply Wsh.
  - destruct (_ =? _); [|unfold INT64_MIN, INT64_MAX; lia].
    destruct (tx_v4 (r_tx r)); [done|]. rewrite Wb. unfold INT64_MIN, INT64_MAX; lia.
  - by intros ->.
  - intros i. destruct (znth _ _) eqn:Ez; [|done]. destruct (_ =? _); [done|]. intros [= <-].
    destruct (znth_Forall _ _ _ _ (proj2 Wi) Ez). split; [done|]. split; [done|]. split; lia.
Qed.

Lemma signed_data_ok r s : request_ok r -> signed_data r = Some s -> signed_ok s.
Proof.
  intros Hr. unfold signed_data. destruct (_ && _); [done|]. destruct (tx_fOverwintered _).
  - intros [= <-]. by apply parts_of_ok.
  - destruct (_ && _); [done|]. intros [= <-]. pose proof (wf_version _ (ro_tx _ Hr)). pose proof (ro_type _ Hr).
    split; [lia|]. split; [by apply blanked_ins_ok|]. split; [by apply blanked_outs_ok|]. split; [apply (wf_lock _ (ro_tx _ Hr))|lia].
Qed.

Section Injective.
Context `{Crypto} `{SigCrypto} `{!SigCryptoLaws _}.

Lemma digest_opt_inj cs a b : collision_free cs -> (forall c, a = Some c -> c ∈ cs) -> (forall c, b = Some c -> c ∈ cs) ->
  digest_opt a = digest_opt b -> a = b.
Proof.
  intros [Hc Hz] Ha Hb E. destruct a as [x|], b as [y|]; cbn [digest_opt] in E; [|exfalso..|done].
  - f_equal. by apply Hc; [apply Ha|apply Hb|].
  - by apply (Hz x (Ha x eq_refl)).
  - by apply (Hz y (Hb y eq_refl)).
Qed.

Definition blake_call (c : option hash_call) : Prop := match c with Some (Sha _) => False | _ => True end.
Lemma digest_opt_len c : blake_call c -> length (digest_opt c) = 32%nat.
Proof. destruct c as [[]|]; cbn; intros Hc; [apply blake2b_len|done|done]. Qed.

Lemma Sha_inj a b : Sha a = Sha b -> a = b.
Proof. by intros [=]. Qed.
Lemma Blake_inj p a q b : Blake p a = Blake q b -> p = q /\ a = b.
Proof. by intros [=]. Qed.

Lemma signed_tx_inj v1 i1 o1 l1 t1 v2 i2 o2 l2 t2 :
  signed_ok (SignedTx v1 i1 o1 l1 t1) -> signed_ok (SignedTx v2 i2 o2 l2 t2) ->
  signed_call (SignedTx v1 i1 o1 l1 t1) = signed_call (SignedTx v2 i2 o2 l2 t2) -> SignedTx v1 i1 o1 l1 t1 = SignedTx v2 i2 o2 l2 t2.
Proof.
  intros (?&?&?&?&?) (?&?&?&?&?) E. cbn [signed_call] in E. apply Sha_inj in E.
  peel E u32_separates. peel E (vector_separates _ _ _ reads_txin). peel E (vector_separates _ _ _ reads_txout). peel E u32_separates.
  destruct (_ >=? 2); [apply app_inv_head in E|cbn [app] in E]; by apply (separates_inj _ _ _ _ u32_separates) in E; subst.
Qed.

(** The fields behind the digests of two signed messages. *)
Lemma prevouts_call_inj p q : parts_ok p -> parts_ok q -> prevouts_call p = prevouts_call q -> g_prevouts p = g_prevouts q.
Proof.
  intros Hp Hq. unfold prevouts_call. destruct (g_prevouts p) eqn:Ep, (g_prevouts q) eqn:Eq; cbn [mbind option_bind]; try done.
  intros E%(inj Some). apply Blake_inj in E as [_ E]. f_equal. apply (concat_separates outpoint_ok ser_outpoint) in E; [done|apply outpoint_separates|..].
  - intros x _. apply nonempty_app_r, (ser_u32_nonempty _ []).
  - by apply (po_prevouts _ Hp).
  - by apply (po_prevouts _ Hq).
Qed.

Lemma sequences_call_inj p q : parts_ok p -> parts_ok q -> sequences_call p = sequences_call q -> g_sequences p = g_sequences q.
Proof.
  intros Hp Hq. unfold sequences_call. destruct (g_sequences p) eqn:Ep, (g_sequences q) eqn:Eq; cbn [mbind option_bind]; try done.
  intros E%(inj Some). apply Blake_inj in E as [_ E]. f_equal. apply (concat_separates (fun x => 0 <= x < 2 ^ 32) ser_u32) in E; [done|apply u32_separates|..].
  - intros x _. done.
  - by apply (po_sequences _ Hp).
  - by apply (po_sequences _ Hq).
Qed.

Lemma outputs_call_inj p q : parts_ok p -> parts_ok q -> g_type p = g_type q -> outputs_call p = outputs_call q -> g_outputs p = g_outputs q.
Proof.
  intros Hp Hq Et. unfold outputs_call. pose proof (po_outputs _ Hp) as Op. pose proof (po_outputs _ Hq) as Oq. rewrite Et in Op.
  destruct (g_outputs p) as [|o|l], (g_outputs q) as [|o'|l']; try done; intros E%(inj Some); apply Blake_inj in E as [_ E];
    destruct Op as [S1 Op], Oq as [S2 Oq]; try congruence; f_equal.
  - by apply (separates_inj _ _ _ _ txout_separates) in E.
  - apply (concat_separates txout_ok ser_txout) in E; [done|apply txout_separates| |done..]. intros x _. done.
Qed.

Lemma spends_call_inj p q : parts_ok p -> parts_ok q -> spends_call p = spends_call q -> g_spends p = g_spends q.
Proof.
  intros Hp Hq. unfold spends_call. pose proof (po_spends _ Hp) as Op. pose proof (po_spends _ Hq) as Oq.
  destruct (g_spends p) as [|d l] eqn:Ep, (g_spends q) as [|d' l'] eqn:Eq; cbn [is_nil]; try done.
  intros E%(inj Some). apply Blake_inj in E as [_ E]. apply (concat_separates spend_parts_ok ser_parts) in E; [done|apply parts_separates| |done..].
  intros [[[[a1 a2] a3] a4] a5] (Hl & _) E0. apply (f_equal length) in E0. unfold ser_parts in E0. rewrite length_app, Hl in E0. done.
Qed.

Lemma shielded_call_inj p q : parts_ok p -> parts_ok q -> shielded_call p = shielded_call q -> g_shielded p = g_shielded q.
Proof.
  intros Hp Hq. unfold shielded_call. pose proof (po_shielded _ Hp) as Op. pose proof (po_shielded _ Hq) as Oq.
  destruct (g_shielded p) as [|d l] eqn:Ep, (g_shielded q) as [|d' l'] eqn:Eq; cbn [is_nil]; try done.
  intros E%(inj Some). apply Blake_inj in E as [_ E]. apply (concat_separates output_ok ser_output) in E; [done|apply output_separates| |done..].
  intros x [Hl _ _ _ _ _] E0. apply (f_equal length) in E0. unfold ser_output in E0. rewrite length_app, Hl in E0. done.
Qed.

Lemma calls_blake p : blake_call (prevouts_call p) /\ blake_call (sequences_call p) /\ blake_call (outputs_call p) /\
  blake_call (spends_call p) /\ blake_call (shielded_call p).
Proof.
  unfold prevouts_call, sequences_call, outputs_call, spends_call, shielded_call.
  by destruct (g_prevouts p), (g_sequences p), (g_outputs p), (is_nil (g_spends p)), (is_nil (g_shielded p)).
Qed.

Lemma calls_in p c : c ∈ [prevouts_call p; sequences_call p; outputs_call p; spends_call p; shielded_call p] ->
  forall x, c = Some x -> x ∈ calls (SignedParts p).
Proof. intros Hc x ->. apply list_elem_of_further, list_elem_of_omap. by exists (Some x). Qed.

(** Peels two digests off an equation and gives the equality of the calls. *)
Ltac peel_digest E Hcf name :=
  rewrite <- ?app_assoc in E; apply app_inj_1 in E; [|rewrite !digest_opt_len by (apply calls_blake); reflexivity];
  destruct E as [name E];
  apply (digest_opt_inj _ _ _ Hcf) in name;
  [|intros ? ?; apply elem_of_app; left; eapply calls_in; [|eassumption]; repeat (first [apply list_elem_of_here|apply list_elem_of_further])
   |intros ? ?; apply elem_of_app; right; eapply calls_in; [|eassumption]; repeat (first [apply list_elem_of_here|apply list_elem_of_further])].

Lemma input_opt_inj (a b : option (COutPoint * bytes * Z * Z)) :
  (forall i, a = Some i -> input_ok i) -> (forall i, b = Some i -> input_ok i) ->
  match a with Some i => ser_input i | None => [] end = match b with Some i => ser_input i | None => [] end -> a = b.
Proof.
  assert (forall i, ser_input i <> []) as Hne.
  { intros [[[o s] n] q]. apply nonempty_app_r, nonempty_app_r, nonempty_app_r. done. }
  intros Ha Hb E. destruct a as [i|], b as [j|]; [|by destruct (Hne i)|by destruct (Hne j)|done].
  f_equal. apply (separates_inj _ _ _ _ input_separates) in E; auto.
Qed.

Lemma parts_data_inj p q : parts_ok p -> parts_ok q -> collision_free (calls (SignedParts p) ++ calls (SignedParts q)) ->
  g_branch p = g_branch q -> parts_data p = parts_data q -> p = q.
Proof.
  intros Hp Hq Hcf Eb E. destruct (Hp) as [_ Sp ? ? _ _ _ _ _ ? ? ? Op ? Ip], (Hq) as [_ Sq ? ? _ _ _ _ _ ? ? ? Oq ? Iq].
  unfold parts_data in E. rewrite <- ?app_assoc in E. apply u32_separates in E as [Eh E]; [|done..].
  apply u32_separates in E as [Eg E]; [|done..]. rewrite Eg, <- Sq in Sp. rewrite Sp in *.
  peel_digest E Hcf E1. peel_digest E Hcf E2. peel_digest E Hcf E3. apply app_inv_head in E.
  assert (g_spends p = g_spends q /\ g_shielded p = g_shielded q /\ g_balance p = g_balance q /\
    g_lock p = g_lock q /\ g_expiry p = g_expiry q /\ g_type p = g_type q /\ g_input p = g_input q) as (?&?&?&?&?&Et&?).
  { destruct (g_sapling q).
    - peel_digest E Hcf E4. peel_digest E Hcf E5. apply spends_call_inj in E4; [|done..]. apply shielded_call_inj in E5; [|done..].
      apply u32_separates in E as [? E]; [|done..]. apply u32_separates in E as [? E]; [|done..].
      apply i64_separates in E as [? E]; [|done..]. apply u32_separates in E as [? E]; [|done..].
      by apply input_opt_inj in E.
    - destruct (Op eq_refl) as (-> & -> & ->), (Oq eq_refl) as (-> & -> & ->). cbn [app] in E.
      apply u32_separates in E as [? E]; [|done..]. apply u32_separates in E as [? E]; [|done..].
      apply u32_separates in E as [? E]; [|done..]. by apply input_opt_inj in E. }
  apply prevouts_call_inj in E1; [|done..]. apply sequences_call_inj in E2; [|done..]. apply outputs_call_inj in E3; [|done..].
  clear -Eb Sp Eh Eg E1 E2 E3 H1 H2 H3 H4 H5 Et H6. destruct p, q; cbn in *. by f_equal.
Qed.

Lemma signed_call_inj s1 s2 : signed_ok s1 -> signed_ok s2 -> collision_free (calls s1 ++ calls s2) ->
  signed_call s1 = signed_call s2 -> s1 = s2.
Proof.
  intros H1 H2 Hcf E. destruct s1 as [v1 i1 o1 l1 t1|p], s2 as [v2 i2 o2 l2 t2|q]; [by apply signed_tx_inj|done|done|].
  cbn [signed_call] in E. apply Blake_inj in E as [E0 E]. apply app_inv_head in E0.
  f_equal. apply parts_data_inj; [done..| |done].
  apply (separates_inj _ _ _ _ u32_separates) in E0; [done|apply (po_branch _ H1)|apply (po_branch _ H2)].
Qed.
End Injective.

(** ** Theorems *)

Section Commitment.
Context `{Crypto} `{SigCrypto} `{!SigCryptoLaws _}.

Definition sighash (r : sig_request) (cache : option PrecomputedTransactionData) : res sighash_fail bytes :=
  SignatureHash (r_script r) (r_tx r) (r_in r) (r_type r) (r_amount r) (r_branch r) cache.

(** Everything hashed for a request. *)
Definition calls_of (r : sig_request) : list hash_call := match signed_data r with Some s => calls s | None => [] end.


Lemma SignedParts_inj p q : Some (SignedParts p) = Some (SignedParts q) -> p = q.
Proof. by intros [=]. Qed.

(** With the usual hash type, transactions of the Sapling format with the same signed data
    differ at most in their scripts and signatures. *)
Lemma signed_all_same r1 r2 : r_type r1 = SIGHASH_ALL -> signed_data r1 = signed_data r2 ->
  tx_v4 (r_tx r1) = true -> tx_v4 (r_tx r2) = true -> is_Some (signed_data r1) ->
  let t1 := r_tx r1 in let t2 := r_tx r2 in
  map prevout (tx_vin t1) = map prevout (tx_vin t2) /\ map nSequence (tx_vin t1) = map nSequence (tx_vin t2) /\
  tx_vout t1 = tx_vout t2 /\ tx_nLockTime t1 = tx_nLockTime t2 /\ tx_nExpiryHeight t1 = tx_nExpiryHeight t2 /\
  tx_valueBalance t1 = tx_valueBalance t2 /\ tx_vShieldedOutput t1 = tx_vShieldedOutput t2 /\
  map spend_parts (tx_vShieldedSpend t1) = map spend_parts (tx_vShieldedSpend t2).
Proof.
  intros Et E V1 V2 [s Hs]. unfold signed_data in *. unfold tx_v4, isSaplingV4 in V1, V2. zbool.
  destruct (tx_fOverwintered (r_tx r1)), (tx_fOverwintered (r_tx r2)); try done.
  destruct (_ && negb (r_in r1 =? _)); [done|]. destruct (_ && negb (r_in r2 =? _)); [done|].
  pose proof (SignedParts_inj _ _ E) as P. clear E.
  pose proof (f_equal g_prevouts P) as E1. pose proof (f_equal g_sequences P) as E2. pose proof (f_equal g_outputs P) as E3.
  pose proof (f_equal g_lock P) as E4. pose proof (f_equal g_expiry P) as E5. pose proof (f_equal g_balance P) as E6.
  pose proof (f_equal g_shielded P) as E7. pose proof (f_equal g_spends P) as E8. pose proof (f_equal g_type P) as E9.
  cbn [parts_of g_prevouts g_sequences g_outputs g_lock g_expiry g_balance g_shielded g_spends g_type] in *.
  rewrite <- E9, Et in *. cbn in E1, E2, E3. rewrite !(proj2 (Z.eqb_eq _ _)) in E6, E7, E8 by done.
  by injection E1 as ->; injection E2 as ->; injection E3 as ->.
Qed.
End Commitment.

(** ** The cache never changes a verdict *)

Section SigCacheProps.
Context `{Crypto} `{SigCrypto}.

Definition entry_data (n : bytes) (q : verify_call) : bytes := n ++ v_hash q ++ v_key q ++ v_sig q.
Definition verified (q : verify_call) : bool := pubkey_Verify (v_key q) (v_hash q) (v_sig q).

(** Calls as [CheckSig] makes them. *)
Record call_ok (q : verify_call) : Prop := { ck_key : pubkey_set (v_key q) = Some (v_key q); ck_hash : length (v_hash q) = 32%nat }.

Lemma pubkey_set_len k : pubkey_set k = Some k -> exists h k', k = h :: k' /\ GetLen h = zlen k.
Proof.
  unfold pubkey_set. destruct k as [|h k']; [done|]. cbv zeta. intros E. exists h, k'. split; [done|].
  destruct (negb (GetLen h =? 0) && (GetLen h =? zlen (h :: k'))) eqn:B; [|done]. zbool. done.
Qed.

Lemma entry_data_inj n q1 q2 : call_ok q1 -> call_ok q2 -> entry_data n q1 = entry_data n q2 -> verified q1 = verified q2.
Proof.
  intros [K1 L1] [K2 L2] E. unfold entry_data in E. apply app_inv_head in E. apply app_inj_1 in E as [Eh E]; [|congruence].
  destruct (pubkey_set_len _ K1) as (h1 & k1 & E1 & G1), (pubkey_set_len _ K2) as (h2 & k2 & E2 & G2).
  assert (h1 = h2) as Ehh by (rewrite E1, E2 in E; cbn in E; congruence).
  apply app_inj_1 in E as [Ek Es]; [|unfold zlen in *; subst h2; lia]. unfold verified. by rewrite Eh, Ek, Es.
Qed.

(** The entries are those of earlier successful verifications. *)
Definition cache_sound (qs : list verify_call) (c : CSignatureCache) : Prop :=
  forall e, e ∈ setValid c -> exists q, q ∈ qs /\ verified q = true /\ e = sha256 (entry_data (nonce c) q).

Definition no_entry_collision (n : bytes) (qs : list verify_call) : Prop :=
  forall q1 q2, q1 ∈ qs -> q2 ∈ qs -> sha256 (entry_data n q1) = sha256 (entry_data n q2) -> entry_data n q1 = entry_data n q2.

Lemma caching_step qs c q : Forall call_ok qs -> q ∈ qs -> no_entry_collision (nonce c) qs -> cache_sound qs c ->
  (caching_VerifySignature c q).1 = verified q /\ cache_sound qs (caching_VerifySignature c q).2 /\
  nonce (caching_VerifySignature c q).2 = nonce c.
Proof.
  intros Hok Hq Hn Hs. unfold caching_VerifySignature. rewrite Forall_forall in Hok.
  change (ComputeEntry c (v_hash q) (v_sig q) (v_key q)) with (sha256 (entry_data (nonce c) q)).
  fold (verified q). unfold cache_Get. case_bool_decide as Hin; cbn [fst snd].
  - destruct (Hs _ Hin) as (q' & Hq' & Hv & E). rewrite <- (entry_data_inj (nonce c) q' q) by auto. split; [done|].
    destruct (negb (v_store q)); [|done]. split; [|done]. intros e He. cbn in He. apply elem_of_difference in He as [He _]. by apply Hs.
  - destruct (verified q) eqn:Ev; cbn [negb fst snd]; [|done]. split; [done|].
    destruct (v_store q); [|done]. unfold cache_Set. destruct (v_max q <=? 0); [done|]. split; [|done].
    intros e He. cbn in He. apply elem_of_union in He as [He|He%elem_of_singleton].
    + apply elem_of_difference in He as [He _]. by apply Hs.
    + exists q. by rewrite He.
Qed.

(** C23. The signature cache never changes a verdict: whatever calls are made, whichever of
    them store or erase entries and whatever is evicted, starting with an empty cache every
    verification gives what the key's own verification gives, unless SHA-256 collides on the
    entries of two of the calls. *)
Theorem sigcache_transparent n qs : Forall call_ok qs -> no_entry_collision n qs ->
  (verify_all {| nonce := n; setValid := ∅ |} qs).1 = map verified qs.
Proof.
  intros Hok Hn. assert (forall sub c, sub ⊆ qs -> nonce c = n -> cache_sound qs c -> (verify_all c sub).1 = map verified sub) as Hgen.
  { induction sub as [|q sub IH]; intros c Hsub Hc Hs; [done|]. cbn [verify_all map fst].
    destruct (caching_step qs c q) as (E & Hs' & Hn'); [done|by apply Hsub, list_elem_of_here|by rewrite Hc|done|].
    f_equal; [done|]. apply IH; [|congruence|done]. intros x Hx. by apply Hsub, list_elem_of_further. }
  apply Hgen; [done|done|]. intros e He. by apply elem_of_empty in He.
Qed.
End SigCacheProps.

(** ** Concrete signatures *)

#[local] Instance demo_sig_crypto : SigCrypto := {|
  blake2b p x := 1 :: le_bytes 31 (poly_hash (p ++ x));
  pubkey_Verify key hash sig := bytes_eqb sig hash
|}.
#[local] Instance demo_sig_laws : SigCryptoLaws demo_sig_crypto.
Proof. split. intros p x. cbn [blake2b demo_sig_crypto length]. by rewrite length_le_bytes. Qed.
#[local] Instance demo_sig_hash : Crypto := {|
  ripemd160 x := le_bytes 20 (le_val x);
  sha1 x := le_bytes 20 (le_val x);
  sha256 x := le_bytes 32 (poly_hash x);
  CheckLowS _ := true
|}.

(** A call as one string: the tag, and the personalization of 16 bytes. *)
Definition call_bytes (c : hash_call) : bytes := match c with Blake p d => 1 :: zlen p :: p ++ d | Sha d => 2 :: d end.
Lemma call_bytes_inj a b : call_bytes a = call_bytes b -> a = b.
Proof.
  destruct a as [p d|d], b as [q e|e]; cbn; try done; [|by intros [= ->]].
  intros [= El E]. apply app_inj_1 in E as [-> ->]; [done|]. unfold zlen in El. lia.
Qed.

Lemma collision_free_check cs : injective_on digest call_bytes cs = true ->
  forallb (fun c => negb (same_bytes (digest c) zero_digest)) cs = true -> collision_free cs.
Proof.
  intros Hi Hz. split.
  - intros a b Ha Hb E. by apply call_bytes_inj, (injective_on_spec _ _ _ Hi).
  - intros a Ha E. rewrite forallb_forall in Hz. specialize (Hz a ltac:(by apply list_elem_of_In)).
    by rewrite (proj2 (same_bytes_spec _ _) E) in Hz.
Qed.

Definition demo_request (ty : Z) : sig_request :=
  {| r_script := [118; 169]; r_tx := demo_tx; r_in := 0; r_type := ty; r_amount := 5000; r_branch := 0x5EFAAEEF |}.

Lemma demo_request_ok ty : 0 <= ty < 2 ^ 8 -> request_ok (demo_request ty).
Proof.
  intros Ht. split; cbn [demo_request r_tx r_script r_in r_type r_amount r_branch]; [apply demo_tx_wf|unfold zlen, MAX_DATA_SIZE; cbn; lia|lia|done|done|unfold INT64_MIN, INT64_MAX; lia|lia].
Qed.


Definition demo_call (store : bool) (sig : Z) : verify_call := {|
  v_store := store; v_max := 32; v_evicted := ∅; v_sig := blob 32 sig; v_key := 2 :: blob 32 7; v_hash := blob 32 9
|}.

Definition demo_calls : list verify_call := [demo_call true 9; demo_call false 9; demo_call true 8; demo_call true 9].

Lemma sigcache_transparent_witness :
  (verify_all {| nonce := blob 32 1; setValid := ∅ |} demo_calls).1 = [true; true; false; true].
Proof.
  change [true; true; false; true] with (map verified demo_calls). apply (sigcache_transparent (blob 32 1) demo_calls).
  - repeat constructor.
  - intros q1 q2 H1 H2. apply (injective_on_spec (fun q => sha256 (entry_data (blob 32 1) q)) (entry_data (blob 32 1)) demo_calls); [vm_compute; reflexivity|done|done].
Defined.
