(* ===== verification/Block.v ===== *)
(** * Blocks

    [primitives/block.h] and [primitives/block.cpp]: block headers and blocks, their wire
    format, their hash, and the input of the proof of work.  A block hash fixes the header,
    the header fixes the Merkle root, and the root fixes the transactions. *)

From stdpp Require Import sets.
From S2P Require Import Prelude Interpreter Serialize Compressor Amount Transaction Merkle.

(** ** Data *)

Record CBlockHeader := {
  h_nVersion : Z;
  h_hashPrevBlock : bytes;
  h_hashMerkleRoot : bytes;
  h_hashFinalSaplingRoot : bytes;
  h_nTime : Z;
  h_nBits : Z;
  h_nNonce : bytes;
  h_nSolution : bytes;
  h_sPastelID : bytes;
  h_prevMerkleRootSignature : bytes
}.

(** What is stored and sent of a [CBlock]. *)
Record Block := { header : CBlockHeader; b_vtx : list CTransaction }.

Definition CURRENT_VERSION : Z := 5.
Definition VERSION_SIGNED_BLOCK : Z := 5.

Definition null_header : CBlockHeader := {|
  h_nVersion := CURRENT_VERSION; h_hashPrevBlock := uint256_zero; h_hashMerkleRoot := uint256_zero;
  h_hashFinalSaplingRoot := uint256_zero; h_nTime := 0; h_nBits := 0; h_nNonce := uint256_zero; h_nSolution := [];
  h_sPastelID := []; h_prevMerkleRootSignature := []
|}.

Definition header_IsNull (h : CBlockHeader) : bool := h_nBits h =? 0.

Definition HasPrevBlockSignature (h : CBlockHeader) : bool :=
  if h_nVersion h <? VERSION_SIGNED_BLOCK then false
  else negb (is_nil (h_sPastelID h)) && negb (is_nil (h_prevMerkleRootSignature h)).

(** ** Wire format *)

(** [Serialize_Checked] and [Unserialize_Checked] of [utils/serialize.h] *)
Definition ser_checked (v : bytes) (nMaxSize : Z) : res ios_failure bytes :=
  if zlen v >? nMaxSize then Err checked_size_exceeded else Ok (ser_bytes v).
Definition unser_checked (inp : bytes) (nMaxSize : Z) : res ios_failure (bytes * bytes) :=
  let? r := ReadCompactSize inp MAX_DATA_SIZE in
  if r.1 >? nMaxSize then Err checked_size_exceeded else stream_read (Z.to_nat r.1) r.2.

(** The fields that only signed blocks have. *)
Definition ser_signed (h : CBlockHeader) : res ios_failure bytes :=
  if h_nVersion h >=? VERSION_SIGNED_BLOCK then
    let? id := ser_checked (h_sPastelID h) 100 in
    let? sig := ser_checked (h_prevMerkleRootSignature h) 200 in
    Ok (id ++ sig)
  else Ok [].
Definition unser_signed (nVersion : Z) (inp : bytes) : res ios_failure (bytes * bytes * bytes) :=
  if nVersion >=? VERSION_SIGNED_BLOCK then
    let? id := unser_checked inp 100 in
    let? sig := unser_checked id.2 200 in
    Ok (id.1, sig.1, sig.2)
  else Ok ([], [], inp).

(** [CEquihashInput::SerializationOp]: the header without nonce and solution. *)
Definition equihash_input (h : CBlockHeader) : res ios_failure bytes :=
  let? signed := ser_signed h in
  Ok (ser_u32 (h_nVersion h) ++ h_hashPrevBlock h ++ h_hashMerkleRoot h ++ h_hashFinalSaplingRoot h
      ++ ser_u32 (h_nTime h) ++ ser_u32 (h_nBits h) ++ signed).

(** [CBlockHeader::SerializationOp] *)
Definition header_Serialize (h : CBlockHeader) : res ios_failure bytes :=
  let? signed := ser_signed h in
  Ok (ser_u32 (h_nVersion h) ++ h_hashPrevBlock h ++ h_hashMerkleRoot h ++ h_hashFinalSaplingRoot h
      ++ ser_u32 (h_nTime h) ++ ser_u32 (h_nBits h) ++ signed ++ h_nNonce h ++ ser_bytes (h_nSolution h)).

Definition header_Unserialize (inp : bytes) : res ios_failure (CBlockHeader * bytes) :=
  let? v := unser_i32 inp in
  let? p := stream_read 32 v.2 in
  let? m := stream_read 32 p.2 in
  let? f := stream_read 32 m.2 in
  let? t := ser_readdata32 f.2 in
  let? b := ser_readdata32 t.2 in
  let? s := unser_signed v.1 b.2 in
  let? n := stream_read 32 s.2 in
  let? sol := unser_bytes n.2 in
  Ok ({| h_nVersion := v.1; h_hashPrevBlock := p.1; h_hashMerkleRoot := m.1; h_hashFinalSaplingRoot := f.1;
         h_nTime := t.1; h_nBits := b.1; h_nNonce := n.1; h_nSolution := sol.1;
         h_sPastelID := s.1.1; h_prevMerkleRootSignature := s.1.2 |}, sol.2).

(** The transactions one after the other. *)
Fixpoint ser_txs (txs : list CTransaction) : res ios_failure bytes :=
  match txs with
  | [] => Ok []
  | tx :: txs =>
      let? b := tx_Serialize tx in
      let? r := ser_txs txs in
      Ok (b ++ r)
  end.

Definition block_Serialize (b : Block) : res ios_failure bytes :=
  let? h := header_Serialize (header b) in
  let? txs := ser_txs (b_vtx b) in
  Ok (h ++ WriteCompactSize [] (zlen (b_vtx b)) ++ txs).
Definition block_Unserialize (inp : bytes) : res ios_failure (Block * bytes) :=
  let? h := header_Unserialize inp in
  let? txs := unser_vector tx_Unserialize h.2 in
  Ok ({| header := h.1; b_vtx := txs.1 |}, txs.2).

(** [CBlockHeader::GetHash] *)
Definition header_GetHash `{Crypto} (h : CBlockHeader) : res ios_failure bytes :=
  let? s := header_Serialize h in Ok (hash256 s).

(** [CBlock::BuildMerkleTree] of the hashes of the transactions. *)
Fixpoint tx_hashes `{Crypto} (txs : list CTransaction) : res ios_failure (list bytes) :=
  match txs with
  | [] => Ok []
  | tx :: txs =>
      let? h := GetHash tx in
      let? r := tx_hashes txs in
      Ok (h :: r)
  end.

(** ** Reading back what was written *)

Record header_ok (h : CBlockHeader) : Prop := {
  ho_version : INT32_MIN <= h_nVersion h <= INT32_MAX;
  ho_prev : length (h_hashPrevBlock h) = 32%nat;
  ho_root : length (h_hashMerkleRoot h) = 32%nat;
  ho_sapling : length (h_hashFinalSaplingRoot h) = 32%nat;
  ho_time : 0 <= h_nTime h < 2 ^ 32;
  ho_bits : 0 <= h_nBits h < 2 ^ 32;
  ho_nonce : length (h_nNonce h) = 32%nat;
  ho_solution : zlen (h_nSolution h) <= MAX_DATA_SIZE;
  ho_id : zlen (h_sPastelID h) <= 100;
  ho_sig : zlen (h_prevMerkleRootSignature h) <= 200;
  ho_unsigned : h_nVersion h < VERSION_SIGNED_BLOCK -> h_sPastelID h = [] /\ h_prevMerkleRootSignature h = []
}.

Lemma unser_i32_reads x : INT32_MIN <= x <= INT32_MAX -> reads ser_u32 unser_i32 x.
Proof.
  intros Hx s. unfold ser_u32, ser_writedata32, unser_i32, ser_readdata32. cbn [app].
  rewrite ser_roundtrip by apply u32_range. cbn [res_bind fst snd]. do 2 f_equal. unfold s32, u32, INT32_MIN, INT32_MAX in *.
  rewrite Zplus_mod_idemp_l, Z.mod_small; lia.
Qed.

Lemma ser_checked_ok v nMax : zlen v <= nMax -> ser_checked v nMax = Ok (ser_bytes v).
Proof. intros Hv. unfold ser_checked. by destruct (Z.gtb_spec (zlen v) nMax); [lia|]. Qed.

Lemma unser_checked_ok v nMax s : zlen v <= nMax -> nMax <= MAX_DATA_SIZE -> unser_checked (ser_bytes v ++ s) nMax = Ok (v, s).
Proof.
  intros Hv Hm. unfold unser_checked, ser_bytes.
  rewrite <- app_assoc, ReadCompactSize_max by (pose proof (zlen_nonneg v); unfold MAX_DATA_SIZE in *; lia). cbn [res_bind fst snd].
  destruct (Z.gtb_spec (zlen v) nMax); [lia|]. apply stream_read_app. unfold zlen. lia.
Qed.

Lemma signed_roundtrip h : header_ok h -> exists b, ser_signed h = Ok b /\
  forall t, unser_signed (h_nVersion h) (b ++ t) = Ok (h_sPastelID h, h_prevMerkleRootSignature h, t).
Proof.
  intros Hh. unfold ser_signed, unser_signed. pose proof (ho_unsigned _ Hh) as Hun.
  destruct (Z.geb_spec (h_nVersion h) VERSION_SIGNED_BLOCK).
  - rewrite !ser_checked_ok by apply Hh. cbn [res_bind]. eexists. split; [reflexivity|]. intros t. rewrite <- app_assoc.
    rewrite unser_checked_ok by (done || apply Hh). cbn [res_bind fst snd]. by rewrite unser_checked_ok by (done || apply Hh).
  - exists []. split; [done|]. intros t. by destruct (Hun ltac:(lia)) as [-> ->].
Qed.

Lemma header_roundtrip h : header_ok h ->
  exists s, header_Serialize h = Ok s /\ forall t, header_Unserialize (s ++ t) = Ok (h, t).
Proof.
  intros Hh. destruct (signed_roundtrip h Hh) as (b & Eb & Hread). destruct Hh as [Hv Hp Hm Hf Ht Hb Hn Hs _ _ _].
  unfold header_Serialize. rewrite Eb. cbn [res_bind]. eexists. split; [reflexivity|]. intros t. rewrite <- !app_assoc.
  unfold header_Unserialize. rewrite unser_i32_reads by done. cbn [res_bind fst snd].
  do 3 (rewrite stream_read_app by done; cbn [res_bind fst snd]). do 2 (rewrite reads_u32 by done; cbn [res_bind fst snd]).
  rewrite Hread. cbn [res_bind fst snd]. rewrite stream_read_app by done. cbn [res_bind fst snd].
  rewrite reads_bytes by done. cbn [res_bind fst snd]. by destruct h.
Qed.

(** A block of well-formed transactions. *)
Record block_ok (b : Block) : Prop := {
  bk_header : header_ok (header b);
  bk_count : zlen (b_vtx b) <= MAX_DATA_SIZE;
  bk_txs : Forall tx_wf (b_vtx b)
}.

Lemma ser_txs_ok txs : Forall tx_wf txs -> exists s, ser_txs txs = Ok s /\
  forall t, read_n tx_Unserialize (length txs) (s ++ t) = Ok (txs, t).
Proof.
  induction 1 as [|tx txs Htx _ (s & Es & Hs)]; [by exists []|]. destruct (tx_Serialize_reads tx Htx) as (b & Eb & Hb).
  cbn [ser_txs]. rewrite Eb, Es. cbn [res_bind]. eexists. split; [reflexivity|]. intros t. cbn [length read_n].
  rewrite <- app_assoc, Hb. cbn [res_bind fst snd]. by rewrite Hs.
Qed.

Lemma block_reads b : block_ok b -> exists s, block_Serialize b = Ok s /\ forall t, block_Unserialize (s ++ t) = Ok (b, t).
Proof.
  intros [Hh Hc Ht]. destruct (header_roundtrip _ Hh) as (s & Es & Hs), (ser_txs_ok _ Ht) as (x & Ex & Hx).
  unfold block_Serialize. rewrite Es, Ex. cbn [res_bind]. eexists. split; [reflexivity|]. intros t. rewrite <- !app_assoc.
  unfold block_Unserialize. rewrite Hs. cbn [res_bind fst snd]. unfold unser_vector.
  rewrite ReadCompactSize_max by (pose proof (zlen_nonneg (b_vtx b)); unfold MAX_DATA_SIZE in *; lia). cbn [res_bind fst snd].
  unfold zlen. rewrite Nat2Z.id, Hx. cbn [res_bind fst snd]. by destruct b.
Qed.

(** ** The hash of a block *)

Section Hash.
Context `{Crypto} `{!CryptoLaws _}.

Lemma header_hash_inj h1 h2 s1 s2 : header_ok h1 -> header_ok h2 -> header_Serialize h1 = Ok s1 -> header_Serialize h2 = Ok s2 ->
  s1 = s2 -> h1 = h2.
Proof.
  intros H1 H2 E1 E2 <-. destruct (header_roundtrip _ H1) as (t1 & F1 & R1), (header_roundtrip _ H2) as (t2 & F2 & R2).
  rewrite E1 in F1. rewrite E2 in F2. injection F1 as <-. injection F2 as <-. specialize (R1 []). rewrite R2 in R1. by injection R1.
Qed.

(** The strings hashed to the transaction ids. *)
Definition tx_data (tx : CTransaction) : bytes := match tx_Serialize tx with Ok s => s | Err _ => [] end.

Lemma tx_data_inj tx1 tx2 : tx_wf tx1 -> tx_wf tx2 -> tx_data tx1 = tx_data tx2 -> tx1 = tx2.
Proof.
  intros H1 H2. unfold tx_data. destruct (tx_Serialize_reads _ H1) as (s & -> & R1), (tx_Serialize_reads _ H2) as (t & -> & R2).
  intros <-. specialize (R1 []). rewrite R2 in R1. by injection R1.
Qed.

Lemma tx_hashes_ok txs : Forall tx_wf txs -> tx_hashes txs = Ok (map (fun tx => hash256 (tx_data tx)) txs).
Proof.
  induction 1 as [|tx txs Htx _ IH]; [done|]. cbn [tx_hashes map]. unfold GetHash, tx_data at 1.
  destruct (tx_Serialize_reads _ Htx) as (s & -> & _). cbn [res_bind]. by rewrite IH.
Qed.

Lemma tx_hashes_inj txs1 txs2 : Forall tx_wf txs1 -> Forall tx_wf txs2 -> no_collision (map tx_data txs1 ++ map tx_data txs2) ->
  map (fun tx => hash256 (tx_data tx)) txs1 = map (fun tx => hash256 (tx_data tx)) txs2 -> txs1 = txs2.
Proof.
  intros H1 H2 Hn E. apply list_eq. intros i. pose proof (f_equal (fun l => l !! i) E) as Ei. cbn beta in Ei.
  rewrite !list_lookup_fmap in Ei. destruct (txs1 !! i) as [x|] eqn:E1, (txs2 !! i) as [y|] eqn:E2; try done. f_equal.
  cbn in Ei. injection Ei as Ei. apply tx_data_inj; [exact (Forall_lookup_1 _ _ _ _ H1 E1)|exact (Forall_lookup_1 _ _ _ _ H2 E2)|].
  apply Hn; [| |done]; apply elem_of_app; [left|right]; apply list_elem_of_fmap; eexists; (split; [reflexivity|]); by eapply list_elem_of_lookup_2.
Qed.

(** What is hashed for a block: the header, the transactions and the nodes of the tree. *)
Definition block_strings (b : Block) : list bytes :=
  match header_Serialize (header b) with Ok s => [s] | Err _ => [] end ++ map tx_data (b_vtx b)
  ++ hashed (height (length (b_vtx b))) (map (fun tx => hash256 (tx_data tx)) (b_vtx b)).

(** [CheckBlock] with [fCheckMerkleRoot]: the header has the root of the transactions, and no
    mutation was seen. *)
Definition root_checked (b : Block) : Prop :=
  exists ids, tx_hashes (b_vtx b) = Ok ids /\ BuildMerkleTree ids = Ok (h_hashMerkleRoot (header b), false).

(** C18. The hash of a block determines the whole block: two well-formed blocks with the same
    hash whose Merkle roots were checked, with transactions and with trees of the same height
    (the logarithm, rounded up, of their number), have the same header and the same transactions, unless double SHA-256 collides on strings hashed for them. *)
Theorem block_hash_commits b1 b2 h : block_ok b1 -> block_ok b2 -> root_checked b1 -> root_checked b2 ->
  b_vtx b1 <> [] -> b_vtx b2 <> [] -> Nat.log2_up (length (b_vtx b1)) = Nat.log2_up (length (b_vtx b2)) ->
  no_collision (block_strings b1 ++ block_strings b2) ->
  header_GetHash (header b1) = Ok h -> header_GetHash (header b2) = Ok h -> b1 = b2.
Proof.
  intros [Hh1 _ Ht1] [Hh2 _ Ht2] (i1 & Ei1 & B1) (i2 & Ei2 & B2) Hn1 Hn2 Hl Hc G1 G2.
  rewrite tx_hashes_ok in Ei1, Ei2 by done. injection Ei1 as <-. injection Ei2 as <-.
  unfold header_GetHash, block_strings in *.
  destruct (header_Serialize (header b1)) as [s1|] eqn:E1; [|done]. destruct (header_Serialize (header b2)) as [s2|] eqn:E2; [|done].
  cbn [res_bind] in G1, G2. injection G1 as G1. injection G2 as G2.
  assert (header b1 = header b2) as Eh.
  { eapply header_hash_inj; [done|done|exact E1|exact E2|]. apply Hc; [set_solver|set_solver|congruence]. }
  assert (b_vtx b1 = b_vtx b2) as Et.
  { apply tx_hashes_inj; [done|done|eapply no_collision_sub; [|exact Hc]; set_solver|]. rewrite Eh in B1.
    eapply merkle_root_inj; [..|exact B1|exact B2]; rewrite ?length_map; [| |done|by destruct (b_vtx b1)|by destruct (b_vtx b2)|].
    - apply Forall_map, Forall_forall. intros tx _. unfold hash256. pose proof (sha256_len (sha256 (tx_data tx))) as Hl'. unfold zlen in Hl'. lia.
    - apply Forall_map, Forall_forall. intros tx _. unfold hash256. pose proof (sha256_len (sha256 (tx_data tx))) as Hl'. unfold zlen in Hl'. lia.
    - eapply no_collision_sub; [|exact Hc]. set_solver. }
  by destruct b1, b2; cbn in *; subst.
Qed.
End Hash.

(** ** A concrete block *)

#[local] Instance block_crypto : Crypto := {|
  ripemd160 x := le_bytes 20 (poly_hash x);
  sha1 x := le_bytes 20 (poly_hash x);
  sha256 x := le_bytes 32 (poly_hash x);
  CheckLowS _ := true
|}.
#[local] Instance block_crypto_laws : CryptoLaws block_crypto.
Proof.
  split; intros x; cbn [ripemd160 sha1 sha256 block_crypto]; try apply le_bytes_ok; unfold zlen; by rewrite length_le_bytes.
Qed.

Definition demo_vtx : list CTransaction := [demo_tx; default_tx; demo_tx].
Definition demo_root : bytes :=
  match BuildMerkleTree (map (fun tx => hash256 (tx_data tx)) demo_vtx) with Ok r => r.1 | Err _ => [] end.
Definition demo_header : CBlockHeader := {|
  h_nVersion := 5; h_hashPrevBlock := blob 32 1; h_hashMerkleRoot := demo_root; h_hashFinalSaplingRoot := blob 32 2;
  h_nTime := 1700000000; h_nBits := 0x1f07ffff; h_nNonce := blob 32 3; h_nSolution := blob 36 4; h_sPastelID := blob 86 5;
  h_prevMerkleRootSignature := blob 114 6
|}.
Definition demo_full_block : Block := {| header := demo_header; b_vtx := demo_vtx |}.

Lemma default_tx_wf : tx_wf default_tx.
Proof. split; try done; vm_compute; intuition congruence. Qed.

Lemma demo_full_block_ok : block_ok demo_full_block.
Proof.
  split; [split; vm_compute; intuition congruence|vm_compute; congruence|].
  repeat (apply Forall_cons; split; [apply demo_tx_wf || apply default_tx_wf|]). by apply Forall_nil.
Qed.

Lemma demo_root_checked : root_checked demo_full_block.
Proof.
  exists (map (fun tx => hash256 (tx_data tx)) demo_vtx). split; [apply tx_hashes_ok, demo_full_block_ok|].
  vm_compute. reflexivity.
Qed.

Lemma no_collision_check ps : injective_on hash256 id ps = true -> no_collision ps.
Proof. intros Hi p q Hp Hq E. by apply (injective_on_spec _ _ _ Hi p q). Qed.

Lemma block_hash_commits_witness :
  exists h, header_GetHash demo_header = Ok h /\ demo_full_block = {| header := demo_header; b_vtx := [demo_tx; default_tx; demo_tx] |}.
Proof.
  eexists. split; [vm_compute; reflexivity|].
  eapply (block_hash_commits demo_full_block {| header := demo_header; b_vtx := [demo_tx; default_tx; demo_tx] |});
    [apply demo_full_block_ok|apply demo_full_block_ok|apply demo_root_checked|apply demo_root_checked|done|done|done| |vm_compute; reflexivity|vm_compute; reflexivity].
  apply no_collision_check. vm_compute. reflexivity.
Defined.
