(* ===== verification/TxChecks.v ===== *)
(** * Checks of single transactions

    The consensus and policy checks of [accept_to_mempool.cpp] that look at one transaction:
    [CheckTransaction], [ContextualCheckTransaction], finality and expiry, and the policy of
    standard transactions.

    Parameters: the verdicts of the proof library on shielded descriptions
    ([SaplingVerifier]) and the validation of tickets. *)

From Stdlib Require Import String.
From stdpp Require Import gmap.
From S2P Require Import Prelude Script Interpreter Serialize Compressor Standard Coins CoinsView Amount Upgrades Transaction SigHash.
Open Scope Z_scope.

(** ** Verdicts *)

(** The codes of [consensus/validation.h]. *)
Definition REJECT_INVALID : Z := 0x10.
Definition REJECT_OBSOLETE : Z := 0x11.
Definition REJECT_MISSING_INPUTS : Z := 0x44.
Definition REJECT_SIGNATURE_ERROR : Z := 0x45.

Inductive TxOrigin : Set :=
| ORIGIN_UNKNOWN | MINED_BLOCK | GENERATED | MSG_BLOCK | MSG_TX | MSG_HEADERS | LOADED_BLOCK | NEW_TX.
#[export] Instance TxOrigin_eq_dec : EqDecision TxOrigin.
Proof. solve_decision. Defined.

(** A check ends with [state.DoS] (level, code, reason, possible corruption), with an
    exception, or with an access outside a vector. *)
Inductive check_fail : Type :=
| Reject (nDoS code : Z) (reason : string) (corruption : bool)
| Exception
| BadAccess.

Definition DoS (level code : Z) (reason : string) : check_fail := Reject level code reason false.
Definition invalid (level : Z) (reason : string) : check_fail := Reject level REJECT_INVALID reason false.

Definition lift_ser {A : Type} (r : res ios_failure A) : res check_fail A :=
  match r with Ok a => Ok a | Err _ => Err Exception end.

(** [CValidationState]: what [DoS] and [Error] leave there. *)
Inductive STATE : Set := VALID | INVALID | ERR.
Record CValidationState := {
  mode : STATE; nDoS : Z; strRejectReason : string; chRejectCode : Z; m_bCorruptionPossible : bool; txOrigin : TxOrigin
}.
Definition state_DoS (s : CValidationState) (level code : Z) (reason : string) (corruption : bool) : CValidationState := {|
  mode := match mode s with ERR => ERR | _ => INVALID end;
  nDoS := match mode s with ERR => nDoS s | _ => nDoS s + level end;
  strRejectReason := reason; chRejectCode := code; m_bCorruptionPossible := corruption; txOrigin := txOrigin s
|}.
Definition state_Error (s : CValidationState) (reason : string) : CValidationState := {|
  mode := ERR; nDoS := nDoS s; strRejectReason := match mode s with VALID => reason | _ => strRejectReason s end;
  chRejectCode := chRejectCode s; m_bCorruptionPossible := m_bCorruptionPossible s; txOrigin := txOrigin s
|}.

(** ** Constants *)

Definition SPROUT_MIN_TX_VERSION : Z := 1.
Definition OVERWINTER_MIN_TX_VERSION : Z := 3.
Definition OVERWINTER_MAX_TX_VERSION : Z := 3.
Definition SAPLING_MIN_TX_VERSION : Z := 4.
Definition SAPLING_MAX_TX_VERSION : Z := 4.
Definition MAX_TX_SIZE_BEFORE_SAPLING : Z := 100000.
Definition MAX_TX_SIZE_AFTER_SAPLING : Z := MAX_BLOCK_SIZE.
Definition TX_EXPIRY_HEIGHT_THRESHOLD : Z := 500000000.
Definition TX_EXPIRING_SOON_THRESHOLD : Z := 3.
Definition MAX_P2SH_SIGOPS : Z := 15.

(** [::GetSerializeSize] *)
Definition tx_size (tx : CTransaction) : res check_fail Z := let? s := lift_ser (tx_Serialize tx) in Ok (zlen s).

(** ** Checks without context *)

(** The sum of the outputs. *)
Fixpoint check_outputs (vout : list CTxOut) (nValueOut : Z) : res check_fail Z :=
  match vout with
  | [] => Ok nValueOut
  | o :: vout =>
      check negb (nValue o <? 0) else invalid 100 "bad-txns-vout-negative" ;;
      check negb (nValue o >? MAX_MONEY) else invalid 100 "bad-txns-vout-toolarge" ;;
      let nValueOut := s64 (nValueOut + nValue o) in
      check MoneyRange nValueOut else invalid 100 "bad-txns-txouttotal-toolarge" ;;
      check_outputs vout nValueOut
  end.

(** The loops that insert into a [std::set] and stop at an element that is there. *)
Fixpoint no_duplicates {K : Type} `{Countable K} (seen : gset K) (l : list K) : bool :=
  match l with
  | [] => true
  | x :: l => if bool_decide (x ∈ seen) then false else no_duplicates ({[x]} ∪ seen) l
  end.

Definition check_version (tx : CTransaction) : res check_fail unit :=
  if negb (tx_fOverwintered tx) && (tx_nVersion tx <? SPROUT_MIN_TX_VERSION) then Err (invalid 100 "bad-txns-version-too-low")
  else if tx_fOverwintered tx then
    check negb (tx_nVersion tx <? OVERWINTER_MIN_TX_VERSION) else invalid 100 "bad-tx-overwinter-version-too-low" ;;
    check negb (negb (tx_nVersionGroupId tx =? OVERWINTER_VERSION_GROUP_ID) && negb (tx_nVersionGroupId tx =? SAPLING_VERSION_GROUP_ID))
      else invalid 100 "bad-tx-version-group-id" ;;
    check negb (tx_nExpiryHeight tx >=? TX_EXPIRY_HEIGHT_THRESHOLD) else invalid 100 "bad-tx-expiry-height-too-high" ;;
    Ok tt
  else Ok tt.

(** The value balance, added to the outputs when it is not positive. *)
Definition check_balance (tx : CTransaction) (nValueOut : Z) : res check_fail unit :=
  check negb (is_nil (tx_vShieldedSpend tx) && is_nil (tx_vShieldedOutput tx) && negb (tx_valueBalance tx =? 0))
    else invalid 100 "bad-txns-valuebalance-nonzero" ;;
  check negb ((tx_valueBalance tx >? MAX_MONEY) || (tx_valueBalance tx <? - MAX_MONEY))
    else invalid 100 "bad-txns-valuebalance-toolarge" ;;
  if tx_valueBalance tx <=? 0 then
    check MoneyRange (s64 (nValueOut + s64 (- tx_valueBalance tx))) else invalid 100 "bad-txns-txouttotal-toolarge" ;; Ok tt
  else Ok tt.

Definition check_coinbase_or_inputs (tx : CTransaction) : res check_fail unit :=
  if IsCoinBase tx then
    check negb (zlen (tx_vShieldedSpend tx) >? 0) else invalid 100 "bad-cb-has-spend-description" ;;
    check negb (zlen (tx_vShieldedOutput tx) >? 0) else invalid 100 "bad-cb-has-output-description" ;;
    match tx_vin tx with
    | [] => Err BadAccess
    | i :: _ =>
        check negb ((zlen (scriptSig i) <? 2) || (zlen (scriptSig i) >? 100)) else invalid 100 "bad-cb-length" ;; Ok tt
    end
  else
    check forallb (fun i => negb (outpoint_IsNull (prevout i))) (tx_vin tx) else invalid 10 "bad-txns-prevout-null" ;; Ok tt.

Definition outpoint_key (i : CTxIn) : bytes * Z := (op_hash (prevout i), op_n (prevout i)).

Definition CheckTransactionWithoutProofVerification (tx : CTransaction) : res check_fail unit :=
  let? _ := check_version tx in
  check negb (is_nil (tx_vin tx) && is_nil (tx_vShieldedSpend tx)) else invalid 10 "bad-txns-vin-empty" ;;
  check negb (is_nil (tx_vout tx) && is_nil (tx_vShieldedOutput tx)) else invalid 10 "bad-txns-vout-empty" ;;
  let? size := tx_size tx in
  check negb (size >? MAX_TX_SIZE_AFTER_SAPLING) else invalid 100 "bad-txns-oversize" ;;
  let? nValueOut := check_outputs (tx_vout tx) 0 in
  let? _ := check_balance tx nValueOut in
  check no_duplicates ∅ (map outpoint_key (tx_vin tx)) else invalid 100 "bad-txns-inputs-duplicate" ;;
  check no_duplicates ∅ (map sd_nullifier (tx_vShieldedSpend tx)) else invalid 100 "bad-spend-description-nullifiers-duplicate" ;;
  check_coinbase_or_inputs tx.

(** [CheckTransaction]; the counter of validated transactions is a metric. *)
Definition CheckTransaction (tx : CTransaction) : res check_fail unit := CheckTransactionWithoutProofVerification tx.

(** ** Finality and expiry *)

Definition IsFinalTx (tx : CTransaction) (nBlockHeight nBlockTime : Z) : bool :=
  if tx_nLockTime tx =? 0 then true
  else if tx_nLockTime tx <? (if tx_nLockTime tx <? LOCKTIME_THRESHOLD then nBlockHeight else nBlockTime) then true
  else forallb IsFinal (tx_vin tx).

Definition LOCKTIME_MEDIAN_TIME_PAST : Z := Z.shiftl 1 1.

(** [CheckFinalTx] with the height of the chain, the median time of its tip and the clock. *)
Definition CheckFinalTx (tx : CTransaction) (flags chain_height median_time adjusted_time : Z) : bool :=
  let flags := Z.max flags 0 in
  let nBlockHeight := u32 (chain_height + 1) in
  let nBlockTime := if negb (Z.land flags LOCKTIME_MEDIAN_TIME_PAST =? 0) then median_time else adjusted_time in
  IsFinalTx tx nBlockHeight nBlockTime.

Definition IsExpiredTx (tx : CTransaction) (nBlockHeight : Z) : bool :=
  if (tx_nExpiryHeight tx =? 0) || IsCoinBase tx then false
  else u32 nBlockHeight >? tx_nExpiryHeight tx.

Definition IsExpiringSoonTx (tx : CTransaction) (nNextBlockHeight : Z) : bool :=
  IsExpiredTx tx (u32 (nNextBlockHeight + TX_EXPIRING_SOON_THRESHOLD)).

(** ** Checks against the rules at a height *)

(** The functions of librustzcash, with the verification context they update. *)
Class SaplingVerifier := {
  ctx : Type;
  sapling_verification_ctx_init : ctx;
  sapling_check_spend : ctx -> SpendDescription -> bytes -> bool * ctx;
  sapling_check_output : ctx -> OutputDescription -> bool * ctx;
  sapling_final_check : ctx -> Z -> bytes -> bytes -> bool     (* value balance, signature, hash *)
}.

Inductive TICKET_VALIDATION_STATE : Set := TICKET_INVALID | TICKET_VALID | MISSING_INPUTS | NOT_TICKET.

Section Contextual.
Context `{Crypto} `{SigCrypto} `{SaplingVerifier}.

Definition DOS_LEVEL_BLOCK : Z := 100.
Definition DOS_LEVEL_MEMPOOL : Z := 10.

Fixpoint check_spends (c : ctx) (dos : Z) (dataToBeSigned : bytes) (l : list SpendDescription) : res check_fail ctx :=
  match l with
  | [] => Ok c
  | d :: l =>
      let '(ok, c) := sapling_check_spend c d dataToBeSigned in
      check ok else invalid dos "bad-txns-sapling-spend-description-invalid" ;; check_spends c dos dataToBeSigned l
  end.
Fixpoint check_shielded_outputs (c : ctx) (l : list OutputDescription) : res check_fail ctx :=
  match l with
  | [] => Ok c
  | d :: l =>
      let '(ok, c) := sapling_check_output c d in
      check ok else invalid DOS_LEVEL_BLOCK "bad-txns-sapling-output-description-invalid" ;; check_shielded_outputs c l
  end.

Definition check_overwinter (tx : CTransaction) (nHeight dosConstricting dosRelaxing : Z) (saplingActive : bool) : res check_fail unit :=
  check tx_fOverwintered tx else invalid dosConstricting "tx-overwintered-flag-not-set" ;;
  check negb (IsExpiredTx tx nHeight)
    else invalid (if IsExpiredTx tx (nHeight - 1) then dosConstricting else 0) "tx-overwinter-expired" ;;
  if negb saplingActive then
    check negb (tx_nVersion tx >? OVERWINTER_MAX_TX_VERSION) else invalid dosRelaxing "bad-tx-overwinter-version-too-high" ;;
    check (tx_nVersionGroupId tx =? OVERWINTER_VERSION_GROUP_ID) else invalid dosRelaxing "bad-overwinter-tx-version-group-id" ;;
    Ok tt
  else Ok tt.

Definition check_sapling (tx : CTransaction) (dosConstricting dosRelaxing : Z) : res check_fail unit :=
  if tx_nVersionGroupId tx =? SAPLING_VERSION_GROUP_ID then
    check negb (tx_fOverwintered tx && (tx_nVersion tx <? SAPLING_MIN_TX_VERSION)) else invalid dosConstricting "bad-tx-sapling-version-too-low" ;;
    check negb (tx_fOverwintered tx && (tx_nVersion tx >? SAPLING_MAX_TX_VERSION)) else invalid dosRelaxing "bad-tx-sapling-version-too-high" ;;
    Ok tt
  else check negb (tx_fOverwintered tx) else invalid dosRelaxing "bad-sapling-tx-version-group-id" ;; Ok tt.

(** The shielded part: signature hash, spends, outputs and the binding signature. *)
Definition check_shielded (tx : CTransaction) (consensusBranchId dosRelaxing : Z) : res check_fail unit :=
  if negb (is_nil (tx_vShieldedSpend tx)) || negb (is_nil (tx_vShieldedOutput tx)) then
    match SignatureHash [] tx NOT_AN_INPUT SIGHASH_ALL 0 consensusBranchId None with
    | Err logic_error => Err (invalid DOS_LEVEL_BLOCK "error-computing-signature-hash")
    | Err undefined => Err BadAccess
    | Ok dataToBeSigned =>
        let? c := check_spends sapling_verification_ctx_init dosRelaxing dataToBeSigned (tx_vShieldedSpend tx) in
        let? c := check_shielded_outputs c (tx_vShieldedOutput tx) in
        check sapling_final_check c (tx_valueBalance tx) (tx_bindingSig tx) dataToBeSigned
          else invalid dosRelaxing "bad-txns-sapling-binding-signature-invalid" ;; Ok tt
    end
  else Ok tt.

(** [ContextualCheckTransaction]: [origin] and [isIBD] set the level of a rejection; [ticket]
    is the verdict of [ValidateIfTicketTransaction] for the transaction. *)
Definition ContextualCheckTransaction (tx : CTransaction) (origin : TxOrigin) (isIBD : bool) (params : upgrade_table) (nHeight : Z)
    (ticket : TICKET_VALIDATION_STATE) : res check_fail unit :=
  let overwinterActive := NetworkUpgradeActive nHeight params UPGRADE_OVERWINTER in
  let saplingActive := NetworkUpgradeActive nHeight params UPGRADE_SAPLING in
  let isMined := bool_decide (origin ∈ [MINED_BLOCK; GENERATED; LOADED_BLOCK]) in
  let dosConstricting := if isMined then DOS_LEVEL_BLOCK else DOS_LEVEL_MEMPOOL in
  let dosRelaxing := if isMined then DOS_LEVEL_BLOCK else if isIBD then 0 else DOS_LEVEL_MEMPOOL in
  check negb (negb overwinterActive && tx_fOverwintered tx) else invalid dosRelaxing "tx-overwinter-not-active" ;;
  let? _ := (if overwinterActive then check_overwinter tx nHeight dosConstricting dosRelaxing saplingActive else Ok tt) in
  let? _ := (if saplingActive then check_sapling tx dosConstricting dosRelaxing
             else let? size := tx_size tx in
                  check negb (size >? MAX_TX_SIZE_BEFORE_SAPLING) else invalid dosRelaxing "bad-txns-oversize" ;; Ok tt) in
  let? _ := check_shielded tx (CurrentEpochBranchId nHeight params) dosRelaxing in
  match ticket with
  | NOT_TICKET | TICKET_VALID => Ok tt
  | MISSING_INPUTS => Err (DoS 0 REJECT_MISSING_INPUTS "tx-missing-inputs")
  | TICKET_INVALID => Err (invalid 10 "bad-tx-invalid-ticket")
  end.
End Contextual.

(** ** Policy *)

(** [CTxOut::GetDustThreshold] and [IsDust], with the rate in patoshis per kilobyte. *)
Definition GetDustThreshold (minRelayTxFee : Z) (o : CTxOut) : Z :=
  if IsUnspendable (scriptPubKey o) then 0
  else s64 (3 * GetFee minRelayTxFee (zlen (ser_txout o) + 148)).
Definition IsDust (minRelayTxFee : Z) (o : CTxOut) : bool := nValue o <? GetDustThreshold minRelayTxFee o.

Definition SPROUT_MAX_CURRENT_VERSION : Z := 2.
Definition OVERWINTER_MIN_CURRENT_VERSION : Z := 3.
Definition OVERWINTER_MAX_CURRENT_VERSION : Z := 3.
Definition SAPLING_MIN_CURRENT_VERSION : Z := 4.
Definition SAPLING_MAX_CURRENT_VERSION : Z := 4.

(** The options and the chain parameter the policy depends on. *)
Record standard_policy := {
  sp_solver : policy; fIsBareMultisigStd : bool; minRelayTxFee : Z; burn_address : bytes
}.

Definition because (reason : string) : option string := Some reason.

(** The loop over the outputs: the number of data outputs; [Err None] is an access outside a
    vector, which [IsStandard] never makes. *)
Fixpoint standard_outputs (pol : standard_policy) (vout : list CTxOut) (nDataOut : Z) : res (option string) Z :=
  match vout with
  | [] => Ok nDataOut
  | o :: vout =>
      match IsStandard (sp_solver pol) (scriptPubKey o) with
      | None => Err None
      | Some (false, _) => Err (because "scriptpubkey")
      | Some (true, whichType) =>
          let nDataOut := if bool_decide (whichType = TX_NULL_DATA) then nDataOut + 1 else nDataOut in
          check negb (bool_decide (whichType = TX_MULTISIG) && negb (fIsBareMultisigStd pol)) else because "bare-multisig" ;;
          let bSkipDustCheck := bool_decide (whichType ∈ [TX_PUBKEYHASH; TX_SCRIPTHASH])
                                && bytes_eqb (AddressHash (scriptPubKey o)) (burn_address pol) in
          check bSkipDustCheck || negb (IsDust (minRelayTxFee pol) o) else because "dust" ;;
          standard_outputs pol vout nDataOut
      end
  end.

Fixpoint standard_inputs (vin : list CTxIn) : res (option string) unit :=
  match vin with
  | [] => Ok tt
  | i :: vin =>
      check negb (zlen (scriptSig i) >? 1650) else because "scriptsig-size" ;;
      check IsPushOnly (scriptSig i) else because "scriptsig-not-pushonly" ;;
      standard_inputs vin
  end.

(** [IsStandardTx]: the reason when it is not. *)
Definition IsStandardTx (pol : standard_policy) (tx : CTransaction) (params : upgrade_table) (nHeight : Z) : res (option string) unit :=
  let outside lo hi := (tx_nVersion tx >? hi) || (tx_nVersion tx <? lo) in
  let? _ := (if NetworkUpgradeActive nHeight params UPGRADE_SAPLING then
               check negb (outside SAPLING_MIN_CURRENT_VERSION SAPLING_MAX_CURRENT_VERSION) else because "sapling-version" ;; Ok tt
             else if NetworkUpgradeActive nHeight params UPGRADE_OVERWINTER then
               check negb (outside OVERWINTER_MIN_CURRENT_VERSION OVERWINTER_MAX_CURRENT_VERSION) else because "overwinter-version" ;; Ok tt
             else
               check negb (outside SPROUT_MIN_CURRENT_VERSION SPROUT_MAX_CURRENT_VERSION) else because "version" ;; Ok tt) in
  let? _ := standard_inputs (tx_vin tx) in
  let? nDataOut := standard_outputs pol (tx_vout tx) 0 in
  check negb (nDataOut >? 1) else because "multi-op-return" ;; Ok tt.

(** [AreInputsStandard] for an output being spent: [Some b] when the verdict [b] is reached,
    [None] to go on with the next input; [Err] when a script aborts. *)
Definition input_standard `{Crypto} (pol : policy) (prevScript scriptSig : bytes) (consensusBranchId : Z) : res unit (option bool) :=
  match Solver pol prevScript [] with
  | None => Err tt
  | Some (false, _, _) => Ok (Some false)
  | Some (true, whichType, vSolutions) =>
      let nArgsExpected := ScriptSigArgsExpected whichType vSolutions in
      if nArgsExpected <? 0 then Ok (Some false)
      else
        match EvalScript [] scriptSig 0 base_checker consensusBranchId with
        | Err (ScriptFail _) => Ok (Some false)
        | Err _ => Err tt
        | Ok vStack =>
            let compare expected := if zlen vStack =? u32 expected then Ok None else Ok (Some false) in
            if bool_decide (whichType = TX_SCRIPTHASH) then
              match last vStack with
              | None => Ok (Some false)
              | Some subscript =>
                  match Solver pol subscript [] with
                  | None => Err tt
                  | Some (true, whichType2, vSolutions2) =>
                      let tmpExpected := ScriptSigArgsExpected whichType2 vSolutions2 in
                      if tmpExpected <? 0 then Ok (Some false) else compare (s32 (nArgsExpected + tmpExpected))
                  | Some (false, _, _) => Ok (Some (GetSigOpCount subscript true <=? MAX_P2SH_SIGOPS))
                  end
              end
            else compare nArgsExpected
        end
  end.

Section Inputs.
Context `{CacheParams} {V : Type} `{!CCoinsView V} `{Crypto}.

(** The loop over the inputs; the first verdict ends it. *)
Fixpoint inputs_standard_loop (pol : policy) (mapInputs : CCoinsViewCache V) (vin : list CTxIn) (consensusBranchId : Z)
  : res unit (bool * CCoinsViewCache V) :=
  match vin with
  | [] => Ok (true, mapInputs)
  | i :: vin =>
      match GetOutputFor mapInputs (op_hash (prevout i)) (op_n (prevout i)) with
      | Err _ => Err tt
      | Ok (prev, mapInputs) =>
          let? r := input_standard pol (scriptPubKey prev) (scriptSig i) consensusBranchId in
          match r with
          | Some b => Ok (b, mapInputs)
          | None => inputs_standard_loop pol mapInputs vin consensusBranchId
          end
      end
  end.

Definition AreInputsStandard (pol : policy) (tx : CTransaction) (mapInputs : CCoinsViewCache V) (consensusBranchId : Z)
  : res unit (bool * CCoinsViewCache V) :=
  if IsCoinBase tx then Ok (true, mapInputs) else inputs_standard_loop pol mapInputs (tx_vin tx) consensusBranchId.
End Inputs.

(** [CreateNewContextualCMutableTransaction] *)
Definition CreateNewContextualCMutableTransaction (params : upgrade_table) (expiryDelta nHeight : Z) : CTransaction :=
  if NetworkUpgradeActive nHeight params UPGRADE_OVERWINTER then
    let expiry := u32 (nHeight + expiryDelta) in
    let sapling := NetworkUpgradeActive nHeight params UPGRADE_SAPLING in
    {| tx_fOverwintered := true;
       tx_nVersion := if sapling then SAPLING_TX_VERSION else OVERWINTER_TX_VERSION;
       tx_nVersionGroupId := if sapling then SAPLING_VERSION_GROUP_ID else OVERWINTER_VERSION_GROUP_ID;
       tx_vin := []; tx_vout := []; tx_nLockTime := 0;
       tx_nExpiryHeight := if sapling then expiry else Z.min expiry (u32 (nActivationHeight (params UPGRADE_SAPLING) - 1));
       tx_valueBalance := 0; tx_vShieldedSpend := []; tx_vShieldedOutput := []; tx_bindingSig := no_bindingSig |}
  else default_tx.

(** ** What an accepted transaction looks like *)

(** The rules of [CheckTransaction]. *)
Record tx_valid (tx : CTransaction) : Prop := {
  tv_version : if tx_fOverwintered tx
               then OVERWINTER_MIN_TX_VERSION <= tx_nVersion tx /\ tx_nExpiryHeight tx < TX_EXPIRY_HEIGHT_THRESHOLD /\
                    (tx_nVersionGroupId tx = OVERWINTER_VERSION_GROUP_ID \/ tx_nVersionGroupId tx = SAPLING_VERSION_GROUP_ID)
               else SPROUT_MIN_TX_VERSION <= tx_nVersion tx;
  tv_in : tx_vin tx <> [] \/ tx_vShieldedSpend tx <> [];
  tv_out : tx_vout tx <> [] \/ tx_vShieldedOutput tx <> [];
  tv_size : exists s, tx_Serialize tx = Ok s /\ zlen s <= MAX_TX_SIZE_AFTER_SAPLING;
  tv_values : Forall (fun o => 0 <= nValue o <= MAX_MONEY) (tx_vout tx);
  tv_balance : - MAX_MONEY <= tx_valueBalance tx <= MAX_MONEY;
  tv_no_source : tx_vShieldedSpend tx = [] -> tx_vShieldedOutput tx = [] -> tx_valueBalance tx = 0;
  tv_total : out_sum (tx_vout tx) + shielded_out tx <= MAX_MONEY;
  tv_inputs : NoDup (map outpoint_key (tx_vin tx));
  tv_nullifiers : NoDup (map sd_nullifier (tx_vShieldedSpend tx));
  tv_coinbase : IsCoinBase tx = true -> tx_vShieldedSpend tx = [] /\ tx_vShieldedOutput tx = [] /\
                exists i, tx_vin tx = [i] /\ 2 <= zlen (scriptSig i) <= 100;
  tv_not_null : IsCoinBase tx = false -> Forall (fun i => outpoint_IsNull (prevout i) = false) (tx_vin tx)
}.

Lemma no_duplicates_spec {K} `{Countable K} (seen : gset K) l :
  no_duplicates seen l = true <-> NoDup l /\ forall x, x ∈ l -> x ∉ seen.
Proof.
  revert seen. induction l as [|x l IH]; intros seen; cbn [no_duplicates].
  - split; [intros _; split; [constructor|intros x Hx; by apply not_elem_of_nil in Hx]|done].
  - case_bool_decide as Hx.
    + split; [done|]. intros [_ Hn]. by destruct (Hn x (list_elem_of_here _ _)).
    + rewrite IH. split.
      * intros [Hd Hn]. split; [constructor; [intros Hin; by apply (Hn x Hin), elem_of_union_l, elem_of_singleton|done]|].
        intros y [->|Hy]%elem_of_cons; [done|]. specialize (Hn y Hy). set_solver.
      * intros [Hd Hn]. apply NoDup_cons in Hd as [Hx' Hd]. split; [done|]. intros y Hy [Hys%elem_of_singleton|Hys]%elem_of_union.
        -- by subst.
        -- by apply (Hn y); [apply list_elem_of_further|].
Qed.

Lemma check_outputs_spec vout acc : 0 <= acc <= MAX_MONEY -> Forall txout_ok vout ->
  match check_outputs vout acc with
  | Ok v => Forall (fun o => 0 <= nValue o <= MAX_MONEY) vout /\ acc + out_sum vout <= MAX_MONEY /\ v = acc + out_sum vout
  | Err e => ~ (Forall (fun o => 0 <= nValue o <= MAX_MONEY) vout /\ acc + out_sum vout <= MAX_MONEY) /\ exists r, e = invalid 100 r
  end.
Proof.
  intros Ha Hok. revert acc Ha. induction Hok as [|o vout Ho Hok IH]; intros acc Ha; cbn [check_outputs out_sum foldr]; [split; [constructor|]; lia|].
  fold (out_sum vout). destruct (Z.ltb_spec (nValue o) 0); cbn [negb guard_err res_bind].
  { split; [|by eexists]. intros [Hf _]. apply Forall_cons in Hf as [Hv _]. lia. }
  destruct (Z.gtb_spec (nValue o) MAX_MONEY); cbn [negb guard_err res_bind].
  { split; [|by eexists]. intros [Hf _]. apply Forall_cons in Hf as [Hv _]. lia. }
  rewrite money_s64 by lia. destruct (MoneyRange (acc + nValue o)) eqn:E; cbn [guard_err res_bind].
  - apply MoneyRange_spec in E. specialize (IH (acc + nValue o) E). destruct (check_outputs vout _) as [v|e].
    + destruct IH as (Hf & Hs & ->). split; [by constructor|]. lia.
    + destruct IH as [Hn He]. split; [|done]. intros [Hf Hs]. apply Forall_cons in Hf as [_ Hf]. apply Hn. split; [done|lia].
  - split; [|by eexists]. intros [Hf Hs]. apply Forall_cons in Hf as [_ Hf].
    assert (0 <= out_sum vout). { apply out_sum_nonneg. eapply Forall_impl; [exact Hf|]. intros x Hx. by apply MoneyRange_spec. }
    assert (MoneyRange (acc + nValue o) = true) by (apply MoneyRange_spec; lia). congruence.
Qed.

(** A check that accepts exactly when [P] holds, and otherwise rejects and penalises. *)
Definition rejects (e : check_fail) : Prop := exists d r c, e = Reject d REJECT_INVALID r c /\ 10 <= d.
Definition decides {A : Type} (m : res check_fail A) (P : Prop) : Prop :=
  match m with Ok _ => P | Err e => ~ P /\ rejects e end.

Lemma guard_decides b d r : 10 <= d -> decides (guard_err b (invalid d r)) (b = true).
Proof. intros Hd. destruct b; cbn; [done|]. split; [done|]. by exists d, r, false. Qed.
Lemma bind_decides {A B} (m : res check_fail A) (k : A -> res check_fail B) P Q :
  decides m P -> (forall a, m = Ok a -> P -> decides (k a) Q) -> decides (res_bind m k) (P /\ Q).
Proof.
  unfold decides. destruct m as [a|e]; cbn [res_bind].
  - intros HP Hk. specialize (Hk a eq_refl HP). destruct (k a); [done|]. destruct Hk as [Hn Hr]. split; [tauto|done].
  - intros [Hn Hr] _. split; [tauto|done].
Qed.
Lemma ok_decides (P : Prop) : P -> decides (Ok tt : res check_fail unit) P.
Proof. done. Qed.
Lemma decides_iff {A} (m : res check_fail A) P Q : decides m P -> (P <-> Q) -> decides m Q.
Proof. unfold decides. destruct m; tauto. Qed.

Lemma check_version_spec tx : decides (check_version tx)
  (if tx_fOverwintered tx
   then OVERWINTER_MIN_TX_VERSION <= tx_nVersion tx /\ tx_nExpiryHeight tx < TX_EXPIRY_HEIGHT_THRESHOLD /\
        (tx_nVersionGroupId tx = OVERWINTER_VERSION_GROUP_ID \/ tx_nVersionGroupId tx = SAPLING_VERSION_GROUP_ID)
   else SPROUT_MIN_TX_VERSION <= tx_nVersion tx).
Proof.
  unfold check_version. destruct (tx_fOverwintered tx); cbn [negb andb].
  - eapply decides_iff; [apply bind_decides; [by apply guard_decides|intros _ _ _]; apply bind_decides; [by apply guard_decides|intros _ _ _];
      apply bind_decides; [by apply guard_decides|intros _ _ _]; by apply (ok_decides True)|].
    rewrite !negb_true_iff, andb_false_iff, !negb_false_iff, !Z.eqb_eq, Z.ltb_ge, Z.geb_leb, Z.leb_gt. tauto.
  - destruct (Z.ltb_spec (tx_nVersion tx) SPROUT_MIN_TX_VERSION); cbn; [|done]. split; [lia|]. by eexists _, _, _.
Qed.

Lemma is_nil_spec {A} (l : list A) : is_nil l = true <-> l = [].
Proof. by destruct l. Qed.

Lemma check_balance_spec tx v : INT64_MIN <= tx_valueBalance tx <= INT64_MAX -> 0 <= v <= MAX_MONEY ->
  decides (check_balance tx v) ((- MAX_MONEY <= tx_valueBalance tx <= MAX_MONEY) /\
    (tx_vShieldedSpend tx = [] -> tx_vShieldedOutput tx = [] -> tx_valueBalance tx = 0) /\ v + shielded_out tx <= MAX_MONEY).
Proof.
  intros Hb Hv. unfold check_balance.
  eapply decides_iff with (P := _ /\ _ /\ (v + shielded_out tx <= MAX_MONEY)).
  - apply bind_decides; [by apply guard_decides|intros _ _ _]. apply bind_decides; [by apply guard_decides|intros _ _ Hr].
    rewrite negb_true_iff, orb_false_iff in Hr. destruct Hr as [H1 H2]. zbool. unfold shielded_out.
    destruct (Z.leb_spec (tx_valueBalance tx) 0).
    + rewrite (s64_id (- _)) by (unfold INT64_MIN, INT64_MAX, MAX_MONEY, COIN in *; lia).
      rewrite s64_id by (unfold INT64_MIN, INT64_MAX, MAX_MONEY, COIN in *; lia).
      eapply decides_iff; [apply bind_decides; [by apply guard_decides|intros _ _ _; by apply (ok_decides True)]|].
      rewrite MoneyRange_spec. lia.
    + apply ok_decides. lia.
  - rewrite !negb_true_iff, orb_false_iff, !andb_false_iff, negb_false_iff, Z.eqb_eq, Z.gtb_ltb, !Z.ltb_ge.
    split.
    + intros (H1 & H2 & H3). split; [lia|]. split; [|done]. intros E1 E2. rewrite E1, E2 in H1. by destruct H1 as [[|]|].
    + intros (H1 & H2 & H3). split; [|split; [lia|done]]. destruct (tx_vShieldedSpend tx), (tx_vShieldedOutput tx); cbn; auto.
Qed.

Lemma check_coinbase_spec tx : decides (check_coinbase_or_inputs tx)
  ((IsCoinBase tx = true -> tx_vShieldedSpend tx = [] /\ tx_vShieldedOutput tx = [] /\
      exists i, tx_vin tx = [i] /\ 2 <= zlen (scriptSig i) <= 100) /\
   (IsCoinBase tx = false -> Forall (fun i => outpoint_IsNull (prevout i) = false) (tx_vin tx))).
Proof.
  unfold check_coinbase_or_inputs. destruct (IsCoinBase tx) eqn:Ec.
  - unfold IsCoinBase in Ec. destruct (tx_vin tx) as [|i [|]] eqn:Ei; [done| |done].
    eapply decides_iff; [apply bind_decides; [by apply guard_decides|intros _ _ _]; apply bind_decides; [by apply guard_decides|intros _ _ _];
      apply bind_decides; [by apply guard_decides|intros _ _ _]; by apply (ok_decides True)|].
    rewrite !negb_true_iff, orb_false_iff, !Z.gtb_ltb, !Z.ltb_ge.
    assert (forall A (l : list A), zlen l <= 0 <-> l = []) as Hz.
    { intros A [|x l]; unfold zlen; cbn; split; try done; lia. }
    rewrite !Hz. split.
    + intros (H1 & H2 & H3 & _). split; [|done]. intros _. split; [done|]. split; [done|]. exists i. split; [done|lia].
    + intros [H1 _]. destruct (H1 eq_refl) as (? & ? & i' & [= <-] & ?). repeat split; try done; lia.
  - eapply decides_iff; [apply bind_decides; [by apply guard_decides|intros _ _ _; by apply (ok_decides True)]|].
    rewrite forallb_forall, Forall_forall. split.
    + intros [Hf _]. split; [done|]. intros _ i Hi. apply negb_true_iff, Hf. by apply list_elem_of_In.
    + intros [_ Hf]. split; [|done]. intros i Hi. apply negb_true_iff, Hf; [done|]. by apply list_elem_of_In.
Qed.

(** The rules in the order of the code, for a transaction that serializes to [n] bytes. *)
Lemma tx_valid_rules tx s : tx_Serialize tx = Ok s ->
  tx_valid tx <->
  (if tx_fOverwintered tx
   then OVERWINTER_MIN_TX_VERSION <= tx_nVersion tx /\ tx_nExpiryHeight tx < TX_EXPIRY_HEIGHT_THRESHOLD /\
        (tx_nVersionGroupId tx = OVERWINTER_VERSION_GROUP_ID \/ tx_nVersionGroupId tx = SAPLING_VERSION_GROUP_ID)
   else SPROUT_MIN_TX_VERSION <= tx_nVersion tx) /\
  negb (is_nil (tx_vin tx) && is_nil (tx_vShieldedSpend tx)) = true /\
  negb (is_nil (tx_vout tx) && is_nil (tx_vShieldedOutput tx)) = true /\
  negb (zlen s >? MAX_TX_SIZE_AFTER_SAPLING) = true /\
  (Forall (fun o => 0 <= nValue o <= MAX_MONEY) (tx_vout tx) /\ 0 + out_sum (tx_vout tx) <= MAX_MONEY) /\
  ((- MAX_MONEY <= tx_valueBalance tx <= MAX_MONEY) /\
    (tx_vShieldedSpend tx = [] -> tx_vShieldedOutput tx = [] -> tx_valueBalance tx = 0) /\ out_sum (tx_vout tx) + shielded_out tx <= MAX_MONEY) /\
  no_duplicates ∅ (map outpoint_key (tx_vin tx)) = true /\
  no_duplicates ∅ (map sd_nullifier (tx_vShieldedSpend tx)) = true /\
  (IsCoinBase tx = true -> tx_vShieldedSpend tx = [] /\ tx_vShieldedOutput tx = [] /\
      exists i, tx_vin tx = [i] /\ 2 <= zlen (scriptSig i) <= 100) /\
  (IsCoinBase tx = false -> Forall (fun i => outpoint_IsNull (prevout i) = false) (tx_vin tx)).
Proof.
  intros Es. rewrite !no_duplicates_spec, Z.gtb_ltb, !negb_true_iff, Z.ltb_ge, !andb_false_iff, <- !(not_true_iff_false (is_nil _)), !is_nil_spec.
  split.
  - intros [H1 H2 H3 (s' & E' & H4) H5 H6 H7 H8 H9 H10 H11 H12]. rewrite Es in E'. injection E' as <-.
    assert (0 <= shielded_out tx) by (unfold shielded_out; lia).
    split; [exact H1|]. split; [exact H2|]. split; [exact H3|]. split; [exact H4|]. split; [split; [exact H5|lia]|].
    split; [by split|]. split; [split; [done|intros x _; apply not_elem_of_empty]|].
    split; [split; [done|intros x _; apply not_elem_of_empty]|]. by split.
  - intros (H1 & H2 & H3 & H4 & [H5 _] & (H6 & H7 & H8) & [H9 _] & [H10 _] & H11 & H12). split; try done. by exists s.
Qed.

Lemma tx_Serialize_err tx e : tx_Serialize tx = Err e -> tx_fOverwintered tx = true /\ tx_v3 tx = false /\ tx_v4 tx = false.
Proof. unfold tx_Serialize. fold (tx_v3 tx) (tx_v4 tx). by destruct (tx_fOverwintered tx), (tx_v3 tx), (tx_v4 tx). Qed.

Lemma CheckTransaction_spec tx : Forall txout_ok (tx_vout tx) -> INT64_MIN <= tx_valueBalance tx <= INT64_MAX ->
  match CheckTransaction tx with
  | Ok _ => tx_valid tx
  | Err e => ~ tx_valid tx /\ (rejects e \/ e = Exception /\ tx_fOverwintered tx = true /\ tx_v3 tx = false /\ tx_v4 tx = false)
  end.
Proof.
  intros Hout Hbal. unfold CheckTransaction, CheckTransactionWithoutProofVerification, tx_size. destruct (tx_Serialize tx) as [s|e] eqn:Es.
  - assert (forall m : res check_fail unit, decides m (tx_valid tx) -> match m with Ok _ => tx_valid tx | Err e =>
      ~ tx_valid tx /\ (rejects e \/ e = Exception /\ tx_fOverwintered tx = true /\ tx_v3 tx = false /\ tx_v4 tx = false) end) as Hd
      by (intros [|]; cbn; tauto).
    apply Hd. eapply decides_iff; [|symmetry; by apply tx_valid_rules]. cbn [lift_ser res_bind].
    apply bind_decides; [apply check_version_spec|intros _ _ _]. do 3 (apply bind_decides; [by apply guard_decides|intros _ _ _]).
    pose proof (check_outputs_spec (tx_vout tx) 0 ltac:(unfold MAX_MONEY, COIN; lia) Hout) as Hc.
    apply bind_decides.
    { unfold decides. destruct (check_outputs (tx_vout tx) 0); [tauto|]. destruct Hc as [Hn [r ->]]. split; [done|]. by exists 100, r, false. }
    intros v Ev [Hf Hs]. rewrite Ev in Hc. destruct Hc as (_ & _ & ->). rewrite Z.add_0_l.
    apply bind_decides; [apply check_balance_spec; [done|]|intros _ _ _].
    { split; [|lia]. apply out_sum_nonneg. eapply Forall_impl; [exact Hf|]. intros x Hx. by apply MoneyRange_spec. }
    do 2 (apply bind_decides; [by apply guard_decides|intros _ _ _]). apply check_coinbase_spec.
  - assert (~ tx_valid tx) as Hn by (intros [_ _ _ (s & Es' & _)]; congruence). apply tx_Serialize_err in Es. cbn [lift_ser res_bind].
    pose proof (check_version_spec tx) as Hv. destruct (check_version tx); cbn [res_bind]; [|split; [done|left; apply Hv]].
    do 2 (match goal with |- context [guard_err ?b _] => destruct b; cbn [guard_err res_bind]; [|split; [done|left; by eexists _, _, _]] end).
    split; [done|]. by right.
Qed.

(** C21. [CheckTransaction] accepts exactly the transactions that obey the rules on versions,
    sizes, values, duplicates and coinbases; every other transaction is rejected with a
    penalty, except that a transaction of an unknown format, which cannot come from the wire,
    makes the size computation throw. *)
Theorem CheckTransaction_correct tx : Forall txout_ok (tx_vout tx) -> INT64_MIN <= tx_valueBalance tx <= INT64_MAX ->
  match CheckTransaction tx with
  | Ok _ => tx_valid tx
  | Err e => ~ tx_valid tx /\ (rejects e \/ e = Exception /\ tx_fOverwintered tx = true /\ tx_v3 tx = false /\ tx_v4 tx = false)
  end.
Proof. apply CheckTransaction_spec. Qed.

(** ** The formats of an epoch *)

Section Epoch.
Context `{Crypto} `{SigCrypto} `{SaplingVerifier}.

Lemma check_spends_ok c dos d l c' : check_spends c dos d l = Ok c' -> Forall (fun s => exists c0, (sapling_check_spend c0 s d).1 = true) l.
Proof.
  revert c. induction l as [|s l IH]; intros c E; [constructor|]. cbn [check_spends] in E.
  destruct (sapling_check_spend c s d) as [[] c1] eqn:Es; cbn [guard_err res_bind] in E; [|done].
  constructor; [by exists c; rewrite Es|by apply (IH c1)].
Qed.
Lemma check_shielded_outputs_ok c l c' : check_shielded_outputs c l = Ok c' -> Forall (fun o => exists c0, (sapling_check_output c0 o).1 = true) l.
Proof.
  revert c. induction l as [|o l IH]; intros c E; [constructor|]. cbn [check_shielded_outputs] in E.
  destruct (sapling_check_output c o) as [[] c1] eqn:Es; cbn [guard_err res_bind] in E; [|done].
  constructor; [by exists c; rewrite Es|by apply (IH c1)].
Qed.

(** The proofs and signatures of the shielded part verify for the hash [d]. *)
Record shielded_verified (tx : CTransaction) (d : bytes) : Prop := {
  sv_spends : Forall (fun s => exists c, (sapling_check_spend c s d).1 = true) (tx_vShieldedSpend tx);
  sv_outputs : Forall (fun o => exists c, (sapling_check_output c o).1 = true) (tx_vShieldedOutput tx);
  sv_binding : exists c, sapling_final_check c (tx_valueBalance tx) (tx_bindingSig tx) d = true
}.

Lemma check_shielded_ok tx branch dos : check_shielded tx branch dos = Ok tt -> shielded tx = true ->
  exists d, SignatureHash [] tx NOT_AN_INPUT SIGHASH_ALL 0 branch None = Ok d /\ shielded_verified tx d.
Proof.
  unfold check_shielded, shielded. rewrite negb_andb. intros E Hs. rewrite Hs in E.
  destruct (SignatureHash _ _ _ _ _ _ _) as [d|[]] eqn:Ed; [|done|done]. exists d. split; [done|].
  apply res_bind_Ok in E as (c1 & E1 & E). apply res_bind_Ok in E as (c2 & E2 & E).
  split; [by eapply check_spends_ok|by eapply check_shielded_outputs_ok|].
  exists c2. by destruct (sapling_final_check _ _ _ _).
Qed.

Lemma ContextualCheckTransaction_spec tx origin isIBD params nHeight ticket :
  CheckTransaction tx = Ok tt -> ContextualCheckTransaction tx origin isIBD params nHeight ticket = Ok tt ->
  (if NetworkUpgradeActive nHeight params UPGRADE_OVERWINTER
   then (if NetworkUpgradeActive nHeight params UPGRADE_SAPLING then tx_v4 tx = true else tx_v3 tx = true) /\ IsExpiredTx tx nHeight = false
   else tx_fOverwintered tx = false) /\
  (shielded tx = true -> exists d, SignatureHash [] tx NOT_AN_INPUT SIGHASH_ALL 0 (CurrentEpochBranchId nHeight params) None = Ok d /\
     shielded_verified tx d) /\
  (ticket = NOT_TICKET \/ ticket = TICKET_VALID).
Proof.
  unfold CheckTransaction, CheckTransactionWithoutProofVerification. intros E0 E.
  apply res_bind_Ok in E0 as ([] & Ev & _). pose proof (check_version_spec tx) as Hv. rewrite Ev in Hv. cbn in Hv.
  unfold ContextualCheckTransaction in E.
  set (ow := NetworkUpgradeActive nHeight params UPGRADE_OVERWINTER) in *. set (sp := NetworkUpgradeActive nHeight params UPGRADE_SAPLING) in *.
  apply res_bind_Ok in E as ([] & E1 & E). apply res_bind_Ok in E as ([] & E2 & E). apply res_bind_Ok in E as ([] & E3 & E).
  apply res_bind_Ok in E as ([] & E4 & E). split; [|split; [by eapply check_shielded_ok|by destruct ticket; [|right| |left]]].
  destruct ow; cbn [negb andb] in E1.
  - unfold check_overwinter in E2. destruct (tx_fOverwintered tx) eqn:Eo; cbn [guard_err res_bind] in E2; [|done].
    destruct (IsExpiredTx tx nHeight) eqn:Ex; cbn [negb guard_err res_bind] in E2; [done|]. split; [|done].
    unfold tx_v4, tx_v3, isSaplingV4, isOverwinterV3. rewrite Eo. destruct sp; cbn [negb] in E2.
    + unfold check_sapling in E3. rewrite Eo in E3. destruct (tx_nVersionGroupId tx =? SAPLING_VERSION_GROUP_ID) eqn:Eg; cbn [andb negb guard_err res_bind] in E3; [|done].
      res_inv E3. cbn [andb]. guards. apply Z.eqb_eq. unfold SAPLING_MIN_TX_VERSION, SAPLING_MAX_TX_VERSION, SAPLING_TX_VERSION in *. lia.
    + res_inv E2. cbn [andb]. guards. rewrite andb_true_iff, !Z.eqb_eq. split; [done|].
      unfold OVERWINTER_MIN_TX_VERSION, OVERWINTER_MAX_TX_VERSION, OVERWINTER_TX_VERSION in *. lia.
  - by destruct (tx_fOverwintered tx).
Qed.

(** The format of a transaction follows the epoch: a transaction accepted by both checks at
    a height has the Sapling format once Sapling is active, the Overwinter format before that
    once Overwinter is active and the original format before; with Overwinter it is not
    expired.  Its shielded part, if any, verifies for the signature hash under the branch of
    that height, and it is no invalid ticket. *)
Theorem epoch_format tx origin isIBD params nHeight ticket :
  CheckTransaction tx = Ok tt -> ContextualCheckTransaction tx origin isIBD params nHeight ticket = Ok tt ->
  (if NetworkUpgradeActive nHeight params UPGRADE_OVERWINTER
   then (if NetworkUpgradeActive nHeight params UPGRADE_SAPLING then tx_v4 tx = true else tx_v3 tx = true) /\ IsExpiredTx tx nHeight = false
   else tx_fOverwintered tx = false) /\
  (shielded tx = true -> exists d, SignatureHash [] tx NOT_AN_INPUT SIGHASH_ALL 0 (CurrentEpochBranchId nHeight params) None = Ok d /\
     shielded_verified tx d) /\
  (ticket = NOT_TICKET \/ ticket = TICKET_VALID).
Proof. apply ContextualCheckTransaction_spec. Qed.
End Epoch.

(** ** A concrete transaction *)

#[local] Instance checks_crypto : Crypto := {|
  ripemd160 x := le_bytes 20 (poly_hash x); sha1 x := le_bytes 20 (poly_hash x); sha256 x := le_bytes 32 (poly_hash x);
  CheckLowS _ := true
|}.
#[local] Instance checks_sig_crypto : SigCrypto := {| blake2b p x := le_bytes 32 (poly_hash (p ++ x)); pubkey_Verify _ _ _ := true |}.
#[local] Instance checks_verifier : SaplingVerifier := {|
  ctx := Z; sapling_verification_ctx_init := 0; sapling_check_spend c d h := (bool_decide (length h = 32%nat), c + 1);
  sapling_check_output c d := (true, c); sapling_final_check c v sig h := (c =? 1)
|}.
Definition active_table : upgrade_table := fun _ => {| nProtocolVersion := 0; nActivationHeight := 0 |}.

Lemma CheckTransaction_correct_witness : tx_valid demo_tx.
Proof.
  pose proof (CheckTransaction_correct demo_tx (proj2 (wf_vout _ demo_tx_wf)) (wf_balance _ demo_tx_wf)) as Hc.
  assert (CheckTransaction demo_tx = Ok tt) as E by (vm_compute; reflexivity). rewrite E in Hc. exact Hc.
Defined.

Lemma epoch_format_witness :
  tx_v4 demo_tx = true /\ IsExpiredTx demo_tx 100 = false.
Proof.
  destruct (epoch_format demo_tx MSG_TX false active_table 100 NOT_TICKET) as [Hf _]; [vm_compute; reflexivity|vm_compute; reflexivity|exact Hf].
Defined.
