(* ===== verification/BlockChecks.v ===== *)
(** * Checks of blocks

    [CheckBlockHeader], [CheckBlock], [CheckBlockSignature], [ContextualCheckBlockHeader] of
    [main.cpp] and [ContextualCheckBlock] of [accept_to_mempool.cpp], over the block tree of
    [Chain] and the checks of transactions.

    Parameters ([BlockEnv]): the Equihash verifier, the ticket database, Pastel ID signatures
    and mining eligibility.  When a miner is not eligible the eligibility manager also notes
    the block; that note is not part of the verdict. *)

From Stdlib Require Import String.
From stdpp Require Import gmap.
From S2P Require Import Prelude ScriptNum Script Interpreter Serialize Compressor Coins CoinsView Amount ArithUint256 Chain Pow Upgrades Transaction Merkle Undo ChainState ChainStateProps SigHash Block TxChecks.
Open Scope Z_scope.

Class BlockEnv := {
  CheckEquihashSolution : CBlockHeader -> bool;
  FindTicket : bytes -> option bool;                        (* mnid: [Some personal] when registered *)
  PastelID_Verify : bytes -> bytes -> bytes -> option bool; (* text, signature, id; [None] when it throws *)
  IsMnEligibleForBlockReward : option ptr -> bytes -> Z -> bool;
  ValidateIfTicketTransaction : Z -> CTransaction -> option ptr -> TICKET_VALIDATION_STATE
}.

(** The chain parameters and what the checks read of the state of the node. *)
Record chain_params := {
  cp_pow : PowParams;
  cp_upgrades : upgrade_table;
  cp_genesis : bytes;
  cp_checkpoints : list (Z * bytes)            (* mapCheckpoints, by height *)
}.
Record node_state := {
  ns_heap : gmap positive CBlockIndex;
  mapBlockIndex : gmap bytes ptr;
  ns_merkle_root : ptr -> bytes;               (* pindex->hashMerkleRoot *)
  ns_tip : option ptr;                         (* chainActive.Tip() *)
  ns_adjusted_time : Z;
  ns_time : Z;
  ns_IBD : bool;
  ns_sn_check : bool;                          (* SnEligibilityCheckAllowed() *)
  fCheckpointsEnabled : bool
}.

Definition MIN_ALLOWED_BLOCK_VERSION : Z := 4.
Definition BLOCK_AGE_TO_VALIDATE_SIGNATURE_SECS : Z := 30 * 60.

Definition deref_index (ns : node_state) (p : ptr) : res check_fail CBlockIndex :=
  match ns_heap ns !! p with Some b => Ok b | None => Err BadAccess end.
Definition lift_chain {E A : Type} (r : res E A) : res check_fail A :=
  match r with Ok a => Ok a | Err _ => Err BadAccess end.

Section Checks.
Context `{Crypto} `{SigCrypto} `{SaplingVerifier} `{BlockEnv}.

(** Equihash and the target are checked on the regression test network (only Equihash), and
    else for blocks that are in the index above the last ingest block. *)
Definition pow_check (params : chain_params) (ns : node_state) (block : CBlockHeader) (hashBlock : bytes) (fCheckPOW : bool)
  : res check_fail unit :=
  if isRegTest (cp_pow params) then
    check negb (fCheckPOW && negb (CheckEquihashSolution block)) else invalid 100 "invalid-solution" ;; Ok tt
  else
    match ns_tip ns with
    | None => Ok tt
    | Some tip =>
        let? t := deref_index ns tip in
        if u32 (Chain.nHeight t) >=? TOP_INGEST_BLOCK then
          match mapBlockIndex ns !! hashBlock with
          | None => Ok tt
          | Some p =>
              let? b := deref_index ns p in
              if u32 (Chain.nHeight b) >? TOP_INGEST_BLOCK then
                check negb (fCheckPOW && negb (CheckEquihashSolution block)) else invalid 100 "invalid-solution" ;;
                check negb (fCheckPOW && negb (CheckProofOfWork hashBlock (h_nBits block) (cp_pow params))) else invalid 50 "high-hash" ;;
                Ok tt
              else Ok tt
          end
        else Ok tt
    end.

(** [CheckBlockHeader]: the hash, computed unless it was passed. *)
Definition CheckBlockHeader (params : chain_params) (ns : node_state) (block : CBlockHeader) (hashBlock : bytes) (fCheckPOW : bool)
  : res check_fail bytes :=
  let? hashBlock := (if hash_IsNull hashBlock then lift_ser (header_GetHash block) else Ok hashBlock) in
  check negb (h_nVersion block <? MIN_ALLOWED_BLOCK_VERSION) else invalid 100 "version-too-low" ;;
  let? _ := pow_check params ns block hashBlock fCheckPOW in
  check negb (h_nTime block >? ns_adjusted_time ns + 2 * 60 * 60) else invalid 0 "time-too-new" ;;
  Ok hashBlock.

(** The root of the transactions, and whether they were mutated. *)
Definition merkle_check (block : Block) : res check_fail unit :=
  let? ids := lift_ser (tx_hashes (b_vtx block)) in
  let? r := lift_chain (BuildMerkleTree ids) in
  check bytes_eqb (h_hashMerkleRoot (header block)) r.1 else Reject 100 REJECT_INVALID "bad-txnmrklroot" true ;;
  check negb r.2 else Reject 100 REJECT_INVALID "bad-txns-duplicate" true ;;
  Ok tt.

Definition size_check (block : Block) : res check_fail unit :=
  check negb (is_nil (b_vtx block)) else invalid 100 "bad-blk-length" ;;
  check negb (zlen (b_vtx block) >? MAX_TX_SIZE_AFTER_SAPLING) else invalid 100 "bad-blk-length" ;;
  let? s := lift_ser (block_Serialize block) in
  check negb (zlen s >? MAX_BLOCK_SIZE) else invalid 100 "bad-blk-length" ;; Ok tt.

Definition mnid_check (block : CBlockHeader) : res check_fail unit :=
  if is_nil (h_sPastelID block) then Ok tt
  else
    match FindTicket (h_sPastelID block) with
    | None => Err (DoS 0 REJECT_MISSING_INPUTS "mnid-not-registered")
    | Some true => Err (invalid 100 "personal-pastel-id")
    | Some false => Ok tt
    end.

(** The loop over the transactions: the signature operations. *)
Fixpoint check_txs (txs : list CTransaction) (nCoinBaseTransactions nSigOps : Z) : res check_fail Z :=
  match txs with
  | [] => Ok nSigOps
  | tx :: txs =>
      let nCoinBaseTransactions := if IsCoinBase tx then nCoinBaseTransactions + 1 else nCoinBaseTransactions in
      check negb (IsCoinBase tx && (nCoinBaseTransactions >? 1)) else invalid 100 "bad-cb-multiple" ;;
      let? _ := CheckTransaction tx in
      check_txs txs nCoinBaseTransactions (u32 (nSigOps + GetLegacySigOpCount tx))
  end.

Definition eligibility_check (ns : node_state) (block : CBlockHeader) (origin : TxOrigin) (fSkip : bool) (pindexPrev : option ptr)
  : res check_fail unit :=
  if ns_sn_check ns && HasPrevBlockSignature block && negb fSkip
     && (h_nTime block >? ns_time ns - BLOCK_AGE_TO_VALIDATE_SIGNATURE_SECS)
     && bool_decide (origin ∈ [MINED_BLOCK; MSG_BLOCK; GENERATED])
  then
    check negb (bool_decide (pindexPrev = None)) else invalid 10 "block-index-not-defined" ;;
    check IsMnEligibleForBlockReward pindexPrev (h_sPastelID block) (h_nTime block) else invalid 10 "mnid-not-eligible" ;; Ok tt
  else Ok tt.

Definition CheckBlock (params : chain_params) (ns : node_state) (origin : TxOrigin) (block : Block) (hashBlock : bytes)
    (fCheckPOW fCheckMerkleRoot fSkipSnEligibilityChecks : bool) (pindexPrev : option ptr) : res check_fail bytes :=
  let? hashBlock := CheckBlockHeader params ns (header block) hashBlock fCheckPOW in
  let? _ := (if fCheckMerkleRoot then merkle_check block else Ok tt) in
  let? _ := size_check block in
  check match b_vtx block with tx :: _ => IsCoinBase tx | [] => false end else invalid 100 "bad-cb-missing" ;;
  let? _ := mnid_check (header block) in
  let? nSigOps := check_txs (b_vtx block) 0 0 in
  check negb (nSigOps >? MAX_BLOCK_SIGOPS) else Reject 100 REJECT_INVALID "bad-blk-sigops" true ;;
  let? _ := eligibility_check ns (header block) origin fSkipSnEligibilityChecks pindexPrev in
  Ok hashBlock.

(** ** Checks against the previous block *)

Definition CheckBlockSignature (ns : node_state) (block : CBlockHeader) (pindexPrev : option ptr) : res check_fail unit :=
  if negb (HasPrevBlockSignature block) then Ok tt
  else
    match pindexPrev with
    | None => Err (invalid 100 "prev-block-not-defined")
    | Some p =>
        match PastelID_Verify (ns_merkle_root ns p) (h_prevMerkleRootSignature block) (h_sPastelID block) with
        | None => Err (DoS 100 REJECT_SIGNATURE_ERROR "verify-merkleroot-signature")
        | Some false => Err (DoS 100 REJECT_SIGNATURE_ERROR "bad-merkleroot-signature")
        | Some true => Ok tt
        end
    end.

(** [Checkpoints::GetLastCheckpoint]: the highest checkpoint that is in the index. *)
Definition GetLastCheckpoint (ns : node_state) (checkpoints : list (Z * bytes)) : option ptr :=
  foldr (fun c acc => match acc with Some p => Some p | None => mapBlockIndex ns !! c.2 end) None checkpoints.

Definition checkpoint_check (params : chain_params) (ns : node_state) (nHeight : Z) : res check_fail unit :=
  if fCheckpointsEnabled ns then
    match GetLastCheckpoint ns (cp_checkpoints params) with
    | None => Ok tt
    | Some p =>
        let? b := deref_index ns p in
        check negb (nHeight <? Chain.nHeight b) else DoS 100 0 "" ;; Ok tt
    end
  else Ok tt.

(** A header after the genesis block; [assert(pindexPrev)]. *)
Definition ContextualCheckBlockHeader (params : chain_params) (ns : node_state) (block : CBlockHeader) (hashBlock : bytes)
    (bGenesisBlock : bool) (pindexPrev : option ptr) : res check_fail unit :=
  if bytes_eqb hashBlock (cp_genesis params) then Ok tt
  else
    match pindexPrev with
    | None => Err BadAccess
    | Some p =>
        let? prev := deref_index ns p in
        let nHeight := Chain.nHeight prev + 1 in
        let nNewMiningAllowedHeight := nActivationHeight (cp_upgrades params UPGRADE_VERMEER) in
        let bNeedSignature := negb (nNewMiningAllowedHeight =? NO_ACTIVATION_HEIGHT) && (u32 nHeight >=? nNewMiningAllowedHeight) in
        check negb (bNeedSignature && is_nil (h_sPastelID block)) else invalid 100 "no-mnid-in-block" ;;
        let? nBits := lift_chain (GetNextWorkRequired (ns_heap ns) (Some p) (Some (h_nTime block)) (cp_pow params)) in
        check (h_nBits block =? nBits) else invalid 100 "bad-diffbits" ;;
        let? median := lift_chain (GetMedianTimePast (ns_heap ns) p) in
        check negb (h_nTime block <=? median) else invalid 0 "time-too-old" ;;
        let? _ := checkpoint_check params ns nHeight in
        check negb (h_nVersion block <? MIN_ALLOWED_BLOCK_VERSION) else DoS 0 REJECT_OBSOLETE "bad-version" ;;
        if negb bGenesisBlock then CheckBlockSignature ns block pindexPrev else Ok tt
    end.

Fixpoint contextual_txs (params : chain_params) (ns : node_state) (origin : TxOrigin) (nHeight nLockTimeCutoff : Z) (pindexPrev : option ptr)
    (txs : list CTransaction) : res check_fail unit :=
  match txs with
  | [] => Ok tt
  | tx :: txs =>
      let? _ := ContextualCheckTransaction tx origin (ns_IBD ns) (cp_upgrades params) nHeight (ValidateIfTicketTransaction nHeight tx pindexPrev) in
      check IsFinalTx tx (u32 nHeight) nLockTimeCutoff else invalid 10 "bad-txns-nonfinal" ;;
      contextual_txs params ns origin nHeight nLockTimeCutoff pindexPrev txs
  end.

Definition ContextualCheckBlock (params : chain_params) (ns : node_state) (origin : TxOrigin) (block : Block) (pindexPrev : option ptr)
  : res check_fail unit :=
  let? nHeight := match pindexPrev with None => Ok 0 | Some p => let? b := deref_index ns p in Ok (Chain.nHeight b + 1) end in
  let? _ := contextual_txs params ns origin nHeight (h_nTime (header block)) pindexPrev (b_vtx block) in
  if nHeight >? 0 then
    let expect := push_int64 [] nHeight in
    match b_vtx block with
    | tx :: _ =>
        match tx_vin tx with
        | i :: _ => check bool_decide (expect `prefix_of` scriptSig i) else invalid 100 "bad-cb-height" ;; Ok tt
        | [] => Err BadAccess
        end
    | [] => Err BadAccess
    end
  else Ok tt.
End Checks.

(** ** What an accepted block looks like *)

Section Accepted.
Context `{Crypto} `{!CryptoLaws _} `{SigCrypto} `{SaplingVerifier} `{BlockEnv}.

(** The block as [ConnectBlock] sees it. *)
Definition connect_block_of (hash : bytes) (b : Block) : ChainState.CBlock :=
  {| block_hash := hash; vtx := b_vtx b; hashFinalSaplingRoot := h_hashFinalSaplingRoot (header b) |}.

Lemma valid_tx_checked tx : tx_wf tx -> tx_valid tx -> tx_checked tx.
Proof.
  intros Hw Hv. destruct (wf_vin _ Hw) as [Hl Hf]. destruct (wf_vout _ Hw) as [Hol _]. pose proof (wf_version _ Hw).
  split; [split| |done|intros Hc; by apply (tv_coinbase _ Hv)].
  - eapply Forall_impl; [apply (tv_values _ Hv)|]. intros o. unfold MAX_MONEY, COIN. lia.
  - unfold MAX_DATA_SIZE in *. lia.
  - unfold INT32_MAX. lia.
  - eapply Forall_impl; [exact Hf|]. intros i [[_ Hn] _ _]. lia.
Qed.

Lemma check_txs_ok txs n acc r : check_txs txs n acc = Ok r -> 0 <= n ->
  Forall (fun tx => CheckTransaction tx = Ok tt) txs /\ (n > 0 -> Forall (fun tx => IsCoinBase tx = false) txs).
Proof.
  revert n acc. induction txs as [|tx txs IH]; intros n acc E Hn; cbn [check_txs] in E; [split; constructor|].
  apply res_bind_Ok in E as ([] & E1 & E). apply res_bind_Ok in E as ([] & E2 & E).
  destruct (IsCoinBase tx) eqn:Ec; cbn [andb negb guard_err] in E1.
  - destruct (Z.gtb_spec (n + 1) 1); [done|]. destruct (IH _ _ E ltac:(lia)) as [Hf Hc]. split; [by constructor|lia].
  - destruct (IH _ _ E Hn) as [Hf Hc]. split; [by constructor|]. intros Hp. constructor; auto.
Qed.

Lemma check_txs_coinbase tx txs r : check_txs (tx :: txs) 0 0 = Ok r -> IsCoinBase tx = true -> Forall (fun tx => IsCoinBase tx = false) txs.
Proof.
  intros E Hc. cbn [check_txs] in E. rewrite Hc in E. apply res_bind_Ok in E as ([] & E1 & E). apply res_bind_Ok in E as ([] & E2 & E).
  apply (check_txs_ok _ _ _ _ E); lia.
Qed.

(** ** Signature operations, without wrap-around *)

Definition total {A : Type} (f : A -> Z) (l : list A) : Z := foldr (fun a n => f a + n) 0 l.

(** The operations in the scripts of a transaction, and the bytes of its scripts. *)
Definition sigops (tx : CTransaction) : Z :=
  total (fun i => GetSigOpCount (scriptSig i) false) (tx_vin tx) + total (fun o => GetSigOpCount (scriptPubKey o) false) (tx_vout tx).
Definition script_bytes (tx : CTransaction) : Z := total (fun i => zlen (scriptSig i)) (tx_vin tx) + total (fun o => zlen (scriptPubKey o)) (tx_vout tx).

Lemma total_cons {A} (f : A -> Z) a l : total f (a :: l) = f a + total f l.
Proof. done. Qed.

Lemma total_nonneg {A} (f : A -> Z) l : (forall a, 0 <= f a) -> 0 <= total f l.
Proof. intros Hf. induction l as [|a l IH]; [done|]. rewrite total_cons. pose proof (Hf a). lia. Qed.

(** Counting in an [unsigned int] is exact while each step is at most twenty per byte. *)
Lemma count_bytes {A} (f : A -> Z) (g : A -> bytes) l n : (forall a, 20 * zlen (g a) < 2 ^ 32 -> 0 <= f a <= 20 * zlen (g a)) -> 0 <= n -> n + 20 * total (fun a => zlen (g a)) l < 2 ^ 32 ->
  foldl (fun n a => u32 (n + f a)) n l = n + total f l /\ 0 <= total f l <= 20 * total (fun a => zlen (g a)) l.
Proof.
  intros Hf. revert n. induction l as [|a l IH]; intros n Hn Hb; [cbn; lia|]. cbn [foldl]. rewrite !total_cons in *. cbv beta in *.
  pose proof (total_nonneg (fun a => zlen (g a)) l ltac:(intros; apply zlen_nonneg)) as Ht. pose proof (zlen_nonneg (g a)). pose proof (Hf a ltac:(lia)). rewrite u32_id by lia.
  destruct (IH (n + f a)) as [-> Hr]; lia.
Qed.

Lemma sigop_count s : 20 * zlen s < 2 ^ 32 -> 0 <= GetSigOpCount s false <= 20 * zlen s.
Proof. intros Hl. pose proof (sigop_loop_bound (length s) false 0 OP_INVALIDOPCODE s ltac:(lia) Hl). unfold GetSigOpCount, zlen. lia. Qed.

Lemma legacy_sigops tx : 20 * script_bytes tx < 2 ^ 32 -> GetLegacySigOpCount tx = sigops tx /\ 0 <= sigops tx <= 20 * script_bytes tx.
Proof.
  unfold script_bytes, GetLegacySigOpCount, sigops. intros Hb. pose proof (total_nonneg (fun i => zlen (scriptSig i)) (tx_vin tx) ltac:(intros; apply zlen_nonneg)). pose proof (total_nonneg (fun o => zlen (scriptPubKey o)) (tx_vout tx) ltac:(intros; apply zlen_nonneg)).
  destruct (count_bytes (fun i => GetSigOpCount (scriptSig i) false) scriptSig (tx_vin tx) 0) as [-> Hi]; [by intros; apply sigop_count|lia|lia|]. rewrite Z.add_0_l.
  destruct (count_bytes (fun o => GetSigOpCount (scriptPubKey o) false) scriptPubKey (tx_vout tx) (total (fun i => GetSigOpCount (scriptSig i) false) (tx_vin tx))) as [-> Ho]; [by intros; apply sigop_count|lia|lia|lia].
Qed.

(** The scripts are part of the serialized block. *)
Lemma vector_bytes {A} (ser g : A -> bytes) l : (forall a, zlen (g a) <= zlen (ser a)) -> total (fun a => zlen (g a)) l <= zlen (ser_vector ser l).
Proof.
  intros Hg. unfold ser_vector. rewrite zlen_app. pose proof (zlen_nonneg (WriteCompactSize [] (zlen l))). enough (total (fun a => zlen (g a)) l <= zlen (concat (map ser l))) by lia.
  induction l as [|a l IH]; [done|]. cbn [map concat]. rewrite zlen_app, total_cons. cbv beta. pose proof (Hg a). specialize (IH ltac:(apply zlen_nonneg)). lia.
Qed.

Lemma tx_script_bytes tx s : tx_Serialize tx = Ok s -> script_bytes tx <= zlen s.
Proof.
  unfold tx_Serialize. destruct (_ && _); [done|]. intros [= <-]. repeat rewrite ?zlen_cons, ?zlen_app. unfold script_bytes.
  pose proof (vector_bytes ser_txin scriptSig (tx_vin tx)) as Hi. pose proof (vector_bytes ser_txout scriptPubKey (tx_vout tx)) as Ho.
  specialize (Hi ltac:(intros a; unfold ser_txin, ser_bytes; rewrite !zlen_app; pose proof (zlen_nonneg (ser_outpoint (prevout a))); pose proof (zlen_nonneg (WriteCompactSize [] (zlen (scriptSig a)))); pose proof (zlen_nonneg (ser_u32 (nSequence a))); lia)).
  specialize (Ho ltac:(intros a; unfold ser_txout, ser_bytes; rewrite !zlen_app; pose proof (zlen_nonneg (ser_i64 (nValue a))); pose proof (zlen_nonneg (WriteCompactSize [] (zlen (scriptPubKey a)))); lia)).
  repeat match goal with |- context [zlen ?l] => lazymatch goal with H : 0 <= zlen l |- _ => fail | _ => pose proof (zlen_nonneg l) end end. lia.
Qed.

Lemma block_script_bytes b s : block_Serialize b = Ok s -> total script_bytes (b_vtx b) <= zlen s.
Proof.
  unfold block_Serialize. intros (h & _ & E)%res_bind_Ok. apply res_bind_Ok in E as (txs & E & [= <-]). rewrite !zlen_app. pose proof (zlen_nonneg h). pose proof (zlen_nonneg (WriteCompactSize [] (zlen (b_vtx b)))).
  enough (total script_bytes (b_vtx b) <= zlen txs) by lia. revert txs E. generalize (b_vtx b). intros l. induction l as [|tx l IH]; cbn [ser_txs]; [by intros txs [= <-]|].
  intros txs (a & Ea & E)%res_bind_Ok. apply res_bind_Ok in E as (r & Er & [= <-]). rewrite zlen_app, total_cons. pose proof (tx_script_bytes tx a Ea). pose proof (IH r Er). lia.
Qed.

Lemma script_bytes_nonneg tx : 0 <= script_bytes tx.
Proof. apply Z.add_nonneg_nonneg; apply total_nonneg; intros; apply zlen_nonneg. Qed.

Lemma check_txs_sigops txs n acc r : check_txs txs n acc = Ok r -> 0 <= acc -> acc + 20 * total script_bytes txs < 2 ^ 32 -> r = acc + total sigops txs.
Proof.
  revert n acc. induction txs as [|tx txs IH]; intros n acc E Ha Hb; cbn [check_txs] in E; [injection E as <-; cbn; lia|]. rewrite total_cons in *.
  apply res_bind_Ok in E as ([] & _ & E). apply res_bind_Ok in E as ([] & _ & E). pose proof (total_nonneg script_bytes txs script_bytes_nonneg). pose proof (script_bytes_nonneg tx).
  destruct (legacy_sigops tx ltac:(lia)) as [Es Hs]. rewrite Es, u32_id in E by lia. rewrite (IH _ _ E) by lia. lia.
Qed.

(** The proof of work was checked for this block. *)
Definition pow_applies (params : chain_params) (ns : node_state) (hashBlock : bytes) : Prop :=
  isRegTest (cp_pow params) = false /\
  (exists tip t, ns_tip ns = Some tip /\ ns_heap ns !! tip = Some t /\ TOP_INGEST_BLOCK <= u32 (Chain.nHeight t)) /\
  (exists p b, mapBlockIndex ns !! hashBlock = Some p /\ ns_heap ns !! p = Some b /\ TOP_INGEST_BLOCK < u32 (Chain.nHeight b)).

Lemma pow_check_ok params ns block hashBlock : pow_check params ns block hashBlock true = Ok tt -> pow_applies params ns hashBlock ->
  CheckEquihashSolution block = true /\ CheckProofOfWork hashBlock (h_nBits block) (cp_pow params) = true.
Proof.
  unfold pow_check, deref_index. intros E (R & (tip & t & Et & Eh & Ht) & (p & b & Ep & Eb & Hb)). rewrite R, Et, Eh, Ep, Eb in E.
  cbn [res_bind] in E. rewrite Z.geb_leb, (proj2 (Z.leb_le _ _) Ht), Z.gtb_ltb, (proj2 (Z.ltb_lt _ _) Hb) in E.
  by destruct (CheckEquihashSolution block), (CheckProofOfWork hashBlock (h_nBits block) (cp_pow params)).
Qed.

Lemma merkle_check_ok block : merkle_check block = Ok tt -> root_checked block.
Proof.
  unfold merkle_check, root_checked. intros E. destruct (tx_hashes (b_vtx block)) as [ids|] eqn:Ei; [|done].
  cbn [lift_ser res_bind] in E. destruct (BuildMerkleTree ids) as [[r m]|] eqn:Eb; [|done]. cbn [lift_ser lift_chain res_bind fst snd] in E.
  unfold bytes_eqb in E. case_bool_decide as Hr; cbn [guard_err res_bind] in E; [|done]. destruct m; [done|]. exists ids. by rewrite Hr.
Qed.

(** What [CheckBlock] establishes. *)
Record block_valid (params : chain_params) (ns : node_state) (block : Block) (hash : bytes) : Prop := {
  bv_version : MIN_ALLOWED_BLOCK_VERSION <= h_nVersion (header block);
  bv_time : h_nTime (header block) <= ns_adjusted_time ns + 2 * 60 * 60;
  bv_pow : pow_applies params ns hash ->
           CheckEquihashSolution (header block) = true /\ CheckProofOfWork hash (h_nBits (header block)) (cp_pow params) = true;
  bv_root : root_checked block;
  bv_size : exists s, block_Serialize block = Ok s /\ zlen s <= MAX_BLOCK_SIZE;
  bv_coinbase : exists cb txs, b_vtx block = cb :: txs /\ IsCoinBase cb = true /\ Forall (fun tx => IsCoinBase tx = false) txs;
  bv_txs : Forall tx_valid (b_vtx block);
  bv_sigops : total sigops (b_vtx block) <= MAX_BLOCK_SIGOPS;
  bv_mnid : h_sPastelID (header block) <> [] -> FindTicket (h_sPastelID (header block)) = Some false
}.

Lemma CheckBlock_spec params ns origin block fSkip prev hash : block_ok block ->
  CheckBlock params ns origin block zero_digest true true fSkip prev = Ok hash ->
  header_GetHash (header block) = Ok hash /\ block_valid params ns block hash.
Proof.
  intros Hok E. unfold CheckBlock in E. apply res_bind_Ok in E as (h & Eh & E). apply res_bind_Ok in E as ([] & Em & E).
  apply res_bind_Ok in E as ([] & Es & E). apply res_bind_Ok in E as ([] & Ec & E). apply res_bind_Ok in E as ([] & Ei & E).
  apply res_bind_Ok in E as (n & Et & E). apply res_bind_Ok in E as ([] & Esig & E). apply res_bind_Ok in E as ([] & _ & [= <-]).
  unfold CheckBlockHeader in Eh. change (hash_IsNull zero_digest) with true in Eh.
  apply res_bind_Ok in Eh as (h' & Eg & Eh). apply res_bind_Ok in Eh as ([] & Ev & Eh). apply res_bind_Ok in Eh as ([] & Ep & Eh).
  apply res_bind_Ok in Eh as ([] & Etime & [= ->]). guards.
  split; [by destruct (header_GetHash (header block)); [injection Eg as ->|done]|].
  unfold size_check in Es. apply res_bind_Ok in Es as ([] & _ & Es). apply res_bind_Ok in Es as ([] & _ & Es).
  apply res_bind_Ok in Es as (s & Es1 & Es). apply res_bind_Ok in Es as ([] & Es2 & _). guards.
  assert (total sigops (b_vtx block) <= MAX_BLOCK_SIGOPS) as Hsig.
  { assert (block_Serialize block = Ok s) as Hs by (destruct (block_Serialize block); [by injection Es1 as ->|discriminate Es1]). pose proof (block_script_bytes block s Hs). unfold MAX_BLOCK_SIZE in *.
    rewrite (check_txs_sigops _ _ _ _ Et) in * by lia. lia. }
  destruct (b_vtx block) as [|cb txs] eqn:Eb; [done|].
  destruct (check_txs_ok _ _ _ _ Et ltac:(done)) as [Hall _]. pose proof (check_txs_coinbase _ _ _ Et Ec) as Hrest.
  split; try done; try lia.
  - by apply pow_check_ok.
  - by apply merkle_check_ok.
  - exists s. split; [by destruct (block_Serialize block); [injection Es1 as ->|done]|done].
  - by exists cb, txs.
  - pose proof (bk_txs _ Hok) as Hwf. rewrite Eb in *. apply Forall_forall. intros tx Hin. rewrite Forall_forall in Hall, Hwf.
    pose proof (CheckTransaction_spec tx (proj2 (wf_vout _ (Hwf tx Hin)))) as Hs. rewrite (Hall tx Hin) in Hs. apply Hs.
    pose proof (wf_balance _ (Hwf tx Hin)) as Hb. destruct (tx_v4 tx); [done|]. rewrite Hb. done.
  - by rewrite Eb.
  - intros Hne. unfold mnid_check in Ei. destruct (h_sPastelID (header block)); [done|]. by destruct (FindTicket _) as [[]|].
Qed.

(** C14. A block accepted by [CheckBlock] has the hash of its header, the Merkle root of its
    transactions without mutation, exactly one coinbase, in first place, only valid
    transactions, an allowed size, version and time, at most [MAX_BLOCK_SIGOPS] signature
    operations in its scripts (counted without wrap-around), a registered miner if it names one
    and, where the code checks it ([pow_applies]), its proof of work; and unless two transactions
    have the same id it satisfies what connecting and disconnecting a block relies on. *)
Theorem CheckBlock_sound params ns origin block fSkip prev hash : block_ok block ->
  CheckBlock params ns origin block zero_digest true true fSkip prev = Ok hash ->
  header_GetHash (header block) = Ok hash /\ block_valid params ns block hash /\
  (NoDup (map txid (b_vtx block)) -> block_checked (connect_block_of hash block)).
Proof.
  intros Hok E. destruct (CheckBlock_spec _ _ _ _ _ _ _ Hok E) as [Eh Hv]. split; [done|]. split; [done|]. intros Hd.
  destruct Hok as [_ Hc Ht]. split; cbn [connect_block_of vtx]; [apply (bv_coinbase _ _ _ _ Hv)| |done|done].
  pose proof (bv_txs _ _ _ _ Hv) as Hval. apply Forall_forall. intros tx Hin. rewrite Forall_forall in Ht, Hval.
  apply valid_tx_checked; auto.
Qed.
End Accepted.

(** ** Coinbases carry their height *)

Lemma push_int64_shape n : 0 < n <= INT32_MAX ->
  (1 <= n <= 16 /\ push_int64 [] n = [80 + n]) \/ (16 < n /\ push_int64 [] n = zlen (serialize n) :: serialize n /\ zlen (serialize n) <= 8).
Proof.
  unfold INT32_MAX. intros Hn. unfold push_int64. destruct (Z.eqb_spec n (-1)); [lia|]. rewrite Z.geb_leb.
  destruct (Z.leb_spec 1 n); [|lia]. destruct (Z.leb_spec n 16); cbn [orb andb app].
  - left. split; [lia|]. rewrite u8_id by (unfold OP_1; lia). f_equal. unfold OP_1. lia.
  - right. split; [lia|]. destruct (Z.eqb_spec n 0); [lia|]. pose proof (serialize_length n ltac:(lia)) as Hl. pose proof (zlen_nonneg (serialize n)).
    unfold push_data. destruct (Z.ltb_spec (zlen (serialize n)) OP_PUSHDATA1); [|unfold OP_PUSHDATA1 in *; lia].
    rewrite u8_id by lia. done.
Qed.

Lemma push_int64_prefix n m s : 0 < n <= INT32_MAX -> 0 < m <= INT32_MAX ->
  push_int64 [] n `prefix_of` s -> push_int64 [] m `prefix_of` s -> n = m.
Proof.
  intros Hn Hm. destruct (push_int64_shape n Hn) as [(A1 & ->)|(A1 & -> & A2)], (push_int64_shape m Hm) as [(B1 & ->)|(B1 & -> & B2)];
    intros [s1 E1] [s2 E2]; rewrite E1 in E2; cbn [app] in E2; injection E2 as E E2; unfold INT32_MAX in *; try lia.
  apply app_inj_1 in E2 as [E2 _]; [|unfold zlen in E; lia].
  rewrite <- (set_vch_serialize n), <- (set_vch_serialize m) by lia. by rewrite E2.
Qed.

Section Heights.
Context `{Crypto} `{SigCrypto} `{SaplingVerifier} `{BlockEnv}.

(** The height a block gets on top of [prev]. *)
Definition height_above (ns : node_state) (prev : option ptr) : option Z :=
  match prev with None => Some 0 | Some p => b ← ns_heap ns !! p; Some (Chain.nHeight b + 1) end.

Lemma contextual_txs_ok params ns origin h cutoff prev txs : contextual_txs params ns origin h cutoff prev txs = Ok tt ->
  Forall (fun tx => IsFinalTx tx (u32 h) cutoff = true) txs.
Proof.
  induction txs as [|tx txs IH]; intros E; [constructor|]. cbn [contextual_txs] in E.
  apply res_bind_Ok in E as ([] & _ & E). apply res_bind_Ok in E as ([] & Ef & E). guards. constructor; auto.
Qed.

Lemma ContextualCheckBlock_spec params ns origin block prev h : height_above ns prev = Some h ->
  ContextualCheckBlock params ns origin block prev = Ok tt ->
  Forall (fun tx => IsFinalTx tx (u32 h) (h_nTime (header block)) = true) (b_vtx block) /\
  (0 < h -> exists cb txs i ins, b_vtx block = cb :: txs /\ tx_vin cb = i :: ins /\ push_int64 [] h `prefix_of` scriptSig i).
Proof.
  intros Hh E. unfold ContextualCheckBlock in E.
  assert ((match prev with None => Ok 0 | Some p => let? b := deref_index ns p in Ok (Chain.nHeight b + 1) end) = Ok h) as Eh.
  { unfold height_above, deref_index in *. destruct prev as [p|]; [|by injection Hh as ->]. destruct (ns_heap ns !! p); [|done]. by injection Hh as <-. }
  rewrite Eh in E. cbn [res_bind] in E. apply res_bind_Ok in E as ([] & Et & E). split; [by eapply contextual_txs_ok|].
  intros Hp. rewrite Z.gtb_ltb, (proj2 (Z.ltb_lt _ _) Hp) in E. destruct (b_vtx block) as [|cb txs]; [done|].
  destruct (tx_vin cb) as [|i ins] eqn:Ei; [done|]. apply res_bind_Ok in E as ([] & Ep & _). guards. apply bool_decide_eq_true in Ep. by exists cb, txs, i, ins.
Qed.

(** Coinbases are unique: two blocks accepted by [ContextualCheckBlock] that share their
    first transaction were checked at the same height, so coinbases of different heights
    differ. *)
Theorem coinbase_heights_differ params ns1 ns2 o1 o2 b1 b2 p1 p2 h1 h2 cb txs1 txs2 :
  height_above ns1 p1 = Some h1 -> height_above ns2 p2 = Some h2 -> 0 < h1 <= INT32_MAX -> 0 < h2 <= INT32_MAX ->
  ContextualCheckBlock params ns1 o1 b1 p1 = Ok tt -> ContextualCheckBlock params ns2 o2 b2 p2 = Ok tt ->
  b_vtx b1 = cb :: txs1 -> b_vtx b2 = cb :: txs2 -> h1 = h2.
Proof.
  intros Hh1 Hh2 R1 R2 C1 C2 E1 E2.
  destruct (ContextualCheckBlock_spec _ _ _ _ _ _ Hh1 C1) as [_ Hs1], (ContextualCheckBlock_spec _ _ _ _ _ _ Hh2 C2) as [_ Hs2].
  destruct (Hs1 ltac:(lia)) as (cb1 & l1 & i1 & r1 & F1 & G1 & P1), (Hs2 ltac:(lia)) as (cb2 & l2 & i2 & r2 & F2 & G2 & P2).
  rewrite E1 in F1. rewrite E2 in F2. injection F1 as <- _. injection F2 as <- _. rewrite G1 in G2. injection G2 as <- _.
  by eapply push_int64_prefix.
Qed.

(** Outside the regression test network the header of a block that is not in the index yet
    is accepted whatever its solution and target: the proof of work is checked only later, by
    [CheckBlock], when the header is in the index. *)
Lemma new_header_pow_unchecked params ns block hash fCheckPOW : isRegTest (cp_pow params) = false ->
  (forall tip, ns_tip ns = Some tip -> is_Some (ns_heap ns !! tip)) -> mapBlockIndex ns !! hash = None ->
  pow_check params ns block hash fCheckPOW = Ok tt.
Proof.
  intros Hr Ht Hi. unfold pow_check, deref_index. rewrite Hr, Hi. destruct (ns_tip ns) as [tip|]; [|done].
  destruct (Ht tip eq_refl) as [t ->]. cbn [res_bind]. by destruct (_ >=? _).
Qed.
End Heights.

(** ** A concrete block *)

#[local] Instance check_crypto : Crypto := {|
  ripemd160 x := le_bytes 20 (poly_hash x); sha1 x := le_bytes 20 (poly_hash x); sha256 x := le_bytes 32 (poly_hash x);
  CheckLowS _ := true
|}.
#[local] Instance check_crypto_laws : CryptoLaws check_crypto.
Proof.
  split; intros x; cbn [ripemd160 sha1 sha256 check_crypto]; try apply le_bytes_ok; unfold zlen; by rewrite length_le_bytes.
Qed.
#[local] Instance check_sig_crypto : SigCrypto := {| blake2b p x := le_bytes 32 (poly_hash (p ++ x)); pubkey_Verify _ _ _ := true |}.
#[local] Instance check_verifier : SaplingVerifier := {|
  ctx := unit; sapling_verification_ctx_init := tt; sapling_check_spend c d h := (true, c);
  sapling_check_output c d := (true, c); sapling_final_check c v sig h := true
|}.
#[local] Instance check_env : BlockEnv := {|
  CheckEquihashSolution _ := true; FindTicket _ := Some false; PastelID_Verify _ _ _ := Some true;
  IsMnEligibleForBlockReward _ _ _ := true; ValidateIfTicketTransaction _ _ _ := NOT_TICKET
|}.

Definition check_params : chain_params := {|
  cp_pow := {| powLimit := replicate 32 255; nPowAllowMinDifficultyBlocksAfterHeight := None; nPowSetMinDifficultyAfterHeight := None;
               nPowAveragingWindow := 17; nPowMaxAdjustDown := 32; nPowMaxAdjustUp := 16; nPowTargetSpacing := 150; isRegTest := false |};
  cp_upgrades := active_table; cp_genesis := blob 32 0; cp_checkpoints := []
|}.
Definition check_prev : CBlockIndex := {|
  phashBlock := []; Chain.pprev := None; pskip := None; Chain.nHeight := 99; nTime := 1000; nBits := 0;
  nChainWork := uint_zero; nTx := 1; nChainTx := 1; nStatus := 0; nSequenceId := 0;
  nSproutValue := None; nChainSproutValue := None; nSaplingValue := 0; nChainSaplingValue := None
|}.
Definition check_node : node_state := {|
  ns_heap := {[1%positive := check_prev]}; mapBlockIndex := ∅; ns_merkle_root _ := blob 32 0; ns_tip := Some 1%positive;
  ns_adjusted_time := 1700000000; ns_time := 1700000000; ns_IBD := false; ns_sn_check := true; fCheckpointsEnabled := false
|}.
Definition check_coinbase : CTransaction := {|
  tx_fOverwintered := true; tx_nVersion := 4; tx_nVersionGroupId := SAPLING_VERSION_GROUP_ID;
  tx_vin := [{| prevout := {| op_hash := blob 32 0; op_n := UINT32_MAX |}; scriptSig := [1; 100]; nSequence := UINT32_MAX |}];
  tx_vout := [{| nValue := 5000; scriptPubKey := [81] |}]; tx_nLockTime := 0; tx_nExpiryHeight := 0; tx_valueBalance := 0;
  tx_vShieldedSpend := []; tx_vShieldedOutput := []; tx_bindingSig := no_bindingSig |}.
Definition check_block : Block := {|
  header := {| h_nVersion := 5; h_hashPrevBlock := blob 32 1; h_hashMerkleRoot := hash256 (tx_data check_coinbase);
               h_hashFinalSaplingRoot := blob 32 2; h_nTime := 1700000000; h_nBits := 0x1f07ffff; h_nNonce := blob 32 3;
               h_nSolution := blob 36 4; h_sPastelID := blob 86 5; h_prevMerkleRootSignature := blob 114 6 |};
  b_vtx := [check_coinbase]
|}.

Lemma check_block_ok : block_ok check_block.
Proof.
  split; [split; vm_compute; intuition congruence|vm_compute; congruence|]. apply Forall_cons. split; [|by apply Forall_nil].
  split; try done; try (vm_compute; intuition congruence); (split; [done|]; repeat constructor; vm_compute; congruence).
Qed.

Lemma CheckBlock_sound_witness :
  exists hash, header_GetHash (header check_block) = Ok hash /\ block_valid check_params check_node check_block hash /\
    (NoDup (map txid (b_vtx check_block)) -> block_checked (connect_block_of hash check_block)).
Proof.
  eexists. apply (CheckBlock_sound check_params check_node MSG_BLOCK check_block false (Some 1%positive) _ check_block_ok).
  vm_compute. reflexivity.
Defined.

Lemma coinbase_heights_differ_witness : 100 = 100.
Proof.
  apply (coinbase_heights_differ check_params check_node check_node MSG_BLOCK LOADED_BLOCK check_block check_block
    (Some 1%positive) (Some 1%positive) 100 100 check_coinbase [] []); (done || (vm_compute; reflexivity)).
Defined.
