(* ===== verification/HashSpec.v ===== *)
(** * Reference definitions of the hash functions

    SHA-1, SHA-256, SHA-512 and RIPEMD-160 as their standards write them: message schedules,
    loops over the rounds, tables.  The round constants are computed from what the standards
    say they are, the roots of small primes, and not copied.  The modules of the hash classes
    show that the unrolled code of [crypto/] computes these functions. *)

From S2P Require Import Prelude.

(** An assignment of straight-line code and what follows it. *)
Definition assign {A B : Type} (v : A) (k : A -> B) : B := k v.
Notation "'reg' x ':=' v 'in' k" := (assign v (fun x => k)) (at level 10, x pattern, v at level 200, k at level 200).

(** The integer [e]-th root of [x], found bit by bit from bit [n - 1]. *)
Fixpoint root_bits (n : nat) (e x r : Z) : Z :=
  match n with
  | O => r
  | S n => let r' := r + 2 ^ Z.of_nat n in root_bits n e x (if r' ^ e <=? x then r' else r)
  end.

Definition is_prime (p : Z) : bool := forallb (fun d => negb (p mod d =? 0)) (seqZ 2 (p - 2)).
(** The first eighty primes. *)
Definition primes : list Z := List.filter is_prime (seqZ 2 408).

(** The first [w] bits of the fractional part of the [e]-th root of [p]. *)
Definition root_fraction (e w p : Z) : Z := root_bits (Z.to_nat (w + 6)) e (p * 2 ^ (e * w)) 0 mod 2 ^ w.
(** The integer part of 2^30 times the [e]-th root of [p]. *)
Definition root_scaled (e p : Z) : Z := root_bits 33 e (p * 2 ^ (e * 30)) 0.

(** Reading a block as words. *)
Definition block_words (read : bytes -> nat -> Z) (size : nat) (chunk : bytes) : list Z :=
  map (fun i => read chunk (size * i)%nat) (seq 0 16).

(** A round per constant and word. *)
Fixpoint rounds {St K : Type} (round : St -> K -> Z -> St) (s : St) (ks : list K) (ws : list Z) : St :=
  match ks, ws with
  | k :: ks, w :: ws => rounds round (round s k w) ks ws
  | _, _ => s
  end.

(** A schedule that computes each word from the sixteen before it. *)
Fixpoint extend (next : list Z -> Z) (n : nat) (window : list Z) : list Z :=
  match n with
  | O => []
  | S n => let x := next window in x :: extend next n (drop 1 window ++ [x])
  end.

Definition nth_word (i : nat) (l : list Z) : Z := nth i l 0.

Definition rotr (w n x : Z) : Z := Z.lor (Z.shiftr x n) (Z.shiftl x (w - n) mod 2 ^ w).
Definition rotl (w n x : Z) : Z := Z.lor (Z.shiftl x n mod 2 ^ w) (Z.shiftr x (w - n)).

(** ** SHA-256 and SHA-512 (FIPS 180-4) *)

Record sha2 := {
  word_bits : Z;
  Sigma_0 : Z * Z * Z; Sigma_1 : Z * Z * Z;     (* three rotations *)
  sigma_0 : Z * Z * Z; sigma_1 : Z * Z * Z;     (* two rotations and a shift *)
  n_rounds : nat
}.

Definition sha2_256 : sha2 := {| word_bits := 32; Sigma_0 := (2, 13, 22); Sigma_1 := (6, 11, 25);
  sigma_0 := (7, 18, 3); sigma_1 := (17, 19, 10); n_rounds := 64 |}.
Definition sha2_512 : sha2 := {| word_bits := 64; Sigma_0 := (28, 34, 39); Sigma_1 := (14, 18, 41);
  sigma_0 := (1, 8, 7); sigma_1 := (19, 61, 6); n_rounds := 80 |}.

Definition state8 : Type := Z * Z * Z * Z * Z * Z * Z * Z.

Section Sha2.
Context (P : sha2).
Let w : Z := word_bits P.

Definition sha2_big '(i, j, k) (x : Z) : Z := Z.lxor (Z.lxor (rotr w i x) (rotr w j x)) (rotr w k x).
Definition sha2_small '(i, j, k) (x : Z) : Z := Z.lxor (Z.lxor (rotr w i x) (rotr w j x)) (Z.shiftr x k).
Definition sha2_Ch (x y z : Z) : Z := Z.lxor (Z.land x y) (Z.land (Z.lnot x) z).
Definition sha2_Maj (x y z : Z) : Z := Z.lxor (Z.lxor (Z.land x y) (Z.land x z)) (Z.land y z).

Definition sha2_K : list Z := map (root_fraction 3 w) (take (n_rounds P) primes).

Definition sha2_init : state8 :=
  let h i := root_fraction 2 w (nth i primes 0) in (h 0%nat, h 1%nat, h 2%nat, h 3%nat, h 4%nat, h 5%nat, h 6%nat, h 7%nat).

Definition sha2_next (l : list Z) : Z :=
  (sha2_small (sigma_1 P) (nth_word 14 l) + nth_word 9 l + sha2_small (sigma_0 P) (nth_word 1 l) + nth_word 0 l) mod 2 ^ w.

Definition sha2_schedule (m : list Z) : list Z := m ++ extend sha2_next (n_rounds P - 16) m.

Definition sha2_round (s : state8) (k wt : Z) : state8 :=
  let '(a, b, c, d, e, f, g, h) := s in
  let T1 := (h + sha2_big (Sigma_1 P) e + sha2_Ch e f g + k + wt) mod 2 ^ w in
  let T2 := (sha2_big (Sigma_0 P) a + sha2_Maj a b c) mod 2 ^ w in
  ((T1 + T2) mod 2 ^ w, a, b, c, (d + T1) mod 2 ^ w, e, f, g).

Definition add8 (s t : state8) : state8 :=
  let '(a, b, c, d, e, f, g, h) := s in
  let '(a', b', c', d', e', f', g', h') := t in
  ((a + a') mod 2 ^ w, (b + b') mod 2 ^ w, (c + c') mod 2 ^ w, (d + d') mod 2 ^ w,
   (e + e') mod 2 ^ w, (f + f') mod 2 ^ w, (g + g') mod 2 ^ w, (h + h') mod 2 ^ w).

Definition sha2_compress (s : state8) (m : list Z) : state8 := add8 s (rounds sha2_round s sha2_K (sha2_schedule m)).
End Sha2.

(** ** SHA-1 (FIPS 180-4) *)

Definition state5 : Type := Z * Z * Z * Z * Z.

Definition add5 (s t : state5) : state5 :=
  let '(a, b, c, d, e) := s in
  let '(a', b', c', d', e') := t in (u32 (a + a'), u32 (b + b'), u32 (c + c'), u32 (d + d'), u32 (e + e')).

(** The function and the constant of round [t]. *)
Definition sha1_f (t : Z) : Z -> Z -> Z -> Z :=
  if t <? 20 then sha2_Ch
  else if t <? 40 then fun x y z => Z.lxor (Z.lxor x y) z
  else if t <? 60 then sha2_Maj
  else fun x y z => Z.lxor (Z.lxor x y) z.
Definition sha1_K (t : Z) : Z :=
  root_scaled 2 (if t <? 20 then 2 else if t <? 40 then 3 else if t <? 60 then 5 else 10).

Definition sha1_round (s : state5) (t wt : Z) : state5 :=
  let '(a, b, c, d, e) := s in
  (u32 (rotl 32 5 a + sha1_f t b c d + e + sha1_K t + wt), a, rotl 32 30 b, c, d).

Definition sha1_next (l : list Z) : Z :=
  rotl 32 1 (Z.lxor (Z.lxor (Z.lxor (nth_word 13 l) (nth_word 8 l)) (nth_word 2 l)) (nth_word 0 l)).
Definition sha1_schedule (m : list Z) : list Z := m ++ extend sha1_next 64 m.
Definition sha1_compress (s : state5) (m : list Z) : state5 := add5 s (rounds sha1_round s (seqZ 0 80) (sha1_schedule m)).

(** ** RIPEMD-160 *)

Definition rmd_f (j : Z) (x y z : Z) : Z :=
  if j <? 16 then Z.lxor (Z.lxor x y) z
  else if j <? 32 then Z.lor (Z.land x y) (Z.land (Z.lnot x) z)
  else if j <? 48 then Z.lxor (Z.lor x (Z.lnot y)) z
  else if j <? 64 then Z.lor (Z.land x z) (Z.land y (Z.lnot z))
  else Z.lxor x (Z.lor y (Z.lnot z)).

(** The added constants of the two lines. *)
Definition rmd_K (j : Z) : Z := nth (Z.to_nat (j / 16)) (0 :: map (root_scaled 2) [2; 3; 5; 7]) 0.
Definition rmd_K' (j : Z) : Z := nth (Z.to_nat (j / 16)) (map (root_scaled 3) [2; 3; 5; 7] ++ [0]) 0.

(** The order of the words: the permutations rho and pi of the specification. *)
Definition rho (i : nat) : nat := nth i [7; 4; 13; 1; 10; 6; 15; 3; 12; 0; 9; 5; 2; 14; 11; 8]%nat O.
Definition pi (i : nat) : nat := ((9 * i + 5) mod 16)%nat.
Definition rmd_r : list nat := concat (map (fun n => map (Nat.iter n rho) (seq 0 16)) (seq 0 5)).
Definition rmd_r' : list nat := concat (map (fun n => map (fun i => Nat.iter n rho (pi i)) (seq 0 16)) (seq 0 5)).

(** The rotations, by round and word. *)
Definition rmd_shift : list (list Z) :=
  [[11; 14; 15; 12; 5; 8; 7; 9; 11; 13; 14; 15; 6; 7; 9; 8];
   [12; 13; 11; 15; 6; 9; 9; 7; 12; 15; 11; 13; 7; 8; 7; 7];
   [13; 15; 14; 11; 7; 7; 6; 8; 13; 14; 13; 12; 5; 5; 6; 9];
   [14; 11; 12; 14; 8; 6; 5; 5; 15; 12; 15; 14; 9; 9; 8; 6];
   [15; 12; 13; 13; 9; 5; 8; 6; 14; 11; 12; 11; 8; 6; 5; 5]].
Definition rmd_s (j word : nat) : Z := nth word (nth (j / 16) rmd_shift []) 0.

Definition rmd_round (f : Z -> Z -> Z -> Z) (k s : Z) (x : state5) (w : Z) : state5 :=
  let '(a, b, c, d, e) := x in (e, u32 (rotl 32 s (u32 (a + f b c d + w + k)) + e), b, rotl 32 10 c, d).

(** One line: round [j] with the function, the constant, the rotation and the word of each. *)
Definition rmd_line (f : Z -> Z -> Z -> Z -> Z) (k : Z -> Z) (r : list nat) (x : state5) (m : list Z) : state5 :=
  rounds (fun x '(j, i) w => rmd_round (f (Z.of_nat j)) (k (Z.of_nat j)) (rmd_s j i) x w) x (zip (seq 0 80) r) (map (fun i => nth_word i m) r).

Definition rmd_compress (h : state5) (m : list Z) : state5 :=
  let '(h0, h1, h2, h3, h4) := h in
  let '(a, b, c, d, e) := rmd_line rmd_f rmd_K rmd_r h m in
  let '(a', b', c', d', e') := rmd_line (fun j => rmd_f (79 - j)) rmd_K' rmd_r' h m in
  (u32 (h1 + c + d'), u32 (h2 + d + e'), u32 (h3 + e + a'), u32 (h4 + a + b'), u32 (h0 + b + c')).

(** ** Unrolled code and loops *)

Lemma rounds_ext {St K} (r r' : St -> K -> Z -> St) (E : forall s k w, r s k w = r' s k w) s ks ws : rounds r s ks ws = rounds r' s ks ws.
Proof. revert s ws. induction ks as [|k ks IH]; intros s [|w ws]; cbn [rounds]; [done..|]. by rewrite E, IH. Qed.

Lemma rounds_map {St K K'} (r : St -> K -> Z -> St) (r' : St -> K' -> Z -> St) (g : K -> K') s ks ws :
  (forall s k w, In k ks -> r s k w = r' s (g k) w) -> rounds r s ks ws = rounds r' s (map g ks) ws.
Proof.
  revert s ws. induction ks as [|k ks IH]; intros s [|w ws] E; cbn [rounds map]; [done..|].
  rewrite E by (by left). apply IH. intros s' k' w' Hk. apply E. by right.
Qed.

Lemma extend_ext f g (E : forall l, f l = g l) n window : extend f n window = extend g n window.
Proof. revert window. induction n as [|n IH]; intros window; cbn [extend]; [done|]. by rewrite E, IH. Qed.

Lemma rounds_read {St K} (round : St -> K -> Z -> St) s k ks w ws x : x = w ->
  rounds round s (k :: ks) (w :: ws) = rounds round (round s k x) ks ws.
Proof. by intros ->. Qed.

Lemma rounds_extend {St K} (round : St -> K -> Z -> St) next s k ks n x w0 w1 w2 w3 w4 w5 w6 w7 w8 w9 w10 w11 w12 w13 w14 w15 : x = next [w0; w1; w2; w3; w4; w5; w6; w7; w8; w9; w10; w11; w12; w13; w14; w15] ->
  rounds round s (k :: ks) (extend next (S n) [w0; w1; w2; w3; w4; w5; w6; w7; w8; w9; w10; w11; w12; w13; w14; w15]) =
  rounds round (round s k x) ks (extend next n [w1; w2; w3; w4; w5; w6; w7; w8; w9; w10; w11; w12; w13; w14; w15; x]).
Proof. by intros ->. Qed.

(** The code's forms of the choice and majority functions. *)
Lemma Ch_code x y z : Z.lxor z (Z.land x (Z.lxor y z)) = sha2_Ch x y z.
Proof.
  apply Z.bits_inj'. intros n Hn. unfold sha2_Ch. rewrite !Z.lxor_spec, !Z.land_spec, Z.lxor_spec, Z.lnot_spec by done.
  by destruct (Z.testbit x n), (Z.testbit y n), (Z.testbit z n).
Qed.
Lemma Maj_code x y z : Z.lor (Z.land x y) (Z.land z (Z.lor x y)) = sha2_Maj x y z.
Proof.
  apply Z.bits_inj'. intros n Hn. unfold sha2_Maj. rewrite !Z.lxor_spec, !Z.lor_spec, !Z.land_spec, Z.lor_spec.
  by destruct (Z.testbit x n), (Z.testbit y n), (Z.testbit z n).
Qed.

Lemma assign_step {A B} (v : A) (k : A -> B) R : (forall y, y = v -> k y = R) -> assign v k = R.
Proof. intros H. by apply H. Qed.

(** Unrolled code against a loop, call by call, when the functions of the calls are variables:
    what the code assigns first becomes a variable, and so do the results of a call. *)
Ltac call := cbv beta iota; apply assign_step; intros [? ?] <-; cbv beta iota.

(** A call with a word of the block, with a word that it updates, and with a computed word. *)
Ltac read_call :=
  let y := fresh "w" in let E := fresh in apply assign_step; intros y E; rewrite <- E, (rounds_read _ _ _ _ _ _ y) by reflexivity; clear E; call.
Ltac update_call :=
  let y := fresh "w" in let E := fresh in apply assign_step; intros y E; rewrite (rounds_extend _ _ _ _ _ _ y) by exact E; clear E; call.
Ltac last_call :=
  lazymatch goal with
  | |- assign (_ ?v) _ = _ => rewrite (rounds_extend _ _ _ _ _ _ v) by reflexivity
  end; call.
