(* ===== verification/Hasher.v ===== *)
(** * Streaming hash functions

    The part that the hash classes of [crypto/] share word for word: a buffer of one block, a
    byte counter, [Write], which processes full blocks and keeps the rest, and [Finalize],
    which appends the padding and the length.  The compression function, the block size, the
    encoding of the length and of the result are those of each class ([hash_alg]).  Writing
    piecewise is shown to compute the hash of the whole message, padded as the standards
    say. *)

From S2P Require Import Prelude.

(** ** Words of [crypto/common.h] *)

Definition be_val (l : bytes) : Z := le_val (rev l).
Definition be_bytes (n : nat) (x : Z) : bytes := rev (le_bytes n x).

Definition ReadBE32 (chunk : bytes) (off : nat) : Z := be_val (take 4 (drop off chunk)).
Definition ReadBE64 (chunk : bytes) (off : nat) : Z := be_val (take 8 (drop off chunk)).
Definition ReadLE32 (chunk : bytes) (off : nat) : Z := le_val (take 4 (drop off chunk)).
Definition WriteBE32 (x : Z) : bytes := be_bytes 4 x.
Definition WriteBE64 (x : Z) : bytes := be_bytes 8 x.
Definition WriteLE32 (x : Z) : bytes := le_bytes 4 x.
Definition WriteLE64 (x : Z) : bytes := le_bytes 8 x.

(** Copying into an array at an offset. *)
Definition memcpy (dst : bytes) (off : nat) (src : bytes) : bytes := take off dst ++ src ++ drop (off + length src) dst.

(** ** The class *)

Record hash_alg := {
  hash_state : Type;
  block : nat;
  pad_base : Z;                       (* 119 or 239 *)
  Initialize : hash_state;
  Transform : hash_state -> bytes -> hash_state;
  sizedesc : Z -> bytes;              (* of the number of bits *)
  output : hash_state -> bytes
}.

Section Hasher.
Context (A : hash_alg).

Record hasher := { h_s : hash_state A; h_buf : bytes; h_bytes : Z }.

(** The contents of a new buffer are never read. *)
Definition hash_new : hasher := {| h_s := Initialize A; h_buf := replicate (block A) 0; h_bytes := 0 |}.
Definition hash_Reset (h : hasher) : hasher := {| h_s := Initialize A; h_buf := h_buf h; h_bytes := 0 |}.

(** Process full chunks directly from the source. *)
Fixpoint full_chunks (fuel : nat) (s : hash_state A) (nbytes : Z) (data : bytes) : hash_state A * Z * list Z :=
  match fuel with
  | O => (s, nbytes, data)
  | S fuel =>
      if (block A <=? length data)%nat
      then full_chunks fuel (Transform A s (take (block A) data)) (u64 (nbytes + Z.of_nat (block A))) (drop (block A) data)
      else (s, nbytes, data)
  end.

Definition hash_Write (h : hasher) (data : bytes) : hasher :=
  let bufsize := Z.to_nat (h_bytes h mod Z.of_nat (block A)) in
  let '(s, buf, nbytes, data, bufsize) :=
    (if negb (bufsize =? 0)%nat && (block A <=? bufsize + length data)%nat then
       let buf := memcpy (h_buf h) bufsize (take (block A - bufsize) data) in
       (Transform A (h_s h) buf, buf, u64 (h_bytes h + Z.of_nat (block A - bufsize)), drop (block A - bufsize) data, O)
     else (h_s h, h_buf h, h_bytes h, data, bufsize)) in
  let '(s, nbytes, data) := full_chunks (length data) s nbytes data in
  if (0 <? length data)%nat
  then {| h_s := s; h_buf := memcpy buf bufsize data; h_bytes := u64 (nbytes + zlen data) |}
  else {| h_s := s; h_buf := buf; h_bytes := nbytes |}.

Definition pad_array : bytes := 0x80 :: replicate (block A - 1) 0.

(** What [Finalize] leaves in the object, and what it returns. *)
Definition hash_pad (h : hasher) : hasher :=
  let size := sizedesc A (u64 (Z.shiftl (h_bytes h) 3)) in
  let h := hash_Write h (take (Z.to_nat (1 + (pad_base A - h_bytes h mod Z.of_nat (block A)) mod Z.of_nat (block A))) pad_array) in
  hash_Write h size.
Definition hash_Finalize (h : hasher) : bytes := output A (h_s (hash_pad h)).

(** One message in one call. *)
Definition hash_message (data : bytes) : bytes := hash_Finalize (hash_Write hash_new data).

(** ** The standard's definition *)

(** The full blocks of a message. *)
Fixpoint blocks_loop (fuel : nat) (l : bytes) : list bytes :=
  match fuel with
  | O => []
  | S fuel => if (block A <=? length l)%nat then take (block A) l :: blocks_loop fuel (drop (block A) l) else []
  end.
Definition blocks (l : bytes) : list bytes := blocks_loop (length l) l.

(** The message, the bit 1, zeros up to the length field, and the length in bits. *)
Definition padded (m : bytes) : bytes :=
  m ++ [0x80] ++ replicate (Z.to_nat ((pad_base A - zlen m) mod Z.of_nat (block A))) 0 ++ sizedesc A (8 * zlen m).

Definition standard_hash (m : bytes) : bytes := output A (foldl (Transform A) (Initialize A) (blocks (padded m))).

(** ** Writing *)

Context (Hblock : (0 < block A)%nat) (Hbyte : Z.of_nat (block A) < 2 ^ 32).

Lemma blocks_loop_nil n : blocks_loop n [] = [].
Proof using Hblock. destruct n; [done|]. cbn [blocks_loop length]. by rewrite (proj2 (Nat.leb_gt _ _)) by lia. Qed.

Lemma blocks_loop_fuel n k l : (length l <= n)%nat -> (length l <= k)%nat -> blocks_loop n l = blocks_loop k l.
Proof using Hblock.
  revert k l. induction n as [|n IH]; intros k l Hn Hk.
  - destruct l; [|cbn in Hn; lia]. by rewrite !blocks_loop_nil.
  - destruct k as [|k]; [destruct l; [by rewrite !blocks_loop_nil|cbn in Hk; lia]|].
    cbn [blocks_loop]. destruct (Nat.leb_spec (block A) (length l)); [|done]. f_equal. apply IH; rewrite length_drop; lia.
Qed.

Lemma blocks_cons b l : length b = block A -> blocks (b ++ l) = b :: blocks l.
Proof using Hblock.
  intros Hb. unfold blocks. destruct (length (b ++ l)) as [|n] eqn:E; [rewrite length_app in E; lia|]. cbn [blocks_loop].
  rewrite length_app in *. destruct (Nat.leb_spec (block A) (length b + length l)); [|lia].
  rewrite take_app_length', drop_app_length' by done. f_equal. apply blocks_loop_fuel; lia.
Qed.

Lemma blocks_short l : (length l < block A)%nat -> blocks l = [].
Proof. intros Hl. unfold blocks. destruct (length l) eqn:E; [done|]. cbn [blocks_loop]. by rewrite (proj2 (Nat.leb_gt _ _)) by lia. Qed.

(** A message that ends with a block boundary. *)
Inductive whole : bytes -> Prop :=
| whole_nil : whole []
| whole_cons b l : length b = block A -> whole l -> whole (b ++ l).

Lemma blocks_whole a l : whole a -> blocks (a ++ l) = blocks a ++ blocks l.
Proof using Hblock.
  induction 1 as [|b a Hb _ IH]; [done|]. by rewrite <- app_assoc, !(blocks_cons b), IH by done.
Qed.
Lemma whole_app a b : whole a -> whole b -> whole (a ++ b).
Proof. induction 1 as [|x a Hx _ IH]; intros Hb; [done|]. rewrite <- app_assoc. constructor; auto. Qed.
Lemma whole_length a : whole a -> exists k, length a = (k * block A)%nat.
Proof. induction 1 as [|b l Hb _ [k IH]]; [by exists O|]. exists (S k). rewrite length_app. lia. Qed.

Lemma full_chunks_spec fuel s n data : (length data <= fuel)%nat -> exists a r, data = a ++ r /\ whole a /\ (length r < block A)%nat /\
  full_chunks fuel s n data = (foldl (Transform A) s (blocks a), (if (length a =? 0)%nat then n else u64 (n + zlen a)), r).
Proof using Hblock.
  revert s n data. induction fuel as [|fuel IH]; intros s n data Hf.
  - destruct data; [|cbn in Hf; lia]. exists [], []. split; [done|]. split; [constructor|]. split; [cbn; lia|]. done.
  - cbn [full_chunks]. destruct (Nat.leb_spec (block A) (length data)).
    + destruct (IH (Transform A s (take (block A) data)) (u64 (n + Z.of_nat (block A))) (drop (block A) data)) as (a & r & E & Ha & Hr & ->).
      { rewrite length_drop. lia. }
      assert (length (take (block A) data) = block A) as Hl by (rewrite length_take; lia).
      exists (take (block A) data ++ a), r. split; [by rewrite <- app_assoc, <- E, take_drop|]. split; [by constructor|]. split; [done|].
      rewrite blocks_cons by done. cbn [foldl]. f_equal. f_equal. rewrite length_app, Hl.
      destruct (Nat.eqb_spec (block A + length a) 0); [lia|]. rewrite zlen_app. unfold zlen at 2. rewrite Hl.
      destruct (Nat.eqb_spec (length a) 0) as [Ea|_]; [unfold zlen; rewrite Ea; f_equal; lia|].
      unfold u64. rewrite Zplus_mod_idemp_l. f_equal. lia.
    + exists [], data. split; [done|]. split; [constructor|]. split; [done|]. done.
Qed.

(** What the object holds of the message written so far. *)
Definition absorbed (h : hasher) (m : bytes) : Prop :=
  exists a b, m = a ++ b /\ whole a /\ (length b < block A)%nat /\ h_s h = foldl (Transform A) (Initialize A) (blocks a) /\
    take (length b) (h_buf h) = b /\ length (h_buf h) = block A /\ h_bytes h = zlen m.

Lemma memcpy_prefix buf (b d : bytes) : take (length b) buf = b -> (length b + length d <= length buf)%nat ->
  take (length (b ++ d)) (memcpy buf (length b) d) = b ++ d /\ length (memcpy buf (length b) d) = length buf.
Proof.
  intros Hb Hl. unfold memcpy. rewrite Hb. split.
  - rewrite app_assoc, take_app_length. done.
  - rewrite !length_app, length_drop. lia.
Qed.

Lemma new_absorbed : absorbed hash_new [].
Proof using Hblock.
  exists [], []. split; [done|]. split; [constructor|]. split; [cbn; lia|]. split; [by rewrite blocks_short by (cbn; lia)|]. split; [done|]. split; [|done].
  apply length_replicate.
Qed.

Lemma bufsize_absorbed a b (m : bytes) : m = a ++ b -> whole a -> (length b < block A)%nat ->
  Z.to_nat (zlen m mod Z.of_nat (block A)) = length b.
Proof.
  intros -> Ha Hb. destruct (whole_length a Ha) as [k Ek]. unfold zlen. rewrite length_app, Ek, Nat2Z.inj_add, Nat2Z.inj_mul.
  rewrite Z.add_comm, Z_mod_plus_full, Z.mod_small by lia. lia.
Qed.

(** The second half of [Write]: full chunks from the source, the rest into the buffer. *)
Lemma Write_tail a b (m d data : bytes) s buf n : m ++ d = a ++ b ++ data -> whole a -> (length b < block A)%nat ->
  s = foldl (Transform A) (Initialize A) (blocks a) -> take (length b) buf = b -> length buf = block A -> n = zlen (a ++ b) ->
  zlen (m ++ d) < 2 ^ 63 -> (length b = O \/ (length b + length data < block A)%nat) ->
  absorbed (let '(s, n, data) := full_chunks (length data) s n data in
            if (0 <? length data)%nat then {| h_s := s; h_buf := memcpy buf (length b) data; h_bytes := u64 (n + zlen data) |}
            else {| h_s := s; h_buf := buf; h_bytes := n |}) (m ++ d).
Proof using Hblock.
  intros Em Ha Hb -> Ebuf Lbuf -> Hlen Hcase. 
  destruct (full_chunks_spec (length data) (foldl (Transform A) (Initialize A) (blocks a)) (zlen (a ++ b)) data ltac:(done)) as (a' & r & -> & Ha' & Hr & ->).
  assert (b = [] \/ a' = []) as Hba.
  { destruct Hcase as [E|E]; [left; by destruct b|right]. destruct Ha' as [|x l Hx _]; [done|]. rewrite !length_app in E. lia. }
  rewrite Em in *. rewrite !zlen_app in Hlen. pose proof (zlen_nonneg a). pose proof (zlen_nonneg b). pose proof (zlen_nonneg a'). pose proof (zlen_nonneg r).
  assert ((if (length a' =? 0)%nat then zlen (a ++ b) else u64 (zlen (a ++ b) + zlen a')) = zlen a + zlen b + zlen a') as En.
  { rewrite zlen_app. destruct (Nat.eqb_spec (length a') 0) as [E|_]; [unfold zlen at 5; rewrite E; lia|]. apply u64_id. lia. }
  rewrite En.
  assert (a ++ b ++ a' ++ r = (a ++ a') ++ b ++ r) as Eperm by (destruct Hba as [-> | ->]; cbn [app]; by rewrite <- ?app_assoc).
  assert (length (b ++ r) < block A)%nat as Hbr by (rewrite length_app in *; destruct Hba as [-> | ->]; cbn [length app] in *; [lia|rewrite ?length_app in *; cbn in *; lia]).
  exists (a ++ a'), (b ++ r). rewrite Eperm. split; [done|]. split; [by apply whole_app|]. split; [done|].
  rewrite blocks_whole, foldl_app by done.
  destruct (memcpy_prefix buf b r Ebuf) as [Ep El]; [rewrite length_app in *; lia|].
  assert (zlen a + zlen b + zlen a' + zlen r = zlen ((a ++ a') ++ b ++ r)) as Ez by (rewrite !zlen_app; lia).
  destruct (Nat.ltb_spec 0 (length r)) as [Hr0|Hr0]; cbn [h_s h_buf h_bytes].
  - split; [done|]. split; [done|]. split; [by rewrite El|]. rewrite u64_id; lia.
  - destruct r; [|cbn in Hr0; lia]. rewrite app_nil_r in *. split; [done|]. split; [done|]. split; [done|]. change (zlen (A:=Z) []) with 0 in *. lia.
Qed.

Lemma Write_absorbed h m d : absorbed h m -> zlen (m ++ d) < 2 ^ 63 -> absorbed (hash_Write h d) (m ++ d).
Proof using Hblock Hbyte.
  intros (a & b & Em & Ha & Hb & Es & Ebuf & Lbuf & En) Hlen. unfold hash_Write.
  rewrite En, (bufsize_absorbed a b m Em Ha Hb). rewrite zlen_app in Hlen. pose proof (zlen_nonneg m). pose proof (zlen_nonneg d).
  destruct (negb (length b =? 0)%nat && (block A <=? length b + length d)%nat) eqn:Efill.
  - apply andb_prop in Efill as [_ Hfill%Nat.leb_le]. set (x := take (block A - length b) d).
    assert (length x = block A - length b)%nat as Lx by (unfold x; rewrite length_take; lia).
    destruct (memcpy_prefix (h_buf h) b x Ebuf ltac:(lia)) as [Em1 Em2].
    rewrite length_app, take_ge in Em1 by lia. rewrite Em1.
    apply (Write_tail (a ++ b ++ x) []); [| |cbn; lia| |done| | |by rewrite zlen_app|by left].
    + rewrite Em, <- !app_assoc. cbn [app]. unfold x. by rewrite take_drop.
    + apply whole_app; [done|]. rewrite <- (app_nil_r (b ++ x)). constructor; [rewrite length_app; lia|constructor].
    + rewrite blocks_whole, foldl_app, <- Es by done. pose proof (blocks_cons (b ++ x) [] ltac:(rewrite length_app; lia)) as Eb.
      rewrite app_nil_r in Eb. by rewrite Eb.
    + rewrite length_app. lia.
    + assert (zlen m = zlen a + zlen b) as Lm by (by rewrite Em, zlen_app). rewrite app_nil_r, !zlen_app.
      assert (zlen x = Z.of_nat (block A - length b)) as Zx by (unfold zlen; by rewrite Lx).
      rewrite u64_id; unfold zlen in *; lia.
  - apply (Write_tail a b); try done; [by rewrite Em, app_assoc|by rewrite Em|by rewrite zlen_app|].
    destruct (Nat.eqb_spec (length b) 0) as [|_]; [by left|right]. by apply Nat.leb_gt in Efill.
Qed.

Lemma Writes_absorbed ps h m : absorbed h m -> zlen (m ++ concat ps) < 2 ^ 63 -> absorbed (foldl hash_Write h ps) (m ++ concat ps).
Proof using Hblock Hbyte.
  revert h m. induction ps as [|p ps IH]; intros h m Hm Hlen; [by rewrite app_nil_r|]. cbn [foldl concat] in *.
  rewrite app_assoc in *. apply IH; [|done]. apply Write_absorbed; [done|]. rewrite zlen_app in Hlen. pose proof (zlen_nonneg (concat ps)). lia.
Qed.

(** ** Finalizing *)

Context (Hpad : Z.of_nat (block A) <= pad_base A) (Hsize : forall n, (pad_base A + 1 + zlen (sizedesc A n)) mod Z.of_nat (block A) = 0)
  (Hsizelen : forall n, zlen (sizedesc A n) <= Z.of_nat (block A)).

Lemma pad_array_take n : (S n <= block A)%nat -> take (S n) pad_array = 0x80 :: replicate n 0.
Proof. intros Hn. unfold pad_array. cbn [take]. by rewrite take_replicate, Nat.min_l by lia. Qed.

Lemma padded_whole m : zlen (padded m) mod Z.of_nat (block A) = 0.
Proof using Hsize Hblock.
  set (B := Z.of_nat (block A)). unfold padded. rewrite !zlen_app. unfold zlen at 2 3. cbn [length]. rewrite length_replicate.
  assert (0 < B) by (unfold B; lia). rewrite Z2Nat.id by (apply Z_mod_lt; lia).
  rewrite <- (Hsize (8 * zlen m)). fold B.
  replace (zlen m + (Z.of_nat 1 + ((pad_base A - zlen m) mod B + zlen (sizedesc A (8 * zlen m)))))
    with ((pad_base A - zlen m) mod B + (zlen m + 1 + zlen (sizedesc A (8 * zlen m)))) by lia.
  rewrite Zplus_mod_idemp_l. f_equal. lia.
Qed.

Lemma pad_absorbed h m : absorbed h m -> zlen m < 2 ^ 61 -> absorbed (hash_pad h) (padded m).
Proof using Hblock Hbyte Hpad Hsize Hsizelen.
  intros Hm Hlen. set (B := Z.of_nat (block A)). pose proof (zlen_nonneg m). assert (0 < B) by (unfold B; lia).
  assert (h_bytes h = zlen m) as En by (by destruct Hm as (a & b & _ & _ & _ & _ & _ & _ & E)).
  unfold hash_pad. rewrite En. fold B. rewrite Zminus_mod_idemp_r.
  pose proof (Z_mod_lt (pad_base A - zlen m) B ltac:(lia)) as Hk.
  rewrite Z2Nat.inj_add by lia. change (Z.to_nat 1 + ?n)%nat with (S n). rewrite pad_array_take by (unfold B in *; lia).
  rewrite Z.shiftl_mul_pow2 by lia. rewrite u64_id by lia. replace (zlen m * 2 ^ 3) with (8 * zlen m) by lia.
  set (z := replicate _ 0). assert (zlen z < B) as Lz by (change (zlen z) with (Z.of_nat (length z)); unfold z; rewrite length_replicate; lia).
  assert (forall d, zlen (0x80 :: d) = 1 + zlen d) as Ec by (intros d; unfold zlen; cbn [length]; lia).
  pose proof (Hsizelen (8 * zlen m)) as Ls. fold B in Ls. pose proof (zlen_nonneg (sizedesc A (8 * zlen m))).
  replace (padded m) with ((m ++ 0x80 :: z) ++ sizedesc A (8 * zlen m)) by (unfold padded; cbn [app]; by rewrite <- app_assoc).
  apply Write_absorbed; [apply Write_absorbed; [done|]|]; rewrite ?zlen_app, ?Ec; unfold B in *; lia.
Qed.

Lemma Finalize_absorbed h m : absorbed h m -> zlen m < 2 ^ 61 -> hash_Finalize h = standard_hash m.
Proof using Hblock Hbyte Hpad Hsize Hsizelen.
  intros Hm Hlen. unfold hash_Finalize, standard_hash. destruct (pad_absorbed h m Hm Hlen) as (a & b & E & Ha & Hb & -> & _).
  pose proof (bufsize_absorbed a b _ E Ha Hb) as Eb. rewrite padded_whole in Eb. destruct b; [|cbn in Eb; lia].
  by rewrite E, app_nil_r.
Qed.

Lemma absorbed_buf h m : absorbed h m -> length (h_buf h) = block A.
Proof. by intros (a & b & _ & _ & _ & _ & _ & Hb & _). Qed.

(** Whatever the pieces in which a message is written, the result is the hash of the message. *)
Lemma pieces_hash ps : zlen (concat ps) < 2 ^ 61 -> hash_Finalize (foldl hash_Write hash_new ps) = standard_hash (concat ps).
Proof using Hblock Hbyte Hpad Hsize Hsizelen.
  intros Hlen. apply Finalize_absorbed; [|done]. apply (Writes_absorbed ps hash_new []); [apply new_absorbed|]. cbn [app]. lia.
Qed.

(** The same after a [Finalize] and a [Reset]. *)
Lemma reset_hash ps qs : zlen (concat ps) < 2 ^ 61 -> zlen (concat qs) < 2 ^ 61 ->
  hash_Finalize (foldl hash_Write (hash_Reset (hash_pad (foldl hash_Write hash_new ps))) qs) = standard_hash (concat qs).
Proof using Hblock Hbyte Hpad Hsize Hsizelen.
  intros Hp Hq. apply Finalize_absorbed; [|done]. apply (Writes_absorbed qs _ []); [|cbn [app]; lia].
  assert (absorbed (foldl hash_Write hash_new ps) (concat ps)) as Ha.
  { apply (Writes_absorbed ps hash_new []); [apply new_absorbed|]. cbn [app]. lia. }
  exists [], []. split; [done|]. split; [constructor|]. split; [cbn; lia|]. split; [done|]. split; [done|]. split; [|done].
  cbn [hash_Reset h_buf]. by apply (absorbed_buf _ (padded (concat ps))), pad_absorbed.
Qed.
End Hasher.

Lemma blocks_same A B l : block A = block B -> blocks A l = blocks B l.
Proof.
  intros E. unfold blocks. generalize (length l). intros n. revert l.
  induction n as [|n IH]; intros l; cbn [blocks_loop]; [done|]. by rewrite E, IH.
Qed.

(** Two classes that differ in how they compute the same functions have the same hash. *)
Lemma standard_hash_same St blk pad (i i' : St) T T' sz sz' out m : i = i' -> (forall s c, T s c = T' s c) ->
  (forall n, 0 <= n < 2 ^ 64 -> sz n = sz' n) -> zlen m < 2 ^ 61 ->
  standard_hash {| hash_state := St; block := blk; pad_base := pad; Initialize := i; Transform := T; sizedesc := sz; output := out |} m =
  standard_hash {| hash_state := St; block := blk; pad_base := pad; Initialize := i'; Transform := T'; sizedesc := sz'; output := out |} m.
Proof.
  intros <- ET Esz Hm. pose proof (zlen_nonneg m). unfold standard_hash, padded. cbn [block pad_base Initialize Transform sizedesc output].
  rewrite (Esz (8 * zlen m)) by lia. f_equal. rewrite (blocks_same _ {| hash_state := St; block := blk; pad_base := pad; Initialize := i; Transform := T'; sizedesc := sz'; output := out |}) by done.
  set (l := blocks _ _). clearbody l. generalize i. induction l as [|c l IH]; intros s; [done|]. change (foldl T (T s c) l = foldl T' (T' s c) l). rewrite ET. apply IH.
Qed.
