(* ===== verification/Sha256.v ===== *)
(** * SHA-256

    The compression function of [crypto/sha256.cpp] line by line: each call of [Round] assigns the
    two registers it takes by reference, each [w] is updated where the code updates it.  It is
    the function of the standard, and the class hashes as the standard says. *)

From S2P Require Import Prelude Hasher HashSpec.

Module Sha256.

Definition Ch (x y z : Z) : Z := Z.lxor z (Z.land x (Z.lxor y z)).
Definition Maj (x y z : Z) : Z := Z.lor (Z.land x y) (Z.land z (Z.lor x y)).
Definition Sigma0 (x : Z) : Z := Z.lxor (Z.lxor (Z.lor (Z.shiftr x 2) (u32 (Z.shiftl x 30))) (Z.lor (Z.shiftr x 13) (u32 (Z.shiftl x 19)))) (Z.lor (Z.shiftr x 22) (u32 (Z.shiftl x 10))).
Definition Sigma1 (x : Z) : Z := Z.lxor (Z.lxor (Z.lor (Z.shiftr x 6) (u32 (Z.shiftl x 26))) (Z.lor (Z.shiftr x 11) (u32 (Z.shiftl x 21)))) (Z.lor (Z.shiftr x 25) (u32 (Z.shiftl x 7))).
Definition sigma0 (x : Z) : Z := Z.lxor (Z.lxor (Z.lor (Z.shiftr x 7) (u32 (Z.shiftl x 25))) (Z.lor (Z.shiftr x 18) (u32 (Z.shiftl x 14)))) (Z.shiftr x 3).
Definition sigma1 (x : Z) : Z := Z.lxor (Z.lxor (Z.lor (Z.shiftr x 17) (u32 (Z.shiftl x 15))) (Z.lor (Z.shiftr x 19) (u32 (Z.shiftl x 13)))) (Z.shiftr x 10).

(** The new values of [d] and [h]. *)
Definition Round (a b c d e f g h k w : Z) : Z * Z :=
  let t1 := u32 (h + Sigma1 e + Ch e f g + k + w) in
  let t2 := u32 (Sigma0 a + Maj a b c) in
  (u32 (d + t1), u32 (t1 + t2)).

Definition Init : state8 :=
  (0x6a09e667, 0xbb67ae85, 0x3c6ef372, 0xa54ff53a,
   0x510e527f, 0x9b05688c, 0x1f83d9ab, 0x5be0cd19).

Definition Transform (s : state8) (chunk : bytes) : state8 :=
  let '(s0, s1, s2, s3, s4, s5, s6, s7) := s in
  reg a := s0 in reg b := s1 in reg c := s2 in reg d := s3 in reg e := s4 in reg f := s5 in reg g := s6 in reg h := s7 in

  reg w0 := ReadBE32 chunk 0 in reg (d, h) := Round a b c d e f g h 0x428a2f98 w0 in
  reg w1 := ReadBE32 chunk 4 in reg (c, g) := Round h a b c d e f g 0x71374491 w1 in
  reg w2 := ReadBE32 chunk 8 in reg (b, f) := Round g h a b c d e f 0xb5c0fbcf w2 in
  reg w3 := ReadBE32 chunk 12 in reg (a, e) := Round f g h a b c d e 0xe9b5dba5 w3 in
  reg w4 := ReadBE32 chunk 16 in reg (h, d) := Round e f g h a b c d 0x3956c25b w4 in
  reg w5 := ReadBE32 chunk 20 in reg (g, c) := Round d e f g h a b c 0x59f111f1 w5 in
  reg w6 := ReadBE32 chunk 24 in reg (f, b) := Round c d e f g h a b 0x923f82a4 w6 in
  reg w7 := ReadBE32 chunk 28 in reg (e, a) := Round b c d e f g h a 0xab1c5ed5 w7 in
  reg w8 := ReadBE32 chunk 32 in reg (d, h) := Round a b c d e f g h 0xd807aa98 w8 in
  reg w9 := ReadBE32 chunk 36 in reg (c, g) := Round h a b c d e f g 0x12835b01 w9 in
  reg w10 := ReadBE32 chunk 40 in reg (b, f) := Round g h a b c d e f 0x243185be w10 in
  reg w11 := ReadBE32 chunk 44 in reg (a, e) := Round f g h a b c d e 0x550c7dc3 w11 in
  reg w12 := ReadBE32 chunk 48 in reg (h, d) := Round e f g h a b c d 0x72be5d74 w12 in
  reg w13 := ReadBE32 chunk 52 in reg (g, c) := Round d e f g h a b c 0x80deb1fe w13 in
  reg w14 := ReadBE32 chunk 56 in reg (f, b) := Round c d e f g h a b 0x9bdc06a7 w14 in
  reg w15 := ReadBE32 chunk 60 in reg (e, a) := Round b c d e f g h a 0xc19bf174 w15 in

  reg w0 := u32 (w0 + (sigma1 w14 + w9 + sigma0 w1)) in reg (d, h) := Round a b c d e f g h 0xe49b69c1 w0 in
  reg w1 := u32 (w1 + (sigma1 w15 + w10 + sigma0 w2)) in reg (c, g) := Round h a b c d e f g 0xefbe4786 w1 in
  reg w2 := u32 (w2 + (sigma1 w0 + w11 + sigma0 w3)) in reg (b, f) := Round g h a b c d e f 0x0fc19dc6 w2 in
  reg w3 := u32 (w3 + (sigma1 w1 + w12 + sigma0 w4)) in reg (a, e) := Round f g h a b c d e 0x240ca1cc w3 in
  reg w4 := u32 (w4 + (sigma1 w2 + w13 + sigma0 w5)) in reg (h, d) := Round e f g h a b c d 0x2de92c6f w4 in
  reg w5 := u32 (w5 + (sigma1 w3 + w14 + sigma0 w6)) in reg (g, c) := Round d e f g h a b c 0x4a7484aa w5 in
  reg w6 := u32 (w6 + (sigma1 w4 + w15 + sigma0 w7)) in reg (f, b) := Round c d e f g h a b 0x5cb0a9dc w6 in
  reg w7 := u32 (w7 + (sigma1 w5 + w0 + sigma0 w8)) in reg (e, a) := Round b c d e f g h a 0x76f988da w7 in
  reg w8 := u32 (w8 + (sigma1 w6 + w1 + sigma0 w9)) in reg (d, h) := Round a b c d e f g h 0x983e5152 w8 in
  reg w9 := u32 (w9 + (sigma1 w7 + w2 + sigma0 w10)) in reg (c, g) := Round h a b c d e f g 0xa831c66d w9 in
  reg w10 := u32 (w10 + (sigma1 w8 + w3 + sigma0 w11)) in reg (b, f) := Round g h a b c d e f 0xb00327c8 w10 in
  reg w11 := u32 (w11 + (sigma1 w9 + w4 + sigma0 w12)) in reg (a, e) := Round f g h a b c d e 0xbf597fc7 w11 in
  reg w12 := u32 (w12 + (sigma1 w10 + w5 + sigma0 w13)) in reg (h, d) := Round e f g h a b c d 0xc6e00bf3 w12 in
  reg w13 := u32 (w13 + (sigma1 w11 + w6 + sigma0 w14)) in reg (g, c) := Round d e f g h a b c 0xd5a79147 w13 in
  reg w14 := u32 (w14 + (sigma1 w12 + w7 + sigma0 w15)) in reg (f, b) := Round c d e f g h a b 0x06ca6351 w14 in
  reg w15 := u32 (w15 + (sigma1 w13 + w8 + sigma0 w0)) in reg (e, a) := Round b c d e f g h a 0x14292967 w15 in

  reg w0 := u32 (w0 + (sigma1 w14 + w9 + sigma0 w1)) in reg (d, h) := Round a b c d e f g h 0x27b70a85 w0 in
  reg w1 := u32 (w1 + (sigma1 w15 + w10 + sigma0 w2)) in reg (c, g) := Round h a b c d e f g 0x2e1b2138 w1 in
  reg w2 := u32 (w2 + (sigma1 w0 + w11 + sigma0 w3)) in reg (b, f) := Round g h a b c d e f 0x4d2c6dfc w2 in
  reg w3 := u32 (w3 + (sigma1 w1 + w12 + sigma0 w4)) in reg (a, e) := Round f g h a b c d e 0x53380d13 w3 in
  reg w4 := u32 (w4 + (sigma1 w2 + w13 + sigma0 w5)) in reg (h, d) := Round e f g h a b c d 0x650a7354 w4 in
  reg w5 := u32 (w5 + (sigma1 w3 + w14 + sigma0 w6)) in reg (g, c) := Round d e f g h a b c 0x766a0abb w5 in
  reg w6 := u32 (w6 + (sigma1 w4 + w15 + sigma0 w7)) in reg (f, b) := Round c d e f g h a b 0x81c2c92e w6 in
  reg w7 := u32 (w7 + (sigma1 w5 + w0 + sigma0 w8)) in reg (e, a) := Round b c d e f g h a 0x92722c85 w7 in
  reg w8 := u32 (w8 + (sigma1 w6 + w1 + sigma0 w9)) in reg (d, h) := Round a b c d e f g h 0xa2bfe8a1 w8 in
  reg w9 := u32 (w9 + (sigma1 w7 + w2 + sigma0 w10)) in reg (c, g) := Round h a b c d e f g 0xa81a664b w9 in
  reg w10 := u32 (w10 + (sigma1 w8 + w3 + sigma0 w11)) in reg (b, f) := Round g h a b c d e f 0xc24b8b70 w10 in
  reg w11 := u32 (w11 + (sigma1 w9 + w4 + sigma0 w12)) in reg (a, e) := Round f g h a b c d e 0xc76c51a3 w11 in
  reg w12 := u32 (w12 + (sigma1 w10 + w5 + sigma0 w13)) in reg (h, d) := Round e f g h a b c d 0xd192e819 w12 in
  reg w13 := u32 (w13 + (sigma1 w11 + w6 + sigma0 w14)) in reg (g, c) := Round d e f g h a b c 0xd6990624 w13 in
  reg w14 := u32 (w14 + (sigma1 w12 + w7 + sigma0 w15)) in reg (f, b) := Round c d e f g h a b 0xf40e3585 w14 in
  reg w15 := u32 (w15 + (sigma1 w13 + w8 + sigma0 w0)) in reg (e, a) := Round b c d e f g h a 0x106aa070 w15 in

  reg w0 := u32 (w0 + (sigma1 w14 + w9 + sigma0 w1)) in reg (d, h) := Round a b c d e f g h 0x19a4c116 w0 in
  reg w1 := u32 (w1 + (sigma1 w15 + w10 + sigma0 w2)) in reg (c, g) := Round h a b c d e f g 0x1e376c08 w1 in
  reg w2 := u32 (w2 + (sigma1 w0 + w11 + sigma0 w3)) in reg (b, f) := Round g h a b c d e f 0x2748774c w2 in
  reg w3 := u32 (w3 + (sigma1 w1 + w12 + sigma0 w4)) in reg (a, e) := Round f g h a b c d e 0x34b0bcb5 w3 in
  reg w4 := u32 (w4 + (sigma1 w2 + w13 + sigma0 w5)) in reg (h, d) := Round e f g h a b c d 0x391c0cb3 w4 in
  reg w5 := u32 (w5 + (sigma1 w3 + w14 + sigma0 w6)) in reg (g, c) := Round d e f g h a b c 0x4ed8aa4a w5 in
  reg w6 := u32 (w6 + (sigma1 w4 + w15 + sigma0 w7)) in reg (f, b) := Round c d e f g h a b 0x5b9cca4f w6 in
  reg w7 := u32 (w7 + (sigma1 w5 + w0 + sigma0 w8)) in reg (e, a) := Round b c d e f g h a 0x682e6ff3 w7 in
  reg w8 := u32 (w8 + (sigma1 w6 + w1 + sigma0 w9)) in reg (d, h) := Round a b c d e f g h 0x748f82ee w8 in
  reg w9 := u32 (w9 + (sigma1 w7 + w2 + sigma0 w10)) in reg (c, g) := Round h a b c d e f g 0x78a5636f w9 in
  reg w10 := u32 (w10 + (sigma1 w8 + w3 + sigma0 w11)) in reg (b, f) := Round g h a b c d e f 0x84c87814 w10 in
  reg w11 := u32 (w11 + (sigma1 w9 + w4 + sigma0 w12)) in reg (a, e) := Round f g h a b c d e 0x8cc70208 w11 in
  reg w12 := u32 (w12 + (sigma1 w10 + w5 + sigma0 w13)) in reg (h, d) := Round e f g h a b c d 0x90befffa w12 in
  reg w13 := u32 (w13 + (sigma1 w11 + w6 + sigma0 w14)) in reg (g, c) := Round d e f g h a b c 0xa4506ceb w13 in
  reg (f, b) := Round c d e f g h a b 0xbef9a3f7 (u32 (w14 + sigma1 w12 + w7 + sigma0 w15)) in
  reg (e, a) := Round b c d e f g h a 0xc67178f2 (u32 (w15 + sigma1 w13 + w8 + sigma0 w0)) in

  (u32 (s0 + a), u32 (s1 + b), u32 (s2 + c), u32 (s3 + d), u32 (s4 + e), u32 (s5 + f), u32 (s6 + g), u32 (s7 + h)).

(** The class. *)
Definition output (s : state8) : bytes :=
  let '(s0, s1, s2, s3, s4, s5, s6, s7) := s in
  WriteBE32 s0 ++ WriteBE32 s1 ++ WriteBE32 s2 ++ WriteBE32 s3 ++ WriteBE32 s4 ++ WriteBE32 s5 ++ WriteBE32 s6 ++ WriteBE32 s7.

Definition CSHA256 : hash_alg :=
  {| hash_state := state8; block := 64; pad_base := 119; Initialize := Init; Hasher.Transform := Transform;
     sizedesc := fun n => WriteBE64 n; Hasher.output := output |}.

(** Without padding, for the compression of one block; [None] is the exception. *)
Definition FinalizeNoPadding (h : hasher CSHA256) (enforce_compression : bool) : option bytes :=
  if enforce_compression && negb (h_bytes _ h =? 64) then None else Some (output (h_s _ h)).

(** ** The standard *)

Definition spec : hash_alg :=
  {| hash_state := state8; block := 64; pad_base := 119; Initialize := sha2_init sha2_256;
     Hasher.Transform := fun s chunk => sha2_compress sha2_256 s (block_words ReadBE32 4 chunk);
     sizedesc := fun n => WriteBE64 n; Hasher.output := output |}.

Definition K_table : list Z := Eval vm_compute in sha2_K sha2_256.
Lemma K_values_256 : sha2_K sha2_256 = K_table.
Proof. by vm_compute. Qed.

Lemma Init_values_256 : Init = sha2_init sha2_256.
Proof. by vm_compute. Qed.

(** A round and a schedule step in the code's functions. *)
Definition code_round (s : state8) (k w : Z) : state8 :=
  let '(a, b, c, d, e, f, g, h) := s in let '(d, h) := Round a b c d e f g h k w in (h, a, b, c, d, e, f, g).
Definition code_next (l : list Z) : Z :=
  u32 (nth_word 0 l + (sigma1 (nth_word 14 l) + nth_word 9 l + sigma0 (nth_word 1 l))).

Definition code_add (s t : state8) : state8 :=
  let '(a, b, c, d, e, f, g, h) := s in
  let '(a', b', c', d', e', f', g', h') := t in
  (u32 (a + a'), u32 (b + b'), u32 (c + c'), u32 (d + d'), u32 (e + e'), u32 (f + f'), u32 (g + g'), u32 (h + h')).

Lemma add_code_256 s t : add8 sha2_256 s t = code_add s t.
Proof. destruct s as [[[[[[[]]]]]]], t as [[[[[[[]]]]]]]. unfold add8, code_add, u32. by change (2 ^ word_bits sha2_256) with (2 ^ 32). Qed.

Lemma Round_code_256 s k w : sha2_round sha2_256 s k w = code_round s k w.
Proof.
  destruct s as [[[[[[[a b] c] d] e] f] g] h]. unfold code_round, Round, Ch, Maj. rewrite Ch_code, Maj_code.
  unfold sha2_round, u32. change (2 ^ word_bits sha2_256) with (2 ^ 32).
  change (sha2_big sha2_256 (Sigma_1 sha2_256) e) with (Sigma1 e). change (sha2_big sha2_256 (Sigma_0 sha2_256) a) with (Sigma0 a). reflexivity.
Qed.

Lemma next_code_256 l : sha2_next sha2_256 l = code_next l.
Proof.
  change (sha2_next _ _) with ((sigma1 (nth_word 14 l) + nth_word 9 l + sigma0 (nth_word 1 l) + nth_word 0 l) mod 2 ^ 32).
  unfold code_next, u32. f_equal. lia.
Qed.

Lemma last_code_256 w0 w1 w9 w14 : u32 (w0 + sigma1 w14 + w9 + sigma0 w1) = u32 (w0 + (sigma1 w14 + w9 + sigma0 w1)).
Proof. f_equal. lia. Qed.

#[local] Strategy 1000 [assign rounds extend Round sigma0 sigma1 u32 ReadBE32].

(** The 64 calls are the loop over the rounds.  The functions that the calls use are arbitrary
    here. *)
Lemma Transform_code_256 s chunk : Transform s chunk = sha2_compress sha2_256 s (block_words ReadBE32 4 chunk).
Proof.
  unfold sha2_compress, sha2_schedule. rewrite K_values_256, (rounds_ext _ _ Round_code_256), (extend_ext _ _ next_code_256).
  destruct s as [[[[[[[s0 s1] s2] s3] s4] s5] s6] s7].
  unfold block_words. change (seq 0 16) with [0; 1; 2; 3; 4; 5; 6; 7; 8; 9; 10; 11; 12; 13; 14; 15]%nat. cbn [map Nat.mul Nat.add app].
  change (n_rounds sha2_256 - 16)%nat with 48%nat.
  rewrite add_code_256. cbv beta iota delta [K_table Transform code_next code_round code_add nth_word].
  generalize last_code_256. generalize Round, sigma0, sigma1, u32. intros Rnd sg0 sg1 wrap Hlast.
  do 8 (apply assign_step; intros ? ->). cbv beta. do 16 read_call. do 46 update_call. do 2 (rewrite Hlast; last_call). done.
Qed.

(** The example of the standard: the message "abc". *)
Example sha256_abc : hash_message CSHA256 [97; 98; 99] = be_bytes 32 0xba7816bf8f01cfea414140de5dae2223b00361a396177a9cb410ff61f20015ad.
Proof. by vm_compute. Qed.

End Sha256.
