(* ===== verification/Sha512.v ===== *)
(** * SHA-512

    The compression function of [crypto/sha512.cpp] line by line: each call of [Round] assigns the
    two registers it takes by reference, each [w] is updated where the code updates it.  It is
    the function of the standard, and the class hashes as the standard says. *)

From S2P Require Import Prelude Hasher HashSpec.

Module Sha512.

Definition Ch (x y z : Z) : Z := Z.lxor z (Z.land x (Z.lxor y z)).
Definition Maj (x y z : Z) : Z := Z.lor (Z.land x y) (Z.land z (Z.lor x y)).
Definition Sigma0 (x : Z) : Z := Z.lxor (Z.lxor (Z.lor (Z.shiftr x 28) (u64 (Z.shiftl x 36))) (Z.lor (Z.shiftr x 34) (u64 (Z.shiftl x 30)))) (Z.lor (Z.shiftr x 39) (u64 (Z.shiftl x 25))).
Definition Sigma1 (x : Z) : Z := Z.lxor (Z.lxor (Z.lor (Z.shiftr x 14) (u64 (Z.shiftl x 50))) (Z.lor (Z.shiftr x 18) (u64 (Z.shiftl x 46)))) (Z.lor (Z.shiftr x 41) (u64 (Z.shiftl x 23))).
Definition sigma0 (x : Z) : Z := Z.lxor (Z.lxor (Z.lor (Z.shiftr x 1) (u64 (Z.shiftl x 63))) (Z.lor (Z.shiftr x 8) (u64 (Z.shiftl x 56)))) (Z.shiftr x 7).
Definition sigma1 (x : Z) : Z := Z.lxor (Z.lxor (Z.lor (Z.shiftr x 19) (u64 (Z.shiftl x 45))) (Z.lor (Z.shiftr x 61) (u64 (Z.shiftl x 3)))) (Z.shiftr x 6).

(** The new values of [d] and [h]. *)
Definition Round (a b c d e f g h k w : Z) : Z * Z :=
  let t1 := u64 (h + Sigma1 e + Ch e f g + k + w) in
  let t2 := u64 (Sigma0 a + Maj a b c) in
  (u64 (d + t1), u64 (t1 + t2)).

Definition Init : state8 :=
  (0x6a09e667f3bcc908, 0xbb67ae8584caa73b, 0x3c6ef372fe94f82b, 0xa54ff53a5f1d36f1,
   0x510e527fade682d1, 0x9b05688c2b3e6c1f, 0x1f83d9abfb41bd6b, 0x5be0cd19137e2179).

Definition Transform (s : state8) (chunk : bytes) : state8 :=
  let '(s0, s1, s2, s3, s4, s5, s6, s7) := s in
  reg a := s0 in reg b := s1 in reg c := s2 in reg d := s3 in reg e := s4 in reg f := s5 in reg g := s6 in reg h := s7 in

  reg w0 := ReadBE64 chunk 0 in reg (d, h) := Round a b c d e f g h 0x428a2f98d728ae22 w0 in
  reg w1 := ReadBE64 chunk 8 in reg (c, g) := Round h a b c d e f g 0x7137449123ef65cd w1 in
  reg w2 := ReadBE64 chunk 16 in reg (b, f) := Round g h a b c d e f 0xb5c0fbcfec4d3b2f w2 in
  reg w3 := ReadBE64 chunk 24 in reg (a, e) := Round f g h a b c d e 0xe9b5dba58189dbbc w3 in
  reg w4 := ReadBE64 chunk 32 in reg (h, d) := Round e f g h a b c d 0x3956c25bf348b538 w4 in
  reg w5 := ReadBE64 chunk 40 in reg (g, c) := Round d e f g h a b c 0x59f111f1b605d019 w5 in
  reg w6 := ReadBE64 chunk 48 in reg (f, b) := Round c d e f g h a b 0x923f82a4af194f9b w6 in
  reg w7 := ReadBE64 chunk 56 in reg (e, a) := Round b c d e f g h a 0xab1c5ed5da6d8118 w7 in
  reg w8 := ReadBE64 chunk 64 in reg (d, h) := Round a b c d e f g h 0xd807aa98a3030242 w8 in
  reg w9 := ReadBE64 chunk 72 in reg (c, g) := Round h a b c d e f g 0x12835b0145706fbe w9 in
  reg w10 := ReadBE64 chunk 80 in reg (b, f) := Round g h a b c d e f 0x243185be4ee4b28c w10 in
  reg w11 := ReadBE64 chunk 88 in reg (a, e) := Round f g h a b c d e 0x550c7dc3d5ffb4e2 w11 in
  reg w12 := ReadBE64 chunk 96 in reg (h, d) := Round e f g h a b c d 0x72be5d74f27b896f w12 in
  reg w13 := ReadBE64 chunk 104 in reg (g, c) := Round d e f g h a b c 0x80deb1fe3b1696b1 w13 in
  reg w14 := ReadBE64 chunk 112 in reg (f, b) := Round c d e f g h a b 0x9bdc06a725c71235 w14 in
  reg w15 := ReadBE64 chunk 120 in reg (e, a) := Round b c d e f g h a 0xc19bf174cf692694 w15 in

  reg w0 := u64 (w0 + (sigma1 w14 + w9 + sigma0 w1)) in reg (d, h) := Round a b c d e f g h 0xe49b69c19ef14ad2 w0 in
  reg w1 := u64 (w1 + (sigma1 w15 + w10 + sigma0 w2)) in reg (c, g) := Round h a b c d e f g 0xefbe4786384f25e3 w1 in
  reg w2 := u64 (w2 + (sigma1 w0 + w11 + sigma0 w3)) in reg (b, f) := Round g h a b c d e f 0x0fc19dc68b8cd5b5 w2 in
  reg w3 := u64 (w3 + (sigma1 w1 + w12 + sigma0 w4)) in reg (a, e) := Round f g h a b c d e 0x240ca1cc77ac9c65 w3 in
  reg w4 := u64 (w4 + (sigma1 w2 + w13 + sigma0 w5)) in reg (h, d) := Round e f g h a b c d 0x2de92c6f592b0275 w4 in
  reg w5 := u64 (w5 + (sigma1 w3 + w14 + sigma0 w6)) in reg (g, c) := Round d e f g h a b c 0x4a7484aa6ea6e483 w5 in
  reg w6 := u64 (w6 + (sigma1 w4 + w15 + sigma0 w7)) in reg (f, b) := Round c d e f g h a b 0x5cb0a9dcbd41fbd4 w6 in
  reg w7 := u64 (w7 + (sigma1 w5 + w0 + sigma0 w8)) in reg (e, a) := Round b c d e f g h a 0x76f988da831153b5 w7 in
  reg w8 := u64 (w8 + (sigma1 w6 + w1 + sigma0 w9)) in reg (d, h) := Round a b c d e f g h 0x983e5152ee66dfab w8 in
  reg w9 := u64 (w9 + (sigma1 w7 + w2 + sigma0 w10)) in reg (c, g) := Round h a b c d e f g 0xa831c66d2db43210 w9 in
  reg w10 := u64 (w10 + (sigma1 w8 + w3 + sigma0 w11)) in reg (b, f) := Round g h a b c d e f 0xb00327c898fb213f w10 in
  reg w11 := u64 (w11 + (sigma1 w9 + w4 + sigma0 w12)) in reg (a, e) := Round f g h a b c d e 0xbf597fc7beef0ee4 w11 in
  reg w12 := u64 (w12 + (sigma1 w10 + w5 + sigma0 w13)) in reg (h, d) := Round e f g h a b c d 0xc6e00bf33da88fc2 w12 in
  reg w13 := u64 (w13 + (sigma1 w11 + w6 + sigma0 w14)) in reg (g, c) := Round d e f g h a b c 0xd5a79147930aa725 w13 in
  reg w14 := u64 (w14 + (sigma1 w12 + w7 + sigma0 w15)) in reg (f, b) := Round c d e f g h a b 0x06ca6351e003826f w14 in
  reg w15 := u64 (w15 + (sigma1 w13 + w8 + sigma0 w0)) in reg (e, a) := Round b c d e f g h a 0x142929670a0e6e70 w15 in

  reg w0 := u64 (w0 + (sigma1 w14 + w9 + sigma0 w1)) in reg (d, h) := Round a b c d e f g h 0x27b70a8546d22ffc w0 in
  reg w1 := u64 (w1 + (sigma1 w15 + w10 + sigma0 w2)) in reg (c, g) := Round h a b c d e f g 0x2e1b21385c26c926 w1 in
  reg w2 := u64 (w2 + (sigma1 w0 + w11 + sigma0 w3)) in reg (b, f) := Round g h a b c d e f 0x4d2c6dfc5ac42aed w2 in
  reg w3 := u64 (w3 + (sigma1 w1 + w12 + sigma0 w4)) in reg (a, e) := Round f g h a b c d e 0x53380d139d95b3df w3 in
  reg w4 := u64 (w4 + (sigma1 w2 + w13 + sigma0 w5)) in reg (h, d) := Round e f g h a b c d 0x650a73548baf63de w4 in
  reg w5 := u64 (w5 + (sigma1 w3 + w14 + sigma0 w6)) in reg (g, c) := Round d e f g h a b c 0x766a0abb3c77b2a8 w5 in
  reg w6 := u64 (w6 + (sigma1 w4 + w15 + sigma0 w7)) in reg (f, b) := Round c d e f g h a b 0x81c2c92e47edaee6 w6 in
  reg w7 := u64 (w7 + (sigma1 w5 + w0 + sigma0 w8)) in reg (e, a) := Round b c d e f g h a 0x92722c851482353b w7 in
  reg w8 := u64 (w8 + (sigma1 w6 + w1 + sigma0 w9)) in reg (d, h) := Round a b c d e f g h 0xa2bfe8a14cf10364 w8 in
  reg w9 := u64 (w9 + (sigma1 w7 + w2 + sigma0 w10)) in reg (c, g) := Round h a b c d e f g 0xa81a664bbc423001 w9 in
  reg w10 := u64 (w10 + (sigma1 w8 + w3 + sigma0 w11)) in reg (b, f) := Round g h a b c d e f 0xc24b8b70d0f89791 w10 in
  reg w11 := u64 (w11 + (sigma1 w9 + w4 + sigma0 w12)) in reg (a, e) := Round f g h a b c d e 0xc76c51a30654be30 w11 in
  reg w12 := u64 (w12 + (sigma1 w10 + w5 + sigma0 w13)) in reg (h, d) := Round e f g h a b c d 0xd192e819d6ef5218 w12 in
  reg w13 := u64 (w13 + (sigma1 w11 + w6 + sigma0 w14)) in reg (g, c) := Round d e f g h a b c 0xd69906245565a910 w13 in
  reg w14 := u64 (w14 + (sigma1 w12 + w7 + sigma0 w15)) in reg (f, b) := Round c d e f g h a b 0xf40e35855771202a w14 in
  reg w15 := u64 (w15 + (sigma1 w13 + w8 + sigma0 w0)) in reg (e, a) := Round b c d e f g h a 0x106aa07032bbd1b8 w15 in

  reg w0 := u64 (w0 + (sigma1 w14 + w9 + sigma0 w1)) in reg (d, h) := Round a b c d e f g h 0x19a4c116b8d2d0c8 w0 in
  reg w1 := u64 (w1 + (sigma1 w15 + w10 + sigma0 w2)) in reg (c, g) := Round h a b c d e f g 0x1e376c085141ab53 w1 in
  reg w2 := u64 (w2 + (sigma1 w0 + w11 + sigma0 w3)) in reg (b, f) := Round g h a b c d e f 0x2748774cdf8eeb99 w2 in
  reg w3 := u64 (w3 + (sigma1 w1 + w12 + sigma0 w4)) in reg (a, e) := Round f g h a b c d e 0x34b0bcb5e19b48a8 w3 in
  reg w4 := u64 (w4 + (sigma1 w2 + w13 + sigma0 w5)) in reg (h, d) := Round e f g h a b c d 0x391c0cb3c5c95a63 w4 in
  reg w5 := u64 (w5 + (sigma1 w3 + w14 + sigma0 w6)) in reg (g, c) := Round d e f g h a b c 0x4ed8aa4ae3418acb w5 in
  reg w6 := u64 (w6 + (sigma1 w4 + w15 + sigma0 w7)) in reg (f, b) := Round c d e f g h a b 0x5b9cca4f7763e373 w6 in
  reg w7 := u64 (w7 + (sigma1 w5 + w0 + sigma0 w8)) in reg (e, a) := Round b c d e f g h a 0x682e6ff3d6b2b8a3 w7 in
  reg w8 := u64 (w8 + (sigma1 w6 + w1 + sigma0 w9)) in reg (d, h) := Round a b c d e f g h 0x748f82ee5defb2fc w8 in
  reg w9 := u64 (w9 + (sigma1 w7 + w2 + sigma0 w10)) in reg (c, g) := Round h a b c d e f g 0x78a5636f43172f60 w9 in
  reg w10 := u64 (w10 + (sigma1 w8 + w3 + sigma0 w11)) in reg (b, f) := Round g h a b c d e f 0x84c87814a1f0ab72 w10 in
  reg w11 := u64 (w11 + (sigma1 w9 + w4 + sigma0 w12)) in reg (a, e) := Round f g h a b c d e 0x8cc702081a6439ec w11 in
  reg w12 := u64 (w12 + (sigma1 w10 + w5 + sigma0 w13)) in reg (h, d) := Round e f g h a b c d 0x90befffa23631e28 w12 in
  reg w13 := u64 (w13 + (sigma1 w11 + w6 + sigma0 w14)) in reg (g, c) := Round d e f g h a b c 0xa4506cebde82bde9 w13 in
  reg w14 := u64 (w14 + (sigma1 w12 + w7 + sigma0 w15)) in reg (f, b) := Round c d e f g h a b 0xbef9a3f7b2c67915 w14 in
  reg w15 := u64 (w15 + (sigma1 w13 + w8 + sigma0 w0)) in reg (e, a) := Round b c d e f g h a 0xc67178f2e372532b w15 in

  reg w0 := u64 (w0 + (sigma1 w14 + w9 + sigma0 w1)) in reg (d, h) := Round a b c d e f g h 0xca273eceea26619c w0 in
  reg w1 := u64 (w1 + (sigma1 w15 + w10 + sigma0 w2)) in reg (c, g) := Round h a b c d e f g 0xd186b8c721c0c207 w1 in
  reg w2 := u64 (w2 + (sigma1 w0 + w11 + sigma0 w3)) in reg (b, f) := Round g h a b c d e f 0xeada7dd6cde0eb1e w2 in
  reg w3 := u64 (w3 + (sigma1 w1 + w12 + sigma0 w4)) in reg (a, e) := Round f g h a b c d e 0xf57d4f7fee6ed178 w3 in
  reg w4 := u64 (w4 + (sigma1 w2 + w13 + sigma0 w5)) in reg (h, d) := Round e f g h a b c d 0x06f067aa72176fba w4 in
  reg w5 := u64 (w5 + (sigma1 w3 + w14 + sigma0 w6)) in reg (g, c) := Round d e f g h a b c 0x0a637dc5a2c898a6 w5 in
  reg w6 := u64 (w6 + (sigma1 w4 + w15 + sigma0 w7)) in reg (f, b) := Round c d e f g h a b 0x113f9804bef90dae w6 in
  reg w7 := u64 (w7 + (sigma1 w5 + w0 + sigma0 w8)) in reg (e, a) := Round b c d e f g h a 0x1b710b35131c471b w7 in
  reg w8 := u64 (w8 + (sigma1 w6 + w1 + sigma0 w9)) in reg (d, h) := Round a b c d e f g h 0x28db77f523047d84 w8 in
  reg w9 := u64 (w9 + (sigma1 w7 + w2 + sigma0 w10)) in reg (c, g) := Round h a b c d e f g 0x32caab7b40c72493 w9 in
  reg w10 := u64 (w10 + (sigma1 w8 + w3 + sigma0 w11)) in reg (b, f) := Round g h a b c d e f 0x3c9ebe0a15c9bebc w10 in
  reg w11 := u64 (w11 + (sigma1 w9 + w4 + sigma0 w12)) in reg (a, e) := Round f g h a b c d e 0x431d67c49c100d4c w11 in
  reg w12 := u64 (w12 + (sigma1 w10 + w5 + sigma0 w13)) in reg (h, d) := Round e f g h a b c d 0x4cc5d4becb3e42b6 w12 in
  reg w13 := u64 (w13 + (sigma1 w11 + w6 + sigma0 w14)) in reg (g, c) := Round d e f g h a b c 0x597f299cfc657e2a w13 in
  reg (f, b) := Round c d e f g h a b 0x5fcb6fab3ad6faec (u64 (w14 + sigma1 w12 + w7 + sigma0 w15)) in
  reg (e, a) := Round b c d e f g h a 0x6c44198c4a475817 (u64 (w15 + sigma1 w13 + w8 + sigma0 w0)) in

  (u64 (s0 + a), u64 (s1 + b), u64 (s2 + c), u64 (s3 + d), u64 (s4 + e), u64 (s5 + f), u64 (s6 + g), u64 (s7 + h)).

(** The class. *)
Definition output (s : state8) : bytes :=
  let '(s0, s1, s2, s3, s4, s5, s6, s7) := s in
  WriteBE64 s0 ++ WriteBE64 s1 ++ WriteBE64 s2 ++ WriteBE64 s3 ++ WriteBE64 s4 ++ WriteBE64 s5 ++ WriteBE64 s6 ++ WriteBE64 s7.

Definition CSHA512 : hash_alg :=
  {| hash_state := state8; block := 128; pad_base := 239; Initialize := Init; Hasher.Transform := Transform;
     sizedesc := fun n => replicate 8 0 ++ WriteBE64 n; Hasher.output := output |}.

(** ** The standard *)

Definition spec : hash_alg :=
  {| hash_state := state8; block := 128; pad_base := 239; Initialize := sha2_init sha2_512;
     Hasher.Transform := fun s chunk => sha2_compress sha2_512 s (block_words ReadBE64 8 chunk);
     sizedesc := fun n => be_bytes 16 n; Hasher.output := output |}.

Definition K_table : list Z := Eval vm_compute in sha2_K sha2_512.
Lemma K_values_512 : sha2_K sha2_512 = K_table.
Proof. by vm_compute. Qed.

Lemma Init_values_512 : Init = sha2_init sha2_512.
Proof. by vm_compute. Qed.

(** A round and a schedule step in the code's functions. *)
Definition code_round (s : state8) (k w : Z) : state8 :=
  let '(a, b, c, d, e, f, g, h) := s in let '(d, h) := Round a b c d e f g h k w in (h, a, b, c, d, e, f, g).
Definition code_next (l : list Z) : Z :=
  u64 (nth_word 0 l + (sigma1 (nth_word 14 l) + nth_word 9 l + sigma0 (nth_word 1 l))).

Definition code_add (s t : state8) : state8 :=
  let '(a, b, c, d, e, f, g, h) := s in
  let '(a', b', c', d', e', f', g', h') := t in
  (u64 (a + a'), u64 (b + b'), u64 (c + c'), u64 (d + d'), u64 (e + e'), u64 (f + f'), u64 (g + g'), u64 (h + h')).

Lemma add_code_512 s t : add8 sha2_512 s t = code_add s t.
Proof. destruct s as [[[[[[[]]]]]]], t as [[[[[[[]]]]]]]. unfold add8, code_add, u64. by change (2 ^ word_bits sha2_512) with (2 ^ 64). Qed.

Lemma Round_code_512 s k w : sha2_round sha2_512 s k w = code_round s k w.
Proof.
  destruct s as [[[[[[[a b] c] d] e] f] g] h]. unfold code_round, Round, Ch, Maj. rewrite Ch_code, Maj_code.
  unfold sha2_round, u64. change (2 ^ word_bits sha2_512) with (2 ^ 64).
  change (sha2_big sha2_512 (Sigma_1 sha2_512) e) with (Sigma1 e). change (sha2_big sha2_512 (Sigma_0 sha2_512) a) with (Sigma0 a). reflexivity.
Qed.

Lemma next_code_512 l : sha2_next sha2_512 l = code_next l.
Proof.
  change (sha2_next _ _) with ((sigma1 (nth_word 14 l) + nth_word 9 l + sigma0 (nth_word 1 l) + nth_word 0 l) mod 2 ^ 64).
  unfold code_next, u64. f_equal. lia.
Qed.

Lemma last_code_512 w0 w1 w9 w14 : u64 (w0 + sigma1 w14 + w9 + sigma0 w1) = u64 (w0 + (sigma1 w14 + w9 + sigma0 w1)).
Proof. f_equal. lia. Qed.

#[local] Strategy 1000 [assign rounds extend Round sigma0 sigma1 u64 ReadBE64].

(** The 80 calls are the loop over the rounds.  The functions that the calls use are arbitrary
    here. *)
Lemma Transform_code_512 s chunk : Transform s chunk = sha2_compress sha2_512 s (block_words ReadBE64 8 chunk).
Proof.
  unfold sha2_compress, sha2_schedule. rewrite K_values_512, (rounds_ext _ _ Round_code_512), (extend_ext _ _ next_code_512).
  destruct s as [[[[[[[s0 s1] s2] s3] s4] s5] s6] s7].
  unfold block_words. change (seq 0 16) with [0; 1; 2; 3; 4; 5; 6; 7; 8; 9; 10; 11; 12; 13; 14; 15]%nat. cbn [map Nat.mul Nat.add app].
  change (n_rounds sha2_512 - 16)%nat with 64%nat.
  rewrite add_code_512. cbv beta iota delta [K_table Transform code_next code_round code_add nth_word].
  generalize last_code_512. generalize Round, sigma0, sigma1, u64. intros Rnd sg0 sg1 wrap Hlast.
  do 8 (apply assign_step; intros ? ->). cbv beta. do 16 read_call. do 62 update_call. do 2 (rewrite Hlast; last_call). done.
Qed.

Lemma sizedesc_code n : 0 <= n < 2 ^ 64 -> replicate 8 0 ++ WriteBE64 n = be_bytes 16 n.
Proof.
  intros Hn. unfold WriteBE64, be_bytes. change 16%nat with (8 + 8)%nat. rewrite le_bytes_app, rev_app_distr.
  rewrite Z.div_small by (change (256 ^ Z.of_nat 8) with (2 ^ 64); lia). done.
Qed.

(** The example of the standard: the message "abc". *)
Example sha512_abc : hash_message CSHA512 [97; 98; 99] = be_bytes 64 0xddaf35a193617abacc417349ae20413112e6fa4e89a97ea20a9eeee64b55d39a2192992a274fc1a836ba3c23a3feebbd454d4423643ce80e2a9ac94fa54ca49f.
Proof. by vm_compute. Qed.

End Sha512.
