(* ===== verification/Sha1.v ===== *)
(** * SHA-1

    The compression function of [crypto/sha1.cpp] line by line, as in the file on SHA-256. *)

From S2P Require Import Prelude Hasher HashSpec.

Module Sha1.

(** The new values of [b] and [e]. *)
Definition Round (a b c d e f k w : Z) : Z * Z :=
  (Z.lor (u32 (Z.shiftl b 30)) (Z.shiftr b 2), u32 (e + (Z.lor (u32 (Z.shiftl a 5)) (Z.shiftr a 27) + f + k + w))).

Definition f1 (b c d : Z) : Z := Z.lxor d (Z.land b (Z.lxor c d)).
Definition f2 (b c d : Z) : Z := Z.lxor (Z.lxor b c) d.
Definition f3 (b c d : Z) : Z := Z.lor (Z.land b c) (Z.land d (Z.lor b c)).
Definition left (x : Z) : Z := Z.lor (u32 (Z.shiftl x 1)) (Z.shiftr x 31).

Definition Init : state5 := (0x67452301, 0xEFCDAB89, 0x98BADCFE, 0x10325476, 0xC3D2E1F0).

Definition k1 : Z := 0x5A827999.
Definition k2 : Z := 0x6ED9EBA1.
Definition k3 : Z := 0x8F1BBCDC.
Definition k4 : Z := 0xCA62C1D6.

Definition Transform (s : state5) (chunk : bytes) : state5 :=
  let '(s0, s1, s2, s3, s4) := s in
  reg a := s0 in reg b := s1 in reg c := s2 in reg d := s3 in reg e := s4 in

  reg w0 := ReadBE32 chunk 0 in reg (b, e) := Round a b c d e (f1 b c d) k1 w0 in
  reg w1 := ReadBE32 chunk 4 in reg (a, d) := Round e a b c d (f1 a b c) k1 w1 in
  reg w2 := ReadBE32 chunk 8 in reg (e, c) := Round d e a b c (f1 e a b) k1 w2 in
  reg w3 := ReadBE32 chunk 12 in reg (d, b) := Round c d e a b (f1 d e a) k1 w3 in
  reg w4 := ReadBE32 chunk 16 in reg (c, a) := Round b c d e a (f1 c d e) k1 w4 in
  reg w5 := ReadBE32 chunk 20 in reg (b, e) := Round a b c d e (f1 b c d) k1 w5 in
  reg w6 := ReadBE32 chunk 24 in reg (a, d) := Round e a b c d (f1 a b c) k1 w6 in
  reg w7 := ReadBE32 chunk 28 in reg (e, c) := Round d e a b c (f1 e a b) k1 w7 in
  reg w8 := ReadBE32 chunk 32 in reg (d, b) := Round c d e a b (f1 d e a) k1 w8 in
  reg w9 := ReadBE32 chunk 36 in reg (c, a) := Round b c d e a (f1 c d e) k1 w9 in
  reg w10 := ReadBE32 chunk 40 in reg (b, e) := Round a b c d e (f1 b c d) k1 w10 in
  reg w11 := ReadBE32 chunk 44 in reg (a, d) := Round e a b c d (f1 a b c) k1 w11 in
  reg w12 := ReadBE32 chunk 48 in reg (e, c) := Round d e a b c (f1 e a b) k1 w12 in
  reg w13 := ReadBE32 chunk 52 in reg (d, b) := Round c d e a b (f1 d e a) k1 w13 in
  reg w14 := ReadBE32 chunk 56 in reg (c, a) := Round b c d e a (f1 c d e) k1 w14 in
  reg w15 := ReadBE32 chunk 60 in reg (b, e) := Round a b c d e (f1 b c d) k1 w15 in

  reg w0 := left (Z.lxor (Z.lxor (Z.lxor w0 w13) w8) w2) in reg (a, d) := Round e a b c d (f1 a b c) k1 w0 in
  reg w1 := left (Z.lxor (Z.lxor (Z.lxor w1 w14) w9) w3) in reg (e, c) := Round d e a b c (f1 e a b) k1 w1 in
  reg w2 := left (Z.lxor (Z.lxor (Z.lxor w2 w15) w10) w4) in reg (d, b) := Round c d e a b (f1 d e a) k1 w2 in
  reg w3 := left (Z.lxor (Z.lxor (Z.lxor w3 w0) w11) w5) in reg (c, a) := Round b c d e a (f1 c d e) k1 w3 in
  reg w4 := left (Z.lxor (Z.lxor (Z.lxor w4 w1) w12) w6) in reg (b, e) := Round a b c d e (f2 b c d) k2 w4 in
  reg w5 := left (Z.lxor (Z.lxor (Z.lxor w5 w2) w13) w7) in reg (a, d) := Round e a b c d (f2 a b c) k2 w5 in
  reg w6 := left (Z.lxor (Z.lxor (Z.lxor w6 w3) w14) w8) in reg (e, c) := Round d e a b c (f2 e a b) k2 w6 in
  reg w7 := left (Z.lxor (Z.lxor (Z.lxor w7 w4) w15) w9) in reg (d, b) := Round c d e a b (f2 d e a) k2 w7 in
  reg w8 := left (Z.lxor (Z.lxor (Z.lxor w8 w5) w0) w10) in reg (c, a) := Round b c d e a (f2 c d e) k2 w8 in
  reg w9 := left (Z.lxor (Z.lxor (Z.lxor w9 w6) w1) w11) in reg (b, e) := Round a b c d e (f2 b c d) k2 w9 in
  reg w10 := left (Z.lxor (Z.lxor (Z.lxor w10 w7) w2) w12) in reg (a, d) := Round e a b c d (f2 a b c) k2 w10 in
  reg w11 := left (Z.lxor (Z.lxor (Z.lxor w11 w8) w3) w13) in reg (e, c) := Round d e a b c (f2 e a b) k2 w11 in
  reg w12 := left (Z.lxor (Z.lxor (Z.lxor w12 w9) w4) w14) in reg (d, b) := Round c d e a b (f2 d e a) k2 w12 in
  reg w13 := left (Z.lxor (Z.lxor (Z.lxor w13 w10) w5) w15) in reg (c, a) := Round b c d e a (f2 c d e) k2 w13 in
  reg w14 := left (Z.lxor (Z.lxor (Z.lxor w14 w11) w6) w0) in reg (b, e) := Round a b c d e (f2 b c d) k2 w14 in
  reg w15 := left (Z.lxor (Z.lxor (Z.lxor w15 w12) w7) w1) in reg (a, d) := Round e a b c d (f2 a b c) k2 w15 in

  reg w0 := left (Z.lxor (Z.lxor (Z.lxor w0 w13) w8) w2) in reg (e, c) := Round d e a b c (f2 e a b) k2 w0 in
  reg w1 := left (Z.lxor (Z.lxor (Z.lxor w1 w14) w9) w3) in reg (d, b) := Round c d e a b (f2 d e a) k2 w1 in
  reg w2 := left (Z.lxor (Z.lxor (Z.lxor w2 w15) w10) w4) in reg (c, a) := Round b c d e a (f2 c d e) k2 w2 in
  reg w3 := left (Z.lxor (Z.lxor (Z.lxor w3 w0) w11) w5) in reg (b, e) := Round a b c d e (f2 b c d) k2 w3 in
  reg w4 := left (Z.lxor (Z.lxor (Z.lxor w4 w1) w12) w6) in reg (a, d) := Round e a b c d (f2 a b c) k2 w4 in
  reg w5 := left (Z.lxor (Z.lxor (Z.lxor w5 w2) w13) w7) in reg (e, c) := Round d e a b c (f2 e a b) k2 w5 in
  reg w6 := left (Z.lxor (Z.lxor (Z.lxor w6 w3) w14) w8) in reg (d, b) := Round c d e a b (f2 d e a) k2 w6 in
  reg w7 := left (Z.lxor (Z.lxor (Z.lxor w7 w4) w15) w9) in reg (c, a) := Round b c d e a (f2 c d e) k2 w7 in
  reg w8 := left (Z.lxor (Z.lxor (Z.lxor w8 w5) w0) w10) in reg (b, e) := Round a b c d e (f3 b c d) k3 w8 in
  reg w9 := left (Z.lxor (Z.lxor (Z.lxor w9 w6) w1) w11) in reg (a, d) := Round e a b c d (f3 a b c) k3 w9 in
  reg w10 := left (Z.lxor (Z.lxor (Z.lxor w10 w7) w2) w12) in reg (e, c) := Round d e a b c (f3 e a b) k3 w10 in
  reg w11 := left (Z.lxor (Z.lxor (Z.lxor w11 w8) w3) w13) in reg (d, b) := Round c d e a b (f3 d e a) k3 w11 in
  reg w12 := left (Z.lxor (Z.lxor (Z.lxor w12 w9) w4) w14) in reg (c, a) := Round b c d e a (f3 c d e) k3 w12 in
  reg w13 := left (Z.lxor (Z.lxor (Z.lxor w13 w10) w5) w15) in reg (b, e) := Round a b c d e (f3 b c d) k3 w13 in
  reg w14 := left (Z.lxor (Z.lxor (Z.lxor w14 w11) w6) w0) in reg (a, d) := Round e a b c d (f3 a b c) k3 w14 in
  reg w15 := left (Z.lxor (Z.lxor (Z.lxor w15 w12) w7) w1) in reg (e, c) := Round d e a b c (f3 e a b) k3 w15 in

  reg w0 := left (Z.lxor (Z.lxor (Z.lxor w0 w13) w8) w2) in reg (d, b) := Round c d e a b (f3 d e a) k3 w0 in
  reg w1 := left (Z.lxor (Z.lxor (Z.lxor w1 w14) w9) w3) in reg (c, a) := Round b c d e a (f3 c d e) k3 w1 in
  reg w2 := left (Z.lxor (Z.lxor (Z.lxor w2 w15) w10) w4) in reg (b, e) := Round a b c d e (f3 b c d) k3 w2 in
  reg w3 := left (Z.lxor (Z.lxor (Z.lxor w3 w0) w11) w5) in reg (a, d) := Round e a b c d (f3 a b c) k3 w3 in
  reg w4 := left (Z.lxor (Z.lxor (Z.lxor w4 w1) w12) w6) in reg (e, c) := Round d e a b c (f3 e a b) k3 w4 in
  reg w5 := left (Z.lxor (Z.lxor (Z.lxor w5 w2) w13) w7) in reg (d, b) := Round c d e a b (f3 d e a) k3 w5 in
  reg w6 := left (Z.lxor (Z.lxor (Z.lxor w6 w3) w14) w8) in reg (c, a) := Round b c d e a (f3 c d e) k3 w6 in
  reg w7 := left (Z.lxor (Z.lxor (Z.lxor w7 w4) w15) w9) in reg (b, e) := Round a b c d e (f3 b c d) k3 w7 in
  reg w8 := left (Z.lxor (Z.lxor (Z.lxor w8 w5) w0) w10) in reg (a, d) := Round e a b c d (f3 a b c) k3 w8 in
  reg w9 := left (Z.lxor (Z.lxor (Z.lxor w9 w6) w1) w11) in reg (e, c) := Round d e a b c (f3 e a b) k3 w9 in
  reg w10 := left (Z.lxor (Z.lxor (Z.lxor w10 w7) w2) w12) in reg (d, b) := Round c d e a b (f3 d e a) k3 w10 in
  reg w11 := left (Z.lxor (Z.lxor (Z.lxor w11 w8) w3) w13) in reg (c, a) := Round b c d e a (f3 c d e) k3 w11 in
  reg w12 := left (Z.lxor (Z.lxor (Z.lxor w12 w9) w4) w14) in reg (b, e) := Round a b c d e (f2 b c d) k4 w12 in
  reg w13 := left (Z.lxor (Z.lxor (Z.lxor w13 w10) w5) w15) in reg (a, d) := Round e a b c d (f2 a b c) k4 w13 in
  reg w14 := left (Z.lxor (Z.lxor (Z.lxor w14 w11) w6) w0) in reg (e, c) := Round d e a b c (f2 e a b) k4 w14 in
  reg w15 := left (Z.lxor (Z.lxor (Z.lxor w15 w12) w7) w1) in reg (d, b) := Round c d e a b (f2 d e a) k4 w15 in

  reg w0 := left (Z.lxor (Z.lxor (Z.lxor w0 w13) w8) w2) in reg (c, a) := Round b c d e a (f2 c d e) k4 w0 in
  reg w1 := left (Z.lxor (Z.lxor (Z.lxor w1 w14) w9) w3) in reg (b, e) := Round a b c d e (f2 b c d) k4 w1 in
  reg w2 := left (Z.lxor (Z.lxor (Z.lxor w2 w15) w10) w4) in reg (a, d) := Round e a b c d (f2 a b c) k4 w2 in
  reg w3 := left (Z.lxor (Z.lxor (Z.lxor w3 w0) w11) w5) in reg (e, c) := Round d e a b c (f2 e a b) k4 w3 in
  reg w4 := left (Z.lxor (Z.lxor (Z.lxor w4 w1) w12) w6) in reg (d, b) := Round c d e a b (f2 d e a) k4 w4 in
  reg w5 := left (Z.lxor (Z.lxor (Z.lxor w5 w2) w13) w7) in reg (c, a) := Round b c d e a (f2 c d e) k4 w5 in
  reg w6 := left (Z.lxor (Z.lxor (Z.lxor w6 w3) w14) w8) in reg (b, e) := Round a b c d e (f2 b c d) k4 w6 in
  reg w7 := left (Z.lxor (Z.lxor (Z.lxor w7 w4) w15) w9) in reg (a, d) := Round e a b c d (f2 a b c) k4 w7 in
  reg w8 := left (Z.lxor (Z.lxor (Z.lxor w8 w5) w0) w10) in reg (e, c) := Round d e a b c (f2 e a b) k4 w8 in
  reg w9 := left (Z.lxor (Z.lxor (Z.lxor w9 w6) w1) w11) in reg (d, b) := Round c d e a b (f2 d e a) k4 w9 in
  reg w10 := left (Z.lxor (Z.lxor (Z.lxor w10 w7) w2) w12) in reg (c, a) := Round b c d e a (f2 c d e) k4 w10 in
  reg w11 := left (Z.lxor (Z.lxor (Z.lxor w11 w8) w3) w13) in reg (b, e) := Round a b c d e (f2 b c d) k4 w11 in
  reg w12 := left (Z.lxor (Z.lxor (Z.lxor w12 w9) w4) w14) in reg (a, d) := Round e a b c d (f2 a b c) k4 w12 in
  reg (e, c) := Round d e a b c (f2 e a b) k4 (left (Z.lxor (Z.lxor (Z.lxor w13 w10) w5) w15)) in
  reg (d, b) := Round c d e a b (f2 d e a) k4 (left (Z.lxor (Z.lxor (Z.lxor w14 w11) w6) w0)) in
  reg (c, a) := Round b c d e a (f2 c d e) k4 (left (Z.lxor (Z.lxor (Z.lxor w15 w12) w7) w1)) in

  (u32 (s0 + a), u32 (s1 + b), u32 (s2 + c), u32 (s3 + d), u32 (s4 + e)).

(** The class. *)
Definition output (s : state5) : bytes :=
  let '(s0, s1, s2, s3, s4) := s in WriteBE32 s0 ++ WriteBE32 s1 ++ WriteBE32 s2 ++ WriteBE32 s3 ++ WriteBE32 s4.

Definition CSHA1 : hash_alg :=
  {| hash_state := state5; block := 64; pad_base := 119; Initialize := Init; Hasher.Transform := Transform;
     sizedesc := WriteBE64; Hasher.output := output |}.

(** ** The standard *)

Definition spec : hash_alg :=
  {| hash_state := state5; block := 64; pad_base := 119; Initialize := Init;
     Hasher.Transform := fun s chunk => sha1_compress s (block_words ReadBE32 4 chunk);
     sizedesc := WriteBE64; Hasher.output := output |}.

(** The function and the constant that the code uses in round [t]; a round and a schedule step
    in the code's functions. *)
Definition code_phase (t : Z) : (Z -> Z -> Z -> Z) * Z :=
  if t <? 20 then (f1, k1) else if t <? 40 then (f2, k2) else if t <? 60 then (f3, k3) else (f2, k4).
Definition code_round (s : state5) '(f, k) (w : Z) : state5 :=
  let '(a, b, c, d, e) := s in let '(b, e) := Round a b c d e (f b c d) k w in (e, a, b, c, d).
Definition code_next (l : list Z) : Z :=
  left (Z.lxor (Z.lxor (Z.lxor (nth_word 0 l) (nth_word 13 l)) (nth_word 8 l)) (nth_word 2 l)).

Lemma f_code_1 t b c d : sha1_f t b c d = (code_phase t).1 b c d.
Proof.
  unfold sha1_f, code_phase. destruct (t <? 20); [apply eq_sym, Ch_code|]. destruct (t <? 40); [done|].
  by destruct (t <? 60); [apply eq_sym, Maj_code|].
Qed.
Lemma K_code t : sha1_K t = (code_phase t).2.
Proof. unfold sha1_K, code_phase. destruct (t <? 20); [by vm_compute|]. destruct (t <? 40); [by vm_compute|]. by destruct (t <? 60); vm_compute. Qed.

Lemma Round_code_1 s t w : sha1_round s t w = code_round s (code_phase t) w.
Proof.
  destruct s as [[[[a b] c] d] e]. unfold sha1_round. rewrite f_code_1, K_code. destruct (code_phase t) as [f k]. cbn [fst snd code_round].
  unfold Round. do 4 f_equal. unfold rotl, u32. f_equal. change (32 - 5) with 27. lia.
Qed.

Lemma next_code_1 l : sha1_next l = code_next l.
Proof.
  unfold sha1_next, code_next, left, rotl, u32. change (32 - 1) with 31.
  generalize (nth_word 0 l), (nth_word 2 l), (nth_word 8 l), (nth_word 13 l). intros a b c d.
  by rewrite (Z.lxor_comm (Z.lxor (Z.lxor d c) b) a), <- !Z.lxor_assoc, (Z.lxor_comm a d).
Qed.

Lemma phases : map code_phase (seqZ 0 80) =
  replicate 20 (f1, k1) ++ replicate 20 (f2, k2) ++ replicate 20 (f3, k3) ++ replicate 20 (f2, k4).
Proof. reflexivity. Qed.

#[local] Strategy 1000 [assign rounds extend Round left f1 f2 f3 k1 k2 k3 k4 u32 ReadBE32].

Lemma Transform_code_1 s chunk : Transform s chunk = sha1_compress s (block_words ReadBE32 4 chunk).
Proof.
  unfold sha1_compress, sha1_schedule. rewrite (rounds_map _ _ _ _ _ _ (fun s t w _ => Round_code_1 s t w)), (extend_ext _ _ next_code_1), phases.
  destruct s as [[[[s0 s1] s2] s3] s4].
  unfold block_words. change (seq 0 16) with [0; 1; 2; 3; 4; 5; 6; 7; 8; 9; 10; 11; 12; 13; 14; 15]%nat. cbn [map Nat.mul Nat.add app replicate].
  cbv beta iota delta [Transform code_next code_round add5 nth_word].
  generalize Round, left, f1, f2, f3, k1, k2, k3, k4, u32. intros Rnd lft g1 g2 g3 c1 c2 c3 c4 wrap.
  do 5 (apply assign_step; intros ? ->). cbv beta. do 16 read_call. do 61 update_call. do 3 last_call. done.
Qed.

(** The example of the standard: the message "abc". *)
Example sha1_abc : hash_message CSHA1 [97; 98; 99] = be_bytes 20 0xa9993e364706816aba3e25717850c26c9cd0d89d.
Proof. by vm_compute. Qed.

End Sha1.
