(* ===== verification/Ripemd160.v ===== *)
(** * RIPEMD-160

    The compression function of [crypto/ripemd160.cpp] line by line: the two lines of rounds are
    interleaved, each call assigns the two registers it takes by reference. *)

From S2P Require Import Prelude Hasher HashSpec.

Module Ripemd160.

(** [~x] of a 32-bit word. *)
Definition not32 (x : Z) : Z := u32 (Z.lnot x).

Definition f1 (x y z : Z) : Z := Z.lxor (Z.lxor x y) z.
Definition f2 (x y z : Z) : Z := Z.lor (Z.land x y) (Z.land (not32 x) z).
Definition f3 (x y z : Z) : Z := Z.lxor (Z.lor x (not32 y)) z.
Definition f4 (x y z : Z) : Z := Z.lor (Z.land x z) (Z.land y (not32 z)).
Definition f5 (x y z : Z) : Z := Z.lxor x (Z.lor y (not32 z)).

Definition Init : state5 := (0x67452301, 0xEFCDAB89, 0x98BADCFE, 0x10325476, 0xC3D2E1F0).

Definition rol (x i : Z) : Z := Z.lor (u32 (Z.shiftl x i)) (Z.shiftr x (32 - i)).

(** The new values of [a] and [c]. *)
Definition Round (a b c d e f x k r : Z) : Z * Z := (u32 (rol (u32 (a + f + x + k)) r + e), rol c 10).

Definition R11 (a b c d e x r : Z) : Z * Z := Round a b c d e (f1 b c d) x 0 r.
Definition R21 (a b c d e x r : Z) : Z * Z := Round a b c d e (f2 b c d) x 0x5A827999 r.
Definition R31 (a b c d e x r : Z) : Z * Z := Round a b c d e (f3 b c d) x 0x6ED9EBA1 r.
Definition R41 (a b c d e x r : Z) : Z * Z := Round a b c d e (f4 b c d) x 0x8F1BBCDC r.
Definition R51 (a b c d e x r : Z) : Z * Z := Round a b c d e (f5 b c d) x 0xA953FD4E r.
Definition R12 (a b c d e x r : Z) : Z * Z := Round a b c d e (f5 b c d) x 0x50A28BE6 r.
Definition R22 (a b c d e x r : Z) : Z * Z := Round a b c d e (f4 b c d) x 0x5C4DD124 r.
Definition R32 (a b c d e x r : Z) : Z * Z := Round a b c d e (f3 b c d) x 0x6D703EF3 r.
Definition R42 (a b c d e x r : Z) : Z * Z := Round a b c d e (f2 b c d) x 0x7A6D76E9 r.
Definition R52 (a b c d e x r : Z) : Z * Z := Round a b c d e (f1 b c d) x 0 r.

Definition Transform (s : state5) (chunk : bytes) : state5 :=
  let '(s0, s1, s2, s3, s4) := s in
  reg a1 := s0 in reg b1 := s1 in reg c1 := s2 in reg d1 := s3 in reg e1 := s4 in
  reg a2 := a1 in reg b2 := b1 in reg c2 := c1 in reg d2 := d1 in reg e2 := e1 in
  reg w0 := ReadLE32 chunk 0 in reg w1 := ReadLE32 chunk 4 in reg w2 := ReadLE32 chunk 8 in reg w3 := ReadLE32 chunk 12 in
  reg w4 := ReadLE32 chunk 16 in reg w5 := ReadLE32 chunk 20 in reg w6 := ReadLE32 chunk 24 in reg w7 := ReadLE32 chunk 28 in
  reg w8 := ReadLE32 chunk 32 in reg w9 := ReadLE32 chunk 36 in reg w10 := ReadLE32 chunk 40 in reg w11 := ReadLE32 chunk 44 in
  reg w12 := ReadLE32 chunk 48 in reg w13 := ReadLE32 chunk 52 in reg w14 := ReadLE32 chunk 56 in reg w15 := ReadLE32 chunk 60 in

  reg (a1, c1) := R11 a1 b1 c1 d1 e1 w0 11 in
  reg (a2, c2) := R12 a2 b2 c2 d2 e2 w5 8 in
  reg (e1, b1) := R11 e1 a1 b1 c1 d1 w1 14 in
  reg (e2, b2) := R12 e2 a2 b2 c2 d2 w14 9 in
  reg (d1, a1) := R11 d1 e1 a1 b1 c1 w2 15 in
  reg (d2, a2) := R12 d2 e2 a2 b2 c2 w7 9 in
  reg (c1, e1) := R11 c1 d1 e1 a1 b1 w3 12 in
  reg (c2, e2) := R12 c2 d2 e2 a2 b2 w0 11 in
  reg (b1, d1) := R11 b1 c1 d1 e1 a1 w4 5 in
  reg (b2, d2) := R12 b2 c2 d2 e2 a2 w9 13 in
  reg (a1, c1) := R11 a1 b1 c1 d1 e1 w5 8 in
  reg (a2, c2) := R12 a2 b2 c2 d2 e2 w2 15 in
  reg (e1, b1) := R11 e1 a1 b1 c1 d1 w6 7 in
  reg (e2, b2) := R12 e2 a2 b2 c2 d2 w11 15 in
  reg (d1, a1) := R11 d1 e1 a1 b1 c1 w7 9 in
  reg (d2, a2) := R12 d2 e2 a2 b2 c2 w4 5 in
  reg (c1, e1) := R11 c1 d1 e1 a1 b1 w8 11 in
  reg (c2, e2) := R12 c2 d2 e2 a2 b2 w13 7 in
  reg (b1, d1) := R11 b1 c1 d1 e1 a1 w9 13 in
  reg (b2, d2) := R12 b2 c2 d2 e2 a2 w6 7 in
  reg (a1, c1) := R11 a1 b1 c1 d1 e1 w10 14 in
  reg (a2, c2) := R12 a2 b2 c2 d2 e2 w15 8 in
  reg (e1, b1) := R11 e1 a1 b1 c1 d1 w11 15 in
  reg (e2, b2) := R12 e2 a2 b2 c2 d2 w8 11 in
  reg (d1, a1) := R11 d1 e1 a1 b1 c1 w12 6 in
  reg (d2, a2) := R12 d2 e2 a2 b2 c2 w1 14 in
  reg (c1, e1) := R11 c1 d1 e1 a1 b1 w13 7 in
  reg (c2, e2) := R12 c2 d2 e2 a2 b2 w10 14 in
  reg (b1, d1) := R11 b1 c1 d1 e1 a1 w14 9 in
  reg (b2, d2) := R12 b2 c2 d2 e2 a2 w3 12 in
  reg (a1, c1) := R11 a1 b1 c1 d1 e1 w15 8 in
  reg (a2, c2) := R12 a2 b2 c2 d2 e2 w12 6 in

  reg (e1, b1) := R21 e1 a1 b1 c1 d1 w7 7 in
  reg (e2, b2) := R22 e2 a2 b2 c2 d2 w6 9 in
  reg (d1, a1) := R21 d1 e1 a1 b1 c1 w4 6 in
  reg (d2, a2) := R22 d2 e2 a2 b2 c2 w11 13 in
  reg (c1, e1) := R21 c1 d1 e1 a1 b1 w13 8 in
  reg (c2, e2) := R22 c2 d2 e2 a2 b2 w3 15 in
  reg (b1, d1) := R21 b1 c1 d1 e1 a1 w1 13 in
  reg (b2, d2) := R22 b2 c2 d2 e2 a2 w7 7 in
  reg (a1, c1) := R21 a1 b1 c1 d1 e1 w10 11 in
  reg (a2, c2) := R22 a2 b2 c2 d2 e2 w0 12 in
  reg (e1, b1) := R21 e1 a1 b1 c1 d1 w6 9 in
  reg (e2, b2) := R22 e2 a2 b2 c2 d2 w13 8 in
  reg (d1, a1) := R21 d1 e1 a1 b1 c1 w15 7 in
  reg (d2, a2) := R22 d2 e2 a2 b2 c2 w5 9 in
  reg (c1, e1) := R21 c1 d1 e1 a1 b1 w3 15 in
  reg (c2, e2) := R22 c2 d2 e2 a2 b2 w10 11 in
  reg (b1, d1) := R21 b1 c1 d1 e1 a1 w12 7 in
  reg (b2, d2) := R22 b2 c2 d2 e2 a2 w14 7 in
  reg (a1, c1) := R21 a1 b1 c1 d1 e1 w0 12 in
  reg (a2, c2) := R22 a2 b2 c2 d2 e2 w15 7 in
  reg (e1, b1) := R21 e1 a1 b1 c1 d1 w9 15 in
  reg (e2, b2) := R22 e2 a2 b2 c2 d2 w8 12 in
  reg (d1, a1) := R21 d1 e1 a1 b1 c1 w5 9 in
  reg (d2, a2) := R22 d2 e2 a2 b2 c2 w12 7 in
  reg (c1, e1) := R21 c1 d1 e1 a1 b1 w2 11 in
  reg (c2, e2) := R22 c2 d2 e2 a2 b2 w4 6 in
  reg (b1, d1) := R21 b1 c1 d1 e1 a1 w14 7 in
  reg (b2, d2) := R22 b2 c2 d2 e2 a2 w9 15 in
  reg (a1, c1) := R21 a1 b1 c1 d1 e1 w11 13 in
  reg (a2, c2) := R22 a2 b2 c2 d2 e2 w1 13 in
  reg (e1, b1) := R21 e1 a1 b1 c1 d1 w8 12 in
  reg (e2, b2) := R22 e2 a2 b2 c2 d2 w2 11 in

  reg (d1, a1) := R31 d1 e1 a1 b1 c1 w3 11 in
  reg (d2, a2) := R32 d2 e2 a2 b2 c2 w15 9 in
  reg (c1, e1) := R31 c1 d1 e1 a1 b1 w10 13 in
  reg (c2, e2) := R32 c2 d2 e2 a2 b2 w5 7 in
  reg (b1, d1) := R31 b1 c1 d1 e1 a1 w14 6 in
  reg (b2, d2) := R32 b2 c2 d2 e2 a2 w1 15 in
  reg (a1, c1) := R31 a1 b1 c1 d1 e1 w4 7 in
  reg (a2, c2) := R32 a2 b2 c2 d2 e2 w3 11 in
  reg (e1, b1) := R31 e1 a1 b1 c1 d1 w9 14 in
  reg (e2, b2) := R32 e2 a2 b2 c2 d2 w7 8 in
  reg (d1, a1) := R31 d1 e1 a1 b1 c1 w15 9 in
  reg (d2, a2) := R32 d2 e2 a2 b2 c2 w14 6 in
  reg (c1, e1) := R31 c1 d1 e1 a1 b1 w8 13 in
  reg (c2, e2) := R32 c2 d2 e2 a2 b2 w6 6 in
  reg (b1, d1) := R31 b1 c1 d1 e1 a1 w1 15 in
  reg (b2, d2) := R32 b2 c2 d2 e2 a2 w9 14 in
  reg (a1, c1) := R31 a1 b1 c1 d1 e1 w2 14 in
  reg (a2, c2) := R32 a2 b2 c2 d2 e2 w11 12 in
  reg (e1, b1) := R31 e1 a1 b1 c1 d1 w7 8 in
  reg (e2, b2) := R32 e2 a2 b2 c2 d2 w8 13 in
  reg (d1, a1) := R31 d1 e1 a1 b1 c1 w0 13 in
  reg (d2, a2) := R32 d2 e2 a2 b2 c2 w12 5 in
  reg (c1, e1) := R31 c1 d1 e1 a1 b1 w6 6 in
  reg (c2, e2) := R32 c2 d2 e2 a2 b2 w2 14 in
  reg (b1, d1) := R31 b1 c1 d1 e1 a1 w13 5 in
  reg (b2, d2) := R32 b2 c2 d2 e2 a2 w10 13 in
  reg (a1, c1) := R31 a1 b1 c1 d1 e1 w11 12 in
  reg (a2, c2) := R32 a2 b2 c2 d2 e2 w0 13 in
  reg (e1, b1) := R31 e1 a1 b1 c1 d1 w5 7 in
  reg (e2, b2) := R32 e2 a2 b2 c2 d2 w4 7 in
  reg (d1, a1) := R31 d1 e1 a1 b1 c1 w12 5 in
  reg (d2, a2) := R32 d2 e2 a2 b2 c2 w13 5 in

  reg (c1, e1) := R41 c1 d1 e1 a1 b1 w1 11 in
  reg (c2, e2) := R42 c2 d2 e2 a2 b2 w8 15 in
  reg (b1, d1) := R41 b1 c1 d1 e1 a1 w9 12 in
  reg (b2, d2) := R42 b2 c2 d2 e2 a2 w6 5 in
  reg (a1, c1) := R41 a1 b1 c1 d1 e1 w11 14 in
  reg (a2, c2) := R42 a2 b2 c2 d2 e2 w4 8 in
  reg (e1, b1) := R41 e1 a1 b1 c1 d1 w10 15 in
  reg (e2, b2) := R42 e2 a2 b2 c2 d2 w1 11 in
  reg (d1, a1) := R41 d1 e1 a1 b1 c1 w0 14 in
  reg (d2, a2) := R42 d2 e2 a2 b2 c2 w3 14 in
  reg (c1, e1) := R41 c1 d1 e1 a1 b1 w8 15 in
  reg (c2, e2) := R42 c2 d2 e2 a2 b2 w11 14 in
  reg (b1, d1) := R41 b1 c1 d1 e1 a1 w12 9 in
  reg (b2, d2) := R42 b2 c2 d2 e2 a2 w15 6 in
  reg (a1, c1) := R41 a1 b1 c1 d1 e1 w4 8 in
  reg (a2, c2) := R42 a2 b2 c2 d2 e2 w0 14 in
  reg (e1, b1) := R41 e1 a1 b1 c1 d1 w13 9 in
  reg (e2, b2) := R42 e2 a2 b2 c2 d2 w5 6 in
  reg (d1, a1) := R41 d1 e1 a1 b1 c1 w3 14 in
  reg (d2, a2) := R42 d2 e2 a2 b2 c2 w12 9 in
  reg (c1, e1) := R41 c1 d1 e1 a1 b1 w7 5 in
  reg (c2, e2) := R42 c2 d2 e2 a2 b2 w2 12 in
  reg (b1, d1) := R41 b1 c1 d1 e1 a1 w15 6 in
  reg (b2, d2) := R42 b2 c2 d2 e2 a2 w13 9 in
  reg (a1, c1) := R41 a1 b1 c1 d1 e1 w14 8 in
  reg (a2, c2) := R42 a2 b2 c2 d2 e2 w9 12 in
  reg (e1, b1) := R41 e1 a1 b1 c1 d1 w5 6 in
  reg (e2, b2) := R42 e2 a2 b2 c2 d2 w7 5 in
  reg (d1, a1) := R41 d1 e1 a1 b1 c1 w6 5 in
  reg (d2, a2) := R42 d2 e2 a2 b2 c2 w10 15 in
  reg (c1, e1) := R41 c1 d1 e1 a1 b1 w2 12 in
  reg (c2, e2) := R42 c2 d2 e2 a2 b2 w14 8 in

  reg (b1, d1) := R51 b1 c1 d1 e1 a1 w4 9 in
  reg (b2, d2) := R52 b2 c2 d2 e2 a2 w12 8 in
  reg (a1, c1) := R51 a1 b1 c1 d1 e1 w0 15 in
  reg (a2, c2) := R52 a2 b2 c2 d2 e2 w15 5 in
  reg (e1, b1) := R51 e1 a1 b1 c1 d1 w5 5 in
  reg (e2, b2) := R52 e2 a2 b2 c2 d2 w10 12 in
  reg (d1, a1) := R51 d1 e1 a1 b1 c1 w9 11 in
  reg (d2, a2) := R52 d2 e2 a2 b2 c2 w4 9 in
  reg (c1, e1) := R51 c1 d1 e1 a1 b1 w7 6 in
  reg (c2, e2) := R52 c2 d2 e2 a2 b2 w1 12 in
  reg (b1, d1) := R51 b1 c1 d1 e1 a1 w12 8 in
  reg (b2, d2) := R52 b2 c2 d2 e2 a2 w5 5 in
  reg (a1, c1) := R51 a1 b1 c1 d1 e1 w2 13 in
  reg (a2, c2) := R52 a2 b2 c2 d2 e2 w8 14 in
  reg (e1, b1) := R51 e1 a1 b1 c1 d1 w10 12 in
  reg (e2, b2) := R52 e2 a2 b2 c2 d2 w7 6 in
  reg (d1, a1) := R51 d1 e1 a1 b1 c1 w14 5 in
  reg (d2, a2) := R52 d2 e2 a2 b2 c2 w6 8 in
  reg (c1, e1) := R51 c1 d1 e1 a1 b1 w1 12 in
  reg (c2, e2) := R52 c2 d2 e2 a2 b2 w2 13 in
  reg (b1, d1) := R51 b1 c1 d1 e1 a1 w3 13 in
  reg (b2, d2) := R52 b2 c2 d2 e2 a2 w13 6 in
  reg (a1, c1) := R51 a1 b1 c1 d1 e1 w8 14 in
  reg (a2, c2) := R52 a2 b2 c2 d2 e2 w14 5 in
  reg (e1, b1) := R51 e1 a1 b1 c1 d1 w11 11 in
  reg (e2, b2) := R52 e2 a2 b2 c2 d2 w0 15 in
  reg (d1, a1) := R51 d1 e1 a1 b1 c1 w6 8 in
  reg (d2, a2) := R52 d2 e2 a2 b2 c2 w3 13 in
  reg (c1, e1) := R51 c1 d1 e1 a1 b1 w15 5 in
  reg (c2, e2) := R52 c2 d2 e2 a2 b2 w9 11 in
  reg (b1, d1) := R51 b1 c1 d1 e1 a1 w13 6 in
  reg (b2, d2) := R52 b2 c2 d2 e2 a2 w11 11 in

  reg t := s0 in
  (u32 (s1 + c1 + d2), u32 (s2 + d1 + e2), u32 (s3 + e1 + a2), u32 (s4 + a1 + b2), u32 (t + b1 + c2)).

(** The class. *)
Definition output (s : state5) : bytes :=
  let '(s0, s1, s2, s3, s4) := s in WriteLE32 s0 ++ WriteLE32 s1 ++ WriteLE32 s2 ++ WriteLE32 s3 ++ WriteLE32 s4.

Definition CRIPEMD160 : hash_alg :=
  {| hash_state := state5; block := 64; pad_base := 119; Initialize := Init; Hasher.Transform := Transform;
     sizedesc := WriteLE64; Hasher.output := output |}.

(** ** The specification *)

Definition spec : hash_alg :=
  {| hash_state := state5; block := 64; pad_base := 119; Initialize := Init;
     Hasher.Transform := fun s chunk => rmd_compress s (block_words ReadLE32 4 chunk);
     sizedesc := WriteLE64; Hasher.output := output |}.

(** The bits of a word below the 32nd. *)
Lemma u32_bits x y : (forall n, 0 <= n < 32 -> Z.testbit x n = Z.testbit y n) -> u32 x = u32 y.
Proof.
  intros H. apply Z.bits_inj'. intros n Hn. unfold u32. destruct (Z.lt_ge_cases n 32).
  - rewrite !Z.mod_pow2_bits_low by lia. apply H. lia.
  - by rewrite !Z.mod_pow2_bits_high by lia.
Qed.
Lemma not32_bit x n : 0 <= n < 32 -> Z.testbit (not32 x) n = Z.testbit (Z.lnot x) n.
Proof. intros Hn. unfold not32, u32. by rewrite Z.mod_pow2_bits_low by lia. Qed.

(** The functions of the two lines, by group of sixteen rounds. *)
Definition code_f (g : nat) : Z -> Z -> Z -> Z := nth g [f1; f2; f3; f4; f5] f1.

Lemma f_code_rmd j x y z : (j < 80)%nat -> u32 (rmd_f (Z.of_nat j) x y z) = u32 (code_f (j / 16) x y z).
Proof.
  intros Hj. apply u32_bits. intros n Hn.
  assert (j / 16 < 5)%nat as Hg by (apply Nat.Div0.div_lt_upper_bound; lia).
  pose proof (Nat.div_mod_eq j 16) as Ej. pose proof (Nat.mod_upper_bound j 16 ltac:(done)) as Em. revert Hg Ej. generalize (j / 16)%nat. intros g Hg Ej.
  unfold rmd_f. destruct g as [|[|[|[|[|g]]]]]; [..|lia]; 
    repeat (match goal with |- context [?a <? ?b] => destruct (Z.ltb_spec a b); try lia end); cbn [code_f nth];
    unfold f1, f2, f3, f4, f5; rewrite ?Z.lxor_spec, ?Z.lor_spec, ?Z.land_spec, ?Z.lxor_spec, ?Z.lor_spec, ?not32_bit; done.
Qed.

(** The call of round [j] on word [i] in the two lines: its group and its rotation. *)
Definition code_call '(j, i) : nat * Z := ((j / 16)%nat, rmd_s j i).
Definition left_fun (g : nat) : Z -> Z -> Z -> Z -> Z -> Z -> Z -> Z * Z := nth g [R11; R21; R31; R41; R51] R11.
Definition right_fun (g : nat) : Z -> Z -> Z -> Z -> Z -> Z -> Z -> Z * Z := nth g [R12; R22; R32; R42; R52] R12.
Definition line_round (s : state5) '(F, r) (w : Z) : state5 :=
  let '(a, b, c, d, e) := s in let '(a, c) := (F : Z -> Z -> Z -> Z -> Z -> Z -> Z -> Z * Z) a b c d e w r in (e, a, b, c, d).

Lemma Round_code_rmd f g k r x w : (forall x y z, u32 (f x y z) = u32 (g x y z)) ->
  rmd_round f k r x w = line_round x (fun a b c d e x r => Round a b c d e (g b c d) x k r, r) w.
Proof.
  intros E. destruct x as [[[[a b] c] d] e]. unfold rmd_round, line_round, Round, rotl, rol.
  replace (u32 (a + f b c d + w + k)) with (u32 (a + g b c d + w + k)); [done|].
  pose proof (E b c d) as Eb. unfold u32 in *. rewrite <- !(Z.add_assoc a), !(Z.add_comm a), <- !Z.add_assoc.
  by rewrite <- (Zplus_mod_idemp_l (g b c d)), <- (Zplus_mod_idemp_l (f b c d)), Eb.
Qed.

Lemma K_left j : rmd_K (Z.of_nat j) = nth (j / 16) [0; 0x5A827999; 0x6ED9EBA1; 0x8F1BBCDC; 0xA953FD4E] 0.
Proof. unfold rmd_K. change 16 with (Z.of_nat 16). rewrite <- Nat2Z.inj_div, Nat2Z.id. f_equal. Qed.
Lemma K_right j : rmd_K' (Z.of_nat j) = nth (j / 16) [0x50A28BE6; 0x5C4DD124; 0x6D703EF3; 0x7A6D76E9; 0] 0.
Proof. unfold rmd_K'. change 16 with (Z.of_nat 16). rewrite <- Nat2Z.inj_div, Nat2Z.id. f_equal. Qed.

Lemma group_cases j : (j < 80)%nat -> (j / 16 < 5)%nat.
Proof. intros Hj. apply Nat.Div0.div_lt_upper_bound. lia. Qed.
Lemma group_right j : (j < 80)%nat -> ((79 - j) / 16 = 4 - j / 16)%nat.
Proof.
  intros Hj. pose proof (group_cases j Hj). pose proof (Nat.div_mod_eq j 16). pose proof (Nat.mod_upper_bound j 16 ltac:(done)).
  symmetry. apply (Nat.div_unique _ 16 _ (15 - j mod 16)); lia.
Qed.

Lemma left_code x j i w : (j < 80)%nat ->
  rmd_round (rmd_f (Z.of_nat j)) (rmd_K (Z.of_nat j)) (rmd_s j i) x w = line_round x (left_fun (j / 16), rmd_s j i) w.
Proof.
  intros Hj. rewrite (Round_code_rmd _ (code_f (j / 16))) by (intros; by apply f_code_rmd). rewrite K_left.
  pose proof (group_cases j Hj). by destruct (j / 16)%nat as [|[|[|[|[|g]]]]]; [..|lia].
Qed.
Lemma right_code x j i w : (j < 80)%nat ->
  rmd_round (rmd_f (79 - Z.of_nat j)) (rmd_K' (Z.of_nat j)) (rmd_s j i) x w = line_round x (right_fun (j / 16), rmd_s j i) w.
Proof.
  intros Hj. replace (79 - Z.of_nat j) with (Z.of_nat (79 - j)) by lia.
  rewrite (Round_code_rmd _ (code_f ((79 - j) / 16))) by (intros; apply f_code_rmd; lia). rewrite K_right, group_right by done.
  pose proof (group_cases j Hj). by destruct (j / 16)%nat as [|[|[|[|[|g]]]]]; [..|lia].
Qed.

Lemma left_calls : map code_call (zip (seq 0 80) rmd_r) =
  [(0, 11%Z); (0, 14%Z); (0, 15%Z); (0, 12%Z); (0, 5%Z); (0, 8%Z); (0, 7%Z); (0, 9%Z); (0, 11%Z); (0, 13%Z); (0, 14%Z); (0, 15%Z); (0, 6%Z); (0, 7%Z); (0, 9%Z); (0, 8%Z);
   (1, 7%Z); (1, 6%Z); (1, 8%Z); (1, 13%Z); (1, 11%Z); (1, 9%Z); (1, 7%Z); (1, 15%Z); (1, 7%Z); (1, 12%Z); (1, 15%Z); (1, 9%Z); (1, 11%Z); (1, 7%Z); (1, 13%Z); (1, 12%Z);
   (2, 11%Z); (2, 13%Z); (2, 6%Z); (2, 7%Z); (2, 14%Z); (2, 9%Z); (2, 13%Z); (2, 15%Z); (2, 14%Z); (2, 8%Z); (2, 13%Z); (2, 6%Z); (2, 5%Z); (2, 12%Z); (2, 7%Z); (2, 5%Z);
   (3, 11%Z); (3, 12%Z); (3, 14%Z); (3, 15%Z); (3, 14%Z); (3, 15%Z); (3, 9%Z); (3, 8%Z); (3, 9%Z); (3, 14%Z); (3, 5%Z); (3, 6%Z); (3, 8%Z); (3, 6%Z); (3, 5%Z); (3, 12%Z);
   (4, 9%Z); (4, 15%Z); (4, 5%Z); (4, 11%Z); (4, 6%Z); (4, 8%Z); (4, 13%Z); (4, 12%Z); (4, 5%Z); (4, 12%Z); (4, 13%Z); (4, 14%Z); (4, 11%Z); (4, 8%Z); (4, 5%Z); (4, 6%Z)]%nat.
Proof. by vm_compute. Qed.
Lemma right_calls : map code_call (zip (seq 0 80) rmd_r') =
  [(0, 8%Z); (0, 9%Z); (0, 9%Z); (0, 11%Z); (0, 13%Z); (0, 15%Z); (0, 15%Z); (0, 5%Z); (0, 7%Z); (0, 7%Z); (0, 8%Z); (0, 11%Z); (0, 14%Z); (0, 14%Z); (0, 12%Z); (0, 6%Z);
   (1, 9%Z); (1, 13%Z); (1, 15%Z); (1, 7%Z); (1, 12%Z); (1, 8%Z); (1, 9%Z); (1, 11%Z); (1, 7%Z); (1, 7%Z); (1, 12%Z); (1, 7%Z); (1, 6%Z); (1, 15%Z); (1, 13%Z); (1, 11%Z);
   (2, 9%Z); (2, 7%Z); (2, 15%Z); (2, 11%Z); (2, 8%Z); (2, 6%Z); (2, 6%Z); (2, 14%Z); (2, 12%Z); (2, 13%Z); (2, 5%Z); (2, 14%Z); (2, 13%Z); (2, 13%Z); (2, 7%Z); (2, 5%Z);
   (3, 15%Z); (3, 5%Z); (3, 8%Z); (3, 11%Z); (3, 14%Z); (3, 14%Z); (3, 6%Z); (3, 14%Z); (3, 6%Z); (3, 9%Z); (3, 12%Z); (3, 9%Z); (3, 12%Z); (3, 5%Z); (3, 15%Z); (3, 8%Z);
   (4, 8%Z); (4, 5%Z); (4, 12%Z); (4, 9%Z); (4, 12%Z); (4, 5%Z); (4, 14%Z); (4, 6%Z); (4, 8%Z); (4, 13%Z); (4, 6%Z); (4, 5%Z); (4, 15%Z); (4, 13%Z); (4, 11%Z); (4, 11%Z)]%nat.
Proof. by vm_compute. Qed.
Lemma left_words : rmd_r =
  [0; 1; 2; 3; 4; 5; 6; 7; 8; 9; 10; 11; 12; 13; 14; 15;
   7; 4; 13; 1; 10; 6; 15; 3; 12; 0; 9; 5; 2; 14; 11; 8;
   3; 10; 14; 4; 9; 15; 8; 1; 2; 7; 0; 6; 13; 11; 5; 12;
   1; 9; 11; 10; 0; 8; 12; 4; 13; 3; 7; 15; 14; 5; 6; 2;
   4; 0; 5; 9; 7; 12; 2; 10; 14; 1; 3; 8; 11; 6; 15; 13]%nat.
Proof. by vm_compute. Qed.
Lemma right_words : rmd_r' =
  [5; 14; 7; 0; 9; 2; 11; 4; 13; 6; 15; 8; 1; 10; 3; 12;
   6; 11; 3; 7; 0; 13; 5; 10; 14; 15; 8; 12; 4; 9; 1; 2;
   15; 5; 1; 3; 7; 14; 6; 9; 11; 8; 12; 2; 10; 0; 4; 13;
   8; 6; 4; 1; 3; 11; 15; 0; 5; 12; 2; 13; 9; 7; 10; 14;
   12; 15; 10; 4; 1; 5; 8; 7; 6; 2; 13; 14; 0; 3; 9; 11]%nat.
Proof. by vm_compute. Qed.

Lemma in_zip_l {A B} (a : A) (b : B) l k : In (a, b) (zip l k) -> In a l.
Proof. revert k. induction l as [|x l IH]; intros [|y k]; cbn; [tauto..|]. intros [[= -> ->]|H]; [by left|right; by eapply IH]. Qed.

(** A line as a loop over the code's calls. *)
Lemma line_code f k r F s m (calls : list (nat * Z)) : map code_call (zip (seq 0 80) r) = calls ->
  (forall x j i w, (j < 80)%nat -> rmd_round (f (Z.of_nat j)) (k (Z.of_nat j)) (rmd_s j i) x w = line_round x (F (j / 16)%nat, rmd_s j i) w) ->
  rmd_line f k r s m = rounds line_round s (map (fun '(g, r) => (F g, r)) calls) (map (fun i => nth_word i m) r).
Proof.
  intros <- E. unfold rmd_line. rewrite (rounds_map _ line_round (fun p => (F (code_call p).1, (code_call p).2))).
  - rewrite map_map. f_equal. apply map_ext. by intros [j i].
  - intros x [j i] w Hin. apply E. apply in_zip_l in Hin. apply in_seq in Hin. lia.
Qed.

(** The first call of a line. *)
Lemma line_step a b c d e F r ks w ws :
  rounds line_round (a, b, c, d, e) ((F, r) :: ks) (w :: ws) =
  let '(a, c) := F a b c d e w r in rounds line_round (e, a, b, c, d) ks ws.
Proof. cbn [rounds line_round]. by destruct (F a b c d e w r). Qed.

#[local] Strategy 1000 [assign rounds R11 R21 R31 R41 R51 R12 R22 R32 R42 R52 u32 ReadLE32].

(** A call of either line. *)
Ltac line_call :=
  lazymatch goal with
  | |- assign (?F ?a ?b ?c ?d ?e ?w ?r) _ = _ => rewrite (line_step a b c d e F r)
  end; call.

Lemma Transform_code_rmd s chunk : Transform s chunk = rmd_compress s (block_words ReadLE32 4 chunk).
Proof.
  unfold rmd_compress, block_words. destruct s as [[[[s0 s1] s2] s3] s4].
  rewrite (line_code _ _ _ _ _ _ _ left_calls left_code), (line_code _ _ _ _ _ _ _ right_calls right_code), left_words, right_words.
  change (seq 0 16) with [0; 1; 2; 3; 4; 5; 6; 7; 8; 9; 10; 11; 12; 13; 14; 15]%nat.
  cbn [map Nat.mul Nat.add]. cbv beta iota delta [Transform nth_word nth left_fun right_fun].
  generalize R11, R21, R31, R41, R51, R12, R22, R32, R42, R52, u32. intros r11 r21 r31 r41 r51 r12 r22 r32 r42 r52 wrap.
  do 10 (apply assign_step; intros ? ->). cbv beta. do 16 (apply assign_step; intros ? <-). cbv beta.
  do 160 line_call. done.
Qed.

(** The example of the specification: the message "abc". *)
Example ripemd160_abc : hash_message CRIPEMD160 [97; 98; 99] = be_bytes 20 0x8eb208f7e05d987a9b044a8e98c6b087f15a0bfc.
Proof. by vm_compute. Qed.

End Ripemd160.
