(* ===== verification/Hash.v ===== *)
(** * The hash functions of the node

    The classes of [crypto/] against the standards, through one interface: [StandardHash A H]
    says that the class [A] computes the function [H] however the message is split, and again
    after a [Reset].  HMAC, the double hashes of [utils/hash.h], the hash of BIP 32 and
    MurmurHash3 are built on it.  The script interpreter's hash parameter is instantiated. *)

From S2P Require Import Prelude Interpreter Hasher HashSpec Sha256 Sha512 Sha1 Ripemd160.
Import Sha256(CSHA256). Import Sha512(CSHA512). Import Sha1(CSHA1). Import Ripemd160(CRIPEMD160).

(** ** The interface *)

Class StandardHash (A : hash_alg) (H : bytes -> bytes) (out : nat) : Prop := {
  writes_hash ps : zlen (concat ps) < 2 ^ 61 -> hash_Finalize A (foldl (hash_Write A) (hash_new A) ps) = H (concat ps);
  reset_hashes ps qs : zlen (concat ps) < 2 ^ 61 -> zlen (concat qs) < 2 ^ 61 ->
    hash_Finalize A (foldl (hash_Write A) (hash_Reset A (hash_pad A (foldl (hash_Write A) (hash_new A) ps))) qs) = H (concat qs);
  digest_length m : length (H m) = out
}.

Lemma write_hash `{StandardHash A H out} m : zlen m < 2 ^ 61 -> hash_message A m = H m.
Proof. intros Hm. pose proof (writes_hash [m]) as E. cbn [concat foldl] in E. rewrite app_nil_r in E. by apply E. Qed.

(** ** HMAC *)

Section HMAC.
Context (A : hash_alg) (H : bytes -> bytes) (out : nat).

Record hmac := { outer : hasher A; inner : hasher A }.

Definition hmac_rkey (key : bytes) : bytes :=
  if (length key <=? block A)%nat then key ++ replicate (block A - length key) 0
  else hash_message A key ++ replicate (block A - out) 0.

Definition hmac_new (key : bytes) : hmac :=
  let rkey := map (fun b => Z.lxor b 0x5c) (hmac_rkey key) in
  let outer := hash_Write A (hash_new A) rkey in
  let rkey := map (fun b => Z.lxor b (Z.lxor 0x5c 0x36)) rkey in
  let inner := hash_Write A (hash_new A) rkey in
  {| outer := outer; inner := inner |}.

Definition hmac_Write (h : hmac) (data : bytes) : hmac := {| outer := outer h; inner := hash_Write A (inner h) data |}.

Definition hmac_Finalize (h : hmac) : bytes :=
  let temp := hash_Finalize A (inner h) in hash_Finalize A (hash_Write A (outer h) temp).

(** RFC 2104: the key is hashed when it is longer than a block and filled with zeros. *)
Definition rfc2104_key (key : bytes) : bytes :=
  let k := if (block A <? length key)%nat then H key else key in k ++ replicate (block A - length k) 0.
Definition rfc2104 (key m : bytes) : bytes :=
  let xor c := map (fun b => Z.lxor b c) (rfc2104_key key) in
  H (xor 0x5c ++ H (xor 0x36 ++ m)).

Context `{!StandardHash A H out} (Hout : (out <= block A)%nat) (Hblock : (block A <= 128)%nat).

Lemma rkey_code key : zlen key < 2 ^ 61 -> hmac_rkey key = rfc2104_key key.
Proof using StandardHash0.
  intros Hk. unfold hmac_rkey, rfc2104_key. rewrite Nat.ltb_antisym. destruct (length key <=? block A)%nat; [done|]. cbn [negb].
  by rewrite write_hash, digest_length by done.
Qed.
Lemma rkey_length key : length (rfc2104_key key) = block A.
Proof using StandardHash0 Hout Hblock.
  unfold rfc2104_key. destruct (Nat.ltb_spec (block A) (length key)); rewrite length_app, length_replicate, ?digest_length; lia.
Qed.

Lemma hmac_inner key ps : inner (foldl hmac_Write (hmac_new key) ps) = foldl (hash_Write A) (inner (hmac_new key)) ps.
Proof. generalize (hmac_new key). induction ps as [|p ps IH]; intros h; [done|]. cbn [foldl]. by rewrite IH. Qed.
Lemma hmac_outer key ps : outer (foldl hmac_Write (hmac_new key) ps) = outer (hmac_new key).
Proof. generalize (hmac_new key). induction ps as [|p ps IH]; intros h; [done|]. cbn [foldl]. by rewrite IH. Qed.

Lemma hmac_correct key ps : zlen key < 2 ^ 61 -> zlen (concat ps) < 2 ^ 60 ->
  hmac_Finalize (foldl hmac_Write (hmac_new key) ps) = rfc2104 key (concat ps).
Proof using StandardHash0 Hout Hblock.
  intros Hk Hm. unfold hmac_Finalize. rewrite hmac_inner, hmac_outer. cbn [inner outer hmac_new]. rewrite (rkey_code key Hk).
  set (o := map (fun b => Z.lxor b 0x5c) (rfc2104_key key)).
  assert (map (fun b => Z.lxor b (Z.lxor 0x5c 0x36)) o = map (fun b => Z.lxor b 0x36) (rfc2104_key key)) as ->.
  { unfold o. rewrite map_map. apply map_ext. intros b. by rewrite Z.lxor_assoc. }
  set (i := map (fun b => Z.lxor b 0x36) (rfc2104_key key)).
  assert (zlen o <= 128 /\ zlen i <= 128) as [Lo Li] by (unfold o, i, zlen; rewrite !length_map, rkey_length; lia).
  pose proof (zlen_nonneg (concat ps)).
  change (foldl (hash_Write A) (hash_Write A (hash_new A) i) ps) with (foldl (hash_Write A) (hash_new A) (i :: ps)).
  rewrite writes_hash by (cbn [concat]; rewrite zlen_app; lia). cbn [concat].
  set (t := H (i ++ concat ps)). assert (zlen t <= 128) as Lt by (unfold t, zlen; rewrite digest_length; lia).
  pose proof (writes_hash [o; t]) as E. cbn [concat foldl] in E. rewrite app_nil_r in E. rewrite E; [done|rewrite zlen_app; lia].
Qed.
End HMAC.

(** ** The double hashes of [utils/hash.h] *)

Definition CHash256_Finalize (sha : hasher CSHA256) : bytes :=
  let buf := hash_Finalize CSHA256 sha in
  let sha := hash_pad CSHA256 sha in
  hash_Finalize CSHA256 (hash_Write CSHA256 (hash_Reset CSHA256 sha) buf).

Definition CHash160_Finalize (sha : hasher CSHA256) : bytes :=
  let buf := hash_Finalize CSHA256 sha in
  hash_Finalize CRIPEMD160 (hash_Write CRIPEMD160 (hash_new CRIPEMD160) buf).

(** [Hash] of one, two or three ranges, and [Hash160]. *)
Definition Hash_ranges (parts : list bytes) : bytes := CHash256_Finalize (foldl (hash_Write CSHA256) (hash_new CSHA256) parts).
Definition Hash160 (data : bytes) : bytes := CHash160_Finalize (hash_Write CSHA256 (hash_new CSHA256) data).

Definition BIP32Hash (chainCode : bytes) (nChild header : Z) (data : bytes) : bytes :=
  let num := [Z.land (Z.shiftr nChild 24) 0xFF; Z.land (Z.shiftr nChild 16) 0xFF; Z.land (Z.shiftr nChild 8) 0xFF; Z.land (Z.shiftr nChild 0) 0xFF] in
  hmac_Finalize CSHA512 (foldl (hmac_Write CSHA512) (hmac_new CSHA512 64 chainCode) [[header]; data; num]).

(** ** MurmurHash3 *)

Definition ROTL32 (x r : Z) : Z := Z.lor (u32 (Z.shiftl x r)) (Z.shiftr x (32 - r)).

Definition c1 : Z := 0xcc9e2d51.
Definition c2 : Z := 0x1b873593.

(** The body loop: four bytes at a time. *)
Fixpoint murmur_body (n : nat) (h1 : Z) (data : bytes) : Z :=
  match n with
  | O => h1
  | S n =>
      let k1 := ReadLE32 data 0 in
      let k1 := u32 (k1 * c1) in
      let k1 := ROTL32 k1 15 in
      let k1 := u32 (k1 * c2) in
      let h1 := Z.lxor h1 k1 in
      let h1 := ROTL32 h1 13 in
      let h1 := u32 (h1 * 5 + 0xe6546b64) in
      murmur_body n h1 (drop 4 data)
  end.

(** The tail, with the fall-through of the switch; a tail of no byte leaves [h1]. *)
Definition murmur_tail (h1 : Z) (tail : bytes) : Z :=
  let k1 := 0 in
  let k1 := if (3 <=? length tail)%nat then Z.lxor k1 (Z.shiftl (nth 2 tail 0) 16) else k1 in
  let k1 := if (2 <=? length tail)%nat then Z.lxor k1 (Z.shiftl (nth 1 tail 0) 8) else k1 in
  if (1 <=? length tail)%nat then
    let k1 := Z.lxor k1 (nth 0 tail 0) in
    let k1 := u32 (k1 * c1) in
    let k1 := ROTL32 k1 15 in
    let k1 := u32 (k1 * c2) in
    Z.lxor h1 k1
  else h1.

Definition MurmurHash3 (nHashSeed : Z) (vDataToHash : bytes) : Z :=
  let h1 := nHashSeed in
  let h1 := match vDataToHash with
            | [] => h1
            | _ => let nblocks := (length vDataToHash / 4)%nat in
                   murmur_tail (murmur_body nblocks h1 vDataToHash) (drop (4 * nblocks) vDataToHash)
            end in
  let h1 := Z.lxor h1 (u32 (zlen vDataToHash)) in
  let h1 := Z.lxor h1 (Z.shiftr h1 16) in
  let h1 := u32 (h1 * 0x85ebca6b) in
  let h1 := Z.lxor h1 (Z.shiftr h1 13) in
  let h1 := u32 (h1 * 0xc2b2ae35) in
  Z.lxor h1 (Z.shiftr h1 16).

(** ** The classes implement the interface *)

Lemma length_be_bytes n x : length (be_bytes n x) = n.
Proof. unfold be_bytes. by rewrite length_rev, length_le_bytes. Qed.
Lemma be_bytes_ok n x : bytes_ok (be_bytes n x).
Proof. unfold be_bytes. apply Forall_rev, le_bytes_ok. Qed.

(** The digest of a class, whatever its state, is a string of bytes of the class's size. *)
Ltac digest := unfold Sha256.output, Sha512.output, Sha1.output, Ripemd160.output, WriteBE32, WriteBE64, WriteLE32;
  first [by rewrite !length_app, ?length_be_bytes, ?length_le_bytes
        |rewrite !Forall_app; repeat split; first [apply be_bytes_ok|apply le_bytes_ok]].

Lemma output256 s : length (Sha256.output s) = 32%nat /\ bytes_ok (Sha256.output s).
Proof. destruct s as [[[[[[[a b] c] d] e] f] g] h]. split; digest. Qed.
Lemma output512 s : length (Sha512.output s) = 64%nat /\ bytes_ok (Sha512.output s).
Proof. destruct s as [[[[[[[a b] c] d] e] f] g] h]. split; digest. Qed.
Lemma output1 s : length (Sha1.output s) = 20%nat /\ bytes_ok (Sha1.output s).
Proof. destruct s as [[[[a b] c] d] e]. split; digest. Qed.
Lemma output160 s : length (Ripemd160.output s) = 20%nat /\ bytes_ok (Ripemd160.output s).
Proof. destruct s as [[[[a b] c] d] e]. split; digest. Qed.

(** A class whose parts are those of a standard. *)
Lemma class_standard St blk pad (i i' : St) T T' sz sz' out n :
  let A := {| hash_state := St; block := blk; pad_base := pad; Initialize := i; Transform := T; sizedesc := sz; output := out |} in
  let B := {| hash_state := St; block := blk; pad_base := pad; Initialize := i'; Transform := T'; sizedesc := sz'; output := out |} in
  (0 < blk)%nat -> Z.of_nat blk < 2 ^ 32 -> Z.of_nat blk <= pad -> (forall n, (pad + 1 + zlen (sz n)) mod Z.of_nat blk = 0) ->
  (forall n, zlen (sz n) <= Z.of_nat blk) -> i = i' -> (forall s c, T s c = T' s c) ->
  (forall n, 0 <= n < 2 ^ 64 -> sz n = sz' n) -> (forall s, length (out s) = n) -> StandardHash A (standard_hash B) n.
Proof.
  intros A B Hb1 Hb2 Hp Hs Hl Hi HT Hsz Hout. split.
  - intros ps Hps. rewrite pieces_hash by done. by apply standard_hash_same.
  - intros ps qs Hps Hqs. rewrite reset_hash by done. by apply standard_hash_same.
  - intros m. apply Hout.
Qed.

#[export] Instance sha256_standard : StandardHash CSHA256 (standard_hash Sha256.spec) 32.
Proof. apply class_standard; [lia|lia|lia|done|done|apply Sha256.Init_values_256|apply Sha256.Transform_code_256|done|apply output256]. Qed.
#[export] Instance sha512_standard : StandardHash CSHA512 (standard_hash Sha512.spec) 64.
Proof. apply class_standard; [lia|lia|lia|done|done|apply Sha512.Init_values_512|apply Sha512.Transform_code_512|apply Sha512.sizedesc_code|apply output512]. Qed.
#[export] Instance sha1_standard : StandardHash CSHA1 (standard_hash Sha1.spec) 20.
Proof. apply class_standard; [lia|lia|lia|done|done|done|apply Sha1.Transform_code_1|done|apply output1]. Qed.
#[export] Instance ripemd160_standard : StandardHash CRIPEMD160 (standard_hash Ripemd160.spec) 20.
Proof. apply class_standard; [lia|lia|lia|done|done|done|apply Ripemd160.Transform_code_rmd|done|apply output160]. Qed.

(** The hash functions of the script interpreter; the check of signatures stays a parameter. *)
Definition node_crypto (low_s : bytes -> bool) : Crypto :=
  {| ripemd160 := hash_message CRIPEMD160; sha1 := hash_message CSHA1; sha256 := hash_message CSHA256; CheckLowS := low_s |}.

#[export] Instance node_crypto_laws low_s : CryptoLaws (node_crypto low_s).
Proof.
  split; intros x;
    [exact (f_equal Z.of_nat (proj1 (output160 _)))|exact (f_equal Z.of_nat (proj1 (output1 _)))|exact (f_equal Z.of_nat (proj1 (output256 _)))
    |exact (proj2 (output160 _))|exact (proj2 (output1 _))|exact (proj2 (output256 _))].
Qed.

(** ** The properties *)

(** C19. SHA-256, SHA-512, SHA-1 and RIPEMD-160: a message of less than 2^61 bytes written to an
    object of the class in any pieces, also after an earlier message and a [Reset], gives the
    digest that the standard defines for it, with the constants and initial values that the
    standard derives from the square and cube roots of primes.  The code's rounds are unrolled,
    its schedule is kept in sixteen variables, and its choice and majority functions are
    rewritten. *)
Theorem hash_classes_standard (ps qs : list bytes) : zlen (concat ps) < 2 ^ 61 -> zlen (concat qs) < 2 ^ 61 ->
  Forall (fun '(A, B) =>
    hash_Finalize A (foldl (hash_Write A) (hash_new A) ps) = standard_hash B (concat ps) /\
    hash_Finalize A (foldl (hash_Write A) (hash_Reset A (hash_pad A (foldl (hash_Write A) (hash_new A) ps))) qs) = standard_hash B (concat qs))
  [(CSHA256, Sha256.spec); (CSHA512, Sha512.spec); (CSHA1, Sha1.spec); (CRIPEMD160, Ripemd160.spec)].
Proof.
  intros Hp Hq. repeat (apply Forall_cons; split; [split; [by apply writes_hash|by apply reset_hashes]|]). constructor.
Qed.
Lemma hash_classes_standard_witness :
  (zlen (concat [[97]; [98; 99]]) < 2 ^ 61 /\ zlen (concat [[97; 98; 99]]) < 2 ^ 61) /\
  hash_Finalize CSHA256 (foldl (hash_Write CSHA256) (hash_new CSHA256) [[97]; [98; 99]]) = standard_hash Sha256.spec [97; 98; 99].
Proof.
  split; [split; vm_compute; done|].
  pose proof (hash_classes_standard [[97]; [98; 99]] [[97; 98; 99]] ltac:(by vm_compute) ltac:(by vm_compute)) as HF.
  apply Forall_cons in HF as [[E _] _]. exact E.
Defined.

(** Composition: [CHMAC_SHA256], [CHMAC_SHA512] are the HMAC of RFC 2104 over the standard
    hash functions, also for keys longer than a block; [Hash] of several ranges is the double
    SHA-256 of their concatenation, although the same object is finalized, reset and used again;
    [Hash160] is the RIPEMD-160 of the SHA-256; and [BIP32Hash] is the HMAC of BIP 32, the
    header, the data and the child number in big-endian order. *)
Theorem hash_compositions (key chain : bytes) (header n : Z) (data : bytes) (ps : list bytes) :
  zlen key < 2 ^ 61 -> zlen chain < 2 ^ 61 -> zlen (concat ps) < 2 ^ 60 -> zlen data < 2 ^ 59 -> 0 <= n < 2 ^ 32 ->
  let H256 := standard_hash Sha256.spec in let H512 := standard_hash Sha512.spec in
  hmac_Finalize CSHA256 (foldl (hmac_Write CSHA256) (hmac_new CSHA256 32 key) ps) = rfc2104 CSHA256 H256 key (concat ps) /\
  hmac_Finalize CSHA512 (foldl (hmac_Write CSHA512) (hmac_new CSHA512 64 key) ps) = rfc2104 CSHA512 H512 key (concat ps) /\
  Hash_ranges ps = H256 (H256 (concat ps)) /\
  Hash160 data = standard_hash Ripemd160.spec (H256 data) /\
  BIP32Hash chain n header data = rfc2104 CSHA512 H512 chain (header :: data ++ be_bytes 4 n).
Proof.
  intros Hk Hc Hp Hd Hn H256 H512. pose proof (zlen_nonneg data). pose proof (zlen_nonneg (concat ps)).
  assert (forall m, zlen (H256 m) = 32) as L256 by (intros m; unfold zlen, H256; by rewrite (digest_length (A := CSHA256))).
  split; [apply hmac_correct; [apply _|cbn; lia..]|]. split; [apply hmac_correct; [apply _|cbn; lia..]|]. split; [|split].
  - unfold Hash_ranges, CHash256_Finalize. rewrite writes_hash by lia. fold H256.
    pose proof (reset_hashes (A := CSHA256) ps [H256 (concat ps)] ltac:(lia)) as E. cbn [concat foldl] in E. rewrite app_nil_r in E.
    apply E. rewrite L256. lia.
  - unfold Hash160, CHash160_Finalize. pose proof (write_hash (A := CSHA256) data ltac:(lia)) as E. unfold hash_message in E. rewrite E.
    fold H256. apply (write_hash (A := CRIPEMD160)). rewrite L256. lia.
  - unfold BIP32Hash. rewrite (hmac_correct CSHA512 H512 64); [|cbn; lia|cbn; lia|done|].
    + f_equal. cbn [concat app]. do 2 f_equal. cbn [be_bytes le_bytes rev app].
      change 0xFF with (Z.ones 8). rewrite !Z.land_ones, !Z.shiftr_div_pow2 by lia. rewrite !Z.div_div by lia.
      rewrite Z.div_1_r. repeat (f_equal; try lia).
    + cbn [concat]. rewrite !zlen_app. change (zlen [header]) with 1. unfold zlen at 2 3. cbn [length]. lia.
Qed.
Lemma hash_compositions_witness :
  zlen (replicate 140 7) < 2 ^ 61 /\
  hmac_Finalize CSHA512 (foldl (hmac_Write CSHA512) (hmac_new CSHA512 64 (replicate 140 7)) [[1; 2]; [3]]) =
    rfc2104 CSHA512 (standard_hash Sha512.spec) (replicate 140 7) [1; 2; 3] /\
  Hash_ranges [[1; 2]; [3]] = standard_hash Sha256.spec (standard_hash Sha256.spec [1; 2; 3]).
Proof.
  split; [by vm_compute|].
  destruct (hash_compositions (replicate 140 7) [0; 1] 2 9 (replicate 32 5) [[1; 2]; [3]]) as (_ & Hm & Hh & _); [by vm_compute..|lia|].
  split; [exact Hm|exact Hh].
Defined.

(** HMAC-SHA-256 of the second test case of RFC 4231, and values of MurmurHash3. *)
Example hmac_jefe : hmac_Finalize CSHA256 (hmac_Write CSHA256 (hmac_new CSHA256 32 [74; 101; 102; 101])
    [119; 104; 97; 116; 32; 100; 111; 32; 121; 97; 32; 119; 97; 110; 116; 32; 102; 111; 114; 32; 110; 111; 116; 104; 105; 110; 103; 63]) =
  be_bytes 32 0x5bdcc146bf60754e6a042426089575c75a003f089d2739839dec58b964ec3843.
Proof. by vm_compute. Qed.
Example murmur_values :
  (MurmurHash3 0 [], MurmurHash3 0xfba4c795 [], MurmurHash3 0xfba4c795 [0], MurmurHash3 0 [0; 0x11; 0x22; 0x33; 0x44; 0x55; 0x66; 0x77; 0x88]) =
  (0, 0x6a396f08, 0xea3f0b17, 0xb4698def).
Proof. by vm_compute. Qed.
