(* ===== verification/Bloom.v ===== *)
(** * Bloom filters

    [CBloomFilter] and [CRollingBloomFilter] of [netmsg/bloom.cpp], and what the messages
    "filterload", "filteradd" and "filterclear" do to the filter of a peer.  The sizes that the
    constructors compute in floating point are arguments.  An index into an empty filter is a
    division by zero, the failure [bloom_div_zero]. *)

From S2P Require Import Prelude Script Serialize Standard Interpreter Compressor Transaction Hasher Hash.

Definition MAX_BLOOM_FILTER_SIZE : Z := 36000.
Definition MAX_HASH_FUNCS : Z := 50.

Definition BLOOM_UPDATE_NONE : Z := 0.
Definition BLOOM_UPDATE_ALL : Z := 1.
Definition BLOOM_UPDATE_P2PUBKEY_ONLY : Z := 2.
Definition BLOOM_UPDATE_MASK : Z := 3.

Inductive bloom_fail : Set :=
| bloom_div_zero
| bloom_solver.     (* an access outside the solutions in [Solver] *)

Record CBloomFilter := {
  vData : bytes;
  isFull : bool;
  isEmpty : bool;
  nHashFuncs : Z;
  nTweak : Z;
  nFlags : Z
}.

(** The constructors: of a peer's filter, of a rolling filter, and the default one. *)
Definition new_filter (size funcs tweak flags : Z) : CBloomFilter :=
  {| vData := replicate (Z.to_nat (Z.min size (MAX_BLOOM_FILTER_SIZE * 8) / 8)) 0; isFull := false; isEmpty := false;
     nHashFuncs := Z.min funcs MAX_HASH_FUNCS; nTweak := tweak; nFlags := flags |}.
Definition new_rolling_part (size funcs tweak : Z) : CBloomFilter :=
  {| vData := replicate (Z.to_nat (size / 8)) 0; isFull := false; isEmpty := true;
     nHashFuncs := funcs; nTweak := tweak; nFlags := BLOOM_UPDATE_NONE |}.
Definition default_filter : CBloomFilter :=
  {| vData := []; isFull := true; isEmpty := false; nHashFuncs := 0; nTweak := 0; nFlags := 0 |}.

Definition with_data (f : CBloomFilter) (data : bytes) : CBloomFilter :=
  {| vData := data; isFull := isFull f; isEmpty := isEmpty f; nHashFuncs := nHashFuncs f; nTweak := nTweak f; nFlags := nFlags f |}.
Definition with_marks (f : CBloomFilter) (full empty : bool) : CBloomFilter :=
  {| vData := vData f; isFull := full; isEmpty := empty; nHashFuncs := nHashFuncs f; nTweak := nTweak f; nFlags := nFlags f |}.
Definition with_tweak (f : CBloomFilter) (tweak : Z) : CBloomFilter :=
  {| vData := vData f; isFull := isFull f; isEmpty := isEmpty f; nHashFuncs := nHashFuncs f; nTweak := tweak; nFlags := nFlags f |}.

(** [CBloomFilter::Hash] *)
Definition bloom_Hash (f : CBloomFilter) (nHashNum : Z) (vDataToHash : bytes) : res bloom_fail Z :=
  if zlen (vData f) =? 0 then Err bloom_div_zero
  else Ok (MurmurHash3 (u32 (nHashNum * 0xFBA4C795 + nTweak f)) vDataToHash mod (zlen (vData f) * 8)).

Definition set_index (data : bytes) (nIndex : Z) : bytes :=
  alter (fun b => u8 (Z.lor b (Z.shiftl 1 (Z.land 7 nIndex)))) (Z.to_nat (Z.shiftr nIndex 3)) data.
Definition test_index (data : bytes) (nIndex : Z) : bool :=
  negb (Z.land (nth (Z.to_nat (Z.shiftr nIndex 3)) data 0) (Z.shiftl 1 (Z.land 7 nIndex)) =? 0).

(** The loop of [insert] over the hash functions from [i], [n] of them left. *)
Fixpoint insert_loop (n : nat) (i : Z) (f : CBloomFilter) (vKey : bytes) : res bloom_fail CBloomFilter :=
  match n with
  | O => Ok f
  | S n =>
      let? nIndex := bloom_Hash f i vKey in
      insert_loop n (i + 1) (with_data f (set_index (vData f) nIndex)) vKey
  end.

Definition insert (f : CBloomFilter) (vKey : bytes) : res bloom_fail CBloomFilter :=
  if isFull f then Ok f
  else
    let? f := insert_loop (Z.to_nat (nHashFuncs f)) 0 f vKey in
    Ok (with_marks f (isFull f) false).

Fixpoint contains_loop (n : nat) (i : Z) (f : CBloomFilter) (vKey : bytes) : res bloom_fail bool :=
  match n with
  | O => Ok true
  | S n =>
      let? nIndex := bloom_Hash f i vKey in
      if negb (test_index (vData f) nIndex) then Ok false else contains_loop n (i + 1) f vKey
  end.

Definition contains (f : CBloomFilter) (vKey : bytes) : res bloom_fail bool :=
  if isFull f then Ok true
  else if isEmpty f then Ok false
  else contains_loop (Z.to_nat (nHashFuncs f)) 0 f vKey.

(** The overloads for outpoints; a hash is its bytes. *)
Definition insert_outpoint (f : CBloomFilter) (o : COutPoint) : res bloom_fail CBloomFilter := insert f (ser_outpoint o).
Definition contains_outpoint (f : CBloomFilter) (o : COutPoint) : res bloom_fail bool := contains f (ser_outpoint o).

Definition clear (f : CBloomFilter) : CBloomFilter := with_marks (with_data f (replicate (length (vData f)) 0)) false true.
Definition reset (f : CBloomFilter) (nNewTweak : Z) : CBloomFilter := with_tweak (clear f) nNewTweak.

Definition IsWithinSizeConstraints (f : CBloomFilter) : bool :=
  (zlen (vData f) <=? MAX_BLOOM_FILTER_SIZE) && (nHashFuncs f <=? MAX_HASH_FUNCS).

Definition UpdateEmptyFull (f : CBloomFilter) : CBloomFilter :=
  let full := forallb (fun b => b =? 0xff) (vData f) in
  let empty := forallb (fun b => b =? 0) (vData f) in
  with_marks f full empty.

(** [SerializationOp]; the marks of the object read into are those of the default constructor. *)
Definition filter_Serialize (f : CBloomFilter) : bytes :=
  ser_bytes (vData f) ++ ser_u32 (nHashFuncs f) ++ ser_u32 (nTweak f) ++ ser_writedata8 [] (nFlags f).
Definition filter_Unserialize (inp : bytes) : res ios_failure (CBloomFilter * bytes) :=
  let? d := unser_bytes inp in
  let? h := ser_readdata32 d.2 in
  let? t := ser_readdata32 h.2 in
  let? g := ser_readdata8 t.2 in
  Ok ({| vData := d.1; isFull := isFull default_filter; isEmpty := isEmpty default_filter; nHashFuncs := h.1; nTweak := t.1; nFlags := g.1 |}, g.2).

(** ** Relevant transactions *)

(** The first element of a script that the filter contains: the scan of [scriptPubKey] and of
    [scriptSig].  Each round reads at least the opcode, so the script's length is enough fuel. *)
Fixpoint script_matches (fuel : nat) (f : CBloomFilter) (pc : bytes) : res bloom_fail bool :=
  match fuel with
  | O => Ok false
  | S fuel =>
      match GetOp2 pc with
      | None => Ok false
      | Some (_, data, pc) =>
          let? found := (if negb (zlen data =? 0) then contains f data else Ok false) in
          if found : bool then Ok true else script_matches fuel f pc
      end
  end.

(** What a matching output adds to the filter. *)
Definition update_output (pol : policy) (f : CBloomFilter) (txout : CTxOut) (o : COutPoint) : res bloom_fail CBloomFilter :=
  if Z.land (nFlags f) BLOOM_UPDATE_MASK =? BLOOM_UPDATE_ALL then insert_outpoint f o
  else if Z.land (nFlags f) BLOOM_UPDATE_MASK =? BLOOM_UPDATE_P2PUBKEY_ONLY then
    match Solver pol (scriptPubKey txout) [] with
    | None => Err bloom_solver
    | Some (ok, type, _) =>
        if ok && (bool_decide (type = TX_PUBKEY) || bool_decide (type = TX_MULTISIG)) then insert_outpoint f o else Ok f
    end
  else Ok f.

(** The loop over the outputs from index [i]. *)
Fixpoint relevant_outputs (pol : policy) (f : CBloomFilter) (hash : bytes) (i : Z) (vout : list CTxOut) (fFound : bool)
  : res bloom_fail (bool * CBloomFilter) :=
  match vout with
  | [] => Ok (fFound, f)
  | txout :: vout =>
      let? m := script_matches (length (scriptPubKey txout)) f (scriptPubKey txout) in
      if m : bool then
        let? f := update_output pol f txout {| op_hash := hash; op_n := i |} in
        relevant_outputs pol f hash (i + 1) vout true
      else relevant_outputs pol f hash (i + 1) vout fFound
  end.

Fixpoint relevant_inputs (f : CBloomFilter) (vin : list CTxIn) : res bloom_fail bool :=
  match vin with
  | [] => Ok false
  | txin :: vin =>
      let? c := contains_outpoint f (prevout txin) in
      if c : bool then Ok true
      else
        let? m := script_matches (length (scriptSig txin)) f (scriptSig txin) in
        if m : bool then Ok true else relevant_inputs f vin
  end.

(** [IsRelevantAndUpdate]: [hash] is the transaction's hash. *)
Definition IsRelevantAndUpdate (pol : policy) (f : CBloomFilter) (tx : CTransaction) (hash : bytes) : res bloom_fail (bool * CBloomFilter) :=
  if isFull f then Ok (true, f)
  else if isEmpty f then Ok (false, f)
  else
    let? fFound := contains f hash in
    let? r := relevant_outputs pol f hash 0 (tx_vout tx) fFound in
    if r.1 : bool then Ok (true, r.2)
    else
      let? m := relevant_inputs r.2 (tx_vin tx) in
      Ok (m, r.2).

(** ** The messages *)

(** What the node does with the filter of a peer: the misbehaviour it charges and the filter. *)
Record peer_filter := { pf_filter : option CBloomFilter; pf_relay : bool; pf_misbehaving : Z }.

Definition process_filterload (p : peer_filter) (filter : CBloomFilter) : peer_filter :=
  if negb (IsWithinSizeConstraints filter)
  then {| pf_filter := pf_filter p; pf_relay := true; pf_misbehaving := pf_misbehaving p + 100 |}
  else {| pf_filter := Some (UpdateEmptyFull filter); pf_relay := true; pf_misbehaving := pf_misbehaving p |}.

Definition process_filteradd (p : peer_filter) (data : bytes) : res bloom_fail peer_filter :=
  let punished := {| pf_filter := pf_filter p; pf_relay := pf_relay p; pf_misbehaving := pf_misbehaving p + 100 |} in
  if zlen data >? MAX_SCRIPT_ELEMENT_SIZE then Ok punished
  else
    match pf_filter p with
    | Some f => let? f := insert f data in Ok {| pf_filter := Some f; pf_relay := pf_relay p; pf_misbehaving := pf_misbehaving p |}
    | None => Ok punished
    end.

Definition process_filterclear (bloom_service : bool) (p : peer_filter) : peer_filter :=
  {| pf_filter := if bloom_service then Some default_filter else pf_filter p; pf_relay := true; pf_misbehaving := pf_misbehaving p |}.

(** ** Rolling filters *)

Record CRollingBloomFilter := { nBloomSize : Z; nInsertions : Z; b1 : CBloomFilter; b2 : CBloomFilter }.

(** [nNewTweak] is the random number drawn. *)
Definition rolling_reset (r : CRollingBloomFilter) (nNewTweak : Z) : CRollingBloomFilter :=
  {| nBloomSize := nBloomSize r; nInsertions := 0; b1 := reset (b1 r) nNewTweak; b2 := reset (b2 r) nNewTweak |}.

(** [size] and [funcs] are computed from twice the number of elements and the rate. *)
Definition new_rolling (nElements size funcs nNewTweak : Z) : CRollingBloomFilter :=
  rolling_reset {| nBloomSize := u32 (nElements * 2); nInsertions := 0; b1 := new_rolling_part size funcs 0; b2 := new_rolling_part size funcs 0 |} nNewTweak.

Definition rolling_insert (r : CRollingBloomFilter) (vKey : bytes) : res bloom_fail CRollingBloomFilter :=
  let '(f1, f2) :=
    (if nInsertions r =? 0 then (clear (b1 r), b2 r)
     else if nInsertions r =? nBloomSize r / 2 then (b1 r, clear (b2 r))
     else (b1 r, b2 r)) in
  let? f1 := insert f1 vKey in
  let? f2 := insert f2 vKey in
  let n := u32 (nInsertions r + 1) in
  Ok {| nBloomSize := nBloomSize r; nInsertions := if n =? nBloomSize r then 0 else n; b1 := f1; b2 := f2 |}.

Definition rolling_contains (r : CRollingBloomFilter) (vKey : bytes) : res bloom_fail bool :=
  if nInsertions r <? nBloomSize r / 2 then contains (b2 r) vKey else contains (b1 r) vKey.

(** ** Bits *)

Lemma land_shifted_bit b k : 0 <= k -> (Z.land b (Z.shiftl 1 k) =? 0) = negb (Z.testbit b k).
Proof.
  intros Hk. rewrite Z.shiftl_1_l. destruct (Z.eqb_spec (Z.land b (2 ^ k)) 0) as [E|E].
  - apply (f_equal (fun x => Z.testbit x k)) in E. rewrite Z.land_spec, Z.pow2_bits_true, Z.bits_0, andb_true_r in E by lia. by rewrite E.
  - destruct (Z.testbit b k) eqn:Eb; [done|]. destruct E. apply Z.bits_inj'. intros j Hj.
    rewrite Z.land_spec, Z.pow2_bits_eqb, Z.bits_0 by lia. destruct (Z.eqb_spec k j) as [->|Hne]; [by rewrite Eb|by rewrite andb_false_r].
Qed.

Lemma low3 n : Z.land 7 n = n mod 8.
Proof. change 7 with (Z.ones 3). by rewrite Z.land_comm, Z.land_ones. Qed.

Lemma test_index_bit data n : test_index data n = Z.testbit (nth (Z.to_nat (n / 8)) data 0) (n mod 8).
Proof.
  unfold test_index. rewrite low3, land_shifted_bit by (apply Z.mod_pos_bound; lia). rewrite negb_involutive.
  by rewrite Z.shiftr_div_pow2 by lia.
Qed.

Lemma set_byte b k j : 0 <= k < 8 -> 0 <= j < 8 -> Z.testbit (u8 (Z.lor b (Z.shiftl 1 k))) j = Z.testbit b j || (j =? k).
Proof.
  intros Hk Hj. unfold u8. rewrite Z.mod_pow2_bits_low, Z.lor_spec, Z.shiftl_1_l, Z.pow2_bits_eqb by lia. by rewrite Z.eqb_sym.
Qed.

Lemma length_set_index data n : length (set_index data n) = length data.
Proof. apply length_alter. Qed.

Lemma nth_alter (g : Z -> Z) i j (l : bytes) : nth j (alter g i l) 0 = if (i =? j)%nat && (j <? length l)%nat then g (nth j l 0) else nth j l 0.
Proof.
  rewrite !nth_lookup. destruct (Nat.eqb_spec i j) as [->|Hne]; cbn [andb].
  - rewrite list_lookup_alter_eq. destruct (Nat.ltb_spec j (length l)) as [Hl|Hl].
    + destruct (lookup_lt_is_Some_2 l j Hl) as [x ->]. done.
    + by rewrite lookup_ge_None_2 by done.
  - by rewrite list_lookup_alter_ne.
Qed.

Lemma set_index_spec data n m : 0 <= n < zlen data * 8 -> 0 <= m ->
  test_index (set_index data n) m = test_index data m || (m =? n).
Proof.
  intros Hn Hm. rewrite !test_index_bit. unfold set_index. rewrite nth_alter, low3, Z.shiftr_div_pow2 by lia. change (2 ^ 3) with 8.
  pose proof (Z.mod_pos_bound m 8 ltac:(lia)). pose proof (Z.mod_pos_bound n 8 ltac:(lia)).
  pose proof (Z.div_mod m 8 ltac:(lia)). pose proof (Z.div_mod n 8 ltac:(lia)).
  assert (0 <= n / 8 < zlen data) by (split; [apply Z.div_pos; lia|apply Z.div_lt_upper_bound; lia]). assert (0 <= m / 8) by (apply Z.div_pos; lia).
  unfold zlen in *. destruct (Nat.eqb_spec (Z.to_nat (n / 8)) (Z.to_nat (m / 8))) as [E|E]; cbn [andb].
  - rewrite (proj2 (Nat.ltb_lt _ _)) by lia. rewrite set_byte by done. f_equal.
    destruct (Z.eqb_spec (m mod 8) (n mod 8)), (Z.eqb_spec m n); lia || done.
  - destruct (Z.eqb_spec m n); [subst; lia|]. by rewrite orb_false_r.
Qed.

(** ** One filter *)

(** The filters on which no index is computed modulo zero. *)
Definition filter_ok (f : CBloomFilter) : Prop := isFull f = true \/ vData f <> [].

Definition index (f : CBloomFilter) (i : Z) (k : bytes) : Z :=
  MurmurHash3 (u32 (i * 0xFBA4C795 + nTweak f)) k mod (zlen (vData f) * 8).

(** The filter after more insertions: the same parameters and no bit lost. *)
Record grows (f g : CBloomFilter) : Prop := {
  gr_len : length (vData g) = length (vData f);
  gr_full : isFull g = isFull f;
  gr_empty : isEmpty f = false -> isEmpty g = false;
  gr_funcs : nHashFuncs g = nHashFuncs f;
  gr_tweak : nTweak g = nTweak f;
  gr_bits : forall n, 0 <= n -> test_index (vData f) n = true -> test_index (vData g) n = true
}.

#[export] Instance grows_refl : Reflexive grows.
Proof. by split. Qed.
#[export] Instance grows_trans : Transitive grows.
Proof. intros f g h [] []. split; try congruence; auto. Qed.

Lemma index_grows f g i k : grows f g -> index g i k = index f i k.
Proof. intros [Hl _ _ _ Ht _]. unfold index, zlen. by rewrite Hl, Ht. Qed.

Lemma data_pos (f : CBloomFilter) : vData f <> [] -> 0 < zlen (vData f).
Proof. unfold zlen. destruct (vData f); cbn; [done|lia]. Qed.

Lemma index_range f i k : vData f <> [] -> 0 <= index f i k < zlen (vData f) * 8.
Proof. intros Hd%data_pos. apply Z.mod_pos_bound. lia. Qed.

Lemma Hash_index f i k : vData f <> [] -> bloom_Hash f i k = Ok (index f i k).
Proof. intros Hd%data_pos. unfold bloom_Hash. by rewrite (proj2 (Z.eqb_neq _ _)) by lia. Qed.

Lemma contains_loop_spec n i f k : vData f <> [] ->
  exists b, contains_loop n i f k = Ok b /\
    (b = true <-> forall j, i <= j < i + Z.of_nat n -> test_index (vData f) (index f j k) = true).
Proof.
  intros Hd. revert i. induction n as [|n IH]; intros i; cbn [contains_loop].
  - exists true. split; [done|]. split; [|done]. intros _ j Hj. lia.
  - rewrite Hash_index by done. cbn [res_bind]. destruct (test_index (vData f) (index f i k)) eqn:Et; cbn [negb].
    + destruct (IH (i + 1)) as (b & -> & Hb). exists b. split; [done|]. rewrite Hb. split; intros H j Hj.
      * destruct (Z.eq_dec j i) as [->|]; [done|]. apply H. lia.
      * apply H. lia.
    + exists false. split; [done|]. split; [done|]. intros H. rewrite H in Et by lia. done.
Qed.

Lemma insert_loop_spec n i f k : vData f <> [] ->
  exists g, insert_loop n i f k = Ok g /\ grows f g /\ isEmpty g = isEmpty f /\
    forall j, i <= j < i + Z.of_nat n -> test_index (vData g) (index f j k) = true.
Proof.
  revert i f. induction n as [|n IH]; intros i f Hd; cbn [insert_loop].
  - exists f. split; [done|]. split; [done|]. split; [done|]. intros j Hj. lia.
  - rewrite Hash_index by done. cbn [res_bind]. pose proof (index_range f i k Hd) as Hi. set (m := index f i k) in *.
    set (f' := with_data f (set_index (vData f) m)).
    assert (grows f f') as Hg.
    { split; try done; [apply length_set_index|]. intros p Hp Ht. cbn [vData f' with_data]. by rewrite set_index_spec, Ht by lia. }
    destruct (IH (i + 1) f') as (g & -> & Hg' & He & Hbits).
    { intros E. apply (f_equal length) in E. rewrite (gr_len _ _ Hg) in E. by destruct (vData f). }
    exists g. split; [done|]. split; [by transitivity f'|]. split; [done|]. intros j Hj. destruct (Z.eq_dec j i) as [->|].
    + apply (gr_bits _ _ Hg'); [apply Hi|]. cbn [vData f' with_data]. rewrite set_index_spec by lia. by rewrite Z.eqb_refl, orb_true_r.
    + rewrite <- (index_grows f f') by done. apply Hbits. lia.
Qed.

(** A filter that answers yes for [k]. *)
Definition holds (f : CBloomFilter) (k : bytes) : Prop := filter_ok f /\ contains f k = Ok true.

Lemma ok_grows f g : grows f g -> filter_ok f -> filter_ok g.
Proof.
  intros Hg [Hf|Hd]; [left; by rewrite (gr_full _ _ Hg)|right]. intros E. apply (f_equal length) in E. rewrite (gr_len _ _ Hg) in E. by destruct (vData f).
Qed.

Lemma holds_grows f g k : grows f g -> holds f k -> holds g k.
Proof.
  intros Hg [Hok Hc]. split; [by eapply ok_grows|]. unfold contains in *. rewrite (gr_full _ _ Hg).
  destruct (isFull f) eqn:Ef; [done|]. destruct Hok as [|Hd]; [congruence|]. destruct (isEmpty f) eqn:Ee; [done|]. rewrite (gr_empty _ _ Hg Ee), (gr_funcs _ _ Hg).
  assert (vData g <> []) as Hd' by (destruct (ok_grows f g Hg (or_intror Hd)) as [Hx|]; [rewrite (gr_full _ _ Hg) in Hx; congruence|done]).
  destruct (contains_loop_spec (Z.to_nat (nHashFuncs f)) 0 f k Hd) as (b & E & Hb). rewrite E in Hc. injection Hc as ->.
  destruct (contains_loop_spec (Z.to_nat (nHashFuncs f)) 0 g k Hd') as (b' & -> & Hb'). f_equal. apply Hb'. intros j Hj.
  rewrite (index_grows f g) by done. apply (gr_bits _ _ Hg); [by apply index_range|]. by apply Hb.
Qed.

(** Inserting succeeds, loses nothing, and the key is then found. *)
Lemma insert_spec f k : filter_ok f -> exists g, insert f k = Ok g /\ grows f g /\ holds g k.
Proof.
  intros Hok. unfold insert. destruct (isFull f) eqn:Ef.
  - exists f. split; [done|]. split; [done|]. split; [done|]. unfold contains. by rewrite Ef.
  - destruct Hok as [|Hd]; [congruence|].
    destruct (insert_loop_spec (Z.to_nat (nHashFuncs f)) 0 f k Hd) as (g & -> & Hg & He & Hbits). cbn [res_bind].
    exists (with_marks g (isFull g) false). split; [done|].
    assert (grows f (with_marks g (isFull g) false)) as Hg2 by (destruct Hg; by split).
    split; [done|]. split; [by apply (ok_grows f); [|right]|]. unfold contains. cbn [isFull isEmpty nHashFuncs with_marks].
    rewrite (gr_full _ _ Hg), Ef, (gr_funcs _ _ Hg).
    destruct (contains_loop_spec (Z.to_nat (nHashFuncs f)) 0 (with_marks g (isFull g) false) k) as (b & E & Hb).
    { destruct (ok_grows f _ Hg2 (or_intror Hd)) as [Hx|]; [rewrite (gr_full _ _ Hg2) in Hx; congruence|done]. }
    rewrite (gr_full _ _ Hg), Ef in E. rewrite E. f_equal. apply Hb. intros j Hj. rewrite (index_grows f) by done. cbn [vData with_marks].
    by apply Hbits.
Qed.

Lemma clear_ok f : filter_ok f -> vData f <> [] -> filter_ok (clear f) /\ vData (clear f) <> [].
Proof. intros _ Hd. assert (vData (clear f) <> []) by (cbn; by destruct (vData f)). split; [by right|done]. Qed.

Lemma contains_total f k : filter_ok f -> exists b, contains f k = Ok b.
Proof.
  intros Hok. unfold contains. destruct (isFull f) eqn:Ef; [by eexists|]. destruct (isEmpty f); [by eexists|].
  destruct Hok as [|Hd]; [congruence|]. destruct (contains_loop_spec (Z.to_nat (nHashFuncs f)) 0 f k Hd) as (b & -> & _). by eexists.
Qed.

(** What a scan finds, it finds in a filter that has grown. *)
Lemma contains_grows f g k : filter_ok f -> grows f g -> contains f k = Ok true -> contains g k = Ok true.
Proof. intros Hok Hg Hc. by apply (holds_grows f g k Hg). Qed.

Lemma script_matches_total fuel f pc : filter_ok f -> exists b, script_matches fuel f pc = Ok b.
Proof.
  intros Hok. revert pc. induction fuel as [|fuel IH]; intros pc; [by eexists|]. cbn [script_matches].
  destruct (GetOp2 pc) as [[[op data] rest]|]; [|by eexists].
  destruct (contains_total f data Hok) as [b E]. destruct (negb (zlen data =? 0)); [rewrite E|]; cbn [res_bind]; [destruct b; [by eexists|]|]; apply IH.
Qed.

Lemma script_matches_grows fuel f g pc : filter_ok f -> grows f g -> script_matches fuel f pc = Ok true -> script_matches fuel g pc = Ok true.
Proof.
  intros Hok Hg. revert pc. induction fuel as [|fuel IH]; intros pc; [done|]. cbn [script_matches].
  destruct (GetOp2 pc) as [[[op data] rest]|]; [|done]. destruct (negb (zlen data =? 0)); [|cbn [res_bind]; apply IH].
  destruct (contains_total f data Hok) as [b E]. destruct (contains_total g data (ok_grows f g Hg Hok)) as [b' E']. rewrite E, E'. cbn [res_bind].
  destruct b'; [done|]. destruct b; [|apply IH]. rewrite (contains_grows f g) in E' by done. done.
Qed.

Lemma update_output_spec pol f txout o : filter_ok f -> exists g, update_output pol f txout o = Ok g /\ grows f g /\ nFlags g = nFlags f /\
  (Z.land (nFlags f) BLOOM_UPDATE_MASK = BLOOM_UPDATE_ALL -> holds g (ser_outpoint o)).
Proof.
  intros Hok. unfold update_output, insert_outpoint. destruct (insert_spec f (ser_outpoint o) Hok) as (g & E & Hg & Hh).
  assert (nFlags g = nFlags f) as Hfl.
  { revert E. unfold insert. destruct (isFull f); [by intros [= <-]|]. intros E. apply res_bind_Ok in E as (x & E & [= <-]). cbn [nFlags with_marks].
    clear -E. revert E. generalize (Z.to_nat (nHashFuncs f)), 0. intros n i. revert f i. induction n as [|n IH]; intros f i; cbn [insert_loop]; [by intros [= <-]|].
    intros E. apply res_bind_Ok in E as (m & _ & E). by apply IH in E. }
  destruct (Z.eqb_spec (Z.land (nFlags f) BLOOM_UPDATE_MASK) BLOOM_UPDATE_ALL) as [Ea|Ea]; [by exists g|].
  destruct (Z.land (nFlags f) BLOOM_UPDATE_MASK =? BLOOM_UPDATE_P2PUBKEY_ONLY); [|by exists f].
  destruct (Solver_total pol (scriptPubKey txout)) as [[[ok t] sols] ->]. case_match; [by exists g|by exists f].
Qed.

Lemma relevant_outputs_spec pol f hash i vout found : filter_ok f ->
  exists r, relevant_outputs pol f hash i vout found = Ok r /\ grows f r.2 /\ nFlags r.2 = nFlags f /\ (found = true -> r.1 = true) /\
    forall n txout, vout !! n = Some txout -> script_matches (length (scriptPubKey txout)) f (scriptPubKey txout) = Ok true ->
      r.1 = true /\ (Z.land (nFlags f) BLOOM_UPDATE_MASK = BLOOM_UPDATE_ALL -> holds r.2 (ser_outpoint {| op_hash := hash; op_n := i + Z.of_nat n |})).
Proof.
  revert f i found. induction vout as [|txout vout IH]; intros f i found Hok; cbn [relevant_outputs]; [by exists (found, f)|].
  destruct (script_matches_total (length (scriptPubKey txout)) f (scriptPubKey txout) Hok) as [b Em]. rewrite Em. cbn [res_bind].
  destruct (update_output_spec pol f txout {| op_hash := hash; op_n := i |} Hok) as (g & Eu & Hg & Hfl & Hh).
  set (f' := if b then g else f). set (found' := if b then true else found).
  assert (grows f f' /\ nFlags f' = nFlags f) as [Hg' Hfl'] by (unfold f'; by destruct b).
  destruct (IH f' (i + 1) found' (ok_grows _ _ Hg' Hok)) as (r & Er & Hgr & Hflr & Hfound & Hall).
  exists r. split; [destruct b; [rewrite Eu; exact Er|exact Er]|]. split; [by transitivity f'|]. split; [congruence|].
  split; [intros ->; apply Hfound; unfold found'; by destruct b|]. intros n o Hn Hm. destruct n as [|n].
  - injection Hn as ->. assert (b = true) as -> by congruence. split; [by apply Hfound|]. intros Hall'. rewrite Z.add_0_r.
    apply (holds_grows g); [done|by apply Hh].
  - cbn in Hn. destruct (Hall n o Hn) as [H1 H2]; [by apply (script_matches_grows _ f)|]. split; [done|]. rewrite Hfl' in H2.
    rewrite Nat2Z.inj_succ. replace (i + Z.succ (Z.of_nat n)) with (i + 1 + Z.of_nat n) by lia. done.
Qed.

Lemma relevant_inputs_spec f vin : filter_ok f -> exists b, relevant_inputs f vin = Ok b /\
  forall txin, In txin vin -> holds f (ser_outpoint (prevout txin)) -> b = true.
Proof.
  intros Hok. induction vin as [|txin vin (b & Eb & IH)]; cbn [relevant_inputs]; [by exists false|].
  destruct (contains_total f (ser_outpoint (prevout txin)) Hok) as [c Ec]. unfold contains_outpoint. rewrite Ec. cbn [res_bind].
  destruct c; [by exists true|]. destruct (script_matches_total (length (scriptSig txin)) f (scriptSig txin) Hok) as [m ->]. cbn [res_bind].
  destruct m; [by exists true|]. exists b. split; [done|]. intros x [<-|Hin] [_ Hh]; [congruence|by apply (IH x)].
Qed.

Lemma relevant_spec pol f tx hash : filter_ok f ->
  exists r, IsRelevantAndUpdate pol f tx hash = Ok r /\ grows f r.2 /\
    (holds f hash -> r.1 = true) /\
    (forall txin, In txin (tx_vin tx) -> holds f (ser_outpoint (prevout txin)) -> r.1 = true).
Proof.
  intros Hok. unfold IsRelevantAndUpdate. destruct (isFull f) eqn:Ef; [by exists (true, f)|]. destruct (isEmpty f) eqn:Ee.
  - exists (false, f). split; [done|]. split; [done|]. split; [|intros txin _]; intros [_ Hc]; unfold contains in Hc; by rewrite Ef, Ee in Hc.
  - destruct (contains_total f hash Hok) as [c Ec]. rewrite Ec. cbn [res_bind].
    destruct (relevant_outputs_spec pol f hash 0 (tx_vout tx) c Hok) as (r & -> & Hg & _ & Hfound & _). cbn [res_bind].
    destruct r as [b g]. cbn [fst snd] in *. destruct b; [by exists (true, g)|].
    destruct (relevant_inputs_spec g (tx_vin tx) (ok_grows _ _ Hg Hok)) as (m & -> & Hin). exists (m, g). cbn [res_bind fst snd].
    split; [done|]. split; [done|]. split.
    + intros [_ Hc]. rewrite Hc in Ec. injection Ec as <-. by discriminate Hfound.
    + intros txin Hi Hh. apply (Hin txin Hi). by apply (holds_grows f).
Qed.

(** ** The filter of a peer *)

(** What happens to it: the three messages, and a transaction considered for relay. *)
Inductive filter_event :=
| FilterLoad (filter : CBloomFilter)
| FilterAdd (data : bytes)
| FilterClear
| Relay (tx : CTransaction) (hash : bytes).

Definition peer_step (pol : policy) (bloom_service : bool) (p : peer_filter) (e : filter_event) : res bloom_fail peer_filter :=
  match e with
  | FilterLoad filter => Ok (process_filterload p filter)
  | FilterAdd data => process_filteradd p data
  | FilterClear => Ok (process_filterclear bloom_service p)
  | Relay tx hash =>
      match pf_filter p with
      | None => Ok p
      | Some f =>
          let? r := IsRelevantAndUpdate pol f tx hash in
          Ok {| pf_filter := Some r.2; pf_relay := pf_relay p; pf_misbehaving := pf_misbehaving p |}
      end
  end.

Fixpoint peer_run (pol : policy) (bloom_service : bool) (p : peer_filter) (es : list filter_event) : res bloom_fail peer_filter :=
  match es with
  | [] => Ok p
  | e :: es => let? p := peer_step pol bloom_service p e in peer_run pol bloom_service p es
  end.

Definition peer_ok (p : peer_filter) : Prop := match pf_filter p with Some f => filter_ok f | None => True end.
Definition peer_holds (p : peer_filter) (k : bytes) : Prop := match pf_filter p with Some f => holds f k | None => False end.
(** The events that replace the filter. *)
Definition replaces (e : filter_event) : bool := match e with FilterLoad _ | FilterClear => true | _ => false end.

Lemma update_ok f : filter_ok (UpdateEmptyFull f).
Proof. unfold filter_ok, UpdateEmptyFull. cbn. destruct (vData f); [by left|by right]. Qed.

Lemma peer_step_ok pol bs p e : peer_ok p -> exists q, peer_step pol bs p e = Ok q /\ peer_ok q /\
  (replaces e = false -> forall k, peer_holds p k -> peer_holds q k).
Proof.
  intros Hp. destruct e as [filter|data| |tx hash]; cbn [peer_step replaces].
  - eexists. split; [done|]. split; [|done]. unfold process_filterload. case_match; [done|]. apply update_ok.
  - unfold process_filteradd. destruct (zlen data >? MAX_SCRIPT_ELEMENT_SIZE); [by eexists|]. unfold peer_ok, peer_holds in *.
    destruct (pf_filter p) as [f|] eqn:Ef.
    + destruct (insert_spec f data Hp) as (g & -> & Hg & Hh). cbn [res_bind]. eexists. split; [done|]. cbn. split; [by destruct Hh|].
      intros _ k Hk. by apply (holds_grows f).
    + eexists. split; [done|]. done.
  - eexists. split; [done|]. split; [|done]. unfold process_filterclear, peer_ok in *. cbn. destruct bs; [by left|done].
  - unfold peer_ok, peer_holds in *. destruct (pf_filter p) as [f|] eqn:Ef.
    + destruct (relevant_spec pol f tx hash Hp) as (r & -> & Hg & _). cbn [res_bind]. eexists. split; [done|]. cbn. split; [by apply (ok_grows f)|].
      intros _ k Hk. by apply (holds_grows f).
    + exists p. rewrite Ef. done.
Qed.

Lemma peer_run_ok pol bs es p : peer_ok p -> exists q, peer_run pol bs p es = Ok q /\ peer_ok q /\
  (forallb (fun e => negb (replaces e)) es = true -> forall k, peer_holds p k -> peer_holds q k).
Proof.
  revert p. induction es as [|e es IH]; intros p Hp; [by exists p|]. cbn [peer_run forallb].
  destruct (peer_step_ok pol bs p e Hp) as (p' & -> & Hp' & Hk). cbn [res_bind]. destruct (IH p' Hp') as (q & -> & Hq & Hkq).
  exists q. split; [done|]. split; [done|]. intros [He%negb_true_iff Hes]%andb_prop k Hh. by apply Hkq, Hk.
Qed.

(** The filter of a peer.  Whatever filters, data and transactions a peer sends, the node
    computes with them without failing: no index is taken modulo the size of an empty filter,
    because a filter is marked full or empty before its first use.  Data that a "filteradd" of at
    most 520 bytes adds are found by the filter through every later "filteradd" and relayed
    transaction, until the peer replaces the filter. *)
Theorem peer_filter_keeps pol bs p0 es data later : pf_filter p0 = None \/ pf_filter p0 = Some default_filter ->
  (exists p1, peer_run pol bs p0 es = Ok p1 /\
    (zlen data <= MAX_SCRIPT_ELEMENT_SIZE -> is_Some (pf_filter p1) -> forallb (fun e => negb (replaces e)) later = true ->
     exists p2 f, peer_run pol bs p1 (FilterAdd data :: later) = Ok p2 /\ pf_filter p2 = Some f /\ contains f data = Ok true)) .
Proof.
  intros H0. assert (peer_ok p0) as Hp0 by (unfold peer_ok; destruct H0 as [-> | ->]; [done|by left]).
  destruct (peer_run_ok pol bs es p0 Hp0) as (p1 & E1 & Hp1 & _). exists p1. split; [done|]. intros Hd [f Ef] Hl.
  cbn [peer_run peer_step]. unfold process_filteradd. rewrite Ef. unfold peer_ok in Hp1. rewrite Ef in Hp1. rewrite Z.gtb_ltb.
  destruct (Z.ltb_spec MAX_SCRIPT_ELEMENT_SIZE (zlen data)); [lia|].
  destruct (insert_spec f data Hp1) as (g & -> & Hg & Hh). cbn [res_bind].
  match goal with |- context [peer_run _ _ ?p later] => destruct (peer_run_ok pol bs later p) as (p2 & -> & _ & Hk) end; [by destruct Hh|].
  specialize (Hk Hl data Hh). unfold peer_holds in Hk. destruct (pf_filter p2) as [f2|] eqn:E2; [|done].
  exists p2, f2. split; [done|]. split; [done|]. by destruct Hk.
Qed.

(** A client that asks for it is told of the spending of its outputs: when an output's
    script has data the filter contains and the filter's flags say to update it, the output's
    outpoint is added, and every transaction that spends this output is found relevant then. *)
Theorem spends_are_relevant pol f tx hash n txout : filter_ok f -> isFull f = false -> isEmpty f = false ->
  tx_vout tx !! n = Some txout -> script_matches (length (scriptPubKey txout)) f (scriptPubKey txout) = Ok true ->
  Z.land (nFlags f) BLOOM_UPDATE_MASK = BLOOM_UPDATE_ALL ->
  exists g, IsRelevantAndUpdate pol f tx hash = Ok (true, g) /\
    forall tx' hash' txin, In txin (tx_vin tx') -> prevout txin = {| op_hash := hash; op_n := Z.of_nat n |} ->
      exists g', IsRelevantAndUpdate pol g tx' hash' = Ok (true, g').
Proof.
  intros Hok Ef Ee Hn Hm Hall. unfold IsRelevantAndUpdate at 1. rewrite Ef, Ee. destruct (contains_total f hash Hok) as [c ->]. cbn [res_bind].
  destruct (relevant_outputs_spec pol f hash 0 (tx_vout tx) c Hok) as (r & -> & Hg & _ & _ & Hout). cbn [res_bind].
  destruct (Hout n txout Hn Hm) as [Hr Hh]. specialize (Hh Hall). rewrite Hr. exists r.2. split; [done|]. intros tx' hash' txin Hin Ep.
  destruct (relevant_spec pol r.2 tx' hash' (ok_grows _ _ Hg Hok)) as ([b g'] & -> & _ & _ & Hi).
  exists g'. cbn [fst] in Hi. rewrite (Hi txin Hin) by (by rewrite Ep). done.
Qed.

(** ** Rolling filters *)

Record rolling_ok (N : Z) (r : CRollingBloomFilter) (recent : list bytes) : Prop := {
  ro_size : nBloomSize r = 2 * N;
  ro_n : 0 <= nInsertions r < 2 * N;
  ro_d1 : isFull (b1 r) = false /\ vData (b1 r) <> [];
  ro_d2 : isFull (b2 r) = false /\ vData (b2 r) <> [];
  ro_h1 : Forall (holds (b1 r)) (take (Z.to_nat (nInsertions r)) recent);
  ro_h2 : Forall (holds (b2 r)) (take (Z.to_nat (if nInsertions r <=? N then N + nInsertions r else nInsertions r - N)) recent)
}.

Lemma clear_data f : vData f <> [] -> isFull (clear f) = false /\ vData (clear f) <> [].
Proof. intros Hd. split; [done|]. cbn. by destruct (vData f). Qed.

(** Inserting into one of the two filters. *)
Lemma part_insert f k ks : isFull f = false /\ vData f <> [] -> Forall (holds f) ks ->
  exists g, insert f k = Ok g /\ (isFull g = false /\ vData g <> []) /\ Forall (holds g) (k :: ks).
Proof.
  intros [Hf Hd] Hks. destruct (insert_spec f k (or_intror Hd)) as (g & -> & Hg & Hh). exists g. split; [done|].
  split; [split; [by rewrite (gr_full _ _ Hg)|]|].
  - destruct (ok_grows f g Hg (or_intror Hd)) as [Hx|]; [rewrite (gr_full _ _ Hg) in Hx; congruence|done].
  - constructor; [done|]. eapply Forall_impl; [exact Hks|]. intros x Hx. by apply (holds_grows f).
Qed.

Lemma take_weaken (P : bytes -> Prop) n m k recent : Forall P (k :: take n recent) -> (m <= S n)%nat -> Forall P (take m (k :: recent)).
Proof. intros HF Hm. change (k :: take n recent) with (take (S n) (k :: recent)) in HF. replace m with (m `min` S n)%nat by lia. rewrite <- take_take. by apply Forall_take. Qed.

Lemma rolling_insert_ok N r recent k : 1 <= N < 2 ^ 31 -> rolling_ok N r recent ->
  exists r', rolling_insert r k = Ok r' /\ rolling_ok N r' (k :: recent).
Proof.
  intros HN [Hs Hn H1 H2 F1 F2]. unfold rolling_insert. rewrite Hs. replace (2 * N / 2) with N by (symmetry; rewrite Z.mul_comm; apply Z.div_mul; lia).
  set (n := nInsertions r) in *.
  set (f1 := if n =? 0 then clear (b1 r) else b1 r). set (f2 := if n =? N then clear (b2 r) else b2 r).
  assert ((if n =? 0 then (clear (b1 r), b2 r) else if n =? N then (b1 r, clear (b2 r)) else (b1 r, b2 r)) = (f1, f2)) as ->.
  { unfold f1, f2. destruct (Z.eqb_spec n 0); [by rewrite (proj2 (Z.eqb_neq n N)) by lia|]. by destruct (n =? N). }
  destruct (part_insert f1 k (take (Z.to_nat n) recent)) as (g1 & -> & G1 & K1).
  { unfold f1. destruct (n =? 0); [apply clear_data, H1|done]. }
  { unfold f1. destruct (Z.eqb_spec n 0) as [->|]; [constructor|done]. }
  destruct (part_insert f2 k (if n =? N then [] else take (Z.to_nat (if n <=? N then N + n else n - N)) recent)) as (g2 & -> & G2 & K2).
  { unfold f2. destruct (n =? N); [apply clear_data, H2|done]. }
  { unfold f2. by destruct (n =? N). }
  cbn [res_bind]. eexists. split; [done|]. rewrite (u32_id (n + 1)) by lia.
  split; cbn [nBloomSize nInsertions b1 b2]; try done; [destruct (Z.eqb_spec (n + 1) (2 * N)); lia| |].
  - eapply take_weaken; [exact K1|]. destruct (Z.eqb_spec (n + 1) (2 * N)); lia.
  - destruct (Z.eqb_spec n N) as [En|En].
    + apply (take_weaken _ 0); [exact K2|]. destruct (Z.eqb_spec (n + 1) (2 * N)); repeat match goal with |- context [?a <=? ?b] => destruct (Z.leb_spec a b) end; lia.
    + eapply take_weaken; [exact K2|]. destruct (Z.eqb_spec (n + 1) (2 * N)); repeat match goal with |- context [?a <=? ?b] => destruct (Z.leb_spec a b) end; lia.
Qed.

(** C22. A rolling filter for [N] elements (less than 2^31), whatever was drawn as its tweak:
    inserting never fails, and after any sequence of insertions each of the last [N] keys
    inserted is found, although the filter clears one of its two halves every [N] insertions. *)
Theorem rolling_keeps_last N size funcs tweak keys : 1 <= N < 2 ^ 31 -> 8 <= size ->
  exists r, foldl (fun r k => let? r := r in rolling_insert r k) (Ok (new_rolling N size funcs tweak)) keys = Ok r /\
    forall k, In k (take (Z.to_nat N) (rev keys)) -> rolling_contains r k = Ok true.
Proof.
  intros HN Hsize.
  assert (exists r, foldl (fun r k => let? r := r in rolling_insert r k) (Ok (new_rolling N size funcs tweak)) keys = Ok r /\ rolling_ok N r (rev keys)) as (r & E & Hr).
  { induction keys as [|k keys (r & E & Hr)] using rev_ind.
    - eexists. split; [done|]. assert (vData (new_rolling_part size funcs 0) <> []) as Hd.
      { cbn. assert (1 <= size / 8) by (apply Z.div_le_lower_bound; lia). destruct (Z.to_nat (size / 8)) eqn:Ez; [lia|done]. }
      split; cbn [new_rolling rolling_reset nBloomSize nInsertions b1 b2]; [rewrite u32_id; lia|lia|by apply clear_data|by apply clear_data|constructor|].
      cbn [rev]. rewrite take_nil. constructor.
    - rewrite foldl_app, E. cbn [foldl res_bind]. rewrite rev_app_distr. by apply rolling_insert_ok. }
  exists r. split; [done|]. intros k Hk. destruct Hr as [Hs Hn _ _ F1 F2]. unfold rolling_contains. rewrite Hs.
  replace (2 * N / 2) with N by (symmetry; rewrite Z.mul_comm; apply Z.div_mul; lia).
  assert (forall P m, (Z.to_nat N <= m)%nat -> Forall P (take m (rev keys)) -> P k) as Hin.
  { intros P m Hm HF. apply (proj1 (List.Forall_forall _ _) HF). replace (Z.to_nat N) with (Z.to_nat N `min` m)%nat in Hk by lia.
    rewrite <- take_take in Hk. by apply (firstn_In _ (Z.to_nat N)) in Hk || (rewrite <- (take_drop (Z.to_nat N) (take m (rev keys))); apply in_or_app; by left). }
  destruct (Z.ltb_spec (nInsertions r) N).
  - eapply (Hin (fun k => contains (b2 r) k = Ok true)); [|eapply Forall_impl; [exact F2|by intros x []]].
    destruct (Z.leb_spec (nInsertions r) N); lia.
  - eapply (Hin (fun k => contains (b1 r) k = Ok true)); [|eapply Forall_impl; [exact F1|by intros x []]]. lia.
Qed.

Lemma peer_filter_keeps_witness :
  let p0 := {| pf_filter := Some default_filter; pf_relay := false; pf_misbehaving := 0 |} in
  let load := FilterLoad {| vData := [0; 0; 0]; isFull := true; isEmpty := false; nHashFuncs := 5; nTweak := 7; nFlags := 1 |} in
  exists p1, peer_run {| datacarrier := true; nMaxDatacarrierBytes := 83 |} true p0 [load] = Ok p1 /\
    exists p2 f, peer_run {| datacarrier := true; nMaxDatacarrierBytes := 83 |} true p1 [FilterAdd [1; 2; 3]; FilterAdd [4]] = Ok p2 /\
      pf_filter p2 = Some f /\ contains f [1; 2; 3] = Ok true.
Proof.
  intros p0 load.
  destruct (peer_filter_keeps {| datacarrier := true; nMaxDatacarrierBytes := 83 |} true p0 [load] [1; 2; 3] [FilterAdd [4]]) as (p1 & E & H).
  { right. reflexivity. }
  exists p1. split; [exact E|]. apply H; [by vm_compute| |reflexivity]. vm_compute in E. injection E as <-. by eexists.
Defined.

Definition demo_filter : CBloomFilter :=
  {| vData := [255; 0; 255; 255; 255; 255; 255; 255]; isFull := false; isEmpty := false; nHashFuncs := 2; nTweak := 0; nFlags := 1 |}.
Definition demo_out : CTxOut := {| nValue := 5; scriptPubKey := [3; 1; 2; 3; 172] |}.
Definition bloom_tx : CTransaction := {| tx_fOverwintered := true; tx_nVersion := 4; tx_nVersionGroupId := 0; tx_vin := []; tx_vout := [demo_out];
  tx_nLockTime := 0; tx_nExpiryHeight := 0; tx_valueBalance := 0; tx_vShieldedSpend := []; tx_vShieldedOutput := []; tx_bindingSig := [] |}.

Lemma spends_are_relevant_witness :
  exists g, IsRelevantAndUpdate {| datacarrier := true; nMaxDatacarrierBytes := 83 |} demo_filter bloom_tx (replicate 32 9) = Ok (true, g).
Proof.
  destruct (spends_are_relevant {| datacarrier := true; nMaxDatacarrierBytes := 83 |} demo_filter bloom_tx (replicate 32 9) 0 demo_out) as (g & E & _);
    [right; discriminate|reflexivity..|]. exists g. exact E.
Defined.

Lemma rolling_keeps_last_witness :
  exists r, foldl (fun r k => let? r := r in rolling_insert r k) (Ok (new_rolling 2 64 3 77)) [[1]; [2]; [3]; [4]; [5]] = Ok r /\
    rolling_contains r [4] = Ok true.
Proof.
  destruct (rolling_keeps_last 2 64 3 77 [[1]; [2]; [3]; [4]; [5]]) as (r & E & H); [lia|lia|]. exists r. split; [exact E|].
  apply H. right. left. reflexivity.
Defined.
