(* ===== verification/Mempool.v ===== *)
(** * The memory pool

    [CTxMemPool] of [txmempool.cpp]: the transactions, the index of the outpoints they spend,
    the index of their nullifiers, the totals and the notifications of the trackers.  A pointer
    to a transaction of the pool is the hash of the entry it points into; following it after the
    entry is gone is the failure [dangling_pointer].  Addition, removal with and without
    descendants, and the removals at a new block, a reorganisation, an expiry and an upgrade.
    The indexes of the block explorer are left out, and the fee estimator is a tracker. *)

From stdpp Require Import gmap.
From S2P Require Import Prelude Interpreter Compressor Amount Coins CoinsView Transaction ChainState TxChecks.

(** ** State *)

(** [dPriority], a floating-point number, is left out. *)
Record CTxMemPoolEntry := {
  e_tx : CTransaction;
  e_nFee : Z;
  e_nTxSize : Z;
  e_nModSize : Z;
  e_nUsageSize : Z;
  e_feeRate : Z;
  e_nTime : Z;
  e_nHeight : Z;
  e_hadNoDependencies : bool;
  e_spendsCoinbase : bool;
  e_nBranchId : Z
}.

(** What the trackers are told. *)
Inductive pool_notice := TxAdded (txid : bytes) | TxRemoved (txid : bytes).

Record CTxMemPool := {
  mapTx : gmap bytes CTxMemPoolEntry;
  mapNextTx : gmap (bytes * Z) (bytes * Z);      (* outpoint to [CInPoint] *)
  mapNullifiers : gmap bytes bytes;
  mapDeltas : gmap bytes Z;                      (* fee deltas *)
  totalTxSize : Z;
  cachedInnerUsage : Z;
  nTransactionsUpdated : Z;
  notices : list pool_notice
}.

Inductive pool_fail : Set :=
| dangling_pointer
| unknown_shielded_type       (* the exception of [removeWithAnchor] *)
| missing_coins               (* the assertion of [removeForReorg] *)
| out_of_fuel.                (* the bound on the rounds of [remove], never reached *)

Definition empty_pool : CTxMemPool :=
  {| mapTx := ∅; mapNextTx := ∅; mapNullifiers := ∅; mapDeltas := ∅; totalTxSize := 0; cachedInnerUsage := 0;
     nTransactionsUpdated := 0; notices := [] |}.

Section Mempool.
Context `{Crypto}.

Definition exists_tx (p : CTxMemPool) (txid : bytes) : bool := bool_decide (is_Some (mapTx p !! txid)).
Definition lookup_tx (p : CTxMemPool) (txid : bytes) : option (CTransaction * Z) :=
  (fun e => (e_tx e, e_nHeight e)) <$> mapTx p !! txid.

(** [addUnchecked]: the loops over the inputs and over the shielded spends. *)
Definition add_inputs (m : gmap (bytes * Z) (bytes * Z)) (txid : bytes) (outs : list (bytes * Z)) : gmap (bytes * Z) (bytes * Z) :=
  (foldl (fun '(m, i) o => (<[o := (txid, i)]> m, i + 1)) (m, 0) outs).1.
Definition add_nullifiers (m : gmap bytes bytes) (txid : bytes) (nfs : list bytes) : gmap bytes bytes :=
  foldl (fun m nf => <[nf := txid]> m) m nfs.

Definition addUnchecked (p : CTxMemPool) (hash : bytes) (entry : CTxMemPoolEntry) : res pool_fail CTxMemPool :=
  let mapTx' := match mapTx p !! txid (e_tx entry) with Some _ => mapTx p | None => <[txid (e_tx entry) := entry]> (mapTx p) end in
  match mapTx' !! hash with
  | None => Err dangling_pointer
  | Some stored =>
      Ok {| mapTx := mapTx';
            mapNextTx := add_inputs (mapNextTx p) hash (prevouts (e_tx stored));
            mapNullifiers := add_nullifiers (mapNullifiers p) hash (nullifiers (e_tx stored));
            mapDeltas := mapDeltas p;
            totalTxSize := u64 (totalTxSize p + e_nTxSize entry);
            cachedInnerUsage := u64 (cachedInnerUsage p + e_nUsageSize entry);
            nTransactionsUpdated := u32 (nTransactionsUpdated p + 1);
            notices := notices p ++ [TxAdded (txid (e_tx entry))] |}
  end.

(** Following [CInPoint::ptx]. *)
Definition deref_tx (p : CTxMemPool) (ptx : bytes) : res pool_fail CTransaction :=
  match mapTx p !! ptx with Some e => Ok (e_tx e) | None => Err dangling_pointer end.

(** The hashes of the transactions in the pool that spend an output of [hash], from output [i],
    [n] of them left. *)
Fixpoint children (p : CTxMemPool) (hash : bytes) (n : nat) (i : Z) : res pool_fail (list bytes) :=
  match n with
  | O => Ok []
  | S n =>
      match mapNextTx p !! (hash, i) with
      | None => children p hash n (i + 1)
      | Some (ptx, _) =>
          let? tx := deref_tx p ptx in
          let? cs := children p hash n (i + 1) in
          Ok (txid tx :: cs)
      end
  end.

(** The erasure of one entry from the maps and totals. *)
Definition erase_entry (p : CTxMemPool) (hash : bytes) (e : CTxMemPoolEntry) : CTxMemPool :=
  {| mapTx := delete hash (mapTx p);
     mapNextTx := foldl (fun m o => delete o m) (mapNextTx p) (prevouts (e_tx e));
     mapNullifiers := foldl (fun m nf => delete nf m) (mapNullifiers p) (nullifiers (e_tx e));
     mapDeltas := mapDeltas p;
     totalTxSize := u64 (totalTxSize p - e_nTxSize e);
     cachedInnerUsage := u64 (cachedInnerUsage p - e_nUsageSize e);
     nTransactionsUpdated := u32 (nTransactionsUpdated p + 1);
     notices := notices p ++ [TxRemoved hash] |}.

(** The loop over the queue of transactions to remove. *)
Fixpoint remove_loop (fuel : nat) (p : CTxMemPool) (txToRemove : list bytes) (fRecursive : bool) (removed : list CTransaction)
  : res pool_fail (CTxMemPool * list CTransaction) :=
  match txToRemove with
  | [] => Ok (p, removed)
  | hash :: txToRemove =>
      match fuel with
      | O => Err out_of_fuel
      | S fuel =>
          match mapTx p !! hash with
          | None => remove_loop fuel p txToRemove fRecursive removed
          | Some e =>
              let? more := (if fRecursive then children p hash (length (tx_vout (e_tx e))) 0 else Ok []) in
              remove_loop fuel (erase_entry p hash e) (txToRemove ++ more) fRecursive (removed ++ [e_tx e])
          end
      end
  end.

(** Enough rounds: a round takes an element off the queue, and an entry is put onto the queue
    at most once for each output of an entry that leaves the pool. *)
Definition pool_weight (m : gmap bytes CTxMemPoolEntry) : nat :=
  map_fold (fun _ e n => S (length (tx_vout (e_tx e))) + n)%nat O m.

Definition remove (p : CTxMemPool) (origTx : CTransaction) (fRecursive : bool) : res pool_fail (CTxMemPool * list CTransaction) :=
  let hash := txid origTx in
  let? more := (if fRecursive && negb (exists_tx p hash) then children p hash (length (tx_vout origTx)) 0 else Ok []) in
  let queue := hash :: more in
  remove_loop (length queue + pool_weight (mapTx p)) p queue fRecursive [].

Fixpoint remove_all (p : CTxMemPool) (txs : list CTransaction) : res pool_fail CTxMemPool :=
  match txs with
  | [] => Ok p
  | tx :: txs => let? r := remove p tx true in remove_all r.1 txs
  end.

(** The transactions of the pool, in some order. *)
Definition pool_entries (p : CTxMemPool) : list CTxMemPoolEntry := (map_to_list (mapTx p)).*2.

(** [removeForReorg]: the coins of the new tip by hash, and the state [CheckFinalTx] reads. *)
Fixpoint immature (p : CTxMemPool) (access_coins : bytes -> option CCoins) (nCheckFrequency nMemPoolHeight : Z) (vin : list CTxIn)
  : res pool_fail bool :=
  match vin with
  | [] => Ok false
  | i :: vin =>
      if exists_tx p (op_hash (prevout i)) then immature p access_coins nCheckFrequency nMemPoolHeight vin
      else
        let coins := access_coins (op_hash (prevout i)) in
        check (nCheckFrequency =? 0) || bool_decide (is_Some coins) else missing_coins ;;
        if match coins with None => true | Some c => fCoinBase c && (nMemPoolHeight - nHeight c <? COINBASE_MATURITY) end
        then Ok true
        else immature p access_coins nCheckFrequency nMemPoolHeight vin
  end.

Fixpoint reorg_victims (p : CTxMemPool) (access_coins : bytes -> option CCoins) (nCheckFrequency nMemPoolHeight : Z)
    (final : CTransaction -> bool) (es : list CTxMemPoolEntry) : res pool_fail (list CTransaction) :=
  match es with
  | [] => Ok []
  | e :: es =>
      let? now := (if negb (final (e_tx e)) then Ok true
                   else if e_spendsCoinbase e then immature p access_coins nCheckFrequency nMemPoolHeight (tx_vin (e_tx e))
                   else Ok false) in
      let? l := reorg_victims p access_coins nCheckFrequency nMemPoolHeight final es in
      Ok (if now : bool then e_tx e :: l else l)
  end.

Definition removeForReorg (p : CTxMemPool) (access_coins : bytes -> option CCoins) (nCheckFrequency nMemPoolHeight flags : Z)
    (chain_height median_time adjusted_time : Z) : res pool_fail CTxMemPool :=
  let? l := reorg_victims p access_coins nCheckFrequency nMemPoolHeight
              (fun tx => CheckFinalTx tx flags chain_height median_time adjusted_time) (pool_entries p) in
  remove_all p l.

Definition removeWithAnchor (p : CTxMemPool) (invalidRoot : bytes) (type : ShieldedType) : res pool_fail CTxMemPool :=
  match type with
  | SAPLING =>
      remove_all p (map e_tx (List.filter (fun e => existsb (fun s => bytes_eqb (sd_anchor s) invalidRoot) (tx_vShieldedSpend (e_tx e))) (pool_entries p)))
  | SPROUT => match pool_entries p with [] => Ok p | _ => Err unknown_shielded_type end
  end.

(** [removeConflicts]: through the outpoints, then through the nullifiers. *)
Definition remove_conflict (p : CTxMemPool) (ptx : option bytes) (tx : CTransaction) : res pool_fail (CTxMemPool * list CTransaction) :=
  match ptx with
  | None => Ok (p, [])
  | Some ptx =>
      let? txConflict := deref_tx p ptx in
      if bytes_eqb (txid txConflict) (txid tx) then Ok (p, []) else remove p txConflict true
  end.

Fixpoint conflicts_loop {K : Type} (find : CTxMemPool -> K -> option bytes) (p : CTxMemPool) (keys : list K) (tx : CTransaction)
    (removed : list CTransaction) : res pool_fail (CTxMemPool * list CTransaction) :=
  match keys with
  | [] => Ok (p, removed)
  | k :: keys =>
      let? r := remove_conflict p (find p k) tx in
      conflicts_loop find r.1 keys tx (removed ++ r.2)
  end.

Definition next_tx (p : CTxMemPool) (o : bytes * Z) : option bytes := fst <$> mapNextTx p !! o.
Definition nullifier_tx (p : CTxMemPool) (nf : bytes) : option bytes := mapNullifiers p !! nf.

Definition removeConflicts (p : CTxMemPool) (tx : CTransaction) (removed : list CTransaction) : res pool_fail (CTxMemPool * list CTransaction) :=
  let? r := conflicts_loop next_tx p (prevouts tx) tx removed in
  conflicts_loop nullifier_tx r.1 (nullifiers tx) tx r.2.

Definition removeExpired (p : CTxMemPool) (nBlockHeight : Z) : res pool_fail CTxMemPool :=
  remove_all p (map e_tx (List.filter (fun e => IsExpiredTx (e_tx e) nBlockHeight) (pool_entries p))).

Definition ClearPrioritization (p : CTxMemPool) (hash : bytes) : CTxMemPool :=
  {| mapTx := mapTx p; mapNextTx := mapNextTx p; mapNullifiers := mapNullifiers p; mapDeltas := delete hash (mapDeltas p);
     totalTxSize := totalTxSize p; cachedInnerUsage := cachedInnerUsage p; nTransactionsUpdated := nTransactionsUpdated p; notices := notices p |}.

Definition PrioritizeTransaction (p : CTxMemPool) (hash : bytes) (nFeeDelta : Z) : CTxMemPool :=
  {| mapTx := mapTx p; mapNextTx := mapNextTx p; mapNullifiers := mapNullifiers p;
     mapDeltas := <[hash := s64 (default 0 (mapDeltas p !! hash) + nFeeDelta)]> (mapDeltas p);
     totalTxSize := totalTxSize p; cachedInnerUsage := cachedInnerUsage p; nTransactionsUpdated := nTransactionsUpdated p; notices := notices p |}.

Definition ApplyDeltas (p : CTxMemPool) (hash : bytes) (nFeeDelta : Z) : Z :=
  match mapDeltas p !! hash with None => nFeeDelta | Some d => s64 (nFeeDelta + d) end.

(** [removeForBlock] without the fee estimator's processing of the block. *)
Fixpoint removeForBlock (p : CTxMemPool) (vtx : list CTransaction) (conflicts : list CTransaction)
  : res pool_fail (CTxMemPool * list CTransaction) :=
  match vtx with
  | [] => Ok (p, conflicts)
  | tx :: vtx =>
      let? r := remove p tx false in
      let? r := removeConflicts r.1 tx conflicts in
      removeForBlock (ClearPrioritization r.1 (txid tx)) vtx r.2
  end.

Definition removeWithoutBranchId (p : CTxMemPool) (nMemPoolBranchId : Z) : res pool_fail CTxMemPool :=
  remove_all p (map e_tx (List.filter (fun e => negb (e_nBranchId e =? nMemPoolBranchId)) (pool_entries p))).

Definition clear_pool (p : CTxMemPool) : CTxMemPool :=
  {| mapTx := ∅; mapNextTx := ∅; mapNullifiers := mapNullifiers p; mapDeltas := mapDeltas p; totalTxSize := 0; cachedInnerUsage := 0;
     nTransactionsUpdated := u32 (nTransactionsUpdated p + 1); notices := notices p |}.

(** [pruneSpent]: the outputs of [hash] that the pool spends, in the order of the index. *)
Definition pruneSpent (p : CTxMemPool) (hash : bytes) (coins : CCoins) : CCoins :=
  foldl (fun c '(o, _) => if bool_decide (o.1 = hash) then snd (Spend c (o.2)) else c) coins (map_to_list (mapNextTx p)).

Definition HasNoInputsOf (p : CTxMemPool) (tx : CTransaction) : bool := forallb (fun i => negb (exists_tx p (op_hash (prevout i)))) (tx_vin tx).

Definition nullifierExists (p : CTxMemPool) (nf : bytes) (type : ShieldedType) : res pool_fail bool :=
  match type with SAPLING => Ok (bool_decide (is_Some (mapNullifiers p !! nf))) | SPROUT => Err unknown_shielded_type end.
End Mempool.
