(* ===== verification/MempoolProps.v ===== *)
(** * Properties of the memory pool

    The pool's invariant, kept by every operation: the index of outpoints and the index of
    nullifiers list exactly what the transactions of the pool spend, so that no two of them
    conflict; the totals are those of the entries; and a tracker that follows its notifications
    knows the pool.  Removing a transaction removes exactly its descendants. *)

From stdpp Require Import gmap relations.
From S2P Require Import Prelude Script Interpreter InterpreterSafety Compressor Amount Coins CoinsView Transaction ChainState TxChecks Mempool.

Section MempoolProps.
Context `{Crypto}.

Implicit Types p : CTxMemPool.

(** ** The invariant *)

Definition pool_sum (f : CTxMemPoolEntry -> Z) (m : gmap bytes CTxMemPoolEntry) : Z := map_fold (fun _ e n => f e + n) 0 m.

(** What a tracker knows: the transactions it was told of and not told to forget. *)
Definition tracked (l : list pool_notice) : gset bytes :=
  foldl (fun s n => match n with TxAdded h => {[h]} ∪ s | TxRemoved h => s ∖ {[h]} end) ∅ l.

Record pool_ok p : Prop := {
  po_key : forall h e, mapTx p !! h = Some e -> txid (e_tx e) = h;
  po_next : forall o h n, mapNextTx p !! o = Some (h, n) <->
    exists e i, mapTx p !! h = Some e /\ prevouts (e_tx e) !! i = Some o /\ n = Z.of_nat i;
  po_null : forall nf h, mapNullifiers p !! nf = Some h <-> exists e, mapTx p !! h = Some e /\ nf ∈ nullifiers (e_tx e);
  po_size : totalTxSize p = u64 (pool_sum e_nTxSize (mapTx p));
  po_usage : cachedInnerUsage p = u64 (pool_sum e_nUsageSize (mapTx p));
  po_tracked : tracked (notices p) = dom (mapTx p)
}.

(** ** Sums and weights *)

Lemma pool_sum_insert f m h e : m !! h = None -> pool_sum f (<[h := e]> m) = f e + pool_sum f m.
Proof. intros Hn. unfold pool_sum. rewrite map_fold_insert_L; [done| |done]. intros. lia. Qed.
Lemma pool_sum_delete f m h e : m !! h = Some e -> pool_sum f m = f e + pool_sum f (delete h m).
Proof. intros He. rewrite <- (insert_delete_id m h e) at 1 by done. apply pool_sum_insert, lookup_delete_eq. Qed.
Lemma pool_weight_delete m h e : m !! h = Some e -> pool_weight m = (S (length (tx_vout (e_tx e))) + pool_weight (delete h m))%nat.
Proof.
  intros He. rewrite <- (insert_delete_id m h e) at 1 by done. unfold pool_weight. rewrite map_fold_insert_L; [done| |apply lookup_delete_eq].
  intros. lia.
Qed.

(** ** The loops over inputs and nullifiers *)

Lemma foldl_delete {K} `{Countable K} {A} (l : list K) (m : gmap K A) k :
  foldl (fun m k => delete k m) m l !! k = if decide (k ∈ l) then None else m !! k.
Proof.
  revert m. induction l as [|x l IH]; intros m; cbn [foldl]; [by rewrite decide_False by set_solver|].
  rewrite IH. destruct (decide (k ∈ l)); [by rewrite decide_True by set_solver|].
  destruct (decide (k = x)) as [->|Hne]; [by rewrite lookup_delete_eq, decide_True by set_solver|].
  by rewrite lookup_delete_ne, decide_False by set_solver.
Qed.

Lemma foldl_insert_const {K} `{Countable K} {A} (a : A) (l : list K) (m : gmap K A) k :
  foldl (fun m k => <[k := a]> m) m l !! k = if decide (k ∈ l) then Some a else m !! k.
Proof.
  revert m. induction l as [|x l IH]; intros m; cbn [foldl]; [by rewrite decide_False by set_solver|].
  rewrite IH. destruct (decide (k ∈ l)); [by rewrite decide_True by set_solver|].
  destruct (decide (k = x)) as [->|Hne]; [by rewrite lookup_insert_eq, decide_True by set_solver|].
  by rewrite lookup_insert_ne, decide_False by set_solver.
Qed.

Lemma add_inputs_spec m h outs o r : NoDup outs ->
  add_inputs m h outs !! o = Some r <->
  ((exists i, outs !! i = Some o /\ r = (h, Z.of_nat i)) \/ ((o ∉ outs) /\ m !! o = Some r)).
Proof.
  intros Hd. unfold add_inputs.
  assert (forall k (m : gmap (bytes * Z) (bytes * Z)), (foldl (fun '(m, i) o => (<[o := (h, i)]> m, i + 1)) (m, k) outs).1 !! o = Some r <->
    ((exists i, outs !! i = Some o /\ r = (h, k + Z.of_nat i)) \/ ((o ∉ outs) /\ m !! o = Some r))) as Hk.
  { induction outs as [|x outs IH]; intros k m'; cbn [foldl].
    - split; [intros E; right; split; [set_solver|done]|]. intros [(i & E & _)|[_ E]]; [done|done].
    - apply NoDup_cons in Hd as [Hx Hd]. rewrite IH by done. split.
      + intros [(i & Ei & ->)|[Ho E]].
        * left. exists (S i). split; [done|]. f_equal. lia.
        * destruct (decide (o = x)) as [->|Hne].
          -- rewrite lookup_insert_eq in E. injection E as <-. left. exists O. split; [done|]. f_equal. lia.
          -- rewrite lookup_insert_ne in E by done. right. split; [set_solver|done].
      + intros [(i & Ei & ->)|[Ho E]].
        * destruct i as [|i].
          -- injection Ei as ->. right. split; [done|]. rewrite lookup_insert_eq. do 2 f_equal. lia.
          -- left. exists i. split; [done|]. f_equal. lia.
        * right. apply not_elem_of_cons in Ho as [Hne Ho]. split; [done|]. by rewrite lookup_insert_ne. }
  rewrite Hk. done.
Qed.

Lemma tracked_app l n : tracked (l ++ [n]) = match n with TxAdded h => {[h]} ∪ tracked l | TxRemoved h => tracked l ∖ {[h]} end.
Proof. unfold tracked. by rewrite foldl_app. Qed.

Lemma u64_add_l a b : u64 (u64 a + b) = u64 (a + b).
Proof. unfold u64. apply Zplus_mod_idemp_l. Qed.
Lemma u64_sub_l a b : u64 (u64 a - b) = u64 (a - b).
Proof. unfold u64. apply Zminus_mod_idemp_l. Qed.

(** ** Addition and erasure *)

(** What the acceptance checks establish before [addUnchecked]. *)
Record can_add p (tx : CTransaction) : Prop := {
  ca_new : mapTx p !! txid tx = None;
  ca_inputs : NoDup (prevouts tx);
  ca_free : forall o, o ∈ prevouts tx -> mapNextTx p !! o = None;
  ca_nullifiers : forall nf, nf ∈ nullifiers tx -> mapNullifiers p !! nf = None
}.

Lemma addUnchecked_ok p e : pool_ok p -> can_add p (e_tx e) ->
  exists p', addUnchecked p (txid (e_tx e)) e = Ok p' /\ pool_ok p' /\ mapTx p' = <[txid (e_tx e) := e]> (mapTx p).
Proof.
  intros [Hk Hn Hz Hs Hu Ht] [Hnew Hin Hfree Hnull]. unfold addUnchecked. rewrite Hnew, lookup_insert_eq.
  eexists. split; [done|]. split; [|done]. split; cbn [mapTx mapNextTx mapNullifiers totalTxSize cachedInnerUsage notices].
  - intros h e'. rewrite lookup_insert_Some. intros [[<- ->]|[_ E]]; [done|by apply Hk].
  - intros o h n. rewrite add_inputs_spec by done. split.
    + intros [(i & Ei & [= -> ->])|[Ho E]].
      * exists e, i. by rewrite lookup_insert_eq.
      * apply Hn in E as (e' & i & E & Ei & ->). exists e', i. split; [|done]. rewrite lookup_insert_ne; [done|]. intros <-. congruence.
    + intros (e' & i & E & Ei & ->). rewrite lookup_insert_Some in E. destruct E as [[<- ->]|[_ E]]; [left; by exists i|].
      right. assert (mapNextTx p !! o = Some (h, Z.of_nat i)) as Eo by (apply Hn; by exists e', i). split; [|done].
      intros Ho. rewrite (Hfree o Ho) in Eo. done.
  - intros nf h. unfold add_nullifiers. rewrite foldl_insert_const. destruct (decide (nf ∈ nullifiers (e_tx e))) as [Hin'|Hni].
    + split; [intros [= <-]; exists e; by rewrite lookup_insert_eq|]. intros (e' & E & Hnf). rewrite lookup_insert_Some in E.
      destruct E as [[<- _]|[_ E]]; [done|]. assert (mapNullifiers p !! nf = Some h) as Ex by (apply Hz; by exists e'). rewrite Hnull in Ex by done. done.
    + rewrite Hz. split; intros (e' & E & Hnf).
      * exists e'. split; [|done]. rewrite lookup_insert_ne; [done|]. intros <-. congruence.
      * rewrite lookup_insert_Some in E. destruct E as [[_ ->]|[_ E]]; [done|by exists e'].
  - rewrite pool_sum_insert by done. rewrite Hs, u64_add_l. f_equal. lia.
  - rewrite pool_sum_insert by done. rewrite Hu, u64_add_l. f_equal. lia.
  - rewrite tracked_app, Ht. by rewrite dom_insert_L.
Qed.

Lemma erase_ok p h e : pool_ok p -> mapTx p !! h = Some e -> pool_ok (erase_entry p h e).
Proof.
  intros [Hk Hn Hz Hs Hu Ht] He. split; cbn [mapTx mapNextTx mapNullifiers totalTxSize cachedInnerUsage notices erase_entry].
  - intros h' e'. rewrite lookup_delete_Some. intros [_ E]. by apply Hk.
  - intros o h' n. rewrite foldl_delete. destruct (decide (o ∈ prevouts (e_tx e))) as [Ho|Ho].
    + split; [done|]. intros (e' & i & E & Ei & ->). rewrite lookup_delete_Some in E. destruct E as [Hne E].
      apply list_elem_of_lookup in Ho as [j Ej].
      assert (mapNextTx p !! o = Some (h, Z.of_nat j)) as E1 by (apply Hn; by exists e, j).
      assert (mapNextTx p !! o = Some (h', Z.of_nat i)) as E2 by (apply Hn; by exists e', i). congruence.
    + rewrite Hn. split; intros (e' & i & E & Ei & ->); exists e', i; rewrite lookup_delete_Some in *; [|naive_solver].
      split; [|done]. split; [|done]. intros <-. rewrite He in E. injection E as <-. by apply list_elem_of_lookup_2 in Ei.
  - intros nf h'. rewrite foldl_delete. destruct (decide (nf ∈ nullifiers (e_tx e))) as [Ho|Ho].
    + split; [done|]. intros (e' & E & Hnf). rewrite lookup_delete_Some in E. destruct E as [Hne E].
      assert (mapNullifiers p !! nf = Some h) as E1 by (apply Hz; by exists e).
      assert (mapNullifiers p !! nf = Some h') as E2 by (apply Hz; by exists e'). congruence.
    + rewrite Hz. split; intros (e' & E & Hnf); exists e'; rewrite lookup_delete_Some in *; [|naive_solver].
      split; [|done]. split; [|done]. intros <-. congruence.
  - rewrite (pool_sum_delete e_nTxSize _ _ _ He) in Hs. rewrite Hs, u64_sub_l. f_equal. lia.
  - rewrite (pool_sum_delete e_nUsageSize _ _ _ He) in Hu. rewrite Hu, u64_sub_l. f_equal. lia.
  - rewrite tracked_app, Ht. by rewrite dom_delete_L.
Qed.

(** ** Descendants *)

(** The outputs of a transaction of the pool, or of the one being removed. *)
Definition outputs_of p (root : CTransaction) (h : bytes) : Z :=
  match mapTx p !! h with Some e => zlen (tx_vout (e_tx e)) | None => zlen (tx_vout root) end.

(** The transaction [b] of the pool spends an output of [a]. *)
Definition child p (root : CTransaction) (a b : bytes) : Prop :=
  exists e i, mapTx p !! b = Some e /\ (a, i) ∈ prevouts (e_tx e) /\ 0 <= i < outputs_of p root a /\ (is_Some (mapTx p !! a) \/ a = txid root).

Definition descends p (root : CTransaction) : bytes -> Prop := rtc (child p root) (txid root).

Lemma next_entry p o h n : pool_ok p -> mapNextTx p !! o = Some (h, n) -> exists e, mapTx p !! h = Some e /\ o ∈ prevouts (e_tx e).
Proof. intros Hp E. apply (po_next p Hp) in E as (e & i & He & Ei & _). exists e. split; [done|]. by eapply list_elem_of_lookup_2. Qed.

Lemma entry_next p o h e : pool_ok p -> mapTx p !! h = Some e -> o ∈ prevouts (e_tx e) -> exists n, mapNextTx p !! o = Some (h, n).
Proof. intros Hp He Ho. apply list_elem_of_lookup in Ho as [i Ei]. exists (Z.of_nat i). apply (po_next p Hp). by exists e, i. Qed.

Lemma children_spec p h n i : pool_ok p -> exists cs, children p h n i = Ok cs /\ (length cs <= n)%nat /\
  forall c, c ∈ cs <-> exists j k, i <= j < i + Z.of_nat n /\ mapNextTx p !! (h, j) = Some (c, k).
Proof.
  intros Hp. revert i. induction n as [|n IH]; intros i; cbn [children].
  - exists []. split; [done|]. split; [done|]. intros c. split; [set_solver|]. intros (j & k & Hj & _). lia.
  - destruct (IH (i + 1)) as (cs & Ecs & Hlen & Hcs). destruct (mapNextTx p !! (h, i)) as [[c k]|] eqn:E.
    + destruct (next_entry p _ _ _ Hp E) as (e & He & _). unfold deref_tx. rewrite He. cbn [res_bind]. rewrite Ecs. cbn [res_bind].
      rewrite (po_key p Hp _ _ He). exists (c :: cs). split; [done|]. split; [cbn; lia|]. intros c'. rewrite elem_of_cons, Hcs. split.
      * intros [->|(j & k' & Hj & Ej)]; [exists i, k; split; [lia|done]|exists j, k'; split; [lia|done]].
      * intros (j & k' & Hj & Ej). destruct (Z.eq_dec j i) as [->|]; [left; congruence|right; exists j, k'; split; [lia|done]].
    + exists cs. split; [done|]. split; [lia|]. intros c. rewrite Hcs. split.
      * intros (j & k' & Hj & Ej). exists j, k'. split; [lia|done].
      * intros (j & k' & Hj & Ej). destruct (Z.eq_dec j i) as [->|]; [congruence|]. exists j, k'. split; [lia|done].
Qed.

(** The state of the loop: what has been removed descends from the root, and the children of
    what has been removed are gone or queued. *)
Record removing p0 (root : CTransaction) p (queue : list bytes) : Prop := {
  rm_ok : pool_ok p;
  rm_sub : mapTx p ⊆ mapTx p0;
  rm_queue : forall h, h ∈ queue -> descends p0 root h;
  rm_gone : forall h, is_Some (mapTx p0 !! h) -> mapTx p !! h = None -> descends p0 root h;
  rm_closed : forall a b, mapTx p !! a = None -> child p0 root a b -> mapTx p !! b = None \/ b ∈ queue
}.

(** One round that finds the entry. *)
Lemma removing_erase p0 root p h queue e cs : removing p0 root p (h :: queue) -> mapTx p !! h = Some e ->
  (forall c, c ∈ cs <-> exists j k, 0 <= j < 0 + Z.of_nat (length (tx_vout (e_tx e))) /\ mapNextTx p !! (h, j) = Some (c, k)) ->
  removing p0 root (erase_entry p h e) (queue ++ cs).
Proof.
  intros [Hok Hsub Hq Hg Hc] He Hcs. assert (mapTx p0 !! h = Some e) as He0 by (by eapply lookup_weaken).
  assert (descends p0 root h) as Hh by (apply Hq; set_solver).
  split; cbn [mapTx erase_entry].
  - by apply erase_ok.
  - etrans; [apply delete_subseteq|done].
  - intros c. rewrite elem_of_app. intros [Hin|Hin]; [apply Hq; set_solver|].
    apply Hcs in Hin as (j & k & Hj & Ej). destruct (next_entry p _ _ _ Hok Ej) as (ec & Hec & Hp).
    eapply rtc_r; [exact Hh|]. exists ec, j. split; [by eapply lookup_weaken|]. split; [done|]. split; [|by left; eexists].
    unfold outputs_of. rewrite He0. unfold zlen. lia.
  - intros x Hx Ex. rewrite lookup_delete_None in Ex. destruct Ex as [<-|Ex]; [done|by apply Hg].
  - intros a b Ha Hab. rewrite lookup_delete_None in Ha. setoid_rewrite lookup_delete_None. setoid_rewrite elem_of_app.
    destruct Ha as [<-|Ha].
    + destruct (mapTx p !! b) as [eb|] eqn:Eb; [|auto]. right. right. apply Hcs. destruct Hab as (eb' & i & Eb' & Hp & Hi & _).
      rewrite (lookup_weaken _ _ _ _ Eb Hsub) in Eb'. injection Eb' as <-.
      destruct (entry_next p _ _ _ Hok Eb Hp) as [k Ek]. exists i, k. split; [|done]. unfold outputs_of in Hi. rewrite He0 in Hi. unfold zlen in Hi. lia.
    + destruct (Hc a b Ha Hab) as [|Hin]; [auto|]. apply elem_of_cons in Hin as [->|]; [auto|auto].
Qed.

Lemma remove_loop_spec p0 root fuel p queue removed : removing p0 root p queue -> (length queue + pool_weight (mapTx p) <= fuel)%nat ->
  exists p' r, remove_loop fuel p queue true removed = Ok (p', r) /\ removing p0 root p' [] /\
    mapTx p' ⊆ mapTx p /\ forall h, h ∈ queue -> mapTx p' !! h = None.
Proof.
  revert p queue removed. induction fuel as [|fuel IH]; intros p queue removed Hr Hf.
  - destruct queue; [|cbn in Hf; lia]. exists p, removed. set_solver.
  - destruct queue as [|h queue]; [exists p, removed; set_solver|]. cbn [remove_loop]. destruct Hr as [Hok Hsub Hq Hg Hc].
    destruct (mapTx p !! h) as [e|] eqn:He.
    + destruct (children_spec p h (length (tx_vout (e_tx e))) 0 Hok) as (cs & -> & Hlen & Hcs). cbn [res_bind].
      destruct (IH (erase_entry p h e) (queue ++ cs) (removed ++ [e_tx e])) as (p' & r & E & Hr & Hsub' & Hq').
      * eapply removing_erase; [by split|done|done].
      * cbn [mapTx erase_entry]. rewrite (pool_weight_delete _ _ _ He) in Hf. rewrite length_app. cbn [length] in Hf. lia.
      * exists p', r. split; [done|]. split; [done|]. split; [etrans; [exact Hsub'|apply delete_subseteq]|].
        intros x Hx. apply elem_of_cons in Hx as [->|Hx]; [|apply Hq'; set_solver].
        apply (lookup_weaken_None _ _ _ (lookup_delete_eq (mapTx p) h) Hsub').
    + destruct (IH p queue removed) as (p' & r & E & Hr & Hsub' & Hq'); [|cbn [length] in Hf; lia|].
      * split; [done|done| |done|].
        -- intros x Hx. apply Hq. set_solver.
        -- intros a b Ha Hab. destruct (Hc a b Ha Hab) as [|Hin]; [by left|]. apply elem_of_cons in Hin as [->|]; [by left|by right].
      * exists p', r. split; [done|]. split; [done|]. split; [done|]. intros x Hx. apply elem_of_cons in Hx as [->|Hx]; [|by apply Hq'].
        by eapply lookup_weaken_None.
Qed.

(** What is left after removing the descendants of [root]. *)
Record without p root p' : Prop := {
  wo_ok : pool_ok p';
  wo_left : forall h e, mapTx p' !! h = Some e <-> mapTx p !! h = Some e /\ ~ descends p root h;
  wo_gone : forall h, is_Some (mapTx p !! h) -> mapTx p' !! h = None -> descends p root h
}.

Lemma removing_done p root p' : removing p root p' [] -> mapTx p' !! txid root = None -> without p root p'.
Proof.
  intros [Hok Hsub _ Hg Hc] Hroot. split; [done| |done]. intros h e. split.
  - intros E. split; [by eapply lookup_weaken|]. intros Hd. enough (mapTx p' !! h = None) by congruence.
    clear E. revert h Hd. apply rtc_ind_r; [done|]. intros a b _ Hab IH. destruct (Hc a b IH Hab) as [|Hin]; [done|set_solver].
  - intros [E Hnd]. destruct (mapTx p' !! h) as [e'|] eqn:E'; [|destruct Hnd; by apply Hg].
    rewrite (lookup_weaken _ _ _ _ E' Hsub) in E. congruence.
Qed.

Lemma remove_spec p tx : pool_ok p -> exists p' r, remove p tx true = Ok (p', r) /\ without p tx p'.
Proof.
  intros Hp. unfold remove. cbn [andb]. set (root := txid tx).
  set (n := if negb (exists_tx p root) then length (tx_vout tx) else O).
  destruct (children_spec p root n 0 Hp) as (cs & Ecs & _ & Hcs).
  assert ((if negb (exists_tx p root) then children p root (length (tx_vout tx)) 0 else Ok []) = Ok cs) as ->.
  { unfold n in *. destruct (negb (exists_tx p root)); [done|]. cbn in Ecs. done. }
  cbn [res_bind]. assert (removing p tx p (root :: cs)) as Hr.
  { split; [done|done| | |].
    - intros h. rewrite elem_of_cons. intros [->|Hin]; [apply rtc_refl|]. apply Hcs in Hin as (j & k & Hj & Ej).
      destruct (next_entry p _ _ _ Hp Ej) as (e & He & Ho). apply rtc_once. exists e, j. split; [done|]. split; [done|]. split; [|by right].
      unfold n, exists_tx in Hj. unfold outputs_of. fold root. destruct (mapTx p !! root) as [er|].
      + rewrite bool_decide_true in Hj by (by eexists). cbn in Hj. lia.
      + rewrite bool_decide_false in Hj by (by intros [? ?]). cbn in Hj. unfold zlen. lia.
    - intros h [e He] E. congruence.
    - intros a b Ha (e & i & He & Ho & Hi & Hroot). right. destruct Hroot as [[ea Ea]|Ea]; [congruence|]. subst a. fold root in Ha, Ho, Hi. rewrite elem_of_cons. right.
      apply Hcs. destruct (entry_next p _ _ _ Hp He Ho) as [k Ek]. exists i, k. split; [|done].
      unfold outputs_of in Hi. rewrite Ha in Hi. unfold n, exists_tx. rewrite Ha, bool_decide_false by (by intros [? ?]). cbn. unfold zlen in Hi. lia. }
  destruct (remove_loop_spec p tx _ p (root :: cs) [] Hr (Nat.le_refl _)) as (p' & r & E & Hr' & _ & Hq).
  exists p', r. split; [exact E|]. apply removing_done; [done|]. apply Hq. set_solver.
Qed.

(** ** Removing one transaction without its descendants *)

Lemma remove_loop_nil fuel p b r : remove_loop fuel p [] b r = Ok (p, r).
Proof. by destruct fuel. Qed.

Lemma remove_one p tx : pool_ok p -> exists p' r, remove p tx false = Ok (p', r) /\ pool_ok p' /\ mapTx p' = delete (txid tx) (mapTx p).
Proof.
  intros Hp. unfold remove. cbn [andb res_bind length Nat.add remove_loop]. destruct (mapTx p !! txid tx) as [e|] eqn:E.
  - cbn [res_bind app]. rewrite remove_loop_nil. eexists _, _. split; [done|]. split; [by apply erase_ok|done].
  - rewrite remove_loop_nil. eexists _, _. split; [done|]. split; [done|]. by rewrite delete_id.
Qed.

(** ** Smaller pools *)

Record shrinks p p' : Prop := { sh_ok : pool_ok p'; sh_sub : mapTx p' ⊆ mapTx p }.

Lemma shrinks_refl p : pool_ok p -> shrinks p p.
Proof. by split. Qed.
Lemma shrinks_trans p1 p2 p3 : shrinks p1 p2 -> shrinks p2 p3 -> shrinks p1 p3.
Proof. intros [_ H1] [Hok H2]. split; [done|]. by etrans. Qed.

Lemma without_shrinks p tx p' : without p tx p' -> shrinks p p'.
Proof. intros [Hok Hl _]. split; [done|]. apply map_subseteq_spec. intros h e He. by apply Hl in He as [He _]. Qed.

Lemma shrinks_gone p p' h : shrinks p p' -> mapTx p !! h = None -> mapTx p' !! h = None.
Proof. intros [_ Hs] E. by eapply lookup_weaken_None. Qed.

Lemma next_tx_spec p o h : pool_ok p -> next_tx p o = Some h <-> exists e, mapTx p !! h = Some e /\ o ∈ prevouts (e_tx e).
Proof.
  intros Hp. unfold next_tx. split.
  - destruct (mapNextTx p !! o) as [[h' n]|] eqn:E; [|done]. cbn. intros [= ->]. by eapply next_entry.
  - intros (e & He & Ho). destruct (entry_next p o h e Hp He Ho) as [n ->]. done.
Qed.

Lemma nullifier_tx_spec p nf h : pool_ok p -> nullifier_tx p nf = Some h <-> exists e, mapTx p !! h = Some e /\ nf ∈ nullifiers (e_tx e).
Proof. intros Hp. apply (po_null p Hp). Qed.

(** ** Removing several transactions of the pool *)

(** The transaction [b] of the pool spends an output of the transaction [a] of the pool. *)
Definition spends_in p (a b : bytes) : Prop :=
  exists ea eb i, mapTx p !! a = Some ea /\ mapTx p !! b = Some eb /\ (a, i) ∈ prevouts (e_tx eb) /\ 0 <= i < zlen (tx_vout (e_tx ea)).

Definition in_pool p (tx : CTransaction) : Prop := exists e, mapTx p !! txid tx = Some e /\ e_tx e = tx.

Lemma descends_in_pool p tx h : in_pool p tx -> descends p tx h <-> rtc (spends_in p) (txid tx) h.
Proof.
  intros (e & He & Et). assert (forall a b, child p tx a b <-> spends_in p a b) as Hc.
  { intros a b. unfold child, outputs_of. split.
    - intros (eb & i & Hb & Ho & Hi & Ha). assert (exists ea, mapTx p !! a = Some ea) as [ea Ea].
      { destruct Ha as [[ea Ea]|Ea]; [by exists ea|]. subst a. by exists e. }
      rewrite Ea in Hi. by exists ea, eb, i.
    - intros (ea & eb & i & Ea & Eb & Ho & Hi). exists eb, i. rewrite Ea. split; [done|]. split; [done|]. split; [done|]. left. by eexists. }
  unfold descends. clear He Et. split; intros Hr; induction Hr as [|a b c Hab _ IH]; try done; (eapply rtc_l; [by apply Hc|exact IH]).
Qed.

(** What has been removed from [p0] took its children along. *)
Record pruned p0 p : Prop := {
  pr_shrinks : shrinks p0 p;
  pr_closed : forall a b, spends_in p0 a b -> mapTx p !! a = None -> mapTx p !! b = None
}.

Lemma pruned_refl p : pool_ok p -> pruned p p.
Proof. intros Hp. split; [by apply shrinks_refl|]. intros a b (ea & _ & _ & Ea & _) E. congruence. Qed.

Lemma spends_in_sub p p' a b : mapTx p' ⊆ mapTx p -> spends_in p a b -> is_Some (mapTx p' !! a) -> is_Some (mapTx p' !! b) -> spends_in p' a b.
Proof.
  intros Hs (ea & eb & i & Ea & Eb & Ho & Hi) [ea' Ea'] [eb' Eb'].
  rewrite (lookup_weaken _ _ _ _ Ea' Hs) in Ea. rewrite (lookup_weaken _ _ _ _ Eb' Hs) in Eb. injection Ea as ->. injection Eb as ->. by exists ea, eb, i.
Qed.
Lemma spends_in_mono p p' a b : mapTx p' ⊆ mapTx p -> spends_in p' a b -> spends_in p a b.
Proof. intros Hs (ea & eb & i & Ea & Eb & Ho & Hi). exists ea, eb, i. by rewrite (lookup_weaken _ _ _ _ Ea Hs), (lookup_weaken _ _ _ _ Eb Hs). Qed.

Lemma pruned_trans p1 p2 p3 : pruned p1 p2 -> pruned p2 p3 -> pruned p1 p3.
Proof.
  intros [H1 C1] [H2 C2]. split; [by eapply shrinks_trans|]. intros a b Hab Ha.
  destruct (mapTx p2 !! b) as [eb|] eqn:Eb; [|by eapply shrinks_gone].
  destruct (mapTx p2 !! a) as [ea|] eqn:Ea; [|by rewrite (C1 a b Hab Ea) in Eb].
  apply (C2 a b); [|done]. apply (spends_in_sub p1); [apply H1|done|by eexists|by eexists].
Qed.

Lemma without_pruned p tx p' : without p tx p' -> pruned p p'.
Proof.
  intros Hw. split; [by eapply without_shrinks|]. intros a b Hab Ha. destruct (mapTx p' !! b) as [e|] eqn:Eb; [|done]. exfalso.
  apply (wo_left _ _ _ Hw) in Eb as [Eb Hnd]. destruct Hab as (ea & eb & i & Ea & Eb' & Ho & Hi). apply Hnd. eapply rtc_r.
  - apply (wo_gone _ _ _ Hw a); [by eexists|done].
  - exists eb, i. split; [done|]. split; [done|]. unfold outputs_of. rewrite Ea. split; [done|]. left. by eexists.
Qed.

Lemma pruned_descends p0 p tx h e : pruned p0 p -> in_pool p0 tx -> mapTx p !! h = Some e ->
  descends p tx h <-> rtc (spends_in p0) (txid tx) h.
Proof.
  intros [[_ Hs] Hc] (er & Her & Et) He. split.
  - intros Hd. apply (descends_in_pool p0); [by exists er|]. clear e He. revert h Hd. apply rtc_ind_r; [apply rtc_refl|].
    intros a b _ Hab IH. eapply rtc_r; [exact IH|]. destruct Hab as (eb & i & Hb & Ho & Hi & Ha). exists eb, i. split; [by eapply lookup_weaken|]. split; [done|].
    unfold outputs_of in *. destruct (mapTx p !! a) as [ea|] eqn:Ea.
    + rewrite (lookup_weaken _ _ _ _ Ea Hs). split; [done|]. left. by eexists.
    + destruct Ha as [[? ?]|Ea']; [done|]. rewrite <- Et in Hi. rewrite Ea', Her. split; [done|]. left. by eexists.
  - intros Hr. revert h Hr e He. apply (rtc_ind_r (fun h => forall e, mapTx p !! h = Some e -> descends p tx h)); [intros; apply rtc_refl|].
    intros a b _ Hab IH e He. destruct (mapTx p !! a) as [ea|] eqn:Ea; [|by rewrite (Hc a b Hab Ea) in He].
    eapply rtc_r; [by eapply IH|]. destruct Hab as (ea' & eb' & i & Ha & Hb & Ho & Hi).
    rewrite (lookup_weaken _ _ _ _ Ea Hs) in Ha. rewrite (lookup_weaken _ _ _ _ He Hs) in Hb. injection Ha as <-. injection Hb as <-.
    exists e, i. unfold outputs_of. rewrite Ea. split; [done|]. split; [done|]. split; [done|]. left. by eexists.
Qed.

Lemma pruned_without p0 p tx p' : pruned p0 p -> in_pool p0 tx -> without p tx p' -> pruned p0 p'.
Proof.
  intros Hpr Hin Hw. destruct (Hpr) as [Hsh Hc]. split; [eapply shrinks_trans; [exact Hsh|by eapply without_shrinks]|].
  intros a b Hab Ha. destruct (mapTx p' !! b) as [e|] eqn:Eb; [|done]. exfalso. apply (wo_left _ _ _ Hw) in Eb as [Eb Hnd].
  destruct (mapTx p !! a) as [ea|] eqn:Ea; [|by rewrite (Hc a b Hab Ea) in Eb]. apply Hnd.
  rewrite (pruned_descends p0 p tx b e) by done. eapply rtc_r; [|exact Hab]. rewrite <- (pruned_descends p0 p tx a ea) by done.
  apply (wo_gone _ _ _ Hw); [by eexists|done].
Qed.

Lemma remove_all_loop p0 p txs : pruned p0 p -> Forall (in_pool p0) txs -> exists p', remove_all p txs = Ok p' /\ pruned p0 p' /\
  forall h e, mapTx p' !! h = Some e <-> mapTx p !! h = Some e /\ forall tx, tx ∈ txs -> ~ rtc (spends_in p0) (txid tx) h.
Proof.
  revert p. induction txs as [|tx txs IH]; intros p Hpr Hin; cbn [remove_all].
  - exists p. split; [done|]. split; [done|]. intros h e. set_solver.
  - apply Forall_cons in Hin as [Htx Hin]. destruct (remove_spec p tx (sh_ok _ _ (pr_shrinks _ _ Hpr))) as (p1 & r & -> & Hw). cbn [res_bind fst].
    destruct (IH p1 (pruned_without _ _ _ _ Hpr Htx Hw) Hin) as (p' & E & Hpr' & Hl). exists p'. split; [done|]. split; [done|].
    intros h e. rewrite Hl, (wo_left _ _ _ Hw). split.
    + intros [[He Hnd] Ho]. split; [done|]. intros tx'. rewrite elem_of_cons. intros [->|Hin']; [|by apply Ho].
      by rewrite <- (pruned_descends p0 p tx h e).
    + intros [He Ho]. split; [split; [done|]|].
      * rewrite (pruned_descends p0 p tx h e) by done. apply Ho. set_solver.
      * intros tx' Hin'. apply Ho. set_solver.
Qed.

Lemma elem_of_pool_entries p e : e ∈ pool_entries p <-> exists h, mapTx p !! h = Some e.
Proof.
  unfold pool_entries. rewrite list_elem_of_fmap. split.
  - intros ([h e'] & -> & Hin). exists h. by apply elem_of_map_to_list in Hin.
  - intros [h He]. exists (h, e). split; [done|]. by apply elem_of_map_to_list.
Qed.

(** The entries that leave a pool when those that [bad] holds of are removed: they and their
    descendants, and nothing else. *)
Record dropped p (bad : CTxMemPoolEntry -> Prop) p' : Prop := {
  dr_pruned : pruned p p';
  dr_left : forall h e, mapTx p' !! h = Some e <->
    mapTx p !! h = Some e /\ forall a ea, mapTx p !! a = Some ea -> bad ea -> ~ rtc (spends_in p) a h
}.

Lemma remove_all_spec p (bad : CTxMemPoolEntry -> Prop) l : pool_ok p ->
  (forall tx, tx ∈ l <-> exists e, e ∈ pool_entries p /\ e_tx e = tx /\ bad e) ->
  exists p', remove_all p l = Ok p' /\ dropped p bad p'.
Proof.
  intros Hp Hl. destruct (remove_all_loop p p l (pruned_refl p Hp)) as (p' & E & Hpr & Hd).
  - apply Forall_forall. intros tx (e & [h He]%elem_of_pool_entries & <- & _)%Hl. exists e. by rewrite (po_key p Hp _ _ He).
  - exists p'. split; [done|]. split; [done|]. intros h e. rewrite Hd. split.
    + intros [He Ho]. split; [done|]. intros a ea Ha Hb. rewrite <- (po_key p Hp _ _ Ha). apply Ho, Hl. exists ea. split; [|done].
      apply elem_of_pool_entries. by exists a.
    + intros [He Ho]. split; [done|]. intros tx (ea & [a Ha]%elem_of_pool_entries & <- & Hb)%Hl. rewrite (po_key p Hp _ _ Ha). by eapply Ho.
Qed.

Lemma dropped_bad p bad p' h e : dropped p bad p' -> mapTx p' !! h = Some e -> ~ bad e.
Proof. intros [_ Hl] He Hb. destruct (proj1 (Hl h e) He) as [He0 Ho]. by apply (Ho h e He0 Hb), rtc_refl. Qed.

Lemma filter_entries p (f : CTxMemPoolEntry -> bool) tx :
  tx ∈ map e_tx (List.filter f (pool_entries p)) <-> exists e, e ∈ pool_entries p /\ e_tx e = tx /\ f e = true.
Proof.
  rewrite list_elem_of_In, in_map_iff. setoid_rewrite filter_In. setoid_rewrite list_elem_of_In. naive_solver.
Qed.

Lemma remove_filter p (f : CTxMemPoolEntry -> bool) : pool_ok p ->
  exists p', remove_all p (map e_tx (List.filter f (pool_entries p))) = Ok p' /\ dropped p (fun e => f e = true) p'.
Proof. intros Hp. apply remove_all_spec; [done|]. apply filter_entries. Qed.

(** ** Conflicts with a transaction of a block *)

Lemma remove_conflict_spec p ptx tx : pool_ok p -> mapTx p !! txid tx = None -> (forall h, ptx = Some h -> is_Some (mapTx p !! h)) ->
  exists p' r, remove_conflict p ptx tx = Ok (p', r) /\ pruned p p' /\ (forall h, ptx = Some h -> mapTx p' !! h = None).
Proof.
  intros Hp Hn Hs. destruct ptx as [h|]; cbn [remove_conflict]; [|exists p, []; split; [done|]; split; [by apply pruned_refl|done]].
  destruct (Hs h eq_refl) as [e He]. unfold deref_tx. rewrite He. cbn [res_bind]. rewrite (po_key p Hp _ _ He).
  unfold bytes_eqb. rewrite bool_decide_false by congruence. destruct (remove_spec p (e_tx e) Hp) as (p' & r & -> & Hw).
  exists p', r. split; [done|]. split; [by eapply without_pruned|]. intros h' [= <-]. destruct (mapTx p' !! h) as [e'|] eqn:E; [|done].
  exfalso. apply (wo_left _ _ _ Hw) in E as [_ Hnd]. apply Hnd. unfold descends. rewrite (po_key p Hp _ _ He). apply rtc_refl.
Qed.

(** An index of the pool: the transaction that holds a key. *)
Definition index_ok {K : Type} (find : CTxMemPool -> K -> option bytes) (keys_of : CTransaction -> list K) : Prop :=
  forall p k h, pool_ok p -> find p k = Some h <-> exists e, mapTx p !! h = Some e /\ k ∈ keys_of (e_tx e).

Lemma index_gone {K} (find : CTxMemPool -> K -> option bytes) keys_of p p' k : index_ok find keys_of -> pool_ok p -> shrinks p p' ->
  find p k = None \/ (exists h, find p k = Some h /\ mapTx p' !! h = None) -> find p' k = None.
Proof.
  intros Hi Hp [Hok Hs] Hk. destruct (find p' k) as [h|] eqn:E; [|done]. exfalso. apply (Hi p' k h Hok) in E as (e & He & Hin).
  assert (find p k = Some h) as E by (apply Hi; [done|]; exists e; split; [by eapply lookup_weaken|done]).
  destruct Hk as [Hn|(h' & E' & Hn)]; congruence.
Qed.

Lemma conflicts_loop_spec {K} (find : CTxMemPool -> K -> option bytes) keys_of p keys tx removed : index_ok find keys_of ->
  pool_ok p -> mapTx p !! txid tx = None ->
  exists p' r, conflicts_loop find p keys tx removed = Ok (p', r) /\ pruned p p' /\ forall k, k ∈ keys -> find p' k = None.
Proof.
  intros Hi. revert p removed. induction keys as [|k keys IH]; intros p removed Hp Hn; cbn [conflicts_loop].
  { exists p, removed. split; [done|]. split; [by apply pruned_refl|set_solver]. }
  destruct (remove_conflict_spec p (find p k) tx Hp Hn) as (p1 & r1 & -> & Hpr & Hg).
  { intros h (e & He & _)%Hi; [by eexists|done]. }
  pose proof (pr_shrinks _ _ Hpr) as Hs. cbn [res_bind fst snd]. destruct (IH p1 (removed ++ r1) (sh_ok _ _ Hs) (shrinks_gone _ _ _ Hs Hn)) as (p' & r & E & Hpr' & Hk).
  pose proof (pr_shrinks _ _ Hpr') as Hs'. exists p', r. split; [done|]. split; [by eapply pruned_trans|]. intros k' [->|Hin]%elem_of_cons; [|by apply Hk].
  eapply index_gone; [exact Hi|apply Hs|exact Hs'|]. left. eapply index_gone; [exact Hi|exact Hp|exact Hs|].
  destruct (find p k) as [h|] eqn:E'; [right; exists h; split; [done|by apply Hg]|by left].
Qed.

Lemma next_index : index_ok next_tx prevouts.
Proof. intros p k h Hp. by apply next_tx_spec. Qed.
Lemma nullifier_index : index_ok nullifier_tx nullifiers.
Proof. intros p k h Hp. by apply nullifier_tx_spec. Qed.

(** No transaction of the pool is [tx] or conflicts with it. *)
Record clear_of p (tx : CTransaction) : Prop := {
  co_tx : mapTx p !! txid tx = None;
  co_inputs : forall o, o ∈ prevouts tx -> next_tx p o = None;
  co_nullifiers : forall nf, nf ∈ nullifiers tx -> nullifier_tx p nf = None
}.

Lemma clear_of_shrinks p p' tx : pool_ok p -> shrinks p p' -> clear_of p tx -> clear_of p' tx.
Proof.
  intros Hp Hs [H1 H2 H3]. split; [by eapply shrinks_gone| |]; intros k Hk.
  - eapply index_gone; [apply next_index|done|done|left; auto].
  - eapply index_gone; [apply nullifier_index|done|done|left; auto].
Qed.

Lemma removeConflicts_spec p tx removed : pool_ok p -> mapTx p !! txid tx = None ->
  exists p' r, removeConflicts p tx removed = Ok (p', r) /\ pruned p p' /\ clear_of p' tx.
Proof.
  intros Hp Hn. unfold removeConflicts.
  destruct (conflicts_loop_spec next_tx prevouts p (prevouts tx) tx removed next_index Hp Hn) as (p1 & r1 & -> & Hpr1 & Hk1). cbn [res_bind fst snd].
  pose proof (pr_shrinks _ _ Hpr1) as Hs1.
  destruct (conflicts_loop_spec nullifier_tx nullifiers p1 (nullifiers tx) tx r1 nullifier_index (sh_ok _ _ Hs1) (shrinks_gone _ _ _ Hs1 Hn))
    as (p2 & r2 & -> & Hpr2 & Hk2).
  pose proof (pr_shrinks _ _ Hpr2) as Hs2. exists p2, r2. split; [done|]. split; [by eapply pruned_trans|]. split; [|intros o Ho|done].
  - by eapply shrinks_gone, shrinks_gone.
  - eapply index_gone; [apply next_index|apply Hs1|exact Hs2|left; auto].
Qed.

Lemma ClearPrioritization_ok p h : pool_ok p -> pool_ok (ClearPrioritization p h).
Proof. by intros []. Qed.
Lemma PrioritizeTransaction_ok p h d : pool_ok p -> pool_ok (PrioritizeTransaction p h d).
Proof. by intros []. Qed.

(** The transactions of a block and what conflicts with them leave the pool. *)
Lemma removeForBlock_spec p vtx conflicts : pool_ok p ->
  exists p' r, removeForBlock p vtx conflicts = Ok (p', r) /\ shrinks p p' /\ Forall (clear_of p') vtx.
Proof.
  revert p conflicts. induction vtx as [|tx vtx IH]; intros p conflicts Hp; cbn [removeForBlock].
  { exists p, conflicts. split; [done|]. split; [by apply shrinks_refl|done]. }
  destruct (remove_one p tx Hp) as (p1 & r1 & -> & Hok1 & E1). cbn [res_bind fst snd].
  destruct (removeConflicts_spec p1 tx conflicts Hok1) as (p2 & r2 & -> & Hpr2 & Hc); [rewrite E1; apply lookup_delete_eq|].
  pose proof (pr_shrinks _ _ Hpr2) as Hs2. cbn [res_bind fst snd].
  destruct (IH (ClearPrioritization p2 (txid tx)) r2 (ClearPrioritization_ok _ _ (sh_ok _ _ Hs2))) as (p' & r & E & Hs & Hf).
  exists p', r. split; [done|]. split.
  - destruct Hs2 as [_ Hs2], Hs as [Hok Hs]. split; [done|]. rewrite Hs. cbn [mapTx ClearPrioritization]. rewrite Hs2, E1. apply delete_subseteq.
  - constructor; [|done]. eapply clear_of_shrinks; [|exact Hs|]; [apply ClearPrioritization_ok, Hs2|]. by destruct Hc.
Qed.

(** ** The theorems *)

(** More rounds do not change a result. *)
Lemma remove_loop_mono fuel fuel' p queue b removed r : (fuel <= fuel')%nat -> remove_loop fuel p queue b removed = Ok r ->
  remove_loop fuel' p queue b removed = Ok r.
Proof.
  revert fuel' p queue removed. induction fuel as [|fuel IH]; intros fuel' p queue removed Hf; destruct queue as [|h queue]; destruct fuel' as [|fuel'];
    cbn [remove_loop]; try done; try lia. destruct (mapTx p !! h) as [e|]; [|apply IH; lia].
  destruct (if b then _ else _) as [more|]; [|done]. cbn [res_bind]. apply IH. lia.
Qed.

(** C16. Removing a transaction with its descendants terminates and removes exactly them: the
    loop ends within one round for every queued hash, every entry and every output of an
    entry, whatever further rounds it is given, no dangling pointer is followed, and the pool
    left is consistent and holds the entries that do not descend from the transaction. *)
Theorem remove_terminates p tx : pool_ok p ->
  exists p' removed, remove p tx true = Ok (p', removed) /\ without p tx p' /\
    forall more fuel, (if exists_tx p (txid tx) then Ok [] else children p (txid tx) (length (tx_vout tx)) 0) = Ok more ->
      (S (length more) + pool_weight (mapTx p) <= fuel)%nat -> remove_loop fuel p (txid tx :: more) true [] = Ok (p', removed).
Proof.
  intros Hp. destruct (remove_spec p tx Hp) as (p' & r & E & Hw). exists p', r. split; [done|]. split; [done|]. intros more fuel Em Hf.
  revert E. unfold remove. cbn [andb]. replace (if negb (exists_tx p (txid tx)) then _ else _) with (Ok more : res pool_fail (list bytes)) by (rewrite <- Em; by destruct (exists_tx p _)).
  cbn [res_bind]. apply remove_loop_mono. exact Hf.
Qed.

(** An entry that a reorganisation makes premature: an input outside the pool is unknown or an
    immature coinbase. *)
Definition premature p (access_coins : bytes -> option CCoins) (nMemPoolHeight : Z) (e : CTxMemPoolEntry) : Prop :=
  e_spendsCoinbase e = true /\ exists i, i ∈ tx_vin (e_tx e) /\ mapTx p !! op_hash (prevout i) = None /\
    forall c, access_coins (op_hash (prevout i)) = Some c -> fCoinBase c = true /\ nMemPoolHeight - nHeight c < COINBASE_MATURITY.

(** The input whose coins the assertion of [removeForReorg] misses: it spends no entry of the
    pool and the view has no coins for it. *)
Definition coinless p (access_coins : bytes -> option CCoins) (vin : list CTxIn) : Prop :=
  exists i, i ∈ vin /\ mapTx p !! op_hash (prevout i) = None /\ access_coins (op_hash (prevout i)) = None.

Lemma immature_spec p acc n k vin :
  (exists b, immature p acc n k vin = Ok b /\ (b = true <-> exists i, i ∈ vin /\ mapTx p !! op_hash (prevout i) = None /\
    forall c, acc (op_hash (prevout i)) = Some c -> fCoinBase c = true /\ k - nHeight c < COINBASE_MATURITY)) \/
  (n <> 0 /\ immature p acc n k vin = Err missing_coins /\ coinless p acc vin).
Proof.
  induction vin as [|i vin IH]; cbn [immature]; [left; exists false; split; [done|]; split; [done|]; intros (i & Hi & _); set_solver|].
  unfold exists_tx. case_bool_decide as Hin.
  - destruct IH as [(b & IH & Hb)|(Hn & IH & j & Hj & Hr)]; [left|right; split; [done|]; split; [done|]; exists j; set_solver].
    exists b. split; [done|]. rewrite Hb. split; intros (j & Hj & Hr); exists j; (split; [|done]); [set_solver|].
    apply elem_of_cons in Hj as [->|]; [|done]. destruct Hr as [Hr _]. by rewrite Hr in Hin; destruct Hin.
  - apply eq_None_not_Some in Hin. destruct (acc (op_hash (prevout i))) as [c|] eqn:Ec.
    + rewrite bool_decide_true, orb_true_r by done. cbn [guard_err res_bind]. destruct (fCoinBase c && (k - nHeight c <? COINBASE_MATURITY)) eqn:Em.
      * left. exists true. split; [done|]. split; [|done]. intros _. exists i. split; [set_solver|]. split; [done|]. intros c' Ec'. rewrite Ec in Ec'. injection Ec' as <-. apply andb_prop in Em as [E1 E2]. zbool. done.
      * destruct IH as [(b & IH & Hb)|(Hn & IH & j & Hj & Hr)]; [left|right; split; [done|]; split; [done|]; exists j; set_solver].
        exists b. split; [done|]. rewrite Hb. split; intros (j & Hj & Hr); exists j; (split; [|done]); [set_solver|].
        apply elem_of_cons in Hj as [->|]; [|done]. destruct Hr as [_ Hr]. destruct (Hr c Ec) as [E1 E2]. rewrite E1 in Em. cbn in Em. zbool. lia.
    + rewrite bool_decide_false by (by intros [? ?]). rewrite orb_false_r. destruct (Z.eqb_spec n 0) as [->|Hn]; cbn [guard_err res_bind].
      * left. exists true. split; [done|]. split; [|done]. intros _. exists i. split; [set_solver|]. split; [done|]. intros c' Ec'. congruence.
      * right. split; [done|]. split; [done|]. exists i. split; [set_solver|done].
Qed.

Lemma reorg_victims_spec p acc n k final es :
  (exists l, reorg_victims p acc n k final es = Ok l /\
    forall tx, tx ∈ l <-> exists e, e ∈ es /\ e_tx e = tx /\ (final (e_tx e) = false \/ premature p acc k e)) \/
  (n <> 0 /\ reorg_victims p acc n k final es = Err missing_coins /\ exists e, e ∈ es /\ e_spendsCoinbase e = true /\ coinless p acc (tx_vin (e_tx e))).
Proof.
  induction es as [|e es IH]; cbn [reorg_victims]; [left; exists []; split; [done|]; intros tx; split; [set_solver|intros (e & He & _); set_solver]|].
  assert ((exists b, (if negb (final (e_tx e)) then Ok true else if e_spendsCoinbase e then immature p acc n k (tx_vin (e_tx e)) else Ok false) = Ok b /\
    (b = true <-> final (e_tx e) = false \/ premature p acc k e)) \/
    (n <> 0 /\ (if negb (final (e_tx e)) then Ok true else if e_spendsCoinbase e then immature p acc n k (tx_vin (e_tx e)) else Ok false) = Err missing_coins /\
     e_spendsCoinbase e = true /\ coinless p acc (tx_vin (e_tx e)))) as [(b & -> & Hb)|(Hn & -> & Hs & Hc)].
  { destruct (final (e_tx e)); cbn [negb]; [|left; exists true; split; [done|]; split; auto]. unfold premature. destruct (e_spendsCoinbase e).
    - destruct (immature_spec p acc n k (tx_vin (e_tx e))) as [(b & Eb & Hb)|(Hn & Eb & Hc)]; [left|by right].
      exists b. split; [done|]. rewrite Hb. naive_solver.
    - left. exists false. split; [done|]. naive_solver. }
  - cbn [res_bind]. destruct IH as [(l & -> & Hl)|(Hn & -> & e' & He' & Hr)]; cbn [res_bind]; [left|right; split; [done|]; split; [done|]; exists e'; set_solver].
    eexists. split; [done|]. intros tx. destruct b; [rewrite elem_of_cons, Hl|rewrite Hl]; set_solver.
  - right. cbn [res_bind]. split; [done|]. split; [done|]. exists e. set_solver.
Qed.

Lemma pool_entries_nil p : pool_entries p = [] <-> mapTx p = ∅.
Proof.
  unfold pool_entries. split; [intros E%fmap_nil_inv; by apply map_to_list_empty_iff|intros ->; by rewrite map_to_list_empty].
Qed.

(** C17. The removals of [CTxMemPool] take out the entries they are meant for together with their
    descendants, and nothing else, and the pool they leave is consistent: those that expire at a
    height, those that spend from a Sapling anchor that is no longer valid, those that commit to
    another branch, and after a reorganisation those that are not final or spend a coinbase that
    is not mature.  The first three never fail.  [removeWithAnchor] for a Sprout anchor throws
    exactly on a pool with entries, and leaves an empty one alone; [removeForReorg] fails only
    with its sanity checks on, by the assertion on the coins of an input, when an entry that
    spends a coinbase has an input that neither the pool nor the view knows. *)
Theorem removals_exact p : pool_ok p ->
  (forall nHeight, exists p', removeExpired p nHeight = Ok p' /\ dropped p (fun e => IsExpiredTx (e_tx e) nHeight = true) p') /\
  (forall root, exists p', removeWithAnchor p root SAPLING = Ok p' /\
     dropped p (fun e => existsb (fun s => bytes_eqb (sd_anchor s) root) (tx_vShieldedSpend (e_tx e)) = true) p') /\
  (forall root, (mapTx p = ∅ -> removeWithAnchor p root SPROUT = Ok p) /\
     (mapTx p <> ∅ -> removeWithAnchor p root SPROUT = Err unknown_shielded_type)) /\
  (forall branch, exists p', removeWithoutBranchId p branch = Ok p' /\ dropped p (fun e => negb (e_nBranchId e =? branch) = true) p') /\
  (forall coins nCheckFrequency nMemPoolHeight flags chain_height median adjusted,
     let removed := removeForReorg p coins nCheckFrequency nMemPoolHeight flags chain_height median adjusted in
     (exists p', removed = Ok p' /\
        dropped p (fun e => CheckFinalTx (e_tx e) flags chain_height median adjusted = false \/ premature p coins nMemPoolHeight e) p') \/
     (nCheckFrequency <> 0 /\ removed = Err missing_coins /\
        exists h e, mapTx p !! h = Some e /\ e_spendsCoinbase e = true /\ coinless p coins (tx_vin (e_tx e)))).
Proof.
  intros Hp. split; [|split; [|split; [|split]]]; intros; try by apply remove_filter.
  - pose proof (pool_entries_nil p) as He. unfold removeWithAnchor. destruct (pool_entries p); naive_solver.
  - subst removed. unfold removeForReorg.
    destruct (reorg_victims_spec p coins nCheckFrequency nMemPoolHeight (fun tx => CheckFinalTx tx flags chain_height median adjusted) (pool_entries p)) as [(l & -> & Hl)|(Hn & -> & e & [h He]%elem_of_pool_entries & Hr)];
      cbn [res_bind]; [left; by apply remove_all_spec|right]. split; [done|]. split; [done|]. by exists h, e.
Qed.

Lemma empty_pool_ok : pool_ok empty_pool.
Proof.
  split; try done.
  - intros o h n. split; [done|]. by intros (e & i & E & _).
  - intros nf h. split; [done|]. by intros (e & E & _).
Qed.

(** ** Clearing the pool *)

Lemma next_loop_empty p keys tx removed : mapNextTx p = ∅ -> conflicts_loop next_tx p keys tx removed = Ok (p, removed).
Proof.
  intros E. induction keys as [|k keys IH]; cbn [conflicts_loop]; [done|]. unfold next_tx. rewrite E, lookup_empty. cbn [fmap option_fmap option_map remove_conflict res_bind fst snd].
  by rewrite app_nil_r.
Qed.

(** [clear] leaves the index of nullifiers with pointers to transactions that are gone: a block
    that spends such a nullifier afterwards makes [removeConflicts] follow one. *)
Theorem clear_dangles p nf h tx removed : mapNullifiers p !! nf = Some h -> nullifiers tx = [nf] ->
  removeConflicts (clear_pool p) tx removed = Err dangling_pointer.
Proof.
  intros En Et. unfold removeConflicts. rewrite next_loop_empty by done. cbn [res_bind fst snd]. rewrite Et. cbn [conflicts_loop]. unfold nullifier_tx.
  cbn [mapNullifiers clear_pool]. rewrite En. cbn [remove_conflict]. unfold deref_tx. cbn [mapTx clear_pool]. by rewrite lookup_empty.
Qed.
End MempoolProps.

(** ** A concrete pool

    Two transactions, the second spending an output of the first, which expires. *)

Definition pool_tx (expiry : Z) (o : COutPoint) : CTransaction := {|
  tx_fOverwintered := true; tx_nVersion := 4; tx_nVersionGroupId := SAPLING_VERSION_GROUP_ID;
  tx_vin := [{| prevout := o; scriptSig := []; nSequence := 0 |}]; tx_vout := [{| nValue := 900; scriptPubKey := [81] |}];
  tx_nLockTime := 0; tx_nExpiryHeight := expiry; tx_valueBalance := 0; tx_vShieldedSpend := []; tx_vShieldedOutput := [];
  tx_bindingSig := no_bindingSig |}.
Definition pool_entry (tx : CTransaction) : CTxMemPoolEntry := {|
  e_tx := tx; e_nFee := 10; e_nTxSize := 100; e_nModSize := 100; e_nUsageSize := 200; e_feeRate := 100; e_nTime := 0; e_nHeight := 5;
  e_hadNoDependencies := true; e_spendsCoinbase := false; e_nBranchId := 1 |}.
Definition parent_tx : CTransaction := pool_tx 50 {| op_hash := replicate 32 7; op_n := 0 |}.
Definition child_tx : CTransaction := pool_tx 0 {| op_hash := txid parent_tx; op_n := 0 |}.
Definition add_or_keep (p : CTxMemPool) (tx : CTransaction) : CTxMemPool :=
  match addUnchecked p (txid tx) (pool_entry tx) with Ok p => p | Err _ => p end.
Definition pair_pool : CTxMemPool := add_or_keep (add_or_keep empty_pool parent_tx) child_tx.

Lemma add_or_keep_ok p tx : pool_ok p -> can_add p tx -> pool_ok (add_or_keep p tx).
Proof. intros Hp Ha. destruct (addUnchecked_ok p (pool_entry tx) Hp Ha) as (p' & E & Hok & _). unfold add_or_keep. cbn [e_tx pool_entry] in E. by rewrite E. Qed.

Lemma pair_pool_ok : pool_ok pair_pool.
Proof.
  apply add_or_keep_ok; [apply add_or_keep_ok; [exact empty_pool_ok|]|].
  - split; [done|by apply (bool_decide_eq_true_1 (NoDup _))|done|done].
  - split; [vm_compute; done|by apply (bool_decide_eq_true_1 (NoDup _))| |by intros nf Hnf%elem_of_nil].
    intros o [->|Ho%elem_of_nil]%elem_of_cons; [vm_compute; done|done].
Qed.

Lemma remove_terminates_witness : exists p' removed, remove pair_pool parent_tx true = Ok (p', removed) /\ mapTx p' = ∅.
Proof.
  destruct (remove_terminates pair_pool parent_tx pair_pool_ok) as (p' & r & E & _). exists p', r. split; [exact E|]. vm_compute in E. injection E as <- _. reflexivity.
Defined.

Lemma removals_exact_witness : exists p', removeExpired pair_pool 60 = Ok p' /\ pool_ok p' /\ mapTx p' = ∅.
Proof.
  destruct (removals_exact pair_pool pair_pool_ok) as (He & _). destruct (He 60) as (p' & E & Hd). exists p'. split; [exact E|].
  split; [exact (sh_ok _ _ (pr_shrinks _ _ (dr_pruned _ _ _ Hd)))|]. vm_compute in E. injection E as <-. reflexivity.
Defined.
