(* ===== verification/MempoolAccept.v ===== *)
(** * Accepting transactions into the memory pool

    [AcceptToMemoryPool] of [accept_to_mempool.cpp] with the view it builds: a cache over
    [CCoinsViewMemPool], whose backend becomes the empty view once all inputs are cached.

    Floating-point numbers are not modelled: the verdicts that depend on priorities and the
    rate limiter for free transactions are arguments, and so is the verdict on tickets. *)

From Stdlib Require Import String.
From stdpp Require Import gmap.
From S2P Require Import Prelude Script Interpreter Serialize Standard Compressor Amount Coins CoinsView Upgrades Transaction ChainState SigHash TxChecks Mempool.
Open Scope Z_scope.

Definition REJECT_DUPLICATE : Z := 0x12.
Definition REJECT_NONSTANDARD : Z := 0x40.
Definition REJECT_INSUFFICIENTFEE : Z := 0x42.
Definition STANDARD_LOCKTIME_VERIFY_FLAGS : Z := LOCKTIME_MEDIAN_TIME_PAST.
Definition DEFAULT_BLOCK_PRIORITY_SIZE : Z := MAX_BLOCK_SIZE / 2.
Definition MAX_STANDARD_TX_SIGOPS : Z := MAX_BLOCK_SIGOPS / 5.
Definition MEMPOOL_HEIGHT : Z := 0x7FFFFFFF.

(** ** Views *)

Section Views.
Context `{CacheParams} `{Crypto}.

(** [CCoinsView] itself, the view with nothing in it. *)
Inductive empty_view : Set := dummy.
Definition dummy_view : CCoinsView empty_view := {|
  GetCoins v _ := (None, v); GetNullifier v _ _ := (false, v); GetAnchorAt v _ _ := (None, v);
  GetBestBlock v := (uint256_null, v); GetBestAnchor v _ := (uint256_null, v); BatchWrite _ _ := Err assertion
|}.
#[export] Existing Instance dummy_view.

(** [CCoinsViewMemPool]: a view and the pool whose transactions it brings in. *)
Record CCoinsViewMemPool (V : Type) := { mp_base : V; mp_pool : CTxMemPool }.
#[global] Arguments mp_base {V}.
#[global] Arguments mp_pool {V}.

Context {V : Type} `{!CCoinsView V}.

Definition with_base (m : CCoinsViewMemPool V) (b : V) : CCoinsViewMemPool V := {| mp_base := b; mp_pool := mp_pool m |}.

Definition mempool_GetCoins (m : CCoinsViewMemPool V) (hash : bytes) : option CCoins * CCoinsViewMemPool V :=
  match lookup_tx (mp_pool m) hash with
  | Some (tx, _) => (Some (tx_coins tx MEMPOOL_HEIGHT), m)
  | None =>
      let '(r, b) := GetCoins (mp_base m) hash in
      (match r with Some c => if IsPruned c then None else Some c | None => None end, with_base m b)
  end.

(** The nullifiers of the old shielded pool are never asked for: the pool throws there. *)
Definition mempool_GetNullifier (m : CCoinsViewMemPool V) (ty : ShieldedType) (nf : bytes) : bool * CCoinsViewMemPool V :=
  match nullifierExists (mp_pool m) nf ty with
  | Ok true => (true, m)
  | _ => let '(r, b) := GetNullifier (mp_base m) ty nf in (r, with_base m b)
  end.

Definition mempool_view : CCoinsView (CCoinsViewMemPool V) := {|
  GetCoins := mempool_GetCoins;
  GetNullifier := mempool_GetNullifier;
  GetAnchorAt m ty rt := let '(r, b) := GetAnchorAt (mp_base m) ty rt in (r, with_base m b);
  GetBestBlock m := let '(r, b) := GetBestBlock (mp_base m) in (r, with_base m b);
  GetBestAnchor m ty := let '(r, b) := GetBestAnchor (mp_base m) ty in (r, with_base m b);
  BatchWrite m bt := let? b := BatchWrite (mp_base m) bt in Ok (with_base m b)
|}.
#[export] Existing Instance mempool_view.
End Views.

(** ** Acceptance *)

(** What the function reads of the node's options and state, besides the chain parameters. *)
Record accept_env := {
  ae_nChainHeight : Z;                    (* gl_nChainHeight *)
  ae_RequireStandard : bool;
  ae_policy : standard_policy;            (* with gl_ChainOptions.minRelayTxFee *)
  ae_origin : TxOrigin;
  ae_isIBD : bool;
  ae_median_time : Z;                     (* of the tip *)
  ae_adjusted_time : Z;
  ae_now : Z;                             (* GetTime *)
  ae_relaypriority : bool;
  ae_ticket : TICKET_VALIDATION_STATE;
  ae_allow_free : bool;                   (* AllowFree of the priority in the next block *)
  ae_priority_delta : bool;               (* the priority delta is positive *)
  ae_rate_limited : bool                  (* the limiter of free transactions is exhausted *)
}.

(** Why a transaction is not accepted. *)
Inductive accept_fail : Type :=
| NotValid (e : check_fail)                 (* a check of the transaction alone, or [state.DoS] *)
| MissingInputs                             (* [pfMissingInputs] is set *)
| AlreadyKnown
| SpentInPool                               (* an input or nullifier is spent by the pool *)
| NonStandardInputs
| AbsurdFee                                 (* [state.Error] *)
| InputsFailed (e : connect_fail)
| Undefined.                                (* an assertion, an exception or a null pointer *)

Definition not_valid {A : Type} (r : res check_fail A) : res accept_fail A := match r with Ok a => Ok a | Err e => Err (NotValid e) end.
(** A ticket whose inputs are not known yet. *)
Definition or_missing {A : Type} (r : res check_fail A) : res accept_fail A :=
  match r with
  | Ok a => Ok a
  | Err (Reject n c r p) => Err (if c =? REJECT_MISSING_INPUTS then MissingInputs else NotValid (Reject n c r p))
  | Err e => Err (NotValid e)
  end.
Definition or_undefined {E A : Type} (r : res E A) : res accept_fail A := match r with Ok a => Ok a | Err _ => Err Undefined end.
Definition inputs_failed {A : Type} (r : res connect_fail A) : res accept_fail A := match r with Ok a => Ok a | Err e => Err (InputsFailed e) end.
Definition refuse (code : Z) (reason : string) : accept_fail := NotValid (DoS 0 code reason).

Section Accept.
Context `{CacheParams} `{Crypto} `{SigCrypto} `{SaplingVerifier} {V : Type} `{!CCoinsView V} `{!ConnectEnv}.
Context (RecursiveDynamicUsage : CTransaction -> Z).

Definition GetMinRelayFee (env : accept_env) (p : CTxMemPool) (tx : CTransaction) (nBytes : Z) (fAllowFree : bool) : Z :=
  let nFeeDelta := ApplyDeltas p (txid tx) 0 in
  if ae_priority_delta env || (nFeeDelta >? 0) then 0
  else
    let nMinFee := GetFee (minRelayTxFee (ae_policy env)) nBytes in
    let nMinFee := if fAllowFree && (nBytes <? DEFAULT_BLOCK_PRIORITY_SIZE - 1000) then 0 else nMinFee in
    if negb (MoneyRange nMinFee) then MAX_MONEY else nMinFee.

(** The constructor of [CTxMemPoolEntry]. *)
Definition new_entry (tx : CTransaction) (nFee nTime nHeight : Z) (poolHasNoInputsOf spendsCoinbase : bool) (nBranchId : Z)
  : res ios_failure CTxMemPoolEntry :=
  let? s := tx_Serialize tx in
  let nTxSize := zlen s in
  let? nModSize := CalculateModifiedSize tx nTxSize in
  Ok {| e_tx := tx; e_nFee := nFee; e_nTxSize := nTxSize; e_nModSize := nModSize; e_nUsageSize := RecursiveDynamicUsage tx;
        e_feeRate := CFeeRate nFee nTxSize; e_nTime := nTime; e_nHeight := nHeight; e_hadNoDependencies := poolHasNoInputsOf;
        e_spendsCoinbase := spendsCoinbase; e_nBranchId := nBranchId |}.

(** The checks before the coins are looked at. *)
Definition accept_transaction (env : accept_env) (tx : CTransaction) : res accept_fail unit :=
  let nextBlockHeight := ae_nChainHeight env + 1 in
  let? _ := not_valid (CheckTransaction tx) in
  let? _ := or_missing (ContextualCheckTransaction tx (ae_origin env) (ae_isIBD env) upgrades nextBlockHeight (ae_ticket env)) in
  check negb (IsExpiringSoonTx tx nextBlockHeight) else refuse REJECT_INVALID "tx-expiring-soon" ;;
  check negb (IsCoinBase tx) else NotValid (invalid 100 "coinbase") ;;
  let? _ := (if ae_RequireStandard env then
               match IsStandardTx (ae_policy env) tx upgrades nextBlockHeight with
               | Ok _ => Ok tt
               | Err (Some reason) => Err (refuse REJECT_NONSTANDARD reason)
               | Err None => Err Undefined
               end
             else Ok tt) in
  check CheckFinalTx tx STANDARD_LOCKTIME_VERIFY_FLAGS (ae_nChainHeight env) (ae_median_time env) (ae_adjusted_time env)
    else refuse REJECT_NONSTANDARD "non-final" ;;
  Ok tt.

(** No conflict with the transactions of the pool. *)
Definition no_conflict (p : CTxMemPool) (tx : CTransaction) : bool :=
  forallb (fun o => negb (bool_decide (is_Some (mapNextTx p !! o)))) (prevouts tx)
  && forallb (fun nf => negb (bool_decide (is_Some (mapNullifiers p !! nf)))) (nullifiers tx).

Section View.
Context {W : Type} `{!CCoinsView W}.

Fixpoint have_all (view : CCoinsViewCache W) (vin : list CTxIn) : bool * CCoinsViewCache W :=
  match vin with
  | [] => (true, view)
  | i :: vin =>
      let '(have, view) := HaveCoins view (op_hash (prevout i)) in
      if have : bool then have_all view vin else (false, view)
  end.

Fixpoint spends_coinbase (view : CCoinsViewCache W) (vin : list CTxIn) : res accept_fail (bool * CCoinsViewCache W) :=
  match vin with
  | [] => Ok (false, view)
  | i :: vin =>
      let '(coins, view) := AccessCoins view (op_hash (prevout i)) in
      match coins with
      | None => Err Undefined
      | Some c => if fCoinBase c then Ok (true, view) else spends_coinbase view vin
      end
  end.
End View.

(** The section under the lock of the pool: the value of the inputs and the cached coins. *)
Definition accept_coins (p : CTxMemPool) (coins_tip : V) (tx : CTransaction) : res accept_fail (Z * cache_data) :=
  let view := mk_cache empty_cache {| mp_base := coins_tip; mp_pool := p |} in
  let '(have, view) := HaveCoins view (txid tx) in
  check negb have else AlreadyKnown ;;
  let '(all, view) := have_all view (tx_vin tx) in
  check all else MissingInputs ;;
  let '(inputs, view) := HaveInputs view (IsCoinBase tx) (prevouts tx) in
  check inputs else refuse REJECT_DUPLICATE "bad-txns-inputs-spent" ;;
  let '(shielded, view) := HaveShieldedRequirements view (spends tx) in
  check shielded else refuse REJECT_DUPLICATE "bad-txns-shielded-requirements-not-met" ;;
  let '(_, view) := cache_GetBestBlock view in
  let? shieldedIn := or_undefined (GetShieldedValueIn tx) in
  let? r := or_undefined (GetValueIn view (IsCoinBase tx) (prevouts tx) shieldedIn) in
  Ok (r.1, data r.2).

(** The rest: policy on the inputs and fees, and the scripts. *)
Definition accept_inputs (env : accept_env) (p : CTxMemPool) (tx : CTransaction) (fLimitFree fRejectAbsurdFee : bool)
    (nValueIn : Z) (cached : cache_data) : res accept_fail CTxMemPoolEntry :=
  let branch := CurrentEpochBranchId (ae_nChainHeight env + 1) upgrades in
  let view := mk_cache cached dummy in
  let? view := (if ae_RequireStandard env then
                  let? r := or_undefined (AreInputsStandard (sp_solver (ae_policy env)) tx view branch) in
                  check r.1 else NonStandardInputs ;; Ok r.2
                else Ok view) in
  let? sig := or_undefined (GetP2SHSigOpCount tx view) in
  let nSigOps := u32 (GetLegacySigOpCount tx + sig.1) in
  check negb (nSigOps >? MAX_STANDARD_TX_SIGOPS) else refuse REJECT_NONSTANDARD "bad-txns-too-many-sigops" ;;
  let? nValueOut := or_undefined (GetValueOut tx) in
  let nFees := s64 (nValueIn - nValueOut) in
  let? cb := spends_coinbase sig.2 (tx_vin tx) in
  let? entry := or_undefined (new_entry tx nFees (ae_now env) (ae_nChainHeight env) (HasNoInputsOf p tx) cb.1 branch) in
  let nTxSize := e_nTxSize entry in
  let minRelay := GetFee (minRelayTxFee (ae_policy env)) nTxSize in
  check negb (fLimitFree && (nFees <? GetMinRelayFee env p tx nTxSize true)) else refuse REJECT_INSUFFICIENTFEE "insufficient fee" ;;
  check negb (ae_relaypriority env && (nFees <? minRelay) && negb (ae_allow_free env)) else refuse REJECT_INSUFFICIENTFEE "insufficient priority" ;;
  check negb (fLimitFree && (nFees <? minRelay) && ae_rate_limited env)
    else refuse REJECT_INSUFFICIENTFEE "rate limited free transaction" ;;
  check negb (fRejectAbsurdFee && (nFees >? s64 (minRelay * 10000))) else AbsurdFee ;;
  let? r := inputs_failed (ContextualCheckInputs tx cb.2 true STANDARD_SCRIPT_VERIFY_FLAGS branch false) in
  let? _ := inputs_failed (ContextualCheckInputs tx r.2 true MANDATORY_SCRIPT_VERIFY_FLAGS branch false) in
  Ok entry.

Definition AcceptToMemoryPool (env : accept_env) (p : CTxMemPool) (coins_tip : V) (tx : CTransaction) (fLimitFree fRejectAbsurdFee : bool)
  : res accept_fail CTxMemPool :=
  let? _ := accept_transaction env tx in
  check negb (exists_tx p (txid tx)) else AlreadyKnown ;;
  check no_conflict p tx else SpentInPool ;;
  let? r := accept_coins p coins_tip tx in
  let? entry := accept_inputs env p tx fLimitFree fRejectAbsurdFee r.1 r.2 in
  or_undefined (addUnchecked p (txid tx) entry).
End Accept.
