(* ===== verification/MempoolChain.v ===== *)
(** * The memory pool and the coin set

    The pool is valid for a coin set when every input of its transactions is an output of
    another transaction of the pool or an unspent output, no nullifier of it is spent, its
    anchors are known, and no transaction depends on itself.  Acceptance, the removals, and
    connecting and disconnecting a block keep the pool valid for the coin set they leave. *)

From Stdlib Require Import Wellfounded.
From stdpp Require Import gmap relations.
From S2P Require Import Prelude Script Interpreter InterpreterSafety Serialize Compressor Coins CoinsView CoinsViewProps Transaction ChainState CacheSteps ChainStateProps SigHash TxChecks Mempool MempoolProps MempoolAccept.
Open Scope Z_scope.

Section PoolValid.
Context `{CacheParamsLaws} `{Crypto}.

Implicit Types p : CTxMemPool.
Implicit Types w : view.

(** An unspent output of the coin set, or of a transaction of the pool. *)
Definition available w (o : bytes * Z) : Prop := exists x, utxo w o.1 = Some x /\ IsAvailable x o.2 = true.
Definition offered p (o : bytes * Z) : Prop :=
  exists e, mapTx p !! o.1 = Some e /\ IsAvailable (tx_coins (e_tx e) MEMPOOL_HEIGHT) o.2 = true.

(** The pool is valid for a coin set, up to inputs that [X] and anchors that [A] allow. *)
Record pool_valid_but (X : bytes * Z -> Prop) (A : bytes -> Prop) w p : Prop := {
  pv_ok : pool_ok p;
  pv_inputs : forall h e o, mapTx p !! h = Some e -> o ∈ prevouts (e_tx e) -> offered p o \/ available w o \/ X o;
  pv_nullifiers : forall h e nf, mapTx p !! h = Some e -> nf ∈ nullifiers (e_tx e) -> nullifier_spent w SAPLING nf = false;
  pv_anchors : forall h e s, mapTx p !! h = Some e -> s ∈ tx_vShieldedSpend (e_tx e) ->
    is_Some (anchor_tree w SAPLING (sd_anchor s)) \/ A (sd_anchor s)
}.
Definition pool_valid : view -> CTxMemPool -> Prop := pool_valid_but (fun _ => False) (fun _ => False).

(** No transaction of the pool depends on itself. *)
Definition acyclic p : Prop := well_founded (spends_in p).

Lemma acyclic_sub p p' : mapTx p' ⊆ mapTx p -> acyclic p -> acyclic p'.
Proof. intros Hs. apply wf_incl. intros a b. by apply spends_in_mono. Qed.

Lemma pool_valid_weaken (X X' : bytes * Z -> Prop) (A A' : bytes -> Prop) w p : (forall o, X o -> X' o) -> (forall r, A r -> A' r) ->
  pool_valid_but X A w p -> pool_valid_but X' A' w p.
Proof. intros HX HA [Hok Hin Hnf Han]. split; [done| |done|]; [intros h e o He Ho; destruct (Hin h e o He Ho) as [|[|]]|intros h e s He Hs; destruct (Han h e s He Hs)]; auto. Qed.

Lemma IsAvailable_lookup x n : IsAvailable x n = true <-> 0 <= n /\ is_Some (unspent x (Z.to_nat n)).
Proof.
  destruct (Z.ltb_spec n 0) as [Hn|Hn].
  - unfold IsAvailable, znth. destruct (Z.ltb_spec n 0); [|lia]. split; [done|lia].
  - rewrite <- (Z2Nat.id n) at 1 by done. rewrite IsAvailable_unspent. rewrite bool_decide_eq_true. tauto.
Qed.

Lemma unspent_tx_coins tx nHeight i : unspent (tx_coins tx nHeight) i =
  (o ← tx_vout tx !! i; if IsUnspendable (scriptPubKey o) then None else if IsNull o then None else Some o).
Proof.
  unfold tx_coins, FromTx, ClearUnspendable. rewrite unspent_Cleanup, unspent_with_vout. cbn [vout]. rewrite list_lookup_fmap.
  destruct (tx_vout tx !! i) as [o|]; [|done]. cbn. by destruct (IsUnspendable _).
Qed.

(** Only the height of the outputs depends on where the transaction is. *)
Lemma tx_coins_available tx h1 h2 n : IsAvailable (tx_coins tx h1) n = IsAvailable (tx_coins tx h2) n.
Proof. apply eq_bool_prop_intro. rewrite !Is_true_true, !IsAvailable_lookup, !unspent_tx_coins. done. Qed.

Lemma tx_coins_range tx nHeight n : IsAvailable (tx_coins tx nHeight) n = true -> 0 <= n < zlen (tx_vout tx).
Proof.
  rewrite IsAvailable_lookup, unspent_tx_coins. intros [Hn [o Ho]]. destruct (tx_vout tx !! Z.to_nat n) as [o'|] eqn:E; [|done].
  apply lookup_lt_Some in E. unfold zlen. lia.
Qed.

Lemma offered_parent p h e o : mapTx p !! h = Some e -> o ∈ prevouts (e_tx e) -> offered p o -> spends_in p o.1 h.
Proof.
  intros He Ho (ea & Ea & Hav). exists ea, e, o.2. rewrite <- surjective_pairing. split; [done|]. split; [done|]. split; [done|].
  by eapply tx_coins_range.
Qed.

(** Removing transactions with their descendants keeps the pool valid. *)
Lemma pruned_valid X A w p p' : pool_valid_but X A w p -> pruned p p' -> pool_valid_but X A w p'.
Proof.
  intros [Hok Hin Hnf Han] [[Hok' Hs] Hc]. split; [done| | |].
  - intros h e o He Ho. pose proof (lookup_weaken _ _ _ _ He Hs) as He0. destruct (Hin h e o He0 Ho) as [Hof|Hav]; [|by right]. left.
    pose proof (offered_parent _ _ _ _ He0 Ho Hof) as Hsp. destruct Hof as (ea & Ea & Hav). exists ea. split; [|done].
    destruct (mapTx p' !! o.1) as [ea'|] eqn:Ea'; [|by rewrite (Hc _ _ Hsp Ea') in He].
    by rewrite (lookup_weaken _ _ _ _ Ea' Hs) in Ea.
  - intros h e nf He. apply (Hnf h). by eapply lookup_weaken.
  - intros h e s He. apply (Han h). by eapply lookup_weaken.
Qed.

(** ** Connecting a block *)

(** Spending an output leaves the others of the entry. *)
Lemma spend_body_available n x u y m : spend_body n x = Ok (u, y) -> m <> n -> IsAvailable x m = true -> IsAvailable y m = true.
Proof.
  unfold spend_body. destruct (znth (vout x) n) as [o|] eqn:En; [|done]. destruct (IsNull o) eqn:Eo; [done|]. intros [= _ <-] Hne Hm.
  unfold Spend. rewrite En, Eo. cbn [snd]. apply IsAvailable_lookup in Hm as [Hm0 Hm]. apply IsAvailable_lookup. split; [done|].
  rewrite unspent_Cleanup, unspent_with_vout. assert (0 <= n) as Hn by (unfold znth in En; by destruct (Z.ltb_spec n 0)).
  rewrite list_lookup_insert_ne by lia. exact Hm.
Qed.

Lemma IsAvailable_live x n : IsAvailable x n = true -> live (Some x) = Some x.
Proof.
  rewrite IsAvailable_lookup. intros [_ [o Ho]]. unfold live. cbn. destruct (IsPruned x) eqn:E; [|done].
  rewrite IsPruned_unspent in E. by rewrite E in Ho.
Qed.

Lemma available_set_utxo w t y o : available w o -> (o.1 = t -> exists x, utxo w t = Some x /\ (IsAvailable x o.2 = true -> IsAvailable y o.2 = true)) ->
  available (set_utxo w t (live (Some y))) o.
Proof.
  intros (x & Ex & Hx) Ht. unfold available. cbn -[live]. destruct (decide (o.1 = t)) as [E|E]; [|by exists x].
  destruct (Ht E) as (x' & Ex' & Hy). rewrite E in Ex. rewrite Ex in Ex'. injection Ex' as <-. exists y. split; [|by apply Hy].
  eapply IsAvailable_live. by apply Hy.
Qed.

Lemma available_proper w w' o : w ≡ w' -> available w o -> available w' o.
Proof. intros E (x & Ex & Hx). exists x. by rewrite <- E. Qed.

Lemma pool_valid_proper X A w w' p : w ≡ w' -> pool_valid_but X A w p -> pool_valid_but X A w' p.
Proof.
  intros E [Hok Hin Hnf Han]. split; [done| | |].
  - intros h e o He Ho. destruct (Hin h e o He Ho) as [|[|]]; [by left|right; left; by eapply available_proper|auto].
  - intros h e nf. rewrite <- E. apply Hnf.
  - intros h e s. rewrite <- E. apply Han.
Qed.

Lemma spends_to_available w vin us w' o : spends_to w vin us w' ->
  o ∉ map (fun i => (op_hash (Transaction.prevout i), op_n (Transaction.prevout i))) vin -> available w o -> available w' o.
Proof.
  induction 1 as [w w' Ew|w i vin x u y us w' Ex Es Hs IH]; intros Ho Ha; [by eapply available_proper|].
  cbn [map] in Ho. apply not_elem_of_cons in Ho as [Hne Ho]. apply IH; [done|]. apply available_set_utxo; [done|]. intros E. exists x. split; [done|].
  intros Hx. eapply spend_body_available; [exact Es| |exact Hx]. intros Hn. apply Hne. rewrite <- E, <- Hn. by destruct o.
Qed.

Lemma tx_connected_available nHeight w tx u w' o : tx_connected nHeight w tx u w' -> o ∉ prevouts tx -> available w o -> available w' o.
Proof.
  intros [Hnew _ (w1 & Hs & Ew)] Ho Ha. eapply available_proper; [symmetry; exact Ew|].
  assert (o.1 <> txid tx) as Hne by (intros E; destruct Ha as (x & Ex & _); rewrite E, Hnew in Ex; done).
  assert (available w1 o) as (x & Ex & Hx).
  { destruct (IsCoinBase tx); [|by eapply spends_to_available]. destruct Hs as [_ Hs]. eapply available_proper; [symmetry; exact Hs|done]. }
  exists x. unfold tx_added. cbn -[live]. by rewrite decide_False by done.
Qed.

(** The outputs of the transaction become available. *)
Lemma tx_connected_outputs nHeight w tx u w' o : tx_connected nHeight w tx u w' -> o.1 = txid tx ->
  IsAvailable (tx_coins tx MEMPOOL_HEIGHT) o.2 = true -> available w' o.
Proof.
  intros [_ _ (w1 & _ & Ew)] Eo Ha. eapply available_proper; [symmetry; exact Ew|]. rewrite (tx_coins_available _ _ nHeight) in Ha.
  exists (tx_coins tx nHeight). split; [|done]. unfold tx_added. cbn -[live]. rewrite decide_True by done. by eapply IsAvailable_live.
Qed.

Lemma spends_to_rest w vin us w' : spends_to w vin us w' ->
  (forall ty nf, nullifier_spent w' ty nf = nullifier_spent w ty nf) /\ (forall ty r, anchor_tree w' ty r = anchor_tree w ty r).
Proof.
  induction 1 as [w w' E|w i vin x u y us w' Ex Es Hs IH]; [split; intros; by rewrite E|].
  destruct IH as [I1 I2]. split; intros; [by rewrite I1|by rewrite I2].
Qed.

Lemma tx_connected_nullifiers nHeight w tx u w' nf : tx_connected nHeight w tx u w' -> nf ∉ nullifiers tx ->
  nullifier_spent w' SAPLING nf = nullifier_spent w SAPLING nf.
Proof.
  intros [_ _ (w1 & Hs & Ew)] Hnf. rewrite Ew. cbn. rewrite decide_False by tauto.
  destruct (IsCoinBase tx); [destruct Hs as [_ Hs]; by rewrite Hs|]. apply spends_to_rest in Hs as [Hs _]. apply Hs.
Qed.

Lemma tx_connected_anchors nHeight w tx u w' ty r : tx_connected nHeight w tx u w' -> anchor_tree w' ty r = anchor_tree w ty r.
Proof.
  intros [_ _ (w1 & Hs & Ew)]. rewrite Ew. cbn.
  destruct (IsCoinBase tx); [destruct Hs as [_ Hs]; by rewrite Hs|]. apply spends_to_rest in Hs as [_ Hs]. apply Hs.
Qed.

(** *** Going back *)

Lemma spend_body_back n x u y m : spend_body n x = Ok (u, y) -> IsAvailable y m = true -> IsAvailable x m = true.
Proof.
  unfold spend_body. destruct (znth (vout x) n) as [o|] eqn:En; [|done]. destruct (IsNull o) eqn:Eo; [done|]. intros [= _ <-].
  unfold Spend. rewrite En, Eo. cbn [snd]. rewrite !IsAvailable_lookup. intros [Hm Hu]. split; [done|].
  rewrite unspent_Cleanup, unspent_with_vout in Hu. assert (0 <= n) as Hn by (unfold znth in En; by destruct (Z.ltb_spec n 0)).
  destruct (decide (Z.to_nat n = Z.to_nat m)) as [E|E].
  - rewrite E in Hu. unfold unspent. destruct (vout x !! Z.to_nat m) as [o'|] eqn:Ex.
    + rewrite list_lookup_insert_eq in Hu by (by apply lookup_lt_Some in Ex). by destruct Hu.
    + rewrite list_insert_ge, Ex in Hu by (by apply lookup_ge_None). by destruct Hu.
  - by rewrite list_lookup_insert_ne in Hu.
Qed.

Lemma spends_to_back w vin us w' o : spends_to w vin us w' -> available w' o -> available w o.
Proof.
  induction 1 as [w w' Ew|w i vin x u y us w' Ex Es Hs IH]; intros Ha; [by eapply available_proper; [symmetry|]|].
  destruct (IH Ha) as (z & Ez & Hz). cbn -[live] in Ez. case_decide as Ho; [|by exists z].
  apply live_Some in Ez as [[= <-] _]. exists x. rewrite Ho. split; [done|]. by eapply spend_body_back.
Qed.

(** The unspent outputs after a transaction are those before it and its own. *)
Definition output_of (txs : list CTransaction) (o : bytes * Z) : Prop :=
  exists tx, tx ∈ txs /\ o.1 = txid tx /\ IsAvailable (tx_coins tx MEMPOOL_HEIGHT) o.2 = true.

Lemma tx_connected_back nHeight w tx u w' o : tx_connected nHeight w tx u w' -> available w' o -> available w o \/ output_of [tx] o.
Proof.
  intros [Hnew _ (w1 & Hs & Ew)] Ha. apply (available_proper _ _ _ Ew) in Ha as (x & Ex & Hx). cbn -[live] in Ex. case_decide as Eo.
  - right. apply live_Some in Ex as [[= <-] _]. exists tx. split; [set_solver|]. split; [done|]. by rewrite (tx_coins_available _ _ nHeight).
  - left. assert (available w1 o) as Ha by (by exists x). destruct (IsCoinBase tx); [destruct Hs as [_ Hs]; by eapply available_proper|by eapply spends_to_back].
Qed.

Lemma tx_connected_nullifiers_back nHeight w tx u w' nf : tx_connected nHeight w tx u w' ->
  nullifier_spent w' SAPLING nf = false -> nullifier_spent w SAPLING nf = false.
Proof.
  intros Htc Hn. destruct (decide (nf ∈ nullifiers tx)) as [Hin|Hin]; [|by rewrite (tx_connected_nullifiers _ _ _ _ _ _ Htc) in Hn].
  destruct Htc as [_ Hf _]. rewrite Forall_forall in Hf. by apply Hf.
Qed.

Lemma txs_connected_back nHeight w txs us w' : txs_connected nHeight w txs us w' ->
  (forall o, available w' o -> available w o \/ output_of txs o) /\
  (forall nf, nullifier_spent w' SAPLING nf = false -> nullifier_spent w SAPLING nf = false) /\
  (forall ty r, anchor_tree w' ty r = anchor_tree w ty r).
Proof.
  induction 1 as [w w' E|w tx txs u us w1 w' Htc Hts (I1 & I2 & I3)].
  - split; [|split]; [intros o Ho; left; by eapply available_proper; [symmetry|]|intros nf; by rewrite E|intros; by rewrite E].
  - split; [|split].
    + intros o Ho. destruct (I1 o Ho) as [Ha|(t & Ht & Hr)]; [|right; exists t; split; [set_solver|done]].
      destruct (tx_connected_back _ _ _ _ _ _ Htc Ha) as [|(t & Ht & Hr)]; [by left|]. right. exists t. split; [set_solver|done].
    + intros nf Hn. eapply tx_connected_nullifiers_back; [exact Htc|]. by apply I2.
    + intros ty r. by rewrite I3, (tx_connected_anchors _ _ _ _ _ _ _ Htc).
Qed.

(** The pool holds no other transaction with the hash of one of [txs]. *)
Definition no_collision p (txs : list CTransaction) : Prop := forall tx e, tx ∈ txs -> mapTx p !! txid tx = Some e -> e_tx e = tx.

(** A transaction of a block, taken out of the pool with what conflicts with it. *)
Lemma block_tx_valid nHeight w tx u w' p p1 p2 : pool_valid w p -> tx_connected nHeight w tx u w' -> no_collision p [tx] ->
  pool_ok p1 -> mapTx p1 = delete (txid tx) (mapTx p) -> pruned p1 p2 -> clear_of p2 tx -> pool_valid w' p2.
Proof.
  intros [Hok Hin Hnf Han] Htc Hcol Hok1 E1 [[Hok2 Hs] Hc] [_ Hci Hcn].
  assert (mapTx p1 ⊆ mapTx p) as Hs1 by (rewrite E1; apply delete_subseteq). pose proof (transitivity Hs Hs1) as Hs2.
  split; [done| | |].
  - intros h e o He Ho. pose proof (lookup_weaken _ _ _ _ He Hs2) as He0.
    assert (o ∉ prevouts tx) as Hotx.
    { intros Hotx. pose proof (Hci o Hotx) as Hn. assert (next_tx p2 o = Some h) by (apply next_tx_spec; [done|]; by exists e). congruence. }
    destruct (Hin h e o He0 Ho) as [Hof|[Hav|[]]]; [|right; left; by eapply tx_connected_available].
    destruct (decide (o.1 = txid tx)) as [Eo|Eo].
    + right. left. destruct Hof as (ea & Ea & Hav). rewrite Eo in Ea. pose proof (Hcol tx ea (list_elem_of_here tx []) Ea) as Et. rewrite Et in Hav.
      by eapply tx_connected_outputs.
    + left. pose proof (offered_parent _ _ _ _ He0 Ho Hof) as Hsp. destruct Hof as (ea & Ea & Hav). exists ea. split; [|done].
      assert (mapTx p1 !! o.1 = Some ea) as Ea1 by (rewrite E1; by rewrite lookup_delete_ne).
      destruct (mapTx p2 !! o.1) as [ea'|] eqn:Ea'; [by rewrite (lookup_weaken _ _ _ _ Ea' Hs) in Ea1|].
      rewrite (Hc o.1 h) in He; [done| |done]. apply (spends_in_sub p); [done|done|by eexists|]. exists e. exact (lookup_weaken _ _ _ _ He Hs).
  - intros h e nf He Hin'. rewrite (tx_connected_nullifiers _ _ _ _ _ _ Htc); [apply (Hnf h e); [by eapply lookup_weaken|done]|].
    intros Hnt. pose proof (Hcn nf Hnt) as Hn. assert (nullifier_tx p2 nf = Some h) by (apply nullifier_tx_spec; [done|]; by exists e). congruence.
  - intros h e s He Hs'. rewrite (tx_connected_anchors _ _ _ _ _ _ _ Htc). apply (Han h e); [by eapply lookup_weaken|done].
Qed.

Lemma pool_valid_prioritization w p h : pool_valid w p -> pool_valid w (ClearPrioritization p h).
Proof. intros [Hok Hin Hnf Han]. split; [by apply ClearPrioritization_ok|exact Hin|exact Hnf|exact Han]. Qed.

Lemma removeForBlock_valid nHeight w txs us w' : txs_connected nHeight w txs us w' -> forall p conflicts, pool_valid w p -> no_collision p txs ->
  exists p' r, removeForBlock p txs conflicts = Ok (p', r) /\ pool_valid w' p' /\ mapTx p' ⊆ mapTx p /\ Forall (clear_of p') txs.
Proof.
  induction 1 as [w w' E|w tx txs u us w1 w' Htc Hts IH]; intros p conflicts Hv Hcol; cbn [removeForBlock].
  - exists p, conflicts. split; [done|]. split; [by eapply pool_valid_proper|done].
  - destruct (remove_one p tx (pv_ok _ _ _ _ Hv)) as (p1 & r1 & E1 & Hok1 & Em1). rewrite E1. cbn [res_bind fst snd].
    destruct (removeConflicts_spec p1 tx conflicts Hok1) as (p2 & r2 & E2 & Hpr2 & Hc); [rewrite Em1; apply lookup_delete_eq|].
    rewrite E2. cbn [res_bind fst snd].
    assert (mapTx p2 ⊆ mapTx p) as Hs2 by (etrans; [apply (sh_sub _ _ (pr_shrinks _ _ Hpr2))|rewrite Em1; apply delete_subseteq]).
    assert (pool_valid w1 p2) as Hv2.
    { eapply block_tx_valid; [exact Hv|exact Htc| |exact Hok1|exact Em1|exact Hpr2|exact Hc]. intros t e Ht. apply Hcol. set_solver. }
    destruct (IH (ClearPrioritization p2 (txid tx)) r2 (pool_valid_prioritization _ _ _ Hv2)) as (p' & r & E' & Hv' & Hs' & Hf).
    { intros t e Ht He. apply Hcol; [set_solver|]. by eapply lookup_weaken. }
    exists p', r. split; [done|]. split; [done|]. split; [etrans; [exact Hs'|exact Hs2]|]. constructor; [|done].
    apply (clear_of_shrinks (ClearPrioritization p2 (txid tx))); [apply ClearPrioritization_ok, Hpr2|split; [apply Hv'|exact Hs']|by destruct Hc].
Qed.
End PoolValid.

(** ** Acceptance *)

Section PoolView.
Context `{CacheParamsLaws} `{Crypto} {V : Type} `{!CCoinsView V} `{!CCoinsViewLaws V}.

(** What [CCoinsViewMemPool] shows. *)
Definition overlay (w : view) (p : CTxMemPool) : view := {|
  utxo t := match mapTx p !! t with Some e => live (Some (tx_coins (e_tx e) MEMPOOL_HEIGHT)) | None => utxo w t end;
  nullifier_spent ty nf := match nullifierExists p nf ty with Ok true => true | _ => nullifier_spent w ty nf end;
  anchor_tree := anchor_tree w; best_block := best_block w; best_anchor := best_anchor w
|}.

Lemma overlay_proper w w' p : w ≡ w' -> overlay w p ≡ overlay w' p.
Proof.
  intros (E1 & E2 & E3 & E4 & E5). split; [|split; [|done]]; intros; cbn.
  - destruct (mapTx p !! _); [done|apply E1].
  - destruct (nullifierExists p _ _) as [[]|]; [done|apply E2|apply E2].
Qed.

#[export] Instance mempool_laws : CCoinsViewLaws (CCoinsViewMemPool V).
Proof.
  refine {| view_inv := fun m => view_inv (mp_base m); view_of := fun m => overlay (view_of (mp_base m)) (mp_pool m); known := fun _ _ => True |}.
  - intros m ty r t Hv. cbn. by apply view_anchor_root.
  - intros m ty Hv. cbn. by apply view_empty_root.
  - intros m t r m' Hv. cbn. unfold mempool_GetCoins, lookup_tx. destruct (mapTx (mp_pool m) !! t) as [e|] eqn:Et; cbn.
    + intros [= <- <-]. done.
    + destruct (GetCoins (mp_base m) t) as [x b] eqn:E. intros [= <- <-]. destruct (GetCoins_law _ _ _ _ Hv E) as (Hv' & Ev & Hl & _).
      split; [done|]. split; [by apply overlay_proper|]. split; [|done]. rewrite <- Hl. destruct x as [x|]; [|done].
      unfold live. cbn. by destruct (IsPruned x) eqn:Ep; cbn; rewrite ?Ep.
  - intros m ty n r m' Hv. cbn. unfold mempool_GetNullifier. destruct (nullifierExists (mp_pool m) n ty) as [[]|] eqn:En.
    + intros [= <- <-]. split; [done|]. split; [done|]. done.
    + destruct (GetNullifier (mp_base m) ty n) as [x b] eqn:E. intros [= <- <-]. destruct (GetNullifier_law _ _ _ _ _ Hv E) as (Hv' & Ev & Hl & _).
      split; [done|]. split; [by apply overlay_proper|]. done.
    + destruct (GetNullifier (mp_base m) ty n) as [x b] eqn:E. intros [= <- <-]. destruct (GetNullifier_law _ _ _ _ _ Hv E) as (Hv' & Ev & Hl & _).
      split; [done|]. split; [by apply overlay_proper|]. done.
  - intros m ty rt r m' Hv. cbn. destruct (GetAnchorAt (mp_base m) ty rt) as [x b] eqn:E. intros [= <- <-].
    destruct (GetAnchorAt_law _ _ _ _ _ Hv E) as (Hv' & Ev & Hl & _). split; [done|]. split; [by apply overlay_proper|done].
  - intros m r m' Hv. cbn. destruct (GetBestBlock (mp_base m)) as [x b] eqn:E. intros [= <- <-].
    destruct (GetBestBlock_law _ _ _ Hv E) as (Hv' & Ev & Hl & _). split; [done|]. split; [by apply overlay_proper|done].
  - intros m ty r m' Hv. cbn. destruct (GetBestAnchor (mp_base m) ty) as [x b] eqn:E. intros [= <- <-].
    destruct (GetBestAnchor_law _ _ _ _ Hv E) as (Hv' & Ev & Hl & _). split; [done|]. split; [by apply overlay_proper|done].
Defined.

Lemma new_cache_inv (v : V) : view_inv v -> cache_inv (mk_cache empty_cache v).
Proof. intros Hv. split; cbn; try done; intros; by rewrite lookup_empty in *. Qed.
Lemma new_cache_view (v : V) : cache_view_of (mk_cache empty_cache v) ≡ view_of v.
Proof. split; [|split; [|split; [|split]]]; intros; cbn -[hash_IsNull]; by rewrite ?lookup_empty. Qed.

Lemma HaveCoins_step (c : CCoinsViewCache V) t r c' : cache_inv c -> HaveCoins c t = (r, c') ->
  cache_step c c' (cache_view_of c) /\ (r = false -> utxo (cache_view_of c) t = None).
Proof.
  intros Hi. unfold HaveCoins. destruct (FetchCoins c t) as [x c1] eqn:E. destruct (FetchCoins_step c t x c1 Hi E) as [Hs Hl]. rewrite <- Hl.
  destruct x as [x|]; intros [= <- <-]; (split; [done|]); [|done]. intros Hv%negb_false_iff%bool_decide_eq_true.
  unfold live. cbn. unfold IsPruned. by rewrite Hv.
Qed.

Lemma have_all_step (c : CCoinsViewCache V) vin r c' : cache_inv c -> have_all c vin = (r, c') -> cache_step c c' (cache_view_of c).
Proof.
  revert c. induction vin as [|i vin IH]; intros c Hi; cbn [have_all]; [intros [= <- <-]; by apply cache_step_refl|].
  destruct (HaveCoins c _) as [b c1] eqn:E. destruct (HaveCoins_step _ _ _ _ Hi E) as [Hs _]. destruct b; [|by intros [= <- <-]].
  intros El. eapply read_step_trans; [exact Hs|]. apply IH; [apply Hs|done].
Qed.

End PoolView.

Section Acceptance.
Context `{CacheParamsLaws} `{Crypto} {V : Type} `{!CCoinsView V} `{!CCoinsViewLaws V}.

Lemma prevout_available w o : is_Some (CoinsViewProps.prevout w o) -> available w o.
Proof.
  unfold CoinsViewProps.prevout, available. intros [x Hx]. destruct (utxo w o.1) as [c|]; [|done]. cbn in Hx. exists c. split; [done|].
  by destruct (IsAvailable c o.2).
Qed.

(** What the look at the coins establishes. *)
Lemma accept_coins_spec p (v : V) tx r : view_inv v -> IsCoinBase tx = false -> accept_coins p v tx = Ok r ->
  let w := overlay (view_of v) p in
  utxo w (txid tx) = None /\ Forall (available w) (prevouts tx) /\
  Forall (fun s => nullifier_spent w SAPLING (sd_nullifier s) = false /\ is_Some (anchor_tree w SAPLING (sd_anchor s))) (tx_vShieldedSpend tx).
Proof.
  intros Hv Hcb. unfold accept_coins. rewrite Hcb. set (m := {| mp_base := v; mp_pool := p |}).
  pose proof (new_cache_inv m Hv) as Hi0. pose proof (new_cache_view m) as Ev0. change (view_of m) with (overlay (view_of v) p) in Ev0.
  destruct (HaveCoins _ _) as [b1 c1] eqn:E1. destruct (HaveCoins_step _ _ _ _ Hi0 E1) as [Hs1 Hn].
  intros ([] & G1 & Ek)%res_bind_Ok. destruct b1; [done|].
  destruct (have_all c1 _) as [b2 c2] eqn:E2. pose proof (have_all_step _ _ _ _ (step_inv _ _ _ Hs1) E2) as Hs2'.
  pose proof (read_step_trans _ _ _ Hs1 Hs2') as Hs2.
  apply res_bind_Ok in Ek as ([] & _ & Ek). cbn [HaveInputs] in Ek. destruct (have_inputs_loop c2 _) as [b3 c3] eqn:E3.
  destruct (have_inputs_loop_spec _ _ _ _ (step_inv _ _ _ Hs2) E3) as (_ & _ & Hin). pose proof (have_inputs_loop_step _ _ _ _ (step_inv _ _ _ Hs2) E3) as Hs3'.
  pose proof (read_step_trans _ _ _ Hs2 Hs3') as Hs3. apply res_bind_Ok in Ek as ([] & G3 & Ek). destruct b3; [|done].
  destruct (HaveShieldedRequirements c3 _) as [b4 c4] eqn:E4. destruct (shielded_requirements_spec _ _ _ _ (step_inv _ _ _ Hs3) E4) as (_ & _ & Hsh).
  apply res_bind_Ok in Ek as ([] & G4 & Ek). destruct b4; [|done]. split; [|split].
  - rewrite <- Ev0. by apply Hn.
  - eapply Forall_impl; [by apply Hin|]. intros o Ho%prevout_available. eapply available_proper; [|exact Ho].
    by rewrite (step_view _ _ _ Hs2).
  - pose proof (proj1 Hsh eq_refl) as Hf. unfold spends in Hf. rewrite Forall_map in Hf. eapply Forall_impl; [exact Hf|]. intros sd [Hd1 Hd2].
    rewrite <- Ev0, <- (step_view _ _ _ Hs3). done.
Qed.

Lemma CheckTransaction_nodup tx : CheckTransaction tx = Ok tt -> NoDup (prevouts tx).
Proof.
  unfold CheckTransaction, CheckTransactionWithoutProofVerification. intros (? & _ & E)%res_bind_Ok.
  apply res_bind_Ok in E as (? & _ & E). apply res_bind_Ok in E as (? & _ & E). apply res_bind_Ok in E as (? & _ & E). apply res_bind_Ok in E as (? & _ & E).
  apply res_bind_Ok in E as (? & _ & E). apply res_bind_Ok in E as (? & _ & E). apply res_bind_Ok in E as (? & E & _). guards.
  by apply no_duplicates_spec in E as [Hd _].
Qed.

Context `{SigCrypto} `{SaplingVerifier} `{!ConnectEnv} (usage : CTransaction -> Z).

Lemma accept_transaction_ok env tx : accept_transaction env tx = Ok tt -> CheckTransaction tx = Ok tt /\ IsCoinBase tx = false.
Proof.
  unfold accept_transaction. intros ([] & E1 & E)%res_bind_Ok. apply res_bind_Ok in E as ([] & _ & E). apply res_bind_Ok in E as ([] & _ & E).
  apply res_bind_Ok in E as ([] & E2 & _). guards. split; [|done]. destruct (CheckTransaction tx) as [[]|]; done.
Qed.

Lemma accept_inputs_tx env p tx fl fa n d e : accept_inputs usage env p tx fl fa n d = Ok e -> e_tx e = tx.
Proof.
  unfold accept_inputs. intros E. do 4 apply res_bind_Ok in E as (? & _ & E). apply res_bind_Ok in E as (? & _ & E).
  apply res_bind_Ok in E as (e' & En & E). do 6 apply res_bind_Ok in E as (? & _ & E). injection E as <-.
  unfold new_entry in En. destruct (tx_Serialize tx) as [s|]; [|done]. cbn [res_bind] in En.
  destruct (CalculateModifiedSize tx _) as [k|]; [|done]. cbn in En. by injection En as <-.
Qed.

Lemma no_conflict_spec p tx : no_conflict p tx = true ->
  (forall o, o ∈ prevouts tx -> mapNextTx p !! o = None) /\ (forall nf, nf ∈ nullifiers tx -> mapNullifiers p !! nf = None).
Proof.
  unfold no_conflict. rewrite andb_true_iff, !forallb_forall. intros [Hi Hn]. split; intros k Hk%list_elem_of_In.
  - specialize (Hi k Hk). apply negb_true_iff, bool_decide_eq_false in Hi. by apply eq_None_not_Some.
  - specialize (Hn k Hk). apply negb_true_iff, bool_decide_eq_false in Hn. by apply eq_None_not_Some.
Qed.

(** The inputs of a new transaction that the view of the pool shows. *)
Lemma overlay_inputs (w : view) p tx : Forall (available (overlay w p)) (prevouts tx) -> forall o, o ∈ prevouts tx -> offered p o \/ available w o.
Proof.
  intros Hav o Ho. rewrite Forall_forall in Hav. destruct (Hav o Ho) as (x & Ex & Hx). cbn -[live] in Ex.
  destruct (mapTx p !! o.1) as [ea|] eqn:Ea; [left|right; by exists x]. apply live_Some in Ex as [[= <-] _]. by exists ea.
Qed.

(** Adding a transaction with available inputs keeps the pool valid, and its outputs are no
    longer missing. *)
Lemma add_valid X A (w : view) p p' tx e : pool_valid_but (fun o => X o \/ o.1 = txid tx /\ IsAvailable (tx_coins tx MEMPOOL_HEIGHT) o.2 = true) A w p ->
  pool_ok p' -> e_tx e = tx -> mapTx p !! txid tx = None -> mapTx p' = <[txid tx := e]> (mapTx p) ->
  let v := overlay w p in Forall (available v) (prevouts tx) ->
  Forall (fun s => nullifier_spent v SAPLING (sd_nullifier s) = false /\ is_Some (anchor_tree v SAPLING (sd_anchor s))) (tx_vShieldedSpend tx) ->
  pool_valid_but X A w p'.
Proof.
  intros [Hok Hin Hnf Han] Hok' Et Hnew Em v Hav Hsh. pose proof (overlay_inputs _ _ _ Hav) as Hin'.
  assert (forall o, offered p o -> offered p' o) as Hof.
  { intros o (ea & Ea & Ha). exists ea. split; [|done]. rewrite Em, lookup_insert_ne; [done|]. intros E. by rewrite <- E, Hnew in Ea. }
  split; [done| | |].
  - intros h x o Hx Ho. rewrite Em, lookup_insert_Some in Hx. destruct Hx as [[<- <-]|[_ Hx]].
    + rewrite Et in Ho. destruct (Hin' o Ho); auto.
    + destruct (Hin h x o Hx Ho) as [|[|[|[Eo Ha]]]]; auto. left. exists e. rewrite Em, Eo, lookup_insert_eq, Et. done.
  - intros h x nf Hx Ho. rewrite Em, lookup_insert_Some in Hx. destruct Hx as [[<- <-]|[_ Hx]]; [|by apply (Hnf h x)].
    rewrite Et in Ho. unfold nullifiers in Ho. apply list_elem_of_fmap in Ho as (s & -> & Hs). rewrite Forall_forall in Hsh.
    destruct (Hsh s Hs) as [Hd _]. revert Hd. cbn. by case_bool_decide.
  - intros h x s Hx Hs. rewrite Em, lookup_insert_Some in Hx. destruct Hx as [[<- <-]|[_ Hx]]; [|by apply (Han h x)].
    rewrite Et in Hs. rewrite Forall_forall in Hsh. left. by apply Hsh.
Qed.

Lemma add_acyclic (w : view) p p' tx e : pool_valid w p -> acyclic p -> e_tx e = tx -> mapTx p !! txid tx = None -> mapTx p' = <[txid tx := e]> (mapTx p) ->
  utxo (overlay w p) (txid tx) = None -> Forall (available (overlay w p)) (prevouts tx) -> acyclic p'.
Proof.
  intros [_ Hin _ _] Hac Et Hnew Em Hn Hav. pose proof (overlay_inputs _ _ _ Hav) as Hin'.
  assert (utxo w (txid tx) = None) as Hnw by (cbn in Hn; by rewrite Hnew in Hn).
  assert (forall b, b <> txid tx -> Acc (spends_in p') b) as Hold.
  { intros b. induction (Hac b) as [b _ IH]. intros Hb. constructor. intros a (ea & eb & i & Ea & Eb & Ho & Hi).
    rewrite Em, lookup_insert_ne in Eb by done. assert (a <> txid tx) as Ha.
    { intros ->. destruct (Hin b eb _ Eb Ho) as [(x & Ex & _)|[(x & Ex & _)|[]]]; cbn in Ex; congruence. }
    apply IH; [|done]. exists ea, eb, i. rewrite Em, lookup_insert_ne in Ea by done. done. }
  intros b. destruct (decide (b = txid tx)) as [->|Hb]; [|by apply Hold]. constructor. intros a (ea & eb & i & Ea & Eb & Ho & Hi).
  apply Hold. intros ->. rewrite Em, lookup_insert_eq in Eb. injection Eb as <-. rewrite Et in Ho.
  destruct (Hin' _ Ho) as [(x & Ex & _)|(x & Ex & _)]; cbn in Ex; congruence.
Qed.

(** Removing a transaction that is not accepted takes everything along that needs its outputs. *)
Lemma remove_valid X A (w : view) p p' tx : pool_valid_but (fun o => X o \/ o.1 = txid tx /\ IsAvailable (tx_coins tx MEMPOOL_HEIGHT) o.2 = true) A w p ->
  no_collision p [tx] -> without p tx p' -> pool_valid_but X A w p'.
Proof.
  intros Hv Hcol Hw. pose proof (pruned_valid _ _ _ _ _ Hv (without_pruned _ _ _ Hw)) as [Hok Hin Hnf Han]. split; [done| |done|done].
  intros h e o He Ho. destruct (Hin h e o He Ho) as [|[|[|[Eo Ha]]]]; auto. exfalso.
  apply (wo_left _ _ _ Hw) in He as [He Hnd]. apply Hnd. apply rtc_once. exists e, o.2. split; [done|]. rewrite <- Eo, <- surjective_pairing.
  split; [done|]. split; [|by right]. apply tx_coins_range in Ha. unfold outputs_of. destruct (mapTx p !! o.1) as [ea|] eqn:Ea; [|done].
  rewrite Eo in Ea. pose proof (Hcol tx ea (list_elem_of_here tx []) Ea) as Et. by rewrite Et.
Qed.

(** What a successful acceptance has checked and done. *)
Lemma AcceptToMemoryPool_Ok env p (v : V) tx fl fa p' : view_inv v -> pool_ok p -> AcceptToMemoryPool usage env p v tx fl fa = Ok p' ->
  let w := overlay (view_of v) p in
  exists e, e_tx e = tx /\ mapTx p !! txid tx = None /\ pool_ok p' /\ mapTx p' = <[txid tx := e]> (mapTx p) /\
    utxo w (txid tx) = None /\ Forall (available w) (prevouts tx) /\
    Forall (fun s => nullifier_spent w SAPLING (sd_nullifier s) = false /\ is_Some (anchor_tree w SAPLING (sd_anchor s))) (tx_vShieldedSpend tx).
Proof.
  intros Hv Hp. unfold AcceptToMemoryPool. intros ([] & E1 & E)%res_bind_Ok. apply accept_transaction_ok in E1 as [Hct Hcb].
  apply res_bind_Ok in E as ([] & E2 & E). apply res_bind_Ok in E as ([] & E3 & E). apply res_bind_Ok in E as (r & E4 & E).
  apply res_bind_Ok in E as (e & E5%accept_inputs_tx & E). guards. unfold exists_tx in E2. apply bool_decide_eq_false in E2.
  assert (mapTx p !! txid tx = None) as Hnew by (by apply eq_None_not_Some). apply no_conflict_spec in E3 as [Hf1 Hf2].
  destruct (accept_coins_spec _ _ _ _ Hv Hcb E4) as (Hn & Hin & Hsh). subst tx.
  destruct (addUnchecked_ok p e Hp) as (p1 & Ea & Hok' & Em).
  { split; [done|by apply CheckTransaction_nodup|done|done]. }
  rewrite Ea in E. injection E as <-. by exists e.
Qed.

Lemma accept_spec env p (v : V) tx fLimitFree fRejectAbsurdFee p' :
  view_inv v -> pool_valid (view_of v) p -> acyclic p -> AcceptToMemoryPool usage env p v tx fLimitFree fRejectAbsurdFee = Ok p' ->
  pool_valid (view_of v) p' /\ acyclic p' /\ mapTx p !! txid tx = None /\ exists e, e_tx e = tx /\ mapTx p' = <[txid tx := e]> (mapTx p).
Proof.
  intros Hv Hp Hac E. destruct (AcceptToMemoryPool_Ok _ _ _ _ _ _ _ Hv (pv_ok _ _ _ _ Hp) E) as (e & Et & Hnew & Hok & Em & Hn & Hin & Hsh).
  split; [|split; [|split; [done|by exists e]]].
  - apply (add_valid (fun _ => False) (fun _ => False) _ p p' tx e); try done. revert Hp. apply pool_valid_weaken; [by intros o []|done].
  - by eapply add_acyclic.
Qed.

(** C11. A transaction that [AcceptToMemoryPool] accepts keeps the pool valid for the coin set of
    the tip: it was not in the pool, it is the only one added, every input of every
    transaction is still an unspent output of the coin set or of another transaction of the
    pool, no nullifier is spent twice, all anchors are known, the indexes and totals agree
    with the entries, and no transaction depends on itself. *)
Theorem accept_keeps_pool env p (v : V) tx fLimitFree fRejectAbsurdFee p' :
  view_inv v -> pool_valid (view_of v) p -> acyclic p -> AcceptToMemoryPool usage env p v tx fLimitFree fRejectAbsurdFee = Ok p' ->
  pool_valid (view_of v) p' /\ acyclic p' /\ mapTx p !! txid tx = None /\ exists e, e_tx e = tx /\ mapTx p' = <[txid tx := e]> (mapTx p).
Proof. apply accept_spec. Qed.
End Acceptance.

(** ** A concrete acceptance *)

#[local] Existing Instance block_params.
#[local] Existing Instance block_params_laws.
#[local] Existing Instance demo_env.
#[local] Instance pool_sig_crypto : SigCrypto := {| blake2b p x := le_bytes 32 (le_val (p ++ x)); pubkey_Verify _ _ _ := true |}.
#[local] Instance pool_verifier : SaplingVerifier := {|
  ctx := unit; sapling_verification_ctx_init := tt; sapling_check_spend _ _ _ := (true, tt); sapling_check_output _ _ := (true, tt);
  sapling_final_check _ _ _ _ := true
|}.

Definition demo_accept : accept_env := {|
  ae_nChainHeight := 200000; ae_RequireStandard := false;
  ae_policy := {| sp_solver := Standard.demo_policy; fIsBareMultisigStd := true; minRelayTxFee := 30; burn_address := [] |};
  ae_origin := MSG_TX; ae_isIBD := false; ae_median_time := 1700000000; ae_adjusted_time := 1700000000; ae_now := 1700000000;
  ae_relaypriority := false; ae_ticket := NOT_TICKET; ae_allow_free := false; ae_priority_delta := false; ae_rate_limited := false
|}.

Definition demo_accepted : res accept_fail CTxMemPool :=
  AcceptToMemoryPool (fun _ => 0) demo_accept empty_pool block_cache demo_spending true true.
Lemma demo_accepted_ok : is_ok demo_accepted = true.
Proof. vm_compute. reflexivity. Qed.

Lemma empty_pool_valid w : pool_valid w empty_pool.
Proof. split; [exact empty_pool_ok|done|done|done]. Qed.
Lemma empty_pool_acyclic : acyclic empty_pool.
Proof. intros b. constructor. by intros a (ea & _ & _ & E & _). Qed.

Lemma block_view_inv : view_inv block_cache.
Proof. exact block_cache_inv. Qed.

Lemma demo_accepted_valid : exists p' e, demo_accepted = Ok p' /\ pool_valid (cache_view_of block_cache) p' /\
  e_tx e = demo_spending /\ mapTx p' = {[ txid demo_spending := e ]}.
Proof.
  destruct demo_accepted as [p'|] eqn:E; [|pose proof demo_accepted_ok as F; rewrite E in F; discriminate F].
  destruct (accept_spec (fun _ => 0) demo_accept empty_pool block_cache demo_spending true true p' block_view_inv (empty_pool_valid _) empty_pool_acyclic E) as (Hv & _ & _ & e & Et & Em).
  exists p', e. split; [reflexivity|]. split; [exact Hv|]. split; [exact Et|exact Em].
Qed.

Lemma accept_keeps_pool_witness : exists p' e, demo_accepted = Ok p' /\ pool_valid (cache_view_of block_cache) p' /\ mapTx p' = {[ txid demo_spending := e ]}.
Proof.
  destruct demo_accepted as [p'|] eqn:E; [|pose proof demo_accepted_ok as F; rewrite E in F; discriminate F].
  destruct (accept_keeps_pool (fun _ => 0) demo_accept empty_pool block_cache demo_spending true true p' block_view_inv (empty_pool_valid _) empty_pool_acyclic E)
    as (Hv & _ & _ & e & _ & Em).
  exists p', e. split; [reflexivity|]. split; [exact Hv|exact Em].
Defined.
