(* ===== verification/ChainTip.v ===== *)
(** * Moving the tip of the active chain

    [ConnectTip] and [DisconnectTip] of [main.cpp]: a block is applied to the coin cache of
    the node through a cache of its own, which is then flushed, and the memory pool follows.

    Arguments: the block read from disk, the verdict of the checks that are repeated after a
    reorganisation, the outcome of writing to disk and of erasing tickets, and for every
    transaction that returns to the pool the environment in which it is accepted.  The
    notifications of wallets and other listeners are left out. *)

From stdpp Require Import gmap.
From S2P Require Import Prelude Script Interpreter Serialize Compressor Coins CoinsView Amount Upgrades Transaction Undo ChainState SigHash TxChecks Mempool MempoolAccept.
Open Scope Z_scope.

Section ChainTip.
Context `{CacheParams} `{Crypto} `{SigCrypto} `{SaplingVerifier} `{Secp256k1} {B : Type} `{!CCoinsView B} `{!ConnectEnv}.
Context (RecursiveDynamicUsage : CTransaction -> Z).

(** [gl_pCoinsTip], [mempool], the hash of the tip of [chainActive] and the undo file. *)
Record node := {
  nd_coins : CCoinsViewCache B;
  nd_pool : CTxMemPool;
  nd_tip : option bytes;
  nd_undo : option bytes
}.

Inductive tip_fail : Type :=
| NoBlock                                   (* [AbortNode] *)
| CheckFailed (mark_failed : bool)          (* the index entry gets [BLOCK_FAILED_VALID] *)
| ConnectFailed (e : connect_fail)
| DisconnectFailed
| TicketFailed
| DiskFailed
| PoolFailed (e : pool_fail)
| TipAssertion.

(** A failure with the state it leaves. *)
Definition tip_res (A : Type) : Type := res (tip_fail * node) A.
Definition or_tip {E A : Type} (n : node) (f : E -> tip_fail) (r : res E A) : tip_res A :=
  match r with Ok a => Ok a | Err e => Err (f e, n) end.

Definition set_coins_tip (n : node) (c : CCoinsViewCache B) : node :=
  {| nd_coins := c; nd_pool := nd_pool n; nd_tip := nd_tip n; nd_undo := nd_undo n |}.
Definition set_pool (n : node) (p : CTxMemPool) : node :=
  {| nd_coins := nd_coins n; nd_pool := p; nd_tip := nd_tip n; nd_undo := nd_undo n |}.
Definition set_undo (n : node) (f : option bytes) : node :=
  {| nd_coins := nd_coins n; nd_pool := nd_pool n; nd_tip := nd_tip n; nd_undo := f |}.

Definition AddTransactionsUpdated (p : CTxMemPool) (n : Z) : CTxMemPool :=
  {| mapTx := mapTx p; mapNextTx := mapNextTx p; mapNullifiers := mapNullifiers p; mapDeltas := mapDeltas p; totalTxSize := totalTxSize p;
     cachedInnerUsage := cachedInnerUsage p; nTransactionsUpdated := u32 (nTransactionsUpdated p + n); notices := notices p |}.

(** [UpdateTip] without its warnings. *)
Definition UpdateTip (n : node) (tip : option bytes) : node :=
  {| nd_coins := nd_coins n; nd_pool := AddTransactionsUpdated (nd_pool n) 1; nd_tip := tip; nd_undo := nd_undo n |}.

(** What happens on the way to and on the disk: whether the coins are flushed, and whether
    writing succeeds. *)
Record disk := { dk_flush_coins : bool; dk_ok : bool }.

(** [FlushStateToDisk], its part about the coins of the tip. *)
Definition flush_chainstate (d : disk) (n : node) : tip_res node :=
  if negb (dk_ok d) then Err (DiskFailed, n)
  else if dk_flush_coins d then
    let? c := or_tip n (fun _ => DiskFailed) (Flush (nd_coins n)) in Ok (set_coins_tip n c)
  else Ok n.

(** The tree at the best anchor, which must be known. *)
Definition best_tree (n : node) (c : CCoinsViewCache B) : tip_res (CCoinsViewCache B) :=
  let '(rt, c) := cache_GetBestAnchor c SAPLING in
  let '(t, c) := cache_GetAnchorAt c SAPLING rt in
  match t with Some _ => Ok c | None => Err (TipAssertion, n) end.

(** [validate] is the verdict of [CheckBlock] and [ContextualCheckBlock] when they are run
    again: [Some mark] when they fail. *)
Definition ConnectTip (n : node) (d : disk) (block : option CBlock) (idx : block_index) (validate : option bool) (fExpensiveChecks : bool)
  : tip_res (node * block_index) :=
  if negb (bool_decide (p_hash <$> pprev idx = nd_tip n)) then Err (TipAssertion, n) else
  match block with
  | None => Err (NoBlock, n)
  | Some block =>
      match validate with
      | Some mark => Err (CheckFailed mark, n)
      | None =>
          let? c := best_tree n (nd_coins n) in
          let n := set_coins_tip n c in
          let? r := or_tip n ConnectFailed (ConnectBlock block idx (mk_cache empty_cache (nd_coins n)) (nd_undo n) fExpensiveChecks false) in
          let '(view, idx, undo_file) := r in
          let? view := or_tip n (fun _ => TipAssertion) (Flush view) in
          let? n := flush_chainstate d (set_undo (set_coins_tip n (base view)) undo_file) in
          let? r := or_tip n PoolFailed (removeForBlock (nd_pool n) (vtx block) []) in
          let n := set_pool n r.1 in
          let? p := or_tip n PoolFailed (removeExpired (nd_pool n) (bi_nHeight idx)) in
          Ok (UpdateTip (set_pool n p) (Some (bi_hash idx)), idx)
      end
  end.

(** The transactions of a disconnected block return to the pool if they can; otherwise what
    depends on them leaves it. *)
Fixpoint resurrect (env : CTransaction -> accept_env) (n : node) (txs : list CTransaction) : tip_res node :=
  match txs with
  | [] => Ok n
  | tx :: txs =>
      let? p :=
        (match (if IsCoinBase tx then Err MissingInputs
                else AcceptToMemoryPool RecursiveDynamicUsage (env tx) (nd_pool n) (nd_coins n) tx false false) with
         | Ok p => Ok p
         | Err Undefined => Err (TipAssertion, n)
         | Err _ => let? r := or_tip n PoolFailed (remove (nd_pool n) tx true) in Ok r.1
         end) in
      resurrect env (set_pool n p) txs
  end.

Definition DisconnectTip (env : CTransaction -> accept_env) (n : node) (d : disk) (block : option CBlock) (idx : option block_index)
    (tickets_erased fBare : bool) : tip_res node :=
  match idx with
  | None => Err (TipAssertion, n)
  | Some idx =>
  match block with
  | None => Err (NoBlock, n)
  | Some block =>
      let '(sproutBefore, c) := cache_GetBestAnchor (nd_coins n) SPROUT in
      let '(saplingBefore, c) := cache_GetBestAnchor c SAPLING in
      let n := set_coins_tip n c in
      let? r := or_tip n (fun _ => DisconnectFailed) (DisconnectBlock block idx (mk_cache empty_cache (nd_coins n)) (nd_undo n)) in
      match r with
      | (DISCONNECT_OK, view) =>
          let? view := or_tip n (fun _ => TipAssertion) (Flush view) in
          let '(sproutAfter, c) := cache_GetBestAnchor (base view) SPROUT in
          let '(saplingAfter, c) := cache_GetBestAnchor c SAPLING in
          let? n := flush_chainstate d (set_coins_tip n c) in
          if negb tickets_erased then Err (TicketFailed, n) else
          let? n := (if fBare then Ok n
                     else
                       let? n := resurrect env n (vtx block) in
                       let? p := (if bytes_eqb sproutBefore sproutAfter then Ok (nd_pool n)
                                  else or_tip n PoolFailed (removeWithAnchor (nd_pool n) sproutBefore SPROUT)) in
                       let n := set_pool n p in
                       let? p := (if bytes_eqb saplingBefore saplingAfter then Ok (nd_pool n)
                                  else or_tip n PoolFailed (removeWithAnchor (nd_pool n) saplingBefore SAPLING)) in
                       Ok (set_pool n p)) in
          let n := UpdateTip n (p_hash <$> pprev idx) in
          let? c := best_tree n (nd_coins n) in
          Ok (set_coins_tip n c)
      | (_, _) => Err (DisconnectFailed, n)
      end
  end
  end.
End ChainTip.
