(* ===== verification/ChainTipProps.v ===== *)
(** * Properties of moving the tip

    [ConnectTip] and [DisconnectTip] keep the coin cache consistent and the memory pool valid
    for the coin set of the new tip. *)

From stdpp Require Import gmap relations.
From S2P Require Import Prelude Script Interpreter InterpreterSafety Serialize Compressor Amount Coins CoinsView CoinsViewProps Upgrades Transaction Undo ChainState CacheSteps ChainStateProps SigHash TxChecks Mempool MempoolProps MempoolAccept MempoolChain ChainTip.
Open Scope Z_scope.

(** ** Caches that can be flushed *)

Section Flushable.
Context `{CacheParamsLaws} {V : Type} `{!CCoinsView V} `{!CCoinsViewLaws V}.

Record flushable (c : CCoinsViewCache V) : Prop := {
  fl_block : hash_IsNull (hashBlock (data c)) = false;
  fl_anchors : forall ty, hash_IsNull (hashAnchor (data c) ty) = false
}.

Lemma best_anchor_data (c : CCoinsViewCache V) ty h c' : cache_GetBestAnchor c ty = (h, c') ->
  hashAnchor (data c') ty = h /\ hashBlock (data c') = hashBlock (data c) /\ forall ty', ty' <> ty -> hashAnchor (data c') ty' = hashAnchor (data c) ty'.
Proof.
  unfold cache_GetBestAnchor. destruct (hash_IsNull _); [|by intros [= <- <-]]. destruct (GetBestAnchor (base c) ty) as [x b].
  intros [= <- <-]. cbn -[upd]. rewrite upd_same. split; [done|]. split; [done|]. intros ty' Hne. by rewrite upd_other.
Qed.

Lemma anchor_at_data (c : CCoinsViewCache V) ty rt r c' : cache_GetAnchorAt c ty rt = (r, c') ->
  hashBlock (data c') = hashBlock (data c) /\ hashAnchor (data c') = hashAnchor (data c).
Proof.
  unfold cache_GetAnchorAt. destruct (cacheAnchors _ _ !! rt) as [e|]; [by intros [= _ <-]|].
  destruct (GetAnchorAt (base c) ty rt) as [[t|] b]; intros [= _ <-]; done.
Qed.

Lemma PushAnchor_data (c : CCoinsViewCache V) ty t : let c' := PushAnchor c ty t in
  hashAnchor (data c') ty = tree_root ty t /\ hashBlock (data c') = hashBlock (data c) /\ forall ty', ty' <> ty -> hashAnchor (data c') ty' = hashAnchor (data c) ty'.
Proof.
  unfold PushAnchor. destruct (cache_GetBestAnchor c ty) as [h c1] eqn:E. destruct (best_anchor_data _ _ _ _ E) as (E1 & E2 & E3).
  case_bool_decide as Hd; [by subst|]. cbn -[upd]. rewrite upd_same. split; [done|]. split; [done|]. intros ty' Hne. rewrite upd_other by done. by apply E3.
Qed.

Lemma PopAnchor_data (c : CCoinsViewCache V) ty rt c' : PopAnchor c ty rt = Ok c' ->
  hashAnchor (data c') ty = rt /\ hashBlock (data c') = hashBlock (data c) /\ forall ty', ty' <> ty -> hashAnchor (data c') ty' = hashAnchor (data c) ty'.
Proof.
  unfold PopAnchor. destruct (cache_GetBestAnchor c ty) as [h c1] eqn:E. destruct (best_anchor_data _ _ _ _ E) as (E1 & E2 & E3).
  case_bool_decide as Hd; [intros [= <-]; by subst|]. destruct (cache_GetAnchorAt c1 ty h) as [r c2] eqn:Ea.
  destruct (anchor_at_data _ _ _ _ _ Ea) as [F1 F2]. destruct r; [|done]. intros [= <-]. cbn -[upd]. rewrite upd_same.
  split; [done|]. split; [by rewrite F1|]. intros ty' Hne. rewrite upd_other by done. rewrite F2. by apply E3.
Qed.

Context `{Crypto} `{Secp256k1} `{!ConnectEnv}.

Lemma ConnectBlock_flushable block idx prev c file fe c' idx' file' : cache_inv c -> pprev idx = Some prev -> block_hash block <> genesis_hash ->
  hash_IsNull (bi_hash idx) = false -> ConnectBlock block idx c file fe false = Ok (c', idx', file') -> flushable c'.
Proof.
  intros Hi Hp Hg Hh E. destruct (ConnectBlock_inv _ _ _ _ _ _ _ _ _ Hi Hp Hg E) as (c1 & ts & t & st & _ & _ & _ & _ & _ & _ & _ & -> & _).
  split; [done|]. intros ty. cbn -[hash_IsNull]. destruct (PushAnchor_data (cs_view st) SPROUT ts) as (E1 & _ & _).
  destruct (PushAnchor_data (PushAnchor (cs_view st) SPROUT ts) SAPLING (cs_tree st)) as (E2 & _ & E3).
  destruct ty; [rewrite E3, E1 by done|rewrite E2]; apply root_not_null.
Qed.

Lemma DisconnectBlock_flushable block idx prev pos u c file c' :
  pprev idx = Some prev -> nUndoPos idx = Some pos -> UndoReadFromDisk file pos (p_hash prev) = Ok (Some u) ->
  hash_IsNull (p_hash prev) = false -> hash_IsNull (old_sprout_tree_root u) = false ->
  hash_IsNull (if NetworkUpgradeActive (p_nHeight prev) upgrades UPGRADE_SAPLING then p_hashFinalSaplingRoot prev else empty_root SAPLING) = false ->
  DisconnectBlock block idx c file = Ok (DISCONNECT_OK, c') -> flushable c'.
Proof.
  intros Hp Hpos Hr Hh Hs Hsa. unfold DisconnectBlock. destruct (cache_GetBestBlock c) as [b c1]. destruct (negb _); [done|]. rewrite Hpos, Hp, Hr.
  destruct (negb _); [done|]. intros ([[fc c2]|] & _ & E)%res_bind_Ok; [|done].
  apply res_bind_Ok in E as (c3 & E3%lift_cache_Ok & E). apply res_bind_Ok in E as (c4 & E4%lift_cache_Ok & E). injection E as _ <-.
  destruct (PopAnchor_data _ _ _ _ E3) as (F1 & _ & _). destruct (PopAnchor_data _ _ _ _ E4) as (G1 & _ & G3).
  split; [done|]. intros ty. cbn -[hash_IsNull]. destruct ty; [rewrite G3, F1 by done|rewrite G1]; done.
Qed.
End Flushable.

(** ** Connecting *)

Section Tip.
Context `{CacheParamsLaws} `{CryptoLaws} `{Secp256k1Laws} `{SigCrypto} `{SaplingVerifier} {B : Type} `{!CCoinsView B} `{!CCoinsViewLaws B} `{!CCoinsViewWrites B} `{!ConnectEnv}.
Context (usage : CTransaction -> Z).

Implicit Types n : node (B := B).

(** The coin set of the tip. *)
Definition coin_set n : view := cache_view_of (nd_coins n).

Record node_ok n : Prop := {
  no_cache : cache_inv (nd_coins n);
  no_entries : view_ok (coin_set n);
  no_pool : pool_valid (coin_set n) (nd_pool n)
}.

Lemma write_undo_same idx u file idx' file' : write_undo idx u file = Ok (idx', file') -> bi_hash idx' = bi_hash idx /\ bi_nHeight idx' = bi_nHeight idx.
Proof.
  unfold write_undo. destruct (negb _); [by intros [= <- _]|]. intros ([idx1 f1] & E1 & E2)%res_bind_Ok.
  assert (bi_hash idx1 = bi_hash idx /\ bi_nHeight idx1 = bi_nHeight idx) as [F1 F2].
  { destruct (nUndoPos idx); [by injection E1 as <- _|]. destruct (block_undo_Serialize u); [|done]. destruct (FindUndoPos _); [|done].
    destruct (pprev idx); [|by injection E1 as <- _]. destruct (UndoWriteToDisk _ _ _ _ _) as [[[]|]|]; try done. by injection E1 as <- _. }
  cbn [fst snd] in E2. destruct (IsActivationHeightForAnyUpgrade _ _); injection E2 as <- _; done.
Qed.

Lemma Flush_parent (c : CCoinsViewCache (CCoinsViewCache B)) : cache_inv c -> flushable c ->
  exists c', Flush c = Ok c' /\ cache_inv (base c') /\ cache_view_of (base c') ≡ cache_view_of c /\ flushable (base c').
Proof.
  intros Hi [Hb Ha]. destruct (Flush_spec c Hi Hb Ha) as (c' & E & Hi' & Ev & _). exists c'. split; [done|]. split; [apply (ci_base _ Hi')|]. split; [exact Ev|].
  revert E. unfold Flush. cbn [BatchWrite cache_view]. unfold cache_BatchWrite. intros (b & Eb & [= <-])%res_bind_Ok. cbn [base].
  destruct (hasModifier (data (base c))); [done|]. apply res_bind_Ok in Eb as (x & _ & [= <-]). split; [exact Hb|]. intros ty. exact (Ha ty).
Qed.

Lemma flush_chainstate_spec d n : cache_inv (nd_coins n) -> flushable (nd_coins n) ->
  if dk_ok d then exists n', flush_chainstate d n = Ok n' /\ cache_inv (nd_coins n') /\ coin_set n' ≡ coin_set n /\
    nd_pool n' = nd_pool n /\ nd_tip n' = nd_tip n /\ nd_undo n' = nd_undo n
  else flush_chainstate d n = Err (DiskFailed, n).
Proof.
  intros Hi [Hb Ha]. unfold flush_chainstate. destruct (dk_ok d); cbn [negb]; [|done]. destruct (dk_flush_coins d); [|by exists n].
  destruct (Flush_spec (nd_coins n) Hi Hb Ha) as (c' & -> & Hi' & _ & Ev & _). cbn [or_tip res_bind]. by exists (set_coins_tip n c').
Qed.

Lemma best_tree_step n c c' : cache_inv c -> best_tree n c = Ok c' -> cache_step c c' (cache_view_of c).
Proof.
  intros Hi. unfold best_tree. destruct (cache_GetBestAnchor c SAPLING) as [rt c1] eqn:E1. destruct (GetBestAnchor_step _ _ _ _ Hi E1) as [Hs1 _].
  destruct (cache_GetAnchorAt c1 SAPLING rt) as [t c2] eqn:E2. destruct (GetAnchorAt_step _ _ _ _ _ (step_inv _ _ _ Hs1) E2) as [Hs2 _].
  destruct t; [|done]. intros [= <-]. by eapply read_step_trans.
Qed.

Lemma best_tree_fail n c e : best_tree n c = Err e -> e.1 = TipAssertion.
Proof.
  unfold best_tree. destruct (cache_GetBestAnchor c SAPLING) as [rt c1]. destruct (cache_GetAnchorAt c1 SAPLING rt) as [[t|] c2]; [done|].
  by intros [= <-].
Qed.

(** Pushing an anchor and naming the best block do not take anything away from the pool. *)
Lemma pushed_valid w t h p : pool_valid w p -> pool_valid (set_best_block (pushed w t) h) p.
Proof.
  intros [Hok Hin Hnf Han]. split; [done| | |].
  - intros x e o He Ho. destruct (Hin x e o He Ho) as [|[(y & Ey & Hy)|[]]]; [by left|]. right. left. exists y. split; [|done].
    cbn. unfold pushed. by case_decide.
  - intros x e nf He Hnf'. cbn. unfold pushed. case_decide; cbn; by apply (Hnf x e).
  - intros x e s He Hs. left. destruct (Han x e s He Hs) as [Ha|[]]. cbn. unfold pushed. case_decide as Hd; [done|]. cbn.
    case_decide; [by eexists|done].
Qed.

Lemma view_ok_pushed w t h : view_ok w -> view_ok (set_best_block (pushed w t) h).
Proof. intros Hw x c. cbn. unfold pushed. case_decide; apply Hw. Qed.

(** What connecting a block does to the coin set and the pool. *)
Record tip_connected n (block : CBlock) (idx : block_index) n' : Prop := {
  tn_ok : node_ok n';
  tn_view : exists us w1 t t', txs_connected (bi_nHeight idx) (coin_set n) (vtx block) us w1 /\
    anchor_tree (coin_set n) SAPLING (best_anchor (coin_set n) SAPLING) = Some t /\ append_block t (vtx block) = Ok t' /\
    coin_set n' ≡ set_best_block (pushed w1 t') (bi_hash idx);
  tn_tip : nd_tip n' = Some (bi_hash idx);
  tn_sub : mapTx (nd_pool n') ⊆ mapTx (nd_pool n);
  tn_clear : Forall (clear_of (nd_pool n')) (vtx block);
  tn_expired : forall h e, mapTx (nd_pool n') !! h = Some e -> IsExpiredTx (e_tx e) (bi_nHeight idx) = false
}.

Lemma AddTransactionsUpdated_valid w p k : pool_valid w p -> pool_valid w (AddTransactionsUpdated p k).
Proof. intros [[] Hin Hnf Han]. split; [by split|exact Hin|exact Hnf|exact Han]. Qed.

Lemma connect_pool nHeight w txs us w1 t h p height : txs_connected nHeight w txs us w1 -> pool_valid w p -> no_collision p txs ->
  let v := set_best_block (pushed w1 t) h in
  exists p1 r p', removeForBlock p txs [] = Ok (p1, r) /\ removeExpired p1 height = Ok p' /\ pool_valid v p' /\ mapTx p' ⊆ mapTx p /\
    Forall (clear_of p') txs /\ forall h e, mapTx p' !! h = Some e -> IsExpiredTx (e_tx e) height = false.
Proof.
  intros Htx Hp Hcol v. destruct (removeForBlock_valid _ _ _ _ _ Htx p [] Hp Hcol) as (p1 & r & E1 & Hp1 & Hs1 & Hc1).
  destruct (remove_filter p1 (fun e => IsExpiredTx (e_tx e) height) (pv_ok _ _ _ _ Hp1)) as (p' & E2 & Hd). pose proof (dr_pruned _ _ _ Hd) as Hpr.
  exists p1, r, p'. split; [done|]. split; [done|]. split; [apply pushed_valid; by eapply pruned_valid|].
  pose proof (pr_shrinks _ _ Hpr) as Hsh. split; [etrans; [apply Hsh|done]|]. split.
  - eapply Forall_impl; [exact Hc1|]. intros tx. apply clear_of_shrinks; [apply (pv_ok _ _ _ _ Hp1)|done].
  - intros x e He. pose proof (dropped_bad _ _ _ _ _ Hd He) as Hb. cbv beta in Hb. by apply not_true_iff_false.
Qed.

(** The requirements on the block: it passed the checks that do not look at the coins, its
    index entry extends the tip, and no other transaction has the hash of one of its
    transactions. *)
Record can_connect n (block : CBlock) (idx : block_index) (prev : prev_index) : Prop := {
  cc_checked : block_checked block;
  cc_extends : extends idx prev;
  cc_genesis : block_hash block <> genesis_hash;
  cc_collision : no_collision (nd_pool n) (vtx block)
}.

Lemma ConnectTip_spec n d block idx prev validate fe : node_ok n -> can_connect n block idx prev ->
  match ConnectTip n d (Some block) idx validate fe with
  | Ok (n', idx') => tip_connected n block idx n' /\ nd_tip n = Some (p_hash prev) /\
      exists c c' file', cache_step (nd_coins n) c (coin_set n) /\
        ConnectBlock block idx (mk_cache empty_cache c) (nd_undo n) fe false = Ok (c', idx', file') /\ nd_undo n' = file' /\ coin_set n' ≡ cache_view_of c'
  | Err (f, _) => forall e, f <> PoolFailed e
  end.
Proof.
  intros [Hi Hw Hp] [Hbc Hex Hgen Hcol]. unfold ConnectTip. case_bool_decide as Htip; cbn [negb]; [|done]. destruct validate as [mark|]; [done|].
  destruct (best_tree n (nd_coins n)) as [c|[f n0]] eqn:Et; cbn [res_bind]; [|apply best_tree_fail in Et; cbn in Et; by subst].
  pose proof (best_tree_step _ _ _ Hi Et) as Hs. cbn [nd_coins nd_undo set_coins_tip].
  pose proof (new_cache_inv c (step_inv _ _ _ Hs)) as Hic.
  destruct (ConnectBlock block idx (mk_cache empty_cache c) (nd_undo n) fe false) as [[[c' idx'] file']|e] eqn:Ec; cbn [or_tip res_bind]; [|done].
  assert (cache_view_of (mk_cache empty_cache c) ≡ coin_set n) as Ev by (rewrite (new_cache_view c); apply Hs).
  assert (view_ok (cache_view_of (mk_cache empty_cache c))) as Hw' by (by rewrite Ev).
  destruct (ConnectBlock_connected block idx prev (mk_cache empty_cache c) (nd_undo n) fe c' idx' file' Hic eq_refl Hw' Hbc Hex Hgen Ec)
    as (us & w1 & t & t' & Htx & _ & Ht & Happ & Hsc & _ & a & f & Ewu).
  pose proof (ConnectBlock_flushable _ _ _ _ _ _ _ _ _ Hic (ex_prev _ _ Hex) Hgen (ex_hash _ _ Hex) Ec) as Hfl.
  apply (txs_connected_start _ _ _ _ _ _ Ev) in Htx. rewrite Ev in Ht.
  destruct (txs_connected_ok _ _ _ _ _ Htx Hw (bc_txs _ Hbc) (ex_height _ _ Hex)) as (Hw1 & _).
  destruct (Flush_parent c' (step_inv _ _ _ Hsc) Hfl) as (c2 & Ef & Hi2 & Ev2 & Hfl2). rewrite Ef. cbn [or_tip res_bind].
  pose proof (flush_chainstate_spec d (set_undo (set_coins_tip (set_coins_tip n c) (base c2)) file') Hi2 Hfl2) as Hd.
  destruct (dk_ok d); [|by rewrite Hd]. destruct Hd as (n1 & -> & Hi1 & Ev1 & Ep1 & _ & Eu1). cbn [res_bind]. cbn [nd_pool nd_undo set_undo set_coins_tip] in Ep1, Eu1.
  destruct (write_undo_same _ _ _ _ _ Ewu) as [Eh1 Eh2]. cbn [bi_hash bi_nHeight set_sprout] in Eh1, Eh2.
  destruct (connect_pool _ _ _ _ _ t' (bi_hash idx) (nd_pool n) (bi_nHeight idx') Htx Hp Hcol) as (p1 & r & p' & E1 & E2 & Hv & Hsub & Hcl & Hexp).
  rewrite Ep1, E1. cbn [or_tip res_bind set_pool nd_pool fst]. rewrite E2. cbn [or_tip res_bind].
  assert (coin_set n1 ≡ set_best_block (pushed w1 t') (bi_hash idx)) as Evn by (rewrite Ev1; unfold coin_set; cbn [nd_coins set_undo set_coins_tip]; by rewrite Ev2, (step_view _ _ _ Hsc)).
  split.
  - split; cbn [nd_pool nd_tip UpdateTip set_pool mapTx AddTransactionsUpdated].
    + split; [exact Hi1| |]; unfold coin_set in *; cbn [nd_coins UpdateTip set_pool nd_pool].
      * rewrite Evn. by apply view_ok_pushed.
      * apply AddTransactionsUpdated_valid. eapply pool_valid_proper; [symmetry; exact Evn|exact Hv].
    + exists us, w1, t, t'. split; [done|]. split; [done|]. split; [done|]. exact Evn.
    + by rewrite Eh1.
    + exact Hsub.
    + eapply Forall_impl; [exact Hcl|]. intros tx [? ? ?]. by split.
    + rewrite Eh2 in Hexp. exact Hexp.
  - split; [by rewrite <- Htip, (ex_prev _ _ Hex)|]. exists c, c', file'. split; [exact Hs|]. split; [done|]. split; [exact Eu1|]. unfold coin_set in *. cbn [nd_coins UpdateTip set_pool]. by rewrite Evn, (step_view _ _ _ Hsc).
Qed.

(** ** Disconnecting *)

(** The pool of a tip, seen from before its block: outputs of the block may be missing, and
    the anchor of the block. *)
Lemma disconnect_pool nHeight w txs us w1 t h p : txs_connected nHeight w txs us w1 ->
  pool_valid (set_best_block (pushed w1 t) h) p -> pool_valid_but (output_of txs) (fun r => r = tree_root SAPLING t) w p.
Proof.
  intros Htx [Hok Hin Hnf Han]. destruct (txs_connected_back _ _ _ _ _ Htx) as (B1 & B2 & B3).
  split; [done| | |].
  - intros x e o He Ho. destruct (Hin x e o He Ho) as [|[(y & Ey & Hy)|[]]]; [by left|]. right. apply B1. exists y. split; [|done].
    cbn in Ey. unfold pushed in Ey. by case_decide.
  - intros x e nf He Hnf'. apply B2. pose proof (Hnf x e nf He Hnf') as Hn. cbn in Hn. unfold pushed in Hn. by case_decide.
  - intros x e s He Hs. destruct (Han x e s He Hs) as [Ha|[]]. cbn in Ha. unfold pushed in Ha. rewrite <- B3.
    case_decide; [by left|]. cbn in Ha. case_decide as Hd; [right; tauto|by left].
Qed.

Lemma output_of_cons tx txs (A : bytes -> Prop) w p : pool_valid_but (output_of (tx :: txs)) A w p ->
  pool_valid_but (fun o => output_of txs o \/ o.1 = txid tx /\ IsAvailable (tx_coins tx MEMPOOL_HEIGHT) o.2 = true) A w p.
Proof.
  apply pool_valid_weaken; [|done]. intros o (t & [->|Ht]%elem_of_cons & Hr); [by right|]. left. by exists t.
Qed.

(** Every transaction of the block returns to the pool, or what depends on it leaves. *)
Lemma resurrect_spec env n txs A : cache_inv (nd_coins n) -> pool_valid_but (output_of txs) A (coin_set n) (nd_pool n) ->
  no_collision (nd_pool n) txs -> NoDup (map txid txs) ->
  match resurrect usage env n txs with
  | Ok n' => nd_coins n' = nd_coins n /\ nd_tip n' = nd_tip n /\ nd_undo n' = nd_undo n /\ pool_valid_but (fun _ => False) A (coin_set n) (nd_pool n')
  | Err (f, n') => f = TipAssertion /\ nd_coins n' = nd_coins n /\
      exists tx p, tx ∈ txs /\ AcceptToMemoryPool usage (env tx) p (nd_coins n) tx false false = Err Undefined
  end.
Proof.
  revert n. induction txs as [|tx txs IH]; intros n Hi Hv Hcol Hnd; cbn [resurrect].
  { split; [done|]. split; [done|]. split; [done|]. eapply pool_valid_weaken; [|done|exact Hv]. intros o (t & Ht & _). set_solver. }
  cbn [map] in Hnd. apply NoDup_cons in Hnd as [Hnin Hnd]. apply output_of_cons in Hv.
  assert (no_collision (nd_pool n) [tx]) as Hcol1 by (intros t e Ht; apply Hcol; set_solver).
  assert (forall p, pool_valid_but (output_of txs) A (coin_set n) p -> no_collision p txs ->
    match resurrect usage env (set_pool n p) txs with
    | Ok n' => nd_coins n' = nd_coins n /\ nd_tip n' = nd_tip n /\ nd_undo n' = nd_undo n /\ pool_valid_but (fun _ => False) A (coin_set n) (nd_pool n')
    | Err (f, n') => f = TipAssertion /\ nd_coins n' = nd_coins n /\
        exists tx' p, tx' ∈ tx :: txs /\ AcceptToMemoryPool usage (env tx') p (nd_coins n) tx' false false = Err Undefined
    end) as Hnext.
  { intros p Hp Hc. specialize (IH (set_pool n p) Hi Hp Hc Hnd). destruct (resurrect usage env (set_pool n p) txs) as [n'|[f n']]; [done|].
    destruct IH as (-> & Hc' & t & q & Ht & Ha). split; [done|]. split; [done|]. exists t, q. split; [set_solver|done]. }
  destruct (if IsCoinBase tx then _ else _) as [p|f] eqn:Ea.
  - destruct (IsCoinBase tx); [done|]. cbn [res_bind]. assert (view_inv (nd_coins n)) as Hi' by exact Hi.
    destruct (AcceptToMemoryPool_Ok usage (env tx) (nd_pool n) (nd_coins n) tx false false p Hi' (pv_ok _ _ _ _ Hv) Ea) as (e & Et & Hnew & Hok & Em & _ & Hav & Hsh).
    apply Hnext; [by eapply add_valid|]. intros t x Ht Hx. rewrite Em, lookup_insert_ne in Hx; [apply (Hcol t x); [set_solver|done]|].
    intros E. apply Hnin. rewrite E. by apply list_elem_of_fmap_2.
  - destruct (remove_spec (nd_pool n) tx (pv_ok _ _ _ _ Hv)) as (p' & r & Er & Hw). rewrite Er.
    assert (no_collision p' txs) as Hcol' by (intros t x Ht Hx; apply (Hcol t x); [set_solver|]; eapply lookup_weaken; [exact Hx|by eapply without_shrinks]).
    pose proof (remove_valid _ _ _ _ _ _ Hv Hcol1 Hw) as Hv'.
    destruct f; cbn [or_tip res_bind fst]; try (by apply Hnext). destruct (IsCoinBase tx); [done|].
    split; [done|]. split; [done|]. exists tx, (nd_pool n). split; [set_solver|done].
Qed.

Lemma flushable_anchor (c : CCoinsViewCache B) ty : cache_inv c -> flushable c -> cache_GetBestAnchor c ty = (best_anchor (cache_view_of c) ty, c).
Proof. intros _ [_ Ha]. unfold cache_GetBestAnchor. cbn -[hash_IsNull]. by rewrite Ha. Qed.

Lemma best_tree_ok n (c : CCoinsViewCache B) : cache_inv c -> is_Some (anchor_tree (cache_view_of c) SAPLING (best_anchor (cache_view_of c) SAPLING)) ->
  exists c', best_tree n c = Ok c' /\ cache_step c c' (cache_view_of c).
Proof.
  intros Hi [t Ht]. unfold best_tree. destruct (cache_GetBestAnchor c SAPLING) as [rt c1] eqn:E1. destruct (GetBestAnchor_step _ _ _ _ Hi E1) as [Hs1 ->].
  destruct (cache_GetAnchorAt c1 SAPLING _) as [r c2] eqn:E2. destruct (GetAnchorAt_step _ _ _ _ _ (step_inv _ _ _ Hs1) E2) as [Hs2 Er].
  assert (r = Some t) as -> by (rewrite Er; by rewrite (step_view _ _ _ Hs1)). exists c2. split; [done|]. by eapply read_step_trans.
Qed.

Lemma chain_ok_proper w w' block prev : w ≡ w' -> chain_ok w block prev -> chain_ok w' block prev.
Proof.
  intros E [H5 H6 H7 H8]. split; [by rewrite <- E|intros ty; by rewrite <- E|by rewrite <- E|]. intros t t'. rewrite <- !E. apply H8.
Qed.

(** The pool at the end: the anchor of the block is gone, and whatever used it. *)
Lemma anchor_pool w p rt : pool_valid_but (fun _ => False) (fun r => r = rt) w p ->
  exists p', removeWithAnchor p rt SAPLING = Ok p' /\ pool_valid w p'.
Proof.
  intros Hv. destruct (remove_filter p (fun e => existsb (fun s => bytes_eqb (sd_anchor s) rt) (tx_vShieldedSpend (e_tx e))) (pv_ok _ _ _ _ Hv)) as (p' & E & Hd).
  exists p'. split; [exact E|]. pose proof (pruned_valid _ _ _ _ _ Hv (dr_pruned _ _ _ Hd)) as [Hok Hin Hnf Han]. split; [done|done|done|].
  intros h e s He Hs. destruct (Han h e s He Hs) as [|Hr]; [by left|]. exfalso. apply (dropped_bad _ _ _ _ _ Hd He). apply existsb_exists. exists s.
  split; [by apply list_elem_of_In|]. by apply bytes_eqb_spec.
Qed.

(** The tip before [ConnectTip], from the tip after it. *)
Lemma DisconnectBlock_tip n d0 block idx prev validate fe n1 idx1 (c : CCoinsViewCache B) :
  node_ok n -> can_connect n block idx prev -> chain_ok (coin_set n) block prev ->
  ConnectTip n d0 (Some block) idx validate fe = Ok (n1, idx1) -> cache_inv c -> cache_view_of c ≡ coin_set n1 ->
  pprev idx1 = Some prev /\ nd_tip n = Some (p_hash prev) /\
  (exists us w1 t t', txs_connected (bi_nHeight idx) (coin_set n) (vtx block) us w1 /\ is_Some (anchor_tree (coin_set n) SAPLING (best_anchor (coin_set n) SAPLING)) /\
    coin_set n1 ≡ set_best_block (pushed w1 t') (bi_hash idx) /\
    (forall ty, best_anchor w1 ty = best_anchor (coin_set n) ty) /\ append_block t (vtx block) = Ok t') /\
  exists d', DisconnectBlock block idx1 (mk_cache empty_cache c) (nd_undo n1) = Ok (DISCONNECT_OK, d') /\ cache_inv d' /\ flushable d' /\ cache_view_of d' ≡ coin_set n.
Proof.
  intros Hn Hcc Hco Ec Hi Ev. pose proof (ConnectTip_spec n d0 block idx prev validate fe Hn Hcc) as Hs. rewrite Ec in Hs.
  destruct Hs as (_ & Htip & c0 & c' & file' & Hs0 & Ecb & -> & Ev1). destruct Hn as [Hin Hw _]. destruct Hcc as [Hbc Hex Hgen _].
  pose proof (new_cache_inv c0 (step_inv _ _ _ Hs0)) as Hic.
  assert (cache_view_of (mk_cache empty_cache c0) ≡ coin_set n) as Ev0 by (rewrite (new_cache_view c0); apply Hs0).
  assert (view_ok (cache_view_of (mk_cache empty_cache c0))) as Hw' by (by rewrite Ev0).
  symmetry in Ev0. pose proof (chain_ok_proper _ _ _ _ Ev0 Hco) as [Hsz Han Hsap Hnew]. symmetry in Ev0.
  destruct (ConnectBlock_undo block idx prev (mk_cache empty_cache c0) (nd_undo n) fe c' idx1 file' Hic eq_refl Hw' Hbc Hex Hgen Hsz Ecb)
    as (us & w1 & t & t' & pos & Htx & Hbest & Ht & Happ & Hsc & E1 & E2 & E3 & E4 & Eread).
  assert (cache_view_of (mk_cache empty_cache c) ≡ set_best_block (pushed w1 t') (bi_hash idx)) as Evd.
  { rewrite (new_cache_view c). change (view_of c) with (cache_view_of c). by rewrite Ev, Ev1, (step_view _ _ _ Hsc). }
  split; [done|]. split; [done|]. split.
  - destruct (txs_connected_ok _ _ _ _ _ Htx Hw' (bc_txs _ Hbc) (ex_height _ _ Hex)) as (_ & _ & _ & _ & _ & Hba).
    exists us, w1, t, t'. split; [by eapply txs_connected_start|]. rewrite <- Ev0, Ht. split; [by eexists|]. split; [by rewrite Ev1, (step_view _ _ _ Hsc)|].
    split; [|done]. intros ty. rewrite Hba. by rewrite Ev0.
  - destruct (DisconnectBlock_restores block idx1 prev pos file' us (cache_view_of (mk_cache empty_cache c0)) w1 t' (mk_cache empty_cache c)) as (d' & Ed & Hid & Evd');
      rewrite ?E1, ?E2; try done; try (apply Hex).
    + by eapply Hnew.
    + apply (cache_empty_root _ SAPLING Hic).
    + exists d'. split; [done|]. split; [done|]. split; [|by rewrite Evd', Ev0].
      eapply DisconnectBlock_flushable; [exact E3|exact E4|exact Eread|apply Hex|exact (Han SPROUT)|rewrite <- Hsap; exact (Han SAPLING)|exact Ed].
Qed.

Lemma best_anchor_pushed w t h ty : best_anchor (set_best_block (pushed w t) h) ty = match ty with SPROUT => best_anchor w SPROUT | SAPLING => tree_root SAPLING t end.
Proof. cbn -[upd]. unfold pushed. case_decide as Hd; destruct ty; cbn -[upd]; rewrite ?upd_same, ?upd_other by done; done. Qed.

(** The node after a block is disconnected: the coin set from before the block, its tip, and
    the pool valid for it when the pool was to follow. *)
Record tip_restored n (fBare : bool) m' : Prop := {
  tr_cache : cache_inv (nd_coins m');
  tr_view : coin_set m' ≡ coin_set n;
  tr_tip : nd_tip m' = nd_tip n;
  tr_pool : fBare = false -> pool_valid (coin_set m') (nd_pool m')
}.

Lemma DisconnectTip_spec env n d0 d block idx prev validate fe n1 idx1 m fBare :
  node_ok n -> can_connect n block idx prev -> chain_ok (coin_set n) block prev ->
  ConnectTip n d0 (Some block) idx validate fe = Ok (n1, idx1) ->
  node_ok m -> coin_set m ≡ coin_set n1 -> nd_undo m = nd_undo n1 -> no_collision (nd_pool m) (vtx block) ->
  match DisconnectTip usage env m d (Some block) (Some idx1) true fBare with
  | Ok m' => tip_restored n fBare m'
  | Err (f, _) => f = DiskFailed /\ dk_ok d = false \/
      f = TipAssertion /\ exists tx p (c : CCoinsViewCache B), tx ∈ vtx block /\ AcceptToMemoryPool usage (env tx) p c tx false false = Err Undefined
  end.
Proof.
  intros Hn Hcc Hco Ec [Him _ Hpm] Evm Eum Hcol. pose proof (bc_nodup _ (cc_checked _ _ _ _ Hcc)) as Hnd. unfold DisconnectTip.
  destruct (cache_GetBestAnchor (nd_coins m) SPROUT) as [sb c1] eqn:E1. destruct (GetBestAnchor_step _ _ _ _ Him E1) as [Hs1 Esb].
  destruct (cache_GetBestAnchor c1 SAPLING) as [ab c2] eqn:E2. destruct (GetBestAnchor_step _ _ _ _ (step_inv _ _ _ Hs1) E2) as [Hs2' Eab].
  pose proof (read_step_trans _ _ _ Hs1 Hs2') as Hs2. cbn [nd_coins nd_undo set_coins_tip].
  destruct (DisconnectBlock_tip n d0 block idx prev validate fe n1 idx1 c2 Hn Hcc Hco Ec (step_inv _ _ _ Hs2))
    as (Eprev & Etip & (us & w1 & t & t' & Htx & Htree & Ev1 & Hba & _) & dv & Ed & Hid & Hfd & Evd); [by rewrite (step_view _ _ _ Hs2)|].
  rewrite Eum, Ed. cbn [or_tip res_bind]. destruct (Flush_parent dv Hid Hfd) as (fv & -> & Hif & Evf & Hff). cbn [or_tip res_bind].
  rewrite !(flushable_anchor _ _ Hif Hff).
  pose proof (flush_chainstate_spec d (set_coins_tip (set_coins_tip m c2) (base fv)) Hif Hff) as Hdisk.
  destruct (dk_ok d); [|rewrite Hdisk; by left]. destruct Hdisk as (m1 & -> & Hi1 & Evm1 & Ep1 & _ & _). cbn [res_bind negb].
  assert (coin_set m1 ≡ coin_set n) as Em1 by (rewrite Evm1; unfold coin_set; cbn [nd_coins set_coins_tip]; by rewrite Evf, Evd).
  assert (forall k, nd_coins k = nd_coins m1 -> (fBare = false -> pool_valid (coin_set n) (nd_pool k)) ->
    match (let? c := best_tree (UpdateTip k (p_hash <$> pprev idx1)) (nd_coins (UpdateTip k (p_hash <$> pprev idx1))) in
           Ok (set_coins_tip (UpdateTip k (p_hash <$> pprev idx1)) c)) with
    | Ok m' => tip_restored n fBare m'
    | Err (f, _) => f = DiskFailed /\ true = false \/
        f = TipAssertion /\ exists tx p (c : CCoinsViewCache B), tx ∈ vtx block /\ AcceptToMemoryPool usage (env tx) p c tx false false = Err Undefined
    end) as Hend.
  { intros k Ek Hk. cbn [nd_coins UpdateTip]. rewrite Ek. destruct (best_tree_ok (UpdateTip k (p_hash <$> pprev idx1)) (nd_coins m1) Hi1) as (c' & -> & Hsc).
    { unfold coin_set in *. by rewrite Em1. }
    assert (cache_view_of c' ≡ coin_set n) as Ec' by (rewrite (step_view _ _ _ Hsc); exact Em1).
    cbn [res_bind]. split; cbn [nd_coins nd_tip nd_pool set_coins_tip UpdateTip]; unfold coin_set in *; cbn [nd_coins set_coins_tip].
    - apply Hsc.
    - exact Ec'.
    - by rewrite Eprev, Etip.
    - intros Hf. apply AddTransactionsUpdated_valid. eapply pool_valid_proper; [symmetry; exact Ec'|]. by apply Hk. }
  destruct fBare; [by apply Hend|].
  cbn [nd_pool set_coins_tip] in Ep1.
  assert (pool_valid_but (output_of (vtx block)) (fun r => r = tree_root SAPLING t') (coin_set m1) (nd_pool m1)) as Hp1.
  { eapply pool_valid_proper; [symmetry; exact Em1|]. rewrite Ep1. eapply disconnect_pool; [exact Htx|]. eapply pool_valid_proper; [|exact Hpm]. by rewrite Evm, Ev1. }
  pose proof (resurrect_spec env m1 (vtx block) _ Hi1 Hp1 ltac:(by rewrite Ep1) Hnd) as Hres.
  destruct (resurrect usage env m1 (vtx block)) as [m2|[f m2]]; cbn [res_bind]; [|destruct Hres as (-> & _ & tx & p & Htx' & Ha); right; split; [done|]; by exists tx, p, (nd_coins m1)].
  destruct Hres as (Ec2 & _ & _ & Hp2). apply (pool_valid_proper _ _ _ _ _ Em1) in Hp2.
  assert (sb = best_anchor (coin_set n) SPROUT) as Esb'.
  { rewrite Esb. fold (coin_set m). rewrite Evm, Ev1, best_anchor_pushed. apply Hba. }
  assert (ab = tree_root SAPLING t') as Eab'.
  { rewrite Eab, (step_view _ _ _ Hs1). fold (coin_set m). by rewrite Evm, Ev1, best_anchor_pushed. }
  assert (bytes_eqb sb (best_anchor (cache_view_of (base fv)) SPROUT) = true) as ->.
  { apply bytes_eqb_spec. rewrite Esb'. by rewrite Evf, Evd. }
  cbn [res_bind]. destruct (bytes_eqb ab _) eqn:Eeq; cbn [res_bind].
  - apply Hend; [done|]. intros _. cbn [nd_pool set_pool]. apply bytes_eqb_spec in Eeq. rewrite Evf, Evd in Eeq.
    destruct Hp2 as [Hok Hin Hnf Han]. split; [done|done|done|]. intros h e s He Hs. left. destruct (Han h e s He Hs) as [|Hr]; [done|].
    rewrite Hr, <- Eab', Eeq. done.
  - destruct (anchor_pool _ _ _ Hp2) as (p' & Er & Hp'). cbn [nd_pool set_pool]. rewrite Eab', Er. cbn [or_tip res_bind]. by apply Hend.
Qed.

(** C5. [ConnectTip] keeps the node consistent.  When it succeeds, the coin set of the new tip is
    the old one with the transactions of the block applied in order and the new anchor, the
    coin cache is consistent, and the memory pool is valid for it: what the block contains,
    conflicts with or lets expire has left the pool, and nothing has been added.  It never
    fails because of the pool, whose pointers are never dangling. *)
Theorem connect_tip_follows n d block idx prev validate fExpensiveChecks : node_ok n -> can_connect n block idx prev ->
  match ConnectTip n d (Some block) idx validate fExpensiveChecks with
  | Ok (n', _) => tip_connected n block idx n'
  | Err (f, _) => forall e, f <> PoolFailed e
  end.
Proof.
  intros Hn Hc. pose proof (ConnectTip_spec n d block idx prev validate fExpensiveChecks Hn Hc) as Hs.
  destruct (ConnectTip _ _ _ _ _ _) as [[n' idx']|[f n']]; [by destruct Hs|exact Hs].
Qed.

(** C4. [DisconnectTip] undoes [ConnectTip] for the whole node.  After a block has been connected,
    and whatever the memory pool has done since, disconnecting it gives back the coin set and
    the tip from before the block, and the pool (with the transactions of the block that are
    accepted again, without those that need something the block had added) is valid for that
    coin set.  It fails only when the disk does, or when accepting a transaction again aborts. *)
Theorem disconnect_tip_restores env n d0 d block idx prev validate fExpensiveChecks n1 idx1 m fBare :
  node_ok n -> can_connect n block idx prev -> chain_ok (coin_set n) block prev ->
  ConnectTip n d0 (Some block) idx validate fExpensiveChecks = Ok (n1, idx1) ->
  node_ok m -> coin_set m ≡ coin_set n1 -> nd_undo m = nd_undo n1 -> no_collision (nd_pool m) (vtx block) ->
  match DisconnectTip usage env m d (Some block) (Some idx1) true fBare with
  | Ok m' => tip_restored n fBare m'
  | Err (f, _) => f = DiskFailed /\ dk_ok d = false \/
      f = TipAssertion /\ exists tx p (c : CCoinsViewCache B), tx ∈ vtx block /\ AcceptToMemoryPool usage (env tx) p c tx false false = Err Undefined
  end.
Proof. apply DisconnectTip_spec. Qed.
End Tip.

(** ** A concrete reorganisation

    A transaction is accepted, the next block contains it, and the block is disconnected
    again. *)

#[local] Existing Instance block_params.
#[local] Existing Instance block_params_laws.
#[local] Existing Instance demo_env.
#[local] Existing Instance pool_sig_crypto.
#[local] Existing Instance pool_verifier.

Definition pool_or_empty (r : res accept_fail CTxMemPool) : CTxMemPool := match r with Ok p => p | Err _ => empty_pool end.
Definition start_node : node (B := CCoinsViewDB) := {|
  nd_coins := block_cache; nd_pool := pool_or_empty demo_accepted; nd_tip := Some [7]; nd_undo := Some []
|}.
Definition good_disk : disk := {| dk_flush_coins := true; dk_ok := true |}.
Definition demo_connected : tip_res (B := CCoinsViewDB) (node (B := CCoinsViewDB) * block_index) :=
  ConnectTip (B := CCoinsViewDB) start_node good_disk (Some demo_block) demo_index None true.

Lemma demo_connected_ok : is_ok demo_connected = true.
Proof. vm_compute. reflexivity. Qed.

Lemma start_node_ok : node_ok start_node.
Proof.
  split; [exact block_cache_inv|exact block_view_ok|]. destruct demo_accepted_valid as (p' & e & E & Hv & _).
  unfold start_node. cbn [nd_pool]. rewrite E. exact Hv.
Qed.

Lemma demo_txids_differ : bytes_eqb (txid demo_spending) (txid demo_coinbase) = false.
Proof. vm_compute. reflexivity. Qed.

Lemma start_can_connect : can_connect start_node demo_block demo_index demo_prev.
Proof.
  split; [exact demo_block_checked|exact demo_extends|exact demo_not_genesis|].
  destruct demo_accepted_valid as (p' & e & E & _ & Et & Em). intros tx x Hin. unfold start_node. cbn [nd_pool]. rewrite E. cbn [pool_or_empty]. rewrite Em.
  intros [Ek <-]%lookup_singleton_Some. cbn [vtx demo_block] in Hin. apply elem_of_cons in Hin as [->|Hin].
  - exfalso. apply (proj2 (not_true_iff_false _) demo_txids_differ). apply bytes_eqb_spec. exact Ek.
  - apply elem_of_cons in Hin as [->|Hin]; [exact Et|]. clear E Em Ek. by apply elem_of_nil in Hin.
Qed.

Lemma connect_tip_follows_witness : exists n' idx', demo_connected = Ok (n', idx') /\ tip_connected start_node demo_block demo_index n'.
Proof.
  pose proof (connect_tip_follows start_node good_disk demo_block demo_index demo_prev None true start_node_ok start_can_connect) as Hc.
  destruct demo_connected as [[n' idx']|] eqn:E; [|pose proof demo_connected_ok as F; rewrite E in F; discriminate F].
  unfold demo_connected in E. rewrite E in Hc. exists n', idx'. split; [reflexivity|exact Hc].
Defined.

Definition demo_disconnect (r : node (B := CCoinsViewDB) * block_index) : tip_res (B := CCoinsViewDB) (node (B := CCoinsViewDB)) :=
  DisconnectTip (B := CCoinsViewDB) (fun _ => 0) (fun _ => demo_accept) r.1 good_disk (Some demo_block) (Some r.2) true false.
Definition demo_disconnected : tip_res (B := CCoinsViewDB) (node (B := CCoinsViewDB)) := res_bind demo_connected demo_disconnect.

Lemma demo_disconnected_ok : is_ok demo_disconnected = true.
Proof. vm_compute. reflexivity. Qed.

Lemma demo_connected_spec : exists n' idx', demo_connected = Ok (n', idx') /\ node_ok n' /\ no_collision (nd_pool n') (vtx demo_block).
Proof.
  pose proof (ConnectTip_spec start_node good_disk demo_block demo_index demo_prev None true start_node_ok start_can_connect) as Hs.
  destruct demo_connected as [[n' idx']|] eqn:E; [|pose proof demo_connected_ok as F; rewrite E in F; discriminate F].
  unfold demo_connected in E. rewrite E in Hs. destruct Hs as [Ht _]. exists n', idx'. split; [reflexivity|]. split; [exact (tn_ok _ _ _ _ Ht)|].
  intros tx e Hin He. pose proof (tn_clear _ _ _ _ Ht) as Hc. rewrite Forall_forall in Hc. rewrite (co_tx _ _ (Hc tx Hin)) in He. discriminate He.
Qed.

Lemma disconnect_tip_restores_witness : exists m', demo_disconnected = Ok m' /\ tip_restored start_node false m'.
Proof.
  destruct demo_connected_spec as (n1 & idx1 & E & Hn & Hcol). pose proof demo_disconnected_ok as F.
  unfold demo_disconnected in *. rewrite E in *. cbn [res_bind] in *. unfold demo_disconnect in *. cbn [fst snd] in *. unfold demo_connected in E.
  pose proof (disconnect_tip_restores (fun _ => 0) (fun _ => demo_accept) start_node good_disk good_disk demo_block demo_index demo_prev None true n1 idx1 n1 false
    start_node_ok start_can_connect demo_chain_ok E Hn (reflexivity _) eq_refl Hcol) as Hr.
  destruct (DisconnectTip _ _ _ _ _ _ _ _) as [m'|e]; [|discriminate F]. exists m'. split; [reflexivity|exact Hr].
Defined.
