(* ===== verification/BestChain.v ===== *)
(** * Choosing the best chain

    The part of [main.cpp] that keeps the index of blocks and moves the active chain to the
    branch with the most work: the candidates for the tip, blocks that wait for their parents,
    blocks that failed, and the loops that connect and disconnect.

    Block index entries are in the heap of [Chain].  [setBlockIndexCandidates] is a set whose
    order is the comparator on the current entries; assigning a sequence number to a member,
    which would change its place in the C++ set, is the failure [order_changed].  What happens
    to coins and memory pool when a block is connected or disconnected is the interface
    [TipOps]; [BestChainNode] gives it the operations of [ChainTip].  A failed assertion or a
    bad pointer is a [chain_fail]; [false] returned to the caller comes with the state that is
    left.  Notifications of peers and listeners are left out. *)

From stdpp Require Import gmap.
From S2P Require Import Prelude ArithUint256 Chain Pow Transaction Block.

(** ** State *)

Record fork_warnings := {
  pindexBestForkTip : option ptr;
  pindexBestForkBase : option ptr;
  fLargeWorkForkFound : bool;
  fLargeWorkInvalidChainFound : bool
}.

(** [mapBlockIndex] leads from hashes to addresses.  Of the revalidation cache only the keys
    and the unlinked hashes are used here. *)
Record chain_manager := {
  cm_heap : gmap positive CBlockIndex;
  mapBlockIndex : gmap bytes ptr;
  chainActive : list (option ptr);
  gl_nChainHeight : Z;
  setBlockIndexCandidates : gset ptr;
  mapBlocksUnlinked : list (ptr * ptr);
  pindexBestInvalid : option ptr;
  pindexBestHeader : option ptr;
  setDirtyBlockIndex : gset ptr;
  nBlockSequenceId : Z;
  cm_warnings : fork_warnings;
  m_BlockCacheMap : gset bytes;
  m_UnlinkedMap : list (bytes * bytes)
}.

Definition set_heap (cm : chain_manager) (h : gmap positive CBlockIndex) : chain_manager :=
  {| cm_heap := h; mapBlockIndex := mapBlockIndex cm; chainActive := chainActive cm; gl_nChainHeight := gl_nChainHeight cm;
     setBlockIndexCandidates := setBlockIndexCandidates cm; mapBlocksUnlinked := mapBlocksUnlinked cm;
     pindexBestInvalid := pindexBestInvalid cm; pindexBestHeader := pindexBestHeader cm; setDirtyBlockIndex := setDirtyBlockIndex cm;
     nBlockSequenceId := nBlockSequenceId cm; cm_warnings := cm_warnings cm; m_BlockCacheMap := m_BlockCacheMap cm; m_UnlinkedMap := m_UnlinkedMap cm |}.
Definition set_active (cm : chain_manager) (c : list (option ptr)) (height : Z) : chain_manager :=
  {| cm_heap := cm_heap cm; mapBlockIndex := mapBlockIndex cm; chainActive := c; gl_nChainHeight := height;
     setBlockIndexCandidates := setBlockIndexCandidates cm; mapBlocksUnlinked := mapBlocksUnlinked cm;
     pindexBestInvalid := pindexBestInvalid cm; pindexBestHeader := pindexBestHeader cm; setDirtyBlockIndex := setDirtyBlockIndex cm;
     nBlockSequenceId := nBlockSequenceId cm; cm_warnings := cm_warnings cm; m_BlockCacheMap := m_BlockCacheMap cm; m_UnlinkedMap := m_UnlinkedMap cm |}.
Definition set_candidates (cm : chain_manager) (s : gset ptr) : chain_manager :=
  {| cm_heap := cm_heap cm; mapBlockIndex := mapBlockIndex cm; chainActive := chainActive cm; gl_nChainHeight := gl_nChainHeight cm;
     setBlockIndexCandidates := s; mapBlocksUnlinked := mapBlocksUnlinked cm;
     pindexBestInvalid := pindexBestInvalid cm; pindexBestHeader := pindexBestHeader cm; setDirtyBlockIndex := setDirtyBlockIndex cm;
     nBlockSequenceId := nBlockSequenceId cm; cm_warnings := cm_warnings cm; m_BlockCacheMap := m_BlockCacheMap cm; m_UnlinkedMap := m_UnlinkedMap cm |}.
Definition set_unlinked (cm : chain_manager) (l : list (ptr * ptr)) : chain_manager :=
  {| cm_heap := cm_heap cm; mapBlockIndex := mapBlockIndex cm; chainActive := chainActive cm; gl_nChainHeight := gl_nChainHeight cm;
     setBlockIndexCandidates := setBlockIndexCandidates cm; mapBlocksUnlinked := l;
     pindexBestInvalid := pindexBestInvalid cm; pindexBestHeader := pindexBestHeader cm; setDirtyBlockIndex := setDirtyBlockIndex cm;
     nBlockSequenceId := nBlockSequenceId cm; cm_warnings := cm_warnings cm; m_BlockCacheMap := m_BlockCacheMap cm; m_UnlinkedMap := m_UnlinkedMap cm |}.
Definition set_best_invalid (cm : chain_manager) (p : option ptr) : chain_manager :=
  {| cm_heap := cm_heap cm; mapBlockIndex := mapBlockIndex cm; chainActive := chainActive cm; gl_nChainHeight := gl_nChainHeight cm;
     setBlockIndexCandidates := setBlockIndexCandidates cm; mapBlocksUnlinked := mapBlocksUnlinked cm;
     pindexBestInvalid := p; pindexBestHeader := pindexBestHeader cm; setDirtyBlockIndex := setDirtyBlockIndex cm;
     nBlockSequenceId := nBlockSequenceId cm; cm_warnings := cm_warnings cm; m_BlockCacheMap := m_BlockCacheMap cm; m_UnlinkedMap := m_UnlinkedMap cm |}.
Definition set_dirty (cm : chain_manager) (s : gset ptr) : chain_manager :=
  {| cm_heap := cm_heap cm; mapBlockIndex := mapBlockIndex cm; chainActive := chainActive cm; gl_nChainHeight := gl_nChainHeight cm;
     setBlockIndexCandidates := setBlockIndexCandidates cm; mapBlocksUnlinked := mapBlocksUnlinked cm;
     pindexBestInvalid := pindexBestInvalid cm; pindexBestHeader := pindexBestHeader cm; setDirtyBlockIndex := s;
     nBlockSequenceId := nBlockSequenceId cm; cm_warnings := cm_warnings cm; m_BlockCacheMap := m_BlockCacheMap cm; m_UnlinkedMap := m_UnlinkedMap cm |}.
Definition set_sequence (cm : chain_manager) (n : Z) : chain_manager :=
  {| cm_heap := cm_heap cm; mapBlockIndex := mapBlockIndex cm; chainActive := chainActive cm; gl_nChainHeight := gl_nChainHeight cm;
     setBlockIndexCandidates := setBlockIndexCandidates cm; mapBlocksUnlinked := mapBlocksUnlinked cm;
     pindexBestInvalid := pindexBestInvalid cm; pindexBestHeader := pindexBestHeader cm; setDirtyBlockIndex := setDirtyBlockIndex cm;
     nBlockSequenceId := n; cm_warnings := cm_warnings cm; m_BlockCacheMap := m_BlockCacheMap cm; m_UnlinkedMap := m_UnlinkedMap cm |}.
Definition set_warnings (cm : chain_manager) (w : fork_warnings) : chain_manager :=
  {| cm_heap := cm_heap cm; mapBlockIndex := mapBlockIndex cm; chainActive := chainActive cm; gl_nChainHeight := gl_nChainHeight cm;
     setBlockIndexCandidates := setBlockIndexCandidates cm; mapBlocksUnlinked := mapBlocksUnlinked cm;
     pindexBestInvalid := pindexBestInvalid cm; pindexBestHeader := pindexBestHeader cm; setDirtyBlockIndex := setDirtyBlockIndex cm;
     nBlockSequenceId := nBlockSequenceId cm; cm_warnings := w; m_BlockCacheMap := m_BlockCacheMap cm; m_UnlinkedMap := m_UnlinkedMap cm |}.

(** Entries with some fields changed. *)
Definition with_status (f : Z -> Z) (b : CBlockIndex) : CBlockIndex :=
  {| phashBlock := phashBlock b; pprev := pprev b; pskip := pskip b; nHeight := nHeight b; nTime := nTime b; nBits := nBits b;
     nChainWork := nChainWork b; nTx := nTx b; nChainTx := nChainTx b; nStatus := f (nStatus b); nSequenceId := nSequenceId b;
     nSproutValue := nSproutValue b; nChainSproutValue := nChainSproutValue b; nSaplingValue := nSaplingValue b;
     nChainSaplingValue := nChainSaplingValue b |}.
Definition with_sequence (n : Z) (b : CBlockIndex) : CBlockIndex :=
  {| phashBlock := phashBlock b; pprev := pprev b; pskip := pskip b; nHeight := nHeight b; nTime := nTime b; nBits := nBits b;
     nChainWork := nChainWork b; nTx := nTx b; nChainTx := nChainTx b; nStatus := nStatus b; nSequenceId := n;
     nSproutValue := nSproutValue b; nChainSproutValue := nChainSproutValue b; nSaplingValue := nSaplingValue b;
     nChainSaplingValue := nChainSaplingValue b |}.

Definition set_flag (p : ptr) (flag : Z) (cm : chain_manager) : chain_manager :=
  set_heap cm (alter (with_status (fun s => SetStatusFlag s flag)) p (cm_heap cm)).
Definition mark_dirty (p : ptr) (cm : chain_manager) : chain_manager := set_dirty cm ({[p]} ∪ setDirtyBlockIndex cm).
Definition erase_candidate (p : ptr) (cm : chain_manager) : chain_manager := set_candidates cm (setBlockIndexCandidates cm ∖ {[p]}).
Definition insert_candidate (p : ptr) (cm : chain_manager) : chain_manager := set_candidates cm ({[p]} ∪ setBlockIndexCandidates cm).

Definition has_flag (b : CBlockIndex) (mask : Z) : bool := negb (Z.land (nStatus b) mask =? 0).

(** ** The order of the candidates *)

Definition worse_entry (pa : ptr) (a : CBlockIndex) (pb : ptr) (b : CBlockIndex) : bool :=
  if CompareTo (nChainWork a) (nChainWork b) >? 0 then false
  else if CompareTo (nChainWork a) (nChainWork b) <? 0 then true
  else if nSequenceId a <? nSequenceId b then false
  else if nSequenceId a >? nSequenceId b then true
  else if Pos.ltb pa pb then false
  else if Pos.ltb pb pa then true
  else false.

Definition CBlockIndexWorkComparator (h : gmap positive CBlockIndex) (pa pb : ptr) : res chain_fail bool :=
  let? a := deref h pa in
  let? b := deref h pb in Ok (worse_entry pa a pb b).

(** The comparison with [chainActive.Tip()], which must not be null. *)
Definition worse_than_tip (cm : chain_manager) (p : ptr) : res chain_fail bool :=
  match Tip (chainActive cm) with
  | None => Err bad_pointer
  | Some t => CBlockIndexWorkComparator (cm_heap cm) p t
  end.

(** The last and the first element of the ordered set. *)
Fixpoint last_in_order (h : gmap positive CBlockIndex) (l : list ptr) : res chain_fail (option ptr) :=
  match l with
  | [] => Ok None
  | p :: l =>
      let? r := last_in_order h l in
      match r with
      | None => Ok (Some p)
      | Some q => let? w := CBlockIndexWorkComparator h q p in Ok (Some (if w : bool then p else q))
      end
  end.
Fixpoint first_in_order (h : gmap positive CBlockIndex) (l : list ptr) : res chain_fail (option ptr) :=
  match l with
  | [] => Ok None
  | p :: l =>
      let? r := first_in_order h l in
      match r with
      | None => Ok (Some p)
      | Some q => let? w := CBlockIndexWorkComparator h p q in Ok (Some (if w : bool then p else q))
      end
  end.

(** ** Blocks without their parents, and new candidates *)

Definition valid_upto (b : CBlockIndex) (nUpTo : Z) : res chain_fail bool :=
  match IsValid (nStatus b) nUpTo with Some v => Ok v | None => Err assert_failed end.

Definition AddBlockUnlinked (cm : chain_manager) (p : ptr) : res chain_fail chain_manager :=
  let? b := deref (cm_heap cm) p in
  match pprev b with
  | None => Ok cm
  | Some q =>
      let? bq := deref (cm_heap cm) q in
      let? v := valid_upto bq BLOCK_VALID_TREE in
      if v : bool then Ok (set_unlinked cm (mapBlocksUnlinked cm ++ [(q, p)])) else Ok cm
  end.

(** The blocks that waited for [p], and the map without them. *)
Definition ExtractUnlinkedBlocks (cm : chain_manager) (p : ptr) : list ptr * chain_manager :=
  (snd <$> filter (fun x => x.1 = p) (mapBlocksUnlinked cm), set_unlinked cm (filter (fun x => x.1 <> p) (mapBlocksUnlinked cm))).

Definition EraseUnlinkedBlocksTo (cm : chain_manager) (p : ptr) : res chain_fail chain_manager :=
  let? b := deref (cm_heap cm) p in
  match pprev b with
  | None => Ok cm
  | Some q => Ok (set_unlinked cm (filter (fun x => x <> (q, p)) (mapBlocksUnlinked cm)))
  end.

(** The entries are freed: their addresses are no longer in the heap. *)
Fixpoint EraseBlockIndices (cm : chain_manager) (vBlocksToRemove : list ptr) : res chain_fail chain_manager :=
  match vBlocksToRemove with
  | [] => Ok cm
  | p :: l =>
      let? b := deref (cm_heap cm) p in
      match mapBlockIndex cm !! phashBlock b with
      | Some q =>
          EraseBlockIndices
            {| cm_heap := delete p (cm_heap cm); mapBlockIndex := delete (phashBlock b) (mapBlockIndex cm); chainActive := chainActive cm;
               gl_nChainHeight := gl_nChainHeight cm; setBlockIndexCandidates := setBlockIndexCandidates cm; mapBlocksUnlinked := mapBlocksUnlinked cm;
               pindexBestInvalid := pindexBestInvalid cm; pindexBestHeader := pindexBestHeader cm; setDirtyBlockIndex := setDirtyBlockIndex cm ∖ {[q]};
               nBlockSequenceId := nBlockSequenceId cm; cm_warnings := cm_warnings cm; m_BlockCacheMap := m_BlockCacheMap cm; m_UnlinkedMap := m_UnlinkedMap cm |} l
      | None => EraseBlockIndices cm l
      end
  end.

Definition AddBlockIndexCandidate (cm : chain_manager) (p : ptr) : res chain_fail chain_manager :=
  let? worse := (match Tip (chainActive cm) with
                 | None => Ok false
                 | Some t => CBlockIndexWorkComparator (cm_heap cm) p t
                 end) in
  if worse : bool then Ok cm else Ok (insert_candidate p cm).

(** [UpdateChainValues] with its call of [AddBlockUnlinked]. *)
Definition update_chain_values (cm : chain_manager) (p : ptr) : res chain_fail (bool * chain_manager) :=
  let? b := deref (cm_heap cm) p in
  let? r := UpdateChainValues (cm_heap cm) b in
  let cm := set_heap cm (<[p := r.2]> (cm_heap cm)) in
  if r.1 then Ok (true, cm)
  else let? cm := AddBlockUnlinked cm p in Ok (false, cm).

(** [if (!pindex->nSequenceId) pindex->nSequenceId = IncBlockSequenceId()] *)
Definition assign_sequence (cm : chain_manager) (p : ptr) : res chain_fail chain_manager :=
  let? b := deref (cm_heap cm) p in
  if negb (nSequenceId b =? 0) then Ok cm
  else if bool_decide (p ∈ setBlockIndexCandidates cm) then Err order_changed
  else Ok (set_sequence (set_heap cm (<[p := with_sequence (nBlockSequenceId cm) b]> (cm_heap cm))) (u32 (nBlockSequenceId cm + 1))).

(** The loop over the queue of [UpdateChainTx]. *)
Fixpoint chain_tx_loop (fuel : nat) (cm : chain_manager) (queue : list ptr) : res chain_fail chain_manager :=
  match queue with
  | [] => Ok cm
  | p :: queue =>
      match fuel with
      | O => Err loop_bound
      | S fuel =>
          let? r := update_chain_values cm p in
          let cm := r.2 in
          if negb r.1 then Ok cm
          else
            let? cm := assign_sequence cm p in
            let? cm := AddBlockIndexCandidate cm p in
            let '(found, cm) := ExtractUnlinkedBlocks cm p in
            chain_tx_loop fuel cm (queue ++ found)
      end
  end.

Definition UpdateChainTx (cm : chain_manager) (p : ptr) : res chain_fail chain_manager :=
  chain_tx_loop (S (length (mapBlocksUnlinked cm))) cm [p].

(** ** New entries *)

(** [CBlockCache::check_prev_block], on the hash of an entry and of its parent. *)
Definition check_prev_block (cm : chain_manager) (prevHash hash : bytes) : chain_manager :=
  if negb (bool_decide (prevHash ∈ m_BlockCacheMap cm)) then cm
  else if existsb (fun x => bytes_eqb x.1 prevHash && bytes_eqb x.2 hash) (m_UnlinkedMap cm) then cm
  else {| cm_heap := cm_heap cm; mapBlockIndex := mapBlockIndex cm; chainActive := chainActive cm; gl_nChainHeight := gl_nChainHeight cm;
          setBlockIndexCandidates := setBlockIndexCandidates cm; mapBlocksUnlinked := mapBlocksUnlinked cm;
          pindexBestInvalid := pindexBestInvalid cm; pindexBestHeader := pindexBestHeader cm; setDirtyBlockIndex := setDirtyBlockIndex cm;
          nBlockSequenceId := nBlockSequenceId cm; cm_warnings := cm_warnings cm; m_BlockCacheMap := m_BlockCacheMap cm;
          m_UnlinkedMap := m_UnlinkedMap cm ++ [(prevHash, hash)] |}.

Definition raise_validity (nUpTo : Z) (b : CBlockIndex) : res chain_fail CBlockIndex :=
  match RaiseValidity (nStatus b) nUpTo with
  | Some (_, s) => Ok (with_status (fun _ => s) b)
  | None => Err assert_failed
  end.

(** [CBlockIndex(block)] *)
Definition new_index (hashBlock : bytes) (block : CBlockHeader) : CBlockIndex :=
  {| phashBlock := hashBlock; pprev := None; pskip := None; nHeight := 0; nTime := h_nTime block; nBits := h_nBits block;
     nChainWork := uint_zero; nTx := 0; nChainTx := 0; nStatus := 0; nSequenceId := 0;
     nSproutValue := None; nChainSproutValue := None; nSaplingValue := 0; nChainSaplingValue := None |}.
Definition with_prev (b : CBlockIndex) (q : ptr) (height : Z) : CBlockIndex :=
  {| phashBlock := phashBlock b; pprev := Some q; pskip := pskip b; nHeight := height; nTime := nTime b; nBits := nBits b;
     nChainWork := nChainWork b; nTx := nTx b; nChainTx := nChainTx b; nStatus := nStatus b; nSequenceId := nSequenceId b;
     nSproutValue := nSproutValue b; nChainSproutValue := nChainSproutValue b; nSaplingValue := nSaplingValue b;
     nChainSaplingValue := nChainSaplingValue b |}.
Definition with_work (b : CBlockIndex) (w : limbs) : CBlockIndex :=
  {| phashBlock := phashBlock b; pprev := pprev b; pskip := pskip b; nHeight := nHeight b; nTime := nTime b; nBits := nBits b;
     nChainWork := w; nTx := nTx b; nChainTx := nChainTx b; nStatus := nStatus b; nSequenceId := nSequenceId b;
     nSproutValue := nSproutValue b; nChainSproutValue := nChainSproutValue b; nSaplingValue := nSaplingValue b;
     nChainSaplingValue := nChainSaplingValue b |}.

Definition block_proof (b : CBlockIndex) : res chain_fail limbs :=
  match GetBlockProof (nBits b) with Ok w => Ok w | Err _ => Err assert_failed end.

Definition set_block_index (cm : chain_manager) (h : gmap positive CBlockIndex) (m : gmap bytes ptr) (best : option ptr) : chain_manager :=
  {| cm_heap := h; mapBlockIndex := m; chainActive := chainActive cm; gl_nChainHeight := gl_nChainHeight cm;
     setBlockIndexCandidates := setBlockIndexCandidates cm; mapBlocksUnlinked := mapBlocksUnlinked cm;
     pindexBestInvalid := pindexBestInvalid cm; pindexBestHeader := best; setDirtyBlockIndex := setDirtyBlockIndex cm;
     nBlockSequenceId := nBlockSequenceId cm; cm_warnings := cm_warnings cm; m_BlockCacheMap := m_BlockCacheMap cm; m_UnlinkedMap := m_UnlinkedMap cm |}.

(** The entry is linked to its parent, and the skip pointer is built. *)
Definition link_index (cm : chain_manager) (p : ptr) (b : CBlockIndex) (hashPrev : bytes) : res chain_fail chain_manager :=
  let h := <[p := b]> (cm_heap cm) in
  match mapBlockIndex cm !! hashPrev with
  | None => Ok (set_heap cm h)
  | Some q =>
      let? bq := deref h q in
      let b := with_prev b q (nHeight bq + 1) in
      let? h := BuildSkip (<[p := b]> h) p in
      Ok (check_prev_block (set_heap cm h) (phashBlock bq) (phashBlock b))
  end.

(** [AddToBlockIndex] for a header with hash [hashBlock]; [pnew] is the address of the new
    entry. *)
Definition AddToBlockIndex (cm : chain_manager) (pnew : ptr) (hashBlock : bytes) (block : CBlockHeader) : res chain_fail (ptr * chain_manager) :=
  match mapBlockIndex cm !! hashBlock with
  | Some p => Ok (p, cm)
  | None =>
      let cm := set_block_index cm (cm_heap cm) (<[hashBlock := pnew]> (mapBlockIndex cm)) (pindexBestHeader cm) in
      let? cm := link_index cm pnew (new_index hashBlock block) (h_hashPrevBlock block) in
      let? b := deref (cm_heap cm) pnew in
      let? prev_work := (match pprev b with None => Ok uint_zero | Some q => let? bq := deref (cm_heap cm) q in Ok (nChainWork bq) end) in
      let? proof := block_proof b in
      let? b := raise_validity BLOCK_VALID_TREE (with_work b (uint_add prev_work proof)) in
      let h := <[pnew := b]> (cm_heap cm) in
      let? best := (match pindexBestHeader cm with
                    | None => Ok (Some pnew)
                    | Some q => let? bq := deref h q in Ok (if CompareTo (nChainWork bq) (nChainWork b) <? 0 then Some pnew else Some q)
                    end) in
      Ok (pnew, mark_dirty pnew (set_block_index cm h (mapBlockIndex cm) best))
  end.

(** What [ReceivedBlockTransactions] writes before it raises the validity. *)
Definition received_entry (b : CBlockIndex) (ntx : Z) (saplingValue : Z) : CBlockIndex :=
  {| phashBlock := phashBlock b; pprev := pprev b; pskip := pskip b; nHeight := nHeight b; nTime := nTime b; nBits := nBits b;
     nChainWork := nChainWork b; nTx := ntx; nChainTx := 0; nStatus := SetStatusFlag (nStatus b) BLOCK_HAVE_DATA; nSequenceId := nSequenceId b;
     nSproutValue := Some 0; nChainSproutValue := None; nSaplingValue := saplingValue; nChainSaplingValue := None |}.

Definition ReceivedBlockTransactions (cm : chain_manager) (vtx : list CTransaction) (p : ptr) : res chain_fail chain_manager :=
  let saplingValue := foldl (fun s tx => s64 (s + s64 (- tx_valueBalance tx))) 0 vtx in
  let? b := deref (cm_heap cm) p in
  let? b := raise_validity BLOCK_VALID_TRANSACTIONS (received_entry b (u32 (zlen vtx)) saplingValue) in
  UpdateChainTx (mark_dirty p (set_heap cm (<[p := b]> (cm_heap cm)))) p.

(** ** Warnings about forks *)

Definition FORK_BLOCK_LIMIT : Z := 288.

Definition work_of (cm : chain_manager) (p : ptr) : res chain_fail limbs := let? b := deref (cm_heap cm) p in Ok (nChainWork b).
Definition height_of (cm : chain_manager) (p : ptr) : res chain_fail Z := let? b := deref (cm_heap cm) p in Ok (nHeight b).

(** [*chainActive.Tip()] *)
Definition active_tip (cm : chain_manager) : res chain_fail (ptr * CBlockIndex) :=
  match Tip (chainActive cm) with
  | None => Err bad_pointer
  | Some t => let? b := deref (cm_heap cm) t in Ok (t, b)
  end.

(** The best invalid chain is more than six blocks ahead of the tip. *)
Definition invalid_chain_ahead (cm : chain_manager) : res chain_fail bool :=
  match pindexBestInvalid cm with
  | None => Ok false
  | Some p =>
      let? w := work_of cm p in
      let? t := active_tip cm in
      let? proof := block_proof t.2 in
      Ok (CompareTo w (uint_add (nChainWork t.2) (uint_mul32 proof 6)) >? 0)
  end.

Definition CheckForkWarningConditions (IBD : bool) (cm : chain_manager) : res chain_fail chain_manager :=
  if IBD then Ok cm
  else
    let w := cm_warnings cm in
    let? forkTip := (match pindexBestForkTip w with
                     | None => Ok None
                     | Some p => let? hp := height_of cm p in Ok (if Height (chainActive cm) - hp >=? FORK_BLOCK_LIMIT then None else Some p)
                     end) in
    let? warn := (match forkTip with Some _ => Ok true | None => invalid_chain_ahead cm end) in
    let with_found f i := {| pindexBestForkTip := forkTip; pindexBestForkBase := pindexBestForkBase w; fLargeWorkForkFound := f; fLargeWorkInvalidChainFound := i |} in
    Ok (set_warnings cm
      (if warn : bool then
         match forkTip, pindexBestForkBase w with
         | Some _, Some _ => with_found true (fLargeWorkInvalidChainFound w)
         | _, _ => with_found (fLargeWorkForkFound w) true
         end
       else with_found false false)).

(** [while (plonger && plonger->nHeight > pfork->nHeight)] *)
Fixpoint lower_to (fuel : nat) (h : gmap positive CBlockIndex) (p : option ptr) (height : Z) : res chain_fail (option ptr) :=
  match p with
  | None => Ok None
  | Some q =>
      let? b := deref h q in
      if negb (nHeight b >? height) then Ok (Some q)
      else match fuel with O => Err loop_bound | S fuel => lower_to fuel h (pprev b) height end
  end.

(** The loop that looks for the fork point: [pfork] when it ends. *)
Fixpoint new_fork_loop (fuel : nat) (h : gmap positive CBlockIndex) (pfork plonger : option ptr) : res chain_fail (option ptr) :=
  if bool_decide (pfork = plonger) then Ok pfork
  else
    match pfork with
    | None => Ok None
    | Some p =>
        match fuel with
        | O => Err loop_bound
        | S fuel =>
            let? b := deref h p in
            let? longer := (match plonger with
                            | None => Ok None
                            | Some l => let? bl := deref h l in lower_to (Z.to_nat (nHeight bl + 1)) h (Some l) (nHeight b)
                            end) in
            if bool_decide (Some p = longer) then Ok (Some p) else new_fork_loop fuel h (pprev b) longer
        end
    end.

Definition CheckForkWarningConditionsOnNewFork (IBD : bool) (cm : chain_manager) (pnew : ptr) : res chain_fail chain_manager :=
  let? b := deref (cm_heap cm) pnew in
  let? pfork := new_fork_loop (Z.to_nat (nHeight b + 1)) (cm_heap cm) (Some pnew) (Tip (chainActive cm)) in
  let w := cm_warnings cm in
  let? cm :=
    (match pfork with
     | None => Ok cm
     | Some p =>
         let? higher := (match pindexBestForkTip w with
                         | None => Ok true
                         | Some q => let? hq := height_of cm q in Ok (nHeight b >? hq)
                         end) in
         let? bf := deref (cm_heap cm) p in
         let? proof := block_proof bf in
         if higher && (CompareTo (uint_sub (nChainWork b) (nChainWork bf)) (uint_mul32 proof 7) >? 0) && (Height (chainActive cm) - nHeight b <? 72)
         then Ok (set_warnings cm {| pindexBestForkTip := Some pnew; pindexBestForkBase := Some p;
                                     fLargeWorkForkFound := fLargeWorkForkFound w; fLargeWorkInvalidChainFound := fLargeWorkInvalidChainFound w |})
         else Ok cm
     end) in
  CheckForkWarningConditions IBD cm.

(** ** Blocks that failed *)

Definition note_invalid (cm : chain_manager) (p : ptr) : res chain_fail chain_manager :=
  match pindexBestInvalid cm with
  | None => Ok (set_best_invalid cm (Some p))
  | Some q =>
      let? w := work_of cm p in
      let? wq := work_of cm q in
      Ok (if CompareTo w wq >? 0 then set_best_invalid cm (Some p) else cm)
  end.

Definition InvalidChainFound (IBD : bool) (cm : chain_manager) (p : ptr) : res chain_fail chain_manager :=
  let? cm := note_invalid cm p in
  match Tip (chainActive cm) with
  | None => Err assert_failed
  | Some _ => CheckForkWarningConditions IBD cm
  end.

(** [InvalidBlockFound] without the message to the peer the block came from. *)
Definition InvalidBlockFound (IBD : bool) (cm : chain_manager) (p : ptr) (CorruptionPossible : bool) : res chain_fail chain_manager :=
  if CorruptionPossible then Ok cm
  else InvalidChainFound IBD (erase_candidate p (mark_dirty p (set_flag p BLOCK_FAILED_VALID cm))) p.

(** ** The best candidate *)

(** [while (pindexTest && !chainActive.Contains(pindexTest))]: the first block on the way to the
    active chain that failed or whose data is missing, with the two flags. *)
Fixpoint unusable_loop (fuel : nat) (cm : chain_manager) (p : option ptr) : res chain_fail (option (ptr * bool * bool)) :=
  match p with
  | None => Ok None
  | Some p =>
      let? in_chain := Contains (cm_heap cm) (chainActive cm) p in
      if in_chain : bool then Ok None
      else
        match fuel with
        | O => Err loop_bound
        | S fuel =>
            let? b := deref (cm_heap cm) p in
            check negb (nChainTx b =? 0) || (nHeight b =? 0) else assert_failed ;;
            let fFailedChain := has_flag b BLOCK_FAILED_MASK in
            let fMissingData := negb (has_flag b BLOCK_HAVE_DATA) in
            if fFailedChain || fMissingData then Ok (Some (p, fFailedChain, fMissingData))
            else unusable_loop fuel cm (pprev b)
        end
  end.

(** [while (pindexTest != pindexFailed)]: the chain above the unusable block. *)
Fixpoint drop_chain (fuel : nat) (cm : chain_manager) (pindexTest pindexFailed : ptr) (fFailedChain fMissingData : bool) : res chain_fail chain_manager :=
  if bool_decide (pindexTest = pindexFailed) then Ok cm
  else
    match fuel with
    | O => Err loop_bound
    | S fuel =>
        let? b := deref (cm_heap cm) pindexFailed in
        match pprev b with
        | None => Err bad_pointer
        | Some q =>
            let cm := if fFailedChain then set_flag pindexFailed BLOCK_FAILED_CHILD cm
                      else if fMissingData then set_unlinked cm (mapBlocksUnlinked cm ++ [(q, pindexFailed)]) else cm in
            drop_chain fuel (erase_candidate pindexFailed cm) pindexTest q fFailedChain fMissingData
        end
    end.

Fixpoint most_work_loop (fuel : nat) (cm : chain_manager) : res chain_fail (option ptr * chain_manager) :=
  let? best := last_in_order (cm_heap cm) (elements (setBlockIndexCandidates cm)) in
  match best with
  | None => Ok (None, cm)
  | Some p =>
      let? b := deref (cm_heap cm) p in
      let? bad := unusable_loop (Z.to_nat (nHeight b + 1)) cm (Some p) in
      match bad with
      | None => Ok (Some p, cm)
      | Some (q, fFailedChain, fMissingData) =>
          match fuel with
          | O => Err loop_bound
          | S fuel =>
              let? cm := (if fFailedChain then note_invalid cm p else Ok cm) in
              let? cm := drop_chain (Z.to_nat (nHeight b + 1)) cm q p fFailedChain fMissingData in
              most_work_loop fuel (erase_candidate q cm)
          end
      end
  end.

Definition FindMostWorkChain (cm : chain_manager) : res chain_fail (option ptr * chain_manager) :=
  most_work_loop (size (setBlockIndexCandidates cm)) cm.

Fixpoint prune_loop (fuel : nat) (cm : chain_manager) : res chain_fail chain_manager :=
  let? first := first_in_order (cm_heap cm) (elements (setBlockIndexCandidates cm)) in
  match first with
  | None => Ok cm
  | Some p =>
      let? worse := worse_than_tip cm p in
      if worse : bool then match fuel with O => Err loop_bound | S fuel => prune_loop fuel (erase_candidate p cm) end
      else Ok cm
  end.

Definition PruneBlockIndexCandidates (cm : chain_manager) : res chain_fail chain_manager :=
  let? cm := prune_loop (size (setBlockIndexCandidates cm)) cm in
  check negb (bool_decide (setBlockIndexCandidates cm = ∅)) else assert_failed ;; Ok cm.

(** ** Moving the active chain *)

(** The outcome of connecting a block: the status word of its entry when it is connected; when
    it is invalid, whether that was found by the repeated checks (before [ConnectBlock]) and
    whether the data may be corrupt; or an error of the system. *)
Inductive tip_verdict : Set :=
| TipConnected (status : Z)
| TipInvalid (by_checks CorruptionPossible : bool)
| TipError.

(** What moving the tip does to the rest of the node: connecting a block (given, or to be read
    from disk; with or without repeating the checks), disconnecting the tip, and what follows a
    reorganisation. *)
Class TipOps (N Blk : Type) := {
  blk_hash : Blk -> bytes;
  tip_connect : N -> gmap positive CBlockIndex -> ptr -> option Blk -> bool -> N * tip_verdict;
  tip_disconnect : N -> gmap positive CBlockIndex -> ptr -> N * bool;
  tip_reorganised : N -> bool -> Z -> N;            (* blocks disconnected; height of the next block *)
  tip_flush : N -> N * bool;                        (* FlushStateToDisk, periodic *)
  tip_IBD : N -> bool                               (* fnIsInitialBlockDownload *)
}.

Definition MAX_REORG_LENGTH : Z := 99.
Definition MAX_REWIND_CHAIN_BLOCKS : Z := 1000.

(** [rewind] is the block named by -rewindchain. *)
Definition IsIntendedChainRewind (rewind : option bytes) (cm : chain_manager) (hash : bytes) : res chain_fail bool :=
  match rewind with
  | None => Ok false
  | Some r =>
      if bytes_eqb r hash then Ok true
      else
        match mapBlockIndex cm !! r, mapBlockIndex cm !! hash with
        | Some pr, Some p =>
            let? br := deref (cm_heap cm) pr in
            let? b := deref (cm_heap cm) p in
            if nHeight br >? nHeight b then Ok false
            else if nHeight b - nHeight br >? MAX_REWIND_CHAIN_BLOCKS then Ok false
            else let? a := GetAncestor (cm_heap cm) p (nHeight br) in Ok (bool_decide (a = Some pr))
        | _, _ => Ok false
        end
  end.

(** The entries of [mapBlockIndex], in some order. *)
Definition index_entries (cm : chain_manager) : list ptr := snd <$> map_to_list (mapBlockIndex cm).

Section Activation.
Context {N Blk : Type} `{!TipOps N Blk}.

(** [UpdateTip]: the active chain. *)
Definition update_tip (cm : chain_manager) (p : option ptr) : res chain_fail chain_manager :=
  let? r := SetTip (cm_heap cm) (chainActive cm) p in Ok (set_active cm r.1 r.2).

(** [ConnectTip], what it does to the index; [None] when the block is connected, else whether
    the state is invalid and possibly corrupt, or in error. *)
Definition connect_tip (cm : chain_manager) (n : N) (p : ptr) (pblock : option Blk) (validate : bool)
  : res chain_fail (chain_manager * N * option (option bool)) :=
  let? b := deref (cm_heap cm) p in
  check bool_decide (pprev b = Tip (chainActive cm)) else assert_failed ;;
  let '(n, v) := tip_connect n (cm_heap cm) p pblock validate in
  match v with
  | TipError => Ok (cm, n, Some None)
  | TipInvalid by_checks corrupt =>
      let? cm := (if by_checks
                  then Ok (if corrupt then cm else mark_dirty p (set_flag p BLOCK_FAILED_VALID cm))
                  else InvalidBlockFound (tip_IBD n) cm p corrupt) in
      Ok (cm, n, Some (Some corrupt))
  | TipConnected status =>
      let cm := set_heap cm (<[p := with_status (fun _ => status) b]> (cm_heap cm)) in
      let? cm := update_tip cm (Some p) in Ok (cm, n, None)
  end.

Definition disconnect_tip (cm : chain_manager) (n : N) : res chain_fail (chain_manager * N * bool) :=
  match Tip (chainActive cm) with
  | None => Err assert_failed
  | Some t =>
      let? b := deref (cm_heap cm) t in
      let '(n, done) := tip_disconnect n (cm_heap cm) t in
      if done : bool then let? cm := update_tip cm (pprev b) in Ok (cm, n, true)
      else Ok (cm, n, false)
  end.

(** [while (chainActive.Tip() && chainActive.Tip() != pindexFork)]: the result, and whether a
    block was disconnected. *)
Fixpoint disconnect_to_fork (fuel : nat) (cm : chain_manager) (n : N) (pindexFork : option ptr) (disconnected : bool)
  : res chain_fail (chain_manager * N * bool * bool) :=
  match Tip (chainActive cm) with
  | None => Ok (cm, n, true, disconnected)
  | Some t =>
      if bool_decide (Some t = pindexFork) then Ok (cm, n, true, disconnected)
      else
        match fuel with
        | O => Err loop_bound
        | S fuel =>
            let? r := disconnect_tip cm n in
            let '(cm, n, done) := r in
            if done : bool then disconnect_to_fork fuel cm n pindexFork true else Ok (cm, n, false, disconnected)
        end
  end.

(** The blocks from [p] down to above height [nHeight], in this order. *)
Fixpoint path_down (fuel : nat) (h : gmap positive CBlockIndex) (p : option ptr) (height : Z) : res chain_fail (list ptr) :=
  match p with
  | None => Ok []
  | Some p =>
      let? b := deref h p in
      if nHeight b =? height then Ok []
      else match fuel with O => Err loop_bound | S fuel => let? l := path_down fuel h (pprev b) height in Ok (p :: l) end
  end.

(** How the loops over new blocks end: all connected, in a better position, an invalid block
    found, or an error. *)
Inductive connect_end : Set := AllConnected | Better | InvalidFound | SystemError.

Definition better_than (cm : chain_manager) (pindexOldTip : option ptr) : res chain_fail bool :=
  match pindexOldTip with
  | None => Ok true
  | Some o => let? t := active_tip cm in let? w := work_of cm o in Ok (CompareTo (nChainWork t.2) w >? 0)
  end.

(** The loop over [vpindexToConnect]; [lowest] is its last element. *)
Fixpoint connect_vector (cm : chain_manager) (n : N) (l : list ptr) (lowest pindexMostWork : ptr) (pblock : option Blk) (validate : bool)
    (pindexOldTip : option ptr) : res chain_fail (chain_manager * N * connect_end) :=
  match l with
  | [] => Ok (cm, n, AllConnected)
  | p :: l =>
      let? r := connect_tip cm n p (if bool_decide (p = pindexMostWork) then pblock else None) validate in
      let '(cm, n, failed) := r in
      match failed with
      | Some None => Ok (cm, n, SystemError)
      | Some (Some corrupt) =>
          let? cm := (if corrupt : bool then Ok cm else InvalidChainFound (tip_IBD n) cm lowest) in
          Ok (cm, n, InvalidFound)
      | None =>
          let? cm := PruneBlockIndexCandidates cm in
          let? better := better_than cm pindexOldTip in
          if better : bool then Ok (cm, n, Better) else connect_vector cm n l lowest pindexMostWork pblock validate pindexOldTip
      end
  end.

(** [while (fContinue && nHeight != pindexMostWork->nHeight)], in runs of at most 32 blocks.  The
    last result is the lowest block of the last run. *)
Fixpoint connect_runs (fuel : nat) (cm : chain_manager) (n : N) (nHeight : Z) (pindexMostWork : ptr) (target : Z) (pblock : option Blk)
    (validate : bool) (pindexOldTip lowest : option ptr) : res chain_fail (chain_manager * N * connect_end * option ptr) :=
  if nHeight =? target then Ok (cm, n, AllConnected, lowest)
  else
    match fuel with
    | O => Err loop_bound
    | S fuel =>
        let nTargetHeight := Z.min (nHeight + 32) target in
        let? a := GetAncestor (cm_heap cm) pindexMostWork nTargetHeight in
        let? l := path_down (Z.to_nat (nTargetHeight - nHeight)) (cm_heap cm) a nHeight in
        match last l with
        | None => connect_runs fuel cm n nTargetHeight pindexMostWork target pblock validate pindexOldTip None
        | Some low =>
            let? r := connect_vector cm n (rev l) low pindexMostWork pblock validate pindexOldTip in
            let '(cm, n, e) := r in
            match e with
            | AllConnected => connect_runs fuel cm n nTargetHeight pindexMostWork target pblock validate pindexOldTip (Some low)
            | _ => Ok (cm, n, e, Some low)
            end
        end
    end.

(** The reorganisation is short enough, or intended. *)
Definition reorg_allowed (rewind : option bytes) (cm : chain_manager) (pindexOldTip pindexFork : option ptr) : res chain_fail bool :=
  let? nReorgLength :=
    (match pindexOldTip with
     | None => Ok 0
     | Some o => let? ho := height_of cm o in
                 let? hf := (match pindexFork with None => Ok (-1) | Some f => height_of cm f end) in Ok (ho - hf)
     end) in
  if nReorgLength >? MAX_REORG_LENGTH then
    match pindexFork with
    | None => Err bad_pointer
    | Some f => let? bf := deref (cm_heap cm) f in IsIntendedChainRewind rewind cm (phashBlock bf)
    end
  else Ok true.

(** The second result is what the function returns, the third whether the node is shut down. *)
Definition ActivateBestChainStep (rewind : option bytes) (cm : chain_manager) (n : N) (pindexMostWork : ptr) (pblock : option Blk)
  : res chain_fail (chain_manager * N * bool) :=
  let pindexOldTip := Tip (chainActive cm) in
  let? pindexFork := FindFork (cm_heap cm) (chainActive cm) pindexMostWork in
  let? allowed := reorg_allowed rewind cm pindexOldTip pindexFork in
  if negb allowed then Ok (cm, n, false)
  else
    let? r := disconnect_to_fork (length (chainActive cm)) cm n pindexFork false in
    let '(cm, n, done, disconnected) := r in
    if negb done then Ok (cm, n, false)
    else
      let? nHeight := (match pindexFork with None => Ok (-1) | Some f => height_of cm f end) in
      let? target := height_of cm pindexMostWork in
      let? r := connect_runs (Z.to_nat (target - nHeight)) cm n nHeight pindexMostWork target pblock disconnected pindexOldTip None in
      let '(cm, n, e, lowest) := r in
      match e with
      | SystemError => Ok (cm, n, false)
      | _ =>
          let? t := active_tip cm in
          let n := tip_reorganised n disconnected (Chain.nHeight t.2 + 1) in
          let? cm := (match e, lowest with
                      | InvalidFound, Some low => CheckForkWarningConditionsOnNewFork (tip_IBD n) cm low
                      | InvalidFound, None => Err bad_pointer
                      | _, _ => CheckForkWarningConditions (tip_IBD n) cm
                      end) in
          Ok (cm, n, true)
      end.

(** The blocks that listeners are told about: those of the new branch, lowest first. *)
Fixpoint walk_back (n : nat) (h : gmap positive CBlockIndex) (p : option ptr) : res chain_fail (list ptr) :=
  match n with
  | O => Ok []
  | S n =>
      match p with
      | None => Err bad_pointer
      | Some p => let? b := deref h p in let? l := walk_back n h (pprev b) in Ok (l ++ [p])
      end
  end.
Definition new_blocks (cm : chain_manager) (pindexOldTip : option ptr) : res chain_fail (list ptr) :=
  let? t := active_tip cm in
  let? count :=
    (match pindexOldTip with
     | Some o =>
         let? c := FindLastCommonAncestorBlockIndex (cm_heap cm) o t.1 in
         match c with
         | Some c => let? hc := height_of cm c in Ok (nHeight t.2 - hc)
         | None => Ok 0
         end
     | None => Ok (nHeight t.2 + 1)
     end) in
  walk_back (Z.to_nat count) (cm_heap cm) (Some t.1).

(** [ActivateBestChain]: what it returns, and the blocks reported to listeners, in order. *)
Fixpoint activate_loop (fuel : nat) (rewind : option bytes) (cm : chain_manager) (n : N) (pblock : option Blk)
  : res chain_fail (chain_manager * N * bool * list ptr) :=
  let pindexOldTip := Tip (chainActive cm) in
  let? r := FindMostWorkChain cm in
  let '(most, cm) := r in
  match most with
  | None => Ok (cm, n, true, [])
  | Some p =>
      if bool_decide (Some p = pindexOldTip) then Ok (cm, n, true, [])
      else
        match fuel with
        | O => Err loop_bound
        | S fuel =>
            let? b := deref (cm_heap cm) p in
            let? r := ActivateBestChainStep rewind cm n p
              (match pblock with Some blk => if bytes_eqb (blk_hash blk) (phashBlock b) then Some blk else None | None => None end) in
            let '(cm, n, done) := r in
            if negb done then Ok (cm, n, false, [])
            else
              let? news := new_blocks cm pindexOldTip in
              if bool_decide (Some p = Tip (chainActive cm))
              then let '(n, flushed) := tip_flush n in Ok (cm, n, flushed, news)
              else let? r := activate_loop fuel rewind cm n pblock in Ok (r.1, news ++ r.2)
        end
  end.

Definition ActivateBestChain (rewind : option bytes) (cm : chain_manager) (n : N) (pblock : option Blk) : res chain_fail (chain_manager * N * bool * list ptr) :=
  activate_loop ((size (cm_heap cm) + 1) * (size (cm_heap cm) + 1)) rewind cm n pblock.

(** ** Decisions of the user *)

(** [while (chainActive.Contains(pindex))] *)
Fixpoint invalidate_loop (fuel : nat) (cm : chain_manager) (n : N) (p : ptr) : res chain_fail (chain_manager * N * bool) :=
  let? in_chain := Contains (cm_heap cm) (chainActive cm) p in
  if negb in_chain then Ok (cm, n, true)
  else
    match fuel with
    | O => Err loop_bound
    | S fuel =>
        match Tip (chainActive cm) with
        | None => Err bad_pointer
        | Some t =>
            let cm := erase_candidate t (mark_dirty t (set_flag t BLOCK_FAILED_CHILD cm)) in
            let? r := disconnect_tip cm n in
            let '(cm, n, done) := r in
            if done : bool then invalidate_loop fuel cm n p
            else let? t := active_tip cm in Ok (cm, tip_reorganised n true (nHeight t.2 + 1), false)
        end
    end.

(** A valid entry with all its transactions that is not worse than the tip. *)
Definition may_be_tip (cm : chain_manager) (p : ptr) (b : CBlockIndex) : res chain_fail bool :=
  let? v := valid_upto b BLOCK_VALID_TRANSACTIONS in
  if v && negb (nChainTx b =? 0) then let? worse := worse_than_tip cm p in Ok (negb worse) else Ok false.

Fixpoint add_candidates (cm : chain_manager) (l : list ptr) : res chain_fail chain_manager :=
  match l with
  | [] => Ok cm
  | p :: l =>
      let? b := deref (cm_heap cm) p in
      let? add := may_be_tip cm p b in add_candidates (if add : bool then insert_candidate p cm else cm) l
  end.

Definition InvalidateBlock (cm : chain_manager) (n : N) (p : ptr) : res chain_fail (chain_manager * N * bool) :=
  let cm := erase_candidate p (mark_dirty p (set_flag p BLOCK_FAILED_VALID cm)) in
  let? r := invalidate_loop (length (chainActive cm)) cm n p in
  let '(cm, n, done) := r in
  if negb done then Ok (cm, n, false)
  else
    let? cm := add_candidates cm (index_entries cm) in
    let? cm := InvalidChainFound (tip_IBD n) cm p in
    let? t := active_tip cm in
    Ok (cm, tip_reorganised n true (nHeight t.2 + 1), true).
End Activation.

Definition clear_failed (b : CBlockIndex) : CBlockIndex := with_status (fun s => ClearStatusFlag s BLOCK_FAILED_MASK) b.

(** One entry of the loop over [mapBlockIndex] in [ReconsiderBlock]. *)
Definition reconsider_entry (cm : chain_manager) (p : ptr) (nHeight : Z) (x : ptr) : res chain_fail chain_manager :=
  let? b := deref (cm_heap cm) x in
  let? valid := valid_upto b BLOCK_VALID_TRANSACTIONS in
  let? a := GetAncestor (cm_heap cm) x nHeight in
  if negb valid && bool_decide (a = Some p) then
    let b := clear_failed b in
    let cm := mark_dirty x (set_heap cm (<[x := b]> (cm_heap cm))) in
    let? v := valid_upto b BLOCK_VALID_TRANSACTIONS in
    let? better := (if v && negb (nChainTx b =? 0)
                    then match Tip (chainActive cm) with None => Err bad_pointer | Some t => CBlockIndexWorkComparator (cm_heap cm) t x end
                    else Ok false) in
    let cm := if better : bool then insert_candidate x cm else cm in
    Ok (if bool_decide (Some x = pindexBestInvalid cm) then set_best_invalid cm None else cm)
  else Ok cm.

Fixpoint reconsider_entries (cm : chain_manager) (p : ptr) (nHeight : Z) (l : list ptr) : res chain_fail chain_manager :=
  match l with
  | [] => Ok cm
  | x :: l => let? cm := reconsider_entry cm p nHeight x in reconsider_entries cm p nHeight l
  end.

(** [while (pindex)]: the ancestors. *)
Fixpoint reconsider_ancestors (fuel : nat) (cm : chain_manager) (p : option ptr) : res chain_fail chain_manager :=
  match p with
  | None => Ok cm
  | Some p =>
      match fuel with
      | O => Err loop_bound
      | S fuel =>
          let? b := deref (cm_heap cm) p in
          let cm := if has_flag b BLOCK_FAILED_MASK then mark_dirty p (set_heap cm (<[p := clear_failed b]> (cm_heap cm))) else cm in
          reconsider_ancestors fuel cm (pprev b)
      end
  end.

Definition ReconsiderBlock (cm : chain_manager) (p : ptr) : res chain_fail chain_manager :=
  let? b := deref (cm_heap cm) p in
  let? cm := UpdateChainTx cm p in
  let? cm := reconsider_entries cm p (nHeight b) (index_entries cm) in
  reconsider_ancestors (Z.to_nat (nHeight b + 1)) cm (Some p).
