(* ===== verification/BestChainProps.v ===== *)
(** * The index of blocks: order of the candidates and choice of the best chain

    The comparator is a strict total order in which work grows along every branch.  The
    invariant [index_ok] of the index, what may change in it ([aged]), and the specification
    of [FindMostWorkChain] and [PruneBlockIndexCandidates]. *)

From stdpp Require Import gmap.
From S2P Require Import Prelude ArithUint256 ArithUint256Props Chain Pow Transaction Block BestChain.

(** ** Trees with the same links *)

Definition links_of (b : CBlockIndex) : option ptr * option ptr * Z := (pprev b, pskip b, nHeight b).
Definition key_of (b : CBlockIndex) : limbs * Z := (nChainWork b, nSequenceId b).

Definition same_links (h h' : gmap positive CBlockIndex) : Prop := links_of <$> h = links_of <$> h'.
Definition same_keys (h h' : gmap positive CBlockIndex) : Prop := key_of <$> h = key_of <$> h'.

#[global] Instance same_links_equiv : Equivalence same_links.
Proof. split; unfold same_links; [by intros ?|by intros ??|by intros ??? -> ->]. Qed.
#[global] Instance same_keys_equiv : Equivalence same_keys.
Proof. split; unfold same_keys; [by intros ?|by intros ??|by intros ??? -> ->]. Qed.

Lemma same_links_lookup h h' p b : same_links h h' -> h !! p = Some b -> exists b', h' !! p = Some b' /\ links_of b' = links_of b.
Proof.
  intros Hs Hp. assert ((links_of <$> h) !! p = Some (links_of b)) as E by (by rewrite lookup_fmap, Hp).
  rewrite Hs, lookup_fmap in E. destruct (h' !! p) as [b'|]; [|done]. apply (inj Some) in E. by exists b'.
Qed.

Lemma same_keys_lookup h h' p b : same_keys h h' -> h !! p = Some b -> exists b', h' !! p = Some b' /\ key_of b' = key_of b.
Proof.
  intros Hs Hp. assert ((key_of <$> h) !! p = Some (key_of b)) as E by (by rewrite lookup_fmap, Hp).
  rewrite Hs, lookup_fmap in E. destruct (h' !! p) as [b'|]; [|done]. apply (inj Some) in E. by exists b'.
Qed.

Lemma same_links_none h h' p : same_links h h' -> h !! p = None -> h' !! p = None.
Proof.
  intros Hs Hp. destruct (h' !! p) as [b|] eqn:E; [|done].
  destruct (same_links_lookup h' h p b ltac:(by symmetry) E) as (b' & E' & _). congruence.
Qed.

Lemma same_links_prev_n h h' n p : same_links h h' -> prev_n h' n p = prev_n h n p.
Proof.
  intros Hs. revert p. induction n as [|n IH]; intros p; [done|]. cbn [prev_n].
  destruct (h !! p) as [b|] eqn:E.
  - destruct (same_links_lookup h h' p b Hs E) as (b' & -> & El). injection El as E1 _ _. cbn. rewrite E1.
    destruct (pprev b); [apply IH|done].
  - by rewrite (same_links_none h h' p Hs E).
Qed.

Lemma same_links_ancestor h h' p q : same_links h h' -> ancestor_of h' p q <-> ancestor_of h p q.
Proof. intros Hs. unfold ancestor_of. by setoid_rewrite (same_links_prev_n h h' _ p Hs). Qed.

Lemma same_links_ok h h' : same_links h h' -> links_ok h -> links_ok h'.
Proof.
  intros Hs Hl p b' Hp. destruct (same_links_lookup h' h p b' ltac:(by symmetry) Hp) as (b & Hb & El).
  injection El as E1 E2 E3. destruct (Hl p b Hb) as [H0 H1]. rewrite <- E1, <- E3. split; [done|].
  destruct (pprev b) as [q|]; [|done]. destruct H1 as (bq & Hq & Hh).
  destruct (same_links_lookup h h' q bq Hs Hq) as (bq' & Hq' & El'). injection El' as _ _ E'. exists bq'. split; [done|]. by rewrite E'.
Qed.

Lemma same_links_skips h h' : same_links h h' -> skips_ok h -> skips_ok h'.
Proof.
  intros Hs Hl p b' Hp s Es. destruct (same_links_lookup h' h p b' ltac:(by symmetry) Hp) as (b & Hb & El).
  injection El as E1 E2 E3. rewrite (same_links_prev_n h h' _ _ Hs), <- E3. apply (Hl p b Hb). by rewrite E2.
Qed.

Lemma same_links_branch h h' p n : same_links h h' -> branch h' p n = branch h p n.
Proof. intros Hs. unfold branch. apply list_fmap_ext. intros i x _. by apply same_links_prev_n. Qed.

(** ** The order *)

Definition work (b : CBlockIndex) : Z := lval (nChainWork b).

Definition worse (h : gmap positive CBlockIndex) (p q : ptr) : Prop :=
  exists a b, h !! p = Some a /\ h !! q = Some b /\ worse_entry p a q b = true.

Definition works_ok (h : gmap positive CBlockIndex) : Prop := map_Forall (fun _ b => uint_ok (nChainWork b)) h.

Lemma worse_entry_spec p a q b : uint_ok (nChainWork a) -> uint_ok (nChainWork b) ->
  worse_entry p a q b = true <->
  work a < work b \/ work a = work b /\ (nSequenceId b < nSequenceId a \/ nSequenceId a = nSequenceId b /\ (q < p)%positive).
Proof.
  intros [Ha Hla] [Hb Hlb]. unfold worse_entry, work. rewrite (CompareTo_spec _ _ Ha Hb ltac:(congruence)).
  destruct (Z.compare_spec (lval (nChainWork a)) (lval (nChainWork b))) as [E|E|E]; cbn [Z.gtb Z.ltb Z.compare];
    [|split; [by left|done]|split; [done|lia]].
  rewrite Z.gtb_ltb. destruct (Z.ltb_spec (nSequenceId a) (nSequenceId b)); [split; [done|lia]|].
  destruct (Z.ltb_spec (nSequenceId b) (nSequenceId a)); [split; [right; lia|done]|].
  destruct (Pos.ltb_spec p q); [split; [done|lia]|]. destruct (Pos.ltb_spec q p); split; try done; lia.
Qed.

Lemma comparator_Ok h p q a b : h !! p = Some a -> h !! q = Some b -> CBlockIndexWorkComparator h p q = Ok (worse_entry p a q b).
Proof. intros Hp Hq. unfold CBlockIndexWorkComparator. by rewrite (deref_Ok _ _ _ Hp), (deref_Ok _ _ _ Hq). Qed.

Lemma worse_entries h p q a b : h !! p = Some a -> h !! q = Some b -> worse h p q <-> worse_entry p a q b = true.
Proof. intros Hp Hq. split; [|intros Hw; by exists a, b]. intros (a' & b' & Hp' & Hq' & Hw). congruence. Qed.

Lemma worse_irrefl h p : works_ok h -> ~ worse h p p.
Proof.
  intros Hw (a & b & Hp & Hq & E). assert (a = b) as -> by congruence. apply worse_entry_spec in E; [lia|by eapply Hw..].
Qed.

Lemma worse_trans h p q r : works_ok h -> worse h p q -> worse h q r -> worse h p r.
Proof.
  intros Hw (a & b & Hp & Hq & E1) (b' & c & Hq' & Hr & E2). assert (b' = b) as -> by congruence. exists a, c. split; [done|]. split; [done|].
  pose proof (Hw _ _ Hp) as Ha. pose proof (Hw _ _ Hq) as Hb. pose proof (Hw _ _ Hr) as Hc. cbn in Ha, Hb, Hc.
  apply worse_entry_spec in E1; [|done..]. apply worse_entry_spec in E2; [|done..]. apply worse_entry_spec; [done..|]. lia.
Qed.

Lemma worse_total h p q : works_ok h -> is_Some (h !! p) -> is_Some (h !! q) -> p <> q -> worse h p q \/ worse h q p.
Proof.
  intros Hw [a Hp] [b Hq] Hne. pose proof (Hw _ _ Hp) as Ha. pose proof (Hw _ _ Hq) as Hb. cbn in Ha, Hb.
  rewrite (worse_entries h p q a b), (worse_entries h q p b a), !worse_entry_spec by done. lia.
Qed.

Lemma worse_cotrans h p q r : works_ok h -> is_Some (h !! q) -> worse h p r -> worse h p q \/ q = p \/ worse h q r.
Proof.
  intros Hw Hq Hpr. destruct (decide (q = p)) as [->|Hne]; [by right; left|].
  assert (is_Some (h !! p)) as Hp by (destruct Hpr as (? & ? & Hp & _); by rewrite Hp).
  destruct (worse_total h p q Hw Hp Hq ltac:(done)) as [|Hqp]; [by left|]. right. right. by eapply worse_trans.
Qed.

Lemma same_keys_worse h h' p q : same_keys h h' -> worse h p q -> worse h' p q.
Proof.
  intros Hs (a & b & Hp & Hq & E). destruct (same_keys_lookup h h' p a Hs Hp) as (a' & Hp' & Ea).
  destruct (same_keys_lookup h h' q b Hs Hq) as (b' & Hq' & Eb). exists a', b'. split; [done|]. split; [done|].
  injection Ea as Ea1 Ea2. injection Eb as Eb1 Eb2. rewrite <- E. unfold worse_entry. by rewrite Ea1, Ea2, Eb1, Eb2.
Qed.

Lemma same_keys_works h h' : same_keys h h' -> works_ok h -> works_ok h'.
Proof.
  intros Hs Hw p b' Hp. destruct (same_keys_lookup h' h p b' ltac:(by symmetry) Hp) as (b & Hb & E). injection E as <- _. by apply (Hw p b).
Qed.

(** The last and the first element of a set of entries. *)
Lemma last_in_order_spec h l : works_ok h -> Forall (fun p => is_Some (h !! p)) l ->
  exists r, last_in_order h l = Ok r /\
    match r with None => l = [] | Some p => p ∈ l /\ forall q, q ∈ l -> ~ worse h p q end.
Proof.
  intros Hw. induction l as [|p l IH]; intros Hl; [by exists None|]. apply Forall_cons in Hl as [[b Hp] Hl].
  destruct (IH Hl) as (r & E & Hr). cbn [last_in_order]. rewrite E. cbn [res_bind]. destruct r as [q|].
  - destruct Hr as [Hq Hmax]. destruct (proj1 (Forall_forall _ _) Hl q Hq) as [bq Hbq].
    rewrite (comparator_Ok h q p bq b Hbq Hp). cbn [res_bind]. destruct (worse_entry q bq p b) eqn:Ew; eexists; (split; [done|]).
    + split; [set_solver|]. intros x [->|Hx]%elem_of_cons; [by apply worse_irrefl|]. intros Hpx. apply (Hmax x Hx).
      eapply worse_trans; [done| |done]. by exists bq, b.
    + split; [set_solver|]. intros x [->|Hx]%elem_of_cons; [|by apply Hmax]. rewrite (worse_entries h q p bq b) by done. congruence.
  - subst l. eexists. split; [done|]. split; [set_solver|]. intros x ->%list_elem_of_singleton. by apply worse_irrefl.
Qed.

Lemma first_in_order_spec h l : works_ok h -> Forall (fun p => is_Some (h !! p)) l ->
  exists r, first_in_order h l = Ok r /\
    match r with None => l = [] | Some p => p ∈ l /\ forall q, q ∈ l -> ~ worse h q p end.
Proof.
  intros Hw. induction l as [|p l IH]; intros Hl; [by exists None|]. apply Forall_cons in Hl as [[b Hp] Hl].
  destruct (IH Hl) as (r & E & Hr). cbn [first_in_order]. rewrite E. cbn [res_bind]. destruct r as [q|].
  - destruct Hr as [Hq Hmin]. destruct (proj1 (Forall_forall _ _) Hl q Hq) as [bq Hbq].
    rewrite (comparator_Ok h p q b bq Hp Hbq). cbn [res_bind]. destruct (worse_entry p b q bq) eqn:Ew; eexists; (split; [done|]).
    + split; [set_solver|]. intros x [->|Hx]%elem_of_cons; [by apply worse_irrefl|]. intros Hpx. apply (Hmin x Hx).
      eapply worse_trans; [done|done|]. by exists b, bq.
    + split; [set_solver|]. intros x [->|Hx]%elem_of_cons; [|by apply Hmin]. rewrite (worse_entries h p q b bq) by done. congruence.
  - subst l. eexists. split; [done|]. split; [set_solver|]. intros x ->%list_elem_of_singleton. by apply worse_irrefl.
Qed.

(** ** The invariant of the index *)

Definition failed (b : CBlockIndex) : bool := has_flag b BLOCK_FAILED_MASK.
Definition have_data (b : CBlockIndex) : bool := has_flag b BLOCK_HAVE_DATA.
Definition clean (b : CBlockIndex) : Prop := failed b = false /\ have_data b = true.

(** [t] is the tip of the active chain, which is its branch. *)
Definition active (cm : chain_manager) (t : ptr) : Prop :=
  exists bt, cm_heap cm !! t = Some bt /\ chainActive cm = branch (cm_heap cm) t (Z.to_nat (nHeight bt)).

Definition pointer_ok (h : gmap positive CBlockIndex) (p : option ptr) : Prop := forall q, p = Some q -> is_Some (h !! q).

Record tree_ok (h : gmap positive CBlockIndex) : Prop := {
  tree_links : links_ok h;
  tree_skips : skips_ok h;
  tree_works : works_ok h;
  tree_bits : map_Forall (fun _ b => 0 <= nBits b < 2 ^ 32) h;
  (* the work of a child exceeds that of its parent *)
  tree_grows : map_Forall (fun _ b => forall q bq, pprev b = Some q -> h !! q = Some bq -> work bq < work b) h;
  (* transactions are counted only above counted parents *)
  tree_counts : map_Forall (fun _ b => forall q bq, pprev b = Some q -> h !! q = Some bq -> nChainTx b <> 0 -> nChainTx bq <> 0) h;
  (* one genesis block *)
  tree_root : forall p q b c, h !! p = Some b -> h !! q = Some c -> pprev b = None -> pprev c = None -> p = q
}.

Record index_ok (cm : chain_manager) : Prop := {
  ix_tree : tree_ok (cm_heap cm);
  ix_map : forall hash p, mapBlockIndex cm !! hash = Some p -> is_Some (cm_heap cm !! p);
  ix_candidates : forall p, p ∈ setBlockIndexCandidates cm -> exists b, cm_heap cm !! p = Some b /\ nChainTx b <> 0;
  ix_invalid : pointer_ok (cm_heap cm) (pindexBestInvalid cm);
  ix_fork_tip : pointer_ok (cm_heap cm) (pindexBestForkTip (cm_warnings cm));
  ix_fork_base : pointer_ok (cm_heap cm) (pindexBestForkBase (cm_warnings cm))
}.

(** Only status words differ; failures stay, and data is neither lost nor found. *)
Definition aged (h h' : gmap positive CBlockIndex) : Prop :=
  with_status (fun _ => 0) <$> h = with_status (fun _ => 0) <$> h' /\
  forall p b b', h !! p = Some b -> h' !! p = Some b' -> (failed b = true -> failed b' = true) /\ have_data b' = have_data b.

Lemma aged_lookup h h' p b : aged h h' -> h !! p = Some b ->
  exists b' s, h' !! p = Some b' /\ b' = with_status (fun _ => s) b /\ (failed b = true -> failed b' = true) /\ have_data b' = have_data b.
Proof.
  intros [Hs Hf] Hp. assert ((with_status (fun _ => 0) <$> h) !! p = Some (with_status (fun _ => 0) b)) as E by (by rewrite lookup_fmap, Hp).
  rewrite Hs, lookup_fmap in E. destruct (h' !! p) as [b'|] eqn:Hp'; [|done]. apply (inj Some) in E. exists b', (nStatus b'). split; [done|].
  split; [|by apply (Hf p)]. transitivity (with_status (fun _ => nStatus b') (with_status (fun _ => 0) b')); [by destruct b'|]. by rewrite E.
Qed.

Lemma aged_lookup_back h h' p b' : aged h h' -> h' !! p = Some b' ->
  exists b s, h !! p = Some b /\ b' = with_status (fun _ => s) b /\ (failed b = true -> failed b' = true) /\ have_data b' = have_data b.
Proof.
  intros Ha Hp. destruct (h !! p) as [b|] eqn:E.
  - destruct (aged_lookup h h' p b Ha E) as (b2 & s & Hp2 & H). rewrite Hp in Hp2. injection Hp2 as <-. by exists b, s.
  - destruct Ha as [Hs _]. assert ((with_status (fun _ => 0) <$> h) !! p = None) as E2 by (by rewrite lookup_fmap, E).
    rewrite Hs, lookup_fmap, Hp in E2. done.
Qed.

#[global] Instance aged_preorder : PreOrder aged.
Proof.
  split; [intros h; split; [done|]; intros p b b' E E'; split; congruence|].
  intros h1 h2 h3 H12 H23. split; [destruct H12 as [-> _]; apply H23|]. intros p b b3 E1 E3.
  destruct (aged_lookup h1 h2 p b H12 E1) as (b2 & ? & E2 & _ & F12 & D12).
  destruct (aged_lookup h2 h3 p b2 H23 E2) as (b3' & ? & E3' & _ & F23 & D23). split; [|congruence].
  intros Hf. assert (b3' = b3) as -> by congruence. by apply F23, F12.
Qed.

Lemma aged_links h h' : aged h h' -> same_links h h'.
Proof.
  intros [Hs _]. unfold same_links. apply map_eq. intros p. pose proof (f_equal (fun m => m !! p) Hs) as E.
  rewrite !lookup_fmap in *. destruct (h !! p), (h' !! p); cbn in *; [|done..]. apply (inj Some) in E. f_equal.
  apply (f_equal links_of) in E. exact E.
Qed.

Lemma aged_keys h h' : aged h h' -> same_keys h h'.
Proof.
  intros [Hs _]. unfold same_keys. apply map_eq. intros p. pose proof (f_equal (fun m => m !! p) Hs) as E.
  rewrite !lookup_fmap in *. destruct (h !! p), (h' !! p); cbn in *; [|done..]. apply (inj Some) in E. f_equal.
  apply (f_equal key_of) in E. exact E.
Qed.

Lemma aged_tree h h' : aged h h' -> tree_ok h -> tree_ok h'.
Proof.
  intros Ha [H1 H2 H3 H4 H5 H6 H7]. pose proof (aged_links h h' Ha) as Hl.
  split; [by eapply same_links_ok|by eapply same_links_skips|by eapply same_keys_works, H3; apply aged_keys| | | |].
  - intros p b' Hp. destruct (aged_lookup_back h h' p b' Ha Hp) as (b & ? & Hb & -> & _). by apply (H4 p b).
  - intros p b' Hp q bq' Eq Hq. destruct (aged_lookup_back h h' p b' Ha Hp) as (b & ? & Hb & -> & _).
    destruct (aged_lookup_back h h' q bq' Ha Hq) as (bq & ? & Hbq & -> & _). by apply (H5 p b Hb q bq).
  - intros p b' Hp q bq' Eq Hq. destruct (aged_lookup_back h h' p b' Ha Hp) as (b & ? & Hb & -> & _).
    destruct (aged_lookup_back h h' q bq' Ha Hq) as (bq & ? & Hbq & -> & _). by apply (H6 p b Hb q bq).
  - intros p q b' c' Hp Hq. destruct (aged_lookup_back h h' p b' Ha Hp) as (b & ? & Hb & -> & _).
    destruct (aged_lookup_back h h' q c' Ha Hq) as (c & ? & Hc & -> & _). by apply (H7 p q b c).
Qed.

Lemma aged_is_Some h h' p : aged h h' -> is_Some (h !! p) -> is_Some (h' !! p).
Proof. intros Ha [b Hp]. destruct (aged_lookup h h' p b Ha Hp) as (b' & ? & -> & _). done. Qed.

Lemma aged_ancestor h h' p q : aged h h' -> ancestor_of h' p q <-> ancestor_of h p q.
Proof. intros Ha. by apply same_links_ancestor, aged_links. Qed.

Lemma aged_worse h h' p q : aged h h' -> worse h' p q <-> worse h p q.
Proof. intros Ha. split; apply same_keys_worse; [symmetry|]; by apply aged_keys. Qed.

(** One status word changes. *)
Lemma aged_alter h p f : (forall b, h !! p = Some b -> (failed b = true -> failed (with_status f b) = true) /\ have_data (with_status f b) = have_data b) ->
  aged h (alter (with_status f) p h).
Proof.
  intros Hf. split.
  - apply map_eq. intros q. rewrite !lookup_fmap. destruct (decide (p = q)) as [<-|Hne]; [|by rewrite lookup_alter_ne].
    rewrite lookup_alter_eq. by destruct (h !! p).
  - intros q b b' Hb Hb'. destruct (decide (p = q)) as [<-|Hne].
    + rewrite lookup_alter_eq, Hb in Hb'. injection Hb' as <-. by apply Hf.
    + rewrite lookup_alter_ne, Hb in Hb' by done. injection Hb' as <-. done.
Qed.

Lemma flag_kept s f m : negb (Z.land s m =? 0) = true -> negb (Z.land (Z.lor s f) m =? 0) = true.
Proof.
  rewrite !negb_true_iff, !Z.eqb_neq. intros Hs E. apply Hs. apply Z.bits_inj'. intros i Hi. pose proof (f_equal (fun z => Z.testbit z i) E) as Ei.
  rewrite Z.land_spec, Z.bits_0. cbv beta in Ei. rewrite Z.land_spec, Z.lor_spec, Z.bits_0 in Ei. by destruct (Z.testbit s i), (Z.testbit f i), (Z.testbit m i).
Qed.

Lemma flag_other s f m : Z.land f m = 0 -> Z.land (Z.lor s f) m = Z.land s m.
Proof. intros Hf. rewrite Z.land_lor_distr_l, Hf. apply Z.lor_0_r. Qed.

Lemma set_flag_aged p f cm : f = BLOCK_FAILED_VALID \/ f = BLOCK_FAILED_CHILD -> aged (cm_heap cm) (cm_heap (set_flag p f cm)).
Proof.
  intros Hf. apply aged_alter. intros b _. unfold failed, have_data, has_flag, SetStatusFlag. cbn [nStatus with_status]. split; [apply flag_kept|].
  rewrite flag_other; [done|]. by destruct Hf as [-> | ->].
Qed.

Lemma set_flag_failed p f cm b : f = BLOCK_FAILED_VALID \/ f = BLOCK_FAILED_CHILD -> cm_heap (set_flag p f cm) !! p = Some b -> failed b = true.
Proof.
  intros Hf Hp. cbn [cm_heap set_flag set_heap] in Hp. rewrite lookup_alter_eq in Hp. destruct (cm_heap cm !! p) as [b0|]; [|done]. injection Hp as <-.
  unfold failed, has_flag, SetStatusFlag. cbn [nStatus with_status]. rewrite Z.lor_comm. apply flag_kept. by destruct Hf as [-> | ->].
Qed.

(** ** Candidates that cannot be used *)

(** Every block between [p] and the branch of [t] can be connected. *)
Definition usable (h : gmap positive CBlockIndex) (t p : ptr) : Prop :=
  forall q, ancestor_of h p q -> ~ ancestor_of h t q -> exists b, h !! q = Some b /\ clean b.

(** The data of some block between [p] and the branch of [t] is missing. *)
Definition lacks_data (h : gmap positive CBlockIndex) (t p : ptr) : Prop :=
  exists q b, ancestor_of h p q /\ ~ ancestor_of h t q /\ h !! q = Some b /\ have_data b = false.

(** Why an entry is not a candidate. *)
Definition excused (h : gmap positive CBlockIndex) (t p : ptr) : Prop :=
  (exists b, h !! p = Some b /\ failed b = true) \/ lacks_data h t p.

(** Every entry with all its transactions that is not worse than [r] is a candidate, unless it
    is excused. *)
Definition complete (cm : chain_manager) (t r : ptr) : Prop :=
  forall p b, cm_heap cm !! p = Some b -> nChainTx b <> 0 -> ~ worse (cm_heap cm) p r ->
    p ∈ setBlockIndexCandidates cm \/ excused (cm_heap cm) t p.

Lemma excused_aged h h' t p : aged h h' -> excused h t p -> excused h' t p.
Proof.
  intros Ha [(b & Hp & Hf)|(q & b & Hpq & Ht & Hq & Hd)].
  - destruct (aged_lookup h h' p b Ha Hp) as (b' & s & Hp' & _ & Hf' & _). left. exists b'. auto.
  - destruct (aged_lookup h h' q b Ha Hq) as (b' & s & Hq' & _ & _ & Hd'). right. exists q, b'. rewrite !(aged_ancestor h h' _ _ Ha).
    split; [done|]. split; [done|]. split; [done|congruence].
Qed.

Lemma usable_not_excused h t p : usable h t p -> ~ ancestor_of h t p -> ~ excused h t p.
Proof.
  intros Hu Ht [(b & Hp & Hf)|(q & b & Hpq & Hq & Hb & Hd)].
  - destruct (Hu p ltac:(by exists 0%nat) Ht) as (b' & Hp' & Hc & _). congruence.
  - destruct (Hu q Hpq Hq) as (b' & Hq' & _ & Hc). congruence.
Qed.

Lemma usable_aged h h' t p : aged h h' -> usable h' t p -> usable h t p.
Proof.
  intros Ha Hu q Hpq Hq. destruct (Hu q) as (b' & Hq' & Hf & Hd); [by rewrite (aged_ancestor h h')..|].
  destruct (aged_lookup_back h h' q b' Ha Hq') as (b & s & Hb & _ & Hf' & Hd'). exists b. split; [done|]. split; [|congruence].
  destruct (failed b); [|done]. by rewrite Hf' in Hf.
Qed.

Lemma ancestor_refl h p : ancestor_of h p p.
Proof. by exists 0%nat. Qed.

Lemma ancestor_up h p b q x : h !! p = Some b -> pprev b = Some q -> ancestor_of h q x -> ancestor_of h p x.
Proof. intros Hp Eq [n Hn]. exists (S n). cbn [prev_n]. rewrite Hp. cbn. by rewrite Eq. Qed.

Lemma ancestor_cases h p b x : h !! p = Some b -> ancestor_of h p x -> x = p \/ exists q, pprev b = Some q /\ ancestor_of h q x.
Proof.
  intros Hp [[|n] Hn]; [injection Hn as <-; by left|]. right. cbn [prev_n] in Hn. rewrite Hp in Hn. cbn in Hn.
  destruct (pprev b) as [q|]; [|done]. exists q. split; [done|]. by exists n.
Qed.

Lemma Contains_active cm t p b : links_ok (cm_heap cm) -> active cm t -> cm_heap cm !! p = Some b ->
  exists c, Contains (cm_heap cm) (chainActive cm) p = Ok c /\ (c = true <-> ancestor_of (cm_heap cm) t p).
Proof.
  intros Hl (bt & Ht & ->) Hp. rewrite (Contains_branch _ t bt p b Hl Ht Hp). eexists. split; [done|]. rewrite bool_decide_eq_true.
  split; [intros [_ E]; by eexists|]. intros Ha. by apply (ancestor_height _ t bt p b).
Qed.

Lemma active_Tip cm t : links_ok (cm_heap cm) -> active cm t -> Tip (chainActive cm) = Some t.
Proof.
  intros Hl (bt & Ht & ->). unfold Tip, zlen. rewrite branch_length. destruct (Z.gtb_spec (Z.of_nat (S (Z.to_nat (nHeight bt)))) 0); [|lia].
  rewrite branch_lookup by lia. replace (Z.to_nat (nHeight bt) - (S (Z.to_nat (nHeight bt)) - 1))%nat with 0%nat by lia. done.
Qed.

Lemma active_aged cm cm' t : aged (cm_heap cm) (cm_heap cm') -> chainActive cm' = chainActive cm -> active cm t -> active cm' t.
Proof.
  intros Ha Hc (bt & Ht & E). destruct (aged_lookup _ _ t bt Ha Ht) as (bt' & s & Ht' & -> & _). exists (with_status (fun _ => s) bt).
  split; [done|]. cbn [nHeight with_status]. by rewrite Hc, E, (same_links_branch _ _ _ _ (aged_links _ _ Ha)).
Qed.

(** All ancestors of an entry with a transaction count have one. *)
Lemma counts_down h p b q bq : tree_ok h -> h !! p = Some b -> nChainTx b <> 0 -> ancestor_of h p q -> h !! q = Some bq -> nChainTx bq <> 0.
Proof.
  intros Ht Hp Hn [n Hq] Hbq. revert p b Hp Hn Hq. induction n as [|n IH]; intros p b Hp Hn Hq.
  - injection Hq as ->. congruence.
  - cbn [prev_n] in Hq. rewrite Hp in Hq. cbn in Hq. destruct (pprev b) as [r|] eqn:Er; [|done]. cbn in Hq.
    pose proof (tree_links h Ht p b Hp) as [_ Hl]. cbn in Hl. rewrite Er in Hl. destruct Hl as (br & Hr & _).
    apply (IH r br Hr); [|done]. exact (tree_counts h Ht p b Hp r br Er Hr Hn).
Qed.

(** Work grows along a branch. *)
Lemma work_up h p b q bq : tree_ok h -> h !! p = Some b -> ancestor_of h p q -> h !! q = Some bq -> p = q \/ work bq < work b.
Proof.
  intros Ht Hp [n Hq] Hbq. revert p b Hp Hq. induction n as [|n IH]; intros p b Hp Hq; [injection Hq as ->; by left|]. right.
  cbn [prev_n] in Hq. rewrite Hp in Hq. cbn in Hq. destruct (pprev b) as [r|] eqn:Er; [|done]. cbn in Hq.
  pose proof (tree_links h Ht p b Hp) as [_ Hl]. cbn in Hl. rewrite Er in Hl. destruct Hl as (br & Hr & _).
  pose proof (tree_grows h Ht p b Hp r br Er Hr) as Hlt. destruct (IH r br Hr Hq) as [->|]; [|lia]. assert (br = bq) as -> by congruence. done.
Qed.

Lemma ancestor_not_better h p q : tree_ok h -> is_Some (h !! p) -> ancestor_of h p q -> ~ worse h p q.
Proof.
  intros Ht [b Hp] Ha Hw. destruct (work_up h p b q) with (bq := default b (h !! q)) as [->|Hlt]; [done..| | |].
  - destruct (ancestor_in_heap h p b q (tree_links h Ht) Hp Ha) as [bq ->]. done.
  - by eapply worse_irrefl, Hw; apply Ht.
  - destruct Hw as (a & c & Hp' & Hq & E). rewrite Hq in Hlt. cbn in Hlt. assert (a = b) as -> by congruence.
    apply worse_entry_spec in E; [lia|by eapply (tree_works h Ht)..].
Qed.

Lemma unusable_loop_spec cm t fuel p b : tree_ok (cm_heap cm) -> active cm t -> cm_heap cm !! p = Some b -> nChainTx b <> 0 -> nHeight b < Z.of_nat fuel ->
  exists r, unusable_loop fuel cm (Some p) = Ok r /\
    match r with
    | None => usable (cm_heap cm) t p
    | Some (q, f, m) => ancestor_of (cm_heap cm) p q /\ ~ ancestor_of (cm_heap cm) t q /\
        exists bq, cm_heap cm !! q = Some bq /\ f = failed bq /\ m = negb (have_data bq) /\ f || m = true
    end.
Proof.
  intros Ht Hact. pose proof (tree_links _ Ht) as Hl. revert p b. induction fuel as [|fuel IH]; intros p b Hp Hn Hf.
  { pose proof (Hl p b Hp) as [H0 _]. cbn in H0. lia. }
  cbn [unusable_loop]. destruct (Contains_active cm t p b Hl Hact Hp) as (c & -> & Hc). cbn [res_bind]. destruct c.
  { exists None. split; [done|]. intros q Hpq Hq. destruct Hq. eapply ancestor_trans; [by apply Hc|done]. }
  assert (~ ancestor_of (cm_heap cm) t p) as Hnt by (intros Ha; by apply Hc in Ha).
  rewrite (deref_Ok _ _ _ Hp). cbn [res_bind]. rewrite (proj2 (Z.eqb_neq _ _) Hn). cbn [negb orb guard_err res_bind].
  destruct (has_flag b BLOCK_FAILED_MASK || negb (has_flag b BLOCK_HAVE_DATA)) eqn:Eb.
  { eexists. split; [done|]. cbn. split; [apply ancestor_refl|]. split; [done|]. by exists b. }
  apply orb_false_elim in Eb as [Eb1 Eb2]. apply negb_false_iff in Eb2.
  pose proof (Hl p b Hp) as [_ Hb]. cbn in Hb. destruct (pprev b) as [q|] eqn:Eq.
  - destruct Hb as (bq & Hq & Hh). destruct (IH q bq Hq) as (r & -> & Hr); [exact (tree_counts _ Ht p b Hp q bq Eq Hq Hn)|lia|].
    exists r. split; [done|]. destruct r as [[[x f] m]|].
    + destruct Hr as (Hx & Hr). split; [by eapply ancestor_up|done].
    + intros x Hpx Hx. destruct (ancestor_cases _ p b x Hp Hpx) as [->|(q' & Eq' & Hqx)]; [by exists b|].
      rewrite Eq in Eq'. injection Eq' as <-. by apply Hr.
  - assert (unusable_loop fuel cm None = Ok None) as -> by (by destruct fuel). exists None. split; [done|].
    intros x Hpx Hx. destruct (ancestor_cases _ p b x Hp Hpx) as [->|(q' & Eq' & _)]; [by exists b|congruence].
Qed.

(** ** [FindMostWorkChain] *)

(** Status words have aged and candidates have left the set, each for a reason. *)
Record shrunk (t : ptr) (cm cm' : chain_manager) : Prop := {
  sh_index : index_ok cm';
  sh_aged : aged (cm_heap cm) (cm_heap cm');
  sh_active : chainActive cm' = chainActive cm;
  sh_candidates : setBlockIndexCandidates cm' ⊆ setBlockIndexCandidates cm;
  sh_excused : forall x, x ∈ setBlockIndexCandidates cm -> x ∉ setBlockIndexCandidates cm' -> excused (cm_heap cm') t x
}.

Lemma pointer_ok_aged h h' p : aged h h' -> pointer_ok h p -> pointer_ok h' p.
Proof. intros Ha Hp q Hq. by eapply aged_is_Some, Hp. Qed.

Lemma index_ok_aged cm cm' : index_ok cm -> aged (cm_heap cm) (cm_heap cm') -> setBlockIndexCandidates cm' ⊆ setBlockIndexCandidates cm ->
  pointer_ok (cm_heap cm) (pindexBestInvalid cm') -> cm_warnings cm' = cm_warnings cm -> mapBlockIndex cm' = mapBlockIndex cm -> index_ok cm'.
Proof.
  intros [H1 Hm H2 H3 H4 H5] Ha Hc Hi Hw Em. split; [by eapply aged_tree|intros h p; rewrite Em; intros Hp; by eapply aged_is_Some, Hm| |by eapply pointer_ok_aged| |]; [|rewrite Hw; by eapply pointer_ok_aged..].
  intros p Hp. destruct (H2 p (Hc p Hp)) as (b & Hb & Hn). destruct (aged_lookup _ _ p b Ha Hb) as (b' & s & Hb' & -> & _). by eexists.
Qed.

Lemma shrunk_refl t cm : index_ok cm -> shrunk t cm cm.
Proof. intros Hi. split; [done|done|done|done|]. by intros x Hx Hnx. Qed.

Lemma shrunk_trans t cm1 cm2 cm3 : shrunk t cm1 cm2 -> shrunk t cm2 cm3 -> shrunk t cm1 cm3.
Proof.
  intros [A1 A2 A3 A4 A5] [B1 B2 B3 B4 B5]. split; [done|by transitivity (cm_heap cm2)|congruence|set_solver|].
  intros x Hx Hnx. destruct (decide (x ∈ setBlockIndexCandidates cm2)); [by apply B5|]. by eapply excused_aged, A5.
Qed.

Lemma shrunk_complete t r cm cm' : shrunk t cm cm' -> complete cm t r -> complete cm' t r.
Proof.
  intros [_ Ha _ Hs He] Hc p b' Hp Hn Hw. destruct (aged_lookup_back _ _ p b' Ha Hp) as (b & s & Hb & -> & _).
  rewrite (aged_worse _ _ p r Ha) in Hw. destruct (decide (p ∈ setBlockIndexCandidates cm')) as [|Hnp]; [by left|]. right.
  destruct (Hc p b Hb Hn Hw) as [Hin|Hex]; [by apply He|by eapply excused_aged].
Qed.

Lemma shrunk_erase t cm x : index_ok cm -> excused (cm_heap cm) t x -> shrunk t cm (erase_candidate x cm).
Proof.
  intros Hi He. split; [|done|done|cbn; set_solver|].
  - by apply (index_ok_aged cm); [done|done|cbn; set_solver|apply Hi|..].
  - intros y Hy Hny. cbn in Hny. destruct (decide (y = x)) as [->|]; [done|]. set_solver.
Qed.

Lemma shrunk_flag t cm p f : index_ok cm -> f = BLOCK_FAILED_VALID \/ f = BLOCK_FAILED_CHILD -> shrunk t cm (set_flag p f cm).
Proof.
  intros Hi Hf. pose proof (set_flag_aged p f cm Hf) as Ha. split; [|done|done|done|by intros x Hx Hnx].
  by apply (index_ok_aged cm); [done|done|done|apply Hi|..].
Qed.

Lemma shrunk_unlinked t cm l : index_ok cm -> shrunk t cm (set_unlinked cm l).
Proof. intros Hi. split; [|done|done|done|by intros x Hx Hnx]. by apply (index_ok_aged cm); [done|done|done|apply Hi|..]. Qed.

Lemma note_invalid_spec t cm p : index_ok cm -> is_Some (cm_heap cm !! p) ->
  exists cm', note_invalid cm p = Ok cm' /\ shrunk t cm cm' /\ cm_heap cm' = cm_heap cm /\ setBlockIndexCandidates cm' = setBlockIndexCandidates cm /\
    mapBlocksUnlinked cm' = mapBlocksUnlinked cm /\ cm_warnings cm' = cm_warnings cm /\ is_Some (pindexBestInvalid cm').
Proof.
  intros Hi [b Hp]. assert (forall cm', cm' = cm \/ cm' = set_best_invalid cm (Some p) -> shrunk t cm cm') as Hs.
  { intros cm' [->| ->]; [by apply shrunk_refl|]. split; [|done|done|done|by intros x Hx Hnx].
    apply (index_ok_aged cm); [done|done|done| |done..]. intros q [= <-]. by rewrite Hp. }
  unfold note_invalid, work_of. destruct (pindexBestInvalid cm) as [q|] eqn:Eq.
  - destruct (ix_invalid cm Hi q Eq) as [bq Hq]. rewrite (deref_Ok _ _ _ Hp), (deref_Ok _ _ _ Hq). cbn [res_bind].
    eexists. split; [done|]. destruct (_ >? 0); (split; [by apply Hs; auto|]); [done|]. rewrite Eq. done.
  - eexists. split; [done|]. split; [by apply Hs; auto|done].
Qed.

Lemma drop_chain_spec t fuel cm q bq p b f m : index_ok cm -> cm_heap cm !! p = Some b -> ancestor_of (cm_heap cm) p q -> ~ ancestor_of (cm_heap cm) t q ->
  cm_heap cm !! q = Some bq -> f = failed bq -> m = negb (have_data bq) -> f || m = true -> nHeight b - nHeight bq <= Z.of_nat fuel ->
  exists cm', drop_chain fuel cm q p f m = Ok cm' /\ shrunk t cm cm' /\ (p <> q -> p ∉ setBlockIndexCandidates cm').
Proof.
  intros Hi Hp Ha Hnt Hq Ef Em Hfm. revert cm p b bq Hi Hp Ha Hnt Hq Ef Em.
  induction fuel as [|fuel IH]; intros cm p b bq Hi Hp Ha Hnt Hq Ef Em Hf; cbn [drop_chain]; case_bool_decide as Hd.
  1,3: exists cm; split; [done|]; split; [by apply shrunk_refl|done].
  - exfalso. pose proof (tree_links _ (ix_tree cm Hi)) as Hl. destruct (ancestor_height _ p b q bq Hl Hp Hq Ha) as [Hle Hn].
    replace (Z.to_nat (nHeight b - nHeight bq)) with 0%nat in Hn by lia. injection Hn as ->. done.
  - rewrite (deref_Ok _ _ _ Hp). cbn [res_bind]. destruct (ancestor_cases _ p b q Hp Ha) as [->|(x & Ex & Hx)]; [done|]. rewrite Ex.
    pose proof (tree_links _ (ix_tree cm Hi)) as Hl. pose proof (Hl p b Hp) as [_ Hb]. cbn in Hb. rewrite Ex in Hb. destruct Hb as (bx & Hbx & Hhx).
    set (cm1 := if f then set_flag p BLOCK_FAILED_CHILD cm else if m then set_unlinked cm (mapBlocksUnlinked cm ++ [(x, p)]) else cm).
    assert (shrunk t cm cm1 /\ excused (cm_heap cm1) t p) as [H1 He].
    { unfold cm1. destruct f.
      - split; [apply shrunk_flag; auto|]. left. destruct (aged_lookup _ _ p b (set_flag_aged p BLOCK_FAILED_CHILD cm ltac:(auto)) Hp) as (b' & s & Hb' & _).
        exists b'. split; [done|]. eapply set_flag_failed; [|exact Hb']. auto.
      - destruct m; [|done]. split; [by apply shrunk_unlinked|]. right. exists q, bq. split; [done|]. split; [done|]. split; [done|]. by destruct (have_data bq). }
    pose proof (shrunk_trans _ _ _ _ H1 (shrunk_erase t cm1 p (sh_index _ _ _ H1) He)) as H2. set (cm2 := erase_candidate p cm1) in *.
    pose proof (sh_aged _ _ _ H2) as Hag. destruct (aged_lookup _ _ x bx Hag Hbx) as (bx' & s & Hbx' & Ebx & _).
    destruct (aged_lookup _ _ q bq Hag Hq) as (bq' & s' & Hq' & Ebq & Hff & Hdd).
    destruct (IH cm2 x bx' bq' (sh_index _ _ _ H2) Hbx') as (cm' & E & H3 & H4); [by rewrite (aged_ancestor _ _ _ _ Hag)..|done| | | |].
    + assert (f = failed bq') as Hfq; [|exact Hfq]. destruct f.
      * symmetry. by apply Hff.
      * (* without failures no status word has changed *)
        assert (bq' = bq) as ->; [|done]. unfold cm2, cm1 in Hq'. destruct m; [|done]. cbn in Hq'. congruence.
    + by rewrite Hdd.
    + subst bx' bq'. cbn [nHeight with_status]. lia.
    + exists cm'. split; [done|]. split; [by eapply shrunk_trans|]. intros _ Hin. apply (sh_candidates _ _ _ H3) in Hin. unfold cm2 in Hin. cbn in Hin. set_solver.
Qed.

Lemma candidates_in_heap cm : index_ok cm -> Forall (fun p => is_Some (cm_heap cm !! p)) (elements (setBlockIndexCandidates cm)).
Proof.
  intros Hi. apply Forall_forall. intros p Hp%elem_of_elements. destruct (ix_candidates cm Hi p Hp) as (b & -> & _). done.
Qed.

Lemma erase_smaller {A : gset ptr} {B : gset ptr} p : B ⊆ A -> p ∈ A -> p ∉ B -> (size B < size A)%nat.
Proof. intros Hs Ha Hb. apply subset_size. set_solver. Qed.

(** What the search returns: the best of the candidates that are left, which can be used. *)
Definition best_usable (cm : chain_manager) (t : ptr) (best : option ptr) : Prop :=
  match best with
  | None => setBlockIndexCandidates cm = ∅
  | Some p => p ∈ setBlockIndexCandidates cm /\ usable (cm_heap cm) t p /\
      forall q, q ∈ setBlockIndexCandidates cm -> ~ worse (cm_heap cm) p q
  end.

Lemma most_work_loop_spec fuel cm t : index_ok cm -> active cm t -> (size (setBlockIndexCandidates cm) <= fuel)%nat ->
  exists best cm', most_work_loop fuel cm = Ok (best, cm') /\ shrunk t cm cm' /\ best_usable cm' t best.
Proof.
  revert cm. induction fuel as [|fuel IH]; intros cm Hi Hact Hf; cbn [most_work_loop];
    destruct (last_in_order_spec (cm_heap cm) _ (tree_works _ (ix_tree cm Hi)) (candidates_in_heap cm Hi)) as (best & -> & Hb); cbn [res_bind];
    (destruct best as [p|]; [|apply elements_empty_inv, leibniz_equiv in Hb; exists None, cm; split; [done|]; split; [by apply shrunk_refl|done]]);
    destruct Hb as [Hp%elem_of_elements Hmax]; destruct (ix_candidates cm Hi p Hp) as (b & Hbp & Hn); rewrite (deref_Ok _ _ _ Hbp); cbn [res_bind];
    pose proof (tree_links _ (ix_tree cm Hi) p b Hbp) as [H0 _]; cbn in H0;
    destruct (unusable_loop_spec cm t (Z.to_nat (nHeight b + 1)) p b (ix_tree cm Hi) Hact Hbp Hn ltac:(lia)) as (r & -> & Hr); cbn [res_bind];
    (destruct r as [[[q f] m]|]; [|exists (Some p), cm; split; [done|]; split; [by apply shrunk_refl|]; split; [done|]; split; [done|];
       intros x Hx; apply Hmax; by apply elem_of_elements]).
  - exfalso. assert (p ∉ setBlockIndexCandidates cm); [|done]. assert (setBlockIndexCandidates cm ≡ ∅) as -> by (apply size_empty_iff; lia). set_solver.
  - destruct Hr as (Hpq & Hnt & bq & Hbq & Ef & Em & Hfm).
    destruct (note_invalid_spec t cm p Hi ltac:(by rewrite Hbp)) as (cmi & Ei & Hsi & Ehi & Eci & _).
    assert (exists cm1, (if f then note_invalid cm p else Ok cm) = Ok cm1 /\ shrunk t cm cm1 /\ cm_heap cm1 = cm_heap cm) as (cm1 & -> & Hs1 & Eh1).
    { destruct f; [by exists cmi|]. exists cm. split; [done|]. split; [by apply shrunk_refl|done]. }
    cbn [res_bind]. destruct (ancestor_height _ p b q bq (tree_links _ (ix_tree cm Hi)) Hbp Hbq Hpq) as [Hle _].
    pose proof (tree_links _ (ix_tree cm Hi) q bq Hbq) as [Hq0 _]. cbn in Hq0.
    destruct (drop_chain_spec t (Z.to_nat (nHeight b + 1)) cm1 q bq p b f m (sh_index _ _ _ Hs1)) as (cm2 & -> & Hs2 & Hp2); try (by rewrite Eh1); [done..|lia|].
    cbn [res_bind]. pose proof (shrunk_trans _ _ _ _ Hs1 Hs2) as Hs12.
    assert (excused (cm_heap cm2) t q) as Heq.
    { eapply excused_aged; [apply (sh_aged _ _ _ Hs12)|]. destruct f; [left; by exists bq|]. right. exists q, bq.
      split; [apply ancestor_refl|]. split; [done|]. split; [done|]. rewrite Em in Hfm. by destruct (have_data bq). }
    pose proof (shrunk_trans _ _ _ _ Hs12 (shrunk_erase t cm2 q (sh_index _ _ _ Hs2) Heq)) as Hs3.
    destruct (IH (erase_candidate q cm2)) as (best & cm' & E & Hs' & Hbest).
    + apply Hs3.
    + eapply active_aged; [apply (sh_aged _ _ _ Hs3)|apply (sh_active _ _ _ Hs3)|done].
    + enough (size (setBlockIndexCandidates (erase_candidate q cm2)) < size (setBlockIndexCandidates cm))%nat by lia.
      apply (erase_smaller p); [apply (sh_candidates _ _ _ Hs3)|done|]. cbn. destruct (decide (p = q)) as [->|Hne]; [set_solver|]. specialize (Hp2 Hne). set_solver.
    + exists best, cm'. split; [done|]. split; [|done]. by eapply shrunk_trans.
Qed.

Lemma FindMostWorkChain_spec cm t : index_ok cm -> active cm t ->
  exists best cm', FindMostWorkChain cm = Ok (best, cm') /\ shrunk t cm cm' /\ best_usable cm' t best.
Proof. intros Hi Ha. by apply most_work_loop_spec. Qed.

(** ** [PruneBlockIndexCandidates] *)

Lemma worse_dec_entry h p q a b : h !! p = Some a -> h !! q = Some b -> worse_entry p a q b = false -> ~ worse h p q.
Proof. intros Hp Hq E Hw. apply (worse_entries h p q a b Hp Hq) in Hw. congruence. Qed.

Lemma prune_loop_spec fuel cm t : index_ok cm -> active cm t -> (size (setBlockIndexCandidates cm) <= fuel)%nat ->
  exists s, prune_loop fuel cm = Ok (set_candidates cm s) /\ s ⊆ setBlockIndexCandidates cm /\
    forall p, p ∈ setBlockIndexCandidates cm -> (p ∈ s <-> ~ worse (cm_heap cm) p t).
Proof.
  revert cm. induction fuel as [|fuel IH]; intros cm Hi Hact Hf; cbn [prune_loop]; pose proof (tree_works _ (ix_tree cm Hi)) as Hw;
    destruct (first_in_order_spec (cm_heap cm) _ Hw (candidates_in_heap cm Hi)) as (first & -> & Hb); cbn [res_bind];
    (destruct first as [p|]; [|apply elements_empty_inv, leibniz_equiv in Hb; exists (setBlockIndexCandidates cm); split; [by destruct cm|]; split; [done|]; intros x Hx; rewrite Hb in Hx; set_solver]);
    destruct Hb as [Hp%elem_of_elements Hmin]; destruct (ix_candidates cm Hi p Hp) as (b & Hbp & _);
    unfold worse_than_tip; rewrite (active_Tip cm t (tree_links _ (ix_tree cm Hi)) Hact); destruct Hact as (bt & Ht & Ect);
    rewrite (comparator_Ok _ p t b bt Hbp Ht); cbn [res_bind]; destruct (worse_entry p b t bt) eqn:Ew.
  2,4: exists (setBlockIndexCandidates cm); split; [by destruct cm|]; split; [done|]; intros x Hx; split; [|done]; intros _ Hxt;
    destruct (worse_cotrans (cm_heap cm) x p t Hw ltac:(by rewrite Hbp) Hxt) as [Hxp|[->|Hpt]];
    [by apply (Hmin x); [apply elem_of_elements|]|by apply (worse_dec_entry _ x t b bt Hbp Ht Ew)|by apply (worse_dec_entry _ p t b bt Hbp Ht Ew)].
  - exfalso. assert (setBlockIndexCandidates cm ≡ ∅) as E by (apply size_empty_iff; lia). set_solver.
  - destruct (IH (erase_candidate p cm)) as (s & E & Hs & Hiff).
    + apply (index_ok_aged cm); [done|done|cbn; set_solver|apply Hi|done..].
    + by exists bt.
    + enough (size (setBlockIndexCandidates (erase_candidate p cm)) < size (setBlockIndexCandidates cm))%nat by lia.
      apply (erase_smaller p); cbn; set_solver.
    + exists s. split; [exact E|]. cbn in Hs, Hiff. split; [set_solver|]. intros x Hx. destruct (decide (x = p)) as [->|Hne].
      * split; [set_solver|]. intros Hnw. destruct Hnw. by exists b, bt.
      * apply Hiff. set_solver.
Qed.

Lemma PruneBlockIndexCandidates_spec cm t p : index_ok cm -> active cm t -> p ∈ setBlockIndexCandidates cm -> ~ worse (cm_heap cm) p t ->
  exists s, PruneBlockIndexCandidates cm = Ok (set_candidates cm s) /\ s ⊆ setBlockIndexCandidates cm /\
    forall x, x ∈ setBlockIndexCandidates cm -> (x ∈ s <-> ~ worse (cm_heap cm) x t).
Proof.
  intros Hi Hact Hp Hnw. destruct (prune_loop_spec _ cm t Hi Hact (Nat.le_refl _)) as (s & E & Hs & Hiff). exists s. split; [|done].
  unfold PruneBlockIndexCandidates. rewrite E. cbn [res_bind setBlockIndexCandidates set_candidates].
  rewrite bool_decide_eq_false_2; [done|]. intros ->. apply (Hiff p Hp) in Hnw. set_solver.
Qed.

(** ** Warnings and failed blocks *)

Lemma block_proof_Ok h p b : tree_ok h -> h !! p = Some b -> exists w, block_proof b = Ok w /\ uint_ok w.
Proof.
  intros Ht Hp. destruct (GetBlockProof_correct (nBits b) (tree_bits h Ht p b Hp)) as (w & E & Hw & _). exists w. unfold block_proof. by rewrite E.
Qed.

Lemma active_tip_Ok cm t : links_ok (cm_heap cm) -> active cm t -> exists bt, active_tip cm = Ok (t, bt) /\ cm_heap cm !! t = Some bt.
Proof.
  intros Hl Ha. unfold active_tip. rewrite (active_Tip cm t Hl Ha). destruct Ha as (bt & Ht & _). exists bt. by rewrite (deref_Ok _ _ _ Ht).
Qed.

Lemma invalid_chain_ahead_Ok cm t : index_ok cm -> active cm t -> exists v, invalid_chain_ahead cm = Ok v.
Proof.
  intros Hi Ha. unfold invalid_chain_ahead. destruct (pindexBestInvalid cm) as [p|] eqn:Ep; [|by eexists].
  destruct (ix_invalid cm Hi p Ep) as [b Hp]. unfold work_of. rewrite (deref_Ok _ _ _ Hp). cbn [res_bind].
  destruct (active_tip_Ok cm t (tree_links _ (ix_tree cm Hi)) Ha) as (bt & -> & Ht). cbn [res_bind snd].
  destruct (block_proof_Ok _ t bt (ix_tree cm Hi) Ht) as (w & -> & _). by eexists.
Qed.

Definition warnings_ok (h : gmap positive CBlockIndex) (w : fork_warnings) : Prop :=
  pointer_ok h (pindexBestForkTip w) /\ pointer_ok h (pindexBestForkBase w).

Lemma set_warnings_shrunk t cm w : index_ok cm -> warnings_ok (cm_heap cm) w -> shrunk t cm (set_warnings cm w).
Proof.
  intros [H1 Hm H2 H3 H4 H5] [Hw1 Hw2]. split; [|done|done|done|by intros x Hx Hnx]. by split.
Qed.

Lemma CheckForkWarningConditions_spec IBD cm t : index_ok cm -> active cm t ->
  exists w, CheckForkWarningConditions IBD cm = Ok (set_warnings cm w) /\ warnings_ok (cm_heap cm) w.
Proof.
  intros Hi Ha. unfold CheckForkWarningConditions. destruct IBD.
  { exists (cm_warnings cm). split; [by destruct cm|]. split; apply Hi. }
  assert (exists f, match pindexBestForkTip (cm_warnings cm) with
      | Some p => let? hp := height_of cm p in Ok (if Height (chainActive cm) - hp >=? FORK_BLOCK_LIMIT then None else Some p)
      | None => Ok None end = Ok f /\ pointer_ok (cm_heap cm) f) as (f & -> & Hf).
  { destruct (pindexBestForkTip (cm_warnings cm)) as [p|] eqn:Ep; [|exists None; by split].
    destruct (ix_fork_tip cm Hi p Ep) as [b Hp]. unfold height_of. rewrite (deref_Ok _ _ _ Hp). cbn [res_bind]. eexists. split; [done|].
    destruct (_ >=? _); intros q [=]; subst. by rewrite Hp. }
  cbn [res_bind]. assert (exists v, match f with Some _ => Ok true | None => invalid_chain_ahead cm end = Ok v) as (v & ->).
  { destruct f; [by eexists|]. by eapply invalid_chain_ahead_Ok. }
  cbn [res_bind]. eexists. split; [done|]. pose proof (ix_fork_base cm Hi) as Hb.
  destruct v; [destruct f; destruct (pindexBestForkBase (cm_warnings cm)) eqn:Eb|]; split; cbn; rewrite ?Eb; done.
Qed.

Lemma lower_to_spec h fuel p height : links_ok h -> pointer_ok h p ->
  (forall q b, p = Some q -> h !! q = Some b -> nHeight b < Z.of_nat fuel) -> 0 <= height ->
  exists r, lower_to fuel h p height = Ok r /\ pointer_ok h r.
Proof.
  intros Hl. revert p. induction fuel as [|fuel IH]; intros p Hp Hf Hh; (destruct p as [q|]; [|exists None; by split]);
    destruct (Hp q eq_refl) as [b Hb]; cbn [lower_to]; rewrite (deref_Ok _ _ _ Hb); cbn [res_bind]; rewrite Z.gtb_ltb;
    pose proof (Hl q b Hb) as [H0 Hn]; cbn in H0, Hn; specialize (Hf q b eq_refl Hb);
    (destruct (Z.ltb_spec height (nHeight b)); cbn [negb]; [|exists (Some q); split; [done|]; intros x [= <-]; by rewrite Hb]); [lia|].
  apply IH; [| |done].
  - intros x Ex. rewrite Ex in Hn. destruct Hn as (bx & Hx & _). by rewrite Hx.
  - intros x bx Ex Hx. rewrite Ex in Hn. destruct Hn as (bx' & Hx' & Hh'). assert (bx' = bx) as -> by congruence. lia.
Qed.

Lemma new_fork_loop_spec h fuel p l : links_ok h -> pointer_ok h p -> pointer_ok h l ->
  (forall q b, p = Some q -> h !! q = Some b -> nHeight b < Z.of_nat fuel) ->
  exists r, new_fork_loop fuel h p l = Ok r /\ pointer_ok h r.
Proof.
  intros Hl. revert p l. induction fuel as [|fuel IH]; intros p l Hp Hpl Hf; cbn [new_fork_loop];
    (case_bool_decide as Hd; [by exists p|]); (destruct p as [q|]; [|exists None; by split]); destruct (Hp q eq_refl) as [b Hb];
    pose proof (Hl q b Hb) as [H0 Hn]; cbn in H0, Hn; specialize (Hf q b eq_refl Hb); [lia|].
  rewrite (deref_Ok _ _ _ Hb). cbn [res_bind].
  assert (exists r, match l with Some l => let? bl := deref h l in lower_to (Z.to_nat (nHeight bl + 1)) h (Some l) (nHeight b) | None => Ok None end = Ok r /\ pointer_ok h r)
    as (r & -> & Hr).
  { destruct l as [l|]; [|exists None; by split]. destruct (Hpl l eq_refl) as [bl Hbl]. rewrite (deref_Ok _ _ _ Hbl). cbn [res_bind].
    apply lower_to_spec; [done|done| |done]. intros x bx [= <-] Hx. assert (bx = bl) as -> by congruence. pose proof (Hl l bl Hbl) as [Hl0 _]. cbn in Hl0. lia. }
  cbn [res_bind]. case_bool_decide as Hd2; [exists (Some q); by split|]. apply IH; [|done|].
  - intros x Ex. rewrite Ex in Hn. destruct Hn as (bx & Hx & _). by rewrite Hx.
  - intros x bx Ex Hx. rewrite Ex in Hn. destruct Hn as (bx' & Hx' & Hh'). assert (bx' = bx) as -> by congruence. lia.
Qed.

Lemma CheckForkWarningConditionsOnNewFork_spec IBD cm t p : index_ok cm -> active cm t -> is_Some (cm_heap cm !! p) ->
  exists w, CheckForkWarningConditionsOnNewFork IBD cm p = Ok (set_warnings cm w) /\ warnings_ok (cm_heap cm) w.
Proof.
  intros Hi Ha [b Hp]. pose proof (tree_links _ (ix_tree cm Hi)) as Hl. unfold CheckForkWarningConditionsOnNewFork. rewrite (deref_Ok _ _ _ Hp). cbn [res_bind].
  destruct (new_fork_loop_spec (cm_heap cm) (Z.to_nat (nHeight b + 1)) (Some p) (Tip (chainActive cm)) Hl) as (r & -> & Hr).
  { intros q [= <-]. by rewrite Hp. }
  { rewrite (active_Tip cm t Hl Ha). destruct Ha as (bt & Ht & _). intros q [= <-]. by rewrite Ht. }
  { intros q bq [= <-] Hq. assert (bq = b) as -> by congruence. pose proof (Hl p b Hp) as [H0 _]. cbn in H0. lia. }
  cbn [res_bind]. assert (exists w, match r with
     | None => Ok cm
     | Some p0 =>
         let? higher := match pindexBestForkTip (cm_warnings cm) with None => Ok true | Some q => let? hq := height_of cm q in Ok (nHeight b >? hq) end in
         let? bf := deref (cm_heap cm) p0 in
         let? proof := block_proof bf in
         if higher && (CompareTo (uint_sub (nChainWork b) (nChainWork bf)) (uint_mul32 proof 7) >? 0) && (Height (chainActive cm) - nHeight b <? 72)
         then Ok (set_warnings cm {| pindexBestForkTip := Some p; pindexBestForkBase := Some p0; fLargeWorkForkFound := fLargeWorkForkFound (cm_warnings cm);
                                     fLargeWorkInvalidChainFound := fLargeWorkInvalidChainFound (cm_warnings cm) |})
         else Ok cm
     end = Ok (set_warnings cm w) /\ warnings_ok (cm_heap cm) w) as (w & -> & Hw).
  { assert (warnings_ok (cm_heap cm) (cm_warnings cm)) as Hw0 by (split; apply Hi).
    destruct r as [p0|]; [|exists (cm_warnings cm); split; [by destruct cm|done]]. destruct (Hr p0 eq_refl) as [bf Hbf].
    assert (exists hi, match pindexBestForkTip (cm_warnings cm) with None => Ok true | Some q => let? hq := height_of cm q in Ok (nHeight b >? hq) end = Ok hi) as (hi & ->).
    { destruct (pindexBestForkTip (cm_warnings cm)) as [q|] eqn:Eq; [|by eexists]. destruct (ix_fork_tip cm Hi q Eq) as [bq Hq]. unfold height_of.
      rewrite (deref_Ok _ _ _ Hq). by eexists. }
    cbn [res_bind]. rewrite (deref_Ok _ _ _ Hbf). cbn [res_bind]. destruct (block_proof_Ok _ p0 bf (ix_tree cm Hi) Hbf) as (pr & -> & _). cbn [res_bind].
    destruct (_ && _); [eexists; split; [done|]; split; intros q [= <-]; [by rewrite Hp|by rewrite Hbf]|]. exists (cm_warnings cm). split; [by destruct cm|done]. }
  cbn [res_bind]. destruct (CheckForkWarningConditions_spec IBD (set_warnings cm w) t) as (w' & -> & Hw').
  - by apply (set_warnings_shrunk t cm w).
  - exact Ha.
  - exists w'. by split.
Qed.

Lemma InvalidChainFound_spec IBD cm t p : index_ok cm -> active cm t -> is_Some (cm_heap cm !! p) ->
  exists cm', InvalidChainFound IBD cm p = Ok cm' /\ shrunk t cm cm' /\ cm_heap cm' = cm_heap cm /\ setBlockIndexCandidates cm' = setBlockIndexCandidates cm.
Proof.
  intros Hi Ha Hp. unfold InvalidChainFound. destruct (note_invalid_spec t cm p Hi Hp) as (cm1 & -> & Hs & Eh & Ec & _). cbn [res_bind].
  assert (active cm1 t) as Ha1 by (eapply active_aged; [apply (sh_aged _ _ _ Hs)|apply (sh_active _ _ _ Hs)|done]).
  rewrite (active_Tip cm1 t (tree_links _ (ix_tree cm1 (sh_index _ _ _ Hs))) Ha1).
  destruct (CheckForkWarningConditions_spec IBD cm1 t (sh_index _ _ _ Hs) Ha1) as (w & -> & Hw). eexists. split; [done|].
  split; [|done]. eapply shrunk_trans; [done|]. apply set_warnings_shrunk; [apply Hs|done].
Qed.

(** The block that failed is marked and is no candidate any more. *)
Lemma InvalidBlockFound_spec IBD cm t p b : index_ok cm -> active cm t -> cm_heap cm !! p = Some b ->
  exists cm', InvalidBlockFound IBD cm p false = Ok cm' /\ shrunk t cm cm' /\ exists b', cm_heap cm' !! p = Some b' /\ failed b' = true.
Proof.
  intros Hi Ha Hp. unfold InvalidBlockFound. set (cm1 := set_flag p BLOCK_FAILED_VALID cm). pose proof (shrunk_flag t cm p BLOCK_FAILED_VALID Hi ltac:(auto)) as H1.
  fold cm1 in H1. destruct (aged_lookup _ _ p b (sh_aged _ _ _ H1) Hp) as (b' & s & Hb' & _).
  assert (failed b' = true) as Hf by (eapply (set_flag_failed p BLOCK_FAILED_VALID cm); [auto|exact Hb']).
  assert (shrunk t cm1 (mark_dirty p cm1)) as H2.
  { split; [|done|done|done|by intros x Hx Hnx]. by apply (index_ok_aged cm1); [apply H1|done|done|apply H1|..]. }
  pose proof (shrunk_trans _ _ _ _ (shrunk_trans _ _ _ _ H1 H2) (shrunk_erase t (mark_dirty p cm1) p (sh_index _ _ _ H2) ltac:(left; by exists b'))) as H3.
  destruct (InvalidChainFound_spec IBD (erase_candidate p (mark_dirty p cm1)) t p (sh_index _ _ _ H3)) as (cm' & -> & Hs & Eh & _).
  - eapply active_aged; [apply (sh_aged _ _ _ H3)|apply (sh_active _ _ _ H3)|done].
  - cbn [cm_heap erase_candidate mark_dirty set_candidates set_dirty]. by rewrite Hb'.
  - exists cm'. split; [done|]. split; [by eapply shrunk_trans|]. exists b'. rewrite Eh. done.
Qed.
