(* ===== verification/Activation.v ===== *)
(** * Activation of the best chain

    What [ActivateBestChain] promises: it terminates without failing an assertion, and the tip
    it leaves is the entry with the most work among those that can be used.  The proofs use
    the interface [TipLaws] of the operations that move the rest of the node along. *)

From stdpp Require Import gmap.
From S2P Require Import Prelude ArithUint256 ArithUint256Props Chain Pow Transaction Block BestChain BestChainProps.

(** What the activation relies on: there is a notion of the node being at the branch of an
    entry, connecting and disconnecting move it by one block, and a block that is stored is
    never reported as possibly corrupt. *)
Class TipLaws (N Blk : Type) `{!TipOps N Blk} := {
  tip_state : N -> gmap positive CBlockIndex -> ptr -> Prop;
  tip_state_aged n h h' t : aged h h' -> tip_state n h t -> tip_state n h' t;
  tip_connect_state n h t p b blk v n' r :
    tree_ok h -> tip_state n h t -> h !! p = Some b -> pprev b = Some t -> tip_connect (Blk := Blk) n h p blk v = (n', r) ->
    match r with
    | TipConnected s => tip_state n' h p /\ failed (with_status (fun _ => s) b) = failed b /\ have_data (with_status (fun _ => s) b) = have_data b
    | TipInvalid _ corrupt => corrupt = false /\ tip_state n' h t
    | TipError => True
    end;
  tip_disconnect_state n h t b q n' :
    tree_ok h -> tip_state n h t -> h !! t = Some b -> pprev b = Some q -> tip_disconnect (Blk := Blk) n h t = (n', true) -> tip_state n' h q;
  tip_reorganised_state n h t d k : tip_state n h t -> tip_state (tip_reorganised (Blk := Blk) n d k) h t;
  tip_flush_state n h t : tip_state n h t -> tip_state (tip_flush (Blk := Blk) n).1 h t
}.

#[global] Instance connect_end_eq : EqDecision connect_end.
Proof. solve_decision. Defined.

(** All blocks of the branch of [p] can be connected. *)
Definition clean_branch (h : gmap positive CBlockIndex) (p : ptr) : Prop :=
  forall q, ancestor_of h p q -> exists b, h !! q = Some b /\ clean b.

Definition counted (h : gmap positive CBlockIndex) (p : ptr) : Prop := exists b, h !! p = Some b /\ nChainTx b <> 0.

(** ** Moving the tip by one block *)

Lemma chain_ok_active cm t : active cm t -> chain_ok (cm_heap cm) (chainActive cm).
Proof. intros (bt & Ht & ->). right. by exists t, bt. Qed.

Lemma update_tip_spec cm p b : links_ok (cm_heap cm) -> chain_ok (cm_heap cm) (chainActive cm) -> cm_heap cm !! p = Some b ->
  exists k, update_tip cm (Some p) = Ok (set_active cm (branch (cm_heap cm) p (Z.to_nat (nHeight b))) k).
Proof. intros Hl Hc Hp. unfold update_tip. rewrite (SetTip_spec _ _ _ _ Hl Hc Hp). cbn [res_bind fst snd]. by eexists. Qed.

Lemma set_active_ok cm c k : index_ok cm -> index_ok (set_active cm c k).
Proof. intros [H1 Hm H2 H3 H4 H5]. by split. Qed.

(** The entries that are below the tip change, and the excuses stay. *)
Lemma lacks_data_down h t q p : ancestor_of h t q -> lacks_data h t p -> lacks_data h q p.
Proof. intros Ha (x & b & H1 & H2 & H3). exists x, b. split; [done|]. split; [|done]. intros Hx. apply H2. by eapply ancestor_trans. Qed.

Lemma lacks_data_up h t p b x : h !! p = Some b -> pprev b = Some t -> have_data b = true -> lacks_data h t x -> lacks_data h p x.
Proof.
  intros Hp Ep Hd (y & c & H1 & H2 & H3 & H4). exists y, c. split; [done|]. split; [|done]. intros Hy.
  destruct (ancestor_cases h p b y Hp Hy) as [->|(q & Eq & Hq)]; [congruence|]. rewrite Ep in Eq. injection Eq as <-. done.
Qed.

Lemma complete_active cm c k t t' r : (forall p, excused (cm_heap cm) t p -> excused (cm_heap cm) t' p) -> complete cm t r -> complete (set_active cm c k) t' r.
Proof. intros He Hc p b Hp Hn Hw. destruct (Hc p b Hp Hn Hw) as [Hin|Hex]; [by left|]. right. by apply He. Qed.

Lemma with_status_aged h p b s : h !! p = Some b -> failed (with_status (fun _ => s) b) = failed b -> have_data (with_status (fun _ => s) b) = have_data b ->
  aged h (<[p := with_status (fun _ => s) b]> h).
Proof.
  intros Hp Hf Hd. assert (<[p := with_status (fun _ => s) b]> h = alter (with_status (fun _ => s)) p h) as ->.
  { apply map_eq. intros q. destruct (decide (p = q)) as [<-|Hne]; [by rewrite lookup_insert_eq, lookup_alter_eq, Hp|by rewrite lookup_insert_ne, lookup_alter_ne]. }
  apply aged_alter. intros b' Hb'. assert (b' = b) as -> by congruence. split; [by rewrite Hf|done].
Qed.

Section Moving.
Context {N Blk : Type} `{!TipOps N Blk} `{!TipLaws N Blk}.

(** The state between two steps, with the entry [r] up to which the candidates are complete. *)
Record running (cm : chain_manager) (n : N) (t r : ptr) : Prop := {
  rn_index : index_ok cm;
  rn_active : active cm t;
  rn_state : tip_state n (cm_heap cm) t;
  rn_complete : complete cm t r;
  rn_tip : counted (cm_heap cm) t;
  rn_ref : counted (cm_heap cm) r
}.

(** No block has failed in between. *)
Definition flags_kept (h h' : gmap positive CBlockIndex) : Prop := forall p b b', h !! p = Some b -> h' !! p = Some b' -> failed b' = failed b.

Definition newly_failed (h h' : gmap positive CBlockIndex) (p : ptr) : Prop :=
  exists b b', h !! p = Some b /\ failed b = false /\ h' !! p = Some b' /\ failed b' = true.

(** What a step from [cm] may leave. *)
Record later (cm cm' : chain_manager) : Prop := {
  lt_aged : aged (cm_heap cm) (cm_heap cm');
  lt_candidates : setBlockIndexCandidates cm' ⊆ setBlockIndexCandidates cm
}.

#[global] Instance later_preorder : PreOrder later.
Proof. split; [by intros cm; split|]. intros a b c [H1 H2] [H3 H4]. split; [by transitivity (cm_heap b)|set_solver]. Qed.

Lemma shrunk_later t cm cm' : shrunk t cm cm' -> later cm cm'.
Proof. intros [_ H1 _ H2 _]. by split. Qed.

Lemma counted_aged h h' p : aged h h' -> counted h p -> counted h' p.
Proof. intros Ha (b & Hp & Hn). destruct (aged_lookup h h' p b Ha Hp) as (b' & s & Hp' & -> & _). by eexists. Qed.

Lemma shrunk_running t r n cm cm' : shrunk t cm cm' -> running cm n t r -> running cm' n t r.
Proof.
  intros Hs [H1 H2 H3 H4 H5 H6]. split; [apply Hs| | |by eapply shrunk_complete|by eapply counted_aged; [apply Hs|]..].
  - eapply active_aged; [apply (sh_aged _ _ _ Hs)|apply (sh_active _ _ _ Hs)|done].
  - eapply tip_state_aged; [apply (sh_aged _ _ _ Hs)|done].
Qed.

Lemma connect_tip_spec cm n t r p b blk v : running cm n t r -> cm_heap cm !! p = Some b -> pprev b = Some t -> clean b -> nChainTx b <> 0 ->
  exists cm' n' f, connect_tip cm n p blk v = Ok (cm', n', f) /\ later cm cm' /\
    match f with
    | None => running cm' n' p r /\ setBlockIndexCandidates cm' = setBlockIndexCandidates cm /\ flags_kept (cm_heap cm) (cm_heap cm')
    | Some None => cm' = cm
    | Some (Some corrupt) => corrupt = false /\ running cm' n' t r /\ newly_failed (cm_heap cm) (cm_heap cm') p
    end.
Proof.
  intros Hrun Hp Ep [Hcf Hcd] Hn. pose proof Hrun as [Hi Hact Hst Hcomp Hcnt Href]. pose proof (tree_links _ (ix_tree cm Hi)) as Hl.
  unfold connect_tip. rewrite (deref_Ok _ _ _ Hp). cbn [res_bind]. rewrite (active_Tip cm t Hl Hact), Ep, bool_decide_true by done. cbn [guard_err res_bind].
  destruct (tip_connect n (cm_heap cm) p blk v) as [n' verdict] eqn:Ev. pose proof (tip_connect_state _ _ _ _ _ _ _ _ _ (ix_tree cm Hi) Hst Hp Ep Ev) as Hv.
  destruct verdict as [s|by_checks corrupt|].
  - destruct Hv as (Hst' & Hf & Hd). pose proof (with_status_aged _ p b s Hp Hf Hd) as Hag. set (cm1 := set_heap cm (<[p := with_status (fun _ => s) b]> (cm_heap cm))).
    assert (shrunk t cm cm1) as Hs1.
    { split; [|done|done|done|by intros x Hx Hnx]. by apply (index_ok_aged cm); [done|done|done|apply Hi|..]. }
    assert (active cm1 t) as Ha1 by (eapply active_aged; [apply Hs1|done|done]).
    assert (cm_heap cm1 !! p = Some (with_status (fun _ => s) b)) as Hp1 by apply lookup_insert_eq.
    destruct (update_tip_spec cm1 p (with_status (fun _ => s) b)) as (k & ->); [by eapply same_links_ok; [apply aged_links, Hs1|]|by eapply chain_ok_active|done|].
    cbn [res_bind]. eexists _, n', None. split; [done|]. split; [by split; [apply Hs1|done]|]. split; [|split; [done|]].
    2:{ intros y by0 by1 Hy Hy'. cbn in Hy'. apply lookup_insert_Some in Hy' as [[<- <-]|[_ Hy']]; [|congruence]. assert (by0 = b) as -> by congruence. done. }
    split.
    + apply set_active_ok, Hs1.
    + by eexists.
    + eapply tip_state_aged; [apply Hs1|done].
    + eapply complete_active; [|by eapply shrunk_complete]. intros x [Hx|Hx]; [by left|]. right.
      eapply lacks_data_up; [exact Hp1|done|by rewrite Hd|done].
    + by eexists.
    + by eapply counted_aged; [apply Hs1|].
  - destruct Hv as [-> Hst']. assert (running cm n' t r) as Hrun' by (by split). destruct by_checks.
    + cbn [res_bind]. set (cm1 := set_flag p BLOCK_FAILED_VALID cm). pose proof (shrunk_flag t cm p BLOCK_FAILED_VALID Hi ltac:(auto)) as H1. fold cm1 in H1.
      destruct (aged_lookup _ _ p b (sh_aged _ _ _ H1) Hp) as (b' & s & Hb' & _).
      assert (shrunk t cm (mark_dirty p cm1)) as H2.
      { eapply shrunk_trans; [done|]. split; [|done|done|done|by intros x Hx Hnx]. by apply (index_ok_aged cm1); [apply H1|done|done|apply H1|..]. }
      eexists _, n', (Some (Some false)). split; [done|]. split; [by eapply shrunk_later|]. split; [done|]. split; [by eapply shrunk_running|].
      exists b, b'. split; [done|]. split; [done|]. split; [done|]. eapply (set_flag_failed p BLOCK_FAILED_VALID cm); [auto|exact Hb'].
    + destruct (InvalidBlockFound_spec (tip_IBD n') cm t p b Hi Hact Hp) as (cm' & -> & Hs & b' & Hb' & Hf'). cbn [res_bind].
      eexists _, n', (Some (Some false)). split; [done|]. split; [by eapply shrunk_later|]. split; [done|]. split; [by eapply shrunk_running|]. by exists b, b'.
  - eexists cm, n', (Some None). split; [done|]. split; [done|done].
Qed.

Lemma disconnect_tip_spec cm n t r b q : running cm n t r -> cm_heap cm !! t = Some b -> pprev b = Some q ->
  exists cm' n' done, disconnect_tip cm n = Ok (cm', n', done) /\ cm_heap cm' = cm_heap cm /\ setBlockIndexCandidates cm' = setBlockIndexCandidates cm /\
    if done : bool then running cm' n' q r else cm' = cm.
Proof.
  intros [Hi Hact Hst Hcomp Hcnt Href] Ht Eq. pose proof (tree_links _ (ix_tree cm Hi)) as Hl. unfold disconnect_tip.
  rewrite (active_Tip cm t Hl Hact), (deref_Ok _ _ _ Ht). cbn [res_bind]. destruct (tip_disconnect n (cm_heap cm) t) as [n' ok] eqn:Ed.
  destruct ok; [|by exists cm, n', false]. rewrite Eq. pose proof (Hl t b Ht) as [_ Hb]. cbn in Hb. rewrite Eq in Hb. destruct Hb as (bq & Hq & Hh).
  destruct (update_tip_spec cm q bq Hl (chain_ok_active cm t Hact) Hq) as (k & ->). cbn [res_bind]. eexists _, n', true. split; [done|]. split; [done|]. split; [done|].
  split; [by apply set_active_ok|by exists bq| | | |done].
  - by eapply tip_disconnect_state; [apply Hi| | | |].
  - eapply complete_active; [|done]. intros x [Hx|Hx]; [by left|]. right. eapply lacks_data_down; [|done]. eapply ancestor_up; [exact Ht|done|apply ancestor_refl].
  - destruct Hcnt as (b' & Hb' & Hn). assert (b' = b) as -> by congruence. exists bq. split; [done|]. exact (tree_counts _ (ix_tree cm Hi) t b Ht q bq Eq Hq Hn).
Qed.
(** What is left when the function reports an error. *)
Definition halted (cm : chain_manager) : Prop := index_ok cm /\ exists t, active cm t.

Lemma running_halted cm n t r : running cm n t r -> halted cm.
Proof. intros [H1 H2 _ _ _ _]. split; [done|by exists t]. Qed.

Lemma disconnect_to_fork_spec fuel cm n t bt r f bf d : running cm n t r -> cm_heap cm !! t = Some bt -> cm_heap cm !! f = Some bf -> ancestor_of (cm_heap cm) t f ->
  nHeight bt - nHeight bf <= Z.of_nat fuel ->
  exists cm' n' ok d', disconnect_to_fork fuel cm n (Some f) d = Ok (cm', n', ok, d') /\ cm_heap cm' = cm_heap cm /\ setBlockIndexCandidates cm' = setBlockIndexCandidates cm /\
    if ok : bool then running cm' n' f r else halted cm'.
Proof.
  revert cm n t bt d. induction fuel as [|fuel IH]; intros cm n t bt d Hrun Ht Hf Ha Hfuel; pose proof Hrun as [Hi Hact _ _ _ _];
    pose proof (tree_links _ (ix_tree cm Hi)) as Hl; destruct (ancestor_height _ t bt f bf Hl Ht Hf Ha) as [Hle Hn];
    cbn [disconnect_to_fork]; rewrite (active_Tip cm t Hl Hact); (case_bool_decide as Hd; [injection Hd as ->; by exists cm, n, true, d|]).
  - exfalso. replace (Z.to_nat (nHeight bt - nHeight bf)) with 0%nat in Hn by lia. injection Hn as ->. done.
  - destruct (ancestor_cases _ t bt f Ht Ha) as [->|(q & Eq & Hqf)]; [done|]. destruct (disconnect_tip_spec cm n t r bt q Hrun Ht Eq) as (cm1 & n1 & ok & -> & Eh & Ec & Hok).
    cbn [res_bind]. destruct ok.
    + pose proof (Hl t bt Ht) as [_ Hb]. cbn in Hb. rewrite Eq in Hb. destruct Hb as (bq & Hq & Hh).
      destruct (IH cm1 n1 q bq true Hok) as (cm2 & n2 & ok2 & d2 & E & Eh2 & Ec2 & H2); rewrite ?Eh; [done..|lia|].
      exists cm2, n2, ok2, d2. split; [done|]. split; [congruence|]. split; [congruence|done].
    + subst cm1. exists cm, n1, false, d. split; [done|]. split; [done|]. split; [done|]. by eapply running_halted.
Qed.

(** ** Connecting a run of blocks *)

(** [l] leads from the entry above [t] up to [p]. *)
Fixpoint climbs (h : gmap positive CBlockIndex) (t : ptr) (l : list ptr) (p : ptr) : Prop :=
  match l with
  | [] => t = p
  | x :: l => (exists b, h !! x = Some b /\ pprev b = Some t) /\ climbs h x l p
  end.

Lemma climbs_ancestor h t l p : climbs h t l p -> ancestor_of h p t.
Proof.
  revert t. induction l as [|x l IH]; intros t Hc; [rewrite Hc; apply ancestor_refl|]. destruct Hc as [(b & Hx & Ex) Hc].
  eapply ancestor_trans; [by apply IH|]. eapply ancestor_up; [exact Hx|exact Ex|apply ancestor_refl].
Qed.

Lemma climbs_aged h h' t l p : aged h h' -> climbs h t l p -> climbs h' t l p.
Proof.
  intros Ha. revert t. induction l as [|x l IH]; intros t Hc; [done|]. destruct Hc as [(b & Hx & Ex) Hc]. split; [|by apply IH].
  destruct (aged_lookup h h' x b Ha Hx) as (b' & s & Hx' & -> & _). by eexists.
Qed.

Lemma climbs_app h t l1 l2 p q : climbs h t l1 p -> climbs h p l2 q -> climbs h t (l1 ++ l2) q.
Proof. revert t. induction l1 as [|x l1 IH]; intros t H1 H2; [by rewrite H1|]. destruct H1 as [Hx H1]. split; [done|by apply IH]. Qed.

Lemma path_down_spec h fuel p b q bq : links_ok h -> h !! p = Some b -> h !! q = Some bq -> ancestor_of h p q -> nHeight b - nHeight bq <= Z.of_nat fuel ->
  exists l, path_down fuel h (Some p) (nHeight bq) = Ok l /\ climbs h q (rev l) p /\ (p <> q -> exists low, last l = Some low /\ low ∈ l).
Proof.
  intros Hl. revert p b. induction fuel as [|fuel IH]; intros p b Hp Hq Ha Hf; cbn [path_down]; rewrite (deref_Ok _ _ _ Hp); cbn [res_bind];
    destruct (ancestor_height h p b q bq Hl Hp Hq Ha) as [Hle Hn];
    (destruct (Z.eqb_spec (nHeight b) (nHeight bq)) as [E|E];
      [replace (Z.to_nat (nHeight b - nHeight bq)) with 0%nat in Hn by lia; injection Hn as ->; exists []; by split; [|split]|]); [lia|].
  destruct (ancestor_cases h p b q Hp Ha) as [->|(x & Ex & Hx)]; [congruence|]. rewrite Ex.
  pose proof (Hl p b Hp) as [_ Hb]. cbn in Hb. rewrite Ex in Hb. destruct Hb as (bx & Hbx & Hh).
  destruct (IH x bx Hbx Hq Hx ltac:(lia)) as (l & -> & Hc & Hlow). cbn [res_bind]. exists (p :: l). split; [done|]. split.
  - cbn [rev]. eapply climbs_app; [done|]. split; [by exists b|done].
  - intros _. destruct l as [|y l]; [exists p; split; [done|set_solver]|]. destruct (decide (x = q)) as [->|Hne].
    + exfalso. cbn [rev] in Hc. assert (nHeight bx = nHeight bq) by congruence. apply climbs_ancestor in Hc as Hc'.
      destruct (rev l ++ [y]) as [|z zs] eqn:Ez; [by destruct (rev l)|]. destruct Hc as [(bz & Hz & Ezq) Hc]. apply climbs_ancestor in Hc.
      pose proof (Hl z bz Hz) as [_ Hbz]. cbn in Hbz. rewrite Ezq in Hbz. destruct Hbz as (bq' & Hq' & Hhz).
      destruct (ancestor_height h q bx z bz Hl Hbx Hz Hc) as [Hlez _]. assert (bq' = bq) as -> by congruence. lia.
    + destruct (Hlow Hne) as (low & El & Hin). exists low. split; [exact El|set_solver].
Qed.
(** Blocks that can be connected. *)
Definition ready (h : gmap positive CBlockIndex) (p : ptr) : Prop := exists b, h !! p = Some b /\ clean b /\ nChainTx b <> 0.

Lemma ready_kept h h' p : aged h h' -> flags_kept h h' -> ready h p -> ready h' p.
Proof.
  intros Ha Hk (b & Hp & [Hf Hd] & Hn). destruct (aged_lookup h h' p b Ha Hp) as (b' & s & Hp' & E & _ & Hd'). exists b'. split; [done|].
  split; [split; [rewrite <- Hf; by apply (Hk p)|congruence]|by rewrite E].
Qed.

Lemma worse_decision h p q : is_Some (h !! p) -> is_Some (h !! q) -> worse h p q \/ ~ worse h p q.
Proof. intros [a Hp] [b Hq]. destruct (worse_entry p a q b) eqn:E; [left; by exists a, b|right; by eapply worse_dec_entry]. Qed.

Lemma counted_Some h p : counted h p -> is_Some (h !! p).
Proof. intros (b & -> & _). done. Qed.

Lemma prune_running cm n t r p : running cm n t r -> p ∈ setBlockIndexCandidates cm -> ~ worse (cm_heap cm) p t ->
  exists cm' r', PruneBlockIndexCandidates cm = Ok cm' /\ cm_heap cm' = cm_heap cm /\ setBlockIndexCandidates cm' ⊆ setBlockIndexCandidates cm /\
    p ∈ setBlockIndexCandidates cm' /\ (r' = r \/ r' = t) /\ ~ worse (cm_heap cm) r' r /\ running cm' n t r'.
Proof.
  intros [Hi Hact Hst Hcomp Hcnt Href] Hp Hpt. destruct (PruneBlockIndexCandidates_spec cm t p Hi Hact Hp Hpt) as (s & E & Hs & Hiff).
  pose proof (tree_works _ (ix_tree cm Hi)) as Hw.
  assert (forall r', counted (cm_heap cm) r' -> ~ worse (cm_heap cm) r' t -> ~ worse (cm_heap cm) r' r -> running (set_candidates cm s) n t r') as Hrun.
  { intros r' Hr' Hrt Hrr. split; [|done|done| |done|done].
    - by apply (index_ok_aged cm); [done|done|done|apply Hi|..].
    - intros x b Hx Hn Hxr. destruct (Hcomp x b Hx Hn) as [Hin|]; [|left|by right].
      + intros Hxr0. apply Hxr. destruct (worse_cotrans (cm_heap cm) x r' r Hw (counted_Some _ _ Hr') Hxr0) as [|[->|]]; [done|done|done].
      + apply Hiff; [done|]. intros Hxt. destruct (worse_cotrans (cm_heap cm) x r' t Hw (counted_Some _ _ Hr') Hxt) as [|[->|]]; done. }
  destruct (worse_decision (cm_heap cm) r t (counted_Some _ _ Href) (counted_Some _ _ Hcnt)) as [Hrt|Hrt].
  - assert (~ worse (cm_heap cm) t r) as Htr by (intros Htr; by eapply worse_irrefl, worse_trans).
    exists (set_candidates cm s), t. repeat (split; [done || (by apply Hiff) || (by right)|]). apply Hrun; [done| |done]. by apply worse_irrefl.
  - exists (set_candidates cm s), r. assert (~ worse (cm_heap cm) r r) by (by apply worse_irrefl).
    repeat (split; [done || (by apply Hiff) || (by left)|]). by apply Hrun.
Qed.

(** How the connection of blocks towards [p] ends, in a state that has [cm] behind it.  [o] is the
    old tip, [l] the blocks of the run, [r] the entry up to which the candidates were complete. *)
Definition connect_result (cm : chain_manager) (t r o x p : ptr) (l : list ptr) (cm' : chain_manager) (n' : N) (e : connect_end) : Prop :=
  later cm cm' /\
  match e with
  | SystemError => halted cm'
  | _ =>
      exists t' r', running cm' n' t' r' /\ ancestor_of (cm_heap cm) x t' /\ (t' = t \/ t' ∈ l) /\
        ~ worse (cm_heap cm) r' r /\ (r' = r \/ r' ∈ l /\ ancestor_of (cm_heap cm) t' r') /\
        match e with
        | AllConnected => t' = x /\ p ∈ setBlockIndexCandidates cm' /\ flags_kept (cm_heap cm) (cm_heap cm')
        | Better => exists bo bt, cm_heap cm !! o = Some bo /\ cm_heap cm !! t' = Some bt /\ work bo < work bt
        | _ => exists y, newly_failed (cm_heap cm) (cm_heap cm') y
        end
  end.

Lemma newly_failed_kept h h1 h' y : aged h h1 -> flags_kept h h1 -> newly_failed h1 h' y -> newly_failed h h' y.
Proof.
  intros Ha Hk (b & b' & Hy & Hf & Hy' & Hf'). destruct (aged_lookup_back h h1 y b Ha Hy) as (b0 & s & Hb0 & _). exists b0, b'.
  split; [done|]. split; [rewrite <- Hf; symmetry; by apply (Hk y)|done].
Qed.
Lemma flags_kept_trans h1 h2 h3 : aged h1 h2 -> flags_kept h1 h2 -> flags_kept h2 h3 -> flags_kept h1 h3.
Proof.
  intros Ha H12 H23 p b b' Hp Hp'. destruct (aged_lookup h1 h2 p b Ha Hp) as (b2 & s & Hp2 & _).
  rewrite (H23 p b2 b' Hp2 Hp'). by apply (H12 p).
Qed.

(** A result from the state after the first blocks is one from the state before them. *)
Lemma connect_result_trans cm cm1 t t1 r r1 o x p l0 l cm' n' e : later cm cm1 -> flags_kept (cm_heap cm) (cm_heap cm1) ->
  (t1 = t \/ t1 ∈ l0) -> ~ worse (cm_heap cm) r1 r -> (r1 = r \/ r1 ∈ l0 /\ ancestor_of (cm_heap cm) t1 r1) ->
  (forall t', t' = t1 \/ t' ∈ l -> ancestor_of (cm_heap cm) t' t1) -> tree_ok (cm_heap cm) -> is_Some (cm_heap cm !! r1) -> 
  connect_result cm1 t1 r1 o x p l cm' n' e -> connect_result cm t r o x p (l0 ++ l) cm' n' e.
Proof.
  intros Hlt Hk Ht1 Hr1 Hr1' Habove Htree Hr1s [Hlt' H]. pose proof (lt_aged _ _ Hlt) as Ha. split; [by transitivity cm1|].
  assert (forall e' P Q, (exists t' r', running cm' n' t' r' /\ ancestor_of (cm_heap cm1) x t' /\ (t' = t1 \/ t' ∈ l) /\ ~ worse (cm_heap cm1) r' r1 /\
      (r' = r1 \/ r' ∈ l /\ ancestor_of (cm_heap cm1) t' r') /\ (P t' r' : Prop)) -> (forall t' r', P t' r' -> Q t' r') -> e' = e ->
    exists t' r', running cm' n' t' r' /\ ancestor_of (cm_heap cm) x t' /\ (t' = t \/ t' ∈ l0 ++ l) /\ ~ worse (cm_heap cm) r' r /\
      (r' = r \/ r' ∈ l0 ++ l /\ ancestor_of (cm_heap cm) t' r') /\ (Q t' r' : Prop)) as Hgen.
  { intros e' P Q (t' & r' & Hrun & Hx & Ht' & Hrr & Hr' & HP) HPQ _. exists t', r'. rewrite (aged_ancestor _ _ x t' Ha) in Hx.
    split; [done|]. split; [done|]. split; [destruct Ht' as [->|]; [destruct Ht1; set_solver|set_solver]|]. rewrite (aged_worse _ _ r' r1 Ha) in Hrr. split; [|split; [|by apply HPQ]].
    - intros Hw. destruct (worse_cotrans _ r' r1 r (tree_works _ Htree) Hr1s Hw) as [|[->|]]; done.
    - destruct Hr' as [->|[Hin Hanc]]; [|right; rewrite <- (aged_ancestor _ _ t' r' Ha); set_solver].
      destruct Hr1' as [->|[Hin Hanc]]; [by left|]. right. split; [set_solver|]. eapply ancestor_trans; [by apply Habove|done]. }
  destruct e; [| | |done].
  - eapply Hgen; [exact H| |done]. intros t' r' (H1 & H2 & H3). split; [done|]. split; [done|]. by eapply flags_kept_trans.
  - eapply Hgen; [exact H| |done]. intros t' r' (bo & bt & Ho & Hbt & Hlt2). destruct (aged_lookup_back _ _ o bo Ha Ho) as (bo' & s & Ho' & -> & _).
    destruct (aged_lookup_back _ _ t' bt Ha Hbt) as (bt' & s' & Ht'' & -> & _). by exists bo', bt'.
  - eapply Hgen; [exact H| |done]. intros t' r' (y & Hy). exists y. by eapply newly_failed_kept.
Qed.

Lemma climbs_above h t l x t' : climbs h t l x -> t' = t \/ t' ∈ l -> ancestor_of h t' t.
Proof.
  revert t. induction l as [|y l IH]; intros t Hc Ht'; [destruct Ht' as [->|]; [apply ancestor_refl|set_solver]|]. destruct Hc as [(b & Hy & Ey) Hc].
  destruct Ht' as [->|Hin]; [apply ancestor_refl|]. eapply ancestor_trans; [apply (IH y Hc)|].
  - apply elem_of_cons in Hin as [->|]; auto.
  - eapply ancestor_up; [exact Hy|exact Ey|apply ancestor_refl].
Qed.

Lemma better_than_spec cm n t r o bo : running cm n t r -> cm_heap cm !! o = Some bo ->
  exists bt v, better_than cm (Some o) = Ok v /\ cm_heap cm !! t = Some bt /\ (v = true -> work bo < work bt).
Proof.
  intros [Hi Hact _ _ _ _] Ho. unfold better_than. destruct (active_tip_Ok cm t (tree_links _ (ix_tree cm Hi)) Hact) as (bt & -> & Ht). cbn [res_bind snd].
  unfold work_of. rewrite (deref_Ok _ _ _ Ho). cbn [res_bind]. exists bt. eexists. split; [done|]. split; [done|].
  rewrite CompareTo_gt by (by eapply (tree_works _ (ix_tree cm Hi))). apply Z.ltb_lt.
Qed.

Lemma connect_vector_spec l cm n t r o x p low blk v : running cm n t r -> climbs (cm_heap cm) t l x -> Forall (ready (cm_heap cm)) l ->
  ancestor_of (cm_heap cm) p x -> p ∈ setBlockIndexCandidates cm -> is_Some (cm_heap cm !! o) -> is_Some (cm_heap cm !! low) ->
  exists cm' n' e, connect_vector cm n l low p blk v (Some o) = Ok (cm', n', e) /\ connect_result cm t r o x p l cm' n' e.
Proof.
  revert cm n t r. induction l as [|y l IH]; intros cm n t r Hrun Hc Hl Hpx Hp Ho Hlow; pose proof Hrun as [Hi Hact _ _ _ Href]; pose proof (ix_tree cm Hi) as Htree.
  - cbn [connect_vector]. exists cm, n, AllConnected. split; [done|]. split; [done|]. exists t, r. cbn in Hc. subst x. split; [done|]. split; [apply ancestor_refl|].
    split; [by left|]. split; [by apply worse_irrefl, Htree|]. split; [by left|]. split; [done|]. split; [done|]. intros q b b' Hq Hq'. congruence.
  - destruct Hc as [(b & Hy & Ey) Hc]. apply Forall_cons in Hl as [(b' & Hy' & Hcl & Hn) Hl]. assert (b' = b) as -> by congruence.
    cbn [connect_vector]. destruct (connect_tip_spec cm n t r y b (if bool_decide (y = p) then blk else None) v Hrun Hy Ey Hcl Hn) as (cm1 & n1 & f & -> & Hlt & Hf).
    cbn [res_bind]. pose proof (lt_aged _ _ Hlt) as Ha. assert (ancestor_of (cm_heap cm) x y) as Hxy by (by eapply climbs_ancestor).
    destruct f as [[corrupt|]|].
    + destruct Hf as (-> & Hrun1 & Hnf). destruct (InvalidChainFound_spec (tip_IBD n1) cm1 t low) as (cm2 & -> & Hs & Eh & _); [apply Hrun1|apply Hrun1|by eapply aged_is_Some|].
      cbn [res_bind]. exists cm2, n1, InvalidFound. split; [done|]. split; [transitivity cm1; [done|by eapply shrunk_later]|].
      exists t, r. split; [by eapply shrunk_running|]. split; [eapply ancestor_trans; [exact Hxy|]; eapply ancestor_up; [exact Hy|exact Ey|apply ancestor_refl]|].
      split; [by left|]. split; [by apply worse_irrefl, Htree|]. split; [by left|]. exists y. by rewrite Eh.
    + subst cm1. exists cm, n1, SystemError. split; [done|]. split; [done|]. by eapply running_halted.
    + destruct Hf as (Hrun1 & Ec & Hk). assert (ancestor_of (cm_heap cm1) p y) as Hpy.
      { rewrite (aged_ancestor _ _ _ _ Ha). by eapply ancestor_trans. }
      pose proof Hrun1 as [Hi1 _ _ _ _ _]. assert (is_Some (cm_heap cm1 !! p)) as Hp1.
      { rewrite <- Ec in Hp. destruct (ix_candidates cm1 Hi1 p Hp) as (bp & -> & _). done. }
      destruct (prune_running cm1 n1 y r p Hrun1 ltac:(by rewrite Ec)) as (cm2 & r2 & -> & Eh2 & Hs2 & Hp2 & Hr2 & Hrr2 & Hrun2).
      { apply ancestor_not_better; [apply Hi1|done|done]. }
      cbn [res_bind]. destruct (aged_is_Some _ _ o Ha Ho) as [bo Hbo]. rewrite <- Eh2 in Hbo.
      destruct (better_than_spec cm2 n1 y r2 o bo Hrun2 Hbo) as (bt & better & -> & Hbt & Hbetter). cbn [res_bind].
      assert (later cm cm2) as Hlt2. { split; [by rewrite Eh2|]. rewrite <- Ec. done. }
      assert (~ worse (cm_heap cm) r2 r) as Hrr by (by rewrite <- (aged_worse _ _ r2 r Ha)).
      assert (is_Some (cm_heap cm !! r2)) as Hr2s by (destruct Hr2 as [->| ->]; [by apply counted_Some|by rewrite Hy]).
      assert (r2 = r \/ r2 ∈ [y] /\ ancestor_of (cm_heap cm) y r2) as Hr2' by (destruct Hr2 as [->| ->]; [by left|right; split; [set_solver|apply ancestor_refl]]).
      destruct better.
      * exists cm2, n1, Better. split; [done|]. split; [done|]. exists y, r2. split; [done|]. split; [done|]. split; [set_solver|]. split; [done|].
        split; [destruct Hr2' as [|[]]; [by left|right; set_solver]|].
        pose proof (lt_aged _ _ Hlt2) as Ha2. destruct (aged_lookup_back _ _ o bo Ha2 Hbo) as (bo' & s & Ho' & -> & _).
        destruct (aged_lookup_back _ _ y bt Ha2 Hbt) as (bt' & s' & Hy'' & -> & _). exists bo', bt'. split; [done|]. split; [done|]. by apply Hbetter.
      * destruct (IH cm2 n1 y r2 Hrun2) as (cm' & n' & e & E & Hres).
        -- rewrite Eh2. by eapply climbs_aged.
        -- rewrite Eh2. eapply Forall_impl; [exact Hl|]. intros z Hz. by eapply ready_kept.
        -- rewrite Eh2, (aged_ancestor _ _ _ _ Ha). done.
        -- done.
        -- by rewrite Hbo.
        -- rewrite Eh2. by eapply aged_is_Some.
        -- exists cm', n', e. split; [done|]. apply (connect_result_trans cm cm2 t y r r2 o x p [y] l); try done; [by rewrite Eh2|set_solver|].
           intros t' Ht'. by eapply climbs_above.
Qed.
Lemma connect_result_up cm t r o x p l cm' n' e : ancestor_of (cm_heap cm) p x -> e <> AllConnected ->
  connect_result cm t r o x p l cm' n' e -> connect_result cm t r o p p l cm' n' e.
Proof.
  intros Hpx He [Hlt H]. split; [done|]. destruct e; [done| | |done]; destruct H as (t' & r' & H1 & H2 & H3); exists t', r'; (split; [done|]);
    (split; [by eapply ancestor_trans|done]).
Qed.

Lemma climbs_elem h t bt l x y : links_ok h -> h !! t = Some bt -> climbs h t l x -> y ∈ l -> ancestor_of h x y /\ ~ ancestor_of h t y.
Proof.
  intros Hl. revert t bt. induction l as [|z l IH]; intros t bt Ht Hc Hy; [set_solver|]. destruct Hc as [(b & Hz & Ez) Hc].
  pose proof (Hl z b Hz) as [_ Hb]. cbn in Hb. rewrite Ez in Hb. destruct Hb as (bt' & Ht' & Hh). assert (bt' = bt) as -> by congruence.
  assert (forall w, ancestor_of h w z -> is_Some (h !! w) -> ~ ancestor_of h t w) as Hno.
  { intros w Hwz [bw Hw] Htw. destruct (ancestor_height h t bt w bw Hl Ht Hw Htw) as [H1 _]. destruct (ancestor_height h w bw z b Hl Hw Hz Hwz) as [H2 _]. lia. }
  apply elem_of_cons in Hy as [->|Hy].
  - split; [by eapply climbs_ancestor|]. apply Hno; [apply ancestor_refl|by rewrite Hz].
  - destruct (IH z b Hz Hc Hy) as [H1 H2]. split; [done|]. apply Hno; [by eapply climbs_above; [|right]|].
    clear -Hc Hy. revert z Hc. induction l as [|w l IH]; intros z Hc; [set_solver|]. destruct Hc as [(bw & Hw & _) Hc].
    apply elem_of_cons in Hy as [->|Hy]; [by rewrite Hw|by eapply IH].
Qed.

Lemma connect_runs_spec fuel cm n t bt r o p bp blk v low0 : running cm n t r -> cm_heap cm !! t = Some bt -> cm_heap cm !! p = Some bp ->
  ancestor_of (cm_heap cm) p t -> (forall y, ancestor_of (cm_heap cm) p y -> ~ ancestor_of (cm_heap cm) t y -> ready (cm_heap cm) y) ->
  p ∈ setBlockIndexCandidates cm -> is_Some (cm_heap cm !! o) -> nHeight bp - nHeight bt <= Z.of_nat fuel ->
  exists cm' n' e low l, connect_runs fuel cm n (nHeight bt) p (nHeight bp) blk v (Some o) low0 = Ok (cm', n', e, low) /\
    connect_result cm t r o p p l cm' n' e /\ (forall y, y ∈ l -> ancestor_of (cm_heap cm) y t /\ ~ ancestor_of (cm_heap cm) t y) /\
    (e = InvalidFound -> exists y, low = Some y /\ is_Some (cm_heap cm' !! y)).
Proof.
  revert cm n t bt r bp low0. induction fuel as [|fuel IH]; intros cm n t bt r bp low0 Hrun Ht Hp Hpt Hready Hpc Ho Hf; pose proof Hrun as [Hi _ _ _ _ Href];
    pose proof (ix_tree cm Hi) as Htree; pose proof (tree_links _ Htree) as Hl; destruct (ancestor_height _ p bp t bt Hl Hp Ht Hpt) as [Hle Hn]; cbn [connect_runs];
    (destruct (Z.eqb_spec (nHeight bt) (nHeight bp)) as [Eh|Eh];
     [replace (Z.to_nat (nHeight bp - nHeight bt)) with 0%nat in Hn by lia; injection Hn as ->; exists cm, n, AllConnected, low0, []; split; [done|]; split; [|by split; [set_solver|]];
      split; [done|]; exists t, r; split; [done|]; split; [apply ancestor_refl|]; split; [by left|]; split; [by apply worse_irrefl, Htree|]; split; [by left|];
      split; [done|]; split; [done|]; intros q b b' Hq Hq'; congruence|]); [lia|].
  set (target := Z.min (nHeight bt + 32) (nHeight bp)). pose proof (Hl t bt Ht) as [Ht0 _]. cbn in Ht0.
  destruct (GetAncestor_cut _ p bp target Hl (tree_skips _ Htree) Hp ltac:(lia)) as (x & bx & -> & Hx & Hhx & Hpx). cbn [res_bind].
  assert (ancestor_of (cm_heap cm) x t) as Hxt by (eapply (ancestor_linear _ p bp x bx t bt); done || lia).
  destruct (path_down_spec _ (Z.to_nat (target - nHeight bt)) x bx t bt Hl Hx Ht Hxt ltac:(lia)) as (l & -> & Hc & Hlow). cbn [res_bind].
  destruct Hlow as (low & -> & Hinlow); [intros ->; assert (bx = bt) as -> by congruence; lia|].
  assert (forall y, y ∈ rev l -> ancestor_of (cm_heap cm) x y /\ ~ ancestor_of (cm_heap cm) t y) as Hel by (intros y Hy; by eapply climbs_elem).
  assert (Forall (ready (cm_heap cm)) (rev l)) as Hrl.
  { apply Forall_forall. intros y Hy. destruct (Hel y Hy) as [H1 H2]. apply Hready; [by eapply ancestor_trans|done]. }
  assert (is_Some (cm_heap cm !! low)) as Hlows.
  { assert (ready (cm_heap cm) low) as (b & -> & _); [|done]. apply (proj1 (Forall_forall _ _) Hrl). by rewrite list_elem_of_In, <- in_rev, <- list_elem_of_In. }
  destruct (connect_vector_spec (rev l) cm n t r o x p low blk v Hrun Hc Hrl Hpx Hpc Ho Hlows) as (cm1 & n1 & e & -> & Hres). cbn [res_bind].
  assert (e <> AllConnected -> exists cm' n' e' low' l', Ok (cm1, n1, e, Some low) = Ok (E := chain_fail) (cm', n', e', low') /\ connect_result cm t r o p p l' cm' n' e' /\
     (forall y, y ∈ l' -> ancestor_of (cm_heap cm) y t /\ ~ ancestor_of (cm_heap cm) t y) /\ (e' = InvalidFound -> exists y, low' = Some y /\ is_Some (cm_heap cm' !! y))) as Hend.
  { intros He. exists cm1, n1, e, (Some low), (rev l). split; [done|]. split; [by eapply connect_result_up|]. split; [intros y Hy; split; [by eapply climbs_above; [|right]|by apply Hel]|].
    intros _. exists low. split; [done|]. eapply aged_is_Some; [apply (lt_aged _ _ (proj1 Hres))|done]. }
  destruct e; [|by apply Hend..]. clear Hend. destruct Hres as [Hlt (t1 & r1 & Hrun1 & _ & Ht1 & Hrr & Hr1 & -> & Hpc1 & Hk)]. pose proof (lt_aged _ _ Hlt) as Ha.
  destruct (aged_lookup _ _ x bx Ha Hx) as (bx1 & s1 & Hx1 & Ebx & _). destruct (aged_lookup _ _ p bp Ha Hp) as (bp1 & s2 & Hp1 & Ebp & _).
  destruct (IH cm1 n1 x bx1 r1 bp1 (Some low) Hrun1 Hx1 Hp1) as (cm' & n' & e & low' & l' & E & Hres & Hl' & Hlow').
  - by rewrite (aged_ancestor _ _ _ _ Ha).
  - intros y Hy Hny. rewrite (aged_ancestor _ _ _ _ Ha) in Hy. rewrite (aged_ancestor _ _ _ _ Ha) in Hny. eapply ready_kept; [done|done|]. apply Hready; [done|]. intros Hty. apply Hny. by eapply ancestor_trans.
  - done.
  - by eapply aged_is_Some.
  - subst bx1 bp1. cbn [nHeight with_status]. lia.
  - assert (nHeight bx1 = target /\ nHeight bp1 = nHeight bp) as [Et Ep] by (subst bx1 bp1; cbn; lia). rewrite Et, Ep in E.
    exists cm', n', e, low', (rev l ++ l'). split; [exact E|]. split; [|split; [|exact Hlow']].
    + eapply (connect_result_trans cm cm1 t x r r1); try done.
      * intros y [->|Hy]; [apply ancestor_refl|]. rewrite <- (aged_ancestor _ _ _ _ Ha). by apply Hl'.
      * destruct Hr1 as [->|[Hin Hanc]]; [by apply counted_Some|]. destruct (proj1 (Forall_forall _ _) Hrl r1 Hin) as (b & -> & _). done.
    + intros y [Hy|Hy]%elem_of_app; [split; [by eapply climbs_above; [|right]|by apply Hel]|]. destruct (Hl' y Hy) as [H1 H2].
      rewrite (aged_ancestor _ _ _ _ Ha) in H1. rewrite (aged_ancestor _ _ _ _ Ha) in H2. split; [by eapply ancestor_trans|]. intros Hty. apply H2. by eapply ancestor_trans.
Qed.
(** ** One step *)

Lemma root_exists h p b : links_ok h -> h !! p = Some b -> exists g bg, ancestor_of h p g /\ h !! g = Some bg /\ pprev bg = None.
Proof.
  intros Hl Hp. pose proof (Hl p b Hp) as [H0 _]. cbn in H0.
  destruct (prev_n_total h (Z.to_nat (nHeight b)) p b Hl Hp ltac:(lia)) as (g & bg & Hg & Hbg & Hh). exists g, bg. split; [by eexists|]. split; [done|].
  pose proof (Hl g bg Hbg) as [_ Hpp]. cbn in Hpp. destruct (pprev bg) as [q|]; [|done]. destruct Hpp as (bq & Hq & Hhq). pose proof (Hl q bq Hq) as [Hq0 _]. cbn in Hq0. lia.
Qed.

Lemma common_root h p b t bt : tree_ok h -> h !! p = Some b -> h !! t = Some bt -> exists g, ancestor_of h p g /\ ancestor_of h t g.
Proof.
  intros Ht Hp Htt. destruct (root_exists h p b (tree_links _ Ht) Hp) as (g & bg & Hg & Hbg & E1). destruct (root_exists h t bt (tree_links _ Ht) Htt) as (g' & bg' & Hg' & Hbg' & E2).
  assert (g' = g) as -> by (by eapply (tree_root h Ht)). by exists g.
Qed.

Lemma FindFork_active cm t p b : tree_ok (cm_heap cm) -> active cm t -> cm_heap cm !! p = Some b ->
  exists f bf, FindFork (cm_heap cm) (chainActive cm) p = Ok (Some f) /\ cm_heap cm !! f = Some bf /\ last_common (cm_heap cm) p t f.
Proof.
  intros Htree (bt & Ht & ->) Hp. pose proof (FindFork_correct (cm_heap cm) t bt p b (tree_links _ Htree) (tree_skips _ Htree) Ht Hp) as Hf.
  destruct (common_root _ p b t bt Htree Hp Ht) as (g & Hg1 & Hg2). destruct (FindFork _ _ p) as [[f|]|]; [|by destruct (Hf g)|done].
  pose proof Hf as (Hpf & _). destruct (ancestor_in_heap _ p b f (tree_links _ Htree) Hp Hpf) as [bf Hbf]. by exists f, bf.
Qed.

Lemma reorg_allowed_Ok rewind cm o f : index_ok cm -> is_Some (cm_heap cm !! o) -> is_Some (cm_heap cm !! f) -> exists v, reorg_allowed rewind cm (Some o) (Some f) = Ok v.
Proof.
  intros Hi [bo Ho] [bf Hf]. unfold reorg_allowed, height_of. rewrite (deref_Ok _ _ _ Ho), (deref_Ok _ _ _ Hf). cbn [res_bind].
  destruct (_ >? _); [|by eexists]. unfold IsIntendedChainRewind. destruct rewind as [rw|]; [|by eexists]. destruct (bytes_eqb _ _); [by eexists|].
  destruct (mapBlockIndex cm !! rw) as [pr|] eqn:Er; [|by eexists]. destruct (mapBlockIndex cm !! phashBlock bf) as [q|] eqn:Eq; [|by eexists].
  destruct (ix_map cm Hi _ _ Er) as [br Hr]. destruct (ix_map cm Hi _ _ Eq) as [bq Hq]. rewrite (deref_Ok _ _ _ Hr), (deref_Ok _ _ _ Hq). cbn [res_bind].
  destruct (_ >? _); [by eexists|]. destruct (_ >? _); [by eexists|].
  rewrite (GetAncestor_spec _ q bq _ (tree_links _ (ix_tree cm Hi)) (tree_skips _ (ix_tree cm Hi)) Hq). cbn [res_bind]. by eexists.
Qed.

(** What a completed step leaves: a new tip that was reached, or progress of another kind. *)
Definition stepped (cm : chain_manager) (t r p : ptr) (cm' : chain_manager) (n' : N) : Prop :=
  exists t' r', running cm' n' t' r' /\ ~ worse (cm_heap cm) r' r /\ (r' = r \/ ancestor_of (cm_heap cm) t' r' /\ ~ ancestor_of (cm_heap cm) t r') /\
    (forall y, ancestor_of (cm_heap cm) t' y -> ~ ancestor_of (cm_heap cm) t y -> ready (cm_heap cm) y) /\
    (t' = p \/ (exists b b', cm_heap cm !! t = Some b /\ cm_heap cm !! t' = Some b' /\ work b < work b') \/ exists y, newly_failed (cm_heap cm) (cm_heap cm') y).

Lemma set_warnings_running cm n t r w : running cm n t r -> warnings_ok (cm_heap cm) w -> running (set_warnings cm w) n t r.
Proof. intros Hrun Hw. eapply shrunk_running; [|done]. apply set_warnings_shrunk; [apply Hrun|done]. Qed.

Lemma ActivateBestChainStep_spec rewind cm n t r p blk : running cm n t r -> best_usable cm t (Some p) ->
  exists cm' n' ok, ActivateBestChainStep rewind cm n p blk = Ok (cm', n', ok) /\ later cm cm' /\
    if ok : bool then stepped cm t r p cm' n' else halted cm'.
Proof.
  intros Hrun (Hp & Hus & Hmax). pose proof Hrun as [Hi Hact Hst Hcomp Hcnt Href]. pose proof (ix_tree cm Hi) as Htree. pose proof (tree_links _ Htree) as Hl.
  destruct (ix_candidates cm Hi p Hp) as (bp & Hbp & Hnp). pose proof Hact as (bt & Ht & Ect). unfold ActivateBestChainStep. rewrite (active_Tip cm t Hl Hact).
  destruct (FindFork_active cm t p bp Htree Hact Hbp) as (f & bf & -> & Hf & Hpf & Htf & Hlast). cbn [res_bind].
  destruct (reorg_allowed_Ok rewind cm t f Hi ltac:(by rewrite Ht) ltac:(by rewrite Hf)) as (allowed & ->). cbn [res_bind].
  destruct allowed; cbn [negb]; [|exists cm, n, false; split; [done|]; split; [done|by eapply running_halted]].
  destruct (ancestor_height _ t bt f bf Hl Ht Hf Htf) as [Hle _]. pose proof (Hl f bf Hf) as [Hf0 _]. cbn in Hf0.
  destruct (disconnect_to_fork_spec (length (chainActive cm)) cm n t bt r f bf false Hrun Ht Hf Htf) as (cm1 & n1 & ok & d & -> & Eh & Ec & Hok).
  { rewrite Ect, branch_length. lia. }
  cbn [res_bind]. destruct ok; cbn [negb]; [|exists cm1, n1, false; split; [done|]; split; [by split; rewrite ?Eh, ?Ec|done]].
  unfold height_of. rewrite Eh, (deref_Ok _ _ _ Hf), (deref_Ok _ _ _ Hbp). cbn [res_bind].
  assert (forall y, ancestor_of (cm_heap cm) p y -> ~ ancestor_of (cm_heap cm) f y -> ready (cm_heap cm) y /\ ~ ancestor_of (cm_heap cm) t y) as Hready.
  { intros y Hy Hny. assert (~ ancestor_of (cm_heap cm) t y) as Hty by (intros Hty; apply Hny; by apply Hlast). split; [|done].
    destruct (Hus y Hy Hty) as (b & Hb & Hcl). exists b. split; [done|]. split; [done|]. by eapply (counts_down _ p bp y b). }
  destruct (connect_runs_spec (Z.to_nat (nHeight bp - nHeight bf)) cm1 n1 f bf r t p bp blk d None Hok) as (cm2 & n2 & e & low & l & -> & [Hlt Hres] & Hl2 & Hlow);
    rewrite ?Eh, ?Ec; [done..| |done|by rewrite Ht| |]. { intros y Hy Hny. by apply Hready. } { destruct (ancestor_height _ p bp f bf Hl Hbp Hf Hpf). lia. }
  cbn [res_bind]. assert (later cm cm2) as Hlt2 by (destruct Hlt as [H1 H2]; rewrite Eh in H1; rewrite Ec in H2; by split).
  rewrite Eh in Hres, Hl2.
  assert (e <> SystemError -> forall n3 (cm3 : chain_manager), (exists w, cm3 = set_warnings cm2 w /\ warnings_ok (cm_heap cm2) w) ->
    (forall t', tip_state n2 (cm_heap cm2) t' -> tip_state n3 (cm_heap cm2) t') -> later cm cm3 /\ stepped cm t r p cm3 n3) as Hend.
  { intros He n3 cm3 (w & -> & Hw) Hn3. split; [by split; [apply Hlt2|apply Hlt2]|].
    assert (exists t' r', running cm2 n2 t' r' /\ ancestor_of (cm_heap cm) p t' /\ (t' = f \/ t' ∈ l) /\ ~ worse (cm_heap cm) r' r /\ (r' = r \/ r' ∈ l /\ ancestor_of (cm_heap cm) t' r') /\
       (t' = p \/ (exists b b', cm_heap cm !! t = Some b /\ cm_heap cm !! t' = Some b' /\ work b < work b') \/ exists y, newly_failed (cm_heap cm) (cm_heap cm2) y))
      as (t' & r' & Hrun' & Hpt' & Ht' & Hrr & Hr' & Hend).
    { destruct e; [| | |done]; destruct Hres as (t' & r' & H1 & H2 & H3 & H4 & H5 & H6); exists t', r'; repeat (split; [done|]);
        [left; apply H6|right; left; exact H6|right; right; exact H6]. }
    exists t', r'. split; [|split; [done|split; [|split; [|exact Hend]]]].
    - apply set_warnings_running; [|done]. destruct Hrun' as [? ? Hs ? ? ?]. split; [done|done|by apply Hn3|done|done|done].
    - destruct Hr' as [->|[Hin Hanc]]; [by left|]. right. split; [done|]. apply (proj2 (Hready r' ltac:(by eapply ancestor_trans) (proj2 (Hl2 r' Hin)))).
    - intros y Hy Hny. apply Hready; [by eapply ancestor_trans|]. intros Hfy. apply Hny. by eapply ancestor_trans. }
  assert (e <> SystemError -> exists t', running cm2 n2 t' r \/ exists r', running cm2 n2 t' r') as Hrun2.
  { intros He. destruct e; [| | |done]; destruct Hres as (t' & r' & H1 & _); exists t'; right; by exists r'. }
  destruct (decide (e = SystemError)) as [->|He]; [exists cm2, n2, false; by split|]. specialize (Hend He).
  assert (exists t' r', running cm2 n2 t' r') as (t' & r' & Hrun') by (destruct (Hrun2 He) as (t' & [?|[r' ?]]); by eexists _, _).
  pose proof Hrun' as [Hi2 Hact2 _ _ _ _]. destruct (active_tip_Ok cm2 t' (tree_links _ (ix_tree cm2 Hi2)) Hact2) as (bt2 & Etip & _).
  assert (exists w, (match e, low with
      | InvalidFound, Some low => CheckForkWarningConditionsOnNewFork (tip_IBD (tip_reorganised n2 d (nHeight bt2 + 1))) cm2 low
      | InvalidFound, None => Err bad_pointer
      | _, _ => CheckForkWarningConditions (tip_IBD (tip_reorganised n2 d (nHeight bt2 + 1))) cm2 end) = Ok (set_warnings cm2 w) /\ warnings_ok (cm_heap cm2) w) as (w & Ew & Hw).
  { destruct e; [by eapply CheckForkWarningConditions_spec..| |done]. destruct (Hlow eq_refl) as (y & -> & Hy). by eapply CheckForkWarningConditionsOnNewFork_spec. }
  destruct (Hend (tip_reorganised n2 d (nHeight bt2 + 1)) (set_warnings cm2 w)) as [Hlt3 Hstep]; [by exists w|intros x; apply tip_reorganised_state|].
  exists (set_warnings cm2 w), (tip_reorganised n2 d (nHeight bt2 + 1)), true. split; [|done].
  destruct e; [| | |done]; rewrite Etip; cbn [res_bind snd]; rewrite Ew; done.
Qed.
(** ** The blocks that are reported *)

Lemma walk_back_spec h k p b : links_ok h -> h !! p = Some b -> Z.of_nat k <= nHeight b + 1 ->
  exists l, walk_back k h (Some p) = Ok l /\ forall x, x ∈ l <-> exists i, (i < k)%nat /\ prev_n h i p = Some x.
Proof.
  intros Hl. revert p b. induction k as [|k IH]; intros p b Hp Hk; [exists []; split; [done|]; intros x; split; [set_solver|intros (i & Hi & _); lia]|].
  cbn [walk_back]. rewrite (deref_Ok _ _ _ Hp). cbn [res_bind].
  assert (exists l, walk_back k h (pprev b) = Ok l /\ forall x, x ∈ l <-> exists i, (i < k)%nat /\ prev_n h (S i) p = Some x) as (l & -> & Hin).
  { cbn [prev_n]. rewrite Hp. cbn. pose proof (Hl p b Hp) as [_ Hb]. cbn in Hb. destruct (pprev b) as [q|].
    - destruct Hb as (bq & Hq & Hh). apply (IH q bq Hq). lia.
    - destruct k; [|lia]. exists []. split; [done|]. intros x. split; [set_solver|intros (i & Hi & _); lia]. }
  cbn [res_bind]. eexists. split; [done|]. intros x. rewrite elem_of_app, Hin, list_elem_of_singleton. split.
  - intros [(i & Hi & E)| ->]; [exists (S i); split; [lia|done]|exists 0%nat; split; [lia|done]].
  - intros ([|i] & Hi & E); [right; by injection E as <-|left; exists i; split; [lia|done]].
Qed.

Lemma new_blocks_spec cm t o : tree_ok (cm_heap cm) -> active cm t -> is_Some (cm_heap cm !! o) ->
  exists l, new_blocks cm (Some o) = Ok l /\ forall x, x ∈ l <-> ancestor_of (cm_heap cm) t x /\ ~ ancestor_of (cm_heap cm) o x.
Proof.
  intros Htree Hact [bo Ho]. pose proof (tree_links _ Htree) as Hl. unfold new_blocks. destruct (active_tip_Ok cm t Hl Hact) as (bt & -> & Ht). cbn [res_bind fst snd].
  destruct (common_root _ o bo t bt Htree Ho Ht) as (g & Hg1 & Hg2).
  destruct (last_common_ancestor _ o bo t bt g Hl (tree_skips _ Htree) Ho Ht Hg1 Hg2) as (c & -> & Hoc & Htc & Hlast). cbn [res_bind].
  destruct (ancestor_in_heap _ t bt c Hl Ht Htc) as [bc Hc]. unfold height_of. rewrite (deref_Ok _ _ _ Hc). cbn [res_bind].
  destruct (ancestor_height _ t bt c bc Hl Ht Hc Htc) as [Hle Hn]. pose proof (Hl c bc Hc) as [Hc0 _]. cbn in Hc0.
  destruct (walk_back_spec (cm_heap cm) (Z.to_nat (nHeight bt - nHeight bc)) t bt Hl Ht ltac:(lia)) as (l & -> & Hin). exists l. split; [done|].
  intros x. rewrite Hin. split.
  - intros (i & Hi & E). split; [by exists i|]. intros Hox. assert (ancestor_of (cm_heap cm) t x) as Htx by (by exists i). specialize (Hlast x Hox Htx).
    destruct (ancestor_in_heap _ t bt x Hl Ht Htx) as [bx Hx]. destruct (ancestor_height _ c bc x bx Hl Hc Hx Hlast) as [H1 _].
    destruct (prev_n_total _ i t bt Hl Ht ltac:(lia)) as (x' & bx' & E' & Hx' & Hh). rewrite E in E'. injection E' as <-. assert (bx' = bx) as -> by congruence. lia.
  - intros [[i E] Hox]. exists i. split; [|done]. destruct (decide (i < Z.to_nat (nHeight bt - nHeight bc))%nat) as [|Hge]; [done|]. destruct Hox.
    eapply ancestor_trans; [exact Hoc|]. exists (i - Z.to_nat (nHeight bt - nHeight bc))%nat.
    rewrite <- E. replace i with (Z.to_nat (nHeight bt - nHeight bc) + (i - Z.to_nat (nHeight bt - nHeight bc)))%nat at 2 by lia. symmetry. by apply prev_n_add.
Qed.

(** ** Termination *)

Definition sound_set (h : gmap positive CBlockIndex) : gset ptr := dom (filter (fun x => failed x.2 = false) h).
Definition ahead_set (h : gmap positive CBlockIndex) (w : Z) : gset ptr := dom (filter (fun x => w < work x.2) h).

Lemma elem_of_sound h p : p ∈ sound_set h <-> exists b, h !! p = Some b /\ failed b = false.
Proof. unfold sound_set. rewrite elem_of_dom. unfold is_Some. setoid_rewrite map_lookup_filter_Some. done. Qed.
Lemma elem_of_ahead h w p : p ∈ ahead_set h w <-> exists b, h !! p = Some b /\ w < work b.
Proof. unfold ahead_set. rewrite elem_of_dom. unfold is_Some. setoid_rewrite map_lookup_filter_Some. done. Qed.

Lemma sound_aged h h' : aged h h' -> sound_set h' ⊆ sound_set h.
Proof.
  intros Ha p. rewrite !elem_of_sound. intros (b' & Hp & Hf). destruct (aged_lookup_back h h' p b' Ha Hp) as (b & s & Hb & _ & Hf' & _).
  exists b. split; [done|]. destruct (failed b); [|done]. by rewrite Hf' in Hf.
Qed.

Lemma sound_newly h h' p : aged h h' -> newly_failed h h' p -> (size (sound_set h') < size (sound_set h))%nat.
Proof.
  intros Ha (b & b' & Hp & Hf & Hp' & Hf'). apply (erase_smaller p); [by apply sound_aged|apply elem_of_sound; by exists b|].
  rewrite elem_of_sound. intros (b2 & Hp2 & Hf2). congruence.
Qed.

Lemma sound_size h : (size (sound_set h) <= size h)%nat.
Proof. rewrite <- size_dom. apply subseteq_size. apply dom_filter_subseteq. Qed.
Lemma ahead_size h w : (size (ahead_set h w) <= size h)%nat.
Proof. rewrite <- size_dom. apply subseteq_size. apply dom_filter_subseteq. Qed.

Lemma ahead_aged h h' w : aged h h' -> ahead_set h' w = ahead_set h w.
Proof.
  intros Ha. apply set_eq. intros p. rewrite !elem_of_ahead. split.
  - intros (b' & Hp & Hw). destruct (aged_lookup_back h h' p b' Ha Hp) as (b & s & Hb & -> & _). by exists b.
  - intros (b & Hp & Hw). destruct (aged_lookup h h' p b Ha Hp) as (b' & s & Hb & -> & _). by eexists.
Qed.

Lemma aged_size h h' : aged h h' -> size h' = size h.
Proof.
  intros Ha. rewrite <- !size_dom. f_equal. apply set_eq. intros p. rewrite !elem_of_dom. split; [|by apply aged_is_Some].
  intros [b' Hp]. destruct (aged_lookup_back h h' p b' Ha Hp) as (b & s & -> & _). done.
Qed.

(** Every step makes a block fail or brings more work. *)
Definition measure (h : gmap positive CBlockIndex) (t : ptr) : nat :=
  size (sound_set h) * (size h + 1) + match h !! t with Some b => size (ahead_set h (work b)) | None => 0 end.

Lemma measure_bound h t : (measure h t < (size h + 1) * (size h + 1))%nat.
Proof.
  unfold measure. pose proof (sound_size h). assert (match h !! t with Some b => size (ahead_set h (work b)) | None => 0 end <= size h)%nat by (destruct (h !! t); [apply ahead_size|lia]). nia.
Qed.

Lemma measure_aged h h' t : aged h h' -> (measure h' t <= measure h t)%nat.
Proof.
  intros Ha. unfold measure. rewrite (aged_size h h' Ha). pose proof (subseteq_size _ _ (sound_aged h h' Ha)).
  destruct (h !! t) as [b|] eqn:E.
  - destruct (aged_lookup h h' t b Ha E) as (b' & s & -> & -> & _). rewrite (ahead_aged h h' _ Ha). cbn [work with_status nChainWork]. unfold work. cbn. nia.
  - rewrite (same_links_none h h' t (aged_links h h' Ha) E). nia.
Qed.

Lemma measure_work h h' t t' b b' : aged h h' -> h !! t = Some b -> h !! t' = Some b' -> work b < work b' -> (measure h' t' < measure h t)%nat.
Proof.
  intros Ha Ht Ht' Hlt. eapply Nat.le_lt_trans; [by apply measure_aged|]. unfold measure. rewrite Ht, Ht'.
  enough (size (ahead_set h (work b')) < size (ahead_set h (work b)))%nat by lia. apply (erase_smaller t').
  - intros p. rewrite !elem_of_ahead. intros (c & Hc & Hw). exists c. split; [done|lia].
  - rewrite elem_of_ahead. by exists b'.
  - rewrite elem_of_ahead. intros (c & Hc & Hw). assert (c = b') as -> by congruence. lia.
Qed.

Lemma measure_failed h h' t t' y : aged h h' -> newly_failed h h' y -> (measure h' t' < measure h t)%nat.
Proof.
  intros Ha Hy. unfold measure. rewrite (aged_size h h' Ha). pose proof (sound_newly h h' y Ha Hy).
  assert (match h' !! t' with Some b => size (ahead_set h' (work b)) | None => 0 end <= size h)%nat; [|nia].
  rewrite <- (aged_size h h' Ha). destruct (h' !! t'); [apply ahead_size|lia].
Qed.
(** ** The loop *)

Lemma clean_branch_extend h0 cm t t' : aged h0 (cm_heap cm) -> clean_branch h0 t ->
  (forall y, ancestor_of (cm_heap cm) t' y -> ~ ancestor_of (cm_heap cm) t y -> ready (cm_heap cm) y) -> active cm t -> tree_ok (cm_heap cm) -> is_Some (cm_heap cm !! t') ->
  clean_branch h0 t'.
Proof.
  intros Ha Ht Hready Hact Htree [bt' Ht'] q Hq. rewrite <- (aged_ancestor _ _ _ _ Ha) in Hq.
  destruct (ancestor_in_heap _ t' bt' q (tree_links _ Htree) Ht' Hq) as [bq Hbq].
  destruct (Contains_active cm t q bq (tree_links _ Htree) Hact Hbq) as (c & _ & Hc). destruct c.
  - apply Ht. rewrite <- (aged_ancestor _ _ _ _ Ha). by apply Hc.
  - destruct (Hready q Hq) as (b & Hb & [Hf Hd] & _); [intros Htq; by apply Hc in Htq|].
    destruct (aged_lookup_back _ _ q b Ha Hb) as (b0 & s & Hb0 & _ & Hf0 & Hd0). exists b0. split; [done|]. split; [|congruence].
    destruct (failed b0); [|done]. by rewrite Hf0 in Hf.
Qed.

(** Where a run of the loop ends: at the best candidate. *)
Definition activated (h0 : gmap positive CBlockIndex) (r : ptr) (cm' : chain_manager) (n' : N) (news : list ptr) : Prop :=
  exists t' r', running cm' n' t' r' /\ ~ worse h0 r' r /\ (r' = r \/ r' ∈ news) /\ clean_branch h0 r' /\ clean_branch h0 t' /\
    forall q, q ∈ setBlockIndexCandidates cm' -> ~ worse h0 t' q.

Lemma activate_loop_spec h0 fuel rewind cm n t r blk : aged h0 (cm_heap cm) -> running cm n t r -> clean_branch h0 t -> clean_branch h0 r ->
  (measure (cm_heap cm) t < fuel)%nat ->
  exists cm' n' ok news, activate_loop fuel rewind cm n blk = Ok (cm', n', ok, news) /\ later cm cm' /\ halted cm' /\
    (ok = true -> activated h0 r cm' n' news).
Proof.
  revert cm n t r. induction fuel as [|fuel IH]; intros cm n t r Ha0 Hrun Hct Hcr Hm; [lia|]. cbn [activate_loop].
  pose proof Hrun as [Hi Hact _ _ Hcnt Href]. rewrite (active_Tip cm t (tree_links _ (ix_tree cm Hi)) Hact).
  destruct (FindMostWorkChain_spec cm t Hi Hact) as (best & cm1 & -> & Hs & Hbest). cbn [res_bind]. pose proof (shrunk_running _ _ n _ _ Hs Hrun) as Hrun1.
  pose proof (shrunk_later _ _ _ Hs) as Hlt1. pose proof (lt_aged _ _ Hlt1) as Ha1. assert (aged h0 (cm_heap cm1)) as Ha01 by (by transitivity (cm_heap cm)).
  pose proof Hrun1 as [Hi1 Hact1 _ _ Hcnt1 Href1].
  assert (~ worse h0 r r) as Hrr0.
  { rewrite <- (aged_worse _ _ r r Ha01). apply worse_irrefl, (ix_tree cm1 Hi1). }
  assert ((forall q, q ∈ setBlockIndexCandidates cm1 -> ~ worse (cm_heap cm1) t q) -> exists cm' n' ok news, Ok (cm1, n, true, []) = Ok (E := chain_fail) (cm', n', ok, news) /\ later cm cm' /\ halted cm' /\
    (ok = true -> activated h0 r cm' n' news)) as Hstop.
  { intros Hq. exists cm1, n, true, []. split; [done|]. split; [done|]. split; [by eapply running_halted|]. intros _. exists t, r. split; [done|].
    split; [done|]. split; [by left|]. split; [done|]. split; [done|]. intros q Hqc. rewrite <- (aged_worse _ _ t q Ha01). by apply Hq. }
  destruct best as [p|]; [|apply Hstop; intros q; rewrite Hbest; set_solver].
  case_bool_decide as Hd; [injection Hd as ->; apply Hstop; apply Hbest|]. clear Hstop.
  pose proof Hbest as (Hpc & _ & Hmax). destruct (ix_candidates cm1 Hi1 p Hpc) as (bp & Hbp & _). rewrite (deref_Ok _ _ _ Hbp). cbn [res_bind].
  match goal with |- context [ActivateBestChainStep rewind cm1 n p ?k] =>
    destruct (ActivateBestChainStep_spec rewind cm1 n t r p k Hrun1 Hbest) as (cm2 & n2 & ok & -> & Hlt2 & Hok) end.
  cbn [res_bind]. assert (later cm cm2) as Hlt by (by transitivity cm1). pose proof (lt_aged _ _ Hlt2) as Ha2. assert (aged h0 (cm_heap cm2)) as Ha02 by (by transitivity (cm_heap cm1)).
  destruct ok; cbn [negb]; [|exists cm2, n2, false, []; by split].
  destruct Hok as (t' & r' & Hrun2 & Hrr & Hr' & Hready & Hprog). pose proof Hrun2 as [Hi2 Hact2 _ _ Hcnt2 Href2].
  destruct (new_blocks_spec cm2 t' t (ix_tree cm2 Hi2) Hact2) as (news & -> & Hnews); [by apply (aged_is_Some _ _ _ Ha2), counted_Some|]. cbn [res_bind].
  rewrite (active_Tip cm2 t' (tree_links _ (ix_tree cm2 Hi2)) Hact2).
  assert (is_Some (cm_heap cm1 !! t')) as Ht's.
  { destruct (counted_Some _ _ Hcnt2) as [b2 Hb2]. destruct (aged_lookup_back _ _ t' b2 Ha2 Hb2) as (b & s & -> & _). done. }
  assert (clean_branch h0 t') as Hct' by (eapply (clean_branch_extend h0 cm1 t t'); [done|done|done|done|apply Hi1|done]).
  assert (clean_branch h0 r') as Hcr'.
  { destruct Hr' as [->|[Hanc _]]; [done|]. intros q Hq. apply Hct'. eapply ancestor_trans; [|done]. by rewrite <- (aged_ancestor _ _ _ _ Ha01). }
  assert (~ worse h0 r' r) as Hrr' by (by rewrite <- (aged_worse _ _ r' r Ha01)).
  assert (r' = r \/ r' ∈ news) as Hin'.
  { destruct Hr' as [->|[H1 H2]]; [by left|]. right. apply Hnews. by rewrite !(aged_ancestor _ _ _ _ Ha2). }
  case_bool_decide as Hd2.
  - injection Hd2 as <-. destruct (tip_flush n2) as [n3 flushed] eqn:Ef. exists cm2, n3, flushed, news. split; [done|]. split; [done|]. split; [by eapply running_halted|].
    intros _. exists p, r'. split.
    + destruct Hrun2 as [? ? Hst ? ? ?]. split; [done|done| |done|done|done]. replace n3 with (tip_flush (Blk := Blk) n2).1 by (by rewrite Ef). by apply tip_flush_state.
    + split; [done|]. split; [done|]. split; [done|]. split; [done|]. intros q Hq. rewrite <- (aged_worse _ _ p q Ha01). apply Hmax. by apply (lt_candidates _ _ Hlt2).
  - destruct (IH cm2 n2 t' r' Ha02 Hrun2 Hct' Hcr') as (cm' & n' & ok & news' & -> & Hlt' & Hh' & Hres).
    + assert (measure (cm_heap cm2) t' < measure (cm_heap cm1) t)%nat as Hdec.
      { destruct Hprog as [->|[(b & b' & Hb & Hb' & Hw)|(y & Hy)]]; [done|by eapply measure_work|by eapply measure_failed]. }
      pose proof (measure_aged _ _ t Ha1). lia.
    + cbn [res_bind]. exists cm', n', ok, (news ++ news'). split; [done|]. split; [by transitivity cm2|]. split; [done|]. intros Eok.
      destruct (Hres Eok) as (t2 & r2 & H1 & H2 & H3 & H4). exists t2, r2. split; [done|]. split.
      * intros Hw. assert (is_Some (h0 !! r')) as Hr0.
        { destruct (counted_Some _ _ Href2) as [b2 Hb2]. destruct (aged_lookup_back _ _ r' b2 Ha02 Hb2) as (b & s & -> & _). done. }
        assert (works_ok h0) as Hw0. { eapply same_keys_works; [symmetry; apply aged_keys; exact Ha01|apply (ix_tree cm1 Hi1)]. }
        destruct (worse_cotrans h0 r2 r' r Hw0 Hr0 Hw) as [|[->|]]; done.
      * split; [|done]. destruct H3 as [->|]; [destruct Hin' as [->|]; [by left|right; set_solver]|right; set_solver].
Qed.
(** No entry that can be used is better than the tip. *)
Definition best_tip (cm : chain_manager) (t : ptr) : Prop :=
  forall p, counted (cm_heap cm) p -> usable (cm_heap cm) t p -> ~ worse (cm_heap cm) t p.

(** The best candidate is the best entry when the candidates are complete up to an entry that
    can be used. *)
Lemma best_candidate cm n t r : running cm n t r -> (forall q, q ∈ setBlockIndexCandidates cm -> ~ worse (cm_heap cm) t q) ->
  usable (cm_heap cm) t r -> best_tip cm t /\ complete cm t t.
Proof.
  intros [Hi Hact _ Hcomp Hcnt Href] Hbest Hr. pose proof (ix_tree cm Hi) as Htree. pose proof (tree_works _ Htree) as Hw.
  assert (forall p, counted (cm_heap cm) p -> usable (cm_heap cm) t p -> ~ worse (cm_heap cm) p r -> ~ worse (cm_heap cm) t p) as Hin.
  { intros p Hp Hu Hpr. destruct Hp as (b & Hb & Hn). destruct (Contains_active cm t p b (tree_links _ Htree) Hact Hb) as (c & _ & Hc). destruct c.
    - apply ancestor_not_better; [done|by apply counted_Some|by apply Hc].
    - destruct (Hcomp p b Hb Hn Hpr) as [|Hex]; [by apply Hbest|]. exfalso. eapply usable_not_excused; [exact Hu| |exact Hex]. intros Htp. by apply Hc in Htp. }
  assert (~ worse (cm_heap cm) t r) as Htr by (apply Hin; [done|done|by apply worse_irrefl]).
  assert (forall p, worse (cm_heap cm) p r -> worse (cm_heap cm) p t) as Hup.
  { intros p Hpr. destruct (worse_cotrans _ p t r Hw (counted_Some _ _ Hcnt) Hpr) as [|[->|]]; done. }
  split.
  - intros p Hp Hu Htp. destruct (worse_decision (cm_heap cm) p r (counted_Some _ _ Hp) (counted_Some _ _ Href)) as [Hpr|Hpr]; [|by apply (Hin p)].
    eapply (worse_irrefl _ t Hw), (worse_trans _ t p t Hw); [exact Htp|by apply Hup].
  - intros p b Hp Hn Hpt. apply (Hcomp p b Hp Hn). intros Hpr. by apply Hpt, Hup.
Qed.

Lemma clean_usable h h' t r : aged h h' -> flags_kept h h' -> clean_branch h r -> usable h' t r.
Proof.
  intros Ha Hk Hc q Hq _. rewrite (aged_ancestor _ _ _ _ Ha) in Hq. destruct (Hc q Hq) as (b & Hb & Hf & Hd).
  destruct (aged_lookup _ _ q b Ha Hb) as (b' & s & Hb' & _ & _ & Hd'). exists b'. split; [done|]. split; [rewrite <- Hf; by apply (Hk q)|congruence].
Qed.

(** The result of the activation, for clients. *)
Lemma ActivateBestChain_spec rewind cm n t blk : running cm n t t -> clean_branch (cm_heap cm) t ->
  exists cm' n' ok news t', ActivateBestChain rewind cm n blk = Ok (cm', n', ok, news) /\ index_ok cm' /\ active cm' t' /\ aged (cm_heap cm) (cm_heap cm') /\
    (ok = true -> tip_state n' (cm_heap cm') t' /\ clean_branch (cm_heap cm) t' /\
      exists r, (r = t \/ r ∈ news) /\ clean_branch (cm_heap cm) r /\ ~ worse (cm_heap cm) r t /\
        (flags_kept (cm_heap cm) (cm_heap cm') -> usable (cm_heap cm') t' r) /\
        (usable (cm_heap cm') t' r -> best_tip cm' t' /\ complete cm' t' t')).
Proof.
  intros Hrun Hct. destruct (activate_loop_spec (cm_heap cm) _ rewind cm n t t blk ltac:(done) Hrun Hct Hct (measure_bound _ _))
    as (cm' & n' & ok & news & E & Hlt & [Hi' [t0 Ht0]] & Hok). pose proof (lt_aged _ _ Hlt) as Ha. destruct ok.
  - destruct (Hok eq_refl) as (t' & r & Hrun' & Hr1 & Hr2 & Hr3 & Hct' & Hbest). exists cm', n', true, news, t'.
    split; [exact E|]. split; [done|]. split; [apply Hrun'|]. split; [done|]. intros _. split; [apply Hrun'|]. split; [done|]. exists r. do 3 (split; [done|]).
    split; [intros Hk; by eapply clean_usable|]. intros Hu. eapply best_candidate; [exact Hrun'| |exact Hu]. intros q Hq. rewrite (aged_worse _ _ t' q Ha). by apply Hbest.
  - exists cm', n', false, news, t0. by repeat (split; [done|]).
Qed.

(** C2. [ActivateBestChain] terminates, fails no assertion and follows no null or dangling pointer,
    whatever blocks turn out to be invalid on the way.  When it returns success, the state of
    the node is that of the branch of the new tip, and no entry whose blocks can all be
    connected has more work than the tip (or as much and came first), provided that the best
    tip [r] passed on the way (the old one, or a block reported to the listeners) can still be
    used; in particular when no block has failed.  The candidates are again complete. *)
Theorem activation_most_work rewind cm n t blk : running cm n t t -> clean_branch (cm_heap cm) t ->
  exists cm' n' ok news t', ActivateBestChain rewind cm n blk = Ok (cm', n', ok, news) /\ index_ok cm' /\ active cm' t' /\ aged (cm_heap cm) (cm_heap cm') /\
    (ok = true -> tip_state n' (cm_heap cm') t' /\
      exists r, (r = t \/ r ∈ news) /\ clean_branch (cm_heap cm) r /\ ~ worse (cm_heap cm) r t /\
        (flags_kept (cm_heap cm) (cm_heap cm') -> usable (cm_heap cm') t' r) /\
        (usable (cm_heap cm') t' r -> best_tip cm' t' /\ complete cm' t' t')).
Proof.
  intros Hrun Hct. destruct (ActivateBestChain_spec rewind cm n t blk Hrun Hct) as (cm' & n' & ok & news & t' & E & Hi & Hact & Ha & Hok).
  exists cm', n', ok, news, t'. do 4 (split; [done|]). intros Eok. destruct (Hok Eok) as (Hst & _ & Hr). by split.
Qed.
End Moving.

(** ** A concrete activation

    Entry 1 is the genesis block, 2 the tip; the branch 3-4-5 has the most work but 4 is
    invalid, and the branch 3-6-7 comes next. *)

Definition demo_entry (prev : option ptr) (height work seq : Z) : CBlockIndex :=
  {| phashBlock := [work]; pprev := prev; pskip := None; nHeight := height; nTime := 0; nBits := 0; nChainWork := uint_of_u64 work;
     nTx := 1; nChainTx := height + 1; nStatus := 11; nSequenceId := seq; nSproutValue := None; nChainSproutValue := None;
     nSaplingValue := 0; nChainSaplingValue := None |}.
Definition demo_index : gmap positive CBlockIndex :=
  <[1%positive := demo_entry None 0 1 1]> (<[2%positive := demo_entry (Some 1%positive) 1 3 2]> (<[3%positive := demo_entry (Some 1%positive) 1 2 3]>
  (<[4%positive := demo_entry (Some 3%positive) 2 4 4]> (<[5%positive := demo_entry (Some 4%positive) 3 7 5]> (<[6%positive := demo_entry (Some 3%positive) 2 5 6]>
  (<[7%positive := demo_entry (Some 6%positive) 3 6 7]> ∅)))))).
Definition demo_map : gmap bytes ptr :=
  list_to_map [([1], 1%positive); ([3], 2%positive); ([2], 3%positive); ([4], 4%positive); ([7], 5%positive); ([5], 6%positive); ([6], 7%positive)].
Definition demo_manager : chain_manager := {|
  cm_heap := demo_index; mapBlockIndex := demo_map; chainActive := [Some 1%positive; Some 2%positive]; gl_nChainHeight := 1;
  setBlockIndexCandidates := {[2%positive; 4%positive; 5%positive; 6%positive; 7%positive]}; mapBlocksUnlinked := []; pindexBestInvalid := None; pindexBestHeader := None;
  setDirtyBlockIndex := ∅; nBlockSequenceId := 8;
  cm_warnings := {| pindexBestForkTip := None; pindexBestForkBase := None; fLargeWorkForkFound := false; fLargeWorkInvalidChainFound := false |};
  m_BlockCacheMap := ∅; m_UnlinkedMap := []
|}.

(** A node that knows its tip and rejects entry 4. *)
Definition tip_only_status (h : gmap positive CBlockIndex) (p : ptr) : Z := match h !! p with Some b => nStatus b | None => 0 end.
#[export] Instance tip_only : TipOps positive unit := {|
  blk_hash _ := [];
  tip_connect n h p _ _ := if bool_decide (p = 4%positive) then (n, TipInvalid false false) else (p, TipConnected (tip_only_status h p));
  tip_disconnect n h t := match h !! t ≫= pprev with Some q => (q, true) | None => (n, false) end;
  tip_reorganised n _ _ := n;
  tip_flush n := (n, true);
  tip_IBD _ := false
|}.
#[export] Program Instance tip_only_laws : TipLaws positive unit := {| tip_state n _ t := n = t |}.
Next Obligation. done. Qed.
Next Obligation.
  intros n h t p b blk v n' r _ -> Hp Ep E. cbn in E. case_bool_decide; injection E as <- <-; [done|]. unfold tip_only_status. rewrite Hp.
  split; [done|]. by destruct b.
Qed.
Next Obligation. intros n h t b q n' _ -> Ht Eq E. cbn in E. rewrite Ht in E. cbn in E. rewrite Eq in E. by injection E. Qed.
Next Obligation. done. Qed.
Next Obligation. done. Qed.

Ltac index_cases Hp :=
  unfold demo_index in Hp;
  repeat (apply lookup_insert_Some in Hp as [[<- <-]|[_ Hp]]); [..|by rewrite lookup_empty in Hp].

Lemma demo_index_tree : tree_ok demo_index.
Proof.
  split.
  - intros p b Hp. index_cases Hp; cbn; (split; [lia|]); try done; eexists; (split; [reflexivity|done]).
  - intros p b Hp. index_cases Hp; cbn; done.
  - intros p b Hp. index_cases Hp; cbn [nChainWork demo_entry]; by apply uint_of_u64_spec.
  - intros p b Hp. index_cases Hp; cbn; lia.
  - intros p b Hp q bq Eq Hq. index_cases Hp; cbn in Eq; try done; injection Eq as <-; injection Hq as <-; vm_compute; done.
  - intros p b Hp q bq Eq Hq. index_cases Hp; cbn in Eq; try done; injection Eq as <-; injection Hq as <-; intros _; vm_compute; discriminate.
  - intros p q b c Hp Hq E1 E2. index_cases Hp; cbn in E1; try done; index_cases Hq; cbn in E2; done.
Qed.

Lemma demo_complete : complete demo_manager 2 2.
Proof.
  intros p b Hp _ Hw. left. cbn in Hp. index_cases Hp; try (apply (bool_decide_unpack _); vm_compute; exact I); exfalso; apply Hw; eexists _, _; (split; [reflexivity|]); (split; [reflexivity|]); vm_compute; reflexivity.
Qed.

Lemma demo_running : running demo_manager (2%positive : positive) 2 2.
Proof.
  assert (counted demo_index 2) by (eexists; split; [reflexivity|done]).
  split; [| | |exact demo_complete|done|done]; [|eexists; split; [reflexivity|vm_compute; reflexivity]|done].
  split; [exact demo_index_tree| | |done|done|done].
  { intros hsh p Hp. cbn -[demo_map] in Hp. apply elem_of_list_to_map_2 in Hp. repeat (apply elem_of_cons in Hp as [[= -> ->]|Hp]; [by eexists|]). by apply elem_of_nil in Hp. }
  intros p Hp. cbn in Hp.
  repeat (apply elem_of_union in Hp as [Hp|Hp]); apply elem_of_singleton in Hp as ->; (eexists; split; [reflexivity|done]).
Qed.

Lemma demo_clean : clean_branch demo_index 2.
Proof. intros q [[|[|n]] Hn]; [injection Hn as <-|injection Hn as <-|done]; (eexists; split; [reflexivity|]; split; reflexivity). Qed.

Lemma activation_most_work_witness :
  exists cm' news t', ActivateBestChain (Blk := unit) None demo_manager 2%positive None = Ok (cm', 7%positive, true, news) /\ active cm' t' /\ t' = 7%positive.
Proof.
  destruct (activation_most_work (Blk := unit) None demo_manager (2%positive : positive) 2 None demo_running demo_clean) as (cm' & n' & ok & news & t' & E & _ & Ha & _ & Hs).
  assert (match ActivateBestChain (Blk := unit) None demo_manager (2%positive : positive) None with Ok (_, n, ok, _) => n = 7%positive /\ ok = true | Err _ => False end) as Hr
    by (vm_compute; split; reflexivity).
  rewrite E in Hr. destruct Hr as [-> ->]. exists cm', news, t'. split; [exact E|]. split; [exact Ha|]. symmetry. exact (proj1 (Hs eq_refl)).
Defined.
