(* ===== verification/IndexOps.v ===== *)
(** * Changes of the block index

    New headers ([AddToBlockIndex]), the arrival of transactions ([ReceivedBlockTransactions],
    [UpdateChainTx]) and the decisions of the user ([InvalidateBlock], [ReconsiderBlock]) keep
    the invariants on which the choice of the best chain rests: the candidates are complete,
    and an entry has a transaction count exactly when the transactions of its whole branch are
    known. *)

From stdpp Require Import gmap.
From S2P Require Import Prelude ArithUint256 ArithUint256Props Chain Pow Transaction Block BestChain BestChainProps Activation.

(** ** One entry changes, except for its place in the tree *)

Record touched (b b' : CBlockIndex) : Prop := {
  tc_hash : phashBlock b' = phashBlock b;
  tc_links : links_of b' = links_of b;
  tc_work : nChainWork b' = nChainWork b;
  tc_bits : nBits b' = nBits b;
  tc_tx : nTx b' = nTx b;
  tc_status : nStatus b' = nStatus b
}.

Lemma touched_links h x b b' : h !! x = Some b -> links_of b' = links_of b -> same_links h (<[x := b']> h).
Proof.
  intros Hx El. unfold same_links. apply map_eq. intros p. rewrite !lookup_fmap. destruct (decide (x = p)) as [<-|Hne].
  - rewrite lookup_insert_eq, Hx. change (Some (links_of b) = Some (links_of b')). by rewrite El.
  - by rewrite lookup_insert_ne.
Qed.

Lemma insert_cases {A : Type} (h : gmap positive A) x b' p c : <[x := b']> h !! p = Some c -> p = x /\ c = b' \/ p <> x /\ h !! p = Some c.
Proof. intros [[-> ->]|[Hne Hp]]%lookup_insert_Some; [by left|right]. by split. Qed.

Lemma touched_tree h x b b' : tree_ok h -> h !! x = Some b -> links_of b' = links_of b -> nChainWork b' = nChainWork b -> nBits b' = nBits b ->
  (nChainTx b' <> 0 -> forall q bq, pprev b = Some q -> h !! q = Some bq -> nChainTx bq <> 0) ->
  (nChainTx b' = 0 -> forall y by0, h !! y = Some by0 -> pprev by0 = Some x -> nChainTx by0 = 0) -> tree_ok (<[x := b']> h).
Proof.
  intros [H1 H2 H3 H4 H5 H6 H7] Hx Tl Tw Tb Hup Hdown. pose proof (touched_links h x b b' Hx Tl) as Hs.
  injection Tl as Tl1 Tl2 Tl3.
  assert (forall p c, <[x := b']> h !! p = Some c -> exists c0, h !! p = Some c0 /\ pprev c = pprev c0 /\ nHeight c = nHeight c0 /\ work c = work c0 /\ nBits c = nBits c0 /\
    (p <> x -> c = c0)) as Hback.
  { intros p c Hp. destruct (insert_cases _ _ _ _ _ Hp) as [[-> ->]|[Hne Hp']]; [exists b; unfold work; rewrite Tl1, Tl3, Tw, Tb; by repeat (split; [done|])|by exists c]. }
  split; [by eapply same_links_ok|by eapply same_links_skips| | | | |].
  - intros p c Hp. destruct (insert_cases _ _ _ _ _ Hp) as [[-> ->]|[Hne Hp']]; [rewrite Tw; exact (H3 x b Hx)|exact (H3 p c Hp')].
  - intros p c Hp. destruct (Hback p c Hp) as (c0 & Hc0 & _ & _ & _ & -> & _). by apply (H4 p c0).
  - intros p c Hp q bq Eq Hq. destruct (Hback p c Hp) as (c0 & Hc0 & E1 & _ & -> & _). destruct (Hback q bq Hq) as (d0 & Hd0 & _ & _ & -> & _).
    apply (H5 p c0 Hc0 q d0); [congruence|done].
  - intros p c Hp q bq Eq Hq Hn. destruct (insert_cases _ _ _ _ _ Hp) as [[-> ->]|[Hnep Hp']]; destruct (insert_cases _ _ _ _ _ Hq) as [[-> ->]|[Hneq Hq']].
    + exfalso. pose proof (H1 x b Hx) as [_ Hl]. cbn in Hl. rewrite Tl1 in Eq. rewrite Eq in Hl. destruct Hl as (b2 & Hb2 & Hh). assert (b2 = b) as -> by congruence. lia.
    + apply (Hup Hn q bq); [congruence|done].
    + intros E. apply Hn. by apply (Hdown E p c).
    + by apply (H6 p c Hp' q bq).
  - intros p q c d Hp Hq Ep Eq. destruct (Hback p c Hp) as (c0 & Hc0 & E1 & _). destruct (Hback q d Hq) as (d0 & Hd0 & E2 & _).
    apply (H7 p q c0 d0 Hc0 Hd0); congruence.
Qed.

(** ** Blocks and their transactions *)

(** Counts do not overflow: [K] bounds the transactions of a block. *)
Definition counts_bounded (K : Z) (h : gmap positive CBlockIndex) : Prop :=
  map_Forall (fun _ b => 0 <= nTx b <= K /\ 0 <= nChainTx b <= K * (nHeight b + 1) /\ K * (nHeight b + 1) < 2 ^ 32) h.

(** [x] waits for its parent [q], which has no count yet; a block that arrives after its parent
    has failed is not remembered. *)
Definition waits (cm : chain_manager) (x : ptr) (b : CBlockIndex) : Prop :=
  exists q bq, pprev b = Some q /\ cm_heap cm !! q = Some bq /\ (failed bq = true \/ nChainTx bq = 0 /\ (q, x) ∈ mapBlocksUnlinked cm).

(** The state of the index between blocks; [queue] holds the entries still to be counted. *)
Record linked (K : Z) (cm : chain_manager) (t : ptr) (queue : list ptr) : Prop := {
  lk_index : index_ok cm;
  lk_active : active cm t;
  lk_complete : complete cm t t;
  lk_tip : counted (cm_heap cm) t;
  lk_tree : map_Forall (fun _ b => 0 <= nStatus b < 2 ^ 32 /\ BLOCK_VALID_TREE <= Z.land (nStatus b) BLOCK_VALID_MASK) (cm_heap cm);
  lk_bounded : counts_bounded K (cm_heap cm);
  lk_counted : map_Forall (fun _ b => nChainTx b <> 0 -> nTx b <> 0) (cm_heap cm);
  lk_sequence : forall p b, p ∈ setBlockIndexCandidates cm -> cm_heap cm !! p = Some b -> nSequenceId b <> 0;
  lk_next : 0 < nBlockSequenceId cm /\ nBlockSequenceId cm + Z.of_nat (length queue + length (mapBlocksUnlinked cm)) < 2 ^ 32;
  lk_unlinked : forall q x, (q, x) ∈ mapBlocksUnlinked cm -> exists b, cm_heap cm !! x = Some b /\ pprev b = Some q /\ nTx b <> 0;
  lk_waiting : forall x b, cm_heap cm !! x = Some b -> nTx b <> 0 -> nChainTx b = 0 -> x ∈ queue \/ waits cm x b;
  lk_queue : forall x, x ∈ queue -> exists b, cm_heap cm !! x = Some b /\ nTx b <> 0 /\ ~ ancestor_of (cm_heap cm) t x /\
    (forall q, pprev b = Some q -> counted (cm_heap cm) q)
}.

(** The values that [UpdateChainValues] writes. *)
Lemma UpdateChainValues_spec K h x b : counts_bounded K h -> tree_ok h -> h !! x = Some b -> nTx b <> 0 -> (forall q, pprev b = Some q -> counted h q) ->
  exists b', UpdateChainValues h b = Ok (true, b') /\ touched b b' /\ nSequenceId b' = nSequenceId b /\ nChainTx b' <> 0 /\ 0 <= nChainTx b' <= K * (nHeight b + 1).
Proof.
  intros Hb Ht Hx Hn Hq. unfold UpdateChainValues. pose proof (Hb x b Hx) as (H1 & H2 & H3). cbn in H1, H2, H3.
  pose proof (tree_links h Ht x b Hx) as [H0 Hl]. cbn in H0, Hl. destruct (pprev b) as [q|] eqn:Eq.
  - destruct (Hq q eq_refl) as (bq & Hbq & Hnq). rewrite (deref_Ok _ _ _ Hbq). cbn [res_bind]. rewrite (proj2 (Z.eqb_neq _ _) Hnq), (proj2 (Z.eqb_neq _ _) Hn). cbn [negb andb].
    pose proof (Hb q bq Hbq) as (_ & H5 & _). cbn in H5. destruct Hl as (bq' & Hbq' & Hh). assert (bq' = bq) as -> by congruence.
    eexists. split; [done|]. split; [by split; cbn; unfold links_of; cbn; rewrite ?Eq|]. split; [done|]. cbn [nChainTx]. rewrite u32_id by nia. nia.
  - eexists. split; [done|]. split; [by split; cbn; unfold links_of; cbn; rewrite ?Eq|]. split; [done|]. cbn [nChainTx]. nia.
Qed.

Section Linking.
Context (K : Z).

(** A processed entry has its count and a sequence number, and is a candidate unless it is
    worse than the tip. *)
Definition process (cm : chain_manager) (x : ptr) (b' : CBlockIndex) (seq : Z) : chain_manager :=
  set_sequence (set_heap cm (<[x := b']> (cm_heap cm))) seq.

Lemma excused_touched h x b b' t p : h !! x = Some b -> touched b b' -> excused h t p -> excused (<[x := b']> h) t p.
Proof.
  intros Hx Ht. pose proof (touched_links h x b b' Hx (tc_links _ _ Ht)) as Hs. pose proof (tc_status _ _ Ht) as Es.
  assert (forall y c, h !! y = Some c -> exists c', <[x := b']> h !! y = Some c' /\ failed c' = failed c /\ have_data c' = have_data c) as Hfw.
  { intros y c Hy. destruct (decide (x = y)) as [<-|Hne].
    - exists b'. rewrite lookup_insert_eq. assert (c = b) as -> by congruence. unfold failed, have_data, has_flag. by rewrite Es.
    - exists c. by rewrite lookup_insert_ne. }
  intros [(c & Hp & Hf)|(q & c & Hpq & Hq & Hc & Hd)].
  - destruct (Hfw p c Hp) as (c' & Hc' & Ef & _). left. exists c'. split; [done|congruence].
  - destruct (Hfw q c Hc) as (c' & Hc' & _ & Ed). right. exists q, c'. rewrite !(same_links_ancestor _ _ _ _ Hs). split; [done|]. split; [done|]. split; [done|congruence].
Qed.

Lemma worse_touched h x b' p t : p <> x -> t <> x -> worse (<[x := b']> h) p t <-> worse h p t.
Proof. intros Hp Ht. unfold worse. by rewrite !lookup_insert_ne. Qed.

Lemma pointer_ok_insert h x (b' : CBlockIndex) p : pointer_ok h p -> pointer_ok (<[x := b']> h) p.
Proof. intros Hp q Eq. apply lookup_insert_is_Some'. right. by apply Hp. Qed.

Lemma counted_insert h x (b' : CBlockIndex) p : nChainTx b' <> 0 -> counted h p -> counted (<[x := b']> h) p.
Proof.
  intros Hn (c & Hp & Hc). destruct (decide (x = p)) as [<-|Hne]; [exists b'; by rewrite lookup_insert_eq|exists c; by rewrite lookup_insert_ne].
Qed.

(** The entry [x], which was in the queue, is counted; it is not yet a candidate. *)
Lemma active_touched cm x b b' seq t : cm_heap cm !! x = Some b -> links_of b' = links_of b -> active cm t -> active (process cm x b' seq) t.
Proof.
  intros Hx El (bt & Ht & E). pose proof (touched_links _ x b b' Hx El) as Hs. unfold active, process. cbn [cm_heap chainActive set_sequence set_heap].
  destruct (same_links_lookup _ _ t bt Hs Ht) as (bt' & Ht' & El'). injection El' as _ _ Eh. exists bt'. split; [done|].
  by rewrite E, Eh, (same_links_branch _ _ _ _ Hs).
Qed.

(** What is left of the queue after the first entry has been processed. *)
Lemma linked_step cm t x b b' seq rest found : linked K cm t (x :: rest) -> cm_heap cm !! x = Some b -> touched b b' -> nChainTx b' <> 0 ->
  0 <= nChainTx b' <= K * (nHeight b + 1) -> nSequenceId b' <> 0 -> (x ∈ setBlockIndexCandidates cm -> nSequenceId b' = nSequenceId b) ->
  0 < seq <= nBlockSequenceId cm + 1 -> found = snd <$> filter (fun y => y.1 = x) (mapBlocksUnlinked cm) ->
  forall cands, (cands = setBlockIndexCandidates cm \/ cands = {[x]} ∪ setBlockIndexCandidates cm) ->
    (worse (<[x := b']> (cm_heap cm)) x t \/ x ∈ cands) ->
  linked K (set_unlinked (set_candidates (process cm x b' seq) cands) (filter (fun y => y.1 <> x) (mapBlocksUnlinked cm))) t (rest ++ found).
Proof.
  intros [Hi Hact Hcomp Htip Htv Hbd Hcn Hsq Hnx Hun Hwt Hqu] Hx Ht Hn' Hb' Hs' Hkeep Hseq -> cands Hcands Hcand.
  pose proof (ix_tree cm Hi) as Htree. pose proof (touched_links _ x b b' Hx (tc_links _ _ Ht)) as Hlinks.
  destruct (Hqu x ltac:(set_solver)) as (b0 & Hb0 & Hnx0 & Hnt & Hpar). assert (b0 = b) as -> by congruence. clear Hb0.
  assert (t <> x) as Htx by (intros ->; apply Hnt, ancestor_refl).
  assert (tree_ok (<[x := b']> (cm_heap cm))) as Htree'.
  { eapply touched_tree; [done|done|apply Ht..| |done]. intros _ q bq Eq Hq. destruct (Hpar q Eq) as (bq' & Hq' & Hnq). congruence. }
  assert (pprev b' = pprev b /\ nHeight b' = nHeight b) as [Ep Eh] by (pose proof (tc_links _ _ Ht) as E; by injection E).
  split; cbn [cm_heap mapBlockIndex chainActive setBlockIndexCandidates mapBlocksUnlinked nBlockSequenceId set_unlinked set_candidates process set_sequence set_heap].
  - destruct Hi as [_ Im Ic Ii If1 If2]. split; cbn; [done|intros hsh p Hp; apply lookup_insert_is_Some'; right; by eapply Im| |by apply pointer_ok_insert..].
    intros p Hp. destruct (decide (x = p)) as [<-|Hne]; [exists b'; by rewrite lookup_insert_eq|].
    rewrite lookup_insert_ne by done. apply Ic. set_solver.
  - destruct (active_touched cm x b b' seq t Hx (tc_links _ _ Ht) Hact) as (bt & H1 & H2). by exists bt.
  - intros p c Hp Hn Hw. cbn in Hp, Hw |- *. destruct (insert_cases _ _ _ _ _ Hp) as [[-> ->]|[Hne Hp']]; [left; by destruct Hcand|].
    rewrite worse_touched in Hw by done. destruct (Hcomp p c Hp' Hn Hw) as [Hin|Hex]; [left; set_solver|right; by eapply excused_touched].
  - by apply counted_insert.
  - intros p c Hp. destruct (insert_cases _ _ _ _ _ Hp) as [[-> ->]|[Hne Hp']]; [rewrite (tc_status _ _ Ht); exact (Htv x b Hx)|exact (Htv p c Hp')].
  - intros p c Hp. destruct (insert_cases _ _ _ _ _ Hp) as [[-> ->]|[Hne Hp']]; [|by apply (Hbd p c)]. destruct (Hbd x b Hx) as (H1 & H2 & H3). cbn in *.
    rewrite (tc_tx _ _ Ht), Eh. done.
  - intros p c Hp. destruct (insert_cases _ _ _ _ _ Hp) as [[-> ->]|[Hne Hp']]; [by rewrite (tc_tx _ _ Ht)|by apply (Hcn p c)].
  - intros p c Hp Hc. destruct (insert_cases _ _ _ _ _ Hc) as [[-> ->]|[Hne Hp']]; [done|]. apply (Hsq p c); [set_solver|done].
  - rewrite length_app, length_fmap. pose proof (filter_app_complement (fun y : ptr * ptr => y.1 = x) (mapBlocksUnlinked cm)) as Hlen. apply Permutation_length in Hlen.
    rewrite length_app in Hlen. cbn [length] in Hnx. lia.
  - intros q y Hqy. apply list_elem_of_filter in Hqy as [Hqx Hqy]. destruct (Hun q y Hqy) as (c & Hc & Ec & Hnc).
    destruct (decide (x = y)) as [<-|Hne]; [exists b'; rewrite lookup_insert_eq; assert (c = b) as -> by congruence; rewrite Ep, (tc_tx _ _ Ht); done|exists c; by rewrite lookup_insert_ne].
  - intros y c Hy Hny Hny0. destruct (insert_cases _ _ _ _ _ Hy) as [[-> ->]|[Hne Hy']]; [done|]. rewrite elem_of_app.
    destruct (Hwt y c Hy' Hny Hny0) as [Hin|(q & bq & Eq & Hq & Hor)]; [left; left; set_solver|]. destruct (decide (q = x)) as [->|Hnqx].
    + assert (bq = b) as -> by congruence. destruct Hor as [Hf|[_ Hin]].
      * right. exists x, b'. cbn. rewrite lookup_insert_eq. split; [done|]. split; [done|]. left. unfold failed, has_flag. by rewrite (tc_status _ _ Ht).
      * left. right. apply list_elem_of_fmap. exists (x, y). split; [done|]. by apply list_elem_of_filter.
    + right. exists q, bq. cbn. split; [done|]. rewrite lookup_insert_ne by done. split; [done|]. destruct Hor as [|[Hnq Hin]]; [by left|right]. split; [done|]. by apply list_elem_of_filter.
  - intros y [Hy|Hy]%elem_of_app.
    + destruct (Hqu y ltac:(set_solver)) as (c & Hc & Hnc & Hntc & Hp). destruct (decide (x = y)) as [<-|Hne].
      * exists b'. assert (c = b) as -> by congruence. rewrite lookup_insert_eq, Ep, (tc_tx _ _ Ht), (same_links_ancestor _ _ _ _ Hlinks). split; [done|]. split; [done|]. split; [done|].
        intros q Eq. apply counted_insert; [done|by apply Hp].
      * exists c. rewrite lookup_insert_ne, (same_links_ancestor _ _ _ _ Hlinks) by done. split; [done|]. split; [done|]. split; [done|]. intros q Eq. apply counted_insert; [done|by apply Hp].
    + apply list_elem_of_fmap in Hy as ([q y'] & -> & Hin). apply list_elem_of_filter in Hin as [Eq Hin]. cbn in Eq |- *. subst q.
      destruct (Hun x y' Hin) as (c & Hc & Ec & Hnc). assert (y' <> x) as Hne.
      { intros ->. pose proof (tree_links _ Htree x c Hc) as [_ Hl]. cbn in Hl. rewrite Ec in Hl. destruct Hl as (c' & Hc' & Hh). assert (c' = c) as -> by congruence. lia. }
      exists c. rewrite lookup_insert_ne, (same_links_ancestor _ _ _ _ Hlinks) by done. split; [done|]. split; [done|]. split.
      * intros Ha. apply Hnt. eapply ancestor_trans; [exact Ha|]. eapply ancestor_up; [exact Hc|exact Ec|apply ancestor_refl].
      * intros q Eq. rewrite Ec in Eq. injection Eq as <-. exists b'. by rewrite lookup_insert_eq.
Qed.
(** Nothing but counts, values and sequence numbers has changed. *)
Definition counted_up (h h' : gmap positive CBlockIndex) : Prop :=
  dom h' = dom h /\ forall p b, h !! p = Some b -> exists b', h' !! p = Some b' /\ touched b b' /\ (nChainTx b <> 0 -> nChainTx b' <> 0).

Lemma counted_up_refl h : counted_up h h.
Proof. split; [done|]. intros p b Hp. exists b. by repeat split. Qed.

Lemma touched_trans a b c : touched a b -> touched b c -> touched a c.
Proof. intros [A1 A2 A3 A4 A5 A6] [B1 B2 B3 B4 B5 B6]. split; congruence. Qed.

Lemma counted_up_trans h1 h2 h3 : counted_up h1 h2 -> counted_up h2 h3 -> counted_up h1 h3.
Proof.
  intros [D1 H1] [D2 H2]. split; [congruence|]. intros p b Hp. destruct (H1 p b Hp) as (b2 & Hp2 & T2 & N2). destruct (H2 p b2 Hp2) as (b3 & Hp3 & T3 & N3).
  exists b3. split; [done|]. split; [by eapply touched_trans|auto].
Qed.

Lemma counted_up_insert h x b b' : h !! x = Some b -> touched b b' -> nChainTx b' <> 0 -> counted_up h (<[x := b']> h).
Proof.
  intros Hx Ht Hn. split; [rewrite dom_insert_L; assert (x ∈ dom h) by (by apply elem_of_dom); set_solver|].
  intros p c Hp. destruct (decide (x = p)) as [<-|Hne].
  - exists b'. rewrite lookup_insert_eq. assert (c = b) as -> by congruence. done.
  - exists c. rewrite lookup_insert_ne by done. by repeat split.
Qed.


(** An entry whose parents are counted is counted, and the blocks that waited for it are next. *)
Lemma chain_tx_loop_step fuel cm t x rest : linked K cm t (x :: rest) ->
  exists cm1 found, chain_tx_loop (S fuel) cm (x :: rest) = chain_tx_loop fuel cm1 (rest ++ found) /\
    linked K cm1 t (rest ++ found) /\ counted_up (cm_heap cm) (cm_heap cm1) /\ chainActive cm1 = chainActive cm /\
    (length found + length (mapBlocksUnlinked cm1))%nat = length (mapBlocksUnlinked cm).
Proof.
  intros Hlk. pose proof Hlk as [Hi Hact _ _ _ Hbd _ Hsq Hnx _ _ Hqu]. pose proof (ix_tree cm Hi) as Htree.
  destruct (Hqu x ltac:(set_solver)) as (b & Hx & Hn & Hnt & Hpar).
  destruct (UpdateChainValues_spec K _ x b Hbd Htree Hx Hn Hpar) as (b1 & Eu & Ht1 & Es1 & Hn1 & Hb1).
  assert (exists b' seq, assign_sequence (set_heap cm (<[x := b1]> (cm_heap cm))) x = Ok (process cm x b' seq) /\ touched b b' /\ nChainTx b' = nChainTx b1 /\
    nSequenceId b' <> 0 /\ (x ∈ setBlockIndexCandidates cm -> nSequenceId b' = nSequenceId b) /\ 0 < seq <= nBlockSequenceId cm + 1) as (b' & seq & Ea & Ht' & En & Hs' & Hk & Hseq).
  { unfold assign_sequence. cbn [cm_heap set_heap setBlockIndexCandidates nBlockSequenceId]. rewrite (deref_Ok _ x b1) by apply lookup_insert_eq. cbn [res_bind].
    destruct (Z.eqb_spec (nSequenceId b1) 0) as [E0|E0]; cbn [negb].
    - rewrite bool_decide_eq_false_2 by (intros Hin; apply (Hsq x b Hin Hx); congruence). exists (with_sequence (nBlockSequenceId cm) b1), (u32 (nBlockSequenceId cm + 1)).
      split; [by rewrite insert_insert_eq|]. split; [eapply touched_trans; [exact Ht1|by split]|]. split; [done|]. cbn [nSequenceId with_sequence]. cbn [length] in Hnx.
      split; [lia|]. split; [intros Hin; exfalso; apply (Hsq x b Hin Hx); congruence|]. rewrite u32_id by lia. lia.
    - exists b1, (nBlockSequenceId cm). split; [by destruct cm|]. split; [done|]. split; [done|]. split; [done|]. split; [done|lia]. }
  set (found := snd <$> filter (fun y => y.1 = x) (mapBlocksUnlinked cm)).
  assert (x <> t) as Hxt by (intros ->; apply Hnt, ancestor_refl). pose proof Hact as (bt & Hbt & _).
  assert (Tip (chainActive cm) = Some t) as Etip by (by apply active_Tip; [apply Htree|]).
  assert (exists cands, AddBlockIndexCandidate (process cm x b' seq) x = Ok (set_candidates (process cm x b' seq) cands) /\
     (cands = setBlockIndexCandidates cm \/ cands = {[x]} ∪ setBlockIndexCandidates cm) /\ (worse (<[x := b']> (cm_heap cm)) x t \/ x ∈ cands)) as (cands & Ec & Hcands & Hcand).
  { unfold AddBlockIndexCandidate, process. cbn [chainActive cm_heap set_sequence set_heap]. rewrite Etip.
    rewrite (comparator_Ok _ x t b' bt) by (by rewrite ?lookup_insert_eq, ?lookup_insert_ne). cbn [res_bind]. destruct (worse_entry x b' t bt) eqn:Ew.
    - exists (setBlockIndexCandidates cm). split; [by destruct cm|]. split; [by left|]. left. exists b', bt. by rewrite lookup_insert_eq, lookup_insert_ne.
    - eexists. split; [done|]. split; [by right|]. right. cbn. set_solver. }
  exists (set_unlinked (set_candidates (process cm x b' seq) cands) (filter (fun y => y.1 <> x) (mapBlocksUnlinked cm))), found. split; [|split; [|split; [|split]]].
  - cbn [chain_tx_loop]. unfold update_chain_values. rewrite (deref_Ok _ _ _ Hx). cbn [res_bind]. rewrite Eu. cbn [res_bind fst snd negb]. rewrite Ea. cbn [res_bind]. rewrite Ec. done.
  - eapply linked_step; try done; rewrite En; done.
  - cbn. eapply counted_up_insert; [done|done|by rewrite En].
  - done.
  - cbn. unfold found. rewrite length_fmap. pose proof (filter_app_complement (fun y : ptr * ptr => y.1 = x) (mapBlocksUnlinked cm)) as Hlen. apply Permutation_length in Hlen. by rewrite length_app in Hlen.
Qed.

Lemma chain_tx_loop_spec fuel cm t queue : linked K cm t queue -> (length queue + length (mapBlocksUnlinked cm) <= fuel)%nat ->
  exists cm', chain_tx_loop fuel cm queue = Ok cm' /\ linked K cm' t [] /\ counted_up (cm_heap cm) (cm_heap cm') /\ chainActive cm' = chainActive cm.
Proof.
  revert cm queue. induction fuel as [|fuel IH]; intros cm queue Hlk Hf; (destruct queue as [|x rest]; [exists cm; split; [done|]; split; [done|]; split; [apply counted_up_refl|done]|]).
  - cbn in Hf. lia.
  - destruct (chain_tx_loop_step fuel cm t x rest Hlk) as (cm1 & found & -> & Hlk1 & Hup & Hact & Hlen). destruct (IH cm1 (rest ++ found) Hlk1) as (cm' & E & Hlk' & Hup' & Hact').
    { rewrite length_app. cbn [length] in Hf. lia. }
    exists cm'. split; [done|]. split; [done|]. split; [by eapply counted_up_trans|congruence].
Qed.

(** ** The arrival of transactions *)

(** An entry that gets its transactions. *)
Record received (b b' : CBlockIndex) (n : Z) : Prop := {
  rc_hash : phashBlock b' = phashBlock b;
  rc_links : links_of b' = links_of b;
  rc_work : nChainWork b' = nChainWork b;
  rc_bits : nBits b' = nBits b;
  rc_sequence : nSequenceId b' = nSequenceId b;
  rc_tx : nTx b' = n;
  rc_chain_tx : nChainTx b' = 0;
  rc_status : 0 <= nStatus b' < 2 ^ 32 /\ BLOCK_VALID_TREE <= Z.land (nStatus b') BLOCK_VALID_MASK;
  rc_failed : failed b' = failed b;
  rc_data : have_data b' = true
}.

Lemma lor_bound a b n : 0 <= n -> 0 <= a < 2 ^ n -> 0 <= b < 2 ^ n -> 0 <= Z.lor a b < 2 ^ n.
Proof.
  intros Hn Ha Hb. assert (Z.lor a b = Z.lor a b mod 2 ^ n) as ->; [|apply Z.mod_pos_bound; lia].
  by rewrite <- Z.land_ones, Z.land_lor_distr_l, !Z.land_ones, !Z.mod_small.
Qed.

Lemma raise_validity_received b n v : 0 <= nStatus b < 2 ^ 32 -> BLOCK_VALID_TREE <= Z.land (nStatus b) BLOCK_VALID_MASK ->
  exists b', raise_validity BLOCK_VALID_TRANSACTIONS (received_entry b n v) = Ok b' /\ received b b' n.
Proof.
  intros Hs Ht. unfold raise_validity. cbn [nStatus received_entry]. set (s := SetStatusFlag (nStatus b) BLOCK_HAVE_DATA).
  assert (0 <= s < 2 ^ 32) as Hs'.
  { unfold s, SetStatusFlag. by apply lor_bound. }
  assert (Z.land s BLOCK_VALID_MASK = Z.land (nStatus b) BLOCK_VALID_MASK /\ Z.land s BLOCK_FAILED_MASK = Z.land (nStatus b) BLOCK_FAILED_MASK /\
    negb (Z.land s BLOCK_HAVE_DATA =? 0) = true) as (E1 & E2 & E3).
  { unfold s, SetStatusFlag. split; [by apply flag_other|]. split; [by apply flag_other|]. rewrite Z.lor_comm. apply flag_kept. done. }
  destruct (RaiseValidity_correct s BLOCK_VALID_TRANSACTIONS Hs' ltac:(done)) as (changed & s' & -> & Ed & Hc).
  assert (Z.land s' BLOCK_FAILED_MASK = Z.land s BLOCK_FAILED_MASK) as E4.
  { rewrite !land_failed. change 32 with (8 * 4). rewrite <- !Z.div_div by lia. by rewrite Ed. }
  eexists. split; [reflexivity|]. split; try done.
  - cbn [nStatus with_status received_entry]. rewrite land_valid. rewrite land_valid in Ht, E1. rewrite land_valid in E1.
    pose proof (Z.div_mod s' 8 ltac:(lia)). pose proof (Z.div_mod s 8 ltac:(lia)). pose proof (Z.mod_pos_bound s' 8 ltac:(lia)). destruct changed; [destruct Hc as (_ & Hc & _)|destruct Hc as [-> _]; lia].
    rewrite Hc. unfold BLOCK_VALID_TREE, BLOCK_VALID_TRANSACTIONS in *. split; [|lia]. 
    assert (s / 8 < 2 ^ 29) by (apply Z.div_lt_upper_bound; lia). pose proof (Z.div_pos s 8). lia.
  - unfold failed, has_flag. cbn [nStatus with_status]. by rewrite E4, E2.
  - unfold have_data, has_flag. cbn [nStatus with_status].
    assert (forall z, Z.land z BLOCK_HAVE_DATA = 8 * (z / 8 mod 2)) as Hl.
    { intros z. change BLOCK_HAVE_DATA with (Z.shiftl (Z.ones 1) 3). by rewrite land_shiftl_mask, Z.land_ones, Z.shiftl_mul_pow2, Z.shiftr_div_pow2, Z.mul_comm by lia. }
    rewrite Hl, Ed, <- Hl. done.
Qed.

Lemma insert_lookup_ne (h : gmap positive CBlockIndex) x b' p c : h !! p = Some c -> p <> x -> <[x := b']> h !! p = Some c.
Proof. intros Hp Hne. by rewrite lookup_insert_ne. Qed.

(** An entry gets its transactions: it is to be counted next, or waits for its parent. *)
Lemma linked_received cm t x b b' n l queue d : linked K cm t [] -> cm_heap cm !! x = Some b -> nTx b = 0 -> received b b' n -> 0 < n <= K ->
  nBlockSequenceId cm + Z.of_nat (length queue + length (mapBlocksUnlinked cm ++ l)) < 2 ^ 32 ->
  queue = [x] /\ l = [] /\ (forall q, pprev b = Some q -> counted (cm_heap cm) q) \/
  queue = [] /\ (exists q bq, pprev b = Some q /\ cm_heap cm !! q = Some bq /\ (failed bq = true /\ l = [] \/ nChainTx bq = 0 /\ l = [(q, x)])) ->
  linked K (set_unlinked (set_dirty (set_heap cm (<[x := b']> (cm_heap cm))) d) (mapBlocksUnlinked cm ++ l)) t queue.
Proof.
  intros [Hi Hact Hcomp Htip Htv Hbd Hcn Hsq Hnx Hun Hwt Hqu] Hx Hn0 Hr Hn Hseq Hcase. pose proof (ix_tree cm Hi) as Htree.
  assert (nChainTx b = 0) as Hc0 by (destruct (Z.eq_dec (nChainTx b) 0) as [|Hne]; [done|by destruct (Hcn x b Hx Hne)]).
  assert (forall p, counted (cm_heap cm) p -> ~ ancestor_of (cm_heap cm) p x) as Hno.
  { intros p (c & Hp & Hc) Ha. by apply (counts_down _ p c x b Htree Hp Hc Ha Hx). }
  assert (forall p, counted (cm_heap cm) p -> p <> x) as Hcx by (intros p Hp ->; by apply (Hno x Hp), ancestor_refl).
  assert (forall p, counted (cm_heap cm) p -> counted (<[x := b']> (cm_heap cm)) p) as Hcc.
  { intros p Hp. pose proof (Hcx p Hp) as Hne. destruct Hp as (c & Hp & Hc). exists c. split; [by apply insert_lookup_ne|done]. }
  pose proof (touched_links _ x b b' Hx (rc_links _ _ _ Hr)) as Hlinks.
  assert (pprev b' = pprev b /\ nHeight b' = nHeight b) as [Ep Eh] by (pose proof (rc_links _ _ _ Hr) as E; by injection E).
  assert (forall q, pprev b = Some q -> q <> x) as Hpx.
  { intros q Eq ->. pose proof (tree_links _ Htree x b Hx) as [_ Hl]. cbn in Hl. rewrite Eq in Hl. destruct Hl as (c & Hc & Hh). assert (c = b) as -> by congruence. lia. }
  pose proof (Hcx t Htip) as Htx.
  split; cbn [cm_heap mapBlockIndex chainActive setBlockIndexCandidates mapBlocksUnlinked nBlockSequenceId set_unlinked set_dirty set_heap].
  - destruct Hi as [_ Im Ic Ii If1 If2]. split; cbn; [|intros hsh p Hp; apply lookup_insert_is_Some'; right; by eapply Im|intros p Hp; by apply Hcc, Ic|by apply pointer_ok_insert..].
    eapply touched_tree; [done|done|apply Hr..| |]; [by rewrite (rc_chain_tx _ _ _ Hr)|]. intros _ y c Hy Ey. destruct (Z.eq_dec (nChainTx c) 0) as [|Hne]; [done|].
    by destruct (tree_counts _ Htree y c Hy x b Ey Hx Hne).
  - destruct (active_touched cm x b b' 0 t Hx (rc_links _ _ _ Hr) Hact) as (bt & H1 & H2). by exists bt.
  - intros p c Hp Hc Hw. cbn in Hp, Hw |- *. destruct (insert_cases _ _ _ _ _ Hp) as [[-> ->]|[Hne Hp']]; [by rewrite (rc_chain_tx _ _ _ Hr) in Hc|].
    rewrite worse_touched in Hw by done. destruct (Hcomp p c Hp' Hc Hw) as [Hin|[(c' & Hc' & Hf)|(q & cq & Hpq & Hq & Hcq & Hd)]]; [by left|right; left; exists c'; by rewrite lookup_insert_ne|].
    right. right. exists q, cq. rewrite !(same_links_ancestor _ _ _ _ Hlinks). split; [done|]. split; [done|]. split; [|done]. apply insert_lookup_ne; [done|]. intros ->. by apply (Hno p); [exists c|].
  - by apply Hcc.
  - intros p c Hp. destruct (insert_cases _ _ _ _ _ Hp) as [[-> ->]|[Hne Hp']]; [apply Hr|exact (Htv p c Hp')].
  - intros p c Hp. destruct (insert_cases _ _ _ _ _ Hp) as [[-> ->]|[Hne Hp']]; [|by apply (Hbd p c)]. destruct (Hbd x b Hx) as (H1 & H2 & H3). cbn in *.
    rewrite (rc_tx _ _ _ Hr), (rc_chain_tx _ _ _ Hr), Eh. lia.
  - intros p c Hp. destruct (insert_cases _ _ _ _ _ Hp) as [[-> ->]|[Hne Hp']]; [by rewrite (rc_chain_tx _ _ _ Hr)|by apply (Hcn p c)].
  - intros p c Hp Hc. destruct (insert_cases _ _ _ _ _ Hc) as [[-> ->]|[Hne Hp']]; [rewrite (rc_sequence _ _ _ Hr)|]; by eapply Hsq.
  - split; [apply Hnx|done].
  - assert (forall q y, (q, y) ∈ mapBlocksUnlinked cm -> exists b0, <[x := b']> (cm_heap cm) !! y = Some b0 /\ pprev b0 = Some q /\ nTx b0 <> 0) as Hun'.
    { intros q y Hin. destruct (Hun q y Hin) as (c & Hc & Ec & Hnc). exists c. split; [|done]. apply insert_lookup_ne; [done|]. intros ->. congruence. }
    intros q y [Hin|Hin]%elem_of_app; [by apply Hun'|]. destruct Hcase as [(_ & -> & _)|(_ & q' & bq & Eq & Hq & [[_ ->]|[_ ->]])]; [by apply elem_of_nil in Hin..|].
    apply list_elem_of_singleton in Hin. injection Hin as -> ->. exists b'. rewrite lookup_insert_eq, Ep, (rc_tx _ _ _ Hr). split; [done|]. split; [done|lia].
  - intros y c Hy Hny Hny0. destruct (insert_cases _ _ _ _ _ Hy) as [[-> ->]|[Hne Hy']].
    + destruct Hcase as [(-> & _)|(-> & q & bq & Eq & Hq & Hor)]; [left; set_solver|right]. exists q, bq. cbn. rewrite Ep. split; [done|].
      split; [by apply insert_lookup_ne, (Hpx q)|]. destruct Hor as [[Hf _]|[Hz ->]]; [by left|right]. split; [done|]. set_solver.
    + destruct (Hwt y c Hy' Hny Hny0) as [[]%elem_of_nil|(q & bq & Eq & Hq & Hor)]. right. exists q. destruct (decide (q = x)) as [->|Hnq].
      * exists b'. cbn. rewrite lookup_insert_eq. split; [done|]. split; [done|]. assert (bq = b) as -> by congruence. rewrite (rc_failed _ _ _ Hr), (rc_chain_tx _ _ _ Hr).
        destruct Hor as [|[_ Hin]]; [by left|right]. set_solver.
      * exists bq. cbn. split; [done|]. split; [by apply insert_lookup_ne|]. destruct Hor as [|[Hz Hin]]; [by left|right]. set_solver.
  - intros y Hy. destruct Hcase as [(-> & _ & Hpar)|(-> & _)]; [|by apply elem_of_nil in Hy]. apply list_elem_of_singleton in Hy as ->. exists b'.
    rewrite lookup_insert_eq, Ep, (rc_tx _ _ _ Hr), (same_links_ancestor _ _ _ _ Hlinks). split; [done|]. split; [lia|]. split; [by apply Hno|]. intros q Eq. by apply Hcc, Hpar.
Qed.

(** The transactions of the whole branch are here, and none of its blocks has failed. *)
Definition arrived (h : gmap positive CBlockIndex) (x : ptr) : Prop :=
  forall q, ancestor_of h x q -> exists b, h !! q = Some b /\ nTx b <> 0 /\ failed b = false.

(** Such an entry is counted, and is a candidate when it may become the tip. *)
Lemma linked_counted cm t x : linked K cm t [] -> arrived (cm_heap cm) x -> counted (cm_heap cm) x.
Proof.
  intros Hlk Harr. pose proof (tree_links _ (ix_tree cm (lk_index _ _ _ _ Hlk))) as Hl.
  destruct (Harr x (ancestor_refl _ x)) as (b & Hx & _). remember (Z.to_nat (nHeight b)) as k eqn:Ek. revert x b Hx Ek Harr.
  induction (lt_wf k) as [k _ IH]; intros x b Hx Ek Harr. destruct (Harr x (ancestor_refl _ x)) as (b0 & Hb0 & Hn & _). assert (b0 = b) as -> by congruence.
  destruct (Z.eq_dec (nChainTx b) 0) as [Hz|]; [|by exists b].
  destruct (lk_waiting _ _ _ _ Hlk x b Hx Hn Hz) as [[]%elem_of_nil|(q & bq & Eq & Hq & Hor)].
  assert (ancestor_of (cm_heap cm) x q) as Hxq by (eapply ancestor_up; [exact Hx|exact Eq|apply ancestor_refl]).
  destruct (Harr q Hxq) as (bq' & Hq' & _ & Hf). assert (bq' = bq) as -> by congruence. destruct Hor as [Hft|[Hzq _]]; [congruence|].
  pose proof (Hl x b Hx) as [H0 Hh]. cbn in H0, Hh. rewrite Eq in Hh. destruct Hh as (c & Hc & Hh). assert (c = bq) as -> by congruence. pose proof (Hl q bq Hq) as [H1 _]. cbn in H1.
  destruct (IH (Z.to_nat (nHeight bq)) ltac:(lia) q bq Hq eq_refl) as (c & Hc' & Hnc).
  { intros y Hy. apply Harr. by eapply ancestor_trans. }
  congruence.
Qed.

(** [UpdateChainTx] for an entry that has just got its transactions. *)
Lemma received_entry_links cm t p b b' n d : linked K cm t [] -> cm_heap cm !! p = Some b -> nTx b = 0 -> received b b' n -> 0 < n <= K ->
  nBlockSequenceId cm + Z.of_nat (length (mapBlocksUnlinked cm)) + 1 < 2 ^ 32 ->
  exists cm' b2, UpdateChainTx (set_dirty (set_heap cm (<[p := b']> (cm_heap cm))) d) p = Ok cm' /\ linked K cm' t [] /\ chainActive cm' = chainActive cm /\
    cm_heap cm' !! p = Some b2 /\ nTx b2 = n /\ have_data b2 = true.
Proof.
  intros Hlk Hp Hn0 Hr Hn Hseq. set (cm1 := set_dirty _ d). unfold UpdateChainTx. pose proof (ix_tree cm (lk_index _ _ _ _ Hlk)) as Htree.
  assert (pprev b' = pprev b) as Ep by (pose proof (rc_links _ _ _ Hr) as E; by injection E).
  assert ((forall q, pprev b = Some q -> counted (cm_heap cm) q) \/ exists q bq, pprev b = Some q /\ cm_heap cm !! q = Some bq /\ nChainTx bq = 0) as [Hpar|(q & bq & Eq & Hq & Hz)].
  { pose proof (tree_links _ Htree p b Hp) as [_ Hl]. cbn in Hl. destruct (pprev b) as [q|]; [|by left]. destruct Hl as (bq & Hq & _). destruct (Z.eq_dec (nChainTx bq) 0) as [Hz|Hne].
    - right. by exists q, bq.
    - left. intros q' [= <-]. by exists bq. }
  - assert (linked K (set_unlinked cm1 (mapBlocksUnlinked cm ++ [])) t [p]) as Hlk1 by (eapply linked_received; [done|done|done|done|done|rewrite app_nil_r; cbn [length]; lia|by left]).
    replace (set_unlinked cm1 (mapBlocksUnlinked cm ++ [])) with cm1 in Hlk1 by (rewrite app_nil_r; by destruct cm).
    destruct (chain_tx_loop_spec (S (length (mapBlocksUnlinked cm1))) cm1 t [p] Hlk1 ltac:(cbn; lia)) as (cm' & -> & Hlk' & [_ Hup] & Hact).
    destruct (Hup p b' (lookup_insert_eq _ _ _)) as (b2 & Hb2 & Ht & _). exists cm', b2. split; [done|]. split; [done|]. split; [done|]. split; [done|].
    rewrite (tc_tx _ _ Ht). split; [apply Hr|]. unfold have_data, has_flag. rewrite (tc_status _ _ Ht). apply Hr.
  - assert (q <> p) as Hqp.
    { intros ->. pose proof (tree_links _ Htree p b Hp) as [_ Hl]. cbn in Hl. rewrite Eq in Hl. destruct Hl as (c & Hc & Hh). assert (c = b) as -> by congruence. lia. }
    cbn [chain_tx_loop]. unfold update_chain_values, UpdateChainValues, cm1. cbn [cm_heap set_dirty set_heap]. rewrite (deref_Ok _ p b') by apply lookup_insert_eq. cbn [res_bind]. rewrite Ep, Eq.
    rewrite (deref_Ok _ q bq) by (by apply insert_lookup_ne). cbn [res_bind]. rewrite Hz. cbn [Z.eqb negb andb res_bind fst snd]. rewrite insert_insert_eq.
    match goal with |- context [set_heap _ (<[p := ?c]> _)] => lazymatch c with b' => fail | _ => set (b2 := c) end end. assert (received b b2 n) as Hr2.
    { destruct Hr as [R1 R2 R3 R4 R5 R6 R7 R8 R9 R10]. split; try done. unfold links_of in *. cbn. injection R2 as R2a R2b R2c. by rewrite Eq, R2b, R2c. }
    unfold AddBlockUnlinked. cbn [cm_heap set_dirty set_heap]. rewrite (deref_Ok _ p b2) by apply lookup_insert_eq. cbn [res_bind pprev b2].
    rewrite (deref_Ok _ q bq) by (by apply insert_lookup_ne). cbn [res_bind]. destruct (lk_tree _ _ _ _ Hlk q bq Hq) as [_ Hv]. cbn in Hv.
    unfold valid_upto, IsValid. cbn [Z.eqb negb]. change (Z.land BLOCK_VALID_TREE _ =? 0) with true. cbn [negb]. destruct (failed bq) eqn:Ef; unfold failed, has_flag in Ef; rewrite Ef; cbn [res_bind].
    + eexists _, b2. split; [reflexivity|]. split; [|split; [done|]; split; [apply lookup_insert_eq|]; split; apply Hr2].
      replace (set_heap _ _) with (set_unlinked (set_dirty (set_heap cm (<[p := b2]> (cm_heap cm))) d) (mapBlocksUnlinked cm ++ [])) by (rewrite app_nil_r; by destruct cm).
      eapply linked_received; [done|done|done|done|done|rewrite app_nil_r; cbn [length]; lia|]. right. split; [done|]. exists q, bq. split; [done|]. split; [done|]. left. by split.
    + rewrite (proj2 (Z.geb_le _ _) Hv). cbn [res_bind]. eexists _, b2. split; [reflexivity|]. split; [|split; [done|]; split; [apply lookup_insert_eq|]; split; apply Hr2].
      apply (linked_received cm t p b b2 n [(q, p)] [] d); [done..|rewrite length_app; cbn [length]; lia|]. right. split; [done|]. exists q, bq. split; [done|]. split; [done|]. by right.
Qed.

End Linking.

(** ** A block that arrives before its parent

    Entry 1 is the tip; 2 and 4 are headers, and 3 has arrived before its parent 2. *)

Definition waiting_entry (prev : option ptr) (height work seq tx status : Z) : CBlockIndex :=
  {| phashBlock := [work]; pprev := prev; pskip := None; nHeight := height; nTime := 0; nBits := 0; nChainWork := uint_of_u64 work;
     nTx := tx; nChainTx := if height =? 0 then tx else 0; nStatus := status; nSequenceId := seq; nSproutValue := None; nChainSproutValue := None;
     nSaplingValue := 0; nChainSaplingValue := None |}.
Definition waiting_index : gmap positive CBlockIndex :=
  <[1%positive := waiting_entry None 0 1 1 1 11]> (<[2%positive := waiting_entry (Some 1%positive) 1 3 0 0 2]>
  (<[3%positive := waiting_entry (Some 2%positive) 2 4 0 1 11]> (<[4%positive := waiting_entry (Some 3%positive) 3 5 0 0 2]> ∅))).
Definition waiting_map : gmap bytes ptr := list_to_map [([1], 1%positive); ([3], 2%positive); ([4], 3%positive); ([5], 4%positive)].
Definition waiting_manager : chain_manager := {|
  cm_heap := waiting_index; mapBlockIndex := waiting_map; chainActive := [Some 1%positive]; gl_nChainHeight := 0;
  setBlockIndexCandidates := {[1%positive]}; mapBlocksUnlinked := [(2%positive, 3%positive)]; pindexBestInvalid := None; pindexBestHeader := Some 4%positive;
  setDirtyBlockIndex := ∅; nBlockSequenceId := 2;
  cm_warnings := {| pindexBestForkTip := None; pindexBestForkBase := None; fLargeWorkForkFound := false; fLargeWorkInvalidChainFound := false |};
  m_BlockCacheMap := ∅; m_UnlinkedMap := []
|}.

Ltac waiting_cases Hp :=
  unfold waiting_index in Hp;
  repeat (apply lookup_insert_Some in Hp as [[<- <-]|[_ Hp]]); [..|by rewrite lookup_empty in Hp].

Lemma waiting_tree : tree_ok waiting_index.
Proof.
  split.
  - intros p b Hp. waiting_cases Hp; cbn; (split; [lia|]); try done; eexists; (split; [reflexivity|done]).
  - intros p b Hp. waiting_cases Hp; cbn; done.
  - intros p b Hp. waiting_cases Hp; cbn [nChainWork waiting_entry]; by apply uint_of_u64_spec.
  - intros p b Hp. waiting_cases Hp; cbn; lia.
  - intros p b Hp q bq Eq Hq. waiting_cases Hp; cbn in Eq; try done; injection Eq as <-; injection Hq as <-; vm_compute; done.
  - intros p b Hp q bq Eq Hq. waiting_cases Hp; cbn in Eq; try done; injection Eq as <-; injection Hq as <-; vm_compute; done.
  - intros p q b c Hp Hq E1 E2. waiting_cases Hp; cbn in E1; try done; waiting_cases Hq; cbn in E2; done.
Qed.

Lemma waiting_linked : linked 10 waiting_manager 1 [].
Proof.
  assert (counted waiting_index 1) as Htip by (eexists; split; [reflexivity|done]).
  split; [split|..]; cbn -[waiting_index waiting_entry waiting_map].
  - exact waiting_tree.
  - intros hsh p Hp. apply elem_of_list_to_map_2 in Hp. repeat (apply elem_of_cons in Hp as [[= -> ->]|Hp]; [by eexists|]). by apply elem_of_nil in Hp.
  - intros p ->%elem_of_singleton. exact Htip.
  - done.
  - done.
  - done.
  - eexists. split; [reflexivity|vm_compute; reflexivity].
  - intros p b Hp Hc _. left. cbn in Hp. waiting_cases Hp; [apply (bool_decide_unpack _); vm_compute; exact I|done..].
  - exact Htip.
  - intros p b Hp. waiting_cases Hp; vm_compute; split; try split; congruence.
  - intros p b Hp. waiting_cases Hp; cbn; lia.
  - intros p b Hp. waiting_cases Hp; cbn; lia.
  - intros p b ->%elem_of_singleton Hp. injection Hp as <-. done.
  - lia.
  - intros q x [= -> ->]%list_elem_of_singleton. eexists. split; [reflexivity|]. by split.
  - intros x b Hx Hn Hz. right. waiting_cases Hx; try done. exists 2%positive. eexists. split; [reflexivity|]. split; [reflexivity|]. right. split; [done|]. by apply list_elem_of_singleton.
  - intros x []%elem_of_nil.
Qed.

