(* ===== verification/Invalidation.v ===== *)
(** * Blocks that the user rejects

    [InvalidateBlock] marks a block, takes the active chain down below it and makes the
    remaining blocks candidates again; the next [ActivateBestChain] finds another branch.
    [TipLaws] is again what these theorems know about the rest of the node. *)

From stdpp Require Import gmap.
From S2P Require Import Prelude ArithUint256 ArithUint256Props Chain Pow Transaction Block BestChain BestChainProps Activation.

(** [mapBlockIndex] has every entry, and counted entries have been checked. *)
Definition indexed (cm : chain_manager) : Prop := forall p b, cm_heap cm !! p = Some b -> mapBlockIndex cm !! phashBlock b = Some p.
Definition checked (h : gmap positive CBlockIndex) : Prop :=
  map_Forall (fun _ b => nChainTx b <> 0 -> BLOCK_VALID_TRANSACTIONS <= Z.land (nStatus b) BLOCK_VALID_MASK) h.

Lemma checked_flag p f cm : f = BLOCK_FAILED_VALID \/ f = BLOCK_FAILED_CHILD -> checked (cm_heap cm) -> checked (cm_heap (set_flag p f cm)).
Proof.
  intros Hf Hc q b Hq Hn. cbn [set_flag cm_heap set_heap] in Hq. destruct (decide (q = p)) as [->|Hne].
  - rewrite lookup_alter_eq in Hq. apply fmap_Some in Hq as (b0 & Hb0 & ->). cbn [nStatus with_status] in *. unfold SetStatusFlag. rewrite flag_other by (by destruct Hf as [->| ->]). by apply (Hc p b0).
  - rewrite lookup_alter_ne in Hq by done. by apply (Hc q b).
Qed.

(** ** Making candidates again *)

Lemma may_be_tip_Ok cm t p b : index_ok cm -> active cm t -> cm_heap cm !! p = Some b ->
  exists v, may_be_tip cm p b = Ok v /\ (v = true -> nChainTx b <> 0) /\
    (nChainTx b <> 0 -> failed b = false -> BLOCK_VALID_TRANSACTIONS <= Z.land (nStatus b) BLOCK_VALID_MASK -> ~ worse (cm_heap cm) p t -> v = true).
Proof.
  intros Hi Hact Hp. pose proof Hact as (bt & Ht & _). unfold may_be_tip, valid_upto, IsValid.
  change (Z.land BLOCK_VALID_TRANSACTIONS (u32 (Z.lnot BLOCK_VALID_MASK)) =? 0) with true. cbn [negb].
  assert (worse_than_tip cm p = Ok (worse_entry p b t bt)) as Ew.
  { unfold worse_than_tip. rewrite (active_Tip cm t (tree_links _ (ix_tree cm Hi)) Hact). by apply comparator_Ok. }
  unfold failed, has_flag. destruct (Z.eqb_spec (Z.land (nStatus b) BLOCK_FAILED_MASK) 0) as [Ef|Ef]; cbn [negb res_bind andb]; [|by exists false].
  destruct (Z.land (nStatus b) BLOCK_VALID_MASK >=? BLOCK_VALID_TRANSACTIONS) eqn:Ev; cbn [andb].
  2:{ exists false. split; [done|]. split; [done|]. intros _ _ Hle _. rewrite Z.geb_leb in Ev. by apply Z.leb_gt in Ev; lia. }
  destruct (Z.eqb_spec (nChainTx b) 0) as [En|En]; cbn [negb]; [by exists false|]. rewrite Ew. cbn [res_bind]. eexists. split; [done|]. split; [done|].
  intros _ _ _ Hw. destruct (worse_entry p b t bt) eqn:E; [|done]. destruct Hw. by exists b, bt.
Qed.

(** Every entry of the list that may become the tip is a candidate in the end. *)
Lemma add_candidates_spec t l cm : index_ok cm -> active cm t -> Forall (fun p => is_Some (cm_heap cm !! p)) l ->
  exists s, add_candidates cm l = Ok (set_candidates cm s) /\ setBlockIndexCandidates cm ⊆ s /\ index_ok (set_candidates cm s) /\
    forall p b, p ∈ l -> cm_heap cm !! p = Some b -> nChainTx b <> 0 -> failed b = false -> BLOCK_VALID_TRANSACTIONS <= Z.land (nStatus b) BLOCK_VALID_MASK ->
      ~ worse (cm_heap cm) p t -> p ∈ s.
Proof.
  revert cm. induction l as [|p l IH]; intros cm Hi Hact Hl; cbn [add_candidates].
  - exists (setBlockIndexCandidates cm). replace (set_candidates cm (setBlockIndexCandidates cm)) with cm by (by destruct cm). split; [done|]. split; [done|]. split; [done|]. by intros p b []%elem_of_nil.
  - inversion Hl as [|? ? [b Hp] Hl']; subst. rewrite (deref_Ok _ _ _ Hp). cbn [res_bind]. destruct (may_be_tip_Ok cm t p b Hi Hact Hp) as (v & -> & Hv1 & Hv2). cbn [res_bind].
    set (cm1 := if v then insert_candidate p cm else cm).
    assert (cm1 = set_candidates cm (setBlockIndexCandidates cm1) /\ setBlockIndexCandidates cm ⊆ setBlockIndexCandidates cm1 /\ index_ok cm1 /\ (v = true -> p ∈ setBlockIndexCandidates cm1))
      as (E1 & Hsub & Hi1 & Hin).
    { unfold cm1. destruct v; [|split; [by destruct cm|]; by split]. split; [done|]. split; [cbn; set_solver|]. split; [|cbn; set_solver].
      destruct Hi as [I1 I2 I3 I4 I5 I6]. split; try done. cbn. intros x [->%elem_of_singleton|Hx]%elem_of_union; [exists b; split; [done|by apply Hv1]|by apply I3]. }
    assert (cm_heap cm1 = cm_heap cm) as Eh by (by rewrite E1). destruct (IH cm1 Hi1) as (s & E & Hs & Hi' & Hall).
    { unfold active. rewrite Eh. rewrite E1. done. }
    { by rewrite Eh. }
    exists s. rewrite E. rewrite E1. split; [done|]. split; [set_solver|]. rewrite E1 in Hi'. split; [done|]. rewrite Eh in Hall.
    intros x c [->|Hx]%elem_of_cons Hc Hn Hf Hle Hw; [|by apply (Hall x c)]. assert (c = b) as -> by congruence. apply Hs, Hin. by apply Hv2.
Qed.

(** The candidates are complete for the tip. *)
Lemma add_candidates_complete t cm : index_ok cm -> active cm t -> indexed cm -> checked (cm_heap cm) ->
  exists s, add_candidates cm (index_entries cm) = Ok (set_candidates cm s) /\ index_ok (set_candidates cm s) /\ complete (set_candidates cm s) t t.
Proof.
  intros Hi Hact Hx Hc. destruct (add_candidates_spec t (index_entries cm) cm Hi Hact) as (s & E & _ & Hi' & Hall).
  { apply Forall_forall. intros p Hp. apply list_elem_of_fmap in Hp as ([hsh q] & -> & Hq). apply elem_of_map_to_list in Hq. by eapply ix_map. }
  exists s. split; [done|]. split; [done|]. intros p b Hp Hn Hw. cbn in Hp, Hw |- *. destruct (failed b) eqn:Ef; [right; left; by exists b|left].
  apply (Hall p b); try done; [|by apply (Hc p b)]. apply list_elem_of_fmap. exists (phashBlock b, p). split; [done|]. apply elem_of_map_to_list. by apply Hx.
Qed.

(** ** Taking the chain down *)

Lemma indexed_aged cm cm' : aged (cm_heap cm) (cm_heap cm') -> mapBlockIndex cm' = mapBlockIndex cm -> indexed cm -> indexed cm'.
Proof. intros Ha Em Hx p b' Hp. destruct (aged_lookup_back _ _ p b' Ha Hp) as (b & s & Hb & -> & _). rewrite Em. cbn. by apply Hx. Qed.

(** The entries of the branch of [t] are the same. *)
Definition branch_kept (h h' : gmap positive CBlockIndex) (t : ptr) : Prop := forall q b, ancestor_of h t q -> h !! q = Some b -> h' !! q = Some b.

Lemma branch_kept_clean h h' t : aged h h' -> branch_kept h h' t -> clean_branch h t -> clean_branch h' t.
Proof.
  intros Ha Hk Hc q Hq. rewrite (aged_ancestor _ _ _ _ Ha) in Hq. destruct (Hc q Hq) as (b & Hb & Hcl). exists b. split; [by apply Hk|done].
Qed.

(** Marking an entry and taking it out of the candidates. *)
Definition reject (p : ptr) (flag : Z) (cm : chain_manager) : chain_manager := erase_candidate p (mark_dirty p (set_flag p flag cm)).

Lemma reject_spec t cm p b f : index_ok cm -> cm_heap cm !! p = Some b -> f = BLOCK_FAILED_VALID \/ f = BLOCK_FAILED_CHILD ->
  shrunk t cm (reject p f cm) /\ (exists b', cm_heap (reject p f cm) !! p = Some b' /\ failed b' = true) /\
  forall q, q <> p -> cm_heap (reject p f cm) !! q = cm_heap cm !! q.
Proof.
  intros Hi Hp Hf. pose proof (shrunk_flag t cm p f Hi Hf) as H1. destruct (aged_lookup _ _ p b (sh_aged _ _ _ H1) Hp) as (b' & s & Hb' & _).
  assert (failed b' = true) as Hft by (eapply (set_flag_failed p f cm); [done|exact Hb']).
  assert (shrunk t (set_flag p f cm) (mark_dirty p (set_flag p f cm))) as H2.
  { split; [|done|done|done|by intros x Hx Hnx]. by apply (index_ok_aged (set_flag p f cm)); [apply H1|done|done|apply H1|..]. }
  split; [|split; [by exists b'|intros q Hq; cbn; by rewrite lookup_alter_ne]].
  eapply shrunk_trans; [exact (shrunk_trans _ _ _ _ H1 H2)|]. apply shrunk_erase; [apply H2|]. left. by exists b'.
Qed.

Lemma InvalidChainFound_map IBD cm p cm' : InvalidChainFound IBD cm p = Ok cm' -> mapBlockIndex cm' = mapBlockIndex cm.
Proof.
  assert (forall c c', note_invalid c p = Ok c' -> mapBlockIndex c' = mapBlockIndex c) as Hn.
  { intros c c'. unfold note_invalid, work_of. destruct (pindexBestInvalid c) as [q|]; [|by intros [= <-]].
    destruct (deref _ p); [cbn|done]. destruct (deref _ q); [cbn|done]. intros [= <-]. by case_match. }
  assert (forall c c', CheckForkWarningConditions IBD c = Ok c' -> mapBlockIndex c' = mapBlockIndex c) as Hw.
  { intros c c'. unfold CheckForkWarningConditions. destruct IBD; [by intros [= <-]|]. intros (tip & _ & (w & _ & E)%res_bind_Ok)%res_bind_Ok. by injection E as <-. }
  unfold InvalidChainFound. destruct (note_invalid cm p) as [c|] eqn:E; [cbn|done]. destruct (Tip _); [|done]. intros E'. rewrite (Hw _ _ E'). by apply Hn.
Qed.

Section Invalidating.
Context {N Blk : Type} `{!TipOps N Blk} `{!TipLaws N Blk}.

(** What the loop leaves, also when it stops early. *)
Record taken_down (cm cm' : chain_manager) (t t' : ptr) : Prop := {
  td_aged : aged (cm_heap cm) (cm_heap cm');
  td_index : index_ok cm';
  td_active : active cm' t';
  td_below : ancestor_of (cm_heap cm) t t';
  td_map : mapBlockIndex cm' = mapBlockIndex cm;
  td_checked : checked (cm_heap cm')
}.

(** The tip is below the block, or is the old one. *)
Definition below (h : gmap positive CBlockIndex) (t p : ptr) (bp : CBlockIndex) (t' : ptr) : Prop :=
  ancestor_of h t p /\ pprev bp = Some t' \/ ~ ancestor_of h t p /\ t' = t.

Lemma taken_down_step cm cm1 cm2 t b q t' : cm_heap cm !! t = Some b -> pprev b = Some q -> aged (cm_heap cm) (cm_heap cm1) -> mapBlockIndex cm1 = mapBlockIndex cm ->
  taken_down cm1 cm2 q t' -> taken_down cm cm2 t t'.
Proof.
  intros Ht Eq Ha Em [H1 H2 H3 H4 H5 H6]. rewrite (aged_ancestor _ _ _ _ Ha) in H4. split; [by transitivity (cm_heap cm1)|done|done|by eapply ancestor_up|congruence|done].
Qed.

Lemma disconnect_tip_map cm n cm' n' ok : disconnect_tip cm n = Ok (cm', n', ok) -> mapBlockIndex cm' = mapBlockIndex cm.
Proof.
  unfold disconnect_tip. destruct (Tip (chainActive cm)) as [t|]; [|done]. destruct (deref (cm_heap cm) t) as [b|]; [cbn [res_bind]|done].
  destruct (tip_disconnect n (cm_heap cm) t) as [n1 d]. destruct d; [|by intros [= <- _ _]]. unfold update_tip. destruct (SetTip _ _ _) as [r|]; [|done]. cbn. by intros [= <- _ _].
Qed.

Lemma invalidate_loop_spec fuel cm n t bt r p bp q0 : running cm n t r -> cm_heap cm !! t = Some bt -> cm_heap cm !! p = Some bp -> pprev bp = Some q0 ->
  checked (cm_heap cm) -> (ancestor_of (cm_heap cm) t p -> nHeight bt - nHeight bp < Z.of_nat fuel) ->
  exists cm' n' ok t', invalidate_loop fuel cm n p = Ok (cm', n', ok) /\ taken_down cm cm' t t' /\
    (ok = true -> running cm' n' t' r /\ below (cm_heap cm) t p bp t' /\ branch_kept (cm_heap cm) (cm_heap cm') t').
Proof.
  revert cm n t bt bp. induction fuel as [|fuel IH]; intros cm n t bt bp Hrun Ht Hp Eq0 Hck Hfuel; cbn [invalidate_loop];
    pose proof Hrun as [Hi Hact _ _ _ _]; pose proof (tree_links _ (ix_tree cm Hi)) as Hl;
    destruct (Contains_active cm t p bp Hl Hact Hp) as (c & -> & Hc); cbn [res_bind]; (destruct c; cbn [negb];
    [|exists cm, n, true, t; split; [done|]; split; [by split; [done|done|done|apply ancestor_refl|done|done]|]; intros _; split; [done|]; split; [right; split; [intros H; by apply Hc in H|done]|by intros x bx _ Hx]]);
    pose proof (proj1 Hc eq_refl) as Hanc; destruct (ancestor_height _ t bt p bp Hl Ht Hp Hanc) as [Hle Hn]; [specialize (Hfuel Hanc); lia|].
  rewrite (active_Tip cm t Hl Hact). change (erase_candidate t _) with (reject t BLOCK_FAILED_CHILD cm).
  destruct (reject_spec t cm t bt BLOCK_FAILED_CHILD Hi Ht ltac:(auto)) as (Hs & (bt' & Ht' & _) & Hsame). set (cm1 := reject t BLOCK_FAILED_CHILD cm) in *.
  pose proof (sh_aged _ _ _ Hs) as Ha. pose proof (shrunk_running t r n _ _ Hs Hrun) as Hrun1. assert (checked (cm_heap cm1)) as Hck1 by (by apply checked_flag; [right|]).
  assert (exists q, pprev bt = Some q) as [q Eq].
  { destruct (ancestor_cases _ t bt p Ht Hanc) as [->|(q & Eq & _)]; [|by exists q]. exists q0. congruence. }
  assert (pprev bt' = Some q) as Eq' by (destruct (aged_lookup _ _ t bt Ha Ht) as (b2 & s & Hb2 & -> & _); by assert (bt' = with_status (fun _ => s) bt) as -> by congruence).
  destruct (disconnect_tip_spec cm1 n t r bt' q Hrun1 Ht' Eq') as (cm2 & n2 & ok & Ed & Eh & Ec & Hok). pose proof (disconnect_tip_map _ _ _ _ _ Ed) as Em. rewrite Ed. cbn [res_bind]. destruct ok.
  2:{ subst cm2. destruct (active_tip_Ok cm1 t (tree_links _ (ix_tree cm1 (rn_index _ _ _ _ Hrun1))) (rn_active _ _ _ _ Hrun1)) as (b2 & -> & _). cbn [res_bind].
      eexists cm1, _, false, t. split; [done|]. split; [|done]. split; [done|apply Hrun1|apply Hrun1|apply ancestor_refl|done|done]. }
  pose proof (Hl t bt Ht) as [_ Hb]. cbn in Hb. rewrite Eq in Hb. destruct Hb as (bq & Hq & Hh).
  assert (forall x, ancestor_of (cm_heap cm) q x -> x <> t) as Hxt by (intros x Hx ->; destruct (ancestor_height _ q bq t bt Hl Hq Ht Hx); lia).
  assert (cm_heap cm2 !! q = Some bq) as Hq2 by (rewrite Eh, Hsame; [done|apply Hxt, ancestor_refl]).
  destruct (aged_lookup _ _ p bp Ha Hp) as (bp' & s & Hp' & Ebp & _). assert (pprev bp' = pprev bp /\ nHeight bp' = nHeight bp) as [Epp Ehp] by (by rewrite Ebp).
  destruct (IH cm2 n2 q bq bp' Hok Hq2) as (cm' & n' & ok & t' & E & Htd & Hres); [by rewrite Eh|congruence|by rewrite Eh|intros _; specialize (Hfuel Hanc); lia|].
  assert (aged (cm_heap cm) (cm_heap cm2)) as Ha2 by (by rewrite Eh). exists cm', n', ok, t'. split; [done|]. split; [eapply taken_down_step; [done|done|done| |done]; by rewrite Em|].
  intros ->. destruct (Hres eq_refl) as (Hrun' & Hbel & Hkept). split; [done|]. unfold below in *. rewrite !(aged_ancestor _ _ _ _ Ha2), Epp in Hbel. split.
  - left. split; [done|]. destruct Hbel as [[_ Hbel]|[Hno ->]]; [done|]. destruct (ancestor_cases _ t bt p Ht Hanc) as [->|(q' & Eq2 & Hx)]; [congruence|]. assert (q' = q) as -> by congruence. done.
  - intros x bx Hx Hbx. apply Hkept; [by rewrite (aged_ancestor _ _ _ _ Ha2)|]. rewrite Eh, Hsame; [done|]. apply Hxt. eapply ancestor_trans; [|done].
    rewrite <- (aged_ancestor _ _ _ _ Ha2). apply Htd.
Qed.

(** The whole function. *)
Lemma InvalidateBlock_spec cm n t p bp q : running cm n t t -> clean_branch (cm_heap cm) t -> indexed cm -> checked (cm_heap cm) ->
  cm_heap cm !! p = Some bp -> pprev bp = Some q ->
  exists cm' n' ok t', InvalidateBlock cm n p = Ok (cm', n', ok) /\ aged (cm_heap cm) (cm_heap cm') /\ index_ok cm' /\ active cm' t' /\
    (ok = true -> running cm' n' t' t' /\ clean_branch (cm_heap cm') t' /\ indexed cm' /\ checked (cm_heap cm') /\ below (cm_heap cm) t p bp t' /\
      exists b', cm_heap cm' !! p = Some b' /\ failed b' = true).
Proof.
  intros Hrun Hcl Hx Hck Hp Eq. unfold InvalidateBlock. change (erase_candidate p _) with (reject p BLOCK_FAILED_VALID cm). pose proof Hrun as [Hi Hact _ _ Hcnt _].
  pose proof (tree_links _ (ix_tree cm Hi)) as Hl. destruct (reject_spec t cm p bp BLOCK_FAILED_VALID Hi Hp ltac:(auto)) as (Hs & (bp1 & Hp1 & Hf1) & Hsame).
  set (cm1 := reject p BLOCK_FAILED_VALID cm) in *. pose proof (sh_aged _ _ _ Hs) as Ha. pose proof (shrunk_running t t n _ _ Hs Hrun) as Hrun1.
  assert (checked (cm_heap cm1)) as Hck1 by (by apply checked_flag; [left|]).
  assert (pprev bp1 = pprev bp /\ nHeight bp1 = nHeight bp) as [Ep1 Eh1] by (destruct (aged_lookup _ _ p bp Ha Hp) as (b2 & s & Hb2 & -> & _); by assert (bp1 = with_status (fun _ => s) bp) as -> by congruence).
  destruct (counted_Some _ _ (rn_tip _ _ _ _ Hrun1)) as [bt1 Ht1].
  destruct (invalidate_loop_spec (length (chainActive cm1)) cm1 n t bt1 t p bp1 q Hrun1 Ht1 Hp1 ltac:(congruence) Hck1) as (cm2 & n2 & ok & t' & -> & Htd & Hres).
  { intros _. destruct (rn_active _ _ _ _ Hrun1) as (b2 & Hb2 & ->). assert (b2 = bt1) as -> by congruence. rewrite branch_length.
    pose proof (tree_links _ (ix_tree cm1 (rn_index _ _ _ _ Hrun1)) p bp1 Hp1) as [Hp0 _]. pose proof (tree_links _ (ix_tree cm1 (rn_index _ _ _ _ Hrun1)) t bt1 Ht1) as [Ht0 _]. cbn in Hp0, Ht0. lia. }
  cbn [res_bind]. destruct Htd as [Ha2 Hi2 Hact2 Hbel2 Em2 Hck2]. assert (aged (cm_heap cm) (cm_heap cm2)) as Ha02 by (by transitivity (cm_heap cm1)).
  destruct ok; cbn [negb]; [|exists cm2, n2, false, t'; by repeat (split; [done|])]. destruct (Hres eq_refl) as (Hrun2 & Hbel & Hkept).
  assert (indexed cm2) as Hx2 by (eapply (indexed_aged cm); [done|by rewrite Em2|done]).
  destruct (add_candidates_complete t' cm2 Hi2 Hact2 Hx2 Hck2) as (s & -> & Hi3 & Hc3). cbn [res_bind].
  destruct (aged_lookup _ _ p bp1 Ha2 Hp1) as (bp2 & s2 & Hp2 & _ & Hf2 & _).
  destruct (InvalidChainFound_spec (tip_IBD n2) (set_candidates cm2 s) t' p Hi3 Hact2) as (cm4 & E4 & Hs4 & Eh4 & Ec4); [cbn; by rewrite Hp2|]. rewrite E4. cbn [res_bind].
  assert (running (set_candidates cm2 s) n2 t' t') as Hrun3 by (destruct Hrun2 as [? ? ? ? ? ?]; by split).
  pose proof (shrunk_running t' t' n2 _ _ Hs4 Hrun3) as Hrun4.
  destruct (active_tip_Ok cm4 t' (tree_links _ (ix_tree cm4 (rn_index _ _ _ _ Hrun4))) (rn_active _ _ _ _ Hrun4)) as (b4 & -> & _). cbn [res_bind].
  eexists cm4, _, true, t'. split; [reflexivity|]. cbn [cm_heap set_candidates] in Eh4. split; [by rewrite Eh4|]. split; [apply Hrun4|]. split; [apply Hrun4|]. intros _.
  assert (below (cm_heap cm) t p bp t') as Hbel0 by (unfold below in *; by rewrite (aged_ancestor _ _ _ _ Ha), Ep1 in Hbel).
  assert (~ ancestor_of (cm_heap cm) t' p) as Hno.
  { destruct Hbel0 as [[_ Eb]|[Hno ->]]; [|done]. intros Hx'. assert (q = t') as -> by congruence. pose proof (Hl p bp Hp) as [_ Hb]. cbn in Hb. rewrite Eq in Hb.
    destruct Hb as (bq & Hbq & Hh). destruct (ancestor_height _ t' bq p bp Hl Hbq Hp Hx'). lia. }
  assert (ancestor_of (cm_heap cm) t t') as Htt' by (by rewrite <- (aged_ancestor _ _ _ _ Ha)).
  split; [|split; [|split; [|split; [|split]]]].
  - destruct Hrun4 as [? ? ? ? ? ?]. split; try done. by apply tip_reorganised_state.
  - rewrite Eh4. apply (branch_kept_clean (cm_heap cm)); [done| |intros y Hy; apply Hcl; by eapply ancestor_trans]. intros y b Hy Hb. apply Hkept; [by rewrite (aged_ancestor _ _ _ _ Ha)|].
    rewrite Hsame; [done|]. by intros ->.
  - eapply (indexed_aged cm2); [by rewrite Eh4| |done]. exact (InvalidChainFound_map _ _ _ _ E4).
  - by rewrite Eh4.
  - done.
  - exists bp2. rewrite Eh4. split; [done|by apply Hf2].
Qed.

(** C7. A block that the user rejects leaves the active chain and stays out: [InvalidateBlock] fails
    no assertion; when it succeeds the tip is the parent of the block, or the old tip when the
    block was not in the chain, and the candidates are complete for this tip, so that the best
    of the other branches is found.  A following [ActivateBestChain] terminates without failing
    an assertion, and the chain it activates does not contain the block; the rest of the node
    is at the tip of that chain. *)
Theorem invalidated_stays_out rewind cm n t p bp q blk : running cm n t t -> clean_branch (cm_heap cm) t -> indexed cm -> checked (cm_heap cm) ->
  cm_heap cm !! p = Some bp -> pprev bp = Some q ->
  exists cm' n' ok t', InvalidateBlock cm n p = Ok (cm', n', ok) /\ active cm' t' /\ aged (cm_heap cm) (cm_heap cm') /\
    (ok = true -> below (cm_heap cm) t p bp t' /\ complete cm' t' t' /\ tip_state n' (cm_heap cm') t' /\
      exists cm2 n2 ok2 news, ActivateBestChain rewind cm' n' blk = Ok (cm2, n2, ok2, news) /\
        (ok2 = true -> exists t2, active cm2 t2 /\ tip_state n2 (cm_heap cm2) t2 /\ ~ ancestor_of (cm_heap cm2) t2 p)).
Proof.
  intros Hrun Hcl Hx Hck Hp Eq. destruct (InvalidateBlock_spec cm n t p bp q Hrun Hcl Hx Hck Hp Eq) as (cm' & n' & ok & t' & E & Ha & Hi & Hact & Hok).
  exists cm', n', ok, t'. split; [done|]. split; [done|]. split; [done|]. intros ->. destruct (Hok eq_refl) as (Hrun' & Hcl' & _ & _ & Hbel & b' & Hb' & Hf).
  split; [done|]. split; [apply Hrun'|]. split; [apply Hrun'|].
  destruct (ActivateBestChain_spec rewind cm' n' t' blk Hrun' Hcl') as (cm2 & n2 & ok2 & news & t2 & E2 & _ & Hact2 & Ha2 & Hok2).
  exists cm2, n2, ok2, news. split; [done|]. intros ->. destruct (Hok2 eq_refl) as (Hst2 & Hcl2 & _). exists t2. split; [done|]. split; [done|].
  rewrite (aged_ancestor _ _ _ _ Ha2). intros Hanc. destruct (Hcl2 p Hanc) as (b & Hb & Hfb & _). congruence.
Qed.
End Invalidating.

(** The user rejects the tip 2 of the index of [Activation]; the branch of 7 replaces it. *)
Lemma demo_indexed : indexed demo_manager.
Proof. intros p b Hp. cbn in Hp. index_cases Hp; vm_compute; reflexivity. Qed.

Lemma demo_checked : checked demo_index.
Proof. intros p b Hp _. index_cases Hp; vm_compute; discriminate. Qed.

Lemma invalidated_stays_out_witness :
  exists cm' cm2 news t2, InvalidateBlock (Blk := unit) demo_manager 2%positive 2 = Ok (cm', 1%positive, true) /\
    ActivateBestChain (Blk := unit) None cm' 1%positive None = Ok (cm2, 7%positive, true, news) /\ active cm2 t2 /\ ~ ancestor_of (cm_heap cm2) t2 2.
Proof.
  destruct (invalidated_stays_out (Blk := unit) None demo_manager (2%positive : positive) 2 2 (demo_entry (Some 1%positive) 1 3 2) 1 None demo_running demo_clean demo_indexed demo_checked eq_refl eq_refl)
    as (cm' & n' & ok & t' & E & _ & _ & Hok).
  assert (match InvalidateBlock (Blk := unit) demo_manager (2%positive : positive) 2 with
          | Ok (cm, n, ok) => n = 1%positive /\ ok = true /\
              match ActivateBestChain (Blk := unit) None cm 1%positive None with Ok (_, n, ok, _) => n = 7%positive /\ ok = true | Err _ => False end
          | Err _ => False end) as Hr by (vm_compute; repeat split; reflexivity).
  rewrite E in Hr. destruct Hr as (-> & -> & Hr). destruct (Hok eq_refl) as (_ & _ & _ & cm2 & n2 & ok2 & news & E2 & Hok2). rewrite E2 in Hr. destruct Hr as [-> ->].
  destruct (Hok2 eq_refl) as (t2 & Hact & _ & Hno). exists cm', cm2, news, t2. split; [exact E|]. split; [exact E2|]. split; [exact Hact|exact Hno].
Defined.
