(* ===== verification/NewHeaders.v ===== *)
(** * New headers

    [AddToBlockIndex] gives a header that extends a known block its entry in the tree: skip
    pointer, chain work and the best header, and keeps the invariants of [IndexOps]. *)

From stdpp Require Import gmap.
From S2P Require Import Prelude ArithUint256 ArithUint256Props Chain Pow Transaction Block BestChain BestChainProps Activation IndexOps Invalidation.

(** ** An entry at a new address *)

Section Fresh.
Context (h : gmap positive CBlockIndex) (x : ptr) (b : CBlockIndex).
Context (Hlinks : links_ok h) (Hx : h !! x = None).

Lemma fresh_lookup p c : h !! p = Some c -> <[x := b]> h !! p = Some c.
Proof. intros Hp. apply insert_lookup_ne; [done|]. intros ->. congruence. Qed.

Lemma fresh_prev_n n p : is_Some (h !! p) -> prev_n (<[x := b]> h) n p = prev_n h n p.
Proof.
  revert p. induction n as [|n IH]; intros p [c Hp]; [done|]. cbn [prev_n]. rewrite Hp, (fresh_lookup p c Hp). cbn.
  destruct (Hlinks p c Hp) as [_ Hq]. destruct (pprev c) as [q|]; [|done]. destruct Hq as (bq & Hq & _). cbn. apply IH. by rewrite Hq.
Qed.

Lemma fresh_ancestor p q : is_Some (h !! p) -> ancestor_of (<[x := b]> h) p q <-> ancestor_of h p q.
Proof. intros Hp. unfold ancestor_of. split; intros [n Hn]; exists n; by rewrite fresh_prev_n in *. Qed.

Lemma fresh_branch p n : is_Some (h !! p) -> branch (<[x := b]> h) p n = branch h p n.
Proof. intros Hp. unfold branch. apply list_fmap_ext. intros i y _. by apply fresh_prev_n. Qed.

Lemma fresh_links q bq : pprev b = Some q -> h !! q = Some bq -> nHeight b = nHeight bq + 1 -> links_ok (<[x := b]> h).
Proof.
  intros Eq Hq Eh p c Hp. destruct (insert_cases _ _ _ _ _ Hp) as [[-> ->]|[Hne Hp']].
  - destruct (Hlinks q bq Hq) as [H0 _]. rewrite Eq. split; [lia|]. exists bq. split; [by apply fresh_lookup|done].
  - destruct (Hlinks p c Hp') as [H0 H1]. split; [done|]. destruct (pprev c) as [r|]; [|done]. destruct H1 as (br & Hr & Hh). exists br. split; [by apply fresh_lookup|done].
Qed.

Lemma fresh_skips : skips_ok h -> pskip b = None -> skips_ok (<[x := b]> h).
Proof.
  intros Hs Es p c Hp s Ec. destruct (insert_cases _ _ _ _ _ Hp) as [[-> ->]|[Hne Hp']]; [congruence|]. rewrite fresh_prev_n by done. by apply (Hs p c).
Qed.

Lemma fresh_worse p q : is_Some (h !! p) -> is_Some (h !! q) -> worse (<[x := b]> h) p q <-> worse h p q.
Proof. intros [c Hp] [d Hq]. unfold worse. by rewrite Hp, Hq, (fresh_lookup p c Hp), (fresh_lookup q d Hq). Qed.

Lemma fresh_excused t p : is_Some (h !! t) -> is_Some (h !! p) -> excused h t p -> excused (<[x := b]> h) t p.
Proof.
  intros Ht Hp [(c & Hc & Hf)|(q & c & Hpq & Htq & Hc & Hd)]; [left; exists c; split; [by apply fresh_lookup|done]|right].
  exists q, c. rewrite !fresh_ancestor by done. split; [done|]. split; [done|]. split; [by apply fresh_lookup|done].
Qed.

(** A header without transactions above a known block. *)
Lemma fresh_tree q bq : tree_ok h -> links_ok (<[x := b]> h) -> skips_ok (<[x := b]> h) -> pprev b = Some q -> h !! q = Some bq -> uint_ok (nChainWork b) -> work bq < work b ->
  0 <= nBits b < 2 ^ 32 -> nChainTx b = 0 -> tree_ok (<[x := b]> h).
Proof.
  intros [H1 H2 H3 H4 H5 H6 H7] Hl Hs Eq Hq Hw Hlt Hb Hn. split; [done|done| | | | |].
  - intros p c Hp. destruct (insert_cases _ _ _ _ _ Hp) as [[-> ->]|[Hne Hp']]; [done|exact (H3 p c Hp')].
  - intros p c Hp. destruct (insert_cases _ _ _ _ _ Hp) as [[-> ->]|[Hne Hp']]; [done|exact (H4 p c Hp')].
  - intros p c Hp r br Er Hr. destruct (insert_cases _ _ _ _ _ Hp) as [[-> ->]|[Hne Hp']].
    + assert (r = q) as -> by congruence. rewrite (fresh_lookup q bq Hq) in Hr. by injection Hr as <-.
    + destruct (H1 p c Hp') as [_ Hc]. rewrite Er in Hc. destruct Hc as (br' & Hr' & _). rewrite (fresh_lookup r br' Hr') in Hr. injection Hr as <-. by apply (H5 p c Hp' r br').
  - intros p c Hp r br Er Hr Hnc. destruct (insert_cases _ _ _ _ _ Hp) as [[-> ->]|[Hne Hp']]; [done|].
    destruct (H1 p c Hp') as [_ Hc]. rewrite Er in Hc. destruct Hc as (br' & Hr' & _). rewrite (fresh_lookup r br' Hr') in Hr. injection Hr as <-. by apply (H6 p c Hp' r br').
  - intros p r c d Hp Hr Ep Er. destruct (insert_cases _ _ _ _ _ Hp) as [[-> ->]|[Hne Hp']]; [congruence|]. destruct (insert_cases _ _ _ _ _ Hr) as [[-> ->]|[Hner Hr']]; [congruence|].
    by apply (H7 p r c d).
Qed.
End Fresh.

Lemma BuildSkip_shape h p b q h' : h !! p = Some b -> pprev b = Some q -> BuildSkip h p = Ok h' ->
  exists s, h' = <[p := with_pskip b s]> h /\ GetAncestor h q (GetSkipHeight (nHeight b)) = Ok s.
Proof.
  intros Hp Eq. unfold BuildSkip. rewrite (deref_Ok _ _ _ Hp). cbn [res_bind]. rewrite Eq. intros (s & Es & E)%res_bind_Ok. injection E as <-. by exists s.
Qed.

(** The skip pointer of an entry above [q] is set and leads to the ancestor at its skip height. *)
Definition skip_to (h : gmap positive CBlockIndex) (q : ptr) (b : CBlockIndex) : Prop :=
  exists s bs, pskip b = Some s /\ h !! s = Some bs /\ nHeight bs = GetSkipHeight (nHeight b) /\ ancestor_of h q s.

Lemma built_skip h x b q bq s : links_ok h -> h !! x = None -> links_ok (<[x := b]> h) -> skips_ok (<[x := b]> h) -> h !! q = Some bq -> nHeight b = nHeight bq + 1 ->
  GetAncestor (<[x := b]> h) q (GetSkipHeight (nHeight b)) = Ok s -> exists p bs, s = Some p /\ h !! p = Some bs /\ nHeight bs = GetSkipHeight (nHeight b) /\ ancestor_of h q p.
Proof.
  intros Hl Hx Hl' Hs' Hq Eh E. rewrite (GetAncestor_spec _ q bq _ Hl' Hs') in E by (by apply fresh_lookup). destruct (Hl q bq Hq) as [H0 _]. pose proof (GetSkipHeight_range (nHeight b) ltac:(lia)) as Hr.
  destruct (Z.leb_spec 0 (GetSkipHeight (nHeight b))); [|lia]. destruct (Z.leb_spec (GetSkipHeight (nHeight b)) (nHeight bq)); [|lia]. cbn [andb] in E. injection E as <-.
  rewrite (fresh_prev_n _ _ _ Hl Hx) by (by rewrite Hq). destruct (prev_n_total h (Z.to_nat (nHeight bq - GetSkipHeight (nHeight b))) q bq Hl Hq ltac:(lia)) as (p & bs & Ep & Hp & Hh).
  exists p, bs. split; [done|]. split; [done|]. split; [lia|by eexists].
Qed.

(** ** The invariants *)

(** [cm'] is [cm] with the entry [b] at [x]. *)
Record extended (cm cm' : chain_manager) (x : ptr) (b : CBlockIndex) : Prop := {
  xt_heap : cm_heap cm' = <[x := b]> (cm_heap cm);
  xt_map : mapBlockIndex cm' = <[phashBlock b := x]> (mapBlockIndex cm);
  xt_active : chainActive cm' = chainActive cm;
  xt_candidates : setBlockIndexCandidates cm' = setBlockIndexCandidates cm;
  xt_unlinked : mapBlocksUnlinked cm' = mapBlocksUnlinked cm;
  xt_invalid : pindexBestInvalid cm' = pindexBestInvalid cm;
  xt_sequence : nBlockSequenceId cm' = nBlockSequenceId cm;
  xt_warnings : cm_warnings cm' = cm_warnings cm
}.

Lemma linked_extended K cm cm' t x b : linked K cm t [] -> extended cm cm' x b -> cm_heap cm !! x = None -> tree_ok (<[x := b]> (cm_heap cm)) ->
  nTx b = 0 -> nChainTx b = 0 -> nStatus b = BLOCK_VALID_TREE -> 0 < K -> K * (nHeight b + 1) < 2 ^ 32 -> linked K cm' t [].
Proof.
  intros [Hi Hact Hcomp Htip Htv Hbd Hcn Hsq Hnx Hun Hwt Hqu] [X1 X2 X3 X4 X5 X6 X7 X8] Hx Htree Hn Hc Hst HK0 HK. pose proof (tree_links _ (ix_tree cm Hi)) as Hl.
  pose proof (fun p c => fresh_lookup (cm_heap cm) x b Hx p c) as Hfw. pose proof (counted_Some _ _ Htip) as Hts.
  destruct (Htree.(tree_links _) x b (lookup_insert_eq _ _ _)) as [Hh0 _]. cbn in Hh0.
  split; rewrite ?X1, ?X4, ?X5, ?X7; try done.
  - destruct Hi as [_ Im Ic Ii If1 If2]. split; rewrite ?X1, ?X2, ?X4, ?X6, ?X8; [done| | |by apply pointer_ok_insert..].
    + intros hsh p Hp. apply lookup_insert_is_Some'. apply lookup_insert_Some in Hp as [[_ <-]|[_ Hp]]; [by left|right; by eapply Im].
    + intros p Hp. destruct (Ic p Hp) as (c & Hc' & Hnc). exists c. split; [by apply Hfw|done].
  - destruct Hact as (bt & Hbt & E). exists bt. rewrite X1, X3, E. split; [by apply Hfw|]. by rewrite fresh_branch.
  - intros p c Hp Hnc Hw. rewrite X1 in Hp, Hw |- *. rewrite X4. destruct (insert_cases _ _ _ _ _ Hp) as [[-> ->]|[Hne Hp']]; [done|]. assert (is_Some (cm_heap cm !! p)) as Hps by done.
    rewrite fresh_worse in Hw by done. destruct (Hcomp p c Hp' Hnc Hw) as [|Hex]; [by left|right; by apply fresh_excused].
  - destruct Htip as (c & Hc' & Hnc). exists c. split; [by apply Hfw|done].
  - intros p c Hp. destruct (insert_cases _ _ _ _ _ Hp) as [[-> ->]|[Hne Hp']]; [rewrite Hst; vm_compute; split; [split|]; congruence|exact (Htv p c Hp')].
  - intros p c Hp. destruct (insert_cases _ _ _ _ _ Hp) as [[-> ->]|[Hne Hp']]; [rewrite Hn, Hc; nia|exact (Hbd p c Hp')].
  - intros p c Hp. destruct (insert_cases _ _ _ _ _ Hp) as [[-> ->]|[Hne Hp']]; [done|exact (Hcn p c Hp')].
  - intros p c Hp Hc'. destruct (insert_cases _ _ _ _ _ Hc') as [[-> ->]|[Hne Hp']]; [|by eapply Hsq]. destruct (ix_candidates cm Hi x Hp) as (c0 & Hc0 & _). congruence.
  - intros q y Hqy. destruct (Hun q y Hqy) as (c & Hy & Hc'). exists c. split; [by apply Hfw|done].
  - intros y c Hy Hny Hny0. destruct (insert_cases _ _ _ _ _ Hy) as [[-> ->]|[Hne Hy']]; [done|].
    destruct (Hwt y c Hy' Hny Hny0) as [[]%elem_of_nil|(q & bq & Eq & Hq & Hor)]. right. exists q, bq. rewrite X1, X5. split; [done|]. split; [by apply Hfw|done].
  - by intros y Hy%elem_of_nil.
Qed.

(** The best header has the most work of all entries. *)
Definition best_header (cm : chain_manager) : Prop :=
  exists p b, pindexBestHeader cm = Some p /\ cm_heap cm !! p = Some b /\ map_Forall (fun _ c => work c <= work b) (cm_heap cm).

(** The cache of blocks is the only thing that [check_prev_block] changes. *)
Lemma check_prev_block_shape cm a b : exists l, check_prev_block cm a b =
  {| cm_heap := cm_heap cm; mapBlockIndex := mapBlockIndex cm; chainActive := chainActive cm; gl_nChainHeight := gl_nChainHeight cm;
     setBlockIndexCandidates := setBlockIndexCandidates cm; mapBlocksUnlinked := mapBlocksUnlinked cm;
     pindexBestInvalid := pindexBestInvalid cm; pindexBestHeader := pindexBestHeader cm; setDirtyBlockIndex := setDirtyBlockIndex cm;
     nBlockSequenceId := nBlockSequenceId cm; cm_warnings := cm_warnings cm; m_BlockCacheMap := m_BlockCacheMap cm; m_UnlinkedMap := l |}.
Proof. unfold check_prev_block. destruct (negb _); [exists (m_UnlinkedMap cm); by destruct cm|]. destruct (existsb _ _); [exists (m_UnlinkedMap cm); by destruct cm|]. by eexists. Qed.

(** What [AddToBlockIndex] does for a new hash and a known parent [q]. *)
Lemma AddToBlockIndex_spec cm pnew hsh hdr q bq w : index_ok cm -> cm_heap cm !! pnew = None -> mapBlockIndex cm !! hsh = None ->
  mapBlockIndex cm !! h_hashPrevBlock hdr = Some q -> cm_heap cm !! q = Some bq -> pointer_ok (cm_heap cm) (pindexBestHeader cm) -> 0 <= h_nBits hdr < 2 ^ 32 ->
  GetBlockProof (h_nBits hdr) = Ok w -> 0 < lval w -> work bq + lval w < M256 ->
  exists cm' b, AddToBlockIndex cm pnew hsh hdr = Ok (pnew, cm') /\ extended cm cm' pnew b /\ tree_ok (<[pnew := b]> (cm_heap cm)) /\
    phashBlock b = hsh /\ pprev b = Some q /\ nHeight b = nHeight bq + 1 /\ work b = work bq + lval w /\ nTx b = 0 /\ nChainTx b = 0 /\ nStatus b = BLOCK_VALID_TREE /\
    skip_to (cm_heap cm) q b /\
    pindexBestHeader cm' = match pindexBestHeader cm with
                           | Some o => if match cm_heap cm !! o with Some bo => work bo <? work b | None => false end then Some pnew else Some o
                           | None => Some pnew
                           end.
Proof.
  intros Hi Hnew Hhsh Hprev Hq Hbest Hbits Hw Hw0 Hmax. assert (hsh <> h_hashPrevBlock hdr) as Hne by congruence. pose proof (ix_tree cm Hi) as Htree. pose proof (tree_links _ Htree) as Hl. unfold AddToBlockIndex. rewrite Hhsh.
  unfold link_index. cbn [cm_heap mapBlockIndex set_block_index]. rewrite lookup_insert_ne, Hprev by done.
  rewrite (deref_Ok _ q bq) by (by apply fresh_lookup). cbn [res_bind]. rewrite insert_insert_eq. set (b0 := with_prev (new_index hsh hdr) q (nHeight bq + 1)).
  assert (links_ok (<[pnew := b0]> (cm_heap cm))) as Hl0 by (by eapply (fresh_links _ _ _ Hl Hnew)).
  assert (skips_ok (<[pnew := b0]> (cm_heap cm))) as Hs0 by (apply (fresh_skips _ _ _ Hl Hnew); [apply Htree|done]).
  destruct (BuildSkip_ok _ pnew b0 Hl0 Hs0 (lookup_insert_eq _ _ _)) as (h1 & E1 & Hl1 & Hs1).
  destruct (BuildSkip_shape _ pnew b0 q h1 (lookup_insert_eq _ _ _) eq_refl E1) as (s & -> & Es). rewrite E1. cbn [res_bind]. rewrite insert_insert_eq in Hl1, Hs1 |- *.
  match goal with |- context [check_prev_block ?c ?a ?d] => destruct (check_prev_block_shape c a d) as [l ->] end. cbn [cm_heap mapBlockIndex pindexBestHeader set_heap set_block_index].
  rewrite (deref_Ok _ pnew _ (lookup_insert_eq _ _ _)). cbn [res_bind pprev with_pskip with_prev b0]. rewrite (deref_Ok _ q bq) by (by apply fresh_lookup). cbn [res_bind].
  unfold block_proof. cbn [nBits with_pskip with_prev new_index b0]. rewrite Hw. cbn [res_bind].
  destruct (GetBlockProof_correct (h_nBits hdr) Hbits) as (w' & Ew' & Hwok & _). assert (w' = w) as -> by congruence.
  destruct (uint_add_spec (nChainWork bq) w (tree_works _ Htree q bq Hq) Hwok) as [Hok Hv]. rewrite Z.mod_small in Hv by (pose proof (uint_ok_range _ (tree_works _ Htree q bq Hq)); unfold work in Hmax; lia).
  change (raise_validity BLOCK_VALID_TREE ?c) with (Ok (E := chain_fail) (with_status (fun _ => BLOCK_VALID_TREE) c)). cbn [res_bind cm_heap pindexBestHeader mapBlockIndex]. rewrite insert_insert_eq.
  set (b := with_status _ _). assert (tree_ok (<[pnew := b]> (cm_heap cm))) as Ht'.
  { assert (same_links (<[pnew := with_pskip b0 s]> (cm_heap cm)) (<[pnew := b]> (cm_heap cm))) as Hsl by (unfold same_links; by rewrite !fmap_insert).
    apply (fresh_tree _ pnew b Hnew q bq); try done; [by apply (same_links_ok _ _ Hsl)|by apply (same_links_skips _ _ Hsl)|]. change (work bq < lval (uint_add (nChainWork bq) w)). unfold work. lia. }
  assert (work b = work bq + lval w) as Ewb by exact Hv.
  assert (skip_to (cm_heap cm) q b) as Hskip by (destruct (built_skip _ _ _ _ _ _ Hl Hnew Hl0 Hs0 Hq eq_refl Es) as (r & br & -> & Hr & Hhr & Har); by exists r, br).
  destruct (pindexBestHeader cm) as [o|] eqn:Eo; cbn [res_bind].
  - destruct (Hbest o eq_refl) as [bo Ho]. rewrite (deref_Ok _ o bo) by (by apply fresh_lookup). cbn [res_bind]. eexists _, b. split; [done|].
    split; [by split|]. do 9 (split; [done|]). cbn [pindexBestHeader mark_dirty set_dirty set_block_index]. rewrite Ho.
    destruct (tree_works _ Htree o bo Ho) as [Ho1 Ho2]. destruct (tree_works _ Ht' pnew b (lookup_insert_eq _ _ _)) as [Hb1 Hb2]. rewrite CompareTo_spec by (try done; congruence).
    fold (work bo) (work b). unfold Z.ltb. by destruct (work bo ?= work b).
  - eexists _, b. split; [done|]. split; [by split|]. by do 9 (split; [done|]).
Qed.

(** The header is the best one, or the best one before. *)
Lemma best_header_extended cm cm' x b : extended cm cm' x b -> cm_heap cm !! x = None -> best_header cm ->
  pindexBestHeader cm' = match pindexBestHeader cm with
                         | Some o => if match cm_heap cm !! o with Some bo => work bo <? work b | None => false end then Some x else Some o
                         | None => Some x
                         end -> best_header cm'.
Proof.
  intros Hx Hn (p & bp & Ep & Hp & Hmax) E. rewrite Ep, Hp in E. unfold best_header. rewrite (xt_heap _ _ _ _ Hx), E. destruct (Z.ltb_spec (work bp) (work b)).
  - exists x, b. split; [done|]. rewrite lookup_insert_eq. split; [done|]. intros q c Hq. destruct (insert_cases _ _ _ _ _ Hq) as [[-> ->]|[_ Hq']]; [lia|]. specialize (Hmax q c Hq'). cbn in Hmax. lia.
  - exists p, bp. split; [done|]. split; [by apply fresh_lookup|]. intros q c Hq. destruct (insert_cases _ _ _ _ _ Hq) as [[-> ->]|[_ Hq']]; [lia|exact (Hmax q c Hq')].
Qed.

(** C15. A new header that extends a known block is added to the index: the call fails no assertion,
    the entry is one above its parent in the tree, its skip pointer is set and leads to its
    ancestor at [GetSkipHeight], its chain work
    is that of the parent plus the work of its own bits, without overflow, and the tree, the
    map of hashes, the candidates and the blocks that wait stay consistent.  The best header
    is again the entry with the most work.  A hash that is known gives its entry and changes
    nothing. *)
Theorem header_added K cm t pnew hsh hdr : linked K cm t [] -> indexed cm -> best_header cm ->
  (forall p, mapBlockIndex cm !! hsh = Some p -> AddToBlockIndex cm pnew hsh hdr = Ok (p, cm)) /\
  (forall q bq w, mapBlockIndex cm !! hsh = None -> cm_heap cm !! pnew = None -> mapBlockIndex cm !! h_hashPrevBlock hdr = Some q -> cm_heap cm !! q = Some bq ->
    0 <= h_nBits hdr < 2 ^ 32 -> GetBlockProof (h_nBits hdr) = Ok w -> 0 < lval w -> work bq + lval w < M256 -> 0 < K -> K * (nHeight bq + 2) < 2 ^ 32 ->
    exists cm' b, AddToBlockIndex cm pnew hsh hdr = Ok (pnew, cm') /\ cm_heap cm' = <[pnew := b]> (cm_heap cm) /\ mapBlockIndex cm' !! hsh = Some pnew /\
      pprev b = Some q /\ nHeight b = nHeight bq + 1 /\ skip_to (cm_heap cm) q b /\ work b = work bq + lval w /\ linked K cm' t [] /\ indexed cm' /\ best_header cm').
Proof.
  intros Hlk Hx Hbest. split; [intros p Hp; unfold AddToBlockIndex; by rewrite Hp|]. intros q bq w Hhsh Hnew Hprev Hq Hbits Hw Hw0 Hmax HK0 HK.
  destruct (AddToBlockIndex_spec cm pnew hsh hdr q bq w (lk_index _ _ _ _ Hlk) Hnew Hhsh Hprev Hq) as (cm' & b & E & Hext & Htree & H1 & H2 & H3 & H4 & H5 & H6 & H7 & H8 & H9); [|done..|].
  { destruct Hbest as (p & bp & -> & Hp & _). by intros ? [= <-]. }
  exists cm', b. split; [done|]. split; [apply Hext|]. split; [rewrite (xt_map _ _ _ _ Hext), H1; apply lookup_insert_eq|]. do 4 (split; [done|]).
  split; [eapply linked_extended; try done; rewrite H3; lia|]. split; [|by eapply best_header_extended].
  intros p c Hp. rewrite (xt_heap _ _ _ _ Hext) in Hp. rewrite (xt_map _ _ _ _ Hext). destruct (insert_cases _ _ _ _ _ Hp) as [[-> ->]|[Hne Hp']]; [apply lookup_insert_eq|].
  rewrite lookup_insert_ne; [by apply Hx|]. intros Eh. rewrite H1 in Eh. specialize (Hx p c Hp'). congruence.
Qed.

(** A header above entry 4 of the waiting blocks. *)
Definition next_header : CBlockHeader :=
  {| h_nVersion := 4; h_hashPrevBlock := [5]; h_hashMerkleRoot := []; h_hashFinalSaplingRoot := []; h_nTime := 0; h_nBits := 0x200f0f0f; h_nNonce := []; h_nSolution := [];
     h_sPastelID := []; h_prevMerkleRootSignature := [] |}.

Lemma waiting_indexed : indexed waiting_manager.
Proof. intros p b Hp. cbn in Hp. waiting_cases Hp; vm_compute; reflexivity. Qed.

Lemma waiting_best : best_header waiting_manager.
Proof. exists 4%positive. eexists. split; [reflexivity|]. split; [reflexivity|]. intros p b Hp. cbn in Hp. waiting_cases Hp; vm_compute; discriminate. Qed.

Lemma header_added_witness :
  exists cm' b w, AddToBlockIndex waiting_manager 5 [9] next_header = Ok (5%positive, cm') /\ cm_heap cm' !! 5%positive = Some b /\
    nHeight b = 4 /\ GetBlockProof 0x200f0f0f = Ok w /\ work b = 5 + lval w /\ linked 10 cm' 1 [] /\ best_header cm' /\ pindexBestHeader cm' = Some 5%positive.
Proof.
  destruct (GetBlockProof 0x200f0f0f) as [w|] eqn:Ew; [|vm_compute in Ew; discriminate]. assert (lval w = 17) as Ev by (vm_compute in Ew; injection Ew as <-; vm_compute; reflexivity).
  pose proof (proj2 (header_added 10 waiting_manager 1 5 [9] next_header waiting_linked waiting_indexed waiting_best) 4%positive (waiting_entry (Some 3%positive) 3 5 0 0 2) w) as Hadd.
  destruct Hadd as (cm' & b & E & Eh & _ & _ & Hh & _ & Hwk & Hlk & _ & Hbest);
    [vm_compute; reflexivity|vm_compute; reflexivity|vm_compute; reflexivity|vm_compute; reflexivity|cbn; lia|exact Ew|lia|rewrite Ev; vm_compute; reflexivity|lia|vm_compute; reflexivity|].
  assert (match AddToBlockIndex waiting_manager 5 [9] next_header with Ok (_, c) => pindexBestHeader c = Some 5%positive | Err _ => False end) as Hr by (vm_compute; reflexivity).
  rewrite E in Hr. exists cm', b, w. split; [exact E|]. split; [rewrite Eh; apply lookup_insert_eq|]. split; [exact Hh|]. split; [reflexivity|]. split; [exact Hwk|]. split; [exact Hlk|]. split; [exact Hbest|exact Hr].
Defined.
