(* ===== verification/BestChainNode.v ===== *)
(** * The best chain of a whole node

    The operations of [ChainTip] on coins and memory pool behind the interface that the
    activation of the best chain uses: what [ConnectTip], [DisconnectTip] and the removals
    after a reorganisation do becomes an instance of [TipOps], and the laws of [TipLaws] hold
    with the hash of the tip as the state.  What each move does to coins and pool is in
    [ChainTipProps]. *)

From stdpp Require Import gmap.
From S2P Require Import Prelude Script Interpreter InterpreterSafety Serialize Compressor Coins CoinsView Amount ArithUint256 ArithUint256Props Pow Upgrades Transaction Undo ChainState ChainStateProps SigHash TxChecks Mempool MempoolAccept MempoolChain Block Chain ChainTip ChainTipProps BestChain BestChainProps Activation.
Open Scope Z_scope.

Section Node.
Context `{CacheParams} `{Crypto} `{SigCrypto} `{SaplingVerifier} `{Secp256k1} {B : Type} `{!CCoinsView B} `{!ConnectEnv}.
Context (usage : CTransaction -> Z).

(** What a run meets outside: the disk, the verdict of the repeated checks of a block ([Some]
    when they fail, with whether the block is to be marked), whether a block that fails
    [CheckBlock] may have been corrupted on the disk, the environment of transactions
    that return to the pool, the times, and the initial block download. *)
Record surroundings := {
  su_disk : disk;
  su_recheck : ChainState.CBlock -> option bool;
  su_corrupt : ChainState.CBlock -> bool;
  su_env : CTransaction -> accept_env;
  su_tickets_erased : bool;
  su_expensive : bool;
  su_median_time : Z;
  su_adjusted_time : Z;
  su_IBD : bool
}.
Context (su : surroundings).

(** The node, what the coins use of the index entries, and the block files. *)
Record chain_node := {
  cn_node : node (B := B);
  cn_index : gmap ptr block_index;
  cn_blocks : gmap ptr ChainState.CBlock
}.
Definition set_node (c : chain_node) (n : node (B := B)) : chain_node := {| cn_node := n; cn_index := cn_index c; cn_blocks := cn_blocks c |}.

(** The status word after [ConnectBlock] has written the undo data and raised the validity. *)
Definition connected_status (s : Z) (idx idx' : block_index) : Z :=
  let s := match nUndoPos idx, nUndoPos idx' with None, Some _ => SetStatusFlag s BLOCK_HAVE_UNDO | _, _ => s end in
  let s := if activates_upgrade idx' then SetStatusFlag s BLOCK_ACTIVATES_UPGRADE else s in
  if valid_scripts idx' then match RaiseValidity s BLOCK_VALID_SCRIPTS with Some (_, s) => s | None => s end else s.

Definition node_connect (c : chain_node) (h : gmap positive CBlockIndex) (p : ptr) (blk : option ChainState.CBlock) (validate : bool) : chain_node * tip_verdict :=
  match h !! p, cn_index c !! p with
  | Some b, Some idx =>
      let block := match blk with Some blk => Some blk | None => cn_blocks c !! p end in
      match ConnectTip (cn_node c) (su_disk su) block idx (if validate then block ≫= su_recheck su else None) (su_expensive su) with
      | Ok (n, idx') => ({| cn_node := n; cn_index := <[p := idx']> (cn_index c); cn_blocks := cn_blocks c |}, TipConnected (connected_status (nStatus b) idx idx'))
      | Err (CheckFailed mark, n) => (set_node c n, TipInvalid true (negb mark))
      | Err (ConnectFailed (Rejected _ check_block_failed), n) => (set_node c n, TipInvalid false (match block with Some blk => su_corrupt su blk | None => false end))
      | Err (ConnectFailed (Rejected _ _), n) => (set_node c n, TipInvalid false false)
      | Err (_, n) => (set_node c n, TipError)
      end
  | _, _ => (c, TipError)
  end.

Definition node_disconnect (c : chain_node) (h : gmap positive CBlockIndex) (t : ptr) : chain_node * bool :=
  match DisconnectTip usage (su_env su) (cn_node c) (su_disk su) (cn_blocks c !! t) (cn_index c !! t) (su_tickets_erased su) false with
  | Ok n => (set_node c n, true)
  | Err (_, n) => (set_node c n, false)
  end.

(** [removeForReorg], when blocks were disconnected, and [removeWithoutBranchId]. *)
Definition node_reorganised (c : chain_node) (disconnected : bool) (nextHeight : Z) : chain_node :=
  let n := cn_node c in
  let r :=
    let? p := (if disconnected
               then removeForReorg (nd_pool n) (fun txid => (cache_GetCoins (nd_coins n) txid).1) 0 nextHeight STANDARD_LOCKTIME_VERIFY_FLAGS
                      (nextHeight - 1) (su_median_time su) (su_adjusted_time su)
               else Ok (nd_pool n)) in
    removeWithoutBranchId p (CurrentEpochBranchId nextHeight upgrades) in
  match r with Ok p => set_node c (set_pool n p) | Err _ => c end.

Definition node_flush (c : chain_node) : chain_node * bool :=
  match flush_chainstate (su_disk su) (cn_node c) with Ok n => (set_node c n, true) | Err (_, n) => (set_node c n, false) end.

#[export] Instance node_ops : TipOps chain_node ChainState.CBlock := {|
  blk_hash := block_hash;
  tip_connect := node_connect;
  tip_disconnect := node_disconnect;
  tip_reorganised := node_reorganised;
  tip_flush := node_flush;
  tip_IBD _ := su_IBD su
|}.

(** ** The laws *)

(** The node is at [t]: its tip is the block of [t], and it knows the entries. *)
Record node_at (c : chain_node) (h : gmap positive CBlockIndex) (t : ptr) : Prop := {
  at_tip : nd_tip (cn_node c) = phashBlock <$> h !! t;
  at_index : forall p b, h !! p = Some b -> exists idx, cn_index c !! p = Some idx /\ bi_hash idx = phashBlock b /\
    p_hash <$> ChainState.pprev idx = (Chain.pprev b ≫= fun q => phashBlock <$> h !! q)
}.

Lemma aged_hash h h' p : aged h h' -> phashBlock <$> h' !! p = phashBlock <$> h !! p.
Proof.
  intros [E _]. apply (f_equal (fun m => m !! p)) in E. rewrite !lookup_fmap in E. destruct (h !! p), (h' !! p); cbn in *; try done. injection E. intros. congruence.
Qed.

Lemma node_at_aged c h h' t : aged h h' -> node_at c h t -> node_at c h' t.
Proof.
  intros Ha [Ht Hx]. split; [by rewrite (aged_hash h h' t Ha)|]. intros p b' Hp. destruct (aged_lookup_back _ _ p b' Ha Hp) as (b & s & Hb & -> & _).
  destruct (Hx p b Hb) as (idx & E1 & E2 & E3). exists idx. split; [done|]. split; [done|]. rewrite E3. cbn. destruct (Chain.pprev b) as [q|]; [|done]. cbn. by rewrite (aged_hash h h' q Ha).
Qed.

Lemma status_flags s f m : m = BLOCK_FAILED_MASK \/ m = BLOCK_HAVE_DATA -> f = BLOCK_HAVE_UNDO \/ f = BLOCK_ACTIVATES_UPGRADE -> Z.land (SetStatusFlag s f) m = Z.land s m.
Proof. intros [->| ->] [->| ->]; by apply flag_other. Qed.

Lemma connected_status_flags s idx idx' m : m = BLOCK_FAILED_MASK \/ m = BLOCK_HAVE_DATA -> Z.land (connected_status s idx idx') m = Z.land s m.
Proof.
  intros Hm. unfold connected_status. set (s1 := match nUndoPos idx with Some _ => _ | None => _ end). set (s2 := if activates_upgrade idx' then _ else s1).
  assert (Z.land s1 m = Z.land s m) as E1 by (unfold s1; destruct (nUndoPos idx), (nUndoPos idx'); try done; apply status_flags; auto).
  assert (Z.land s2 m = Z.land s m) as E2 by (unfold s2; destruct (activates_upgrade idx'); [rewrite status_flags by auto|]; done).
  destruct (valid_scripts idx'); [|done]. unfold RaiseValidity. change (Z.land BLOCK_VALID_SCRIPTS _ =? 0) with true. cbn [negb]. destruct (negb _); [done|]. destruct (_ <? _); [|done].
  rewrite Z.land_lor_distr_l, <- Z.land_assoc. rewrite <- E2. by destruct Hm as [->| ->]; rewrite Z.lor_0_r.
Qed.

(** [ConnectBlock] does not change whose entry it is. *)
Lemma write_undo_entry idx u file idx' file' : write_undo idx u file = Ok (idx', file') -> bi_hash idx' = bi_hash idx /\ ChainState.pprev idx' = ChainState.pprev idx.
Proof.
  unfold write_undo. destruct (negb _); [by intros [= <- _]|]. intros ([idx1 f1] & E1 & E2)%res_bind_Ok.
  assert (bi_hash idx1 = bi_hash idx /\ ChainState.pprev idx1 = ChainState.pprev idx) as [F1 F2].
  { destruct (nUndoPos idx); [by injection E1 as <- _|]. destruct (block_undo_Serialize u); [|done]. destruct (FindUndoPos _); [|done].
    destruct (ChainState.pprev idx) eqn:Ep; [|injection E1 as <- _; done]. destruct (UndoWriteToDisk _ _ _ _ _) as [[[]|]|]; try done. injection E1 as <- _. done. }
  cbn [fst snd] in E2. destruct (IsActivationHeightForAnyUpgrade _ _); injection E2 as <- _; done.
Qed.

Lemma ConnectBlock_entry {V : Type} `{!CCoinsView V} block idx (v : CCoinsViewCache V) file fe c' idx' file' :
  ConnectBlock block idx v file fe false = Ok (c', idx', file') -> bi_hash idx' = bi_hash idx /\ ChainState.pprev idx' = ChainState.pprev idx.
Proof.
  intros E. unfold ConnectBlock in E. res_inv E; try (injection E as _ <- _; done).
  match goal with Hw : write_undo _ _ _ = Ok ?r |- _ => destruct r; apply write_undo_entry in Hw; by injection E as _ <- _ end.
Qed.

(** Whatever fails, the tip of the node stays. *)
Lemma flush_chainstate_tip d n : match flush_chainstate d n with Ok n' => nd_tip n' = nd_tip n | Err (f, n') => nd_tip n' = nd_tip (B := B) n /\ f = DiskFailed end.
Proof. unfold flush_chainstate. destruct (negb _); [done|]. destruct (dk_flush_coins d); [|done]. by destruct (Flush (nd_coins n)). Qed.

Lemma ConnectTip_tip n d block idx v fe :
  match ConnectTip n d block idx v fe with
  | Ok (n', idx') => nd_tip n' = Some (bi_hash idx) /\ bi_hash idx' = bi_hash idx /\ ChainState.pprev idx' = ChainState.pprev idx
  | Err (f, n') => nd_tip n' = nd_tip (B := B) n /\ forall mark, f = CheckFailed mark -> v = Some mark
  end.
Proof.
  unfold ConnectTip. destruct (negb _); [done|]. destruct block as [block|]; [|done]. destruct v as [mark|]; [split; [done|by intros ? [= ->]]|].
  destruct (best_tree n (nd_coins n)) as [c|[f n0]] eqn:Eb; cbn [res_bind].
  2:{ unfold best_tree in Eb. destruct (cache_GetBestAnchor _ _). destruct (cache_GetAnchorAt _ _ _) as [[]]; [done|]. by injection Eb as <- <-. }
  destruct (ConnectBlock _ _ _ _ _ _) as [[[view idx'] file]|e] eqn:Ec; cbn [or_tip res_bind]; [|done]. apply ConnectBlock_entry in Ec as [Eh Ep].
  destruct (Flush view) as [view'|]; cbn [or_tip res_bind]; [|done].
  match goal with |- context [flush_chainstate d ?m] => pose proof (flush_chainstate_tip d m) as Hf; destruct (flush_chainstate d m) as [n1|[f n1]] end; cbn [res_bind]; [|destruct Hf as [Hf ->]; by split].
  destruct (removeForBlock _ _ _) as [r|]; cbn [or_tip res_bind]; [|done]. destruct (removeExpired _ _) as [p|]; cbn [or_tip res_bind]; [|done]. cbn. by rewrite Eh.
Qed.

Lemma DisconnectTip_tip n d block idx tickets n' : DisconnectTip usage (su_env su) n d block (Some idx) tickets false = Ok n' ->
  nd_tip n' = p_hash <$> ChainState.pprev idx.
Proof.
  unfold DisconnectTip. destruct block as [block|]; [|done]. destruct (cache_GetBestAnchor _ _) as [sb c1]. destruct (cache_GetBestAnchor _ _) as [pb c2].
  intros ([r view] & _ & E)%res_bind_Ok. destruct r; [|done..]. apply res_bind_Ok in E as (view' & _ & E). destruct (cache_GetBestAnchor _ _) as [sa c3]. destruct (cache_GetBestAnchor _ _) as [pa c4].
  apply res_bind_Ok in E as (n1 & _ & E). destruct (negb tickets); [done|]. apply res_bind_Ok in E as (n2 & _ & E). apply res_bind_Ok in E as (c & _ & E). by injection E as <-.
Qed.

(** Stored blocks are intact: no failed check suspects corruption. *)
Definition intact : Prop := forall blk, su_corrupt su blk = false /\ su_recheck su blk <> Some false.

Lemma node_connect_law n h t p b blk v n' r : intact -> tree_ok h -> node_at n h t -> h !! p = Some b -> Chain.pprev b = Some t -> node_connect n h p blk v = (n', r) ->
  match r with
  | TipConnected s => node_at n' h p /\ failed (with_status (fun _ => s) b) = failed b /\ have_data (with_status (fun _ => s) b) = have_data b
  | TipInvalid _ corrupt => corrupt = false /\ node_at n' h t
  | TipError => True
  end.
Proof.
  intros Hin _ [Htip Hidx] Hp Ep E. unfold node_connect in E. rewrite Hp in E. destruct (Hidx p b Hp) as (idx & Ei & Eh & Epi). rewrite Ei in E.
  set (block := match blk with Some blk => Some blk | None => _ end) in E. set (vd := if v then _ else None) in E.
  pose proof (ConnectTip_tip (cn_node n) (su_disk su) block idx vd (su_expensive su)) as Hc.
  assert (forall m, nd_tip m = nd_tip (cn_node n) -> node_at (set_node n m) h t) as Hkeep by (intros m Em; split; [by rewrite <- Htip|done]).
  destruct (ConnectTip _ _ _ _ _ _) as [[m idx']|[f m]] eqn:Ec.
  - injection E as <- <-. destruct Hc as (Et & Eh' & Ep'). split.
    + split; [by rewrite Hp; cbn; rewrite Et, Eh|]. intros q c Hq. cbn. destruct (decide (p = q)) as [<-|Hne]; [|rewrite lookup_insert_ne by done; by apply Hidx].
      exists idx'. rewrite lookup_insert_eq. assert (c = b) as -> by congruence. split; [done|]. rewrite Eh', Ep'. done.
    + unfold failed, have_data, has_flag. cbn [nStatus with_status]. rewrite !connected_status_flags by auto. done.
  - assert (vd <> Some false) as Hvd by (unfold vd; destruct v; [|done]; destruct block as [k|]; cbn; [apply Hin|done]).
    destruct f as [|mark|e| | | | |]; try (by injection E as <- <-).
    + injection E as <- <-. assert (vd = Some mark) as Ev by (by apply Hc). destruct mark; [|by rewrite Ev in Hvd]. split; [done|by apply Hkeep, Hc].
    + destruct e as [dos reason| | |]; try (by injection E as <- <-). destruct reason; injection E as <- <-; (split; [|by apply Hkeep, Hc]); try done. destruct block as [k|]; [apply Hin|done].
Qed.

Lemma node_disconnect_law n h t b q n' : node_at n h t -> h !! t = Some b -> Chain.pprev b = Some q -> node_disconnect n h t = (n', true) -> node_at n' h q.
Proof.
  intros [Htip Hidx] Ht Eq E. unfold node_disconnect in E. destruct (Hidx t b Ht) as (idx & Ei & _ & Ep). rewrite Ei in E.
  destruct (DisconnectTip _ _ _ _ _ _ _ _) as [m|[f m]] eqn:Ed; [|done]. injection E as <-. split; [|done]. cbn. rewrite (DisconnectTip_tip _ _ _ _ _ _ Ed), Ep, Eq. done.
Qed.

Lemma node_reorganised_law n h t d k : node_at n h t -> node_at (node_reorganised n d k) h t.
Proof. intros [H1' H2']. unfold node_reorganised. destruct (res_bind _ _); by split. Qed.

Lemma node_flush_law n h t : node_at n h t -> node_at (node_flush n).1 h t.
Proof.
  intros [H1' H2']. unfold node_flush. pose proof (flush_chainstate_tip (su_disk su) (cn_node n)) as Hf. destruct (flush_chainstate _ _) as [m|[f m]]; cbn; (split; [|done]); cbn; [by rewrite Hf|by rewrite (proj1 Hf)].
Qed.

(** The node keeps the laws on which the activation of the best chain relies. *)
Program Definition node_laws (Hin : intact) : TipLaws chain_node ChainState.CBlock := {| tip_state := node_at |}.
Next Obligation. intros _ c h h' t. apply node_at_aged. Qed.
Next Obligation. intros Hin n h t p b blk v n' r Htree Hat Hp Ep E. by eapply node_connect_law. Qed.
Next Obligation. intros _ n h t b q n' _. apply node_disconnect_law. Qed.
Next Obligation. intros _ n h t d k. apply node_reorganised_law. Qed.
Next Obligation. intros _ n h t. apply node_flush_law. Qed.

(** The tip recorded with coins and memory pool follows the block index: when the node of [ChainTip] is at the tip of
    the active chain and stored blocks are intact, [ActivateBestChain] over the real
    [ConnectTip] and [DisconnectTip] terminates without failing an assertion of the index;
    when it succeeds, the tip of the node is the block at the tip of the active chain, all
    blocks of that chain could be connected, and if no block has failed on the way no branch
    that can be connected has more work. *)
Theorem node_follows_chain rewind cm c t blk : intact -> index_ok cm -> active cm t -> node_at c (cm_heap cm) t -> complete cm t t -> counted (cm_heap cm) t -> clean_branch (cm_heap cm) t ->
  exists cm' c' ok news t', ActivateBestChain rewind cm c blk = Ok (cm', c', ok, news) /\ index_ok cm' /\ active cm' t' /\
    (ok = true -> nd_tip (cn_node c') = phashBlock <$> cm_heap cm' !! t' /\ clean_branch (cm_heap cm) t' /\
      (flags_kept (cm_heap cm) (cm_heap cm') -> best_tip cm' t')).
Proof.
  intros Hin Hi Hact Hat Hcomp Hcnt Hcl. pose (laws := node_laws Hin). assert (running (TipLaws0 := laws) cm c t t) as Hrun by (by split).
  destruct (ActivateBestChain_spec (TipLaws0 := laws) rewind cm c t blk Hrun Hcl) as (cm' & c' & ok & news & t' & E & Hi' & Hact' & Ha & Hok).
  exists cm', c', ok, news, t'. do 3 (split; [done|]). intros ->. destruct (Hok eq_refl) as (Hst & Hcl' & r & _ & _ & _ & Hu & Hbest).
  split; [apply Hst|]. split; [done|]. intros Hk. apply Hbest, Hu, Hk.
Qed.
End Node.

(** ** A node that connects a block

    The node of [ChainTipProps] at block [7], with the block [9] on top of it in the index. *)

#[local] Existing Instance block_params.
#[local] Existing Instance block_params_laws.
#[local] Existing Instance demo_env.
#[local] Existing Instance pool_sig_crypto.
#[local] Existing Instance pool_verifier.

Definition calm : surroundings :=
  {| su_disk := good_disk; su_recheck _ := None; su_corrupt _ := false; su_env _ := demo_accept; su_tickets_erased := true; su_expensive := true;
     su_median_time := 0; su_adjusted_time := 0; su_IBD := false |}.
Definition prev_entry : block_index :=
  {| bi_hash := [7]; bi_nHeight := 200000; ChainState.pprev := None; hashSproutAnchor := []; hashFinalSproutRoot := []; nUndoPos := None; valid_scripts := true;
     activates_upgrade := false; nCachedBranchId := None |}.
Definition demo_node : chain_node (B := CCoinsViewDB) :=
  {| cn_node := start_node; cn_index := <[1%positive := prev_entry]> (<[2%positive := ChainStateProps.demo_index]> ∅); cn_blocks := <[2%positive := ChainStateProps.demo_block]> ∅ |}.
Definition node_entry (hsh : bytes) (prev : option ptr) (height work : Z) : CBlockIndex :=
  {| phashBlock := hsh; Chain.pprev := prev; pskip := None; Chain.nHeight := height; nTime := 0; nBits := 0; nChainWork := uint_of_u64 work;
     nTx := 1; nChainTx := height + 1; nStatus := 11; nSequenceId := work; nSproutValue := None; nChainSproutValue := None; nSaplingValue := 0; nChainSaplingValue := None |}.
Definition node_index : gmap positive CBlockIndex := <[1%positive := node_entry [7] None 0 1]> (<[2%positive := node_entry [9] (Some 1%positive) 1 2]> ∅).
Definition node_manager : chain_manager := {|
  cm_heap := node_index; mapBlockIndex := ∅; chainActive := [Some 1%positive]; gl_nChainHeight := 0;
  setBlockIndexCandidates := {[1%positive; 2%positive]}; mapBlocksUnlinked := []; pindexBestInvalid := None; pindexBestHeader := None;
  setDirtyBlockIndex := ∅; nBlockSequenceId := 3;
  cm_warnings := {| pindexBestForkTip := None; pindexBestForkBase := None; fLargeWorkForkFound := false; fLargeWorkInvalidChainFound := false |};
  m_BlockCacheMap := ∅; m_UnlinkedMap := []
|}.

Ltac node_cases Hp :=
  unfold node_index in Hp; repeat (apply lookup_insert_Some in Hp as [[<- <-]|[_ Hp]]); [..|by rewrite lookup_empty in Hp].

Lemma node_tree : tree_ok node_index.
Proof.
  split.
  - intros p b Hp. node_cases Hp; cbn; (split; [lia|]); try done; eexists; (split; [reflexivity|done]).
  - intros p b Hp. node_cases Hp; cbn; done.
  - intros p b Hp. node_cases Hp; cbn [nChainWork node_entry]; by apply uint_of_u64_spec.
  - intros p b Hp. node_cases Hp; cbn; lia.
  - intros p b Hp q bq Eq Hq. node_cases Hp; cbn in Eq; try done; injection Eq as <-; injection Hq as <-; vm_compute; done.
  - intros p b Hp q bq Eq Hq. node_cases Hp; cbn in Eq; try done; injection Eq as <-; injection Hq as <-; intros _; vm_compute; discriminate.
  - intros p q b c Hp Hq E1 E2. node_cases Hp; cbn in E1; try done; node_cases Hq; cbn in E2; done.
Qed.

Lemma node_follows_chain_witness :
  exists cm' c' news t', ActivateBestChain (TipOps0 := node_ops (fun _ => 0) calm) None node_manager demo_node None = Ok (cm', c', true, news) /\ active cm' t' /\
    nd_tip (cn_node c') = phashBlock <$> cm_heap cm' !! t' /\ nd_tip (cn_node c') = Some [9].
Proof.
  assert (forall p, p ∈ setBlockIndexCandidates node_manager -> p = 1%positive \/ p = 2%positive) as Hc by (intros p [->%elem_of_singleton| ->%elem_of_singleton]%elem_of_union; auto).
  assert (index_ok node_manager) as Hi.
  { split; [exact node_tree|done| |done|done|done]. intros p Hp. destruct (Hc p Hp) as [->| ->]; eexists; (split; [reflexivity|done]). }
  assert (node_at demo_node node_index 1) as Hat.
  { split; [reflexivity|]. intros p b Hp. node_cases Hp; eexists; (split; [reflexivity|]); by split. }
  assert (complete node_manager 1 1) as Hcomp.
  { intros p b Hp _ _. left. cbn in Hp. node_cases Hp; apply (bool_decide_unpack _); vm_compute; exact I. }
  assert (clean_branch node_index 1) as Hcl by (intros q [[|n] Hn]; [injection Hn as <-|done]; (eexists; split; [reflexivity|]; split; reflexivity)).
  destruct (node_follows_chain (fun _ => 0) calm None node_manager demo_node 1 None) as (cm' & c' & ok & news & t' & E & _ & Hact & Hok);
    [by intros blk; split|exact Hi|eexists; split; [reflexivity|vm_compute; reflexivity]|exact Hat|exact Hcomp|eexists; split; [reflexivity|done]|exact Hcl|].
  assert (match ActivateBestChain (TipOps0 := node_ops (fun _ => 0) calm) None node_manager demo_node None with
          | Ok (_, c, ok, _) => nd_tip (cn_node c) = Some [9] /\ ok = true | Err _ => False end) as Hr by (vm_compute; split; reflexivity).
  rewrite E in Hr. destruct Hr as [Ht ->]. destruct (Hok eq_refl) as [Htip _]. exists cm', c', news, t'. split; [exact E|]. split; [exact Hact|]. split; [exact Htip|exact Ht].
Defined.
