(* ===== verification/Equihash.v ===== *)
(** * The Equihash proof of work

    [crypto/equihash.h], [crypto/equihash.cpp] and [crypto/equihash.tcc]: the packing of indices
    and hashes into bit strings, the rows of the collision table and the verifier
    [IsValidSolution]; [CheckEquihashSolution] of [mining/pow.cpp] runs it on a block header.

    The template parameters [N] and [K] are section variables.  A row is a byte array of fixed
    width whose unused end is not initialised ([uninit]).  BLAKE2b is a parameter: the
    personalization, the data written so far and the length of the digest. *)

From stdpp Require Import list.
From S2P Require Import Prelude Serialize Transaction Block.

(** A failed assertion, an access outside an array, an exception (unsupported parameters or a
    header that cannot be written), a loop that outlasts its fuel, a solver that was cancelled, or
    a table whose positions do not fit an [int]. *)
Inductive eh_fail : Set := eh_assert | eh_bounds | eh_threw | eh_loop | eh_cancelled | eh_int.

(** ** Arrays *)

(** [copy(data, out + pos)] *)
Definition copy_at (out : bytes) (pos : nat) (data : bytes) : res eh_fail bytes :=
  if (length out <? pos + length data)%nat then Err eh_bounds
  else Ok (take pos out ++ data ++ drop (pos + length data) out).

(** [memcmp(a, b, len) < 0] for arrays of the same length. *)
Fixpoint memcmp_lt (a b : bytes) : bool :=
  match a, b with
  | x :: a, y :: b => if x <? y then true else if y <? x then false else memcmp_lt a b
  | _, _ => false
  end.

Definition sub_array (a : bytes) (pos len : nat) : bytes := take len (drop pos a).

(** ** Bit strings *)

Definition bit_len_mask (bit_len : nat) : Z := u32 (Z.shiftl 1 (Z.of_nat bit_len)) - 1.

(** The loop over the input; the accumulator is an [uint32_t]. *)
Fixpoint ExpandArray_loop (bit_len byte_pad out_width : nat) (acc_bits : nat) (acc_value : Z) (inp : bytes) : bytes :=
  match inp with
  | [] => []
  | b :: inp =>
      let acc_value := Z.lor (u32 (Z.shiftl acc_value 8)) b in
      let acc_bits := (acc_bits + 8)%nat in
      if (bit_len <=? acc_bits)%nat then
        let acc_bits := (acc_bits - bit_len)%nat in
        replicate byte_pad 0 ++
        map (fun x => Z.land (Z.shiftr acc_value (Z.of_nat (acc_bits + 8 * (out_width - x - 1))))
                             (Z.land (Z.shiftr (bit_len_mask bit_len) (Z.of_nat (8 * (out_width - x - 1)))) 255)) (seq byte_pad (out_width - byte_pad)) ++
        ExpandArray_loop bit_len byte_pad out_width acc_bits acc_value inp
      else ExpandArray_loop bit_len byte_pad out_width acc_bits acc_value inp
  end.

Definition ExpandArray (inp out : bytes) (bit_len byte_pad : nat) : res eh_fail bytes :=
  if negb (8 <=? bit_len)%nat then Err eh_assert
  else if negb (7 + bit_len <=? 32)%nat then Err eh_assert
  else
    let out_width := ((bit_len + 7) / 8 + byte_pad)%nat in
    if negb (length out =? 8 * out_width * length inp / bit_len)%nat then Err eh_assert
    else copy_at out 0 (ExpandArray_loop bit_len byte_pad out_width 0 0 inp).

(** One element of the input, its bits above [bit_len] cleared. *)
Definition compress_element (bit_len byte_pad in_width : nat) (element : bytes) (acc_value : Z) : Z :=
  foldl (fun acc x =>
      Z.lor acc (u32 (Z.shiftl (Z.land (nth x element 0) (Z.land (Z.shiftr (bit_len_mask bit_len) (Z.of_nat (8 * (in_width - x - 1)))) 255))
                               (Z.of_nat (8 * (in_width - x - 1))))))
    (u32 (Z.shiftl acc_value (Z.of_nat bit_len))) (seq byte_pad (in_width - byte_pad)).

(** The loop over [n] bytes of the output. *)
Fixpoint CompressArray_loop (n : nat) (bit_len byte_pad in_width : nat) (acc_bits : nat) (acc_value : Z) (inp : bytes) : res eh_fail bytes :=
  match n with
  | O => Ok []
  | S n =>
      let? st := (if (acc_bits <? 8)%nat then
                    if (length inp <? in_width)%nat then Err eh_bounds
                    else Ok ((acc_bits + bit_len)%nat, compress_element bit_len byte_pad in_width (take in_width inp) acc_value, drop in_width inp)
                  else Ok (acc_bits, acc_value, inp)) in
      let '(acc_bits, acc_value, inp) := st in
      let acc_bits := (acc_bits - 8)%nat in
      let? out := CompressArray_loop n bit_len byte_pad in_width acc_bits acc_value inp in
      Ok (Z.land (Z.shiftr acc_value (Z.of_nat acc_bits)) 255 :: out)
  end.

Definition CompressArray (inp out : bytes) (bit_len byte_pad : nat) : res eh_fail bytes :=
  if negb (8 <=? bit_len)%nat then Err eh_assert
  else if negb (7 + bit_len <=? 32)%nat then Err eh_assert
  else
    let in_width := ((bit_len + 7) / 8 + byte_pad)%nat in
    if negb (length out =? bit_len * length inp / (8 * in_width))%nat then Err eh_assert
    else CompressArray_loop (length out) bit_len byte_pad in_width 0 0 inp.

(** ** Indices *)

(** [htobe32], [be32toh] *)
Definition EhIndexToArray (i : Z) : bytes := rev (le_bytes 4 i).
Definition ArrayToEhIndex (array : bytes) : Z := le_val (rev (take 4 array)).

Fixpoint read_indices (n : nat) (array : bytes) : list Z :=
  match n with O => [] | S n => ArrayToEhIndex array :: read_indices n (drop 4 array) end.

Definition GetIndicesFromMinimal (minimal : bytes) (cBitLen : nat) : res eh_fail (list Z) :=
  if negb ((cBitLen + 1 + 7) / 8 <=? 4)%nat then Err eh_assert
  else
    let lenIndices := (8 * 4 * length minimal / (cBitLen + 1))%nat in
    let bytePad := (4 - (cBitLen + 1 + 7) / 8)%nat in
    let? array := ExpandArray minimal (replicate lenIndices 0) (cBitLen + 1) bytePad in
    if negb (lenIndices mod 4 =? 0)%nat then Err eh_bounds   (* the last index would be read past the end *)
    else Ok (read_indices (lenIndices / 4) array).

Definition GetMinimalFromIndices (indices : list Z) (cBitLen : nat) : res eh_fail bytes :=
  if negb ((cBitLen + 1 + 7) / 8 <=? 4)%nat then Err eh_assert
  else
    let lenIndices := (length indices * 4)%nat in
    let minLen := ((cBitLen + 1) * lenIndices / (8 * 4))%nat in
    let bytePad := (4 - (cBitLen + 1 + 7) / 8)%nat in
    CompressArray (concat (map EhIndexToArray indices)) (replicate minLen 0) (cBitLen + 1) bytePad.

(** ** Rows *)

Section Equihash.
Context (N K : nat).
Context (blake2b : bytes -> bytes -> nat -> bytes).   (* personalization, data, length *)
Context (uninit : bytes).

Definition ProofSize : nat := 2 ^ K.
Definition IndicesPerHashOutput : nat := 512 / N.
Definition HashOutput : nat := IndicesPerHashOutput * N / 8.
Definition CollisionBitLength : nat := N / (K + 1).
Definition CollisionByteLength : nat := (CollisionBitLength + 7) / 8.
Definition HashLength : nat := (K + 1) * CollisionByteLength.
Definition FinalFullWidth : nat := 2 * CollisionByteLength + 4 * ProofSize.
Definition SolutionWidth : nat := ProofSize * (CollisionBitLength + 1) / 8.

(** [eh_HashState]: the personalization, and the data so far. *)
Record eh_HashState := { st_personal : bytes; st_data : bytes }.

Definition InitialiseState : eh_HashState :=
  {| st_personal := map Z.of_nat [90; 99; 97; 115; 104; 80; 111; 87]%nat ++ le_bytes 4 (Z.of_nat N) ++ le_bytes 4 (Z.of_nat K); st_data := [] |}.

Definition GenerateHash (base_state : eh_HashState) (g : Z) (hLen : nat) : bytes :=
  blake2b (st_personal base_state) (st_data base_state ++ le_bytes 4 g) hLen.

Definition StepRow (hashIn : bytes) (hLen cBitLen : nat) : res eh_fail bytes :=
  if negb (hLen <=? length uninit)%nat then Err eh_assert
  else
    let? h := ExpandArray hashIn (take hLen uninit) cBitLen 0 in
    copy_at uninit 0 h.

(** [FullStepRow(hashIn, hInLen, hLen, cBitLen, i)] *)
Definition FullStepRow (hashIn : bytes) (hLen cBitLen : nat) (i : Z) : res eh_fail bytes :=
  let? row := StepRow hashIn hLen cBitLen in
  copy_at row hLen (EhIndexToArray i).

Definition IndicesBefore (a b : bytes) (len lenIndices : nat) : bool := memcmp_lt (sub_array a len lenIndices) (sub_array b len lenIndices).

Definition xor_bytes (a b : bytes) : bytes := zip_with Z.lxor a b.

(** [FullStepRow(a, b, len, lenIndices, trim)]: [a] is copied into the new row first. *)
Definition merge_rows (a b : bytes) (len lenIndices trim : nat) : res eh_fail bytes :=
  let? row := copy_at uninit 0 a in
  if negb (len + lenIndices <=? length a)%nat then Err eh_assert
  else if negb (len - trim + 2 * lenIndices <=? length row)%nat then Err eh_assert
  else
    let? row := copy_at row 0 (xor_bytes (sub_array a trim (len - trim)) (sub_array b trim (len - trim))) in
    let first := if IndicesBefore a b len lenIndices then a else b in
    let second := if IndicesBefore a b len lenIndices then b else a in
    let? row := copy_at row (len - trim) (sub_array first len lenIndices) in
    copy_at row (len - trim + lenIndices) (sub_array second len lenIndices).

Definition IsZero (row : bytes) (len : nat) : bool := forallb (fun b => b =? 0) (take len row).
Definition HasCollision (a b : bytes) (l : nat) : bool := bool_decide (take l a = take l b).

(** [DistinctIndices], on the indices as groups of four bytes. *)
Fixpoint groups (n : nat) (a : bytes) : list bytes := match n with O => [] | S n => take 4 a :: groups n (drop 4 a) end.
Definition DistinctIndices (a b : bytes) (len lenIndices : nat) : bool :=
  let l := groups (lenIndices / 4) (sub_array a len lenIndices) in
  let r := groups (lenIndices / 4) (sub_array b len lenIndices) in
  forallb (fun x => forallb (fun y => negb (bool_decide (x = y))) r) l.

(** ** The verifier *)

(** The row of an index. *)
Definition index_row (base_state : eh_HashState) (i : Z) : res eh_fail bytes :=
  let tmpHash := GenerateHash base_state (i / Z.of_nat IndicesPerHashOutput) HashOutput in
  let pos := (Z.to_nat (i mod Z.of_nat IndicesPerHashOutput) * N / 8)%nat in
  if (length tmpHash <? pos + N / 8)%nat then Err eh_bounds
  else FullStepRow (sub_array tmpHash pos (N / 8)) HashLength CollisionBitLength i.

Fixpoint index_rows (base_state : eh_HashState) (l : list Z) : res eh_fail (list bytes) :=
  match l with
  | [] => Ok []
  | i :: l => let? row := index_row base_state i in let? rows := index_rows base_state l in Ok (row :: rows)
  end.

(** One round: [None] when a check fails. *)
Fixpoint collide_round (X : list bytes) (hashLen lenIndices : nat) : res eh_fail (option (list bytes)) :=
  match X with
  | [] => Ok (Some [])
  | [_] => Err eh_bounds
  | a :: b :: X =>
      if negb (HasCollision a b CollisionByteLength) then Ok None
      else if IndicesBefore b a hashLen lenIndices then Ok None
      else if negb (DistinctIndices a b hashLen lenIndices) then Ok None
      else
        let? row := merge_rows a b hashLen lenIndices CollisionByteLength in
        let? Xc := collide_round X hashLen lenIndices in
        Ok (match Xc with Some Xc => Some (row :: Xc) | None => None end)
  end.

(** [while (X.size() > 1)]; a round halves the rows. *)
Fixpoint collide_loop (fuel : nat) (X : list bytes) (hashLen lenIndices : nat) : res eh_fail bool :=
  match X with
  | [] => Err eh_assert
  | [x] => Ok (IsZero x hashLen)
  | _ =>
      match fuel with
      | O => Err eh_loop
      | S fuel =>
          let? Xc := collide_round X hashLen lenIndices in
          match Xc with
          | None => Ok false
          | Some Xc => collide_loop fuel Xc (hashLen - CollisionByteLength) (lenIndices * 2)
          end
      end
  end.

Definition IsValidSolution (base_state : eh_HashState) (soln : bytes) : res eh_fail bool :=
  if negb (length soln =? SolutionWidth)%nat then Ok false
  else
    let? indices := GetIndicesFromMinimal soln CollisionBitLength in
    let? X := index_rows base_state indices in
    collide_loop (S K) X HashLength 4.
End Equihash.

(** The instances of the template. *)
Definition supported (n k : nat) : bool :=
  ((n =? 96) && (k =? 3) || (n =? 200) && (k =? 9) || (n =? 96) && (k =? 5) || (n =? 48) && (k =? 5))%nat%bool.

Definition CheckEquihashSolution (n k : nat) (blake2b : bytes -> bytes -> nat -> bytes) (uninit : bytes) (pblock : CBlockHeader) : res eh_fail bool :=
  if negb (supported n k) then Err eh_threw
  else
    match equihash_input pblock with
    | Err _ => Err eh_threw
    | Ok inp =>
        let state := {| st_personal := st_personal (InitialiseState n k); st_data := inp ++ h_nNonce pblock |} in
        IsValidSolution n k blake2b uninit state (h_nSolution pblock)
    end.
