(* ===== verification/EquihashBits.v ===== *)
(** * Bit strings of Equihash

    [ExpandArray] cuts a big-endian bit string into numbers of [bit_len] bits, [CompressArray]
    puts them together again, without running over an array or losing a bit in the 32-bit
    accumulator.  Hence a solution and its indices determine each other. *)

From stdpp Require Import list.
From S2P Require Import Prelude Equihash.

(** ** Digits *)

(** The [m] digits of [v] to the base 2^w, the highest first, and the number they denote. *)
Fixpoint digits (w m : nat) (v : Z) : list Z :=
  match m with O => [] | S m => v / 2 ^ Z.of_nat (w * m) :: digits w m (v mod 2 ^ Z.of_nat (w * m)) end.
Definition undigits (w : nat) (l : list Z) : Z := foldl (fun v e => v * 2 ^ Z.of_nat w + e) 0 l.

Definition digits_ok (w : nat) (l : list Z) : Prop := Forall (fun e => 0 <= e < 2 ^ Z.of_nat w) l.

Lemma pow_add a b : 2 ^ Z.of_nat (a + b) = 2 ^ Z.of_nat a * 2 ^ Z.of_nat b.
Proof. rewrite Nat2Z.inj_add, Z.pow_add_r by lia. done. Qed.

Lemma pow_pos a : 0 < 2 ^ Z.of_nat a.
Proof. apply Z.pow_pos_nonneg; lia. Qed.

Lemma length_digits w m v : length (digits w m v) = m.
Proof. revert v. induction m as [|m IH]; intros v; [done|]. cbn. by rewrite IH. Qed.

Lemma digits_range w m v : 0 <= v < 2 ^ Z.of_nat (w * m) -> digits_ok w (digits w m v).
Proof.
  revert v. induction m as [|m IH]; intros v Hv; [constructor|]. cbn [digits]. pose proof (pow_pos (w * m)). constructor.
  - replace (w * S m)%nat with (w + w * m)%nat in Hv by lia. rewrite pow_add in Hv. split; [apply Z.div_pos; lia|apply Z.div_lt_upper_bound; lia].
  - apply IH. apply Z.mod_pos_bound. lia.
Qed.

Lemma undigits_acc w l v : foldl (fun v e => v * 2 ^ Z.of_nat w + e) v l = v * 2 ^ Z.of_nat (w * length l) + undigits w l.
Proof.
  unfold undigits. revert v. induction l as [|e l IH]; intros v; cbn [foldl length]; [rewrite Nat.mul_0_r; cbn; lia|]. rewrite IH, (IH (0 * _ + e)).
  replace (w * S (length l))%nat with (w + w * length l)%nat by lia. rewrite pow_add. lia.
Qed.

Lemma undigits_cons w e l : undigits w (e :: l) = e * 2 ^ Z.of_nat (w * length l) + undigits w l.
Proof. unfold undigits at 1. cbn [foldl]. rewrite undigits_acc. lia. Qed.

Lemma undigits_app w l1 l2 : undigits w (l1 ++ l2) = undigits w l1 * 2 ^ Z.of_nat (w * length l2) + undigits w l2.
Proof. unfold undigits at 1. rewrite foldl_app, undigits_acc. done. Qed.

Lemma undigits_range w l : digits_ok w l -> 0 <= undigits w l < 2 ^ Z.of_nat (w * length l).
Proof.
  induction 1 as [|e l He Hl IH]; [by rewrite Nat.mul_0_r|]. rewrite undigits_cons. cbn [length]. replace (w * S (length l))%nat with (w + w * length l)%nat by lia. rewrite pow_add. nia.
Qed.

Lemma undigits_digits w m v : 0 <= v < 2 ^ Z.of_nat (w * m) -> undigits w (digits w m v) = v.
Proof.
  revert v. induction m as [|m IH]; intros v Hv; [rewrite Nat.mul_0_r in Hv; cbn in *; lia|]. cbn [digits]. pose proof (pow_pos (w * m)).
  rewrite undigits_cons, length_digits, IH by (apply Z.mod_pos_bound; lia). rewrite Z.mul_comm. symmetry. apply Z.div_mod. lia.
Qed.

Lemma digits_undigits w l : digits_ok w l -> digits w (length l) (undigits w l) = l.
Proof.
  induction 1 as [|e l He Hl IH]; [done|]. cbn [length digits]. rewrite undigits_cons. pose proof (undigits_range w l Hl). pose proof (pow_pos (w * length l)).
  rewrite Z.div_add_l, (Z.div_small (undigits w l)), Z.add_0_r by lia. f_equal. rewrite Z.add_comm, Z.mod_add, Z.mod_small by lia. done.
Qed.

(** Digits one by one, from above. *)
Lemma digits_cut w m a b k : (w * m = k)%nat -> 0 <= b < 2 ^ Z.of_nat k -> digits w (S m) (a * 2 ^ Z.of_nat k + b) = a :: digits w m b.
Proof.
  intros <- Hb. cbn [digits]. pose proof (pow_pos (w * m)). rewrite Z.div_add_l, (Z.div_small b), Z.add_0_r by lia. f_equal. by rewrite Z.add_comm, Z.mod_add, Z.mod_small by lia.
Qed.

(** Digits one by one, by their place. *)
Lemma mod_div_mod v k w m : (k + w <= m)%nat -> (v mod 2 ^ Z.of_nat m / 2 ^ Z.of_nat k) mod 2 ^ Z.of_nat w = (v / 2 ^ Z.of_nat k) mod 2 ^ Z.of_nat w.
Proof.
  intros Hm. pose proof (pow_pos m). pose proof (pow_pos k). pose proof (pow_pos w). rewrite (Z.div_mod v (2 ^ Z.of_nat m)) at 2 by lia.
  replace m with (k + (w + (m - k - w)))%nat at 2 by lia. rewrite !pow_add.
  replace (2 ^ Z.of_nat k * (2 ^ Z.of_nat w * 2 ^ Z.of_nat (m - k - w)) * (v / 2 ^ Z.of_nat m) + v mod 2 ^ Z.of_nat m)
    with ((2 ^ Z.of_nat (m - k - w) * (v / 2 ^ Z.of_nat m) * 2 ^ Z.of_nat w) * 2 ^ Z.of_nat k + v mod 2 ^ Z.of_nat m) by lia.
  rewrite Z.div_add_l, Z.add_comm, Z.mod_add by lia. done.
Qed.

Lemma digits_map w m v : 0 <= v < 2 ^ Z.of_nat (w * m) -> digits w m v = map (fun j => (v / 2 ^ Z.of_nat (w * (m - 1 - j))) mod 2 ^ Z.of_nat w) (seq 0 m).
Proof.
  revert v. induction m as [|m IH]; intros v Hv; [done|]. cbn [digits seq map]. pose proof (pow_pos (w * m)). f_equal.
  - replace (S m - 1 - 0)%nat with m by lia. rewrite Z.mod_small; [done|]. replace (w * S m)%nat with (w + w * m)%nat in Hv by lia. rewrite pow_add in Hv.
    split; [apply Z.div_pos; lia|apply Z.div_lt_upper_bound; lia].
  - rewrite IH by (apply Z.mod_pos_bound; lia). rewrite <- seq_shift, map_map. apply map_ext_in. intros j Hj%in_seq. replace (S m - 1 - S j)%nat with (m - 1 - j)%nat by lia.
    apply mod_div_mod. nia.
Qed.

(** Big-endian bytes. *)
Lemma undigits_rev l : undigits 8 (rev l) = le_val l.
Proof. induction l as [|b l IH]; [done|]. cbn [rev le_val]. rewrite undigits_app, IH. cbn. lia. Qed.

Lemma bytes_digits l : bytes_ok l <-> digits_ok 8 l.
Proof. done. Qed.

Lemma rev_le_bytes n v : 0 <= v < 2 ^ Z.of_nat (8 * n) -> rev (le_bytes n v) = digits 8 n v.
Proof.
  intros Hv. assert (undigits 8 (rev (le_bytes n v)) = v) as E.
  { rewrite undigits_rev. apply le_val_le_bytes. change 256 with (2 ^ 8). rewrite <- Z.pow_mul_r by lia. by replace (8 * Z.of_nat n) with (Z.of_nat (8 * n)) by lia. }
  assert (length (rev (le_bytes n v)) = n) as El by (by rewrite length_rev, length_le_bytes).
  rewrite <- E at 2. rewrite <- El at 2. symmetry. apply digits_undigits. apply bytes_digits, Forall_rev, le_bytes_ok.
Qed.

(** ** Expanding *)

Lemma mask_ones bl : (bl <= 31)%nat -> bit_len_mask bl = Z.ones (Z.of_nat bl).
Proof.
  intros Hb. unfold bit_len_mask. rewrite Z.ones_equiv, Z.shiftl_1_l. assert (2 ^ Z.of_nat bl <= 2 ^ 31) by (apply Z.pow_le_mono_r; lia). rewrite u32_id; [lia|]. pose proof (pow_pos bl). lia.
Qed.

Lemma seq_from s n : seq s n = map (fun j => (s + j)%nat) (seq 0 n).
Proof. rewrite <- (Nat.add_0_r s) at 1. symmetry. exact (fmap_add_seq s 0 n). Qed.

(** The bytes written for one element. *)
Lemma element_bytes bl pad acc bits : (bl <= 31)%nat -> 0 <= acc ->
  map (fun x => Z.land (Z.shiftr acc (Z.of_nat (bits + 8 * ((bl + 7) / 8 + pad - x - 1)))) (Z.land (Z.shiftr (bit_len_mask bl) (Z.of_nat (8 * ((bl + 7) / 8 + pad - x - 1)))) 255)) (seq pad ((bl + 7) / 8)) =
  digits 8 ((bl + 7) / 8) ((acc / 2 ^ Z.of_nat bits) mod 2 ^ Z.of_nat bl).
Proof.
  intros Hb Ha. pose proof (Nat.div_mod_eq (bl + 7) 8) as Hd. pose proof (Nat.mod_upper_bound (bl + 7) 8 ltac:(lia)) as Hm. set (cb := ((bl + 7) / 8)%nat) in *.
  set (e := (acc / 2 ^ Z.of_nat bits) mod 2 ^ Z.of_nat bl). assert (0 <= e < 2 ^ Z.of_nat (8 * cb)) as He.
  { pose proof (Z.mod_pos_bound (acc / 2 ^ Z.of_nat bits) (2 ^ Z.of_nat bl) (pow_pos bl)). assert (2 ^ Z.of_nat bl <= 2 ^ Z.of_nat (8 * cb)) by (apply Z.pow_le_mono_r; lia). unfold e. lia. }
  rewrite (digits_map 8 cb e He), (seq_from pad cb), map_map. apply map_ext_in. intros j Hj%in_seq.
  replace (cb + pad - (pad + j) - 1)%nat with (cb - 1 - j)%nat by lia. set (k := (cb - 1 - j)%nat).
  rewrite mask_ones by done. rewrite Nat2Z.inj_add, <- Z.shiftr_shiftr by lia. rewrite Z.land_assoc, <- Z.shiftr_land. change 255 with (Z.ones 8).
  rewrite !Z.land_ones by lia. rewrite !Z.shiftr_div_pow2 by lia. done.
Qed.

(** [w] bits enter the accumulator. *)
Lemma acc_push acc bits w b : 0 <= acc -> 0 <= b < 2 ^ Z.of_nat w -> (bits + w <= 32)%nat ->
  let acc' := Z.lor (u32 (Z.shiftl acc (Z.of_nat w))) b in
  0 <= acc' < 2 ^ 32 /\ acc' mod 2 ^ Z.of_nat (bits + w) = acc mod 2 ^ Z.of_nat bits * 2 ^ Z.of_nat w + b.
Proof.
  intros Ha Hb Hbits acc'. set (h := (32 - w)%nat). pose proof (pow_pos h). pose proof (pow_pos w). assert (2 ^ 32 = 2 ^ Z.of_nat h * 2 ^ Z.of_nat w) as E32 by (rewrite <- pow_add; f_equal; lia).
  assert (acc' = acc mod 2 ^ Z.of_nat h * 2 ^ Z.of_nat w + b) as E.
  { unfold acc'. assert (u32 (Z.shiftl acc (Z.of_nat w)) = Z.shiftl (acc mod 2 ^ Z.of_nat h) (Z.of_nat w)) as ->.
    { rewrite !Z.shiftl_mul_pow2 by lia. unfold u32. rewrite E32. rewrite Z.mul_mod_distr_r by lia. done. }
    rewrite Z.lor_comm, lor_shiftl_add by lia. lia. }
  pose proof (Z.mod_pos_bound acc (2 ^ Z.of_nat h) ltac:(lia)). split; [rewrite E32; nia|]. rewrite E. rewrite pow_add. pose proof (pow_pos bits).
  pose proof (Z.mod_pos_bound acc (2 ^ Z.of_nat bits) ltac:(lia)).
  assert ((acc mod 2 ^ Z.of_nat h) mod 2 ^ Z.of_nat bits = acc mod 2 ^ Z.of_nat bits) as E2.
  { replace h with (bits + (h - bits))%nat by (unfold h; lia). rewrite pow_add. rewrite Z.rem_mul_r by (pose proof (pow_pos (h - bits)); lia). rewrite Z.mul_comm, Z.mod_add, Z.mod_mod by lia. done. }
  rewrite (Z.div_mod (acc mod 2 ^ Z.of_nat h) (2 ^ Z.of_nat bits)) at 1 by lia. rewrite E2. set (q := acc mod 2 ^ Z.of_nat h / 2 ^ Z.of_nat bits). set (r := acc mod 2 ^ Z.of_nat bits) in *.
  replace ((2 ^ Z.of_nat bits * q + r) * 2 ^ Z.of_nat w + b) with (r * 2 ^ Z.of_nat w + b + q * (2 ^ Z.of_nat bits * 2 ^ Z.of_nat w)) by lia. rewrite Z.mod_add by nia. apply Z.mod_small. nia.
Qed.

(** The numbers that [ExpandArray] writes, each with its padding. *)
Definition padded (pad cb : nat) (l : list Z) : bytes := concat (map (fun e => replicate pad 0 ++ digits 8 cb e) l).

Lemma length_padded pad cb l : length (padded pad cb l) = ((pad + cb) * length l)%nat.
Proof. unfold padded. induction l as [|e l IH]; cbn [map concat length]; [lia|]. rewrite length_app, IH, length_app, length_replicate, length_digits. lia. Qed.

Lemma ExpandArray_loop_spec bl pad inp bits acc m : (8 <= bl <= 25)%nat -> (bits < bl)%nat -> 0 <= acc < 2 ^ 32 -> bytes_ok inp -> (bits + 8 * length inp = bl * m)%nat ->
  ExpandArray_loop bl pad ((bl + 7) / 8 + pad) bits acc inp =
  padded pad ((bl + 7) / 8) (digits bl m (acc mod 2 ^ Z.of_nat bits * 2 ^ Z.of_nat (8 * length inp) + undigits 8 inp)).
Proof.
  intros Hbl. revert bits acc m. induction inp as [|b inp IH]; intros bits acc m Hbits Hacc Hb Hm.
  - cbn in Hm. assert (m = 0)%nat as -> by nia. done.
  - inversion Hb as [|? ? Hb1 Hb2]; subst. cbn [ExpandArray_loop length]. destruct (acc_push acc bits 8 b ltac:(lia) Hb1 ltac:(lia)) as [Ha' Er]. change (Z.of_nat 8) with 8 in Ha', Er.
    set (acc' := Z.lor (u32 (Z.shiftl acc 8)) b) in *. rewrite undigits_cons. pose proof (undigits_range 8 inp Hb2) as Hu.
    assert (acc mod 2 ^ Z.of_nat bits * 2 ^ Z.of_nat (8 * S (length inp)) + (b * 2 ^ Z.of_nat (8 * length inp) + undigits 8 inp) =
            acc' mod 2 ^ Z.of_nat (bits + 8) * 2 ^ Z.of_nat (8 * length inp) + undigits 8 inp) as ->.
    { rewrite Er. replace (8 * S (length inp))%nat with (8 + 8 * length inp)%nat by lia. rewrite pow_add. change (Z.of_nat 8) with 8. lia. }
    cbn [length] in Hm. destruct (Nat.leb_spec bl (bits + 8)) as [Hle|Hgt]; [|apply IH; [lia|lia|done|lia]].
    set (bits' := (bits + 8 - bl)%nat). destruct m as [|m]; [lia|]. rewrite (IH bits' acc' m) by (unfold bits'; lia || done).
    rewrite Nat.add_sub, element_bytes by lia. pose proof (pow_pos bits'). pose proof (pow_pos (8 * length inp)). pose proof (Z.mod_pos_bound acc' (2 ^ Z.of_nat bits') ltac:(lia)).
    pose proof (Z.mod_pos_bound acc' (2 ^ Z.of_nat (bits + 8)) (pow_pos _)) as Hmod. set (e := (acc' / 2 ^ Z.of_nat bits') mod 2 ^ Z.of_nat bl).
    assert (acc' mod 2 ^ Z.of_nat (bits + 8) = e * 2 ^ Z.of_nat bits' + acc' mod 2 ^ Z.of_nat bits') as ->.
    { unfold e. replace (bits + 8)%nat with (bits' + bl)%nat by (unfold bits'; lia). rewrite pow_add, Z.rem_mul_r by (pose proof (pow_pos bl); lia). lia. }
    replace ((e * 2 ^ Z.of_nat bits' + acc' mod 2 ^ Z.of_nat bits') * 2 ^ Z.of_nat (8 * length inp) + undigits 8 inp)
      with (e * 2 ^ Z.of_nat (bits' + 8 * length inp) + (acc' mod 2 ^ Z.of_nat bits' * 2 ^ Z.of_nat (8 * length inp) + undigits 8 inp)) by (rewrite pow_add; lia).
    rewrite (digits_cut bl m e _ (bits' + 8 * length inp)); [|unfold bits'; lia|rewrite pow_add; nia]. unfold padded. cbn [map concat]. by rewrite <- app_assoc.
Qed.

(** [ExpandArray] cuts a bit string of [m * bit_len] bits into its digits. *)
Lemma ExpandArray_spec inp out bl pad m : (8 <= bl <= 25)%nat -> bytes_ok inp -> (8 * length inp = bl * m)%nat -> length out = (((bl + 7) / 8 + pad) * m)%nat ->
  ExpandArray inp out bl pad = Ok (padded pad ((bl + 7) / 8) (digits bl m (undigits 8 inp))).
Proof.
  intros Hbl Hb Hm Ho. unfold ExpandArray. destruct (Nat.leb_spec 8 bl); [|lia]. destruct (Nat.leb_spec (7 + bl) 32); [|lia]. cbn [negb].
  replace (8 * ((bl + 7) / 8 + pad) * length inp / bl)%nat with (((bl + 7) / 8 + pad) * m)%nat.
  2:{ replace (8 * ((bl + 7) / 8 + pad) * length inp)%nat with (((bl + 7) / 8 + pad) * m * bl)%nat by nia. by rewrite Nat.div_mul by lia. }
  rewrite Ho, Nat.eqb_refl. cbn [negb]. rewrite (ExpandArray_loop_spec bl pad inp 0 0 m) by (lia || done). cbn [Z.of_nat]. rewrite Z.mod_0_l, Z.mul_0_l, Z.add_0_l by done.
  unfold copy_at. rewrite length_padded, length_digits. destruct (Nat.ltb_spec (length out) (0 + (pad + (bl + 7) / 8) * m)); [lia|]. cbn [take]. rewrite drop_ge by lia. by rewrite app_nil_r.
Qed.

(** ** Compressing *)

(** The bytes of a number put together from the top. *)
Lemma collect_bytes a e cb n : 0 <= e < 2 ^ Z.of_nat (8 * cb) -> (n <= cb)%nat ->
  foldl (fun acc j => Z.lor acc (Z.shiftl (Z.land (Z.shiftr e (Z.of_nat (8 * (cb - 1 - j)))) 255) (Z.of_nat (8 * (cb - 1 - j))))) a (seq 0 n) =
  Z.lor a (Z.shiftl (Z.shiftr e (Z.of_nat (8 * (cb - n)))) (Z.of_nat (8 * (cb - n)))).
Proof.
  intros He. induction n as [|n IH]; intros Hn.
  - cbn [seq foldl]. rewrite Nat.sub_0_r, (Z.shiftr_div_pow2 e), Z.div_small, Z.shiftl_0_l, Z.lor_0_r by lia. done.
  - rewrite seq_S, foldl_app, IH by lia. cbn [foldl]. rewrite Nat.add_0_l, <- Z.lor_assoc. f_equal. replace (cb - 1 - n)%nat with (cb - S n)%nat by lia.
    set (k := (cb - S n)%nat). replace (8 * (cb - n))%nat with (8 * k + 8)%nat by lia. apply Z.bits_inj'. intros i Hi. change 255 with (Z.ones 8).
    rewrite Z.lor_spec, !Z.shiftl_spec, Z.land_spec by lia. destruct (Z.lt_ge_cases i (Z.of_nat (8 * k))).
    + rewrite !Z.testbit_neg_r by lia. done.
    + rewrite (Z.shiftr_spec e (Z.of_nat (8 * k))) by lia. replace (i - Z.of_nat (8 * k) + Z.of_nat (8 * k)) with i by lia. destruct (Z.lt_ge_cases i (Z.of_nat (8 * k + 8))).
      * rewrite Z.testbit_neg_r by lia. rewrite Z.ones_spec_low by lia. by rewrite andb_true_r.
      * rewrite Z.shiftr_spec by lia. replace (i - Z.of_nat (8 * k + 8) + Z.of_nat (8 * k + 8)) with i by lia. rewrite Z.ones_spec_high by lia. by rewrite andb_false_r, orb_false_r.
Qed.

Lemma foldl_ext_in {A B : Type} (f g : A -> B -> A) l a : (forall x y, x ∈ l -> f y x = g y x) -> foldl f a l = foldl g a l.
Proof. revert a. induction l as [|x l IH]; intros a He; [done|]. cbn. rewrite He by apply elem_of_cons, or_introl, eq_refl. apply IH. intros y z Hy. apply He. by apply elem_of_cons; right. Qed.

Lemma nth_map_seq (f : nat -> Z) n j : (j < n)%nat -> nth j (map f (seq 0 n)) 0 = f j.
Proof. intros Hj. rewrite (nth_indep _ 0 (f 0%nat)) by (by rewrite length_map, length_seq). by rewrite map_nth, seq_nth. Qed.

Lemma compress_element_spec bl pad e acc : (bl <= 25)%nat -> 0 <= e < 2 ^ Z.of_nat bl ->
  compress_element bl pad ((bl + 7) / 8 + pad) (replicate pad 0 ++ digits 8 ((bl + 7) / 8) e) acc = Z.lor (u32 (Z.shiftl acc (Z.of_nat bl))) e.
Proof.
  intros Hb He. pose proof (Nat.div_mod_eq (bl + 7) 8) as Hd. pose proof (Nat.mod_upper_bound (bl + 7) 8 ltac:(lia)) as Hm. unfold compress_element. set (cb := ((bl + 7) / 8)%nat) in *.
  assert (0 <= e < 2 ^ Z.of_nat (8 * cb)) as He8 by (assert (2 ^ Z.of_nat bl <= 2 ^ Z.of_nat (8 * cb)) by (apply Z.pow_le_mono_r; lia); lia).
  rewrite Nat.add_sub, (seq_from pad cb), foldl_fmap. transitivity (Z.lor (u32 (Z.shiftl acc (Z.of_nat bl))) (Z.shiftl (Z.shiftr e (Z.of_nat (8 * (cb - cb)))) (Z.of_nat (8 * (cb - cb))))).
  2:{ rewrite Nat.sub_diag, Nat.mul_0_r. by rewrite Z.shiftr_0_r, Z.shiftl_0_r. }
  rewrite <- (collect_bytes _ e cb cb He8 ltac:(lia)). apply foldl_ext_in. intros j a [_ Hj]%elem_of_seq. rewrite Nat.add_0_l in Hj. f_equal.
  replace (cb + pad - (pad + j) - 1)%nat with (cb - 1 - j)%nat by lia. set (k := (cb - 1 - j)%nat).
  assert (nth (pad + j) (replicate pad 0 ++ digits 8 cb e) 0 = Z.land (Z.shiftr e (Z.of_nat (8 * k))) 255) as ->.
  { rewrite app_nth2; rewrite length_replicate; [|lia]. replace (pad + j - pad)%nat with j by lia. rewrite (digits_map 8 cb e He8).
    rewrite nth_map_seq by done. change 255 with (Z.ones 8). rewrite Z.land_ones, Z.shiftr_div_pow2 by lia. done. }
  rewrite mask_ones by lia. change 255 with (Z.ones 8). 
  assert (Z.land (Z.land (Z.shiftr e (Z.of_nat (8 * k))) (Z.ones 8)) (Z.land (Z.shiftr (Z.ones (Z.of_nat bl)) (Z.of_nat (8 * k))) (Z.ones 8)) = Z.land (Z.shiftr e (Z.of_nat (8 * k))) (Z.ones 8)) as ->.
  { rewrite <- Z.land_assoc, (Z.land_comm (Z.ones 8)), <- Z.land_assoc, Z.land_diag, Z.land_assoc, <- Z.shiftr_land. rewrite (Z.land_ones e), (Z.mod_small e) by lia. done. }
  apply u32_id. assert (Z.land (Z.shiftr e (Z.of_nat (8 * k))) (Z.ones 8) < 2 ^ 8 /\ 0 <= Z.land (Z.shiftr e (Z.of_nat (8 * k))) (Z.ones 8)) as [H1 H2].
  { rewrite Z.land_ones by lia. pose proof (Z.mod_pos_bound (Z.shiftr e (Z.of_nat (8 * k))) (2 ^ 8) ltac:(lia)). lia. }
  rewrite Z.shiftl_mul_pow2 by lia. assert (2 ^ Z.of_nat (8 * k) <= 2 ^ 24) by (apply Z.pow_le_mono_r; lia). pose proof (pow_pos (8 * k)). nia.
Qed.

(** A byte leaves the accumulator. *)
Lemma acc_pop acc bits n u k : 0 <= acc -> 0 <= u < 2 ^ Z.of_nat k -> (bits + k = 8 * n)%nat ->
  digits 8 (S n) (acc mod 2 ^ Z.of_nat (bits + 8) * 2 ^ Z.of_nat k + u) =
  Z.land (Z.shiftr acc (Z.of_nat bits)) 255 :: digits 8 n (acc mod 2 ^ Z.of_nat bits * 2 ^ Z.of_nat k + u).
Proof.
  intros Ha Hu Hn. pose proof (pow_pos bits). pose proof (pow_pos k). pose proof (Z.mod_pos_bound acc (2 ^ Z.of_nat bits) ltac:(lia)).
  rewrite pow_add, Z.rem_mul_r by lia. change 255 with (Z.ones 8). rewrite Z.land_ones, Z.shiftr_div_pow2 by lia. set (e := (acc / 2 ^ Z.of_nat bits) mod 2 ^ 8). change (2 ^ Z.of_nat 8) with (2 ^ 8). fold e.
  replace ((acc mod 2 ^ Z.of_nat bits + 2 ^ Z.of_nat bits * e) * 2 ^ Z.of_nat k + u) with (e * 2 ^ Z.of_nat (bits + k) + (acc mod 2 ^ Z.of_nat bits * 2 ^ Z.of_nat k + u)) by (rewrite pow_add; lia).
  apply digits_cut; [lia|]. rewrite pow_add. nia.
Qed.

Lemma CompressArray_loop_spec bl pad n bits acc l : (8 <= bl <= 25)%nat -> (bits < bl)%nat -> 0 <= acc < 2 ^ 32 -> digits_ok bl l -> (bits + bl * length l = 8 * n)%nat ->
  CompressArray_loop n bl pad ((bl + 7) / 8 + pad) bits acc (padded pad ((bl + 7) / 8) l) = Ok (digits 8 n (acc mod 2 ^ Z.of_nat bits * 2 ^ Z.of_nat (bl * length l) + undigits bl l)).
Proof.
  intros Hbl. revert bits acc l. induction n as [|n IH]; intros bits acc l Hbits Hacc Hl Hn; [done|]. cbn [CompressArray_loop].
  destruct (Nat.ltb_spec bits 8) as [Hlt|Hge]; cbn [res_bind].
  - destruct l as [|e l]; [cbn in Hn; lia|]. inversion Hl as [|? ? He Hl']; subst. cbn [length] in Hn.
    assert (padded pad ((bl + 7) / 8) (e :: l) = (replicate pad 0 ++ digits 8 ((bl + 7) / 8) e) ++ padded pad ((bl + 7) / 8) l) as -> by done.
    set (elt := replicate pad 0 ++ digits 8 ((bl + 7) / 8) e). assert (length elt = (bl + 7) / 8 + pad)%nat as El by (unfold elt; rewrite length_app, length_replicate, length_digits; lia).
    rewrite length_app, El. destruct (Nat.ltb_spec ((bl + 7) / 8 + pad + length (padded pad ((bl + 7) / 8) l)) ((bl + 7) / 8 + pad)); [lia|]. cbn [res_bind].
    rewrite take_app_length', drop_app_length' by done. unfold elt. rewrite compress_element_spec by (done || lia).
    destruct (acc_push acc bits bl e ltac:(lia) He ltac:(lia)) as [Ha' Er]. set (acc' := Z.lor (u32 (Z.shiftl acc (Z.of_nat bl))) e) in *. set (bits' := (bits + bl - 8)%nat).
    rewrite (IH bits' acc' l) by (unfold bits'; lia || done). cbn [res_bind]. rewrite undigits_cons. cbn [length]. pose proof (undigits_range bl l Hl').
    replace (acc mod 2 ^ Z.of_nat bits * 2 ^ Z.of_nat (bl * S (length l)) + (e * 2 ^ Z.of_nat (bl * length l) + undigits bl l))
      with (acc' mod 2 ^ Z.of_nat (bits' + 8) * 2 ^ Z.of_nat (bl * length l) + undigits bl l).
    2:{ replace (bits' + 8)%nat with (bits + bl)%nat by (unfold bits'; lia). rewrite Er. replace (bl * S (length l))%nat with (bl + bl * length l)%nat by lia. rewrite pow_add. lia. }
    by rewrite acc_pop by (unfold bits'; lia || done).
  - set (bits' := (bits - 8)%nat). rewrite (IH bits' acc l) by (unfold bits'; lia || done). cbn [res_bind]. pose proof (undigits_range bl l Hl).
    replace (2 ^ Z.of_nat bits) with (2 ^ Z.of_nat (bits' + 8)) by (f_equal; unfold bits'; lia). by rewrite acc_pop by (unfold bits'; lia || done).
Qed.

Lemma CompressArray_spec l out bl pad : (8 <= bl <= 25)%nat -> digits_ok bl l -> (bl * length l = 8 * length out)%nat ->
  CompressArray (padded pad ((bl + 7) / 8) l) out bl pad = Ok (digits 8 (length out) (undigits bl l)).
Proof.
  intros Hbl Hl Hn. unfold CompressArray. destruct (Nat.leb_spec 8 bl); [|lia]. destruct (Nat.leb_spec (7 + bl) 32); [|lia]. cbn [negb]. rewrite length_padded.
  replace (bl * ((pad + (bl + 7) / 8) * length l) / (8 * ((bl + 7) / 8 + pad)))%nat with (length out).
  2:{ replace (bl * ((pad + (bl + 7) / 8) * length l))%nat with (length out * (8 * ((bl + 7) / 8 + pad)))%nat by nia. rewrite Nat.div_mul; [done|].
      pose proof (Nat.div_mod_eq (bl + 7) 8). pose proof (Nat.mod_upper_bound (bl + 7) 8 ltac:(lia)). lia. }
  rewrite Nat.eqb_refl. cbn [negb]. rewrite (CompressArray_loop_spec bl pad (length out) 0 0 l) by (lia || done). cbn [Z.of_nat]. by rewrite Z.mod_0_l, Z.mul_0_l, Z.add_0_l.
Qed.

(** ** Indices *)

Lemma digits_pad pad cb e : 0 <= e < 2 ^ Z.of_nat (8 * cb) -> digits 8 (pad + cb) e = replicate pad 0 ++ digits 8 cb e.
Proof.
  intros He. induction pad as [|pad IH]; [done|]. cbn [Nat.add digits replicate app]. assert (2 ^ Z.of_nat (8 * cb) <= 2 ^ Z.of_nat (8 * (pad + cb))) by (apply Z.pow_le_mono_r; lia).
  rewrite Z.div_small, Z.mod_small by lia. by rewrite IH.
Qed.

(** The width of an index in bytes. *)
Lemma index_width c : (7 <= c <= 24)%nat -> (1 <= (c + 1 + 7) / 8 <= 4)%nat /\ (c + 1 <= 8 * ((c + 1 + 7) / 8))%nat.
Proof. intros Hc. pose proof (Nat.div_mod_eq (c + 1 + 7) 8). pose proof (Nat.mod_upper_bound (c + 1 + 7) 8 ltac:(lia)). lia. Qed.

Lemma index_bytes c e : (7 <= c <= 24)%nat -> 0 <= e < 2 ^ Z.of_nat (c + 1) ->
  EhIndexToArray e = replicate (4 - (c + 1 + 7) / 8) 0 ++ digits 8 ((c + 1 + 7) / 8) e /\ EhIndexToArray e = digits 8 4 e.
Proof.
  intros Hc He. destruct (index_width c Hc) as [[H1 H2] H3]. set (cb := ((c + 1 + 7) / 8)%nat) in *.
  assert (2 ^ Z.of_nat (c + 1) <= 2 ^ Z.of_nat (8 * cb) /\ 2 ^ Z.of_nat (8 * cb) <= 2 ^ Z.of_nat (8 * 4)) as [] by (split; apply Z.pow_le_mono_r; lia).
  assert (EhIndexToArray e = digits 8 4 e) as E by (apply rev_le_bytes; lia). split; [|done]. rewrite E, <- digits_pad by lia. by replace (4 - cb + cb)%nat with 4%nat by lia.
Qed.

Lemma ArrayToEhIndex_digits e rest : 0 <= e < 2 ^ 32 -> ArrayToEhIndex (digits 8 4 e ++ rest) = e.
Proof.
  intros He. unfold ArrayToEhIndex. rewrite take_app_length' by (by rewrite length_digits). rewrite <- undigits_rev, rev_involutive. by apply undigits_digits.
Qed.

Lemma padded_indices c l : (7 <= c <= 24)%nat -> digits_ok (c + 1) l -> padded (4 - (c + 1 + 7) / 8) ((c + 1 + 7) / 8) l = concat (map EhIndexToArray l).
Proof. intros Hc Hl. unfold padded. f_equal. apply map_ext_in. intros e He%list_elem_of_In. symmetry. apply (index_bytes c e Hc). by eapply Forall_forall in Hl. Qed.

Lemma index_small c e : (c <= 24)%nat -> 0 <= e < 2 ^ Z.of_nat (c + 1) -> 0 <= e < 2 ^ 32.
Proof. intros Hc He. assert (2 ^ Z.of_nat (c + 1) <= 2 ^ 32) by (apply Z.pow_le_mono_r; lia). lia. Qed.

Lemma read_indices_spec c l : (7 <= c <= 24)%nat -> digits_ok (c + 1) l -> read_indices (length l) (concat (map EhIndexToArray l)) = l.
Proof.
  intros Hc. induction 1 as [|e l He Hl IH]; [done|]. cbn [length read_indices map concat]. rewrite (proj2 (index_bytes c e Hc He)). f_equal.
  - apply ArrayToEhIndex_digits. apply (index_small c); [lia|done].
  - rewrite drop_app_length' by (by rewrite length_digits). done.
Qed.

Lemma GetIndicesFromMinimal_spec s c m : (7 <= c <= 24)%nat -> bytes_ok s -> (8 * length s = (c + 1) * m)%nat ->
  GetIndicesFromMinimal s c = Ok (digits (c + 1) m (undigits 8 s)).
Proof.
  intros Hc Hs Hm. unfold GetIndicesFromMinimal. destruct (index_width c Hc) as [[H1 H2] _]. destruct (Nat.leb_spec ((c + 1 + 7) / 8) 4); [|lia]. cbn [negb].
  assert (8 * 4 * length s / (c + 1) = m * 4)%nat as El. { replace (8 * 4 * length s)%nat with (m * 4 * (c + 1))%nat by nia. by rewrite Nat.div_mul by lia. }
  rewrite El. rewrite (ExpandArray_spec s _ (c + 1) _ m) by (try (rewrite length_replicate); (done || nia)). cbn [res_bind].
  rewrite Nat.Div0.mod_mul, Nat.div_mul by lia. cbn [Nat.eqb negb]. f_equal. pose proof (undigits_range 8 s Hs) as Hu. rewrite Hm in Hu.
  pose proof (digits_range (c + 1) m _ Hu) as Hd. rewrite padded_indices by done. rewrite <- (length_digits (c + 1) m (undigits 8 s)) at 1. by apply (read_indices_spec c).
Qed.

Lemma GetMinimalFromIndices_spec l c k : (7 <= c <= 24)%nat -> digits_ok (c + 1) l -> ((c + 1) * length l = 8 * k)%nat ->
  GetMinimalFromIndices l c = Ok (digits 8 k (undigits (c + 1) l)).
Proof.
  intros Hc Hl Hk. unfold GetMinimalFromIndices. destruct (index_width c Hc) as [[H1 H2] _]. destruct (Nat.leb_spec ((c + 1 + 7) / 8) 4); [|lia]. cbn [negb].
  assert ((c + 1) * (length l * 4) / (8 * 4) = k)%nat as El. { replace ((c + 1) * (length l * 4))%nat with (k * (8 * 4))%nat by nia. by rewrite Nat.div_mul by lia. }
  rewrite El, <- (padded_indices c l) by done. rewrite CompressArray_spec by (try rewrite length_replicate; (done || lia)). by rewrite length_replicate.
Qed.

Lemma pack_unpack c l k : (7 <= c <= 24)%nat -> digits_ok (c + 1) l -> ((c + 1) * length l = 8 * k)%nat ->
  exists s, GetMinimalFromIndices l c = Ok s /\ bytes_ok s /\ length s = k /\ GetIndicesFromMinimal s c = Ok l.
Proof.
  intros Hc Hl Hk. pose proof (undigits_range _ l Hl) as Hu. rewrite Hk in Hu. exists (digits 8 k (undigits (c + 1) l)). split; [by apply GetMinimalFromIndices_spec|].
  pose proof (digits_range 8 k _ Hu) as Hd. split; [done|]. rewrite length_digits. split; [done|].
  rewrite (GetIndicesFromMinimal_spec _ c (length l)) by (rewrite ?length_digits; (done || lia)). rewrite undigits_digits by done. by rewrite digits_undigits.
Qed.

Lemma unpack_pack c s m : (7 <= c <= 24)%nat -> bytes_ok s -> (8 * length s = (c + 1) * m)%nat ->
  exists l, GetIndicesFromMinimal s c = Ok l /\ digits_ok (c + 1) l /\ length l = m /\ GetMinimalFromIndices l c = Ok s.
Proof.
  intros Hc Hs Hm. pose proof (undigits_range 8 s Hs) as Hu. rewrite Hm in Hu. exists (digits (c + 1) m (undigits 8 s)). split; [by apply GetIndicesFromMinimal_spec|].
  pose proof (digits_range (c + 1) m _ Hu) as Hd. split; [done|]. rewrite length_digits. split; [done|].
  rewrite (GetMinimalFromIndices_spec _ c (length s)) by (rewrite ?length_digits; (done || lia)). rewrite undigits_digits by done. by rewrite digits_undigits.
Qed.
