(* ===== verification/EquihashRows.v ===== *)
(** * Rows of the Equihash table

    What the rows of the collision table hold: the digits of an exclusive or of hashes, and the
    indices of these hashes.  [valid_solution] says which lists of indices solve Equihash; the
    lemmas show what the constructors and comparisons of rows do to it. *)

From stdpp Require Import list.
From S2P Require Import Prelude Serialize Transaction Block Equihash EquihashBits.

(** ** Exclusive or, digit by digit *)

Lemma lxor_range w x y : 0 <= x < 2 ^ Z.of_nat w -> 0 <= y < 2 ^ Z.of_nat w -> 0 <= Z.lxor x y < 2 ^ Z.of_nat w.
Proof.
  intros Hx Hy. assert (Z.lxor x y = Z.lxor x y mod 2 ^ Z.of_nat w) as ->; [|apply Z.mod_pos_bound, pow_pos].
  rewrite <- !Z.land_ones by lia. apply Z.bits_inj'. intros i Hi. rewrite Z.land_spec, !Z.lxor_spec. destruct (Z.lt_ge_cases i (Z.of_nat w)).
  - rewrite Z.ones_spec_low by lia. by rewrite andb_true_r.
  - rewrite Z.ones_spec_high by lia. rewrite andb_false_r.
    assert (forall z, 0 <= z < 2 ^ Z.of_nat w -> Z.testbit z i = false) as Hz by (intros z Hz; rewrite <- (Z.mod_small z (2 ^ Z.of_nat w)) by done; apply Z.mod_pow2_bits_high; lia).
    by rewrite !Hz.
Qed.

Lemma digit_bits v k w : (v / 2 ^ Z.of_nat k) mod 2 ^ Z.of_nat w = Z.land (Z.shiftr v (Z.of_nat k)) (Z.ones (Z.of_nat w)).
Proof. by rewrite Z.land_ones, Z.shiftr_div_pow2 by lia. Qed.

Lemma digits_lxor w m x y : 0 <= x < 2 ^ Z.of_nat (w * m) -> 0 <= y < 2 ^ Z.of_nat (w * m) -> digits w m (Z.lxor x y) = zip_with Z.lxor (digits w m x) (digits w m y).
Proof.
  intros Hx Hy. rewrite !digits_map by (done || by apply lxor_range). set (l := seq 0 m). clearbody l. induction l as [|j l IH]; [done|]. cbn [map zip_with]. f_equal; [|exact IH].
  rewrite !digit_bits, Z.shiftr_lxor by lia. apply Z.bits_inj'. intros i Hi. rewrite !Z.land_spec, !Z.lxor_spec, !Z.land_spec. by destruct (Z.testbit (Z.ones _) i), (Z.testbit (Z.shiftr x _) i), (Z.testbit (Z.shiftr y _) i).
Qed.

Lemma digits_inj w m x y : 0 <= x < 2 ^ Z.of_nat (w * m) -> 0 <= y < 2 ^ Z.of_nat (w * m) -> digits w m x = digits w m y -> x = y.
Proof. intros Hx Hy E. rewrite <- (undigits_digits w m x Hx), <- (undigits_digits w m y Hy). by rewrite E. Qed.

(** ** Comparing arrays *)

Lemma memcmp_digits n x y r1 r2 : 0 <= x < 2 ^ Z.of_nat (8 * n) -> 0 <= y < 2 ^ Z.of_nat (8 * n) ->
  memcmp_lt (digits 8 n x ++ r1) (digits 8 n y ++ r2) = if x <? y then true else if y <? x then false else memcmp_lt r1 r2.
Proof.
  revert x y. induction n as [|n IH]; intros x y Hx Hy.
  - rewrite Nat.mul_0_r in Hx, Hy. cbn in Hx, Hy. assert (x = 0) as -> by lia. assert (y = 0) as -> by lia. done.
  - cbn [digits app memcmp_lt]. pose proof (pow_pos (8 * n)) as Hp. rewrite IH by (apply Z.mod_pos_bound; lia).
    pose proof (Z.div_mod x (2 ^ Z.of_nat (8 * n)) ltac:(lia)) as Ex. pose proof (Z.div_mod y (2 ^ Z.of_nat (8 * n)) ltac:(lia)) as Ey.
    pose proof (Z.mod_pos_bound x (2 ^ Z.of_nat (8 * n)) Hp). pose proof (Z.mod_pos_bound y (2 ^ Z.of_nat (8 * n)) Hp).
    set (qx := x / 2 ^ Z.of_nat (8 * n)) in *. set (rx := x mod 2 ^ Z.of_nat (8 * n)) in *. set (qy := y / 2 ^ Z.of_nat (8 * n)) in *. set (ry := y mod 2 ^ Z.of_nat (8 * n)) in *.
    destruct (Z.ltb_spec qx qy), (Z.ltb_spec qy qx), (Z.ltb_spec rx ry), (Z.ltb_spec ry rx), (Z.ltb_spec x y), (Z.ltb_spec y x); try done; try nia; exfalso; nia.
Qed.

(** The order of arrays of indices is decided by the first index, unless that is common. *)
Lemma memcmp_indices la lb : digits_ok 32 la -> digits_ok 32 lb -> la <> [] -> lb <> [] -> hd 0 la <> hd 0 lb ->
  memcmp_lt (concat (map (digits 8 4) la)) (concat (map (digits 8 4) lb)) = (hd 0 la <? hd 0 lb).
Proof.
  intros Ha Hb. destruct la as [|x la]; [done|]. destruct lb as [|y lb]; [done|]. intros _ _. cbn [hd map concat]. intros Hne. inversion Ha; inversion Hb; subst.
  rewrite memcmp_digits by done. destruct (Z.ltb_spec x y); [done|]. destruct (Z.ltb_spec y x); [done|lia].
Qed.

Lemma length_indices l : length (concat (map (digits 8 4) l)) = (4 * length l)%nat.
Proof. induction l as [|x l IH]; [done|]. cbn [map concat]. rewrite length_app, IH, length_digits. cbn. lia. Qed.

Lemma groups_indices l : groups (length l) (concat (map (digits 8 4) l)) = map (digits 8 4) l.
Proof. induction l as [|x l IH]; [done|]. cbn [length groups map concat]. rewrite take_app_length', drop_app_length' by (by rewrite length_digits). by rewrite IH. Qed.

Lemma forallb_disjoint la lb : digits_ok 32 la -> digits_ok 32 lb ->
  forallb (fun x => forallb (fun y => negb (bool_decide (x = y))) (map (digits 8 4) lb)) (map (digits 8 4) la) = true <-> forall i, i ∈ la -> i ∉ lb.
Proof.
  intros Ha Hb. rewrite forallb_forall. split.
  - intros Hf i Hi Hj. specialize (Hf (digits 8 4 i) (in_map _ _ _ (proj1 (list_elem_of_In _ _) Hi))). rewrite forallb_forall in Hf.
    specialize (Hf (digits 8 4 i) (in_map _ _ _ (proj1 (list_elem_of_In _ _) Hj))). by rewrite bool_decide_eq_true_2 in Hf.
  - intros Hd x (i & <- & Hi%list_elem_of_In)%in_map_iff. apply forallb_forall. intros y (j & <- & Hj%list_elem_of_In)%in_map_iff. apply negb_true_iff, bool_decide_eq_false_2.
    intros E. pose proof (proj1 (Forall_forall _ _) Ha i Hi) as Hi'. pose proof (proj1 (Forall_forall _ _) Hb j Hj) as Hj'. apply digits_inj in E; [subst j; by apply (Hd i)|done|done].
Qed.

(** ** Arrays in parts *)

Lemma copy_at_ok out pos data : (pos + length data <= length out)%nat -> copy_at out pos data = Ok (take pos out ++ data ++ drop (pos + length data) out).
Proof. intros H. unfold copy_at. destruct (Nat.ltb_spec (length out) (pos + length data)); [lia|done]. Qed.

Lemma sub_array_mid x y z p n : p = length x -> n = length y -> sub_array (x ++ y ++ z) p n = y.
Proof. intros -> ->. unfold sub_array. by rewrite drop_app_length, take_app_length. Qed.

(** Writing from the start what was written before, and more. *)
Lemma copy_next x data rest : (length data <= length rest)%nat -> copy_at (x ++ rest) (length x) data = Ok ((x ++ data) ++ drop (length data) rest).
Proof.
  intros H. rewrite copy_at_ok by (rewrite length_app; lia). rewrite take_app_length. by rewrite drop_app_add', app_assoc.
Qed.

Lemma padded_cons cb d ds : padded 0 cb (d :: ds) = digits 8 cb d ++ padded 0 cb ds.
Proof. done. Qed.

Lemma zip_with_padded cb xs ys : digits_ok (8 * cb) xs -> digits_ok (8 * cb) ys -> length xs = length ys ->
  zip_with Z.lxor (padded 0 cb xs) (padded 0 cb ys) = padded 0 cb (zip_with Z.lxor xs ys).
Proof.
  intros Hx. revert ys. induction Hx as [|x xs Hx Hxs IH]; intros [|y ys] Hy He; try done. inversion Hy; subst. injection He as He.
  cbn [zip_with]. rewrite !padded_cons, zip_with_app by (by rewrite !length_digits). by rewrite <- digits_lxor, IH.
Qed.

Lemma digits_ok_le w w' l : (w <= w')%nat -> digits_ok w l -> digits_ok w' l.
Proof. intros Hw Hl. eapply Forall_impl; [exact Hl|]. cbn. intros x Hx. assert (2 ^ Z.of_nat w <= 2 ^ Z.of_nat w') by (apply Z.pow_le_mono_r; lia). lia. Qed.

Lemma digits_zero w m : digits w m 0 = replicate m 0.
Proof. induction m as [|m IH]; [done|]. cbn [digits replicate]. rewrite Z.div_0_l, Z.mod_0_l, IH by (pose proof (pow_pos (w * m)); lia). done. Qed.

Lemma forallb_zero l : forallb (fun b => b =? 0) l = true <-> l = replicate (length l) 0.
Proof.
  induction l as [|b l IH]; [done|]. cbn [forallb length replicate]. rewrite andb_true_iff, Z.eqb_eq, IH. split; [intros [-> E]; by rewrite <- E|]. intros E. injection E as E1 E2. done.
Qed.

(** ** Parameters *)

(** What the instances of the template have in common. *)
Record params_ok (N K : nat) : Prop := {
  po_digits : N = ((K + 1) * CollisionBitLength N K)%nat;
  po_bits : (8 <= CollisionBitLength N K <= 24)%nat;
  po_size : (0 < N <= 512 /\ N mod 8 = 0)%nat;
  po_rounds : (3 <= K)%nat;
  po_first : (HashLength N K + 4 <= FinalFullWidth N K)%nat;
  po_merge : forall r, (r < K)%nat -> ((K - r) * CollisionByteLength N K + 8 * 2 ^ r <= FinalFullWidth N K)%nat
}.

(** The conditions that depend on the round, for all rounds. *)
Definition rounds_fit (N K rounds width : nat) : bool := forallb (fun r => (K - r) * CollisionByteLength N K + 8 * 2 ^ r <=? width)%nat (seq 0 rounds).

Lemma rounds_fit_spec N K rounds width r : rounds_fit N K rounds width = true -> (r < rounds)%nat -> ((K - r) * CollisionByteLength N K + 8 * 2 ^ r <= width)%nat.
Proof.
  unfold rounds_fit. rewrite forallb_forall. intros Hf Hr. assert (In r (seq 0 rounds)) as Hin by (apply in_seq; lia). apply Nat.leb_le. exact (Hf r Hin).
Qed.

Lemma supported_ok N K : supported N K = true -> params_ok N K.
Proof.
  unfold supported. rewrite !orb_true_iff, !andb_true_iff, !Nat.eqb_eq. intros [[[[-> ->]|[-> ->]]|[-> ->]]|[-> ->]];
    (split; [vm_compute; reflexivity|vm_compute; lia|split; [lia|vm_compute; reflexivity]|lia|apply Nat.leb_le; vm_compute; reflexivity|intros r; apply rounds_fit_spec; vm_compute; reflexivity]).
Qed.

(** The documented interface of BLAKE2b: a digest of the length asked for. *)
Definition blake2b_ok (blake2b : bytes -> bytes -> nat -> bytes) : Prop := forall p d n, length (blake2b p d n) = n /\ bytes_ok (blake2b p d n).

(** ** Solutions *)

Section Spec.
Context (N K : nat) (blake2b : bytes -> bytes -> nat -> bytes) (base : eh_HashState).

(** The [N]-bit hash of an index, and its [K + 1] digits. *)
Definition leaf_bytes (i : Z) : bytes :=
  sub_array (GenerateHash blake2b base (i / Z.of_nat (IndicesPerHashOutput N)) (HashOutput N)) (Z.to_nat (i mod Z.of_nat (IndicesPerHashOutput N)) * N / 8) (N / 8).
Definition leaf_value (i : Z) : Z := undigits 8 (leaf_bytes i).
Definition leaf_digit (j : nat) (i : Z) : Z := nth j (digits (CollisionBitLength N K) (K + 1) (leaf_value i)) 0.

Definition xor_all (l : list Z) : Z := foldr Z.lxor 0 l.
Definition xor_digit (j : nat) (l : list Z) : Z := xor_all (map (leaf_digit j) l).

(** Siblings of level [r]. *)
Definition pair_ok (r : nat) (la lb : list Z) : Prop := xor_digit r la = xor_digit r lb /\ hd 0 la < hd 0 lb /\ forall i, i ∈ la -> i ∉ lb.

(** The tree of height [n] over a list of [2^n] indices: siblings of every level are a pair. *)
Fixpoint valid_tree (n : nat) (l : list Z) : Prop :=
  match n with
  | O => True
  | S n => valid_tree n (take (2 ^ n) l) /\ valid_tree n (drop (2 ^ n) l) /\ pair_ok n (take (2 ^ n) l) (drop (2 ^ n) l)
  end.

(** A list of indices that solves Equihash. *)
Definition valid_solution (l : list Z) : Prop :=
  length l = (2 ^ K)%nat /\ digits_ok (CollisionBitLength N K + 1) l /\ valid_tree K l /\ xor_digit K l = 0.

(** A row of width [W] after [r] rounds made from the indices [l]: the digits from [r] on of the
    exclusive or of their hashes, then the indices; what follows is not specified. *)
Definition row_digits (r : nat) (l : list Z) : list Z := map (fun j => xor_digit j l) (seq r (K + 1 - r)).
Definition row_is (W r : nat) (row : bytes) (l : list Z) : Prop :=
  length l = (2 ^ r)%nat /\ digits_ok (CollisionBitLength N K + 1) l /\
  exists rest, row = padded 0 (CollisionByteLength N K) (row_digits r l) ++ concat (map (digits 8 4) l) ++ rest /\ length row = W.
End Spec.

(** ** Rows *)

Section Rows.
Context {N K : nat} {blake2b : bytes -> bytes -> nat -> bytes} {base : eh_HashState}.
Context (Hp : params_ok N K) (Hblake : blake2b_ok blake2b).

Abbreviation c := (CollisionBitLength N K).
Abbreviation cb := (CollisionByteLength N K).
Abbreviation leaf_bytes := (leaf_bytes N blake2b base).
Abbreviation leaf_value := (leaf_value N blake2b base).
Abbreviation leaf_digit := (leaf_digit N K blake2b base).
Abbreviation xor_digit := (xor_digit N K blake2b base).
Abbreviation pair_ok := (pair_ok N K blake2b base).
Abbreviation valid_tree := (valid_tree N K blake2b base).
Abbreviation row_digits := (row_digits N K blake2b base).
Abbreviation row_is := (row_is N K blake2b base).

Lemma cb_bits : (c <= 8 * cb)%nat /\ (1 <= cb <= 3)%nat /\ ((c + 7) / 8 = cb)%nat.
Proof.
  pose proof (po_bits _ _ Hp). unfold CollisionByteLength. pose proof (Nat.div_mod_eq (c + 7) 8). pose proof (Nat.mod_upper_bound (c + 7) 8 ltac:(lia)). lia.
Qed.

Lemma leaf_bytes_ok i : 0 <= i -> bytes_ok (leaf_bytes i) /\ length (leaf_bytes i) = (N / 8)%nat /\
  (Z.to_nat (i mod Z.of_nat (IndicesPerHashOutput N)) * N / 8 + N / 8 <= HashOutput N)%nat.
Proof.
  intros Hi. destruct (po_size _ _ Hp) as [HN H8]. unfold leaf_bytes, sub_array, GenerateHash. destruct (Hblake (st_personal base) (st_data base ++ le_bytes 4 (i / Z.of_nat (IndicesPerHashOutput N))) (HashOutput N)) as [El Eb].
  assert (1 <= IndicesPerHashOutput N)%nat as HI by (unfold IndicesPerHashOutput; apply Nat.div_le_lower_bound; lia).
  pose proof (Z.mod_pos_bound i (Z.of_nat (IndicesPerHashOutput N)) ltac:(lia)). set (k := Z.to_nat (i mod Z.of_nat (IndicesPerHashOutput N))). assert (k < IndicesPerHashOutput N)%nat by lia.
  assert (k * N / 8 + N / 8 <= HashOutput N)%nat as Hle.
  { unfold HashOutput. pose proof (Nat.div_mod_eq N 8) as EN. rewrite H8, Nat.add_0_r in EN. replace (k * N)%nat with (k * (N / 8) * 8)%nat by nia. replace (IndicesPerHashOutput N * N)%nat with (IndicesPerHashOutput N * (N / 8) * 8)%nat by nia. rewrite !Nat.div_mul by lia. nia. }
  split; [by apply Forall_take, Forall_drop|]. split; [|done]. rewrite length_take, length_drop, El. lia.
Qed.

Lemma leaf_value_range i : 0 <= i -> 0 <= leaf_value i < 2 ^ Z.of_nat (c * (K + 1)).
Proof.
  intros Hi. destruct (leaf_bytes_ok i Hi) as (Hb & El & _). pose proof (undigits_range 8 _ Hb) as Hu. rewrite El in Hu. destruct (po_size _ _ Hp) as [_ H8]. pose proof (Nat.div_mod_eq N 8) as EN.
  replace (c * (K + 1))%nat with (8 * (N / 8))%nat by (pose proof (po_digits _ _ Hp); lia). done.
Qed.

Lemma leaf_digits i : 0 <= i -> digits c (K + 1) (leaf_value i) = map (fun j => leaf_digit j i) (seq 0 (K + 1)) /\ forall j, (j <= K)%nat -> 0 <= leaf_digit j i < 2 ^ Z.of_nat c.
Proof.
  intros Hi. pose proof (digits_range c (K + 1) _ (leaf_value_range i Hi)) as Hd. split.
  - unfold leaf_digit. set (l := digits c (K + 1) (leaf_value i)). assert (length l = K + 1)%nat as <- by apply length_digits. clear. induction l as [|x l IH]; [done|]. cbn [length seq map nth]. f_equal.
    rewrite IH at 1. rewrite <- seq_shift, map_map. done.
  - intros j Hj. unfold leaf_digit. apply (proj1 (List.Forall_nth _ _) Hd). rewrite length_digits. lia.
Qed.

Lemma xor_digit_range j l : (j <= K)%nat -> Forall (fun i => 0 <= i) l -> 0 <= xor_digit j l < 2 ^ Z.of_nat c.
Proof.
  intros Hj. induction 1 as [|i l Hi Hl IH]; [cbn; pose proof (pow_pos c); lia|]. unfold xor_digit in *. cbn [map xor_all foldr]. apply lxor_range; [by apply (leaf_digits i Hi)|exact IH].
Qed.

Lemma xor_digit_app j la lb : xor_digit j (la ++ lb) = Z.lxor (xor_digit j la) (xor_digit j lb).
Proof. unfold xor_digit. induction la as [|i la IH]; [by rewrite Z.lxor_0_l|]. cbn [app map xor_all foldr]. unfold xor_all in IH. by rewrite IH, Z.lxor_assoc. Qed.
Lemma length_row_hash r l : length (padded 0 cb (row_digits r l)) = ((K + 1 - r) * cb)%nat.
Proof. unfold row_digits. rewrite length_padded, length_map, length_seq. lia. Qed.

Lemma row_digits_ok r l : digits_ok (c + 1) l -> digits_ok (8 * cb) (row_digits r l).
Proof.
  intros Hl. apply (digits_ok_le c); [apply cb_bits|]. apply Forall_forall. intros d (j & -> & Hj%list_elem_of_In%in_seq)%list_elem_of_fmap. apply xor_digit_range; [lia|].
  eapply Forall_impl; [exact Hl|]. cbn. lia.
Qed.

Lemma row_digits_cons r l : (r <= K)%nat -> row_digits r l = xor_digit r l :: map (fun j => xor_digit j l) (seq (S r) (K - r)).
Proof. intros Hr. unfold row_digits. by replace (K + 1 - r)%nat with (S (K - r)) by lia. Qed.

(** The row of an index. *)
Lemma leaf_row uninit i : 0 <= i < 2 ^ Z.of_nat (c + 1) -> (HashLength N K + 4 <= length uninit)%nat ->
  exists row, FullStepRow uninit (leaf_bytes i) (HashLength N K) c i = Ok row /\ row_is (length uninit) 0 row [i].
Proof.
  intros Hi Hf. destruct (leaf_bytes_ok i (proj1 Hi)) as (Hb & El & _). pose proof (po_bits _ _ Hp). pose proof (po_digits _ _ Hp). destruct cb_bits as (_ & Hcb & Ec).
  unfold FullStepRow, StepRow. destruct (Nat.leb_spec (HashLength N K) (length uninit)); [|lia]. cbn [negb].
  assert (8 * (N / 8) = c * (K + 1))%nat as E8 by (destruct (po_size _ _ Hp) as [_ H8]; pose proof (Nat.div_mod_eq N 8); lia).
  rewrite (ExpandArray_spec (leaf_bytes i) _ c 0 (K + 1)); [|lia|done|by rewrite El|rewrite length_take, Ec; unfold HashLength in *; lia]. cbn [res_bind]. rewrite Ec. fold (leaf_value i).
  set (h := padded 0 cb (digits c (K + 1) (leaf_value i))). assert (length h = HashLength N K) as Eh by (unfold h; rewrite length_padded, length_digits; unfold HashLength; lia).
  pose proof (copy_next [] h uninit ltac:(lia)) as W0. cbn [app length] in W0. rewrite W0. cbn [res_bind]. rewrite <- Eh. destruct (index_bytes c i ltac:(lia) Hi) as [_ Ei]. rewrite Ei.
  rewrite copy_next by (rewrite length_drop, length_digits; lia). eexists. split; [reflexivity|]. split; [done|]. split; [by constructor|]. eexists. split.
  - cbn [map concat]. rewrite <- !app_assoc. f_equal. unfold h, EquihashRows.row_digits. rewrite Nat.sub_0_r. f_equal. rewrite (proj1 (leaf_digits i (proj1 Hi))). apply map_ext. intros j. unfold EquihashRows.xor_digit. cbn. by rewrite Z.lxor_0_r.
  - rewrite !length_app, !length_drop, length_digits. lia.
Qed.

(** ** Two rows *)

Lemma row_indices W r row l : row_is W r row l -> sub_array row ((K + 1 - r) * cb) (4 * 2 ^ r) = concat (map (digits 8 4) l).
Proof. intros (El & _ & rest & -> & _). apply sub_array_mid; [by rewrite length_row_hash|by rewrite length_indices, El]. Qed.

Lemma row_collision W r a b la lb : (r <= K)%nat -> row_is W r a la -> row_is W r b lb -> HasCollision a b cb = true <-> xor_digit r la = xor_digit r lb.
Proof.
  intros Hr (_ & Ha & ra & -> & _) (_ & Hb & rb & -> & _). unfold HasCollision. rewrite bool_decide_eq_true. pose proof (row_digits_ok r la Ha) as Da. pose proof (row_digits_ok r lb Hb) as Db.
  rewrite (row_digits_cons r la), (row_digits_cons r lb) in * by done. rewrite !padded_cons, <- !app_assoc, !take_app_length' by (by rewrite length_digits).
  inversion Da; inversion Db; subst. split; [by apply digits_inj|by intros ->].
Qed.

Lemma row_order W r a b la lb : row_is W r a la -> row_is W r b lb -> hd 0 la <> hd 0 lb -> IndicesBefore a b ((K + 1 - r) * cb) (4 * 2 ^ r) = (hd 0 la <? hd 0 lb).
Proof.
  intros Ra Rb Hne. unfold IndicesBefore. rewrite (row_indices W r a la Ra), (row_indices W r b lb Rb). destruct Ra as (Ea & Ha & _), Rb as (Eb & Hb & _). pose proof (po_bits _ _ Hp).
  pose proof (Nat.pow_nonzero 2 r). apply memcmp_indices; try done; try (by apply (digits_ok_le (c + 1)); [lia|]); intros ->; cbn in *; lia.
Qed.

Lemma row_distinct W r a b la lb : row_is W r a la -> row_is W r b lb -> DistinctIndices a b ((K + 1 - r) * cb) (4 * 2 ^ r) = true <-> (forall i, i ∈ la -> i ∉ lb).
Proof.
  intros Ra Rb. unfold DistinctIndices. rewrite (row_indices W r a la Ra), (row_indices W r b lb Rb). destruct Ra as (Ea & Ha & _), Rb as (Eb & Hb & _). pose proof (po_bits _ _ Hp).
  rewrite Nat.mul_comm, Nat.div_mul by lia. rewrite <- Ea at 1. rewrite <- Eb, !groups_indices. apply forallb_disjoint; (apply (digits_ok_le (c + 1)); [lia|done]).
Qed.

Lemma hd_in (l : list Z) : l <> [] -> hd 0 l ∈ l.
Proof. destruct l; [done|]. intros _. apply elem_of_cons. by left. Qed.

Lemma row_nonempty W r row l : row_is W r row l -> l <> [].
Proof. intros (El & _) ->. pose proof (Nat.pow_nonzero 2 r). cbn in El. lia. Qed.

(** The checks of a pair. *)
Lemma row_checks W r a b la lb : (r <= K)%nat -> row_is W r a la -> row_is W r b lb ->
  HasCollision a b cb && negb (IndicesBefore b a ((K + 1 - r) * cb) (4 * 2 ^ r)) && DistinctIndices a b ((K + 1 - r) * cb) (4 * 2 ^ r) = true <-> pair_ok r la lb.
Proof.
  intros Hr Ra Rb. unfold pair_ok. rewrite !andb_true_iff, negb_true_iff, (row_collision W r a b la lb), (row_distinct W r a b la lb) by done.
  assert ((forall i, i ∈ la -> i ∉ lb) -> hd 0 lb <> hd 0 la) as Hne.
  { intros Hd E. apply (Hd (hd 0 la)); [by apply hd_in, (row_nonempty W r a)|rewrite <- E; by apply hd_in, (row_nonempty W r b)]. }
  split.
  - intros [[H1 H2] H3]. rewrite (row_order W r b a lb la) in H2 by auto. apply Z.ltb_ge in H2. specialize (Hne H3). split; [done|]. split; [lia|done].
  - intros (H1 & H2 & H3). rewrite (row_order W r b a lb la) by auto. split; [split; [done|apply Z.ltb_ge; lia]|done].
Qed.

(** The merge of two rows in their parts. *)
Lemma merge_parts uninit a b Ha Ia ra Hb Ib rb len n trim : a = Ha ++ Ia ++ ra -> b = Hb ++ Ib ++ rb -> length Ha = len -> length Hb = len -> length Ia = n -> length Ib = n ->
  (trim <= len)%nat -> (length a <= length uninit)%nat -> (len - trim + 2 * n <= length uninit)%nat ->
  exists rest, merge_rows uninit a b len n trim =
    Ok (xor_bytes (drop trim Ha) (drop trim Hb) ++ (if memcmp_lt Ia Ib then Ia ++ Ib else Ib ++ Ia) ++ rest) /\
    length (xor_bytes (drop trim Ha) (drop trim Hb) ++ (if memcmp_lt Ia Ib then Ia ++ Ib else Ib ++ Ia) ++ rest) = length uninit.
Proof.
  intros Ea Eb LHa LHb LIa LIb Ht Hw Hf. assert (len + n <= length a)%nat as Hla by (rewrite Ea, !length_app; lia).
  assert (forall r H I q, r = H ++ I ++ q -> length H = len -> length I = n -> sub_array r len n = I /\ sub_array r trim (len - trim) = drop trim H) as Hsub.
  { intros r H I q -> LH LI. split; [by apply sub_array_mid|]. unfold sub_array. rewrite drop_app_le by lia. rewrite take_app_length'; [done|]. rewrite length_drop. lia. }
  destruct (Hsub _ _ _ _ Ea LHa LIa) as [Sa Ta]. destruct (Hsub _ _ _ _ Eb LHb LIb) as [Sb Tb].
  unfold merge_rows, IndicesBefore. rewrite Sa, Sb, Ta, Tb. set (h := xor_bytes (drop trim Ha) (drop trim Hb)).
  assert (length h = len - trim)%nat as Lh by (unfold h, xor_bytes; rewrite length_zip_with, !length_drop; lia).
  pose proof (copy_next [] a uninit ltac:(lia)) as W0. cbn [app length] in W0. rewrite W0. cbn [res_bind]. set (row0 := a ++ drop (length a) uninit).
  assert (length row0 = length uninit) as L0 by (unfold row0; rewrite length_app, length_drop; lia). rewrite L0.
  destruct (Nat.leb_spec (len + n) (length a)); [|lia]. destruct (Nat.leb_spec (len - trim + 2 * n) (length uninit)); [|lia]. cbn [negb].
  pose proof (copy_next [] h row0 ltac:(lia)) as W1. cbn [app length] in W1. rewrite W1. cbn [res_bind]. rewrite <- Lh.
  assert (forall x y, length x = n -> length y = n -> exists rest, (let? row := copy_at (h ++ drop (length h) row0) (length h) x in copy_at row (length h + n) y) = Ok (h ++ (x ++ y) ++ rest) /\ length (h ++ (x ++ y) ++ rest) = length uninit) as Hfin.
  { intros x y Lx Ly. rewrite copy_next by (rewrite length_drop; lia). cbn [res_bind]. replace (length h + n)%nat with (length (h ++ x)) by (rewrite length_app; lia).
    rewrite copy_next by (rewrite !length_drop; lia). eexists. rewrite <- !app_assoc. split; [reflexivity|]. rewrite !length_app, !length_drop. lia. }
  destruct (memcmp_lt Ia Ib); cbn zeta; rewrite Sa, Sb; [destruct (Hfin Ia Ib LIa LIb) as (rest & E & L)|destruct (Hfin Ib Ia LIb LIa) as (rest & E & L)]; exists rest; (split; [exact E|exact L]).
Qed.

(** The indices of the merged row, by the order of the two. *)
Lemma merge_order la lb : digits_ok (c + 1) la -> digits_ok (c + 1) lb -> la <> [] -> lb <> [] -> hd 0 la <> hd 0 lb ->
  (if memcmp_lt (concat (map (digits 8 4) la)) (concat (map (digits 8 4) lb)) then concat (map (digits 8 4) la) ++ concat (map (digits 8 4) lb)
   else concat (map (digits 8 4) lb) ++ concat (map (digits 8 4) la)) = concat (map (digits 8 4) (if hd 0 la <? hd 0 lb then la ++ lb else lb ++ la)).
Proof.
  intros Ha Hb Na Nb Hne. pose proof (po_bits _ _ Hp). rewrite memcmp_indices by (done || by apply (digits_ok_le (c + 1)); [lia|]). destruct (hd 0 la <? hd 0 lb); by rewrite map_app, concat_app.
Qed.

Definition merged (la lb : list Z) : list Z := if hd 0 la <? hd 0 lb then la ++ lb else lb ++ la.

Lemma merged_digit j la lb : xor_digit j (merged la lb) = Z.lxor (xor_digit j la) (xor_digit j lb).
Proof. unfold merged. destruct (_ <? _); rewrite xor_digit_app; [done|apply Z.lxor_comm]. Qed.

Lemma row_digits_merged r la lb : (r < K)%nat ->
  zip_with Z.lxor (map (fun j => xor_digit j la) (seq (S r) (K - r))) (map (fun j => xor_digit j lb) (seq (S r) (K - r))) = row_digits (S r) (merged la lb).
Proof.
  intros Hr. unfold EquihashRows.row_digits. replace (K + 1 - S r)%nat with (K - r)%nat by lia. generalize (seq (S r) (K - r)). intros q. induction q as [|j q IH]; [done|]. cbn [map zip_with]. by rewrite IH, merged_digit.
Qed.

Lemma merge_rows_spec uninit W r a b la lb : (r < K)%nat -> row_is W r a la -> row_is W r b lb -> hd 0 la <> hd 0 lb ->
  (W <= length uninit)%nat -> ((K - r) * cb + 8 * 2 ^ r <= length uninit)%nat ->
  exists row, merge_rows uninit a b ((K + 1 - r) * cb) (4 * 2 ^ r) cb = Ok row /\ row_is (length uninit) (S r) row (merged la lb).
Proof.
  intros Hr Ra Rb Hne HW Hf. pose proof (row_nonempty W r a la Ra) as Na. pose proof (row_nonempty W r b lb Rb) as Nb. destruct Ra as (Ea & Ha & ra & Erow & Wa), Rb as (Eb & Hb & rb & Erowb & Wb).
  assert ((K + 1 - r) * cb = cb + (K - r) * cb)%nat as Elen by (replace (K + 1 - r)%nat with (S (K - r)) by lia; done). set (rest_len := ((K - r) * cb)%nat) in *. clearbody rest_len.
  destruct (merge_parts uninit a b _ _ ra _ _ rb ((K + 1 - r) * cb) (4 * 2 ^ r) cb Erow Erowb) as (rest & E & L);
    [apply length_row_hash|apply length_row_hash|by rewrite length_indices, Ea|by rewrite length_indices, Eb|lia|lia|lia|].
  eexists. split; [exact E|]. split; [unfold merged; destruct (_ <? _); rewrite length_app; cbn [Nat.pow]; lia|]. split; [unfold merged; destruct (_ <? _); by apply Forall_app|].
  exists rest. split; [|exact L]. rewrite merge_order by done. fold (merged la lb). f_equal. pose proof (row_digits_ok r la Ha) as Da. pose proof (row_digits_ok r lb Hb) as Db.
  rewrite (row_digits_cons r la), (row_digits_cons r lb) in * by lia. inversion Da; inversion Db; subst. rewrite !padded_cons, !drop_app_length' by (by rewrite length_digits). unfold xor_bytes.
  rewrite zip_with_padded by (done || by rewrite !length_map). by rewrite row_digits_merged.
Qed.
(** ** Trees *)

Lemma valid_tree_app n la lb : length la = (2 ^ n)%nat -> valid_tree (S n) (la ++ lb) <-> valid_tree n la /\ valid_tree n lb /\ pair_ok n la lb.
Proof. intros El. cbn [EquihashRows.valid_tree]. by rewrite take_app_length', drop_app_length' by done. Qed.

(** ** What a solution gives *)

Lemma valid_tree_parts n (l : list Z) : length l = (2 ^ S n)%nat -> length (take (2 ^ n) l) = (2 ^ n)%nat /\ length (drop (2 ^ n) l) = (2 ^ n)%nat.
Proof. intros El. cbn [Nat.pow] in El. rewrite length_take, length_drop. lia. Qed.

Lemma valid_tree_nodup n l : length l = (2 ^ n)%nat -> valid_tree n l -> NoDup l.
Proof.
  revert l. induction n as [|n IH]; intros l El Hv.
  - destruct l as [|i [|? ?]]; cbn in El; try lia. apply NoDup_singleton.
  - destruct (valid_tree_parts n l El) as [Ea Eb]. destruct Hv as (Ha & Hb & _ & _ & Hd). rewrite <- (take_drop (2 ^ n) l). apply NoDup_app. split; [by apply IH|]. split; [exact Hd|by apply IH].
Qed.

Lemma valid_tree_zero n l j : length l = (2 ^ n)%nat -> valid_tree n l -> (j < n)%nat -> xor_digit j l = 0.
Proof.
  revert l. induction n as [|n IH]; intros l El Hv Hj; [lia|]. destruct (valid_tree_parts n l El) as [Ea Eb]. destruct Hv as (Ha & Hb & Hx & _). rewrite <- (take_drop (2 ^ n) l), xor_digit_app.
  destruct (decide (j = n)) as [->|]; [rewrite Hx; apply Z.lxor_nilpotent|]. by rewrite !IH by (done || lia).
Qed.

Lemma xor_values_digits l : Forall (fun i => 0 <= i) l ->
  0 <= xor_all (map leaf_value l) < 2 ^ Z.of_nat (c * (K + 1)) /\ digits c (K + 1) (xor_all (map leaf_value l)) = map (fun j => xor_digit j l) (seq 0 (K + 1)).
Proof.
  induction 1 as [|i l Hi Hl [IH1 IH2]].
  - cbn [map]. unfold xor_all. cbn [foldr]. split; [pose proof (pow_pos (c * (K + 1))); lia|]. rewrite digits_zero. unfold EquihashRows.xor_digit. cbn. generalize (length_seq (K + 1) 0). generalize (seq 0 (K + 1)). intros q <-.
    induction q as [|j q IHq]; [done|]. cbn in *. by rewrite <- IHq.
  - pose proof (leaf_value_range i Hi). cbn [map]. unfold xor_all in *. cbn [foldr]. split; [by apply lxor_range|]. rewrite digits_lxor, IH2, (proj1 (leaf_digits i Hi)) by done.
    generalize (seq 0 (K + 1)). intros q. induction q as [|j q IHq]; [done|]. cbn [map zip_with]. f_equal. exact IHq.
Qed.

Lemma valid_solution_sum l : valid_solution N K blake2b base l -> NoDup l /\ xor_all (map leaf_value l) = 0.
Proof.
  intros (El & Hl & Ht & Hz). split; [by apply (valid_tree_nodup K)|]. assert (Forall (fun i => 0 <= i) l) as Hpos by (eapply Forall_impl; [exact Hl|]; cbn; lia). destruct (xor_values_digits l Hpos) as [Hr Hd].
  apply (digits_inj c (K + 1)); [done|pose proof (pow_pos (c * (K + 1))); lia|]. rewrite Hd, digits_zero. apply list_eq_same_length with (n := (K + 1)%nat); [by rewrite length_replicate|by rewrite length_map, length_seq|].
  intros j x y Hj Hx Hy. apply lookup_replicate in Hy as [-> _]. apply list_lookup_fmap_Some in Hx as (k & -> & Hk). apply lookup_seq in Hk as [-> _]. cbn.
  destruct (decide (j = K)) as [->|]; [done|]. apply (valid_tree_zero K); [done|done|lia].
Qed.

Lemma solution_bits : (8 * SolutionWidth N K = (c + 1) * 2 ^ K)%nat.
Proof.
  pose proof (po_rounds _ _ Hp). unfold SolutionWidth, ProofSize. replace (2 ^ K)%nat with (2 ^ (K - 3) * 8)%nat by (change 8%nat with (2 ^ 3)%nat; rewrite <- Nat.pow_add_r; f_equal; lia).
  replace (2 ^ (K - 3) * 8 * (c + 1))%nat with (2 ^ (K - 3) * (c + 1) * 8)%nat by lia. rewrite Nat.div_mul by lia. lia.
Qed.
End Rows.
