(* ===== verification/EquihashProps.v ===== *)
(** * What the Equihash verifier accepts

    [IsValidSolution] accepts exactly the packed lists of [2^K] indices whose hashes satisfy the
    conditions of Equihash ([valid_solution]): in the binary tree over the indices, siblings
    agree in the digit of their level, are ordered and have no index in common, and the last
    digit of the whole vanishes. *)

From stdpp Require Import list.
From S2P Require Import Prelude Serialize Transaction Block Equihash EquihashBits EquihashRows.

Section Verifier.
Context {N K : nat} {blake2b : bytes -> bytes -> nat -> bytes} {uninit : bytes} {base : eh_HashState}.
Context (Hp : params_ok N K) (Hblake : blake2b_ok blake2b) (Hwidth : length uninit = FinalFullWidth N K).

Abbreviation c := (CollisionBitLength N K).
Abbreviation cb := (CollisionByteLength N K).
Abbreviation xor_digit := (xor_digit N K blake2b base).
Abbreviation pair_ok := (pair_ok N K blake2b base).
Abbreviation valid_tree := (valid_tree N K blake2b base).
Abbreviation row_is := (row_is N K blake2b base (FinalFullWidth N K)).

(** ** First rows *)

Lemma index_row_spec i : 0 <= i < 2 ^ Z.of_nat (c + 1) -> exists row, index_row N K blake2b uninit base i = Ok row /\ row_is 0 row [i].
Proof.
  intros Hi. destruct (leaf_bytes_ok (base := base) Hp Hblake i (proj1 Hi)) as (_ & _ & Hle). unfold index_row. assert (forall g n, length (GenerateHash blake2b base g n) = n) as EG by (intros; apply Hblake). rewrite EG.
  destruct (Nat.ltb_spec (HashOutput N) (Z.to_nat (i mod Z.of_nat (IndicesPerHashOutput N)) * N / 8 + N / 8)); [lia|]. pose proof (po_first _ _ Hp). rewrite <- Hwidth in *. by apply (leaf_row Hp Hblake).
Qed.

Lemma index_rows_spec l : digits_ok (c + 1) l -> exists X, index_rows N K blake2b uninit base l = Ok X /\ Forall2 (row_is 0) X (map (fun i => [i]) l).
Proof.
  induction 1 as [|i l Hi Hl (X & EX & HX)]; [by exists []; split|]. destruct (index_row_spec i Hi) as (row & Er & Hr). cbn [index_rows map]. rewrite Er. cbn [res_bind]. rewrite EX. cbn [res_bind].
  eexists. split; [reflexivity|]. by constructor.
Qed.

(** ** Rounds *)

Fixpoint pairs_ok (r : nat) (L : list (list Z)) : Prop :=
  match L with la :: lb :: L => pair_ok r la lb /\ pairs_ok r L | _ => True end.
Fixpoint join {A : Type} (L : list (list A)) : list (list A) :=
  match L with la :: lb :: L => (la ++ lb) :: join L | _ => [] end.

Lemma collide_round_spec r n X L : (r < K)%nat -> length L = (2 * n)%nat -> Forall2 (row_is r) X L ->
  (pairs_ok r L /\ exists X', collide_round N K uninit X ((K + 1 - r) * cb) (4 * 2 ^ r) = Ok (Some X') /\ Forall2 (row_is (S r)) X' (join L)) \/
  (~ pairs_ok r L /\ collide_round N K uninit X ((K + 1 - r) * cb) (4 * 2 ^ r) = Ok None).
Proof.
  intros Hr. revert X L. induction n as [|n IH]; intros X L El HX.
  - destruct L; [|done]. inversion HX. left. split; [done|]. by exists [].
  - destruct L as [|la [|lb L]]; cbn in El; try lia. inversion HX as [|a ? X1 ? Ra HX1]; subst. inversion HX1 as [|b ? X2 ? Rb HX2]; subst.
    pose proof (row_checks Hp Hblake (FinalFullWidth N K) r a b la lb ltac:(lia) Ra Rb) as Hc. cbn [pairs_ok join collide_round].
    destruct (HasCollision a b cb); [|right; split; [intros [Hx _]; apply Hc in Hx; done|done]].
    destruct (IndicesBefore b a _ _); [right; split; [intros [Hx _]; apply Hc in Hx; done|done]|].
    destruct (DistinctIndices a b _ _); [|right; split; [intros [Hx _]; apply Hc in Hx; done|done]]. cbn [negb].
    assert (pair_ok r la lb) as Hok by (by apply Hc). pose proof (po_merge _ _ Hp r Hr) as Hfit.
    destruct (merge_rows_spec Hp Hblake uninit (FinalFullWidth N K) r a b la lb Hr Ra Rb) as (row & -> & Hrow); [destruct Hok as (_ & ? & _); lia|lia|lia|]. cbn [res_bind].
    rewrite Hwidth in Hrow. unfold merged in Hrow. rewrite (proj2 (Z.ltb_lt _ _) (proj1 (proj2 Hok))) in Hrow.
    destruct (IH X2 L ltac:(lia) HX2) as [(Hps & X' & -> & HX')|[Hps ->]]; cbn [res_bind]; [left|right; split; [by intros [_ ?]|done]].
    split; [done|]. eexists. split; [reflexivity|]. by constructor.
Qed.

Lemma length_join {A : Type} n (L : list (list A)) : length L = (2 * n)%nat -> length (join L) = n.
Proof. revert L. induction n as [|n IH]; intros L El; destruct L as [|la [|lb L]]; cbn in El; try lia; [done|]. cbn [join length]. rewrite (IH L); lia. Qed.

Lemma concat_join {A : Type} n (L : list (list A)) : length L = (2 * n)%nat -> concat (join L) = concat L.
Proof. revert L. induction n as [|n IH]; intros L El; destruct L as [|la [|lb L]]; cbn in El; try lia; [done|]. cbn [join concat]. rewrite (IH L) by lia. by rewrite app_assoc. Qed.

(** ** Trees over tables *)

Lemma join_trees r n L : length L = (2 * n)%nat -> Forall (fun l => length l = 2 ^ r)%nat L ->
  Forall (valid_tree (S r)) (join L) <-> Forall (valid_tree r) L /\ pairs_ok r L.
Proof.
  revert L. induction n as [|n IH]; intros L El Hl; destruct L as [|la [|lb L]]; cbn in El; try lia; [by split|]. inversion Hl as [|? ? Ea Hl1]; subst. inversion Hl1 as [|? ? Eb Hl2]; subst.
  cbn [join pairs_ok]. rewrite !Forall_cons, (IH L) by (done || lia). rewrite valid_tree_app by done. tauto.
Qed.

Lemma join_lengths r n L : length L = (2 * n)%nat -> Forall (fun l : list Z => length l = 2 ^ r)%nat L -> Forall (fun l => length l = 2 ^ S r)%nat (join L).
Proof.
  revert L. induction n as [|n IH]; intros L El Hl; destruct L as [|la [|lb L]]; cbn in El; try lia; [by constructor|]. inversion Hl as [|? ? Ea Hl1]; subst. inversion Hl1 as [|? ? Eb Hl2]; subst.
  cbn [join]. constructor; [rewrite length_app; cbn [Nat.pow]; lia|]. apply IH; [lia|done].
Qed.

(** A tree over a list of lists, from the leaves up. *)
Lemma valid_tree_concat r n L : length L = (2 ^ n)%nat -> Forall (fun l => length l = 2 ^ r)%nat L -> valid_tree (n + r) (concat L) -> Forall (valid_tree r) L.
Proof.
  revert r L. induction n as [|n IH]; intros r L El Hl Hv.
  - destruct L as [|l [|? ?]]; cbn in El; try lia. cbn in Hv. rewrite app_nil_r in Hv. by constructor.
  - cbn [Nat.pow] in El. assert (length L = 2 * 2 ^ n)%nat as El2 by lia. apply (proj1 (join_trees r _ L El2 Hl)). apply IH; [by apply length_join|by eapply join_lengths|].
    rewrite (concat_join _ L El2). by replace (n + S r)%nat with (S n + r)%nat by lia.
Qed.

Lemma row_zero row l : row_is K row l -> IsZero row cb = true <-> xor_digit K l = 0.
Proof.
  intros (_ & Hl & rest & -> & _). pose proof (row_digits_ok (base := base) Hp Hblake K l Hl) as Hd. rewrite row_digits_cons, Nat.sub_diag in * by lia. cbn [seq map] in *. inversion Hd; subst. unfold IsZero.
  rewrite padded_cons, <- !app_assoc, take_app_length' by (by rewrite length_digits). rewrite forallb_zero, length_digits, <- digits_zero with (w := 8%nat). split; [|by intros ->].
  apply digits_inj; [done|]. pose proof (pow_pos (8 * cb)). lia.
Qed.

Lemma row_lengths r X L : Forall2 (row_is r) X L -> Forall (fun l => length l = 2 ^ r)%nat L.
Proof. induction 1 as [|x l X L Hx HX IH]; constructor; [apply Hx|done]. Qed.

Lemma collide_loop_spec n fuel r X L : (n + r = K)%nat -> (n <= fuel)%nat -> length L = (2 ^ n)%nat -> Forall2 (row_is r) X L -> Forall (valid_tree r) L ->
  exists b, collide_loop N K uninit fuel X ((K + 1 - r) * cb) (4 * 2 ^ r) = Ok b /\ (b = true <-> valid_tree K (concat L) /\ xor_digit K (concat L) = 0).
Proof.
  revert fuel r X L. induction n as [|n IH]; intros fuel r X L Hn Hf El HX Hv.
  - assert (r = K) as -> by lia. destruct L as [|l [|? ?]]; cbn in El; try lia. inversion HX as [|row ? ? ? Hrow HX1]; subst. inversion HX1; subst. inversion Hv; subst.
    replace ((K + 1 - K) * cb)%nat with cb by (replace (K + 1 - K)%nat with 1%nat by lia; lia). destruct fuel; cbn [collide_loop concat]; rewrite app_nil_r; (eexists; split; [reflexivity|]; rewrite (row_zero row l Hrow); tauto).
  - destruct fuel as [|fuel]; [lia|]. cbn [Nat.pow] in El. assert (length L = 2 * 2 ^ n)%nat as El2 by lia. pose proof (Nat.pow_nonzero 2 n). pose proof (row_lengths r X L HX) as Hl.
    pose proof (collide_round_spec r (2 ^ n) X L ltac:(lia) El2 HX) as Hround.
    destruct X as [|x1 [|x2 X]]; [apply Forall2_length in HX; cbn in HX; lia..|]. cbn [collide_loop].
    destruct Hround as [(Hps & X' & -> & HX')|[Hps ->]]; cbn [res_bind].
    + replace ((K + 1 - r) * cb - cb)%nat with ((K + 1 - S r) * cb)%nat by (replace (K + 1 - r)%nat with (S (K + 1 - S r)) by lia; by rewrite Nat.mul_succ_l, Nat.add_sub).
      replace (4 * 2 ^ r * 2)%nat with (4 * 2 ^ S r)%nat by (cbn [Nat.pow]; lia). rewrite <- (concat_join _ L El2). apply IH; [lia|lia|by apply length_join|done|]. by apply (join_trees r _ L El2 Hl).
    + eexists. split; [reflexivity|]. split; [done|]. intros [Ht _]. exfalso. apply Hps. apply (join_trees r _ L El2 Hl). apply (valid_tree_concat _ n); [by apply length_join|by eapply join_lengths|].
      rewrite (concat_join _ L El2). by replace (n + S r)%nat with K by lia.
Qed.

Lemma IsValidSolution_spec soln : bytes_ok soln ->
  exists b, IsValidSolution N K blake2b uninit base soln = Ok b /\ (b = true <-> exists l, GetMinimalFromIndices l c = Ok soln /\ valid_solution N K blake2b base l).
Proof.
  intros Hs. pose proof (po_bits _ _ Hp). pose proof (solution_bits Hp) as Hbits. unfold IsValidSolution. destruct (Nat.eqb_spec (length soln) (SolutionWidth N K)) as [El|El]; cbn [negb].
  2:{ eexists. split; [reflexivity|]. split; [done|]. intros (l & Em & El2 & Hl & _). exfalso. apply El.
      rewrite (GetMinimalFromIndices_spec l c (SolutionWidth N K)) in Em by (done || lia). injection Em as <-. apply length_digits. }
  rewrite <- El in Hbits. destruct (unpack_pack c soln (2 ^ K)%nat ltac:(lia) Hs Hbits) as (l & -> & Hl & Ell & Em). cbn [res_bind].
  destruct (index_rows_spec l Hl) as (X & -> & HX). cbn [res_bind].
  destruct (collide_loop_spec K (S K) 0 X (map (fun i => [i]) l)) as (b & Eb & Hb); [lia|lia|by rewrite length_map|done|apply Forall_forall; done|].
  rewrite Nat.sub_0_r in Eb. change (4 * 2 ^ 0)%nat with 4%nat in Eb. fold (HashLength N K) in Eb. exists b. split; [exact Eb|]. rewrite Hb.
  assert (concat (map (fun i => [i]) l) = l) as -> by (clear; induction l as [|i l IH]; [done|]; cbn; by rewrite IH). split.
  - intros [Ht Hz]. by exists l.
  - intros (l' & Em' & El' & Hl' & Ht & Hz). assert (l' = l) as ->; [|done].
    destruct (pack_unpack c l' (length soln) ltac:(lia) Hl' ltac:(lia)) as (s' & Es' & _ & _ & Eg'). destruct (pack_unpack c l (length soln) ltac:(lia) Hl ltac:(lia)) as (s & Es & _ & _ & Eg). congruence.
Qed.
End Verifier.


(** ** The verifier on a header *)

(** The hash state of a header: its fields without the nonce and the solution, then the nonce. *)
Definition header_state (n k : nat) (inp : bytes) (pblock : CBlockHeader) : eh_HashState :=
  {| st_personal := st_personal (InitialiseState n k); st_data := inp ++ h_nNonce pblock |}.

(** C9. For the four supported parameter sets the verifier always answers - no assertion fails, no row is
    overrun, the loop over the rounds ends - whatever the rows hold where they are not
    initialised, and it accepts a solution exactly when the solution is the packing of [2^K] indices
    of [N/(K+1) + 1] bits that solve Equihash: at every level [r] of the binary tree over them the hashes of
    siblings agree in digit [r], the first index of the left one is the smaller, they have no index in
    common, and the last digit of the exclusive or of all hashes is zero. *)
Theorem IsValidSolution_correct N K blake2b uninit base soln : supported N K = true -> blake2b_ok blake2b -> length uninit = FinalFullWidth N K -> bytes_ok soln ->
  exists b, IsValidSolution N K blake2b uninit base soln = Ok b /\
    (b = true <-> exists l, GetMinimalFromIndices l (CollisionBitLength N K) = Ok soln /\ valid_solution N K blake2b base l).
Proof. intros Hs Hb Hw Hso. apply IsValidSolution_spec; [by apply supported_ok|done..]. Qed.

(** A header that [CheckEquihashSolution] accepts holds the packing of [2^K] distinct indices whose
    [N]-bit hashes, taken from the header's fields and nonce, have exclusive or zero. *)
Lemma CheckEquihashSolution_sum N K blake2b uninit pblock inp : blake2b_ok blake2b -> length uninit = FinalFullWidth N K -> bytes_ok (h_nSolution pblock) ->
  equihash_input pblock = Ok inp -> CheckEquihashSolution N K blake2b uninit pblock = Ok true ->
  exists l, GetMinimalFromIndices l (CollisionBitLength N K) = Ok (h_nSolution pblock) /\ length l = (2 ^ K)%nat /\ NoDup l /\
    xor_all (map (leaf_value N blake2b (header_state N K inp pblock)) l) = 0.
Proof.
  intros Hb Hw Hso Hin. unfold CheckEquihashSolution. destruct (supported N K) eqn:Hs; [|done]. rewrite Hin. cbn [negb]. fold (header_state N K inp pblock). intros Hv.
  pose proof (supported_ok N K Hs) as Hp. destruct (IsValidSolution_spec (base := header_state N K inp pblock) Hp Hb Hw _ Hso) as (b & Eb & Hiff).
  rewrite Hv in Eb. injection Eb as <-. destruct (proj1 Hiff eq_refl) as (l & Em & Hval). exists l. split; [done|]. split; [apply Hval|]. by eapply valid_solution_sum.
Qed.

(** ** A concrete instance *)

(** With all hashes zero the indices in increasing order are a solution. *)
Definition zero_blake2b (p d : bytes) (n : nat) : bytes := replicate n 0.
Definition some_rows : bytes := replicate 38 170.
Definition first_indices : bytes := match GetMinimalFromIndices [0; 1; 2; 3; 4; 5; 6; 7] 24 with Ok s => s | Err _ => [] end.
Definition swapped_indices : bytes := match GetMinimalFromIndices [1; 0; 2; 3; 4; 5; 6; 7] 24 with Ok s => s | Err _ => [] end.
Lemma zero_blake2b_ok : blake2b_ok zero_blake2b.
Proof. intros p d n. split; [apply length_replicate|]. apply Forall_replicate. by split. Qed.

Lemma bytes_ok_dec l : forallb (fun b => (0 <=? b) && (b <? 256)) l = true -> bytes_ok l.
Proof. intros H. apply Forall_forall. intros b Hb%list_elem_of_In. eapply forallb_forall in H; [|exact Hb]. apply andb_true_iff in H as [H1%Z.leb_le H2%Z.ltb_lt]. by split. Qed.

Lemma IsValidSolution_correct_witness :
  IsValidSolution 96 3 zero_blake2b some_rows (InitialiseState 96 3) first_indices = Ok true /\
  (exists l, GetMinimalFromIndices l 24 = Ok first_indices /\ valid_solution 96 3 zero_blake2b (InitialiseState 96 3) l) /\
  ~ (exists l, GetMinimalFromIndices l 24 = Ok swapped_indices /\ valid_solution 96 3 zero_blake2b (InitialiseState 96 3) l).
Proof.
  assert (IsValidSolution 96 3 zero_blake2b some_rows (InitialiseState 96 3) first_indices = Ok true) as E1 by (vm_compute; reflexivity).
  assert (IsValidSolution 96 3 zero_blake2b some_rows (InitialiseState 96 3) swapped_indices = Ok false) as E2 by (vm_compute; reflexivity).
  split; [exact E1|]. split.
  - destruct (IsValidSolution_correct 96 3 zero_blake2b some_rows (InitialiseState 96 3) first_indices eq_refl zero_blake2b_ok eq_refl (bytes_ok_dec first_indices eq_refl)) as (b & Eb & Hb).
    rewrite E1 in Eb. injection Eb as <-. by apply Hb.
  - destruct (IsValidSolution_correct 96 3 zero_blake2b some_rows (InitialiseState 96 3) swapped_indices eq_refl zero_blake2b_ok eq_refl (bytes_ok_dec swapped_indices eq_refl)) as (b & Eb & Hb).
    rewrite E2 in Eb. injection Eb as <-. intros Hx. by apply Hb in Hx.
Defined.
