(* ===== verification/EquihashBlock.v ===== *)
(** * The Equihash solution of an accepted block

    [CheckBlock] of [main.cpp] over the verifier of [crypto/equihash.cpp]: what [BlockChecks]
    proves for any verdict on the solution, with the verdict of [CheckEquihashSolution]. *)

From Stdlib Require Import String.
From stdpp Require Import gmap.
From S2P Require Import Prelude Interpreter Serialize ArithUint256 Chain Pow Transaction Undo SigHash Block TxChecks BlockChecks Equihash EquihashBits EquihashRows EquihashProps.
Open Scope Z_scope.

Section Accepted.
Context `{Crypto} `{!CryptoLaws _} `{SigCrypto} `{SaplingVerifier} `{BlockEnv}.
Context (N K : nat) (hash_fn : bytes -> bytes -> nat -> bytes) (uninit : bytes).
Context (Hsupported : supported N K = true) (Hblake : blake2b_ok hash_fn) (Hwidth : length uninit = FinalFullWidth N K).

(** The verdict that the block checks use is the answer of the verifier. *)
Definition verdict_of_verifier (h : CBlockHeader) : Prop :=
  forall b, Equihash.CheckEquihashSolution N K hash_fn uninit h = Ok b -> BlockChecks.CheckEquihashSolution h = b.

Lemma hashed_header_input h hash : header_GetHash h = Ok hash -> exists inp, equihash_input h = Ok inp.
Proof. unfold header_GetHash, header_Serialize, equihash_input. destruct (ser_signed h) as [signed|]; [|done]. intros _. by eexists. Qed.

(** The verifier answers for every header that can be written. *)
Lemma verifier_answers h inp : bytes_ok (h_nSolution h) -> equihash_input h = Ok inp -> exists b, Equihash.CheckEquihashSolution N K hash_fn uninit h = Ok b.
Proof.
  intros Hs Hi. unfold Equihash.CheckEquihashSolution. rewrite Hsupported, Hi. cbn [negb]. fold (header_state N K inp h).
  destruct (IsValidSolution_spec (base := header_state N K inp h) (supported_ok N K Hsupported) Hblake Hwidth _ Hs) as (b & Eb & _). by exists b.
Qed.

(** C10. The work of a block.  Where the code checks it ([pow_applies]: not on regtest, the tip at or past
    the last ingest block, and the header already in [mapBlockIndex] above the ingest blocks; a header
    that is not yet in the index is not checked), a block that [CheckBlock] accepts carries, in its header, the packing of [2^K] distinct indices whose hashes, keyed by the other fields of the header and
    the nonce, have exclusive or zero, and its hash passes [CheckProofOfWork] for its [nBits]. *)
Theorem accepted_block_work params ns origin block fSkip prev hash : block_ok block -> bytes_ok (h_nSolution (header block)) -> verdict_of_verifier (header block) ->
  CheckBlock params ns origin block zero_digest true true fSkip prev = Ok hash -> pow_applies params ns hash ->
  CheckProofOfWork hash (h_nBits (header block)) (cp_pow params) = true /\
  exists inp l, equihash_input (header block) = Ok inp /\ GetMinimalFromIndices l (CollisionBitLength N K) = Ok (h_nSolution (header block)) /\
    length l = (2 ^ K)%nat /\ NoDup l /\ xor_all (map (leaf_value N hash_fn (header_state N K inp (header block))) l) = 0.
Proof.
  intros Hok Hs Hv E Hp. destruct (CheckBlock_spec _ _ _ _ _ _ _ Hok E) as [Eh Hval]. destruct (bv_pow _ _ _ _ Hval Hp) as [Hsol Hwork]. split; [done|].
  destruct (hashed_header_input _ _ Eh) as [inp Hi]. destruct (verifier_answers _ _ Hs Hi) as [b Eb]. rewrite (Hv b Eb) in Hsol. subst b. exists inp.
  destruct (CheckEquihashSolution_sum N K hash_fn uninit (header block) inp Hblake Hwidth Hs Hi Eb) as (l & Hl). by exists l.
Qed.
End Accepted.

(** ** A concrete block *)

#[local] Existing Instance check_crypto.
#[local] Existing Instance check_crypto_laws.
#[local] Existing Instance check_sig_crypto.
#[local] Existing Instance check_verifier.
#[local] Instance verifier_env : BlockEnv := {|
  BlockChecks.CheckEquihashSolution h := match Equihash.CheckEquihashSolution 96 3 zero_blake2b some_rows h with Ok b => b | Err _ => false end;
  FindTicket _ := Some false; PastelID_Verify _ _ _ := Some true;
  IsMnEligibleForBlockReward _ _ _ := true; ValidateIfTicketTransaction _ _ _ := NOT_TICKET
|}.

Definition solved_block : Block := {|
  header := {| h_nVersion := 5; h_hashPrevBlock := blob 32 1; h_hashMerkleRoot := hash256 (tx_data check_coinbase);
               h_hashFinalSaplingRoot := blob 32 2; h_nTime := 1700000000; h_nBits := 0x1f07ffff; h_nNonce := blob 32 3;
               h_nSolution := first_indices; h_sPastelID := blob 86 5; h_prevMerkleRootSignature := blob 114 6 |};
  b_vtx := [check_coinbase]
|}.
Definition solved_hash : bytes := match header_GetHash (header solved_block) with Ok h => h | Err _ => [] end.
Definition high_entry (h : Z) : CBlockIndex := {|
  phashBlock := []; Chain.pprev := None; pskip := None; Chain.nHeight := h; nTime := 1000; nBits := 0;
  nChainWork := uint_zero; nTx := 1; nChainTx := 1; nStatus := 0; nSequenceId := 0;
  nSproutValue := None; nChainSproutValue := None; nSaplingValue := 0; nChainSaplingValue := None
|}.
Definition high_node : node_state := {|
  ns_heap := {[1%positive := high_entry 700000; 2%positive := high_entry 700001]}; mapBlockIndex := {[solved_hash := 2%positive]};
  ns_merkle_root _ := blob 32 0; ns_tip := Some 1%positive;
  ns_adjusted_time := 1700000000; ns_time := 1700000000; ns_IBD := false; ns_sn_check := true; fCheckpointsEnabled := false
|}.

Lemma solved_block_ok : block_ok solved_block.
Proof.
  split; [split; vm_compute; intuition congruence|vm_compute; congruence|]. exact (bk_txs _ check_block_ok).
Qed.

Lemma solved_work_applies : pow_applies check_params high_node solved_hash.
Proof.
  split; [done|]. split.
  - exists 1%positive, (high_entry 700000). split; [done|]. split; [done|]. vm_compute. congruence.
  - exists 2%positive, (high_entry 700001). split; [vm_compute; reflexivity|]. split; [done|]. vm_compute. reflexivity.
Qed.

Lemma accepted_block_work_witness : CheckProofOfWork solved_hash 0x1f07ffff (cp_pow check_params) = true /\
  exists l, GetMinimalFromIndices l 24 = Ok first_indices /\ length l = 8%nat /\ NoDup l.
Proof.
  assert (verdict_of_verifier 96 3 zero_blake2b some_rows (header solved_block)) as Hv.
  { intros b Eb. cbn [BlockChecks.CheckEquihashSolution verifier_env]. rewrite Eb. reflexivity. }
  assert (CheckBlock check_params high_node MSG_BLOCK solved_block zero_digest true true false (Some 1%positive) = Ok solved_hash) as E by (vm_compute; reflexivity).
  destruct (accepted_block_work 96 3 zero_blake2b some_rows eq_refl zero_blake2b_ok eq_refl check_params high_node MSG_BLOCK solved_block false (Some 1%positive) solved_hash
    solved_block_ok (bytes_ok_dec first_indices eq_refl) Hv E solved_work_applies) as (Hw & inp & l & _ & H1 & H2 & H3 & _).
  split; [exact Hw|]. exists l. split; [exact H1|]. split; [exact H2|exact H3].
Defined.
