(* ===== verification/EquihashSolve.v ===== *)
(** * The basic Equihash solver

    [BasicSolve] of [crypto/equihash.cpp], the solver behind the mining calls of the regression
    test network: the first list of hashes, the rounds that collide the table in place, and the
    final round that offers solutions to its caller.

    The two callbacks are oracles: [validBlock] answers by the solutions offered before and the
    one offered now, [cancelled] by the number of the question.  [std::sort] is a parameter, as
    it does not fix the order of rows that compare equal.  Positions in the table are of type
    [int]: a table that is longer than [INT_MAX] is an error. *)

From stdpp Require Import list.
From S2P Require Import Prelude Serialize Transaction Block Equihash.

Inductive EhSolverCancelCheck : Set :=
  ListGeneration | ListSorting | ListColliding | RoundEnd | FinalSorting | FinalColliding
  | PartialGeneration | PartialSorting | PartialSubtreeEnd | PartialIndexEnd | PartialEnd.

(** [CompareSR(len)(a, b)] *)
Definition CompareSR (len : nat) (a b : bytes) : bool := memcmp_lt (take len a) (take len b).

Definition GetIndices (row : bytes) (len lenIndices cBitLen : nat) : res eh_fail bytes :=
  if negb ((cBitLen + 1 + 7) / 8 <=? 4)%nat then Err eh_assert
  else
    let minLen := ((cBitLen + 1) * lenIndices / (8 * 4))%nat in
    let bytePad := (4 - (cBitLen + 1 + 7) / 8)%nat in
    CompressArray (sub_array row len lenIndices) (replicate minLen 0) (cBitLen + 1) bytePad.

Definition equihash_solution_size (n k : nat) : nat := 2 ^ k * (n / (k + 1) + 1) / 8.

(** Positions are of type [int]. *)
Definition int_positions (X : list bytes) : res eh_fail unit := if INT32_MAX <? zlen X then Err eh_int else Ok tt.

(** The number of rows that collide with [a], from the start of [X]. *)
Fixpoint collision_run (a : bytes) (X : list bytes) (l : nat) : nat :=
  match X with
  | [] => O
  | b :: X => if HasCollision a b l then S (collision_run a X l) else O
  end.

(** [while (posFree < bound && Xc.size() > 0)], for [n] free places. *)
Fixpoint store (n : nat) (X : list bytes) (posFree : nat) (Xc : list bytes) : list bytes * nat * list bytes :=
  match n with
  | O => (X, posFree, Xc)
  | S n => match last Xc with
           | None => (X, posFree, Xc)
           | Some row => store n (<[posFree := row]> X) (S posFree) (removelast Xc)
           end
  end.

Section Solver.
Context (N K : nat).
Context (blake2b : bytes -> bytes -> nat -> bytes).
Context (uninit : bytes).
Context (sort : (bytes -> bytes -> bool) -> list bytes -> list bytes).
Context (validBlock : list bytes -> bytes -> bool).
Context (cancelled : nat -> EhSolverCancelCheck -> bool).

Definition FullWidth : nat := 2 * CollisionByteLength N K + 4 * 2 ^ (K - 1).
Definition init_size : nat := 2 ^ (CollisionBitLength N K + 1).

(** [if (cancelled(p)) throw solver_cancelled], the question number [calls]. *)
Definition throw_if_cancelled (calls : nat) (p : EhSolverCancelCheck) : res eh_fail nat :=
  if cancelled calls p then Err eh_cancelled else Ok (S calls).

(** ** The first list *)

(** The rows of one hash, from the [i]-th on. *)
Fixpoint hash_rows (n : nat) (tmpHash : bytes) (g i : Z) (X : list bytes) : res eh_fail (list bytes) :=
  match n with
  | O => Ok X
  | S n =>
      if (length X <? init_size)%nat then
        let pos := (Z.to_nat i * N / 8)%nat in
        if (length tmpHash <? pos + N / 8)%nat then Err eh_bounds
        else
          let? row := FullStepRow (take FullWidth uninit) (sub_array tmpHash pos (N / 8)) (HashLength N K) (CollisionBitLength N K)
                        (u32 (u32 (g * Z.of_nat (IndicesPerHashOutput N)) + i)) in
          hash_rows n tmpHash g (i + 1) (X ++ [row])
      else Ok X
  end.

Fixpoint first_list (fuel : nat) (base_state : eh_HashState) (g : Z) (X : list bytes) (calls : nat) : res eh_fail (list bytes * nat) :=
  if (length X <? init_size)%nat then
    match fuel with
    | O => Err eh_loop
    | S fuel =>
        let tmpHash := GenerateHash blake2b base_state g (HashOutput N) in
        let? X := hash_rows (IndicesPerHashOutput N) tmpHash g 0 X in
        let? calls := throw_if_cancelled calls ListGeneration in
        first_list fuel base_state (u32 (g + 1)) X calls
    end
  else Ok (X, calls).

(** ** Rounds *)

(** The pairs of a set of colliding rows: one row with those after it, and all. *)
Fixpoint collide_with (a : bytes) (G : list bytes) (hashLen lenIndices : nat) (Xc : list bytes) : res eh_fail (list bytes) :=
  match G with
  | [] => Ok Xc
  | b :: G =>
      if DistinctIndices a b hashLen lenIndices then
        let? row := merge_rows (take FullWidth uninit) a b hashLen lenIndices (CollisionByteLength N K) in
        collide_with a G hashLen lenIndices (Xc ++ [row])
      else collide_with a G hashLen lenIndices Xc
  end.
Fixpoint collide_pairs (G : list bytes) (hashLen lenIndices : nat) (Xc : list bytes) : res eh_fail (list bytes) :=
  match G with
  | [] => Ok Xc
  | a :: G => let? Xc := collide_with a G hashLen lenIndices Xc in collide_pairs G hashLen lenIndices Xc
  end.

(** [while (i < X.size() - 1)] *)
Fixpoint collide_table (fuel : nat) (X : list bytes) (hashLen lenIndices i posFree : nat) (Xc : list bytes) (calls : nat)
  : res eh_fail (list bytes * nat * list bytes * nat) :=
  if (i <? length X - 1)%nat then
    match fuel with
    | O => Err eh_loop
    | S fuel =>
        let j := S (collision_run (nth i X []) (drop (S i) X) (CollisionByteLength N K)) in
        let? Xc := collide_pairs (take j (drop i X)) hashLen lenIndices Xc in
        let '(X, posFree, Xc) := store (i + j - posFree) X posFree Xc in
        let? calls := throw_if_cancelled calls ListColliding in
        collide_table fuel X hashLen lenIndices (i + j) posFree Xc calls
    end
  else Ok (X, posFree, Xc, calls).

Definition solver_round (X : list bytes) (hashLen lenIndices calls : nat) : res eh_fail (list bytes * nat) :=
  let? _ := int_positions X in
  let X := sort (CompareSR (CollisionByteLength N K)) X in
  let? calls := throw_if_cancelled calls ListSorting in
  let? t := collide_table (length X) X hashLen lenIndices 0 0 [] calls in
  let '(X, posFree, Xc, calls) := t in
  let '(X, posFree, Xc) := store (length X - posFree) X posFree Xc in
  let X := if (0 <? length Xc)%nat then X ++ Xc else if (posFree <? length X)%nat then take posFree X else X in
  let? calls := throw_if_cancelled calls RoundEnd in
  Ok (X, calls).

(** [for (int r = 1; r < K && X.size() > 0; r++)], for [n] more rounds. *)
Fixpoint solver_rounds (n : nat) (X : list bytes) (hashLen lenIndices calls : nat) : res eh_fail (list bytes * nat * nat * nat) :=
  match n, X with
  | S n, _ :: _ =>
      let? t := solver_round X hashLen lenIndices calls in
      solver_rounds n t.1 (hashLen - CollisionByteLength N K) (lenIndices * 2) t.2
  | _, _ => Ok (X, hashLen, lenIndices, calls)
  end.

(** ** The final round: the solutions offered, and whether one was taken. *)

Fixpoint offer_with (a : bytes) (G : list bytes) (hashLen lenIndices : nat) (offered : list bytes) : list bytes * res eh_fail bool :=
  match G with
  | [] => (offered, Ok false)
  | b :: G =>
      match merge_rows uninit a b hashLen lenIndices 0 with
      | Err e => (offered, Err e)
      | Ok row =>
          if DistinctIndices a b hashLen lenIndices then
            match GetIndices row hashLen (2 * lenIndices) (CollisionBitLength N K) with
            | Err e => (offered, Err e)
            | Ok soln =>
                if negb (length soln =? equihash_solution_size N K)%nat then (offered, Err eh_assert)
                else if validBlock offered soln then (offered ++ [soln], Ok true)
                else offer_with a G hashLen lenIndices (offered ++ [soln])
            end
          else offer_with a G hashLen lenIndices offered
      end
  end.
Fixpoint offer_pairs (G : list bytes) (hashLen lenIndices : nat) (offered : list bytes) : list bytes * res eh_fail bool :=
  match G with
  | [] => (offered, Ok false)
  | a :: G =>
      match offer_with a G hashLen lenIndices offered with
      | (offered, Ok false) => offer_pairs G hashLen lenIndices offered
      | stop => stop
      end
  end.

Fixpoint final_table (fuel : nat) (X : list bytes) (hashLen lenIndices i : nat) (offered : list bytes) (calls : nat) : list bytes * res eh_fail bool :=
  if (i <? length X - 1)%nat then
    match fuel with
    | O => (offered, Err eh_loop)
    | S fuel =>
        let j := S (collision_run (nth i X []) (drop (S i) X) hashLen) in
        match offer_pairs (take j (drop i X)) hashLen lenIndices offered with
        | (offered, Ok false) =>
            match throw_if_cancelled calls FinalColliding with
            | Err e => (offered, Err e)
            | Ok calls => final_table fuel X hashLen lenIndices (i + j) offered calls
            end
        | stop => stop
        end
    end
  else (offered, Ok false).

Definition final_round (X : list bytes) (hashLen lenIndices calls : nat) : list bytes * res eh_fail bool :=
  if (1 <? length X)%nat then
    match (let? _ := int_positions X in throw_if_cancelled calls FinalSorting) with
    | Err e => ([], Err e)
    | Ok calls => let X := sort (CompareSR hashLen) X in final_table (length X) X hashLen lenIndices 0 [] calls
    end
  else ([], Ok false).

Definition BasicSolve (base_state : eh_HashState) : list bytes * res eh_fail bool :=
  match (let? t := first_list init_size base_state 0 [] 0 in solver_rounds (K - 1) t.1 (HashLength N K) 4 t.2) with
  | Err e => ([], Err e)
  | Ok (X, hashLen, lenIndices, calls) => final_round X hashLen lenIndices calls
  end.
End Solver.

Definition EhBasicSolve (n k : nat) (blake2b : bytes -> bytes -> nat -> bytes) (uninit : bytes)
    (sort : (bytes -> bytes -> bool) -> list bytes -> list bytes) (base_state : eh_HashState)
    (validBlock : list bytes -> bytes -> bool) (cancelled : nat -> EhSolverCancelCheck -> bool) : list bytes * res eh_fail bool :=
  if supported n k then BasicSolve n k blake2b uninit sort validBlock cancelled base_state else ([], Err eh_threw).

Definition EhBasicSolveUncancellable (n k : nat) (blake2b : bytes -> bytes -> nat -> bytes) (uninit : bytes)
    (sort : (bytes -> bytes -> bool) -> list bytes -> list bytes) (base_state : eh_HashState)
    (validBlock : list bytes -> bytes -> bool) : list bytes * res eh_fail bool :=
  EhBasicSolve n k blake2b uninit sort base_state validBlock (fun _ _ => false).
