(* ===== verification/EquihashTable.v ===== *)
(** * Colliding a table in place

    The loops of [BasicSolve] on tables of rows, whatever the rows stand for: in a sorted table
    the rows that collide are neighbours, so the loops visit every pair of colliding rows once,
    and storing new rows over old ones loses none. *)

From Stdlib Require Import Sorted.
From stdpp Require Import list.
From S2P Require Import Prelude Serialize Transaction Block Equihash EquihashSolve.

(** ** Sorted tables *)

(** [std::sort] on rows of one width: the same rows, none of them after a greater one. *)
Definition sort_ok (sort : (bytes -> bytes -> bool) -> list bytes -> list bytes) : Prop :=
  forall W len X, Forall (fun row => length row = W) X -> (len <= W)%nat ->
    sort (CompareSR len) X ≡ₚ X /\ StronglySorted (fun a b => CompareSR len b a = false) (sort (CompareSR len) X).

Lemma sorted_lookup {A : Type} (R : A -> A -> Prop) X p q a b : StronglySorted R X -> (p < q)%nat -> X !! p = Some a -> X !! q = Some b -> R a b.
Proof.
  intros Hs. revert p q. induction Hs as [|x X Hs IH Hx]; intros p q Hpq Ha Hb; [done|]. destruct q as [|q]; [lia|]. cbn in Hb. destruct p as [|p]; cbn in Ha.
  - injection Ha as <-. eapply Forall_lookup in Hx; [|exact Hb]. done.
  - apply (IH p q); [lia|done|done].
Qed.

Lemma memcmp_total a b : length a = length b -> memcmp_lt a b = false -> memcmp_lt b a = false -> a = b.
Proof.
  revert b. induction a as [|x a IH]; intros [|y b] El H1 H2; try done. cbn in *. destruct (Z.ltb_spec x y); [done|]. destruct (Z.ltb_spec y x); [done|]. f_equal; [lia|]. apply IH; [lia|done|done].
Qed.

Lemma memcmp_refl a : memcmp_lt a a = false.
Proof. induction a as [|x a IH]; [done|]. cbn. by rewrite Z.ltb_irrefl. Qed.

Section Runs.
Context (W len : nat) (X : list bytes).
Context (Hwide : Forall (fun row => length row = W) X) (Hlen : (len <= W)%nat).
Context (Hsorted : StronglySorted (fun a b => CompareSR len b a = false) X).

Lemma key_length p a : X !! p = Some a -> length (take len a) = len.
Proof. intros Ha. eapply Forall_lookup in Hwide; [|exact Ha]. rewrite length_take. cbn in Hwide. lia. Qed.

(** No row before [i] collides with one from [i] on. *)
Definition boundary (i : nat) : Prop := forall p q a b, (p < i <= q)%nat -> X !! p = Some a -> X !! q = Some b -> take len a <> take len b.

Lemma run_collides a Y : forall q b, (q < collision_run a Y len)%nat -> Y !! q = Some b -> take len a = take len b.
Proof.
  induction Y as [|y Y IH]; intros q b Hq Hb; [done|]. cbn in Hq. destruct (HasCollision a y len) eqn:Ec; [|lia]. destruct q as [|q]; cbn in Hb.
  - injection Hb as <-. by apply bool_decide_eq_true in Ec.
  - apply (IH q); [lia|done].
Qed.

Lemma run_length a Y : (collision_run a Y len <= length Y)%nat.
Proof. induction Y as [|y Y IH]; [done|]. cbn. destruct (HasCollision a y len); lia. Qed.

Lemma run_ends a Y b : Y !! collision_run a Y len = Some b -> take len a <> take len b.
Proof.
  induction Y as [|y Y IH]; [done|]. cbn. destruct (HasCollision a y len) eqn:Ec; [exact IH|]. cbn. intros [= <-]. by apply bool_decide_eq_false in Ec.
Qed.

(** The run from a boundary on: its rows collide with each other, and it ends at a boundary. *)
Lemma run_step i : (i < length X)%nat -> boundary i ->
  let j := S (collision_run (nth i X []) (drop (S i) X) len) in
  (i + j <= length X)%nat /\ boundary (i + j) /\
  forall p q a b, (i <= p < i + j)%nat -> (i <= q < i + j)%nat -> X !! p = Some a -> X !! q = Some b -> take len a = take len b.
Proof.
  intros Hi Hb j. pose proof (run_length (nth i X []) (drop (S i) X)) as Hr. rewrite length_drop in Hr.
  destruct (lookup_lt_is_Some_2 X i Hi) as [x Hx]. assert (nth i X [] = x) as Ex by (apply nth_lookup_Some with (d := []) in Hx; done). unfold j in *. rewrite Ex in *. clear j Ex.
  set (n := collision_run x (drop (S i) X) len) in *.
  assert (forall p a, (i <= p < i + S n)%nat -> X !! p = Some a -> take len x = take len a) as Hin.
  { intros p a Hp Ha. destruct (decide (p = i)) as [->|]; [by rewrite Hx in Ha; injection Ha as <-|]. apply (run_collides x (drop (S i) X) (p - S i)); [fold n; lia|]. rewrite lookup_drop. by replace (S i + (p - S i))%nat with p by lia. }
  split; [lia|]. split.
  - intros p q a b Hpq Ha Hq E. destruct (decide (p < i)%nat) as [Hlt|Hge]; [by apply (Hb p q a b); [lia|..]|].
    assert (i + S n < length X)%nat as Hm by (apply lookup_lt_Some in Hq; lia). destruct (lookup_lt_is_Some_2 X _ Hm) as [m Em].
    assert (take len x <> take len m) as Hne. { apply (run_ends x (drop (S i) X)). fold n. rewrite lookup_drop. by replace (S i + n)%nat with (i + S n)%nat by lia. }
    apply Hne. rewrite (Hin p a ltac:(lia) Ha). apply memcmp_total; [by rewrite (key_length p a Ha), (key_length _ m Em)| |].
    + destruct (decide (q = (i + S n)%nat)) as [->|]; [rewrite Em in Hq; injection Hq as <-; rewrite E; exact (memcmp_refl _)|]. rewrite E. exact (sorted_lookup _ X (i + S n) q m b Hsorted ltac:(lia) Em Hq).
    + exact (sorted_lookup _ X p (i + S n) a m Hsorted ltac:(lia) Ha Em).
  - intros p q a b Hp Hq Ha Hb'. by rewrite <- (Hin p a Hp Ha), <- (Hin q b Hq Hb').
Qed.
End Runs.

(** ** Storing in place *)

Lemma last_removelast {A : Type} (l : list A) x : last l = Some x -> l = removelast l ++ [x].
Proof. intros H. apply last_Some in H as [l' ->]. by rewrite removelast_last. Qed.

Lemma take_insert_S {A : Type} (X : list A) p x : (p < length X)%nat -> take (S p) (<[p := x]> X) = take p X ++ [x].
Proof. intros Hp. rewrite (take_S_r _ _ x) by (by apply list_lookup_insert_eq). by rewrite take_insert_ge by lia. Qed.

Lemma store_spec n X posFree Xc : (posFree + n <= length X)%nat ->
  let '(X', posFree', Xc') := store n X posFree Xc in
  length X' = length X /\ (posFree <= posFree' <= posFree + n)%nat /\ drop (posFree + n) X' = drop (posFree + n) X /\
  take posFree' X' ++ Xc' ≡ₚ take posFree X ++ Xc /\ (Xc' = [] \/ posFree' = posFree + n)%nat.
Proof.
  revert X posFree Xc. induction n as [|n IH]; intros X posFree Xc Hn; cbn [store]; [repeat split; (done || lia || right; lia)|].
  destruct (last Xc) as [row|] eqn:El; [|apply last_None in El as ->; repeat split; (done || lia || by left)].
  specialize (IH (<[posFree:=row]> X) (S posFree) (removelast Xc)). rewrite length_insert in IH. specialize (IH ltac:(lia)).
  destruct (store n (<[posFree:=row]> X) (S posFree) (removelast Xc)) as [[X' pf] Xc']. destruct IH as (H1 & H2 & H3 & H4 & H5). replace (posFree + S n)%nat with (S posFree + n)%nat by lia.
  split; [done|]. split; [lia|]. split; [rewrite H3; rewrite drop_insert_lt by lia; done|]. split; [|destruct H5; [by left|right; lia]].
  rewrite H4, take_insert_S by lia. rewrite <- app_assoc. rewrite (last_removelast Xc row El) at 2. apply Permutation_app_head. apply Permutation_app_comm.
Qed.

(** ** Pairs of a set of colliding rows *)

Section Pairs.
Context (N K : nat) (uninit : bytes) (sort : (bytes -> bytes -> bool) -> list bytes -> list bytes) (cancelled : nat -> EhSolverCancelCheck -> bool).
Context (hashLen lenIndices : nat).

Abbreviation cb := (CollisionByteLength N K).
Abbreviation fresh := (take (FullWidth N K) uninit).

(** The row made of two. *)
Definition made (a b row : bytes) : Prop := DistinctIndices a b hashLen lenIndices = true /\ merge_rows fresh a b hashLen lenIndices cb = Ok row.
Definition mergeable (a b : bytes) : Prop := DistinctIndices a b hashLen lenIndices = true -> exists row, merge_rows fresh a b hashLen lenIndices cb = Ok row.

Lemma collide_with_spec a G Xc : (forall b, b ∈ G -> mergeable a b) ->
  exists R, collide_with N K uninit a G hashLen lenIndices Xc = Ok (Xc ++ R) /\ forall row, row ∈ R <-> exists b, b ∈ G /\ made a b row.
Proof.
  revert Xc. induction G as [|b G IH]; intros Xc Hm; cbn [collide_with].
  - exists []. rewrite app_nil_r. split; [done|]. intros row. split; [by intros ?%elem_of_nil|]. intros (b & Hb & _). by apply elem_of_nil in Hb.
  - assert (forall b', b' ∈ G -> mergeable a b') as Hm' by (intros; apply Hm; apply elem_of_cons; by right).
    destruct (DistinctIndices a b hashLen lenIndices) eqn:Ed.
    + destruct (Hm b) as [row Er]; [apply elem_of_cons; by left|done|]. rewrite Er. cbn [res_bind]. destruct (IH (Xc ++ [row]) Hm') as (R & -> & HR). exists (row :: R). rewrite <- app_assoc. split; [done|].
      intros row'. rewrite elem_of_cons, HR. split.
      * intros [->|(b' & Hb & Hm2)]; [exists b; split; [apply elem_of_cons; by left|by split]|exists b'; split; [apply elem_of_cons; by right|done]].
      * intros (b' & [->|Hb]%elem_of_cons & Hm2); [left; destruct Hm2 as [_ Hm2]; congruence|right; by exists b'].
    + destruct (IH Xc Hm') as (R & -> & HR). exists R. split; [done|]. intros row'. rewrite HR. split.
      * intros (b' & Hb & Hm2). exists b'. split; [apply elem_of_cons; by right|done].
      * intros (b' & [->|Hb]%elem_of_cons & Hm2); [destruct Hm2; congruence|by exists b'].
Qed.

Lemma collide_pairs_spec G Xc : (forall p q a b, (p < q)%nat -> G !! p = Some a -> G !! q = Some b -> mergeable a b) ->
  exists R, collide_pairs N K uninit G hashLen lenIndices Xc = Ok (Xc ++ R) /\ forall row, row ∈ R <-> exists p q a b, (p < q)%nat /\ G !! p = Some a /\ G !! q = Some b /\ made a b row.
Proof.
  revert Xc. induction G as [|a G IH]; intros Xc Hm; cbn [collide_pairs].
  - exists []. rewrite app_nil_r. split; [done|]. intros row. split; [by intros ?%elem_of_nil|]. by intros (p & q & a & b & _ & Ha & _).
  - destruct (collide_with_spec a G Xc) as (R1 & -> & HR1); [intros b [q Hq]%list_elem_of_lookup; by apply (Hm 0%nat (S q)); [lia|..]|]. cbn [res_bind].
    destruct (IH (Xc ++ R1)) as (R2 & -> & HR2); [intros p q x y Hpq Hx Hy; apply (Hm (S p) (S q)); [lia|done|done]|]. exists (R1 ++ R2). rewrite <- app_assoc. split; [done|].
    intros row. rewrite elem_of_app, HR1, HR2. split.
    + intros [(b & [q Hq]%list_elem_of_lookup & Hmade)|(p & q & x & y & Hpq & Hx & Hy & Hmade)]; [exists 0%nat, (S q), a, b|exists (S p), (S q), x, y]; (repeat split; try done; try lia; apply Hmade).
    + intros (p & q & x & y & Hpq & Hx & Hy & Hmade). destruct q as [|q]; [lia|]. destruct p as [|p]; cbn in Hx, Hy.
      * injection Hx as <-. left. exists y. split; [by apply list_elem_of_lookup_2 with q|done].
      * right. exists p, q, x, y. repeat split; try done; try lia; apply Hmade.
Qed.

(** ** The table *)

(** The rows made of two colliding rows of [X] before the place [i]. *)
Definition made_below (i : nat) (X : list bytes) (row : bytes) : Prop :=
  exists p q a b, (p < q < i)%nat /\ X !! p = Some a /\ X !! q = Some b /\ take cb a = take cb b /\ made a b row.

Context (W : nat) (T : list bytes).
Context (Hwide : Forall (fun row => length row = W) T) (Hcb : (cb <= W)%nat).
Context (Hsorted : StronglySorted (fun a b => CompareSR cb b a = false) T).
Context (Hmerge : forall a b, a ∈ T -> b ∈ T -> take cb a = take cb b -> mergeable a b).

(** The pairs up to the end of a run: those before it, and those of the run. *)
Lemma made_below_run i j row : boundary cb T i ->
  (forall p q a b, (i <= p < i + j)%nat -> (i <= q < i + j)%nat -> T !! p = Some a -> T !! q = Some b -> take cb a = take cb b) ->
  made_below (i + j) T row <-> made_below i T row \/ exists p q a b, (p < q)%nat /\ take j (drop i T) !! p = Some a /\ take j (drop i T) !! q = Some b /\ made a b row.
Proof.
  intros Hb Hrun. split.
  - intros (p & q & a & b & Hpq & Ha & Hbq & Ek & Hm). destruct (decide (q < i)%nat); [left; exists p, q, a, b; repeat split; (done || lia || apply Hm)|].
    destruct (decide (p < i)%nat) as [Hlt|]; [exfalso; by apply (Hb p q a b); [lia|..]|]. right. exists (p - i)%nat, (q - i)%nat, a, b. rewrite !lookup_take_lt, !lookup_drop by lia.
    replace (i + (p - i))%nat with p by lia. replace (i + (q - i))%nat with q by lia. repeat split; (done || lia || apply Hm).
  - intros [(p & q & a & b & Hpq & Ha & Hbq & Ek & Hm)|(p & q & a & b & Hpq & Ha & Hbq & Hm)]; [exists p, q, a, b; repeat split; (done || lia || apply Hm)|].
    apply lookup_take_Some in Ha as [Ha Hp]. apply lookup_take_Some in Hbq as [Hbq Hq]. rewrite lookup_drop in Ha, Hbq. exists (i + p)%nat, (i + q)%nat, a, b.
    split; [lia|]. split; [done|]. split; [done|]. split; [|done]. apply (Hrun (i + p)%nat (i + q)%nat); (done || lia).
Qed.

Lemma collide_table_spec fuel i posFree X Xc calls : length X = length T -> (posFree <= i <= length T)%nat -> drop i X = drop i T -> boundary cb T i ->
  (forall row, row ∈ take posFree X ++ Xc <-> made_below i T row) -> (length T - i <= fuel)%nat ->
  match collide_table N K uninit cancelled fuel X hashLen lenIndices i posFree Xc calls with
  | Ok (X', posFree', Xc', _) => length X' = length T /\ (posFree' <= length T)%nat /\ forall row, row ∈ take posFree' X' ++ Xc' <-> made_below (length T) T row
  | Err e => e = eh_cancelled
  end.
Proof.
  revert i posFree X Xc calls. induction fuel as [|fuel IH]; intros i posFree X Xc calls Hl Hi Hd Hb Hrows Hf.
  all: cbn [collide_table]; rewrite Hl; destruct (Nat.ltb_spec i (length T - 1)) as [Hlt|Hge]; [try lia|].
  1,3: split; [done|]; split; [lia|]; intros row; rewrite Hrows; split; intros (p & q & a & b & Hpq & Ha & Hbq & Ek & Hm);
    pose proof (lookup_lt_Some _ _ _ Hbq); [exists p, q, a, b; repeat split; (done || lia || apply Hm)|];
    (destruct (decide (q < i)%nat); [exists p, q, a, b; repeat split; (done || lia || apply Hm)|]); exfalso; by apply (Hb p q a b); [lia|..].
  destruct (run_step W cb T Hwide Hcb Hsorted i ltac:(lia) Hb) as (Hj & Hb' & Hrun).
  assert (nth i X [] = nth i T []) as En. { destruct (lookup_lt_is_Some_2 T i ltac:(lia)) as [x Hx]. assert (X !! i = Some x) as Hx'; [|by rewrite (nth_lookup_Some _ _ [] _ Hx), (nth_lookup_Some _ _ [] _ Hx')].
    rewrite <- (Nat.add_0_r i), <- lookup_drop, Hd, lookup_drop, Nat.add_0_r. done. }
  assert (drop (S i) X = drop (S i) T) as Ed by (rewrite <- (Nat.add_1_r i), <- !drop_drop, Hd; done).
  rewrite En, Ed, Hd. set (j := S (collision_run (nth i T []) (drop (S i) T) cb)) in *.
  destruct (collide_pairs_spec (take j (drop i T)) Xc) as (R & -> & HR).
  { intros p q a b Hpq Ha Hbq. apply lookup_take_Some in Ha as [Ha Hp]. apply lookup_take_Some in Hbq as [Hbq Hq]. rewrite lookup_drop in Ha, Hbq.
    apply Hmerge; [by eapply list_elem_of_lookup_2|by eapply list_elem_of_lookup_2|]. apply (Hrun (i + p)%nat (i + q)%nat); (done || lia). }
  cbn [res_bind]. pose proof (store_spec (i + j - posFree) X posFree (Xc ++ R) ltac:(lia)) as Hs. replace (posFree + (i + j - posFree))%nat with (i + j)%nat in Hs by lia.
  destruct (store (i + j - posFree) X posFree (Xc ++ R)) as [[X1 pf1] Xc1]. destruct Hs as (L1 & Hpf & Hd1 & Hperm & _). unfold throw_if_cancelled. destruct (cancelled calls ListColliding); cbn [res_bind]; [done|].
  apply IH; [lia|lia|rewrite Hd1, <- drop_drop, Hd, drop_drop; done|done| |lia]. intros row. rewrite Hperm, (made_below_run i j row Hb Hrun), <- Hrows, <- HR, !elem_of_app. tauto.
Qed.

(** A round: the new table holds the rows made of two colliding rows of the old one. *)
Lemma solver_round_spec X calls : sort (CompareSR cb) X = T ->
  match solver_round N K uninit sort cancelled X hashLen lenIndices calls with
  | Ok (X', _) => forall row, row ∈ X' <-> made_below (length T) T row
  | Err e => e = eh_cancelled \/ e = eh_int
  end.
Proof.
  intros Es. unfold solver_round, int_positions. destruct (_ <? _); cbn [res_bind]; [by right|]. rewrite Es. unfold throw_if_cancelled at 1. destruct (cancelled calls ListSorting); cbn [res_bind]; [by left|].
  pose proof (collide_table_spec (length T) 0 0 T [] (S calls)) as Ht. destruct (collide_table N K uninit cancelled (length T) T hashLen lenIndices 0 0 [] (S calls)) as [[[[X1 pf1] Xc1] calls1]|e].
  2:{ cbn [res_bind]. left. apply Ht; try done; try lia; [intros p q a b; lia|]. intros row. split; [by intros ?%elem_of_nil|]. intros (p & q & a & b & Hpq & _). lia. }
  destruct Ht as (L1 & Hpf1 & Hrows); try done; try lia; [intros p q a b; lia| |]. { intros row. split; [by intros ?%elem_of_nil|]. intros (p & q & a & b & Hpq & _). lia. }
  cbn [res_bind]. pose proof (store_spec (length X1 - pf1) X1 pf1 Xc1 ltac:(lia)) as Hs. destruct (store (length X1 - pf1) X1 pf1 Xc1) as [[X2 pf2] Xc2]. destruct Hs as (L2 & Hpf2 & _ & Hperm & Hend).
  replace (pf1 + (length X1 - pf1))%nat with (length X1) in Hend by lia. unfold throw_if_cancelled. destruct (cancelled calls1 RoundEnd); cbn [res_bind]; [by left|]. intros row. rewrite <- Hrows, <- Hperm.
  destruct (Nat.ltb_spec 0 (length Xc2)).
  - destruct Hend as [-> | ->]; [cbn in *; lia|]. by rewrite take_ge by lia.
  - destruct Xc2; [|cbn in *; lia]. rewrite app_nil_r. destruct (Nat.ltb_spec pf2 (length X2)); [done|]. by rewrite take_ge by lia.
Qed.
End Pairs.

(** ** The final round *)

Section Offers.
Context (N K : nat) (uninit : bytes) (validBlock : list bytes -> bytes -> bool) (cancelled : nat -> EhSolverCancelCheck -> bool).
Context (hashLen lenIndices : nat).

(** The solution of two rows. *)
Definition solution_of (a b s : bytes) : Prop :=
  DistinctIndices a b hashLen lenIndices = true /\
  exists row, merge_rows uninit a b hashLen lenIndices 0 = Ok row /\ GetIndices row hashLen (2 * lenIndices) (CollisionBitLength N K) = Ok s.
Definition solvable (a b : bytes) : Prop :=
  (exists row, merge_rows uninit a b hashLen lenIndices 0 = Ok row) /\
  (DistinctIndices a b hashLen lenIndices = true -> exists s, solution_of a b s /\ length s = equihash_solution_size N K).

(** What follows [offered] are solutions with [P]: all of them, unless one was taken or the
    solver was cancelled. *)
Definition offers (offered : list bytes) (P : bytes -> Prop) (r : list bytes * res eh_fail bool) : Prop :=
  exists R, r.1 = offered ++ R /\ (forall s, s ∈ R -> P s) /\
    match r.2 with
    | Ok false => forall s, P s -> s ∈ R
    | Ok true => exists before s, r.1 = before ++ [s] /\ validBlock before s = true
    | Err e => e = eh_cancelled
    end.

Lemma offers_none offered (P : bytes -> Prop) : (forall s, ~ P s) -> offers offered P (offered, Ok false).
Proof. intros H. exists []. rewrite app_nil_r. split; [done|]. split; [by intros s ?%elem_of_nil|]. intros s Hs. by apply H in Hs. Qed.

Lemma offers_iff offered (P Q : bytes -> Prop) r : (forall s, P s <-> Q s) -> offers offered P r -> offers offered Q r.
Proof.
  intros H (R & E & HR & Hr). exists R. split; [done|]. split; [intros s Hs; by apply H, HR|]. destruct (r.2) as [[]|e]; [done| |done]. intros s Hs. by apply Hr, H.
Qed.

Lemma offers_stop offered (P Q : bytes -> Prop) r : r.2 <> Ok false -> offers offered P r -> offers offered (fun s => P s \/ Q s) r.
Proof. intros Hne (R & E & HR & Hr). exists R. split; [done|]. split; [intros s Hs; left; by apply HR|]. by destruct (r.2) as [[]|e]. Qed.

Lemma offers_next offered offered1 (P Q : bytes -> Prop) r : offers offered P (offered1, Ok false) -> offers offered1 Q r -> offers offered (fun s => P s \/ Q s) r.
Proof.
  intros (R1 & E1 & HR1 & Hr1) (R2 & E2 & HR2 & Hr2). cbn in E1, Hr1. subst offered1. exists (R1 ++ R2). rewrite app_assoc. split; [done|]. split.
  - intros s [Hs|Hs]%elem_of_app; [left; by apply HR1|right; by apply HR2].
  - destruct (r.2) as [[]|e]; [done| |done]. intros s [Hs|Hs]; apply elem_of_app; [left; by apply Hr1|right; by apply Hr2].
Qed.

Lemma offers_one offered (P : bytes -> Prop) s : P s -> (forall s', P s' -> s' = s) -> offers offered P (offered ++ [s], Ok (validBlock offered s)).
Proof.
  intros Hs Hu. exists [s]. split; [done|]. split; [intros s' Hs'; by apply list_elem_of_singleton in Hs' as ->|]. cbn. destruct (validBlock offered s) eqn:Ev; [by exists offered, s|].
  intros s' Hs'. apply list_elem_of_singleton. auto.
Qed.

Lemma offer_with_spec a G offered : (forall b, b ∈ G -> solvable a b) ->
  offers offered (fun s => exists b, b ∈ G /\ solution_of a b s) (offer_with N K uninit validBlock a G hashLen lenIndices offered).
Proof.
  revert offered. induction G as [|b G IH]; intros offered Hs; cbn [offer_with]; [apply offers_none; intros s (b & Hb & _); by apply elem_of_nil in Hb|].
  assert (forall b', b' ∈ G -> solvable a b') as Hs' by (intros; apply Hs; apply elem_of_cons; by right). destruct (Hs b) as [[row Er] Hd]; [apply elem_of_cons; by left|]. rewrite Er.
  apply (offers_iff _ (fun s => solution_of a b s \/ exists b', b' ∈ G /\ solution_of a b' s)).
  { intros s. split; [intros [H|(b' & Hb & H)]; [exists b; split; [apply elem_of_cons; by left|done]|exists b'; split; [apply elem_of_cons; by right|done]]|].
    intros (b' & [->|Hb]%elem_of_cons & H); [by left|right; by exists b']. }
  destruct (DistinctIndices a b hashLen lenIndices) eqn:Ed.
  - destruct (Hd eq_refl) as (s & Hsol & El). assert (forall s', solution_of a b s' -> s' = s) as Hu by (destruct Hsol as (_ & r1 & E1 & E2); intros s' (_ & r2 & E3 & E4); congruence).
    assert (GetIndices row hashLen (2 * lenIndices) (CollisionBitLength N K) = Ok s) as -> by (destruct Hsol as (_ & r1 & E1 & E2); congruence). rewrite El, Nat.eqb_refl. cbn [negb].
    pose proof (offers_one offered _ s Hsol Hu) as H1. destruct (validBlock offered s); [by apply offers_stop|]. eapply offers_next; [exact H1|by apply IH].
  - apply (offers_next _ offered); [apply offers_none; intros s [H _]; congruence|by apply IH].
Qed.

Lemma offer_pairs_spec G offered : (forall p q a b, (p < q)%nat -> G !! p = Some a -> G !! q = Some b -> solvable a b) ->
  offers offered (fun s => exists p q a b, (p < q)%nat /\ G !! p = Some a /\ G !! q = Some b /\ solution_of a b s) (offer_pairs N K uninit validBlock G hashLen lenIndices offered).
Proof.
  revert offered. induction G as [|a G IH]; intros offered Hs; cbn [offer_pairs]; [apply offers_none; by intros s (p & q & a & b & _ & Ha & _)|].
  apply (offers_iff _ (fun s => (exists b, b ∈ G /\ solution_of a b s) \/ exists p q x y, (p < q)%nat /\ G !! p = Some x /\ G !! q = Some y /\ solution_of x y s)).
  { intros s. split.
    - intros [(b & [q Hq]%list_elem_of_lookup & H)|(p & q & x & y & Hpq & Hx & Hy & H)]; [exists 0%nat, (S q), a, b|exists (S p), (S q), x, y]; (repeat split; try done; try lia; apply H).
    - intros (p & q & x & y & Hpq & Hx & Hy & H). destruct q as [|q]; [lia|]. destruct p as [|p]; cbn in Hx, Hy.
      + injection Hx as <-. left. exists y. split; [by apply list_elem_of_lookup_2 with q|done].
      + right. exists p, q, x, y. repeat split; try done; try lia; apply H. }
  pose proof (offer_with_spec a G offered) as H1. destruct (offer_with N K uninit validBlock a G hashLen lenIndices offered) as [off1 o1].
  assert (offers offered (fun s => exists b, b ∈ G /\ solution_of a b s) (off1, o1)) as H1' by (apply H1; intros b [q Hq]%list_elem_of_lookup; by apply (Hs 0%nat (S q)); [lia|..]).
  destruct o1 as [[]|e]; [by apply offers_stop| |by apply offers_stop]. eapply offers_next; [exact H1'|]. apply IH. intros p q x y Hpq Hx Hy. apply (Hs (S p) (S q)); [lia|done|done].
Qed.

Context (W : nat) (T : list bytes).
Context (Hwide : Forall (fun row => length row = W) T) (Hlen : (hashLen <= W)%nat).
Context (Hsorted : StronglySorted (fun a b => CompareSR hashLen b a = false) T).
Context (Hsolve : forall a b, a ∈ T -> b ∈ T -> take hashLen a = take hashLen b -> solvable a b).

(** The solutions of two colliding rows from the place [i] on. *)
Definition solution_from (i : nat) (s : bytes) : Prop :=
  exists p q a b, (i <= p < q)%nat /\ T !! p = Some a /\ T !! q = Some b /\ take hashLen a = take hashLen b /\ solution_of a b s.

Lemma solution_from_run i j s : (i + j <= length T)%nat -> boundary hashLen T (i + j) ->
  (forall p q a b, (i <= p < i + j)%nat -> (i <= q < i + j)%nat -> T !! p = Some a -> T !! q = Some b -> take hashLen a = take hashLen b) ->
  (exists p q a b, (p < q)%nat /\ take j (drop i T) !! p = Some a /\ take j (drop i T) !! q = Some b /\ solution_of a b s) \/ solution_from (i + j) s <-> solution_from i s.
Proof.
  intros Hj Hb Hrun. split.
  - intros [(p & q & a & b & Hpq & Ha & Hbq & Hm)|(p & q & a & b & Hpq & Ha & Hbq & Ek & Hm)]; [|exists p, q, a, b; repeat split; (done || lia || apply Hm)].
    apply lookup_take_Some in Ha as [Ha Hp]. apply lookup_take_Some in Hbq as [Hbq Hq]. rewrite lookup_drop in Ha, Hbq. exists (i + p)%nat, (i + q)%nat, a, b.
    split; [lia|]. split; [done|]. split; [done|]. split; [|done]. apply (Hrun (i + p)%nat (i + q)%nat); (done || lia).
  - intros (p & q & a & b & Hpq & Ha & Hbq & Ek & Hm). destruct (decide (i + j <= p)%nat); [right; exists p, q, a, b; repeat split; (done || lia || apply Hm)|].
    destruct (decide (i + j <= q)%nat) as [Hge|]; [exfalso; by apply (Hb p q a b); [lia|..]|]. left. exists (p - i)%nat, (q - i)%nat, a, b. rewrite !lookup_take_lt, !lookup_drop by lia.
    replace (i + (p - i))%nat with p by lia. replace (i + (q - i))%nat with q by lia. repeat split; (done || lia || apply Hm).
Qed.

Lemma final_table_spec fuel i offered calls : (i <= length T)%nat -> boundary hashLen T i -> (length T - i <= fuel)%nat ->
  offers offered (solution_from i) (final_table N K uninit validBlock cancelled fuel T hashLen lenIndices i offered calls).
Proof.
  revert i offered calls. induction fuel as [|fuel IH]; intros i offered calls Hi Hb Hf.
  all: cbn [final_table]; destruct (Nat.ltb_spec i (length T - 1)) as [Hlt|Hge]; [try lia|].
  1,3: apply offers_none; intros s (p & q & a & b & Hpq & Ha & Hbq & _); apply lookup_lt_Some in Hbq; lia.
  destruct (run_step W hashLen T Hwide Hlen Hsorted i ltac:(lia) Hb) as (Hj & Hb' & Hrun). set (j := S (collision_run (nth i T []) (drop (S i) T) hashLen)) in *.
  apply (offers_iff _ _ _ _ (fun s => solution_from_run i j s Hj Hb' Hrun)). pose proof (offer_pairs_spec (take j (drop i T)) offered) as Hp.
  destruct (offer_pairs N K uninit validBlock (take j (drop i T)) hashLen lenIndices offered) as [off1 o1].
  assert (offers offered (fun s => exists p q a b, (p < q)%nat /\ take j (drop i T) !! p = Some a /\ take j (drop i T) !! q = Some b /\ solution_of a b s) (off1, o1)) as H1.
  { apply Hp. intros p q a b Hpq Ha Hbq. apply lookup_take_Some in Ha as [Ha Hpj]. apply lookup_take_Some in Hbq as [Hbq Hq]. rewrite lookup_drop in Ha, Hbq.
    apply Hsolve; [by eapply list_elem_of_lookup_2|by eapply list_elem_of_lookup_2|]. apply (Hrun (i + p)%nat (i + q)%nat); (done || lia). }
  destruct o1 as [[]|e]; [by apply offers_stop| |by apply offers_stop]. unfold throw_if_cancelled. destruct (cancelled calls FinalColliding); [|eapply offers_next; [exact H1|]; apply IH; [lia|done|lia]].
  apply (offers_stop offered _ (solution_from (i + j)) (off1, Err eh_cancelled)); [done|]. destruct H1 as (R & E & HR & _). exists R. by split_and!.
Qed.
End Offers.
