(* ===== verification/EquihashSolveProps.v ===== *)
(** * What the basic Equihash solver finds

    [BasicSolve] offers exactly the solutions that [IsValidSolution] accepts: after [r] rounds
    the table holds the rows of all valid trees of height [r], and of nothing else. *)

From Stdlib Require Import Sorted.
From stdpp Require Import list.
From S2P Require Import Prelude Serialize Transaction Block Equihash EquihashBits EquihashRows EquihashProps EquihashSolve EquihashTable.

(** ** Parameters *)

(** The rows of the table have room for the indices of all rounds but the last. *)
Record solver_params_ok (N K : nat) : Prop := {
  so_first : (HashLength N K + 4 <= FullWidth N K)%nat;
  so_merge : forall r, (r < K - 1)%nat -> ((K - r) * CollisionByteLength N K + 8 * 2 ^ r <= FullWidth N K)%nat;
  so_size : equihash_solution_size N K = SolutionWidth N K
}.

Lemma supported_solver_ok N K : supported N K = true -> solver_params_ok N K.
Proof.
  unfold supported. rewrite !orb_true_iff, !andb_true_iff, !Nat.eqb_eq. intros [[[[-> ->]|[-> ->]]|[-> ->]]|[-> ->]];
    (split; [apply Nat.leb_le; vm_compute; reflexivity|intros r; apply rounds_fit_spec; vm_compute; reflexivity|reflexivity]).
Qed.

Lemma final_width N K : (1 <= K)%nat -> FullWidth N K = (2 * CollisionByteLength N K + 4 * 2 ^ (K - 1))%nat /\ FinalFullWidth N K = (2 * CollisionByteLength N K + 8 * 2 ^ (K - 1))%nat.
Proof. intros HK. unfold FullWidth, FinalFullWidth, ProofSize. split; [done|]. replace K with (S (K - 1)) at 2 by lia. cbn [Nat.pow]. lia. Qed.

Lemma padded_inj cb xs ys : digits_ok (8 * cb) xs -> digits_ok (8 * cb) ys -> length xs = length ys -> padded 0 cb xs = padded 0 cb ys -> xs = ys.
Proof.
  intros Hx. revert ys. induction Hx as [|x xs Hx Hxs IH]; intros [|y ys] Hy El E; try done. inversion Hy; subst. rewrite !padded_cons in E. apply app_inj_1 in E as [E1 E2]; [|by rewrite !length_digits].
  f_equal; [by apply digits_inj in E1|]. apply IH; [done|by injection El|done].
Qed.

Section Solver.
Context {N K : nat} {blake2b : bytes -> bytes -> nat -> bytes} {uninit : bytes} {base : eh_HashState}.
Context {sort : (bytes -> bytes -> bool) -> list bytes -> list bytes} {validBlock : list bytes -> bytes -> bool} {cancelled : nat -> EhSolverCancelCheck -> bool}.
Context (Hp : params_ok N K) (Hso : solver_params_ok N K) (Hblake : blake2b_ok blake2b) (Hwidth : length uninit = FinalFullWidth N K) (Hsort : sort_ok sort).

Abbreviation c := (CollisionBitLength N K).
Abbreviation cb := (CollisionByteLength N K).
Abbreviation W := (FullWidth N K).
Abbreviation fresh := (take (FullWidth N K) uninit).
Abbreviation xor_digit := (xor_digit N K blake2b base).
Abbreviation pair_ok := (pair_ok N K blake2b base).
Abbreviation valid_tree := (valid_tree N K blake2b base).
Abbreviation row_is := (row_is N K blake2b base (FullWidth N K)).

Lemma length_fresh : length fresh = W.
Proof. rewrite length_take, Hwidth. pose proof (po_rounds _ _ Hp). destruct (final_width N K) as [-> ->]; lia. Qed.

(** A valid tree of height [r] over indices. *)
Definition tree (r : nat) (l : list Z) : Prop := length l = (2 ^ r)%nat /\ digits_ok (c + 1) l /\ valid_tree r l.

(** The table after [r] rounds. *)
Definition table_ok (r : nat) (X : list bytes) : Prop :=
  (forall row, row ∈ X -> exists l, tree r l /\ row_is r row l) /\ (forall l, tree r l -> exists row, row ∈ X /\ row_is r row l).

Lemma table_wide r X : table_ok r X -> Forall (fun row => length row = W) X.
Proof. intros [Hs _]. apply Forall_forall. intros row (l & _ & _ & _ & rest & _ & El)%Hs. exact El. Qed.

(** ** The first list *)

Definition indexed (X : list bytes) : Prop := Forall2 (row_is 0) X (map (fun k => [Z.of_nat k]) (seq 0 (length X))).

Lemma init_size_Z : Z.of_nat (init_size N K) = 2 ^ Z.of_nat (c + 1) /\ 2 ^ Z.of_nat (c + 1) <= 2 ^ 25.
Proof. unfold init_size. rewrite Nat2Z.inj_pow. split; [done|]. pose proof (po_bits _ _ Hp). apply Z.pow_le_mono_r; lia. Qed.

Lemma indexed_snoc X row : indexed X -> row_is 0 row [Z.of_nat (length X)] -> indexed (X ++ [row]).
Proof. intros HX Hr. unfold indexed. rewrite length_app, seq_app, map_app. apply Forall2_app; [done|]. by constructor. Qed.

Lemma hash_rows_spec n g i X : 0 <= g -> 0 <= i -> i + Z.of_nat n = Z.of_nat (IndicesPerHashOutput N) -> Z.of_nat (length X) = g * Z.of_nat (IndicesPerHashOutput N) + i ->
  indexed X -> (length X <= init_size N K)%nat ->
  exists X', hash_rows N K uninit n (GenerateHash blake2b base g (HashOutput N)) g i X = Ok X' /\ indexed X' /\ (length X' = init_size N K \/ (length X' = length X + n /\ length X' < init_size N K))%nat.
Proof.
  intros Hg. revert i X. destruct init_size_Z as [EI HI]. induction n as [|n IH]; intros i X Hi Hn El HX Hle; cbn [hash_rows].
  - exists X. split; [done|]. split; [done|]. lia.
  - destruct (Nat.ltb_spec (length X) (init_size N K)) as [Hlt|Hge]; [|exists X; split; [done|]; split; [done|left; lia]].
    set (I := Z.of_nat (IndicesPerHashOutput N)) in *. set (x := Z.of_nat (length X)) in *. assert (x / I = g /\ x mod I = i) as [Ex1 Ex2].
    { rewrite El. split; [rewrite Z.div_add_l, Z.div_small by lia; lia|]. rewrite Z.add_comm, Z.mod_add, Z.mod_small by lia. done. }
    destruct (leaf_bytes_ok (base := base) Hp Hblake x ltac:(lia)) as (_ & _ & Hb). fold I in Hb. rewrite Ex2 in Hb.
    assert (forall g n, length (GenerateHash blake2b base g n) = n) as EG by (intros; apply Hblake). rewrite EG. destruct (Nat.ltb_spec (HashOutput N) (Z.to_nat i * N / 8 + N / 8)); [lia|].
    assert (sub_array (GenerateHash blake2b base g (HashOutput N)) (Z.to_nat i * N / 8) (N / 8) = leaf_bytes N blake2b base x) as -> by (unfold leaf_bytes; fold I; by rewrite Ex1, Ex2).
    assert (u32 (u32 (g * I) + i) = x) as ->. { rewrite (u32_id (g * I)) by nia. rewrite u32_id by lia. lia. }
    destruct (leaf_row Hp Hblake (base := base) fresh x) as (row & -> & Hrow); [lia|rewrite length_fresh; apply Hso|]. rewrite length_fresh in Hrow. cbn [res_bind].
    destruct (IH (i + 1) (X ++ [row])) as (X' & -> & HX' & Hl'); [lia|lia|rewrite length_app; cbn [length]; lia|by apply indexed_snoc|rewrite length_app; cbn [length]; lia|].
    exists X'. split; [done|]. split; [done|]. rewrite length_app in Hl'. cbn [length] in Hl'. lia.
Qed.

Lemma first_list_spec fuel g X calls : 0 <= g -> indexed X -> (length X <= init_size N K)%nat -> (length X = init_size N K \/ Z.of_nat (length X) = g * Z.of_nat (IndicesPerHashOutput N)) ->
  (init_size N K - length X <= fuel)%nat ->
  match first_list N K blake2b uninit cancelled fuel base g X calls with
  | Ok (X', _) => indexed X' /\ length X' = init_size N K
  | Err e => e = eh_cancelled
  end.
Proof.
  revert g X calls. destruct init_size_Z as [EI HI]. induction fuel as [|fuel IH]; intros g X calls Hg HX Hle Hl Hf; cbn [first_list]; destruct (Nat.ltb_spec (length X) (init_size N K)) as [Hlt|Hge]; try (split; [done|lia]); [lia|].
  destruct Hl as [Hl|Hl]; [lia|]. assert (1 <= IndicesPerHashOutput N)%nat as HIp by (destruct (po_size _ _ Hp); unfold IndicesPerHashOutput; apply Nat.div_le_lower_bound; lia).
  destruct (hash_rows_spec (IndicesPerHashOutput N) g 0 X) as (X' & -> & HX' & Hl'); [lia|lia|lia|lia|done|done|]. cbn [res_bind]. unfold throw_if_cancelled. destruct (cancelled calls ListGeneration); cbn [res_bind]; [done|].
  rewrite u32_id by nia. apply IH; [lia|done|lia| |lia]. destruct Hl' as [Hl'|[Hl' _]]; [by left|right; lia].
Qed.

Lemma first_table X : indexed X -> length X = init_size N K -> table_ok 0 X.
Proof.
  intros HX El. destruct init_size_Z as [EI _]. split.
  - intros row [k Hk]%list_elem_of_lookup. destruct (Forall2_lookup_l _ _ _ _ _ HX Hk) as (l & Hl & Hrow). exists l. split; [|done]. destruct Hrow as (E1 & E2 & _). by split.
  - intros l (E1 & E2 & _). destruct l as [|x [|? ?]]; cbn in E1; try lia. inversion E2 as [|? ? Hx _]; subst. assert (Z.to_nat x < length X)%nat as Hlt by lia.
    destruct (lookup_lt_is_Some_2 X _ Hlt) as [row Hr]. destruct (Forall2_lookup_l _ _ _ _ _ HX Hr) as (l & Hl & Hrow). exists row. split; [by eapply list_elem_of_lookup_2|].
    apply list_lookup_fmap_Some in Hl as (k & -> & Hk). apply lookup_seq in Hk as [-> _]. cbn in Hrow. by replace (Z.of_nat (Z.to_nat x)) with x in Hrow by lia.
Qed.
(** ** Rounds *)

(** The parts of a tree. *)
Lemma tree_parts r l : tree (S r) l -> exists la lb, l = la ++ lb /\ tree r la /\ tree r lb /\ pair_ok r la lb.
Proof.
  intros (El & Hd & Ht). exists (take (2 ^ r) l), (drop (2 ^ r) l). destruct (valid_tree_parts r l El) as [Ea Eb]. cbn in Ht. destruct Ht as (Ha & Hb & Hpair). rewrite take_drop.
  split; [done|]. split; [split; [done|]; split; [by apply Forall_take|done]|]. split; [split; [done|]; split; [by apply Forall_drop|done]|done].
Qed.

Lemma tree_join r la lb : tree r la -> tree r lb -> pair_ok r la lb -> tree (S r) (la ++ lb).
Proof.
  intros (Ea & Ha & Ta) (Eb & Hb & Tb) Hpair. split; [rewrite length_app; cbn [Nat.pow]; lia|]. split; [by apply Forall_app|]. by apply valid_tree_app.
Qed.

Lemma tree_nonempty r l : tree r l -> l <> [].
Proof. intros (El & _) ->. pose proof (Nat.pow_nonzero 2 r). cbn in El. lia. Qed.

Lemma disjoint_heads r la lb : tree r la -> tree r lb -> (forall i, i ∈ la -> i ∉ lb) -> hd 0 la <> hd 0 lb.
Proof. intros Ha Hb Hd E. apply (Hd (hd 0 la)); [apply hd_in; by eapply tree_nonempty|rewrite E; apply hd_in; by eapply tree_nonempty]. Qed.

(** Two trees that agree in a digit and have no index in common, in either order. *)
Lemma tree_merged r la lb : tree r la -> tree r lb -> xor_digit r la = xor_digit r lb -> (forall i, i ∈ la -> i ∉ lb) -> tree (S r) (merged la lb).
Proof.
  intros Ha Hb Hx Hd. pose proof (disjoint_heads r la lb Ha Hb Hd). unfold merged. destruct (Z.ltb_spec (hd 0 la) (hd 0 lb)).
  - apply tree_join; [done|done|]. split; [done|]. by split.
  - apply tree_join; [done|done|]. split; [done|]. split; [lia|]. intros i Hi Hi'. by apply (Hd i).
Qed.

Lemma merged_pair r la lb : pair_ok r la lb -> merged la lb = la ++ lb /\ merged lb la = la ++ lb.
Proof. intros (_ & Hlt & _). unfold merged. destruct (Z.ltb_spec (hd 0 la) (hd 0 lb)), (Z.ltb_spec (hd 0 lb) (hd 0 la)); (done || lia). Qed.

Lemma collision_take r a b la lb : (r <= K)%nat -> row_is r a la -> row_is r b lb -> take cb a = take cb b <-> xor_digit r la = xor_digit r lb.
Proof. intros Hr Ra Rb. rewrite <- (row_collision Hp Hblake W r a b la lb Hr Ra Rb). unfold HasCollision. by rewrite bool_decide_eq_true. Qed.

(** Rows of a pair are at different places. *)
Lemma pair_places r a b la lb (X : list bytes) : row_is r a la -> row_is r b lb -> (forall i, i ∈ la -> i ∉ lb) -> a ∈ X -> b ∈ X ->
  exists p q, X !! p = Some a /\ X !! q = Some b /\ (p < q \/ q < p)%nat.
Proof.
  intros Ra Rb Hd [p Ha]%list_elem_of_lookup [q Hb]%list_elem_of_lookup. exists p, q. split; [done|]. split; [done|]. destruct (Nat.lt_total p q) as [|[->|]]; [by left| |by right].
  exfalso. rewrite Ha in Hb. injection Hb as <-. pose proof (proj2 (row_distinct Hp W r a a la lb Ra Rb) Hd) as E. pose proof (proj1 (row_distinct Hp W r a a la la Ra Ra) E) as Hbad.
  apply (Hbad (hd 0 la)); apply hd_in; by eapply row_nonempty.
Qed.

Lemma round_merge r a b la lb : (r < K - 1)%nat -> tree r la -> tree r lb -> row_is r a la -> row_is r b lb -> (forall i, i ∈ la -> i ∉ lb) ->
  exists row, merge_rows fresh a b ((K + 1 - r) * cb) (4 * 2 ^ r) cb = Ok row /\ row_is (S r) row (merged la lb).
Proof.
  intros Hr Ta Tb Ra Rb Hd. destruct (merge_rows_spec (base := base) Hp Hblake fresh W r a b la lb) as (row & E & Hrow); [lia|done|done|by eapply disjoint_heads|by rewrite length_fresh|rewrite length_fresh; by apply Hso|].
  rewrite length_fresh in Hrow. by exists row.
Qed.

Lemma solver_round_table r X calls : (r < K - 1)%nat -> table_ok r X ->
  match solver_round N K uninit sort cancelled X ((K + 1 - r) * cb) (4 * 2 ^ r) calls with
  | Ok (X', _) => table_ok (S r) X'
  | Err e => e = eh_cancelled \/ e = eh_int
  end.
Proof.
  intros Hr HX. pose proof (so_first _ _ Hso) as Hfw. destruct (cb_bits Hp) as (_ & Hcb & _). assert (cb <= W)%nat as HcbW by (unfold HashLength in Hfw; nia).
  destruct (Hsort W cb X (table_wide r X HX) HcbW) as [Hperm Hst]. set (T := sort (CompareSR cb) X) in *. assert (forall row, row ∈ T <-> row ∈ X) as HT by (intros row; by rewrite Hperm).
  assert (Forall (fun row => length row = W) T) as Hwide by (rewrite Hperm; by eapply table_wide).
  pose proof (solver_round_spec N K uninit sort cancelled ((K + 1 - r) * cb) (4 * 2 ^ r) W T Hwide HcbW Hst) as Hround.
  assert (forall a b, a ∈ T -> b ∈ T -> take cb a = take cb b -> mergeable N K uninit ((K + 1 - r) * cb) (4 * 2 ^ r) a b) as Hm.
  { intros a b Ha%HT Hb%HT Ek Hd. destruct (proj1 HX a Ha) as (la & Ta & Ra). destruct (proj1 HX b Hb) as (lb & Tb & Rb). pose proof (proj1 (row_distinct Hp W r a b la lb Ra Rb) Hd) as Hdis.
    destruct (round_merge r a b la lb Hr Ta Tb Ra Rb Hdis) as (row & E & _). by exists row. }
  specialize (Hround Hm X calls eq_refl). destruct (solver_round N K uninit sort cancelled X ((K + 1 - r) * cb) (4 * 2 ^ r) calls) as [[X' calls']|e]; [|done]. split.
  - intros row (p & q & a & b & _ & Ha & Hb & Ek & Hd & Em)%Hround. apply list_elem_of_lookup_2, HT in Ha, Hb. destruct (proj1 HX a Ha) as (la & Ta & Ra). destruct (proj1 HX b Hb) as (lb & Tb & Rb).
    pose proof (proj1 (row_distinct Hp W r a b la lb Ra Rb) Hd) as Hdis. apply (collision_take r a b la lb ltac:(lia) Ra Rb) in Ek.
    destruct (round_merge r a b la lb Hr Ta Tb Ra Rb Hdis) as (row' & E & Hrow). rewrite Em in E. injection E as <-. exists (merged la lb). split; [by apply tree_merged|done].
  - intros l (la & lb & -> & Ta & Tb & Hpair)%tree_parts. destruct (proj2 HX la Ta) as (a & Ha & Ra). destruct (proj2 HX lb Tb) as (b & Hb & Rb). destruct (merged_pair r la lb Hpair) as [M1 M2].
    destruct Hpair as (Hx & _ & Hd). assert (forall i, i ∈ lb -> i ∉ la) as Hd' by (intros i Hi Hi'; by apply (Hd i)).
    assert (take cb a = take cb b) as Ek by (by apply (collision_take r a b la lb); [lia|..]).
    apply HT in Ha, Hb. destruct (pair_places r a b la lb T Ra Rb Hd Ha Hb) as (p & q & Hpa & Hqb & [Hlt|Hlt]).
    + destruct (round_merge r a b la lb Hr Ta Tb Ra Rb Hd) as (row & E & Hrow). rewrite M1 in Hrow. exists row. split; [|done]. apply Hround. pose proof (lookup_lt_Some _ _ _ Hqb). exists p, q, a, b.
      split; [lia|]. split; [done|]. split; [done|]. split; [done|]. split; [by apply (row_distinct Hp W r a b la lb Ra Rb)|done].
    + destruct (round_merge r b a lb la Hr Tb Ta Rb Ra Hd') as (row & E & Hrow). rewrite M2 in Hrow. exists row. split; [|done]. apply Hround. pose proof (lookup_lt_Some _ _ _ Hpa). exists q, p, b, a.
      split; [lia|]. split; [done|]. split; [done|]. split; [done|]. split; [by apply (row_distinct Hp W r b a lb la Rb Ra)|done].
Qed.

(** The rounds end early only when no tree is left. *)
Lemma solver_rounds_spec n r X calls : (r + n = K - 1)%nat -> table_ok r X ->
  match solver_rounds N K uninit sort cancelled n X ((K + 1 - r) * cb) (4 * 2 ^ r) calls with
  | Ok (X', hashLen, lenIndices, _) => exists r', (r' <= K - 1)%nat /\ (r' = (K - 1)%nat \/ X' = []) /\ table_ok r' X' /\ hashLen = ((K + 1 - r') * cb)%nat /\ lenIndices = (4 * 2 ^ r')%nat
  | Err e => e = eh_cancelled \/ e = eh_int
  end.
Proof.
  revert r X calls. induction n as [|n IH]; intros r X calls Hn HX; [cbn [solver_rounds]; exists r; split; [lia|]; split; [left; lia|done]|]. cbn [solver_rounds].
  destruct X as [|x X]; [exists r; split; [lia|]; split; [by right|]; done|]. pose proof (solver_round_table r (x :: X) calls ltac:(lia) HX) as Hr.
  destruct (solver_round N K uninit sort cancelled (x :: X) ((K + 1 - r) * cb) (4 * 2 ^ r) calls) as [[X' calls']|e]; cbn [res_bind fst snd]; [|done].
  replace ((K + 1 - r) * cb - cb)%nat with ((K + 1 - S r) * cb)%nat by (replace (K + 1 - r)%nat with (S (K + 1 - S r)) by lia; by rewrite Nat.mul_succ_l, Nat.add_sub).
  replace (4 * 2 ^ r * 2)%nat with (4 * 2 ^ S r)%nat by (cbn [Nat.pow]; lia). apply IH; [lia|done].
Qed.
(** ** The final round *)

Abbreviation hl := ((K + 1 - (K - 1)) * CollisionByteLength N K)%nat.
Abbreviation li := (4 * 2 ^ (K - 1))%nat.

Lemma final_lengths : hl = (2 * cb)%nat /\ (1 <= K)%nat /\ (K - 1 + 1 = K)%nat /\ W = (hl + li)%nat.
Proof. pose proof (po_rounds _ _ Hp). assert (K + 1 - (K - 1) = 2)%nat as -> by lia. destruct (final_width N K) as [-> _]; lia. Qed.

Lemma GetIndices_minimal row len l : digits_ok (c + 1) l -> sub_array row len (4 * length l) = concat (map (digits 8 4) l) -> GetIndices row len (4 * length l) c = GetMinimalFromIndices l c.
Proof.
  intros Hl E. pose proof (po_bits _ _ Hp). unfold GetIndices, GetMinimalFromIndices. rewrite E, (Nat.mul_comm 4 (length l)). assert (map (digits 8 4) l = map EhIndexToArray l) as ->; [|done].
  apply map_ext_in. intros i Hi%list_elem_of_In. symmetry. apply (index_bytes c i); [lia|]. by eapply Forall_forall in Hl.
Qed.

(** The last two digits. *)
Lemma final_collision a b la lb : row_is (K - 1) a la -> row_is (K - 1) b lb ->
  take hl a = take hl b <-> xor_digit (K - 1) la = xor_digit (K - 1) lb /\ xor_digit K la = xor_digit K lb.
Proof.
  intros (_ & Ha & ra & -> & _) (_ & Hb & rb & -> & _). destruct final_lengths as (_ & HK & _). rewrite !take_app_length' by (by rewrite length_row_hash).
  pose proof (row_digits_ok (base := base) Hp Hblake (K - 1) la Ha) as Da. pose proof (row_digits_ok (base := base) Hp Hblake (K - 1) lb Hb) as Db.
  unfold row_digits in *. assert (K + 1 - (K - 1) = 2)%nat as E2 by lia. rewrite E2 in *. cbn [seq map] in *. replace (S (K - 1)) with K in * by lia. split.
  - intros E. apply padded_inj in E; [|done..]. by injection E as -> ->.
  - by intros [-> ->].
Qed.

Lemma final_merge a b la lb : row_is (K - 1) a la -> row_is (K - 1) b lb ->
  exists row, merge_rows uninit a b hl li 0 = Ok row /\ (hd 0 la <> hd 0 lb -> sub_array row hl (4 * length (merged la lb)) = concat (map (digits 8 4) (merged la lb))).
Proof.
  intros Ra Rb. pose proof (row_nonempty W (K - 1) a la Ra) as Na. pose proof (row_nonempty W (K - 1) b lb Rb) as Nb. destruct Ra as (Ea & Ha & ra & Erow & Wa), Rb as (Eb & Hb & rb & Erowb & Wb).
  destruct final_lengths as (Ehl & HK & _ & EW). destruct (final_width N K HK) as [EF1 EF].
  assert (length a <= length uninit /\ hl - 0 + 2 * li <= length uninit)%nat as [Hfit1 Hfit2] by (rewrite Wa, Hwidth, Ehl, EF1, EF; lia).
  destruct (merge_parts uninit a b _ _ ra _ _ rb hl li 0 Erow Erowb) as (rest & E & L);
    [apply length_row_hash|apply length_row_hash|by rewrite length_indices, Ea|by rewrite length_indices, Eb|apply Nat.le_0_l|done|done|].
  eexists. split; [exact E|]. intros Hne. rewrite (merge_order Hp) by done. fold (merged la lb). apply sub_array_mid; [|by rewrite length_indices].
  unfold xor_bytes. by rewrite length_zip_with, !length_drop, !length_row_hash, Nat.sub_0_r, Nat.min_id.
Qed.

(** Two rows of the last table. *)
Lemma final_pair a b la lb : tree (K - 1) la -> tree (K - 1) lb -> row_is (K - 1) a la -> row_is (K - 1) b lb ->
  (exists row, merge_rows uninit a b hl li 0 = Ok row) /\
  ((forall i, i ∈ la -> i ∉ lb) -> exists s, length s = equihash_solution_size N K /\ bytes_ok s /\ GetMinimalFromIndices (merged la lb) c = Ok s /\ solution_of N K uninit hl li a b s).
Proof.
  intros Ta Tb Ra Rb. destruct (final_merge a b la lb Ra Rb) as (row & E & Hsub). split; [by exists row|]. intros Hd. specialize (Hsub (disjoint_heads _ la lb Ta Tb Hd)).
  destruct final_lengths as (_ & HK & HK1 & _). destruct Ta as (Ea & Ha & _), Tb as (Eb & Hb & _). assert (digits_ok (c + 1) (merged la lb)) as Hm by (unfold merged; destruct (_ <? _); by apply Forall_app).
  assert (length (merged la lb) = 2 ^ K)%nat as El. { assert (length (merged la lb) = 2 * 2 ^ (K - 1))%nat as -> by (unfold merged; destruct (_ <? _); rewrite length_app; lia). replace K with (S (K - 1)) at 2 by lia. done. }
  pose proof (solution_bits Hp) as Hbits. pose proof (po_bits _ _ Hp).
  destruct (pack_unpack c (merged la lb) (SolutionWidth N K) ltac:(lia) Hm ltac:(lia)) as (s & Es & Hs & Ls & _). exists s. split; [rewrite Ls; symmetry; apply Hso|]. split; [done|]. split; [done|].
  split; [by apply (row_distinct Hp W (K - 1) a b la lb Ra Rb)|]. exists row. split; [done|]. rewrite <- Es, <- (GetIndices_minimal row hl) by done. f_equal. rewrite El. replace K with (S (K - 1)) at 2 by lia. cbn [Nat.pow]. lia.
Qed.

Lemma valid_solution_tree l : valid_solution N K blake2b base l <-> tree K l /\ xor_digit K l = 0.
Proof. unfold valid_solution, tree. tauto. Qed.

(** The solutions of two colliding rows of the last table are the solutions of Equihash. *)
Lemma final_solutions X T s : table_ok (K - 1) X -> T ≡ₚ X ->
  solution_from N K uninit hl li T 0 s <-> exists l, GetMinimalFromIndices l c = Ok s /\ valid_solution N K blake2b base l.
Proof.
  intros HX Hperm. assert (forall row, row ∈ T <-> row ∈ X) as HT by (intros row; by rewrite Hperm). destruct final_lengths as (_ & HK & _). assert (S (K - 1) = K) as EK by lia. split.
  - intros (p & q & a & b & _ & Ha & Hb & Ek & Hsol). apply list_elem_of_lookup_2, HT in Ha, Hb. destruct (proj1 HX a Ha) as (la & Ta & Ra). destruct (proj1 HX b Hb) as (lb & Tb & Rb).
    pose proof (proj1 (row_distinct Hp W (K - 1) a b la lb Ra Rb) (proj1 Hsol)) as Hd. apply (proj1 (final_collision a b la lb Ra Rb)) in Ek as [E1 E2].
    destruct (proj2 (final_pair a b la lb Ta Tb Ra Rb) Hd) as (s' & _ & _ & Es' & Hsol'). exists (merged la lb). assert (s' = s) as ->.
    { destruct Hsol as (_ & r1 & M1 & G1), Hsol' as (_ & r2 & M2 & G2). congruence. }
    split; [done|]. apply valid_solution_tree. split; [rewrite <- EK at 1; by apply tree_merged|]. rewrite (merged_digit (base := base)), E2. apply Z.lxor_nilpotent.
  - intros (l & Es & [Ht Hz]%valid_solution_tree). rewrite <- EK in Ht at 1. apply tree_parts in Ht as (la & lb & -> & Ta & Tb & Hpair). destruct (merged_pair (K - 1) la lb Hpair) as [M1 M2].
    destruct Hpair as (Hx & _ & Hd). rewrite (xor_digit_app (base := base)) in Hz. apply Z.lxor_eq in Hz. assert (forall i, i ∈ lb -> i ∉ la) as Hd' by (intros i Hi Hi'; by apply (Hd i)).
    destruct (proj2 HX la Ta) as (a & Ha & Ra). destruct (proj2 HX lb Tb) as (b & Hb & Rb). apply HT in Ha, Hb. assert (take hl a = take hl b) as Ek by (by apply (final_collision a b la lb Ra Rb)).
    destruct (pair_places (K - 1) a b la lb T Ra Rb Hd Ha Hb) as (p & q & Hpa & Hqb & [Hlt|Hlt]).
    + destruct (proj2 (final_pair a b la lb Ta Tb Ra Rb) Hd) as (s' & _ & _ & Es' & Hsol). rewrite M1, Es in Es'. injection Es' as <-. exists p, q, a, b. by split_and!; [lia|..].
    + destruct (proj2 (final_pair b a lb la Tb Ta Rb Ra) Hd') as (s' & _ & _ & Es' & Hsol). rewrite M2, Es in Es'. injection Es' as <-. exists q, p, b, a. by split_and!; [lia|..].
Qed.

Lemma tree_prefix n r l : tree (n + r) l -> exists l', tree r l'.
Proof. revert l. induction n as [|n IH]; intros l Ht; [by exists l|]. cbn [Nat.add] in Ht. apply tree_parts in Ht as (la & _ & _ & Ta & _). by apply (IH la). Qed.

(** The outcome of the solver: every solution offered has [P], and all of them are offered unless
    one was taken, the solver was cancelled or the table was too long. *)
Definition solves (P : bytes -> Prop) (r : list bytes * res eh_fail bool) : Prop :=
  (forall s, s ∈ r.1 -> P s) /\
  match r.2 with
  | Ok false => forall s, P s -> s ∈ r.1
  | Ok true => exists before s, r.1 = before ++ [s] /\ validBlock before s = true
  | Err e => e = eh_cancelled \/ e = eh_int
  end.

Lemma offers_solves P r : offers validBlock [] P r -> solves P r.
Proof. intros (R & E & HR & Hr). cbn in E. rewrite <- E in HR, Hr. split; [done|]. destruct (r.2) as [[]|e]; [done|done|by left]. Qed.

Lemma failed_solves (P : bytes -> Prop) e : e = eh_cancelled \/ e = eh_int -> solves P ([], Err e).
Proof. intros He. split; [by intros s ?%elem_of_nil|done]. Qed.

Abbreviation is_solution := (fun s => exists l, GetMinimalFromIndices l (CollisionBitLength N K) = Ok s /\ valid_solution N K blake2b base l).

Lemma final_round_spec r X calls : (r <= K - 1)%nat -> (r = (K - 1)%nat \/ X = []) -> table_ok r X ->
  solves is_solution (final_round N K uninit sort validBlock cancelled X ((K + 1 - r) * cb) (4 * 2 ^ r) calls).
Proof.
  intros Hr Hend HX. destruct final_lengths as (Ehl & HK & _ & EW). unfold final_round. destruct (Nat.ltb_spec 1 (length X)) as [Hlong|Hshort].
  - destruct Hend as [-> | ->]; [|cbn in Hlong; lia]. unfold int_positions. destruct (_ <? _); cbn [res_bind]; [apply failed_solves; by right|].
    unfold throw_if_cancelled. destruct (cancelled calls FinalSorting); [apply failed_solves; by left|]. destruct (Hsort W hl X (table_wide _ X HX) ltac:(lia)) as [Hperm Hst]. set (T := sort (CompareSR hl) X) in *.
    assert (Forall (fun row => length row = W) T) as Hwide by (rewrite Hperm; by eapply table_wide). assert (forall row, row ∈ T <-> row ∈ X) as HT by (intros row; by rewrite Hperm).
    apply offers_solves, (offers_iff _ _ _ _ _ (fun s => final_solutions X T s HX Hperm)). apply (final_table_spec N K uninit validBlock cancelled hl li W T Hwide); [lia|done| |lia|intros p q a b; lia|lia].
    intros a b Ha%HT Hb%HT _. destruct (proj1 HX a Ha) as (la & Ta & Ra). destruct (proj1 HX b Hb) as (lb & Tb & Rb). destruct (final_pair a b la lb Ta Tb Ra Rb) as [Hm Hs]. split; [done|].
    intros Hd. destruct (Hs (proj1 (row_distinct Hp W (K - 1) a b la lb Ra Rb) Hd)) as (s & El & _ & _ & Hsol). by exists s.
  - split; [by intros s ?%elem_of_nil|]. cbn [snd]. intros s (l & _ & [Ht _]%valid_solution_tree). exfalso. destruct Hend as [-> | ->].
    + replace K with (S (K - 1)) in Ht at 1 by lia. apply tree_parts in Ht as (la & lb & _ & Ta & Tb & _ & _ & Hd). destruct (proj2 HX la Ta) as (a & Ha & Ra). destruct (proj2 HX lb Tb) as (b & Hb & Rb).
      destruct (pair_places (K - 1) a b la lb X Ra Rb Hd Ha Hb) as (p & q & Hpa%lookup_lt_Some & Hqb%lookup_lt_Some & Hpq). lia.
    + replace K with (K - r + r)%nat in Ht at 1 by lia. apply tree_prefix in Ht as (l' & Hl'). destruct (proj2 HX l' Hl') as (row & Hrow & _). by apply elem_of_nil in Hrow.
Qed.

Lemma BasicSolve_spec : solves is_solution (BasicSolve N K blake2b uninit sort validBlock cancelled base).
Proof.
  unfold BasicSolve. pose proof (first_list_spec (init_size N K) 0 [] 0) as Hfirst.
  destruct (first_list N K blake2b uninit cancelled (init_size N K) base 0 [] 0) as [[X calls]|e]; cbn [res_bind fst snd].
  2:{ apply failed_solves. left. apply Hfirst; [lia|constructor|cbn; lia|right; cbn; lia|cbn; lia]. }
  destruct Hfirst as [HX El]; [lia|constructor|cbn; lia|right; cbn; lia|cbn; lia|]. pose proof (solver_rounds_spec (K - 1) 0 X calls ltac:(lia) (first_table X HX El)) as Hrounds.
  rewrite Nat.sub_0_r in Hrounds. change (4 * 2 ^ 0)%nat with 4%nat in Hrounds. fold (HashLength N K) in Hrounds.
  destruct (solver_rounds N K uninit sort cancelled (K - 1) X (HashLength N K) 4 calls) as [[[[X' hashLen] lenIndices] calls']|e]; [|by apply failed_solves].
  destruct Hrounds as (r & Hr & Hend & HT & -> & ->). by apply final_round_spec.
Qed.
End Solver.

(** ** Solver and verifier *)

(** C8. The basic solver finds exactly what the verifier accepts: every solution it offers to its
    caller is accepted by [IsValidSolution]; if it returns false, every solution that the verifier
    accepts was offered; it returns true when the caller took the solution offered last; and it stops
    otherwise only when it is cancelled or the table outgrows [int].  No assertion fails, no row
    is overrun and no row of the table is lost by storing in place, for any order that
    [std::sort] gives to equal rows. *)
Theorem solver_verifier_agree N K blake2b uninit sort validBlock cancelled base : supported N K = true -> blake2b_ok blake2b -> sort_ok sort -> length uninit = FinalFullWidth N K ->
  let r := EhBasicSolve N K blake2b uninit sort base validBlock cancelled in
  (forall s, s ∈ r.1 -> IsValidSolution N K blake2b uninit base s = Ok true) /\
  match r.2 with
  | Ok false => forall s, bytes_ok s -> IsValidSolution N K blake2b uninit base s = Ok true -> s ∈ r.1
  | Ok true => exists before s, r.1 = before ++ [s] /\ validBlock before s = true
  | Err e => e = eh_cancelled \/ e = eh_int
  end.
Proof.
  intros Hs Hb Hsort Hw r. pose proof (supported_ok N K Hs) as Hp. pose proof (supported_solver_ok N K Hs) as Hso.
  destruct (BasicSolve_spec (base := base) (validBlock := validBlock) (cancelled := cancelled) Hp Hso Hb Hw Hsort) as [H1 H2]. unfold r, EhBasicSolve. rewrite Hs. split.
  - intros s (l & Em & Hv)%H1. assert (bytes_ok s) as Hby.
    { pose proof (po_bits _ _ Hp). pose proof (solution_bits Hp) as Hbits. destruct Hv as (El & Hd & _). destruct (pack_unpack (CollisionBitLength N K) l (SolutionWidth N K) ltac:(lia) Hd ltac:(lia)) as (s' & Es & Hby & _). by rewrite Em in Es; injection Es as ->. }
    destruct (IsValidSolution_spec (base := base) Hp Hb Hw s Hby) as (b & -> & Hiff). f_equal. apply Hiff. by exists l.
  - destruct ((BasicSolve N K blake2b uninit sort validBlock cancelled base).2) as [[]|e]; [done| |done]. intros s Hby Hv. apply H2.
    destruct (IsValidSolution_spec (base := base) Hp Hb Hw s Hby) as (b & Eb & Hiff). rewrite Hv in Eb. injection Eb as <-. by apply Hiff.
Qed.

(** ** A concrete run *)

(** A mixing function for hashes, and insertion sort. *)
Definition mix_byte (x : Z) : Z :=
  let x := Z.land (Z.lxor x (Z.shiftr x 30) * 13787848793156543929) (Z.ones 64) in
  let x := Z.land (Z.lxor x (Z.shiftr x 27) * 10723151780598845931) (Z.ones 64) in
  Z.land (Z.lxor x (Z.shiftr x 31)) 255.
Definition mix_blake2b (p d : bytes) (n : nat) : bytes := map (fun k => mix_byte (le_val d * 1000 + 200000000 + Z.of_nat k * 11400714819323198485)) (seq 0 n).

Fixpoint insert_row (lt : bytes -> bytes -> bool) (x : bytes) (l : list bytes) : list bytes :=
  match l with [] => [x] | y :: l' => if lt y x then y :: insert_row lt x l' else x :: l end.
Definition insertion_sort (lt : bytes -> bytes -> bool) (l : list bytes) : list bytes := foldr (insert_row lt) [] l.

Lemma mix_blake2b_ok : blake2b_ok mix_blake2b.
Proof.
  intros p d n. split; [unfold mix_blake2b; by rewrite length_map, length_seq|]. apply Forall_forall. intros b (k & -> & _)%list_elem_of_fmap. unfold mix_byte. change 255 with (Z.ones 8).
  rewrite Z.land_ones by lia. by apply Z.mod_pos_bound.
Qed.

Lemma insert_row_perm lt x l : insert_row lt x l ≡ₚ x :: l.
Proof. induction l as [|y l IH]; [done|]. cbn. destruct (lt y x); [|done]. rewrite IH. apply Permutation_swap. Qed.

Lemma memcmp_asym a b : memcmp_lt a b = true -> memcmp_lt b a = false.
Proof. revert b. induction a as [|i a IH]; intros [|j b] H; try done. cbn in *. destruct (Z.ltb_spec i j), (Z.ltb_spec j i); try done; try lia. by apply IH. Qed.

Lemma memcmp_le_trans a b x : length a = length b -> length b = length x -> memcmp_lt b a = false -> memcmp_lt x b = false -> memcmp_lt x a = false.
Proof.
  revert b x. induction a as [|i a IH]; intros [|j b] [|k x] E1 E2 H1 H2; try done. cbn in *. destruct (Z.ltb_spec j i), (Z.ltb_spec i j), (Z.ltb_spec k j), (Z.ltb_spec j k), (Z.ltb_spec k i), (Z.ltb_spec i k); try done; try lia.
  apply (IH b x); (done || lia).
Qed.

Lemma insertion_sort_ok : sort_ok insertion_sort.
Proof.
  intros W len X HX Hlen. induction HX as [|x X Hx HX [IHp IHs]]; [by repeat constructor|]. cbn [insertion_sort foldr]. fold (insertion_sort (CompareSR len) X). split; [by rewrite insert_row_perm, IHp|].
  assert (Forall (fun row => length row = W) (insertion_sort (CompareSR len) X)) as Hw by (by rewrite IHp). revert IHs Hw. generalize (insertion_sort (CompareSR len) X). clear IHp HX X. intros T Hs Hw.
  induction Hs as [|y T Hs IH Hy]; [by repeat constructor|]. inversion Hw as [|? ? Ey Hw']; subst. cbn [insert_row]. destruct (CompareSR len y x) eqn:E.
  - constructor; [by apply IH|]. rewrite insert_row_perm. constructor; [by apply memcmp_asym|done].
  - constructor; [by constructor|]. constructor; [done|]. apply Forall_forall. intros z Hz. pose proof (proj1 (Forall_forall _ _) Hy z Hz) as Hzy. pose proof (proj1 (Forall_forall _ _) Hw' z Hz) as Hz'. cbn in Hzy, Hz', Ey.
    apply (memcmp_le_trans _ (take len y)); [rewrite !length_take; lia|rewrite !length_take; lia|done|done].
Qed.

Definition mixed_rows : bytes := replicate (FinalFullWidth 48 5) 170.
Abbreviation mixed_run := (EhBasicSolve 48 5 mix_blake2b mixed_rows insertion_sort (InitialiseState 48 5) (fun _ _ => false) (fun _ _ => false)).

(** This run offers two solutions, and there are no others. *)
Lemma solver_verifier_agree_witness : length mixed_run.1 = 2%nat /\ mixed_run.2 = Ok false /\
  (forall s, s ∈ mixed_run.1 -> IsValidSolution 48 5 mix_blake2b mixed_rows (InitialiseState 48 5) s = Ok true) /\
  (forall s, bytes_ok s -> IsValidSolution 48 5 mix_blake2b mixed_rows (InitialiseState 48 5) s = Ok true -> s ∈ mixed_run.1).
Proof.
  assert (length mixed_run.1 = 2%nat /\ mixed_run.2 = Ok false) as [E1 E2] by (vm_compute; split; reflexivity). split; [exact E1|]. split; [exact E2|].
  pose proof (solver_verifier_agree 48 5 mix_blake2b mixed_rows insertion_sort (fun _ _ => false) (fun _ _ => false) (InitialiseState 48 5) eq_refl mix_blake2b_ok insertion_sort_ok eq_refl) as H.
  cbv zeta in H. rewrite E2 in H. exact H.
Defined.
