(* ===== verification/Base58.v ===== *)
(** * Base 58

    [utils/base58.cpp]: byte strings as numbers in base 58, with and without a checksum.
    Strings are lists of character codes; a [const char*] ends at the first zero. *)

From Stdlib Require Import String.
From stdpp Require Import list.
From S2P Require Import Prelude Interpreter Amount Transaction SigHash.
Open Scope Z_scope.

(** A failed assertion. *)
Inductive b58_fail : Set := b58_assert.

Definition BASE58 : bytes := chars "123456789ABCDEFGHJKLMNPQRSTUVWXYZabcdefghijkmnopqrstuvwxyz".

(** [strchr(s, ch) - s] for a character other than zero. *)
Fixpoint strchr (s : bytes) (ch : Z) : option Z :=
  match s with
  | [] => None
  | c :: s => if c =? ch then Some 0 else option_map Z.succ (strchr s ch)
  end.

(** The loop over the digits from the last one: [b = b * mul + carry] in a base. *)
Fixpoint mul_add (base mul carry : Z) (rdigits : bytes) : bytes * Z :=
  match rdigits with
  | [] => ([], carry)
  | d :: rdigits =>
      let carry := carry + mul * d in
      let r := mul_add base mul (carry / base) rdigits in
      (carry mod base :: r.1, r.2)
  end.
Definition push_digit (base mul carry : Z) (b : bytes) : res b58_fail bytes :=
  let r := mul_add base mul carry (rev b) in
  if negb (r.2 =? 0) then Err b58_assert else Ok (rev r.1).

(** The number of leading characters [c], and what follows. *)
Fixpoint count_leading (c : Z) (s : bytes) : nat * bytes :=
  match s with
  | [] => (O, [])
  | x :: s' => if x =? c then let r := count_leading c s' in (S r.1, r.2) else (O, s)
  end.

(** ** Decoding *)

(** The characters up to the end or a space. *)
Fixpoint decode_chars (psz b256 : bytes) : res b58_fail (option (bytes * bytes)) :=
  match psz with
  | [] => Ok (Some (b256, []))
  | c :: rest =>
      if isspace c then Ok (Some (b256, psz))
      else match strchr BASE58 c with
           | None => Ok None
           | Some carry => let? b256 := push_digit 256 58 carry b256 in decode_chars rest b256
           end
  end.

Definition DecodeBase58 (str : bytes) : res b58_fail (option bytes) :=
  let psz := skip_spaces (c_str str) in
  let '(zeroes, psz) := count_leading 49 psz in
  let b256 := replicate (Z.to_nat (zlen psz * 733 / 1000 + 1)) 0 in
  let? r := decode_chars psz b256 in
  match r with
  | None => Ok None
  | Some (b256, psz) =>
      if negb (is_nil (skip_spaces psz)) then Ok None
      else Ok (Some (replicate zeroes 0 ++ (count_leading 0 b256).2))
  end.

(** ** Encoding *)

Fixpoint encode_bytes (vch b58 : bytes) : res b58_fail bytes :=
  match vch with
  | [] => Ok b58
  | c :: vch => let? b58 := push_digit 58 256 c b58 in encode_bytes vch b58
  end.

Definition EncodeBase58 (vch : bytes) : res b58_fail bytes :=
  let '(zeroes, vch) := count_leading 0 vch in
  let b58 := replicate (Z.to_nat (zlen vch * 138 / 100 + 1)) 0 in
  let? b58 := encode_bytes vch b58 in
  Ok (replicate zeroes 49 ++ map (fun d => nth (Z.to_nat d) BASE58 0) (count_leading 0 b58).2).

(** ** With a checksum *)

Section Check.
Context `{Crypto}.

Definition EncodeBase58Check (vchIn : bytes) : res b58_fail bytes := EncodeBase58 (vchIn ++ take 4 (hash256 vchIn)).

Definition DecodeBase58Check (psz : bytes) : res b58_fail (option bytes) :=
  let? r := DecodeBase58 psz in
  match r with
  | None => Ok None
  | Some vch =>
      if zlen vch <? 4 then Ok None
      else
        let data := take (length vch - 4) vch in
        if negb (bytes_eqb (take 4 (hash256 data)) (drop (length vch - 4) vch)) then Ok None
        else Ok (Some data)
  end.
End Check.

(** ** Numbers in a base *)

Definition number (base : Z) (l : bytes) : Z := foldl (fun v d => v * base + d) 0 l.
Definition in_base (base : Z) (l : bytes) : Prop := Forall (fun d => 0 <= d < base) l.
Definition no_leading (c : Z) (l : bytes) : Prop := match l with [] => True | d :: _ => d <> c end.

Lemma number_acc base l v : foldl (fun v d => v * base + d) v l = v * base ^ zlen l + number base l.
Proof.
  unfold number. revert v. induction l as [|d l IH]; intros v; cbn [foldl]; [unfold zlen; cbn; lia|]. rewrite IH, (IH (0 * base + d)), zlen_cons, Z.pow_add_r by (unfold zlen; lia). lia.
Qed.

Lemma number_app base l1 l2 : number base (l1 ++ l2) = number base l1 * base ^ zlen l2 + number base l2.
Proof. unfold number at 1. rewrite foldl_app. apply number_acc. Qed.

Lemma number_cons base d l : number base (d :: l) = d * base ^ zlen l + number base l.
Proof. unfold number at 1. cbn [foldl]. rewrite number_acc. lia. Qed.

Lemma number_snoc base l d : number base (l ++ [d]) = number base l * base + d.
Proof. rewrite number_app. unfold number at 2, zlen. cbn. lia. Qed.

Lemma number_range base l : 1 < base -> in_base base l -> 0 <= number base l < base ^ zlen l.
Proof.
  intros Hb. induction 1 as [|d l Hd Hl IH]; [done|]. rewrite number_cons, zlen_cons, Z.pow_add_r by (unfold zlen; lia). nia.
Qed.

Lemma number_zeros base n l : number base (replicate n 0 ++ l) = number base l.
Proof. induction n as [|n IH]; [done|]. cbn [replicate app]. rewrite number_cons, IH. lia. Qed.

Lemma count_leading_spec c l : l = replicate (count_leading c l).1 c ++ (count_leading c l).2 /\ no_leading c (count_leading c l).2.
Proof.
  induction l as [|x l [IH1 IH2]]; [done|]. cbn [count_leading]. destruct (Z.eqb_spec x c) as [->|Hne]; [|done]. cbn [fst snd replicate app]. split; [by f_equal|done].
Qed.

Lemma count_leading_app c n l : no_leading c l -> count_leading c (replicate n c ++ l) = (n, l).
Proof.
  intros Hl. induction n as [|n IH]; cbn [replicate app count_leading]; [|rewrite Z.eqb_refl, IH; done]. destruct l as [|x l]; [done|]. cbn in *. destruct (Z.eqb_spec x c); done.
Qed.

(** Digits of the same number. *)
Lemma number_eq base l1 l2 : 1 < base -> in_base base l1 -> in_base base l2 -> zlen l1 = zlen l2 -> number base l1 = number base l2 -> l1 = l2.
Proof.
  intros Hb. revert l2. induction l1 as [|x l1 IH]; intros [|y l2] H1 H2 El E; try done; try (rewrite zlen_cons in El; unfold zlen in El; cbn in El; lia). inversion H1; inversion H2; subst. rewrite !number_cons in E. rewrite !zlen_cons in El.
  assert (zlen l1 = zlen l2) as El' by lia. rewrite El' in E. pose proof (number_range base l1 Hb ltac:(done)) as R1. pose proof (number_range base l2 Hb ltac:(done)) as R2. rewrite El' in R1. assert (x = y) as -> by nia. f_equal. apply IH; (done || lia).
Qed.

(** The number of digits of a number. *)
Lemma number_low base l : 1 < base -> in_base base l -> no_leading 0 l -> l <> [] -> base ^ (zlen l - 1) <= number base l.
Proof.
  intros Hb Hl Hn Hne. destruct Hl as [|d l Hd Hl]; [done|]. cbn in Hn. rewrite number_cons, zlen_cons. replace (1 + zlen l - 1) with (zlen l) by lia. pose proof (number_range base l Hb Hl). nia.
Qed.

Lemma number_length base l n : 1 < base -> in_base base l -> no_leading 0 l -> base ^ (n - 1) <= number base l < base ^ n -> 0 < n -> zlen l = n.
Proof.
  intros Hb Hl Hn Hr Hpos. pose proof (number_range base l Hb Hl) as R. assert (l <> []) as Hne by (intros ->; pose proof (Z.pow_pos_nonneg base (n - 1)); unfold number in Hr; cbn in Hr; lia).
  pose proof (number_low base l Hb Hl Hn Hne) as R2. destruct (Z.lt_total (zlen l) n) as [Hlt|[?|Hlt]]; [|done|]; exfalso.
  - assert (base ^ zlen l <= base ^ (n - 1)) by (apply Z.pow_le_mono_r; lia). lia.
  - assert (base ^ n <= base ^ (zlen l - 1)) by (apply Z.pow_le_mono_r; lia). lia.
Qed.

(** Without leading zeros a number has one representation. *)
Lemma number_inj base l1 l2 : 1 < base -> in_base base l1 -> in_base base l2 -> no_leading 0 l1 -> no_leading 0 l2 -> number base l1 = number base l2 -> l1 = l2.
Proof.
  intros Hb H1 H2 N1 N2 E. apply (number_eq base); try done. pose proof (number_range base l1 Hb H1) as R1. pose proof (number_range base l2 Hb H2) as R2.
  destruct l2 as [|x l2]; [destruct l1 as [|y l1]; [done|pose proof (number_low base (y :: l1) Hb H1 N1 ltac:(done)) as Hl]|].
  - pose proof (zlen_nonneg l1). pose proof (Z.pow_pos_nonneg base (zlen (y :: l1) - 1) ltac:(lia) ltac:(rewrite zlen_cons; lia)). unfold number in *. cbn in *. lia.
  - apply (number_length base); [done|done|done| |rewrite zlen_cons; pose proof (zlen_nonneg l2); lia]. rewrite E. split; [by apply number_low|lia].
Qed.

(** ** Multiplying in place *)

Lemma mul_add_spec base mul carry l : 1 < base -> 0 <= mul -> 0 <= carry -> in_base base l ->
  let r := mul_add base mul carry l in
  in_base base r.1 /\ zlen r.1 = zlen l /\ 0 <= r.2 /\ number base (rev r.1) + r.2 * base ^ zlen l = mul * number base (rev l) + carry.
Proof.
  intros Hb Hm Hc Hl. revert carry Hc. induction Hl as [|d l Hd Hl IH]; intros carry Hc; cbn [mul_add fst snd].
  - split; [constructor|]. split; [done|]. split; [done|]. unfold zlen, number. cbn. lia.
  - pose proof (Z.div_pos (carry + mul * d) base ltac:(nia) ltac:(lia)) as Hq. destruct (IH _ Hq) as (H1 & H2 & H3 & H4). set (r := mul_add base mul ((carry + mul * d) / base) l) in *.
    split; [constructor; [by apply Z.mod_pos_bound; lia|done]|]. rewrite !zlen_cons. split; [lia|]. split; [done|]. cbn [rev]. rewrite !number_snoc, Z.pow_add_r by (lia || apply zlen_nonneg).
    pose proof (Z.div_mod (carry + mul * d) base ltac:(lia)). nia.
Qed.

Lemma push_digit_spec base mul carry b : 1 < base -> 0 <= mul -> 0 <= carry -> in_base base b -> number base b * mul + carry < base ^ zlen b ->
  exists b', push_digit base mul carry b = Ok b' /\ in_base base b' /\ zlen b' = zlen b /\ number base b' = number base b * mul + carry.
Proof.
  intros Hb Hm Hc Hin Hfit. destruct (mul_add_spec base mul carry (rev b) Hb Hm Hc ltac:(by apply Forall_rev)) as (H1 & H2 & H3 & H4). unfold push_digit. set (r := mul_add base mul carry (rev b)) in *.
  rewrite rev_involutive in H4. assert (zlen (rev b) = zlen b) as Er by (unfold zlen; by rewrite length_rev). rewrite Er in *.
  pose proof (number_range base (rev r.1) Hb ltac:(by apply Forall_rev)) as Hr. assert (zlen (rev r.1) = zlen b) as Er2 by (unfold zlen in *; rewrite length_rev; lia). rewrite Er2 in Hr.
  assert (r.2 = 0) as E0 by nia. rewrite E0. cbn [Z.eqb negb]. exists (rev r.1). split; [done|]. split; [by apply Forall_rev|]. split; [done|]. lia.
Qed.

(** A number with [n] digits in one base fits a number of digits in another. *)
Lemma pow_capacity a b p q n : 1 < a -> 1 < b -> 0 <= p -> 0 < q -> a ^ q <= b ^ p -> 0 <= n -> a ^ n <= b ^ (n * p / q + 1).
Proof.
  intros Ha Hb Hp Hq Hle Hn. pose proof (Z.div_mod (n * p) q ltac:(lia)) as Hd. pose proof (Z.mod_pos_bound (n * p) q Hq) as Hm. pose proof (Z.div_pos (n * p) q ltac:(nia) Hq) as Hdp.
  apply (Z.pow_le_mono_l_iff _ _ q); [apply Z.pow_nonneg; lia|apply Z.pow_nonneg; lia|done|]. rewrite <- !Z.pow_mul_r by lia. rewrite (Z.mul_comm n q), Z.pow_mul_r by lia.
  transitivity ((b ^ p) ^ n); [apply Z.pow_le_mono_l; split; [apply Z.pow_nonneg; lia|done]|]. rewrite <- Z.pow_mul_r by lia. apply Z.pow_le_mono_r; [lia|]. nia.
Qed.

(** ** The alphabet *)

Definition digit_char (d : Z) : Z := nth (Z.to_nat d) BASE58 0.

Lemma strchr_Some s c d : strchr s c = Some d -> 0 <= d < zlen s /\ nth (Z.to_nat d) s 0 = c.
Proof.
  revert d. induction s as [|x s IH]; intros d H; [done|]. cbn [strchr] in H. rewrite zlen_cons. destruct (Z.eqb_spec x c) as [->|]; [injection H as <-; pose proof (zlen_nonneg s); split; [lia|done]|].
  destruct (strchr s c) as [k|]; [|done]. injection H as <-. destruct (IH k eq_refl) as [Hk Hn]. split; [lia|]. replace (Z.to_nat (Z.succ k)) with (S (Z.to_nat k)) by lia. done.
Qed.

Lemma strchr_digit c d : strchr BASE58 c = Some d -> 0 <= d < 58 /\ digit_char d = c.
Proof. apply strchr_Some. Qed.

Lemma digit_char_spec d : 0 <= d < 58 -> strchr BASE58 (digit_char d) = Some d /\ isspace (digit_char d) = false /\ digit_char d <> 0 /\ (digit_char d = 49 <-> d = 0).
Proof.
  intros Hd. assert (forallb (fun k => let c := digit_char (Z.of_nat k) in bool_decide (strchr BASE58 c = Some (Z.of_nat k)) && negb (isspace c) && negb (c =? 0) && eqb (c =? 49) (Nat.eqb k 0)) (seq 0 58) = true) as Hall by (vm_compute; reflexivity).
  rewrite forallb_forall in Hall. specialize (Hall (Z.to_nat d)). rewrite Z2Nat.id in Hall by lia. specialize (Hall ltac:(apply in_seq; lia)). cbv zeta in Hall.
  rewrite !andb_true_iff, bool_decide_eq_true, !negb_true_iff, eqb_true_iff, Z.eqb_neq in Hall. destruct Hall as [[[H1 H2] H3] H4]. split; [done|]. split; [done|]. split; [done|].
  destruct (Z.eqb_spec (digit_char d) 49), (Nat.eqb_spec (Z.to_nat d) 0); try done; split; (lia || done).
Qed.

Lemma digit_chars_inj l1 l2 : in_base 58 l1 -> in_base 58 l2 -> map digit_char l1 = map digit_char l2 -> l1 = l2.
Proof.
  intros H1. revert l2. induction H1 as [|d l1 Hd H1 IH]; intros [|e l2] H2 E; try done. inversion H2; subst. injection E as E1 E2. f_equal; [|by apply IH].
  destruct (digit_char_spec d Hd) as [S1 _]. destruct (digit_char_spec e ltac:(done)) as [S2 _]. rewrite E1, S2 in S1. by injection S1.
Qed.

Lemma no_leading_char D : in_base 58 D -> no_leading 0 D <-> no_leading 49 (map digit_char D).
Proof. intros [|d D' Hd _]; [done|]. cbn. rewrite (proj2 (proj2 (proj2 (digit_char_spec d Hd)))). done. Qed.

(** ** The encoding as a relation *)

(** The string of a byte string: as many ones as there are leading zeros, then the digits of the
    number that the other bytes write. *)
Definition base58_of (v core : bytes) : Prop :=
  exists z B D, v = replicate z 0 ++ B /\ no_leading 0 B /\ bytes_ok B /\ core = replicate z 49 ++ map digit_char D /\ in_base 58 D /\ no_leading 0 D /\ number 256 B = number 58 D.

Lemma base58_of_unique v c1 c2 : base58_of v c1 -> base58_of v c2 -> c1 = c2.
Proof.
  intros (z1 & B1 & D1 & E1 & NB1 & OB1 & -> & OD1 & ND1 & V1) (z2 & B2 & D2 & E2 & NB2 & OB2 & -> & OD2 & ND2 & V2). rewrite E1 in E2.
  pose proof (count_leading_app 0 z1 B1 NB1) as C1. rewrite E2, (count_leading_app 0 z2 B2 NB2) in C1. injection C1 as -> ->. f_equal. f_equal. apply (number_inj 58); try done. lia.
Qed.

Lemma base58_of_inj v1 v2 core : base58_of v1 core -> base58_of v2 core -> v1 = v2.
Proof.
  intros (z1 & B1 & D1 & -> & NB1 & OB1 & E1 & OD1 & ND1 & V1) (z2 & B2 & D2 & -> & NB2 & OB2 & E2 & OD2 & ND2 & V2). rewrite E1 in E2.
  pose proof (count_leading_app 49 z1 _ (proj1 (no_leading_char D1 OD1) ND1)) as C1. rewrite E2, (count_leading_app 49 z2 _ (proj1 (no_leading_char D2 OD2) ND2)) in C1. injection C1 as -> C1.
  apply digit_chars_inj in C1; [|done|done]. subst. f_equal. apply (number_inj 256); try done. lia.
Qed.

(** ** Encoding and decoding *)

Lemma number_nil base mul v : v = v * mul ^ zlen (@nil Z) + number base [].
Proof. unfold zlen, number. cbn. lia. Qed.

Lemma encode_bytes_spec vch b58 : bytes_ok vch -> in_base 58 b58 -> (number 58 b58 + 1) * 256 ^ zlen vch <= 58 ^ zlen b58 ->
  exists b', encode_bytes vch b58 = Ok b' /\ in_base 58 b' /\ number 58 b' = number 58 b58 * 256 ^ zlen vch + number 256 vch.
Proof.
  intros Hv. revert b58. induction Hv as [|c vch Hc Hv IH]; intros b58 Hb Hfit; cbn [encode_bytes].
  - exists b58. split; [done|]. split; [done|]. apply number_nil.
  - rewrite zlen_cons, Z.pow_add_r in Hfit by (lia || apply zlen_nonneg). assert (0 < 256 ^ zlen vch) as Hp by (apply Z.pow_pos_nonneg; [lia|apply zlen_nonneg]).
    pose proof (number_range 58 b58 ltac:(lia) Hb) as Hr. rewrite Z.pow_1_r in Hfit. change (0 <= c < 256) in Hc.
    assert ((number 58 b58 * 256 + c + 1) * 256 ^ zlen vch <= 58 ^ zlen b58) as Hfit' by (transitivity ((number 58 b58 + 1) * 256 * 256 ^ zlen vch); [apply Z.mul_le_mono_nonneg_r; lia|by rewrite <- Z.mul_assoc]).
    assert (number 58 b58 * 256 + c < 58 ^ zlen b58) as Hfit2 by nia.
    destruct (push_digit_spec 58 256 c b58) as (b1 & -> & H1 & L1 & V1); [lia|lia|lia|done|done|]. cbn [res_bind]. destruct (IH b1 H1) as (b2 & -> & H2 & V2); [rewrite V1, L1; exact Hfit'|].
    exists b2. split; [done|]. split; [done|]. rewrite V2, V1, number_cons, zlen_cons, Z.pow_add_r by (lia || apply zlen_nonneg). lia.
Qed.

Lemma zeros_number base n : number base (replicate n 0) = 0 /\ (1 < base -> in_base base (replicate n 0)) /\ zlen (replicate n 0) = Z.of_nat n.
Proof.
  split; [rewrite <- (app_nil_r (replicate n 0)); by rewrite number_zeros|]. split; [intros Hb; apply Forall_replicate; lia|]. unfold zlen. by rewrite length_replicate.
Qed.

Lemma strip_zeros base b : in_base base b -> let l := (count_leading 0 b).2 in in_base base l /\ no_leading 0 l /\ number base l = number base b.
Proof.
  intros Hb l. destruct (count_leading_spec 0 b) as [E Hn]. fold l in E, Hn. assert (in_base base (replicate (count_leading 0 b).1 0 ++ l)) as Hb' by (by rewrite <- E). split; [by apply Forall_app in Hb' as [_ ?]|]. split; [done|].
  rewrite <- (number_zeros base (count_leading 0 b).1 l). by rewrite <- E.
Qed.

Lemma EncodeBase58_spec v : bytes_ok v -> exists core, EncodeBase58 v = Ok core /\ base58_of v core.
Proof.
  intros Hv. unfold EncodeBase58. destruct (count_leading_spec 0 v) as [E Hn]. destruct (count_leading 0 v) as [z B]. cbn [fst snd] in E, Hn. assert (bytes_ok B) as HB by (rewrite E in Hv; by apply Forall_app in Hv as [_ ?]).
  set (m := Z.to_nat (zlen B * 138 / 100 + 1)). pose proof (zlen_nonneg B) as HB0. assert (0 <= zlen B * 138 / 100) as Hm by (apply Z.div_pos; lia).
  destruct (zeros_number 58 m) as (Z1 & Z2 & Z3). destruct (encode_bytes_spec B (replicate m 0) HB (Z2 ltac:(lia))) as (b & -> & Hb & Vb).
  { rewrite Z1, Z3. replace (Z.of_nat m) with (zlen B * 138 / 100 + 1) by (unfold m; lia). rewrite Z.add_0_l, Z.mul_1_l. apply pow_capacity; try lia. }
  cbn [res_bind]. eexists. split; [reflexivity|]. destruct (strip_zeros 58 b Hb) as (S1 & S2 & S3). exists z, B, (count_leading 0 b).2. split_and!; try done. rewrite S3, Vb, Z1. lia.
Qed.

(** A run of digits, up to the end or a space. *)
Definition ends_digits (rest : bytes) : Prop := match rest with [] => True | c :: _ => isspace c = true end.

Lemma decode_chars_spec psz b256 : in_base 256 b256 -> (number 256 b256 + 1) * 58 ^ zlen psz <= 256 ^ zlen b256 ->
  match decode_chars psz b256 with
  | Ok (Some (b', rest)) => exists ds, psz = map digit_char ds ++ rest /\ in_base 58 ds /\ ends_digits rest /\ in_base 256 b' /\ number 256 b' = number 256 b256 * 58 ^ zlen ds + number 58 ds
  | Ok None => forall ds rest, psz = map digit_char ds ++ rest -> in_base 58 ds -> ends_digits rest -> False
  | Err _ => False
  end.
Proof.
  revert b256. induction psz as [|c psz IH]; intros b256 Hb Hfit; cbn [decode_chars].
  - exists []. split; [done|]. split; [constructor|]. split; [done|]. split; [done|]. apply number_nil.
  - destruct (isspace c) eqn:Es; [exists []; split; [done|]; split; [constructor|]; split; [done|]; split; [done|]; apply number_nil|].
    destruct (strchr BASE58 c) as [k|] eqn:Ek.
    2:{ intros [|d ds] rest E Hds Hend; [cbn [map app] in E; subst rest; unfold ends_digits in Hend; congruence|]. injection E as -> E. inversion Hds; subst. by rewrite (proj1 (digit_char_spec d ltac:(done))) in Ek. }
    destruct (strchr_digit c k Ek) as [Hk <-]. rewrite zlen_cons, Z.pow_add_r in Hfit by (lia || apply zlen_nonneg). assert (0 < 58 ^ zlen psz) as Hp by (apply Z.pow_pos_nonneg; [lia|apply zlen_nonneg]).
    pose proof (number_range 256 b256 ltac:(lia) Hb) as Hr. rewrite Z.pow_1_r in Hfit.
    assert ((number 256 b256 * 58 + k + 1) * 58 ^ zlen psz <= 256 ^ zlen b256) as Hfit' by (transitivity ((number 256 b256 + 1) * 58 * 58 ^ zlen psz); [apply Z.mul_le_mono_nonneg_r; lia|by rewrite <- Z.mul_assoc]).
    assert (number 256 b256 * 58 + k < 256 ^ zlen b256) as Hfit2 by nia.
    destruct (push_digit_spec 256 58 k b256) as (b1 & -> & H1 & L1 & V1); [lia|lia|lia|done|done|]. cbn [res_bind]. specialize (IH b1 H1 ltac:(rewrite V1, L1; exact Hfit')).
    destruct (decode_chars psz b1) as [[[b' rest]|]|]; [| |done].
    + destruct IH as (ds & -> & Hds & Hend & Hb' & V'). exists (k :: ds). split; [done|]. split; [by constructor|]. split; [done|]. split; [done|].
      rewrite V', V1, number_cons, zlen_cons, Z.pow_add_r by (lia || apply zlen_nonneg). lia.
    + intros [|d ds] rest E Hds Hend; [cbn [map app] in E; subst rest; unfold ends_digits in Hend; congruence|]. injection E as E1 E2. inversion Hds; subst. by apply (IH ds rest).
Qed.

Definition spaces (s : bytes) : Prop := Forall (fun c => isspace c = true) s.

Lemma skip_spaces_spec s : exists sp, s = sp ++ skip_spaces s /\ spaces sp /\ match skip_spaces s with [] => True | c :: _ => isspace c = false end.
Proof.
  induction s as [|c s (sp & E & Hs & Hn)]; [exists []; split; [done|]; split; [constructor|done]|]. cbn [skip_spaces]. destruct (isspace c) eqn:Ec; [|exists []; split; [done|]; split; [constructor|done]].
  exists (c :: sp). split; [cbn; by f_equal|]. split; [by constructor|done].
Qed.

Lemma skip_spaces_app sp s : spaces sp -> skip_spaces (sp ++ s) = skip_spaces s.
Proof. induction 1 as [|c sp Hc Hsp IH]; [done|]. cbn [app skip_spaces]. by rewrite Hc. Qed.

Lemma core_head v core : base58_of v core -> match core with [] => True | c :: _ => isspace c = false end.
Proof.
  intros (z & B & D & _ & _ & _ & -> & HD & _). destruct z as [|z]; [|done]. destruct HD as [|d D Hd HD]; [done|]. cbn. apply (digit_char_spec d Hd).
Qed.

(** The run of digits is determined by the string. *)
Lemma digits_prefix D1 D2 r1 r2 : in_base 58 D1 -> in_base 58 D2 -> ends_digits r1 -> ends_digits r2 -> map digit_char D1 ++ r1 = map digit_char D2 ++ r2 -> D1 = D2.
Proof.
  intros H1. revert D2. induction H1 as [|d D1 Hd H1 IH]; intros [|e D2] H2 E1 E2 E; [done| | |].
  - inversion H2; subst. cbn [map app] in E. subst r1. unfold ends_digits in E1. by rewrite (proj1 (proj2 (digit_char_spec e ltac:(done)))) in E1.
  - cbn [map app] in E. subst r2. unfold ends_digits in E2. by rewrite (proj1 (proj2 (digit_char_spec d Hd))) in E2.
  - inversion H2; subst. injection E as Ed E. f_equal; [|by apply IH]. destruct (digit_char_spec d Hd) as [S1 _]. destruct (digit_char_spec e ltac:(done)) as [S2 _]. rewrite Ed, S2 in S1. by injection S1.
Qed.

(** The string that [DecodeBase58] reads: the encoding, between spaces. *)
Lemma DecodeBase58_spec s : exists r, DecodeBase58 s = Ok r /\
  forall v, r = Some v <-> exists sp1 core sp2, c_str s = sp1 ++ core ++ sp2 /\ spaces sp1 /\ spaces sp2 /\ base58_of v core.
Proof.
  unfold DecodeBase58. destruct (skip_spaces_spec (c_str s)) as (sp & Ec & Hsp & Hhead). set (p := skip_spaces (c_str s)) in *. destruct (count_leading_spec 49 p) as [Ep Hn]. destruct (count_leading 49 p) as [z q] eqn:Ecl. cbn [fst snd] in Ep, Hn.
  set (m := Z.to_nat (zlen q * 733 / 1000 + 1)). pose proof (zlen_nonneg q) as Hq0. assert (0 <= zlen q * 733 / 1000) as Hm by (apply Z.div_pos; lia). destruct (zeros_number 256 m) as (Z1 & Z2 & Z3).
  pose proof (decode_chars_spec q (replicate m 0) (Z2 ltac:(lia))) as Hd. rewrite Z1, Z3 in Hd. replace (Z.of_nat m) with (zlen q * 733 / 1000 + 1) in Hd by (unfold m; lia). rewrite Z.add_0_l, Z.mul_1_l in Hd.
  specialize (Hd ltac:(apply pow_capacity; try lia)).
  assert (forall v sp1 core sp2, c_str s = sp1 ++ core ++ sp2 -> spaces sp1 -> spaces sp2 -> base58_of v core ->
    exists B D sp3, v = replicate z 0 ++ B /\ q = map digit_char D ++ sp3 /\ spaces sp3 /\ in_base 58 D /\ no_leading 0 B /\ bytes_ok B /\ number 256 B = number 58 D) as Hback.
  { intros v sp1 core sp2 E H1 H2 Hcore. assert (p = skip_spaces (core ++ sp2)) as Ep2 by (unfold p; rewrite E; by apply skip_spaces_app). pose proof (core_head v core Hcore) as Hc. destruct Hcore as (z' & B & D & -> & NB & HB & -> & HD & ND & V).
    assert (exists sp3, p = replicate z' 49 ++ map digit_char D ++ sp3 /\ spaces sp3) as (sp3 & Hpc & H3).
    { rewrite Ep2. rewrite <- app_assoc in *. destruct z' as [|z']; [destruct D as [|d D]|]; cbn [replicate app map] in *; [|exists sp2; split; [cbn [skip_spaces]; by rewrite Hc|done]|exists sp2; split; [cbn [skip_spaces]; done|done]].
      exists []. split; [|constructor]. by rewrite <- (app_nil_r sp2), (skip_spaces_app sp2 []) by done. }
    assert (no_leading 49 (map digit_char D ++ sp3)) as Hnl.
    { destruct D as [|d D]; [|by apply (no_leading_char (d :: D) HD)]. destruct H3 as [|c sp3 Hsc H3]; [done|]. cbn. intros ->. done. }
    exists B, D, sp3. rewrite Hpc, (count_leading_app 49 z' _ Hnl) in Ecl. injection Ecl as <- <-. done. }
  assert (forall rest, spaces rest -> ends_digits rest) as Hends by (intros rest [|c r Hc Hr]; done).
  destruct (decode_chars q (replicate m 0)) as [[[b rest]|]|]; [| |done]; cbn [res_bind].
  2:{ exists None. split; [done|]. intros v. split; [done|]. intros (sp1 & core & sp2 & E & H1 & H2 & Hcore). destruct (Hback v sp1 core sp2 E H1 H2 Hcore) as (B & D & sp3 & _ & Eq & H3 & HD & _). exfalso. apply (Hd D sp3); auto. }
  destruct Hd as (D & Eq & HD & Hend & Hb & Vb). destruct (strip_zeros 256 b Hb) as (S1 & S2 & S3). set (B := (count_leading 0 b).2) in *. assert (no_leading 0 D) as ND.
  { apply no_leading_char; [done|]. rewrite Eq in Hn. by destruct D. }
  destruct (skip_spaces_spec rest) as (sp2 & Erest & Hsp2 & Hh2). destruct (skip_spaces rest) as [|c rest'] eqn:Esk; cbn [is_nil negb].
  - rewrite app_nil_r in Erest. subst rest. eexists. split; [reflexivity|]. intros v. split.
    + intros [= <-]. exists sp, (replicate z 49 ++ map digit_char D), sp2. rewrite Ec, Ep, Eq, <- app_assoc. split; [done|]. split; [done|]. split; [done|]. exists z, B, D. split_and!; try done. lia.
    + intros (sp1 & core & sp2' & E & H1 & H2 & Hcore). destruct (Hback v sp1 core sp2' E H1 H2 Hcore) as (B' & D' & sp3 & -> & Eq' & H3 & HD' & NB' & HB' & V'). f_equal. f_equal.
      assert (D = D') as <-. { rewrite Eq in Eq'. eapply digits_prefix; [..|exact Eq']; auto. }
      apply (number_inj 256); try done. lia.
  - exists None. split; [done|]. intros v. split; [done|]. intros (sp1 & core & sp2' & E & H1 & H2 & Hcore). destruct (Hback v sp1 core sp2' E H1 H2 Hcore) as (B' & D' & sp3 & -> & Eq' & H3 & HD' & _). exfalso.
    assert (rest = sp3) as ->. { rewrite Eq in Eq'. assert (D = D') as <- by (eapply digits_prefix; [..|exact Eq']; auto). by apply app_inv_head in Eq'. }
    rewrite <- (app_nil_r sp3), (skip_spaces_app sp3 []) in Esk by done. done.
Qed.

Lemma base58_of_bytes v core : base58_of v core -> bytes_ok v.
Proof. intros (z & B & D & -> & _ & HB & _). apply Forall_app. split; [|done]. by apply Forall_replicate. Qed.

Lemma EncodeBase58_of v core : bytes_ok v -> EncodeBase58 v = Ok core <-> base58_of v core.
Proof.
  intros Hv. destruct (EncodeBase58_spec v Hv) as (c' & -> & Hc'). split; [by intros [= <-]|]. intros Hc. f_equal. by eapply base58_of_unique.
Qed.

Lemma core_c_str v core : base58_of v core -> c_str core = core.
Proof.
  intros (z & B & D & _ & _ & _ & -> & HD & _). induction z as [|z IH]; [|cbn [replicate app c_str]; by rewrite IH]. cbn [replicate app]. induction HD as [|d D Hd HD IH]; [done|]. cbn [map c_str].
  destruct (digit_char_spec d Hd) as (_ & _ & Hne & _). destruct (Z.eqb_spec (digit_char d) 0); [done|]. by rewrite IH.
Qed.

(** The first two characters of an encoding, from the first bytes. *)
Lemma first_characters v p x core m q : base58_of v core -> v = p ++ x -> no_leading 0 p -> p <> [] -> bytes_ok p -> bytes_ok x -> 2 <= m ->
  58 ^ (m - 1) <= number 256 p * 256 ^ zlen x -> (number 256 p + 1) * 256 ^ zlen x <= 58 ^ m ->
  q * 58 ^ (m - 2) <= number 256 p * 256 ^ zlen x -> (number 256 p + 1) * 256 ^ zlen x <= (q + 1) * 58 ^ (m - 2) ->
  zlen core = m /\ take 2 core = [digit_char (q / 58); digit_char (q mod 58)].
Proof.
  intros (z & B & D & Ev & NB & HB & -> & HD & ND & EN) Evp Hp Hpn Hpb Hxb Hm H1 H2 H3 H4.
  assert (z = O) as -> by (destruct z; [done|]; destruct p as [|b p]; [done|]; rewrite Ev in Evp; injection Evp as E _; by cbn in Hp). cbn [replicate app] in *. subst B. subst v. rewrite number_app in EN. pose proof (number_range 256 x ltac:(lia) Hxb) as Rx.
  assert (zlen D = m) as HlD by (apply (number_length 58); [lia|done|done|rewrite <- EN; lia|lia]). split; [unfold zlen in *; by rewrite length_map|].
  destruct D as [|d0 [|d1 D]]; [unfold zlen in HlD; cbn in HlD; lia|unfold zlen in HlD; cbn in HlD; lia|]. apply Forall_cons in HD as [Hd0 HD]. apply Forall_cons in HD as [Hd1 HD]. cbn [map take].
  rewrite !number_cons, zlen_cons, Z.pow_add_r in EN by (lia || apply zlen_nonneg). rewrite !zlen_cons in HlD. replace (m - 2) with (zlen D) in * by lia. pose proof (number_range 58 D ltac:(lia) HD) as RD.
  assert (q = d0 * 58 + d1) as -> by nia. rewrite Z.div_add_l, (Z.div_small d1), Z.add_0_r by lia. by rewrite Z.add_comm, Z.mod_add, Z.mod_small by lia.
Qed.

Section CheckProps.
Context `{Crypto} `{!CryptoLaws _}.

(** A string stands for [v] when it is the encoding of [v] with its checksum, between spaces. *)
Definition check_string (s v : bytes) : Prop :=
  bytes_ok v /\ exists sp1 core sp2, c_str s = sp1 ++ core ++ sp2 /\ spaces sp1 /\ spaces sp2 /\ EncodeBase58Check v = Ok core.

Lemma checksum_ok v : bytes_ok (take 4 (hash256 v)) /\ length (take 4 (hash256 v)) = 4%nat.
Proof. pose proof (sha256_len (sha256 v)) as Hl. unfold hash256. split; [apply Forall_take, sha256_bytes|]. rewrite length_take. unfold zlen in Hl. lia. Qed.

Lemma DecodeBase58Check_spec s : exists r, DecodeBase58Check s = Ok r /\ forall v, r = Some v <-> check_string s v.
Proof.
  destruct (DecodeBase58_spec s) as (r & Er & Hr). unfold DecodeBase58Check. rewrite Er. cbn [res_bind].
  assert (forall v, check_string s v -> r = Some (v ++ take 4 (hash256 v))) as Hback.
  { intros v (Hv & sp1 & core & sp2 & E & H1 & H2 & Ee). apply Hr. exists sp1, core, sp2. split_and!; try done. apply EncodeBase58_of; [|done]. apply Forall_app. split; [done|apply checksum_ok]. }
  assert (forall v, (length (v ++ take 4 (hash256 v)) - 4 = length v)%nat) as Hl by (intros v; rewrite length_app, (proj2 (checksum_ok v)); lia).
  destruct r as [w|]; [|exists None; split; [done|]; intros v; split; [done|intros Hv%Hback; done]]. destruct (Z.ltb_spec (zlen w) 4) as [Hshort|Hlong].
  { exists None. split; [done|]. intros v. split; [done|]. intros Hv%Hback. injection Hv as ->. unfold zlen in Hshort. rewrite length_app, (proj2 (checksum_ok v)) in Hshort. lia. }
  set (data := take (length w - 4) w). destruct (bytes_eqb (take 4 (hash256 data)) (drop (length w - 4) w)) eqn:Eb; cbn [negb]; unfold bytes_eqb in Eb.
  - apply bool_decide_eq_true in Eb. exists (Some data). split; [done|]. assert (w = data ++ take 4 (hash256 data)) as Ew by (rewrite Eb; unfold data; by rewrite take_drop). intros v. split.
    + intros [= <-]. destruct (proj1 (Hr w) eq_refl) as (sp1 & core & sp2 & E & H1 & H2 & Hc). pose proof (base58_of_bytes w core Hc) as Hw. assert (bytes_ok data) as Hd by (rewrite Ew in Hw; by apply Forall_app in Hw as [? _]).
      split; [done|]. exists sp1, core, sp2. split_and!; try done. unfold EncodeBase58Check. rewrite <- Ew. by apply EncodeBase58_of.
    + intros Hv%Hback. injection Hv as Hv. f_equal. unfold data. by rewrite Hv, Hl, take_app_length.
  - apply bool_decide_eq_false in Eb. exists None. split; [done|]. intros v. split; [done|]. intros Hv%Hback. injection Hv as Hv. exfalso. apply Eb. unfold data. rewrite Hv, Hl, take_app_length, drop_app_length. done.
Qed.

Lemma EncodeBase58Check_decodes v : bytes_ok v -> exists s, EncodeBase58Check v = Ok s /\ DecodeBase58Check s = Ok (Some v).
Proof.
  intros Hv. assert (bytes_ok (v ++ take 4 (hash256 v))) as Hw by (apply Forall_app; split; [done|apply checksum_ok]). destruct (EncodeBase58_spec _ Hw) as (s & Es & Hs). exists s. split; [done|].
  destruct (DecodeBase58Check_spec s) as (r & -> & Hr). f_equal. apply Hr. split; [done|]. exists [], s, []. rewrite app_nil_r. split; [by eapply core_c_str|]. split; [constructor|]. by split; [constructor|].
Qed.

(** Base 58 with a checksum is exact: every byte string has an encoding, which decodes to it, and
    whatever string [DecodeBase58Check] accepts is, up to surrounding spaces, the encoding of its
    result; so no two byte strings share a string and no byte string has two.  The digit buffers are
    always large enough: the assertions on the last carry hold for strings of any length. *)
Theorem base58check_exact :
  (forall v, bytes_ok v -> exists s, EncodeBase58Check v = Ok s /\ DecodeBase58Check s = Ok (Some v)) /\
  (forall s, exists r, DecodeBase58Check s = Ok r /\ forall v, r = Some v <-> check_string s v).
Proof. split; [exact EncodeBase58Check_decodes|exact DecodeBase58Check_spec]. Qed.
End CheckProps.
