(* ===== verification/Bech32.v ===== *)
(** * Bech32

    [utils/bech32.cpp]: the encoding of shielded addresses and keys, with a checksum over GF(32),
    and [ConvertBits] of [utils/utilstrencodings.h].  Strings are lists of character codes. *)

From Stdlib Require Import String.
From stdpp Require Import list.
From S2P Require Import Prelude SigHash Base58.
Open Scope Z_scope.

Definition CHARSET : bytes := chars "qpzry9x8gf2tvdw0s3jn54khce6mua7l".

Definition CHARSET_REV : list Z := [
  -1; -1; -1; -1; -1; -1; -1; -1; -1; -1; -1; -1; -1; -1; -1; -1;
  -1; -1; -1; -1; -1; -1; -1; -1; -1; -1; -1; -1; -1; -1; -1; -1;
  -1; -1; -1; -1; -1; -1; -1; -1; -1; -1; -1; -1; -1; -1; -1; -1;
  15; -1; 10; 17; 21; 20; 26; 30;  7;  5; -1; -1; -1; -1; -1; -1;
  -1; 29; -1; 24; 13; 25;  9;  8; 23; -1; 18; 22; 31; 27; 19; -1;
   1;  0;  3; 16; 11; 28; 12; 14;  6;  4;  2; -1; -1; -1; -1; -1;
  -1; 29; -1; 24; 13; 25;  9;  8; 23; -1; 18; 22; 31; 27; 19; -1;
   1;  0;  3; 16; 11; 28; 12; 14;  6;  4;  2; -1; -1; -1; -1; -1].

(** One value, from the state [c]. *)
Definition poly_step (c v_i : Z) : Z :=
  let c0 := u8 (Z.shiftr c 25) in
  let c := Z.lxor (u32 (Z.shiftl (Z.land c 0x1ffffff) 5)) v_i in
  let c := if negb (Z.land c0 1 =? 0) then Z.lxor c 0x3b6a57b2 else c in
  let c := if negb (Z.land c0 2 =? 0) then Z.lxor c 0x26508e6d else c in
  let c := if negb (Z.land c0 4 =? 0) then Z.lxor c 0x1ea119fa else c in
  let c := if negb (Z.land c0 8 =? 0) then Z.lxor c 0x3d4233dd else c in
  if negb (Z.land c0 16 =? 0) then Z.lxor c 0x2a1462b3 else c.
Definition PolyMod (v : bytes) : Z := foldl poly_step 1 v.

Definition islowerex (c : Z) : bool := (97 <=? c) && (c <=? 122).
Definition isupperex (c : Z) : bool := (65 <=? c) && (c <=? 90).
Definition LowerCase (c : Z) : Z := if (65 <=? c) && (c <=? 90) then (c - 65) + 97 else c.

Definition ExpandHRP (hrp : bytes) : bytes := map (fun c => Z.shiftr c 5) hrp ++ [0] ++ map (fun c => Z.land c 0x1f) hrp.

Definition VerifyChecksum (hrp values : bytes) : bool := PolyMod (ExpandHRP hrp ++ values) =? 1.

Definition CreateChecksum (hrp values : bytes) : bytes :=
  let v := ExpandHRP hrp ++ values ++ replicate 6 0 in
  let mod_ := Z.lxor (PolyMod v) 1 in
  map (fun i => Z.land (Z.shiftr mod_ (5 * (5 - Z.of_nat i))) 31) (seq 0 6).

(** [bech32::Encode]; the empty string in case of failure. *)
Definition Encode (hrp values : bytes) : bytes :=
  let vCombined := values ++ CreateChecksum hrp values in
  if forallb (fun c => c <? 32) vCombined then hrp ++ [49] ++ map (fun c => nth (Z.to_nat c) CHARSET 0) vCombined else [].

(** [str.rfind(c)] *)
Fixpoint rfind (c : Z) (str : bytes) : option nat :=
  match str with
  | [] => None
  | x :: str => match rfind c str with Some p => Some (S p) | None => if x =? c then Some O else None end
  end.

(** The values of the characters after the separator, unless one has none. *)
Fixpoint char_values (data : bytes) : option bytes :=
  match data with
  | [] => Some []
  | c :: data =>
      let rev := if (c <? 33) || (126 <? c) then -1 else nth (Z.to_nat c) CHARSET_REV (-1) in
      if rev =? -1 then None else option_map (cons rev) (char_values data)
  end.

(** [bech32::Decode]; the empty pair in case of failure. *)
Definition Decode (str : bytes) : bytes * bytes :=
  if existsb (fun ch => (ch <? 33) || (126 <? ch)) str then ([], [])
  else if existsb islowerex str && existsb isupperex str then ([], [])
  else
    match rfind 49 str with
    | None => ([], [])
    | Some pos =>
        if (1023 <? zlen str) || (pos =? 0)%nat || (length str <? pos + 7)%nat then ([], [])
        else
          match char_values (drop (pos + 1) str) with
          | None => ([], [])
          | Some values =>
              let hrp := map LowerCase (take pos str) in
              if negb (VerifyChecksum hrp values) then ([], [])
              else (hrp, if (6 <=? length values)%nat then take (length values - 6) values else values)
          end
    end.

(** ** Regrouping bits *)

(** The inner loop: [n] is a bound on the outputs of one input. *)
Fixpoint emit_bits (n : nat) (tobits acc bits : Z) : bytes * Z :=
  match n with
  | O => ([], bits)
  | S n =>
      if tobits <=? bits then
        let bits := bits - tobits in
        let r := emit_bits n tobits acc bits in
        (Z.land (Z.shiftr acc bits) (2 ^ tobits - 1) :: r.1, r.2)
      else ([], bits)
  end.

(** The loop over the input: the output so far, the accumulator and its bits. *)
Fixpoint convert_loop (frombits tobits acc bits : Z) (inp : bytes) : bytes * Z * Z :=
  match inp with
  | [] => ([], acc, bits)
  | v :: inp =>
      let acc := Z.land (Z.lor (Z.shiftl acc frombits) v) (2 ^ (frombits + tobits - 1) - 1) in
      let e := emit_bits (Z.to_nat (frombits + tobits)) tobits acc (bits + frombits) in
      let r := convert_loop frombits tobits acc e.2 inp in
      (e.1 ++ r.1.1, r.1.2, r.2)
  end.

(** What was passed to [outfn], and the result. *)
Definition ConvertBits (frombits tobits : Z) (pad : bool) (inp : bytes) : bytes * bool :=
  let '(out, acc, bits) := convert_loop frombits tobits 0 0 inp in
  let last := Z.land (Z.shiftl acc (tobits - bits)) (2 ^ tobits - 1) in
  if pad then (if negb (bits =? 0) then (out ++ [last], true) else (out, true))
  else if (frombits <=? bits) || negb (last =? 0) then (out, false)
  else (out, true).

(** ** The checksum is linear *)

(** A step without a value, and the multiples of the generator. *)
Definition gen_multiple (c0 : Z) : Z :=
  Z.lxor (Z.lxor (Z.lxor (Z.lxor (if Z.testbit c0 0 then 0x3b6a57b2 else 0) (if Z.testbit c0 1 then 0x26508e6d else 0))
    (if Z.testbit c0 2 then 0x1ea119fa else 0)) (if Z.testbit c0 3 then 0x3d4233dd else 0)) (if Z.testbit c0 4 then 0x2a1462b3 else 0).
Definition shift_step (c : Z) : Z := Z.lxor (Z.shiftl (Z.land c (Z.ones 25)) 5) (gen_multiple (Z.shiftr c 25)).

Definition word30 (c : Z) : Prop := 0 <= c < 2 ^ 30.

Lemma land_power c i : 0 <= i -> negb (Z.land c (2 ^ i) =? 0) = Z.testbit c i.
Proof.
  intros Hi. destruct (Z.eqb_spec (Z.land c (2 ^ i)) 0) as [E|E]; cbn [negb]; symmetry.
  - rewrite <- (Z.bits_0 i), <- E, Z.land_spec, Z.pow2_bits_true by lia. by rewrite andb_true_r.
  - destruct (Z.testbit c i) eqn:Et; [done|]. exfalso. apply E. apply Z.bits_inj'. intros j Hj. rewrite Z.land_spec, Z.bits_0, Z.pow2_bits_eqb by lia. destruct (Z.eqb_spec i j) as [->|]; [by rewrite Et|apply andb_false_r].
Qed.

Lemma top_bits c : word30 c -> 0 <= Z.shiftr c 25 < 32.
Proof. intros [H1 H2]. rewrite Z.shiftr_div_pow2 by lia. split; [apply Z.div_pos; lia|]. apply Z.div_lt_upper_bound; lia. Qed.

Lemma low_bits c : 0 <= Z.shiftl (Z.land c (Z.ones 25)) 5 < 2 ^ 30.
Proof. rewrite Z.land_ones, Z.shiftl_mul_pow2 by lia. pose proof (Z.mod_pos_bound c (2 ^ 25) ltac:(lia)). lia. Qed.

Lemma cond_lxor (b : bool) c k : (if b then Z.lxor c k else c) = Z.lxor c (if b then k else 0).
Proof. destruct b; [done|]. by rewrite Z.lxor_0_r. Qed.

Lemma poly_step_shift c v : word30 c -> poly_step c v = Z.lxor (shift_step c) v.
Proof.
  intros Hc. unfold poly_step, shift_step, gen_multiple. pose proof (top_bits c Hc) as Ht. rewrite u8_id by lia. change 0x1ffffff with (Z.ones 25). rewrite u32_id by (pose proof (low_bits c); lia).
  set (c0 := Z.shiftr c 25). set (s := Z.shiftl _ 5). rewrite !cond_lxor.
  rewrite (land_power c0 0 ltac:(lia) : negb (Z.land c0 1 =? 0) = _), (land_power c0 1 ltac:(lia) : negb (Z.land c0 2 =? 0) = _), (land_power c0 2 ltac:(lia) : negb (Z.land c0 4 =? 0) = _), (land_power c0 3 ltac:(lia) : negb (Z.land c0 8 =? 0) = _), (land_power c0 4 ltac:(lia) : negb (Z.land c0 16 =? 0) = _).
  set (k0 := if Z.testbit c0 0 then _ else 0). set (k1 := if Z.testbit c0 1 then _ else 0). set (k2 := if Z.testbit c0 2 then _ else 0). set (k3 := if Z.testbit c0 3 then _ else 0). set (k4 := if Z.testbit c0 4 then _ else 0).
  clearbody k0 k1 k2 k3 k4 s. apply Z.bits_inj'. intros i Hi. rewrite !Z.lxor_spec. by destruct (Z.testbit v i), (Z.testbit s i), (Z.testbit k0 i), (Z.testbit k1 i), (Z.testbit k2 i), (Z.testbit k3 i), (Z.testbit k4 i).
Qed.

Lemma value_forall (P : Z -> bool) n : forallb (fun k => P (Z.of_nat k)) (seq 0 n) = true -> forall x, 0 <= x < Z.of_nat n -> P x = true.
Proof. intros H x Hx. rewrite forallb_forall in H. specialize (H (Z.to_nat x)). rewrite Z2Nat.id in H by lia. apply H, in_seq. lia. Qed.

Lemma gen_linear x y : 0 <= x < 32 -> 0 <= y < 32 -> gen_multiple (Z.lxor x y) = Z.lxor (gen_multiple x) (gen_multiple y).
Proof.
  intros Hx Hy. assert (forallb (fun i => forallb (fun j => gen_multiple (Z.lxor (Z.of_nat i) (Z.of_nat j)) =? Z.lxor (gen_multiple (Z.of_nat i)) (gen_multiple (Z.of_nat j))) (seq 0 32)) (seq 0 32) = true) as H by (vm_compute; reflexivity).
  pose proof (value_forall (fun x => forallb (fun j => gen_multiple (Z.lxor x (Z.of_nat j)) =? Z.lxor (gen_multiple x) (gen_multiple (Z.of_nat j))) (seq 0 32)) 32 H x Hx) as Hxj.
  apply Z.eqb_eq. exact (value_forall (fun y => gen_multiple (Z.lxor x y) =? Z.lxor (gen_multiple x) (gen_multiple y)) 32 Hxj y Hy).
Qed.

Lemma gen_facts x : 0 <= x < 32 -> 0 <= gen_multiple x < 2 ^ 30 /\ (gen_multiple x mod 32 = 0 -> x = 0).
Proof.
  intros Hx. assert ((0 <=? gen_multiple x) && (gen_multiple x <? 2 ^ 30) && implb (gen_multiple x mod 32 =? 0) (x =? 0) = true) as H.
  { exact (value_forall (fun x => (0 <=? gen_multiple x) && (gen_multiple x <? 2 ^ 30) && implb (gen_multiple x mod 32 =? 0) (x =? 0)) 32 ltac:(vm_compute; reflexivity) x Hx). }
  rewrite !andb_true_iff, Z.leb_le, Z.ltb_lt, implb_true_iff, !Z.eqb_eq in H. tauto.
Qed.

Lemma lxor_bound w x y : 0 <= w -> 0 <= x < 2 ^ w -> 0 <= y < 2 ^ w -> 0 <= Z.lxor x y < 2 ^ w.
Proof.
  intros Hw Hx Hy. assert (Z.lxor x y = Z.lxor x y mod 2 ^ w) as ->; [|apply Z.mod_pos_bound; lia].
  rewrite <- !Z.land_ones by lia. apply Z.bits_inj'. intros i Hi. rewrite Z.land_spec, !Z.lxor_spec. destruct (Z.lt_ge_cases i w).
  - rewrite Z.ones_spec_low by lia. by rewrite andb_true_r.
  - rewrite Z.ones_spec_high by lia. rewrite andb_false_r.
    assert (forall z, 0 <= z < 2 ^ w -> Z.testbit z i = false) as Hz by (intros z Hz; rewrite <- (Z.mod_small z (2 ^ w)) by done; apply Z.mod_pow2_bits_high; lia).
    by rewrite !Hz.
Qed.

Lemma lxor_word x y : word30 x -> word30 y -> word30 (Z.lxor x y).
Proof. by apply lxor_bound. Qed.

Lemma value_word v : 0 <= v < 32 -> word30 v.
Proof. unfold word30. lia. Qed.

Lemma shift_step_word c : word30 c -> word30 (shift_step c).
Proof. intros Hc. apply lxor_word; [apply low_bits|]. apply gen_facts. by apply top_bits. Qed.

Lemma shift_linear a b : word30 a -> word30 b -> shift_step (Z.lxor a b) = Z.lxor (shift_step a) (shift_step b).
Proof.
  intros Ha Hb. unfold shift_step. rewrite Z.shiftr_lxor, gen_linear by (lia || by apply top_bits). set (g1 := gen_multiple (Z.shiftr a 25)). set (g2 := gen_multiple (Z.shiftr b 25)).
  apply Z.bits_inj'. intros i Hi. rewrite !Z.lxor_spec, !Z.shiftl_spec, !Z.land_spec, !Z.lxor_spec by lia.
  by destruct (Z.testbit a (i - 5)), (Z.testbit b (i - 5)), (Z.testbit (Z.ones 25) (i - 5)), (Z.testbit g1 i), (Z.testbit g2 i).
Qed.

(** Shifting loses nothing. *)
Lemma shift_zero c : word30 c -> shift_step c = 0 -> c = 0.
Proof.
  intros Hc E. unfold shift_step in E. apply Z.lxor_eq in E. pose proof (top_bits c Hc) as Ht. destruct (gen_facts _ Ht) as [Hg Hz]. rewrite Z.shiftl_mul_pow2 in E by lia.
  assert (Z.shiftr c 25 = 0) as E0 by (apply Hz; rewrite <- E; apply Z.mod_mul; lia). rewrite E0 in E. change (gen_multiple 0) with 0 in E. rewrite Z.land_ones in E by lia.
  rewrite Z.shiftr_div_pow2 in E0 by lia. pose proof (Z.div_mod c (2 ^ 25) ltac:(lia)). lia.
Qed.

(** ** Sequences of values *)

Abbreviation values_ok := (Forall (fun v => 0 <= v < 32)).

Definition poly (c : Z) (v : bytes) : Z := foldl poly_step c v.
Definition shifts (n : nat) (c : Z) : Z := Nat.iter n shift_step c.

Lemma poly_app c v w : poly c (v ++ w) = poly (poly c v) w.
Proof. apply foldl_app. Qed.

Lemma poly_word c v : word30 c -> values_ok v -> word30 (poly c v).
Proof.
  intros Hc Hv. revert c Hc. induction Hv as [|x v Hx Hv IH]; intros c Hc; [done|]. cbn. apply IH. rewrite poly_step_shift by done. apply lxor_word; [by apply shift_step_word|by apply value_word].
Qed.

Lemma shifts_word n c : word30 c -> word30 (shifts n c).
Proof. intros Hc. induction n as [|n IH]; [done|]. cbn. by apply shift_step_word. Qed.

Lemma shifts_S n c : shifts (S n) c = shifts n (shift_step c).
Proof. induction n as [|n IH]; [done|]. cbn in *. by rewrite IH. Qed.

Lemma shifts_zero n c : word30 c -> shifts n c = 0 -> c = 0.
Proof. induction n as [|n IH]; [done|]. intros Hc E. cbn in E. apply shift_zero in E; [by apply IH|by apply shifts_word]. Qed.

(** Two states that read the same values. *)
Lemma poly_diff a b v : word30 a -> word30 b -> values_ok v -> Z.lxor (poly a v) (poly b v) = shifts (length v) (Z.lxor a b).
Proof.
  intros Ha Hb Hv. revert a b Ha Hb. induction Hv as [|x v Hx Hv IH]; intros a b Ha Hb; [done|]. cbn [poly foldl length]. fold (poly (poly_step a x) v) (poly (poly_step b x) v).
  pose proof (value_word x Hx) as Hxw. rewrite !poly_step_shift by done. rewrite IH by (apply lxor_word; [by apply shift_step_word|done]). rewrite shifts_S, shift_linear by done. f_equal.
  apply Z.bits_inj'. intros i Hi. rewrite !Z.lxor_spec. by destruct (Z.testbit (shift_step a) i), (Z.testbit (shift_step b) i), (Z.testbit x i).
Qed.

Lemma zero_values n : values_ok (replicate n 0).
Proof. apply Forall_replicate. lia. Qed.

Lemma poly_zero n : poly 0 (replicate n 0) = 0.
Proof. induction n as [|n IH]; [done|]. exact IH. Qed.

(** The values enter the state by exclusive or. *)
Lemma poly_values c ks : word30 c -> values_ok ks -> poly c ks = Z.lxor (poly c (replicate (length ks) 0)) (poly 0 ks).
Proof.
  intros Hc Hk. revert c Hc. induction Hk as [|x ks Hx Hk IH]; intros c Hc; [by rewrite Z.lxor_0_r|]. cbn [length replicate poly foldl]. fold (poly (poly_step c x) ks) (poly (poly_step 0 x) ks) (poly (poly_step c 0) (replicate (length ks) 0)).
  pose proof (value_word x Hx) as Hxw. pose proof (shift_step_word c Hc) as Hs. assert (word30 0) as H0 by (unfold word30; lia). rewrite (poly_step_shift c x), (poly_step_shift c 0), (poly_step_shift 0 x), Z.lxor_0_r by done. change (Z.lxor (shift_step 0) x) with x.
  rewrite (IH (Z.lxor (shift_step c) x)) by (by apply lxor_word). rewrite (IH x) by done. set (z := replicate (length ks) 0).
  pose proof (poly_diff (Z.lxor (shift_step c) x) (shift_step c) z ltac:(by apply lxor_word) Hs ltac:(apply zero_values)) as D1. pose proof (poly_diff x 0 z Hxw H0 ltac:(apply zero_values)) as D2.
  unfold z in D2. rewrite poly_zero, !Z.lxor_0_r in D2. fold z in D2. rewrite (Z.lxor_comm (shift_step c) x), Z.lxor_assoc, Z.lxor_nilpotent, Z.lxor_0_r in D1. rewrite (Z.lxor_comm (shift_step c) x), D2.
  rewrite <- D1. apply Z.bits_inj'. intros i Hi. rewrite !Z.lxor_spec. by destruct (Z.testbit (poly (Z.lxor x (shift_step c)) z) i), (Z.testbit (poly (shift_step c) z) i), (Z.testbit (poly 0 ks) i).
Qed.

(** As long as nothing is shifted out the state is a number in base 32. *)
Lemma poly_small c ks : 0 <= c -> values_ok ks -> (c + 1) * 32 ^ zlen ks <= 2 ^ 30 -> poly c ks = c * 32 ^ zlen ks + number 32 ks.
Proof.
  intros Hc Hk. revert c Hc. induction Hk as [|x ks Hx Hk IH]; intros c Hc Hfit; [apply number_nil|]. rewrite zlen_cons, Z.pow_add_r, Z.pow_1_r in Hfit by (lia || apply zlen_nonneg). assert (0 < 32 ^ zlen ks) as Hp by (apply Z.pow_pos_nonneg; [lia|apply zlen_nonneg]).
  assert (c + 1 <= 2 ^ 25) as Hc25 by nia. assert (poly_step c x = 32 * c + x) as Es.
  { rewrite poly_step_shift by (unfold word30; lia). unfold shift_step. rewrite Z.shiftr_div_pow2, (Z.div_small c), Z.land_ones, Z.mod_small, Z.shiftl_mul_pow2 by lia. change (gen_multiple 0) with 0. rewrite Z.lxor_0_r.
    rewrite <- (Z.shiftl_mul_pow2 c 5) by lia. rewrite Z.lxor_comm. rewrite <- Z.add_nocarry_lxor; [rewrite Z.shiftl_mul_pow2; lia|]. apply Z.bits_inj'. intros i Hi. rewrite Z.land_spec, Z.bits_0. destruct (Z.lt_ge_cases i 5).
    - rewrite Z.shiftl_spec_low by lia. apply andb_false_r.
    - rewrite <- (Z.mod_small x (2 ^ 5)) by lia. rewrite Z.mod_pow2_bits_high by lia. done. }
  cbn [poly foldl]. fold (poly (poly_step c x) ks). rewrite Es, IH, number_cons, zlen_cons, Z.pow_add_r, Z.pow_1_r by (lia || nia || apply zlen_nonneg). lia.
Qed.

Lemma number_digits m n : 0 <= m -> number 32 (map (fun i => (m / 32 ^ Z.of_nat (n - 1 - i)) mod 32) (seq 0 n)) = m mod 32 ^ Z.of_nat n.
Proof.
  revert m. induction n as [|n IH]; intros m Hm; [by rewrite Z.mod_1_r|]. rewrite seq_S, map_app, number_app. cbn [map]. rewrite Nat.add_0_l. replace (S n - 1 - n)%nat with 0%nat by lia. rewrite Z.pow_0_r, Z.div_1_r.
  change (zlen [m mod 32]) with 1. rewrite Z.pow_1_r. unfold number at 2. cbn [foldl]. rewrite Z.mul_0_l, Z.add_0_l.
  assert (map (fun i => (m / 32 ^ Z.of_nat (S n - 1 - i)) mod 32) (seq 0 n) = map (fun i => (m / 32 / 32 ^ Z.of_nat (n - 1 - i)) mod 32) (seq 0 n)) as ->.
  { apply map_ext_in. intros i Hi%in_seq. rewrite Z.div_div by (lia || apply Z.pow_pos_nonneg; lia). do 2 f_equal. replace (S n - 1 - i)%nat with (S (n - 1 - i)) by lia. rewrite Nat2Z.inj_succ, Z.pow_succ_r by lia. done. }
  rewrite IH by (apply Z.div_pos; lia). rewrite Nat2Z.inj_succ, Z.pow_succ_r, Z.rem_mul_r by (lia || apply Z.pow_pos_nonneg; lia). lia.
Qed.

(** ** The checksum *)

(** A human-readable part: not empty, of printable characters. *)
Definition printable (c : Z) : Prop := 33 <= c <= 126.

Lemma ExpandHRP_values hrp : Forall printable hrp -> values_ok (ExpandHRP hrp).
Proof.
  intros Hh. apply Forall_app. split; [|constructor; [lia|]]; apply Forall_map; eapply Forall_impl; [exact Hh| |exact Hh|]; cbn; intros c Hc.
  - unfold printable in Hc. rewrite Z.shiftr_div_pow2 by lia. split; [apply Z.div_pos; lia|apply Z.div_lt_upper_bound; lia].
  - change 31 with (Z.ones 5). rewrite Z.land_ones by lia. apply Z.mod_pos_bound. lia.
Qed.

Lemma CreateChecksum_spec hrp values : Forall printable hrp -> values_ok values ->
  values_ok (CreateChecksum hrp values) /\ length (CreateChecksum hrp values) = 6%nat /\
  number 32 (CreateChecksum hrp values) = Z.lxor (PolyMod (ExpandHRP hrp ++ values ++ replicate 6 0)) 1.
Proof.
  intros Hh Hv. unfold CreateChecksum. set (m := Z.lxor _ 1). assert (word30 m) as Hm.
  { apply lxor_word; [|unfold word30; lia]. apply (poly_word 1); [unfold word30; lia|]. apply Forall_app. split; [by apply ExpandHRP_values|]. apply Forall_app. split; [done|apply zero_values]. }
  assert (map (fun i => Z.land (Z.shiftr m (5 * (5 - Z.of_nat i))) 31) (seq 0 6) = map (fun i => (m / 32 ^ Z.of_nat (6 - 1 - i)) mod 32) (seq 0 6)) as ->.
  { apply map_ext_in. intros i Hi%in_seq. change 31 with (Z.ones 5). rewrite Z.land_ones, Z.shiftr_div_pow2 by lia. change 32 with (2 ^ 5) at 1. rewrite <- Z.pow_mul_r by lia. do 3 f_equal. lia. }
  split; [apply Forall_map, Forall_forall; intros i _; cbn; apply Z.mod_pos_bound; lia|]. split; [done|]. rewrite number_digits by apply Hm. apply Z.mod_small. exact Hm.
Qed.

(** The six values that verify are those that [CreateChecksum] makes. *)
Lemma VerifyChecksum_spec hrp values ks : Forall printable hrp -> values_ok values -> values_ok ks -> length ks = 6%nat ->
  VerifyChecksum hrp (values ++ ks) = true <-> ks = CreateChecksum hrp values.
Proof.
  intros Hh Hv Hk El. destruct (CreateChecksum_spec hrp values Hh Hv) as (C1 & C2 & C3). unfold VerifyChecksum. rewrite Z.eqb_eq. unfold PolyMod in *. fold (poly 1 (ExpandHRP hrp ++ values ++ ks)). fold (poly 1 (ExpandHRP hrp ++ values ++ replicate 6 0)) in C3.
  rewrite app_assoc, poly_app in *. set (st := poly 1 (ExpandHRP hrp ++ values)) in *. assert (word30 st) as Hst by (apply poly_word; [unfold word30; lia|]; apply Forall_app; split; [by apply ExpandHRP_values|done]).
  assert (forall l, values_ok l -> length l = 6%nat -> poly 0 l = number 32 l) as Hsmall by (intros l Hl Ell; rewrite poly_small; [lia|lia|done|unfold zlen; rewrite Ell; done]).
  rewrite (poly_values st ks Hst Hk), El, (Hsmall ks Hk El). split.
  - intros E. assert (number 32 ks = number 32 (CreateChecksum hrp values)) as En.
    { rewrite C3, <- E, <- Z.lxor_assoc, Z.lxor_nilpotent, Z.lxor_0_l. done. }
    apply (number_eq 32); [lia|done|done| |done]. unfold zlen. by rewrite El, C2.
  - intros ->. rewrite C3, <- Z.lxor_assoc, Z.lxor_nilpotent, Z.lxor_0_l. done.
Qed.

(** ** Characters *)

Definition value_char (v : Z) : Z := nth (Z.to_nat v) CHARSET 0.
Definition char_value (c : Z) : Z := if (c <? 33) || (126 <? c) then -1 else nth (Z.to_nat c) CHARSET_REV (-1).

Lemma value_char_spec v : 0 <= v < 32 -> char_value (value_char v) = v /\ printable (value_char v) /\ isupperex (value_char v) = false /\ value_char v <> 49.
Proof.
  intros Hv. assert ((char_value (value_char v) =? v) && (33 <=? value_char v) && (value_char v <=? 126) && negb (isupperex (value_char v)) && negb (value_char v =? 49) = true) as H.
  { exact (value_forall (fun v => (char_value (value_char v) =? v) && (33 <=? value_char v) && (value_char v <=? 126) && negb (isupperex (value_char v)) && negb (value_char v =? 49)) 32 ltac:(vm_compute; reflexivity) v Hv). }
  rewrite !andb_true_iff, !negb_true_iff, Z.eqb_eq, Z.eqb_neq, !Z.leb_le in H. unfold printable. tauto.
Qed.

Lemma char_value_spec c : char_value c <> -1 -> 0 <= char_value c < 32 /\ value_char (char_value c) = LowerCase c.
Proof.
  intros Hne. unfold char_value in *. destruct (Z.ltb_spec c 33); [done|]. destruct (Z.ltb_spec 126 c); [done|]. cbn [orb] in *.
  assert ((nth (Z.to_nat c) CHARSET_REV (-1) =? -1) || ((0 <=? nth (Z.to_nat c) CHARSET_REV (-1)) && (nth (Z.to_nat c) CHARSET_REV (-1) <? 32) && (value_char (nth (Z.to_nat c) CHARSET_REV (-1)) =? LowerCase c)) = true) as H1.
  { exact (value_forall (fun c => (nth (Z.to_nat c) CHARSET_REV (-1) =? -1) || ((0 <=? nth (Z.to_nat c) CHARSET_REV (-1)) && (nth (Z.to_nat c) CHARSET_REV (-1) <? 32) && (value_char (nth (Z.to_nat c) CHARSET_REV (-1)) =? LowerCase c))) 128 ltac:(vm_compute; reflexivity) c ltac:(lia)). }
  rewrite orb_true_iff, !andb_true_iff, !Z.eqb_eq, Z.leb_le, Z.ltb_lt in H1. tauto.
Qed.

Lemma char_values_spec data values : char_values data = Some values <-> values = map char_value data /\ Forall (fun c => char_value c <> -1) data.
Proof.
  revert values. induction data as [|c data IH]; intros values; cbn [char_values map]; [split; [by intros [= <-]|by intros [-> _]]|]. fold (char_value c). destruct (Z.eqb_spec (char_value c) (-1)) as [E|E].
  - split; [done|]. intros [_ H]. by inversion H.
  - destruct (char_values data) as [vs|]; cbn [option_map].
    + destruct (proj1 (IH vs) eq_refl) as [-> Hd]. split; [intros [= <-]; split; [done|by constructor]|by intros [-> _]].
    + split; [done|]. intros [-> H]. inversion H; subst. by specialize (proj2 (IH (map char_value data)) (conj eq_refl ltac:(done))).
Qed.

Lemma rfind_app c s t : c ∉ t -> rfind c (s ++ [c] ++ t) = Some (length s).
Proof.
  intros Ht. assert (rfind c t = None) as Et. { induction t as [|x t IH]; [done|]. apply not_elem_of_cons in Ht as [Hx Ht]. cbn. rewrite IH by done. destruct (Z.eqb_spec x c); congruence. }
  induction s as [|x s IH]; cbn [app rfind length]; [rewrite Et, Z.eqb_refl; done|]. cbn [app] in IH. by rewrite IH.
Qed.

Lemma rfind_Some c s p : rfind c s = Some p -> s = take p s ++ [c] ++ drop (S p) s /\ (c ∉ drop (S p) s) /\ (p < length s)%nat.
Proof.
  revert p. induction s as [|x s IH]; intros p E; [done|]. cbn in E. destruct (rfind c s) as [q|] eqn:Eq.
  - injection E as <-. destruct (IH q eq_refl) as (H1 & H2 & H3). cbn [take drop app length]. split; [f_equal; exact H1|]. split; [exact H2|lia].
  - destruct (Z.eqb_spec x c) as [->|]; [|done]. injection E as <-. cbn [take drop app length]. rewrite drop_0. split; [done|]. split; [|lia].
    clear IH. induction s as [|y s IH]; [apply not_elem_of_nil|]. cbn in Eq. destruct (rfind c s); [done|]. destruct (Z.eqb_spec y c); [done|]. apply not_elem_of_cons. split; [congruence|by apply IH].
Qed.

(** ** Encoding and decoding *)

(** A human-readable part in lower case. *)
Definition hrp_ok (hrp : bytes) : Prop := hrp <> [] /\ Forall printable hrp /\ Forall (fun c => isupperex c = false) hrp.

Lemma existsb_none {A : Type} (f : A -> bool) l : Forall (fun x => f x = false) l -> existsb f l = false.
Proof. induction 1 as [|x l Hx Hl IH]; [done|]. cbn. by rewrite Hx, IH. Qed.

Lemma existsb_all {A : Type} (f : A -> bool) l : existsb f l = false -> Forall (fun x => f x = false) l.
Proof. induction l as [|x l IH]; [constructor|]. cbn. rewrite orb_false_iff. intros [Hx Hl]. constructor; [done|by apply IH]. Qed.

Lemma LowerCase_id c : isupperex c = false -> LowerCase c = c.
Proof. unfold isupperex, LowerCase. by intros ->. Qed.

Lemma LowerCase_printable c : printable c -> printable (LowerCase c) /\ isupperex (LowerCase c) = false.
Proof.
  unfold printable, LowerCase, isupperex. intros Hc. destruct (Z.leb_spec 65 c), (Z.leb_spec c 90); cbn [andb]; (split; [lia|]); destruct (Z.leb_spec 65 (c - 65 + 97)), (Z.leb_spec (c - 65 + 97) 90); try lia; try done;
    destruct (Z.leb_spec 65 c), (Z.leb_spec c 90); try lia; done.
Qed.

Lemma not_printable c : ((c <? 33) || (126 <? c) = false) <-> printable c.
Proof. unfold printable. rewrite orb_false_iff, !Z.ltb_ge. lia. Qed.

Lemma Encode_chars hrp values : Forall printable hrp -> values_ok values -> Encode hrp values = hrp ++ [49] ++ map value_char (values ++ CreateChecksum hrp values).
Proof.
  intros Hh Hv. unfold Encode. destruct (CreateChecksum_spec hrp values Hh Hv) as (C1 & _). rewrite (proj2 (forallb_forall _ _)); [done|]. intros c Hc%list_elem_of_In. apply Z.ltb_lt.
  assert (values_ok (values ++ CreateChecksum hrp values)) as Hall by (by apply Forall_app). by eapply Forall_forall in Hall as [_ ?].
Qed.

(** What [Decode] does with a string of values. *)
Lemma Decode_values hrp values : hrp_ok hrp -> values_ok values -> (length hrp + 1 + length values <= 1023)%nat -> (6 <= length values)%nat ->
  Decode (hrp ++ [49] ++ map value_char values) = if VerifyChecksum hrp values then (hrp, take (length values - 6) values) else ([], []).
Proof.
  intros (Hne & Hh & Hu) Hv Hlen H6. assert (Forall printable (map value_char values) /\ Forall (fun c => isupperex c = false) (map value_char values) /\ (49 ∉ map value_char values) /\ map char_value (map value_char values) = values /\ Forall (fun c => char_value c <> -1) (map value_char values)) as (P1 & P2 & P3 & P4 & P5).
  { clear -Hv. induction Hv as [|v l Hv Hl (I1 & I2 & I3 & I4 & I5)]; cbn [map]; [by split_and!; try constructor; try apply not_elem_of_nil|]. destruct (value_char_spec v Hv) as (V1 & V2 & V3 & V4).
    split_and!; try (by constructor); [apply not_elem_of_cons; split; [congruence|done]|by rewrite V1, I4|constructor; [rewrite V1; lia|done]]. }
  set (data := map value_char values) in *. assert (length data = length values) as Ld by apply length_map. unfold Decode.
  assert (Forall printable (hrp ++ [49] ++ data)) as Hp by (apply Forall_app; split; [done|]; constructor; [unfold printable; lia|done]).
  rewrite existsb_none by (eapply Forall_impl; [exact Hp|]; intros c Hc; by apply not_printable).
  rewrite (existsb_none isupperex), andb_false_r by (apply Forall_app; split; [done|]; by constructor). rewrite rfind_app by done. unfold zlen. rewrite !length_app, Ld. cbn [length].
  destruct (Z.ltb_spec 1023 (Z.of_nat (length hrp + (1 + length values)))); [lia|]. destruct (Nat.eqb_spec (length hrp) 0); [destruct hrp; done|]. destruct (Nat.ltb_spec (length hrp + (1 + length values)) (length hrp + 7)); [lia|]. cbn [orb].
  assert (drop (length hrp + 1) (hrp ++ [49] ++ data) = data) as -> by (rewrite app_assoc; apply drop_app_length'; rewrite length_app; done). rewrite take_app_length.
  rewrite (proj2 (char_values_spec data values)) by done. rewrite (map_ext_in LowerCase (fun c => c)), map_id by (intros c Hc%list_elem_of_In; apply LowerCase_id; by eapply Forall_forall in Hu).
  destruct (VerifyChecksum hrp values); cbn [negb]; [|done]. destruct (Nat.leb_spec 6 (length values)); [done|lia].
Qed.

Lemma Encode_roundtrip hrp values : hrp_ok hrp -> values_ok values -> (length hrp + length values <= 1016)%nat -> Decode (Encode hrp values) = (hrp, values).
Proof.
  intros Hh Hv Hlen. destruct (CreateChecksum_spec hrp values (proj1 (proj2 Hh)) Hv) as (C1 & C2 & _). rewrite Encode_chars by (done || apply Hh). assert (values_ok (values ++ CreateChecksum hrp values)) as Hall by (by apply Forall_app).
  rewrite Decode_values by (done || rewrite length_app, C2; lia). rewrite (proj2 (VerifyChecksum_spec hrp values (CreateChecksum hrp values) (proj1 (proj2 Hh)) Hv C1 C2) eq_refl).
  rewrite length_app, C2, Nat.add_sub, take_app_length. done.
Qed.

Lemma Decode_Encode s hrp values : Decode s = (hrp, values) -> hrp <> [] -> hrp_ok hrp /\ values_ok values /\ Encode hrp values = map LowerCase s /\ zlen s <= 1023.
Proof.
  unfold Decode. intros E Hne. destruct (existsb _ s) eqn:Ep; [by injection E as <- _|]. assert (Forall printable s) as Hp by (eapply Forall_impl; [by apply existsb_all|]; intros c Hc; by apply not_printable).
  destruct (existsb islowerex s && existsb isupperex s); [by injection E as <- _|]. destruct (rfind 49 s) as [pos|] eqn:Er; [|by injection E as <- _]. destruct (rfind_Some 49 s pos Er) as (Es & Hd & Hpos).
  destruct (Z.ltb_spec 1023 (zlen s)); [by injection E as <- _|]. destruct (Nat.eqb_spec pos 0) as [|Hpos0]; [by injection E as <- _|]. destruct (Nat.ltb_spec (length s) (pos + 7)) as [|Hlong]; [by injection E as <- _|]. cbn [orb] in E. rewrite Nat.add_1_r in E.
  destruct (char_values (drop (S pos) s)) as [vals|] eqn:Ev; [|by injection E as <- _]. apply char_values_spec in Ev as [-> Hvals]. set (data := drop (S pos) s) in *. set (pre := take pos s) in *.
  destruct (VerifyChecksum (map LowerCase pre) (map char_value data)) eqn:Ec; cbn [negb] in E; [|by injection E as <- _]. rewrite length_map in E. assert (length data = length s - S pos)%nat as Ld by apply length_drop.
  destruct (Nat.leb_spec 6 (length data)); [|lia]. injection E as <- <-. assert (Forall printable pre) as Hpre by (by apply Forall_take). assert (hrp_ok (map LowerCase pre)) as Hh.
  { split; [done|]. split; apply Forall_map; (eapply Forall_impl; [exact Hpre|]); intros c Hc; by apply LowerCase_printable. }
  assert (values_ok (map char_value data)) as Hv by (apply Forall_map; eapply Forall_impl; [exact Hvals|]; intros c Hc; by apply char_value_spec).
  set (n := (length data - 6)%nat) in *. set (vs := map char_value data) in *. assert (values_ok (take n vs) /\ values_ok (drop n vs)) as [Hv1 Hv2] by (split; [by apply Forall_take|by apply Forall_drop]).
  assert (length (drop n vs) = 6%nat) as L6 by (rewrite length_drop; unfold vs; rewrite length_map; lia). rewrite <- (take_drop n vs) in Ec. apply VerifyChecksum_spec in Ec; [|apply Hh|done|done|done].
  split; [done|]. split; [done|]. split; [|lia]. rewrite Encode_chars by (done || apply Hh). rewrite <- Ec, take_drop, Es at 1. fold pre data. rewrite !map_app. f_equal. f_equal. unfold vs. rewrite map_map.
  apply map_ext_in. intros c Hc%list_elem_of_In. apply char_value_spec. by eapply Forall_forall in Hvals.
Qed.

(** Bech32 is exact: a lower-case human-readable part and values of five bits decode from their
    encoding, within the limit on the length, and whatever string [Decode] accepts, in upper or lower
    case, is the encoding of its result up to case. *)
Theorem bech32_exact :
  (forall hrp values, hrp_ok hrp -> values_ok values -> (length hrp + length values <= 1016)%nat -> Decode (Encode hrp values) = (hrp, values)) /\
  (forall s hrp values, Decode s = (hrp, values) -> hrp <> [] -> hrp_ok hrp /\ values_ok values /\ Encode hrp values = map LowerCase s).
Proof.
  split; [exact Encode_roundtrip|]. intros s hrp values E Hne. destruct (Decode_Encode s hrp values E Hne) as (H1 & H2 & H3 & _). done.
Qed.

(** ** Errors *)

(** The number of places where two strings differ. *)
Fixpoint distance (v w : bytes) : nat :=
  match v, w with
  | x :: v, y :: w => if x =? y then distance v w else S (distance v w)
  | _, _ => O
  end.

Lemma distance_0 v w : length v = length w -> distance v w = 0%nat -> v = w.
Proof. revert w. induction v as [|x v IH]; intros [|y w] El E; try done. cbn in *. destruct (Z.eqb_spec x y) as [->|]; [|done]. f_equal. apply IH; [lia|done]. Qed.

Lemma distance_S v w d : distance v w = S d -> exists p x y v' w', v = p ++ x :: v' /\ w = p ++ y :: w' /\ x <> y /\ distance v' w' = d.
Proof.
  revert w. induction v as [|x v IH]; intros [|y w] E; try done. cbn in E. destruct (Z.eqb_spec x y) as [->|Hne].
  - destruct (IH w E) as (p & a & b & v' & w' & -> & -> & Hab & Hd). by exists (y :: p), a, b, v', w'.
  - injection E as E. by exists [], x, y, v, w.
Qed.

(** A value never comes back as a value within the longest string. *)
Fixpoint no_return (n : nat) (c : Z) : bool := match n with O => true | S n => let c := shift_step c in (32 <=? c) && no_return n c end.

Lemma no_return_spec n c d : no_return n c = true -> (1 <= d <= n)%nat -> 32 <= shifts d c.
Proof.
  revert c d. induction n as [|n IH]; intros c d H Hd; [lia|]. cbn in H. apply andb_true_iff in H as [H1%Z.leb_le H2]. destruct d as [|d]; [lia|]. rewrite shifts_S. destruct d as [|d]; [exact H1|]. apply IH; [done|lia].
Qed.

Lemma value_shifts a d : 0 < a < 32 -> (1 <= d <= 1022)%nat -> 32 <= shifts d a.
Proof.
  intros Ha Hd. apply (no_return_spec 1022); [|done]. assert ((a =? 0) || no_return 1022 a = true) as H.
  { exact (value_forall (fun a => (a =? 0) || no_return 1022 a) 32 ltac:(vm_compute; reflexivity) a ltac:(lia)). }
  destruct (Z.eqb_spec a 0); [lia|done].
Qed.

Lemma lxor_values x y : 0 <= x < 32 -> 0 <= y < 32 -> x <> y -> 0 < Z.lxor x y < 32.
Proof. intros Hx Hy Hne. pose proof (lxor_bound 5 x y ltac:(lia) Hx Hy). assert (Z.lxor x y <> 0) by (intros E; by apply Z.lxor_eq in E). lia. Qed.

(** One or two changes change the checksum. *)
Lemma poly_changes c v w : word30 c -> values_ok v -> values_ok w -> length v = length w -> (length v <= 1022)%nat -> (1 <= distance v w <= 2)%nat -> poly c v <> poly c w.
Proof.
  intros Hc Hv Hw El Hlen Hd E. destruct (distance v w) as [|d] eqn:Ed; [lia|]. destruct (distance_S v w d Ed) as (p & x & y & v' & w' & -> & -> & Hxy & Hd'). rewrite (length_app p (x :: v')), (length_app p (y :: w')) in El. rewrite length_app in Hlen. cbn [length] in El, Hlen.
  apply Forall_app in Hv as [Hp Hv]. apply Forall_app in Hw as [_ Hw]. inversion Hv as [|? ? Hx Hv']; subst. inversion Hw as [|? ? Hy Hw']; subst. rewrite !poly_app in E. pose proof (poly_word c p Hc Hp) as Hcp. set (st := poly c p) in *.
  cbn [poly foldl] in E. fold (poly (poly_step st x) v') (poly (poly_step st y) w') in E. rewrite !poly_step_shift in E by done. pose proof (shift_step_word st Hcp) as Hs.
  assert (word30 (Z.lxor (shift_step st) x) /\ word30 (Z.lxor (shift_step st) y)) as [W1 W2] by (split; apply lxor_word; (done || by apply value_word)).
  assert (Z.lxor (Z.lxor (shift_step st) x) (Z.lxor (shift_step st) y) = Z.lxor x y) as Exy by (apply Z.bits_inj'; intros i Hi; rewrite !Z.lxor_spec; by destruct (Z.testbit (shift_step st) i), (Z.testbit x i), (Z.testbit y i)).
  pose proof (lxor_values x y Hx Hy Hxy) as Ha. set (s1 := Z.lxor (shift_step st) x) in *. set (s2 := Z.lxor (shift_step st) y) in *. set (a := Z.lxor x y) in *. clearbody s1 s2 a. clear Ed.
  destruct (distance v' w') as [|d2] eqn:Ed2.
  - assert (v' = w') as <- by (apply distance_0; [lia|done]). pose proof (poly_diff s1 s2 v' W1 W2 Hv') as D. rewrite E, Z.lxor_nilpotent, Exy in D. symmetry in D. apply shifts_zero in D; [lia|unfold word30; lia].
  - destruct (distance_S v' w' d2 Ed2) as (m & x2 & y2 & t & t' & -> & -> & Hxy2 & Hd2). rewrite (length_app m (x2 :: t)), (length_app m (y2 :: t')) in El. rewrite length_app in Hlen. cbn [length] in El, Hlen. assert (t = t') as <- by (apply distance_0; [lia|lia]).
    apply Forall_app in Hv' as [Hm Hv']. apply Forall_app in Hw' as [_ Hw']. apply Forall_cons in Hv' as [Hx2 Ht]. apply Forall_cons in Hw' as [Hy2 _]. rewrite !poly_app in E.
    pose proof (poly_word s1 m W1 Hm) as W3. pose proof (poly_word s2 m W2 Hm) as W4. pose proof (poly_diff s1 s2 m W1 W2 Hm) as D. rewrite Exy in D. set (u1 := poly s1 m) in *. set (u2 := poly s2 m) in *.
    cbn [poly foldl] in E. fold (poly (poly_step u1 x2) t) (poly (poly_step u2 y2) t) in E. rewrite !poly_step_shift in E by done.
    assert (word30 (Z.lxor (shift_step u1) x2) /\ word30 (Z.lxor (shift_step u2) y2)) as [W5 W6] by (split; (apply lxor_word; [by apply shift_step_word|by apply value_word])).
    pose proof (poly_diff _ _ t W5 W6 Ht) as D2. rewrite E, Z.lxor_nilpotent in D2. symmetry in D2. apply shifts_zero in D2; [|by apply lxor_word].
    assert (Z.lxor (shift_step u1) (shift_step u2) = shifts (S (length m)) a) as D3 by (cbn; rewrite <- shift_linear by done; by rewrite D).
    assert (shifts (S (length m)) a = Z.lxor x2 y2) as D4.
    { rewrite <- D3. apply Z.lxor_eq. rewrite <- D2. apply Z.bits_inj'. intros i Hi. rewrite !Z.lxor_spec. by destruct (Z.testbit (shift_step u1) i), (Z.testbit (shift_step u2) i), (Z.testbit x2 i), (Z.testbit y2 i). }
    pose proof (lxor_values x2 y2 Hx2 Hy2 Hxy2). pose proof (value_shifts a (S (length m)) Ha ltac:(lia)). lia.
Qed.

(** C29. The checksum of Bech32 detects up to two wrong characters: of two strings with the same
    human-readable part that differ in one or two characters of the rest, at most one decodes,
    for all lengths that [Decode] admits. *)
Theorem bech32_detects hrp v w : hrp_ok hrp -> values_ok v -> values_ok w -> length v = length w -> (6 <= length v)%nat -> (length hrp + 1 + length v <= 1023)%nat ->
  (1 <= distance v w <= 2)%nat -> Decode (hrp ++ [49] ++ map value_char v) <> ([], []) -> Decode (hrp ++ [49] ++ map value_char w) = ([], []).
Proof.
  intros Hh Hv Hw El H6 Hlen Hd. rewrite !Decode_values by (done || lia). destruct (VerifyChecksum hrp v) eqn:Ev; [|done]. intros _. destruct (VerifyChecksum hrp w) eqn:Ew; [exfalso|done].
  unfold VerifyChecksum, PolyMod in Ev, Ew. apply Z.eqb_eq in Ev, Ew. fold (poly 1 (ExpandHRP hrp ++ v)) in Ev. fold (poly 1 (ExpandHRP hrp ++ w)) in Ew. rewrite poly_app in Ev, Ew.
  apply (poly_changes (poly 1 (ExpandHRP hrp)) v w); [|done|done|done|lia|done|by rewrite Ev, Ew]. apply poly_word; [unfold word30; lia|by apply ExpandHRP_values, Hh].
Qed.

(** The string a12uel5l of the unit tests, and the same with two characters replaced. *)
Lemma bech32_detects_witness : Decode (chars "a12uel5l") = (chars "a", []) /\ Decode (chars "a1quel5q") = ([], []).
Proof.
  split; [vm_compute; reflexivity|].
  apply (bech32_detects (chars "a") [10; 28; 25; 31; 20; 31] [0; 28; 25; 31; 20; 0]); [|repeat constructor; lia|repeat constructor; lia|done|cbn; lia|cbn; lia|cbn; lia|by vm_compute].
  split; [done|]. change (chars "a") with [97]. split; (apply Forall_singleton; unfold printable; done || lia).
Defined.
