(* ===== verification/ConvertBits.v ===== *)
(** * Regrouping bits

    What [ConvertBits] computes: the number that the input writes in base [2^frombits] is written
    in base [2^tobits], with zero bits appended when it pads. *)

From stdpp Require Import list.
From S2P Require Import Prelude Base58 Bech32.
Open Scope Z_scope.

Section Convert.
Context (frombits tobits : Z) (Hf : 0 < frombits) (Ht : 0 < tobits).

Lemma emit_bits_spec n acc bits : 0 <= bits -> bits < Z.of_nat n -> 0 <= acc ->
  let r := emit_bits n tobits acc bits in
  0 <= r.2 < tobits /\ bits = tobits * zlen r.1 + r.2 /\ in_base (2 ^ tobits) r.1 /\ acc mod 2 ^ bits = number (2 ^ tobits) r.1 * 2 ^ r.2 + acc mod 2 ^ r.2.
Proof.
  revert bits. induction n as [|n IH]; intros bits Hb Hn Ha; [lia|]. cbn [emit_bits]. destruct (Z.leb_spec tobits bits) as [Hle|Hlt]; cbn [fst snd].
  - destruct (IH (bits - tobits)) as (H1 & H2 & H3 & H4); [lia|lia|done|]. set (r := emit_bits n tobits acc (bits - tobits)) in *. split; [done|]. rewrite zlen_cons. split; [lia|].
    assert (Z.land (Z.shiftr acc (bits - tobits)) (2 ^ tobits - 1) = (acc / 2 ^ (bits - tobits)) mod 2 ^ tobits) as -> by (replace (2 ^ tobits - 1) with (Z.ones tobits) by (rewrite Z.ones_equiv; lia); by rewrite Z.land_ones, Z.shiftr_div_pow2 by lia).
    split; [constructor; [apply Z.mod_pos_bound; lia|done]|]. rewrite number_cons. assert (2 ^ bits = 2 ^ (bits - tobits) * 2 ^ tobits) as E by (rewrite <- Z.pow_add_r by lia; f_equal; lia).
    rewrite E, Z.rem_mul_r by (apply Z.pow_nonzero || apply Z.pow_pos_nonneg; lia). rewrite H4. rewrite <- (Z.pow_mul_r 2 tobits (zlen r.1)) by (lia || apply zlen_nonneg).
    rewrite Z.mul_add_distr_r, <- Z.mul_assoc, <- Z.pow_add_r by (pose proof (zlen_nonneg r.1); nia). replace (tobits * zlen r.1 + r.2) with (bits - tobits) by lia. lia.
  - split; [lia|]. split; [unfold zlen; cbn; lia|]. split; [constructor|]. unfold number. cbn. lia.
Qed.

Lemma convert_loop_spec acc bits inp : 0 <= bits < tobits -> 0 <= acc -> in_base (2 ^ frombits) inp ->
  let r := convert_loop frombits tobits acc bits inp in
  0 <= r.2 < tobits /\ bits + frombits * zlen inp = tobits * zlen r.1.1 + r.2 /\ in_base (2 ^ tobits) r.1.1 /\ 0 <= r.1.2 /\
  acc mod 2 ^ bits * 2 ^ (frombits * zlen inp) + number (2 ^ frombits) inp = number (2 ^ tobits) r.1.1 * 2 ^ r.2 + r.1.2 mod 2 ^ r.2.
Proof.
  intros Hb Ha Hin. revert acc bits Hb Ha. induction Hin as [|v inp Hv Hin IH]; intros acc bits Hb Ha.
  - cbn [convert_loop fst snd]. split; [done|]. split; [unfold zlen; cbn; lia|]. split; [constructor|]. split; [done|]. unfold zlen, number. cbn. rewrite Z.mul_0_r. cbn. lia.
  - cbn [convert_loop]. set (acc1 := Z.land (Z.lor (Z.shiftl acc frombits) v) (2 ^ (frombits + tobits - 1) - 1)).
    assert (acc1 = (acc * 2 ^ frombits + v) mod 2 ^ (frombits + tobits - 1)) as Eacc.
    { unfold acc1. replace (2 ^ (frombits + tobits - 1) - 1) with (Z.ones (frombits + tobits - 1)) by (rewrite Z.ones_equiv; lia). rewrite Z.land_ones by lia. f_equal. rewrite Z.lor_comm, lor_shiftl_add by lia. lia. }
    assert (0 <= acc1) as Ha1 by (rewrite Eacc; apply Z.mod_pos_bound, Z.pow_pos_nonneg; lia).
    destruct (emit_bits_spec (Z.to_nat (frombits + tobits)) acc1 (bits + frombits)) as (E1 & E2 & E3 & E4); [lia|lia|done|]. set (e := emit_bits (Z.to_nat (frombits + tobits)) tobits acc1 (bits + frombits)) in *.
    destruct (IH acc1 e.2 E1 Ha1) as (R1 & R2 & R3 & R4 & R5). set (r := convert_loop frombits tobits acc1 e.2 inp) in *. cbn [fst snd]. split; [done|]. rewrite zlen_cons, zlen_app. split; [lia|]. split; [by apply Forall_app|]. split; [done|].
    assert (acc1 mod 2 ^ (bits + frombits) = acc mod 2 ^ bits * 2 ^ frombits + v) as Em.
    { rewrite Eacc. assert (2 ^ (frombits + tobits - 1) = 2 ^ (bits + frombits) * 2 ^ (tobits - 1 - bits)) as -> by (rewrite <- Z.pow_add_r by lia; f_equal; lia).
      rewrite Z.rem_mul_r by (apply Z.pow_nonzero || apply Z.pow_pos_nonneg; lia). rewrite (Z.mul_comm (2 ^ (bits + frombits))), Z.mod_add, Z.mod_mod by (apply Z.pow_nonzero; lia).
      rewrite Z.pow_add_r by lia. rewrite (Z.mul_comm (2 ^ bits)), Z.rem_mul_r by (apply Z.pow_nonzero || apply Z.pow_pos_nonneg; lia).
      rewrite (Z.add_comm (acc * 2 ^ frombits) v), (Z.mod_add v acc), (Z.mod_small v) by (lia || apply Z.pow_nonzero; lia). rewrite Z.div_add, (Z.div_small v), Z.add_0_l by (lia || apply Z.pow_nonzero; lia). lia. }
    rewrite number_cons, number_app. rewrite <- (Z.pow_mul_r 2 frombits (zlen inp)), <- (Z.pow_mul_r 2 tobits (zlen r.1.1)) by (lia || apply zlen_nonneg).
    pose proof (zlen_nonneg inp) as Hz. pose proof (zlen_nonneg r.1.1) as Hz'. replace (frombits * (1 + zlen inp)) with (frombits + frombits * zlen inp) by lia. rewrite Z.pow_add_r by lia. rewrite E4 in Em.
    assert (2 ^ (tobits * zlen r.1.1) * 2 ^ r.2 = 2 ^ e.2 * 2 ^ (frombits * zlen inp)) as Epow by (rewrite <- !Z.pow_add_r by nia; f_equal; lia).
    rewrite Z.mul_add_distr_r, <- (Z.mul_assoc (number (2 ^ tobits) e.1)), Epow.
    replace (acc mod 2 ^ bits * (2 ^ frombits * 2 ^ (frombits * zlen inp)) + (v * 2 ^ (frombits * zlen inp) + number (2 ^ frombits) inp)) with ((acc mod 2 ^ bits * 2 ^ frombits + v) * 2 ^ (frombits * zlen inp) + number (2 ^ frombits) inp) by lia.
    rewrite <- Em, Z.mul_add_distr_r, <- Z.add_assoc, R5. ring.
Qed.

Lemma last_bits acc bits : 0 <= bits < tobits -> 0 <= acc -> Z.land (Z.shiftl acc (tobits - bits)) (2 ^ tobits - 1) = acc mod 2 ^ bits * 2 ^ (tobits - bits).
Proof.
  intros Hb Ha. replace (2 ^ tobits - 1) with (Z.ones tobits) by (rewrite Z.ones_equiv; lia). rewrite Z.land_ones, Z.shiftl_mul_pow2 by lia.
  assert (2 ^ tobits = 2 ^ bits * 2 ^ (tobits - bits)) as -> by (rewrite <- Z.pow_add_r by lia; f_equal; lia). by rewrite Z.mul_mod_distr_r by (apply Z.pow_nonzero; lia).
Qed.

(** With padding: the number, followed by less than a group of zero bits. *)
Lemma ConvertBits_pad inp : in_base (2 ^ frombits) inp ->
  exists out pad, ConvertBits frombits tobits true inp = (out, true) /\ in_base (2 ^ tobits) out /\ 0 <= pad < tobits /\ tobits * zlen out = frombits * zlen inp + pad /\
    number (2 ^ tobits) out = number (2 ^ frombits) inp * 2 ^ pad.
Proof.
  intros Hin. destruct (convert_loop_spec 0 0 inp ltac:(lia) ltac:(lia) Hin) as (R1 & R2 & R3 & R4 & R5). unfold ConvertBits. destruct (convert_loop frombits tobits 0 0 inp) as [[out acc] bits]. cbn [fst snd] in *.
  rewrite Z.mod_0_l, Z.mul_0_l, Z.add_0_l in R5 by done. rewrite (last_bits acc bits R1 R4). destruct (Z.eqb_spec bits 0) as [->|Hne]; cbn [negb].
  - exists out, 0. rewrite Z.pow_0_r, Z.mod_1_r in R5. split_and!; try done; lia.
  - exists (out ++ [acc mod 2 ^ bits * 2 ^ (tobits - bits)]), (tobits - bits). assert (0 < 2 ^ (tobits - bits)) as Hp by (apply Z.pow_pos_nonneg; lia). pose proof (Z.mod_pos_bound acc (2 ^ bits) ltac:(apply Z.pow_pos_nonneg; lia)) as Hm.
    assert (2 ^ tobits = 2 ^ bits * 2 ^ (tobits - bits)) as E by (rewrite <- Z.pow_add_r by lia; f_equal; lia). split; [done|]. split; [apply Forall_app; split; [done|]; constructor; [nia|constructor]|]. split; [lia|].
    rewrite zlen_app, zlen_sing. split; [lia|]. rewrite number_snoc, R5. rewrite E at 2. ring.
Qed.

(** Without: the number, if the bits that are left are less than a group of the input and zero. *)
Lemma ConvertBits_exact inp : in_base (2 ^ frombits) inp ->
  exists out bits rem, ConvertBits frombits tobits false inp = (out, (bits <? frombits) && (rem =? 0)) /\ in_base (2 ^ tobits) out /\ 0 <= bits < tobits /\ 0 <= rem < 2 ^ bits /\
    frombits * zlen inp = tobits * zlen out + bits /\ number (2 ^ frombits) inp = number (2 ^ tobits) out * 2 ^ bits + rem.
Proof.
  intros Hin. destruct (convert_loop_spec 0 0 inp ltac:(lia) ltac:(lia) Hin) as (R1 & R2 & R3 & R4 & R5). unfold ConvertBits. destruct (convert_loop frombits tobits 0 0 inp) as [[out acc] bits]. cbn [fst snd] in *.
  rewrite Z.mod_0_l, Z.mul_0_l, Z.add_0_l in R5 by done. rewrite (last_bits acc bits R1 R4). assert (0 < 2 ^ (tobits - bits)) as Hp by (apply Z.pow_pos_nonneg; lia). pose proof (Z.mod_pos_bound acc (2 ^ bits) ltac:(apply Z.pow_pos_nonneg; lia)) as Hm.
  exists out, bits, (acc mod 2 ^ bits). split; [|split_and!; try done; lia].
  destruct (Z.leb_spec frombits bits), (Z.ltb_spec bits frombits); try lia; cbn [orb andb]; [done|]. destruct (Z.eqb_spec (acc mod 2 ^ bits) 0) as [->|Hne]; [done|]. destruct (Z.eqb_spec (acc mod 2 ^ bits * 2 ^ (tobits - bits)) 0); [nia|done].
Qed.
End Convert.

Lemma mul_rem_zero a b p r : a * p = b * p + r -> 0 <= r < p -> a = b /\ r = 0.
Proof. intros E Hr. assert (a = b) as -> by nia. lia. Qed.

(** Bytes to values of five bits and back. *)
Lemma bits_8_5_8 data : bytes_ok data -> exists values, ConvertBits 8 5 true data = (values, true) /\ values_ok values /\ 5 * zlen values = 8 * zlen data + (5 * zlen values - 8 * zlen data) /\ 0 <= 5 * zlen values - 8 * zlen data < 5 /\ ConvertBits 5 8 false values = (data, true).
Proof.
  intros Hd. destruct (ConvertBits_pad 8 5 ltac:(lia) ltac:(lia) data Hd) as (values & pad & E & Hv & Hpad & Hl & Hn). exists values. split; [done|]. split; [done|]. split; [lia|]. split; [lia|].
  destruct (ConvertBits_exact 5 8 ltac:(lia) ltac:(lia) values Hv) as (out & bits & rem & -> & Ho & Hb & Hr & Hl2 & Hn2). assert (bits = pad /\ zlen out = zlen data) as [-> Elen] by lia.
  assert (0 < 2 ^ pad) as Hp by (apply Z.pow_pos_nonneg; lia). rewrite Hn in Hn2. apply mul_rem_zero in Hn2 as [En ->]; [|done].
  destruct (Z.ltb_spec pad 5); [|lia]. cbn [andb]. f_equal. symmetry. by apply (number_eq (2 ^ 8)).
Qed.

Lemma bits_5_8_5 values data : values_ok values -> ConvertBits 5 8 false values = (data, true) -> bytes_ok data /\ ConvertBits 8 5 true data = (values, true).
Proof.
  intros Hv E. destruct (ConvertBits_exact 5 8 ltac:(lia) ltac:(lia) values Hv) as (out & bits & rem & E2 & Ho & Hb & Hr & Hl & Hn). rewrite E in E2. injection E2 as <- Hok. symmetry in Hok. apply andb_true_iff in Hok as [H5%Z.ltb_lt H0%Z.eqb_eq].
  split; [done|]. destruct (ConvertBits_pad 8 5 ltac:(lia) ltac:(lia) data Ho) as (vs & pad & -> & Hvs & Hpad & Hl2 & Hn2). f_equal. assert (pad = bits) as -> by lia. apply (number_eq (2 ^ 5)); try done; lia.
Qed.

