(* ===== verification/KeyIO.v ===== *)
(** * Addresses and keys as strings

    [key_io.cpp] with [key_constants.h], the constants of the four networks
    ([chainparams.cpp]), [CKey] as a holder of 32 bytes ([key.h]), the extended keys
    ([key.cpp], [pubkey.cpp]) and the Sapling addresses and keys ([zcash/address]). *)

From Stdlib Require Import String.
From stdpp Require Import list.
From S2P Require Import Prelude Interpreter Amount Serialize Compressor Standard Transaction SigHash Base58 Bech32.
Open Scope Z_scope.

(** ** Constants *)

Inductive Base58Type : Set :=
| PUBKEY_ADDRESS
| SCRIPT_ADDRESS
| SECRET_KEY
| EXT_PUBLIC_KEY
| EXT_SECRET_KEY
| ZCPAYMENT_ADDRESS
| ZCSPENDING_KEY
| ZCVIEWING_KEY.

Inductive Bech32Type : Set :=
| SAPLING_PAYMENT_ADDRESS
| SAPLING_FULL_VIEWING_KEY
| SAPLING_INCOMING_VIEWING_KEY
| SAPLING_EXTENDED_SPEND_KEY
| SAPLING_EXTENDED_FVK.

Record KeyConstants := { Base58Prefix : Base58Type -> bytes; Bech32HRP : Bech32Type -> bytes }.

Definition CMainParams : KeyConstants := {|
  Base58Prefix type :=
    match type with
    | PUBKEY_ADDRESS => [0x0c; 0xe3]
    | SCRIPT_ADDRESS => [0x1a; 0xF6]
    | SECRET_KEY => [0x80]
    | EXT_PUBLIC_KEY => [0x04; 0x88; 0xB2; 0x1E]
    | EXT_SECRET_KEY => [0x04; 0x88; 0xAD; 0xE4]
    | ZCPAYMENT_ADDRESS => [0x09; 0x05]
    | ZCVIEWING_KEY => [0x09; 0x01]
    | ZCSPENDING_KEY => [0x9A; 0x90]
    end;
  Bech32HRP type :=
    match type with
    | SAPLING_PAYMENT_ADDRESS => chars "ps"
    | SAPLING_FULL_VIEWING_KEY => chars "pviews"
    | SAPLING_INCOMING_VIEWING_KEY => chars "pivks"
    | SAPLING_EXTENDED_SPEND_KEY => chars "p-secret-extended-key-main"
    | SAPLING_EXTENDED_FVK => chars "pxviews"
    end |}.

Definition CTestNetParams : KeyConstants := {|
  Base58Prefix type :=
    match type with
    | PUBKEY_ADDRESS => [0x1C; 0xEF]
    | SCRIPT_ADDRESS => [0x1D; 0x37]
    | SECRET_KEY => [0xEF]
    | EXT_PUBLIC_KEY => [0x04; 0x35; 0x87; 0xCF]
    | EXT_SECRET_KEY => [0x04; 0x35; 0x83; 0x94]
    | ZCPAYMENT_ADDRESS => [0x14; 0x3A]
    | ZCVIEWING_KEY => [0x14; 0x37]
    | ZCSPENDING_KEY => [0x05; 0xFE]
    end;
  Bech32HRP type :=
    match type with
    | SAPLING_PAYMENT_ADDRESS => chars "ptestsapling"
    | SAPLING_FULL_VIEWING_KEY => chars "pviewtestsapling"
    | SAPLING_INCOMING_VIEWING_KEY => chars "pivktestsapling"
    | SAPLING_EXTENDED_SPEND_KEY => chars "p-secret-extended-key-test"
    | SAPLING_EXTENDED_FVK => chars "pxviewtestsapling"
    end |}.

Definition CDevNetParams : KeyConstants := {|
  Base58Prefix type :=
    match type with
    | PUBKEY_ADDRESS => [0x64; 0x1c]
    | SCRIPT_ADDRESS => [0x64; 0x09]
    | SECRET_KEY => [0xEF]
    | EXT_PUBLIC_KEY => [0x04; 0x35; 0x87; 0xCF]
    | EXT_SECRET_KEY => [0x04; 0x35; 0x83; 0x94]
    | ZCPAYMENT_ADDRESS => [0x63; 0x6d]
    | ZCVIEWING_KEY => [0x63; 0x55]
    | ZCSPENDING_KEY => [0x63; 0x01]
    end;
  Bech32HRP type :=
    match type with
    | SAPLING_PAYMENT_ADDRESS => chars "pdevsapling"
    | SAPLING_FULL_VIEWING_KEY => chars "pviewdevsapling"
    | SAPLING_INCOMING_VIEWING_KEY => chars "pivkdevsapling"
    | SAPLING_EXTENDED_SPEND_KEY => chars "p-secret-extended-key-dev"
    | SAPLING_EXTENDED_FVK => chars "pxviewdevsapling"
    end |}.

Definition CRegTestParams : KeyConstants := {|
  Base58Prefix type :=
    match type with
    | PUBKEY_ADDRESS => [0x1C; 0xEF]
    | SCRIPT_ADDRESS => [0x1D; 0x37]
    | SECRET_KEY => [0xEF]
    | EXT_PUBLIC_KEY => [0x04; 0x35; 0x87; 0xCF]
    | EXT_SECRET_KEY => [0x04; 0x35; 0x83; 0x94]
    | ZCPAYMENT_ADDRESS => [0x14; 0x3A]
    | ZCVIEWING_KEY => [0x14; 0x37]
    | ZCSPENDING_KEY => [0x05; 0xFE]
    end;
  Bech32HRP type :=
    match type with
    | SAPLING_PAYMENT_ADDRESS => chars "pzregtestsapling"
    | SAPLING_FULL_VIEWING_KEY => chars "pviewregtestsapling"
    | SAPLING_INCOMING_VIEWING_KEY => chars "pivkregtestsapling"
    | SAPLING_EXTENDED_SPEND_KEY => chars "p-secret-extended-key-regtest"
    | SAPLING_EXTENDED_FVK => chars "pxviewregtestsapling"
    end |}.

(** [equal(prefix.begin(), prefix.end(), data.begin())] where the data is long enough. *)
Definition has_prefix (prefix data : bytes) : bool := bytes_eqb prefix (take (length prefix) data).

(** ** Transparent addresses *)

Section Transparent.
Context `{Crypto}.
Context (kc : KeyConstants).

Definition EncodeDestination (dest : CTxDestination) : res b58_fail bytes :=
  match dest with
  | CKeyID id => EncodeBase58Check (Base58Prefix kc PUBKEY_ADDRESS ++ id)
  | CScriptID id => EncodeBase58Check (Base58Prefix kc SCRIPT_ADDRESS ++ id)
  | CNoDestination => Ok []
  end.

Definition DecodeDestination (str : bytes) : res b58_fail CTxDestination :=
  let? r := DecodeBase58Check str in
  match r with
  | Some data =>
      let pubkey_prefix := Base58Prefix kc PUBKEY_ADDRESS in
      if (length data =? 20 + length pubkey_prefix)%nat && has_prefix pubkey_prefix data
      then Ok (CKeyID (drop (length pubkey_prefix) data))
      else
        let script_prefix := Base58Prefix kc SCRIPT_ADDRESS in
        if (length data =? 20 + length script_prefix)%nat && has_prefix script_prefix data
        then Ok (CScriptID (drop (length script_prefix) data))
        else Ok CNoDestination
  | None => Ok CNoDestination
  end.

Definition IsValidDestinationString (str : bytes) : res b58_fail bool :=
  let? dest := DecodeDestination str in Ok (match dest with CNoDestination => false | _ => true end).
End Transparent.

(** ** Private keys *)

Definition KEY_SIZE : nat := 32.

Record CKey := { fValid : bool; fCompressed : bool; keydata : bytes }.

(** [CKey()] *)
Definition new_key : CKey := {| fValid := false; fCompressed := false; keydata := replicate KEY_SIZE 0 |}.

Definition secret_size (k : CKey) : nat := if fValid k then length (keydata k) else O.
(** From [cbegin()] to [cend()]. *)
Definition key_bytes (k : CKey) : bytes := take (secret_size k) (keydata k).

Section Keys.
Context `{Crypto}.
(** [secp256k1_ec_seckey_verify], which [CKey::Check] calls. *)
Context (seckey_verify : bytes -> bool).
Context (kc : KeyConstants).

(** [CKey::Set] with the bytes of the range. *)
Definition key_Set (k : CKey) (range : bytes) (fCompressedIn : bool) : CKey :=
  let k := {| fValid := false; fCompressed := fCompressed k; keydata := keydata k |} in
  if negb (length range =? KEY_SIZE)%nat then k
  else if negb (seckey_verify range) then k
  else {| fValid := true; fCompressed := fCompressedIn; keydata := take (length (keydata k)) range |}.

(** [DecodeSecret]: the key, and the message if one is assigned. *)
Definition DecodeSecret (str : bytes) : res b58_fail (CKey * option bytes) :=
  let key := new_key in
  let? r := DecodeBase58Check str in
  match r with
  | None => Ok (key, Some (chars "failed to decode base58-encoded string"))
  | Some data =>
      let privkey_prefix := Base58Prefix kc SECRET_KEY in
      let nKeySize := (length privkey_prefix + KEY_SIZE)%nat in
      if ((length data =? nKeySize)%nat || ((length data =? nKeySize + 1)%nat && (List.last data 0 =? 1))) && has_prefix privkey_prefix data then
        let bCompressed := (length data =? nKeySize + 1)%nat in
        Ok (key_Set key (take KEY_SIZE (drop (length privkey_prefix) data)) bCompressed, None)
      else if (length data <? nKeySize)%nat then Ok (key, Some (chars "length is less than 32 bytes"))
      else Ok (key, Some (chars "invalid prefix"))
  end.

Definition EncodeSecret (key : CKey) : res b58_fail bytes :=
  if negb (fValid key) then Err b58_assert
  else
    let data := Base58Prefix kc SECRET_KEY ++ key_bytes key in
    let data := if fCompressed key then data ++ [1] else data in
    EncodeBase58Check data.

(** ** Extended keys *)

Definition BIP32_EXTKEY_SIZE : nat := 74.

Record CExtKey := { nDepth : Z; vchFingerprint : bytes; nChild : Z; chaincode : bytes; ext_key : CKey }.
Record CExtPubKey := { pub_nDepth : Z; pub_vchFingerprint : bytes; pub_nChild : Z; pub_chaincode : bytes; ext_pubkey : option bytes }.

Definition child_bytes (nChild : Z) : bytes :=
  [Z.land (Z.shiftr nChild 24) 0xFF; Z.land (Z.shiftr nChild 16) 0xFF; Z.land (Z.shiftr nChild 8) 0xFF; Z.land (Z.shiftr nChild 0) 0xFF].
Definition code_child (code : bytes) : Z :=
  u32 (Z.lor (Z.lor (Z.lor (Z.shiftl (nth 5 code 0) 24) (Z.shiftl (nth 6 code 0) 16)) (Z.shiftl (nth 7 code 0) 8)) (nth 8 code 0)).

(** [CExtKey::Encode] *)
Definition ext_Encode (k : CExtKey) : res b58_fail bytes :=
  if negb (secret_size (ext_key k) =? 32)%nat then Err b58_assert
  else Ok ([nDepth k] ++ vchFingerprint k ++ child_bytes (nChild k) ++ chaincode k ++ [0] ++ take 32 (keydata (ext_key k))).

(** [CExtKey::Decode] into a new key. *)
Definition ext_Decode (code : bytes) : CExtKey := {|
  nDepth := nth 0 code 0;
  vchFingerprint := take 4 (drop 1 code);
  nChild := code_child code;
  chaincode := take 32 (drop 9 code);
  ext_key := key_Set new_key (drop 42 code) true |}.

(** [CExtPubKey::Encode] *)
Definition pub_Encode (k : CExtPubKey) : res b58_fail bytes :=
  match ext_pubkey k with
  | Some pubkey =>
      if negb (zlen pubkey =? COMPRESSED_PUBLIC_KEY_SIZE) then Err b58_assert
      else Ok ([pub_nDepth k] ++ pub_vchFingerprint k ++ child_bytes (pub_nChild k) ++ pub_chaincode k ++ pubkey)
  | None => Err b58_assert
  end.

(** [CExtPubKey::Decode] *)
Definition pub_Decode (code : bytes) : CExtPubKey := {|
  pub_nDepth := nth 0 code 0;
  pub_vchFingerprint := take 4 (drop 1 code);
  pub_nChild := code_child code;
  pub_chaincode := take 32 (drop 9 code);
  ext_pubkey := pubkey_set (drop 41 code) |}.

(** [DecodeExtKey]; [None] is a key without a value. *)
Definition DecodeExtKey (str : bytes) : res b58_fail (option CExtKey) :=
  let? r := DecodeBase58Check str in
  match r with
  | Some data =>
      let prefix := Base58Prefix kc EXT_SECRET_KEY in
      if (length data =? BIP32_EXTKEY_SIZE + length prefix)%nat && has_prefix prefix data then Ok (Some (ext_Decode (drop (length prefix) data))) else Ok None
  | None => Ok None
  end.

Definition EncodeExtKey (key : CExtKey) : res b58_fail bytes :=
  let? code := ext_Encode key in EncodeBase58Check (Base58Prefix kc EXT_SECRET_KEY ++ code).

Definition DecodeExtPubKey (str : bytes) : res b58_fail (option CExtPubKey) :=
  let? r := DecodeBase58Check str in
  match r with
  | Some data =>
      let prefix := Base58Prefix kc EXT_PUBLIC_KEY in
      if (length data =? BIP32_EXTKEY_SIZE + length prefix)%nat && has_prefix prefix data then Ok (Some (pub_Decode (drop (length prefix) data))) else Ok None
  | None => Ok None
  end.

Definition EncodeExtPubKey (key : CExtPubKey) : res b58_fail bytes :=
  let? code := pub_Encode key in EncodeBase58Check (Base58Prefix kc EXT_PUBLIC_KEY ++ code).
End Keys.

(** ** Sapling addresses and keys *)

Record SaplingPaymentAddress := { d : bytes; pk_d : bytes }.
Record SaplingFullViewingKey := { ak : bytes; nk : bytes; fvk_ovk : bytes }.
Record SaplingExpandedSpendingKey := { ask : bytes; nsk : bytes; ovk : bytes }.
Record SaplingExtendedFullViewingKey := {
  xfvk_depth : Z; xfvk_parentFVKTag : Z; xfvk_childIndex : Z; xfvk_chaincode : bytes; fvk : SaplingFullViewingKey; xfvk_dk : bytes }.
Record SaplingExtendedSpendingKey := {
  xsk_depth : Z; xsk_parentFVKTag : Z; xsk_childIndex : Z; xsk_chaincode : bytes; expsk : SaplingExpandedSpendingKey; xsk_dk : bytes }.

Definition ser_address (a : SaplingPaymentAddress) : bytes := d a ++ pk_d a.
Definition unser_address (inp : bytes) : res ios_failure (SaplingPaymentAddress * bytes) :=
  let? r1 := stream_read 11 inp in
  let? r2 := stream_read 32 r1.2 in
  Ok ({| d := r1.1; pk_d := r2.1 |}, r2.2).

Definition ser_fvk (k : SaplingFullViewingKey) : bytes := ak k ++ nk k ++ fvk_ovk k.
Definition unser_fvk (inp : bytes) : res ios_failure (SaplingFullViewingKey * bytes) :=
  let? r1 := stream_read 32 inp in
  let? r2 := stream_read 32 r1.2 in
  let? r3 := stream_read 32 r2.2 in
  Ok ({| ak := r1.1; nk := r2.1; fvk_ovk := r3.1 |}, r3.2).

Definition ser_expsk (k : SaplingExpandedSpendingKey) : bytes := ask k ++ nsk k ++ ovk k.
Definition unser_expsk (inp : bytes) : res ios_failure (SaplingExpandedSpendingKey * bytes) :=
  let? r1 := stream_read 32 inp in
  let? r2 := stream_read 32 r1.2 in
  let? r3 := stream_read 32 r2.2 in
  Ok ({| ask := r1.1; nsk := r2.1; ovk := r3.1 |}, r3.2).

Definition ser_xfvk (k : SaplingExtendedFullViewingKey) : bytes :=
  ser_writedata8 [] (xfvk_depth k) ++ ser_u32 (xfvk_parentFVKTag k) ++ ser_u32 (xfvk_childIndex k) ++ xfvk_chaincode k ++ ser_fvk (fvk k) ++ xfvk_dk k.
Definition unser_xfvk (inp : bytes) : res ios_failure (SaplingExtendedFullViewingKey * bytes) :=
  let? r1 := ser_readdata8 inp in
  let? r2 := ser_readdata32 r1.2 in
  let? r3 := ser_readdata32 r2.2 in
  let? r4 := stream_read 32 r3.2 in
  let? r5 := unser_fvk r4.2 in
  let? r6 := stream_read 32 r5.2 in
  Ok ({| xfvk_depth := r1.1; xfvk_parentFVKTag := r2.1; xfvk_childIndex := r3.1; xfvk_chaincode := r4.1; fvk := r5.1; xfvk_dk := r6.1 |}, r6.2).

Definition ser_xsk (k : SaplingExtendedSpendingKey) : bytes :=
  ser_writedata8 [] (xsk_depth k) ++ ser_u32 (xsk_parentFVKTag k) ++ ser_u32 (xsk_childIndex k) ++ xsk_chaincode k ++ ser_expsk (expsk k) ++ xsk_dk k.
Definition unser_xsk (inp : bytes) : res ios_failure (SaplingExtendedSpendingKey * bytes) :=
  let? r1 := ser_readdata8 inp in
  let? r2 := ser_readdata32 r1.2 in
  let? r3 := ser_readdata32 r2.2 in
  let? r4 := stream_read 32 r3.2 in
  let? r5 := unser_expsk r4.2 in
  let? r6 := stream_read 32 r5.2 in
  Ok ({| xsk_depth := r1.1; xsk_parentFVKTag := r2.1; xsk_childIndex := r3.1; xsk_chaincode := r4.1; expsk := r5.1; xsk_dk := r6.1 |}, r6.2).

(** The variants with [InvalidEncoding]. *)
Inductive or_invalid (A : Type) : Type := InvalidEncoding | Valid (a : A).
Arguments InvalidEncoding {A}.
Arguments Valid {A}.

Definition ConvertedSaplingPaymentAddressSize : Z := ((32 + 11) * 8 + 4) / 5.
Definition ConvertedSaplingExtendedFullViewingKeySize : Z := (169 * 8 + 4) / 5.
Definition ConvertedSaplingExtendedSpendingKeySize : Z := (169 * 8 + 4) / 5.

Section Sapling.
Context (kc : KeyConstants).

Definition EncodePaymentAddress (zaddr : or_invalid SaplingPaymentAddress) : bytes :=
  match zaddr with
  | Valid zaddr => Encode (Bech32HRP kc SAPLING_PAYMENT_ADDRESS) (ConvertBits 8 5 true (ser_address zaddr)).1
  | InvalidEncoding => []
  end.

Definition EncodeViewingKey (vk : or_invalid SaplingExtendedFullViewingKey) : bytes :=
  match vk with
  | Valid extfvk => Encode (Bech32HRP kc SAPLING_EXTENDED_FVK) (ConvertBits 8 5 true (ser_xfvk extfvk)).1
  | InvalidEncoding => []
  end.

Definition EncodeSpendingKey (zkey : or_invalid SaplingExtendedSpendingKey) : bytes :=
  match zkey with
  | Valid zkey => Encode (Bech32HRP kc SAPLING_EXTENDED_SPEND_KEY) (ConvertBits 8 5 true (ser_xsk zkey)).1
  | InvalidEncoding => []
  end.

Definition DecodeSapling {T2 : Type} (unser : reader T2) (str : bytes) (type : Bech32Type) (size : Z) : res ios_failure (or_invalid T2) :=
  let bech := Decode str in
  if bytes_eqb bech.1 (Bech32HRP kc type) && (zlen bech.2 =? size) then
    let '(data, ok) := ConvertBits 5 8 false bech.2 in
    if ok then let? r := unser data in Ok (Valid r.1) else Ok InvalidEncoding
  else Ok InvalidEncoding.

Definition DecodePaymentAddress (str : bytes) : res ios_failure (or_invalid SaplingPaymentAddress) :=
  DecodeSapling unser_address str SAPLING_PAYMENT_ADDRESS ConvertedSaplingPaymentAddressSize.

Definition IsValidPaymentAddressString (str : bytes) : res ios_failure bool :=
  let? zaddr := DecodePaymentAddress str in Ok (match zaddr with InvalidEncoding => false | Valid _ => true end).

Definition DecodeViewingKey (str : bytes) : res ios_failure (or_invalid SaplingExtendedFullViewingKey) :=
  DecodeSapling unser_xfvk str SAPLING_EXTENDED_FVK ConvertedSaplingExtendedFullViewingKeySize.

Definition DecodeSpendingKey (str : bytes) : res ios_failure (or_invalid SaplingExtendedSpendingKey) :=
  DecodeSapling unser_xsk str SAPLING_EXTENDED_SPEND_KEY ConvertedSaplingExtendedSpendingKeySize.
End Sapling.
