(* ===== verification/KeyIOProps.v ===== *)
(** * Transparent addresses and private keys as strings

    The encoders of transparent addresses and of private and extended keys are inverted by their
    decoders, and an accepted address or private key is the encoding of the result, up to the
    spaces around it. *)

From Stdlib Require Import String.
From stdpp Require Import list.
From S2P Require Import Prelude Interpreter Amount Serialize Compressor Standard Transaction SigHash Hasher Hash Base58 Bech32 ConvertBits KeyIO.
Open Scope Z_scope.

Definition networks : list KeyConstants := [CMainParams; CTestNetParams; CDevNetParams; CRegTestParams].

(** ** Prefixes *)

Lemma has_prefix_app p x : has_prefix p (p ++ x) = true.
Proof. unfold has_prefix. rewrite take_app_length. by apply bytes_eqb_spec. Qed.

Lemma has_prefix_inv p data : has_prefix p data = true -> data = p ++ drop (length p) data.
Proof. unfold has_prefix. intros E%bytes_eqb_spec. rewrite <- (take_drop (length p) data) at 1. by rewrite <- E. Qed.

Lemma has_prefix_other p q x : length p = length q -> p <> q -> has_prefix p (q ++ x) = false.
Proof. intros El Hne. unfold has_prefix. rewrite El, take_app_length. destruct (bytes_eqb p q) eqn:E; [|done]. by apply bytes_eqb_spec in E. Qed.

(** A payload of [n] bytes after a prefix. *)
Lemma payload p n data : (length data =? n + length p)%nat && has_prefix p data = true <-> exists x, data = p ++ x /\ length x = n.
Proof.
  rewrite andb_true_iff, Nat.eqb_eq. split.
  - intros [El Hp%has_prefix_inv]. exists (drop (length p) data). split; [done|]. rewrite length_drop. lia.
  - intros (x & -> & <-). split; [rewrite length_app; lia|apply has_prefix_app].
Qed.

Lemma payload_app p n x : length x = n -> (length (p ++ x) =? n + length p)%nat && has_prefix p (p ++ x) = true.
Proof. intros Hx. apply payload. by exists x. Qed.

Lemma network_prefixes kc : kc ∈ networks -> forall type, bytes_ok (Base58Prefix kc type).
Proof.
  intros Hk type. unfold networks in Hk. rewrite !elem_of_cons, elem_of_nil in Hk. destruct Hk as [->|[->|[->|[->|[]]]]]; destruct type; cbn [Base58Prefix CMainParams CTestNetParams CDevNetParams CRegTestParams]; repeat constructor; lia.
Qed.

(** ** Transparent addresses *)

Definition destination_ok (dest : CTxDestination) : Prop :=
  match dest with CNoDestination => False | CKeyID h | CScriptID h => length h = 20%nat /\ bytes_ok h end.

Section Transparent.
Context `{Crypto} `{!CryptoLaws _}.

(** The string is the encoding, between spaces. *)
Definition is_string (enc : res b58_fail bytes) (s : bytes) : Prop :=
  exists sp1 core sp2, enc = Ok core /\ c_str s = sp1 ++ core ++ sp2 /\ spaces sp1 /\ spaces sp2.

Lemma decoded_string s v : DecodeBase58Check s = Ok (Some v) -> bytes_ok v /\ is_string (EncodeBase58Check v) s.
Proof.
  intros E. destruct (DecodeBase58Check_spec s) as (r & Er & Hr). rewrite E in Er. injection Er as <-. destruct (proj1 (Hr v) eq_refl) as (Hv & sp1 & core & sp2 & H1 & H2 & H3 & H4).
  split; [done|]. by exists sp1, core, sp2.
Qed.

Definition type_of (dest : CTxDestination) : Base58Type := match dest with CKeyID _ => PUBKEY_ADDRESS | _ => SCRIPT_ADDRESS end.
Definition destination_hash (dest : CTxDestination) : bytes := match dest with CKeyID h | CScriptID h => h | CNoDestination => [] end.

Lemma address_prefixes kc kc' t t' : kc ∈ networks -> kc' ∈ networks -> (t = PUBKEY_ADDRESS \/ t = SCRIPT_ADDRESS) -> (t' = PUBKEY_ADDRESS \/ t' = SCRIPT_ADDRESS) ->
  length (Base58Prefix kc t) = 2%nat /\ (Base58Prefix kc t = Base58Prefix kc' t' -> t = t' /\ Base58Prefix kc PUBKEY_ADDRESS = Base58Prefix kc' PUBKEY_ADDRESS).
Proof.
  intros Hk Hk' Ht Ht'. unfold networks in Hk, Hk'. rewrite !elem_of_cons, elem_of_nil in Hk, Hk'.
  destruct Hk as [->|[->|[->|[->|[]]]]], Hk' as [->|[->|[->|[->|[]]]]], Ht as [->| ->], Ht' as [->| ->]; cbn; (split; [done|]); intros E; (done || by split).
Qed.

Lemma decode_payload kc dest : kc ∈ networks -> destination_ok dest -> forall s, DecodeBase58Check s = Ok (Some (Base58Prefix kc (type_of dest) ++ destination_hash dest)) ->
  DecodeDestination kc s = Ok dest /\ forall kc', kc' ∈ networks -> Base58Prefix kc' PUBKEY_ADDRESS <> Base58Prefix kc PUBKEY_ADDRESS -> DecodeDestination kc' s = Ok CNoDestination.
Proof.
  intros Hk Hd s E. set (t := type_of dest) in *. assert (t = PUBKEY_ADDRESS \/ t = SCRIPT_ADDRESS) as Ht by (unfold t; destruct dest; auto). set (p := Base58Prefix kc t) in *.
  assert (length (destination_hash dest) = 20%nat) as Hl by (by destruct dest; destruct Hd).
  assert (forall kc' t', kc' ∈ networks -> (t' = PUBKEY_ADDRESS \/ t' = SCRIPT_ADDRESS) -> Base58Prefix kc' t' <> p -> (length (p ++ destination_hash dest) =? 20 + length (Base58Prefix kc' t'))%nat && has_prefix (Base58Prefix kc' t') (p ++ destination_hash dest) = false) as Hother.
  { intros kc' t' Hk' Ht' Hne. rewrite has_prefix_other, andb_false_r; [done| |done]. rewrite (proj1 (address_prefixes kc' kc t' t Hk' Hk Ht' Ht)). symmetry. apply (address_prefixes kc kc t t Hk Hk Ht Ht). }
  split.
  - unfold DecodeDestination. rewrite E. cbn [res_bind]. destruct dest as [|h|h]; [done| |]; cbn [type_of destination_hash] in t, p, Hl, Hother |- *.
    + unfold p at 1 2, t. rewrite (payload_app _ 20 h Hl). unfold p, t. by rewrite drop_app_length.
    + rewrite Hother; [|done|by left|intros E2; destruct (proj2 (address_prefixes kc kc PUBKEY_ADDRESS SCRIPT_ADDRESS Hk Hk (or_introl eq_refl) (or_intror eq_refl)) E2); done].
      unfold p at 1 2, t. rewrite (payload_app _ 20 h Hl). unfold p, t. by rewrite drop_app_length.
  - intros kc' Hk' Hne. unfold DecodeDestination. rewrite E. cbn [res_bind].
    assert (forall t', t' = PUBKEY_ADDRESS \/ t' = SCRIPT_ADDRESS -> Base58Prefix kc' t' <> p) as Hp by (intros t' Ht' E2; destruct (address_prefixes kc' kc t' t Hk' Hk Ht' Ht) as [_ Hx]; apply Hne; by apply Hx).
    by rewrite !Hother by auto.
Qed.

Lemma EncodeDestination_payload kc dest : destination_ok dest -> EncodeDestination kc dest = EncodeBase58Check (Base58Prefix kc (type_of dest) ++ destination_hash dest).
Proof. by destruct dest. Qed.

Lemma DecodeDestination_inv kc s : exists dest, DecodeDestination kc s = Ok dest /\ (dest = CNoDestination \/ destination_ok dest /\ is_string (EncodeDestination kc dest) s).
Proof.
  unfold DecodeDestination. destruct (DecodeBase58Check_spec s) as (r & Er & _). rewrite Er. cbn [res_bind]. destruct r as [data|]; [|eauto]. destruct (decoded_string s data Er) as [Hd Hs].
  destruct (_ && has_prefix (Base58Prefix kc PUBKEY_ADDRESS) data) eqn:E1; [|destruct (_ && has_prefix (Base58Prefix kc SCRIPT_ADDRESS) data) eqn:E2; [|eauto]].
  - apply payload in E1 as (h & -> & Hl). rewrite drop_app_length. eexists. split; [done|]. right. apply Forall_app in Hd as [_ Hh]. done.
  - apply payload in E2 as (h & -> & Hl). rewrite drop_app_length. eexists. split; [done|]. right. apply Forall_app in Hd as [_ Hh]. done.
Qed.

(** C27. Transparent addresses are exact on every network: an address of a key or script hash is a
    string that decodes to it, and to nothing on a network with other prefixes; whatever
    [DecodeDestination] accepts is, up to surrounding spaces, the address of its result. *)
Theorem transparent_addresses kc : kc ∈ networks ->
  (forall dest, destination_ok dest -> exists s, EncodeDestination kc dest = Ok s /\ DecodeDestination kc s = Ok dest /\
    forall kc', kc' ∈ networks -> Base58Prefix kc' PUBKEY_ADDRESS <> Base58Prefix kc PUBKEY_ADDRESS -> DecodeDestination kc' s = Ok CNoDestination) /\
  (forall s, exists dest, DecodeDestination kc s = Ok dest /\ (dest = CNoDestination \/ destination_ok dest /\ is_string (EncodeDestination kc dest) s)).
Proof.
  intros Hk. split; [|intros s; apply DecodeDestination_inv]. intros dest Hd. rewrite EncodeDestination_payload by done.
  assert (bytes_ok (Base58Prefix kc (type_of dest) ++ destination_hash dest)) as Hb by (apply Forall_app; split; [by apply network_prefixes|by destruct dest; destruct Hd]).
  destruct (EncodeBase58Check_decodes _ Hb) as (s & Es & Ds). exists s. split; [done|]. by apply decode_payload.
Qed.
Lemma encoded_text v core p x m q : EncodeBase58Check v = Ok core -> v = p ++ x -> length x = 20%nat -> bytes_ok p -> bytes_ok x -> no_leading 0 p -> p <> [] ->
  (2 <=? m) && (58 ^ (m - 1) <=? number 256 p * 256 ^ 24) && ((number 256 p + 1) * 256 ^ 24 <=? 58 ^ m) && (q * 58 ^ (m - 2) <=? number 256 p * 256 ^ 24) && ((number 256 p + 1) * 256 ^ 24 <=? (q + 1) * 58 ^ (m - 2)) = true ->
  zlen core = m /\ take 2 core = [digit_char (q / 58); digit_char (q mod 58)].
Proof.
  intros E -> Hx Hp Hxb Hn Hne. rewrite !andb_true_iff, !Z.leb_le. intros [[[[H1 H2] H3] H4] H5]. destruct (checksum_ok (p ++ x)) as [Cb Cl]. unfold EncodeBase58Check in E. apply EncodeBase58_of in E; [|by repeat (apply Forall_app; split)].
  assert (zlen (x ++ take 4 (hash256 (p ++ x))) = 24) as El by (unfold zlen; rewrite length_app, Hx, Cl; done).
  apply (first_characters _ p (x ++ take 4 (hash256 (p ++ x))) core m q E); rewrite ?El; try done; [by rewrite app_assoc|by apply Forall_app].
Qed.

(** C31. The addresses of a network look alike: those of the main network have 35 characters and start
    with Pt (a key) or pt (a script), those of the test and regression networks have 35 and start
    with tP or tt, whatever the hash and the checksum are.  Those of the development network have 36
    characters and all start with 44. *)
Theorem address_text dest s : destination_ok dest ->
  let is_key := match dest with CKeyID _ => true | _ => false end in
  (EncodeDestination CMainParams dest = Ok s -> zlen s = 35 /\ take 2 s = if is_key then chars "Pt" else chars "pt") /\
  (EncodeDestination CTestNetParams dest = Ok s \/ EncodeDestination CRegTestParams dest = Ok s -> zlen s = 35 /\ take 2 s = if is_key then chars "tP" else chars "tt") /\
  (EncodeDestination CDevNetParams dest = Ok s -> zlen s = 36 /\ take 2 s = chars "44").
Proof.
  intros Hd. assert (forall kc m q, kc ∈ networks -> EncodeDestination kc dest = Ok s -> no_leading 0 (Base58Prefix kc (type_of dest)) -> Base58Prefix kc (type_of dest) <> [] ->
    let p := Base58Prefix kc (type_of dest) in
    (2 <=? m) && (58 ^ (m - 1) <=? number 256 p * 256 ^ 24) && ((number 256 p + 1) * 256 ^ 24 <=? 58 ^ m) && (q * 58 ^ (m - 2) <=? number 256 p * 256 ^ 24) && ((number 256 p + 1) * 256 ^ 24 <=? (q + 1) * 58 ^ (m - 2)) = true ->
    zlen s = m /\ take 2 s = [digit_char (q / 58); digit_char (q mod 58)]) as Htext.
  { intros kc m q Hk E Hn Hne p. rewrite EncodeDestination_payload in E by done. apply (encoded_text _ s p (destination_hash dest) m q E); try done; [by destruct dest; destruct Hd|by apply network_prefixes|by destruct dest; destruct Hd]. }
  assert (CMainParams ∈ networks /\ CTestNetParams ∈ networks /\ CDevNetParams ∈ networks /\ CRegTestParams ∈ networks) as (N1 & N2 & N3 & N4) by (unfold networks; rewrite !elem_of_cons; tauto).
  destruct dest as [|h|h]; [done| |]; cbn [type_of] in Htext; cbv zeta in *; (split; [|split]).
  - intros E. by apply (Htext CMainParams 35 1327).
  - intros [E|E]; [by apply (Htext CTestNetParams 35 2980)|by apply (Htext CRegTestParams 35 2980)].
  - intros E. by apply (Htext CDevNetParams 36 177).
  - intros E. by apply (Htext CMainParams 35 2777).
  - intros [E|E]; [by apply (Htext CTestNetParams 35 3009)|by apply (Htext CRegTestParams 35 3009)].
  - intros E. by apply (Htext CDevNetParams 36 177).
Qed.
End Transparent.

(** ** Private keys *)

Section Keys.
Context `{Crypto} `{!CryptoLaws _} (seckey_verify : bytes -> bool).

(** The invariant of a valid key. *)
Definition key_ok (k : CKey) : Prop := fValid k = true /\ length (keydata k) = 32%nat /\ bytes_ok (keydata k) /\ seckey_verify (keydata k) = true.

Definition flag (fCompressed : bool) : bytes := if fCompressed then [1] else [].

Lemma key_Set_new x c : length x = 32%nat ->
  key_Set seckey_verify new_key x c = if seckey_verify x then {| fValid := true; fCompressed := c; keydata := x |} else new_key.
Proof.
  intros Hx. unfold key_Set. rewrite Hx. cbn [KEY_SIZE Nat.eqb negb]. destruct (seckey_verify x); cbn [negb]; [|done]. f_equal. cbn [keydata new_key]. rewrite length_replicate. apply take_ge. unfold KEY_SIZE. lia.
Qed.

Lemma DecodeSecret_payload kc s x c : length x = 32%nat -> DecodeBase58Check s = Ok (Some (Base58Prefix kc SECRET_KEY ++ x ++ flag c)) ->
  DecodeSecret seckey_verify kc s = Ok (key_Set seckey_verify new_key x c, None).
Proof.
  intros Hx E. unfold DecodeSecret. rewrite E. cbn [res_bind]. set (p := Base58Prefix kc SECRET_KEY). rewrite has_prefix_app, andb_true_r, drop_app_length, take_app_length' by done.
  assert (length (p ++ x ++ flag c) = length p + 32 + if c then 1 else 0)%nat as El by (rewrite !length_app, Hx; destruct c; cbn; lia). rewrite El. unfold KEY_SIZE.
  destruct c; cbn [flag]; [rewrite Nat.eqb_refl, (app_assoc p x [1]), last_last|rewrite Nat.add_0_r, Nat.eqb_refl]; cbn [andb orb Z.eqb Pos.eqb].
  - by rewrite orb_true_r.
  - by destruct (Nat.eqb_spec (length p + 32) (length p + 32 + 1)); [lia|].
Qed.

(** The string of 32 bytes with or without the compression flag, on the network. *)
Definition secret_string kc (s x : bytes) (c : bool) : Prop := length x = 32%nat /\ DecodeBase58Check s = Ok (Some (Base58Prefix kc SECRET_KEY ++ x ++ flag c)).

Lemma DecodeSecret_inv kc s : exists k err, DecodeSecret seckey_verify kc s = Ok (k, err) /\
  (k = new_key /\ is_Some err \/ err = None /\ exists x c, length x = 32%nat /\ k = key_Set seckey_verify new_key x c /\ DecodeBase58Check s = Ok (Some (Base58Prefix kc SECRET_KEY ++ x ++ flag c))).
Proof.
  unfold DecodeSecret. destruct (DecodeBase58Check_spec s) as (r & Er & _). rewrite Er. cbn [res_bind]. destruct r as [data|]; [|eauto 6]. set (p := Base58Prefix kc SECRET_KEY).
  destruct (_ && has_prefix p data) eqn:E; [|destruct (_ <? _)%nat; eauto 6]. apply andb_true_iff in E as [El Hp%has_prefix_inv]. set (y := drop (length p) data) in *. rewrite Hp in El |- *. rewrite length_app in El |- *. unfold KEY_SIZE in *.
  eexists _, _. split; [done|]. right. split; [done|]. apply orb_true_iff in El as [El%Nat.eqb_eq|[El%Nat.eqb_eq Hl%Z.eqb_eq]%andb_true_iff].
  - exists y, false. split; [lia|]. rewrite take_ge by lia. cbn [flag]. rewrite app_nil_r. split; [|done]. f_equal. apply Nat.eqb_neq. lia.
  - exists (take 32 y), true. split; [rewrite length_take; lia|]. rewrite El, Nat.eqb_refl. split; [done|]. do 3 f_equal. cbn [flag]. rewrite <- (take_drop 32 y) at 1. f_equal.
    destruct (drop 32 y) as [|b [|b' l]] eqn:Ed; apply (f_equal length) in Ed as Ed'; rewrite length_drop in Ed'; cbn in Ed'; [lia| |lia]. rewrite <- (take_drop 32 y), Ed, app_assoc, last_last in Hl. by subst b.
Qed.

(** C30. Private keys are exact: a valid key is encoded as a string that decodes to it; whatever
    string yields a valid key is, up to surrounding spaces, the encoding of that key, and any other
    string leaves the new key untouched.  A message is assigned exactly when the string is not that
    of 32 bytes on the network: so for every string of 32 bytes that are no key, compressed or not,
    the key is invalid and no message is assigned, and every 32 bytes have such a string. *)
Theorem private_keys kc : kc ∈ networks ->
  (forall k, key_ok k -> exists s, EncodeSecret kc k = Ok s /\ DecodeSecret seckey_verify kc s = Ok (k, None)) /\
  (forall s, exists k err, DecodeSecret seckey_verify kc s = Ok (k, err) /\ (k = new_key \/ key_ok k /\ err = None /\ is_string (EncodeSecret kc k) s) /\
    (err = None <-> exists x c, secret_string kc s x c)) /\
  (forall x c, length x = 32%nat -> bytes_ok x -> exists s, secret_string kc s x c) /\
  (forall s x c, secret_string kc s x c -> seckey_verify x = false -> DecodeSecret seckey_verify kc s = Ok (new_key, None)).
Proof.
  intros Hk. assert (forall x c, bytes_ok x -> bytes_ok (Base58Prefix kc SECRET_KEY ++ x ++ flag c)) as Hb.
  { intros x c Hx. apply Forall_app. split; [by apply network_prefixes|]. apply Forall_app. split; [done|]. destruct c; repeat constructor; lia. }
  assert (forall k, fValid k = true -> length (keydata k) = 32%nat -> EncodeSecret kc k = EncodeBase58Check (Base58Prefix kc SECRET_KEY ++ keydata k ++ flag (fCompressed k))) as Henc.
  { intros k V1 V2. unfold EncodeSecret, key_bytes, secret_size. rewrite V1, take_ge by lia. cbn [negb]. by destruct (fCompressed k); cbn [flag]; rewrite ?app_nil_r, ?app_assoc. }
  split_and!.
  - intros k (V1 & V2 & V3 & V4). rewrite Henc by done. destruct (EncodeBase58Check_decodes _ (Hb _ (fCompressed k) V3)) as (s & Es & Ds). exists s. split; [done|]. rewrite (DecodeSecret_payload kc s (keydata k) (fCompressed k)) by done.
    rewrite key_Set_new, V4 by done. destruct k; cbn in *. by subst.
  - intros s. destruct (DecodeSecret_inv kc s) as (k & err & E & Hcase). exists k, err. split; [done|]. destruct Hcase as [[-> [msg ->]]|(-> & x & c & Hx & -> & Ds)].
    + split; [by left|]. split; [done|]. intros (x & c & Hx & Ds). by rewrite (DecodeSecret_payload kc s x c) in E by done.
    + split; [|split; [|done]; intros _; by exists x, c]. rewrite key_Set_new by done. destruct (seckey_verify x) eqn:Ev; [right|by left].
      destruct (decoded_string s _ Ds) as [Hd Hs]. apply Forall_app in Hd as [_ Hd]. apply Forall_app in Hd as [Hd _]. split; [done|]. split; [done|]. by rewrite Henc by done.
  - intros x c Hx Hxb. destruct (EncodeBase58Check_decodes _ (Hb x c Hxb)) as (s & _ & Ds). by exists s.
  - intros s x c [Hx Ds] Hv. rewrite (DecodeSecret_payload kc s x c) by done. by rewrite key_Set_new, Hv by done.
Qed.

(** ** Extended keys *)

Lemma byte_bit n k i : 0 <= k -> 0 <= i -> Z.testbit (Z.shiftl (Z.land (Z.shiftr n k) 0xFF) k) i = Z.testbit n i && (k <=? i) && (i <? k + 8).
Proof.
  intros Hk Hi. rewrite Z.shiftl_spec by lia. change 0xFF with (Z.ones 8). destruct (Z.leb_spec k i); [|rewrite Z.testbit_neg_r by lia; by rewrite andb_false_r].
  rewrite Z.land_spec, Z.shiftr_spec by lia. replace (i - k + k) with i by lia. rewrite andb_true_r. f_equal. destruct (Z.ltb_spec i (k + 8)); [by apply Z.ones_spec_low; lia|by apply Z.ones_spec_high; lia].
Qed.

Lemma child_roundtrip a f n b : length f = 4%nat -> 0 <= n < 2 ^ 32 -> code_child ([a] ++ f ++ child_bytes n ++ b) = n.
Proof.
  intros Hf Hn. destruct f as [|f1 [|f2 [|f3 [|f4 [|f5 f]]]]]; try done. unfold code_child, child_bytes. cbn [app nth].
  assert (Z.lor (Z.lor (Z.lor (Z.shiftl (Z.land (Z.shiftr n 24) 255) 24) (Z.shiftl (Z.land (Z.shiftr n 16) 255) 16)) (Z.shiftl (Z.land (Z.shiftr n 8) 255) 8)) (Z.land (Z.shiftr n 0) 255) = n) as ->; [|by apply u32_id].
  rewrite <- (Z.shiftl_0_r (Z.land (Z.shiftr n 0) 255)). apply Z.bits_inj'. intros i Hi. rewrite !Z.lor_spec, !byte_bit by lia.
  destruct (Z.testbit n i) eqn:Et; [|done]. assert (i < 32) as H32. { destruct (Z.lt_ge_cases i 32); [done|]. rewrite <- (Z.mod_small n (2 ^ 32)), Z.mod_pow2_bits_high in Et by lia. done. }
  cbn [andb]. repeat match goal with |- context [?x <=? ?y] => destruct (Z.leb_spec x y) | |- context [?x <? ?y] => destruct (Z.ltb_spec x y) end; done || lia.
Qed.

Record ext_ok (k : CExtKey) : Prop := {
  ext_depth_ok : is_byte (nDepth k);
  ext_finger_ok : length (vchFingerprint k) = 4%nat /\ bytes_ok (vchFingerprint k);
  ext_child_ok : 0 <= nChild k < 2 ^ 32;
  ext_chain_ok : length (chaincode k) = 32%nat /\ bytes_ok (chaincode k);
  ext_key_ok : key_ok (ext_key k) /\ fCompressed (ext_key k) = true }.

Record pub_ok (k : CExtPubKey) : Prop := {
  pub_depth_ok : is_byte (pub_nDepth k);
  pub_finger_ok : length (pub_vchFingerprint k) = 4%nat /\ bytes_ok (pub_vchFingerprint k);
  pub_child_ok : 0 <= pub_nChild k < 2 ^ 32;
  pub_chain_ok : length (pub_chaincode k) = 32%nat /\ bytes_ok (pub_chaincode k);
  pub_key_ok : exists key, ext_pubkey k = Some key /\ pubkey_set key = Some key /\ zlen key = 33 /\ bytes_ok key }.

Lemma child_bytes_ok n : bytes_ok (child_bytes n).
Proof.
  unfold child_bytes. assert (forall x, is_byte (Z.land x 0xFF)) as Hx; [|by repeat constructor; apply Hx]. intros x. unfold is_byte. change 0xFF with (Z.ones 8). rewrite Z.land_ones by lia. by apply Z.mod_pos_bound.
Qed.

(** The fields of a code of 74 bytes. *)
Lemma ext_code_fields a f n c b : length f = 4%nat -> length c = 32%nat -> 0 <= n < 2 ^ 32 -> let code := [a] ++ f ++ child_bytes n ++ c ++ b in
  nth 0 code 0 = a /\ take 4 (drop 1 code) = f /\ code_child code = n /\ take 32 (drop 9 code) = c /\ drop 41 code = b /\ length code = (41 + length b)%nat.
Proof.
  intros Hf Hc Hn code. pose proof (child_roundtrip a f n (c ++ b) Hf Hn) as Hch. fold code in Hch.
  destruct f as [|f1 [|f2 [|f3 [|f4 [|f5 f]]]]]; try done. assert (drop 9 code = c ++ b) as E9 by done. split_and!; try done; [by rewrite E9, take_app_length'|change 41%nat with (9 + 32)%nat; by rewrite <- drop_drop, E9, drop_app_length'|].
  unfold code. cbn. rewrite length_app. lia.
Qed.

(** Extended keys read back: the decoders return the key that was encoded. *)
Theorem extended_keys kc : kc ∈ networks ->
  (forall k, ext_ok k -> exists s, EncodeExtKey kc k = Ok s /\ DecodeExtKey seckey_verify kc s = Ok (Some k)) /\
  (forall k, pub_ok k -> exists s, EncodeExtPubKey kc k = Ok s /\ DecodeExtPubKey kc s = Ok (Some k)).
Proof.
  intros Hk. pose proof (child_bytes_ok : forall n, Forall is_byte _) as Hcb. pose proof (network_prefixes kc Hk) as Hp. split; intros k Hok.
  - destruct Hok as [D1 [F1 F2] C1 [H1 H2] [(V1 & V2 & V3 & V4) V5]]. unfold EncodeExtKey, ext_Encode, secret_size. rewrite V1, V2. cbn [Nat.eqb negb res_bind]. rewrite take_ge by lia. destruct (ext_code_fields (nDepth k) (vchFingerprint k) (nChild k) (chaincode k) ([0] ++ keydata (ext_key k)) F1 H1 C1) as (E1 & E2 & E3 & E4 & E5 & E6).
    set (code := [nDepth k] ++ _) in *. assert (bytes_ok code) as Hcode. { unfold code. repeat (apply Forall_app; split); auto; repeat constructor; done. }
    destruct (EncodeBase58Check_decodes (Base58Prefix kc EXT_SECRET_KEY ++ code)) as (s & Es & Ds); [by apply Forall_app|]. exists s. split; [done|]. unfold DecodeExtKey. rewrite Ds. cbn [res_bind].
    rewrite payload_app by (rewrite E6; unfold BIP32_EXTKEY_SIZE; cbn [app length]; lia). rewrite drop_app_length. unfold ext_Decode. rewrite E1, E2, E3, E4. change 42%nat with (41 + 1)%nat. rewrite <- drop_drop, E5. change (drop 1 ([0] ++ keydata (ext_key k))) with (keydata (ext_key k)). rewrite key_Set_new, V4 by done.
    do 2 f_equal. destruct k as [? ? ? ? []]; cbn in *. by subst.
  - destruct Hok as [D1 [F1 F2] C1 [H1 H2] (key & K1 & K2 & K3 & K4)]. unfold EncodeExtPubKey, pub_Encode. rewrite K1, K3. cbn [COMPRESSED_PUBLIC_KEY_SIZE Z.eqb Pos.eqb negb res_bind]. destruct (ext_code_fields (pub_nDepth k) (pub_vchFingerprint k) (pub_nChild k) (pub_chaincode k) key F1 H1 C1) as (E1 & E2 & E3 & E4 & E5 & E6).
    set (code := [pub_nDepth k] ++ _) in *. assert (bytes_ok code) as Hcode. { unfold code. repeat (apply Forall_app; split); auto; repeat constructor; done. }
    destruct (EncodeBase58Check_decodes (Base58Prefix kc EXT_PUBLIC_KEY ++ code)) as (s & Es & Ds); [by apply Forall_app|]. exists s. split; [done|]. unfold DecodeExtPubKey. rewrite Ds. cbn [res_bind].
    rewrite payload_app by (rewrite E6; unfold zlen in K3; unfold BIP32_EXTKEY_SIZE; lia). rewrite drop_app_length. unfold pub_Decode. rewrite E1, E2, E3, E4, E5, K2. do 2 f_equal. destruct k; cbn in *. by subst.
Qed.
End Keys.

(** ** Examples

    The vectors are those of the unit tests, with the hash functions of the node. *)

#[local] Instance key_crypto : Crypto := node_crypto (fun _ => true).
#[local] Instance key_crypto_laws : CryptoLaws key_crypto := node_crypto_laws _.

Definition demo_id : bytes := be_bytes 20 0xf23b483b147a905138c83e275d463b5b6248789e.
Definition demo_address : bytes := chars "Ptq6hqeeAXta25PGaKHs1ymktHbEb8ugxeG".

Lemma demo_ok : destination_ok (CKeyID demo_id).
Proof. split; [done|apply be_bytes_ok]. Qed.

Lemma demo_encoded : EncodeDestination CMainParams (CKeyID demo_id) = Ok demo_address.
Proof. vm_compute. reflexivity. Qed.

Lemma transparent_addresses_witness :
  EncodeDestination CMainParams (CKeyID demo_id) = Ok demo_address /\ DecodeDestination CMainParams demo_address = Ok (CKeyID demo_id) /\ DecodeDestination CDevNetParams demo_address = Ok CNoDestination.
Proof.
  split; [exact demo_encoded|]. assert (CMainParams ∈ networks) as Hk by (unfold networks; rewrite elem_of_cons; by left). destruct (transparent_addresses CMainParams Hk) as [Hrt _]. destruct (Hrt (CKeyID demo_id) demo_ok) as (s & Es & Ds & Hother).
  rewrite demo_encoded in Es. injection Es as <-. split; [done|]. apply Hother; [unfold networks; rewrite !elem_of_cons; tauto|done].
Defined.

Lemma address_text_witness : zlen demo_address = 35 /\ take 2 demo_address = chars "Pt".
Proof. exact (proj1 (address_text (CKeyID demo_id) demo_address demo_ok) demo_encoded). Defined.

Definition demo_verify (x : bytes) : bool := (0 <? be_val x) && (be_val x <? 0xfffffffffffffffffffffffffffffffebaaedce6af48a03bbfd25e8cd0364141).
Definition demo_private : CKey := {| fValid := true; fCompressed := true; keydata := be_bytes 32 0x55c9bccb9ed68446d1b75273bbce89d7fe013a8acd1625514420fb2aca1a21c4 |}.
Definition demo_secret : bytes := chars "Kz6UJmQACJmLtaQj5A3JAge4kVTNQ8gbvXuwbmCj7bsaabudb3RD".

Lemma private_keys_witness :
  EncodeSecret CMainParams demo_private = Ok demo_secret /\ DecodeSecret demo_verify CMainParams demo_secret = Ok (demo_private, None).
Proof.
  assert (EncodeSecret CMainParams demo_private = Ok demo_secret) as E by (vm_compute; reflexivity). split; [done|]. assert (CMainParams ∈ networks) as Hk by (unfold networks; rewrite elem_of_cons; by left).
  destruct (private_keys demo_verify CMainParams Hk) as [Hrt _]. destruct (Hrt demo_private) as (s & Es & Ds); [|rewrite E in Es; by injection Es as <-].
  split; [done|]. split; [done|]. split; [apply be_bytes_ok|]. vm_compute. reflexivity.
Defined.
