(* ===== verification/SaplingStrings.v ===== *)
(** * Sapling addresses and keys as strings

    The serialized forms of fixed size as an interface with laws, and the Bech32 strings of payment
    addresses, extended viewing keys and extended spending keys, exact up to upper case. *)

From Stdlib Require Import String.
From stdpp Require Import list.
From S2P Require Import Prelude Serialize Transaction Base58 Bech32 ConvertBits KeyIO KeyIOProps.
Open Scope Z_scope.

(** ** Sapling addresses and keys *)

(** A format of a fixed size: the objects with [ok] fields are the strings of [n] bytes. *)
Class FixedSize {A : Type} (ser : A -> bytes) (unser : reader A) (ok : A -> Prop) (n : Z) : Prop := {
  fixed_ser x : ok x -> bytes_ok (ser x) /\ zlen (ser x) = n /\ reads ser unser x;
  fixed_unser data rest : bytes_ok data -> zlen data = n -> exists x, ok x /\ unser (data ++ rest) = Ok (x, rest) /\ ser x = data }.

Definition hash_ok (n : nat) (x : bytes) : Prop := length x = n /\ bytes_ok x.

#[export] Instance fixed_raw n : FixedSize id (stream_read n) (hash_ok n) (Z.of_nat n).
Proof.
  split; [intros x [Hl Hb]; split; [done|]; split; [unfold zlen; cbn; lia|intros s; by apply stream_read_app]|].
  intros data rest Hd Hl. unfold zlen in Hl. exists data. split; [split; [lia|done]|]. split; [apply stream_read_app; lia|done].
Qed.

Lemma fixed_number n (ser : Z -> bytes) : (forall x, 0 <= x < 256 ^ Z.of_nat n -> ser x = le_bytes n x) ->
  FixedSize ser (ser_readdata n) (fun x => 0 <= x < 256 ^ Z.of_nat n) (Z.of_nat n).
Proof.
  intros Hser. split.
  - intros x Hx. rewrite Hser by done. split; [apply le_bytes_ok|]. split; [unfold zlen; by rewrite length_le_bytes|]. intros s. rewrite Hser by done. by apply ser_roundtrip.
  - intros data rest Hd Hl. unfold zlen in Hl. exists (le_val data). pose proof (le_val_range data Hd) as Hr. assert (length data = n) as Hn by lia. unfold zlen in Hr. rewrite Hn in Hr. split; [done|].
    rewrite (Hser _ Hr), <- Hn. split; [|by apply le_bytes_le_val]. rewrite <- (le_bytes_le_val data Hd) at 2. by apply ser_roundtrip; rewrite Hn.
Qed.

#[export] Instance fixed_u32 : FixedSize ser_u32 ser_readdata32 (fun x => 0 <= x < 256 ^ 4) 4.
Proof. apply (fixed_number 4). intros x Hx. unfold ser_u32, ser_writedata32. by rewrite u32_id. Qed.

#[export] Instance fixed_u8 : FixedSize (ser_writedata8 []) ser_readdata8 (fun x => 0 <= x < 256 ^ 1) 1.
Proof. apply (fixed_number 1). intros x Hx. unfold ser_writedata8. by rewrite u8_id. Qed.

(** The first field of a string. *)
Lemma fixed_field {A} (ser : A -> bytes) (unser : reader A) ok n `{!FixedSize ser unser ok n} m data rest : 0 <= n -> 0 <= m -> bytes_ok data -> zlen data = n + m ->
  exists x data', ok x /\ unser (data ++ rest) = Ok (x, data' ++ rest) /\ data = ser x ++ data' /\ bytes_ok data' /\ zlen data' = m.
Proof.
  intros Hn Hm Hd Hl. unfold zlen in *. set (k := Z.to_nat n). rewrite <- (take_drop k data) in Hd. apply Forall_app in Hd as [H1 H2].
  assert (zlen (take k data) = n) as L1 by (unfold zlen; rewrite length_take; lia). destruct (fixed_unser (take k data) (drop k data ++ rest) H1 L1) as (x & Hx & E & Es). exists x, (drop k data).
  split; [done|]. rewrite Es, take_drop. rewrite app_assoc, take_drop in E. split_and!; try done. rewrite length_drop. lia.
Qed.

(** Reads the next field and leaves [m] bytes. *)
Ltac next_field ser unser m :=
  match goal with
  | |- context [unser (?data ++ ?rest)] =>
      let x := fresh "x" in let more := fresh "more" in let E := fresh "E" in
      destruct (fixed_field ser unser _ _ m data rest) as (x & more & ? & E & -> & ? & ?); [lia|lia|done|lia|]; rewrite E; clear E; cbn [res_bind fst snd]
  end.

Definition address_ok (a : SaplingPaymentAddress) : Prop := hash_ok 11 (d a) /\ hash_ok 32 (pk_d a).
Definition fvk_ok (k : SaplingFullViewingKey) : Prop := hash_ok 32 (ak k) /\ hash_ok 32 (nk k) /\ hash_ok 32 (fvk_ovk k).
Definition expsk_ok (k : SaplingExpandedSpendingKey) : Prop := hash_ok 32 (ask k) /\ hash_ok 32 (nsk k) /\ hash_ok 32 (ovk k).
Definition xfvk_ok (k : SaplingExtendedFullViewingKey) : Prop :=
  0 <= xfvk_depth k < 256 ^ 1 /\ 0 <= xfvk_parentFVKTag k < 256 ^ 4 /\ 0 <= xfvk_childIndex k < 256 ^ 4 /\ hash_ok 32 (xfvk_chaincode k) /\ fvk_ok (fvk k) /\ hash_ok 32 (xfvk_dk k).
Definition xsk_ok (k : SaplingExtendedSpendingKey) : Prop :=
  0 <= xsk_depth k < 256 ^ 1 /\ 0 <= xsk_parentFVKTag k < 256 ^ 4 /\ 0 <= xsk_childIndex k < 256 ^ 4 /\ hash_ok 32 (xsk_chaincode k) /\ expsk_ok (expsk k) /\ hash_ok 32 (xsk_dk k).

Lemma no_bytes (data : bytes) : zlen data = 0 -> data = [].
Proof. destruct data; [done|]. rewrite zlen_cons. pose proof (zlen_nonneg data). lia. Qed.

Ltac no_more := match goal with H : zlen ?data = 0 |- _ => rewrite (no_bytes data H) end.

(** Reads back a field that was written. *)
Ltac read_back ser unser H := rewrite (proj2 (proj2 (fixed_ser (ser := ser) (unser := unser) _ H))); cbn [res_bind fst snd].
(** The bytes and the length of a field. *)
Ltac written ser unser H := let B := fresh "B" in let L := fresh "L" in destruct (fixed_ser (ser := ser) (unser := unser) _ H) as (B & L & _).

#[export] Instance fixed_address : FixedSize ser_address unser_address address_ok 43.
Proof.
  split.
  - intros a [H1 H2]. written (@id bytes) (stream_read 11) H1. written (@id bytes) (stream_read 32) H2. unfold ser_address, reads. split; [by apply Forall_app|]. split; [rewrite zlen_app; unfold id in *; lia|].
    intros s. rewrite <- app_assoc. unfold unser_address. read_back (@id bytes) (stream_read 11) H1. read_back (@id bytes) (stream_read 32) H2. by destruct a.
  - intros data rest Hd Hl. unfold unser_address. next_field (@id bytes) (stream_read 11) 32. next_field (@id bytes) (stream_read 32) 0. no_more.
    eexists. split; [|split; [done|]]; [by split|]. unfold ser_address. cbn. by rewrite app_nil_r.
Qed.

Ltac three_hashes ser unser ok :=
  split;
  [intros a (H1 & H2 & H3); written (@id bytes) (stream_read 32) H1; written (@id bytes) (stream_read 32) H2; written (@id bytes) (stream_read 32) H3; unfold ser, reads;
   split; [by repeat first [done|apply Forall_app; split]|]; split; [rewrite !zlen_app; unfold id in *; lia|];
   intros s; rewrite <- !app_assoc; unfold unser; read_back (@id bytes) (stream_read 32) H1; read_back (@id bytes) (stream_read 32) H2; read_back (@id bytes) (stream_read 32) H3; by destruct a
  |intros data rest Hd Hl; unfold unser; next_field (@id bytes) (stream_read 32) 64; next_field (@id bytes) (stream_read 32) 32;
   next_field (@id bytes) (stream_read 32) 0; no_more;
   eexists; split; [|split; [done|]]; [by split|]; unfold ser; cbn; by rewrite app_nil_r].

#[export] Instance fixed_fvk : FixedSize ser_fvk unser_fvk fvk_ok 96.
Proof. three_hashes ser_fvk unser_fvk fvk_ok. Qed.
#[export] Instance fixed_expsk : FixedSize ser_expsk unser_expsk expsk_ok 96.
Proof. three_hashes ser_expsk unser_expsk expsk_ok. Qed.

Ltac extended_key ser unser sub unsub :=
  split;
  [intros a (H1 & H2 & H3 & H4 & H5 & H6); written (ser_writedata8 []) ser_readdata8 H1; written ser_u32 ser_readdata32 H2; written ser_u32 ser_readdata32 H3;
   written (@id bytes) (stream_read 32) H4; written sub unsub H5; written (@id bytes) (stream_read 32) H6; unfold ser, reads;
   split; [by repeat first [done|apply Forall_app; split]|]; split; [rewrite !zlen_app; unfold id in *; lia|];
   intros s; rewrite <- !app_assoc; unfold unser; read_back (ser_writedata8 []) ser_readdata8 H1; read_back ser_u32 ser_readdata32 H2; read_back ser_u32 ser_readdata32 H3;
   read_back (@id bytes) (stream_read 32) H4; read_back sub unsub H5; read_back (@id bytes) (stream_read 32) H6; by destruct a
  |intros data rest Hd Hl; unfold unser; next_field (ser_writedata8 []) ser_readdata8 168; next_field ser_u32 ser_readdata32 164; next_field ser_u32 ser_readdata32 160;
   next_field (@id bytes) (stream_read 32) 128; next_field sub unsub 32; next_field (@id bytes) (stream_read 32) 0; no_more;
   eexists; split; cycle 1; [split; [done|unfold ser; cbn -[app]; by rewrite app_nil_r]|by repeat first [assumption|split]]].

#[export] Instance fixed_xfvk : FixedSize ser_xfvk unser_xfvk xfvk_ok 169.
Proof. extended_key ser_xfvk unser_xfvk ser_fvk unser_fvk. Qed.
#[export] Instance fixed_xsk : FixedSize ser_xsk unser_xsk xsk_ok 169.
Proof. extended_key ser_xsk unser_xsk ser_expsk unser_expsk. Qed.

Definition hrp_check (hrp : bytes) : bool :=
  negb (is_nil hrp) && forallb (fun c => (33 <=? c) && (c <=? 126) && negb (isupperex c)) hrp && (length hrp <=? 29)%nat.

Lemma hrp_check_ok hrp : hrp_check hrp = true -> hrp_ok hrp /\ (length hrp <= 29)%nat.
Proof.
  unfold hrp_check. rewrite !andb_true_iff, Nat.leb_le. intros [[H1 H2] H3]. split; [|done]. split; [by destruct hrp|]. rewrite forallb_forall in H2.
  split; apply Forall_forall; intros c Hc%list_elem_of_In%H2; rewrite !andb_true_iff, Z.leb_le, Z.leb_le, negb_true_iff in Hc; [unfold printable; lia|tauto].
Qed.

Lemma network_hrp kc type : kc ∈ networks -> hrp_ok (Bech32HRP kc type) /\ (length (Bech32HRP kc type) <= 29)%nat.
Proof.
  intros Hk. apply hrp_check_ok. unfold networks in Hk. rewrite !elem_of_cons, elem_of_nil in Hk. by destruct Hk as [->|[->|[->|[->|[]]]]]; destruct type; vm_compute.
Qed.

(** A string of one network and kind says nothing on a network where the kind has another name. *)
Definition foreign {A : Type} (decode : KeyConstants -> bytes -> res ios_failure (or_invalid A)) (type : Bech32Type) (kc : KeyConstants) (s : bytes) : Prop :=
  forall kc', kc' ∈ networks -> Bech32HRP kc' type <> Bech32HRP kc type -> decode kc' s = Ok InvalidEncoding.

(** Encoder and decoder of one kind of object are inverse, up to upper case. *)
Definition exact_strings {A : Type} (ok : A -> Prop) (encode : KeyConstants -> or_invalid A -> bytes) (decode : KeyConstants -> bytes -> res ios_failure (or_invalid A)) (type : Bech32Type) (kc : KeyConstants) : Prop :=
  (forall x, ok x -> decode kc (encode kc (Valid x)) = Ok (Valid x) /\ foreign decode type kc (encode kc (Valid x))) /\
  (forall s, exists r, decode kc s = Ok r /\ match r with InvalidEncoding => True | Valid x => ok x /\ encode kc r = map LowerCase s end).

Section Sapling.
Context {A : Type} (ser : A -> bytes) (unser : reader A) (ok : A -> Prop) (n : Z) `{!FixedSize ser unser ok n}.
Context (type : Bech32Type) (Hsize : 0 <= n <= 169).

Definition sapling_encode (kc : KeyConstants) (x : or_invalid A) : bytes :=
  match x with Valid x => Encode (Bech32HRP kc type) (ConvertBits 8 5 true (ser x)).1 | InvalidEncoding => [] end.

Lemma sapling_exact kc : kc ∈ networks -> exact_strings ok sapling_encode (fun kc s => DecodeSapling kc unser s type ((n * 8 + 4) / 5)) type kc.
Proof.
  intros Hk. destruct (network_hrp kc type Hk) as [Hh Hl]. set (hrp := Bech32HRP kc type) in *. split.
  - intros x Hx. destruct (fixed_ser x Hx) as (Hb & Hn & Hr). destruct (bits_8_5_8 (ser x) Hb) as (values & E1 & Hv & _ & Hpad & E2). unfold sapling_encode. fold hrp. rewrite E1. cbn [fst].
    assert (zlen values = (n * 8 + 4) / 5) as Hc by (apply Z.div_unique with (r := n * 8 + 4 - 5 * zlen values); lia).
    assert (Decode (Encode hrp values) = (hrp, values)) as Hdec. { apply Encode_roundtrip; [done|done|]. unfold zlen in *. lia. }
    split.
    + unfold DecodeSapling. rewrite Hdec. cbn [fst snd]. fold hrp. rewrite (proj2 (bytes_eqb_spec hrp hrp) eq_refl), Hc, Z.eqb_refl. cbn [andb]. rewrite E2. specialize (Hr []). rewrite app_nil_r in Hr. by rewrite Hr.
    + intros kc' Hk' Hne. unfold DecodeSapling. rewrite Hdec. cbn [fst snd]. destruct (bytes_eqb hrp (Bech32HRP kc' type)) eqn:Eq; [|done]. apply bytes_eqb_spec in Eq. by destruct (Hne (eq_sym Eq)).
  - intros s. unfold DecodeSapling. destruct (Decode s) as [h values] eqn:Ed. cbn [fst snd]. destruct (bytes_eqb h (Bech32HRP kc type) && _) eqn:Eq; [|by exists InvalidEncoding].
    apply andb_true_iff in Eq as [->%bytes_eqb_spec Hc%Z.eqb_eq]. destruct (Decode_Encode s _ values Ed ltac:(apply Hh)) as (_ & Hv & Henc & _). destruct (ConvertBits 5 8 false values) as [data [|]] eqn:Ec; [|by exists InvalidEncoding].
    destruct (bits_5_8_5 values data Hv Ec) as [Hd E1]. destruct (bits_8_5_8 data Hd) as (vs & E2 & _ & _ & Hpad & _). rewrite E1 in E2. injection E2 as <-.
    assert (zlen data = n) as Hn. { pose proof (Z.div_mod (n * 8 + 4) 5 ltac:(lia)). pose proof (Z.mod_pos_bound (n * 8 + 4) 5 ltac:(lia)). lia. }
    destruct (fixed_unser data [] Hd Hn) as (x & Hx & Eu & Es). rewrite app_nil_r in Eu. rewrite Eu. cbn [res_bind fst]. exists (Valid x). split; [done|]. split; [done|]. unfold sapling_encode. by rewrite Es, E1.
Qed.
End Sapling.

(** C28. The strings of Sapling addresses, viewing keys and spending keys are exact on every network:
    the string of an object decodes to it, and to nothing on a network with another
    human-readable part; whatever a decoder accepts is, in lower case, the string of its result.
    The deserialization never fails: the number of characters determines the number of bytes. *)
Theorem sapling_strings kc : kc ∈ networks ->
  exact_strings address_ok EncodePaymentAddress DecodePaymentAddress SAPLING_PAYMENT_ADDRESS kc /\
  exact_strings xfvk_ok EncodeViewingKey DecodeViewingKey SAPLING_EXTENDED_FVK kc /\
  exact_strings xsk_ok EncodeSpendingKey DecodeSpendingKey SAPLING_EXTENDED_SPEND_KEY kc.
Proof.
  intros Hk. split_and!; [exact (sapling_exact ser_address unser_address address_ok 43 SAPLING_PAYMENT_ADDRESS ltac:(lia) kc Hk)|exact (sapling_exact ser_xfvk unser_xfvk xfvk_ok 169 SAPLING_EXTENDED_FVK ltac:(lia) kc Hk)|].
  exact (sapling_exact ser_xsk unser_xsk xsk_ok 169 SAPLING_EXTENDED_SPEND_KEY ltac:(lia) kc Hk).
Qed.

Definition demo_zaddr : SaplingPaymentAddress := {| d := replicate 11 1; pk_d := replicate 32 2 |}.

Lemma sapling_strings_witness : DecodePaymentAddress CMainParams (EncodePaymentAddress CMainParams (Valid demo_zaddr)) = Ok (Valid demo_zaddr).
Proof.
  assert (CMainParams ∈ networks) as Hk by (unfold networks; rewrite elem_of_cons; by left). destruct (sapling_strings CMainParams Hk) as [[Ha _] _]. apply Ha. split; (split; [done|]); repeat constructor; lia.
Defined.
